(* ===== verification/_CoqProject ===== *)
-Q . S2P
Prelude.v
FileOp.v
StringMap.v
MemPool.v
MileArray.v
MileHashMap.v
Bitmark.v
RowidList.v
SetOperator.v
SegRowid.v
Suffix.v
LowData.v
Doclist.v
HashIndex.v
HashIndexSpec.v
Storage.v
VStorage.v
HashMemCompress.v
Hash.v
Compare.v
LdbComparator.v
DynHash.v
DynHashSpec.v
Column.v
FilterIndex.v
RowData.v
DataField.v
FilterCompress.v
FilterCompressSpec.v
IndexField.v
IndexFieldSpec.v
FilterFieldSpec.v
Segment.v
SegmentSpec.v
Table.v
TableSpec.v
TableIndexSpec.v
Binlog.v
BinlogSpec.v
BinlogSync.v
Slave.v
SlaveSpec.v
DataBuffer.v
DbRecord.v
DbRecordSpec.v
Db.v
DbRecover.v
CatalogSpec.v
DbSpec.v
DbReplica.v
DbStartSpec.v
DatabaseSpec.v
DbSlave.v
DbQuery.v
Row.v
Aggr.v
Expression.v
AggrSpec.v
ResultSet.v
ResultSetSpec.v
GroupSpec.v
DocTable.v
DocScan.v
Execute.v
SelectSpec.v
QuerySpec.v
ScanSpec.v
DbSelect.v
DbGroup.v
DbModify.v
Packet.v
PacketSpec.v
Server.v
Command.v
ServerSpec.v
