(* ===== verification/Prelude.v ===== *)
(** * Mile document server: a verification library for the [docdb] engine

    Mile stores documents in tables, answers queries from per-column indexes and
    runs as a document server (C, verified here) behind a merge server (Java).
    All paths below are relative to [src/docserver/indexengine/]; the engine is
    [src/storage/docdb/] with helpers in [src/common/].

    ** The program

    A table is a sequence of segments of at most [row_limit] documents.  In a
    segment a document has a number, its row, counted from 0.  Every segment has

    - a row store with the whole documents ([data_field.c]);
    - per indexed column an index of one of the kinds: a hash index
      ([hash_index.c], over the chained rows of [doclist.c]) from a value's
      64-bit hash ([hash.c]) to the rows with the value, or a filter index
      ([filter_index.c], over [storage.c] or [vstorage.c]) from a row to its
      value;
    - once it is full, compressed and read-only forms of these
      ([hash_memcompress.c], [filtercompress.c]).

    The row store, the filter index and its storages are columns: arrays of
    values with a null mark ([bitmark.c]) or a location array.  All of them live
    in memory-mapped files ([file_op.c]).  A query names rows by an index
    condition in reverse Polish form ([suffix.c]); each lookup yields one row id
    list per segment ([rowid_list.c]) and the operators combine them
    ([set_operator.c]).

    A database ([db.c]) is a catalog of tables.  Every change is written to a
    binary log ([src/storage/binlog.c]) and confirmed there by a second record; the
    log is replayed at the start of the server and sent to slaves
    ([src/execute/slave.c]), which apply the confirmed changes.

    A statement is analysed into a plan ([SqlAnalyzer.cpp]) whose steps hand their
    results on ([ExecutePlan.cpp], [MainStep.cpp] and the other steps of
    [src/execute/]): an iterator over the documents that the index condition and
    the time condition leave ([DocIterator.cpp], [DocTableMgr.cpp]), the where
    clause on each of them ([Expression.cpp]), and what is done with those that
    satisfy it: they are deleted, updated or collected in a result set
    ([CommonRS.cpp], [DistinctRS.cpp], [OrderedRS.cpp], [DistOrdRS.cpp],
    [GroupRS.cpp] with the functions of [AggrFunc.cpp]), over the array and the
    hash tables of [src/common/].

    A connection receives packets ([src/protocol/protocol.cpp]): each is cut out of the
    stream, its message is read from a buffer ([databuffer.c], [packet.cpp]), the
    statement is executed or the command of a client is run ([DocEngine.cpp],
    [docdb_packet.c]), and the answer is written to a second buffer.

    ** The files

    - [Prelude]: machine integers with their wrap-around ([u8] .. [s64]), arrays
      accessed by a [Z] index where an access out of range is undefined behaviour
      ([None]; [m⟦i⟧], [m⟦i := v⟧], [zcopy], [zsub], [zfill]), block lemmas.
    - [FileOp]: [file_op.c], mapping, private copies, flushing and switching.
    - [StringMap]: [string_map.c], chained buckets from names to objects.
    - [MemPool]: [mem.c], the pool of blocks that requests are served from.
    - [Bitmark]: [bitmark.c]; the interface [MarkSet] that storages use.
    - [RowidList]: [rowid_list.c], chains of nodes of 256 ids and scores, and (module
      [RowidSort]) its quicksort.
    - [SetOperator]: [rowid_union], [rowid_intersection] and [rowid_minus] of
      [set_operator.c]; [SegRowid]: [rowid_fulltext_hence],
      [rowid_list_setscore] and the [seg_rowid_*] operations.
    - [Suffix]: [suffix.c], the evaluator of index conditions against the
      interface [IndexDb] of the database's lookups.
    - [LowData]: [low_data_struct] and the field types of [def.h].
    - [Doclist], [HashIndex]: [doclist.c] and [hash_index.c]; the hash is a
      parameter with the laws [HashLaws].  [HashIndexSpec]: their abstraction
      and the refinement theorems.
    - [Storage], [VStorage]: [storage.c], [vstorage.c].
    - [HashMemCompress]: [hash_memcompress.c], load and bisection.
    - [Hash]: [hash.c] with its table, the decimal printing and parsing of the C
      library it relies on, and the instance of [HashLaws].
    - [Compare]: the comparisons, sums and conversions of [common_util.c].
    - [LdbComparator]: [src/storage/ldb/LdbComparator.cpp], the order of the keys of
      leveldb tables.
    - [Column]: the contract of the columns ([Column], [ColumnLaws]).
    - [FilterIndex]: [filter_index.c] and the instances of [Column] for both
      storages and the filter index.
    - [RowData]: [rowdata_to_lowdata] and [lowdata_to_rowdata] of
      [common_util.c]; [DataField]: [data_field.c] over any [Column].
    - [FilterCompress], [FilterCompressSpec]: [filtercompress.c].
    - [DynHash], [DynHashSpec]: [dynamic_hash_index.c], the hash index that
      grows by opening further tables.
    - [IndexField]: [index_field.c], the dispatch of a column to its index, its
      switch to the compressed form and its directory of files.
      [IndexFieldSpec], [FilterFieldSpec]: what a hash column and a filter
      column promise through that switch.
    - [Segment], [SegmentSpec]: [segment.c], the columns and the rows of a
      segment, and the abstract segment.
    - [Table], [TableSpec]: [table.c], the segments of a table and their shared meta
      block, and the abstract table; [TableIndexSpec]: a new column on an empty
      table, and (module [TableCases]) concrete error cases.
    - [Binlog], [BinlogSpec], [BinlogSync]: [src/storage/binlog.c], the index
      and the files of the binary log, its writer and readers; the abstract log;
      recovery from a time and the packets for a slave.
    - [Slave], [SlaveSpec]: [src/execute/slave.c], the slave's buffer and its
      execution of confirmed records, over the interface [StorageEngine].
    - [DataBuffer]: [src/protocol/databuffer.c], the buffers of packets.
    - [DbRecord], [DbRecordSpec]: the records of [db.c] in the log, one kind per
      change.  [Db]: the catalog, the operations on tables and documents, the
      queries, checkpoint and release of [db.c]; [DbRecover]: its execution of
      records, its recovery and its start.
    - [CatalogSpec], [DbSpec]: the abstract database, a map from names to tables,
      over the contract [TableLaws]; [DbReplica]: executing the records of a run;
      [DbStartSpec]: the tables of [TableSpec] fulfil [TableLaws], and the start;
      [DatabaseSpec]: the theorems on a database and its replica, and (module
      [DbCases]) error cases; [DbSlave]: the database as the storage engine of a
      slave; [DbQuery]: index conditions on a database.
    - [MileArray], [MileHashMap]: [MileArray.cpp] with its heap; [MileList.cpp],
      [MileHashMap.cpp] and [HashSet.cpp], over the laws of equality and hash
      ([Hashing]) and of the order ([Ordering]).
    - [Row]: the rows of a result, [RowClone.cpp], [RowEquals.cpp],
      [RowHash.cpp], [OrderComparator.cpp], [LDEquals.cpp], [LDHash.cpp].
    - [Aggr], [AggrSpec]: [AggrFunc.cpp], what its functions compute, and (module
      [AggrTypes]) the types of what they collect.
    - [Expression]: [Expression.cpp] and the meaning of a where clause.
    - [ResultSet], [ResultSetSpec], [GroupSpec]: the five result sets; the rows that
      they show, as functions of the rows that are added.
    - [DocTable]: [DocTableMgr.cpp] and [DocIterator.cpp]; [DocScan]: the
      iterator goes through a list of documents.
    - [Execute]: the analyser, the plan, the steps and their substeps;
      [SelectSpec]: the rule for the loop of the main step, and reading a row;
      [QuerySpec], [ScanSpec]: the where clause and the rows of a query, the
      documents that are visited.
    - [DbSelect], [DbGroup] (with the groups over the rows of a table), [DbModify]:
      SELECT, GROUP BY, DELETE, UPDATE and INSERT on a database after any run.
    - [Packet], [PacketSpec]: the readers of the packets of statements in
      [packet.cpp], in a monad of readers on a data buffer, and the packets they read.
    - [Server]: from read packets to typed statements, their execution, the answers
      of [packet.cpp] and [process_mergeserver_message] of [protocol.cpp].
      [Command]: [DocEngine::Command] with its packets ([docdb_packet.c]), the messages
      of clients, and the dispatch and the cutting of messages ([parse_mile_message],
      [pre_parse_packet]).  [ServerSpec]: the answers as encodings, and the server from
      bytes to bytes.

    ** How code becomes definitions

    Every C function is a definition of the same name; loops are separate
    definitions ([_loop], [_step], [_probe]).  The state of a component is the
    record of its C struct; a mapped file is the list of its records and each
    operation returns the new state.  [None] of [option] is undefined behaviour
    (a read or write outside of an array, a NULL pointer dereferenced), so that a
    theorem that an operation returns [Some] also shows it memory safe.  Error
    codes are values of the result.  Pointers into chains are indexes.

    Given from outside: the outcomes of the system calls ([io], booleans, true
    for success); the content of fresh pool memory and of uninitialised bytes
    ([junk]); [qsort], known by the contract [QsortLaws] (a permutation, sorted
    by the comparator); the full text [log].  Allocation succeeds.  One operation
    runs at a time, which is what the reader-writer lock of a table gives for
    writers; the mutex of the background tasks is a flag of the database
    ([task_locked]), and taking it while it is held never returns ([None]).

    The catalog of [db.c] keeps a cell per table in a mapped file: here the
    list [table_metas], whose cells the tables hold by their number and update
    through it.  A call takes the outcomes of its system calls as a [db_io], the
    start as a [start_io]; the theorems on databases are for calls where nothing
    fails ([calm_db], [calm_start]), the error cases for given failures.

    Loops run with fuel that the theorems show to be enough, since their
    conclusions say that the operation returns: merging loops take the total
    number of ids, probing loops the number of buckets, chain walks the length of
    the document list, the bisection the number of entries, a dynamic hash index
    its at most [2^16] tables, the loops over documents, segments and index items
    their number, reading the log more than the number of its records; sorting
    row ids takes the length of the part, the recovery of a database the number of
    the records in its log.

    ** What is proved

    - The database.  [database_refines]: from its start on empty directories the
      database is a map from names to tables of documents, whatever sequence of
      insertions, updates of fields without an index, deletions, hash indexes on empty
      tables, compressions and checkpoints is run;
      [replica_equals_master]: executing the log of a run on another database
      gives the same answers; [slave_follows_master]: so does a slave that pulls
      the log in packets, which lacks at most the last change;
      [condition_query_exact]: an index condition finds exactly the documents
      whose rows satisfy it; [change_roundtrip]: records are read as written, but
      for the loading of a segment ([load_loses_directory]).
    - Statements, on a database after any run.  [select_correct]: the rows that a
      SELECT shows, by its access and its order, which is over selected columns of
      integers or texts; [group_by_correct]: the groups of a GROUP BY, whose fields are
      all selected, with the results of all functions; [delete_correct],
      [update_correct] (of a field without an index), [insert_correct]: what a
      statement changes, and that it changes nothing else.  The documents that a
      statement means are given by the conditions on their rows ([scan], [wanted],
      [targets]) and on the times of their segments ([in_time_segments]).
      The runs of these theorems have hash indexes only, made on empty tables: the
      columns of a query are read from the rows, [refill_step] has nothing to fill in,
      and [IdentifyQueryWay] does not choose an index for the where clause.  Nothing
      is claimed of filter indexes, full-text indexes and indexes made after the first
      row, with which some answers of the program are wrong.
    - Messages.  [statement_answered]: the bytes of the message of a statement that is
      accepted and in time become the bytes of the answer with the result of its
      execution, or with its error;
      [statement_roundtrip]: statements of all kinds are read as they were written.
    - Tables.  [table_refines]: inserting, updating and deleting rows over the
      growing list of segments is an abstract table of documents, and a lookup
      by value or by row answers as that table; [segment_refines]: the same of
      one segment with its columns and rows, also after it is sealed;
      [table_counts], [segment_counts]: the row and delete counters are the
      numbers of rows and of deleted rows.  [hash_field_refines],
      [filter_field_keeps_numbers]: a column answers the same before and after
      it is compressed, a filter column if no update is wider than the values inserted.
      [string_map_refines]: the map of names is a map.
      [pool_parts_apart]: the memory pool never hands out the same bytes twice.
    - Indexes.  [dyhash_index_refines]: the growing index keeps the documents of all
      words over all its tables, and a lookup lists those of a word whose bucket is
      within its reach.  [hash_index_refines]: insertion, recovery, switching and restart
      implement a history of keyed documents, and lookups list exactly the rows
      with the key, newest first; [hash_index_insert_correct]: open addressing
      never runs out of buckets.  [hash_int_order],
      [integer_index_exact], [hash_float_order]: hashes are injective and
      monotone on integers within [holds], so that lookups of these are exact.
      [hash_compress_correct], [hash_compress_reopen]: the compressed index
      answers as the index it was made from, also after a restart.
    - Columns.  [bitmark_refines_set], [bitmark_count_correct],
      [storage_refines], [vstorage_refines], [filter_index_refines]: each layer
      is a map from rows to values through inserts, updates and recoveries.
      [filter_compress_correct]: all three compressed forms keep the values.
      [row_roundtrip], [data_field_query_col_correct],
      [data_field_update_correct]: rows are read back as they were stored,
      against the contract of columns only.
    - Queries.  [rowid_union_correct], [rowid_intersection_correct],
      [rowid_minus_correct] (in place), [rowid_fulltext_hence_correct]: the node
      walks compute the set operations on descending lists and add the scores.
      [query_by_hash_conditions_correct], [query_by_hash_conditions_total]: the
      stack evaluator denotes the set expression and rejects exactly the
      malformed ones.  [add_then_for_each], [for_each_refines],
      [equals_correct_one_node], [seg_rowid_count_correct]: lists;
      [rowid_qsort_sorts]: the quicksort ends, stays inside the nodes and sorts;
      [compare_ld_order]: integers or texts of one type are totally ordered;
      [comparator_contract]: so are the keys of leveldb tables, and the short keys that
      separate blocks lie between them;
      [aggregate_types]: aggregates have the type of their function.
    - The log.  [binlog_refines]: what is written is read back record by record
      across file switches, restarts and short reads and writes;
      [binlog_recovery_complete]: a reader opened at a time reads the records
      from then on and reaches the end; [slave_applies_confirmed]: the slave
      catches up with the master and applies the confirmed changes in order.
      [message_roundtrip], [reads_stay_inside]: packets are read as written, and
      no received packet makes a read of numbers, or of blocks of less than 2^31
      bytes, leave the buffer.
    - Behaviour outside of these contracts, each on a concrete run of the
      definitions: [equals_misses_second_node], [minus_misaligns_scores],
      [hence_drops_rows], [in_empty_absorbs], [null_reinsert_loses_list],
      [storage_insert_overruns], [short_write_corrupts],
      [two_values_lost_on_restart], [stale_bitmap_corrupts],
      [hash_value_anomalies], [compressed_null_clash],
      [fulltext_compress_crashes], [filter_update_ignores_width],
      [dyhash_query_gives_up], [late_table_not_written], [failed_last_row_not_full], [update_needs_raw],
      [zero_segments_stop], [reconnect_loses_change], [sync_withholds_tail],
      [interrupted_write_duplicates], [negative_length_overruns],
      [load_loses_directory], [recovery_stops_at_segment],
      [slave_never_catches_up], [failed_lock_blocks_tasks],
      [rowid_qsort_reads_behind], [compare_doubles_not_transitive],
      [null_sum_stays_null], [large_request_blocks], [huge_count_crashes],
      [load_threshold_packet_long].

    ** Bounds

    Byte sizes of mapped files fit [ensure_file_size], which takes a signed
    32-bit size; the theorems state it as a bound on the number of rows (for
    example [8 * row_limit + 4 < 2^31] for a document list).  A binary log has at
    most [2^31] records and [2^63] bytes, hence the theorems on databases are for
    runs of less than [2^29] operations; a database has at most 255 tables; a
    slave's buffer of ten packets takes records of up to nine.  Document ids of a
    history ascend, as the segment numbers its documents.  Statements are for
    tables of at most [2^16] segments and less than [2^31] rows, for which the
    block of the memory pool has 16 bytes per row, and for a clock that does not
    reach the timeout ([unhurried]); a where clause has less than [2^16] tests.
    A statement's packet has less than [2^29] bytes, the rows of an answer less than
    [2^28], so that the doubling buffer stays within 32 bits; names and arrays of a
    packet fit a block of the pool of [MB_SIZE] bytes.  Row ids are sorted over C ints,
    in lists of less than [2^31] ids; a variable-length column with 16-bit lengths takes
    values shorter than 65535 bytes.  The pools that hold a record of the log (1 MB for
    a slave, 10 MB for a reader that looks for a time) are taken as large enough, as all
    pools whose limit is not stated.

    ** Not modelled

    Release, destroy and checkpoint operations that only call [munmap], [msync]
    or [remove], except where a caller's state depends on them; printing and
    logging.  The recovery of a database is a definition with concrete cases; that
    it restores every confirmed change after any crash is not stated, since it
    does not hold ([recovery_stops_at_segment]).  Of the messages, the execution of
    exports, which write a file, the questions for the state of the server, and the
    packets of slaves, whose content is that of [BinlogSync].  The configuration file,
    the network loops, the leveldb engine (but for the order of its keys) and the merge
    server stay outside. *)

From Stdlib Require Import ZArith Lia.
From stdpp Require Import base option list numbers.

Global Open Scope Z_scope.

(** ** Notation scope of the development *)

Declare Scope mile_scope.
Delimit Scope mile_scope with mile.

(** ** Machine integers

    A w-bit unsigned integer of the C source is a [Z] in [0, 2^w); the casts
    below write the wrap-around out.  Signed casts reinterpret the low bits in
    two's complement. *)

Definition u8 (z : Z) : Z := z `mod` 2 ^ 8.
Definition u16 (z : Z) : Z := z `mod` 2 ^ 16.
Definition u32 (z : Z) : Z := z `mod` 2 ^ 32.
Definition u64 (z : Z) : Z := z `mod` 2 ^ 64.

Definition s8 (z : Z) : Z := (z + 2 ^ 7) `mod` 2 ^ 8 - 2 ^ 7.
Definition s16 (z : Z) : Z := (z + 2 ^ 15) `mod` 2 ^ 16 - 2 ^ 15.
Definition s32 (z : Z) : Z := (z + 2 ^ 31) `mod` 2 ^ 32 - 2 ^ 31.
Definition s64 (z : Z) : Z := (z + 2 ^ 63) `mod` 2 ^ 64 - 2 ^ 63.

Lemma u32_small z : 0 ≤ z < 2 ^ 32 → u32 z = z.
Proof. intros. unfold u32. by apply Z.mod_small. Qed.

Lemma u32_bounds z : 0 ≤ u32 z < 2 ^ 32.
Proof. unfold u32. by apply Z.mod_pos_bound. Qed.

Lemma u64_small z : 0 ≤ z < 2 ^ 64 → u64 z = z.
Proof. intros. unfold u64. by apply Z.mod_small. Qed.

Lemma u64_bounds z : 0 ≤ u64 z < 2 ^ 64.
Proof. unfold u64. by apply Z.mod_pos_bound. Qed.

Lemma u16_small z : 0 ≤ z < 2 ^ 16 → u16 z = z.
Proof. intros. unfold u16. by apply Z.mod_small. Qed.

Lemma s32_small z : - 2 ^ 31 ≤ z < 2 ^ 31 → s32 z = z.
Proof. intros. unfold s32. rewrite Z.mod_small; lia. Qed.

(** ** Pointers

    A pointer to a structure is NULL or the structure it points to. *)

Inductive ptr (A : Type) : Type :=
| NULL
| Ptr (a : A).
Arguments NULL {A}.
Arguments Ptr {A} a.

#[export] Instance ptr_eq_dec {A} `{!EqDecision A} : EqDecision (ptr A).
Proof. solve_decision. Defined.

(** ** Arrays

    A C array is a list read and written by [Z] index; an access outside the
    array is undefined behaviour and is the value [None]. *)

Definition zlen {A} (l : list A) : Z := Z.of_nat (length l).

Definition zget {A} (l : list A) (i : Z) : option A :=
  if decide (0 ≤ i) then l !! Z.to_nat i else None.

Definition zset {A} (l : list A) (i : Z) (v : A) : option (list A) :=
  if decide (0 ≤ i < zlen l) then Some (<[Z.to_nat i := v]> l) else None.

(** [zfill l off n v] is [memset] of [n] cells from cell [off]. *)
Definition zfill {A} (l : list A) (off n : Z) (v : A) : option (list A) :=
  if decide (0 ≤ off ∧ 0 ≤ n ∧ off + n ≤ zlen l)
  then Some (take (Z.to_nat off) l ++ replicate (Z.to_nat n) v
             ++ drop (Z.to_nat (off + n)) l)
  else None.

(** [zcopy l off src] is [memcpy] of the whole of [src] to cell [off]. *)
Definition zcopy {A} (l : list A) (off : Z) (src : list A) : option (list A) :=
  if decide (0 ≤ off ∧ off + zlen src ≤ zlen l)
  then Some (take (Z.to_nat off) l ++ src ++ drop (Z.to_nat off + length src) l)
  else None.

(** [zsub l off n] reads [n] cells from cell [off]. *)
Definition zsub {A} (l : list A) (off n : Z) : option (list A) :=
  if decide (0 ≤ off ∧ 0 ≤ n ∧ off + n ≤ zlen l)
  then Some (take (Z.to_nat n) (drop (Z.to_nat off) l))
  else None.

Notation "l ⟦ i ⟧" := (zget l i) (at level 9, format "l ⟦ i ⟧") : mile_scope.
Notation "l ⟦ i := v ⟧" := (zset l i v)
  (at level 9, format "l ⟦ i  :=  v ⟧") : mile_scope.

Global Open Scope mile_scope.

(** ** The development's tactics *)

(** Discharge the range tests of the array primitives. *)
Ltac zdec := repeat (case_decide || case_match); try (exfalso; lia).

(** Turn boolean comparisons of the code into propositions. *)
Ltac zb :=
  repeat match goal with
  | H : (_ && _)%bool = true |- _ => apply andb_prop in H; destruct H
  | H : (_ || _)%bool = false |- _ => apply orb_false_elim in H; destruct H
  | H : (_ =? _) = true |- _ => apply Z.eqb_eq in H
  | H : (_ =? _) = false |- _ => apply Z.eqb_neq in H
  | H : (_ <? _) = true |- _ => apply Z.ltb_lt in H
  | H : (_ <? _) = false |- _ => apply Z.ltb_ge in H
  | H : (_ <=? _) = true |- _ => apply Z.leb_le in H
  | H : (_ <=? _) = false |- _ => apply Z.leb_gt in H
  | H : (_ >? _) = true |- _ => apply Z.gtb_lt in H
  | H : (_ >? _) = false |- _ => rewrite Z.gtb_ltb in H; apply Z.ltb_ge in H
  | H : (_ >=? _) = true |- _ => apply Z.geb_le in H
  | H : (_ >=? _) = false |- _ => rewrite Z.geb_leb in H; apply Z.leb_gt in H
  end.

(** Linear arithmetic with division and remainder by constants. *)
Ltac zdiv := Z.to_euclidean_division_equations; lia.

(** ** Generic array lemmas *)

Section arrays.
Context {A : Type}.
Implicit Types (l : list A) (i j : Z) (v x : A).

Lemma zlen_nonneg l : 0 ≤ zlen l.
Proof. unfold zlen. lia. Qed.

Lemma zlen_app l k : zlen (l ++ k) = zlen l + zlen k.
Proof. unfold zlen. rewrite length_app. lia. Qed.

Lemma zlen_cons (x : A) l : zlen (x :: l) = 1 + zlen l.
Proof. unfold zlen. simpl. lia. Qed.

Lemma zget_lookup l i : 0 ≤ i → l⟦i⟧ = l !! Z.to_nat i.
Proof. intros. unfold zget. by rewrite decide_True. Qed.

Lemma zget_of_nat l (n : nat) : l⟦Z.of_nat n⟧ = l !! n.
Proof. rewrite zget_lookup by lia. by rewrite Nat2Z.id. Qed.

Lemma zget_Some_range l i x : l⟦i⟧ = Some x → 0 ≤ i < zlen l.
Proof.
  unfold zget, zlen. case_decide; [|done].
  intros ?%lookup_lt_Some. lia.
Qed.

Lemma zget_lt l i : 0 ≤ i < zlen l → ∃ x, l⟦i⟧ = Some x.
Proof.
  unfold zlen. intros. rewrite zget_lookup by lia.
  apply lookup_lt_is_Some_2. lia.
Qed.

Lemma zset_in l i v : 0 ≤ i < zlen l → l⟦i := v⟧ = Some (<[Z.to_nat i := v]> l).
Proof. intros. unfold zset. by rewrite decide_True. Qed.

Lemma zset_inv l i v l' :
  l⟦i := v⟧ = Some l' → 0 ≤ i < zlen l ∧ l' = <[Z.to_nat i := v]> l.
Proof. unfold zset. case_decide; naive_solver. Qed.

Lemma zlen_insert l (n : nat) v : zlen (<[n := v]> l) = zlen l.
Proof. unfold zlen. by rewrite length_insert. Qed.

Lemma zget_insert_eq l i v :
  0 ≤ i < zlen l → (<[Z.to_nat i := v]> l)⟦i⟧ = Some v.
Proof.
  unfold zlen. intros. rewrite zget_lookup by lia.
  apply list_lookup_insert_eq. lia.
Qed.

Lemma zget_insert_ne l i j v :
  0 ≤ i → i ≠ j → (<[Z.to_nat i := v]> l)⟦j⟧ = l⟦j⟧.
Proof.
  intros. unfold zget. case_decide; [|done].
  apply list_lookup_insert_ne. lia.
Qed.

Lemma zget_insert_id l i v : l⟦i⟧ = Some v → <[Z.to_nat i := v]> l = l.
Proof.
  intros H. pose proof (zget_Some_range _ _ _ H).
  apply list_insert_id. by rewrite <- zget_lookup by lia.
Qed.

Lemma zlen_replicate (n : nat) v : zlen (replicate n v) = Z.of_nat n.
Proof. unfold zlen. by rewrite length_replicate. Qed.

Lemma zget_replicate (n : nat) i v :
  0 ≤ i < Z.of_nat n → (replicate n v)⟦i⟧ = Some v.
Proof. intros. rewrite zget_lookup by lia. apply lookup_replicate_2. lia. Qed.

Lemma zfill_spec l off n v :
  0 ≤ off → 0 ≤ n → off + n ≤ zlen l →
  ∃ l', zfill l off n v = Some l' ∧ zlen l' = zlen l ∧
    ∀ i, l'⟦i⟧ = if decide (off ≤ i < off + n) then Some v else l⟦i⟧.
Proof.
  intros Ho Hn Hl. unfold zfill. rewrite decide_True by lia.
  eexists. split; [done|]. unfold zlen in *.
  split; [rewrite !length_app, length_take, length_replicate, length_drop; lia|].
  intros i. destruct (decide (0 ≤ i)) as [Hi|Hi].
  2:{ unfold zget. rewrite !(decide_False (P:=0 ≤ i)) by done. by case_decide; [lia|]. }
  rewrite !zget_lookup by done.
  destruct (decide (i < off)); [|destruct (decide (i < off + n))].
  - rewrite decide_False by lia.
    rewrite lookup_app_l by (rewrite length_take; lia).
    apply lookup_take_lt. lia.
  - rewrite decide_True by lia.
    rewrite lookup_app_r by (rewrite length_take; lia).
    rewrite lookup_app_l by (rewrite length_replicate, length_take; lia).
    apply lookup_replicate_2. rewrite length_take. lia.
  - rewrite decide_False by lia.
    rewrite lookup_app_r by (rewrite length_take; lia).
    rewrite lookup_app_r by (rewrite length_replicate, length_take; lia).
    rewrite lookup_drop, length_take, length_replicate. f_equal. lia.
Qed.

Lemma zcopy_spec l off src :
  0 ≤ off → off + zlen src ≤ zlen l →
  ∃ l', zcopy l off src = Some l' ∧ zlen l' = zlen l ∧
    ∀ i, l'⟦i⟧ = if decide (off ≤ i < off + zlen src) then src⟦i - off⟧ else l⟦i⟧.
Proof.
  intros Ho Hl. unfold zcopy. rewrite decide_True by lia.
  eexists. split; [done|]. unfold zlen in *.
  split; [rewrite !length_app, length_take, length_drop; lia|].
  intros i. destruct (decide (0 ≤ i)) as [Hi|Hi].
  2:{ unfold zget. rewrite !(decide_False (P:=0 ≤ i)) by done. by case_decide; [lia|]. }
  rewrite (zget_lookup _ i), (zget_lookup l) by done.
  destruct (decide (i < off)); [|destruct (decide (i < off + Z.of_nat (length src)))].
  - rewrite decide_False by lia.
    rewrite lookup_app_l by (rewrite length_take; lia).
    apply lookup_take_lt. lia.
  - rewrite decide_True by lia. rewrite zget_lookup by lia.
    rewrite lookup_app_r by (rewrite length_take; lia).
    rewrite lookup_app_l by (rewrite length_take; lia).
    f_equal. rewrite length_take. lia.
  - rewrite decide_False by lia.
    rewrite lookup_app_r by (rewrite length_take; lia).
    rewrite lookup_app_r by (rewrite length_take; lia).
    rewrite lookup_drop, length_take. f_equal. lia.
Qed.

Lemma zsub_spec l off n :
  0 ≤ off → 0 ≤ n → off + n ≤ zlen l →
  ∃ l', zsub l off n = Some l' ∧ zlen l' = n ∧
    ∀ i, 0 ≤ i < n → l'⟦i⟧ = l⟦off + i⟧.
Proof.
  intros Ho Hn Hl. unfold zsub. rewrite decide_True by lia.
  eexists. split; [done|]. unfold zlen in *.
  split; [rewrite length_take, length_drop; lia|].
  intros i Hi. rewrite !zget_lookup by lia.
  rewrite lookup_take_lt, lookup_drop by lia. f_equal. lia.
Qed.

(** Two arrays with the same cells are equal. *)
Lemma zget_ext l k :
  zlen l = zlen k → (∀ i, 0 ≤ i < zlen l → l⟦i⟧ = k⟦i⟧) → l = k.
Proof.
  intros Hlen H. apply list_eq. intros n.
  destruct (decide (n < length l)%nat).
  - specialize (H (Z.of_nat n)). rewrite !zget_of_nat in H. apply H. unfold zlen. lia.
  - unfold zlen in Hlen. by rewrite !lookup_ge_None_2 by lia.
Qed.
End arrays.

Lemma zlen_fmap {A B} (f : A → B) (l : list A) : zlen (f <$> l) = zlen l.
Proof. unfold zlen. by rewrite length_fmap. Qed.

Lemma zget_fmap {A B} (f : A → B) (l : list A) i : (f <$> l)⟦i⟧ = f <$> l⟦i⟧.
Proof. unfold zget. case_decide; [|done]. apply list_lookup_fmap. Qed.

(** ** Positions in a circular table *)

(** Linear probing: the position [t] steps behind [loc] in a table of size [n]. *)
Lemma probe_next n loc t : 0 < n < 2 ^ 32 → u32 ((loc + t) `mod` n + 1) `mod` n = (loc + (t + 1)) `mod` n.
Proof.
  intros Hn. pose proof (Z.mod_pos_bound (loc + t) n). rewrite u32_small by lia.
  rewrite Zplus_mod_idemp_l. f_equal. lia.
Qed.

Lemma probe_around n loc t : 0 ≤ loc < n → 0 < t < n → (loc + t) `mod` n ≠ loc.
Proof.
  intros Hl Ht E. pose proof (Z.div_mod (loc + t) n ltac:(lia)) as D. rewrite E in D.
  assert (0 ≤ (loc + t) / n) by (apply Z.div_pos; lia).
  assert ((loc + t) / n = 0 ∨ 1 ≤ (loc + t) / n) as [?|?]; [lia|nia..].
Qed.

Lemma mod_inj N loc t t' :
  0 ≤ t < N → 0 ≤ t' < N → (loc + t) `mod` N = (loc + t') `mod` N → t = t'.
Proof.
  intros Ht Ht' E. pose proof (Z.div_mod (loc + t) N ltac:(lia)).
  pose proof (Z.div_mod (loc + t') N ltac:(lia)). rewrite E in *.
  assert ((loc + t) / N = (loc + t') / N ∨ (loc + t) / N < (loc + t') / N
    ∨ (loc + t') / N < (loc + t) / N) as [?|[?|?]] by lia; nia.
Qed.

(** ** Copies and slices *)

Lemma zcopy_len {A} (d d' src : list A) o : zcopy d o src = Some d' → zlen d' = zlen d.
Proof.
  unfold zcopy. case_decide as H; [|done]. intros [= <-]. unfold zlen in *.
  rewrite !length_app, length_take, length_drop. lia.
Qed.

Lemma zcopy_nil {A} (d : list A) o : 0 ≤ o ≤ zlen d → zcopy d o [] = Some d.
Proof.
  intros Ho. unfold zcopy. rewrite decide_True by (unfold zlen in *; simpl; lia).
  simpl. by rewrite Nat.add_0_r, take_drop.
Qed.

Lemma zset_zcopy {A} (d : list A) o x : 0 ≤ o < zlen d → d⟦o := x⟧ = zcopy d o [x].
Proof.
  intros Ho. rewrite zset_in by done. unfold zcopy. rewrite decide_True by (unfold zlen in *; simpl; lia).
  f_equal. simpl. rewrite insert_take_drop by (unfold zlen in *; lia). by rewrite Nat.add_1_r.
Qed.

(** Copying two pieces one behind the other. *)
Lemma zcopy_app {A} (d d1 : list A) o a b :
  zcopy d o a = Some d1 → zcopy d1 (o + zlen a) b = zcopy d o (a ++ b).
Proof.
  unfold zcopy. case_decide as H; [|done]. intros [= <-]. destruct H as [H1 H2].
  unfold zlen in *. rewrite !length_app, length_take, length_drop, !Nat2Z.inj_add.
  destruct (decide (o + Z.of_nat (length a) + Z.of_nat (length b) ≤ Z.of_nat (length d))).
  2:{ rewrite !decide_False by lia. done. }
  rewrite !decide_True by lia. f_equal.
  rewrite (app_assoc (take (Z.to_nat o) d) a).
  rewrite take_app_length' by (rewrite length_app, length_take; lia).
  rewrite drop_app_ge by (rewrite length_app, length_take; lia).
  rewrite drop_drop, length_app, length_take, <- !app_assoc. do 4 f_equal. lia.
Qed.

Lemma zcopy_whole {A} (d src : list A) : zlen src = zlen d → zcopy d 0 src = Some src.
Proof.
  intros E. unfold zcopy. rewrite decide_True by (pose proof (zlen_nonneg src); lia).
  simpl. unfold zlen in E. rewrite drop_ge by lia. by rewrite app_nil_r.
Qed.

(** Slices after a copy. *)
(** Copying behind a front part. *)
Lemma zcopy_mid {A} (a b src : list A) :
  zlen src ≤ zlen b → zcopy (a ++ b) (zlen a) src = Some (a ++ src ++ drop (length src) b).
Proof.
  intros Hl. unfold zcopy. rewrite zlen_app. pose proof (zlen_nonneg a). rewrite decide_True by lia.
  unfold zlen. rewrite Nat2Z.id, take_app_length. by rewrite <- drop_drop, drop_app_length.
Qed.

Lemma zsub_zcopy_same {A} (d d' src : list A) o :
  zcopy d o src = Some d' → zsub d' o (zlen src) = Some src.
Proof.
  unfold zcopy. case_decide as H; [|done]. intros [= <-]. unfold zsub, zlen in *.
  rewrite decide_True by (rewrite !length_app, length_take, length_drop; lia).
  rewrite drop_app_length' by (rewrite length_take; lia). by rewrite Nat2Z.id, take_app_length.
Qed.

Lemma zsub_zcopy_other {A} (d d' src : list A) o off n :
  zcopy d o src = Some d' → off + n ≤ o ∨ o + zlen src ≤ off → zsub d' off n = zsub d off n.
Proof.
  intros Hc Hd. assert (zlen d' = zlen d ∧ ∀ i, i < o ∨ o + zlen src ≤ i → d'⟦i⟧ = d⟦i⟧) as [Hl Hg].
  { pose proof Hc as Hc'. unfold zcopy in Hc. case_decide as H; [|done].
    destruct (zcopy_spec d o src) as (d1 & H1 & ? & Hget); [lia|lia|].
    rewrite H1 in Hc'. injection Hc' as <-. split; [done|]. intros i Hi. rewrite Hget, decide_False by lia. done. }
  destruct (decide (0 ≤ off ∧ 0 ≤ n ∧ off + n ≤ zlen d)) as [(Ho & Hn & Hb)|Hno].
  2:{ unfold zsub. rewrite Hl, !decide_False by done. done. }
  destruct (zsub_spec d off n) as (x & -> & Hlx & Hgx); [lia..|].
  destruct (zsub_spec d' off n) as (y & -> & Hly & Hgy); [lia..|].
  f_equal. apply zget_ext; [congruence|]. intros i Hi. rewrite Hgx, Hgy by lia. apply Hg. lia.
Qed.

(** A slice of a concatenation. *)
Lemma zsub_mid {A} (pre x post : list A) off n :
  off = zlen pre → n = zlen x → zsub (pre ++ x ++ post) off n = Some x.
Proof.
  intros -> ->. unfold zsub, zlen. rewrite decide_True by (rewrite !length_app; lia).
  rewrite !Nat2Z.id, drop_app_length. by rewrite take_app_length.
Qed.

Lemma zget_mid {A} (pre post : list A) x off : off = zlen pre → (pre ++ x :: post)⟦off⟧ = Some x.
Proof. intros ->. unfold zlen. rewrite zget_of_nat. by rewrite list_lookup_middle. Qed.

(** ** Filters *)

Lemma filter_length_fmap {A B} (f : A → B) (P : B → Prop) (Q : A → Prop)
    `{!∀ x, Decision (P x), !∀ x, Decision (Q x)} (l : list A) :
  (∀ x, x ∈ l → P (f x) ↔ Q x) →
  length (filter P (f <$> l)) = length (filter Q l).
Proof.
  induction l as [|x l IH]; intros Hin; [done|]. rewrite fmap_cons, !filter_cons.
  assert (P (f x) ↔ Q x) as Hx by (apply Hin; left).
  assert (length (filter P (f <$> l)) = length (filter Q l)) as Hl
    by (apply IH; intros; apply Hin; by right).
  do 2 case_decide; simpl; tauto || congruence || lia.
Qed.

Lemma filter_ext_in {A} (P Q : A → Prop)
    `{!∀ x, Decision (P x), !∀ x, Decision (Q x)} (l : list A) :
  (∀ x, x ∈ l → P x ↔ Q x) → filter P l = filter Q l.
Proof.
  induction l as [|x l IH]; intros Hin; [done|]. rewrite !filter_cons.
  assert (P x ↔ Q x) as Hx by (apply Hin; left).
  assert (filter P l = filter Q l) as Hl by (apply IH; intros; apply Hin; by right).
  do 2 case_decide; tauto || congruence.
Qed.

Lemma filter_none_in {A} (P : A → Prop) `{!∀ x, Decision (P x)} (l : list A) :
  (∀ x, x ∈ l → ¬ P x) → filter P l = [].
Proof.
  induction l as [|x l IH]; intros Hin; [done|]. rewrite filter_cons.
  rewrite decide_False by (apply Hin; left). apply IH. intros. apply Hin. by right.
Qed.

Lemma filter_all_in {A} (P : A → Prop) `{!∀ x, Decision (P x)} (l : list A) :
  (∀ x, x ∈ l → P x) → filter P l = l.
Proof.
  induction l as [|x l IH]; intros Hin; [done|]. rewrite filter_cons.
  rewrite decide_True by (apply Hin; left). f_equal. apply IH. intros. apply Hin. by right.
Qed.

(** ** Arrays cut in blocks of equal length *)

Section blocks.
Context {A : Type} (B : nat).
Implicit Types (bs : list (list A)) (b : list A).

Lemma length_concat_blocks bs :
  Forall (λ b, length b = B) bs → length (concat bs) = (B * length bs)%nat.
Proof.
  induction 1 as [|b bs Hb _ IH]; simpl; [lia|]. rewrite length_app, IH, Hb. lia.
Qed.

Lemma lookup_concat_blocks bs (q r : nat) :
  Forall (λ b, length b = B) bs → (r < B)%nat →
  concat bs !! (B * q + r)%nat = bs !! q ≫= (.!! r).
Proof.
  intros H Hr. revert q. induction H as [|b bs Hb H IH]; intros q; simpl.
  - by rewrite !lookup_nil.
  - destruct q as [|q]; simpl.
    + rewrite lookup_app_l by lia. f_equal. lia.
    + rewrite lookup_app_r by lia. rewrite <- IH. f_equal. lia.
Qed.

Lemma insert_concat_blocks bs (q r : nat) b x :
  Forall (λ b, length b = B) bs → (r < B)%nat → bs !! q = Some b →
  concat (<[q := <[r := x]> b]> bs) = <[(B * q + r)%nat := x]> (concat bs).
Proof.
  intros H Hr. revert q. induction H as [|c bs Hc H IH]; intros q Hq; [done|].
  destruct q as [|q]; simpl in *.
  - simplify_eq. rewrite insert_app_l by lia. do 2 f_equal. lia.
  - rewrite IH by done. rewrite insert_app_r_alt by lia. do 2 f_equal. lia.
Qed.

Lemma drop_concat_blocks (p : nat) bs :
  Forall (λ b, length b = B) bs → drop (B * p) (concat bs) = concat (drop p bs).
Proof.
  intros H. revert p. induction H as [|b bs Hb H IH]; intros p; simpl; [by rewrite !drop_nil|].
  destruct p as [|p]; simpl; [by rewrite Nat.mul_0_r|].
  rewrite drop_app_ge by lia. rewrite <- IH. f_equal. lia.
Qed.
End blocks.

(** ** Strings *)

(** The bytes before the first NUL, which end a string of C. *)
Fixpoint c_string (s : list Z) : list Z :=
  match s with [] => [] | c :: s => if c =? 0 then [] else c :: c_string s end.

Lemma c_string_id s : Forall (λ c, c ≠ 0) s → c_string s = s.
Proof. induction 1 as [|c s Hc _ IH]; [done|]. cbn [c_string]. by rewrite (proj2 (Z.eqb_neq c 0) Hc), IH. Qed.

(** ** Hint databases *)

Create HintDb mile.
#[export] Hint Resolve zlen_nonneg : mile.
#[export] Hint Rewrite @zlen_insert @zlen_replicate @zlen_app : mile.
