(* ===== verification/FileOp.v ===== *)
(** * Memory-mapped files ([src/common/file_op.c])

    The index and data files are arrays of fixed-size records that the engine
    maps into memory.  A file is the list of its records; [get_mmap_memory]
    maps it shared (a store reaches the file), [alloc_file_memory] loads a
    private copy that [flush_memory] writes back, and [switch_mmaped_file]
    replaces a private copy by the shared mapping of the same file.  System
    calls that can fail are given by their outcome ([io], true for success). *)

From Stdlib Require Import ZArith Lia.
From stdpp Require Import base option list numbers.
From S2P Require Import Prelude.

Section file_op.
Context {A : Type} (zero : A) (sizeof : Z).
Implicit Types (f mem : list A) (n : Z).

(** [ensure_file_size fd size]: the size parameter is an [int32_t], so a
    requested size of 2^31 bytes or more is negative and never extends. *)
Definition ensure_file_size f (size : Z) : list A :=
  if zlen f * sizeof <? s32 size
  then f ++ replicate (Z.to_nat (s32 size / sizeof - zlen f)) zero
  else f.

(** The mapping of the first [n] records, and the file after the call.  [mmap]
    refuses a mapping of no bytes. *)
Definition get_mmap_memory (io : bool) f n : option (list A) * list A :=
  if io then
    let size := u32 (n * sizeof) in
    let f' := ensure_file_size f size in
    if size =? 0 then (None, f') else (Some (take (Z.to_nat (size / sizeof)) f'), f')
  else (None, f).

(** Zero-initialised anonymous memory filled from the file up to EOF. *)
Definition alloc_file_memory (io : bool) f n : option (list A) :=
  if io then
    let done := take (Z.to_nat n) f in
    Some (done ++ replicate (Z.to_nat n - length done)%nat zero)
  else None.

(** [mem = None] is the NULL pointer. *)
Definition flush_memory (io : bool) f (mem : option (list A)) : Z * list A :=
  match mem with
  | None => (0, f)
  | Some m => if io then (0, m ++ drop (length m) f) else (-1, f)
  end.

Definition switch_mmaped_file (io : bool) f (mem : option (list A)) n : Z * option (list A) :=
  match mem with
  | None => (0, None)
  | Some m => if io then (0, Some (take (Z.to_nat n) f)) else (-1, Some m)
  end.

Hypothesis Hsizeof : 0 < sizeof.

Lemma get_mmap_memory_spec f n :
  0 < n → n * sizeof < 2 ^ 31 →
  ∃ m f', get_mmap_memory true f n = (Some m, f') ∧ zlen m = n ∧
    ∀ i, 0 ≤ i < n → m⟦i⟧ = if decide (i < zlen f) then f⟦i⟧ else Some zero.
Proof.
  intros Hn Hs. unfold get_mmap_memory.
  assert (0 < n * sizeof) by nia. rewrite u32_small by lia.
  rewrite (proj2 (Z.eqb_neq _ 0)) by lia. rewrite Z.div_mul by lia.
  eexists _, _. split; [done|].
  unfold ensure_file_size. rewrite s32_small by lia.
  rewrite Z.div_mul by lia.
  destruct (zlen f * sizeof <? n * sizeof) eqn:E; zb.
  - assert (zlen f < n) by nia. unfold zlen in *. split.
    + rewrite length_take, length_app, length_replicate. lia.
    + intros i Hi. rewrite !zget_lookup by lia. rewrite lookup_take_lt by lia.
      case_decide.
      * rewrite lookup_app_l by lia. done.
      * rewrite lookup_app_r by lia. apply lookup_replicate_2. lia.
  - assert (n ≤ zlen f) by nia. unfold zlen in *. split.
    + rewrite length_take. lia.
    + intros i Hi. rewrite decide_True by lia. rewrite !zget_lookup by lia.
      apply lookup_take_lt. lia.
Qed.

(** Mapping or loading again what was written before. *)
Lemma get_mmap_again m r :
  0 < zlen m → zlen m * sizeof < 2 ^ 31 →
  get_mmap_memory true (m ++ r) (zlen m) = (Some m, m ++ r).
Proof.
  intros Hm Hmax. unfold get_mmap_memory, ensure_file_size.
  assert (0 < zlen m * sizeof) by nia.
  rewrite u32_small, s32_small by lia. rewrite zlen_app. pose proof (zlen_nonneg r).
  destruct (Z.ltb_spec ((zlen m + zlen r) * sizeof) (zlen m * sizeof)) as [E|E]; [nia|].
  rewrite (proj2 (Z.eqb_neq _ 0)) by lia. rewrite Z.div_mul by lia.
  unfold zlen. rewrite Nat2Z.id. by rewrite take_app_length.
Qed.

Lemma get_mmap_same m :
  0 < zlen m → zlen m * sizeof < 2 ^ 31 → get_mmap_memory true m (zlen m) = (Some m, m).
Proof. intros. pose proof (get_mmap_again m []) as Hm. rewrite app_nil_r in Hm. by apply Hm. Qed.

Lemma alloc_again m r : alloc_file_memory true (m ++ r) (zlen m) = Some m.
Proof.
  unfold alloc_file_memory, zlen. rewrite Nat2Z.id, take_app_length, Nat.sub_diag. simpl.
  by rewrite app_nil_r.
Qed.

Lemma alloc_file_memory_spec f n :
  0 ≤ n →
  ∃ m, alloc_file_memory true f n = Some m ∧ zlen m = n ∧
    ∀ i, 0 ≤ i < n → m⟦i⟧ = if decide (i < zlen f) then f⟦i⟧ else Some zero.
Proof.
  intros Hn. unfold alloc_file_memory. eexists. split; [done|].
  unfold zlen. split.
  - rewrite length_app, length_replicate, length_take. lia.
  - intros i Hi. rewrite !zget_lookup by lia. case_decide.
    + rewrite lookup_app_l by (rewrite length_take; lia). apply lookup_take_lt. lia.
    + rewrite lookup_app_r by (rewrite length_take; lia).
      apply lookup_replicate_2. rewrite length_take. lia.
Qed.

(** A flushed private copy is what the next load reads. *)
Lemma flush_alloc f m f' :
  flush_memory true f (Some m) = (0, f') →
  alloc_file_memory true f' (zlen m) = Some m.
Proof.
  intros [= <-]. unfold alloc_file_memory, zlen. rewrite Nat2Z.id.
  rewrite take_app_length. rewrite Nat.sub_diag. simpl. by rewrite app_nil_r.
Qed.

(** Flushing and then switching keeps the contents of the memory. *)
Lemma flush_switch f m f' :
  flush_memory true f (Some m) = (0, f') →
  switch_mmaped_file true f' (Some m) (zlen m) = (0, Some m).
Proof.
  intros [= <-]. unfold switch_mmaped_file, zlen. rewrite Nat2Z.id.
  by rewrite take_app_length.
Qed.
End file_op.

(** The cells of a fresh mapping, none for the refused mapping of no bytes. *)
Lemma fresh_map_len {A} (z : A) sz n :
  0 < sz → 0 ≤ n → n * sz < 2 ^ 31 → zlen (default [] (fst (get_mmap_memory z sz true [] n))) = n.
Proof.
  intros Hsz Hn Hmax. destruct (decide (n = 0)) as [->|Hne]; [done|].
  destruct (get_mmap_memory_spec z sz Hsz [] n) as (m & f & -> & Hl & _); [lia|done|]. done.
Qed.

Lemma fresh_map_some {A} (z : A) sz n :
  0 < sz → 0 < n → n * sz < 2 ^ 31 → is_Some (fst (get_mmap_memory z sz true [] n)).
Proof.
  intros Hsz Hn Hmax. destruct (get_mmap_memory_spec z sz Hsz [] n) as (m & f & -> & _); [lia|done|]. by eexists.
Qed.

(** The memory over a missing file is zero, mapped or private. *)
Lemma fresh_memory {A} (z : A) sz (shared : bool) n :
  0 < sz → 0 < n → n * sz < 2 ^ 31 →
  ∃ m f, (if shared then get_mmap_memory z sz true [] n else (alloc_file_memory z true [] n, [])) = (Some m, f) ∧
    zlen m = n ∧ ∀ i, 0 ≤ i < n → m⟦i⟧ = Some z.
Proof.
  intros Hsz Hn Hmax. destruct shared.
  - destruct (get_mmap_memory_spec z sz Hsz [] n) as (m & f & -> & Hl & Hz); [lia|lia|].
    exists m, f. split_and!; [done..|]. intros i Hi. rewrite Hz, decide_False by (done || (unfold zlen; simpl; lia)). done.
  - destruct (alloc_file_memory_spec z [] n) as (m & -> & Hl & Hz); [lia|].
    exists m, []. split_and!; [done..|]. intros i Hi. rewrite Hz, decide_False by (done || (unfold zlen; simpl; lia)). done.
Qed.
