(* ===== verification/StringMap.v ===== *)
(** * String maps ([src/common/string_map.c])

    A map from C strings to pointers: an array of key and value cells, sorted by
    [strcmp], of which the first [pos] are in use.  A C string is the list of its
    characters (unsigned, without the terminating zero).  A cell is [None] as
    long as it was never written. *)

From Stdlib Require Import ZArith Lia Sorted.
From stdpp Require Import base option list numbers gmap sorting.
From S2P Require Import Prelude.

(** The sign of the C function's result. *)
Fixpoint strcmp (a b : list Z) : Z :=
  match a, b with
  | [], [] => 0
  | [], _ => -1
  | _, [] => 1
  | x :: a, y :: b => if x <? y then -1 else if y <? x then 1 else strcmp a b
  end.

Record string_map (V : Type) := StringMap {
  sm_size : Z;
  sm_pos : Z;
  cells : list (option (list Z * V))      (* [data], [sm_size] cells *)
}.
Arguments StringMap {V}.
Arguments sm_size {V}.
Arguments sm_pos {V}.
Arguments cells {V}.

Section string_map.
Context {V : Type}.
Implicit Types (map : string_map V) (key : list Z).

(** The cell must have been written. *)
Definition strmap_cmp key (c : option (list Z * V)) : option Z := kv ← c; Some (strcmp key (fst kv)).

Definition init_string_map (n : Z) : string_map V := StringMap n 0 (replicate (Z.to_nat n) None).

(** The C library's [bsearch] on the cells from [l] up to [u]. *)
Fixpoint bsearch (fuel : nat) key (cs : list (option (list Z * V))) (l u : Z) : option (option Z) :=
  if l <? u then
    match fuel with
    | O => None
    | S fuel =>
        let idx := (l + u) / 2 in
        c ← cs⟦idx⟧;
        cmp ← strmap_cmp key c;
        if cmp <? 0 then bsearch fuel key cs l idx
        else if cmp >? 0 then bsearch fuel key cs (idx + 1) u
        else Some (Some idx)
    end
  else Some None.

Definition sm_find map key : option (option Z) := bsearch (Z.to_nat (sm_pos map)) key (cells map) 0 (sm_pos map).

(** The value, or NULL ([None]). *)
Definition string_map_get map key : option (option V) :=
  v ← sm_find map key;
  match v with
  | None => Some None
  | Some i => c ← (cells map)⟦i⟧; kv ← c; Some (Some (snd kv))
  end.

Definition string_map_remove map key : option (option V * string_map V) :=
  v ← sm_find map key;
  match v with
  | None => Some (None, map)
  | Some i =>
      c ← (cells map)⟦i⟧;
      kv ← c;
      rest ← zsub (cells map) (i + 1) (sm_pos map - i - 1);
      cs ← zcopy (cells map) i rest;
      Some (Some (snd kv), StringMap (sm_size map) (sm_pos map - 1) cs)
  end.

(** The loop that moves larger keys up; [n] is [i + 1], the result is the free cell. *)
Fixpoint shift_up (n : nat) key (cs : list (option (list Z * V))) : option (Z * list (option (list Z * V))) :=
  match n with
  | O => Some (0, cs)
  | S i =>
      c ← cs⟦Z.of_nat i⟧;
      cmp ← strmap_cmp key c;
      if cmp <? 0 then
        cs ← cs⟦Z.of_nat i + 1 := c⟧;
        shift_up i key cs
      else Some (Z.of_nat i + 1, cs)
  end.

(** A full map refuses the key, also one that it has. *)
Definition string_map_put map key (value : V) : option (Z * string_map V) :=
  if sm_pos map =? sm_size map then Some (-1, map)
  else
    '(_, map) ← string_map_remove map key;
    '(i, cs) ← shift_up (Z.to_nat (sm_pos map)) key (cells map);
    cs ← cs⟦i := Some (key, value)⟧;
    Some (0, StringMap (sm_size map) (sm_pos map + 1) cs).

(** [func] may change the object that the value points to, and the state [u]
    behind [user_data]; a negative result stops the loop. *)
Fixpoint for_each_cells {U : Type} (func : list Z → V → U → option (Z * V * U)) (n : nat) (i : Z)
    (cs : list (option (list Z * V))) (u : U) : option (Z * list (option (list Z * V)) * U) :=
  match n with
  | O => Some (0, cs, u)
  | S n =>
      c ← cs⟦i⟧;
      kv ← c;
      '(rc, v, u) ← func (fst kv) (snd kv) u;
      cs ← cs⟦i := Some (fst kv, v)⟧;
      if rc <? 0 then Some (rc, cs, u) else for_each_cells func n (i + 1) cs u
  end.

Definition string_map_for_each {U : Type} (map : string_map V) (func : list Z → V → U → option (Z * V * U)) (u : U)
    : option (Z * string_map V * U) :=
  '(rc, cs, u) ← for_each_cells func (Z.to_nat (sm_pos map)) 0 (cells map) u;
  Some (rc, StringMap (sm_size map) (sm_pos map) cs, u).
End string_map.

(** ** The order of strings *)

Lemma strcmp_refl a : strcmp a a = 0.
Proof. induction a as [|x a IH]; [done|]. simpl. by rewrite Z.ltb_irrefl. Qed.

Lemma strcmp_eq a b : strcmp a b = 0 → a = b.
Proof.
  revert b. induction a as [|x a IH]; intros [|y b]; simpl; try done.
  destruct (Z.ltb_spec x y), (Z.ltb_spec y x); try done. intros E. f_equal; [lia|auto].
Qed.

Lemma strcmp_flip a b : strcmp b a = - strcmp a b.
Proof.
  revert b. induction a as [|x a IH]; intros [|y b]; simpl; try done.
  destruct (Z.ltb_spec x y), (Z.ltb_spec y x); try done; lia.
Qed.

Lemma strcmp_trans a b c : strcmp a b < 0 → strcmp b c < 0 → strcmp a c < 0.
Proof.
  revert b c. induction a as [|x a IH]; intros [|y b] [|z c]; simpl; try lia.
  destruct (Z.ltb_spec x y), (Z.ltb_spec y x); try lia;
    destruct (Z.ltb_spec y z), (Z.ltb_spec z y); try lia;
    destruct (Z.ltb_spec x z), (Z.ltb_spec z x); try lia. apply IH.
Qed.

(** ** Abstraction: a finite map *)

Section proofs.
Context {V : Type}.
Implicit Types (kvs : list (list Z * V)) (key : list Z).

Definition ordered kvs : Prop := StronglySorted (λ a b, strcmp a.1 b.1 < 0) kvs.

(** The cells hold the entries [kvs], in order. *)
Definition holds_entries (m : string_map V) kvs : Prop :=
  ordered kvs ∧ sm_pos m = zlen kvs ∧ zlen (cells m) = sm_size m ∧ 0 ≤ sm_size m ∧
  ∃ rest, cells m = (Some <$> kvs) ++ rest.

Lemma ordered_app lo hi :
  ordered (lo ++ hi) ↔ (∀ a b, a ∈ lo → b ∈ hi → strcmp a.1 b.1 < 0) ∧ ordered lo ∧ ordered hi.
Proof. apply StronglySorted_app. Qed.

Lemma ordered_lt kvs i j a b : ordered kvs → i < j → kvs⟦i⟧ = Some a → kvs⟦j⟧ = Some b → strcmp a.1 b.1 < 0.
Proof.
  intros Ho Hij Ha Hb. pose proof (zget_Some_range _ _ _ Ha) as Hi. pose proof (zget_Some_range _ _ _ Hb) as Hj.
  rewrite zget_lookup in Ha, Hb by lia. rewrite <- (take_drop (Z.to_nat j) kvs) in Ho.
  apply ordered_app in Ho as (Ho & _). apply Ho.
  - apply list_elem_of_lookup. exists (Z.to_nat i). rewrite lookup_take_lt by lia. done.
  - apply list_elem_of_lookup. exists 0%nat. rewrite lookup_drop. by replace (Z.to_nat j + 0)%nat with (Z.to_nat j) by lia.
Qed.

Lemma cells_entry kvs rest i kv : kvs⟦i⟧ = Some kv → ((Some <$> kvs) ++ rest)⟦i⟧ = Some (Some kv).
Proof.
  intros H. pose proof (zget_Some_range _ _ _ H) as Hi. rewrite zget_lookup in H by lia. rewrite zget_lookup by lia.
  rewrite lookup_app_l by (unfold zlen in *; rewrite length_fmap; lia). rewrite list_lookup_fmap, H. done.
Qed.

Lemma bsearch_spec fuel key kvs rest l u :
  ordered kvs → 0 ≤ l → u ≤ zlen kvs → u - l ≤ Z.of_nat fuel →
  (∀ j kv, kvs⟦j⟧ = Some kv → j < l → kv.1 ≠ key) → (∀ j kv, kvs⟦j⟧ = Some kv → u ≤ j → kv.1 ≠ key) →
  ∃ r, bsearch fuel key ((Some <$> kvs) ++ rest) l u = Some r ∧
    match r with
    | Some i => ∃ v, kvs⟦i⟧ = Some (key, v)
    | None => ∀ kv, kv ∈ kvs → kv.1 ≠ key
    end.
Proof.
  intros Ho. revert l u. induction fuel as [|fuel IH]; intros l u Hl Hu Hf Hlo Hhi; cbn [bsearch].
  all: destruct (Z.ltb_spec l u) as [Hlu|Hlu].
  2,4: exists None; split; [done|]; intros kv (n & Hn)%list_elem_of_lookup;
    assert (kvs⟦Z.of_nat n⟧ = Some kv) as Hz by (rewrite zget_lookup, Nat2Z.id by lia; done);
    destruct (decide (Z.of_nat n < l)); [by eapply Hlo|eapply Hhi; [done|lia]].
  { lia. }
  pose proof (Z.div_mod (l + u) 2 ltac:(lia)). pose proof (Z.mod_pos_bound (l + u) 2 ltac:(lia)).
  set (idx := (l + u) / 2) in *. destruct (zget_lt kvs idx) as [[k v] Hk]; [lia|].
  rewrite (cells_entry kvs rest idx (k, v) Hk). cbn [mbind option_bind strmap_cmp fst].
  destruct (Z.ltb_spec (strcmp key k) 0) as [Hc|Hc].
  - apply IH; try lia; try done. intros j kv Hj Hle Ek. destruct (decide (j = idx)) as [->|].
    + rewrite Hk in Hj. injection Hj as <-. simpl in Ek. rewrite Ek, strcmp_refl in Hc. lia.
    + pose proof (ordered_lt kvs idx j (k, v) kv Ho ltac:(lia) Hk Hj) as Hlt. simpl in Hlt.
      rewrite Ek, strcmp_flip in Hlt. lia.
  - destruct (Z.gtb_spec (strcmp key k) 0) as [Hg|Hg].
    + apply IH; try lia; try done. intros j kv Hj Hle Ek. destruct (decide (j = idx)) as [->|].
      * rewrite Hk in Hj. injection Hj as <-. simpl in Ek. rewrite Ek, strcmp_refl in Hg. lia.
      * pose proof (ordered_lt kvs j idx kv (k, v) Ho ltac:(lia) Hj Hk) as Hlt. simpl in Hlt. rewrite Ek in Hlt. lia.
    + exists (Some idx). split; [done|]. exists v. replace key with k; [done|]. symmetry. apply strcmp_eq. lia.
Qed.

Lemma find_spec m kvs key :
  holds_entries m kvs →
  ∃ r, sm_find m key = Some r ∧
    match r with
    | Some i => ∃ v, kvs⟦i⟧ = Some (key, v)
    | None => ∀ kv, kv ∈ kvs → kv.1 ≠ key
    end.
Proof.
  intros (Ho & Hp & _ & _ & rest & Hc). unfold sm_find. rewrite Hc, Hp. pose proof (zlen_nonneg kvs).
  apply bsearch_spec; try done; try lia; intros j kv Hj; pose proof (zget_Some_range _ _ _ Hj); lia.
Qed.

Lemma ordered_NoDup kvs : ordered kvs → NoDup kvs.*1.
Proof.
  induction 1 as [|[k v] kvs Ho IH Hall]; simpl; constructor; [|done].
  intros ([k' v'] & E & Hin)%list_elem_of_fmap. simpl in E. subst k'. rewrite List.Forall_forall in Hall.
  apply list_elem_of_In, Hall in Hin. simpl in Hin. rewrite strcmp_refl in Hin. lia.
Qed.

Definition entry_map kvs : gmap (list Z) V := list_to_map kvs.

Lemma entry_map_lookup kvs k v : ordered kvs → entry_map kvs !! k = Some v ↔ (k, v) ∈ kvs.
Proof. intros Ho. symmetry. by apply elem_of_list_to_map, ordered_NoDup. Qed.

Lemma entry_map_None kvs k : (∀ kv, kv ∈ kvs → kv.1 ≠ k) → entry_map kvs !! k = None.
Proof. intros H. apply not_elem_of_list_to_map_1. intros ([k' v] & E & Hin)%list_elem_of_fmap. by apply (H (k', v)). Qed.

Lemma get_spec m kvs key : holds_entries m kvs → string_map_get m key = Some (entry_map kvs !! key).
Proof.
  intros H. unfold string_map_get. destruct (find_spec m kvs key H) as ([i|] & -> & Hr); cbn [mbind option_bind].
  - destruct Hr as [v Hv]. pose proof H as (Ho & _ & _ & _ & rest & ->). rewrite (cells_entry kvs rest i (key, v) Hv).
    cbn [mbind option_bind snd]. f_equal. symmetry. apply entry_map_lookup; [done|].
    pose proof (zget_Some_range _ _ _ Hv) as Hi. rewrite zget_lookup in Hv by lia. by eapply list_elem_of_lookup_2.
  - by rewrite entry_map_None.
Qed.

Lemma delete_cell {A} (pre : list A) x post rest :
  zsub (pre ++ x :: post ++ rest) (zlen pre + 1) (zlen post) = Some post ∧
  ∃ rest', zcopy (pre ++ x :: post ++ rest) (zlen pre) post = Some (pre ++ post ++ rest').
Proof.
  split.
  - change (pre ++ x :: post ++ rest) with (pre ++ [x] ++ post ++ rest). rewrite app_assoc.
    apply zsub_mid; [rewrite zlen_app; done|done].
  - unfold zcopy. pose proof (zlen_nonneg pre). pose proof (zlen_nonneg post). pose proof (zlen_nonneg rest).
    rewrite decide_True.
    2:{ split; [done|]. rewrite zlen_app. unfold zlen in *. simpl. rewrite length_app. lia. }
    eexists. f_equal. unfold zlen at 1. rewrite Nat2Z.id, take_app_length. reflexivity.
Qed.

Lemma remove_spec m kvs key :
  holds_entries m kvs →
  ∃ m' kvs', string_map_remove m key = Some (entry_map kvs !! key, m') ∧ holds_entries m' kvs' ∧
    sm_size m' = sm_size m ∧ entry_map kvs' = delete key (entry_map kvs) ∧
    (zlen kvs' = zlen kvs ∨ zlen kvs' = zlen kvs - 1).
Proof.
  intros H. unfold string_map_remove. destruct (find_spec m kvs key H) as ([i|] & -> & Hr); cbn [mbind option_bind].
  2:{ rewrite (entry_map_None kvs key) by done. exists m, kvs. split_and!; try done; [|by left].
      rewrite delete_id; [done|]. by apply entry_map_None. }
  destruct Hr as [v Hv]. pose proof (zget_Some_range _ _ _ Hv) as Hi. pose proof H as (Ho & Hp & Hl & Hn & rest & Hc).
  assert (entry_map kvs !! key = Some v) as Hlook.
  { apply entry_map_lookup; [done|]. rewrite zget_lookup in Hv by lia. by eapply list_elem_of_lookup_2. }
  rewrite Hc, (cells_entry kvs rest i (key, v) Hv). cbn [mbind option_bind snd]. rewrite Hp, Hlook.
  rewrite zget_lookup in Hv by lia. apply list_elem_of_split_length in Hv as (pre & post & E & Ei).
  assert (i = zlen pre) as -> by (unfold zlen; lia). clear Hi.
  assert (zlen kvs = zlen pre + 1 + zlen post) as Hz by (rewrite E; unfold zlen; rewrite length_app; simpl; lia).
  destruct (delete_cell (Some <$> pre) (Some (key, v)) (Some <$> post) rest) as (Hs & rest' & Hcp).
  rewrite (zlen_fmap Some pre) in Hs, Hcp. rewrite (zlen_fmap Some post) in Hs. rewrite E in Hc |- *.
  rewrite fmap_app, fmap_cons, <- app_assoc in Hc. rewrite fmap_app, fmap_cons, <- app_assoc. simpl in Hc |- *.
  replace (zlen (pre ++ (key, v) :: post) - zlen pre - 1) with (zlen post) by (rewrite <- E; lia).
  rewrite Hs. cbn [mbind option_bind]. rewrite Hcp. cbn [mbind option_bind].
  rewrite E in Ho. pose proof Ho as (Ho1 & Ho2 & Ho3)%ordered_app. apply StronglySorted_inv in Ho3 as [Ho3 Hx].
  eexists _, (pre ++ post). split; [done|]. split.
  - split; [apply ordered_app; split_and!; try done; intros a b Ha Hb; apply Ho1; [done|by right]|].
    cbn [sm_pos sm_size cells]. rewrite <- E, zlen_app. split; [lia|].
    assert (zlen ((Some <$> pre) ++ (Some <$> post) ++ rest') = zlen (cells m)) as Hlen.
    { rewrite Hc. by eapply zcopy_len. }
    split; [lia|]. split; [done|]. exists rest'. by rewrite fmap_app, app_assoc.
  - split; [done|]. split; [|right; rewrite <- E, zlen_app; lia].
    apply map_eq. intros k. destruct (decide (k = key)) as [->|Hne].
    + rewrite lookup_delete_eq. apply entry_map_None. intros [k w] Hin E2. simpl in E2. subst k.
      apply ordered_NoDup in Ho. rewrite fmap_app, fmap_cons in Ho. apply NoDup_app in Ho as (_ & Hd & Hnd).
      apply NoDup_cons in Hnd as [Hnd _]. apply (list_elem_of_fmap_2 fst) in Hin. simpl in *.
      rewrite fmap_app, elem_of_app in Hin. destruct Hin as [Hin|Hin]; [apply (Hd key Hin); left|done].
    + rewrite lookup_delete_ne by done. unfold entry_map. rewrite !list_to_map_app, list_to_map_cons.
      rewrite !lookup_union, lookup_insert_ne by done. done.
Qed.

Lemma shift_spec key (lo hi : list (list Z * V)) x rest :
  (∀ kv, kv ∈ hi → strcmp key kv.1 < 0) → (∀ kv, last lo = Some kv → 0 ≤ strcmp key kv.1) →
  ∃ y, shift_up (length (lo ++ hi)) key ((Some <$> lo) ++ (Some <$> hi) ++ x :: rest)
    = Some (zlen lo, (Some <$> lo) ++ y :: (Some <$> hi) ++ rest).
Proof.
  revert x rest. induction hi as [|[k v] hi IH] using rev_ind; intros x rest Hhi Hlo.
  - rewrite app_nil_r. simpl. destruct lo as [|[k v] lo _] using rev_ind; [by exists x|].
    rewrite length_app. simpl. rewrite Nat.add_1_r. cbn [shift_up].
    rewrite !fmap_app. simpl. rewrite <- !app_assoc. simpl. rewrite zget_mid by (by rewrite zlen_fmap).
    cbn [mbind option_bind strmap_cmp fst]. specialize (Hlo (k, v) ltac:(by rewrite last_snoc)). simpl in Hlo.
    destruct (Z.ltb_spec (strcmp key k) 0); [lia|]. exists x. rewrite zlen_app.
    change (zlen [(k, v)]) with 1. by rewrite <- app_assoc.
  - replace (length (lo ++ hi ++ [(k, v)])) with (S (length (lo ++ hi))) by (rewrite !length_app; simpl; lia).
    cbn [shift_up]. rewrite !fmap_app, <- !app_assoc. simpl. rewrite app_assoc.
    assert (Z.of_nat (length (lo ++ hi)) = zlen ((Some <$> lo) ++ (Some <$> hi) : list (option (list Z * V)))) as Hz
      by (unfold zlen; rewrite !length_app, !length_fmap; done).
    rewrite zget_mid by done. cbn [mbind option_bind strmap_cmp fst].
    pose proof (Hhi (k, v) ltac:(set_solver)) as Hk. simpl in Hk. destruct (Z.ltb_spec (strcmp key k) 0); [|lia].
    rewrite zset_in by (rewrite Hz, !zlen_app; unfold zlen; simpl; lia). cbn [mbind option_bind].
    replace (Z.to_nat (Z.of_nat (length (lo ++ hi)) + 1)) with (length ((Some <$> lo) ++ (Some <$> hi) : list (option (list Z * V))) + 1)%nat
      by (unfold zlen in Hz; lia).
    rewrite insert_app_r. simpl. rewrite <- app_assoc. apply IH; [|done]. intros kv Hin. apply Hhi. set_solver.
Qed.

(** Where a key belongs. *)
Lemma ordered_split kvs key :
  ordered kvs → (∀ kv, kv ∈ kvs → kv.1 ≠ key) →
  ∃ lo hi, kvs = lo ++ hi ∧ (∀ kv, kv ∈ lo → strcmp kv.1 key < 0) ∧ (∀ kv, kv ∈ hi → strcmp key kv.1 < 0).
Proof.
  induction 1 as [|[k v] kvs Ho IH Hall]; intros Hn; [by exists [], []; split_and!; [|intros kv Hin; by apply elem_of_nil in Hin..]|].
  destruct (decide (strcmp key k < 0)) as [Hlt|Hge].
  - exists [], ((k, v) :: kvs). split; [done|]. split; [intros kv Hin; by apply elem_of_nil in Hin|].
    intros kv [->|Hin]%elem_of_cons; [done|]. rewrite List.Forall_forall in Hall.
    apply list_elem_of_In, Hall in Hin. by eapply strcmp_trans.
  - destruct IH as (lo & hi & -> & Hlo & Hhi); [intros kv Hin; apply Hn; by right|].
    exists ((k, v) :: lo), hi. split; [done|]. split; [|done]. intros kv [->|Hin]%elem_of_cons; [|by apply Hlo].
    simpl. rewrite strcmp_flip. destruct (decide (strcmp key k = 0)) as [E|]; [|lia].
    apply strcmp_eq in E. subst k. by destruct (Hn (key, v)); [left|].
Qed.

Lemma map_put_spec m kvs key v :
  holds_entries m kvs → zlen kvs < sm_size m →
  ∃ m' kvs', string_map_put m key v = Some (0, m') ∧ holds_entries m' kvs' ∧ sm_size m' = sm_size m ∧
    entry_map kvs' = <[key := v]> (entry_map kvs).
Proof.
  intros H Hroom. unfold string_map_put. rewrite (proj2 (Z.eqb_neq _ _)) by (destruct H as (_ & -> & _); lia).
  destruct (remove_spec m kvs key H) as (m1 & kvs1 & -> & (Ho & Hp & Hl & Hn & rest & Hc) & Hs & Hm1 & Hz).
  cbn [mbind option_bind].
  destruct (ordered_split kvs1 key Ho) as (lo & hi & -> & Hlo & Hhi).
  { intros [k w] Hin E. simpl in E. subst k. apply (entry_map_lookup _ key w Ho) in Hin.
    by rewrite Hm1, lookup_delete_eq in Hin. }
  destruct rest as [|x rest].
  { exfalso. rewrite Hc, app_nil_r, zlen_fmap in Hl. lia. }
  rewrite Hc, Hp, fmap_app, <- app_assoc. replace (Z.to_nat (zlen (lo ++ hi))) with (length (lo ++ hi)) by (unfold zlen; lia).
  destruct (shift_spec key lo hi x rest Hhi) as (y & ->).
  { intros kv Hk. apply last_Some_elem_of in Hk. specialize (Hlo kv Hk). rewrite strcmp_flip in Hlo. lia. }
  cbn [mbind option_bind].
  rewrite zset_in by (unfold zlen; rewrite length_app, length_fmap; simpl; lia).
  cbn [mbind option_bind]. replace (Z.to_nat (zlen lo)) with (length (Some <$> lo : list (option (list Z * V))) + 0)%nat
    by (unfold zlen; rewrite length_fmap; lia).
  rewrite insert_app_r. simpl. eexists _, (lo ++ (key, v) :: hi). split; [done|]. split; [|split; [done|]].
  - apply ordered_app in Ho as (Hlh & Ho1 & Ho2). split.
    + apply ordered_app. split_and!; try done.
      * intros a b Ha [->|Hb]%elem_of_cons; [by apply Hlo|auto].
      * constructor; [done|]. apply List.Forall_forall. intros b Hb. by apply Hhi, list_elem_of_In.
    + cbn [sm_pos sm_size cells]. rewrite Hc in Hl. unfold zlen in *. rewrite !length_app, !length_fmap in *. simpl in *.
      rewrite !length_app, !length_fmap in *. split; [lia|]. split; [lia|]. split; [done|].
      exists rest. by rewrite fmap_app, fmap_cons, <- app_assoc.
  - unfold entry_map in *. rewrite list_to_map_app, list_to_map_cons.
    rewrite <- insert_union_r; [|apply not_elem_of_list_to_map_1; intros ([k w] & E & Hin)%list_elem_of_fmap; simpl in E; subst k;
      specialize (Hlo _ Hin); simpl in Hlo; rewrite strcmp_refl in Hlo; lia].
    rewrite <- list_to_map_app, Hm1. apply insert_delete_eq.
Qed.

Lemma init_holds n : 0 ≤ n → holds_entries (init_string_map n : string_map V) [].
Proof.
  intros Hn. split; [constructor|]. split; [done|]. split; [cbn; unfold zlen; rewrite length_replicate; lia|].
  split; [done|]. by exists (replicate (Z.to_nat n) None).
Qed.

(** A pass over the values in the order of the keys, as long as the calls succeed. *)
Fixpoint pass {U} (func : list Z → V → U → option (Z * V * U)) (kvs : list (list Z * V)) (u : U)
    : option (Z * list (list Z * V) * U) :=
  match kvs with
  | [] => Some (0, [], u)
  | (k, v) :: kvs =>
      '(rc, v, u) ← func k v u;
      if rc <? 0 then Some (rc, (k, v) :: kvs, u)
      else '(rc, kvs, u) ← pass func kvs u; Some (rc, (k, v) :: kvs, u)
  end.

Lemma pass_keys {U} (func : list Z → V → U → option (Z * V * U)) kvs u rc kvs' u' :
  pass func kvs u = Some (rc, kvs', u') → kvs'.*1 = kvs.*1.
Proof.
  revert u rc kvs' u'. induction kvs as [|[k v] kvs IH]; intros u rc kvs' u' H; cbn [pass] in H; [by simplify_eq|].
  destruct (func k v u) as [[[rc1 v1] u1]|]; cbn [mbind option_bind] in H; [|done].
  destruct (rc1 <? 0); [by simplify_eq|].
  destruct (pass func kvs u1) as [[[rc2 kvs2] u2]|] eqn:E; cbn [mbind option_bind] in H; [|done].
  simplify_eq. simpl. f_equal. by eapply IH.
Qed.

Lemma for_each_loop {U} (func : list Z → V → U → option (Z * V * U)) pre kvs rest u :
  for_each_cells func (length kvs) (zlen pre) (pre ++ (Some <$> kvs) ++ rest) u =
  ('(rc, kvs', u') ← pass func kvs u; Some (rc, pre ++ (Some <$> kvs') ++ rest, u')).
Proof.
  revert pre u. induction kvs as [|[k v] kvs IH]; intros pre u; [done|].
  cbn [length for_each_cells pass]. rewrite fmap_cons. simpl app. rewrite zget_mid by done. cbn [mbind option_bind fst snd].
  destruct (func k v u) as [[[rc v1] u1]|]; cbn [mbind option_bind]; [|done].
  rewrite zset_in by (unfold zlen; rewrite length_app; simpl; lia).
  cbn [mbind option_bind]. replace (Z.to_nat (zlen pre)) with (length pre + 0)%nat by (unfold zlen; lia).
  rewrite insert_app_r. simpl. destruct (rc <? 0); [done|].
  replace (zlen pre + 1) with (zlen (pre ++ [Some (k, v1)])) by (rewrite zlen_app; done).
  specialize (IH (pre ++ [Some (k, v1)]) u1). rewrite <- !app_assoc in IH. simpl in IH. rewrite IH.
  destruct (pass func kvs u1) as [[[rc2 kvs2] u2]|]; cbn [mbind option_bind]; [|done]. by rewrite <- !app_assoc.
Qed.

Lemma ordered_keys kvs kvs' : ordered kvs → kvs'.*1 = kvs.*1 → ordered kvs'.
Proof.
  intros Ho. revert kvs'. induction Ho as [|[k v] kvs Ho IH Hall]; intros [|[k' v'] kvs'] Hk; try done; [constructor|].
  rewrite !fmap_cons in Hk. cbn [fst] in Hk. injection Hk as Ek Hk. constructor; [by apply IH|]. rewrite List.Forall_forall in Hall |- *.
  intros [k2 v2] Hin%list_elem_of_In. apply (list_elem_of_fmap_2 fst) in Hin. simpl in Hin. rewrite Hk in Hin.
  apply list_elem_of_fmap in Hin as ([k3 v3] & E & Hin). simpl in E. subst k2 k'. by apply (Hall (k3, v3)), list_elem_of_In.
Qed.

(** The loop visits the entries in the order of their keys. *)
Lemma for_each_spec {U} (func : list Z → V → U → option (Z * V * U)) m kvs u rc kvs' u' :
  holds_entries m kvs → pass func kvs u = Some (rc, kvs', u') →
  ∃ m', string_map_for_each m func u = Some (rc, m', u') ∧ holds_entries m' kvs' ∧ sm_size m' = sm_size m.
Proof.
  intros (Ho & Hp & Hl & Hn & rest & Hc) Hpass. unfold string_map_for_each. rewrite Hp, Hc. unfold zlen. rewrite Nat2Z.id.
  pose proof (for_each_loop func [] kvs rest u) as Hloop. rewrite Hpass in Hloop.
  change (zlen []) with 0 in Hloop. simpl app in Hloop. rewrite Hloop. cbn [mbind option_bind]. eexists. split; [done|]. split; [|done].
  pose proof (pass_keys _ _ _ _ _ _ Hpass) as Hk.
  assert (length kvs' = length kvs) as Hlen by (rewrite <- (length_fmap fst), Hk, length_fmap; done).
  split.
  - by eapply ordered_keys.
  - cbn [sm_pos sm_size cells]. rewrite Hc in Hl. unfold zlen in *. rewrite !length_app, !length_fmap in *.
    split; [lia|]. split; [simpl; rewrite ?length_app, ?length_fmap; lia|]. split; [done|]. by exists rest.
Qed.
End proofs.

(** ** Refinement *)

Inductive map_op (V : Type) := MapPut (key : list Z) (v : V) | MapRemove (key : list Z).
Arguments MapPut {V}.
Arguments MapRemove {V}.

Definition run_map_op {V} (m : string_map V) (op : map_op V) : option (string_map V) :=
  match op with
  | MapPut k v => '(_, m) ← string_map_put m k v; Some m
  | MapRemove k => '(_, m) ← string_map_remove m k; Some m
  end.

(** A full map ignores insertions. *)
Definition spec_map_op {V} (n : Z) (f : gmap (list Z) V) (op : map_op V) : gmap (list Z) V :=
  match op with
  | MapPut k v => if Z.of_nat (stdpp.base.size f) =? n then f else <[k := v]> f
  | MapRemove k => delete k f
  end.

Lemma entries_size {V} (kvs : list (list Z * V)) : ordered kvs → Z.of_nat (stdpp.base.size (entry_map kvs)) = zlen kvs.
Proof.
  intros Ho. unfold entry_map. rewrite map_size_list_to_map by by apply ordered_NoDup. done.
Qed.

Lemma run_map_op_spec {V} (m : string_map V) kvs op :
  holds_entries m kvs →
  ∃ m' kvs', run_map_op m op = Some m' ∧ holds_entries m' kvs' ∧ sm_size m' = sm_size m ∧
    entry_map kvs' = spec_map_op (sm_size m) (entry_map kvs) op.
Proof.
  intros H. destruct op as [k v|k]; cbn [run_map_op spec_map_op].
  - rewrite entries_size by apply H. destruct (Z.eqb_spec (zlen kvs) (sm_size m)) as [E|E].
    + exists m, kvs. unfold string_map_put. destruct H as (Ho & Hp & Hrest). rewrite Hp, E, Z.eqb_refl.
      split; [done|]. split; [|done]. split; [done|]. split; [by rewrite Hp|done].
    + assert (zlen kvs < sm_size m) as Hr.
      { destruct H as (_ & _ & Hl & _ & rest & Hc). rewrite Hc, zlen_app, zlen_fmap in Hl.
        pose proof (zlen_nonneg rest). lia. }
      destruct (map_put_spec m kvs k v H Hr) as (m' & kvs' & -> & ? & ? & ?). cbn [mbind option_bind]. eauto 10.
  - destruct (remove_spec m kvs k H) as (m' & kvs' & -> & ? & ? & ? & _). cbn [mbind option_bind]. eauto 10.
Qed.

(** C25: From an empty map, any sequence of insertions and removals runs without a
    memory error, and lookups answer as the finite map does; only a full map
    refuses, also a key that it has. *)
Theorem string_map_refines {V} (n : Z) (ops : list (map_op V)) :
  0 ≤ n →
  ∃ m, foldl (λ m op, m ← m; run_map_op m op) (Some (init_string_map n)) ops = Some m ∧
    ∀ key, string_map_get m key = Some (foldl (spec_map_op n) ∅ ops !! key).
Proof.
  intros Hn. assert (∀ m kvs, holds_entries m kvs → sm_size m = n →
    ∃ m' kvs', foldl (λ m op, m ← m; run_map_op m op) (Some m) ops = Some m' ∧ holds_entries m' kvs' ∧
      entry_map kvs' = foldl (spec_map_op n) (entry_map kvs) ops) as Hrun.
  { induction ops as [|op ops IH]; intros m kvs H Hs; [by exists m, kvs|]. cbn [foldl mbind option_bind].
    destruct (run_map_op_spec m kvs op H) as (m1 & kvs1 & -> & H1 & Hs1 & E1). cbn [mbind option_bind].
    destruct (IH m1 kvs1 H1) as (m2 & kvs2 & ? & ? & E2); [congruence|]. exists m2, kvs2. split_and!; try done.
    rewrite E2, E1, Hs. done. }
  destruct (Hrun (init_string_map n) [] (init_holds n Hn) eq_refl) as (m & kvs & Hm & Hh & E).
  exists m. split; [done|]. intros key. rewrite (get_spec m kvs key Hh), E. done.
Qed.

Lemma string_map_refines_witness :
  ∃ m, foldl (λ m op, m ← m; run_map_op m op) (Some (init_string_map 2))
      [MapPut [98] 1; MapPut [97] 2; MapPut [99] 3; MapRemove [98]; MapPut [97; 32] 4] = Some m ∧
    string_map_get m [97; 32] = Some (Some 4) ∧ string_map_get m [99] = Some None.
Proof.
  destruct (string_map_refines 2 [MapPut [98] 1; MapPut [97] 2; MapPut [99] 3; MapRemove [98]; MapPut [97; 32] 4])
    as (m & Hm & Hget); [lia|].
  exists m. split; [exact Hm|]. split; rewrite Hget; vm_compute; reflexivity.
Defined.
