(* ===== verification/MemPool.v ===== *)
(** * The memory pool ([src/common/mem.c], [mem.h])

    Memory is handed out from the front of a block to its end; then a new block
    takes its place.  An address is the number of a block and an offset in it. *)

From Stdlib Require Import ZArith Lia.
From stdpp Require Import base option list numbers.
From S2P Require Import Prelude.

#[local] Open Scope mile_scope.

Definition address : Type := nat * Z.

(** [older] are the blocks behind [next]; [fresh] is the number of the next block
    that the C library gives.  [locked] is the state of [thread_safe_locker]. *)
Record MEM_POOL := MemPool {
  pool_address : nat;
  pool_size : Z;
  pool_pos : Z;
  older : list nat;
  fresh : nat;
  thread_safe : bool;
  locked : bool
}.

Definition mem_pool_init (n : Z) : MEM_POOL := MemPool 0 (u32 n) 0 [] 1 false false.

Definition mem_pool_set_threadsafe (p : MEM_POOL) : MEM_POOL :=
  MemPool (pool_address p) (pool_size p) (pool_pos p) (older p) (fresh p) true (locked p).

(** Taking the lock while it is held never returns. *)
Definition pool_lock (p : MEM_POOL) : option MEM_POOL :=
  if thread_safe p then
    if locked p then None else Some (MemPool (pool_address p) (pool_size p) (pool_pos p) (older p) (fresh p) true true)
  else Some p.

Definition pool_unlock (p : MEM_POOL) : MEM_POOL :=
  if thread_safe p then MemPool (pool_address p) (pool_size p) (pool_pos p) (older p) (fresh p) true false else p.

(** A new block when the rest of the current one is too small. *)
Definition pool_room (p : MEM_POOL) (n : Z) : MEM_POOL :=
  if u64 (n + pool_pos p) >? pool_size p then
    MemPool (fresh p) (pool_size p) 0 (pool_address p :: older p) (S (fresh p)) (thread_safe p) (locked p)
  else p.

(** A request that is larger than a block returns before the lock is given back. *)
Definition mem_pool_malloc (p : MEM_POOL) (n : Z) : option (ptr address * MEM_POOL) :=
  p ← pool_lock p;
  if n >? pool_size p then Some (NULL, p)
  else
    let p := pool_room p n in
    Some (Ptr (pool_address p, pool_pos p),
      pool_unlock (MemPool (pool_address p) (pool_size p) (s32 (pool_pos p + n)) (older p) (fresh p) (thread_safe p) (locked p))).

(** The older blocks are given back, the current one is used again. *)
Definition mem_pool_reset (p : MEM_POOL) : option MEM_POOL :=
  p ← pool_lock p;
  Some (pool_unlock (MemPool (pool_address p) (pool_size p) 0 [] (fresh p) (thread_safe p) (locked p))).

(** The blocks and the pool are gone. *)
Definition mem_pool_destroy (p : MEM_POOL) : option unit := _ ← mem_pool_reset p; Some tt.

(** Requests one after the other. *)
Fixpoint mem_pool_mallocs (p : MEM_POOL) (l : list Z) : option (list (ptr address) * MEM_POOL) :=
  match l with
  | [] => Some ([], p)
  | n :: l => '(a, p) ← mem_pool_malloc p n; '(l, p) ← mem_pool_mallocs p l; Some (a :: l, p)
  end.

(** ** What was handed out *)

(** A part of a block: its start and its length. *)
Definition part : Type := address * Z.

Definition parts (sizes : list Z) (as_ : list (ptr address)) : list part :=
  omap (λ p : Z * ptr address, match p.2 with NULL => None | Ptr a => Some (a, p.1) end) (zip sizes as_).

Definition apart (x y : part) : Prop := x.1.1 ≠ y.1.1 ∨ x.1.2 + x.2 ≤ y.1.2 ∨ y.1.2 + y.2 ≤ x.1.2.

(** Everything handed out since the pool was made, the newest first. *)
Record pool_rep (n : Z) (p : MEM_POOL) (given : list part) : Prop := {
  pr_size : pool_size p = n;
  pr_range : 0 ≤ n < 2 ^ 31;
  pr_pos : 0 ≤ pool_pos p ≤ n;
  pr_lock : locked p = false;
  pr_fresh : (pool_address p < fresh p)%nat;
  pr_inside : Forall (λ x : part, (x.1.1 < fresh p)%nat ∧ 0 ≤ x.1.2 ∧ 0 ≤ x.2 ∧ x.1.2 + x.2 ≤ n ∧
    (x.1.1 = pool_address p → x.1.2 + x.2 ≤ pool_pos p)) given;
  pr_apart : ForallOrdPairs apart given
}.

Lemma more_Forall {A} (P Q : A → Prop) (l : list A) : Forall P l → (∀ x, P x → Q x) → Forall Q l.
Proof. intros H HPQ. by eapply Forall_impl. Qed.

Lemma init_pool n : 0 ≤ n < 2 ^ 31 → pool_rep n (mem_pool_init n) [].
Proof.
  intros Hn. split; cbn [mem_pool_init pool_size pool_pos locked pool_address fresh]; try done; try lia.
  - by rewrite u32_small by lia.
  - constructor.
Qed.

Lemma lock_pool n p given : pool_rep n p given →
  ∃ q, pool_lock p = Some q ∧ pool_size q = n ∧ pool_pos q = pool_pos p ∧ pool_address q = pool_address p ∧ fresh q = fresh p ∧
    locked q = thread_safe q.
Proof.
  intros [Hs _ _ Hl _ _ _]. unfold pool_lock. destruct (thread_safe p) eqn:E; [rewrite Hl; by eexists|]. exists p. split_and!; try done. by rewrite E.
Qed.

Lemma unlock_pool p : locked p = thread_safe p → locked (pool_unlock p) = false ∧
  pool_size (pool_unlock p) = pool_size p ∧ pool_pos (pool_unlock p) = pool_pos p ∧ pool_address (pool_unlock p) = pool_address p ∧
  fresh (pool_unlock p) = fresh p ∧ thread_safe (pool_unlock p) = thread_safe p.
Proof. intros Hl. unfold pool_unlock. destruct (thread_safe p) eqn:E; split_and!; done. Qed.

Lemma malloc_pool n p given k : pool_rep n p given → 0 ≤ k ≤ n →
  ∃ a p', mem_pool_malloc p k = Some (Ptr a, p') ∧ pool_rep n p' ((a, k) :: given).
Proof.
  intros H Hk. destruct (lock_pool n p given H) as (q & Eq & Hs & Hp & Ha & Hf & Hl). destruct H as [_ Hn Hpos _ Hfr Hin Hap].
  unfold mem_pool_malloc. rewrite Eq. cbn [mbind option_bind]. rewrite Z.gtb_ltb, (proj2 (Z.ltb_ge _ _)) by lia.
  unfold pool_room. rewrite Hp, u64_small by lia. eexists _, _. split; [done|].
  assert (∀ r : MEM_POOL, locked r = thread_safe r → pool_size r = n → 0 ≤ pool_pos r → pool_pos r + k ≤ n → (pool_address r < fresh r)%nat →
    Forall (λ x : part, (x.1.1 < fresh r)%nat ∧ 0 ≤ x.1.2 ∧ 0 ≤ x.2 ∧ x.1.2 + x.2 ≤ n ∧ (x.1.1 = pool_address r → x.1.2 + x.2 ≤ pool_pos r)) given →
    pool_rep n (pool_unlock (MemPool (pool_address r) (pool_size r) (s32 (pool_pos r + k)) (older r) (fresh r) (thread_safe r) (locked r)))
      ((pool_address r, pool_pos r, k) :: given)) as Hnew.
  { intros r Hlr Hsr Hp0 Hp1 Hfr' Hin'. set (r' := MemPool _ _ _ _ _ _ _).
    destruct (unlock_pool r' Hlr) as (E1 & E2 & E3 & E4 & E5 & _). cbn [r' pool_size pool_pos pool_address fresh] in E2, E3, E4, E5.
    split; rewrite ?E2, ?E3, ?E4, ?E5, ?s32_small by lia; try done; try lia.
    - constructor; [cbn [fst snd]; split_and!; (lia || done)|]. apply (more_Forall _ _ _ Hin'). intros x (? & ? & ? & ? & Hx). split_and!; try done.
      intros E. specialize (Hx E). lia.
    - constructor; [|done]. apply (more_Forall _ _ _ Hin'). intros x (? & ? & ? & ? & Hx). unfold apart. cbn [fst snd].
      destruct (decide (x.1.1 = pool_address r)) as [E|Hne]; [right; right; by apply Hx|left; congruence]. }
  destruct (Z.gtb_spec (k + pool_pos p) (pool_size q)) as [Hgt|Hle].
  - apply Hnew; cbn [pool_size pool_pos pool_address fresh locked thread_safe]; try done; try lia.
    apply (more_Forall _ _ _ Hin). intros x (Hx & ? & ? & ? & _). split_and!; try done; rewrite ?Hf; lia.
  - apply Hnew; rewrite ?Hp, ?Ha, ?Hf; try done; lia.
Qed.

Lemma malloc_large n p given k : pool_rep n p given → thread_safe p = false → n < k → mem_pool_malloc p k = Some (NULL, p).
Proof.
  intros [Hs _ _ _ _ _ _] Ht Hk. unfold mem_pool_malloc, pool_lock. rewrite Ht. cbn [mbind option_bind].
  by rewrite Hs, Z.gtb_ltb, (proj2 (Z.ltb_lt _ _)) by lia.
Qed.

Lemma unsafe_malloc p k a p' : mem_pool_malloc p k = Some (a, p') → thread_safe p = false → thread_safe p' = false.
Proof.
  unfold mem_pool_malloc, pool_lock. intros H Ht. rewrite Ht in H. cbn [mbind option_bind] in H.
  destruct (k >? pool_size p); [by injection H as <- <-|]. injection H as <- <-. unfold pool_unlock, pool_room. cbn [thread_safe].
  destruct (u64 (k + pool_pos p) >? pool_size p); cbn [thread_safe]; by rewrite ?Ht.
Qed.

(** What a request gets: nothing when it is larger than a block. *)
Definition served (n k : Z) (a : ptr address) : Prop := a = NULL ↔ n < k.

(** C24: the pool never hands out the same memory twice.  Of any sequence of requests
    to a new pool, exactly those that are larger than a block get NULL; the parts that
    the others get lie inside of the blocks of the pool, and no two of them overlap. *)
Theorem pool_parts_apart n sizes :
  0 ≤ n < 2 ^ 31 → Forall (λ k, 0 ≤ k) sizes →
  ∃ as_ p, mem_pool_mallocs (mem_pool_init n) sizes = Some (as_, p) ∧ Forall2 (served n) sizes as_ ∧
    Forall (λ x : part, (x.1.1 < fresh p)%nat ∧ 0 ≤ x.1.2 ∧ x.1.2 + x.2 ≤ n) (parts sizes as_) ∧
    ForallOrdPairs apart (parts sizes as_).
Proof.
  intros Hn Hsizes.
  assert (∀ given p, pool_rep n p given → thread_safe p = false →
    ∃ as_ p' all, mem_pool_mallocs p sizes = Some (as_, p') ∧ Forall2 (served n) sizes as_ ∧ pool_rep n p' all ∧
      all = reverse (parts sizes as_) ++ given) as H.
  { induction Hsizes as [|k sizes Hk _ IH]; intros given p Hp Ht; [by exists [], p, given|]. cbn [mem_pool_mallocs].
    destruct (decide (n < k)) as [Hlt|Hge].
    - rewrite (malloc_large n p given k Hp Ht Hlt). cbn [mbind option_bind]. destruct (IH given p Hp Ht) as (as_ & p' & all & -> & Hs & Hp' & ->).
      eexists _, _, _. cbn [mbind option_bind]. split; [done|]. split; [by constructor|]. by split.
    - destruct (malloc_pool n p given k Hp) as (a & p1 & E & Hp1); [lia|]. rewrite E. cbn [mbind option_bind].
      destruct (IH _ p1 Hp1 (unsafe_malloc _ _ _ _ E Ht)) as (as_ & p' & all & -> & Hs & Hp' & ->). eexists _, _, _. cbn [mbind option_bind]. split; [done|].
      split; [constructor; [split; [done|lia]|done]|]. split; [exact Hp'|]. cbn [parts zip_with omap list_omap fst snd].
      rewrite reverse_cons, <- app_assoc. done. }
  destruct (H [] (mem_pool_init n) (init_pool n Hn) eq_refl) as (as_ & p & all & E & Hs & [_ _ _ _ _ Hin Hap] & ->). rewrite app_nil_r in *.
  exists as_, p. split; [done|]. split; [done|]. rewrite Forall_reverse in Hin. split; [apply (more_Forall _ _ _ Hin); intros x (? & ? & ? & ? & _); done|].
  clear -Hap. induction (parts sizes as_) as [|x l IH]; [constructor|]. rewrite reverse_cons in Hap.
  assert (∀ l1 y, ForallOrdPairs apart (l1 ++ [y]) → Forall (λ z, apart z y) l1 ∧ ForallOrdPairs apart l1) as Hsnoc.
  { clear. induction l1 as [|z l1 IH]; intros y H; [split; constructor|]. cbn [app] in H. inversion H as [|? ? Hz Hl]; subst.
    apply Forall_app in Hz as [Hz Hy]. destruct (IH y Hl) as [H1 H2]. rewrite Forall_singleton in Hy. split; [apply Forall_cons_2|apply FOP_cons]; [exact Hy|exact H1|exact Hz|exact H2]. }
  destruct (Hsnoc _ _ Hap) as [H1 H2]. constructor; [|by apply IH]. rewrite Forall_reverse in H1. apply (more_Forall _ _ _ H1).
  intros z Hz. unfold apart in *. intuition auto.
Qed.

Lemma pool_parts_apart_witness :
  ∃ as_ p, mem_pool_mallocs (mem_pool_init 100) [60; 30; 20; 101; 80; 0] = Some (as_, p) ∧
    as_ = [Ptr (0%nat, 0); Ptr (0%nat, 60); Ptr (1%nat, 0); NULL; Ptr (1%nat, 20); Ptr (1%nat, 100)] ∧ ForallOrdPairs apart (parts [60; 30; 20; 101; 80; 0] as_).
Proof.
  destruct (pool_parts_apart 100 [60; 30; 20; 101; 80; 0]) as (as_ & p & E & _ & _ & Ha); [lia|repeat constructor; lia|].
  exists as_, p. split; [exact E|]. split; [|exact Ha]. vm_compute in E. by injection E as <- _.
Defined.

(** In a pool that threads share, a request that is larger than a block is answered
    with NULL and keeps the lock: the next request waits for ever. *)
Lemma large_request_blocks n k k' :
  0 ≤ n < 2 ^ 31 → n < k →
  ∃ p, mem_pool_malloc (mem_pool_set_threadsafe (mem_pool_init n)) k = Some (NULL, p) ∧ mem_pool_malloc p k' = None ∧ mem_pool_reset p = None ∧
    mem_pool_destroy p = None.
Proof.
  intros Hn Hk. unfold mem_pool_malloc at 1. cbn. rewrite u32_small, Z.gtb_ltb, (proj2 (Z.ltb_lt _ _)) by lia. by eexists.
Qed.
