(* ===== verification/MileArray.v ===== *)
(** * Growing arrays and their heap ([src/common/MileArray.cpp])

    The arrays of rows that query results are collected in.  As a heap, the array
    has its largest element first; the comparator is a parameter whose order laws
    are the class [Ordering]. *)

From Stdlib Require Import ZArith Lia.
From stdpp Require Import base option list numbers.
From S2P Require Import Prelude.

#[local] Open Scope mile_scope.

(** ** The code *)

Definition ERROR_NOT_ENOUGH_MEMORY : Z := -3005.

(** [pool] is the block size of the memory pool, the largest size it allocates;
    [data_array] has [size] cells. *)
Record MileArray (A : Type) := Array {
  pool : Z;
  size : Z;
  num : Z;
  data_array : list (ptr A)
}.
Arguments Array {A}.
Arguments pool {A}.
Arguments size {A}.
Arguments num {A}.
Arguments data_array {A}.

Section array.
Context {A : Type}.
Implicit Types (m : MileArray A) (d : list (ptr A)) (comp : A → A → option Z).

(** [sizeof(void * )] *)
Definition PTR_SIZE : Z := 8.

Definition array_init (pool : Z) : MileArray A := Array pool 1000 0 (replicate 1000 NULL).

Definition array_add m (a : A) : option (Z * MileArray A) :=
  let store d size := d ← d⟦num m := Ptr a⟧; Some (0, Array (pool m) size (num m + 1) d) in
  if num m =? size m then
    if pool m <? PTR_SIZE * size m * 2 then Some (ERROR_NOT_ENOUGH_MEMORY, m)
    else d ← zcopy (replicate (Z.to_nat (size m * 2)) NULL) 0 (data_array m); store d (size m * 2)
  else store (data_array m) (size m).

Definition array_get m (i : Z) : option (ptr A) := if i >=? num m then Some NULL else (data_array m)⟦i⟧.

Definition array_set m (i : Z) (a : A) : option (MileArray A) :=
  if i <? num m then d ← (data_array m)⟦i := Ptr a⟧; Some (Array (pool m) (size m) (num m) d) else Some m.

Definition array_size m : Z := num m.

(** The object of a cell, for the comparator. *)
Definition cell d (i : Z) : option A := p ← d⟦i⟧; match p with Ptr a => Some a | NULL => None end.

Definition greater comp d (i j : Z) : option bool := a ← cell d i; b ← cell d j; c ← comp a b; Some (c =? 1).

Definition largest comp (n : Z) d (root : Z) : option Z :=
  l ← greater comp d (root * 2 + 1) root;
  let max := if (l : bool) then root * 2 + 1 else root in
  if root * 2 + 2 <? n then
    r ← greater comp d (root * 2 + 2) max;
    Some (if (r : bool) then root * 2 + 2 else max)
  else Some max.

Definition exchange d (i j : Z) : option (list (ptr A)) :=
  x ← d⟦i⟧; y ← d⟦j⟧; d ← d⟦i := y⟧; d⟦j := x⟧.

Fixpoint heapify (fuel : nat) comp (n : Z) d (root : Z) : option (list (ptr A)) :=
  match fuel with
  | O => None
  | S fuel =>
      if root * 2 + 1 >=? n then Some d
      else
        max ← largest comp n d root;
        if max =? root then Some d else d ← exchange d max root; heapify fuel comp n d max
  end.

Definition array_heapify comp m (root : Z) : option (MileArray A) :=
  d ← heapify (S (Z.to_nat (num m))) comp (num m) (data_array m) root;
  Some (Array (pool m) (size m) (num m) d).

(** [for (i = ...; i >= 0; i--)], for [i + 1 = k]. *)
Fixpoint build_loop comp m (k : nat) : option (MileArray A) :=
  match k with O => Some m | S k => m ← array_heapify comp m (Z.of_nat k); build_loop comp m k end.

Definition build_heap comp m : option (MileArray A) :=
  if 2 <=? num m then build_loop comp m (Z.to_nat ((num m - 2) / 2 + 1)) else Some m.

(** The iterator: the cells from [loc] on. *)
Record array_iterator := ArrayIter { loc : Z; iter_num : Z; iter_array : list (ptr A) }.
Definition array_iterator_first m : array_iterator := ArrayIter 0 (num m) (data_array m).
Definition array_next (it : array_iterator) : array_iterator := ArrayIter (loc it + 1) (iter_num it) (iter_array it).
Definition array_current (it : array_iterator) : option (ptr A) := (iter_array it)⟦loc it⟧.
Definition array_done (it : array_iterator) : bool := loc it >=? iter_num it.

(** What [for (iter->First(); !iter->IsDone(); iter->Next())] visits. *)
Fixpoint array_visit (fuel : nat) (it : array_iterator) : option (list A) :=
  if array_done it then Some []
  else
    match fuel with
    | O => None
    | S fuel =>
        p ← array_current it;
        match p with NULL => None | Ptr a => l ← array_visit fuel (array_next it); Some (a :: l) end
    end.

Definition array_items m : option (list A) := array_visit (Z.to_nat (num m)) (array_iterator_first m).
End array.

(** ** The order of the comparator *)

(** [comp] orders the elements that satisfy [ok]. *)
Class Ordering {A} (comp : A → A → option Z) (ok : A → Prop) : Prop := {
  ord_comp a b : ok a → ok b → ∃ c, comp a b = Some c ∧ (c = -1 ∨ c = 0 ∨ c = 1) ∧ comp b a = Some (- c);
  ord_trans a b c x y : ok a → ok b → ok c → comp a b = Some x → comp b c = Some y → x ≤ 0 → y ≤ 0 →
    ∃ z, comp a c = Some z ∧ z ≤ 0
}.

Section order.
Context {A : Type} (comp : A → A → option Z) (ok : A → Prop) `{!Ordering comp ok}.

Definition below (a b : A) : Prop := ∃ c, comp a b = Some c ∧ c ≤ 0.

Lemma below_trans a b c : ok a → ok b → ok c → below a b → below b c → below a c.
Proof. intros Ha Hb Hc (x & Hx & Hx0) (y & Hy & Hy0). by apply (ord_trans (comp := comp) (ok := ok) a b c x y). Qed.

Lemma below_refl a : ok a → below a a.
Proof.
  intros Ha. destruct (ord_comp (comp := comp) a a Ha Ha) as (c & Hc & _ & Hc'). exists c. split; [done|]. rewrite Hc in Hc'. injection Hc'. lia.
Qed.

(** The test [Compare(a, b) == 1]. *)
Lemma greater_below a b : ok a → ok b → ∃ c, comp a b = Some c ∧ (if c =? 1 then below b a else below a b).
Proof.
  intros Ha Hb. destruct (ord_comp (comp := comp) a b Ha Hb) as (c & Hc & Hr & Hc'). exists c. split; [done|].
  destruct (Z.eqb_spec c 1) as [->|Hne]; [exists (-1)|exists c]; split; try done; lia.
Qed.

Lemma less_below a b c : ok a → ok b → comp a b = Some c → if c =? -1 then below a b else below b a.
Proof.
  intros Ha Hb E. destruct (ord_comp (comp := comp) a b Ha Hb) as (c' & Hc & Hr & Hc'). rewrite E in Hc. injection Hc as <-.
  destruct (Z.eqb_spec c (-1)) as [->|Hne]; [exists (-1)|exists (- c)]; split; try done; lia.
Qed.

(** ** The heap *)

Definition child (c j : Z) : Prop := c = j * 2 + 1 ∨ c = j * 2 + 2.

(** The children of [j] are below it. *)
Definition heap_at (xs : list A) (j : Z) : Prop :=
  ∀ c x y, child c j → xs⟦c⟧ = Some x → xs⟦j⟧ = Some y → below x y.

Definition heap_from (xs : list A) (k : Z) : Prop := ∀ j, k ≤ j → heap_at xs j.

(** The heap from [k] on, but for [root], which may be too small. *)
Definition heap_but (xs : list A) (k root : Z) : Prop :=
  (∀ j, k ≤ j → j ≠ root → heap_at xs j) ∧
  ∀ p c x y, k ≤ p → child root p → child c root → xs⟦c⟧ = Some x → xs⟦p⟧ = Some y → below x y.

Section cells.
Context (js : list (ptr A)).
Abbreviation cells xs := ((Ptr <$> xs) ++ js).

Lemma cells_get (xs : list A) i x : xs⟦i⟧ = Some x → (cells xs)⟦i⟧ = Some (Ptr x).
Proof.
  intros H. pose proof (zget_Some_range _ _ _ H) as Hi. rewrite !zget_lookup in * by lia.
  rewrite lookup_app_l by (rewrite length_fmap; unfold zlen in Hi; lia). by rewrite list_lookup_fmap, H.
Qed.

Lemma cells_set (xs : list A) i x : 0 ≤ i < zlen xs → (cells xs)⟦i := Ptr x⟧ = Some (cells (<[Z.to_nat i := x]> xs)).
Proof.
  intros Hi. rewrite zset_in by (rewrite zlen_app, zlen_fmap; pose proof (zlen_nonneg js); lia). f_equal.
  rewrite insert_app_l by (rewrite length_fmap; unfold zlen in Hi; lia). by rewrite list_fmap_insert.
Qed.

Lemma cell_get (xs : list A) i x : xs⟦i⟧ = Some x → cell (cells xs) i = Some x.
Proof. intros H. unfold cell. by rewrite (cells_get _ _ _ H). Qed.

Lemma greater_spec xs i j x y :
  Forall ok xs → xs⟦i⟧ = Some x → xs⟦j⟧ = Some y →
  ∃ b, greater comp (cells xs) i j = Some b ∧ if (b : bool) then below y x else below x y.
Proof.
  intros Hok Hi Hj. assert (∀ i x, xs⟦i⟧ = Some x → ok x) as Hx.
  { intros k z Hz. pose proof (zget_Some_range _ _ _ Hz). rewrite zget_lookup in Hz by lia. by eapply Forall_lookup_1. }
  destruct (greater_below x y) as (c & Hc & H); [by eapply Hx..|].
  exists (c =? 1). unfold greater. by rewrite (cell_get _ _ _ Hi), (cell_get _ _ _ Hj); cbn [mbind option_bind]; rewrite Hc.
Qed.

Lemma exchange_spec xs i j x y :
  xs⟦i⟧ = Some x → xs⟦j⟧ = Some y → exchange (cells xs) i j = Some (cells (<[Z.to_nat j := x]> (<[Z.to_nat i := y]> xs))).
Proof.
  intros Hi Hj. unfold exchange. rewrite (cells_get _ _ _ Hi), (cells_get _ _ _ Hj). cbn [mbind option_bind].
  rewrite cells_set by (by eapply zget_Some_range). cbn [mbind option_bind].
  apply cells_set. rewrite zlen_insert. by eapply zget_Some_range.
Qed.

Lemma all_ok xs i x : Forall ok xs → xs⟦i⟧ = Some x → ok x.
Proof. intros Hok Hx. pose proof (zget_Some_range _ _ _ Hx). rewrite zget_lookup in Hx by lia. by eapply Forall_lookup_1. Qed.

(** [largest] is [root] or a child, and not below any of them. *)
Lemma largest_spec xs root x :
  Forall ok xs → xs⟦root⟧ = Some x → root * 2 + 1 < zlen xs →
  ∃ m y, largest comp (zlen xs) (cells xs) root = Some m ∧ xs⟦m⟧ = Some y ∧ (m = root ∨ child m root) ∧ below x y ∧
    ∀ c z, child c root → xs⟦c⟧ = Some z → below z y.
Proof.
  intros Hok Hx Hn. pose proof (zget_Some_range _ _ _ Hx) as Hr. unfold largest.
  destruct (zget_lt xs (root * 2 + 1)) as [l Hl]; [lia|].
  destruct (greater_spec xs (root * 2 + 1) root l x Hok Hl Hx) as (b & -> & Hb). cbn [mbind option_bind].
  pose proof (all_ok _ _ _ Hok Hx) as Okx. pose proof (all_ok _ _ _ Hok Hl) as Okl.
  set (m := if b then root * 2 + 1 else root).
  assert (∃ y, xs⟦m⟧ = Some y ∧ below x y ∧ below l y ∧ ok y ∧ (m = root ∨ child m root)) as (y & Hy & Hxy & Hly & Oky & Hm).
  { destruct b; [exists l|exists x]; (split; [done|]); repeat (split; try done; try by apply below_refl); [by right; left|by left]. }
  destruct (Z.ltb_spec (root * 2 + 2) (zlen xs)) as [Hlt|Hge].
  - destruct (zget_lt xs (root * 2 + 2)) as [r Hr2]; [lia|]. pose proof (all_ok _ _ _ Hok Hr2) as Okr.
    destruct (greater_spec xs (root * 2 + 2) m r y Hok Hr2 Hy) as (b' & -> & Hb'). cbn [mbind option_bind].
    assert (∀ w, ok w → below y w → below r w → ∀ c z, child c root → xs⟦c⟧ = Some z → below z w) as Hall.
    { intros w Okw Hyw Hrw c z [ -> | -> ] Hc; [|congruence]. rewrite Hl in Hc. injection Hc as <-. by apply (below_trans l y w). }
    destruct b'.
    + exists (root * 2 + 2), r. split; [done|]. split; [done|]. split; [by right; right|].
      split; [by apply (below_trans x y r)|]. apply Hall; [done..|by apply below_refl].
    + exists m, y. repeat (split; [done|]). apply Hall; [done|by apply below_refl|done].
  - exists m, y. repeat (split; [done|]). intros c z [ -> | -> ] Hc; [congruence|]. apply zget_Some_range in Hc. lia.
Qed.

Lemma swap_get (xs : list A) i j x y k :
  xs⟦i⟧ = Some x → xs⟦j⟧ = Some y → i ≠ j →
  (<[Z.to_nat j := x]> (<[Z.to_nat i := y]> xs))⟦k⟧ = if k =? j then Some x else if k =? i then Some y else xs⟦k⟧.
Proof.
  intros Hi Hj Hne. pose proof (zget_Some_range _ _ _ Hi). pose proof (zget_Some_range _ _ _ Hj).
  destruct (Z.eqb_spec k j) as [->|Hkj]; [by rewrite zget_insert_eq by (rewrite zlen_insert; lia)|].
  destruct (Z.eqb_spec k i) as [->|Hki].
  - rewrite zget_insert_ne by lia. by rewrite zget_insert_eq.
  - destruct (decide (0 ≤ k)); [by rewrite !zget_insert_ne by lia|]. unfold zget. case_decide; [lia|done].
Qed.

Lemma child_parent c i j : child c i → child c j → i = j.
Proof. unfold child. lia. Qed.

Lemma child_gt c j : 0 ≤ j → child c j → j < c.
Proof. unfold child. lia. Qed.

(** Exchanging the root and its largest child moves the gap to the child. *)
Lemma heap_but_child (xs : list A) k root m x y :
  0 ≤ k ≤ root → xs⟦root⟧ = Some x → xs⟦m⟧ = Some y → child m root → below x y →
  (∀ c z, child c root → xs⟦c⟧ = Some z → below z y) → heap_but xs k root →
  heap_but (<[Z.to_nat root := y]> (<[Z.to_nat m := x]> xs)) k m.
Proof.
  intros Hk Hx Hy Hm Hxy Hall [H1 H2]. pose proof (child_gt m root ltac:(lia) Hm) as Hlt.
  pose proof (swap_get xs m root y x) as Hsw. specialize (λ k, Hsw k Hy Hx ltac:(lia)). split.
  - intros j Hj Hjm c u v Hc. rewrite !Hsw. rewrite (proj2 (Z.eqb_neq j m) Hjm).
    pose proof (child_gt c j ltac:(lia) Hc).
    destruct (Z.eqb_spec j root) as [->|Hjr].
    + rewrite (proj2 (Z.eqb_neq c root)) by lia. intros Hu [= <-].
      destruct (Z.eqb_spec c m) as [->|Hcm]; [by injection Hu as <-|by apply (Hall c)].
    + destruct (Z.eqb_spec c root) as [->|Hcr]; [intros [= <-] Hv; by apply (H2 j m)|].
      destruct (Z.eqb_spec c m) as [->|Hcm]; [by pose proof (child_parent _ _ _ Hc Hm)|]. by apply (H1 j Hj Hjr c).
  - intros p c u v Hp Hpm Hc. pose proof (child_parent _ _ _ Hpm Hm) as ->. rewrite !Hsw, Z.eqb_refl.
    pose proof (child_gt c m ltac:(lia) Hc). rewrite (proj2 (Z.eqb_neq c root)), (proj2 (Z.eqb_neq c m)) by lia.
    intros Hu [= <-]. by apply (H1 m ltac:(lia) ltac:(lia) c).
Qed.

Lemma heapify_spec fuel (xs : list A) k root :
  Forall ok xs → 0 ≤ k ≤ root → (Z.to_nat (zlen xs - root) < fuel)%nat → heap_but xs k root →
  ∃ xs', heapify fuel comp (zlen xs) (cells xs) root = Some (cells xs') ∧ xs' ≡ₚ xs ∧ heap_from xs' k.
Proof.
  revert xs root. induction fuel as [|fuel IH]; intros xs root Hok Hk Hf Hb; [lia|]. cbn [heapify].
  destruct (Z.geb_spec (root * 2 + 1) (zlen xs)) as [Hge|Hlt].
  { exists xs. split; [done|]. split; [done|]. intros j Hj. destruct (decide (j = root)) as [->|Hne]; [|by apply Hb].
    intros c u v Hc Hu. pose proof (zget_Some_range _ _ _ Hu). destruct Hc; lia. }
  destruct (zget_lt xs root) as [x Hx]; [lia|].
  destruct (largest_spec xs root x Hok Hx Hlt) as (m & y & -> & Hy & Hm & Hxy & Hall). cbn [mbind option_bind].
  destruct (Z.eqb_spec m root) as [->|Hne].
  - exists xs. split; [done|]. split; [done|]. intros j Hj. destruct (decide (j = root)) as [->|Hne]; [|by apply Hb].
    intros c u v Hc Hu Hv. rewrite Hy in Hv. injection Hv as <-. by apply (Hall c).
  - destruct Hm as [?|Hm]; [done|]. rewrite (exchange_spec _ _ _ _ _ Hy Hx). cbn [mbind option_bind].
    pose proof (child_gt m root ltac:(lia) Hm).
    pose proof (heap_but_child xs k root m x y Hk Hx Hy Hm Hxy Hall Hb) as Hb'.
    set (xs1 := <[Z.to_nat root := y]> (<[Z.to_nat m := x]> xs)) in *.
    assert (xs1 ≡ₚ xs) as Hp.
    { pose proof (zget_Some_range _ _ _ Hx). pose proof (zget_Some_range _ _ _ Hy). rewrite zget_lookup in Hx, Hy by lia.
      by apply Permutation_insert_swap. }
    assert (zlen xs1 = zlen xs) as El by (unfold xs1; by rewrite !zlen_insert).
    destruct (IH xs1 m) as (xs' & Hh & Hp' & Hheap); [by rewrite Hp|lia|lia|done|].
    rewrite El in Hh. exists xs'. split; [done|]. split; [by rewrite Hp'|done].
Qed.
End cells.
End order.

(** ** The array holds a list *)

Record array_rep {A} (m : MileArray A) (xs : list A) : Prop := {
  ar_num : num m = zlen xs;
  ar_size : size m = zlen (data_array m) ∧ 0 < size m;
  ar_cells : ∃ js, data_array m = (Ptr <$> xs) ++ js
}.

Section rep.
Context {A : Type}.
Implicit Types (m : MileArray A) (xs : list A).

Lemma array_init_rep p : array_rep (array_init (A := A) p) [].
Proof. split; [done|done|]. by eexists. Qed.

Lemma array_add_spec m xs a :
  array_rep m xs → 2 * PTR_SIZE * zlen xs ≤ pool m →
  ∃ m', array_add m a = Some (0, m') ∧ array_rep m' (xs ++ [a]) ∧ pool m' = pool m.
Proof.
  intros [Hn [Hs Hpos] (js & Hd)] Hp. unfold PTR_SIZE in Hp. unfold array_add, PTR_SIZE.
  assert (∀ d sz js' j, d = (Ptr <$> xs) ++ j :: js' → sz = zlen d →
    ∃ m', (d' ← d⟦num m := Ptr a⟧; Some (0, Array (pool m) sz (num m + 1) d')) = Some (0, m') ∧ array_rep m' (xs ++ [a]) ∧ pool m' = pool m) as Hstore.
  { intros d sz js' j -> Esz. rewrite Hn. pose proof (zlen_nonneg xs). pose proof (zlen_nonneg js').
    rewrite zset_in by (rewrite zlen_app, zlen_fmap, zlen_cons; lia). cbn [mbind option_bind]. eexists. split; [done|].
    split; [|done]. split; cbn [num size data_array]; [by rewrite zlen_app|rewrite zlen_insert, Esz, zlen_app, zlen_fmap, zlen_cons; lia|].
    exists js'. rewrite fmap_app, <- app_assoc. unfold zlen. rewrite Nat2Z.id.
    rewrite insert_app_r_alt by (rewrite length_fmap; lia). rewrite length_fmap, Nat.sub_diag. done. }
  destruct (Z.eqb_spec (num m) (size m)) as [E|Hne].
  - rewrite (proj2 (Z.ltb_ge _ _)) by lia.
    assert (js = []) as ->.
    { rewrite Hs, Hd, zlen_app, zlen_fmap in E. rewrite Hn in E. destruct js; [done|]. rewrite zlen_cons in E. pose proof (zlen_nonneg js). lia. }
    rewrite app_nil_r in Hd.
    rewrite (zcopy_mid [] : ∀ b src : list (ptr A), _ → zcopy b 0 src = _).
    2: { rewrite zlen_replicate. lia. }
    cbn [mbind option_bind app]. rewrite Hd, length_fmap, drop_replicate.
    replace (Z.to_nat (size m * 2) - length xs)%nat with (S (Z.to_nat (size m) - 1)) by (unfold zlen in *; lia).
    cbn [replicate]. eapply Hstore; [done|]. rewrite zlen_app, zlen_fmap, zlen_cons, zlen_replicate. lia.
  - destruct js as [|j js].
    + exfalso. apply Hne. rewrite Hs, Hd, app_nil_r, zlen_fmap. lia.
    + by apply (Hstore _ _ js j).
Qed.

Lemma array_get_spec m xs i : array_rep m xs → 0 ≤ i → array_get m i = Some (match xs⟦i⟧ with Some a => Ptr a | None => NULL end).
Proof.
  intros [Hn _ (js & Hd)] Hi. unfold array_get. destruct (Z.geb_spec i (num m)) as [Hge|Hlt].
  - destruct (xs⟦i⟧) eqn:E; [apply zget_Some_range in E; lia|done].
  - destruct (zget_lt xs i) as [a Ha]; [lia|]. rewrite Hd, Ha. by apply cells_get.
Qed.

Lemma array_set_spec m xs i a :
  array_rep m xs → 0 ≤ i < zlen xs → ∃ m', array_set m i a = Some m' ∧ array_rep m' (<[Z.to_nat i := a]> xs) ∧ pool m' = pool m.
Proof.
  intros [Hn Hs (js & Hd)] Hi. unfold array_set. rewrite (proj2 (Z.ltb_lt _ _)) by lia. rewrite Hd, cells_set by done.
  cbn [mbind option_bind]. eexists. split; [done|]. split; [|done].
  split; cbn [num size data_array]; [by rewrite zlen_insert|..|by eexists].
  rewrite Hd in Hs. rewrite zlen_app, zlen_fmap in *. by rewrite zlen_insert.
Qed.

Lemma array_visit_spec fuel xs js i :
  0 ≤ i ≤ zlen xs → (Z.to_nat (zlen xs - i) ≤ fuel)%nat →
  array_visit fuel (ArrayIter i (zlen xs) ((Ptr <$> xs) ++ js)) = Some (drop (Z.to_nat i) xs).
Proof.
  revert i. induction fuel as [|fuel IH]; intros i Hi Hf; cbn [array_visit]; unfold array_done; cbn [loc iter_num];
    destruct (Z.geb_spec i (zlen xs)) as [Hge|Hlt].
  - rewrite drop_ge by (unfold zlen in Hge; lia). done.
  - lia.
  - rewrite drop_ge by (unfold zlen in Hge; lia). done.
  - destruct (zget_lt xs i) as [a Ha]; [lia|]. unfold array_current. cbn [loc iter_array]. rewrite (cells_get _ _ _ _ Ha).
    cbn [mbind option_bind]. unfold array_next. cbn [loc iter_num iter_array]. rewrite IH by lia. cbn [mbind option_bind].
    rewrite zget_lookup in Ha by lia. f_equal. rewrite (drop_S _ _ _ Ha). do 2 f_equal. lia.
Qed.

Lemma array_items_spec m xs : array_rep m xs → array_items m = Some xs.
Proof.
  intros [Hn _ (js & Hd)]. unfold array_items, array_iterator_first. rewrite Hn, Hd. pose proof (zlen_nonneg xs).
  rewrite array_visit_spec by lia. done.
Qed.

Section heap.
Context (comp : A → A → option Z) (ok : A → Prop) `{!Ordering comp ok}.

(** [heap_but] at the last node before a heap: the root is the only gap. *)
Lemma heap_but_root xs k : 0 ≤ k → heap_from comp xs (k + 1) → heap_but comp xs k k.
Proof.
  intros Hk H. split; [intros j Hj Hne; apply H; lia|]. intros p c x y Hp Hc. pose proof (child_gt k p ltac:(lia) Hc). lia.
Qed.

Lemma array_heapify_spec m xs k :
  array_rep m xs → Forall ok xs → 0 ≤ k → heap_but comp xs k k →
  ∃ m' xs', array_heapify comp m k = Some m' ∧ array_rep m' xs' ∧ pool m' = pool m ∧ xs' ≡ₚ xs ∧ heap_from comp xs' k.
Proof.
  intros [Hn Hs (js & Hd)] Hok Hk Hb. unfold array_heapify. rewrite Hn, Hd.
  destruct (heapify_spec comp ok js (Datatypes.S (Z.to_nat (zlen xs))) xs k k) as (xs' & -> & Hp & Hh); [done|lia|lia|done|].
  cbn [mbind option_bind]. assert (zlen xs' = zlen xs) as El by (unfold zlen; by rewrite Hp).
  eexists _, xs'. split; [done|]. split; [|by split]. split; cbn [num size data_array]; [done|..|by eexists].
  rewrite Hd in Hs. rewrite zlen_app, zlen_fmap in *. lia.
Qed.

Lemma build_loop_spec k m xs :
  array_rep m xs → Forall ok xs → heap_from comp xs (Z.of_nat k) →
  ∃ m' xs', build_loop comp m k = Some m' ∧ array_rep m' xs' ∧ pool m' = pool m ∧ xs' ≡ₚ xs ∧ heap_from comp xs' 0.
Proof.
  revert m xs. induction k as [|k IH]; intros m xs Hm Hok Hh; [by exists m, xs|]. cbn [build_loop].
  destruct (array_heapify_spec m xs (Z.of_nat k)) as (m1 & xs1 & -> & Hm1 & Hp1 & Hx1 & Hh1); [done..|lia| |].
  { apply heap_but_root; [lia|]. by replace (Z.of_nat k + 1) with (Z.of_nat (Datatypes.S k)) by lia. }
  cbn [mbind option_bind].
  destruct (IH m1 xs1 Hm1) as (m2 & xs2 & H2 & Hm2 & Hp2 & Hx2 & Hh2); [by rewrite Hx1|done|].
  exists m2, xs2. split; [done|]. split; [done|]. split; [congruence|]. split; [by rewrite Hx2|done].
Qed.

Lemma build_heap_spec m xs :
  array_rep m xs → Forall ok xs →
  ∃ m' xs', build_heap comp m = Some m' ∧ array_rep m' xs' ∧ pool m' = pool m ∧ xs' ≡ₚ xs ∧ heap_from comp xs' 0.
Proof.
  intros Hm Hok. unfold build_heap. pose proof (ar_num _ _ Hm) as Hn.
  assert (∀ k, zlen xs ≤ 2 * k + 1 → heap_from comp xs k) as Hleaf.
  { intros k Hk j Hj c x y Hc Hx. apply zget_Some_range in Hx. destruct Hc; lia. }
  destruct (Z.leb_spec 2 (num m)) as [Hge|Hlt].
  - apply build_loop_spec; [done..|]. apply Hleaf. rewrite Hn in *. zdiv.
  - exists m, xs. split; [done|]. split; [done|]. split; [done|]. split; [done|]. apply Hleaf. lia.
Qed.

(** The first element of a heap is above all others. *)
Lemma heap_top xs x i y :
  Forall ok xs → heap_from comp xs 0 → xs⟦0⟧ = Some x → xs⟦i⟧ = Some y → below comp y x.
Proof.
  intros Hok Hh Hx Hy. pose proof (zget_Some_range _ _ _ Hy) as Hi.
  revert y Hy. induction i as [i IH] using (well_founded_induction (Z.lt_wf 0)). intros y Hy.
  destruct (decide (i = 0)) as [->|Hne].
  - rewrite Hx in Hy. injection Hy as <-. apply (below_refl comp ok). exact (all_ok ok _ _ _ Hok Hx).
  - set (p := (i - 1) / 2). assert (child i p ∧ 0 ≤ p < i) as [Hc Hp] by (unfold child, p; zdiv).
    destruct (zget_lt xs p) as [z Hz]; [lia|].
    apply (below_trans comp ok y z x); [exact (all_ok ok _ _ _ Hok Hy)|exact (all_ok ok _ _ _ Hok Hz)|exact (all_ok ok _ _ _ Hok Hx)| |apply (IH p); [lia|lia|done]].
    by apply (Hh p ltac:(lia) i).
Qed.
End heap.
End rep.
