(* ===== verification/MileHashMap.v ===== *)
(** * Hash sets and hash maps ([src/common/HashSet.cpp], [MileHashMap.cpp])

    Chained tables of a fixed number of buckets, which never grow; a bucket is a
    list ([MileList.cpp]) that is made when its first element comes.  Equality and
    hash are parameters with the laws [Hashing]. *)

From Stdlib Require Import ZArith Lia.
From stdpp Require Import base option list numbers sets.
From S2P Require Import Prelude.

#[local] Open Scope mile_scope.

(** ** Lists as stacks *)

Definition list_add {A} (l : list A) (x : A) : list A := l ++ [x].

(** [Pop] takes the last element. *)
Definition list_pop {A} (l : list A) : option A * list A :=
  match rev l with [] => (None, []) | x :: r => (Some x, rev r) end.

Definition list_is_empty {A} (l : list A) : bool := match l with [] => true | _ => false end.

(** ** The code *)

(** The fields that both classes have. *)
Record buckets (A : Type) := Buckets {
  bucket_size : Z;
  data_array : list (ptr (list A));
  num : Z
}.
Arguments Buckets {A}.
Arguments bucket_size {A}.
Arguments data_array {A}.
Arguments num {A}.

Definition HashSet (A : Type) : Type := buckets A.
Definition MileHashMap (K V : Type) : Type := buckets (K * V).

Definition buckets_init {A} : buckets A := Buckets 1000 (replicate 1000 NULL) 0.

(** The first element that the loop accepts. *)
Fixpoint find_item {A} (test : A → option Z) (l : list A) : option (ptr A) :=
  match l with
  | [] => Some NULL
  | x :: l => e ← test x; if negb (e =? 0) then Some (Ptr x) else find_item test l
  end.

Section code.
Context {A K : Type} (equal : A → A → option Z) (coding : A → option Z).

Definition key_hash {B} (t : buckets B) (a : A) : option Z := h ← coding a; Some (u32 h `mod` bucket_size t).

Definition set_get (s : HashSet A) (a : A) : option (ptr A) :=
  i ← key_hash s a;
  b ← (data_array s)⟦i⟧;
  match b with NULL => Some NULL | Ptr l => find_item (λ x, equal x a) l end.

Definition set_contains (s : HashSet A) (a : A) : option bool :=
  if num s =? 0 then Some false else r ← set_get s a; Some (match r with NULL => false | Ptr _ => true end).

(** The element goes to the end of bucket [i]. *)
Definition add_to {B} (t : buckets B) (i : Z) (l : list B) (x : B) : option (buckets B) :=
  d ← (data_array t)⟦i := Ptr (list_add l x)⟧; Some (Buckets (bucket_size t) d (u32 (num t + 1))).

Definition set_add (s : HashSet A) (a : A) : option (HashSet A) :=
  i ← key_hash s a;
  b ← (data_array s)⟦i⟧;
  match b with
  | NULL => add_to s i [] a
  | Ptr l =>
      r ← find_item (λ x, equal x a) l;
      match r with Ptr _ => Some s | NULL => add_to s i l a end
  end.

Definition set_size (s : HashSet A) : Z := s32 (num s).

Section map.
Context {V : Type}.

(** The loop of [Put] with its assignment; [None] inside when no key is equal. *)
Fixpoint replace_value (a : A) (v : V) (l : list (A * V)) : option (option (list (A * V))) :=
  match l with
  | [] => Some None
  | (k, w) :: l =>
      e ← equal k a;
      if negb (e =? 0) then Some (Some ((k, v) :: l))
      else r ← replace_value a v l; Some (match r with Some l => Some ((k, w) :: l) | None => None end)
  end.

Definition map_put (m : MileHashMap A V) (a : A) (v : V) : option (MileHashMap A V) :=
  i ← key_hash m a;
  b ← (data_array m)⟦i⟧;
  match b with
  | NULL => add_to m i [] (a, v)
  | Ptr l =>
      r ← replace_value a v l;
      match r with
      | Some l => d ← (data_array m)⟦i := Ptr l⟧; Some (Buckets (bucket_size m) d (num m))
      | None => add_to m i l (a, v)
      end
  end.

Definition map_get (m : MileHashMap A V) (a : A) : option (ptr V) :=
  i ← key_hash m a;
  b ← (data_array m)⟦i⟧;
  match b with
  | NULL => Some NULL
  | Ptr l => r ← find_item (λ e, equal e.1 a) l; Some (match r with NULL => NULL | Ptr e => Ptr e.2 end)
  end.

Definition map_contains (m : MileHashMap A V) (a : A) : option bool :=
  r ← map_get m a; Some (match r with NULL => false | Ptr _ => true end).

Definition map_size (m : MileHashMap A V) : Z := s32 (num m).
End map.
End code.

(** *** The iterators *)

(** [current] holds the rest of the list of bucket [loc]. *)
Record bucket_iterator (A : Type) := BucketIter { loc : Z; current : list A }.
Arguments BucketIter {A}.
Arguments loc {A}.
Arguments current {A}.

Section iterator.
Context {A : Type}.
Implicit Types (t : buckets A) (it : bucket_iterator A).

(** [for (; loc < bucket_size; loc++)] up to a bucket that has a list; [ds] are the
    buckets from [loc] on. *)
Fixpoint seek (ds : list (ptr (list A))) it : bucket_iterator A :=
  match ds with
  | [] => it
  | Ptr l :: _ => BucketIter (loc it) l
  | NULL :: ds => seek ds (BucketIter (loc it + 1) (current it))
  end.

Definition buckets_first t : bucket_iterator A := seek (data_array t) (BucketIter 0 []).
Definition buckets_next t it : option (bucket_iterator A) :=
  match current it with
  | [] => None
  | _ :: [] => Some (seek (drop (Z.to_nat (loc it + 1)) (data_array t)) (BucketIter (loc it + 1) []))
  | _ :: l => Some (BucketIter (loc it) l)
  end.
Definition buckets_done t it : bool := loc it >=? bucket_size t.
Definition buckets_current it : option A := match current it with [] => None | x :: _ => Some x end.

(** What [for (iter->First(); !iter->IsDone(); iter->Next())] visits. *)
Fixpoint buckets_visit (fuel : nat) t it : option (list A) :=
  if buckets_done t it then Some []
  else
    match fuel with
    | O => None
    | S fuel =>
        x ← buckets_current it;
        it ← buckets_next t it;
        l ← buckets_visit fuel t it;
        Some (x :: l)
    end.

Definition buckets_items t : option (list A) := buckets_visit (Z.to_nat (num t)) t (buckets_first t).
End iterator.

Definition set_items {A} (s : HashSet A) : option (list A) := buckets_items s.
Definition map_values {K V} (m : MileHashMap K V) : option (list V) := es ← buckets_items m; Some es.*2.

(** ** The laws of equality and hash *)

(** On the elements that satisfy [ok], [equal] compares a [key] and [coding] is a
    function [code] of the key. *)
Class Hashing {A K} `{!EqDecision K} (equal : A → A → option Z) (coding : A → option Z)
    (ok : A → Prop) (key : A → K) (code : K → Z) : Prop := {
  hashing_equal a b : ok a → ok b → equal a b = Some (if decide (key a = key b) then 1 else 0);
  hashing_coding a : ok a → coding a = Some (code (key a));
  hashing_code k : 0 ≤ code k < 2 ^ 32
}.

(** ** What the buckets hold *)

Section spec.
Context {A : Type} (place : A → Z).
Implicit Types (t : buckets A) (xs : list A).

Definition bucket_at xs (i : Z) : list A := filter (λ x, place x = i) xs.

(** The elements [xs], in the order in which they were added. *)
Record buckets_rep t xs : Prop := {
  br_size : bucket_size t = 1000;
  br_len : zlen (data_array t) = 1000;
  br_num : num t = zlen xs ∧ zlen xs < 2 ^ 32;
  br_place : Forall (λ x, 0 ≤ place x < 1000) xs;
  br_bucket i : 0 ≤ i < 1000 → (data_array t)⟦i⟧ = Some (match bucket_at xs i with [] => NULL | l => Ptr l end)
}.

Lemma buckets_init_rep : buckets_rep buckets_init [].
Proof. split; try done. intros i Hi. unfold buckets_init. cbn [data_array]. rewrite zget_replicate by lia. done. Qed.

Lemma bucket_at_app xs x i : bucket_at (xs ++ [x]) i = bucket_at xs i ++ (if decide (place x = i) then [x] else []).
Proof. unfold bucket_at. rewrite list.filter_app, filter_cons, filter_nil. by case_decide. Qed.

Lemma bucket_at_ne xs i l : (match bucket_at xs i with [] => NULL | l => Ptr l end) = Ptr l → bucket_at xs i = l.
Proof. destruct (bucket_at xs i); [done|]. by intros [= <-]. Qed.

Lemma add_to_spec t xs i x l :
  buckets_rep t xs → place x = i → 0 ≤ i < 1000 → bucket_at xs i = l → zlen xs + 1 < 2 ^ 32 →
  ∃ t', add_to t i l x = Some t' ∧ buckets_rep t' (xs ++ [x]).
Proof.
  intros [Hs Hl [Hn Hb] Hp Hd] Hx Hi Hlist Hlt. unfold add_to, list_add. rewrite zset_in by lia. cbn [mbind option_bind].
  eexists. split; [done|]. split; cbn [bucket_size data_array num]; [done|by rewrite zlen_insert|..].
  - rewrite zlen_app, Hn. change (zlen [x]) with 1. pose proof (zlen_nonneg xs). by rewrite u32_small by lia.
  - apply Forall_app. split; [done|]. by constructor; [lia|].
  - intros j Hj. rewrite bucket_at_app. destruct (decide (place x = j)) as [E|Hne].
    + assert (i = j) as <- by congruence. rewrite zget_insert_eq by lia. rewrite Hlist. by destruct l.
    + rewrite zget_insert_ne by lia. by rewrite app_nil_r, Hd.
Qed.

Lemma bucket_at_Forall (P : A → Prop) xs i : Forall P xs → Forall P (bucket_at xs i).
Proof.
  rewrite !List.Forall_forall. intros H x Hx. apply list_elem_of_In, list_elem_of_filter in Hx as [_ Hx]. by apply H, list_elem_of_In.
Qed.

Lemma bucket_at_NoDup {B} (f : A → B) xs i : NoDup (f <$> xs) → NoDup (f <$> bucket_at xs i).
Proof.
  induction xs as [|x xs IH]; [done|]. cbn [fmap list_fmap]. intros [Hx H]%NoDup_cons. unfold bucket_at. rewrite filter_cons.
  case_decide; [|by apply IH]. cbn [fmap list_fmap]. apply NoDup_cons. split; [|by apply IH].
  intros (y & Ey & [_ Hy]%list_elem_of_filter)%list_elem_of_fmap. apply Hx. rewrite Ey. by apply list_elem_of_fmap_2.
Qed.

(** *** Iteration *)

Definition all_buckets xs : list A := concat (bucket_at xs <$> seqZ 0 1000).

Lemma all_buckets_perm xs : Forall (λ x, 0 ≤ place x < 1000) xs → all_buckets xs ≡ₚ xs.
Proof.
  intros H. unfold all_buckets.
  induction xs as [|x xs IH] using rev_ind; [|].
  - induction (seqZ 0 1000) as [|i l IHl]; [done|]. cbn [fmap list_fmap concat]. by rewrite IHl.
  - apply Forall_app in H as [H Hx]. rewrite Forall_singleton in Hx. rewrite <- (IH H) at 2. clear IH H.
    assert (∀ l : list Z, NoDup l → concat (bucket_at (xs ++ [x]) <$> l) ≡ₚ
      concat (bucket_at xs <$> l) ++ (if decide (place x ∈ l) then [x] else [])) as Hc.
    { intros l. induction 1 as [|i l Hi Hl IHl]; [done|]. cbn [fmap list_fmap concat]. rewrite bucket_at_app, IHl, <- app_assoc.
      destruct (decide (place x = i)) as [<-|Hne].
      - rewrite (decide_False (P := place x ∈ l)) by done. rewrite (decide_True (P := place x ∈ place x :: l)) by (by apply elem_of_cons; left). rewrite app_nil_r. rewrite <- app_assoc. f_equiv. apply Permutation_app_comm.
      - cbn [app]. rewrite <- app_assoc. do 2 f_equiv. destruct (decide (place x ∈ l)) as [Hin|Hin].
        + rewrite (decide_True (P := place x ∈ i :: l)) by (by apply elem_of_cons; right). done.
        + rewrite (decide_False (P := place x ∈ i :: l)); [done|]. intros Hin'. by apply elem_of_cons in Hin' as [?|?]. }
    rewrite Hc by apply NoDup_seqZ. rewrite (decide_True (P := place x ∈ seqZ 0 1000)) by (apply elem_of_seqZ; lia). done.
Qed.

Definition listed (p : ptr (list A)) : list A := match p with NULL => [] | Ptr l => l end.
Definition contents (ds : list (ptr (list A))) : list A := concat (listed <$> ds).

(** [seek] skips the buckets without a list. *)
Lemma seek_spec ds i c :
  Forall (λ p, p ≠ Ptr []) ds →
  let it := seek ds (BucketIter i c) in
  (loc it = i + zlen ds ∧ contents ds = []) ∨
  (i ≤ loc it < i + zlen ds ∧ current it ≠ [] ∧ contents ds = current it ++ contents (drop (Z.to_nat (loc it - i + 1)) ds)).
Proof.
  intros H. revert i c. induction H as [|p ds Hp H IH]; intros i c it.
  - left. subst it. change (zlen []) with 0. split; [simpl; lia|done].
  - subst it. rewrite zlen_cons. pose proof (zlen_nonneg ds). destruct p as [|l]; cbn [seek loc current].
    + destruct (IH (i + 1) c) as [[E1 E2]|(E1 & E2 & E3)]; [left; split; [lia|done]|right].
      split; [lia|]. split; [done|]. unfold contents in *. cbn [fmap list_fmap concat listed app]. rewrite E3.
      replace (Z.to_nat (loc (seek ds (BucketIter (i + 1) c)) - i + 1))
        with (Datatypes.S (Z.to_nat (loc (seek ds (BucketIter (i + 1) c)) - (i + 1) + 1))) by lia. done.
    + right. split; [lia|]. split; [by intros ->|]. replace (Z.to_nat (i - i + 1)) with 1%nat by lia. done.
Qed.

Lemma slot_visit_spec fuel t it :
  bucket_size t = zlen (data_array t) → Forall (λ p, p ≠ Ptr []) (data_array t) → 0 ≤ loc it < bucket_size t → current it ≠ [] →
  let l := current it ++ contents (drop (Z.to_nat (loc it + 1)) (data_array t)) in
  (length l ≤ fuel)%nat → buckets_visit fuel t it = Some l.
Proof.
  intros Hs Hne. revert it. induction fuel as [|fuel IH]; intros it Hl Hc l Hf.
  { subst l. destruct (current it); [done|]. simpl in Hf. lia. }
  cbn [buckets_visit]. unfold buckets_done. rewrite Z.geb_leb, (proj2 (Z.leb_gt _ _)) by lia.
  unfold buckets_current, buckets_next. subst l. destruct (current it) as [|x [|y l]] eqn:E; [done|..]; cbn [mbind option_bind].
  - set (ds := drop (Z.to_nat (loc it + 1)) (data_array t)) in *.
    assert (Forall (λ p, p ≠ Ptr []) ds) as Hds by (by apply Forall_drop).
    assert (zlen ds = bucket_size t - (loc it + 1)) as Els by (unfold ds, zlen in *; rewrite length_drop; lia).
    pose proof (seek_spec ds (loc it + 1) [] Hds) as Hseek. cbv zeta in Hseek.
    set (it' := seek ds (BucketIter (loc it + 1) [])) in *.
    destruct Hseek as [[E1 E2]|(E1 & E2 & E3)].
    + rewrite E2. cbn [app]. destruct fuel; cbn [buckets_visit]; unfold buckets_done;
        rewrite Z.geb_leb, (proj2 (Z.leb_le _ _)) by lia; done.
    + rewrite (IH it'); [|lia|done|]; cycle 1.
      * cbn [app length] in Hf. rewrite E3 in Hf. unfold ds in Hf. rewrite drop_drop in Hf.
        replace (Z.to_nat (loc it' + 1)) with (Z.to_nat (loc it + 1) + Z.to_nat (loc it' - (loc it + 1) + 1))%nat by lia. lia.
      * cbn [mbind option_bind app]. rewrite E3. unfold ds. rewrite drop_drop.
        by replace (Z.to_nat (loc it + 1) + Z.to_nat (loc it' - (loc it + 1) + 1))%nat with (Z.to_nat (loc it' + 1)) by lia.
  - rewrite (IH (BucketIter (loc it) (y :: l))); [done|done|done|]. cbn [current loc app length] in *. lia.
Qed.

Lemma buckets_items_spec t xs : buckets_rep t xs → buckets_items t = Some (all_buckets xs).
Proof.
  intros [Hs Hl [Hn Hb] Hp Hd]. unfold buckets_items.
  assert (data_array t = (λ i, match bucket_at xs i with [] => NULL | l => Ptr l end) <$> seqZ 0 1000) as Eda.
  { apply zget_ext; [by rewrite zlen_fmap|]. intros i Hi. rewrite Hl in Hi. rewrite zget_fmap.
    rewrite Hd by done. rewrite zget_lookup by lia. rewrite lookup_seqZ_lt by lia. cbn. by replace (0 + Z.of_nat (Z.to_nat i)) with i by lia. }
  assert (contents (data_array t) = all_buckets xs) as Ec.
  { rewrite Eda. unfold contents, all_buckets. rewrite <- list_fmap_compose. f_equal. apply list_fmap_ext.
    intros i j _. simpl. by destruct (bucket_at xs j). }
  assert (Forall (λ p, p ≠ Ptr []) (data_array t)) as Hne.
  { rewrite Eda. apply Forall_fmap, Forall_true. intros i. simpl. by destruct (bucket_at xs i). }
  pose proof (all_buckets_perm xs Hp) as Hperm. apply Permutation_length in Hperm.
  unfold buckets_first. pose proof (seek_spec (data_array t) 0 [] Hne) as Hseek. cbv zeta in Hseek.
  set (it := seek (data_array t) (BucketIter 0 [])) in *. destruct Hseek as [[E1 E2]|(E1 & E2 & E3)].
  - rewrite <- Ec, E2. destruct (Z.to_nat (num t)); cbn [buckets_visit]; unfold buckets_done;
      rewrite Z.geb_leb, (proj2 (Z.leb_le _ _)) by lia; done.
  - replace (loc it - 0 + 1) with (loc it + 1) in E3 by lia. rewrite Ec in E3. rewrite E3. apply slot_visit_spec; [lia|done|lia|done|].
    rewrite <- E3, Hperm, Hn. unfold zlen. lia.
Qed.
End spec.

(** ** Sets and maps *)

Section hashed.
Context {A K : Type} `{!EqDecision K} (equal : A → A → option Z) (coding : A → option Z).
Context (ok : A → Prop) (key : A → K) (code : K → Z) `{!Hashing equal coding ok key code}.

Definition place_of (k : K) : Z := code k `mod` 1000.

Lemma place_range k : 0 ≤ place_of k < 1000.
Proof. apply Z.mod_pos_bound. lia. Qed.

Lemma key_hash_spec {B} (pl : B → Z) (t : buckets B) xs a : buckets_rep pl t xs → ok a → key_hash coding t a = Some (place_of (key a)).
Proof.
  intros Ht Ha. unfold key_hash. rewrite (hashing_coding a Ha). cbn [mbind option_bind].
  rewrite (br_size _ _ _ Ht), u32_small; [done|]. apply hashing_code.
Qed.

(** The first element with the key. *)
Definition with_key {B} (el : B → A) (k : K) (l : list B) : ptr B :=
  match list_find (λ x, key (el x) = k) l with Some (_, x) => Ptr x | None => NULL end.

Lemma find_item_spec {B} (el : B → A) a l :
  ok a → Forall (λ x, ok (el x)) l → find_item (λ x, equal (el x) a) l = Some (with_key el (key a) l).
Proof.
  intros Ha. unfold with_key. induction 1 as [|x l Hx Hl IH]; [done|]. cbn [find_item list_find].
  rewrite (hashing_equal (el x) a Hx Ha). cbn [mbind option_bind]. case_decide; [done|].
  rewrite (eq_refl : negb (0 =? 0) = false). rewrite IH. by destruct (list_find _ l) as [[]|].
Qed.

Lemma with_key_bucket {B} (el : B → A) k (xs : list B) :
  with_key el k (bucket_at (λ x, place_of (key (el x))) xs (place_of k)) = with_key el k xs.
Proof.
  unfold with_key, bucket_at. induction xs as [|x xs IH]; [done|]. rewrite filter_cons. cbn [list_find].
  destruct (decide (key (el x) = k)) as [E|Hne].
  - rewrite decide_True by (by rewrite E). cbn [list_find]. by rewrite decide_True.
  - case_decide; cbn [list_find]; [rewrite (decide_False (P := key (el x) = k)) by done|];
      destruct (list_find _ (filter _ xs)) as [[]|], (list_find _ xs) as [[]|]; simpl in *; congruence.
Qed.

Lemma with_key_Some {B} (el : B → A) k (xs : list B) x : with_key el k xs = Ptr x → x ∈ xs ∧ key (el x) = k.
Proof.
  unfold with_key. destruct (list_find _ xs) as [[i y]|] eqn:E; [|done]. intros [= <-].
  apply list_find_Some in E as (E & ? & _). split; [by eapply list_elem_of_lookup_2|done].
Qed.

Lemma with_key_None {B} (el : B → A) k (xs : list B) : with_key el k xs = NULL ↔ ∀ x, x ∈ xs → key (el x) ≠ k.
Proof.
  unfold with_key. destruct (list_find _ xs) as [[i y]|] eqn:E.
  - split; [done|]. intros H. apply list_find_Some in E as (E & ? & _). by destruct (H y (list_elem_of_lookup_2 _ _ _ E)).
  - split; [|done]. intros _ x Hx. apply list_find_None in E. rewrite List.Forall_forall in E. by apply E, list_elem_of_In.
Qed.

(** *** Sets *)

Abbreviation set_place := (λ x, place_of (key x)).

(** The set has the elements [xs], which came in this order. *)
Record set_rep (s : HashSet A) (xs : list A) : Prop := {
  sr_buckets : buckets_rep set_place s xs;
  sr_ok : Forall ok xs;
  sr_nodup : NoDup (key <$> xs)
}.

Lemma set_init_rep : set_rep buckets_init [].
Proof. split; [apply buckets_init_rep|done|apply NoDup_nil_2]. Qed.

Lemma set_bucket s xs a :
  set_rep s xs → ok a →
  key_hash coding s a = Some (place_of (key a)) ∧
  ∃ b, (data_array s)⟦place_of (key a)⟧ = Some b ∧
    match b with
    | NULL => bucket_at set_place xs (place_of (key a)) = []
    | Ptr l => bucket_at set_place xs (place_of (key a)) = l ∧ find_item (λ x, equal x a) l = Some (with_key id (key a) xs)
    end.
Proof.
  intros [Hb Hok Hnd] Ha. split; [by apply (key_hash_spec set_place s xs)|].
  pose proof (place_range (key a)) as Hp. rewrite (br_bucket _ _ _ Hb _ Hp). eexists. split; [done|].
  pose proof (with_key_bucket id (key a) xs) as Hw. cbn [id] in Hw.
  pose proof (find_item_spec id a (bucket_at set_place xs (place_of (key a))) Ha) as Hf.
  destruct (bucket_at set_place xs (place_of (key a))) as [|x l] eqn:E; [done|]. split; [done|].
  unfold id in *. rewrite Hf, Hw; [done|]. rewrite <- E. by apply bucket_at_Forall.
Qed.

Lemma set_get_spec s xs a : set_rep s xs → ok a → set_get equal coding s a = Some (with_key id (key a) xs).
Proof.
  intros Hs Ha. destruct (set_bucket s xs a Hs Ha) as (Hk & b & Hb & H). unfold set_get.
  rewrite Hk. cbn [mbind option_bind]. rewrite Hb. cbn [mbind option_bind]. destruct b as [|l]; [|by destruct H].
  rewrite <- with_key_bucket. cbn [id]. by rewrite H.
Qed.

Lemma set_contains_spec s xs a :
  set_rep s xs → ok a → set_contains equal coding s a = Some (bool_decide (key a ∈ key <$> xs)).
Proof.
  intros Hs Ha. unfold set_contains. destruct (br_num _ _ _ (sr_buckets _ _ Hs)) as [Hn _]. rewrite Hn.
  destruct (Z.eqb_spec (zlen xs) 0) as [E|E]; [by destruct xs|].
  rewrite (set_get_spec s xs a Hs Ha). cbn [mbind option_bind]. f_equal. destruct (with_key id (key a) xs) as [|x] eqn:Ew.
  - rewrite with_key_None in Ew. symmetry. apply bool_decide_eq_false. intros H.
    apply list_elem_of_fmap in H as (x & Hx & Hin). by apply (Ew x).
  - apply with_key_Some in Ew as [Hin Hx]. symmetry. apply bool_decide_eq_true. rewrite <- Hx. by apply list_elem_of_fmap_2.
Qed.

Lemma set_add_spec s xs a :
  set_rep s xs → ok a → zlen xs + 1 < 2 ^ 32 →
  ∃ s', set_add equal coding s a = Some s' ∧ set_rep s' (if decide (key a ∈ key <$> xs) then xs else xs ++ [a]).
Proof.
  intros Hs Ha Hlt. destruct (set_bucket s xs a Hs Ha) as (Hk & b & Hb & H). pose proof Hs as [Hbk Hok Hnd].
  unfold set_add. rewrite Hk. cbn [mbind option_bind]. rewrite Hb. cbn [mbind option_bind].
  assert (∀ l, bucket_at set_place xs (place_of (key a)) = l → key a ∉ key <$> xs →
    ∃ s', add_to s (place_of (key a)) l a = Some s' ∧ set_rep s' (xs ++ [a])) as Hadd.
  { intros l Hl Hni. destruct (add_to_spec set_place s xs (place_of (key a)) a l) as (s' & Hs' & Hr); [done|done|apply place_range|done..|].
    exists s'. split; [done|]. split; [done|apply Forall_app; by split; [|constructor]|].
    rewrite fmap_app. apply NoDup_app. split; [done|]. split; [|apply NoDup_singleton].
    intros k Hk1 Hk2. apply list_elem_of_singleton in Hk2 as ->. done. }
  assert ((∀ x, x ∈ xs → key x ≠ key a) → key a ∉ key <$> xs) as Hno.
  { intros Hx Hin. apply list_elem_of_fmap in Hin as (x & E & Hin). by apply (Hx x). }
  destruct b as [|l].
  - assert (key a ∉ key <$> xs) as Hni.
    { apply Hno. intros x Hin E. assert (x ∈ bucket_at set_place xs (place_of (key a))) as Hx; [|rewrite H in Hx; by apply elem_of_nil in Hx].
      apply list_elem_of_filter. by rewrite E. }
    rewrite decide_False by done. by apply Hadd.
  - destruct H as [Hl ->]. cbn [mbind option_bind]. destruct (with_key id (key a) xs) as [|x] eqn:Ew.
    + rewrite with_key_None in Ew. pose proof (Hno Ew). rewrite decide_False by done. by apply Hadd.
    + apply with_key_Some in Ew as [Hin E]. rewrite decide_True; [by exists s|]. rewrite <- E. by apply list_elem_of_fmap_2.
Qed.

Lemma set_items_spec s xs : set_rep s xs → ∃ ys, set_items s = Some ys ∧ ys ≡ₚ xs.
Proof.
  intros [Hb _ _]. eexists. split; [by apply buckets_items_spec|]. apply all_buckets_perm, Hb.
Qed.

(** *** Maps *)

Section map.
Context {V : Type}.
Implicit Types (m : MileHashMap A V) (es : list (A * V)).

Abbreviation map_place := (λ e : A * V, place_of (key e.1)).

(** The map has the entries [es]; their keys came in this order. *)
Record map_rep m es : Prop := {
  mr_buckets : buckets_rep map_place m es;
  mr_ok : Forall (λ e, ok e.1) es;
  mr_nodup : NoDup ((λ e, key e.1) <$> es)
}.

Definition value_at (k : K) es : ptr V := match with_key fst k es with NULL => NULL | Ptr e => Ptr e.2 end.

Definition with_value (a : A) (v : V) es : list (A * V) :=
  if decide (key a ∈ (λ e, key e.1) <$> es) then (λ e, if decide (key e.1 = key a) then (e.1, v) else e) <$> es
  else es ++ [(a, v)].

Lemma map_init_rep : map_rep buckets_init [].
Proof. split; [apply buckets_init_rep|done|apply NoDup_nil_2]. Qed.

Lemma map_get_spec m es a : map_rep m es → ok a → map_get equal coding m a = Some (value_at (key a) es).
Proof.
  intros [Hb Hok Hnd] Ha. unfold map_get. rewrite (key_hash_spec map_place m es a Hb Ha). cbn [mbind option_bind].
  rewrite (br_bucket _ _ _ Hb _ (place_range (key a))). cbn [mbind option_bind]. unfold value_at. rewrite <- with_key_bucket.
  pose proof (find_item_spec fst a (bucket_at map_place es (place_of (key a))) Ha ltac:(by apply bucket_at_Forall)) as Hf.
  destruct (bucket_at map_place es (place_of (key a))) as [|e l]; [done|]. rewrite Hf. cbn [mbind option_bind].
  by destruct (with_key fst (key a) (e :: l)).
Qed.

Lemma replace_value_spec a v (l : list (A * V)) :
  ok a → Forall (λ e, ok e.1) l → NoDup ((λ e, key e.1) <$> l) →
  replace_value equal a v l = Some (if decide (key a ∈ (λ e, key e.1) <$> l)
    then Some ((λ e, if decide (key e.1 = key a) then (e.1, v) else e) <$> l) else None).
Proof.
  intros Ha. induction 1 as [|[k w] l Hk Hl IH]; intros Hnd; [done|]. cbn [replace_value fmap list_fmap fst snd] in *.
  apply NoDup_cons in Hnd as [Hni Hnd]. rewrite (hashing_equal k a Hk Ha). cbn [mbind option_bind].
  destruct (decide (key k = key a)) as [E|Hne].
  - rewrite (eq_refl : negb (1 =? 0) = true). rewrite (decide_True (P := key a ∈ key k :: _)) by (rewrite E; left). do 3 f_equal.
    transitivity (id <$> l); [by rewrite list_fmap_id|]. apply list_fmap_ext. intros i e He. rewrite decide_False; [done|].
    rewrite <- E. intros E'. apply Hni. apply list_elem_of_fmap. exists e. split; [done|]. by eapply list_elem_of_lookup_2.
  - rewrite (eq_refl : negb (0 =? 0) = false). rewrite (IH Hnd). cbn [mbind option_bind]. f_equal.
    destruct (decide (key a ∈ (λ e, key e.1) <$> l)) as [Hin|Hni'].
    + by rewrite (decide_True (P := key a ∈ key k :: _)) by (by right).
    + rewrite (decide_False (P := key a ∈ key k :: _)); [done|]. intros H. apply elem_of_cons in H as [?|?]; [congruence|done].
Qed.

Lemma hash_put_spec m es a v :
  map_rep m es → ok a → zlen es + 1 < 2 ^ 32 →
  ∃ m', map_put equal coding m a v = Some m' ∧ map_rep m' (with_value a v es).
Proof.
  intros [Hb Hok Hnd] Ha Hlt. unfold map_put. rewrite (key_hash_spec map_place m es a Hb Ha). cbn [mbind option_bind].
  set (i := place_of (key a)). assert (0 ≤ i < 1000) as Hi by apply place_range.
  rewrite (br_bucket _ _ _ Hb _ Hi). cbn [mbind option_bind].
  assert (key a ∉ (λ e, key e.1) <$> es → ∃ m', add_to m i (bucket_at map_place es i) (a, v) = Some m' ∧ map_rep m' (with_value a v es)) as Hadd.
  { intros Hni. destruct (add_to_spec map_place m es i (a, v) (bucket_at map_place es i)) as (m' & Hm' & Hr); [done..|].
    exists m'. split; [done|]. unfold with_value. rewrite decide_False by done. split; [done|apply Forall_app; by split; [|constructor]|].
    rewrite fmap_app. apply NoDup_app. split; [done|]. split; [|apply NoDup_singleton].
    intros k Hk1 Hk2. apply list_elem_of_singleton in Hk2 as ->. done. }
  assert (key a ∈ (λ e, key e.1) <$> es ↔ key a ∈ (λ e, key e.1) <$> bucket_at map_place es i) as Hiff.
  { rewrite !list_elem_of_fmap. split; intros (e & E & He); exists e; (split; [done|]).
    - apply list_elem_of_filter. split; [|done]. subst i. by rewrite E.
    - by apply list_elem_of_filter in He as [_ He]. }
  assert (NoDup ((λ e, key e.1) <$> bucket_at map_place es i)) as Hndb by (by apply bucket_at_NoDup).
  pose proof (replace_value_spec a v (bucket_at map_place es i) Ha ltac:(by apply bucket_at_Forall) Hndb) as Hrep.
  destruct (bucket_at map_place es i) as [|e l] eqn:El.
  { apply Hadd. rewrite Hiff. by intros H%elem_of_nil. }
  rewrite Hrep. cbn [mbind option_bind]. destruct (decide (key a ∈ (λ e, key e.1) <$> e :: l)) as [Hin|Hni].
  2: { apply Hadd. by rewrite Hiff. }
  rewrite zset_in by (rewrite (br_len _ _ _ Hb); lia). cbn [mbind option_bind]. eexists. split; [done|].
  unfold with_value. rewrite decide_True by (by apply Hiff). set (f := λ e : A * V, if decide (key e.1 = key a) then (e.1, v) else e) in *.
  assert (∀ e, (f e).1 = e.1) as Hf by (intros e'; unfold f; by case_decide).
  assert (∀ j, bucket_at map_place (f <$> es) j = f <$> bucket_at map_place es j) as Hfb.
  { intros j. unfold bucket_at. clear -Hf. induction es as [|e' es IH]; [done|]. cbn [fmap list_fmap]. rewrite !filter_cons, Hf.
    case_decide; [cbn [fmap list_fmap]; f_equal|]; apply IH. }
  destruct (br_num _ _ _ Hb) as [Hn Hn32]. split.
  - split; cbn [bucket_size data_array num]; [apply Hb|rewrite zlen_insert; apply Hb|by rewrite zlen_fmap|..].
    + apply Forall_fmap. eapply Forall_impl; [apply Hb|]. intros e'. simpl. by rewrite Hf.
    + intros j Hj. rewrite Hfb. destruct (decide (i = j)) as [<-|Hne].
      * rewrite zget_insert_eq by (rewrite (br_len _ _ _ Hb); lia). by rewrite El.
      * rewrite zget_insert_ne by lia. rewrite (br_bucket _ _ _ Hb _ Hj).
        rewrite (list_fmap_ext f id (bucket_at map_place es j)); [by rewrite list_fmap_id|].
        intros n e' He. unfold f. rewrite decide_False; [done|]. intros E. apply list_elem_of_lookup_2, list_elem_of_filter in He as [He _].
        rewrite E in He. done.
  - apply Forall_fmap. eapply Forall_impl; [exact Hok|]. intros e'. simpl. by rewrite Hf.
  - rewrite <- list_fmap_compose. rewrite (list_fmap_ext _ (λ e, key e.1) es); [exact Hnd|]. intros j e' _. simpl. by rewrite Hf.
Qed.

Lemma map_values_spec m es : map_rep m es → ∃ es', map_values m = Some es'.*2 ∧ es' ≡ₚ es.
Proof.
  intros [Hb _ _]. unfold map_values. rewrite (buckets_items_spec _ _ _ Hb). cbn [mbind option_bind].
  eexists. split; [done|]. apply all_buckets_perm, Hb.
Qed.
End map.
End hashed.
