(* ===== verification/Bitmark.v ===== *)
(** * Bit marks ([src/storage/docdb/bitmark.c])

    One bit per document id in a memory-mapped byte array, most significant
    bit first; a set bit means the document (or its value) is present. *)

From Stdlib Require Import ZArith Lia.
From stdpp Require Import base option list numbers.
From S2P Require Import Prelude FileOp.

Definition ERROR_EXCEED_LIMIT : Z := -3899.
Definition BYTE_SIZE : Z := 8.

Definition BITMAPMASK : list Z := [0x80; 0x40; 0x20; 0x10; 0x08; 0x04; 0x02; 0x01].

Record bitmark_manager := Bitmark {
  mem_mmaped : list Z;   (* the mapped bytes, as unsigned values *)
  row_limit : Z
}.

Definition set_mem (bitmark : bitmark_manager) (m : list Z) : bitmark_manager :=
  Bitmark m (row_limit bitmark).

Definition BITMARK_MMAP_SIZE (bitmark : bitmark_manager) : Z :=
  row_limit bitmark / BYTE_SIZE + 1.

(** [file] is the content of the [.bit] file before the call. *)
Definition bitmark_init (limit : Z) (file : list Z) : option bitmark_manager :=
  let bitmark := Bitmark [] limit in
  m ← fst (get_mmap_memory 0 1 true file (BITMARK_MMAP_SIZE bitmark));
  Some (set_mem bitmark m).

Definition bitmark_set (bitmark : bitmark_manager) (docid : Z) : option (Z * bitmark_manager) :=
  if docid >=? row_limit bitmark then Some (ERROR_EXCEED_LIMIT, bitmark)
  else
    let quot := docid / BYTE_SIZE in
    let rem := docid `mod` BYTE_SIZE in
    b ← (mem_mmaped bitmark)⟦quot⟧;
    mask ← BITMAPMASK⟦rem⟧;
    if Z.land b mask =? 0 then
      m ← (mem_mmaped bitmark)⟦quot := Z.lor b mask⟧;
      Some (0, set_mem bitmark m)
    else Some (0, bitmark).

Definition bitmark_clear (bitmark : bitmark_manager) (docid : Z) : option (Z * bitmark_manager) :=
  if docid >=? row_limit bitmark then Some (ERROR_EXCEED_LIMIT, bitmark)
  else
    let quot := docid / BYTE_SIZE in
    let rem := docid `mod` BYTE_SIZE in
    b ← (mem_mmaped bitmark)⟦quot⟧;
    mask ← BITMAPMASK⟦rem⟧;
    if negb (Z.land b mask =? 0) then
      m ← (mem_mmaped bitmark)⟦quot := Z.land b (Z.lnot mask)⟧;
      Some (1, set_mem bitmark m)
    else Some (0, bitmark).

Definition bitmark_query (bitmark : bitmark_manager) (docid : Z) : option Z :=
  if docid >=? row_limit bitmark then Some ERROR_EXCEED_LIMIT
  else
    let quot := docid / BYTE_SIZE in
    let rem := docid `mod` BYTE_SIZE in
    b ← (mem_mmaped bitmark)⟦quot⟧;
    mask ← BITMAPMASK⟦rem⟧;
    if negb (Z.land b mask =? 0) then Some 0 else Some 1.

Definition bitmark_reset (bitmark : bitmark_manager) : option (Z * bitmark_manager) :=
  m ← zfill (mem_mmaped bitmark) 0 (BITMARK_MMAP_SIZE bitmark) 0;
  Some (0, set_mem bitmark m).

(** [for (; rem > 0 && rem < BYTE_SIZE; ++rem) mem[quot] &= ~BITMAPMASK[rem];]
    returns the memory and the final value of [rem]; [BYTE_SIZE] iterations
    are enough. *)
Fixpoint recover_byte (fuel : nat) (m : list Z) (quot rem : Z) : option (list Z * Z) :=
  match fuel with
  | O => Some (m, rem)
  | S fuel =>
      if (rem >? 0) && (rem <? BYTE_SIZE) then
        b ← m⟦quot⟧;
        mask ← BITMAPMASK⟦rem⟧;
        m' ← m⟦quot := Z.land b (Z.lnot mask)⟧;
        recover_byte fuel m' quot (rem + 1)
      else Some (m, rem)
  end.

Definition bitmark_recover (bitmark : bitmark_manager) (docid : Z) : option (Z * bitmark_manager) :=
  if docid >=? row_limit bitmark then Some (ERROR_EXCEED_LIMIT, bitmark)
  else
    let quot := docid / BYTE_SIZE in
    let rem := docid `mod` BYTE_SIZE in
    '(m, rem) ← recover_byte 8 (mem_mmaped bitmark) quot rem;
    let quot := if rem >? 0 then quot + 1 else quot in
    m ← (if quot <? BITMARK_MMAP_SIZE bitmark
         then zfill m quot (BITMARK_MMAP_SIZE bitmark - quot) 0 else Some m);
    Some (0, set_mem bitmark m).

Definition count_map : list Z := [0; 1; 1; 2; 1; 2; 2; 3; 1; 2; 2; 3; 2; 3; 3; 4].

Fixpoint count_bytes (fuel : nat) (m : list Z) (i count : Z) : option Z :=
  match fuel with
  | O => Some count
  | S fuel =>
      c ← m⟦i⟧;
      lo ← count_map⟦Z.land c 0x0f⟧;
      hi ← count_map⟦Z.land (Z.shiftr c 4) 0x0f⟧;
      count_bytes fuel m (i + 1) (s32 (s32 (count + lo) + hi))
  end.

Definition bitmark_count (bitmark : bitmark_manager) : option Z :=
  count_bytes (Z.to_nat (BITMARK_MMAP_SIZE bitmark)) (mem_mmaped bitmark) 0 0.

(** ** Abstraction: the set of marked document ids *)

(** Bit [d] of the map (false outside the mapped bytes). *)
Definition bit (bitmark : bitmark_manager) (d : Z) : bool :=
  match (mem_mmaped bitmark)⟦d / 8⟧ with
  | Some b => Z.testbit b (7 - d `mod` 8)
  | None => false
  end.

(** The map has its size, holds bytes, and marks no id past the limit. *)
Record bitmark_wf (bitmark : bitmark_manager) : Prop := {
  wf_limit : 0 ≤ row_limit bitmark < 2 ^ 32;
  wf_size : zlen (mem_mmaped bitmark) = BITMARK_MMAP_SIZE bitmark;
  wf_byte : ∀ i b, (mem_mmaped bitmark)⟦i⟧ = Some b → 0 ≤ b < 256;
  wf_high : ∀ d, row_limit bitmark ≤ d → bit bitmark d = false
}.

Lemma BITMAPMASK_pow r : 0 ≤ r < 8 → BITMAPMASK⟦r⟧ = Some (2 ^ (7 - r)).
Proof.
  intros Hr.
  assert (r = 0 ∨ r = 1 ∨ r = 2 ∨ r = 3 ∨ r = 4 ∨ r = 5 ∨ r = 6 ∨ r = 7) as H by lia.
  by destruct_or! H; subst.
Qed.

Lemma land_pow2_eqb b k : 0 ≤ k → (Z.land b (2 ^ k) =? 0) = negb (Z.testbit b k).
Proof.
  intros Hk. destruct (Z.testbit b k) eqn:E; simpl.
  - apply Z.eqb_neq. intros H. assert (Z.testbit (Z.land b (2 ^ k)) k = false) as Hf.
    { rewrite H. apply Z.bits_0. }
    rewrite Z.land_spec, E, Z.pow2_bits_true in Hf by done. done.
  - apply Z.eqb_eq, Z.bits_inj'. intros n Hn.
    rewrite Z.land_spec, Z.pow2_bits_eqb, Z.bits_0 by done.
    destruct (Z.eqb_spec k n); [subst; by rewrite E|by rewrite andb_false_r].
Qed.

Lemma testbit_lor_pow2 b k n :
  0 ≤ k → 0 ≤ n → Z.testbit (Z.lor b (2 ^ k)) n = (Z.testbit b n || (k =? n))%bool.
Proof. intros. by rewrite Z.lor_spec, Z.pow2_bits_eqb. Qed.

Lemma testbit_clear_pow2 b k n :
  0 ≤ k → 0 ≤ n →
  Z.testbit (Z.land b (Z.lnot (2 ^ k))) n = (Z.testbit b n && negb (k =? n))%bool.
Proof. intros. by rewrite Z.land_spec, Z.lnot_spec, Z.pow2_bits_eqb. Qed.

Lemma byte_lt_iff b : 0 ≤ b → (b < 256 ↔ ∀ n, 8 ≤ n → Z.testbit b n = false).
Proof.
  intros Hb. split.
  - intros Hlt n Hn. destruct (decide (b = 0)) as [->|]; [apply Z.bits_0|].
    apply Z.bits_above_log2; [done|].
    assert (Z.log2 b < 8) by (apply Z.log2_lt_pow2; lia). lia.
  - intros H. destruct (decide (b = 0)) as [->|]; [lia|].
    destruct (decide (b < 256)) as [|Hge]; [done|exfalso].
    assert (8 ≤ Z.log2 b) by (apply Z.log2_le_pow2; lia).
    assert (Z.testbit b (Z.log2 b) = true) as Ht by (apply Z.bit_log2; lia).
    rewrite H in Ht by done. done.
Qed.

Lemma lor_pow2_byte b k : 0 ≤ b < 256 → 0 ≤ k < 8 → 0 ≤ Z.lor b (2 ^ k) < 256.
Proof.
  intros Hb Hk. assert (0 ≤ Z.lor b (2 ^ k)).
  { apply Z.lor_nonneg. split; [lia|]. apply Z.pow_nonneg. lia. }
  split; [done|]. apply byte_lt_iff; [done|]. intros n Hn.
  rewrite testbit_lor_pow2 by lia.
  rewrite (proj1 (byte_lt_iff b ltac:(lia))) by lia. simpl. apply Z.eqb_neq. lia.
Qed.

Lemma clear_pow2_byte b k : 0 ≤ b < 256 → 0 ≤ k → 0 ≤ Z.land b (Z.lnot (2 ^ k)) < 256.
Proof.
  intros Hb Hk. assert (0 ≤ Z.land b (Z.lnot (2 ^ k))) by (apply Z.land_nonneg; lia).
  split; [done|]. apply byte_lt_iff; [done|]. intros n Hn.
  rewrite testbit_clear_pow2 by lia. by rewrite (proj1 (byte_lt_iff b ltac:(lia))) by lia.
Qed.

(** Replacing byte [q] of a well-formed map changes the bits of that byte only. *)
Lemma bit_set_mem bm q b d :
  0 ≤ q < zlen (mem_mmaped bm) →
  bit (set_mem bm (<[Z.to_nat q := b]> (mem_mmaped bm))) d =
    if decide (d / 8 = q) then Z.testbit b (7 - d `mod` 8) else bit bm d.
Proof.
  intros Hq. unfold bit, set_mem; simpl. case_decide as Hd.
  - rewrite Hd, zget_insert_eq by done. done.
  - rewrite zget_insert_ne by lia. done.
Qed.

Lemma wf_quot bm d :
  bitmark_wf bm → 0 ≤ d < row_limit bm → 0 ≤ d / 8 < zlen (mem_mmaped bm).
Proof.
  intros Hwf Hd. rewrite (wf_size _ Hwf). unfold BITMARK_MMAP_SIZE, BYTE_SIZE. zdiv.
Qed.

Lemma wf_set_mem bm q b :
  bitmark_wf bm → 0 ≤ q < zlen (mem_mmaped bm) → 0 ≤ b < 256 →
  (∀ d, row_limit bm ≤ d → d / 8 = q → Z.testbit b (7 - d `mod` 8) = false) →
  bitmark_wf (set_mem bm (<[Z.to_nat q := b]> (mem_mmaped bm))).
Proof.
  intros Hwf Hq Hb Hhigh. destruct Hwf as [Hl Hs Hby Hh].
  split; simpl.
  - done.
  - rewrite zlen_insert. apply Hs.
  - intros i c. destruct (decide (q = i)) as [<-|].
    + rewrite zget_insert_eq by done. by intros [= <-].
    + rewrite zget_insert_ne by lia. apply Hby.
  - intros d Hd. rewrite bit_set_mem by done. case_decide; auto.
Qed.

Ltac bit_access Hwf Hd :=
  let b := fresh "b" in let Hb := fresh "Hb" in
  destruct (zget_lt _ _ (wf_quot _ _ Hwf Hd)) as [b Hb];
  unfold BYTE_SIZE; rewrite Hb; simpl;
  rewrite BITMAPMASK_pow by (apply Z.mod_pos_bound; lia); simpl;
  rewrite land_pow2_eqb by zdiv.

Lemma bitmark_set_exceed bm d :
  row_limit bm ≤ d → bitmark_set bm d = Some (ERROR_EXCEED_LIMIT, bm).
Proof. intros. unfold bitmark_set. rewrite (proj2 (Z.geb_le _ _)); done. Qed.

Lemma bitmark_clear_exceed bm d :
  row_limit bm ≤ d → bitmark_clear bm d = Some (ERROR_EXCEED_LIMIT, bm).
Proof. intros. unfold bitmark_clear. rewrite (proj2 (Z.geb_le _ _)); done. Qed.

Lemma geb_false a b : b < a → (b >=? a) = false.
Proof. intros. rewrite Z.geb_leb. by apply Z.leb_gt. Qed.

Lemma same_bit_iff d e : d `mod` 8 = e `mod` 8 → d / 8 = e / 8 → d = e.
Proof. intros. zdiv. Qed.

Lemma bitmark_set_spec bm d :
  bitmark_wf bm → 0 ≤ d < row_limit bm →
  ∃ bm', bitmark_set bm d = Some (0, bm') ∧ bitmark_wf bm' ∧
    row_limit bm' = row_limit bm ∧
    ∀ e, bit bm' e = (bit bm e || (e =? d))%bool.
Proof.
  intros Hwf Hd. unfold bitmark_set. rewrite geb_false by lia. bit_access Hwf Hd.
  pose proof (wf_byte _ Hwf _ _ Hb) as Hbyte.
  pose proof (Z.mod_pos_bound d 8 eq_refl) as Hm.
  destruct (Z.testbit b (7 - d `mod` 8)) eqn:E; simpl.
  - exists bm. split_and!; try done. intros e.
    destruct (Z.eqb_spec e d) as [->|]; [|by rewrite orb_false_r].
    unfold bit. by rewrite Hb, E.
  - rewrite zset_in by (by apply wf_quot). simpl. eexists. split; [done|].
    split; [|split; [done|]].
    + apply wf_set_mem; [done|by apply wf_quot|apply lor_pow2_byte; lia|].
      intros e He Hq. pose proof (Z.mod_pos_bound e 8 eq_refl).
      rewrite testbit_lor_pow2 by lia.
      pose proof (wf_high _ Hwf e He) as Hf. unfold bit in Hf. rewrite Hq, Hb in Hf.
      rewrite Hf. simpl. apply Z.eqb_neq. intros ?. assert (e = d); [|lia].
      apply same_bit_iff; lia.
    + intros e. rewrite bit_set_mem by (by apply wf_quot). case_decide as Hq.
      * pose proof (Z.mod_pos_bound e 8 eq_refl). rewrite testbit_lor_pow2 by lia.
        unfold bit. rewrite Hq, Hb. f_equal.
        destruct (Z.eqb_spec e d) as [->|]; [by rewrite Z.eqb_refl|].
        apply Z.eqb_neq. intros ?. assert (e = d) by (apply same_bit_iff; lia). done.
      * destruct (Z.eqb_spec e d) as [->|]; [done|by rewrite orb_false_r].
Qed.

Lemma bitmark_clear_spec bm d :
  bitmark_wf bm → 0 ≤ d < row_limit bm →
  ∃ bm', bitmark_clear bm d = Some (if bit bm d then 1 else 0, bm') ∧
    bitmark_wf bm' ∧ row_limit bm' = row_limit bm ∧
    ∀ e, bit bm' e = (bit bm e && negb (e =? d))%bool.
Proof.
  intros Hwf Hd. unfold bitmark_clear. rewrite geb_false by lia. bit_access Hwf Hd.
  pose proof (wf_byte _ Hwf _ _ Hb) as Hbyte.
  pose proof (Z.mod_pos_bound d 8 eq_refl) as Hm.
  assert (bit bm d = Z.testbit b (7 - d `mod` 8)) as Hbit by (unfold bit; by rewrite Hb).
  rewrite Hbit. destruct (Z.testbit b (7 - d `mod` 8)) eqn:E; simpl.
  - rewrite zset_in by (by apply wf_quot). simpl. eexists. split; [done|].
    split; [|split; [done|]].
    + apply wf_set_mem; [done|by apply wf_quot|apply clear_pow2_byte; lia|].
      intros e He Hq. pose proof (Z.mod_pos_bound e 8 eq_refl).
      rewrite testbit_clear_pow2 by lia.
      pose proof (wf_high _ Hwf e He) as Hf. unfold bit in Hf. rewrite Hq, Hb in Hf.
      by rewrite Hf.
    + intros e. rewrite bit_set_mem by (by apply wf_quot). case_decide as Hq.
      * pose proof (Z.mod_pos_bound e 8 eq_refl). rewrite testbit_clear_pow2 by lia.
        unfold bit. rewrite Hq, Hb. do 2 f_equal.
        destruct (Z.eqb_spec e d) as [->|]; [by rewrite Z.eqb_refl|].
        apply Z.eqb_neq. intros ?. assert (e = d) by (apply same_bit_iff; lia). done.
      * destruct (Z.eqb_spec e d) as [->|]; [done|by rewrite andb_true_r].
  - exists bm. split_and!; try done. intros e.
    destruct (Z.eqb_spec e d) as [->|]; [by rewrite Hbit|by rewrite andb_true_r].
Qed.

Lemma bitmark_query_spec bm d :
  bitmark_wf bm → 0 ≤ d →
  bitmark_query bm d =
    Some (if decide (row_limit bm ≤ d) then ERROR_EXCEED_LIMIT
          else if bit bm d then 0 else 1).
Proof.
  intros Hwf Hd. unfold bitmark_query. case_decide.
  - by rewrite (proj2 (Z.geb_le _ _)).
  - rewrite geb_false by lia. assert (0 ≤ d < row_limit bm) as Hd' by lia.
    bit_access Hwf Hd'. unfold bit. rewrite Hb. by destruct (Z.testbit _ _).
Qed.

Lemma bitmark_reset_spec bm :
  bitmark_wf bm →
  ∃ bm', bitmark_reset bm = Some (0, bm') ∧ bitmark_wf bm' ∧
    row_limit bm' = row_limit bm ∧ ∀ e, bit bm' e = false.
Proof.
  intros Hwf. destruct Hwf as [Hl Hs Hby Hh]. unfold bitmark_reset.
  assert (0 ≤ BITMARK_MMAP_SIZE bm) by (unfold BITMARK_MMAP_SIZE, BYTE_SIZE; zdiv).
  destruct (zfill_spec (mem_mmaped bm) 0 (BITMARK_MMAP_SIZE bm) 0)
    as (m & Hm & Hlen & Hget); [lia|done|lia|].
  rewrite Hm; simpl. eexists. split; [done|].
  assert (∀ e, bit (set_mem bm m) e = false) as Hbits.
  { intros e. unfold bit; simpl. rewrite Hget. case_decide; [apply Z.testbit_0_l|].
    destruct ((mem_mmaped bm)⟦e / 8⟧) eqn:E; [|done].
    apply zget_Some_range in E. lia. }
  split_and!; try done. split; simpl; try done.
  - unfold zlen in *. by rewrite Hlen.
  - intros i b. rewrite Hget. case_decide; [intros [= <-]; lia|apply Hby].
Qed.

(** The byte loop clears bits [rem .. 7] of byte [quot] when [rem > 0]. *)
Lemma recover_byte_spec fuel m q r b :
  8 - r ≤ Z.of_nat fuel → 0 < r ≤ 8 → m⟦q⟧ = Some b → 0 ≤ b < 256 →
  ∃ b', recover_byte fuel m q r = Some (<[Z.to_nat q := b']> m, 8) ∧ 0 ≤ b' < 256 ∧
    ∀ n, 0 ≤ n < 8 → Z.testbit b' (7 - n) = (Z.testbit b (7 - n) && (n <? r))%bool.
Proof.
  revert m r b. induction fuel as [|fuel IH]; intros m r b Hf Hr Hm Hb.
  - assert (r = 8) by lia. subst r. exists b. simpl.
    rewrite zget_insert_id by done.
    split_and!; try lia; [done|]. intros n Hn.
    rewrite (proj2 (Z.ltb_lt n 8)) by lia. by rewrite andb_true_r.
  - simpl. unfold BYTE_SIZE. destruct (decide (r = 8)) as [->|Hne].
    + exists b. simpl.
      rewrite zget_insert_id by done.
      split_and!; try lia; [done|]. intros n Hn.
      rewrite (proj2 (Z.ltb_lt n 8)) by lia. by rewrite andb_true_r.
    + rewrite (proj2 (Z.ltb_lt r 8)), (proj2 (Z.gtb_lt r 0)) by lia. simpl.
      rewrite Hm; simpl. rewrite BITMAPMASK_pow by lia. simpl.
      pose proof (zget_Some_range _ _ _ Hm) as Hq.
      rewrite zset_in by done. simpl.
      edestruct (IH (<[Z.to_nat q := Z.land b (Z.lnot (2 ^ (7 - r)))]> m) (r + 1))
        as (b' & Hrec & Hb' & Hbits);
        [lia|lia|by apply zget_insert_eq|apply clear_pow2_byte; lia|].
      exists b'. rewrite Hrec, list_insert_insert_eq. split_and!; try lia; [done|].
      intros n Hn. rewrite Hbits, testbit_clear_pow2 by lia.
      destruct (Z.testbit b (7 - n)); simpl; [|done].
      destruct (Z.eqb_spec (7 - r) (7 - n)), (Z.ltb_spec n (r + 1)), (Z.ltb_spec n r);
        simpl; lia.
Qed.

Lemma bitmark_recover_exceed bm d :
  row_limit bm ≤ d → bitmark_recover bm d = Some (ERROR_EXCEED_LIMIT, bm).
Proof. intros. unfold bitmark_recover. rewrite (proj2 (Z.geb_le _ _)); done. Qed.

Lemma wf_of_bits bm m :
  bitmark_wf bm → zlen m = zlen (mem_mmaped bm) →
  (∀ i b, m⟦i⟧ = Some b → 0 ≤ b < 256) →
  (∀ e, bit (set_mem bm m) e = true → bit bm e = true) →
  bitmark_wf (set_mem bm m).
Proof.
  intros [Hl Hs Hby Hh] Hlen Hb Hsub. split; simpl; try done.
  - by rewrite Hlen, Hs.
  - intros d Hd. specialize (Hsub d). destruct (bit (set_mem bm m) d) eqn:E; [|done].
    by rewrite Hh in Hsub by done; discriminate Hsub.
Qed.

(** The trailing [memset] of [bitmark_recover]. *)
Lemma fill_tail_spec (m : list Z) q n :
  0 ≤ q → n = zlen m →
  ∃ m', (if q <? n then zfill m q (n - q) 0 else Some m) = Some m' ∧ zlen m' = zlen m ∧
    ∀ i, m'⟦i⟧ = if decide (q ≤ i < zlen m) then Some 0 else m⟦i⟧.
Proof.
  intros Hq ->. destruct (Z.ltb_spec q (zlen m)).
  - destruct (zfill_spec m q (zlen m - q) 0) as (m' & Hfill & Hlen & Hget); [lia..|].
    exists m'. split_and!; try done. intros i. rewrite Hget.
    by replace (q + (zlen m - q)) with (zlen m) by lia.
  - exists m. split_and!; try done. intros i. by rewrite decide_False by lia.
Qed.

(** Clearing bits [r..7] of byte [d/8] and all later bytes clears the ids from
    [d = 8 * (d/8) + r] on. *)
Lemma bit_truncate bm m b b' d :
  0 ≤ d → (mem_mmaped bm)⟦d / 8⟧ = Some b → m⟦d / 8⟧ = Some b' →
  (∀ n, 0 ≤ n < 8 → Z.testbit b' (7 - n) = (Z.testbit b (7 - n) && (n <? d `mod` 8))%bool) →
  (∀ i, i ≠ d / 8 → m⟦i⟧ =
     if decide (d / 8 < i < zlen (mem_mmaped bm)) then Some 0 else (mem_mmaped bm)⟦i⟧) →
  ∀ e, bit (set_mem bm m) e = (bit bm e && (e <? d))%bool.
Proof.
  intros Hd Hb Hb' Hbits Hrest e. unfold bit; simpl.
  pose proof (Z.mod_pos_bound e 8 eq_refl).
  destruct (decide (e / 8 = d / 8)) as [Heq|Hne].
  - rewrite Heq, Hb, Hb', Hbits by done. f_equal.
    destruct (Z.ltb_spec (e `mod` 8) (d `mod` 8)), (Z.ltb_spec e d); zdiv.
  - rewrite Hrest by done. case_decide.
    + rewrite Z.testbit_0_l, (proj2 (Z.ltb_ge e d)) by zdiv. by rewrite andb_false_r.
    + destruct (Z.ltb_spec e d); [by rewrite andb_true_r|].
      destruct ((mem_mmaped bm)⟦e / 8⟧) eqn:E; [|done].
      apply zget_Some_range in E. zdiv.
Qed.

Lemma bitmark_recover_spec bm d :
  bitmark_wf bm → 0 ≤ d < row_limit bm →
  ∃ bm', bitmark_recover bm d = Some (0, bm') ∧ bitmark_wf bm' ∧
    row_limit bm' = row_limit bm ∧
    ∀ e, bit bm' e = (bit bm e && (e <? d))%bool.
Proof.
  intros Hwf Hd. unfold bitmark_recover. rewrite geb_false by lia.
  pose proof (wf_quot _ _ Hwf Hd) as Hq. unfold BYTE_SIZE.
  destruct (zget_lt _ _ Hq) as [b Hb].
  pose proof (wf_byte _ Hwf _ _ Hb) as Hbyte.
  pose proof (Z.mod_pos_bound d 8 eq_refl) as Hm.
  pose proof (wf_size _ Hwf) as Hsize.
  assert (∃ b' m1 rem q, recover_byte 8 (mem_mmaped bm) (d / 8) (d `mod` 8) = Some (m1, rem)
    ∧ (if rem >? 0 then d / 8 + 1 else d / 8) = q ∧ d / 8 ≤ q ≤ d / 8 + 1
    ∧ m1 = <[Z.to_nat (d / 8) := b']> (mem_mmaped bm)
    ∧ 0 ≤ b' < 256 ∧ ∀ n, 0 ≤ n < 8 →
      Z.testbit (if decide (q = d / 8) then 0 else b') (7 - n)
      = (Z.testbit b (7 - n) && (n <? d `mod` 8))%bool)
    as (b' & m1 & rem & q & -> & Hrem & Hqr & -> & Hb' & Hbits).
  { destruct (decide (d `mod` 8 = 0)) as [H0|Hne].
    - exists b, (mem_mmaped bm), 0, (d / 8). rewrite H0. split_and!; try done; try lia.
      + by rewrite zget_insert_id.
      + intros n Hn. rewrite decide_True by done. rewrite Z.testbit_0_l.
        rewrite (proj2 (Z.ltb_ge n 0)) by lia. by rewrite andb_false_r.
    - destruct (recover_byte_spec 8 (mem_mmaped bm) (d / 8) (d `mod` 8) b)
        as (b' & Hrec & ? & Hbits); [lia|lia|done|done|].
      eexists b', _, 8, (d / 8 + 1). split_and!; try done; try lia.
      intros n Hn. rewrite decide_False by lia. by apply Hbits. }
  cbn [mbind option_bind]. rewrite Hrem.
  destruct (fill_tail_spec (<[Z.to_nat (d / 8):=b']> (mem_mmaped bm)) q (BITMARK_MMAP_SIZE bm))
    as (m & -> & Hlen & Hget); [lia|by rewrite zlen_insert|].
  rewrite zlen_insert in Hlen, Hget. simpl. eexists. split; [done|].
  assert (∀ e, bit (set_mem bm m) e = (bit bm e && (e <? d))%bool) as Hfin.
  { apply (bit_truncate bm m b (if decide (q = d / 8) then 0 else b')); [lia|done| |exact Hbits|].
    - rewrite Hget. destruct (decide (q = d / 8)).
      + by rewrite decide_True by lia.
      + rewrite decide_False by lia. by rewrite zget_insert_eq.
    - intros i Hi. rewrite Hget. destruct (decide (d / 8 < i < zlen (mem_mmaped bm))).
      + by rewrite decide_True by lia.
      + rewrite decide_False by lia. by rewrite zget_insert_ne by lia. }
  split_and!; try done. apply wf_of_bits; try done.
  - intros i c. rewrite Hget.
    destruct (decide (q ≤ i < zlen (mem_mmaped bm))); [intros ?; simplify_eq; lia|].
    destruct (decide (d / 8 = i)) as [<-|].
    + rewrite zget_insert_eq by done. intros ?; simplify_eq; lia.
    + rewrite zget_insert_ne by lia. apply (wf_byte _ Hwf).
  - intros e. rewrite Hfin. by intros [??]%andb_prop.
Qed.

(** ** Counting *)

(** The marked ids below [n], in increasing order. *)
Definition marks_upto (bitmark : bitmark_manager) (n : Z) : list Z :=
  filter (λ d, bit bitmark d = true) (seqZ 0 n).

Definition marks (bitmark : bitmark_manager) : list Z :=
  marks_upto bitmark (row_limit bitmark).

(** Both table reads of a byte give its number of set bits: checked for all
    256 bytes by computation. *)
Definition nibble_ok (c : Z) : bool :=
  match count_map⟦Z.land c 0x0f⟧, count_map⟦Z.land (Z.shiftr c 4) 0x0f⟧ with
  | Some lo, Some hi =>
      (0 <=? lo) && (0 <=? hi) &&
      (lo + hi =? zlen (filter (λ n, Z.testbit c (7 - n) = true) (seqZ 0 8)))
  | _, _ => false
  end.

Lemma nibble_count c :
  0 ≤ c < 256 →
  ∃ lo hi, count_map⟦Z.land c 0x0f⟧ = Some lo ∧
    count_map⟦Z.land (Z.shiftr c 4) 0x0f⟧ = Some hi ∧ 0 ≤ lo ∧ 0 ≤ hi ∧
    lo + hi = zlen (filter (λ n, Z.testbit c (7 - n) = true) (seqZ 0 8)).
Proof.
  intros Hc.
  assert (forallb nibble_ok (seqZ 0 256) = true) as H by (vm_compute; reflexivity).
  rewrite forallb_forall in H. specialize (H c). unfold nibble_ok in H.
  rewrite <- list_elem_of_In, elem_of_seqZ in H. specialize (H ltac:(lia)).
  repeat case_match; try done. zb. eauto 10.
Qed.

Lemma seqZ_split a n m :
  0 ≤ n → 0 ≤ m → seqZ a (n + m) = seqZ a n ++ seqZ (a + n) m.
Proof. intros. by apply seqZ_app. Qed.

(** The marks of one byte. *)
Lemma byte_marks bm i c :
  0 ≤ i → (mem_mmaped bm)⟦i⟧ = Some c →
  length (filter (λ d, bit bm d = true) (seqZ (8 * i) 8)) =
  length (filter (λ n, Z.testbit c (7 - n) = true) (seqZ 0 8)).
Proof.
  intros Hi Hc.
  replace (seqZ (8 * i) 8) with (Z.add (8 * i) <$> seqZ 0 8)
    by (rewrite fmap_add_seqZ; f_equal; lia).
  apply filter_length_fmap. intros n Hn%elem_of_seqZ. unfold bit.
  replace ((8 * i + n) / 8) with i by zdiv. rewrite Hc.
  by replace ((8 * i + n) `mod` 8) with n by zdiv.
Qed.

Lemma count_bytes_spec bm fuel i count :
  bitmark_wf bm → 0 ≤ i → i + Z.of_nat fuel ≤ zlen (mem_mmaped bm) →
  0 ≤ count → count + 8 * Z.of_nat fuel < 2 ^ 31 →
  count_bytes fuel (mem_mmaped bm) i count =
  Some (count + zlen (filter (λ d, bit bm d = true) (seqZ (8 * i) (8 * Z.of_nat fuel)))).
Proof.
  intros Hwf. revert i count. induction fuel as [|fuel IH]; intros i count Hi Hlen Hc Hmax.
  - simpl. f_equal. rewrite seqZ_nil by lia. unfold zlen. simpl. lia.
  - cbn [count_bytes].
    destruct (zget_lt (mem_mmaped bm) i) as [c Hb]; [lia|]. rewrite Hb. simpl.
    destruct (nibble_count c) as (lo & hi & -> & -> & ? & ? & Hsum); [by eapply wf_byte|]. simpl.
    assert (zlen (filter (λ n, Z.testbit c (7 - n) = true) (seqZ 0 8)) ≤ 8) as H8.
    { unfold zlen. pose proof (length_filter (λ n, Z.testbit c (7 - n) = true) (seqZ 0 8)).
      rewrite length_seqZ in *. lia. }
    rewrite !s32_small by (rewrite ?s32_small; lia). rewrite IH by lia.
    replace (8 * Z.of_nat (S fuel)) with (8 + 8 * Z.of_nat fuel) by lia.
    rewrite seqZ_split, list.filter_app, zlen_app by lia.
    replace (8 * i + 8) with (8 * (i + 1)) by lia.
    unfold zlen in *. erewrite (byte_marks bm i c) by done. f_equal. lia.
Qed.

Lemma bitmark_count_marks bm :
  bitmark_wf bm → row_limit bm < 2 ^ 31 - 8 → bitmark_count bm = Some (zlen (marks bm)).
Proof.
  intros Hwf Hlim. unfold bitmark_count. pose proof (wf_limit _ Hwf).
  pose proof (wf_size _ Hwf) as Hs. unfold BITMARK_MMAP_SIZE, BYTE_SIZE in *.
  assert (0 ≤ row_limit bm / 8 ∧ 8 * (row_limit bm / 8) ≤ row_limit bm < 8 * (row_limit bm / 8) + 8)
    as [? ?] by zdiv.
  rewrite count_bytes_spec by (done || lia). f_equal. rewrite Z.add_0_l.
  unfold marks, marks_upto. rewrite Z.mul_0_r, Z2Nat.id by lia.
  replace (8 * (row_limit bm / 8 + 1))
    with (row_limit bm + (8 * (row_limit bm / 8 + 1) - row_limit bm)) by lia.
  rewrite seqZ_split, list.filter_app, zlen_app by lia.
  rewrite (filter_none_in _ (seqZ (0 + _) _)); [unfold zlen; simpl; lia|].
  intros d Hd%elem_of_seqZ. rewrite (wf_high _ Hwf) by lia. done.
Qed.

(** ** Initialisation *)

Lemma bitmark_init_spec limit file :
  0 ≤ limit < 2 ^ 31 →
  ∃ bm, bitmark_init limit file = Some bm ∧ row_limit bm = limit ∧
    zlen (mem_mmaped bm) = BITMARK_MMAP_SIZE bm ∧
    ∀ i, 0 ≤ i < BITMARK_MMAP_SIZE bm →
      (mem_mmaped bm)⟦i⟧ = if decide (i < zlen file) then file⟦i⟧ else Some 0.
Proof.
  intros Hl. unfold bitmark_init.
  assert (0 < BITMARK_MMAP_SIZE (Bitmark [] limit) < 2 ^ 31) as Hs
    by (unfold BITMARK_MMAP_SIZE, BYTE_SIZE; simpl; zdiv).
  destruct (get_mmap_memory_spec 0 1 ltac:(lia) file (BITMARK_MMAP_SIZE (Bitmark [] limit)))
    as (m & f' & -> & Hlen & Hget); [lia..|].
  simpl. eexists. split; [done|]. done.
Qed.

(** A fresh file gives the empty set of marks. *)
Lemma bitmark_init_empty limit :
  0 ≤ limit < 2 ^ 31 →
  ∃ bm, bitmark_init limit [] = Some bm ∧ bitmark_wf bm ∧ row_limit bm = limit ∧
    ∀ d, bit bm d = false.
Proof.
  intros Hl. destruct (bitmark_init_spec limit []) as (bm & Hi & Hrl & Hlen & Hget); [done|].
  assert (∀ i b, (mem_mmaped bm)⟦i⟧ = Some b → b = 0) as H0.
  { intros i b Hb. pose proof (zget_Some_range _ _ _ Hb) as Hr.
    rewrite Hget in Hb by lia. rewrite decide_False in Hb by (unfold zlen; simpl; lia).
    by simplify_eq. }
  assert (∀ d, bit bm d = false) as Hbits.
  { intros d. unfold bit. destruct ((mem_mmaped bm)⟦d / 8⟧) eqn:E; [|done].
    apply H0 in E as ->. apply Z.testbit_0_l. }
  exists bm. split_and!; try done. split; try done; [lia|].
  intros i b Hb%H0. lia.
Qed.

(** The file of a mark opens as the same mark. *)
Lemma bitmark_init_again bm :
  bitmark_wf bm → row_limit bm < 2 ^ 31 → bitmark_init (row_limit bm) (mem_mmaped bm) = Some bm.
Proof.
  intros [Hr Hs _ _] Hl. unfold bitmark_init.
  assert (BITMARK_MMAP_SIZE (Bitmark [] (row_limit bm)) = zlen (mem_mmaped bm)) as -> by by rewrite Hs.
  assert (0 < zlen (mem_mmaped bm) < 2 ^ 31) by (rewrite Hs; unfold BITMARK_MMAP_SIZE, BYTE_SIZE; zdiv).
  rewrite get_mmap_same by lia. cbn [fst mbind option_bind]. by destruct bm.
Qed.

(** ** The interface a component sees of its bit marks

    [storage.c] and [filtercompress.c] use a bit mark through these operations
    only; their theorems are proved against the laws. *)

Class MarkSet (M : Type) := {
  ms_limit : M → Z;
  ms_set : M → Z → option (Z * M);
  ms_clear : M → Z → option (Z * M);
  ms_query : M → Z → option Z;
  ms_recover : M → Z → option (Z * M)
}.

Class MarkSetLaws (M : Type) `{!MarkSet M} := {
  ms_wf : M → Prop;
  ms_bit : M → Z → bool;
  ms_set_ok m d : ms_wf m → 0 ≤ d < ms_limit m →
    ∃ m', ms_set m d = Some (0, m') ∧ ms_wf m' ∧ ms_limit m' = ms_limit m ∧
      ∀ e, ms_bit m' e = (ms_bit m e || (e =? d))%bool;
  ms_clear_ok m d : ms_wf m → 0 ≤ d < ms_limit m →
    ∃ m', ms_clear m d = Some (if ms_bit m d then 1 else 0, m') ∧ ms_wf m' ∧
      ms_limit m' = ms_limit m ∧ ∀ e, ms_bit m' e = (ms_bit m e && negb (e =? d))%bool;
  ms_query_ok m d : ms_wf m → 0 ≤ d < ms_limit m →
    ms_query m d = Some (if ms_bit m d then 0 else 1);
  ms_recover_ok m d : ms_wf m → 0 ≤ d < ms_limit m →
    ∃ m', ms_recover m d = Some (0, m') ∧ ms_wf m' ∧ ms_limit m' = ms_limit m ∧
      ∀ e, ms_bit m' e = (ms_bit m e && (e <? d))%bool
}.

#[export] Instance bitmark_MarkSet : MarkSet bitmark_manager := {
  ms_limit := row_limit;
  ms_set := bitmark_set;
  ms_clear := bitmark_clear;
  ms_query := bitmark_query;
  ms_recover := bitmark_recover
}.

Lemma bitmark_query_in_range bm d :
  bitmark_wf bm → 0 ≤ d < row_limit bm →
  bitmark_query bm d = Some (if bit bm d then 0 else 1).
Proof.
  intros Hwf Hd. rewrite bitmark_query_spec by (done || lia).
  by rewrite decide_False by lia.
Qed.

#[export] Instance bitmark_MarkSetLaws : MarkSetLaws bitmark_manager := {
  ms_wf := bitmark_wf;
  ms_bit := bit;
  ms_set_ok := bitmark_set_spec;
  ms_clear_ok := bitmark_clear_spec;
  ms_query_ok := bitmark_query_in_range;
  ms_recover_ok := bitmark_recover_spec
}.

(** ** Refinement: runs of operations against a set of ids *)

Inductive mark_op := OpSet (d : Z) | OpClear (d : Z) | OpReset | OpRecover (d : Z).

Definition run_op (bm : bitmark_manager) (op : mark_op) : option (Z * bitmark_manager) :=
  match op with
  | OpSet d => bitmark_set bm d
  | OpClear d => bitmark_clear bm d
  | OpReset => bitmark_reset bm
  | OpRecover d => bitmark_recover bm d
  end.

Fixpoint run_ops (bm : bitmark_manager) (ops : list mark_op) : option bitmark_manager :=
  match ops with
  | [] => Some bm
  | op :: ops => '(_, bm') ← run_op bm op; run_ops bm' ops
  end.

(** The abstract state: a predicate on ids.  An operation on an id at or past
    the limit is refused and changes nothing. *)
Definition spec_op (limit : Z) (s : Z → bool) (op : mark_op) : Z → bool :=
  match op with
  | OpSet d => λ e, if d >=? limit then s e else (s e || (e =? d))%bool
  | OpClear d => λ e, if d >=? limit then s e else (s e && negb (e =? d))%bool
  | OpReset => λ _, false
  | OpRecover d => λ e, if d >=? limit then s e else (s e && (e <? d))%bool
  end.

Definition op_docid (op : mark_op) : Z :=
  match op with OpSet d | OpClear d | OpRecover d => d | OpReset => 0 end.

Lemma run_op_refines bm op :
  bitmark_wf bm → 0 ≤ op_docid op →
  ∃ r bm', run_op bm op = Some (r, bm') ∧ bitmark_wf bm' ∧ row_limit bm' = row_limit bm ∧
    ∀ e, bit bm' e = spec_op (row_limit bm) (bit bm) op e.
Proof.
  intros Hwf Hd. destruct op as [d|d| |d]; simpl in *.
  - destruct (Z.geb_spec d (row_limit bm)).
    + rewrite bitmark_set_exceed by done. eauto 10.
    + destruct (bitmark_set_spec bm d) as (bm' & ? & ? & ? & ?); [done|lia|]. eauto 10.
  - destruct (Z.geb_spec d (row_limit bm)).
    + rewrite bitmark_clear_exceed by done. eauto 10.
    + destruct (bitmark_clear_spec bm d) as (bm' & ? & ? & ? & ?); [done|lia|]. eauto 10.
  - destruct (bitmark_reset_spec bm) as (bm' & ? & ? & ? & ?); [done|]. eauto 10.
  - destruct (Z.geb_spec d (row_limit bm)).
    + rewrite bitmark_recover_exceed by done. eauto 10.
    + destruct (bitmark_recover_spec bm d) as (bm' & ? & ? & ? & ?); [done|lia|]. eauto 10.
Qed.

Lemma spec_op_ext limit s1 s2 op :
  (∀ e, s1 e = s2 e) → ∀ e, spec_op limit s1 op e = spec_op limit s2 op e.
Proof. intros H e. destruct op; simpl; by rewrite ?H. Qed.

(** A bit mark implements a set of document ids.  From any well-formed mark,
    every sequence of set, clear, reset and recover operations on non-negative ids
    (ids past the row limit included: the code rejects them) runs without a
    memory error, and a query afterwards answers 0 exactly for the ids in the
    set that the same operations build. *)
Theorem bitmark_refines_set bm ops :
  bitmark_wf bm → Forall (λ op, 0 ≤ op_docid op) ops →
  ∃ bm', run_ops bm ops = Some bm' ∧ bitmark_wf bm' ∧ row_limit bm' = row_limit bm ∧
    ∀ d, 0 ≤ d < row_limit bm →
      bitmark_query bm' d =
      Some (if foldl (spec_op (row_limit bm)) (bit bm) ops d then 0 else 1).
Proof.
  intros Hwf Hops.
  assert (∀ s, (∀ e, bit bm e = s e) → ∃ bm', run_ops bm ops = Some bm' ∧ bitmark_wf bm' ∧
    row_limit bm' = row_limit bm ∧
    ∀ e, bit bm' e = foldl (spec_op (row_limit bm)) s ops e) as H.
  { revert bm Hwf. induction Hops as [|op ops Hd Hops IH]; intros bm Hwf s Hs; simpl.
    - eauto.
    - destruct (run_op_refines bm op Hwf Hd) as (r & bm1 & Hrun & Hwf1 & Hl1 & Hbit).
      rewrite Hrun. simpl.
      destruct (IH bm1 Hwf1 (spec_op (row_limit bm) s op)) as (bm2 & ? & ? & ? & Hfin).
      { intros e. rewrite Hbit. by apply spec_op_ext. }
      exists bm2. rewrite Hl1 in *. split_and!; done. }
  destruct (H (bit bm)) as (bm' & Hrun & Hwf' & Hl & Hbits); [done|].
  exists bm'. split_and!; try done. intros d Hd.
  rewrite bitmark_query_in_range by (done || lia). by rewrite Hbits.
Qed.

Lemma bitmark_refines_set_witness :
  ∃ bm bm', bitmark_init 20 [] = Some bm ∧
    run_ops bm [OpSet 3; OpSet 19; OpClear 3; OpSet 20; OpSet 5; OpRecover 19] = Some bm' ∧
    bitmark_query bm' 5 = Some 0 ∧ bitmark_query bm' 19 = Some 1.
Proof.
  destruct (bitmark_init_empty 20) as (bm & Hi & Hwf & Hl & Hb); [lia|].
  destruct (bitmark_refines_set bm
    [OpSet 3; OpSet 19; OpClear 3; OpSet 20; OpSet 5; OpRecover 19]) as (bm' & Hr & _ & _ & Hq).
  - done.
  - repeat constructor; simpl; lia.
  - rewrite Hl in Hq. exists bm, bm'. split_and!; try done.
    + rewrite Hq by lia. simpl. by rewrite !Hb.
    + rewrite Hq by lia. simpl. by rewrite !Hb.
Defined.

(** [bitmark_count] returns the number of ids below the row limit that
    [bitmark_query] reports as marked. *)
Theorem bitmark_count_correct bm :
  bitmark_wf bm → row_limit bm < 2 ^ 31 - 8 →
  bitmark_count bm = Some (zlen (filter (λ d, bitmark_query bm d = Some 0)
                                        (seqZ 0 (row_limit bm)))).
Proof.
  intros Hwf Hl. rewrite bitmark_count_marks by done. do 2 f_equal.
  apply filter_ext_in. intros d Hd%elem_of_seqZ.
  rewrite bitmark_query_in_range by (done || lia). by destruct (bit bm d).
Qed.

Lemma bitmark_count_correct_witness :
  ∃ bm bm', bitmark_init 20 [] = Some bm ∧ run_ops bm [OpSet 3; OpSet 19] = Some bm' ∧
    bitmark_count bm' = Some 2.
Proof.
  destruct (bitmark_init_empty 20) as (bm & Hi & Hwf & Hl & Hb); [lia|].
  vm_compute in Hi. simplify_eq.
  eexists _, (Bitmark [16; 0; 16] 20). split; [reflexivity|]. split; [reflexivity|].
  rewrite bitmark_count_correct; [reflexivity| |simpl; lia].
  destruct (run_op_refines (Bitmark [0; 0; 0] 20) (OpSet 3)) as (? & ? & H1 & W1 & _);
    [done|simpl; lia|]. vm_compute in H1. simplify_eq.
  destruct (run_op_refines (Bitmark [16; 0; 0] 20) (OpSet 19)) as (? & ? & H2 & W2 & _);
    [done|simpl; lia|]. vm_compute in H2. by simplify_eq.
Defined.
