(* ===== verification/RowidList.v ===== *)
(** * Blocked lists of row ids ([src/storage/docdb/rowid_list.c])

    A [rowid_list] is a chain of nodes of [ROWID_ARRAY_SIZE] cells.  The chain
    is the list of its nodes in order; a node pointer is an index into it, and
    an index past the end is the NULL at the end of the chain, so that
    [p->next] is [S p].  Reading through such an index is undefined behaviour
    ([None]).  Scores are IEEE doubles ([spec_float], binary64). *)

From Stdlib Require Import ZArith Lia SpecFloat.
From stdpp Require Import base option list numbers sorting.
From S2P Require Import Prelude.

Definition ROWID_ARRAY_SIZE : Z := 256.
Definition BLK : nat := Z.to_nat ROWID_ARRAY_SIZE.

Definition double : Type := spec_float.
Definition d0 : double := S754_zero false.
Definition dadd (x y : double) : double := SFadd 53 1024 x y.

Definition MILE_RETURN_SUCCESS : Z := 0.
Definition ERROR_TIMEOUT : Z := -999.

Record rowid_list_node := Node {
  rowid_array : list Z;
  score_array : option (list double)   (* [None] is the NULL score array *)
}.

Record rowid_list := RowidList {
  rowid_num : Z;
  nodes : list rowid_list_node;        (* [head], and the nodes chained from it *)
  tail : option nat                    (* [tail], an index; [None] is NULL *)
}.

(** A node fresh from [mem_pool_malloc] and [memset]. *)
Definition new_node : rowid_list_node := Node (replicate BLK 0) None.

Definition rowid_list_init : rowid_list := RowidList 0 [] None.

(** Linking [tmp] behind the tail: [tail->next = tmp; tail = tmp] (or
    [head = tail = tmp] for an empty chain).  Whatever hung off the old tail is
    cut off. *)
Definition link_tail (l : rowid_list) (tmp : rowid_list_node) : option (list rowid_list_node * nat) :=
  match nodes l with
  | [] => Some ([tmp], 0%nat)
  | _ =>
      t ← tail l;
      _ ← nodes l !! t;
      Some (take (S t) (nodes l) ++ [tmp], S t)
  end.

Definition rowid_list_add (id_list : ptr rowid_list) (rowid : Z) : option (ptr rowid_list) :=
  match id_list with
  | NULL => Some NULL
  | Ptr l =>
      if bool_decide (nodes l = []) || (rowid_num l `mod` ROWID_ARRAY_SIZE =? 0) then
        a ← (rowid_array new_node)⟦0 := rowid⟧;
        '(ns, t) ← link_tail l (Node a None);
        Some (Ptr (RowidList (u32 (rowid_num l + 1)) ns (Some t)))
      else
        t ← tail l;
        nd ← nodes l !! t;
        a ← (rowid_array nd)⟦rowid_num l `mod` ROWID_ARRAY_SIZE := rowid⟧;
        Some (Ptr (RowidList (u32 (rowid_num l + 1))
                             (<[t := Node a (score_array nd)]> (nodes l)) (Some t)))
  end.

(** One turn of the [while (num != 0)] loop per unit of fuel. *)
Fixpoint batch_add_loop (fuel : nat) (l : rowid_list) (rowids : list Z) (total num : Z)
    : option rowid_list :=
  match fuel with
  | O => Some l
  | S fuel =>
      if num =? 0 then Some l
      else
        let insert_num := if num / ROWID_ARRAY_SIZE >? 0 then ROWID_ARRAY_SIZE else num in
        src ← zsub rowids (total - num) insert_num;
        a ← zcopy (rowid_array new_node) 0 src;
        '(ns, t) ← link_tail l (Node a None);
        batch_add_loop fuel
          (RowidList (u32 (rowid_num l + insert_num)) ns (Some t))
          rowids total (num - insert_num)
  end.

Definition rowid_list_batch_add (id_list : ptr rowid_list) (rowids : list Z) (num : Z)
    : option (ptr rowid_list) :=
  match id_list with
  | NULL => Some NULL
  | Ptr l => l' ← batch_add_loop (Z.to_nat num) l rowids num num; Some (Ptr l')
  end.

(** [p->rowid_array[i % ROWID_ARRAY_SIZE]] *)
Definition node_rowid (ns : list rowid_list_node) (p : nat) (i : Z) : option Z :=
  nd ← ns !! p;
  (rowid_array nd)⟦i `mod` ROWID_ARRAY_SIZE⟧.

(** [if (i % ROWID_ARRAY_SIZE == 0) p = p->next;] after [i] was incremented *)
Definition advance (p : nat) (i : Z) : nat :=
  if i `mod` ROWID_ARRAY_SIZE =? 0 then S p else p.

Fixpoint equals_loop (fuel : nat) (la lb : rowid_list) (i j : Z) (p q : nat)
    : option (option (nat * nat)) :=
  match fuel with
  | O => Some (Some (p, q))
  | S fuel =>
      if (i <? rowid_num la) && (j <? rowid_num lb) then
        x ← node_rowid (nodes la) p i;
        y ← node_rowid (nodes lb) q j;
        if negb (x =? y) then Some None
        else
          let p := if negb (i =? 0) && (i `mod` ROWID_ARRAY_SIZE =? 0) then S p else p in
          let q := if negb (j =? 0) && (j `mod` ROWID_ARRAY_SIZE =? 0) then S q else q in
          equals_loop fuel la lb (i + 1) (j + 1) p q
      else Some (Some (p, q))
  end.

(** A node index compared with the tail pointer; past the end both are NULL. *)
Definition is_tail (l : rowid_list) (p : nat) : bool :=
  match tail l with
  | Some t => bool_decide (p = t)
  | None => bool_decide (length (nodes l) ≤ p)%nat
  end.

Definition rowid_list_equals (lista listb : ptr rowid_list) : option Z :=
  match lista, listb with
  | NULL, NULL => Some 1
  | NULL, _ | _, NULL => Some 0
  | Ptr la, Ptr lb =>
      if negb (rowid_num la =? rowid_num lb) then Some 0
      else
        r ← equals_loop (Z.to_nat (rowid_num la)) la lb 0 0 0%nat 0%nat;
        match r with
        | None => Some 0
        | Some (p, q) =>
            if negb (is_tail la p) || negb (is_tail lb q) then Some 0 else Some 1
        end
  end.

(** [rowid_list_for_each]: [func] updates the caller's [user_data]; [now n] is
    the clock at its [n]-th reading. *)
Section for_each.
Context {U : Type} (func : Z → U → Z * U) (now : nat → Z) (deadline_time : Z).

Fixpoint for_each_loop (fuel : nat) (l : rowid_list) (p : nat) (i : Z) (tick : nat) (u : U)
    : option (Z * U) :=
  match fuel with
  | O => Some (MILE_RETURN_SUCCESS, u)
  | S fuel =>
      if i <? rowid_num l then
        rowid ← node_rowid (nodes l) p i;
        let i := i + 1 in
        let p := advance p i in
        let '(result_code, u) := func rowid u in
        if result_code <? 0 then Some (result_code, u)
        else if i `mod` 100 =? 0 then
          if now tick >? u64 deadline_time then Some (ERROR_TIMEOUT, u)
          else for_each_loop fuel l p i (S tick) u
        else for_each_loop fuel l p i tick u
      else Some (MILE_RETURN_SUCCESS, u)
  end.

Definition rowid_list_for_each (id_list : ptr rowid_list) (user_data : U) : option (Z * U) :=
  match id_list with
  | NULL => Some (MILE_RETURN_SUCCESS, user_data)
  | Ptr l => for_each_loop (Z.to_nat (rowid_num l)) l 0%nat 0 0%nat user_data
  end.
End for_each.

(** ** Abstraction: the sequence of row ids *)

Definition flat (ns : list rowid_list_node) : list Z := concat (rowid_array <$> ns).

Definition elems (l : rowid_list) : list Z := take (Z.to_nat (rowid_num l)) (flat (nodes l)).

Definition node_wf (nd : rowid_list_node) : Prop :=
  length (rowid_array nd) = BLK ∧ ∀ s, score_array nd = Some s → length s = BLK.

(** Every node has its cells and the chain has room for the counted ids. *)
Record list_wf (l : rowid_list) : Prop := {
  lw_num : 0 ≤ rowid_num l < 2 ^ 32;
  lw_nodes : Forall node_wf (nodes l);
  lw_room : rowid_num l ≤ ROWID_ARRAY_SIZE * zlen (nodes l)
}.

(** No node is superfluous and the tail is the last node: what
    [rowid_list_add] and [rowid_list_batch_add] build and need. *)
Record list_tight (l : rowid_list) : Prop := {
  lt_wf : list_wf l;
  lt_count : ROWID_ARRAY_SIZE * zlen (nodes l) < rowid_num l + ROWID_ARRAY_SIZE;
  lt_tail : tail l = match nodes l with [] => None | _ => Some (length (nodes l) - 1)%nat end
}.

Lemma nodes_blocks ns :
  Forall node_wf ns → Forall (λ b, length b = BLK) (rowid_array <$> ns).
Proof. intros H. apply Forall_fmap. induction H as [|nd ns [? _]]; by constructor. Qed.

Lemma zlen_flat ns : Forall node_wf ns → zlen (flat ns) = ROWID_ARRAY_SIZE * zlen ns.
Proof.
  intros H. unfold zlen, flat. rewrite (length_concat_blocks BLK) by by apply nodes_blocks.
  rewrite length_fmap. unfold BLK, ROWID_ARRAY_SIZE. lia.
Qed.

Lemma idx_split i : 0 ≤ i →
  Z.to_nat i = (BLK * Z.to_nat (i / ROWID_ARRAY_SIZE) + Z.to_nat (i `mod` ROWID_ARRAY_SIZE))%nat.
Proof. intros. unfold BLK, ROWID_ARRAY_SIZE. zdiv. Qed.

Lemma idx_mod i : (Z.to_nat (i `mod` ROWID_ARRAY_SIZE) < BLK)%nat.
Proof. unfold BLK, ROWID_ARRAY_SIZE. zdiv. Qed.

(** The pointer [p] of the loops is the block of index [i]. *)
Definition at_block (i : Z) : nat := Z.to_nat (i / ROWID_ARRAY_SIZE).

Lemma advance_block i : 0 ≤ i → advance (at_block i) (i + 1) = at_block (i + 1).
Proof.
  intros. unfold advance, at_block, ROWID_ARRAY_SIZE.
  destruct (Z.eqb_spec ((i + 1) `mod` 256) 0); zdiv.
Qed.

Lemma node_rowid_flat ns i :
  Forall node_wf ns → 0 ≤ i → node_rowid ns (at_block i) i = (flat ns)⟦i⟧.
Proof.
  intros H Hi. unfold node_rowid, at_block, flat. rewrite (zget_lookup (concat _)) by done.
  rewrite (idx_split i) by done.
  rewrite (lookup_concat_blocks BLK) by (apply idx_mod || by apply nodes_blocks).
  rewrite list_lookup_fmap. destruct (ns !! _); simpl; [|done].
  rewrite zget_lookup; [done|]. unfold ROWID_ARRAY_SIZE. zdiv.
Qed.

Lemma zlen_elems l : list_wf l → zlen (elems l) = rowid_num l.
Proof.
  intros [Hn Hw Hr]. unfold elems, zlen. rewrite length_take.
  pose proof (zlen_flat _ Hw) as Hf. unfold zlen in *. lia.
Qed.

Lemma elems_get l i :
  0 ≤ i < rowid_num l → (elems l)⟦i⟧ = (flat (nodes l))⟦i⟧.
Proof.
  intros Hi. rewrite !zget_lookup by lia. unfold elems. apply lookup_take_lt. lia.
Qed.

Lemma node_rowid_elems l i :
  list_wf l → 0 ≤ i < rowid_num l → node_rowid (nodes l) (at_block i) i = (elems l)⟦i⟧.
Proof. intros [] Hi. rewrite elems_get by lia. by apply node_rowid_flat; [|lia]. Qed.

Lemma new_node_wf : node_wf new_node.
Proof. split; [done|]. by intros s. Qed.

#[export] Hint Resolve new_node_wf : mile.

Lemma flat_app ns ms : flat (ns ++ ms) = flat ns ++ flat ms.
Proof. unfold flat. by rewrite fmap_app, concat_app. Qed.

(** Linking a node behind a tight list appends its cells. *)
Lemma link_tail_tight l nd :
  list_tight l → link_tail l nd = Some (nodes l ++ [nd], length (nodes l)).
Proof.
  intros [Hw Hc Ht]. unfold link_tail. rewrite Ht. destruct (nodes l) as [|n0 ns] eqn:E; [done|].
  replace (length (n0 :: ns) - 1)%nat with (length ns) by (simpl; lia).
  destruct (lookup_lt_is_Some_2 (n0 :: ns) (length ns)) as [x Hx]; [simpl; lia|].
  cbn [mbind option_bind]. rewrite Hx. cbn [mbind option_bind].
  by rewrite take_ge by (simpl; lia).
Qed.

Lemma tight_extend l nd n :
  list_tight l → node_wf nd → rowid_num l `mod` ROWID_ARRAY_SIZE = 0 →
  0 < n ≤ ROWID_ARRAY_SIZE → rowid_num l + n < 2 ^ 32 →
  let l' := RowidList (u32 (rowid_num l + n)) (nodes l ++ [nd]) (Some (length (nodes l))) in
  list_tight l' ∧ elems l' = elems l ++ take (Z.to_nat n) (rowid_array nd).
Proof.
  intros [Hw Hc Ht] Hnd Hm Hn Hmax l'. destruct Hw as [Hnum Hns Hroom].
  assert (rowid_num l = ROWID_ARRAY_SIZE * zlen (nodes l)) as Hfull.
  { unfold ROWID_ARRAY_SIZE in *. pose proof (zlen_nonneg (nodes l)). zdiv. }
  unfold l'. rewrite u32_small by lia. split.
  - split; simpl.
    + split; simpl; [lia|by apply Forall_app; split; [|apply Forall_singleton]|].
      rewrite zlen_app. unfold zlen at 2. simpl. lia.
    + rewrite zlen_app. unfold zlen at 2. simpl. lia.
    + destruct (nodes l) as [|n0 ns]; [done|]. simpl. rewrite length_app. simpl. f_equal. lia.
  - unfold elems; simpl. rewrite flat_app.
    pose proof (zlen_flat _ Hns) as Hf. unfold zlen in *.
    rewrite !take_app, !(take_ge (flat (nodes l))) by lia. f_equal.
    replace (Z.to_nat (rowid_num l + n) - length (flat (nodes l)))%nat with (Z.to_nat n) by lia.
    unfold flat; simpl. by rewrite app_nil_r.
Qed.

Lemma elems_set_cell ns i x nd :
  Forall node_wf ns → 0 ≤ i → ns !! at_block i = Some nd →
  flat (<[at_block i := Node (<[Z.to_nat (i `mod` ROWID_ARRAY_SIZE) := x]> (rowid_array nd))
                              (score_array nd)]> ns) = <[Z.to_nat i := x]> (flat ns).
Proof.
  intros H Hi Hnd. unfold flat. rewrite list_fmap_insert. simpl.
  rewrite (insert_concat_blocks BLK);
    [|by apply nodes_blocks|apply idx_mod|by rewrite list_lookup_fmap, Hnd].
  f_equal. symmetry. by apply idx_split.
Qed.

(** ** Functional behaviour *)

Lemma rowid_list_init_tight : list_tight rowid_list_init ∧ elems rowid_list_init = [].
Proof. split; [|done]. split; [split|..]; simpl; try done; try constructor. Qed.

Lemma rowid_list_add_spec l x :
  list_tight l → rowid_num l + 1 < 2 ^ 32 →
  ∃ l', rowid_list_add (Ptr l) x = Some (Ptr l') ∧ list_tight l' ∧ elems l' = elems l ++ [x].
Proof.
  intros Ht Hmax. unfold rowid_list_add.
  destruct (Z.eqb_spec (rowid_num l `mod` ROWID_ARRAY_SIZE) 0) as [Hm|Hm].
  - rewrite orb_true_r, zset_in by done. cbn [mbind option_bind].
    rewrite link_tail_tight by done. cbn [mbind option_bind].
    destruct (tight_extend l (Node (<[0%nat:=x]> (replicate BLK 0)) None) 1) as [H1 H2];
      [done|split; [done|by intros]|done|unfold ROWID_ARRAY_SIZE; lia|done|].
    eexists. split; [done|]. by split.
  - destruct Ht as [[Hnum Hns Hroom] Hc Ht].
    assert (nodes l ≠ []) as Hne.
    { intros E. rewrite E in Hroom. unfold zlen in Hroom. simpl in Hroom.
      by replace (rowid_num l) with 0 in Hm by lia. }
    rewrite bool_decide_false by done. simpl orb. cbv iota.
    assert (tail l = Some (length (nodes l) - 1)%nat) as -> by (by destruct (nodes l)).
    cbn [mbind option_bind].
    assert (length (nodes l) - 1 = at_block (rowid_num l))%nat as ->.
    { unfold at_block, zlen, ROWID_ARRAY_SIZE in *. zdiv. }
    assert (at_block (rowid_num l) < length (nodes l))%nat as Hlt.
    { unfold at_block, zlen, ROWID_ARRAY_SIZE in *. zdiv. }
    destruct (lookup_lt_is_Some_2 _ _ Hlt) as [nd Hnd]. rewrite Hnd. cbn [mbind option_bind].
    pose proof (Forall_lookup_1 _ _ _ _ Hns Hnd) as [Hlen Hsc].
    rewrite zset_in by (unfold zlen; rewrite Hlen; unfold BLK, ROWID_ARRAY_SIZE; zdiv).
    simpl. eexists. split; [done|]. rewrite u32_small by lia. split.
    + split; simpl.
      * split; simpl; [lia| |rewrite zlen_insert; unfold ROWID_ARRAY_SIZE, zlen in *; zdiv].
        apply Forall_insert; [done|]. split; simpl; [by rewrite length_insert|done].
      * rewrite zlen_insert. lia.
      * destruct (<[_:=_]> (nodes l)) eqn:E2;
          apply (f_equal length) in E2; rewrite length_insert in E2; [by destruct (nodes l)|].
        rewrite <- E2. f_equal. unfold at_block, zlen, ROWID_ARRAY_SIZE in *. zdiv.
    + unfold elems; simpl. rewrite elems_set_cell by (done || lia).
      pose proof (zlen_flat _ Hns) as Hf. unfold zlen, ROWID_ARRAY_SIZE in *.
      replace (Z.to_nat (rowid_num l + 1)) with (S (Z.to_nat (rowid_num l))) by lia.
      erewrite take_S_r by (apply list_lookup_insert_eq; zdiv).
      by rewrite take_insert_ge by lia.
Qed.

Lemma zcopy_prefix (l src : list Z) :
  zlen src ≤ zlen l → zcopy l 0 src = Some (src ++ drop (length src) l).
Proof. intros H. unfold zcopy. rewrite decide_True by lia. done. Qed.

Lemma batch_add_loop_spec fuel l rowids total num :
  list_tight l → 0 ≤ num ≤ Z.of_nat fuel → num ≤ total ≤ zlen rowids →
  (num ≠ 0 → rowid_num l `mod` ROWID_ARRAY_SIZE = 0) → rowid_num l + num < 2 ^ 32 →
  ∃ l', batch_add_loop fuel l rowids total num = Some l' ∧ list_tight l' ∧
    elems l' = elems l ++ take (Z.to_nat num) (drop (Z.to_nat (total - num)) rowids).
Proof.
  revert l num. induction fuel as [|fuel IH]; intros l num Ht Hf Htot Hm Hmax.
  { exists l. replace num with 0 by lia. simpl. by rewrite take_0, app_nil_r. }
  pose proof (lw_num _ (lt_wf _ Ht)) as Hnum.
  cbn [batch_add_loop]. destruct (Z.eqb_spec num 0) as [->|Hne].
  { exists l. simpl. by rewrite take_0, app_nil_r. }
  set (n := if num / ROWID_ARRAY_SIZE >? 0 then ROWID_ARRAY_SIZE else num).
  assert (0 < n ≤ num ∧ n ≤ ROWID_ARRAY_SIZE ∧ (n < num → n = ROWID_ARRAY_SIZE)) as (Hn & Hn2 & Hn3).
  { subst n. unfold ROWID_ARRAY_SIZE. destruct (Z.gtb_spec (num / 256) 0); zdiv. }
  assert (zsub rowids (total - num) n = Some (take (Z.to_nat n) (drop (Z.to_nat (total - num)) rowids)))
    as Hsub by (unfold zsub; by rewrite decide_True by lia).
  rewrite Hsub. cbn [mbind option_bind].
  set (src := take (Z.to_nat n) (drop (Z.to_nat (total - num)) rowids)).
  assert (zlen src = n) as Hsrc.
  { unfold src, zlen in *. rewrite length_take, length_drop. lia. }
  rewrite zcopy_prefix by (rewrite Hsrc; apply Hn2).
  cbn [mbind option_bind]. rewrite link_tail_tight by done. cbn [mbind option_bind].
  set (nd := Node (src ++ drop (length src) (rowid_array new_node)) None).
  assert (node_wf nd) as Hnd.
  { split; [|by intros]. unfold nd, new_node; cbn [rowid_array]. rewrite length_app, length_drop, length_replicate.
    unfold zlen, BLK, ROWID_ARRAY_SIZE in *. lia. }
  destruct (tight_extend l nd n) as [Ht' He']; [done|done|by apply Hm|lia|lia|].
  edestruct (IH _ (num - n) Ht') as (l' & Hrun & Ht'' & He'');
    [lia|lia|cbn [rowid_num]..|].
  { intros. rewrite u32_small by lia. rewrite Hn3 by lia.
    specialize (Hm Hne). unfold ROWID_ARRAY_SIZE in *. zdiv. }
  { rewrite u32_small; lia. }
  exists l'. split; [done|]. split; [done|]. rewrite He'', He'. rewrite <- app_assoc. f_equal.
  unfold nd; cbn [rowid_array]. rewrite take_app_le by (unfold zlen in *; lia).
  rewrite (take_ge src) by (unfold zlen in *; lia). unfold src.
  replace (Z.to_nat (total - (num - n))) with (Z.to_nat (total - num) + Z.to_nat n)%nat by lia.
  rewrite <- drop_drop, take_take_drop. f_equal. lia.
Qed.

Lemma rowid_list_batch_add_spec l rowids num :
  list_tight l → rowid_num l `mod` ROWID_ARRAY_SIZE = 0 → 0 ≤ num ≤ zlen rowids →
  rowid_num l + num < 2 ^ 32 →
  ∃ l', rowid_list_batch_add (Ptr l) rowids num = Some (Ptr l') ∧ list_tight l' ∧
    elems l' = elems l ++ take (Z.to_nat num) rowids.
Proof.
  intros Ht Hm Hn Hmax. unfold rowid_list_batch_add.
  destruct (batch_add_loop_spec (Z.to_nat num) l rowids num num) as (l' & -> & Ht' & He);
    [done|lia|lia|done|lia|].
  exists l'. split; [done|]. split; [done|]. rewrite He. by rewrite Z.sub_diag.
Qed.

(** The reference iteration over a plain sequence. *)
Section each.
Context {U : Type} (func : Z → U → Z * U) (now : nat → Z) (deadline_time : Z).

Fixpoint each_seq (xs : list Z) (i : Z) (tick : nat) (u : U) : Z * U :=
  match xs with
  | [] => (MILE_RETURN_SUCCESS, u)
  | x :: xs =>
      let '(rc, u) := func x u in
      if rc <? 0 then (rc, u)
      else if (i + 1) `mod` 100 =? 0 then
        if now tick >? u64 deadline_time then (ERROR_TIMEOUT, u)
        else each_seq xs (i + 1) (S tick) u
      else each_seq xs (i + 1) tick u
  end.

Lemma for_each_loop_seq fuel l i tick u :
  list_wf l → 0 ≤ i → rowid_num l = i + Z.of_nat fuel →
  for_each_loop func now deadline_time fuel l (at_block i) i tick u =
  Some (each_seq (drop (Z.to_nat i) (elems l)) i tick u).
Proof.
  intros Hw. pose proof (zlen_elems _ Hw) as Hlen.
  revert i tick u. induction fuel as [|fuel IH]; intros i tick u Hi Hn.
  - rewrite drop_ge by (unfold zlen in *; lia). done.
  - cbn [for_each_loop]. rewrite (proj2 (Z.ltb_lt _ _)) by lia.
    rewrite node_rowid_elems by (done || lia).
    destruct (zget_lt (elems l) i) as [x Hx]; [lia|]. rewrite Hx. cbn [mbind option_bind].
    rewrite zget_lookup in Hx by done. rewrite (drop_S _ x) by done. cbn [each_seq].
    rewrite advance_block by done. destruct (func x u) as [rc u'].
    replace (S (Z.to_nat i)) with (Z.to_nat (i + 1)) by lia.
    destruct (rc <? 0); [done|]. destruct (_ =? 0); [|by apply IH; lia].
    destruct (_ >? _); [done|]. by apply IH; lia.
Qed.
End each.

Lemma each_seq_total {U} (step : Z → U → U) now deadline xs i tick u :
  (∀ n, now n ≤ u64 deadline) →
  each_seq (λ x u, (0, step x u)) now deadline xs i tick u =
  (MILE_RETURN_SUCCESS, foldl (λ u x, step x u) u xs).
Proof.
  intros Hnow. revert i tick u. induction xs as [|x xs IH]; intros i tick u; [done|].
  cbn [each_seq]. change (0 <? 0) with false. cbv iota. destruct (_ =? 0); [|apply IH].
  rewrite Z.gtb_ltb, (proj2 (Z.ltb_ge _ (now tick))) by apply Hnow. apply IH.
Qed.

(** Appending ids one by one, as the index queries do. *)
Fixpoint add_all (l : ptr rowid_list) (xs : list Z) : option (ptr rowid_list) :=
  match xs with
  | [] => Some l
  | x :: xs => l' ← rowid_list_add l x; add_all l' xs
  end.

Lemma add_all_spec l xs :
  list_tight l → rowid_num l + zlen xs < 2 ^ 32 →
  ∃ l', add_all (Ptr l) xs = Some (Ptr l') ∧ list_tight l' ∧ elems l' = elems l ++ xs.
Proof.
  revert l. induction xs as [|x xs IH]; intros l Ht Hmax; cbn [add_all].
  - exists l. by rewrite app_nil_r.
  - unfold zlen in Hmax. simpl in Hmax.
    destruct (rowid_list_add_spec l x) as (l1 & H1 & Ht1 & He1); [done|lia|].
    assert (rowid_num l1 = rowid_num l + 1) as Hn1.
    { rewrite <- (zlen_elems l1), <- (zlen_elems l), He1 by apply lt_wf, Ht || apply lt_wf, Ht1.
      rewrite zlen_app. done. }
    rewrite H1. cbn [mbind option_bind].
    destruct (IH l1) as (l2 & -> & Ht2 & He2); [done|unfold zlen; lia|].
    exists l2. split; [done|]. split; [done|]. by rewrite He2, He1, <- app_assoc.
Qed.

(** A list built by any sequence of [rowid_list_add] calls followed by an
    iteration with [rowid_list_for_each] (the clock not past the deadline)
    calls the callback on exactly the added ids, in order, once each, and
    returns success; no step reads or writes outside a node. *)
Theorem add_then_for_each {U} (step : Z → U → U) now deadline xs (u : U) :
  zlen xs < 2 ^ 32 → (∀ n, now n ≤ u64 deadline) →
  ∃ l, add_all (Ptr rowid_list_init) xs = Some l ∧
    rowid_list_for_each (λ x u, (0, step x u)) now deadline l u =
    Some (MILE_RETURN_SUCCESS, foldl (λ u x, step x u) u xs).
Proof.
  intros Hmax Hnow. destruct rowid_list_init_tight as [Ht He].
  destruct (add_all_spec rowid_list_init xs) as (l & Hl & Htl & Hel); [done|simpl; lia|].
  exists (Ptr l). split; [done|]. unfold rowid_list_for_each.
  pose proof (lw_num _ (lt_wf _ Htl)).
  change 0%nat with (at_block 0) at 1.
  rewrite for_each_loop_seq by (apply Htl || lia). simpl (Z.to_nat 0). rewrite drop_0.
  rewrite each_seq_total by done. by rewrite Hel, He.
Qed.

Lemma add_then_for_each_witness :
  ∃ l, add_all (Ptr rowid_list_init) (seqZ 5 300) = Some l ∧
    rowid_list_for_each (λ x u, (0, u + x)) (λ _, 7) 10 l 0 = Some (0, 46350).
Proof.
  destruct (add_then_for_each (λ x u, u + x) (λ _, 7) 10 (seqZ 5 300) 0) as (l & H1 & H2).
  - unfold zlen. rewrite length_seqZ. lia.
  - intros. vm_compute. discriminate.
  - exists l. split; [exact H1|]. rewrite H2. vm_compute. reflexivity.
Defined.

(** [rowid_list_for_each] stops with the callback's code at its first
    negative result and with [ERROR_TIMEOUT] when the clock has passed the
    deadline at a multiple of 100 calls; on a well-formed list it equals the
    reference iteration over the listed ids, for every callback and clock. *)
Theorem for_each_refines {U} (func : Z → U → Z * U) now deadline l u :
  list_wf l →
  rowid_list_for_each func now deadline (Ptr l) u =
  Some (each_seq func now deadline (elems l) 0 0 u).
Proof.
  intros Hw. unfold rowid_list_for_each. pose proof (lw_num _ Hw).
  change 0%nat with (at_block 0) at 1.
  rewrite for_each_loop_seq by (done || lia). simpl (Z.to_nat 0). by rewrite drop_0.
Qed.

Lemma for_each_refines_witness :
  ∃ l, rowid_list_batch_add (Ptr rowid_list_init) (seqZ 1 260) 260 = Some (Ptr l) ∧
    rowid_list_for_each (λ x u, (if x =? 150 then -5 else 0, u + 1)) (λ n, Z.of_nat n) 100 (Ptr l) 0
      = Some (-5, 150) ∧
    rowid_list_for_each (λ x u, (0, u + 1)) (λ n, 3 * Z.of_nat n) 2 (Ptr l) 0
      = Some (ERROR_TIMEOUT, 200).
Proof.
  destruct rowid_list_init_tight as [Ht _].
  destruct (rowid_list_batch_add_spec rowid_list_init (seqZ 1 260) 260)
    as (l & Hl & Htl & He); [done|done|unfold zlen; rewrite length_seqZ; lia|simpl; lia|].
  exists l. split; [exact Hl|]. split.
  - rewrite (for_each_refines _ _ _ l) by apply Htl. rewrite He. vm_compute. reflexivity.
  - rewrite (for_each_refines _ _ _ l) by apply Htl. rewrite He. vm_compute. reflexivity.
Defined.


Lemma equals_loop_block fuel la lb i :
  list_wf la → list_wf lb → rowid_num la = rowid_num lb → rowid_num la ≤ ROWID_ARRAY_SIZE →
  0 ≤ i → rowid_num la = i + Z.of_nat fuel →
  equals_loop fuel la lb i i 0 0 =
  Some (if decide (drop (Z.to_nat i) (elems la) = drop (Z.to_nat i) (elems lb))
        then Some (0%nat, 0%nat) else None).
Proof.
  intros Ha Hb Hab Hle. pose proof (zlen_elems _ Ha) as La. pose proof (zlen_elems _ Hb) as Lb.
  revert i. induction fuel as [|fuel IH]; intros i Hi Hn.
  - rewrite !drop_ge by (unfold zlen in *; lia). by rewrite decide_True.
  - cbn [equals_loop]. rewrite <- Hab, !(proj2 (Z.ltb_lt _ _)) by lia. simpl andb. cbv iota.
    assert (at_block i = 0%nat) as Hblk by (unfold at_block, ROWID_ARRAY_SIZE in *; zdiv).
    assert (∀ l, node_rowid (nodes l) 0 i = node_rowid (nodes l) (at_block i) i) as Hp
      by (intros; by rewrite Hblk).
    rewrite !Hp, !node_rowid_elems by (done || lia).
    destruct (zget_lt (elems la) i) as [x Hx]; [lia|].
    destruct (zget_lt (elems lb) i) as [y Hy]; [lia|].
    rewrite Hx, Hy. cbn [mbind option_bind]. rewrite !zget_lookup in Hx, Hy by done.
    rewrite (drop_S _ _ _ Hx), (drop_S _ _ _ Hy).
    destruct (Z.eqb_spec x y) as [->|Hne]; simpl negb; cbv iota.
    + assert ((negb (i =? 0) && (i `mod` ROWID_ARRAY_SIZE =? 0)) = false) as ->.
      { destruct (Z.eqb_spec i 0); [done|]. simpl. apply Z.eqb_neq.
        unfold ROWID_ARRAY_SIZE in *. zdiv. }
      rewrite IH by lia. replace (Z.to_nat (i + 1)) with (S (Z.to_nat i)) by lia.
      f_equal. apply decide_ext. split; [by intros ->|by intros [= ?]].
    + by rewrite decide_False by congruence.
Qed.

(** [rowid_list_equals] decides equality of the listed ids for lists that
    the append operations build and that fit one node of 256 ids. *)
Theorem equals_correct_one_node la lb :
  list_tight la → list_tight lb → rowid_num la ≤ ROWID_ARRAY_SIZE →
  rowid_list_equals (Ptr la) (Ptr lb) = Some (if decide (elems la = elems lb) then 1 else 0).
Proof.
  intros Ha Hb Hle. unfold rowid_list_equals.
  pose proof (zlen_elems _ (lt_wf _ Ha)) as La. pose proof (zlen_elems _ (lt_wf _ Hb)) as Lb.
  pose proof (lw_num _ (lt_wf _ Ha)).
  destruct (Z.eqb_spec (rowid_num la) (rowid_num lb)) as [Heq|Hne]; simpl negb; cbv iota.
  2:{ rewrite decide_False; [done|]. intros E. rewrite E in La. lia. }
  rewrite equals_loop_block by (lia || apply Ha || apply Hb). cbn [mbind option_bind].
  simpl (Z.to_nat 0). rewrite !drop_0. case_decide; [|done].
  assert (∀ l, list_tight l → rowid_num l ≤ ROWID_ARRAY_SIZE → is_tail l 0 = true) as Htl.
  { intros l [_ Hc Ht] Hl. unfold is_tail. rewrite Ht.
    destruct (nodes l) as [|n0 ns] eqn:E; [done|].
    assert (length ns = 0%nat) as Hlen0 by (unfold zlen, ROWID_ARRAY_SIZE in *; simpl in *; lia).
    apply bool_decide_true. simpl. lia. }
  rewrite !Htl by (done || lia). done.
Qed.

Lemma equals_correct_one_node_witness :
  ∃ la lb, add_all (Ptr rowid_list_init) [3; 2; 1] = Some (Ptr la) ∧
    add_all (Ptr rowid_list_init) [3; 2; 0] = Some (Ptr lb) ∧
    rowid_list_equals (Ptr la) (Ptr lb) = Some 0 ∧ rowid_list_equals (Ptr la) (Ptr la) = Some 1.
Proof.
  destruct rowid_list_init_tight as [Ht _].
  destruct (add_all_spec rowid_list_init [3; 2; 1]) as (la & Hla & Hta & Hea); [done|done|].
  destruct (add_all_spec rowid_list_init [3; 2; 0]) as (lb & Hlb & Htb & Heb); [done|done|].
  assert (rowid_num la = 3) as Hn.
  { rewrite <- (zlen_elems la), Hea by apply Hta. done. }
  exists la, lb. split; [exact Hla|]. split; [exact Hlb|]. split.
  - rewrite (equals_correct_one_node la lb) by (done || by rewrite Hn). by rewrite Hea, Heb.
  - rewrite (equals_correct_one_node la la) by (done || by rewrite Hn). by rewrite decide_True.
Defined.

(** Beyond one node the comparison is wrong: the node pointer moves on one
    id too late, so id number 256 is read from the first node and two lists of
    257 ids that differ in their last id are reported equal. *)
Theorem equals_misses_second_node :
  ∃ la lb, add_all (Ptr rowid_list_init) (seqZ 1 257) = Some (Ptr la) ∧
    add_all (Ptr rowid_list_init) (seqZ 1 256 ++ [999]) = Some (Ptr lb) ∧
    elems la ≠ elems lb ∧ rowid_list_equals (Ptr la) (Ptr lb) = Some 1.
Proof.
  eexists _, _. split; [vm_compute; reflexivity|]. split; [vm_compute; reflexivity|].
  split; [|vm_compute; reflexivity].
  intros H. apply (f_equal (λ l, l !! 256%nat)) in H. vm_compute in H. discriminate H.
Qed.

(** ** Sorting a list of row ids ([src/storage/docdb/rowid_list.c])

    [rowid_qsort] over the array of the nodes of a list.  The fuel is the number of
    ids for each loop and for the recursion. *)


Module RowidSort.
(** ** The code *)

Definition rowid_get (ns : list rowid_list_node) (num : Z) : option Z :=
  nd ← ns⟦Z.quot num ROWID_ARRAY_SIZE⟧; (rowid_array nd)⟦Z.rem num ROWID_ARRAY_SIZE⟧.

Definition rowid_set (ns : list rowid_list_node) (i key : Z) : option (list rowid_list_node) :=
  nd ← ns⟦Z.quot i ROWID_ARRAY_SIZE⟧;
  a ← (rowid_array nd)⟦Z.rem i ROWID_ARRAY_SIZE := key⟧;
  ns⟦Z.quot i ROWID_ARRAY_SIZE := Node a (score_array nd)⟧.

(** [while (left < right && rowid_get(rowid_array, right) <= key) right--;] *)
Fixpoint scan_right (fuel : nat) (ns : list rowid_list_node) (left right key : Z) : option Z :=
  match fuel with
  | O => None
  | S fuel =>
      if left <? right then
        x ← rowid_get ns right;
        if x <=? key then scan_right fuel ns left (s32 (right - 1)) key else Some right
      else Some right
  end.

Fixpoint scan_left (fuel : nat) (ns : list rowid_list_node) (left right key : Z) : option Z :=
  match fuel with
  | O => None
  | S fuel =>
      if left <? right then
        x ← rowid_get ns left;
        if x >=? key then scan_left fuel ns (s32 (left + 1)) right key else Some left
      else Some left
  end.

(** The body of the outer loop: the cells, [left] and [right]. *)
Definition turn (ns : list rowid_list_node) (left right key : Z) : option (list rowid_list_node * Z * Z) :=
  right ← scan_right (S (Z.to_nat (right - left))) ns left right key;
  x ← rowid_get ns right;
  ns ← rowid_set ns left x;
  left ← scan_left (S (Z.to_nat (right - left))) ns left right key;
  x ← rowid_get ns left;
  ns ← rowid_set ns right x;
  Some (ns, left, right).

(** The outer loop and the store behind it. *)
Fixpoint partition (fuel : nat) (ns : list rowid_list_node) (left right key : Z) : option (list rowid_list_node * Z) :=
  match fuel with
  | O => None
  | S fuel =>
      if left <? right then
        '(ns, l, r) ← turn ns left right key;
        partition fuel ns l r key
      else ns ← rowid_set ns right key; Some (ns, right)
  end.

(** The pivot is read before the bounds are compared.  [start], [end], [left] and
    [right] are C ints: their steps wrap at 32 bits. *)
Fixpoint rowid_qsort (fuel : nat) (ns : list rowid_list_node) (start end_ : Z) : option (list rowid_list_node) :=
  match fuel with
  | O => None
  | S fuel =>
      key ← rowid_get ns start;
      if start >=? end_ then Some ns
      else
        '(ns, pivot) ← partition (S (Z.to_nat (end_ - start))) ns start end_ key;
        ns ← rowid_qsort fuel ns start (s32 (pivot - 1));
        rowid_qsort fuel ns (s32 (pivot + 1)) end_
  end.

(** ** Cells *)

Definition nodes_ok (ns : list rowid_list_node) (l : list Z) : Prop := Forall node_wf ns ∧ flat ns = l.

Lemma quot_rem i : 0 ≤ i → Z.quot i ROWID_ARRAY_SIZE = i / ROWID_ARRAY_SIZE ∧ Z.rem i ROWID_ARRAY_SIZE = i `mod` ROWID_ARRAY_SIZE.
Proof. intros. split; [by apply Z.quot_div_nonneg|by apply Z.rem_mod_nonneg]. Qed.

Lemma get_flat ns i : Forall node_wf ns → 0 ≤ i → rowid_get ns i = (flat ns)⟦i⟧.
Proof.
  intros H Hi. rewrite <- node_rowid_flat by done. unfold rowid_get, node_rowid, at_block.
  destruct (quot_rem i Hi) as [-> ->]. rewrite (zget_lookup ns); [done|]. unfold ROWID_ARRAY_SIZE. zdiv.
Qed.

Lemma get_mid ns a x b i : nodes_ok ns (a ++ x :: b) → i = zlen a → rowid_get ns i = Some x.
Proof.
  intros [Hw E] ->. rewrite get_flat by (done || apply zlen_nonneg). rewrite E. by apply zget_mid.
Qed.

Lemma set_mid ns a x b i v :
  nodes_ok ns (a ++ x :: b) → i = zlen a → ∃ ns', rowid_set ns i v = Some ns' ∧ nodes_ok ns' (a ++ v :: b).
Proof.
  intros [Hw E] ->. pose proof (zlen_nonneg a) as Hi. unfold rowid_set. destruct (quot_rem _ Hi) as [-> ->].
  assert (0 ≤ zlen a / ROWID_ARRAY_SIZE) as Hq by (unfold ROWID_ARRAY_SIZE; zdiv).
  assert (zlen a < zlen (flat ns)) as Hlt by (rewrite E, zlen_app; unfold zlen; simpl; lia).
  rewrite zlen_flat in Hlt by done.
  destruct (zget_lt ns (zlen a / ROWID_ARRAY_SIZE)) as [nd Hnd]; [unfold ROWID_ARRAY_SIZE in *; zdiv|].
  rewrite Hnd. cbn [mbind option_bind]. pose proof Hnd as Hnd'. rewrite zget_lookup in Hnd' by done.
  pose proof (proj1 (Forall_lookup _ _) Hw _ _ Hnd') as [Hlen Hsc].
  rewrite zset_in by (unfold zlen, BLK in *; rewrite Hlen; unfold ROWID_ARRAY_SIZE; zdiv). cbn [mbind option_bind].
  rewrite zset_in by (eapply zget_Some_range; exact Hnd). eexists. split; [done|]. split.
  - apply Forall_insert; [done|]. split; [cbn [rowid_array]; by rewrite length_insert|done].
  - fold (at_block (zlen a)). rewrite (elems_set_cell ns (zlen a) v nd) by done. rewrite E.
    unfold zlen. rewrite Nat2Z.id. by rewrite insert_app_r_alt, Nat.sub_diag by lia.
Qed.

(** ** Scans *)

Lemma scan_right_spec fuel ns a h mid b key :
  nodes_ok ns (a ++ h :: mid ++ b) → zlen a + zlen mid < 2 ^ 31 → (length mid < fuel)%nat →
  ∃ mid' bs, scan_right fuel ns (zlen a) (zlen a + zlen mid) key = Some (zlen a + zlen mid') ∧ mid = mid' ++ bs ∧
    Forall (λ x, x ≤ key) bs ∧ (mid' = [] ∨ ∃ m x, mid' = m ++ [x] ∧ key < x).
Proof.
  revert b fuel. induction mid as [|x mid IH] using rev_ind; intros b fuel Hns Hmax Hf; pose proof (zlen_nonneg a); destruct fuel as [|fuel]; [lia| |lia|].
  { exists [], []. cbn [scan_right]. change (zlen []) with 0. rewrite Z.add_0_r, Z.ltb_irrefl. split_and!; try done. by left. }
  rewrite length_app in Hf. simpl in Hf. pose proof (zlen_nonneg mid). cbn [scan_right]. rewrite zlen_app in Hmax |- *. change (zlen [x]) with 1 in *.
  rewrite (proj2 (Z.ltb_lt _ _)) by lia. rewrite <- (app_assoc mid) in Hns. cbn [app] in Hns.
  assert (rowid_get ns (zlen a + (zlen mid + 1)) = Some x) as ->.
  { apply (get_mid ns (a ++ h :: mid) x b); [by rewrite <- app_assoc|]. rewrite zlen_app, zlen_cons. lia. }
  cbn [mbind option_bind]. destruct (Z.leb_spec x key) as [Hx|Hx].
  - destruct (IH (x :: b) fuel Hns) as (mid' & bs & E & Em & Hbs & Hend); [lia..|].
    exists mid', (bs ++ [x]). replace (zlen a + (zlen mid + 1) - 1) with (zlen a + zlen mid) by lia. rewrite s32_small by lia. split; [done|].
    split; [by rewrite app_assoc, Em|]. split; [|done]. apply Forall_app. by split; [|constructor].
  - exists (mid ++ [x]), []. rewrite zlen_app. split; [done|]. split; [by rewrite app_nil_r|]. split; [done|]. right. by exists mid, x.
Qed.

Lemma scan_left_spec fuel ns a mid h b key :
  nodes_ok ns (a ++ mid ++ h :: b) → zlen a + zlen mid < 2 ^ 31 → (length mid < fuel)%nat →
  ∃ xs mid', scan_left fuel ns (zlen a) (zlen a + zlen mid) key = Some (zlen a + zlen xs) ∧ mid = xs ++ mid' ∧
    Forall (λ x, key ≤ x) xs ∧ (mid' = [] ∨ ∃ y m, mid' = y :: m ∧ y < key).
Proof.
  revert a fuel. induction mid as [|x mid IH]; intros a fuel Hns Hmax Hf; pose proof (zlen_nonneg a); destruct fuel as [|fuel]; [simpl in Hf; lia| |simpl in Hf; lia|].
  { exists [], []. cbn [scan_left]. change (zlen []) with 0. rewrite Z.add_0_r, Z.ltb_irrefl. split_and!; try done. by left. }
  simpl in Hf. pose proof (zlen_nonneg mid). cbn [scan_left]. rewrite zlen_cons in Hmax |- *. rewrite (proj2 (Z.ltb_lt _ _)) by lia.
  rewrite (get_mid ns a x (mid ++ h :: b)) by done. cbn [mbind option_bind]. rewrite Z.geb_leb. destruct (Z.leb_spec key x) as [Hx|Hx].
  - rewrite s32_small by lia. destruct (IH (a ++ [x]) fuel) as (xs & mid' & E & Em & Hxs & Hend);
      [by rewrite <- app_assoc|rewrite zlen_app; change (zlen [x]) with 1; lia|lia|].
    exists (x :: xs), mid'. rewrite zlen_app in E. change (zlen [x]) with 1 in E. rewrite zlen_cons.
    replace (zlen a + (1 + zlen mid)) with (zlen a + 1 + zlen mid) by lia. rewrite E. split; [f_equal; lia|].
    split; [by rewrite Em|]. split; [by constructor|done].
  - exists [], (x :: mid). change (zlen []) with 0. rewrite Z.add_0_r. split_and!; try done. right. by exists x, mid.
Qed.

(** ** Partition *)

Ltac assoc H := repeat rewrite <- app_assoc in H; repeat rewrite <- app_assoc; cbn [app] in *; exact H.
Ltac lens := repeat first [rewrite zlen_app | rewrite zlen_cons]; change (zlen (@nil Z)) with 0; lia.

(** The hole is at [left]; it moves to the right and back. *)
Lemma turn_spec ns a h mid b key :
  nodes_ok ns (a ++ h :: mid ++ b) → zlen a + zlen mid < 2 ^ 31 → mid ≠ [] →
  ∃ ns' xs h' mid' ys, turn ns (zlen a) (zlen a + zlen mid) key = Some (ns', zlen a + zlen xs, zlen a + zlen xs + zlen mid') ∧
    nodes_ok ns' ((a ++ xs) ++ h' :: mid' ++ ys ++ b) ∧ Forall (λ x, key ≤ x) xs ∧ Forall (λ x, x ≤ key) ys ∧
    xs ++ mid' ++ ys ≡ₚ mid ∧ (length mid' < length mid)%nat.
Proof.
  intros Hns Hmax Hne. unfold turn. replace (zlen a + zlen mid - zlen a) with (zlen mid) by lia.
  destruct (scan_right_spec (S (Z.to_nat (zlen mid))) ns a h mid b key Hns Hmax) as (mid' & ys & -> & -> & Hys & Hend); [unfold zlen; lia|].
  cbn [mbind option_bind]. rewrite <- app_assoc in Hns. destruct Hend as [->|(m & x & -> & Hx)].
  - (* everything is small: the hole meets the end *)
    change (zlen []) with 0. rewrite Z.add_0_r. cbn [app] in *. rewrite (get_mid ns a h (ys ++ b)) by done. cbn [mbind option_bind].
    destruct (set_mid ns a h (ys ++ b) (zlen a) h Hns eq_refl) as (ns1 & -> & Hns1). cbn [mbind option_bind].
    cbn [scan_left]. rewrite Z.ltb_irrefl. cbn [mbind option_bind]. rewrite (get_mid ns1 a h (ys ++ b)) by done. cbn [mbind option_bind].
    destruct (set_mid ns1 a h (ys ++ b) (zlen a) h Hns1 eq_refl) as (ns2 & -> & Hns2). cbn [mbind option_bind].
    exists ns2, [], h, [], ys. change (zlen []) with 0. rewrite !Z.add_0_r, app_nil_r. split_and!; try done.
    destruct ys; [done|simpl; lia].
  - (* [x] goes to the left, the hole is at its place *)
    rewrite <- app_assoc in Hns. cbn [app] in Hns.
    rewrite (get_mid ns (a ++ h :: m) x (ys ++ b)) by (by rewrite <- app_assoc || lens). cbn [mbind option_bind].
    destruct (set_mid ns a h (m ++ x :: ys ++ b) (zlen a) x Hns eq_refl) as (ns1 & -> & Hns1). cbn [mbind option_bind].
    replace (zlen a + zlen (m ++ [x])) with (zlen a + zlen (x :: m)) by lens.
    replace (zlen a + zlen (x :: m) - zlen a) with (zlen (x :: m)) by lia.
    assert (zlen a + zlen (x :: m) < 2 ^ 31) as Hmax'
      by (rewrite zlen_app, (zlen_app m) in Hmax; change (zlen [x]) with 1 in Hmax; rewrite zlen_cons; pose proof (zlen_nonneg ys); lia).
    destruct (scan_left_spec (S (Z.to_nat (zlen (x :: m)))) ns1 a (x :: m) x (ys ++ b) key Hns1 Hmax') as (xs & mid2 & -> & Em & Hxs & Hend);
      [unfold zlen; lia|]. cbn [mbind option_bind]. change (x :: m ++ x :: ys ++ b) with ((x :: m) ++ x :: ys ++ b) in Hns1. rewrite Em in Hns1 |- *. clear Hns.
    assert (m ++ [x] ≡ₚ xs ++ mid2) as Hperm by (rewrite <- Em; by rewrite <- Permutation_cons_append).
    destruct Hend as [->|(y & m2 & -> & Hy)].
    + rewrite app_nil_r in *. rewrite app_assoc in Hns1.
      rewrite (get_mid ns1 (a ++ xs) x (ys ++ b)) by (done || lens). cbn [mbind option_bind].
      destruct (set_mid ns1 (a ++ xs) x (ys ++ b) (zlen a + zlen xs) x Hns1) as (ns2 & -> & Hns2); [lens|].
      cbn [mbind option_bind]. exists ns2, xs, x, [], ys. change (zlen []) with 0. rewrite Z.add_0_r. split_and!; try done.
      * by rewrite Hperm.
      * rewrite !length_app. simpl. lia.
    + assert (nodes_ok ns1 ((a ++ xs) ++ y :: m2 ++ x :: ys ++ b)) as H1 by (assoc Hns1).
      rewrite (get_mid ns1 (a ++ xs) y (m2 ++ x :: ys ++ b)) by (done || lens). cbn [mbind option_bind].
      destruct (set_mid ns1 ((a ++ xs) ++ y :: m2) x (ys ++ b) (zlen a + zlen (xs ++ y :: m2)) y) as (ns2 & -> & Hns2);
        [by rewrite <- app_assoc|lens|].
      cbn [mbind option_bind]. exists ns2, xs, y, (m2 ++ [y]), ys. split; [do 2 f_equal; lens|].
      split; [assoc Hns2|]. do 2 (split; [done|]). split.
      * rewrite (app_assoc xs), <- (Permutation_cons_append m2 y). by rewrite <- Hperm.
      * destruct xs as [|x' xs]; [injection Em as <- _; lia|]. apply Permutation_length in Hperm.
        rewrite !length_app in Hperm. rewrite !length_app. simpl in *. lia.
Qed.

Lemma partition_spec fuel ns a h mid b key :
  nodes_ok ns (a ++ h :: mid ++ b) → zlen a + zlen mid < 2 ^ 31 → (length mid < fuel)%nat →
  ∃ ns' xs ys, partition fuel ns (zlen a) (zlen a + zlen mid) key = Some (ns', zlen a + zlen xs) ∧
    nodes_ok ns' (a ++ xs ++ key :: ys ++ b) ∧ Forall (λ x, key ≤ x) xs ∧ Forall (λ x, x ≤ key) ys ∧ xs ++ ys ≡ₚ mid.
Proof.
  revert ns a h mid b. induction fuel as [|fuel IH]; intros ns a h mid b Hns Hmax Hf; [lia|]. cbn [partition].
  destruct (decide (mid = [])) as [->|Hne].
  { change (zlen []) with 0. rewrite Z.add_0_r, Z.ltb_irrefl.
    destruct (set_mid ns a h b (zlen a) key Hns eq_refl) as (ns' & -> & Hns'). cbn [mbind option_bind].
    exists ns', [], []. change (zlen []) with 0. by rewrite Z.add_0_r. }
  assert (0 < zlen mid) as Hpos by (destruct mid; [done|rewrite zlen_cons; pose proof (zlen_nonneg mid); lia]).
  rewrite (proj2 (Z.ltb_lt _ _)) by lia.
  destruct (turn_spec ns a h mid b key Hns Hmax Hne) as (ns1 & xs & h' & mid' & ys & -> & Hns1 & Hxs & Hys & Hperm & Hlen). cbn [mbind option_bind].
  assert (zlen (a ++ xs) + zlen mid' < 2 ^ 31) as Hmax'.
  { apply Permutation_length in Hperm. rewrite !length_app in Hperm. unfold zlen in *. rewrite length_app. lia. }
  destruct (IH ns1 (a ++ xs) h' mid' (ys ++ b) Hns1 Hmax') as (ns' & xs' & ys' & E & Hns' & Hxs' & Hys' & Hperm'); [lia|].
  rewrite zlen_app in E. rewrite E. exists ns', (xs ++ xs'), (ys' ++ ys). split; [do 2 f_equal; lens|].
  split; [assoc Hns'|]. split; [by apply Forall_app|]. split; [by apply Forall_app|].
  rewrite <- Hperm, <- Hperm'. by rewrite <- !app_assoc.
Qed.

(** ** Sorting *)

Lemma qsort_spec fuel ns a seg b :
  nodes_ok ns (a ++ seg ++ b) → zlen a + zlen seg < 2 ^ 31 → b ≠ [] → (length seg < fuel)%nat →
  ∃ ns' seg', rowid_qsort fuel ns (zlen a) (zlen a + zlen seg - 1) = Some ns' ∧ nodes_ok ns' (a ++ seg' ++ b) ∧
    seg' ≡ₚ seg ∧ StronglySorted (λ x y, y ≤ x) seg'.
Proof.
  revert ns a seg b. induction fuel as [|fuel IH]; intros ns a seg b Hns Hmax Hb Hf; [lia|]. cbn [rowid_qsort].
  destruct seg as [|key mid].
  { destruct b as [|x b]; [done|]. cbn [app] in Hns. rewrite (get_mid ns a x b) by done. cbn [mbind option_bind].
    change (zlen []) with 0. rewrite Z.geb_leb, (proj2 (Z.leb_le _ _)) by lia. exists ns, []. split_and!; try done. constructor. }
  rewrite zlen_cons in Hmax. pose proof (zlen_nonneg a).
  cbn [app] in Hns. rewrite (get_mid ns a key (mid ++ b)) by done. cbn [mbind option_bind]. rewrite zlen_cons, Z.geb_leb.
  replace (zlen a + (1 + zlen mid) - 1) with (zlen a + zlen mid) by lia. destruct (decide (mid = [])) as [->|Hne].
  { change (zlen []) with 0. rewrite (proj2 (Z.leb_le _ _)) by lia. exists ns, [key]. split_and!; try done. repeat constructor. }
  assert (0 < zlen mid) as Hpos by (destruct mid; [done|rewrite zlen_cons; pose proof (zlen_nonneg mid); lia]).
  rewrite (proj2 (Z.leb_gt _ _)) by lia. replace (zlen a + zlen mid - zlen a) with (zlen mid) by lia. simpl in Hf.
  destruct (partition_spec (S (Z.to_nat (zlen mid))) ns a key mid b key Hns) as (ns1 & xs & ys & -> & Hns1 & Hxs & Hys & Hperm);
    [lia|unfold zlen; lia|]. cbn [mbind option_bind]. pose proof (Permutation_length Hperm) as Hlen. rewrite length_app in Hlen.
  assert (zlen xs + zlen ys = zlen mid) as Hz by (unfold zlen; lia). pose proof (zlen_nonneg xs). pose proof (zlen_nonneg ys).
  rewrite !s32_small by lia.
  destruct (IH ns1 a xs (key :: ys ++ b)) as (ns2 & xs' & -> & Hns2 & Hpx & Hsx); [done|lia|done|lia|]. cbn [mbind option_bind].
  pose proof (Permutation_length Hpx) as Hlx.
  assert (zlen (a ++ xs' ++ [key]) = zlen a + zlen xs + 1) as Ea by (revert Hlx; unfold zlen; rewrite !length_app; simpl; lia).
  destruct (IH ns2 (a ++ xs' ++ [key]) ys b) as (ns3 & ys' & E & Hns3 & Hpy & Hsy); [by rewrite <- !app_assoc|lia|done|lia|].
  rewrite Ea in E.
  replace (zlen a + zlen xs + 1 + zlen ys - 1) with (zlen a + zlen mid) in E by (unfold zlen; lia). rewrite E.
  exists ns3, (xs' ++ key :: ys'). split; [done|]. split; [assoc Hns3|]. split.
  - rewrite <- Permutation_middle, Hpx, Hpy. by rewrite Hperm.
  - rewrite <- Hpx in Hxs. rewrite <- Hpy in Hys. apply StronglySorted_app_2; [|done|by constructor].
    intros x1 x2 Hi1 Hi2. pose proof (proj1 (Forall_forall _ _) Hxs x1 Hi1) as Hk. apply elem_of_cons in Hi2 as [->|Hi2]; [exact Hk|].
    pose proof (proj1 (Forall_forall _ _) Hys x2 Hi2) as Hk2. cbv beta in *. lia.
Qed.

(** C21: sorting a list of row ids ends and sorts.  With a free cell behind the ids,
    of which there are less than 2^31 since the bounds are C ints, [rowid_qsort] over
    the nodes of a list ends within as many turns as there are ids, without leaving
    the nodes and without a bound that wraps, and leaves the same ids in descending
    order. *)
Theorem rowid_qsort_sorts (l : rowid_list) :
  list_wf l → rowid_num l < ROWID_ARRAY_SIZE * zlen (nodes l) → rowid_num l < 2 ^ 31 →
  ∃ ns', rowid_qsort (S (Z.to_nat (rowid_num l))) (nodes l) 0 (rowid_num l - 1) = Some ns' ∧
    let l' := RowidList (rowid_num l) ns' (tail l) in
    list_wf l' ∧ elems l' ≡ₚ elems l ∧ StronglySorted (λ x y, y ≤ x) (elems l').
Proof.
  intros Hwf Hroom Hmax. pose proof Hwf as [Hnum Hnodes _]. pose proof (zlen_flat _ Hnodes) as Hfl. pose proof (zlen_elems l Hwf) as He.
  set (b := drop (Z.to_nat (rowid_num l)) (flat (nodes l))).
  assert (flat (nodes l) = elems l ++ b) as Efl by (symmetry; apply take_drop).
  assert (b ≠ []) as Hb. { intros Eb. rewrite Eb, app_nil_r in Efl. rewrite Efl in Hfl. lia. }
  destruct (qsort_spec (S (Z.to_nat (rowid_num l))) (nodes l) [] (elems l) b) as (ns' & seg' & E & [Hw' Hf'] & Hperm & Hsort);
    [by split|change (zlen []) with 0; lia|done|unfold zlen in He; lia|].
  change (zlen []) with 0 in E. rewrite Z.add_0_l, He in E. exists ns'. split; [exact E|].
  pose proof (Permutation_length Hperm) as Hlen. cbn [app] in Hf'.
  assert (elems (RowidList (rowid_num l) ns' (tail l)) = seg') as Eel.
  { unfold elems. cbn [rowid_num nodes]. rewrite Hf'. apply take_app_length'. unfold zlen in He. lia. }
  cbv zeta. rewrite Eel. split; [|by split]. split; [done|done|]. cbn [rowid_num nodes].
  pose proof (zlen_flat _ Hw') as Hfl'. rewrite Hf', zlen_app in Hfl'. pose proof (zlen_nonneg b). unfold zlen in *. lia.
Qed.

(** The ids from 1 on, in one node of zeroes. *)
Definition ascending (n : nat) : rowid_list :=
  RowidList (Z.of_nat n) [Node (seqZ 1 (Z.of_nat n) ++ replicate (BLK - n) 0) None] (Some 0%nat).

Lemma rowid_qsort_sorts_witness :
  ∃ ns', rowid_qsort 256 (nodes (ascending 255)) 0 254 = Some ns' ∧
    elems (RowidList 255 ns' (Some 0%nat)) ≡ₚ elems (ascending 255).
Proof.
  destruct (rowid_qsort_sorts (ascending 255)) as (ns' & E & _ & Hp & _).
  - split; [done| |done]. repeat constructor. by intros s [=].
  - reflexivity.
  - reflexivity.
  - exists ns'. split; [exact E|exact Hp].
Defined.

(** A full list is not sorted safely: the pivot of an empty part behind the last id is
    read before the bounds are compared, from behind the array. *)
Theorem rowid_qsort_reads_behind : rowid_qsort 300 (nodes (ascending 256)) 0 255 = None.
Proof. vm_compute. reflexivity. Qed.
End RowidSort.
