(* ===== verification/SetOperator.v ===== *)
(** * Set operations on row id lists ([src/storage/docdb/set_operator.c])

    Union, intersection and difference of two descending row id lists, node by
    node as the C loops walk them, and their lifting to the per-segment result
    lists.  Union and intersection write a fresh chain: its finished nodes and
    the node [r] being filled.  The difference and [rowid_fulltext_hence] write
    into the nodes of [lista] while reading them. *)

From Stdlib Require Import ZArith Lia SpecFloat Sorted.
From stdpp Require Import base option list numbers sets gmap.
From S2P Require Import Prelude RowidList.

(** [p->rowid_array[i % SIZE]] with its score, if the node has scores *)
Definition fetch (ns : list rowid_list_node) (p : nat) (i : Z) : option (Z * option double) :=
  nd ← ns !! p;
  v ← (rowid_array nd)⟦i `mod` ROWID_ARRAY_SIZE⟧;
  match score_array nd with
  | None => Some (v, None)
  | Some s => x ← s⟦i `mod` ROWID_ARRAY_SIZE⟧; Some (v, Some x)
  end.

(** Write cell [k] of node [r]; when the source has a score, [r]'s score array
    is allocated (zeroed) on first use and its cell updated. *)
Definition emit (r : rowid_list_node) (k v : Z) (upd : option (double → double))
    : option rowid_list_node :=
  a ← (rowid_array r)⟦k `mod` ROWID_ARRAY_SIZE := v⟧;
  match upd with
  | None => Some (Node a (score_array r))
  | Some f =>
      let s := default (replicate BLK d0) (score_array r) in
      x ← s⟦k `mod` ROWID_ARRAY_SIZE⟧;
      s ← s⟦k `mod` ROWID_ARRAY_SIZE := f x⟧;
      Some (Node a (Some s))
  end.

(** [r->score_array[k] = p->score_array[i]] *)
Definition copy_score (sx : option double) : option (double → double) :=
  (λ s _, s) <$> sx.

(** [r->score_array[k] += p->score_array[i]], then the same with [q] *)
Definition add_scores (sx sy : option double) : option (double → double) :=
  match sx, sy with
  | None, None => None
  | Some s, None => Some (λ x, dadd x s)
  | None, Some t => Some (λ x, dadd x t)
  | Some s, Some t => Some (λ x, dadd (dadd x s) t)
  end.

(** The loop variables of union and intersection: element numbers [i], [j],
    [k], node pointers [p], [q], and the result chain. *)
Record merge_state := MergeState {
  mi : Z; mj : Z; mk : Z;
  mp : nat; mq : nat;
  mrs : list rowid_list_node;   (* finished nodes *)
  mr : rowid_list_node          (* the node [r] *)
}.

Definition merge_init : merge_state := MergeState 0 0 0 0 0 [] new_node.

(** [if (k % SIZE == 0) { r->next = new node; r = r->next; }] *)
Definition grow (k : Z) (rs : list rowid_list_node) (r : rowid_list_node)
    : list rowid_list_node * rowid_list_node :=
  if k `mod` ROWID_ARRAY_SIZE =? 0 then (rs ++ [r], new_node) else (rs, r).

Definition union_step (la lb : rowid_list) (st : merge_state) : option merge_state :=
  let '(MergeState i j k p q rs r) := st in
  '(x, sx) ← fetch (nodes la) p i;
  '(y, sy) ← fetch (nodes lb) q j;
  if x >? y then
    r ← emit r k x (copy_score sx);
    let i := i + 1 in let k := u32 (k + 1) in
    let p := advance p i in
    let '(rs, r) := grow k rs r in
    Some (MergeState i j k p q rs r)
  else if x <? y then
    r ← emit r k y (copy_score sy);
    let j := j + 1 in let k := u32 (k + 1) in
    let q := advance q j in
    let '(rs, r) := grow k rs r in
    Some (MergeState i j k p q rs r)
  else
    r ← emit r k x (add_scores sx sy);
    let i := i + 1 in let j := j + 1 in let k := u32 (k + 1) in
    let p := advance p i in let q := advance q j in
    let '(rs, r) := grow k rs r in
    Some (MergeState i j k p q rs r).

Definition intersection_step (la lb : rowid_list) (st : merge_state) : option merge_state :=
  let '(MergeState i j k p q rs r) := st in
  '(x, sx) ← fetch (nodes la) p i;
  '(y, sy) ← fetch (nodes lb) q j;
  if x >? y then
    let i := i + 1 in Some (MergeState i j k (advance p i) q rs r)
  else if x <? y then
    let j := j + 1 in Some (MergeState i j k p (advance q j) rs r)
  else
    r ← emit r k x (add_scores sx sy);
    let i := i + 1 in let j := j + 1 in let k := u32 (k + 1) in
    let p := advance p i in let q := advance q j in
    let '(rs, r) := grow k rs r in
    Some (MergeState i j k p q rs r).

(** [while (i < lista->rowid_num && j < listb->rowid_num) step]; every step
    advances [i] or [j], so [rowid_num a + rowid_num b] turns are enough. *)
Fixpoint merge_loop (step : merge_state → option merge_state) (fuel : nat)
    (la lb : rowid_list) (st : merge_state) : option merge_state :=
  match fuel with
  | O => Some st
  | S fuel =>
      if (mi st <? rowid_num la) && (mj st <? rowid_num lb)
      then st ← step st; merge_loop step fuel la lb st
      else Some st
  end.

Definition merge_fuel (la lb : rowid_list) : nat := Z.to_nat (rowid_num la + rowid_num lb).

(** [while (j < listb->rowid_num)]: the rest of one list *)
Fixpoint copy_loop (fuel : nat) (l : rowid_list) (j : Z) (q : nat) (k : Z)
    (rs : list rowid_list_node) (r : rowid_list_node)
    : option (Z * list rowid_list_node * rowid_list_node) :=
  match fuel with
  | O => Some (k, rs, r)
  | S fuel =>
      if j <? rowid_num l then
        '(y, sy) ← fetch (nodes l) q j;
        r ← emit r k y (copy_score sy);
        let j := j + 1 in let k := u32 (k + 1) in
        let q := advance q j in
        let '(rs, r) := grow k rs r in
        copy_loop fuel l j q k rs r
      else Some (k, rs, r)
  end.

Definition rowid_union (lista listb : ptr rowid_list) : option (ptr rowid_list) :=
  match lista, listb with
  | NULL, _ => Some listb
  | Ptr la, NULL => if rowid_num la =? 0 then Some listb else Some lista
  | Ptr la, Ptr lb =>
      if rowid_num la =? 0 then Some listb
      else if rowid_num lb =? 0 then Some lista
      else
        st ← merge_loop (union_step la lb) (merge_fuel la lb) la lb merge_init;
        let '(l, j, q) :=
          if mj st =? rowid_num lb then (la, mi st, mp st) else (lb, mj st, mq st) in
        '(k, rs, r) ← copy_loop (Z.to_nat (rowid_num l)) l j q (mk st) (mrs st) (mr st);
        Some (Ptr (RowidList k (rs ++ [r]) (Some (length rs))))
  end.

(** When nothing is common, [lista] itself is emptied and returned. *)
Definition rowid_intersection (lista listb : ptr rowid_list) : option (ptr rowid_list) :=
  match lista, listb with
  | NULL, _ => Some lista
  | Ptr la, NULL => if rowid_num la =? 0 then Some lista else Some listb
  | Ptr la, Ptr lb =>
      if rowid_num la =? 0 then Some lista
      else if rowid_num lb =? 0 then Some listb
      else
        st ← merge_loop (intersection_step la lb) (merge_fuel la lb) la lb merge_init;
        if mk st =? 0 then Some (Ptr (RowidList 0 [] None))
        else Some (Ptr (RowidList (mk st) (mrs st ++ [mr st]) (Some (length (mrs st)))))
  end.

(** ** Difference, in place *)

Record minus_state := MinusState {
  ni : Z; nj : Z; nk : Z;
  np : nat; nq : nat;
  nns : list rowid_list_node;   (* the nodes of [lista], as written so far *)
  nres : nat;                   (* [result] *)
  npre : option nat             (* [pre_result] *)
}.

(** [result->rowid_array[k % SIZE] = v] *)
Definition set_rowid (ns : list rowid_list_node) (res : nat) (k v : Z)
    : option (list rowid_list_node) :=
  nd ← ns !! res;
  a ← (rowid_array nd)⟦k `mod` ROWID_ARRAY_SIZE := v⟧;
  Some (<[res := Node a (score_array nd)]> ns).

(** Keep the current element of [lista]: write it at [k], move [i] and [k]. *)
Definition minus_keep (st : minus_state) (x : Z) : option minus_state :=
  let '(MinusState i j k p q ns res pre) := st in
  ns ← set_rowid ns res k x;
  let i := i + 1 in let k := k + 1 in
  let p := advance p i in
  let '(res, pre) :=
    if k `mod` ROWID_ARRAY_SIZE =? 0 then (S res, Some res) else (res, pre) in
  Some (MinusState i j k p q ns res pre).

Definition minus_step (lb : rowid_list) (st : minus_state) : option minus_state :=
  let '(MinusState i j k p q ns res pre) := st in
  x ← node_rowid ns p i;
  y ← node_rowid (nodes lb) q j;
  if x >? y then minus_keep st x
  else if x <? y then
    let j := j + 1 in Some (MinusState i j k p (advance q j) ns res pre)
  else
    let i := i + 1 in let j := j + 1 in
    Some (MinusState i j k (advance p i) (advance q j) ns res pre).

Fixpoint minus_loop (fuel : nat) (la lb : rowid_list) (st : minus_state) : option minus_state :=
  match fuel with
  | O => Some st
  | S fuel =>
      if (ni st <? rowid_num la) && (nj st <? rowid_num lb)
      then st ← minus_step lb st; minus_loop fuel la lb st
      else Some st
  end.

Fixpoint minus_rest (fuel : nat) (la : rowid_list) (st : minus_state) : option minus_state :=
  match fuel with
  | O => Some st
  | S fuel =>
      if ni st <? rowid_num la then
        x ← node_rowid (nns st) (np st) (ni st);
        st ← minus_keep st x;
        minus_rest fuel la st
      else Some st
  end.

Definition rowid_minus (lista listb : ptr rowid_list) : option (ptr rowid_list) :=
  match lista, listb with
  | NULL, _ | _, NULL => Some lista
  | Ptr la, Ptr lb =>
      if (rowid_num la =? 0) || (rowid_num lb =? 0) then Some lista
      else
        st ← minus_loop (merge_fuel la lb) la lb (MinusState 0 0 0 0 0 (nodes la) 0 None);
        st ← minus_rest (Z.to_nat (rowid_num la)) la st;
        if nk st =? 0 then Some (Ptr (RowidList 0 [] None))
        else
          res ← (if nk st `mod` ROWID_ARRAY_SIZE =? 0 then npre st else Some (nres st));
          _ ← nns st !! res;
          Some (Ptr (RowidList (nk st) (take (S res) (nns st)) (Some res)))
  end.

(** ** Abstraction: entries (an id with its score, if any) and weights (an id
    with its score, zero by default) *)

Definition node_entries (nd : rowid_list_node) : list (Z * option double) :=
  zip (rowid_array nd)
      (match score_array nd with None => replicate BLK None | Some s => Some <$> s end).

Definition node_weights (nd : rowid_list_node) : list (Z * double) :=
  zip (rowid_array nd) (default (replicate BLK d0) (score_array nd)).

Definition entries (l : rowid_list) : list (Z * option double) :=
  take (Z.to_nat (rowid_num l)) (concat (node_entries <$> nodes l)).

Definition weights (l : rowid_list) : list (Z * double) :=
  take (Z.to_nat (rowid_num l)) (concat (node_weights <$> nodes l)).

Definition weight (e : Z * option double) : Z * double := (e.1, default d0 e.2).

Definition both (sx sy : option double) : double :=
  match add_scores sx sy with None => d0 | Some f => f d0 end.

Lemma length_node_entries nd : node_wf nd → length (node_entries nd) = BLK.
Proof.
  intros [Hl Hs]. unfold node_entries. rewrite length_zip, Hl.
  destruct (score_array nd) as [s|];
    [rewrite length_fmap, (Hs s) by done|rewrite length_replicate]; lia.
Qed.

Lemma length_node_weights nd : node_wf nd → length (node_weights nd) = BLK.
Proof.
  intros [Hl Hs]. unfold node_weights. rewrite length_zip, Hl.
  destruct (score_array nd) as [s|]; unfold default, id;
    [rewrite (Hs s) by done|rewrite length_replicate]; lia.
Qed.

Lemma entries_blocks ns :
  Forall node_wf ns → Forall (λ b, length b = BLK) (node_entries <$> ns).
Proof.
  intros H. apply Forall_fmap.
  induction H; constructor; [by apply length_node_entries|done].
Qed.

Lemma weights_blocks ns :
  Forall node_wf ns → Forall (λ b, length b = BLK) (node_weights <$> ns).
Proof.
  intros H. apply Forall_fmap.
  induction H; constructor; [by apply length_node_weights|done].
Qed.

Lemma fst_node_entries nd : node_wf nd → (node_entries nd).*1 = rowid_array nd.
Proof.
  intros [Hl Hs]. unfold node_entries. apply fst_zip.
  destruct (score_array nd) as [s|];
    [rewrite length_fmap, (Hs s) by done|rewrite length_replicate]; lia.
Qed.

Lemma fst_node_weights nd : node_wf nd → (node_weights nd).*1 = rowid_array nd.
Proof.
  intros [Hl Hs]. unfold node_weights. apply fst_zip.
  destruct (score_array nd) as [s|]; unfold default, id;
    [rewrite (Hs s) by done|rewrite length_replicate]; lia.
Qed.

Lemma fst_concat {B} (f : rowid_list_node → list (Z * B)) ns :
  (∀ nd, node_wf nd → (f nd).*1 = rowid_array nd) → Forall node_wf ns →
  (concat (f <$> ns)).*1 = flat ns.
Proof.
  intros Hf H. unfold flat. induction H as [|nd ns Hnd H IH]; [done|].
  cbn [fmap list_fmap concat]. fold (f <$> ns). rewrite fmap_app, Hf by done. by rewrite IH.
Qed.

Lemma fst_entries l : list_wf l → (entries l).*1 = elems l.
Proof.
  intros [_ Hw _]. unfold entries, elems. rewrite fmap_take.
  by rewrite (fst_concat node_entries) by (done || apply fst_node_entries).
Qed.

Lemma fst_weights l : list_wf l → (weights l).*1 = elems l.
Proof.
  intros [_ Hw _]. unfold weights, elems. rewrite fmap_take.
  by rewrite (fst_concat node_weights) by (done || apply fst_node_weights).
Qed.

Lemma zlen_entries l : list_wf l → zlen (entries l) = rowid_num l.
Proof.
  intros H. rewrite <- (zlen_elems l H), <- fst_entries by done. unfold zlen. by rewrite length_fmap.
Qed.

Lemma fetch_node nd (n : nat) :
  node_wf nd → (n < BLK)%nat →
  (v ← (rowid_array nd)⟦Z.of_nat n⟧;
   match score_array nd with
   | None => Some (v, None)
   | Some s => x ← s⟦Z.of_nat n⟧; Some (v, Some x)
   end) = node_entries nd !! n.
Proof.
  intros [Hl Hs] Hn. unfold node_entries. rewrite lookup_zip_with, zget_of_nat.
  destruct (lookup_lt_is_Some_2 (rowid_array nd) n) as [v Hv]; [lia|]. rewrite Hv.
  cbn [mbind option_bind]. destruct (score_array nd) as [s|].
  - rewrite zget_of_nat, list_lookup_fmap.
    destruct (lookup_lt_is_Some_2 s n) as [x ->]; [rewrite Hs by done; lia|]. done.
  - by rewrite lookup_replicate_2.
Qed.

Lemma fetch_entries l i :
  list_wf l → 0 ≤ i < rowid_num l → fetch (nodes l) (at_block i) i = (entries l)⟦i⟧.
Proof.
  intros [Hn Hw Hr] Hi. unfold fetch. rewrite zget_lookup by lia. unfold entries.
  rewrite lookup_take_lt by lia. rewrite (idx_split i) by lia.
  rewrite (lookup_concat_blocks BLK) by (apply idx_mod || by apply entries_blocks).
  rewrite list_lookup_fmap. unfold at_block.
  destruct (nodes l !! Z.to_nat (i / ROWID_ARRAY_SIZE)) as [nd|] eqn:E; [|done].
  cbn [mbind option_bind fmap option_fmap option_map].
  rewrite <- fetch_node by (apply idx_mod || by eapply Forall_lookup_1).
  by rewrite Z2Nat.id by (unfold ROWID_ARRAY_SIZE; zdiv).
Qed.

(** ** The result chain *)

(** [rs] and [r] hold the [k] weights [ws]: full nodes, then the first cells of
    [r], whose remaining score cells are still zero. *)
Record chain (rs : list rowid_list_node) (r : rowid_list_node) (k : Z) (ws : list (Z * double))
    : Prop := {
  ch_k : 0 ≤ k;
  ch_rs : Forall node_wf rs;
  ch_r : node_wf r;
  ch_len : length rs = at_block k;
  ch_ws : ws = concat (node_weights <$> rs)
               ++ take (Z.to_nat (k `mod` ROWID_ARRAY_SIZE)) (node_weights r);
  ch_fresh : ∀ s n, score_array r = Some s →
    (Z.to_nat (k `mod` ROWID_ARRAY_SIZE) ≤ n < BLK)%nat → s !! n = Some d0
}.

Lemma chain_zlen rs r k ws : chain rs r k ws → zlen ws = k.
Proof.
  intros [Hk Hrs Hr Hlen Hws _]. rewrite Hws. unfold zlen.
  rewrite length_app, (length_concat_blocks BLK) by by apply weights_blocks.
  rewrite length_fmap, length_take, length_node_weights by done.
  pose proof (idx_split k Hk). pose proof (idx_mod k). unfold at_block in Hlen. lia.
Qed.

Lemma chain_init : chain [] new_node 0 [].
Proof. by split. Qed.

Lemma zip_insert {A B} (l : list A) (m : list B) n x y :
  zip (<[n := x]> l) (<[n := y]> m) = <[n := (x, y)]> (zip l m).
Proof.
  revert m n. induction l as [|a l IH]; intros [|b m] [|n]; simpl; try done. by rewrite IH.
Qed.

(** Writing the next cell. *)
Lemma emit_spec rs r k ws v upd :
  chain rs r k ws →
  ∃ r', emit r k v upd = Some r' ∧ node_wf r' ∧
    node_weights r' = <[Z.to_nat (k `mod` ROWID_ARRAY_SIZE) :=
      (v, match upd with None => d0 | Some f => f d0 end)]> (node_weights r) ∧
    ∀ s n, score_array r' = Some s →
      (Z.to_nat (k `mod` ROWID_ARRAY_SIZE) < n < BLK)%nat → s !! n = Some d0.
Proof.
  intros [Hk Hrs [Hl Hs] Hlen Hws Hfresh]. unfold emit.
  pose proof (idx_mod k) as Hmod.
  assert (0 ≤ k `mod` ROWID_ARRAY_SIZE < Z.of_nat BLK) as Hm by (unfold BLK, ROWID_ARRAY_SIZE; zdiv).
  rewrite zset_in by (unfold zlen; rewrite Hl; done). cbn [mbind option_bind].
  set (n := Z.to_nat (k `mod` ROWID_ARRAY_SIZE)) in *.
  set (s := default (replicate BLK d0) (score_array r)).
  assert (length s = BLK) as Hls.
  { unfold s, default, id. destruct (score_array r); [by apply Hs|]. by rewrite length_replicate. }
  assert (∀ m, (n ≤ m < BLK)%nat → s !! m = Some d0) as Hs0.
  { intros m Hm'. unfold s, default, id. destruct (score_array r) as [sr|] eqn:E; [by apply Hfresh|].
    apply lookup_replicate_2. lia. }
  destruct upd as [f|].
  - rewrite zget_lookup by lia. fold n. rewrite Hs0 by lia. cbn [mbind option_bind].
    rewrite zset_in by (unfold zlen; rewrite Hls; done). cbn [mbind option_bind].
    eexists. split; [done|]. split; [|split].
    + split; cbn [rowid_array score_array]; [by rewrite length_insert|].
      intros s' [= <-]. by rewrite length_insert.
    + transitivity (zip (<[n := v]> (rowid_array r)) (<[n := f d0]> s)); [done|].
      by rewrite zip_insert.
    + intros s' m [= <-] Hm'. fold n. rewrite list_lookup_insert_ne by lia. apply Hs0. lia.
  - eexists. split; [done|]. split; [|split].
    + split; cbn [rowid_array score_array]; [by rewrite length_insert|done].
    + unfold node_weights. cbn [rowid_array score_array]. fold s. fold n.
      rewrite <- zip_insert. by rewrite (list_insert_id s) by (apply Hs0; lia).
    + intros s' m Hs' Hm'. cbn [score_array] in Hs'. apply Hfresh; [done|lia].
Qed.

Lemma chain_emit rs r k ws v upd :
  chain rs r k ws → k + 1 < 2 ^ 32 →
  ∃ r', emit r k v upd = Some r' ∧
    let '(rs', r'') := grow (u32 (k + 1)) rs r' in
    chain rs' r'' (u32 (k + 1)) (ws ++ [(v, match upd with None => d0 | Some f => f d0 end)]).
Proof.
  intros Hch Hmax. destruct (emit_spec _ _ _ _ v upd Hch) as (r' & He & Hwf & Hw & Hf).
  destruct Hch as [Hk Hrs Hr Hlen Hws Hfresh].
  exists r'. split; [done|]. rewrite u32_small by lia. unfold grow.
  pose proof (length_node_weights _ Hr) as Hlr.
  pose proof (idx_mod k) as Hmod.
  set (n := Z.to_nat (k `mod` ROWID_ARRAY_SIZE)) in *.
  set (w := match upd with None => d0 | Some f => f d0 end) in *.
  assert (take (S n) (node_weights r') = take n (node_weights r) ++ [(v, w)]) as Htake.
  { rewrite Hw. erewrite take_S_r by (apply list_lookup_insert_eq; lia).
    by rewrite take_insert_ge by lia. }
  assert (at_block (k + 1) = if decide (S n = BLK) then S (at_block k) else at_block k) as Hblk.
  { unfold at_block, BLK, ROWID_ARRAY_SIZE in *. unfold n in *. case_decide; zdiv. }
  assert (Z.to_nat ((k + 1) `mod` ROWID_ARRAY_SIZE) = if decide (S n = BLK) then 0 else S n)%nat as Hn1.
  { unfold BLK, ROWID_ARRAY_SIZE in *. unfold n in *. case_decide; zdiv. }
  destruct (Z.eqb_spec ((k + 1) `mod` ROWID_ARRAY_SIZE) 0) as [H0|H0].
  - assert (S n = BLK) as HS by (unfold BLK, ROWID_ARRAY_SIZE in *; unfold n in *; zdiv).
    split; [lia|by apply Forall_app; split; [|apply Forall_singleton]|apply new_node_wf| | |done].
    + rewrite Hblk, decide_True, length_app by done. simpl. lia.
    + rewrite H0. simpl. rewrite app_nil_r, fmap_app, concat_app, Hws, <- app_assoc. f_equal.
      simpl. rewrite app_nil_r, <- Htake, HS. apply take_ge.
      rewrite length_node_weights by done. lia.
  - assert (S n ≠ BLK) as HS by (unfold BLK, ROWID_ARRAY_SIZE in *; unfold n in *; zdiv).
    rewrite decide_False in Hblk by done. rewrite decide_False in Hn1 by done.
    split; [lia|done|done|lia| |].
    + by rewrite Hn1, Htake, Hws, app_assoc.
    + intros s m Hs Hm. rewrite Hn1 in Hm. apply Hf; [done|lia].
Qed.

(** The finished chain as a list. *)
Lemma chain_result rs r k ws :
  chain rs r k ws → k < 2 ^ 32 →
  let l := RowidList k (rs ++ [r]) (Some (length rs)) in
  list_wf l ∧ weights l = ws.
Proof.
  intros Hch Hmax. pose proof (chain_zlen _ _ _ _ Hch) as Hz.
  destruct Hch as [Hk Hrs Hr Hlen Hws _]. split.
  - split; simpl; [lia|by apply Forall_app; split; [|apply Forall_singleton]|].
    rewrite zlen_app. unfold zlen. simpl. rewrite Hlen. unfold at_block, ROWID_ARRAY_SIZE. zdiv.
  - unfold weights; cbn [rowid_num nodes]. rewrite fmap_app, concat_app. simpl.
    rewrite app_nil_r. rewrite Hws.
    assert (length (concat (node_weights <$> rs)) = (BLK * at_block k)%nat) as Hc.
    { rewrite (length_concat_blocks BLK) by by apply weights_blocks. by rewrite length_fmap, Hlen. }
    rewrite take_app, take_ge by (rewrite Hc, (idx_split k) by done; unfold at_block; lia).
    f_equal. f_equal. rewrite Hc, (idx_split k) by done. unfold at_block. lia.
Qed.

(** ** Reference merges on plain sequences *)

Fixpoint merge_union (xs : list (Z * option double)) : list (Z * option double) → list (Z * double) :=
  fix go ys :=
    match xs, ys with
    | [], _ => weight <$> ys
    | _, [] => weight <$> xs
    | (x, sx) :: xs', (y, sy) :: ys' =>
        if x >? y then weight (x, sx) :: merge_union xs' ys
        else if x <? y then weight (y, sy) :: go ys'
        else (x, both sx sy) :: merge_union xs' ys'
    end.

Fixpoint merge_inter (xs : list (Z * option double)) : list (Z * option double) → list (Z * double) :=
  fix go ys :=
    match xs, ys with
    | [], _ | _, [] => []
    | (x, sx) :: xs', (y, sy) :: ys' =>
        if x >? y then merge_inter xs' ys
        else if x <? y then go ys'
        else (x, both sx sy) :: merge_inter xs' ys'
    end.

Fixpoint merge_minus (xs : list Z) : list Z → list Z :=
  fix go ys :=
    match xs, ys with
    | [], _ => []
    | _, [] => xs
    | x :: xs', y :: ys' =>
        if x >? y then x :: merge_minus xs' ys
        else if x <? y then go ys'
        else merge_minus xs' ys'
    end.

Lemma merge_union_nil_l ys : merge_union [] ys = weight <$> ys.
Proof. by destruct ys. Qed.

Lemma merge_inter_nil_l ys : merge_inter [] ys = [].
Proof. by destruct ys. Qed.

Lemma merge_minus_nil_l ys : merge_minus [] ys = [].
Proof. by destruct ys. Qed.

Lemma merge_union_nil_r xs : merge_union xs [] = weight <$> xs.
Proof. destruct xs as [|[]]; done. Qed.

Lemma merge_inter_nil_r xs : merge_inter xs [] = [].
Proof. destruct xs as [|[]]; done. Qed.

Lemma merge_minus_nil_r xs : merge_minus xs [] = xs.
Proof. by destruct xs. Qed.

Section merge_proofs.
Context (la lb : rowid_list) (Ha : list_wf la) (Hb : list_wf lb).
Context (Hmax : rowid_num la + rowid_num lb < 2 ^ 32).

Record merge_inv (st : merge_state) (ws : list (Z * double)) : Prop := {
  mv_chain : chain (mrs st) (mr st) (mk st) ws;
  mv_i : 0 ≤ mi st ≤ rowid_num la;
  mv_j : 0 ≤ mj st ≤ rowid_num lb;
  mv_p : mp st = at_block (mi st);
  mv_q : mq st = at_block (mj st);
  mv_k : mk st ≤ mi st + mj st
}.

Definition rest_a (st : merge_state) := drop (Z.to_nat (mi st)) (entries la).
Definition rest_b (st : merge_state) := drop (Z.to_nat (mj st)) (entries lb).

Lemma entries_next l i :
  list_wf l → 0 ≤ i < rowid_num l →
  ∃ x sx, fetch (nodes l) (at_block i) i = Some (x, sx) ∧
    drop (Z.to_nat i) (entries l) = (x, sx) :: drop (Z.to_nat (i + 1)) (entries l).
Proof.
  intros Hw Hi. rewrite fetch_entries by done.
  destruct (zget_lt (entries l) i) as [[x sx] Hx]; [by rewrite zlen_entries|].
  exists x, sx. split; [done|]. rewrite zget_lookup in Hx by lia.
  rewrite (drop_S _ _ _ Hx). do 2 f_equal. lia.
Qed.

(** One turn of the union loop consumes the heads of the remaining inputs as
    the reference merge does. *)
Lemma union_step_spec st ws :
  merge_inv st ws → mi st < rowid_num la → mj st < rowid_num lb →
  ∃ st' ws', union_step la lb st = Some st' ∧ merge_inv st' ws' ∧
    mi st + mj st < mi st' + mj st' ∧
    ws' ++ merge_union (rest_a st') (rest_b st') = ws ++ merge_union (rest_a st) (rest_b st).
Proof.
  destruct st as [i j k p q rs r]. intros [Hch Hi Hj Hp Hq Hk] Hi' Hj'. simpl in *. subst p q.
  destruct (entries_next la i) as (x & sx & Hfx & Hdx); [done|lia|].
  destruct (entries_next lb j) as (y & sy & Hfy & Hdy); [done|lia|].
  rewrite Hfx, Hfy. cbn [mbind option_bind]. unfold rest_a, rest_b; simpl. rewrite Hdx, Hdy.
  cbn [merge_union]. destruct (x >? y) eqn:E1; [|destruct (x <? y) eqn:E2].
  - destruct (chain_emit _ _ _ _ x (copy_score sx) Hch) as (r' & -> & Hg); [lia|].
    cbn [mbind option_bind]. destruct (grow _ rs r') as [rs'' r''] eqn:Eg.
    eexists _, _. split; [done|]. rewrite advance_block by lia. split; [|split; [simpl; lia|]].
    + split; simpl; try done; try lia. rewrite u32_small by (destruct Hch; lia). lia.
    + simpl. rewrite <- app_assoc, Hdy. simpl. do 2 f_equal. by destruct sx.
  - destruct (chain_emit _ _ _ _ y (copy_score sy) Hch) as (r' & -> & Hg); [lia|].
    cbn [mbind option_bind]. destruct (grow _ rs r') as [rs'' r''] eqn:Eg.
    eexists _, _. split; [done|]. rewrite advance_block by lia. split; [|split; [simpl; lia|]].
    + split; simpl; try done; try lia. rewrite u32_small by (destruct Hch; lia). lia.
    + simpl. rewrite <- app_assoc, Hdx. simpl. do 2 f_equal. by destruct sy.
  - destruct (chain_emit _ _ _ _ x (add_scores sx sy) Hch) as (r' & -> & Hg); [lia|].
    cbn [mbind option_bind]. destruct (grow _ rs r') as [rs'' r''] eqn:Eg.
    eexists _, _. split; [done|]. rewrite !advance_block by lia. split; [|split; [simpl; lia|]].
    + split; simpl; try done; try lia. rewrite u32_small by (destruct Hch; lia). lia.
    + simpl. by rewrite <- app_assoc.
Qed.

Lemma intersection_step_spec st ws :
  merge_inv st ws → mi st < rowid_num la → mj st < rowid_num lb →
  ∃ st' ws', intersection_step la lb st = Some st' ∧ merge_inv st' ws' ∧
    mi st + mj st < mi st' + mj st' ∧
    ws' ++ merge_inter (rest_a st') (rest_b st') = ws ++ merge_inter (rest_a st) (rest_b st).
Proof.
  destruct st as [i j k p q rs r]. intros [Hch Hi Hj Hp Hq Hk] Hi' Hj'. simpl in *. subst p q.
  destruct (entries_next la i) as (x & sx & Hfx & Hdx); [done|lia|].
  destruct (entries_next lb j) as (y & sy & Hfy & Hdy); [done|lia|].
  rewrite Hfx, Hfy. cbn [mbind option_bind]. unfold rest_a, rest_b; simpl. rewrite Hdx, Hdy.
  cbn [merge_inter]. destruct (x >? y) eqn:E1; [|destruct (x <? y) eqn:E2].
  - eexists _, ws. split; [done|]. rewrite advance_block by lia. split; [|split; [simpl; lia|]].
    + split; simpl; try done; lia.
    + simpl. by rewrite Hdy.
  - eexists _, ws. split; [done|]. rewrite advance_block by lia. split; [|split; [simpl; lia|]].
    + split; simpl; try done; lia.
    + simpl. by rewrite Hdx.
  - destruct (chain_emit _ _ _ _ x (add_scores sx sy) Hch) as (r' & -> & Hg); [lia|].
    cbn [mbind option_bind]. destruct (grow _ rs r') as [rs'' r''] eqn:Eg.
    eexists _, _. split; [done|]. rewrite !advance_block by lia. split; [|split; [simpl; lia|]].
    + split; simpl; try done; try lia. rewrite u32_small by (destruct Hch; lia). lia.
    + simpl. by rewrite <- app_assoc.
Qed.

(** The loop runs to the end of one input, whichever step it has. *)
Lemma merge_loop_spec step spec fuel st ws :
  (∀ st ws, merge_inv st ws → mi st < rowid_num la → mj st < rowid_num lb →
    ∃ st' ws', step st = Some st' ∧ merge_inv st' ws' ∧ mi st + mj st < mi st' + mj st' ∧
      ws' ++ spec (rest_a st') (rest_b st') = ws ++ spec (rest_a st) (rest_b st)) →
  merge_inv st ws →
  rowid_num la + rowid_num lb - mi st - mj st ≤ Z.of_nat fuel →
  ∃ st' ws', merge_loop step fuel la lb st = Some st' ∧ merge_inv st' ws' ∧
    (mi st' = rowid_num la ∨ mj st' = rowid_num lb) ∧
    ws' ++ spec (rest_a st') (rest_b st') = ws ++ spec (rest_a st) (rest_b st).
Proof.
  intros Hstep. revert st ws. induction fuel as [|fuel IH]; intros st ws Hinv Hf.
  - exists st, ws. destruct Hinv. split_and!; try done. left. lia.
  - cbn [merge_loop]. destruct (Z.ltb_spec (mi st) (rowid_num la)); simpl.
    2:{ exists st, ws. destruct Hinv. split_and!; try done. left. lia. }
    destruct (Z.ltb_spec (mj st) (rowid_num lb)); simpl.
    2:{ exists st, ws. destruct Hinv. split_and!; try done. right. lia. }
    destruct (Hstep st ws) as (st1 & ws1 & -> & Hinv1 & Hlt & Heq); [done..|].
    cbn [mbind option_bind].
    destruct (IH st1 ws1) as (st2 & ws2 & ? & ? & ? & Heq2); [done|lia|].
    exists st2, ws2. split_and!; try done. by rewrite Heq2.
Qed.

Lemma merge_init_inv : merge_inv merge_init [].
Proof.
  destruct Ha, Hb. split; simpl; (lia || done || apply chain_init).
Qed.
End merge_proofs.

Lemma copy_loop_spec l fuel j k rs r ws :
  list_wf l → chain rs r k ws → 0 ≤ j ≤ rowid_num l →
  rowid_num l - j ≤ Z.of_nat fuel → k + (rowid_num l - j) < 2 ^ 32 →
  ∃ k' rs' r', copy_loop fuel l j (at_block j) k rs r = Some (k', rs', r') ∧
    chain rs' r' k' (ws ++ (weight <$> drop (Z.to_nat j) (entries l))).
Proof.
  intros Hw. pose proof (zlen_entries _ Hw) as Hlen.
  assert (∀ j, rowid_num l ≤ j → drop (Z.to_nat j) (entries l) = []) as Hend.
  { intros j' Hj'. apply drop_ge. unfold zlen in *. lia. }
  revert j k rs r ws. induction fuel as [|fuel IH]; intros j k rs r ws Hch Hj Hf Hmax.
  { exists k, rs, r. rewrite Hend by lia. by rewrite app_nil_r. }
  cbn [copy_loop]. destruct (Z.ltb_spec j (rowid_num l)).
  2:{ exists k, rs, r. rewrite Hend by lia. by rewrite app_nil_r. }
  destruct (entries_next l j) as (y & sy & -> & Hd); [done|lia|]. cbn [mbind option_bind].
  destruct (chain_emit _ _ _ _ y (copy_score sy) Hch) as (r' & -> & Hg); [lia|].
  cbn [mbind option_bind]. destruct (grow _ rs r') as [rs'' r''] eqn:Eg.
  rewrite advance_block by lia.
  destruct (IH (j + 1) _ _ _ _ Hg) as (k2 & rs2 & r2 & Hrun & Hch2);
    [lia|lia|rewrite u32_small; destruct Hch; lia|].
  exists k2, rs2, r2. split; [done|]. rewrite Hd. simpl.
  rewrite <- app_assoc in Hch2. simpl in Hch2. by destruct sy.
Qed.

(** ** Functional refinement of union and intersection *)

Definition ptr_wf (p : ptr rowid_list) : Prop :=
  match p with NULL => True | Ptr l => list_wf l end.

(** The ids behind a pointer; NULL stands for the empty list. *)
Definition ids (p : ptr rowid_list) : list Z :=
  match p with NULL => [] | Ptr l => elems l end.

Lemma ids_empty l : list_wf l → rowid_num l = 0 → elems l = [].
Proof.
  intros Hw H0. apply nil_length_inv. pose proof (zlen_elems _ Hw). unfold zlen in *. lia.
Qed.

Lemma rowid_union_refines la lb :
  list_wf la → list_wf lb → rowid_num la ≠ 0 → rowid_num lb ≠ 0 →
  rowid_num la + rowid_num lb < 2 ^ 32 →
  ∃ l, rowid_union (Ptr la) (Ptr lb) = Some (Ptr l) ∧ list_wf l ∧
    weights l = merge_union (entries la) (entries lb).
Proof.
  intros Ha Hb Hna Hnb Hmax. unfold rowid_union.
  rewrite !(proj2 (Z.eqb_neq _ _)) by done. pose proof (lw_num _ Ha). pose proof (lw_num _ Hb).
  destruct (merge_loop_spec la lb (union_step la lb) merge_union (merge_fuel la lb) merge_init [])
    as (st & ws & -> & [Hch Hi Hj Hp Hq Hk] & Hend & Heq);
    [by apply union_step_spec|by apply merge_init_inv|unfold merge_fuel; simpl; lia|].
  unfold rest_a, rest_b in Heq. simpl in Heq. rewrite !drop_0 in Heq.
  cbn [mbind option_bind].
  assert (∀ l, list_wf l → drop (Z.to_nat (rowid_num l)) (entries l) = []) as Hdrop.
  { intros l Hl. apply drop_ge. pose proof (zlen_entries _ Hl). unfold zlen in *. lia. }
  destruct (Z.eqb_spec (mj st) (rowid_num lb)) as [Ej|Ej].
  - rewrite Hp. destruct (copy_loop_spec la (Z.to_nat (rowid_num la)) (mi st) _ _ _ _ Ha Hch)
      as (k & rs & r & -> & Hch'); [lia..|]. cbn [mbind option_bind].
    destruct (chain_result _ _ _ _ Hch') as [Hwf Hw].
    { rewrite <- (chain_zlen _ _ _ _ Hch'), zlen_app, (chain_zlen _ _ _ _ Hch).
      unfold zlen. rewrite length_fmap, length_drop. pose proof (zlen_entries _ Ha). unfold zlen in *. lia. }
    eexists. split; [done|]. split; [done|]. rewrite Hw, <- Heq, Ej, Hdrop by done.
    by rewrite merge_union_nil_r.
  - destruct Hend as [Ei|]; [|done]. rewrite Hq.
    destruct (copy_loop_spec lb (Z.to_nat (rowid_num lb)) (mj st) _ _ _ _ Hb Hch)
      as (k & rs & r & -> & Hch'); [lia..|]. cbn [mbind option_bind].
    destruct (chain_result _ _ _ _ Hch') as [Hwf Hw].
    { rewrite <- (chain_zlen _ _ _ _ Hch'), zlen_app, (chain_zlen _ _ _ _ Hch).
      unfold zlen. rewrite length_fmap, length_drop. pose proof (zlen_entries _ Hb). unfold zlen in *. lia. }
    eexists. split; [done|]. split; [done|]. rewrite Hw, <- Heq, Ei, Hdrop by done.
    by rewrite merge_union_nil_l.
Qed.

Lemma rowid_intersection_refines la lb :
  list_wf la → list_wf lb → rowid_num la ≠ 0 → rowid_num lb ≠ 0 →
  rowid_num la + rowid_num lb < 2 ^ 32 →
  ∃ l, rowid_intersection (Ptr la) (Ptr lb) = Some (Ptr l) ∧ list_wf l ∧
    weights l = merge_inter (entries la) (entries lb).
Proof.
  intros Ha Hb Hna Hnb Hmax. unfold rowid_intersection.
  rewrite !(proj2 (Z.eqb_neq _ _)) by done. pose proof (lw_num _ Ha). pose proof (lw_num _ Hb).
  destruct (merge_loop_spec la lb (intersection_step la lb) merge_inter (merge_fuel la lb) merge_init [])
    as (st & ws & -> & [Hch Hi Hj Hp Hq Hk] & Hend & Heq);
    [by apply intersection_step_spec|by apply merge_init_inv|unfold merge_fuel; simpl; lia|].
  unfold rest_a, rest_b in Heq. simpl in Heq. rewrite !drop_0 in Heq.
  cbn [mbind option_bind].
  assert (merge_inter (drop (Z.to_nat (mi st)) (entries la)) (drop (Z.to_nat (mj st)) (entries lb)) = [])
    as Hnil.
  { pose proof (zlen_entries _ Ha). pose proof (zlen_entries _ Hb). unfold zlen in *.
    destruct Hend as [Ei|Ej].
    - rewrite (drop_ge (entries la)) by lia. apply merge_inter_nil_l.
    - rewrite (drop_ge (entries lb)) by lia. apply merge_inter_nil_r. }
  rewrite Hnil, app_nil_r in Heq. subst ws.
  destruct (Z.eqb_spec (mk st) 0) as [E0|E0].
  - eexists. split; [done|]. split; [split; simpl; [lia|constructor|unfold zlen; simpl; lia]|].
    symmetry. apply nil_length_inv. pose proof (chain_zlen _ _ _ _ Hch). unfold zlen in *. lia.
  - destruct (chain_result _ _ _ _ Hch) as [Hwf Hw]; [lia|]. eauto.
Qed.

(** ** Set semantics on descending sequences *)

(** Strictly descending: the order every index query returns. *)
Definition desc (l : list Z) : Prop := StronglySorted (λ a b, b < a) l.

Lemma desc_cons_inv x l : desc (x :: l) → desc l ∧ ∀ y, y ∈ l → y < x.
Proof.
  intros H. apply StronglySorted_inv in H as [H1 H2]. split; [done|].
  intros y Hy. rewrite List.Forall_forall in H2. by apply H2, list_elem_of_In.
Qed.

Lemma desc_cons x l : desc l → (∀ y, y ∈ l → y < x) → desc (x :: l).
Proof. intros H1 H2. constructor; [done|].
  apply List.Forall_forall. intros y Hy. by apply H2, list_elem_of_In.
Qed.

Lemma fst_weight xs : (weight <$> xs).*1 = xs.*1.
Proof. rewrite <- list_fmap_compose. by apply list_fmap_ext. Qed.

(** The defining equations of the merges on two non-empty inputs. *)
Lemma merge_union_cons x sx xs y sy ys :
  merge_union ((x, sx) :: xs) ((y, sy) :: ys) =
  if x >? y then (x, default d0 sx) :: merge_union xs ((y, sy) :: ys)
  else if x <? y then (y, default d0 sy) :: merge_union ((x, sx) :: xs) ys
  else (x, both sx sy) :: merge_union xs ys.
Proof. done. Qed.

Lemma merge_inter_cons x sx xs y sy ys :
  merge_inter ((x, sx) :: xs) ((y, sy) :: ys) =
  if x >? y then merge_inter xs ((y, sy) :: ys)
  else if x <? y then merge_inter ((x, sx) :: xs) ys
  else (x, both sx sy) :: merge_inter xs ys.
Proof. done. Qed.

Lemma merge_minus_cons x xs y ys :
  merge_minus (x :: xs) (y :: ys) =
  if x >? y then x :: merge_minus xs (y :: ys)
  else if x <? y then merge_minus (x :: xs) ys
  else merge_minus xs ys.
Proof. done. Qed.

#[local] Arguments merge_union : simpl never.
#[local] Arguments merge_inter : simpl never.
#[local] Arguments merge_minus : simpl never.

(** Induction on both inputs of a merge, one case per branch of the loop. *)
Lemma merge_ind {A} (key : A → Z) (P : list A → list A → Prop) :
  (∀ ys, P [] ys) → (∀ xs, P xs []) →
  (∀ x xs y ys, key y < key x → P xs (y :: ys) → P (x :: xs) (y :: ys)) →
  (∀ x xs y ys, key x < key y → P (x :: xs) ys → P (x :: xs) (y :: ys)) →
  (∀ x xs y ys, key x = key y → P xs ys → P (x :: xs) (y :: ys)) →
  ∀ xs ys, P xs ys.
Proof.
  intros H1 H2 Hgt Hlt Heq. induction xs as [|x xs IHx]; [done|].
  induction ys as [|y ys IHy]; [done|].
  destruct (Z.lt_trichotomy (key x) (key y)) as [|[|]]; auto.
Qed.

Ltac merge_branch :=
  first [rewrite (proj2 (Z.gtb_lt _ _)) by (simpl in *; lia)
        |rewrite (Z.gtb_ltb _ _), (proj2 (Z.ltb_ge _ _)) by (simpl in *; lia);
         first [rewrite (proj2 (Z.ltb_lt _ _)) by (simpl in *; lia)
               |rewrite (proj2 (Z.ltb_ge _ _)) by (simpl in *; lia)]].

Lemma merge_union_elem xs ys v :
  v ∈ (merge_union xs ys).*1 ↔ v ∈ xs.*1 ∨ v ∈ ys.*1.
Proof.
  revert xs ys. refine (merge_ind (A:=Z * option double) fst _ _ _ _ _ _).
  - intros ys. rewrite merge_union_nil_l, fst_weight. set_solver.
  - intros xs. rewrite merge_union_nil_r, fst_weight. set_solver.
  - intros [x sx] xs [y sy] ys Hk IH. rewrite merge_union_cons. merge_branch.
    rewrite !fmap_cons, !elem_of_cons, IH. set_solver.
  - intros [x sx] xs [y sy] ys Hk IH. rewrite merge_union_cons. merge_branch.
    rewrite !fmap_cons, !elem_of_cons, IH. set_solver.
  - intros [x sx] xs [y sy] ys Hk IH. rewrite merge_union_cons. merge_branch.
    rewrite !fmap_cons, !elem_of_cons, IH. simpl in *. subst y. tauto.
Qed.

Lemma merge_union_desc xs ys :
  desc xs.*1 → desc ys.*1 → desc (merge_union xs ys).*1.
Proof.
  revert xs ys. refine (merge_ind (A:=Z * option double) fst _ _ _ _ _ _).
  - intros ys _ H. by rewrite merge_union_nil_l, fst_weight.
  - intros xs H _. by rewrite merge_union_nil_r, fst_weight.
  - intros [x sx] xs [y sy] ys Hk IH Hx Hy. rewrite merge_union_cons. merge_branch.
    rewrite !fmap_cons in *. simpl in *. pose proof (desc_cons_inv _ _ Hy) as [? Hy'].
    apply desc_cons_inv in Hx as [Hx Hx'].
    apply desc_cons; [by apply IH|]. intros v Hv%merge_union_elem.
    rewrite fmap_cons, elem_of_cons in Hv. naive_solver lia.
  - intros [x sx] xs [y sy] ys Hk IH Hx Hy. rewrite merge_union_cons. merge_branch.
    rewrite !fmap_cons in *. simpl in *. pose proof (desc_cons_inv _ _ Hx) as [? Hx'].
    apply desc_cons_inv in Hy as [Hy Hy'].
    apply desc_cons; [by apply IH|]. intros v Hv%merge_union_elem.
    rewrite fmap_cons, elem_of_cons in Hv. naive_solver lia.
  - intros [x sx] xs [y sy] ys Hk IH Hx Hy. rewrite merge_union_cons. merge_branch.
    rewrite !fmap_cons in *. simpl in *. apply desc_cons_inv in Hx as [Hx Hx'].
    apply desc_cons_inv in Hy as [Hy Hy'].
    apply desc_cons; [by apply IH|]. intros v Hv%merge_union_elem. naive_solver lia.
Qed.

Lemma merge_inter_elem xs ys v :
  desc xs.*1 → desc ys.*1 →
  v ∈ (merge_inter xs ys).*1 ↔ v ∈ xs.*1 ∧ v ∈ ys.*1.
Proof.
  revert xs ys. refine (merge_ind (A:=Z * option double) fst _ _ _ _ _ _).
  - intros ys _ _. rewrite merge_inter_nil_l. set_solver.
  - intros xs _ _. rewrite merge_inter_nil_r. set_solver.
  - intros [x sx] xs [y sy] ys Hk IH Hx Hy. rewrite merge_inter_cons. merge_branch.
    rewrite !fmap_cons in *. simpl in *. pose proof (desc_cons_inv _ _ Hy) as [? Hy'].
    apply desc_cons_inv in Hx as [Hx Hx']. rewrite IH, !elem_of_cons by done. naive_solver lia.
  - intros [x sx] xs [y sy] ys Hk IH Hx Hy. rewrite merge_inter_cons. merge_branch.
    rewrite !fmap_cons in *. simpl in *. pose proof (desc_cons_inv _ _ Hx) as [? Hx'].
    apply desc_cons_inv in Hy as [Hy Hy']. rewrite IH, !elem_of_cons by done. naive_solver lia.
  - intros [x sx] xs [y sy] ys Hk IH Hx Hy. rewrite merge_inter_cons. merge_branch.
    rewrite !fmap_cons in *. simpl in *. apply desc_cons_inv in Hx as [Hx Hx'].
    apply desc_cons_inv in Hy as [Hy Hy']. rewrite !elem_of_cons, IH by done. naive_solver lia.
Qed.

Lemma merge_inter_desc xs ys :
  desc xs.*1 → desc ys.*1 → desc (merge_inter xs ys).*1.
Proof.
  revert xs ys. refine (merge_ind (A:=Z * option double) fst _ _ _ _ _ _).
  - intros ys _ H. rewrite merge_inter_nil_l. constructor.
  - intros xs H _. rewrite merge_inter_nil_r. constructor.
  - intros [x sx] xs [y sy] ys Hk IH Hx Hy. rewrite merge_inter_cons. merge_branch.
    rewrite !fmap_cons in *. by apply IH; [apply desc_cons_inv in Hx as []|].
  - intros [x sx] xs [y sy] ys Hk IH Hx Hy. rewrite merge_inter_cons. merge_branch.
    rewrite !fmap_cons in *. by apply IH; [|apply desc_cons_inv in Hy as []].
  - intros [x sx] xs [y sy] ys Hk IH Hx Hy. rewrite merge_inter_cons. merge_branch.
    rewrite !fmap_cons in *. simpl in *. apply desc_cons_inv in Hx as [Hx Hx'].
    apply desc_cons_inv in Hy as [Hy Hy']. apply desc_cons; [by apply IH|].
    intros v Hv%merge_inter_elem; [|done..]. naive_solver.
Qed.

Lemma merge_minus_elem xs ys v :
  desc xs → desc ys → v ∈ merge_minus xs ys ↔ v ∈ xs ∧ v ∉ ys.
Proof.
  revert xs ys. refine (merge_ind (A:=Z) id _ _ _ _ _ _); unfold id.
  - intros ys _ _. destruct ys; set_solver.
  - intros xs _ _. rewrite merge_minus_nil_r. set_solver.
  - intros x xs y ys Hk IH Hx Hy. rewrite merge_minus_cons. merge_branch.
    pose proof (desc_cons_inv _ _ Hy) as [? Hy'].
    apply desc_cons_inv in Hx as [Hx Hx']. rewrite !elem_of_cons, IH, !elem_of_cons by done.
    naive_solver lia.
  - intros x xs y ys Hk IH Hx Hy. rewrite merge_minus_cons. merge_branch.
    pose proof (desc_cons_inv _ _ Hx) as [? Hx'].
    apply desc_cons_inv in Hy as [Hy Hy']. rewrite IH, !elem_of_cons by done. naive_solver lia.
  - intros x xs y ys Hk IH Hx Hy. rewrite merge_minus_cons. merge_branch.
    apply desc_cons_inv in Hx as [Hx Hx'].
    apply desc_cons_inv in Hy as [Hy Hy']. rewrite IH, !elem_of_cons by done. naive_solver lia.
Qed.

Lemma merge_minus_desc xs ys : desc xs → desc ys → desc (merge_minus xs ys).
Proof.
  revert xs ys. refine (merge_ind (A:=Z) id _ _ _ _ _ _); unfold id.
  - intros ys H _. rewrite merge_minus_nil_l. constructor.
  - intros xs H _. by rewrite merge_minus_nil_r.
  - intros x xs y ys Hk IH Hx Hy. rewrite merge_minus_cons. merge_branch.
    apply desc_cons_inv in Hx as [Hx Hx']. apply desc_cons; [by apply IH|].
    intros v Hv%merge_minus_elem; [|done..]. naive_solver.
  - intros x xs y ys Hk IH Hx Hy. rewrite merge_minus_cons. merge_branch.
    by apply IH; [|apply desc_cons_inv in Hy as []].
  - intros x xs y ys Hk IH Hx Hy. rewrite merge_minus_cons. merge_branch.
    by apply IH; [apply desc_cons_inv in Hx as []|apply desc_cons_inv in Hy as []].
Qed.

(** ** The difference, in place *)

Lemma flat_take ns n : Forall node_wf ns → flat (take n ns) = take (BLK * n) (flat ns).
Proof.
  intros H. revert n. induction H as [|nd ns [Hnd _] H IH]; intros n.
  - unfold flat. simpl. by rewrite !take_nil.
  - destruct n as [|n]; [by rewrite Nat.mul_0_r|]. cbn [take].
    unfold flat in *. cbn [fmap list_fmap concat]. rewrite IH.
    rewrite <- (take_app_add (rowid_array nd)), Hnd. f_equal. lia.
Qed.

Lemma set_rowid_spec ns k x :
  Forall node_wf ns → 0 ≤ k < zlen (flat ns) →
  ∃ ns', set_rowid ns (at_block k) k x = Some ns' ∧ Forall node_wf ns' ∧
    length ns' = length ns ∧ flat ns' = <[Z.to_nat k := x]> (flat ns).
Proof.
  intros Hw Hk. rewrite zlen_flat in Hk by done. unfold set_rowid.
  destruct (lookup_lt_is_Some_2 ns (at_block k)) as [nd Hnd].
  { unfold at_block, zlen, ROWID_ARRAY_SIZE in *. zdiv. }
  rewrite Hnd. cbn [mbind option_bind].
  pose proof (Forall_lookup_1 _ _ _ _ Hw Hnd) as [Hl Hs].
  rewrite zset_in by (unfold zlen; rewrite Hl; unfold BLK, ROWID_ARRAY_SIZE; zdiv).
  cbn [mbind option_bind]. eexists. split; [done|]. split; [|split].
  - apply Forall_insert; [done|]. split; cbn [rowid_array score_array]; [by rewrite length_insert|done].
  - apply length_insert.
  - apply elems_set_cell; [done|lia|done].
Qed.

Section minus_proofs.
Context (la lb : rowid_list) (Ha : list_wf la) (Hb : list_wf lb).

(** The first [k] cells of the chain are the output, the cells from [i] on
    are still those of [lista]. *)
Record minus_inv (st : minus_state) (out : list Z) : Prop := {
  nv_k : 0 ≤ nk st ≤ ni st;
  nv_i : ni st ≤ rowid_num la;
  nv_j : 0 ≤ nj st ≤ rowid_num lb;
  nv_p : np st = at_block (ni st);
  nv_q : nq st = at_block (nj st);
  nv_res : nres st = at_block (nk st);
  nv_pre : nk st ≠ 0 → nk st `mod` ROWID_ARRAY_SIZE = 0 → npre st = Some (at_block (nk st) - 1)%nat;
  nv_wf : Forall node_wf (nns st);
  nv_len : length (nns st) = length (nodes la);
  nv_out : take (Z.to_nat (nk st)) (flat (nns st)) = out;
  nv_in : drop (Z.to_nat (ni st)) (flat (nns st)) = drop (Z.to_nat (ni st)) (flat (nodes la))
}.

Definition todo_a (st : minus_state) := drop (Z.to_nat (ni st)) (elems la).
Definition todo_b (st : minus_state) := drop (Z.to_nat (nj st)) (elems lb).

Lemma minus_flat_len st out :
  minus_inv st out → rowid_num la ≤ zlen (flat (nns st)).
Proof.
  intros []. rewrite zlen_flat by done. destruct Ha as [_ _ Hr]. unfold zlen in *. lia.
Qed.

Lemma todo_next l i :
  list_wf l → 0 ≤ i < rowid_num l →
  ∃ x, (elems l)⟦i⟧ = Some x ∧ drop (Z.to_nat i) (elems l) = x :: drop (Z.to_nat (i + 1)) (elems l).
Proof.
  intros Hw Hi. destruct (zget_lt (elems l) i) as [x Hx]; [by rewrite zlen_elems|].
  exists x. split; [done|]. rewrite zget_lookup in Hx by lia.
  rewrite (drop_S _ _ _ Hx). do 2 f_equal. lia.
Qed.

(** The cell under [p] still holds the id of [lista]. *)
Lemma minus_read st out :
  minus_inv st out → ni st < rowid_num la →
  node_rowid (nns st) (np st) (ni st) = (elems la)⟦ni st⟧.
Proof.
  intros Hinv Hi. destruct Hinv. rewrite nv_p0, node_rowid_flat, elems_get by (done || lia).
  rewrite !zget_lookup by lia.
  rewrite <- (Nat.add_0_r (Z.to_nat (ni st))), <- !lookup_drop. by rewrite nv_in0.
Qed.

Lemma minus_keep_spec st out x :
  minus_inv st out → ni st < rowid_num la →
  ∃ st', minus_keep st x = Some st' ∧ minus_inv st' (out ++ [x]) ∧
    ni st' = ni st + 1 ∧ nj st' = nj st.
Proof.
  intros Hinv Hi. pose proof (minus_flat_len _ _ Hinv) as Hroom.
  destruct st as [i j k p q ns res pre]. destruct Hinv. simpl in *. subst p q res.
  destruct (set_rowid_spec ns k x) as (ns' & -> & Hwf & Hlen & Hflat); [done|lia|].
  cbn [mbind option_bind]. rewrite advance_block by lia.
  assert (length (flat ns) = length (flat ns')) as Hl by by rewrite Hflat, length_insert.
  assert (minus_inv (MinusState (i + 1) j (k + 1) (at_block (i + 1)) (at_block j) ns'
    (at_block (k + 1)) (if (k + 1) `mod` ROWID_ARRAY_SIZE =? 0 then Some (at_block k) else pre))
    (out ++ [x])) as Hinv'.
  { split; simpl; try done; try lia.
    - intros _ H. rewrite H. unfold at_block, ROWID_ARRAY_SIZE in *. simpl. f_equal. zdiv.
    - rewrite Hflat. replace (Z.to_nat (k + 1)) with (S (Z.to_nat k)) by lia.
      unfold zlen in *.
      erewrite take_S_r by (apply list_lookup_insert_eq; lia).
      rewrite take_insert_ge by lia. by subst out.
    - rewrite Hflat. rewrite drop_insert_lt by lia.
      replace (Z.to_nat (i + 1)) with (Z.to_nat i + 1)%nat by lia.
      by rewrite <- !drop_drop, nv_in0. }
  unfold at_block, ROWID_ARRAY_SIZE in *.
  destruct (Z.eqb_spec ((k + 1) `mod` 256) 0).
  - eexists. split; [done|]. split; [|done].
    replace (S (Z.to_nat (k / 256))) with (Z.to_nat ((k + 1) / 256)) by zdiv. done.
  - eexists. split; [done|]. split; [|done].
    replace (Z.to_nat (k / 256)) with (Z.to_nat ((k + 1) / 256)) by zdiv. done.
Qed.

Lemma minus_step_spec st out :
  minus_inv st out → ni st < rowid_num la → nj st < rowid_num lb →
  ∃ st' out', minus_step lb st = Some st' ∧ minus_inv st' out' ∧
    ni st + nj st < ni st' + nj st' ∧
    out' ++ merge_minus (todo_a st') (todo_b st') = out ++ merge_minus (todo_a st) (todo_b st).
Proof.
  intros Hinv Hi Hj. pose proof (minus_read _ _ Hinv Hi) as Hrd.
  destruct (todo_next la (ni st)) as (x & Hx & Hdx); [done|destruct Hinv; lia|].
  destruct (todo_next lb (nj st)) as (y & Hy & Hdy); [done|destruct Hinv; lia|].
  unfold todo_a, todo_b. rewrite Hdx, Hdy, merge_minus_cons, <- Hdy.
  pose proof (minus_keep_spec st out x Hinv Hi) as (st1 & Hk & Hinv1 & Ei & Ej).
  destruct st as [i j k p q ns res pre]. cbn [ni nj nk np nq nns] in *.
  pose proof (nv_q _ _ Hinv) as Hq. pose proof (nv_p _ _ Hinv) as Hp.
  pose proof (nv_j _ _ Hinv) as Hj0. pose proof (nv_k _ _ Hinv) as Hk0.
  cbn [ni nj nk np nq nns] in *. subst p q.
  cbn [minus_step]. rewrite Hrd, Hx. cbn [mbind option_bind].
  rewrite node_rowid_elems, Hy by (done || lia). cbn [mbind option_bind].
  destruct (x >? y) eqn:E1; [|destruct (x <? y) eqn:E2].
  - rewrite Hk. exists st1, (out ++ [x]). rewrite Ei, Ej. split_and!; [done|done|lia|].
    by rewrite <- app_assoc.
  - eexists _, out. split; [done|]. rewrite advance_block by lia.
    destruct Hinv. split; [by split; simpl in *; try done; lia|]. simpl. split; [lia|].
    by rewrite Hdx.
  - eexists _, out. split; [done|]. rewrite !advance_block by lia.
    destruct Hinv. split; [|by simpl; split; [lia|]].
    split; simpl in *; try done; try lia.
    replace (Z.to_nat (i + 1)) with (Z.to_nat i + 1)%nat by lia.
    by rewrite <- !drop_drop, nv_in0.
Qed.

Lemma minus_loop_spec fuel st out :
  minus_inv st out → rowid_num la + rowid_num lb - ni st - nj st ≤ Z.of_nat fuel →
  ∃ st' out', minus_loop fuel la lb st = Some st' ∧ minus_inv st' out' ∧
    (ni st' = rowid_num la ∨ nj st' = rowid_num lb) ∧
    out' ++ merge_minus (todo_a st') (todo_b st') = out ++ merge_minus (todo_a st) (todo_b st).
Proof.
  revert st out. induction fuel as [|fuel IH]; intros st out Hinv Hf.
  { exists st, out. destruct Hinv. split_and!; try done. left. lia. }
  cbn [minus_loop]. destruct (Z.ltb_spec (ni st) (rowid_num la)); simpl.
  2:{ exists st, out. destruct Hinv. split_and!; try done. left. lia. }
  destruct (Z.ltb_spec (nj st) (rowid_num lb)); simpl.
  2:{ exists st, out. destruct Hinv. split_and!; try done. right. lia. }
  destruct (minus_step_spec st out) as (st1 & out1 & -> & Hinv1 & Hlt & Heq); [done..|].
  cbn [mbind option_bind].
  destruct (IH st1 out1) as (st2 & out2 & ? & ? & ? & Heq2); [done|lia|].
  exists st2, out2. split_and!; try done. by rewrite Heq2.
Qed.

Lemma minus_rest_spec fuel st out :
  minus_inv st out → rowid_num la - ni st ≤ Z.of_nat fuel →
  ∃ st', minus_rest fuel la st = Some st' ∧ minus_inv st' (out ++ todo_a st).
Proof.
  assert (∀ i, rowid_num la ≤ i → drop (Z.to_nat i) (elems la) = []) as Hend.
  { intros i Hi. apply drop_ge. pose proof (zlen_elems _ Ha). unfold zlen in *. lia. }
  revert st out. induction fuel as [|fuel IH]; intros st out Hinv Hf; unfold todo_a.
  { exists st. destruct (Hinv). rewrite Hend by lia. by rewrite app_nil_r. }
  cbn [minus_rest]. destruct (Z.ltb_spec (ni st) (rowid_num la)).
  2:{ exists st. rewrite Hend by lia. by rewrite app_nil_r. }
  rewrite (minus_read st out) by done.
  destruct (todo_next la (ni st)) as (x & -> & Hdx); [done|destruct Hinv; lia|].
  cbn [mbind option_bind].
  destruct (minus_keep_spec st out x) as (st1 & -> & Hinv1 & Ei & _); [done..|].
  cbn [mbind option_bind]. destruct (IH st1 (out ++ [x])) as (st2 & ? & Hinv2); [done|lia|].
  exists st2. split; [done|]. unfold todo_a in Hinv2. rewrite Ei, <- app_assoc in Hinv2.
  by rewrite Hdx.
Qed.

Lemma minus_init_inv : minus_inv (MinusState 0 0 0 0 0 (nodes la) 0 None) [].
Proof.
  destruct Ha, Hb. split; simpl; try done; lia.
Qed.

(** Cutting the chain after the last used node. *)
Lemma minus_result st out :
  minus_inv st out → nk st ≠ 0 →
  ∃ res, (if nk st `mod` ROWID_ARRAY_SIZE =? 0 then npre st else Some (nres st)) = Some res ∧
    is_Some (nns st !! res) ∧
    list_tight (RowidList (nk st) (take (S res) (nns st)) (Some res)) ∧
    elems (RowidList (nk st) (take (S res) (nns st)) (Some res)) = out.
Proof.
  intros Hinv H0. pose proof (minus_flat_len _ _ Hinv) as Hroom. destruct Hinv.
  rewrite zlen_flat in Hroom by done. unfold zlen in Hroom. destruct Ha as [Hn _ _].
  set (k := nk st) in *. exists (Z.to_nat ((k - 1) / ROWID_ARRAY_SIZE)).
  assert ((Z.to_nat ((k - 1) / ROWID_ARRAY_SIZE) < length (nns st))%nat) as Hlt
    by (unfold ROWID_ARRAY_SIZE in *; zdiv).
  split; [|split; [by apply lookup_lt_is_Some_2|]].
  { destruct (Z.eqb_spec (k `mod` ROWID_ARRAY_SIZE) 0).
    - rewrite nv_pre0 by done. f_equal. unfold at_block, ROWID_ARRAY_SIZE in *. zdiv.
    - rewrite nv_res0. f_equal. unfold at_block, ROWID_ARRAY_SIZE in *. zdiv. }
  split.
  - split; [split|..]; cbn [rowid_num nodes tail].
    + lia.
    + by apply Forall_take.
    + unfold zlen. rewrite length_take. unfold ROWID_ARRAY_SIZE in *. zdiv.
    + unfold zlen. rewrite length_take. unfold ROWID_ARRAY_SIZE in *. zdiv.
    + assert (length (take (S (Z.to_nat ((k - 1) / ROWID_ARRAY_SIZE))) (nns st))
        = S (Z.to_nat ((k - 1) / ROWID_ARRAY_SIZE))) as Hl by (rewrite length_take; lia).
      match goal with |- _ = match ?t with _ => _ end => destruct t as [|nd l] eqn:E end;
        [simpl in Hl; lia|]. rewrite Hl. f_equal. lia.
  - unfold elems. cbn [rowid_num nodes]. rewrite flat_take, take_take by done.
    rewrite Nat.min_l; [done|]. unfold BLK, ROWID_ARRAY_SIZE in *. zdiv.
Qed.
End minus_proofs.

Lemma rowid_minus_refines la lb :
  list_wf la → list_wf lb → rowid_num la ≠ 0 → rowid_num lb ≠ 0 →
  ∃ l, rowid_minus (Ptr la) (Ptr lb) = Some (Ptr l) ∧ list_tight l ∧
    elems l = merge_minus (elems la) (elems lb).
Proof.
  intros Ha Hb Hna Hnb. unfold rowid_minus.
  rewrite !(proj2 (Z.eqb_neq _ _)) by done. cbn [orb]. pose proof (lw_num _ Ha). pose proof (lw_num _ Hb).
  destruct (minus_loop_spec la lb Ha Hb (merge_fuel la lb) _ _ (minus_init_inv la lb Ha Hb))
    as (st & out & -> & Hinv & Hend & Heq); [unfold merge_fuel; simpl; lia|].
  cbn [mbind option_bind].
  destruct (minus_rest_spec la lb Ha (Z.to_nat (rowid_num la)) st out)
    as (st' & -> & Hinv'); [done|destruct Hinv; lia|]. cbn [mbind option_bind].
  assert (out ++ todo_a la st = merge_minus (elems la) (elems lb)) as Hout.
  { unfold todo_a, todo_b in *. cbn [ni nj] in Heq. rewrite !drop_0 in Heq. simpl in Heq.
    rewrite <- Heq. pose proof (zlen_elems _ Ha). pose proof (zlen_elems _ Hb). unfold zlen in *.
    destruct Hend.
    - rewrite (drop_ge (elems la)) by lia. by rewrite merge_minus_nil_l.
    - rewrite (drop_ge (elems lb)) by lia. by rewrite merge_minus_nil_r. }
  rewrite Hout in Hinv'. destruct (Z.eqb_spec (nk st') 0) as [E0|E0].
  - eexists. split; [done|]. destruct rowid_list_init_tight as [Ht _]. split; [exact Ht|].
    rewrite <- (nv_out _ _ _ _ Hinv'), E0. done.
  - destruct (minus_result la lb Ha _ _ Hinv' E0) as (res & -> & [nd Hnd] & Ht & He).
    cbn [mbind option_bind]. rewrite Hnd. cbn [mbind option_bind]. eauto.
Qed.

(** ** Scores: what a merge says of each id *)

Fixpoint assoc {B} (xs : list (Z * B)) (v : Z) : option B :=
  match xs with
  | [] => None
  | (x, s) :: xs => if decide (v = x) then Some s else assoc xs v
  end.

Definition union_score (sx sy : option (option double)) : option double :=
  match sx, sy with
  | None, None => None
  | Some s, None | None, Some s => Some (default d0 s)
  | Some s, Some t => Some (both s t)
  end.

Definition inter_score (sx sy : option (option double)) : option double :=
  match sx, sy with Some s, Some t => Some (both s t) | _, _ => None end.

Lemma assoc_absent {B} (xs : list (Z * B)) v : v ∉ xs.*1 → assoc xs v = None.
Proof.
  induction xs as [|[x s] xs IH]; [done|]. rewrite fmap_cons, not_elem_of_cons. intros [Hx H].
  simpl in *. rewrite decide_False by done. by apply IH.
Qed.

Lemma assoc_below {B} (xs : list (Z * B)) x v :
  (∀ y, y ∈ xs.*1 → y < x) → x ≤ v → assoc xs v = None.
Proof. intros H Hv. apply assoc_absent. intros Hin%H. lia. Qed.

Lemma assoc_weight xs v : assoc (weight <$> xs) v = default d0 <$> assoc xs v.
Proof.
  induction xs as [|[x s] xs IH]; [done|]. rewrite fmap_cons. simpl. by case_decide.
Qed.

Lemma merge_union_assoc xs ys v :
  desc xs.*1 → desc ys.*1 → assoc (merge_union xs ys) v = union_score (assoc xs v) (assoc ys v).
Proof.
  revert xs ys. refine (merge_ind (A:=Z * option double) fst _ _ _ _ _ _).
  - intros ys _ _. rewrite merge_union_nil_l, assoc_weight. simpl. by destruct (assoc ys v).
  - intros xs _ _. rewrite merge_union_nil_r, assoc_weight. simpl. by destruct (assoc xs v).
  - intros [x sx] xs [y sy] ys Hk IH Hx Hy. rewrite merge_union_cons. merge_branch.
    rewrite !fmap_cons in *. simpl in Hx, Hy, Hk. pose proof (desc_cons_inv _ _ Hy) as [? Hy'].
    apply desc_cons_inv in Hx as [Hx Hx']. specialize (IH Hx Hy). cbn [assoc] in IH |- *.
    destruct (decide (v = x)) as [->|Hv]; [|done].
    rewrite decide_False by lia. by rewrite (assoc_below ys y x) by (done || lia).
  - intros [x sx] xs [y sy] ys Hk IH Hx Hy. rewrite merge_union_cons. merge_branch.
    rewrite !fmap_cons in *. simpl in Hx, Hy, Hk. pose proof (desc_cons_inv _ _ Hx) as [? Hx'].
    apply desc_cons_inv in Hy as [Hy Hy']. specialize (IH Hx Hy). cbn [assoc] in IH |- *.
    destruct (decide (v = y)) as [->|Hv]; [|done].
    rewrite decide_False by lia. by rewrite (assoc_below xs x y) by (done || lia).
  - intros [x sx] xs [y sy] ys Hk IH Hx Hy. rewrite merge_union_cons. merge_branch.
    rewrite !fmap_cons in *. simpl in Hx, Hy, Hk. subst y. apply desc_cons_inv in Hx as [Hx Hx'].
    apply desc_cons_inv in Hy as [Hy Hy']. specialize (IH Hx Hy). cbn [assoc] in IH |- *.
    by destruct (decide (v = x)).
Qed.

Lemma merge_inter_assoc xs ys v :
  desc xs.*1 → desc ys.*1 → assoc (merge_inter xs ys) v = inter_score (assoc xs v) (assoc ys v).
Proof.
  revert xs ys. refine (merge_ind (A:=Z * option double) fst _ _ _ _ _ _).
  - intros ys _ _. by rewrite merge_inter_nil_l.
  - intros xs _ _. rewrite merge_inter_nil_r. simpl. by destruct (assoc xs v).
  - intros [x sx] xs [y sy] ys Hk IH Hx Hy. rewrite merge_inter_cons. merge_branch.
    rewrite !fmap_cons in *. simpl in Hx, Hy, Hk. pose proof (desc_cons_inv _ _ Hy) as [? Hy'].
    apply desc_cons_inv in Hx as [Hx Hx']. rewrite IH by done. cbn [assoc].
    destruct (decide (v = x)) as [->|Hv]; [|done].
    rewrite decide_False by lia. rewrite (assoc_below ys y x) by (done || lia).
    by destruct (assoc xs x).
  - intros [x sx] xs [y sy] ys Hk IH Hx Hy. rewrite merge_inter_cons. merge_branch.
    rewrite !fmap_cons in *. simpl in Hx, Hy, Hk. pose proof (desc_cons_inv _ _ Hx) as [? Hx'].
    apply desc_cons_inv in Hy as [Hy Hy']. rewrite IH by done. cbn [assoc].
    destruct (decide (v = y)) as [->|Hv]; [|done].
    rewrite decide_False by lia. by rewrite (assoc_below xs x y) by (done || lia).
  - intros [x sx] xs [y sy] ys Hk IH Hx Hy. rewrite merge_inter_cons. merge_branch.
    rewrite !fmap_cons in *. simpl in Hx, Hy, Hk. subst y. apply desc_cons_inv in Hx as [Hx Hx'].
    apply desc_cons_inv in Hy as [Hy Hy']. specialize (IH Hx Hy). cbn [assoc] in IH |- *.
    by destruct (decide (v = x)).
Qed.

(** ** The set interface *)

(** [p] is a descending list of row ids below [M]. *)
Record rows_ok (M : Z) (p : ptr rowid_list) : Prop := {
  ro_wf : ptr_wf p;
  ro_desc : desc (ids p);
  ro_range : ∀ v, v ∈ ids p → 0 ≤ v < M
}.

Definition id_set (p : ptr rowid_list) : gset Z := list_to_set (ids p).

(** What the segment level and the query evaluator need of an operation on row
    id lists: it computes [sem] on the sets and keeps the lists well formed. *)
Class SetOp (op : ptr rowid_list → ptr rowid_list → option (ptr rowid_list))
    (sem : gset Z → gset Z → gset Z) : Prop :=
  set_op_ok : ∀ M a b, M < 2 ^ 31 → rows_ok M a → rows_ok M b →
    ∃ r, op a b = Some r ∧ rows_ok M r ∧ id_set r = sem (id_set a) (id_set b).

(** A descending list of ids below [M] has at most [M] of them. *)
Lemma desc_length M l : desc l → (∀ v, v ∈ l → 0 ≤ v < M) → zlen l ≤ Z.max 0 M.
Proof.
  revert M. induction l as [|x l IH]; intros M Hd Hr; [unfold zlen; simpl; lia|].
  apply desc_cons_inv in Hd as [Hd Hlt].
  assert (0 ≤ x < M) as Hx by (apply Hr; left).
  assert (zlen l ≤ Z.max 0 x) as Hl.
  { apply IH; [done|]. intros v Hv. split; [|by apply Hlt]. apply Hr. by right. }
  unfold zlen in *. simpl. lia.
Qed.

Lemma rows_num M l : rows_ok M (Ptr l) → 0 ≤ rowid_num l ≤ Z.max 0 M.
Proof.
  intros [Hw Hd Hr]. simpl in *. pose proof (lw_num _ Hw).
  rewrite <- zlen_elems by done. split; [apply zlen_nonneg|by apply desc_length].
Qed.

Lemma rows_elems M l : rows_ok M (Ptr l) → list_wf l ∧ desc (entries l).*1.
Proof. intros [Hw Hd _]. split; [done|]. by rewrite fst_entries. Qed.

(** The result of a union or an intersection, from its weights. *)
Lemma rows_result M l xs :
  list_wf l → weights l = xs → desc xs.*1 → (∀ v, v ∈ xs.*1 → 0 ≤ v < M) →
  rows_ok M (Ptr l) ∧ id_set (Ptr l) = list_to_set xs.*1.
Proof.
  intros Hw Hl Hd Hr. assert (elems l = xs.*1) as He by by rewrite <- fst_weights, Hl.
  unfold id_set. simpl. rewrite He. split; [|done]. split; simpl; by rewrite ?He.
Qed.

Definition nonempty (p : ptr rowid_list) : option rowid_list :=
  match p with
  | NULL => None
  | Ptr l => if rowid_num l =? 0 then None else Some l
  end.

Lemma nonempty_Some p l : nonempty p = Some l → p = Ptr l ∧ rowid_num l ≠ 0.
Proof.
  destruct p as [|l']; simpl; [done|]. destruct (Z.eqb_spec (rowid_num l') 0); naive_solver.
Qed.

Lemma nonempty_None M p : rows_ok M p → nonempty p = None → id_set p = ∅.
Proof.
  intros [Hw _ _]. destruct p as [|l]; [done|]. simpl.
  destruct (Z.eqb_spec (rowid_num l) 0); [|done]. unfold id_set. simpl. by rewrite ids_empty.
Qed.

Lemma union_merge M la lb :
  M < 2 ^ 31 → rows_ok M (Ptr la) → rows_ok M (Ptr lb) → rowid_num la ≠ 0 → rowid_num lb ≠ 0 →
  ∃ l, rowid_union (Ptr la) (Ptr lb) = Some (Ptr l) ∧ rows_ok M (Ptr l) ∧
    weights l = merge_union (entries la) (entries lb) ∧
    id_set (Ptr l) = id_set (Ptr la) ∪ id_set (Ptr lb).
Proof.
  intros HM Ha Hb Hna Hnb. pose proof (rows_num _ _ Ha). pose proof (rows_num _ _ Hb).
  destruct (rows_elems _ _ Ha) as [Hwa Hda], (rows_elems _ _ Hb) as [Hwb Hdb].
  destruct (rowid_union_refines la lb) as (l & -> & Hw & Hl); [done..|lia|].
  exists l. split; [done|].
  destruct (rows_result M l _ Hw Hl) as [Hok Hset].
  - by apply merge_union_desc.
  - intros v. rewrite merge_union_elem, !fst_entries by done.
    intros [Hv|Hv]; [by apply Ha|by apply Hb].
  - split_and!; [done..|]. rewrite Hset. apply set_eq. intros v.
    rewrite elem_of_list_to_set, merge_union_elem, !fst_entries by done.
    unfold id_set. set_solver.
Qed.

Lemma intersection_merge M la lb :
  M < 2 ^ 31 → rows_ok M (Ptr la) → rows_ok M (Ptr lb) → rowid_num la ≠ 0 → rowid_num lb ≠ 0 →
  ∃ l, rowid_intersection (Ptr la) (Ptr lb) = Some (Ptr l) ∧ rows_ok M (Ptr l) ∧
    weights l = merge_inter (entries la) (entries lb) ∧
    id_set (Ptr l) = id_set (Ptr la) ∩ id_set (Ptr lb).
Proof.
  intros HM Ha Hb Hna Hnb. pose proof (rows_num _ _ Ha). pose proof (rows_num _ _ Hb).
  destruct (rows_elems _ _ Ha) as [Hwa Hda], (rows_elems _ _ Hb) as [Hwb Hdb].
  destruct (rowid_intersection_refines la lb) as (l & -> & Hw & Hl); [done..|lia|].
  exists l. split; [done|].
  destruct (rows_result M l _ Hw Hl) as [Hok Hset].
  - by apply merge_inter_desc.
  - intros v. rewrite merge_inter_elem, !fst_entries by done. intros [Hv _]. by apply Ha.
  - split_and!; [done..|]. rewrite Hset. apply set_eq. intros v.
    rewrite elem_of_list_to_set, merge_inter_elem, !fst_entries by done.
    unfold id_set. set_solver.
Qed.

Lemma minus_merge M la lb :
  rows_ok M (Ptr la) → rows_ok M (Ptr lb) → rowid_num la ≠ 0 → rowid_num lb ≠ 0 →
  ∃ l, rowid_minus (Ptr la) (Ptr lb) = Some (Ptr l) ∧ rows_ok M (Ptr l) ∧ list_tight l ∧
    id_set (Ptr l) = id_set (Ptr la) ∖ id_set (Ptr lb).
Proof.
  intros [Hwa Hda Hra] [Hwb Hdb Hrb] Hna Hnb. cbn [ids ptr_wf] in *.
  destruct (rowid_minus_refines la lb) as (l & -> & Ht & Hl); [done..|].
  exists l. split; [done|]. split_and!; [|done|].
  - split; simpl; rewrite ?Hl; [by destruct Ht|by apply merge_minus_desc|].
    intros v [Hv _]%merge_minus_elem; [|done..]. by apply Hra.
  - unfold id_set. simpl. rewrite Hl. apply set_eq. intros v.
    rewrite elem_of_list_to_set, merge_minus_elem by done. set_solver.
Qed.

(** The guards of the three operations, on empty operands. *)

Lemma union_empty a b :
  nonempty a = None ∨ nonempty b = None →
  rowid_union a b = Some (if decide (nonempty a = None) then b else a).
Proof.
  intros H. unfold rowid_union. destruct a as [|la]; [done|]. simpl nonempty.
  destruct (Z.eqb_spec (rowid_num la) 0) as [E|E].
  - rewrite decide_True by done. by destruct b.
  - rewrite decide_False by done. destruct H as [H|H]; simpl in H.
    + by rewrite (proj2 (Z.eqb_neq _ _)) in H.
    + destruct b as [|lb]; [done|]. simpl in H. by destruct (Z.eqb_spec (rowid_num lb) 0).
Qed.

Lemma intersection_empty a b :
  nonempty a = None ∨ nonempty b = None →
  rowid_intersection a b = Some (if decide (nonempty a = None) then a else b).
Proof.
  intros H. unfold rowid_intersection. destruct a as [|la]; [done|]. simpl nonempty.
  destruct (Z.eqb_spec (rowid_num la) 0) as [E|E].
  - rewrite decide_True by done. by destruct b.
  - rewrite decide_False by done. destruct H as [H|H]; simpl in H.
    + by rewrite (proj2 (Z.eqb_neq _ _)) in H.
    + destruct b as [|lb]; [done|]. simpl in H. by destruct (Z.eqb_spec (rowid_num lb) 0).
Qed.

Lemma minus_empty a b :
  nonempty a = None ∨ nonempty b = None → rowid_minus a b = Some a.
Proof.
  intros H. unfold rowid_minus. destruct a as [|la], b as [|lb]; try done. simpl in H.
  destruct (Z.eqb_spec (rowid_num la) 0), (Z.eqb_spec (rowid_num lb) 0); naive_solver.
Qed.

#[export] Instance rowid_union_set : SetOp rowid_union (∪).
Proof.
  intros M a b HM Ha Hb. destruct (nonempty a) as [la|] eqn:Ea.
  - destruct (nonempty b) as [lb|] eqn:Eb.
    + apply nonempty_Some in Ea as [-> ?], Eb as [-> ?].
      destruct (union_merge M la lb) as (l & ? & ? & _ & ?); eauto.
    + exists a. rewrite union_empty, decide_False by (by right || by rewrite Ea).
      split_and!; [done..|]. rewrite (nonempty_None _ _ Hb Eb). set_solver.
  - exists b. rewrite union_empty, decide_True by (by left || done).
    split_and!; [done..|]. rewrite (nonempty_None _ _ Ha Ea). set_solver.
Qed.

#[export] Instance rowid_intersection_set : SetOp rowid_intersection (∩).
Proof.
  intros M a b HM Ha Hb. destruct (nonempty a) as [la|] eqn:Ea.
  - destruct (nonempty b) as [lb|] eqn:Eb.
    + apply nonempty_Some in Ea as [-> ?], Eb as [-> ?].
      destruct (intersection_merge M la lb) as (l & ? & ? & _ & ?); eauto.
    + exists b. rewrite intersection_empty, decide_False by (by right || by rewrite Ea).
      split_and!; [done..|]. rewrite (nonempty_None _ _ Hb Eb). set_solver.
  - exists a. rewrite intersection_empty, decide_True by (by left || done).
    split_and!; [done..|]. rewrite (nonempty_None _ _ Ha Ea). set_solver.
Qed.

#[export] Instance rowid_minus_set : SetOp rowid_minus (∖).
Proof.
  intros M a b HM Ha Hb. destruct (nonempty a) as [la|] eqn:Ea.
  - destruct (nonempty b) as [lb|] eqn:Eb.
    + apply nonempty_Some in Ea as [-> ?], Eb as [-> ?].
      destruct (minus_merge M la lb) as (l & ? & ? & _ & ?); eauto.
    + exists a. rewrite minus_empty by by right.
      split_and!; [done..|]. rewrite (nonempty_None _ _ Hb Eb). set_solver.
  - exists a. rewrite minus_empty by by left.
    split_and!; [done..|]. rewrite (nonempty_None _ _ Ha Ea). set_solver.
Qed.

(** ** The operations on row id lists *)

(** C32: the union of two descending row id lists of distinct ids (below [M],
    which bounds the segment's row count) returns, without a memory error, a
    well-formed descending list whose ids are exactly those of either operand;
    when both are non-empty, the score of each id is the sum of the scores it
    has in the operands (scores absent in a node count as zero). *)
Theorem rowid_union_correct M a b :
  M < 2 ^ 31 → rows_ok M a → rows_ok M b →
  ∃ r, rowid_union a b = Some r ∧ rows_ok M r ∧ id_set r = id_set a ∪ id_set b ∧
    ∀ la lb, nonempty a = Some la → nonempty b = Some lb →
    ∃ l, r = Ptr l ∧
      ∀ v, assoc (weights l) v = union_score (assoc (entries la) v) (assoc (entries lb) v).
Proof.
  intros HM Ha Hb. destruct (set_op_ok (op:=rowid_union) M a b HM Ha Hb) as (r & Hr & Hok & Hs).
  exists r. split_and!; [done..|]. intros la lb Ea Eb.
  apply nonempty_Some in Ea as [-> ?], Eb as [-> ?].
  destruct (union_merge M la lb) as (l & Hl & _ & Hw & _); [done..|].
  rewrite Hl in Hr. simplify_eq. exists l. split; [done|]. intros v. rewrite Hw.
  apply merge_union_assoc; by eapply rows_elems.
Qed.

(** C33: the intersection of two descending row id lists returns, without a
    memory error, a well-formed descending list of exactly the common ids,
    each with the sum of its two scores. *)
Theorem rowid_intersection_correct M a b :
  M < 2 ^ 31 → rows_ok M a → rows_ok M b →
  ∃ r, rowid_intersection a b = Some r ∧ rows_ok M r ∧ id_set r = id_set a ∩ id_set b ∧
    ∀ la lb, nonempty a = Some la → nonempty b = Some lb →
    ∃ l, r = Ptr l ∧
      ∀ v, assoc (weights l) v = inter_score (assoc (entries la) v) (assoc (entries lb) v).
Proof.
  intros HM Ha Hb.
  destruct (set_op_ok (op:=rowid_intersection) M a b HM Ha Hb) as (r & Hr & Hok & Hs).
  exists r. split_and!; [done..|]. intros la lb Ea Eb.
  apply nonempty_Some in Ea as [-> ?], Eb as [-> ?].
  destruct (intersection_merge M la lb) as (l & Hl & _ & Hw & _); [done..|].
  rewrite Hl in Hr. simplify_eq. exists l. split; [done|]. intros v. rewrite Hw.
  apply merge_inter_assoc; by eapply rows_elems.
Qed.

(** C34: the in-place difference never overwrites an id of [lista] it has still
    to read: it returns a well-formed descending list of exactly the ids of
    [lista] that are not in [listb], and the chain is cut after its last used
    node, so that ids can be appended to it again. *)
Theorem rowid_minus_correct M a b :
  M < 2 ^ 31 → rows_ok M a → rows_ok M b →
  ∃ r, rowid_minus a b = Some r ∧ rows_ok M r ∧ id_set r = id_set a ∖ id_set b ∧
    (is_Some (nonempty a) → is_Some (nonempty b) → ∃ l, r = Ptr l ∧ list_tight l).
Proof.
  intros HM Ha Hb. destruct (set_op_ok (op:=rowid_minus) M a b HM Ha Hb) as (r & Hr & Hok & Hs).
  exists r. split_and!; [done..|]. intros [la Ea] [lb Eb].
  apply nonempty_Some in Ea as [-> ?], Eb as [-> ?].
  destruct (minus_merge M la lb) as (l & Hl & _ & Ht & _); [done..|].
  rewrite Hl in Hr. simplify_eq. by exists l.
Qed.

(** *** Concrete lists *)

(** A one-node list holding [xs]. *)
Definition one_node (xs : list Z) (sc : option (list double)) : rowid_list :=
  RowidList (zlen xs) [Node (xs ++ replicate (BLK - length xs) 0) sc] (Some 0%nat).

Lemma one_node_ok M xs sc :
  (length xs ≤ BLK)%nat → desc xs → Forall (λ v, 0 ≤ v < M) xs →
  (∀ s, sc = Some s → length s = BLK) →
  rows_ok M (Ptr (one_node xs sc)) ∧ elems (one_node xs sc) = xs.
Proof.
  intros Hl Hd Hr Hsc.
  assert (elems (one_node xs sc) = xs) as He.
  { unfold elems, one_node, flat, zlen. cbn [rowid_num nodes fmap list_fmap rowid_array concat].
    rewrite Nat2Z.id, app_nil_r. apply take_app_length. }
  split; [|done]. split; cbn [ids ptr_wf]; rewrite ?He; [|done|].
  - split; cbn [one_node rowid_num nodes].
    + unfold zlen. unfold BLK, ROWID_ARRAY_SIZE in Hl. lia.
    + apply Forall_singleton. split; cbn [rowid_array score_array]; [|done].
      rewrite length_app, length_replicate. lia.
    + unfold zlen. cbn [length]. unfold BLK, ROWID_ARRAY_SIZE in *. lia.
  - intros v Hv. rewrite List.Forall_forall in Hr. by apply Hr, list_elem_of_In.
Qed.

Ltac solve_desc := repeat constructor.

Lemma rowid_union_correct_witness :
  rows_ok 100 (Ptr (one_node [9; 5; 2] None)) ∧ rows_ok 100 (Ptr (one_node [7; 5] None)) ∧
  ∃ r, rowid_union (Ptr (one_node [9; 5; 2] None)) (Ptr (one_node [7; 5] None)) = Some r ∧
    ids r = [9; 7; 5; 2] ∧ id_set r = id_set (Ptr (one_node [9; 5; 2] None)) ∪ id_set (Ptr (one_node [7; 5] None)).
Proof.
  destruct (one_node_ok 100 [9; 5; 2] None) as [Ha _];
    [vm_compute; lia|solve_desc|repeat constructor; lia|done|].
  destruct (one_node_ok 100 [7; 5] None) as [Hb _];
    [vm_compute; lia|solve_desc|repeat constructor; lia|done|].
  split; [exact Ha|]. split; [exact Hb|].
  destruct (rowid_union_correct 100 _ _ ltac:(lia) Ha Hb) as (r & Hr & _ & Hs & _).
  exists r. split; [exact Hr|]. split; [|exact Hs].
  assert (rowid_union (Ptr (one_node [9; 5; 2] None)) (Ptr (one_node [7; 5] None)) = Some r) as E by exact Hr.
  vm_compute in E. injection E as <-. vm_compute. reflexivity.
Defined.

Lemma rowid_intersection_correct_witness :
  ∃ r, rowid_intersection (Ptr (one_node [9; 5; 2] None)) (Ptr (one_node [9; 7; 2] None)) = Some r ∧
    ids r = [9; 2] ∧
    id_set r = id_set (Ptr (one_node [9; 5; 2] None)) ∩ id_set (Ptr (one_node [9; 7; 2] None)).
Proof.
  destruct (one_node_ok 100 [9; 5; 2] None) as [Ha _];
    [vm_compute; lia|solve_desc|repeat constructor; lia|done|].
  destruct (one_node_ok 100 [9; 7; 2] None) as [Hb _];
    [vm_compute; lia|solve_desc|repeat constructor; lia|done|].
  destruct (rowid_intersection_correct 100 _ _ ltac:(lia) Ha Hb) as (r & Hr & _ & Hs & _).
  exists r. split; [exact Hr|]. split; [|exact Hs].
  assert (rowid_intersection (Ptr (one_node [9; 5; 2] None)) (Ptr (one_node [9; 7; 2] None)) = Some r)
    as E by exact Hr.
  vm_compute in E. injection E as <-. vm_compute. reflexivity.
Defined.

Lemma rowid_minus_correct_witness :
  ∃ r, rowid_minus (Ptr (one_node [9; 5; 2] None)) (Ptr (one_node [9; 7; 2] None)) = Some r ∧
    ids r = [5] ∧
    id_set r = id_set (Ptr (one_node [9; 5; 2] None)) ∖ id_set (Ptr (one_node [9; 7; 2] None)).
Proof.
  destruct (one_node_ok 100 [9; 5; 2] None) as [Ha _];
    [vm_compute; lia|solve_desc|repeat constructor; lia|done|].
  destruct (one_node_ok 100 [9; 7; 2] None) as [Hb _];
    [vm_compute; lia|solve_desc|repeat constructor; lia|done|].
  destruct (rowid_minus_correct 100 _ _ ltac:(lia) Ha Hb) as (r & Hr & _ & Hs & _).
  exists r. split; [exact Hr|]. split; [|exact Hs].
  assert (rowid_minus (Ptr (one_node [9; 5; 2] None)) (Ptr (one_node [9; 7; 2] None)) = Some r)
    as E by exact Hr.
  vm_compute in E. injection E as <-. vm_compute. reflexivity.
Defined.

(** The difference moves the ids but not their scores: after removing the
    first of two scored ids the second one carries the score of the first. *)
Theorem minus_misaligns_scores :
  ∃ r, rowid_minus (Ptr (one_node [9; 5] (Some (dadd d0 (S754_finite false 1 0)
                       :: replicate 255 d0)))) (Ptr (one_node [9] None)) = Some (Ptr r) ∧
    elems r = [5] ∧ weights r = [(5, dadd d0 (S754_finite false 1 0))].
Proof. eexists. split; [vm_compute; reflexivity|]. split; vm_compute; reflexivity. Qed.
