(* ===== verification/SegRowid.v ===== *)
(** * Result lists of a query ([src/storage/docdb/set_operator.c])

    The operations of [set_operator.c] that work on scores
    ([rowid_fulltext_hence], [rowid_list_setscore]) and their lifting to the
    per-segment result lists ([seg_rowid_*]). *)

From Stdlib Require Import ZArith Lia SpecFloat.
From stdpp Require Import base option list numbers sets gmap.
From S2P Require Import Prelude RowidList SetOperator.

(** ** [rowid_fulltext_hence], in place with scores *)

(** [p->score_array[i % SIZE]]; a NULL score array is dereferenced *)
Definition node_score (ns : list rowid_list_node) (p : nat) (i : Z) : option double :=
  nd ← ns !! p;
  s ← score_array nd;
  s⟦i `mod` ROWID_ARRAY_SIZE⟧.

(** [r->rowid_array[k % SIZE] = v; r->score_array[k % SIZE] = x] *)
Definition set_entry (ns : list rowid_list_node) (r : nat) (k v : Z) (x : double)
    : option (list rowid_list_node) :=
  nd ← ns !! r;
  a ← (rowid_array nd)⟦k `mod` ROWID_ARRAY_SIZE := v⟧;
  s ← score_array nd;
  s ← s⟦k `mod` ROWID_ARRAY_SIZE := x⟧;
  Some (<[r := Node a (Some s)]> ns).

(** The loop variables; [hr] is the node [r] written to. *)
Record hence_state := HenceState {
  hi : Z; hj : Z; hk : Z;
  hp : nat; hq : nat; hr : nat;
  hns : list rowid_list_node
}.

Definition hence_step (lb : rowid_list) (st : hence_state) : option hence_state :=
  let '(HenceState i j k p q r ns) := st in
  x ← node_rowid ns p i;
  y ← node_rowid (nodes lb) q j;
  if x >? y then
    sx ← node_score ns p i;
    ns ← set_entry ns r k x sx;
    let i := i + 1 in let p := advance p i in
    let k := k + 1 in let r := advance r k in
    Some (HenceState i j k p q r ns)
  else if x <? y then
    let j := j + 1 in Some (HenceState i j k p (advance q j) r ns)
  else
    sx ← node_score ns p i;
    sy ← node_score (nodes lb) q j;
    ns ← set_entry ns r k x (dadd sx sy);
    let i := i + 1 in let j := j + 1 in let k := k + 1 in
    Some (HenceState i j k (advance p i) (advance q j) (advance r k) ns).

Fixpoint hence_loop (fuel : nat) (la lb : rowid_list) (st : hence_state) : option hence_state :=
  match fuel with
  | O => Some st
  | S fuel =>
      if (hi st <? rowid_num la) && (hj st <? rowid_num lb)
      then st ← hence_step lb st; hence_loop fuel la lb st
      else Some st
  end.

Definition rowid_fulltext_hence (lista listb : ptr rowid_list) : option (ptr rowid_list) :=
  match lista, listb with
  | NULL, _ | _, NULL => Some lista
  | Ptr la, Ptr lb =>
      if (rowid_num la =? 0) || (rowid_num lb =? 0) then Some lista
      else
        st ← hence_loop (merge_fuel la lb) la lb (HenceState 0 0 0 0 0 0 (nodes la));
        if hk st =? 0 then Some (Ptr (RowidList 0 [] None))
        else
          let tl := if decide (hr st < length (hns st))%nat then Some (hr st) else None in
          Some (Ptr (RowidList (hk st) (hns st) tl))
  end.

(** ** [rowid_list_setscore] *)

Fixpoint setscore_loop (fuel : nat) (l : rowid_list) (score : double) (i : Z) (p : nat)
    (ns : list rowid_list_node) : option (list rowid_list_node) :=
  match fuel with
  | O => Some ns
  | S fuel =>
      if i <? rowid_num l then
        nd ← ns !! p;
        let s := default (replicate BLK d0) (score_array nd) in
        s ← s⟦i `mod` ROWID_ARRAY_SIZE := score⟧;
        let ns := <[p := Node (rowid_array nd) (Some s)]> ns in
        let i := i + 1 in
        setscore_loop fuel l score i (advance p i) ns
      else Some ns
  end.

Definition rowid_list_setscore (id_list : ptr rowid_list) (score : double)
    : option (ptr rowid_list) :=
  match id_list with
  | NULL => Some NULL
  | Ptr l =>
      ns ← setscore_loop (Z.to_nat (rowid_num l)) l score 0 0 (nodes l);
      Some (Ptr (RowidList (rowid_num l) ns (tail l)))
  end.

(** ** Per-segment result lists

    A query result is a list with one entry per segment: the segment id and the
    row ids found there. *)

Record segment_query_rowids := SegRowids { sid : Z; rowids : ptr rowid_list }.

Definition seg_list : Type := list segment_query_rowids.

(** [double_list_for_each_entry], which stops at the end of the shorter list;
    the first pair of different segments makes the operation return NULL. *)
Fixpoint seg_rows (op : ptr rowid_list → ptr rowid_list → option (ptr rowid_list))
    (lista listb rlist : seg_list) : option (ptr seg_list) :=
  match lista, listb with
  | a :: lista, b :: listb =>
      if negb (sid a =? sid b) then Some NULL
      else
        r ← op (rowids a) (rowids b);
        seg_rows op lista listb (rlist ++ [SegRowids (sid a) r])
  | _, _ => Some (Ptr rlist)
  end.

Definition seg_rowid_op op (lista listb : ptr seg_list) : option (ptr seg_list) :=
  match lista, listb with
  | NULL, _ | _, NULL => Some NULL
  | Ptr a, Ptr b => seg_rows op a b []
  end.

Definition seg_rowid_union := seg_rowid_op rowid_union.
Definition seg_rowid_intersection := seg_rowid_op rowid_intersection.
Definition seg_rowid_minus := seg_rowid_op rowid_minus.
Definition seg_rowid_fulltext_hence := seg_rowid_op rowid_fulltext_hence.

Definition seg_rowid_count (seglist : ptr seg_list) : Z :=
  match seglist with
  | NULL => 0
  | Ptr l =>
      foldl (λ count q,
        match rowids q with NULL => count | Ptr r => s32 (count + rowid_num r) end) 0 l
  end.

Fixpoint setscore_rows (l : seg_list) (score : double) : option seg_list :=
  match l with
  | [] => Some []
  | q :: l =>
      r ← rowid_list_setscore (rowids q) score;
      l ← setscore_rows l score;
      Some (SegRowids (sid q) r :: l)
  end.

Definition seg_rowid_setscore (seglist : ptr seg_list) (score : double) : option (ptr seg_list) :=
  match seglist with
  | NULL => Some NULL
  | Ptr l => l ← setscore_rows l score; Some (Ptr l)
  end.

(** ** Setting a score *)

(** Writing a score cell, with the array allocated on demand. *)
Lemma weights_set_cell ns i score nd x :
  Forall node_wf ns → 0 ≤ i → ns !! at_block i = Some nd → (flat ns)⟦i⟧ = Some x →
  let n := Z.to_nat (i `mod` ROWID_ARRAY_SIZE) in
  let nd' := Node (rowid_array nd)
               (Some (<[n := score]> (default (replicate BLK d0) (score_array nd)))) in
  node_wf nd' ∧ flat (<[at_block i := nd']> ns) = flat ns ∧
  concat (node_weights <$> <[at_block i := nd']> ns) =
  <[Z.to_nat i := (x, score)]> (concat (node_weights <$> ns)).
Proof.
  intros Hw Hi Hnd Hx n nd'. pose proof (Forall_lookup_1 _ _ _ _ Hw Hnd) as [Hl Hs].
  pose proof (idx_mod i) as Hmod. fold n in Hmod.
  assert ((rowid_array nd) !! n = Some x) as Hxn.
  { rewrite <- node_rowid_flat in Hx by done. unfold node_rowid in Hx. rewrite Hnd in Hx.
    cbn [mbind option_bind] in Hx. rewrite zget_lookup in Hx; [done|].
    unfold ROWID_ARRAY_SIZE. zdiv. }
  assert (length (default (replicate BLK d0) (score_array nd)) = BLK) as Hls.
  { unfold default, id. destruct (score_array nd); [by apply Hs|by rewrite length_replicate]. }
  split; [|split].
  - split; cbn [rowid_array score_array]; [done|]. intros s [= <-]. by rewrite length_insert.
  - unfold flat. rewrite list_fmap_insert. cbn [rowid_array].
    rewrite list_insert_id; [done|]. by rewrite list_lookup_fmap, Hnd.
  - rewrite list_fmap_insert.
    replace (node_weights nd') with (<[n := (x, score)]> (node_weights nd)).
    2:{ unfold node_weights, nd'. cbn [rowid_array score_array].
        rewrite <- zip_insert. by rewrite (list_insert_id (rowid_array nd)). }
    rewrite (insert_concat_blocks BLK);
      [|by apply weights_blocks|done|by rewrite list_lookup_fmap, Hnd].
    f_equal. symmetry. by apply idx_split.
Qed.

Lemma setscore_loop_spec fuel l score i ns :
  Forall node_wf ns → flat ns = flat (nodes l) → rowid_num l ≤ zlen (flat ns) →
  0 ≤ i ≤ rowid_num l → rowid_num l - i ≤ Z.of_nat fuel →
  ∃ ns', setscore_loop fuel l score i (at_block i) ns = Some ns' ∧
    Forall node_wf ns' ∧ flat ns' = flat (nodes l) ∧
    take (Z.to_nat (rowid_num l)) (concat (node_weights <$> ns')) =
    take (Z.to_nat i) (concat (node_weights <$> ns)) ++
    ((λ v, (v, score)) <$> drop (Z.to_nat i) (elems l)).
Proof.
  revert i ns. induction fuel as [|fuel IH]; intros i ns Hw Hf Hroom Hi Hfu; cbn [setscore_loop].
  - exists ns. split_and!; try done. replace i with (rowid_num l) by lia.
    rewrite (drop_ge (elems l)) by (unfold elems; rewrite length_take; lia).
    by rewrite app_nil_r.
  - destruct (Z.ltb_spec i (rowid_num l)).
    2:{ exists ns. split_and!; try done. replace i with (rowid_num l) by lia.
        rewrite (drop_ge (elems l)) by (unfold elems; rewrite length_take; lia).
        by rewrite app_nil_r. }
    destruct (zget_lt (flat ns) i) as [x Hx]; [lia|].
    destruct (lookup_lt_is_Some_2 ns (at_block i)) as [nd Hnd].
    { rewrite zlen_flat in Hroom by done. unfold at_block, zlen, ROWID_ARRAY_SIZE in *. zdiv. }
    destruct (weights_set_cell ns i score nd x) as (Hwn & Hfl & Hcw); [done|lia|done|done|].
    rewrite Hnd. cbn [mbind option_bind]. rewrite zset_in.
    2:{ pose proof (Forall_lookup_1 _ _ _ _ Hw Hnd) as [_ Hs]. unfold zlen, default, id.
        destruct (score_array nd); [rewrite Hs by done|rewrite length_replicate];
          unfold BLK, ROWID_ARRAY_SIZE; zdiv. }
    cbn [mbind option_bind]. rewrite advance_block by lia.
    destruct (IH (i + 1) (<[at_block i := Node (rowid_array nd)
      (Some (<[Z.to_nat (i `mod` ROWID_ARRAY_SIZE) := score]>
         (default (replicate BLK d0) (score_array nd))))]> ns))
      as (ns' & Hrun & Hw' & Hf' & Ht); [by apply Forall_insert|by rewrite Hfl|by rewrite Hfl|lia|lia|].
    exists ns'. split_and!; [done..|]. rewrite Ht, Hcw.
    assert (length (concat (node_weights <$> ns)) = length (flat ns)) as Hlen.
    { rewrite (length_concat_blocks BLK) by by apply weights_blocks.
      unfold flat. rewrite (length_concat_blocks BLK) by by apply nodes_blocks.
      by rewrite !length_fmap. }
    unfold zlen in Hroom. replace (Z.to_nat (i + 1)) with (S (Z.to_nat i)) by lia.
    erewrite take_S_r by (apply list_lookup_insert_eq; lia).
    rewrite take_insert_ge, <- app_assoc by lia. f_equal.
    rewrite (drop_S (elems l) x (Z.to_nat i)); [done|].
    unfold elems. rewrite lookup_take_lt, <- Hf, <- zget_lookup by lia. done.
Qed.

(** [rowid_list_setscore] gives every id of the list the given score,
    allocating the missing score arrays, and changes no id. *)
Theorem rowid_list_setscore_correct l score :
  list_wf l →
  ∃ l', rowid_list_setscore (Ptr l) score = Some (Ptr l') ∧ list_wf l' ∧
    elems l' = elems l ∧ weights l' = (λ v, (v, score)) <$> elems l.
Proof.
  intros Hw. pose proof (zlen_elems _ Hw). destruct Hw as [Hn Hns Hr]. unfold rowid_list_setscore.
  destruct (setscore_loop_spec (Z.to_nat (rowid_num l)) l score 0 (nodes l))
    as (ns & Hrun & Hw' & Hf & Ht); [done|done|rewrite zlen_flat by done; lia|lia|lia|].
  change (at_block 0) with 0%nat in Hrun. rewrite Hrun. cbn [mbind option_bind].
  eexists. split; [done|]. split; [|split].
  - split; cbn [rowid_num nodes]; [done|done|].
    pose proof (zlen_flat _ Hw'). pose proof (zlen_flat _ Hns). rewrite Hf in *. lia.
  - unfold elems. cbn [rowid_num nodes]. by rewrite Hf.
  - unfold weights. cbn [rowid_num nodes]. rewrite Ht. done.
Qed.

Lemma rowid_list_setscore_correct_witness :
  ∃ l', rowid_list_setscore (Ptr (one_node [9; 5; 2] None)) (dadd d0 d0) = Some (Ptr l') ∧
    weights l' = (λ v, (v, dadd d0 d0)) <$> [9; 5; 2].
Proof.
  destruct (one_node_ok 100 [9; 5; 2] None) as [Ha He];
    [vm_compute; lia|solve_desc|repeat constructor; lia|done|].
  destruct (rowid_list_setscore_correct (one_node [9; 5; 2] None) (dadd d0 d0) (ro_wf _ _ Ha))
    as (l' & H & _ & _ & Hw).
  exists l'. split; [exact H|]. rewrite Hw, He. reflexivity.
Defined.

(** ** [rowid_fulltext_hence] *)

Definition scored (ns : list rowid_list_node) : Prop := Forall (λ nd, is_Some (score_array nd)) ns.

(** The reference: walk [xs] while [ys] lasts, adding the scores of common ids. *)
Fixpoint merge_hence (xs : list (Z * double)) : list (Z * double) → list (Z * double) :=
  fix go ys :=
    match xs, ys with
    | [], _ | _, [] => []
    | (x, s) :: xs', (y, t) :: ys' =>
        if x >? y then (x, s) :: merge_hence xs' ys
        else if x <? y then go ys'
        else (x, dadd s t) :: merge_hence xs' ys'
    end.

Lemma merge_hence_cons x s xs y t ys :
  merge_hence ((x, s) :: xs) ((y, t) :: ys) =
  if x >? y then (x, s) :: merge_hence xs ((y, t) :: ys)
  else if x <? y then merge_hence ((x, s) :: xs) ys
  else (x, dadd s t) :: merge_hence xs ys.
Proof. done. Qed.

Lemma merge_hence_nil_l ys : merge_hence [] ys = [].
Proof. by destruct ys. Qed.

Lemma merge_hence_nil_r xs : merge_hence xs [] = [].
Proof. by destruct xs as [|[]]. Qed.

#[local] Arguments merge_hence : simpl never.

(** [y] is an id of [ys] not above [x]. *)
Definition reaches (ys : list (Z * double)) (x : Z) : Prop := Exists (λ y, y ≤ x) ys.*1.

#[local] Instance reaches_dec ys x : Decision (reaches ys x).
Proof. unfold reaches. apply _. Defined.

Definition hence_score (sx sy : option double) : option double :=
  match sx, sy with
  | Some s, Some t => Some (dadd s t)
  | _, _ => sx
  end.

Lemma merge_hence_ids xs ys :
  desc xs.*1 → desc ys.*1 → (merge_hence xs ys).*1 = filter (reaches ys) xs.*1.
Proof.
  assert (∀ x (xs : list Z) y ys, (∀ z, z ∈ xs → z < y) →
    filter (reaches ((y, x) :: ys)) xs = filter (reaches ys) xs) as Hskip.
  { intros x xs' y ys' H. apply filter_ext_in. intros z Hz. unfold reaches.
    rewrite fmap_cons, Exists_cons. simpl. pose proof (H z Hz). split; [|tauto].
    intros [?|?]; [lia|done]. }
  revert xs ys. refine (merge_ind (A:=Z * double) fst _ _ _ _ _ _).
  - intros ys _ _. by rewrite merge_hence_nil_l.
  - intros xs _ _. rewrite merge_hence_nil_r. symmetry. apply filter_none_in.
    intros x _. by intros ?%Exists_nil.
  - intros [x s] xs [y t] ys Hk IH Hx Hy. rewrite merge_hence_cons. merge_branch.
    rewrite !fmap_cons in *. simpl in Hx, Hk. apply desc_cons_inv in Hx as [Hx Hx'].
    rewrite filter_cons, decide_True, IH by (done || constructor; simpl; lia). done.
  - intros [x s] xs [y t] ys Hk IH Hx Hy. rewrite merge_hence_cons. merge_branch.
    rewrite !fmap_cons in *. pose proof (desc_cons_inv _ _ Hx) as [? Hx'].
    apply desc_cons_inv in Hy as [Hy _]. rewrite IH by done. symmetry. apply Hskip.
    simpl in *. intros z Hz. apply elem_of_cons in Hz as [->|Hz%Hx']; lia.
  - intros [x s] xs [y t] ys Hk IH Hx Hy. rewrite merge_hence_cons. merge_branch.
    rewrite !fmap_cons in *. simpl in Hk, Hx. subst y. apply desc_cons_inv in Hx as [Hx Hx'].
    apply desc_cons_inv in Hy as [Hy _].
    rewrite filter_cons, decide_True, IH by (done || constructor; simpl; lia). simpl. f_equal.
    symmetry. by apply Hskip.
Qed.

Lemma merge_hence_assoc xs ys v :
  desc xs.*1 → desc ys.*1 → v ∈ (merge_hence xs ys).*1 →
  assoc (merge_hence xs ys) v = hence_score (assoc xs v) (assoc ys v).
Proof.
  revert xs ys. refine (merge_ind (A:=Z * double) fst _ _ _ _ _ _).
  - intros ys _ _. rewrite merge_hence_nil_l. by intros ?%not_elem_of_nil.
  - intros xs _ _. rewrite merge_hence_nil_r. by intros ?%not_elem_of_nil.
  - intros [x s] xs [y t] ys Hk IH Hx Hy. rewrite merge_hence_cons. merge_branch.
    rewrite !fmap_cons in *. simpl in Hx, Hy, Hk. pose proof (desc_cons_inv _ _ Hy) as [? Hy'].
    apply desc_cons_inv in Hx as [Hx Hx']. intros [->|Hv]%elem_of_cons; simpl.
    + rewrite !(decide_True (P:=x = x)) by done. rewrite decide_False by lia.
      by rewrite (assoc_below ys y x) by (done || lia).
    + rewrite (IH Hx Hy Hv). pose proof Hv as Hv'. rewrite merge_hence_ids in Hv' by done.
      apply list_elem_of_filter in Hv' as [_ Hv'%Hx'].
      by rewrite !(decide_False (P:=v = x)) by lia.
  - intros [x s] xs [y t] ys Hk IH Hx Hy. rewrite merge_hence_cons. merge_branch.
    rewrite !fmap_cons in *. simpl in Hx, Hy, Hk. pose proof (desc_cons_inv _ _ Hx) as [? Hx'].
    apply desc_cons_inv in Hy as [Hy Hy']. intros Hv. rewrite (IH Hx Hy Hv).
    rewrite merge_hence_ids in Hv by done. apply list_elem_of_filter in Hv as [_ Hv].
    assert (v < y). { apply elem_of_cons in Hv as [->|Hv%Hx']; simpl in *; lia. }
    cbn [assoc]. by rewrite (decide_False (P:=v = y)) by lia.
  - intros [x s] xs [y t] ys Hk IH Hx Hy. rewrite merge_hence_cons. merge_branch.
    rewrite !fmap_cons in *. simpl in Hk, Hx, Hy. subst y.
    apply desc_cons_inv in Hx as [Hx Hx']. apply desc_cons_inv in Hy as [Hy Hy'].
    intros [->|Hv]%elem_of_cons; simpl; [by rewrite !decide_True|].
    rewrite (IH Hx Hy Hv). rewrite merge_hence_ids in Hv by done.
    apply list_elem_of_filter in Hv as [_ Hv%Hx']. by rewrite !decide_False by lia.
Qed.

(** All cells of a chain with their scores. *)
Definition cells (ns : list rowid_list_node) : list (Z * double) := concat (node_weights <$> ns).

Lemma zlen_cells ns : Forall node_wf ns → zlen (cells ns) = ROWID_ARRAY_SIZE * zlen ns.
Proof.
  intros H. unfold zlen, cells. rewrite (length_concat_blocks BLK) by by apply weights_blocks.
  rewrite length_fmap. unfold BLK, ROWID_ARRAY_SIZE. lia.
Qed.

Lemma cells_node ns i :
  Forall node_wf ns → 0 ≤ i < zlen (cells ns) →
  ∃ nd, ns !! at_block i = Some nd ∧ node_wf nd ∧
    (cells ns)⟦i⟧ = node_weights nd !! Z.to_nat (i `mod` ROWID_ARRAY_SIZE).
Proof.
  intros Hw Hi. rewrite zlen_cells in Hi by done.
  destruct (lookup_lt_is_Some_2 ns (at_block i)) as [nd Hnd].
  { unfold at_block, zlen, ROWID_ARRAY_SIZE in *. zdiv. }
  exists nd. split; [done|]. split; [by eapply Forall_lookup_1|].
  rewrite zget_lookup by lia. rewrite (idx_split i) by lia. unfold cells.
  rewrite (lookup_concat_blocks BLK) by (apply idx_mod || by apply weights_blocks).
  rewrite list_lookup_fmap. unfold at_block in Hnd. by rewrite Hnd.
Qed.

Lemma cells_read ns i x s :
  Forall node_wf ns → scored ns → (cells ns)⟦i⟧ = Some (x, s) →
  node_rowid ns (at_block i) i = Some x ∧ node_score ns (at_block i) i = Some s.
Proof.
  intros Hw Hsc Hx. pose proof (zget_Some_range _ _ _ Hx) as Hi.
  destruct (cells_node ns i Hw Hi) as (nd & Hnd & _ & E). rewrite E in Hx.
  assert (is_Some (score_array nd)) as [sc Es].
  { unfold scored in Hsc. by apply (Forall_lookup_1 _ _ _ _ Hsc Hnd). }
  unfold node_rowid, node_score. rewrite Hnd. cbn [mbind option_bind]. rewrite Es.
  cbn [mbind option_bind]. rewrite !zget_lookup by (unfold ROWID_ARRAY_SIZE; zdiv).
  unfold node_weights in Hx. rewrite Es in Hx. cbn [default] in Hx.
  rewrite lookup_zip_with in Hx. unfold id in Hx.
  destruct (rowid_array nd !! _); [|done]. cbn [mbind option_bind] in Hx.
  destruct (sc !! _); [|done]. by simplify_eq/=.
Qed.

Lemma set_entry_spec ns k x s :
  Forall node_wf ns → scored ns → 0 ≤ k < zlen (cells ns) →
  ∃ ns', set_entry ns (at_block k) k x s = Some ns' ∧ Forall node_wf ns' ∧ scored ns' ∧
    length ns' = length ns ∧ cells ns' = <[Z.to_nat k := (x, s)]> (cells ns).
Proof.
  intros Hw Hsc Hk. destruct (cells_node ns k Hw Hk) as (nd & Hnd & [Hl Hs] & _).
  assert (is_Some (score_array nd)) as [sc Es].
  { unfold scored in Hsc. by apply (Forall_lookup_1 _ _ _ _ Hsc Hnd). }
  specialize (Hs sc Es). unfold set_entry. rewrite Hnd. cbn [mbind option_bind].
  assert (0 ≤ k `mod` ROWID_ARRAY_SIZE < Z.of_nat BLK) as Hm by (unfold BLK, ROWID_ARRAY_SIZE; zdiv).
  rewrite zset_in by (unfold zlen; by rewrite Hl). cbn [mbind option_bind]. rewrite Es.
  cbn [mbind option_bind]. rewrite zset_in by (unfold zlen; by rewrite Hs). cbn [mbind option_bind].
  eexists. split; [done|]. split_and!.
  - apply Forall_insert; [done|]. split; cbn [rowid_array score_array]; [by rewrite length_insert|].
    intros s' [= <-]. by rewrite length_insert.
  - unfold scored in *. apply Forall_insert; [done|]. by eexists.
  - apply length_insert.
  - unfold cells. rewrite list_fmap_insert. unfold node_weights at 1.
    cbn [rowid_array score_array default]. unfold id. rewrite zip_insert.
    rewrite (insert_concat_blocks BLK);
      [f_equal; symmetry; apply idx_split; lia|by apply weights_blocks|apply idx_mod|].
    rewrite list_lookup_fmap, Hnd. simpl. unfold node_weights. by rewrite Es.
Qed.

Section hence_proofs.
Context (la lb : rowid_list) (Ha : list_wf la) (Hb : list_wf lb).
Context (Hsa : scored (nodes la)) (Hsb : scored (nodes lb)).

Record hence_inv (st : hence_state) (out : list (Z * double)) : Prop := {
  hv_k : hk st = hi st;
  hv_i : 0 ≤ hi st ≤ rowid_num la;
  hv_j : 0 ≤ hj st ≤ rowid_num lb;
  hv_p : hp st = at_block (hi st);
  hv_q : hq st = at_block (hj st);
  hv_r : hr st = at_block (hi st);
  hv_wf : Forall node_wf (hns st);
  hv_sc : scored (hns st);
  hv_len : length (hns st) = length (nodes la);
  hv_out : take (Z.to_nat (hi st)) (cells (hns st)) = out;
  hv_in : drop (Z.to_nat (hi st)) (cells (hns st)) = drop (Z.to_nat (hi st)) (cells (nodes la))
}.

Definition left_a (st : hence_state) := drop (Z.to_nat (hi st)) (weights la).
Definition left_b (st : hence_state) := drop (Z.to_nat (hj st)) (weights lb).

Lemma zlen_weights l : list_wf l → zlen (weights l) = rowid_num l.
Proof.
  intros H. rewrite <- (zlen_elems l H), <- fst_weights by done. unfold zlen. by rewrite length_fmap.
Qed.

Lemma weights_next l i :
  list_wf l → 0 ≤ i < rowid_num l →
  ∃ x s, (cells (nodes l))⟦i⟧ = Some (x, s) ∧
    drop (Z.to_nat i) (weights l) = (x, s) :: drop (Z.to_nat (i + 1)) (weights l).
Proof.
  intros Hw Hi. destruct (zget_lt (weights l) i) as [[x s] Hx]; [by rewrite zlen_weights|].
  exists x, s. rewrite zget_lookup in Hx by lia. split.
  - rewrite zget_lookup by lia. unfold weights in Hx. by rewrite lookup_take_lt in Hx by lia.
  - rewrite (drop_S _ _ _ Hx). do 2 f_equal. lia.
Qed.

Lemma hence_write st out x s :
  hence_inv st out → hi st < rowid_num la →
  ∃ ns', set_entry (hns st) (hr st) (hk st) x s = Some ns' ∧
    Forall node_wf ns' ∧ scored ns' ∧ length ns' = length (nodes la) ∧
    take (Z.to_nat (hi st + 1)) (cells ns') = out ++ [(x, s)] ∧
    drop (Z.to_nat (hi st + 1)) (cells ns') = drop (Z.to_nat (hi st + 1)) (cells (nodes la)).
Proof.
  intros Hinv Hi. destruct Hinv as [Hk Hi0 Hj Hp Hq Hr Hw Hsc Hlen Hout Hin].
  assert (rowid_num la ≤ zlen (cells (hns st))) as Hroom.
  { rewrite zlen_cells by done. destruct Ha as [_ _ ?]. unfold zlen in *. lia. }
  rewrite Hr, Hk. destruct (set_entry_spec (hns st) (hi st) x s) as (ns' & -> & ? & ? & ? & Hc);
    [done|done|lia|]. exists ns'. split_and!; [done..|congruence| |]; rewrite Hc; unfold zlen in *;
    replace (Z.to_nat (hi st + 1)) with (S (Z.to_nat (hi st))) by lia.
  - erewrite take_S_r by (apply list_lookup_insert_eq; lia).
    rewrite take_insert_ge by lia. by subst out.
  - rewrite drop_insert_lt by lia. rewrite <- Nat.add_1_r, <- !drop_drop. by rewrite Hin.
Qed.

Lemma hence_step_spec st out :
  hence_inv st out → hi st < rowid_num la → hj st < rowid_num lb →
  ∃ st' out', hence_step lb st = Some st' ∧ hence_inv st' out' ∧
    hi st + hj st < hi st' + hj st' ∧
    out' ++ merge_hence (left_a st') (left_b st') = out ++ merge_hence (left_a st) (left_b st).
Proof.
  intros Hinv Hi Hj. pose proof (λ x s, hence_write st out x s Hinv Hi) as Hwr.
  destruct (weights_next la (hi st)) as (x & s & Hx & Hdx); [done|destruct Hinv; lia|].
  destruct (weights_next lb (hj st)) as (y & t & Hy & Hdy); [done|destruct Hinv; lia|].
  unfold left_a, left_b. rewrite Hdx, Hdy, merge_hence_cons, <- Hdx, <- Hdy.
  destruct (cells_read (nodes lb) (hj st) y t) as [Hry Hsy]; [apply Hb|done|done|].
  assert ((cells (hns st))⟦hi st⟧ = Some (x, s)) as Hx'.
  { rewrite <- Hx. rewrite !zget_lookup by (destruct Hinv; lia).
    rewrite <- (Nat.add_0_r (Z.to_nat (hi st))), <- !lookup_drop. by rewrite (hv_in _ _ Hinv). }
  destruct (cells_read (hns st) (hi st) x s) as [Hrx Hsx]; [apply Hinv..|done|].
  destruct Hinv as [Hk Hi0 Hj0 Hp Hq Hr Hw Hsc Hlen Hout Hin].
  destruct st as [i j k p q r ns]. cbn [hi hj hk hp hq hr hns] in *. subst k p q r.
  cbn [hence_step]. rewrite Hrx, Hry. cbn [mbind option_bind].
  destruct (x >? y) eqn:E1; [|destruct (x <? y) eqn:E2].
  - destruct (Hwr x s) as (ns' & Hset & ?). rewrite Hsx. cbn [mbind option_bind]. rewrite Hset.
    cbn [mbind option_bind]. rewrite !advance_block by lia.
    eexists _, (out ++ [(x, s)]). split; [done|]. cbn [hi hj hns].
    split; [by destruct_and!; split; simpl in *; try done; lia|]. split; [lia|].
    by rewrite <- app_assoc.
  - rewrite advance_block by lia. eexists _, out. split; [done|]. cbn [hi hj hns].
    split; [by split; simpl in *; try done; lia|]. split; [lia|done].
  - destruct (Hwr x (dadd s t)) as (ns' & Hset & ?). rewrite Hsx, Hsy. cbn [mbind option_bind].
    rewrite Hset. cbn [mbind option_bind]. rewrite !advance_block by lia.
    eexists _, (out ++ [(x, dadd s t)]). split; [done|]. cbn [hi hj hns].
    split; [by destruct_and!; split; simpl in *; try done; lia|]. split; [lia|].
    by rewrite <- app_assoc.
Qed.

Lemma hence_loop_spec fuel st out :
  hence_inv st out → rowid_num la + rowid_num lb - hi st - hj st ≤ Z.of_nat fuel →
  ∃ st' out', hence_loop fuel la lb st = Some st' ∧ hence_inv st' out' ∧
    (hi st' = rowid_num la ∨ hj st' = rowid_num lb) ∧
    out' ++ merge_hence (left_a st') (left_b st') = out ++ merge_hence (left_a st) (left_b st).
Proof.
  revert st out. induction fuel as [|fuel IH]; intros st out Hinv Hf.
  { exists st, out. destruct Hinv. split_and!; try done. left. lia. }
  cbn [hence_loop]. destruct (Z.ltb_spec (hi st) (rowid_num la)); simpl.
  2:{ exists st, out. destruct Hinv. split_and!; try done. left. lia. }
  destruct (Z.ltb_spec (hj st) (rowid_num lb)); simpl.
  2:{ exists st, out. destruct Hinv. split_and!; try done. right. lia. }
  destruct (hence_step_spec st out) as (st1 & out1 & -> & Hinv1 & Hlt & Heq); [done..|].
  cbn [mbind option_bind].
  destruct (IH st1 out1) as (st2 & out2 & ? & ? & ? & Heq2); [done|lia|].
  exists st2, out2. split_and!; try done. by rewrite Heq2.
Qed.
End hence_proofs.

Lemma rowid_fulltext_hence_refines la lb :
  list_wf la → list_wf lb → scored (nodes la) → scored (nodes lb) →
  rowid_num la ≠ 0 → rowid_num lb ≠ 0 →
  ∃ l, rowid_fulltext_hence (Ptr la) (Ptr lb) = Some (Ptr l) ∧ list_wf l ∧ scored (nodes l) ∧
    weights l = merge_hence (weights la) (weights lb).
Proof.
  intros Ha Hb Hsa Hsb Hna Hnb. unfold rowid_fulltext_hence.
  rewrite !(proj2 (Z.eqb_neq _ _)) by done. cbn [orb].
  pose proof (lw_num _ Ha). pose proof (lw_num _ Hb).
  destruct (hence_loop_spec la lb Ha Hb Hsb (merge_fuel la lb)
    (HenceState 0 0 0 0 0 0 (nodes la)) []) as (st & out & -> & Hinv & Hend & Heq);
    [destruct Ha; split; simpl; done || lia|unfold merge_fuel; simpl; lia|].
  cbn [mbind option_bind].
  assert (out = merge_hence (weights la) (weights lb)) as ->.
  { unfold left_a, left_b in Heq. cbn [hi hj] in Heq. simpl in Heq. rewrite !drop_0 in Heq.
    rewrite <- Heq. pose proof (zlen_weights _ Ha). pose proof (zlen_weights _ Hb). unfold zlen in *.
    destruct Hend.
    - rewrite (drop_ge (weights la)), merge_hence_nil_l, app_nil_r by lia. done.
    - rewrite (drop_ge (weights lb)), merge_hence_nil_r, app_nil_r by lia. done. }
  destruct Hinv as [Hk Hi Hj Hp Hq Hr Hw Hsc Hlen Hout Hin]. rewrite Hk.
  destruct (Z.eqb_spec (hi st) 0) as [E0|E0].
  - eexists. split; [done|]. rewrite <- Hout, E0. split; [|split; [constructor|done]].
    by destruct rowid_list_init_tight as [[] _].
  - eexists. split; [done|]. split; [|split; [done|exact Hout]].
    destruct Ha as [? ? Hroom]. split; cbn [rowid_num nodes]; [lia|done|]. unfold zlen in *. lia.
Qed.

(** [rowid_fulltext_hence] on two non-empty scored lists keeps exactly the
    ids of [lista] that are not below every id of [listb], and adds to the score
    of each the score it has in [listb]. *)
Theorem rowid_fulltext_hence_correct la lb :
  list_wf la → list_wf lb → scored (nodes la) → scored (nodes lb) →
  desc (elems la) → desc (elems lb) → rowid_num la ≠ 0 → rowid_num lb ≠ 0 →
  ∃ l, rowid_fulltext_hence (Ptr la) (Ptr lb) = Some (Ptr l) ∧ list_wf l ∧
    elems l = filter (λ x, Exists (λ y, y ≤ x) (elems lb)) (elems la) ∧
    ∀ v, v ∈ elems l →
      assoc (weights l) v = hence_score (assoc (weights la) v) (assoc (weights lb) v).
Proof.
  intros Ha Hb Hsa Hsb Hda Hdb Hna Hnb.
  destruct (rowid_fulltext_hence_refines la lb) as (l & Hl & Hw & _ & Hwt); [done..|].
  exists l. split; [done|]. split; [done|]. rewrite <- (fst_weights l Hw), Hwt.
  rewrite <- (fst_weights la Ha), <- (fst_weights lb Hb) in *. split.
  - rewrite merge_hence_ids by done. apply filter_ext_in. by intros.
  - intros v Hv. by apply merge_hence_assoc.
Qed.

Definition one : double := dadd d0 (S754_finite false 1 0).

Definition scores (xs : list double) : option (list double) :=
  Some (xs ++ replicate (BLK - length xs) d0).

Lemma rowid_fulltext_hence_correct_witness :
  ∃ l, rowid_fulltext_hence (Ptr (one_node [9; 5; 2] (scores [one; one; one])))
         (Ptr (one_node [9; 4] (scores [one; one]))) = Some (Ptr l) ∧
    elems l = filter (λ x, Exists (λ y, y ≤ x) [9; 4]) [9; 5; 2].
Proof.
  destruct (one_node_ok 100 [9; 5; 2] (scores [one; one; one])) as [Ha Ea];
    [vm_compute; lia|solve_desc|repeat constructor; lia|by intros s [= <-]|].
  destruct (one_node_ok 100 [9; 4] (scores [one; one])) as [Hb Eb];
    [vm_compute; lia|solve_desc|repeat constructor; lia|by intros s [= <-]|].
  destruct (rowid_fulltext_hence_correct _ _ (ro_wf _ _ Ha) (ro_wf _ _ Hb)) as (l & Hl & _ & He & _).
  - apply Forall_singleton. by eexists.
  - apply Forall_singleton. by eexists.
  - exact (ro_desc _ _ Ha).
  - exact (ro_desc _ _ Hb).
  - discriminate.
  - discriminate.
  - exists l. split; [exact Hl|]. rewrite He, Ea, Eb. reflexivity.
Defined.

(** Ids of [lista] below the last id of [listb] are dropped: a search keeps only
    row 9 of the rows 9, 5, 2 when the next word occurs in row 7 alone. *)
Theorem hence_drops_rows :
  ∃ l, rowid_fulltext_hence (Ptr (one_node [9; 5; 2] (scores [one; one; one])))
         (Ptr (one_node [7] (scores [one]))) = Some (Ptr l) ∧ elems l = [9].
Proof. eexists. split; vm_compute; reflexivity. Qed.

(** ** Per-segment results *)

Definition seg_ok (M : Z) (l : seg_list) : Prop := Forall (λ q, rows_ok M (rowids q)) l.

Definition seg_sets (l : seg_list) : list (Z * gset Z) :=
  (λ q, (sid q, id_set (rowids q))) <$> l.

(** [sem] segment by segment. *)
Definition seg_map2 (sem : gset Z → gset Z → gset Z) : list (Z * gset Z) → list (Z * gset Z)
    → list (Z * gset Z) :=
  zip_with (λ x y, (x.1, sem x.2 y.2)).

Lemma seg_rows_spec op sem `{!SetOp op sem} M a b acc :
  M < 2 ^ 31 → seg_ok M a → seg_ok M b → sid <$> a = sid <$> b →
  ∃ r, seg_rows op a b acc = Some (Ptr (acc ++ r)) ∧ seg_ok M r ∧ sid <$> r = sid <$> a ∧
    seg_sets r = seg_map2 sem (seg_sets a) (seg_sets b).
Proof.
  intros HM Ha. revert b acc. induction Ha as [|qa a Hqa Ha IH]; intros b acc Hb Hs.
  - destruct b; [|done]. exists []. cbn [seg_rows]. by rewrite app_nil_r.
  - destruct b as [|qb b]; [done|]. rewrite !fmap_cons in Hs. injection Hs as Hsq Hs.
    apply Forall_cons in Hb as [Hqb Hb]. cbn [seg_rows]. rewrite Hsq, Z.eqb_refl. cbn [negb].
    destruct (set_op_ok (op:=op) M _ _ HM Hqa Hqb) as (r & -> & Hr & Hset). cbn [mbind option_bind].
    destruct (IH b (acc ++ [SegRowids (sid qb) r])) as (rs & -> & Hok & Hsid & Hsets); [done..|].
    exists (SegRowids (sid qb) r :: rs). rewrite <- app_assoc. split; [done|]. split; [by constructor|].
    rewrite !fmap_cons, Hsid. split; [by rewrite Hsq|].
    unfold seg_sets in *. rewrite !fmap_cons, Hsets. simpl. by rewrite Hset, Hsq.
Qed.

(** The segment lists of one query are over the same segments. *)
Lemma seg_rowid_op_spec op sem `{!SetOp op sem} M a b :
  M < 2 ^ 31 → seg_ok M a → seg_ok M b → sid <$> a = sid <$> b →
  ∃ r, seg_rowid_op op (Ptr a) (Ptr b) = Some (Ptr r) ∧ seg_ok M r ∧ sid <$> r = sid <$> a ∧
    seg_sets r = seg_map2 sem (seg_sets a) (seg_sets b).
Proof. intros. unfold seg_rowid_op. by apply (seg_rows_spec op sem M a b []). Qed.

Lemma seg_count_add l acc :
  Forall (λ q, ptr_wf (rowids q)) l → 0 ≤ acc →
  acc + foldr (λ q n, zlen (ids (rowids q)) + n) 0 l < 2 ^ 31 →
  foldl (λ count q, match rowids q with NULL => count | Ptr r => s32 (count + rowid_num r) end) acc l
  = acc + foldr (λ q n, zlen (ids (rowids q)) + n) 0 l.
Proof.
  intros H. revert acc. induction H as [|q l Hq H IH]; intros acc Ha Hmax; simpl in *; [lia|].
  assert (0 ≤ foldr (λ q n, zlen (ids (rowids q)) + n) 0 l) as Hnn.
  { clear. induction l; simpl; [lia|]. pose proof (zlen_nonneg (ids (rowids a))). lia. }
  destruct (rowids q) as [|r]; simpl in *.
  - change (zlen (@nil Z)) with 0 in *. rewrite IH; lia.
  - rewrite (zlen_elems _ Hq) in *. destruct Hq. rewrite s32_small by lia. rewrite IH; lia.
Qed.

(** [seg_rowid_count] is the total number of row ids over all segments, as
    long as it fits the signed 32-bit counter. *)
Theorem seg_rowid_count_correct l :
  Forall (λ q, ptr_wf (rowids q)) l →
  foldr (λ q n, zlen (ids (rowids q)) + n) 0 l < 2 ^ 31 →
  seg_rowid_count (Ptr l) = foldr (λ q n, zlen (ids (rowids q)) + n) 0 l.
Proof. intros H Hmax. unfold seg_rowid_count. rewrite seg_count_add by (done || lia). lia. Qed.

Lemma seg_rowid_count_correct_witness :
  seg_rowid_count (Ptr [SegRowids 0 (Ptr (one_node [9; 5; 2] None)); SegRowids 1 NULL;
                        SegRowids 2 (Ptr (one_node [4] None))]) = 4.
Proof.
  destruct (one_node_ok 100 [9; 5; 2] None) as [Ha Ea];
    [vm_compute; lia|solve_desc|repeat constructor; lia|done|].
  destruct (one_node_ok 100 [4] None) as [Hb Eb];
    [vm_compute; lia|solve_desc|repeat constructor; lia|done|].
  rewrite seg_rowid_count_correct; [vm_compute; reflexivity| |vm_compute; reflexivity].
  constructor; [exact (ro_wf _ _ Ha)|]. constructor; [exact I|].
  constructor; [exact (ro_wf _ _ Hb)|constructor].
Defined.
