(* ===== verification/Suffix.v ===== *)
(** * Evaluation of index conditions ([src/storage/docdb/suffix.c])

    A query's index condition is a reverse Polish expression over index lookups
    with the operators AND, OR and MINUS.  [query_by_hash_conditions] evaluates
    it with a stack of per-segment result lists.  The lookups themselves belong
    to the database layer ([db.c]); the evaluator is written against the
    interface [IndexDb]. *)

From Stdlib Require Import ZArith Lia SpecFloat.
From stdpp Require Import base option list numbers sets gmap.
From S2P Require Import Prelude RowidList SetOperator SegRowid.

Definition ERROR_SET_OPERATION : Z := -4099.
Definition ERROR_UNSUPPORTED_SQL_TYPE : Z := -3000.

(** ** Double arithmetic used by the full-text weights *)

Definition dsub (x y : double) : double := SFsub 53 1024 x y.
Definition ddiv (x y : double) : double := SFdiv 53 1024 x y.
Definition dltb (x y : double) : bool := SFltb x y.
Definition of_int (z : Z) : double := binary_normalize 53 1024 z 0 false.
Definition half : double := ddiv (of_int 1) (of_int 2).

(** ** Conditions *)

Inductive condition_type :=
| CONDITION_EXP
| LOGIC_AND
| LOGIC_OR
| HC_SET_MINUS
| HC_UNION_HASH_EXP.

Inductive compare_type :=
| CT_EQ | CT_GT | CT_GE | CT_LT | CT_LE
| EXP_COMPARE_IN
| EXP_COMPARE_BETWEEN_LG | EXP_COMPARE_BETWEEN_LGE
| EXP_COMPARE_BETWEEN_LEG | EXP_COMPARE_BETWEEN_LEGE
| CT_NE | CT_MATCH.

Record condition_t (V : Type) := Condition {
  type : condition_type;
  comparator : compare_type;
  values : list V
}.
Arguments Condition {V}.
Arguments type {V}.
Arguments comparator {V}.
Arguments values {V}.

(** What the evaluator calls: the lookups of [db.c] on the table and segments
    of the query, and the C library's [log]. *)
Class IndexDb (V : Type) := {
  db_index_equal_query : V → ptr seg_list;
  db_fulltext_index_equal_query : V → ptr seg_list;
  db_fulltext_index_length_query : V → Z;
  db_get_record_num : Z;
  db_get_delete_num : Z;
  log : double → double
}.

Section suffix.
Context {V : Type} `{!IndexDb V}.

Record fulltext_word_t := Word { value : V; weight_of : double; count : Z }.

(** The weight of a word: [log((total - count + 0.5) / (count + 0.5))] *)
Definition fulltext_word (total : Z) (v : V) : fulltext_word_t :=
  let c := db_fulltext_index_length_query v in
  let w :=
    if c =? 0 then d0
    else log (ddiv (dadd (of_int (s64 (total - c))) half) (dadd (of_int c) half)) in
  Word v w c.

(** [if (fw[j]->weight > fw[i]->weight) swap] *)
Definition exchange (i : nat) (fw : list fulltext_word_t) (j : nat) : list fulltext_word_t :=
  match fw !! i, fw !! j with
  | Some a, Some b =>
      if dltb (weight_of a) (weight_of b) then <[j := a]> (<[i := b]> fw) else fw
  | _, _ => fw
  end.

Definition sort_words (fw : list fulltext_word_t) : list fulltext_word_t :=
  foldl (λ fw i, foldl (exchange i) fw (seq (S i) (length fw - S i))) fw (seq 0 (length fw)).

(** The loop that adds the remaining words, with its two early exits. *)
Fixpoint select_words (fw : list fulltext_word_t) (weight_sum weight_cur : double)
    (ret : ptr seg_list) : option (ptr seg_list) :=
  match fw with
  | [] => Some ret
  | w :: fw =>
      if count w >? 10000 then Some ret
      else
        tmp_ret ← seg_rowid_setscore (db_fulltext_index_equal_query (value w)) (weight_of w);
        ret ← (if seg_rowid_count ret <? 1000
               then seg_rowid_union ret tmp_ret
               else seg_rowid_fulltext_hence ret tmp_ret);
        let weight_cur := dadd weight_cur (weight_of w) in
        if dltb (dsub weight_sum weight_cur) (ddiv weight_cur (of_int 10)) then Some ret
        else select_words fw weight_sum weight_cur ret
  end.

Definition fulltext_match (cond : condition_t V) : option (ptr seg_list) :=
  let total := s64 (db_get_record_num + db_get_delete_num) in
  let fw := sort_words (fulltext_word total <$> values cond) in
  let weight_sum := foldl (λ s w, dadd s (weight_of w)) d0 fw in
  match fw with
  | [] => None   (* [fw[0]] is read *)
  | w :: fw =>
      ret ← seg_rowid_setscore (db_fulltext_index_equal_query (value w)) (weight_of w);
      select_words fw weight_sum (weight_of w) ret
  end.

(** The loop of the IN comparator over the values after the first. *)
Fixpoint in_values (vs : list V) (ret : ptr seg_list) : option (ptr seg_list) :=
  match vs with
  | [] => Some ret
  | v :: vs =>
      match db_index_equal_query v with
      | NULL => Some NULL
      | tmp =>
          ret ← seg_rowid_union ret tmp;
          match ret with
          | NULL => Some NULL
          | _ => in_values vs ret
          end
      end
  end.

Definition hash_compare_value (cond : condition_t V) : option (ptr seg_list) :=
  match comparator cond with
  | CT_EQ => v ← values cond !! 0%nat; Some (db_index_equal_query v)
  | CT_NE => Some NULL
  | CT_MATCH => fulltext_match cond
  | EXP_COMPARE_IN =>
      match values cond with
      | v :: vs => in_values vs (db_index_equal_query v)
      | [] => Some (Ptr [])
      end
  | _ => Some NULL
  end.

(** The stack is the linked list of [hash_stack_node]s, its top first. *)
Definition hash_set_operations (stack : list (ptr seg_list)) (op_type : condition_type)
    : option (Z * list (ptr seg_list)) :=
  match stack with
  | [] => Some (-1, [])
  | [_] => Some (-1, [])
  | node_right :: node_left :: stack =>
      match op_type with
      | LOGIC_AND =>
          r ← seg_rowid_intersection node_left node_right;
          match r with
          | NULL => Some (ERROR_SET_OPERATION, stack)
          | _ => Some (MILE_RETURN_SUCCESS, r :: stack)
          end
      | HC_SET_MINUS =>
          r ← seg_rowid_minus node_left node_right;
          match r with
          | NULL => Some (ERROR_SET_OPERATION, stack)
          | _ => Some (MILE_RETURN_SUCCESS, r :: stack)
          end
      | LOGIC_OR =>
          r ← seg_rowid_union node_left node_right;
          match r with
          | NULL => Some (ERROR_SET_OPERATION, stack)
          | _ => Some (MILE_RETURN_SUCCESS, r :: stack)
          end
      | _ => Some (ERROR_UNSUPPORTED_SQL_TYPE, stack)
      end
  end.

Fixpoint query_loop (conditions : list (condition_t V)) (stack : list (ptr seg_list))
    : option (ptr seg_list) :=
  match conditions with
  | [] => match stack with [] => Some NULL | result :: _ => Some result end
  | cond :: conditions =>
      match type cond with
      | LOGIC_AND | LOGIC_OR | HC_SET_MINUS =>
          '(rc, stack) ← hash_set_operations stack (type cond);
          if rc <? 0 then Some NULL else query_loop conditions stack
      | CONDITION_EXP =>
          r ← hash_compare_value cond;
          match r with
          | NULL => Some NULL
          | _ => query_loop conditions (r :: stack)
          end
      | HC_UNION_HASH_EXP => Some NULL
      end
  end.

Definition query_by_hash_conditions (conditions : list (condition_t V))
    : option (ptr seg_list) := query_loop conditions [].
End suffix.

(** ** Set semantics of an index condition *)

(** The condition as a tree; [postfix] is its reverse Polish form. *)
Inductive expr (V : Type) :=
| Lookup (v : V)
| In (v : V) (vs : list V)
| And (e1 e2 : expr V)
| Or (e1 e2 : expr V)
| Minus (e1 e2 : expr V).
Arguments Lookup {V}.
Arguments In {V}.
Arguments And {V}.
Arguments Or {V}.
Arguments Minus {V}.

Definition op_cond {V} (t : condition_type) : condition_t V := Condition t CT_EQ [].

Fixpoint postfix {V} (e : expr V) : list (condition_t V) :=
  match e with
  | Lookup v => [Condition CONDITION_EXP CT_EQ [v]]
  | In v vs => [Condition CONDITION_EXP EXP_COMPARE_IN (v :: vs)]
  | And e1 e2 => postfix e1 ++ postfix e2 ++ [op_cond LOGIC_AND]
  | Or e1 e2 => postfix e1 ++ postfix e2 ++ [op_cond LOGIC_OR]
  | Minus e1 e2 => postfix e1 ++ postfix e2 ++ [op_cond HC_SET_MINUS]
  end.

(** What the lookups of the database layer promise for a query over the
    segments [segs]: one descending row id list per segment, rows below [M]. *)
Class IndexDbLaws (V : Type) `{!IndexDb V} (M : Z) (segs : list Z) : Prop := {
  rows_limit : M < 2 ^ 31;
  equal_query_ok : ∀ v : V, ∃ l, db_index_equal_query v = Ptr l ∧ seg_ok M l ∧ sid <$> l = segs
}.

Section suffix_proofs.
Context {V : Type} `{!IndexDb V} (M : Z) (segs : list Z) `{!IndexDbLaws V M segs}.

(** The rows a lookup finds, per segment. *)
Definition found (v : V) : list (Z * gset Z) :=
  match db_index_equal_query v with NULL => [] | Ptr l => seg_sets l end.

Fixpoint eval (e : expr V) : list (Z * gset Z) :=
  match e with
  | Lookup v => found v
  | In v vs => foldl (λ s v, seg_map2 (∪) s (found v)) (found v) vs
  | And e1 e2 => seg_map2 (∩) (eval e1) (eval e2)
  | Or e1 e2 => seg_map2 (∪) (eval e1) (eval e2)
  | Minus e1 e2 => seg_map2 (∖) (eval e1) (eval e2)
  end.

(** [r] is the result list of a subexpression with value [s]. *)
Definition holds (r : ptr seg_list) (s : list (Z * gset Z)) : Prop :=
  ∃ l, r = Ptr l ∧ seg_ok M l ∧ sid <$> l = segs ∧ seg_sets l = s.

Lemma holds_lookup v : holds (db_index_equal_query v) (found v).
Proof.
  unfold found. destruct (equal_query_ok v) as (l & -> & ? & ?). by exists l.
Qed.

Lemma holds_op op sem `{!SetOp op sem} a b sa sb :
  holds a sa → holds b sb →
  ∃ l, seg_rowid_op op a b = Some (Ptr l) ∧ holds (Ptr l) (seg_map2 sem sa sb).
Proof.
  intros (la & -> & Ha & Hsa & <-) (lb & -> & Hb & Hsb & <-).
  destruct (seg_rowid_op_spec op sem M la lb) as (r & -> & Hr & Hsr & Hset);
    [apply rows_limit|done|done|congruence|].
  exists r. split; [done|]. exists r. split_and!; [done|done|congruence|done].
Qed.

Lemma in_values_spec vs r s :
  holds r s →
  ∃ l, in_values vs r = Some (Ptr l) ∧
    holds (Ptr l) (foldl (λ s v, seg_map2 (∪) s (found v)) s vs).
Proof.
  revert r s. induction vs as [|v vs IH]; intros r s Hr.
  - destruct Hr as (l & -> & Hl). exists l. split; [done|]. by exists l.
  - cbn [in_values]. pose proof (holds_lookup v) as Hv. pose proof Hv as (lv & Ev & _).
    rewrite Ev in Hv |- *.
    destruct (holds_op rowid_union (∪) r (Ptr lv) s (found v)) as (l & Hl & Hl'); [done..|].
    unfold seg_rowid_union. rewrite Hl. cbn [mbind option_bind]. by apply IH.
Qed.

(** A binary operator on two results on the stack. *)
Lemma set_operation_spec t op sem `{!SetOp op sem} a b sa sb stack :
  (t, op, sem) ∈ [(LOGIC_AND, rowid_intersection, (∩)); (LOGIC_OR, rowid_union, (∪));
                  (HC_SET_MINUS, rowid_minus, (∖) : gset Z → gset Z → gset Z)] →
  holds a sa → holds b sb →
  ∃ l, hash_set_operations (b :: a :: stack) t = Some (MILE_RETURN_SUCCESS, Ptr l :: stack) ∧
    holds (Ptr l) (seg_map2 sem sa sb).
Proof.
  intros Ht Ha Hb. destruct (holds_op op sem a b sa sb Ha Hb) as (l & Hl & Hl').
  exists l. split; [|done]. cbn [hash_set_operations].
  rewrite !elem_of_cons in Ht. unfold seg_rowid_intersection, seg_rowid_union, seg_rowid_minus.
  destruct Ht as [Ht|[Ht|[Ht|Ht%not_elem_of_nil]]]; [..|done]; injection Ht as -> -> _;
    by rewrite Hl.
Qed.

(** [e] is evaluated onto the stack. *)
Definition pushes (e : expr V) : Prop :=
  ∀ rest stack, ∃ l,
    query_loop (postfix e ++ rest) stack = query_loop rest (Ptr l :: stack) ∧
    holds (Ptr l) (eval e).

Lemma query_loop_op t op sem `{!SetOp op sem} e1 e2 rest stack :
  (t, op, sem) ∈ [(LOGIC_AND, rowid_intersection, (∩)); (LOGIC_OR, rowid_union, (∪));
                  (HC_SET_MINUS, rowid_minus, (∖) : gset Z → gset Z → gset Z)] →
  pushes e1 → pushes e2 →
  ∃ l, query_loop ((postfix e1 ++ postfix e2 ++ [op_cond t]) ++ rest) stack
       = query_loop rest (Ptr l :: stack) ∧ holds (Ptr l) (seg_map2 sem (eval e1) (eval e2)).
Proof.
  intros Ht IH1 IH2. rewrite <- !app_assoc.
  destruct (IH1 (postfix e2 ++ [op_cond t] ++ rest) stack) as (l1 & -> & H1).
  destruct (IH2 ([op_cond t] ++ rest) (Ptr l1 :: stack)) as (l2 & -> & H2).
  destruct (set_operation_spec t op sem _ _ _ _ stack Ht H1 H2) as (l & Hl & Hl').
  exists l. split; [|done]. cbn [app query_loop]. change (type (op_cond t)) with t. rewrite Hl.
  rewrite !elem_of_cons in Ht.
  by destruct Ht as [Ht|[Ht|[Ht|Ht%not_elem_of_nil]]]; [..|done]; injection Ht as -> _ _.
Qed.

Lemma query_loop_postfix e : pushes e.
Proof.
  induction e as [v|v vs|e1 IH1 e2 IH2|e1 IH1 e2 IH2|e1 IH1 e2 IH2];
    intros rest stack; cbn [postfix eval].
  - pose proof (holds_lookup v) as Hv. pose proof Hv as (l & El & _). rewrite El in Hv.
    exists l. split; [|done]. cbn [app query_loop type]. unfold hash_compare_value.
    cbn [comparator values]. cbn. by rewrite El.
  - destruct (in_values_spec vs _ _ (holds_lookup v)) as (l & El & Hl).
    exists l. split; [|done]. cbn [app query_loop type]. unfold hash_compare_value.
    cbn [comparator values]. by rewrite El.
  - apply (query_loop_op LOGIC_AND rowid_intersection (∩)); [set_solver|done..].
  - apply (query_loop_op LOGIC_OR rowid_union (∪)); [set_solver|done..].
  - apply (query_loop_op HC_SET_MINUS rowid_minus (∖)); [set_solver|done..].
Qed.

(** *** Malformed expressions *)

(** A condition that needs no full-text search: an operator, or a lookup. *)
Definition simple (c : condition_t V) : Prop :=
  match type c with
  | CONDITION_EXP => (comparator c = CT_EQ ∨ comparator c = EXP_COMPARE_IN) ∧ values c ≠ []
  | _ => True
  end.

(** The stack depth after the conditions; [None] where they do not fit it. *)
Fixpoint depth (cs : list (condition_t V)) (n : nat) : option nat :=
  match cs with
  | [] => match n with O => None | S _ => Some n end
  | c :: cs =>
      match type c, n with
      | CONDITION_EXP, _ => depth cs (S n)
      | LOGIC_AND, S (S n) | LOGIC_OR, S (S n) | HC_SET_MINUS, S (S n) => depth cs (S n)
      | _, _ => None
      end
  end.

Lemma compare_value_simple c :
  type c = CONDITION_EXP → simple c →
  ∃ l s, hash_compare_value c = Some (Ptr l) ∧ holds (Ptr l) s.
Proof.
  unfold simple. intros -> [Hc Hv]. unfold hash_compare_value.
  destruct (values c) as [|v vs] eqn:Ev; [done|]. destruct Hc as [-> | ->].
  - pose proof (holds_lookup v) as Hl. pose proof Hl as (l & El & _). rewrite El in Hl.
    exists l, (found v). cbn. by rewrite El.
  - destruct (in_values_spec vs _ _ (holds_lookup v)) as (l & El & Hl). eauto.
Qed.

Definition on_stack (r : ptr seg_list) : Prop := ∃ s, holds r s.

Lemma query_loop_depth cs stack :
  Forall simple cs → Forall on_stack stack →
  ∃ r, query_loop cs stack = Some r ∧ (r = NULL ↔ depth cs (length stack) = None).
Proof.
  intros Hcs. revert stack. induction Hcs as [|c cs Hc Hcs IH]; intros stack Hst.
  - destruct Hst as [|r stack (s & l & -> & _)]; eexists; (split; [done|]); naive_solver.
  - cbn [query_loop depth].
    assert (∀ op sem, SetOp op sem → (type c, op, sem) ∈
      [(LOGIC_AND, rowid_intersection, (∩)); (LOGIC_OR, rowid_union, (∪));
       (HC_SET_MINUS, rowid_minus, (∖) : gset Z → gset Z → gset Z)] →
      ∃ r, ('(rc, stack) ← hash_set_operations stack (type c);
            if rc <? 0 then Some NULL else query_loop cs stack) = Some r ∧
        (r = NULL ↔ match length stack with S (S n) => depth cs (S n) | _ => None end = None))
      as Hop.
    { intros op sem ? Ht.
      destruct Hst as [|rb stack [sb Hb] Hst]; [by eexists|].
      destruct Hst as [|ra stack [sa Ha'] Hst]; [by eexists|].
      destruct (set_operation_spec (type c) op sem _ _ _ _ stack Ht Ha' Hb) as (l & -> & Hl).
      cbn [mbind option_bind]. change (MILE_RETURN_SUCCESS <? 0) with false. cbv iota.
      apply (IH (Ptr l :: stack)). constructor; [by eexists|done]. }
    destruct (type c) eqn:Et.
    + destruct (compare_value_simple c Et Hc) as (l & s & -> & Hl). cbn [mbind option_bind].
      apply (IH (Ptr l :: stack)). constructor; [by eexists|done].
    + apply (Hop rowid_intersection (∩)); [apply _|set_solver].
    + apply (Hop rowid_union (∪)); [apply _|set_solver].
    + apply (Hop rowid_minus (∖)); [apply _|set_solver].
    + by eexists.
Qed.
End suffix_proofs.

Lemma query_postfix {V} `{!IndexDb V} M segs `{!IndexDbLaws V M segs} (e : expr V) :
  ∃ l, query_by_hash_conditions (postfix e) = Some (Ptr l) ∧ seg_ok M l ∧ sid <$> l = segs ∧ seg_sets l = eval e.
Proof.
  destruct (query_loop_postfix M segs e [] []) as (l & Hl & l' & [= <-] & Hok & Hs & He).
  exists l. unfold query_by_hash_conditions. by rewrite <- (app_nil_r (postfix e)), Hl.
Qed.

(** Evaluating the reverse Polish form of any index condition built from
    lookups, IN lists, AND, OR and MINUS succeeds, and the result holds, for
    each segment of the query, exactly the rows the set expression denotes, in
    descending order.  The lookups are any that satisfy [IndexDbLaws]. *)
Theorem query_by_hash_conditions_correct {V} `{!IndexDb V} M segs `{!IndexDbLaws V M segs}
    (e : expr V) :
  ∃ l, query_by_hash_conditions (postfix e) = Some (Ptr l) ∧ seg_ok M l ∧ sid <$> l = segs ∧
    seg_sets l = eval e.
Proof. exact (query_postfix M segs e). Qed.

(** C40: on any sequence of lookups and operators the evaluator returns, never
    touching memory outside its stack, and it returns NULL exactly when an
    operator finds fewer than two operands, an unsupported operator occurs, or
    nothing is left to return. *)
Theorem query_by_hash_conditions_total {V} `{!IndexDb V} M segs `{!IndexDbLaws V M segs}
    (cs : list (condition_t V)) :
  Forall simple cs →
  ∃ r, query_by_hash_conditions cs = Some r ∧ (r = NULL ↔ depth cs 0 = None).
Proof. intros H. by apply (query_loop_depth M segs cs []). Qed.

(** An empty IN list yields a result over no segments instead of an empty one
    per segment, so [v OR IN ()] loses the rows of [v]. *)
Theorem in_empty_absorbs {V} `{!IndexDb V} M segs `{!IndexDbLaws V M segs} (v : V) :
  query_by_hash_conditions [Condition CONDITION_EXP CT_EQ [v];
    Condition CONDITION_EXP EXP_COMPARE_IN []; op_cond LOGIC_OR] = Some (Ptr []).
Proof.
  destruct (equal_query_ok v) as (l & El & _). unfold query_by_hash_conditions.
  cbn [query_loop type hash_compare_value comparator values lookup list_lookup mbind option_bind].
  rewrite El. cbn [hash_set_operations op_cond type]. by destruct l.
Qed.

(** ** A small table *)

(** Two segments; the lookup of 1 finds rows 9, 5, 2 of segment 0 and row 4 of
    segment 3, any other lookup rows 7 and 5 of segment 0. *)
Definition demo_query (v : Z) : ptr seg_list :=
  if v =? 1 then Ptr [SegRowids 0 (Ptr (one_node [9; 5; 2] None)); SegRowids 3 (Ptr (one_node [4] None))]
  else Ptr [SegRowids 0 (Ptr (one_node [7; 5] None)); SegRowids 3 NULL].

#[local] Instance demo_db : IndexDb Z := {|
  db_index_equal_query := demo_query;
  db_fulltext_index_equal_query := demo_query;
  db_fulltext_index_length_query := λ _, 1;
  db_get_record_num := 10;
  db_get_delete_num := 0;
  log := id
|}.

Lemma demo_laws : IndexDbLaws Z 100 [0; 3].
Proof.
  assert (∀ xs, (length xs ≤ BLK)%nat → desc xs → Forall (λ v, 0 ≤ v < 100) xs →
    rows_ok 100 (Ptr (one_node xs None))) as Hok by (intros; by apply one_node_ok).
  split; [lia|]. intros v. cbn [db_index_equal_query demo_db]. unfold demo_query.
  destruct (v =? 1); eexists; (split; [reflexivity|]); (split; [|reflexivity]).
  - constructor; [|constructor; [|constructor]]; apply Hok;
      first [solve [vm_compute; lia]|solve [solve_desc]|solve [repeat constructor; lia]].
  - constructor; [|constructor; [|constructor]].
    + apply Hok; first [solve [vm_compute; lia]|solve [solve_desc]|solve [repeat constructor; lia]].
    + split; [exact I|constructor|]. intros w Hw. by apply not_elem_of_nil in Hw.
Qed.

Lemma query_by_hash_conditions_correct_witness :
  ∃ l, query_by_hash_conditions (postfix (Or (Minus (Lookup 1) (Lookup 2)) (In 2 [2]))) = Some (Ptr l) ∧
    (λ q, (sid q, ids (rowids q))) <$> l = [(0, [9; 7; 5; 2]); (3, [4])] ∧
    seg_sets l = eval (Or (Minus (Lookup 1) (Lookup 2)) (In 2 [2])).
Proof.
  destruct (query_by_hash_conditions_correct 100 [0; 3] (IndexDbLaws0:=demo_laws)
    (Or (Minus (Lookup 1) (Lookup 2)) (In 2 [2]))) as (l & Hl & _ & _ & He).
  exists l. split; [exact Hl|]. split; [|exact He].
  assert (query_by_hash_conditions (postfix (Or (Minus (Lookup 1) (Lookup 2)) (In 2 [2])))
    = Some (Ptr l)) as E by exact Hl.
  vm_compute in E. injection E as <-. vm_compute. reflexivity.
Defined.

Lemma query_by_hash_conditions_total_witness :
  query_by_hash_conditions [Condition CONDITION_EXP CT_EQ [1]; op_cond LOGIC_AND] = Some NULL.
Proof.
  destruct (query_by_hash_conditions_total 100 [0; 3] (IndexDbLaws0:=demo_laws)
    [Condition CONDITION_EXP CT_EQ [1]; op_cond LOGIC_AND]) as (r & Hr & Hn).
  - constructor; [split; [by left|done]|]. constructor; [exact I|constructor].
  - rewrite Hr. f_equal. apply Hn. reflexivity.
Defined.

Lemma in_empty_absorbs_witness :
  query_by_hash_conditions [Condition CONDITION_EXP CT_EQ [1];
    Condition CONDITION_EXP EXP_COMPARE_IN []; op_cond LOGIC_OR] = Some (Ptr []).
Proof. exact (in_empty_absorbs 100 [0; 3] (IndexDbLaws0:=demo_laws) 1). Defined.
