(* ===== verification/LowData.v ===== *)
(** * Values ([src/common/def.h])

    The typed values that the engine stores and indexes: a type tag, the bytes
    and their number.  A value of length 0 is null. *)

From Stdlib Require Import ZArith Lia.
From stdpp Require Import base option list numbers.
From S2P Require Import Prelude.

Inductive field_types :=
| HI_TYPE_NULL | HI_TYPE_TINY | HI_TYPE_SHORT | HI_TYPE_UNSIGNED_SHORT
| HI_TYPE_LONG | HI_TYPE_UNSIGNED_LONG | HI_TYPE_FLOAT | HI_TYPE_DOUBLE
| HI_TYPE_TIMESTAMP | HI_TYPE_LONGLONG | HI_TYPE_UNSIGNED_LONGLONG
| HI_TYPE_VARCHAR | HI_TYPE_SET | HI_TYPE_ARRAY | HI_TYPE_BYTES | HI_TYPE_NOTCOMP
| HI_TYPE_STRING | HI_TYPE_MAX.

#[export] Instance field_types_eq_dec : EqDecision field_types.
Proof. solve_decision. Defined.

Record low_data_struct := LowData {
  type : field_types;
  data : list Z;       (* the bytes [data] points to, at least [len] of them *)
  len : Z
}.

#[export] Instance low_data_eq_dec : EqDecision low_data_struct.
Proof. solve_decision. Defined.

Definition is_null (d : low_data_struct) : bool := len d =? 0.

(** The numbers of the types, and the width of a fixed-length value. *)
Definition type_code (t : field_types) : Z :=
  match t with
  | HI_TYPE_NULL => 0 | HI_TYPE_TINY => 1 | HI_TYPE_SHORT => 2 | HI_TYPE_UNSIGNED_SHORT => 3
  | HI_TYPE_LONG => 4 | HI_TYPE_UNSIGNED_LONG => 5 | HI_TYPE_FLOAT => 6 | HI_TYPE_DOUBLE => 7
  | HI_TYPE_TIMESTAMP => 9 | HI_TYPE_LONGLONG => 10 | HI_TYPE_UNSIGNED_LONGLONG => 11
  | HI_TYPE_VARCHAR => 18 | HI_TYPE_SET => 19 | HI_TYPE_ARRAY => 50 | HI_TYPE_BYTES => 51
  | HI_TYPE_NOTCOMP => 52 | HI_TYPE_STRING => 254 | HI_TYPE_MAX => 255
  end.

Definition all_types : list field_types :=
  [HI_TYPE_NULL; HI_TYPE_TINY; HI_TYPE_SHORT; HI_TYPE_UNSIGNED_SHORT; HI_TYPE_LONG; HI_TYPE_UNSIGNED_LONG;
   HI_TYPE_FLOAT; HI_TYPE_DOUBLE; HI_TYPE_TIMESTAMP; HI_TYPE_LONGLONG; HI_TYPE_UNSIGNED_LONGLONG;
   HI_TYPE_VARCHAR; HI_TYPE_SET; HI_TYPE_ARRAY; HI_TYPE_BYTES; HI_TYPE_NOTCOMP; HI_TYPE_STRING; HI_TYPE_MAX].

(** The cast of a byte to the enumeration; other numbers name no type. *)
Definition type_of_code (c : Z) : option field_types :=
  List.find (λ t, type_code t =? c) all_types.

Lemma type_of_type_code t : type_of_code (type_code t) = Some t.
Proof. by destruct t. Qed.

Lemma type_code_byte t : 0 ≤ type_code t < 256.
Proof. destruct t; simpl; lia. Qed.

Definition get_unit_size (t : field_types) : Z :=
  match t with
  | HI_TYPE_TINY => 1
  | HI_TYPE_SHORT | HI_TYPE_UNSIGNED_SHORT => 2
  | HI_TYPE_LONG | HI_TYPE_UNSIGNED_LONG => 4
  | HI_TYPE_LONGLONG | HI_TYPE_UNSIGNED_LONGLONG => 8
  | HI_TYPE_FLOAT => 4
  | HI_TYPE_DOUBLE => 8
  | _ => 0
  end.

(** ** Numbers in memory, least significant byte first *)

Fixpoint le_value (bytes : list Z) : Z :=
  match bytes with [] => 0 | b :: bytes => b + 256 * le_value bytes end.

(** [*(uintN_t * )p] for [n] bytes. *)
Definition load (p : list Z) (n : Z) : option Z := le_value <$> zsub p 0 n.

Fixpoint le_bytes (n : nat) (z : Z) : list Z :=
  match n with O => [] | S n => z `mod` 256 :: le_bytes n (z / 256) end.

Lemma length_le_bytes n z : length (le_bytes n z) = n.
Proof. revert z. induction n as [|n IH]; intros z; simpl; [done|]. by rewrite IH. Qed.

Lemma zlen_le_bytes n z : zlen (le_bytes n z) = Z.of_nat n.
Proof. unfold zlen. by rewrite length_le_bytes. Qed.

Lemma le_value_bytes n z : 0 ≤ z < 2 ^ (8 * Z.of_nat n) → le_value (le_bytes n z) = z.
Proof.
  revert z. induction n as [|n IH]; intros z Hz; cbn [le_bytes le_value]; [simpl in Hz; lia|].
  replace (8 * Z.of_nat (S n)) with (8 + 8 * Z.of_nat n) in Hz by lia.
  rewrite Z.pow_add_r in Hz by lia. rewrite IH by zdiv. zdiv.
Qed.

Lemma le_value_bound bytes n :
  Forall (λ b, 0 ≤ b < 256) bytes → zlen bytes = n → 0 ≤ le_value bytes < 2 ^ (8 * n).
Proof.
  intros H <-. induction H as [|b bytes Hb _ IH]; [done|]. cbn [le_value].
  replace (8 * zlen (b :: bytes)) with (8 + 8 * zlen bytes) by (unfold zlen; simpl; lia).
  pose proof (zlen_nonneg bytes). rewrite Z.pow_add_r by lia. lia.
Qed.

Lemma load_bound p n v :
  Forall (λ b, 0 ≤ b < 256) p → load p n = Some v → 0 ≤ v < 2 ^ (8 * n).
Proof.
  unfold load, zsub. intros Hp. case_decide as Hd; [|done]. simpl. intros [= <-].
  apply le_value_bound; [by apply Forall_take, Forall_drop|]. unfold zlen in *.
  rewrite length_take, length_drop. lia.
Qed.
