(* ===== verification/Doclist.v ===== *)
(** * Document lists ([src/storage/docdb/doclist.c])

    A memory-mapped array of 32-bit words: one header word and, per document,
    the two words [doc_id] and [next].  Rows are chained by byte offsets, newest
    document first; the last row of a chain holds the number of its hash bucket,
    marked by the top bit, in place of an offset.

    [file] is the content of the file as the next opener reads it.  For a shared
    mapping it is refreshed by [msync], for private memory by [flush_memory]. *)

From Stdlib Require Import ZArith Lia.
From stdpp Require Import base option list numbers.
From S2P Require Import Prelude FileOp.

Definition DATA_STOAGE_VERSION : Z := 0x80000001.
Definition ERROR_MMAP_SWITCH : Z := -4007.
Definition LAST_ROW : Z := 0x80000000.

Record doclist_manager := Doclist {
  file : list Z;
  row_limit : Z;
  version : Z;
  is_full : bool;
  mem_mmaped : option (list Z)     (* [None] is NULL *)
}.

Definition set_mem (doclist : doclist_manager) (m : list Z) : doclist_manager :=
  Doclist (file doclist) (row_limit doclist) (version doclist) (is_full doclist) (Some m).

(** In words: [row_limit] rows of two words and the header. *)
Definition DOCLIST_MMAP_SIZE (limit : Z) : Z := limit * 2 + 1.

Definition GET_OFFSET (doc_id : Z) : Z := 4 + doc_id * 8.

(** The row at a byte offset, [NEXT_DOC_ROW_STRUCT]: words are aligned. *)
Definition load_row (m : list Z) (off : Z) : option (Z * Z) :=
  if off `mod` 4 =? 0 then d ← m⟦off / 4⟧; n ← m⟦off / 4 + 1⟧; Some (d, n) else None.

Definition store_row (m : list Z) (off doc_id next : Z) : option (list Z) :=
  if off `mod` 4 =? 0 then
    m ← m⟦off / 4 := doc_id⟧; m⟦off / 4 + 1 := next⟧
  else None.

(** [is_full || mile_conf.all_mmap] selects the shared mapping. *)
Definition map_file (shared io : bool) (f : list Z) (n : Z) : option (list Z) * list Z :=
  if shared then get_mmap_memory 0 4 io f n else (alloc_file_memory 0 io f n, f).

Definition doclist_init (all_mmap io : bool) (f : list Z) (limit : Z) (full : bool)
    : option doclist_manager :=
  let '(m, f) := map_file (full || all_mmap) io f (DOCLIST_MMAP_SIZE limit) in
  m ← m;
  v ← m⟦0⟧;
  if v =? 0 then
    m ← m⟦0 := DATA_STOAGE_VERSION⟧;
    Some (Doclist f limit DATA_STOAGE_VERSION full (Some m))
  else Some (Doclist f limit v full (Some m)).

(** [exists_]: whether the file is there; the result NULL is [Some NULL]. *)
Definition doclist_init_v2 (all_mmap io : bool) (f : list Z) (limit : Z) (full : bool)
    (is_create : Z) (exists_ : bool) : option (ptr doclist_manager) :=
  if negb (is_create =? 1) && negb exists_ then Some NULL
  else
    let '(m, f) := map_file (full || all_mmap) io f (DOCLIST_MMAP_SIZE limit) in
    m ← m;
    Some (Ptr (Doclist f limit 0 full (Some m))).

(** Rows are taken in sequence: the header word is [*cur_offset]. *)
Definition doclist_insert_v2 (doclist : doclist_manager) (doc_id head_offset bucket_no : Z)
    : option (Z * doclist_manager) :=
  m ← mem_mmaped doclist;
  cur ← m⟦0⟧;
  if cur =? row_limit doclist then Some (u32 (-1), doclist)
  else
    head ← (if head_offset =? 0 then Some None else Some <$> load_row m head_offset);
    match head with
    | Some (head_id, _) =>
        if doc_id <=? head_id then Some (0, doclist)
        else
          m ← store_row m (GET_OFFSET cur) doc_id head_offset;
          m ← m⟦0 := u32 (cur + 1)⟧;
          Some (u32 (cur * 8 + 4), set_mem doclist m)
    | None =>
        m ← store_row m (GET_OFFSET cur) doc_id (Z.lor LAST_ROW bucket_no);
        m ← m⟦0 := u32 (cur + 1)⟧;
        Some (u32 (cur * 8 + 4), set_mem doclist m)
    end.

(** The row of document [doc_id] is row number [doc_id]. *)
Definition doclist_insert (doclist : doclist_manager) (doc_id head_offset bucket_no : Z)
    : option (Z * doclist_manager) :=
  m ← mem_mmaped doclist;
  head ← (if head_offset =? 0 then Some None else Some <$> load_row m head_offset);
  match head with
  | Some (head_id, _) =>
      if doc_id <=? head_id then Some (0, doclist)
      else
        m ← store_row m (GET_OFFSET doc_id) doc_id head_offset;
        Some (u32 (GET_OFFSET doc_id), set_mem doclist m)
  | None =>
      m ← store_row m (GET_OFFSET doc_id) doc_id (Z.lor LAST_ROW bucket_no);
      Some (u32 (GET_OFFSET doc_id), set_mem doclist m)
  end.

(** [None] outside, then NULL ([None]) or the row. *)
Definition doclist_next (doclist : doclist_manager) (next : Z) : option (option (Z * Z)) :=
  if negb (Z.land next LAST_ROW =? 0) || (next =? 0) then Some None
  else
    m ← mem_mmaped doclist;
    row ← load_row m (4 + next);
    Some (Some row).

(** [msync] of a shared mapping: the file holds the mapped words. *)
Definition sync (f m : list Z) : list Z := m ++ drop (length m) f.

Definition set_file (doclist : doclist_manager) (f : list Z) : doclist_manager :=
  Doclist f (row_limit doclist) (version doclist) (is_full doclist) (mem_mmaped doclist).

Definition doclist_checkpoint (all_mmap io : bool) (doclist : doclist_manager)
    : Z * doclist_manager :=
  match mem_mmaped doclist with
  | None => (0, doclist)
  | Some m =>
      if is_full doclist || all_mmap then
        if io then (0, set_file doclist (sync (file doclist) m)) else (-1, doclist)
      else
        let '(rc, f) := flush_memory io (file doclist) (Some m) in
        (rc, set_file doclist f)
  end.

(** What remains after the memory is unmapped: the file. *)
Definition doclist_release (all_mmap io : bool) (doclist : doclist_manager) : list Z :=
  file (snd (doclist_checkpoint all_mmap io doclist)).

Definition doclist_mmap_switch (all_mmap io_flush io_switch : bool) (doclist : doclist_manager)
    : Z * doclist_manager :=
  if negb (is_full doclist) && negb all_mmap then
    let '(rc, f) := flush_memory io_flush (file doclist) (mem_mmaped doclist) in
    let doclist := set_file doclist f in
    if negb (rc =? 0) then (ERROR_MMAP_SWITCH, doclist)
    else
      let '(rc, m) := switch_mmaped_file io_switch f (mem_mmaped doclist)
                        (DOCLIST_MMAP_SIZE (row_limit doclist)) in
      if negb (rc =? 0) then (ERROR_MMAP_SWITCH, doclist)
      else (0, Doclist f (row_limit doclist) (version doclist) true m)
  else (0, doclist).

(** ** Rows *)

(** The rows behind the header word. *)
Definition row (m : list Z) (d : Z) : option (Z * Z) := load_row m (GET_OFFSET d).

Lemma load_row_offset m d : load_row m (GET_OFFSET d) = (x ← m⟦1 + 2 * d⟧; n ← m⟦2 + 2 * d⟧; Some (x, n)).
Proof.
  unfold load_row, GET_OFFSET.
  replace ((4 + d * 8) `mod` 4) with 0 by zdiv.
  replace ((4 + d * 8) / 4) with (1 + 2 * d) by zdiv. simpl.
  by replace (1 + 2 * d + 1) with (2 + 2 * d) by lia.
Qed.

Lemma row_in m N d : zlen m = DOCLIST_MMAP_SIZE N → 0 ≤ d < N → is_Some (row m d).
Proof.
  unfold DOCLIST_MMAP_SIZE. intros Hm Hd. unfold row. rewrite load_row_offset.
  destruct (zget_lt m (1 + 2 * d)) as [x ->]; [lia|].
  destruct (zget_lt m (2 + 2 * d)) as [n ->]; [lia|]. by eexists.
Qed.

Lemma store_row_spec m N d x n :
  zlen m = DOCLIST_MMAP_SIZE N → 0 ≤ d < N →
  ∃ m', store_row m (GET_OFFSET d) x n = Some m' ∧ zlen m' = DOCLIST_MMAP_SIZE N ∧
    m'⟦0⟧ = m⟦0⟧ ∧ ∀ i, row m' i = if decide (i = d) then Some (x, n) else row m i.
Proof.
  unfold DOCLIST_MMAP_SIZE. intros Hm Hd. unfold store_row, GET_OFFSET.
  replace ((4 + d * 8) `mod` 4) with 0 by zdiv.
  replace ((4 + d * 8) / 4) with (1 + 2 * d) by zdiv. simpl (0 =? 0). cbv iota.
  rewrite zset_in by lia. cbn [mbind option_bind].
  rewrite zset_in by (rewrite zlen_insert; lia). eexists. split; [done|].
  rewrite !zlen_insert. split; [done|]. split; [by rewrite !zget_insert_ne by lia|].
  intros i. unfold row. rewrite !load_row_offset. case_decide as E.
  - subst i. replace (2 + 2 * d) with (1 + 2 * d + 1) by lia.
    rewrite (zget_insert_ne _ (1 + 2 * d + 1) (1 + 2 * d)) by lia.
    by rewrite !zget_insert_eq by (rewrite ?zlen_insert; lia).
  - by rewrite !zget_insert_ne by lia.
Qed.

(** Inserting a document writes its own row and nothing else. *)
Lemma doclist_insert_first dl m N d b :
  mem_mmaped dl = Some m → zlen m = DOCLIST_MMAP_SIZE N → 0 ≤ d < N → N < 2 ^ 28 →
  ∃ m', doclist_insert dl d 0 b = Some (GET_OFFSET d, set_mem dl m') ∧
    zlen m' = DOCLIST_MMAP_SIZE N ∧ m'⟦0⟧ = m⟦0⟧ ∧
    ∀ i, row m' i = if decide (i = d) then Some (d, Z.lor LAST_ROW b) else row m i.
Proof.
  intros Em Hm Hd HN. unfold doclist_insert. rewrite Em. cbn [mbind option_bind].
  destruct (store_row_spec m N d d (Z.lor LAST_ROW b) Hm Hd) as (m' & Hs & ?).
  exists m'. simpl (0 =? 0). cbn [mbind option_bind]. rewrite Hs. cbn [mbind option_bind].
  rewrite u32_small by (unfold GET_OFFSET; lia). done.
Qed.

Lemma doclist_insert_next dl m N d h hd n b :
  mem_mmaped dl = Some m → zlen m = DOCLIST_MMAP_SIZE N → 0 ≤ d < N → N < 2 ^ 28 →
  0 ≤ h → row m h = Some (hd, n) →
  if decide (hd < d) then
    ∃ m', doclist_insert dl d (GET_OFFSET h) b = Some (GET_OFFSET d, set_mem dl m') ∧
      zlen m' = DOCLIST_MMAP_SIZE N ∧ m'⟦0⟧ = m⟦0⟧ ∧
      ∀ i, row m' i = if decide (i = d) then Some (d, GET_OFFSET h) else row m i
  else doclist_insert dl d (GET_OFFSET h) b = Some (0, dl).
Proof.
  intros Em Hm Hd HN Hh Hr. unfold doclist_insert. rewrite Em. cbn [mbind option_bind].
  destruct (Z.eqb_spec (GET_OFFSET h) 0) as [E|_]; [unfold GET_OFFSET in E; lia|].
  unfold row in Hr. rewrite Hr. cbn [fmap option_fmap option_map mbind option_bind].
  destruct (Z.leb_spec d hd); [by rewrite decide_False by lia|]. rewrite decide_True by lia.
  destruct (store_row_spec m N d d (GET_OFFSET h) Hm Hd) as (m' & Hs & ?).
  exists m'. rewrite Hs. cbn [mbind option_bind].
  rewrite u32_small by (unfold GET_OFFSET; lia). done.
Qed.

(** ** Persistence *)

Definition doclist_mapped (dl : doclist_manager) : Prop :=
  ∃ m, mem_mmaped dl = Some m ∧ zlen m = DOCLIST_MMAP_SIZE (row_limit dl).

(** After a successful switch the memory is the same words, now shared. *)
Lemma doclist_switch_spec all_mmap dl :
  doclist_mapped dl →
  ∃ dl', doclist_mmap_switch all_mmap true true dl = (0, dl') ∧
    mem_mmaped dl' = mem_mmaped dl ∧ row_limit dl' = row_limit dl ∧ version dl' = version dl.
Proof.
  intros (m & Em & Hm). unfold doclist_mmap_switch.
  destruct (negb (is_full dl) && negb all_mmap); [|by eexists].
  rewrite Em. destruct (flush_memory true (file dl) (Some m)) as [rc f] eqn:Ef.
  pose proof Ef as Ef'. simpl in Ef'. injection Ef' as <- Ef'. simpl negb. cbv iota.
  cbn [set_file mem_mmaped row_limit]. rewrite Em, <- Hm, (flush_switch _ _ _ Ef).
  simpl negb. cbv iota. by eexists.
Qed.
