(* ===== verification/HashIndex.v ===== *)
(** * Hash index ([src/storage/docdb/hash_index.c])

    An open-addressing table of [hashmod] buckets (the 64-bit hash of a value
    and the offset of its newest row in the document list) and one more bucket
    for null.  The hash of a value is a parameter of this file ([common/hash.c]
    defines it). *)

From Stdlib Require Import ZArith Lia.
From stdpp Require Import base option list numbers sets.
From S2P Require Import Prelude FileOp LowData RowidList SetOperator Doclist.

Definition ERROR_INSERT_REPEAT : Z := -4002.
Definition ERROR_HASH_CONFLICT : Z := -4003.

Record hash_bucket := Bucket { hash_value : Z; offset : Z }.

Record hash_index_manager := HashIndex {
  hashmod : Z;
  limit : Z;
  hi_file : list hash_bucket;
  buckets : list hash_bucket;      (* [mem_mmaped] *)
  hi_is_full : bool;
  doclist : doclist_manager
}.

Definition set_table (h : hash_index_manager) (bs : list hash_bucket) (dl : doclist_manager)
    : hash_index_manager :=
  HashIndex (hashmod h) (limit h) (hi_file h) bs (hi_is_full h) dl.

Definition HASH_INDEX_MMAP_SIZE (mod_ : Z) : Z := mod_ + 1.

(** The files are those of the index and of its document list. *)
Definition hash_index_init (all_mmap io io_doclist : bool) (f : list hash_bucket) (fd : list Z)
    (row_limit : Z) (full : bool) : option hash_index_manager :=
  let '(m, f) :=
    if full || all_mmap
    then get_mmap_memory (Bucket 0 0) 12 io f (HASH_INDEX_MMAP_SIZE row_limit)
    else (alloc_file_memory (Bucket 0 0) io f (HASH_INDEX_MMAP_SIZE row_limit), f) in
  m ← m;
  dl ← doclist_init all_mmap io_doclist fd row_limit full;
  Some (HashIndex row_limit row_limit f m full dl).

(** [while (!(doc->next & 0x80000000)) doc = NEXT(doc->next)], the bucket number
    at the end of a chain; a chain visits a row at most once. *)
Fixpoint chain_bucket (fuel : nat) (m : list Z) (next : Z) : option Z :=
  match fuel with
  | O => None
  | S fuel =>
      if negb (Z.land next LAST_ROW =? 0) then Some (Z.land next 0x7fffffff)
      else '(_, n) ← load_row m next; chain_bucket fuel m n
  end.

(** The loop [for (i = docid - 1; ; i--)] of the recovery. *)
Fixpoint recover_rows (i : nat) (m : list Z) (limit : Z) (bs : list hash_bucket)
    : option (list hash_bucket) :=
  match i with
  | O => Some bs
  | S i =>
      '(doc_id, next) ← load_row m (GET_OFFSET (Z.of_nat i));
      if (doc_id =? 0) && (next =? 0) then recover_rows i m limit bs
      else
        bucket_no ← chain_bucket (S (Z.to_nat limit)) m next;
        b ← bs⟦bucket_no⟧;
        let off := u32 (Z.of_nat i * 8 + 4) in
        bs ← (if offset b <? off then bs⟦bucket_no := Bucket (hash_value b) off⟧ else Some bs);
        recover_rows i m limit bs
  end.

Definition hash_index_recover (h : hash_index_manager) (docid : Z)
    : option (Z * hash_index_manager) :=
  if negb (version (doclist h) =? DATA_STOAGE_VERSION) then Some (0, h)
  else
    m ← mem_mmaped (doclist h);
    m ← zfill m (1 + 2 * docid) (2 * u32 (row_limit (doclist h) - docid)) 0;
    let max_offset := u32 (8 * docid + 4) in
    let bs := (λ b, if offset b >=? max_offset then Bucket (hash_value b) 0 else b) <$> buckets h in
    bs ← recover_rows (Z.to_nat docid) m (row_limit (doclist h)) bs;
    let bs := (λ b, if offset b =? 0 then Bucket 0 (offset b) else b) <$> bs in
    Some (0, set_table h bs (set_mem (doclist h) m)).

(** [get_rowid_list]: the rows of a chain from the one at offset [off]. *)
Fixpoint get_rowid_list (fuel : nat) (m : list Z) (off : Z) (rowids : ptr rowid_list)
    : option (ptr rowid_list) :=
  match fuel with
  | O => None
  | S fuel =>
      '(doc_id, next) ← load_row m off;
      rowids ← rowid_list_add rowids doc_id;
      if negb (Z.land next LAST_ROW =? 0) || (next =? 0) then Some rowids
      else get_rowid_list fuel m next rowids
  end.

Section hash_index.
Context (get_hash_value : low_data_struct → Z).

(** The [do ... while (i != loc)] of the insertion; [fuel] is [hashmod]. *)
Fixpoint insert_probe (fuel : nat) (h : hash_index_manager) (hv loc i docid : Z)
    : option (Z * hash_index_manager) :=
  match fuel with
  | O => None
  | S fuel =>
      b ← (buckets h)⟦i⟧;
      if hash_value b =? 0 then
        '(off, dl) ← doclist_insert (doclist h) docid 0 i;
        if off =? 0 then Some (ERROR_INSERT_REPEAT, set_table h (buckets h) dl)
        else
          bs ← (buckets h)⟦i := Bucket hv off⟧;
          Some (0, set_table h bs dl)
      else if hash_value b =? hv then
        '(off, dl) ← doclist_insert (doclist h) docid (offset b) i;
        if off =? 0 then Some (ERROR_INSERT_REPEAT, set_table h (buckets h) dl)
        else
          bs ← (buckets h)⟦i := Bucket (hash_value b) off⟧;
          Some (0, set_table h bs dl)
      else
        let i := u32 (i + 1) `mod` hashmod h in
        if i =? loc then Some (ERROR_HASH_CONFLICT, h)
        else insert_probe fuel h hv loc i docid
  end.

Definition hash_index_insert (h : hash_index_manager) (data : low_data_struct) (docid : Z)
    : option (Z * hash_index_manager) :=
  let hv := get_hash_value data in
  if len data =? 0 then
    b ← (buckets h)⟦hashmod h⟧;
    if hash_value b =? 0 then
      '(off, dl) ← doclist_insert (doclist h) docid 0 (hashmod h);
      if off =? 0 then Some (ERROR_INSERT_REPEAT, set_table h (buckets h) dl)
      else
        bs ← (buckets h)⟦hashmod h := Bucket hv off⟧;
        Some (0, set_table h bs dl)
    else
      '(off, dl) ← doclist_insert (doclist h) docid (offset b) (hashmod h);
      bs ← (buckets h)⟦hashmod h := Bucket (hash_value b) off⟧;
      Some (0, set_table h bs dl)
  else if hashmod h =? 0 then None   (* division by zero *)
  else
    let loc := hv `mod` hashmod h in
    insert_probe (Z.to_nat (hashmod h)) h hv loc loc docid.

Definition chain_rowids (h : hash_index_manager) (off : Z) : option (ptr rowid_list) :=
  m ← mem_mmaped (doclist h);
  get_rowid_list (S (Z.to_nat (row_limit (doclist h)))) m off (Ptr rowid_list_init).

Fixpoint query_probe (fuel : nat) (h : hash_index_manager) (hv loc i : Z)
    : option (ptr rowid_list) :=
  match fuel with
  | O => None
  | S fuel =>
      b ← (buckets h)⟦i⟧;
      if hash_value b =? 0 then Some NULL
      else if hash_value b =? hv then chain_rowids h (offset b)
      else
        let i := u32 (i + 1) `mod` hashmod h in
        if i =? loc then Some NULL else query_probe fuel h hv loc i
  end.

Definition hash_index_query (h : hash_index_manager) (data : low_data_struct)
    : option (ptr rowid_list) :=
  if len data =? 0 then
    b ← (buckets h)⟦hashmod h⟧;
    if hash_value b =? 0 then Some NULL else chain_rowids h (offset b)
  else if hashmod h =? 0 then None
  else
    let hv := get_hash_value data in
    let loc := hv `mod` hashmod h in
    query_probe (Z.to_nat (hashmod h)) h hv loc loc.
End hash_index.

(** [hash_index_checkpoint] and [hash_index_release] write the table and the
    document list back, [hash_index_mmap_switch] moves both to shared mappings. *)
Definition set_hi_file (h : hash_index_manager) (f : list hash_bucket) (dl : doclist_manager)
    : hash_index_manager :=
  HashIndex (hashmod h) (limit h) f (buckets h) (hi_is_full h) dl.

Definition hash_index_checkpoint (all_mmap io io_doclist : bool) (h : hash_index_manager)
    : hash_index_manager :=
  let '(_, dl) := doclist_checkpoint all_mmap io_doclist (doclist h) in
  if hi_is_full h || all_mmap then
    let f := if io then buckets h ++ drop (length (buckets h)) (hi_file h) else hi_file h in
    set_hi_file h f dl
  else
    let '(_, f) := flush_memory io (hi_file h) (Some (buckets h)) in
    set_hi_file h f dl.

(** The files after the memory is unmapped. *)
Definition hash_index_release (all_mmap io io_doclist : bool) (h : hash_index_manager)
    : list hash_bucket * list Z :=
  let h := hash_index_checkpoint all_mmap io io_doclist h in
  (hi_file h, file (doclist h)).

Definition hash_index_mmap_switch (all_mmap io_flush io_switch dl_flush dl_switch : bool)
    (h : hash_index_manager) : Z * hash_index_manager :=
  if negb (hi_is_full h) && negb all_mmap then
    let '(rc, f) := flush_memory io_flush (hi_file h) (Some (buckets h)) in
    let h := set_hi_file h f (doclist h) in
    if negb (rc =? 0) then (ERROR_MMAP_SWITCH, h)
    else
      let '(rc, m) := switch_mmaped_file io_switch f (Some (buckets h))
                        (HASH_INDEX_MMAP_SIZE (hashmod h)) in
      if negb (rc =? 0) then (ERROR_MMAP_SWITCH, h)
      else
        let h := set_table h (default [] m) (doclist h) in
        let '(rc, dl) := doclist_mmap_switch all_mmap dl_flush dl_switch (doclist h) in
        if negb (rc =? 0) then (ERROR_MMAP_SWITCH, set_table h (buckets h) dl)
        else (0, HashIndex (hashmod h) (limit h) (hi_file h) (buckets h) true dl)
  else (0, h).

(** ** The chains of the document list

    The history of the index: the documents inserted so far with the bucket
    each went to, newest first.  It determines every row. *)

Notation history := (list (Z * Z)) (only parsing).

(** The documents of bucket [b], newest first. *)
Definition slot_docs (hist : history) (b : Z) : list Z := (filter (λ p, p.2 = b) hist).*1.

Definition link (hist : history) (b : Z) : Z :=
  match slot_docs hist b with d :: _ => GET_OFFSET d | [] => Z.lor LAST_ROW b end.

Definition head_off (hist : history) (b : Z) : Z :=
  match slot_docs hist b with d :: _ => GET_OFFSET d | [] => 0 end.

Fixpoint row_of (hist : history) (i : Z) : Z * Z :=
  match hist with
  | [] => (0, 0)
  | (d, b) :: hist => if decide (i = d) then (d, link hist b) else row_of hist i
  end.

Record rows_inv (N : Z) (hist : history) (m : list Z) : Prop := {
  ri_len : zlen m = DOCLIST_MMAP_SIZE N;
  ri_row : ∀ i, 0 ≤ i < N → row m i = Some (row_of hist i);
  ri_desc : desc hist.*1;
  ri_range : ∀ d b, (d, b) ∈ hist → 0 ≤ d < N ∧ 0 ≤ b ≤ N
}.

Lemma slot_docs_cons hist d b b' :
  slot_docs ((d, b) :: hist) b' = if decide (b = b') then d :: slot_docs hist b' else slot_docs hist b'.
Proof. unfold slot_docs. rewrite filter_cons. simpl. by case_decide. Qed.

Lemma elem_of_slot_docs hist d b : d ∈ slot_docs hist b ↔ (d, b) ∈ hist.
Proof.
  unfold slot_docs. rewrite list_elem_of_fmap. split.
  - intros ([d' b'] & -> & [? ?]%list_elem_of_filter). simpl in *. by subst.
  - intros H. exists (d, b). split; [done|]. by apply list_elem_of_filter.
Qed.

Lemma slot_docs_head hist b d ds : slot_docs hist b = d :: ds → (d, b) ∈ hist.
Proof. intros E. apply elem_of_slot_docs. rewrite E. left. Qed.

Lemma desc_NoDup l : desc l → NoDup l.
Proof.
  induction l as [|x l IH]; intros H; [constructor|]. apply desc_cons_inv in H as [H Hx].
  constructor; [|by apply IH]. intros Hin%Hx. lia.
Qed.

Lemma row_of_absent hist i : i ∉ hist.*1 → row_of hist i = (0, 0).
Proof.
  induction hist as [|[d b] hist IH]; [done|]. rewrite fmap_cons, not_elem_of_cons. simpl.
  intros [??]. rewrite decide_False by done. auto.
Qed.

Lemma row_of_app newer older i : i ∉ newer.*1 → row_of (newer ++ older) i = row_of older i.
Proof.
  induction newer as [|[d b] newer IH]; [done|]. rewrite fmap_cons, not_elem_of_cons. simpl.
  intros [??]. rewrite decide_False by done. auto.
Qed.

(** The row of a document points to the older documents of its bucket. *)
Lemma row_of_suffix newer d b older :
  desc (newer ++ (d, b) :: older).*1 → row_of (newer ++ (d, b) :: older) d = (d, link older b).
Proof.
  intros Hd%desc_NoDup. rewrite fmap_app, fmap_cons in Hd. simpl in Hd.
  apply NoDup_app in Hd as (_ & Hd & _). rewrite row_of_app.
  - simpl. by rewrite decide_True.
  - intros Hin. apply Hd in Hin. apply Hin. left.
Qed.

(** *** Offsets and bucket marks *)

Lemma land_last_small x : 0 ≤ x < 2 ^ 31 → Z.land x LAST_ROW = 0.
Proof.
  intros Hx. apply Z.bits_inj'. intros n Hn. rewrite Z.land_spec, Z.bits_0.
  change LAST_ROW with (2 ^ 31). rewrite Z.pow2_bits_eqb by done.
  destruct (Z.eqb_spec 31 n) as [<-|]; [|by rewrite andb_false_r].
  rewrite andb_true_r. destruct (decide (x = 0)) as [->|]; [apply Z.bits_0|].
  apply Z.bits_above_log2; [lia|]. apply Z.log2_lt_pow2; lia.
Qed.

Lemma land_last_mark b : 0 ≤ b < 2 ^ 31 → Z.land (Z.lor LAST_ROW b) LAST_ROW = LAST_ROW.
Proof.
  intros. by rewrite Z.land_lor_distr_l, (land_last_small b), Z.lor_0_r by done.
Qed.

Lemma mark_bucket b : 0 ≤ b < 2 ^ 31 → Z.land (Z.lor LAST_ROW b) 0x7fffffff = b.
Proof.
  intros. rewrite Z.land_lor_distr_l. change (Z.land LAST_ROW 0x7fffffff) with 0.
  rewrite Z.lor_0_l. change 0x7fffffff with (Z.ones 31). rewrite Z.land_ones by done.
  by apply Z.mod_small.
Qed.

Lemma offset_land d : 0 ≤ d < 2 ^ 28 → Z.land (GET_OFFSET d) LAST_ROW = 0.
Proof. intros. apply land_last_small. unfold GET_OFFSET. lia. Qed.

Section chains.
Context (N : Z) (HN : N < 2 ^ 28) (hist : history) (m : list Z) (Hm : rows_inv N hist m).

Lemma row_suffix newer d b older :
  hist = newer ++ (d, b) :: older → load_row m (GET_OFFSET d) = Some (d, link older b).
Proof.
  intros E. destruct (ri_range _ _ _ Hm d b) as [Hd _]; [rewrite E; set_solver|].
  change (row m d = Some (d, link older b)). rewrite (ri_row _ _ _ Hm) by done.
  rewrite E, row_of_suffix; [done|]. rewrite <- E. apply Hm.
Qed.

(** Walking a chain collects the documents of its bucket. *)
Lemma get_rowid_list_spec fuel newer older b d ds l :
  hist = newer ++ older → slot_docs older b = d :: ds → (length ds < fuel)%nat →
  list_tight l → rowid_num l + zlen (d :: ds) < 2 ^ 32 →
  ∃ l', get_rowid_list fuel m (GET_OFFSET d) (Ptr l) = Some (Ptr l') ∧ list_tight l' ∧
    elems l' = elems l ++ d :: ds.
Proof.
  revert fuel newer d ds l. induction older as [|[d0 b0] older IH];
    intros fuel newer d ds l Eh Es Hf Ht Hmax; [done|].
  rewrite slot_docs_cons in Es. destruct (decide (b0 = b)) as [->|Hb].
  2:{ apply (IH fuel (newer ++ [(d0, b0)])); try done. by rewrite <- app_assoc. }
  injection Es as -> Es. destruct fuel as [|fuel]; [simpl in Hf; lia|].
  cbn [get_rowid_list]. rewrite (row_suffix newer d b older Eh). cbn [mbind option_bind].
  unfold zlen in Hmax. simpl in Hmax.
  destruct (rowid_list_add_spec l d Ht) as (l1 & -> & Ht1 & He1); [lia|].
  cbn [mbind option_bind].
  assert (rowid_num l1 = rowid_num l + 1) as Hn1.
  { rewrite <- (zlen_elems l1), <- (zlen_elems l), He1, zlen_app by apply lt_wf, Ht || apply Ht1.
    done. }
  destruct (ri_range _ _ _ Hm d b) as [_ Hbr]; [rewrite Eh; set_solver|].
  unfold link. destruct ds as [|d' ds]; rewrite Es.
  - rewrite land_last_mark by lia. simpl negb. cbn [orb]. eauto.
  - assert ((d', b) ∈ older) as Hin by by eapply slot_docs_head.
    destruct (ri_range _ _ _ Hm d' b) as [Hd' _]; [rewrite Eh; set_solver|].
    rewrite offset_land by lia. simpl negb. cbn [orb].
    destruct (Z.eqb_spec (GET_OFFSET d') 0) as [E|_]; [unfold GET_OFFSET in E; lia|].
    destruct (IH fuel (newer ++ [(d, b)]) d' ds l1) as (l' & ? & ? & He);
      [by rewrite <- app_assoc|done|simpl in Hf; lia|done|unfold zlen; simpl; simpl in Hmax; lia|].
    exists l'. split; [done|]. split; [done|]. rewrite He, He1, <- app_assoc. done.
Qed.

(** Following the links of a row ends at its bucket's mark. *)
Lemma chain_bucket_spec fuel newer older b :
  hist = newer ++ older → 0 ≤ b ≤ N → (length (slot_docs older b) < fuel)%nat →
  chain_bucket fuel m (link older b) = Some b.
Proof.
  revert fuel newer. induction older as [|[d0 b0] older IH]; intros fuel newer Eh Hb Hf.
  - destruct fuel as [|fuel]; [lia|]. change (link [] b) with (Z.lor LAST_ROW b). cbn [chain_bucket].
    rewrite land_last_mark, mark_bucket by lia. done.
  - unfold link in *. rewrite slot_docs_cons in *. destruct (decide (b0 = b)) as [->|Hne].
    2:{ apply (IH fuel (newer ++ [(d0, b0)])); try done. by rewrite <- app_assoc. }
    destruct fuel as [|fuel]; [lia|]. cbn [chain_bucket].
    destruct (ri_range _ _ _ Hm d0 b) as [Hd _]; [rewrite Eh; set_solver|].
    rewrite offset_land by lia. simpl negb. cbv iota.
    rewrite (row_suffix newer d0 b older Eh). cbn [mbind option_bind].
    apply (IH fuel (newer ++ [(d0, b)])); [by rewrite <- app_assoc|done|simpl in Hf; lia].
Qed.
End chains.

(** ** The table *)

(** The table and the document list hold the history [hist], with [hv b] the
    hash stored in bucket [b]. *)
Record table_inv (N : Z) (hist : history) (hv : Z → Z) (h : hash_index_manager) : Prop := {
  ti_N : 0 < N < 2 ^ 28;
  ti_mod : hashmod h = N;
  ti_limit : Doclist.row_limit (doclist h) = N;
  ti_rows : ∃ m, Doclist.mem_mmaped (doclist h) = Some m ∧ rows_inv N hist m;
  ti_len : zlen (buckets h) = N + 1;
  ti_bucket : ∀ b, 0 ≤ b ≤ N → (buckets h)⟦b⟧ = Some (Bucket (hv b) (head_off hist b));
  ti_header : ∀ m, Doclist.mem_mmaped (doclist h) = Some m → m⟦0⟧ = Some (version (doclist h))
}.

Definition upd (hv : Z → Z) (b v : Z) : Z → Z := λ b', if decide (b' = b) then v else hv b'.

Lemma rows_inv_cons N hist m m' d b :
  rows_inv N hist m → zlen m' = DOCLIST_MMAP_SIZE N → 0 ≤ d < N → 0 ≤ b ≤ N →
  (∀ d', d' ∈ hist.*1 → d' < d) →
  (∀ i, row m' i = if decide (i = d) then Some (d, link hist b) else row m i) →
  rows_inv N ((d, b) :: hist) m'.
Proof.
  intros Hm Hl Hd Hb Hnew Hr. split; [done|..].
  - intros i Hi. rewrite Hr. cbn [row_of]. case_decide; [done|]. by apply Hm.
  - rewrite fmap_cons. apply desc_cons; [apply Hm|done].
  - intros d' b' [[= -> ->]|Hin]%elem_of_cons; [done|]. by apply (ri_range _ _ _ Hm).
Qed.

(** Both branches of [doclist_insert] put document [d] in front of bucket [b]. *)
Lemma put_spec N hist hv h d b v :
  table_inv N hist hv h → 0 ≤ d < N → 0 ≤ b ≤ N → (∀ d', d' ∈ hist.*1 → d' < d) →
  ∃ dl bs, doclist_insert (doclist h) d (head_off hist b) b = Some (GET_OFFSET d, dl) ∧
    (buckets h)⟦b := Bucket v (GET_OFFSET d)⟧ = Some bs ∧
    table_inv N ((d, b) :: hist) (upd hv b v) (set_table h bs dl) ∧
    version dl = version (doclist h).
Proof.
  intros [HN Hmod Hlim (m & Em & Hm) Hlen Hbk Hhd] Hd Hb Hnew.
  assert (∃ m', doclist_insert (doclist h) d (head_off hist b) b
      = Some (GET_OFFSET d, Doclist.set_mem (doclist h) m') ∧ m'⟦0⟧ = m⟦0⟧ ∧
      rows_inv N ((d, b) :: hist) m') as (m' & Hins & Hm0 & Hm').
  { unfold head_off. destruct (slot_docs hist b) as [|d' ds] eqn:Es.
    - destruct (doclist_insert_first (doclist h) m N d b) as (m' & Hins & Hl & ? & Hr);
        [done|apply Hm|done|lia|].
      exists m'. split; [done|]. split; [done|]. apply (rows_inv_cons N hist m); try done.
      intros i. rewrite Hr. unfold link. by rewrite Es.
    - pose proof (slot_docs_head _ _ _ _ Es) as Hin.
      destruct (ri_range _ _ _ Hm _ _ Hin) as [Hd' _].
      assert (d' < d) as Hlt by (apply Hnew; apply (list_elem_of_fmap_2 fst) in Hin; done).
      apply list_elem_of_split in Hin as (newer & older & Eh).
      pose proof (doclist_insert_next (doclist h) m N d d' d' (link older b) b) as Hins.
      rewrite decide_True in Hins by done.
      destruct Hins as (m' & Hins & Hl & ? & Hr);
        [done|apply Hm|done|lia|lia|by apply (row_suffix N (proj2 HN) hist m Hm newer d' b older)|].
      exists m'. split; [done|]. split; [done|]. apply (rows_inv_cons N hist m); try done.
      intros i. rewrite Hr. unfold link. by rewrite Es. }
  eexists _, _. split; [done|]. rewrite zset_in by lia. split; [done|]. split; [|done].
  split; cbn [set_table hashmod doclist buckets]; try done.
  - exists m'. done.
  - by rewrite zlen_insert.
  - intros b' Hb'. unfold head_off, upd. rewrite slot_docs_cons.
    destruct (decide (b' = b)) as [->|Hne].
    + rewrite decide_True by done. apply zget_insert_eq. lia.
    + rewrite decide_False by congruence. rewrite zget_insert_ne by lia. by apply Hbk.
  - intros m0. cbn [Doclist.set_mem Doclist.mem_mmaped version]. intros [= <-]. rewrite Hm0. by apply Hhd.
Qed.

(** *** Recovery *)

Definition before (d : Z) (hist : history) : history := filter (λ p, p.1 < d) hist.

(** In a descending history the documents below [d] are a suffix. *)
Lemma before_split d hist :
  desc hist.*1 → ∃ newer, hist = newer ++ before d hist ∧ ∀ d', d' ∈ newer.*1 → d ≤ d'.
Proof.
  induction hist as [|[d0 b0] hist IH]; intros Hd.
  - exists []. split; [done|set_solver].
  - rewrite fmap_cons in Hd. apply desc_cons_inv in Hd as [Hd Hlt]. simpl in Hlt.
    unfold before. rewrite filter_cons. simpl. case_decide as Hdd.
    + exists []. split; [|set_solver]. simpl. f_equal. symmetry.
      apply filter_all_in. intros [d' b'] Hin. simpl.
      apply (list_elem_of_fmap_2 fst) in Hin. apply Hlt in Hin. simpl in Hin. lia.
    + destruct (IH Hd) as (newer & E & Hn). exists ((d0, b0) :: newer). split.
      * simpl. f_equal. exact E.
      * intros d' [->|?]%elem_of_cons; simpl; [lia|by apply Hn].
Qed.

Lemma elem_of_before d hist d' b : (d', b) ∈ before d hist ↔ d' < d ∧ (d', b) ∈ hist.
Proof. unfold before. rewrite list_elem_of_filter. done. Qed.

Lemma fst_before d hist d' : d' ∈ (before d hist).*1 ↔ d' < d ∧ d' ∈ hist.*1.
Proof.
  rewrite !list_elem_of_fmap. split.
  - intros ([x b] & -> & [? ?]%elem_of_before). split; [done|]. by exists (x, b).
  - intros (Hlt & [x b] & -> & ?). exists (x, b). by rewrite elem_of_before.
Qed.

Lemma before_desc d hist : desc hist.*1 → desc (before d hist).*1.
Proof.
  intros H. destruct (before_split d hist H) as (newer & E & _). rewrite E, fmap_app in H.
  clear E. induction newer as [|p newer IH]; [done|]. apply IH. simpl in H.
  by apply desc_cons_inv in H as [H _].
Qed.

Lemma slot_docs_before d hist b :
  slot_docs (before d hist) b = filter (λ x, x < d) (slot_docs hist b).
Proof.
  unfold slot_docs, before. induction hist as [|[d0 b0] hist IH]; [done|].
  rewrite !filter_cons. simpl. case_decide; rewrite ?filter_cons; simpl; repeat case_decide;
    rewrite ?fmap_cons, ?filter_cons; simpl; repeat case_decide; try done; by rewrite IH.
Qed.

(** Clearing the rows from [d] on leaves the rows of the older history. *)
Lemma rows_inv_clear N hist m d :
  rows_inv N hist m → 0 ≤ d ≤ N →
  ∃ m', zfill m (1 + 2 * d) (2 * (N - d)) 0 = Some m' ∧ m'⟦0⟧ = m⟦0⟧ ∧
    rows_inv N (before d hist) m'.
Proof.
  intros Hm Hd. pose proof (ri_len _ _ _ Hm) as Hl. unfold DOCLIST_MMAP_SIZE in Hl.
  destruct (zfill_spec m (1 + 2 * d) (2 * (N - d)) 0) as (m' & Hf & Hl' & Hget); [lia..|].
  exists m'. split; [done|]. split; [rewrite Hget; by rewrite decide_False by lia|].
  pose proof (before_split d hist (ri_desc _ _ _ Hm)) as (newer & E & Hnew).
  split.
  - unfold DOCLIST_MMAP_SIZE. lia.
  - intros i Hi. unfold row. rewrite load_row_offset, !Hget.
    destruct (decide (i < d)) as [Hid|Hid].
    + rewrite !decide_False by lia. rewrite <- load_row_offset.
      change (row m i = Some (row_of (before d hist) i)). rewrite (ri_row _ _ _ Hm) by done.
      f_equal. rewrite E at 1. apply row_of_app. intros Hin%Hnew. lia.
    + rewrite !decide_True by lia. cbn [mbind option_bind]. f_equal. symmetry.
      apply row_of_absent. intros [? _]%fst_before. lia.
  - apply before_desc, Hm.
  - intros d' b [_ Hin]%elem_of_before. by apply (ri_range _ _ _ Hm).
Qed.

Lemma hist_length N hist m : rows_inv N hist m → zlen hist ≤ Z.max 0 N.
Proof.
  intros Hm. replace (zlen hist) with (zlen hist.*1) by (unfold zlen; by rewrite length_fmap).
  apply desc_length; [apply Hm|]. intros v ([d b] & -> & Hin)%list_elem_of_fmap.
  by apply (ri_range _ _ _ Hm) in Hin as [? _].
Qed.

Lemma slot_docs_length hist b : (length (slot_docs hist b) ≤ length hist)%nat.
Proof. unfold slot_docs. rewrite length_fmap. apply length_filter. Qed.

Lemma head_off_max hist x b : desc hist.*1 → (x, b) ∈ hist → GET_OFFSET x ≤ head_off hist b.
Proof.
  induction hist as [|[d0 b0] hist IH]; intros Hd Hin; [set_solver|].
  rewrite fmap_cons in Hd. apply desc_cons_inv in Hd as [Hd Hlt]. simpl in Hlt.
  unfold head_off in *. rewrite slot_docs_cons. apply elem_of_cons in Hin as [[= -> ->]|Hin].
  - by rewrite decide_True.
  - case_decide; [|by apply IH]. apply (list_elem_of_fmap_2 fst) in Hin. apply Hlt in Hin.
    simpl in Hin. unfold GET_OFFSET. lia.
Qed.

Lemma head_off_nonneg N hist m b : rows_inv N hist m → 0 ≤ head_off hist b.
Proof.
  intros Hm. unfold head_off. destruct (slot_docs hist b) as [|d ds] eqn:E; [done|].
  apply slot_docs_head in E. apply (ri_range _ _ _ Hm) in E as [? _]. unfold GET_OFFSET. lia.
Qed.

Lemma link_nonzero N hist m b : rows_inv N hist m → link hist b ≠ 0.
Proof.
  intros Hm. unfold link. destruct (slot_docs hist b) as [|d ds] eqn:E.
  - intros [? _]%Z.lor_eq_0_iff. done.
  - apply slot_docs_head in E. apply (ri_range _ _ _ Hm) in E as [? _]. unfold GET_OFFSET. lia.
Qed.

(** A document is in one bucket only. *)
Lemma NoDup_fst_unique {A B} (l : list (A * B)) x y y' :
  NoDup l.*1 → (x, y) ∈ l → (x, y') ∈ l → y = y'.
Proof.
  induction l as [|[a b] l IH]; intros Hnd H1 H2; [set_solver|].
  rewrite fmap_cons in Hnd. apply NoDup_cons in Hnd as [Hni Hnd]. simpl in Hni.
  apply elem_of_cons in H1 as [H1|H1], H2 as [H2|H2]; simplify_eq; try done.
  - exfalso. apply Hni. by apply (list_elem_of_fmap_2 fst) in H2.
  - exfalso. apply Hni. by apply (list_elem_of_fmap_2 fst) in H1.
  - by apply IH.
Qed.

Section recover.
Context (N : Z) (HN : 0 < N < 2 ^ 28) (hist : history) (m : list Z) (Hm : rows_inv N hist m).
Context (hv : Z → Z).

(** During the loop the offset [o b] of bucket [b] is at most the final one and
    covers the documents visited so far, those from [n] on. *)
Record recover_inv (n : nat) (bs : list hash_bucket) (o : Z → Z) : Prop := {
  rv_len : zlen bs = N + 1;
  rv_get : ∀ b, 0 ≤ b ≤ N → bs⟦b⟧ = Some (Bucket (hv b) (o b));
  rv_le : ∀ b, 0 ≤ o b ≤ head_off hist b;
  rv_ge : ∀ x b, (x, b) ∈ hist → Z.of_nat n ≤ x → GET_OFFSET x ≤ o b
}.

Lemma recover_end bs o :
  recover_inv 0 bs o →
  ∀ b, 0 ≤ b ≤ N → bs⟦b⟧ = Some (Bucket (hv b) (head_off hist b)).
Proof.
  intros [Hlen Hget Hle Hge] b Hb. rewrite Hget by done. do 2 f_equal.
  specialize (Hle b). unfold head_off in *. destruct (slot_docs hist b) as [|d ds] eqn:E; [lia|].
  apply slot_docs_head in E. pose proof (ri_range _ _ _ Hm _ _ E) as [? _].
  specialize (Hge d b E). lia.
Qed.

Lemma recover_inv_keep n bs o :
  recover_inv (S n) bs o → (∀ b, (Z.of_nat n, b) ∈ hist → GET_OFFSET (Z.of_nat n) ≤ o b) →
  recover_inv n bs o.
Proof.
  intros [Hlen Hget Hle Hge] Hnew. split; try done. intros x b Hx Hxn.
  destruct (decide (x = Z.of_nat n)) as [->|]; [auto|apply Hge; [done|lia]].
Qed.

Lemma recover_inv_raise n bs o b hb :
  recover_inv (S n) bs o → 0 ≤ b ≤ N → (Z.of_nat n, b) ∈ hist → o b < GET_OFFSET (Z.of_nat n) →
  hb = Bucket (hv b) (GET_OFFSET (Z.of_nat n)) →
  recover_inv n (<[Z.to_nat b := hb]> bs) (upd o b (GET_OFFSET (Z.of_nat n))).
Proof.
  intros [Hlen Hget Hle Hge] Hb Hin Hlt ->.
  pose proof (head_off_max _ _ _ (ri_desc _ _ _ Hm) Hin) as Hmax. split.
  - by rewrite zlen_insert.
  - intros b' Hb'. unfold upd. case_decide as Eb.
    + subst b'. apply zget_insert_eq. lia.
    + rewrite zget_insert_ne by lia. by apply Hget.
  - intros b'. unfold upd. case_decide as Eb; [subst b'; unfold GET_OFFSET in *; lia|apply Hle].
  - intros x b' Hx Hxn. unfold upd. case_decide as Eb.
    + subst b'. destruct (decide (x = Z.of_nat n)) as [->|]; [done|].
      specialize (Hge x b Hx). unfold GET_OFFSET in *. lia.
    + destruct (decide (x = Z.of_nat n)) as [->|]; [|apply Hge; [done|lia]].
      exfalso. apply Eb. by eapply (NoDup_fst_unique hist); [apply desc_NoDup, Hm| |].
Qed.

Lemma recover_rows_spec n bs o :
  Z.of_nat n ≤ N → recover_inv n bs o →
  ∃ bs', recover_rows n m N bs = Some bs' ∧ zlen bs' = N + 1 ∧
    ∀ b, 0 ≤ b ≤ N → bs'⟦b⟧ = Some (Bucket (hv b) (head_off hist b)).
Proof.
  revert bs o. induction n as [|n IH]; intros bs o Hn Hinv.
  { exists bs. split_and!; [done|apply Hinv|by eapply recover_end]. }
  cbn [recover_rows]. change (load_row m (GET_OFFSET (Z.of_nat n))) with (row m (Z.of_nat n)).
  rewrite (ri_row _ _ _ Hm) by lia.
  destruct (decide (Z.of_nat n ∈ hist.*1)) as [Hin|Hin].
  2:{ rewrite row_of_absent by done. cbn [mbind option_bind]. simpl (_ && _). cbv iota.
      apply (IH bs o); [lia|]. apply recover_inv_keep; [done|].
      intros b Hx. exfalso. apply Hin. by apply (list_elem_of_fmap_2 fst) in Hx. }
  apply list_elem_of_fmap in Hin as ([x b] & Ex & Hin). simpl in Ex. subst x.
  pose proof (ri_range _ _ _ Hm _ _ Hin) as [_ Hb].
  pose proof Hin as Hin'.
  apply list_elem_of_split in Hin as (newer & older & Eh).
  assert (row_of hist (Z.of_nat n) = (Z.of_nat n, link older b)) as ->.
  { pose proof (ri_desc _ _ _ Hm) as Hd. rewrite Eh in Hd |- *. by apply row_of_suffix. }
  cbn [mbind option_bind].
  destruct (Z.eqb_spec (link older b) 0) as [E|_].
  { exfalso. revert E. unfold link. destruct (slot_docs older b) as [|d ds] eqn:E.
    - intros [? _]%Z.lor_eq_0_iff. done.
    - apply slot_docs_head in E. destruct (ri_range _ _ _ Hm d b) as [? _];
        [rewrite Eh; set_solver|]. unfold GET_OFFSET. lia. }
  rewrite andb_false_r.
  pose proof (hist_length _ _ _ Hm) as Hhl. unfold zlen in Hhl.
  pose proof (slot_docs_length older b) as Hol. rewrite Eh, length_app in Hhl. simpl in Hhl.
  rewrite (chain_bucket_spec N (proj2 HN) hist m Hm _ (newer ++ [(Z.of_nat n, b)]) older b);
    [|by rewrite <- app_assoc|done|lia].
  cbn [mbind option_bind]. rewrite (rv_get _ _ _ Hinv) by done.
  cbn [mbind option_bind offset hash_value].
  rewrite u32_small by lia.
  replace (Z.of_nat n * 8 + 4) with (GET_OFFSET (Z.of_nat n)) by (unfold GET_OFFSET; lia).
  destruct (Z.ltb_spec (o b) (GET_OFFSET (Z.of_nat n))) as [Hlt|Hlt].
  - rewrite zset_in by (rewrite (rv_len _ _ _ Hinv); lia). cbn [mbind option_bind].
    apply (IH _ (upd o b (GET_OFFSET (Z.of_nat n)))); [lia|]. by apply recover_inv_raise.
  - cbn [mbind option_bind]. apply (IH bs o); [lia|]. apply recover_inv_keep; [done|]. intros b' Hx.
    replace b' with b; [done|]. apply (NoDup_fst_unique hist (Z.of_nat n)); [apply desc_NoDup, Hm|done|done].
Qed.
End recover.

Lemma head_off_zero N hist m b :
  rows_inv N hist m → head_off hist b = 0 ↔ slot_docs hist b = [].
Proof.
  intros Hm. unfold head_off. destruct (slot_docs hist b) as [|d ds] eqn:E; [done|].
  apply slot_docs_head in E. apply (ri_range _ _ _ Hm) in E as [? _].
  unfold GET_OFFSET. split; [lia|done].
Qed.

Definition kept (hist : history) (hv : Z → Z) : Z → Z :=
  λ b, if decide (slot_docs hist b = []) then 0 else hv b.

Lemma hash_index_recover_spec N hist hv h d :
  table_inv N hist hv h → version (doclist h) = DATA_STOAGE_VERSION → 0 ≤ d ≤ N →
  ∃ h', hash_index_recover h d = Some (0, h') ∧
    table_inv N (before d hist) (kept (before d hist) hv) h' ∧
    version (doclist h') = DATA_STOAGE_VERSION.
Proof.
  intros [HN Hmod Hlim (m & Em & Hm) Hlen Hbk Hhd] Hv Hd. unfold hash_index_recover.
  rewrite Hv, Z.eqb_refl, Em, Hlim. simpl negb. cbv iota. cbn [mbind option_bind].
  rewrite !u32_small by lia.
  destruct (rows_inv_clear N hist m d Hm Hd) as (m' & -> & Hm0 & Hm'). cbn [mbind option_bind].
  set (bs := (λ b, if offset b >=? 8 * d + 4 then Bucket (hash_value b) 0 else b) <$> buckets h).
  destruct (recover_rows_spec N HN (before d hist) m' Hm' hv (Z.to_nat d) bs
    (λ b, if head_off hist b >=? 8 * d + 4 then 0 else head_off hist b)) as (bs' & -> & Hlen' & Hbk').
  - lia.
  - split.
    + unfold bs, zlen. rewrite length_fmap. exact Hlen.
    + intros b Hb. unfold bs. rewrite zget_fmap, Hbk by done. simpl. by destruct (_ >=? _).
    + intros b. pose proof (head_off_nonneg _ _ _ b Hm). pose proof (head_off_nonneg _ _ _ b Hm').
      destruct (head_off hist b >=? 8 * d + 4) eqn:E; [lia|]. split; [done|]. zb.
      unfold head_off in E |- * at 1. destruct (slot_docs hist b) as [|x xs] eqn:Es; [done|].
      apply head_off_max; [apply Hm'|]. apply slot_docs_head in Es. rewrite elem_of_before.
      split; [|done]. unfold GET_OFFSET in E. lia.
    + intros x b [? _]%elem_of_before ?. lia.
  - cbn [mbind option_bind]. eexists. split; [done|].
    split; [|by cbn [set_table doclist Doclist.set_mem version]].
    split; cbn [set_table hashmod doclist buckets Doclist.set_mem Doclist.row_limit Doclist.mem_mmaped];
      try done.
    + exists m'. done.
    + unfold zlen. by rewrite length_fmap.
    + intros b Hb. rewrite zget_fmap, Hbk' by done. simpl. unfold kept.
      destruct (Z.eqb_spec (head_off (before d hist) b) 0) as [E|E].
      * rewrite decide_True by (by eapply head_off_zero). by rewrite E.
      * rewrite decide_False; [done|]. intros E'. apply E. by eapply head_off_zero.
    + intros m0 [= <-]. rewrite Hm0. by apply Hhd.
Qed.
