(* ===== verification/HashIndexSpec.v ===== *)
(** * The hash index as a map from values to documents

    The abstract state of a hash index is its key history: the documents
    inserted so far with the key (the hash, or null) of their value, newest
    first.  The theorems show that insertion, lookup, recovery after a crash and
    the switch to a shared mapping implement this history. *)

From Stdlib Require Import ZArith Lia.
From stdpp Require Import base option list numbers sets.
From S2P Require Import Prelude FileOp LowData RowidList SetOperator Doclist HashIndex.

(** What the hash function promises ([common/hash.c]): null values share one
    hash that is not 0. *)
Class HashLaws (get_hash_value : low_data_struct → Z) (null_hash : Z) : Prop := {
  hash_range : ∀ d, 0 ≤ get_hash_value d < 2 ^ 64;
  hash_null : ∀ d, len d = 0 → get_hash_value d = null_hash;
  null_hash_nonzero : null_hash ≠ 0
}.

Notation key := (option Z) (only parsing).
Notation key_history := (list (Z * option Z)) (only parsing).

(** The documents with key [k], newest first. *)
Definition docs_of (kh : key_history) (k : key) : list Z := (filter (λ p, p.2 = k) kh).*1.

(** The history of buckets for the bucket assignment [slot]. *)
Definition slots (slot : key → Z) (kh : key_history) : history :=
  (λ p, (p.1, slot p.2)) <$> kh.

Section spec.
Context (get_hash_value : low_data_struct → Z) (nh : Z) `{!HashLaws get_hash_value nh}.

Definition key_of (data : low_data_struct) : key :=
  if len data =? 0 then None else Some (get_hash_value data).

Definition keyhash (k : key) : Z := match k with None => nh | Some h => h end.

Definition valid (N : Z) (slot : key → Z) (k : key) : Prop :=
  match k with
  | None => slot None = N
  | Some h => 0 < h < 2 ^ 64 ∧ 0 ≤ slot (Some h) < N
  end.

(** [k] sits [dist] buckets after its home bucket and the buckets between
    belong to keys of [older]. *)
Definition reachable (N : Z) (slot : key → Z) (older : key_history) (k : key) : Prop :=
  match k with
  | None => True
  | Some h => ∃ dist, 0 ≤ dist < N ∧ slot (Some h) = (h `mod` N + dist) `mod` N ∧
      ∀ t, 0 ≤ t < dist → ∃ k', k' ∈ older.*2 ∧ slot k' = (h `mod` N + t) `mod` N
  end.

(** Every key was placed when the buckets before it belonged to older keys.
    This is what makes cutting off the newest documents safe. *)
Fixpoint placed (N : Z) (slot : key → Z) (kh : key_history) : Prop :=
  match kh with
  | [] => True
  | (_, k) :: older => placed N slot older ∧ (k ∈ older.*2 ∨ reachable N slot older k)
  end.

Record index_inv (N : Z) (kh : key_history) (slot : key → Z) (hv : Z → Z)
    (h : hash_index_manager) : Prop := {
  xi_table : table_inv N (slots slot kh) hv h;
  xi_key : ∀ k, k ∈ kh.*2 → hv (slot k) = keyhash k;
  xi_valid : ∀ k, k ∈ kh.*2 → valid N slot k;
  xi_empty : ∀ b, 0 ≤ b ≤ N → slot_docs (slots slot kh) b = [] → hv b = 0;
  xi_placed : placed N slot kh
}.

Lemma slots_fst slot kh : (slots slot kh).*1 = kh.*1.
Proof. unfold slots. rewrite <- list_fmap_compose. by apply list_fmap_ext. Qed.

Lemma elem_of_slots slot kh d b : (d, b) ∈ slots slot kh ↔ ∃ k, (d, k) ∈ kh ∧ slot k = b.
Proof.
  unfold slots. rewrite list_elem_of_fmap. split.
  - intros ([d' k] & [= -> ->] & ?). eauto.
  - intros (k & ? & <-). by exists (d, k).
Qed.

Lemma valid_range N slot k : 0 < N → valid N slot k → 0 ≤ slot k ≤ N.
Proof. destruct k; simpl; lia. Qed.

Lemma slot_docs_nonempty slot kh b :
  slot_docs (slots slot kh) b ≠ [] ↔ ∃ k, k ∈ kh.*2 ∧ slot k = b.
Proof.
  split.
  - intros H. destruct (slot_docs (slots slot kh) b) as [|d ds] eqn:E; [done|].
    apply slot_docs_head, elem_of_slots in E as (k & Hin & Hs).
    exists k. split; [|done]. by apply (list_elem_of_fmap_2 snd) in Hin.
  - intros (k & ([d k'] & Ek & Hin)%list_elem_of_fmap & Hs) E. simpl in Ek. subst k'.
    assert (d ∈ slot_docs (slots slot kh) b) as Hd
      by (apply elem_of_slot_docs, elem_of_slots; eauto).
    rewrite E in Hd. by apply not_elem_of_nil in Hd.
Qed.

(** Two keys of the index never share a bucket. *)
Lemma slot_inj N kh slot hv h k k' :
  index_inv N kh slot hv h → k ∈ kh.*2 → k' ∈ kh.*2 → slot k = slot k' → k = k'.
Proof.
  intros Hinv Hk Hk' E. pose proof (xi_valid _ _ _ _ _ Hinv k Hk) as V.
  pose proof (xi_valid _ _ _ _ _ Hinv k' Hk') as V'.
  pose proof (xi_key _ _ _ _ _ Hinv k Hk) as K. pose proof (xi_key _ _ _ _ _ Hinv k' Hk') as K'.
  rewrite E in K. rewrite K in K'. destruct k, k'; simpl in *; try done; [congruence|lia|lia].
Qed.

Lemma docs_of_cons d k kh k' :
  docs_of ((d, k) :: kh) k' = if decide (k = k') then d :: docs_of kh k' else docs_of kh k'.
Proof. unfold docs_of. rewrite filter_cons. simpl. by case_decide. Qed.

Lemma slot_docs_key slot kh k :
  (∀ k', k' ∈ kh.*2 → slot k' = slot k → k' = k) →
  slot_docs (slots slot kh) (slot k) = docs_of kh k.
Proof.
  induction kh as [|[d k0] kh IH]; intros Hinj; [done|].
  unfold slots in *. rewrite fmap_cons. simpl. rewrite slot_docs_cons, docs_of_cons.
  assert (slot_docs ((λ p, (p.1, slot p.2)) <$> kh) (slot k) = docs_of kh k) as E.
  { apply IH. intros k' Hk'. apply Hinj. rewrite fmap_cons. by right. }
  rewrite E. destruct (decide (k0 = k)) as [->|Hne]; [by rewrite decide_True|].
  rewrite decide_False; [done|]. intros Hs. apply Hne, Hinj; [left|done].
Qed.

Lemma docs_of_absent kh k : k ∉ kh.*2 → docs_of kh k = [].
Proof.
  induction kh as [|[d k0] kh IH]; [done|]. rewrite fmap_cons, not_elem_of_cons, docs_of_cons.
  intros [? ?]. rewrite decide_False by done. by apply IH.
Qed.

Lemma placed_reachable N slot kh k :
  placed N slot kh → k ∈ kh.*2 → reachable N slot kh k.
Proof.
  induction kh as [|[d k0] kh IH]; intros Hp Hk; [by apply not_elem_of_nil in Hk|].
  simpl in Hp. destruct Hp as [Hp H0].
  assert (reachable N slot kh k) as Hr.
  { rewrite fmap_cons in Hk. apply elem_of_cons in Hk as [->|Hk]; [|by apply IH].
    simpl. destruct H0 as [H0|H0]; [by apply IH|done]. }
  destruct k as [h|]; [|done]. destruct Hr as (dist & ? & ? & Hpath).
  exists dist. split_and!; [lia|lia|done|]. intros t Ht. destruct (Hpath t Ht) as (k' & ? & ?).
  exists k'. split; [|done]. rewrite fmap_cons. by right.
Qed.
End spec.

(** ** Probing *)

Section probe.
Context (N : Z) (hist : history) (hv : Z → Z) (h : hash_index_manager).
Context (Ht : table_inv N hist hv h).

Lemma next_index loc t :
  0 ≤ loc < N → 0 ≤ t → t + 1 < N →
  u32 ((loc + t) `mod` N + 1) `mod` N = (loc + (t + 1)) `mod` N ∧ (loc + (t + 1)) `mod` N ≠ loc.
Proof.
  intros Hl H0 H1. pose proof (ti_N _ _ _ _ Ht) as HN.
  split; [apply probe_next; lia|apply probe_around; lia].
Qed.

Lemma bucket_at loc t :
  (buckets h)⟦(loc + t) `mod` N⟧ =
  Some (Bucket (hv ((loc + t) `mod` N)) (head_off hist ((loc + t) `mod` N))).
Proof.
  pose proof (ti_N _ _ _ _ Ht). pose proof (Z.mod_pos_bound (loc + t) N).
  apply (ti_bucket _ _ _ _ Ht). lia.
Qed.

(** Both probe loops pass the buckets that hold other keys. *)
Definition passes (v loc : Z) (n : nat) : Prop :=
  ∀ t, 0 ≤ t < Z.of_nat n → hv ((loc + t) `mod` N) ≠ 0 ∧ hv ((loc + t) `mod` N) ≠ v.

Lemma insert_probe_skip v loc docid (n : nat) :
  0 ≤ loc < N → Z.of_nat n < N → passes v loc n →
  insert_probe (Z.to_nat N) h v loc loc docid =
  insert_probe (Z.to_nat (N - Z.of_nat n)) h v loc ((loc + Z.of_nat n) `mod` N) docid.
Proof.
  intros Hl. induction n as [|n IH]; intros Hn Hp.
  - rewrite Z.sub_0_r, Z.add_0_r, Z.mod_small by done. done.
  - rewrite IH by (lia || (intros t Ht'; apply Hp; lia)).
    replace (Z.to_nat (N - Z.of_nat n)) with (S (Z.to_nat (N - Z.of_nat (S n)))) by lia.
    cbn [insert_probe]. rewrite bucket_at. cbn [mbind option_bind hash_value].
    destruct (Hp (Z.of_nat n)) as [H0 Hv]; [lia|].
    rewrite (proj2 (Z.eqb_neq _ _) H0), (proj2 (Z.eqb_neq _ _) Hv), (ti_mod _ _ _ _ Ht).
    destruct (next_index loc (Z.of_nat n)) as [E1 E2]; [done|lia|lia|].
    rewrite E1, (proj2 (Z.eqb_neq _ _) E2). f_equal. f_equal. lia.
Qed.

Lemma query_probe_skip v loc (n : nat) :
  0 ≤ loc < N → Z.of_nat n < N → passes v loc n →
  query_probe (Z.to_nat N) h v loc loc =
  query_probe (Z.to_nat (N - Z.of_nat n)) h v loc ((loc + Z.of_nat n) `mod` N).
Proof.
  intros Hl. induction n as [|n IH]; intros Hn Hp.
  - rewrite Z.sub_0_r, Z.add_0_r, Z.mod_small by done. done.
  - rewrite IH by (lia || (intros t Ht'; apply Hp; lia)).
    replace (Z.to_nat (N - Z.of_nat n)) with (S (Z.to_nat (N - Z.of_nat (S n)))) by lia.
    cbn [query_probe]. rewrite bucket_at. cbn [mbind option_bind hash_value].
    destruct (Hp (Z.of_nat n)) as [H0 Hv]; [lia|].
    rewrite (proj2 (Z.eqb_neq _ _) H0), (proj2 (Z.eqb_neq _ _) Hv), (ti_mod _ _ _ _ Ht).
    destruct (next_index loc (Z.of_nat n)) as [E1 E2]; [done|lia|lia|].
    rewrite E1, (proj2 (Z.eqb_neq _ _) E2). f_equal. f_equal. lia.
Qed.
End probe.

(** The first index satisfying a decidable predicate, if there is one. *)
Lemma first_index (P : Z → Prop) `{!∀ t, Decision (P t)} (n : nat) :
  (∃ t : nat, (t < n)%nat ∧ P (Z.of_nat t) ∧ ∀ t', 0 ≤ t' < Z.of_nat t → ¬ P t') ∨
  (∀ t, 0 ≤ t < Z.of_nat n → ¬ P t).
Proof.
  induction n as [|n [(t & ? & ? & ?)|IH]]; [right; lia|left; exists t; split_and!; [lia|done|done]|].
  destruct (decide (P (Z.of_nat n))) as [HP|HP].
  - left. exists n. split_and!; [lia|done|done].
  - right. intros t Ht. destruct (decide (t = Z.of_nat n)) as [->|]; [done|]. apply IH. lia.
Qed.

(** If every bucket is in use there are at least as many documents as buckets. *)
Lemma full_table N (hist : history) d :
  0 ≤ d → desc hist.*1 → (∀ x, x ∈ hist.*1 → 0 ≤ x < d) →
  (∀ b, 0 ≤ b < N → slot_docs hist b ≠ []) → N ≤ d.
Proof.
  intros Hd Hdesc Hr Hfull. destruct (decide (N ≤ 0)); [lia|].
  set (f := λ b, default 0 (head (slot_docs hist b))).
  assert (∀ b, 0 ≤ b < N → (f b, b) ∈ hist) as Hf.
  { intros b Hb. unfold f. specialize (Hfull b Hb).
    destruct (slot_docs hist b) as [|x xs] eqn:E; [done|]. simpl. by eapply slot_docs_head. }
  assert (NoDup (f <$> seqZ 0 N)) as Hnd.
  { apply NoDup_fmap_2_strong; [|apply NoDup_seqZ]. intros x y Hx%elem_of_seqZ Hy%elem_of_seqZ E.
    apply (NoDup_fst_unique hist (f x)); [by apply desc_NoDup|apply Hf; lia|].
    rewrite E. apply Hf. lia. }
  assert (f <$> seqZ 0 N ⊆+ hist.*1) as Hsub.
  { apply NoDup_submseteq; [done|]. intros x (b & -> & Hb%elem_of_seqZ)%list_elem_of_fmap.
    assert ((f b, b) ∈ hist) as Hin by (apply Hf; lia). by apply (list_elem_of_fmap_2 fst) in Hin. }
  apply submseteq_length in Hsub. rewrite length_fmap, length_seqZ in Hsub.
  assert (zlen hist.*1 ≤ Z.max 0 d) as Hlen by by apply desc_length.
  unfold zlen in Hlen. lia.
Qed.

Section spec_ops.
Context (get_hash_value : low_data_struct → Z) (nh : Z) `{!HashLaws get_hash_value nh}.
Context (N : Z) (kh : key_history) (slot : key → Z) (hv : Z → Z) (h : hash_index_manager).
Context (Hinv : index_inv nh N kh slot hv h).

Let HN : 0 < N < 2 ^ 28 := ti_N _ _ _ _ (xi_table _ _ _ _ _ _ Hinv).

Lemma keyhash_nonzero k : k ∈ kh.*2 → keyhash nh k ≠ 0.
Proof.
  intros Hk. pose proof (xi_valid _ _ _ _ _ _ Hinv k Hk) as V. destruct k; simpl in *; [lia|].
  apply (null_hash_nonzero (get_hash_value:=get_hash_value)).
Qed.

Lemma bucket_used b : 0 ≤ b ≤ N → hv b ≠ 0 ↔ ∃ k, k ∈ kh.*2 ∧ slot k = b.
Proof.
  intros Hb. split.
  - intros H. apply slot_docs_nonempty. intros E. apply H. by apply (xi_empty _ _ _ _ _ _ Hinv).
  - intros (k & Hk & <-). rewrite (xi_key _ _ _ _ _ _ Hinv k Hk). by apply keyhash_nonzero.
Qed.

(** A bucket of the table proper that stores the hash [v] belongs to [Some v]. *)
Lemma bucket_key b v : 0 ≤ b < N → v ≠ 0 → hv b = v → Some v ∈ kh.*2 ∧ slot (Some v) = b.
Proof.
  intros Hb Hv E. destruct (proj1 (bucket_used b ltac:(lia))) as (k & Hk & Hs); [by rewrite E|].
  pose proof (xi_valid _ _ _ _ _ _ Hinv k Hk) as V.
  pose proof (xi_key _ _ _ _ _ _ Hinv k Hk) as K. rewrite Hs, E in K.
  destruct k as [v'|]; simpl in *; [|lia]. rewrite K. done.
Qed.

Lemma probe_present v :
  Some v ∈ kh.*2 →
  ∃ n : nat, Z.of_nat n < N ∧ passes N hv v (v `mod` N) n ∧
    (v `mod` N + Z.of_nat n) `mod` N = slot (Some v).
Proof.
  intros Hk. destruct (placed_reachable N slot kh (Some v)) as (dist & Hd & Hs & Hpath);
    [apply Hinv|done|].
  exists (Z.to_nat dist). rewrite Z2Nat.id by lia. split; [lia|]. split; [|done].
  intros t Ht. rewrite Z2Nat.id in Ht by lia.
  assert (0 ≤ (v `mod` N + t) `mod` N < N) as Hr by (apply Z.mod_pos_bound; lia).
  destruct (Hpath t Ht) as (k' & Hk' & Hs'). split.
  - apply bucket_used; [lia|]. eauto.
  - intros E. pose proof (xi_valid _ _ _ _ _ _ Hinv _ Hk) as [Hv _]. simpl in Hv.
    destruct (bucket_key _ v Hr ltac:(lia) E) as [_ Hs2]. rewrite Hs in Hs2.
    apply mod_inj in Hs2; lia.
Qed.

Lemma probe_absent v d :
  v ≠ 0 → Some v ∉ kh.*2 → 0 ≤ d < N → (∀ x, x ∈ kh.*1 → x < d) →
  ∃ n : nat, Z.of_nat n < N ∧ passes N hv v (v `mod` N) n ∧
    hv ((v `mod` N + Z.of_nat n) `mod` N) = 0.
Proof.
  intros Hv Hk Hd Hnew.
  assert (∀ t, hv ((v `mod` N + t) `mod` N) ≠ v) as Hne.
  { intros t E. apply Hk.
    assert (0 ≤ (v `mod` N + t) `mod` N < N) as Hr by (apply Z.mod_pos_bound; lia).
    by destruct (bucket_key _ v Hr Hv E). }
  destruct (first_index (λ t, hv ((v `mod` N + t) `mod` N) = 0) (Z.to_nat N))
    as [(n & Hn & H0 & Hmin)|Hnone].
  - exists n. split; [lia|]. split; [|done]. intros t Ht. split; [by apply Hmin|done].
  - exfalso. destruct (ti_rows _ _ _ _ (xi_table _ _ _ _ _ _ Hinv)) as (m & _ & Hm).
    enough (N ≤ d) by lia. apply (full_table N (slots slot kh)).
    + lia.
    + apply Hm.
    + intros x Hx. split; [|rewrite slots_fst in Hx; by apply Hnew].
      apply list_elem_of_fmap in Hx as ([x' b] & -> & Hx).
      apply (ri_range _ _ _ Hm) in Hx. simpl. lia.
    + intros b Hb. apply slot_docs_nonempty, bucket_used; [lia|].
      specialize (Hnone ((b - v `mod` N) `mod` N)).
      rewrite Zplus_mod_idemp_r in Hnone.
      replace (v `mod` N + (b - v `mod` N)) with b in Hnone by lia.
      rewrite (Z.mod_small b N) in Hnone by lia. apply Hnone.
      pose proof (Z.mod_pos_bound (b - v `mod` N) N). lia.
Qed.
End spec_ops.

(** ** Insertion *)

Definition assign (slot : key → Z) (k : key) (b : Z) : key → Z :=
  λ k', if decide (k' = k) then b else slot k'.

Lemma slots_ext slot slot' kh :
  (∀ k, k ∈ kh.*2 → slot' k = slot k) → slots slot' kh = slots slot kh.
Proof.
  intros H. unfold slots. apply list_fmap_ext. intros i [d k] Hx. simpl. f_equal. apply H.
  apply (list_elem_of_fmap_2 snd kh (d, k)). by eapply list_elem_of_lookup_2.
Qed.

Lemma reachable_ext N slot slot' kh k :
  slot' k = slot k → (∀ k, k ∈ kh.*2 → slot' k = slot k) →
  reachable N slot kh k → reachable N slot' kh k.
Proof.
  intros Hk H. destruct k as [v|]; [|done]. intros (dist & Hd & Hs & Hp).
  exists dist. split; [done|]. split; [congruence|]. intros t Ht.
  destruct (Hp t Ht) as (k' & Hk' & Hs'). exists k'. split; [done|]. by rewrite H.
Qed.

Lemma placed_ext N slot slot' kh :
  (∀ k, k ∈ kh.*2 → slot' k = slot k) → placed N slot kh → placed N slot' kh.
Proof.
  induction kh as [|[d k] kh IH]; intros H; [done|]. simpl. intros [Hp Hk].
  assert (∀ k, k ∈ kh.*2 → slot' k = slot k) as H'.
  { intros k' Hk'. apply H. rewrite fmap_cons. by right. }
  split; [by apply IH|]. destruct Hk as [Hk|Hk]; [by left|right].
  apply (reachable_ext N slot); [apply H; left|done|done].
Qed.

Section insert.
Context (get_hash_value : low_data_struct → Z) (nh : Z) `{!HashLaws get_hash_value nh}.
Context (N : Z) (kh : key_history) (slot : key → Z) (hv : Z → Z) (h : hash_index_manager).
Context (Hinv : index_inv nh N kh slot hv h).

(** Bucket [b] is where key [k] belongs: its own, or a free one on its path. *)
Definition bucket_for (k : key) (b : Z) : Prop :=
  0 ≤ b ≤ N ∧
  ((k ∈ kh.*2 ∧ slot k = b) ∨
   (k ∉ kh.*2 ∧ hv b = 0 ∧ valid N (assign slot k b) k ∧ reachable N (assign slot k b) kh k)).

Lemma assign_old k b : bucket_for k b → ∀ k', k' ∈ kh.*2 → assign slot k b k' = slot k'.
Proof.
  intros [_ [[Hk Hb]|[Hk _]]] k' Hk'; unfold assign; case_decide; try done; by subst.
Qed.

Lemma index_inv_cons k b d h' :
  bucket_for k b →
  table_inv N ((d, b) :: slots slot kh) (upd hv b (keyhash nh k)) h' →
  index_inv nh N ((d, k) :: kh) (assign slot k b) (upd hv b (keyhash nh k)) h'.
Proof.
  intros Hfor Ht. pose proof (assign_old k b Hfor) as Hold.
  assert (assign slot k b k = b) as Hself by (unfold assign; by rewrite decide_True).
  assert (slots (assign slot k b) ((d, k) :: kh) = (d, b) :: slots slot kh) as Es.
  { unfold slots at 1. rewrite fmap_cons. fold (slots (assign slot k b) kh). simpl.
    by rewrite Hself, (slots_ext slot). }
  destruct Hfor as [Hb Hfor]. split.
  - by rewrite Es.
  - intros k' [->|Hk']%elem_of_cons; cbn [fst snd].
    + rewrite Hself. unfold upd. by rewrite decide_True.
    + rewrite Hold by done. unfold upd. case_decide as E; [|by apply Hinv].
      destruct Hfor as [[Hk Hs]|(Hk & H0 & _)].
      * f_equal. symmetry. apply (slot_inj nh N kh slot hv h); congruence || done.
      * exfalso. apply (keyhash_nonzero get_hash_value nh N kh slot hv h Hinv k' Hk').
        rewrite <- (xi_key _ _ _ _ _ _ Hinv k' Hk'). by rewrite E.
  - intros k' [->|Hk']%elem_of_cons; cbn [fst snd].
    + destruct Hfor as [[Hk Hs]|(_ & _ & Hv & _)]; [|done].
      pose proof (xi_valid _ _ _ _ _ _ Hinv k Hk) as V. destruct k; simpl in *; by rewrite Hold.
    + pose proof (xi_valid _ _ _ _ _ _ Hinv k' Hk') as V. destruct k'; simpl in *; by rewrite Hold.
  - intros b' Hb'. rewrite Es, slot_docs_cons. destruct (decide (b = b')) as [->|Hne]; [done|].
    intros E. unfold upd. rewrite decide_False by congruence. by apply (xi_empty _ _ _ _ _ _ Hinv).
  - simpl. split; [apply (placed_ext N slot); [done|apply Hinv]|].
    destruct Hfor as [[Hk _]|(_ & _ & _ & Hr)]; [by left|by right].
Qed.

(** Writing document [d] into that bucket. *)
Lemma put_key k b d :
  bucket_for k b → 0 ≤ d < N → (∀ x, x ∈ kh.*1 → x < d) →
  ∃ dl bs, doclist_insert (doclist h) d (head_off (slots slot kh) b) b = Some (GET_OFFSET d, dl) ∧
    (buckets h)⟦b := Bucket (keyhash nh k) (GET_OFFSET d)⟧ = Some bs ∧
    index_inv nh N ((d, k) :: kh) (assign slot k b) (upd hv b (keyhash nh k)) (set_table h bs dl) ∧
    version dl = version (doclist h).
Proof.
  intros Hfor Hd Hnew.
  destruct (put_spec N (slots slot kh) hv h d b (keyhash nh k)) as (dl & bs & ? & ? & ? & ?);
    [apply Hinv|done|apply Hfor|by rewrite slots_fst|].
  exists dl, bs. split_and!; try done. by apply index_inv_cons.
Qed.

(** The offset in the bucket is 0 exactly when it is free. *)
Lemma head_off_free b : 0 ≤ b ≤ N → hv b = 0 → head_off (slots slot kh) b = 0.
Proof.
  intros Hb H0. destruct (ti_rows _ _ _ _ (xi_table _ _ _ _ _ _ Hinv)) as (m & _ & Hm).
  apply (head_off_zero _ _ _ _ Hm). destruct (slot_docs (slots slot kh) b) eqn:E; [done|].
  exfalso. revert H0. apply (bucket_used get_hash_value nh N kh slot hv h Hinv b Hb).
  apply slot_docs_nonempty. by rewrite E.
Qed.

Lemma insert_null data d :
  len data = 0 → 0 ≤ d < N → (∀ x, x ∈ kh.*1 → x < d) →
  ∃ h' slot' hv', hash_index_insert get_hash_value h data d = Some (0, h') ∧
    index_inv nh N ((d, None) :: kh) slot' hv' h' ∧ version (doclist h') = version (doclist h).
Proof.
  intros Hlen Hd Hnew. pose proof (xi_table _ _ _ _ _ _ Hinv) as Ht. destruct (ti_N _ _ _ _ Ht).
  unfold hash_index_insert. rewrite Hlen, (hash_null (get_hash_value:=get_hash_value) data Hlen). simpl (0 =? 0). cbv iota.
  rewrite (ti_mod _ _ _ _ Ht), (ti_bucket _ _ _ _ Ht) by lia.
  cbn [mbind option_bind hash_value offset].
  assert (bucket_for None N) as Hfor.
  { split; [lia|]. destruct (decide (None ∈ kh.*2)) as [Hk|Hk].
    - left. split; [done|]. exact (xi_valid _ _ _ _ _ _ Hinv None Hk).
    - right. split; [done|]. split; [|split; [|done]].
      + destruct (decide (hv N = 0)) as [|Hne]; [done|].
        apply (bucket_used get_hash_value nh N kh slot hv h Hinv N) in Hne as (k & Hk' & Hs); [|lia].
        pose proof (xi_valid _ _ _ _ _ _ Hinv k Hk') as V. destruct k; simpl in V; [lia|done].
      + simpl. unfold assign. by rewrite decide_True. }
  destruct (put_key None N d Hfor Hd Hnew) as (dl & bs & Hins & Hset & Hinv' & Hver).
  destruct (Z.eqb_spec (hv N) 0) as [E|E].
  - rewrite head_off_free in Hins by (lia || done). rewrite Hins. cbn [mbind option_bind].
    destruct (Z.eqb_spec (GET_OFFSET d) 0) as [E0|_]; [unfold GET_OFFSET in E0; lia|].
    simpl keyhash in Hset. rewrite Hset. cbn [mbind option_bind]. eauto 10.
  - rewrite Hins. cbn [mbind option_bind].
    assert (hv N = nh) as ->.
    { apply (bucket_used get_hash_value nh N kh slot hv h Hinv N) in E as (k & Hk' & Hs); [|lia].
      pose proof (xi_valid _ _ _ _ _ _ Hinv k Hk') as V. rewrite <- Hs.
      rewrite (xi_key _ _ _ _ _ _ Hinv k Hk'). destruct k; simpl in V; [lia|done]. }
    simpl keyhash in Hset. rewrite Hset. cbn [mbind option_bind]. eauto 10.
Qed.

Lemma insert_value data d :
  len data ≠ 0 → get_hash_value data ≠ 0 → 0 ≤ d < N → (∀ x, x ∈ kh.*1 → x < d) →
  ∃ h' slot' hv', hash_index_insert get_hash_value h data d = Some (0, h') ∧
    index_inv nh N ((d, Some (get_hash_value data)) :: kh) slot' hv' h' ∧
    version (doclist h') = version (doclist h).
Proof.
  intros Hlen Hh Hd Hnew. pose proof (xi_table _ _ _ _ _ _ Hinv) as Ht.
  pose proof (ti_N _ _ _ _ Ht) as HN. unfold hash_index_insert.
  rewrite (proj2 (Z.eqb_neq _ _) Hlen), (ti_mod _ _ _ _ Ht).
  rewrite (proj2 (Z.eqb_neq N 0)) by lia. set (v := get_hash_value data) in *.
  assert (0 ≤ v < 2 ^ 64) as Hvr by apply (hash_range (get_hash_value:=get_hash_value)).
  assert (0 ≤ v `mod` N < N) as Hloc by (apply Z.mod_pos_bound; lia).
  destruct (decide (Some v ∈ kh.*2)) as [Hk|Hk].
  - destruct (probe_present get_hash_value nh N kh slot hv h Hinv v Hk) as (n & Hn & Hp & Hs).
    rewrite (insert_probe_skip N _ _ _ Ht v (v `mod` N) d n) by done.
    replace (Z.to_nat (N - Z.of_nat n)) with (S (Z.to_nat (N - Z.of_nat n - 1))) by lia.
    cbn [insert_probe]. rewrite (bucket_at N _ _ _ Ht). cbn [mbind option_bind hash_value offset].
    rewrite Hs. rewrite (xi_key _ _ _ _ _ _ Hinv _ Hk). simpl keyhash.
    rewrite (proj2 (Z.eqb_neq v 0)), Z.eqb_refl by done.
    assert (bucket_for (Some v) (slot (Some v))) as Hfor.
    { split; [|by left]. rewrite <- Hs. pose proof (Z.mod_pos_bound (v `mod` N + Z.of_nat n) N). lia. }
    destruct (put_key (Some v) _ d Hfor Hd Hnew) as (dl & bs & Hins & Hset & Hinv' & Hver).
    rewrite Hins. cbn [mbind option_bind].
    destruct (Z.eqb_spec (GET_OFFSET d) 0) as [E0|_]; [unfold GET_OFFSET in E0; lia|].
    simpl keyhash in Hset. rewrite Hset. cbn [mbind option_bind]. eauto 10.
  - destruct (probe_absent get_hash_value nh N kh slot hv h Hinv v d) as (n & Hn & Hp & H0); [done..|].
    rewrite (insert_probe_skip N _ _ _ Ht v (v `mod` N) d n) by done.
    replace (Z.to_nat (N - Z.of_nat n)) with (S (Z.to_nat (N - Z.of_nat n - 1))) by lia.
    set (b := (v `mod` N + Z.of_nat n) `mod` N) in *.
    assert (0 ≤ b < N) as Hb by (apply Z.mod_pos_bound; lia).
    pose proof (bucket_at N _ _ _ Ht (v `mod` N) (Z.of_nat n)) as Hbk. fold b in Hbk.
    cbn [insert_probe]. rewrite Hbk.
    cbn [mbind option_bind hash_value offset]. rewrite H0. simpl (0 =? 0). cbv iota.
    assert (bucket_for (Some v) b) as Hfor.
    { split; [lia|]. right. split_and!; [done|done|simpl; unfold assign; rewrite decide_True by done; lia|].
      exists (Z.of_nat n). split; [lia|]. unfold assign at 1. rewrite decide_True by done.
      split; [done|]. intros t Ht'. destruct (Hp t Ht') as [Hu _].
      apply (bucket_used get_hash_value nh N kh slot hv h Hinv) in Hu as (k' & Hk' & Hs').
      - exists k'. split; [done|]. unfold assign. rewrite decide_False; [done|]. by intros ->.
      - pose proof (Z.mod_pos_bound (v `mod` N + t) N). lia. }
    destruct (put_key (Some v) b d Hfor Hd Hnew) as (dl & bs & Hins & Hset & Hinv' & Hver).
    rewrite head_off_free in Hins by (lia || done). rewrite Hins. cbn [mbind option_bind].
    destruct (Z.eqb_spec (GET_OFFSET d) 0) as [E0|_]; [unfold GET_OFFSET in E0; lia|].
    simpl keyhash in Hset. rewrite Hset. cbn [mbind option_bind]. eauto 10.
Qed.
End insert.

(** ** Lookup *)

Lemma docs_of_elem kh k d : d ∈ docs_of kh k ↔ (d, k) ∈ kh.
Proof.
  unfold docs_of. rewrite list_elem_of_fmap. split.
  - intros ([d' k'] & -> & [? ?]%list_elem_of_filter). simpl in *. by subst.
  - intros H. exists (d, k). split; [done|]. by apply list_elem_of_filter.
Qed.

Lemma docs_of_desc kh k : desc kh.*1 → desc (docs_of kh k).
Proof.
  induction kh as [|[d k0] kh IH]; intros H; [constructor|]. rewrite fmap_cons in H.
  apply desc_cons_inv in H as [H Hd]. rewrite docs_of_cons. case_decide; [|by apply IH].
  apply desc_cons; [by apply IH|]. intros y Hy%docs_of_elem. apply Hd.
  by apply (list_elem_of_fmap_2 fst) in Hy.
Qed.

Section query.
Context (get_hash_value : low_data_struct → Z) (nh : Z) `{!HashLaws get_hash_value nh}.
Context (N : Z) (kh : key_history) (slot : key → Z) (hv : Z → Z) (h : hash_index_manager).
Context (Hinv : index_inv nh N kh slot hv h).

Lemma key_docs k :
  k ∈ kh.*2 → slot_docs (slots slot kh) (slot k) = docs_of kh k.
Proof.
  intros Hk. apply slot_docs_key. intros k' Hk' E.
  by apply (slot_inj nh N kh slot hv h).
Qed.

Lemma chain_rowids_spec k :
  k ∈ kh.*2 →
  ∃ l, chain_rowids h (head_off (slots slot kh) (slot k)) = Some (Ptr l) ∧ list_tight l ∧
    elems l = docs_of kh k.
Proof.
  intros Hk. destruct (xi_table _ _ _ _ _ _ Hinv) as [HN _ Hlim (m & Em & Hm) _ _ _].
  assert (slot_docs (slots slot kh) (slot k) ≠ []) as Hne by (apply slot_docs_nonempty; eauto).
  unfold chain_rowids. rewrite Em, Hlim. cbn [mbind option_bind]. rewrite <- (key_docs k Hk).
  unfold head_off. destruct (slot_docs (slots slot kh) (slot k)) as [|d ds] eqn:E; [done|].
  pose proof (hist_length _ _ _ Hm) as Hl. pose proof (slot_docs_length (slots slot kh) (slot k)) as Hs.
  rewrite E in Hs. unfold zlen in Hl. simpl in Hs. destruct rowid_list_init_tight as [Ht He].
  destruct (get_rowid_list_spec N (proj2 HN) (slots slot kh) m Hm (S (Z.to_nat N)) [] (slots slot kh)
    (slot k) d ds rowid_list_init) as (l & Hl' & Ht' & He');
    [done|done|lia|done|unfold zlen; simpl; lia|].
  exists l. split; [done|]. split; [done|]. by rewrite He', He.
Qed.

Lemma query_absent v :
  Some v ∉ kh.*2 → query_probe (Z.to_nat N) h v (v `mod` N) (v `mod` N) = Some NULL.
Proof.
  intros Hk. pose proof (xi_table _ _ _ _ _ _ Hinv) as Ht. pose proof (ti_N _ _ _ _ Ht) as HN.
  assert (0 ≤ v `mod` N < N) as Hloc by (apply Z.mod_pos_bound; lia).
  assert (∀ t, hv ((v `mod` N + t) `mod` N) ≠ 0 → hv ((v `mod` N + t) `mod` N) ≠ v) as Hne.
  { intros t H0 E. apply Hk.
    assert (0 ≤ (v `mod` N + t) `mod` N < N) as Hr by (apply Z.mod_pos_bound; lia).
    destruct (bucket_key get_hash_value nh N kh slot hv h Hinv _ v Hr ltac:(congruence) E). done. }
  destruct (first_index (λ t, hv ((v `mod` N + t) `mod` N) = 0) (Z.to_nat N))
    as [(n & Hn & H0 & Hmin)|Hnone].
  - rewrite (query_probe_skip N _ _ _ Ht v (v `mod` N) n);
      [|done|lia|intros t Ht'; split; [by apply Hmin|apply Hne; by apply Hmin]].
    replace (Z.to_nat (N - Z.of_nat n)) with (S (Z.to_nat (N - Z.of_nat n - 1))) by lia.
    cbn [query_probe]. rewrite (bucket_at N _ _ _ Ht). cbn [mbind option_bind hash_value].
    by rewrite H0.
  - rewrite (query_probe_skip N _ _ _ Ht v (v `mod` N) (Z.to_nat (N - 1)));
      [|done|lia|intros t Ht'; split; [apply Hnone; lia|apply Hne, Hnone; lia]].
    rewrite Z2Nat.id by lia. replace (Z.to_nat (N - (N - 1))) with 1%nat by lia.
    cbn [query_probe]. rewrite (bucket_at N _ _ _ Ht). cbn [mbind option_bind hash_value].
    assert (hv ((v `mod` N + (N - 1)) `mod` N) ≠ 0) as H0 by (apply Hnone; lia).
    rewrite (proj2 (Z.eqb_neq _ _) H0), (proj2 (Z.eqb_neq _ _) (Hne _ H0)), (ti_mod _ _ _ _ Ht).
    pose proof (Z.mod_pos_bound (v `mod` N + (N - 1)) N). rewrite u32_small by lia.
    rewrite Zplus_mod_idemp_l.
    replace (v `mod` N + (N - 1) + 1) with (v `mod` N + 1 * N) by lia.
    rewrite Z.mod_add, Z.mod_small, Z.eqb_refl by lia. done.
Qed.

Lemma query_spec data :
  ∃ r, hash_index_query get_hash_value h data = Some r ∧ ptr_wf r ∧
    ids r = docs_of kh (key_of get_hash_value data).
Proof.
  pose proof (xi_table _ _ _ _ _ _ Hinv) as Ht. pose proof (ti_N _ _ _ _ Ht) as HN.
  unfold hash_index_query, key_of. rewrite (ti_mod _ _ _ _ Ht).
  destruct (Z.eqb_spec (len data) 0) as [Hlen|Hlen].
  - rewrite (ti_bucket _ _ _ _ Ht) by lia. cbn [mbind option_bind hash_value offset].
    destruct (Z.eqb_spec (hv N) 0) as [E|E].
    + exists NULL. split; [done|]. split; [done|]. symmetry. apply docs_of_absent. intros Hk.
      revert E. apply (bucket_used get_hash_value nh N kh slot hv h Hinv); [lia|].
      exists None. split; [done|]. exact (xi_valid _ _ _ _ _ _ Hinv None Hk).
    + apply (bucket_used get_hash_value nh N kh slot hv h Hinv) in E as (k & Hk & Hs); [|lia].
      pose proof (xi_valid _ _ _ _ _ _ Hinv k Hk) as V. destruct k as [v|]; simpl in V; [lia|].
      destruct (chain_rowids_spec None Hk) as (l & Hl & Htl & He). rewrite V in Hl.
      exists (Ptr l). split; [done|]. split; [apply Htl|done].
  - rewrite (proj2 (Z.eqb_neq N 0)) by lia. set (v := get_hash_value data).
    destruct (decide (Some v ∈ kh.*2)) as [Hk|Hk].
    + destruct (probe_present get_hash_value nh N kh slot hv h Hinv v Hk) as (n & Hn & Hp & Hs).
      rewrite (query_probe_skip N _ _ _ Ht v (v `mod` N) n) by (done || apply Z.mod_pos_bound; lia).
      replace (Z.to_nat (N - Z.of_nat n)) with (S (Z.to_nat (N - Z.of_nat n - 1))) by lia.
      cbn [query_probe]. rewrite (bucket_at N _ _ _ Ht). cbn [mbind option_bind hash_value offset].
      rewrite Hs, (xi_key _ _ _ _ _ _ Hinv _ Hk). simpl keyhash.
      pose proof (xi_valid _ _ _ _ _ _ Hinv _ Hk) as [V _]. rewrite (proj2 (Z.eqb_neq v 0)) by lia.
      rewrite Z.eqb_refl. destruct (chain_rowids_spec _ Hk) as (l & Hl & Htl & He).
      exists (Ptr l). split; [done|]. split; [apply Htl|done].
    + exists NULL. split; [by apply query_absent|]. split; [done|]. by rewrite docs_of_absent.
Qed.
End query.

(** ** Recovery *)

Definition key_before (d : Z) (kh : key_history) : key_history := filter (λ p, p.1 < d) kh.

Lemma slots_before slot d kh : slots slot (key_before d kh) = before d (slots slot kh).
Proof.
  unfold slots, key_before, before. induction kh as [|[d0 k0] kh IH]; [done|].
  rewrite fmap_cons, !filter_cons. simpl. by case_decide; rewrite ?fmap_cons, IH.
Qed.

Lemma key_before_snd d kh k : k ∈ (key_before d kh).*2 → k ∈ kh.*2.
Proof.
  intros ([d' k'] & -> & [_ Hin]%list_elem_of_filter)%list_elem_of_fmap.
  by apply (list_elem_of_fmap_2 snd) in Hin.
Qed.

(** Cutting off the newest documents keeps the placement property. *)
Lemma placed_before N slot d kh :
  desc kh.*1 → placed N slot kh → placed N slot (key_before d kh).
Proof.
  induction kh as [|[d0 k0] kh IH]; intros Hd Hp; [done|].
  rewrite fmap_cons in Hd. apply desc_cons_inv in Hd as [Hd Hlt].
  unfold key_before. rewrite filter_cons. simpl. case_decide as E.
  - rewrite filter_all_in; [done|]. intros [d' k'] Hin. simpl.
    apply (list_elem_of_fmap_2 fst) in Hin. apply Hlt in Hin. simpl in Hin. lia.
  - apply IH; [done|]. by destruct Hp.
Qed.

Lemma recover_spec nh N kh slot hv h d :
  index_inv nh N kh slot hv h → version (doclist h) = DATA_STOAGE_VERSION → 0 ≤ d ≤ N →
  ∃ h' hv', hash_index_recover h d = Some (0, h') ∧
    index_inv nh N (key_before d kh) slot hv' h' ∧ version (doclist h') = DATA_STOAGE_VERSION.
Proof.
  intros Hinv Hv Hd. pose proof (xi_table _ _ _ _ _ _ Hinv) as Ht.
  destruct (hash_index_recover_spec N _ _ _ d Ht Hv Hd) as (h' & Hr & Ht' & Hv').
  exists h', (kept (before d (slots slot kh)) hv). split; [done|]. split; [|done]. split.
  - by rewrite slots_before.
  - intros k Hk. unfold kept. rewrite decide_False.
    + by apply Hinv, (key_before_snd d).
    + rewrite <- slots_before. apply slot_docs_nonempty. eauto.
  - intros k Hk%key_before_snd. by apply Hinv.
  - intros b Hb E. unfold kept. rewrite <- slots_before, E. by rewrite decide_True.
  - apply placed_before; [|apply Hinv]. rewrite <- (slots_fst slot).
    destruct (ti_rows _ _ _ _ Ht) as (m & _ & Hm). apply Hm.
Qed.

(** ** The index against its history *)

(** [h] holds the key history [kh] in a table of [N] buckets. *)
Definition represents (nh N : Z) (kh : key_history) (h : hash_index_manager) : Prop :=
  version (doclist h) = DATA_STOAGE_VERSION ∧ ∃ slot hv, index_inv nh N kh slot hv h.

(** The invariant is about the mapped memory only. *)
Definition same_memory (h h' : hash_index_manager) : Prop :=
  hashmod h' = hashmod h ∧ buckets h' = buckets h ∧
  row_limit (doclist h') = row_limit (doclist h) ∧
  mem_mmaped (doclist h') = mem_mmaped (doclist h) ∧ version (doclist h') = version (doclist h).

Lemma represents_memory nh N kh h h' :
  same_memory h h' → represents nh N kh h → represents nh N kh h'.
Proof.
  intros (E1 & E2 & E3 & E4 & E5) (Hv & slot & hv & [[? ? ? ? ? ? ?] ? ? ? ?]).
  split; [by rewrite E5|]. exists slot, hv. split; try done. split; rewrite ?E1, ?E2, ?E3, ?E4, ?E5; done.
Qed.

Lemma empty_represents nh N h m :
  0 < N < 2 ^ 28 → hashmod h = N → row_limit (doclist h) = N →
  version (doclist h) = DATA_STOAGE_VERSION → mem_mmaped (doclist h) = Some m →
  zlen m = DOCLIST_MMAP_SIZE N → m⟦0⟧ = Some DATA_STOAGE_VERSION →
  (∀ i, 1 ≤ i < DOCLIST_MMAP_SIZE N → m⟦i⟧ = Some 0) →
  zlen (buckets h) = N + 1 → (∀ b, 0 ≤ b ≤ N → (buckets h)⟦b⟧ = Some (Bucket 0 0)) →
  represents nh N [] h.
Proof.
  intros HN Hmod Hlim Hv Em Hm Hm0 Hz Hlen Hb. split; [done|].
  exists (λ _, 0), (λ _, 0). unfold DOCLIST_MMAP_SIZE in Hz. split.
  - split; try done.
    + exists m. split; [done|]. split; [done| |constructor|set_solver].
      intros i Hi. unfold row. rewrite load_row_offset. rewrite !Hz by lia. done.
    + intros m' Em'. rewrite Hv. congruence.
  - intros k Hk. by apply not_elem_of_nil in Hk.
  - intros k Hk. by apply not_elem_of_nil in Hk.
  - done.
  - done.
Qed.

(** A new index over empty files, mapped or in private memory. *)
Lemma hash_index_init_empty nh all_mmap N full :
  0 < N → N * 12 + 12 < 2 ^ 31 →
  ∃ h, hash_index_init all_mmap true true [] [] N full = Some h ∧ represents nh N [] h.
Proof.
  intros HN Hmax. unfold hash_index_init, doclist_init, map_file, HASH_INDEX_MMAP_SIZE, DOCLIST_MMAP_SIZE.
  destruct (fresh_memory (Bucket 0 0) 12 (full || all_mmap) (N + 1)) as (mb & fb & -> & Hlb & Hzb); [lia..|].
  cbn [mbind option_bind].
  destruct (fresh_memory 0 4 (full || all_mmap) (N * 2 + 1)) as (m & f & -> & Hl & Hz); [lia..|].
  cbn [mbind option_bind]. rewrite Hz by lia. cbn [mbind option_bind]. simpl (0 =? 0). cbv iota.
  rewrite zset_in by lia. cbn [mbind option_bind]. eexists. split; [done|].
  eapply empty_represents; cbn [hashmod doclist buckets Doclist.row_limit Doclist.version Doclist.mem_mmaped];
    try done; try lia.
  - rewrite zlen_insert. unfold DOCLIST_MMAP_SIZE. lia.
  - apply zget_insert_eq. lia.
  - unfold DOCLIST_MMAP_SIZE. intros i Hi. rewrite zget_insert_ne by lia. apply Hz. lia.
  - intros b Hb. apply Hzb. lia.
Qed.

(** *** Closing and reopening *)

Lemma doclist_reopen all_mmap dl full m :
  mem_mmaped dl = Some m → m⟦0⟧ = Some (version dl) → version dl ≠ 0 →
  zlen m = DOCLIST_MMAP_SIZE (row_limit dl) → zlen m * 4 < 2 ^ 31 →
  ∃ dl', doclist_init all_mmap true (doclist_release all_mmap true dl) (row_limit dl) full = Some dl' ∧
    row_limit dl' = row_limit dl ∧ mem_mmaped dl' = Some m ∧ version dl' = version dl.
Proof.
  intros Em Hv Hv0 Hl Hmax. pose proof (zget_Some_range _ _ _ Hv).
  assert (∃ r, doclist_release all_mmap true dl = m ++ r) as [r ->].
  { unfold doclist_release, doclist_checkpoint. rewrite Em. destruct (is_full dl || all_mmap); by eexists. }
  unfold doclist_init, map_file. rewrite <- Hl.
  destruct (full || all_mmap); rewrite ?get_mmap_again, ?alloc_again by lia; cbn [mbind option_bind];
    rewrite Hv; cbn [mbind option_bind]; rewrite (proj2 (Z.eqb_neq _ 0)) by done; by eexists.
Qed.

Definition hash_index_restart (all_mmap full : bool) (h : hash_index_manager)
    : option hash_index_manager :=
  let '(f, fd) := hash_index_release all_mmap true true h in
  hash_index_init all_mmap true true f fd (hashmod h) full.

Lemma restart_spec all_mmap full nh N kh h :
  represents nh N kh h → N * 12 + 12 < 2 ^ 31 →
  ∃ h', hash_index_restart all_mmap full h = Some h' ∧ represents nh N kh h'.
Proof.
  intros Hrep Hmax. pose proof Hrep as (Hv & slot & hv & Hinv).
  destruct (xi_table _ _ _ _ _ _ Hinv) as [HN Hmod Hlim (m & Em & Hm) Hlen _ Hhd].
  destruct (doclist_reopen all_mmap (doclist h) full m Em (Hhd m Em)) as (dl & Hdl & Hdl1 & Hdl2 & Hdl3);
    [by rewrite Hv|by rewrite Hlim; apply Hm|rewrite (ri_len _ _ _ Hm); unfold DOCLIST_MMAP_SIZE; lia|].
  unfold hash_index_restart, hash_index_release, hash_index_checkpoint.
  unfold doclist_release in Hdl.
  destruct (doclist_checkpoint all_mmap true (doclist h)) as [rc dl1]. cbn [snd] in Hdl.
  assert (∃ r, hi_file (if hi_is_full h || all_mmap
      then set_hi_file h (buckets h ++ drop (length (buckets h)) (hi_file h)) dl1
      else let '(_, f) := flush_memory true (hi_file h) (Some (buckets h)) in set_hi_file h f dl1)
      = buckets h ++ r) as [r ->] by (destruct (hi_is_full h || all_mmap); by eexists).
  assert (doclist (if hi_is_full h || all_mmap
      then set_hi_file h (buckets h ++ drop (length (buckets h)) (hi_file h)) dl1
      else let '(_, f) := flush_memory true (hi_file h) (Some (buckets h)) in set_hi_file h f dl1)
      = dl1) as -> by by destruct (hi_is_full h || all_mmap).
  unfold hash_index_init, HASH_INDEX_MMAP_SIZE. rewrite Hmod, <- Hlen.
  rewrite Hlim in Hdl.
  destruct (full || all_mmap); rewrite ?get_mmap_again, ?alloc_again by lia; cbn [mbind option_bind];
    rewrite Hdl; cbn [mbind option_bind]; eexists; (split; [done|]);
    apply (represents_memory _ _ _ h); try done; split_and!; simpl; congruence.
Qed.

Lemma switch_spec all_mmap nh N kh h :
  represents nh N kh h →
  ∃ h', hash_index_mmap_switch all_mmap true true true true h = (0, h') ∧ represents nh N kh h'.
Proof.
  intros Hrep. pose proof Hrep as (Hv & slot & hv & Hinv).
  destruct (xi_table _ _ _ _ _ _ Hinv) as [HN Hmod Hlim (m & Em & Hm) Hlen _ _].
  unfold hash_index_mmap_switch. destruct (negb (hi_is_full h) && negb all_mmap); [|by eexists].
  destruct (flush_memory true (hi_file h) (Some (buckets h))) as [rc f] eqn:Ef.
  pose proof Ef as Ef'. simpl in Ef'. injection Ef' as <- _. simpl negb. cbv iota.
  cbn [set_hi_file buckets hashmod doclist]. unfold HASH_INDEX_MMAP_SIZE. rewrite Hmod, <- Hlen.
  rewrite (flush_switch _ _ _ Ef). simpl negb. cbv iota. cbn [default set_table doclist].
  destruct (doclist_switch_spec all_mmap (doclist h)) as (dl & -> & E1 & E2 & E3).
  { exists m. split; [done|]. rewrite Hlim. apply Hm. }
  simpl negb. cbv iota. eexists. split; [done|]. apply (represents_memory _ _ _ h); [|done].
  split_and!; simpl; congruence.
Qed.

(** ** Histories of operations *)

Inductive index_op :=
| Insert (docid : Z) (data : low_data_struct)
| Recover (docid : Z)
| Switch
| Restart (full : bool).

Section histories.
Context (get_hash_value : low_data_struct → Z) (nh : Z) `{!HashLaws get_hash_value nh}.
Context (all_mmap : bool).

Definition run_op (h : hash_index_manager) (op : index_op) : option (Z * hash_index_manager) :=
  match op with
  | Insert docid data => hash_index_insert get_hash_value h data docid
  | Recover docid => hash_index_recover h docid
  | Switch => Some (hash_index_mmap_switch all_mmap true true true true h)
  | Restart full => h ← hash_index_restart all_mmap full h; Some (0, h)
  end.

(** All operations return 0, or the run stops. *)
Fixpoint run (h : hash_index_manager) (ops : list index_op) : option hash_index_manager :=
  match ops with
  | [] => Some h
  | op :: ops => '(rc, h) ← run_op h op; if rc =? 0 then run h ops else None
  end.

Definition spec_op (kh : key_history) (op : index_op) : key_history :=
  match op with
  | Insert docid data => (docid, key_of get_hash_value data) :: kh
  | Recover docid => key_before docid kh
  | Switch | Restart _ => kh
  end.

(** Documents are inserted in ascending order and have a non-zero hash. *)
Definition op_ok (N : Z) (kh : key_history) (op : index_op) : Prop :=
  match op with
  | Insert docid data =>
      0 ≤ docid < N ∧ (∀ x, x ∈ kh.*1 → x < docid) ∧
      (len data ≠ 0 → get_hash_value data ≠ 0)
  | Recover docid => 0 ≤ docid ≤ N
  | Switch | Restart _ => True
  end.

Fixpoint ops_ok (N : Z) (kh : key_history) (ops : list index_op) : Prop :=
  match ops with
  | [] => True
  | op :: ops => op_ok N kh op ∧ ops_ok N (spec_op kh op) ops
  end.

Lemma insert_represents N kh h data d :
  represents nh N kh h → op_ok N kh (Insert d data) →
  ∃ h', hash_index_insert get_hash_value h data d = Some (0, h') ∧
    represents nh N ((d, key_of get_hash_value data) :: kh) h'.
Proof.
  intros (Hv & slot & hv & Hinv) (Hd & Hnew & Hh). unfold key_of.
  destruct (Z.eqb_spec (len data) 0) as [E|E].
  - destruct (insert_null get_hash_value nh N kh slot hv h Hinv data d E Hd Hnew)
      as (h' & slot' & hv' & -> & Hinv' & Hv'). exists h'. split; [done|].
    split; [congruence|]. by exists slot', hv'.
  - destruct (insert_value get_hash_value nh N kh slot hv h Hinv data d E (Hh E) Hd Hnew)
      as (h' & slot' & hv' & -> & Hinv' & Hv'). exists h'. split; [done|].
    split; [congruence|]. by exists slot', hv'.
Qed.

Lemma recover_represents N kh h d :
  represents nh N kh h → 0 ≤ d ≤ N →
  ∃ h', hash_index_recover h d = Some (0, h') ∧ represents nh N (key_before d kh) h'.
Proof.
  intros (Hv & slot & hv & Hinv) Hd.
  destruct (recover_spec nh N kh slot hv h d Hinv Hv Hd) as (h' & hv' & -> & Hinv' & Hv').
  exists h'. split; [done|]. split; [done|]. by exists slot, hv'.
Qed.

Lemma query_represents N kh h data :
  represents nh N kh h →
  ∃ r, hash_index_query get_hash_value h data = Some r ∧ rows_ok N r ∧
    ids r = docs_of kh (key_of get_hash_value data).
Proof.
  intros (Hv & slot & hv & Hinv).
  destruct (query_spec get_hash_value nh N kh slot hv h Hinv data) as (r & -> & Hw & Hids).
  exists r. split; [done|]. split; [|done].
  destruct (ti_rows _ _ _ _ (xi_table _ _ _ _ _ _ Hinv)) as (m & _ & Hm).
  pose proof (ri_desc _ _ _ Hm) as Hdesc. rewrite slots_fst in Hdesc.
  split; [done|rewrite Hids; by apply docs_of_desc|]. rewrite Hids.
  intros v Hin%docs_of_elem. apply (ri_range _ _ _ Hm v (slot (key_of get_hash_value data))).
  apply elem_of_slots. eauto.
Qed.

Lemma run_op_spec N kh h op :
  N * 12 + 12 < 2 ^ 31 → represents nh N kh h → op_ok N kh op →
  ∃ h', run_op h op = Some (0, h') ∧ represents nh N (spec_op kh op) h'.
Proof.
  intros Hmax Hrep Hop. destruct op as [d data|d| |full]; cbn [run_op spec_op op_ok] in *.
  - by apply insert_represents.
  - by apply recover_represents.
  - destruct (switch_spec all_mmap nh N kh h Hrep) as (h' & -> & ?). eauto.
  - destruct (restart_spec all_mmap full nh N kh h Hrep Hmax) as (h' & -> & ?).
    cbn [mbind option_bind]. eauto.
Qed.

Lemma run_spec N kh h ops :
  N * 12 + 12 < 2 ^ 31 → represents nh N kh h → ops_ok N kh ops →
  ∃ h', run h ops = Some h' ∧ represents nh N (foldl spec_op kh ops) h'.
Proof.
  intros Hmax. revert kh h. induction ops as [|op ops IH]; intros kh h Hrep Hok; [eauto|].
  destruct Hok as [Hop Hok]. destruct (run_op_spec N kh h op Hmax Hrep Hop) as (h1 & H1 & Hrep1).
  cbn [run foldl]. rewrite H1. cbn [mbind option_bind]. simpl (0 =? 0). by apply IH.
Qed.
End histories.

(** C14: refinement of the hash index.  Start from a fresh index of [N] buckets
    and run any sequence of insertions (of ascending document ids), recoveries
    that drop the documents from some id on, switches from private to shared
    memory and close/reopen cycles.  Every operation succeeds (in particular the
    open addressing never reports a conflict), and afterwards the lookup of any
    value returns exactly the surviving documents inserted with the same hash
    (or null), in descending order. *)
Theorem hash_index_refines get_hash_value nh `{!HashLaws get_hash_value nh} all_mmap N full ops data :
  0 < N → N * 12 + 12 < 2 ^ 31 → ops_ok get_hash_value N [] ops →
  ∃ h0 h r, hash_index_init all_mmap true true [] [] N full = Some h0 ∧
    run get_hash_value all_mmap h0 ops = Some h ∧
    hash_index_query get_hash_value h data = Some r ∧ rows_ok N r ∧
    ids r = docs_of (foldl (spec_op get_hash_value) [] ops) (key_of get_hash_value data).
Proof.
  intros HN Hmax Hok. destruct (hash_index_init_empty nh all_mmap N full HN Hmax) as (h0 & H0 & Hr0).
  destruct (run_spec get_hash_value nh all_mmap N [] h0 ops Hmax Hr0 Hok) as (h & H & Hr).
  destruct (query_represents get_hash_value nh N _ h data Hr) as (r & Hq & Hrows & Hids).
  exists h0, h, r. done.
Qed.

(** One insertion.  A document newer than all others, with a non-zero hash,
    is always accepted and its key is recorded in front of the history. *)
Theorem hash_index_insert_correct get_hash_value nh `{!HashLaws get_hash_value nh} N kh h data d :
  represents nh N kh h → op_ok get_hash_value N kh (Insert d data) →
  ∃ h', hash_index_insert get_hash_value h data d = Some (0, h') ∧
    represents nh N ((d, key_of get_hash_value data) :: kh) h'.
Proof. by apply (insert_represents get_hash_value nh). Qed.

(** *** Concrete runs *)

(** A hash for the examples: the first byte, or 77 for null. *)
Definition demo_hash (d : low_data_struct) : Z :=
  if len d =? 0 then 77 else default 1 (head (data d)) `mod` 2 ^ 64.

Lemma demo_hash_laws : HashLaws demo_hash 77.
Proof.
  split.
  - intros d. unfold demo_hash. destruct (len d =? 0); [lia|]. by apply Z.mod_pos_bound.
  - intros d H. unfold demo_hash. by rewrite H.
  - done.
Qed.

Definition byte_value (x : Z) : low_data_struct := LowData HI_TYPE_TINY [x] 1.
Definition null_value : low_data_struct := LowData HI_TYPE_NULL [] 0.

(** Keys 3 and 8 share the home bucket of a table of 5. *)
Definition demo_ops : list index_op :=
  [Insert 0 (byte_value 3); Insert 1 (byte_value 8); Insert 2 null_value; Restart false;
   Insert 3 (byte_value 8); Insert 4 (byte_value 4); Recover 3; Switch; Insert 3 (byte_value 3)].

Lemma demo_ops_ok : ops_ok demo_hash 5 [] demo_ops.
Proof.
  repeat split; try (vm_compute; congruence); try (intros _; vm_compute; discriminate);
    vm_compute; intros x Hx; set_unfold; naive_solver lia.
Qed.

Lemma hash_index_refines_witness :
  ∃ h0 h r, hash_index_init false true true [] [] 5 false = Some h0 ∧
    run demo_hash false h0 demo_ops = Some h ∧
    hash_index_query demo_hash h (byte_value 3) = Some r ∧ ids r = [3; 0].
Proof.
  destruct (hash_index_refines demo_hash 77 (HashLaws0:=demo_hash_laws) false 5 false demo_ops (byte_value 3))
    as (h0 & h & r & H0 & H & Hq & _ & Hids); [lia|lia|exact demo_ops_ok|].
  exists h0, h, r. split; [exact H0|]. split; [exact H|]. split; [exact Hq|].
  rewrite Hids. vm_compute. reflexivity.
Defined.

Lemma hash_index_insert_correct_witness :
  ∃ h h', hash_index_init false true true [] [] 5 false = Some h ∧
    hash_index_insert demo_hash h (byte_value 8) 1 = Some (0, h') ∧
    represents 77 5 [(1, Some 8)] h'.
Proof.
  destruct (hash_index_init_empty 77 false 5 false) as (h & H0 & Hr); [lia|lia|].
  destruct (hash_index_insert_correct demo_hash 77 (HashLaws0:=demo_hash_laws) 5 [] h (byte_value 8) 1 Hr)
    as (h' & H & Hr').
  - split; [lia|]. split; [intros x Hx; by apply not_elem_of_nil in Hx|]. intros _. vm_compute. discriminate.
  - exists h, h'. split; [exact H0|]. split; [exact H|exact Hr'].
Defined.

(** Inserting the same document twice as null reports success but overwrites the
    offset of the null bucket by 0: the list of nulls is lost. *)
Theorem null_reinsert_loses_list :
  ∃ h0 h1 h2 l, hash_index_init false true true [] [] 5 false = Some h0 ∧
    hash_index_insert demo_hash h0 null_value 2 = Some (0, h1) ∧
    hash_index_insert demo_hash h1 null_value 2 = Some (0, h2) ∧
    hash_index_query demo_hash h2 null_value = Some (Ptr l) ∧ 2 ∉ elems l.
Proof.
  eexists _, _, _, _. split; [vm_compute; reflexivity|]. split; [vm_compute; reflexivity|].
  split; [vm_compute; reflexivity|]. split; [vm_compute; reflexivity|].
  vm_compute. intros H. set_unfold. naive_solver lia.
Qed.
