(* ===== verification/Storage.v ===== *)
(** * Fixed-length column storage ([src/storage/docdb/storage.c])

    An array of [row_limit] cells of [value_size] bytes and a bit mark telling
    which rows hold a value.  The mark is any implementation of [MarkSet]. *)

From Stdlib Require Import ZArith Lia.
From stdpp Require Import base option list numbers.
From S2P Require Import Prelude FileOp LowData Bitmark.

Record storage_manager (M : Type) := Storage {
  value_size : Z;
  st_row_limit : Z;
  st_mem : list Z;         (* [mem_mmaped], bytes *)
  null_bitmark : M
}.
Arguments Storage {M}.
Arguments value_size {M}.
Arguments st_row_limit {M}.
Arguments st_mem {M}.
Arguments null_bitmark {M}.

Section storage.
Context {M : Type} `{!MarkSet M}.
Implicit Types (storage : storage_manager M).

Definition set_cells storage (m : list Z) (bm : M) : storage_manager M :=
  Storage (value_size storage) (st_row_limit storage) m bm.

(** 32-bit multiplication, as [STORAGE_MMAP_SIZE] computes it. *)
Definition STORAGE_MMAP_SIZE storage : Z := u32 (value_size storage * st_row_limit storage).

(** [file] is the content of the [.dat] file, [bm] the opened null mark. *)
Definition storage_init (io : bool) (unit_size limit : Z) (file : list Z) (bm : option M)
    : option (storage_manager M) :=
  m ← fst (get_mmap_memory 0 1 io file (u32 (unit_size * limit)));
  bm ← bm;
  Some (Storage unit_size limit m bm).

Definition storage_insert storage (d : low_data_struct) (docid : Z)
    : option (Z * storage_manager M) :=
  if negb (len d =? 0) then
    '(_, bm) ← ms_set (null_bitmark storage) docid;
    src ← zsub (data d) 0 (len d);
    m ← zcopy (st_mem storage) (u32 (value_size storage * docid)) src;
    Some (0, set_cells storage m bm)
  else Some (0, storage).

Definition storage_query storage (docid : Z) : option low_data_struct :=
  q ← ms_query (null_bitmark storage) docid;
  if q =? 1 then Some (LowData HI_TYPE_NULL (replicate (Z.to_nat (value_size storage)) 0) 0)
  else
    v ← zsub (st_mem storage) (u32 (docid * value_size storage)) (value_size storage);
    Some (LowData HI_TYPE_NULL v (value_size storage)).

(** Returns the old value as well. *)
Definition storage_update storage (new_data : low_data_struct) (docid : Z)
    : option (Z * low_data_struct * storage_manager M) :=
  if len new_data =? 0 then
    old_data ← storage_query storage docid;
    '(_, bm) ← ms_clear (null_bitmark storage) docid;
    Some (0, old_data, set_cells storage (st_mem storage) bm)
  else
    old_data ← storage_query storage docid;
    src ← zsub (data new_data) 0 (value_size storage);
    m ← zcopy (st_mem storage) (u32 (docid * value_size storage)) src;
    '(_, bm) ← ms_set (null_bitmark storage) docid;
    Some (0, old_data, set_cells storage m bm).

Definition storage_recover storage (docid : Z) : option (Z * storage_manager M) :=
  if docid >=? st_row_limit storage then Some (ERROR_EXCEED_LIMIT, storage)
  else
    '(rc, bm) ← ms_recover (null_bitmark storage) docid;
    if negb (rc =? 0) then Some (-1, set_cells storage (st_mem storage) bm)
    else
      m ← zfill (st_mem storage) (u32 (value_size storage * docid))
            (u32 (u32 (st_row_limit storage - docid) * value_size storage)) 0;
      Some (0, set_cells storage m bm).

(** [storage_checkpoint] and [storage_release]: the file after [msync]. *)
Definition storage_checkpoint storage (file : list Z) : list Z :=
  st_mem storage ++ drop (length (st_mem storage)) file.
End storage.

(** ** Abstraction: a partial map from rows to values *)

Section storage_proofs.
Context {M : Type} `{!MarkSet M, !MarkSetLaws M}.
Implicit Types (storage : storage_manager M).

Record storage_wf storage : Prop := {
  sw_size : 0 < value_size storage < 2 ^ 16;
  sw_limit : 0 < st_row_limit storage;
  sw_fits : value_size storage * st_row_limit storage < 2 ^ 32;
  sw_mem : zlen (st_mem storage) = value_size storage * st_row_limit storage;
  sw_mark : ms_wf (null_bitmark storage);
  sw_mlimit : ms_limit (null_bitmark storage) = st_row_limit storage
}.

(** The bytes of cell [d]. *)
Definition cell storage (d : Z) : list Z :=
  take (Z.to_nat (value_size storage)) (drop (Z.to_nat (value_size storage * d)) (st_mem storage)).

(** The value of row [d], [None] for null. *)
Definition contents storage (d : Z) : option (list Z) :=
  if ms_bit (null_bitmark storage) d then Some (cell storage d) else None.

(** A value that fills a cell. *)
Definition fits storage (v : low_data_struct) : Prop :=
  len v = value_size storage ∧ zlen (data v) = len v.

Lemma cell_bounds storage d :
  storage_wf storage → 0 ≤ d < st_row_limit storage →
  0 ≤ value_size storage * d ∧
  value_size storage * d + value_size storage ≤ value_size storage * st_row_limit storage ∧
  u32 (value_size storage * d) = value_size storage * d ∧
  u32 (d * value_size storage) = value_size storage * d.
Proof.
  intros [] Hd. assert (0 ≤ value_size storage * d) by nia.
  assert (value_size storage * d + value_size storage ≤ value_size storage * st_row_limit storage) by nia.
  rewrite (Z.mul_comm d). rewrite u32_small by lia. done.
Qed.

Lemma cell_zsub storage d :
  storage_wf storage → 0 ≤ d < st_row_limit storage →
  zsub (st_mem storage) (value_size storage * d) (value_size storage) = Some (cell storage d).
Proof.
  intros Hw Hd. destruct (cell_bounds storage d Hw Hd) as (? & ? & _). destruct Hw.
  unfold zsub. by rewrite decide_True by lia.
Qed.

Lemma cell_ext storage storage' d :
  storage_wf storage → value_size storage' = value_size storage →
  zlen (st_mem storage') = zlen (st_mem storage) → 0 ≤ d < st_row_limit storage →
  (∀ i, value_size storage * d ≤ i < value_size storage * d + value_size storage →
     (st_mem storage')⟦i⟧ = (st_mem storage)⟦i⟧) →
  cell storage' d = cell storage d.
Proof.
  intros Hw Hv Hl Hd Hi. destruct (cell_bounds storage d Hw Hd) as (? & ? & _). destruct Hw.
  unfold cell. rewrite Hv. apply list_eq. intros n.
  destruct (decide (n < Z.to_nat (value_size storage))%nat) as [Hn|Hn].
  - rewrite !lookup_take_lt, !lookup_drop by lia.
    specialize (Hi (value_size storage * d + Z.of_nat n) ltac:(lia)).
    rewrite !zget_lookup in Hi by lia.
    replace (Z.to_nat (value_size storage * d + Z.of_nat n))
      with (Z.to_nat (value_size storage * d) + n)%nat in Hi by lia. done.
  - rewrite !lookup_ge_None_2 by (rewrite length_take; lia). done.
Qed.

(** Overwriting one cell. *)
Lemma copy_cell storage d src :
  storage_wf storage → 0 ≤ d < st_row_limit storage → zlen src = value_size storage →
  ∃ m, zcopy (st_mem storage) (value_size storage * d) src = Some m ∧
    zlen m = zlen (st_mem storage) ∧
    ∀ bm e, 0 ≤ e < st_row_limit storage →
      cell (set_cells storage m bm) e = if decide (e = d) then src else cell storage e.
Proof.
  intros Hw Hd Hs. destruct (cell_bounds storage d Hw Hd) as (Hb1 & Hb2 & _).
  pose proof Hw as [? ? ? ? ? ?].
  destruct (zcopy_spec (st_mem storage) (value_size storage * d) src) as (m & Hm & Hl & Hget); [lia|lia|].
  exists m. split; [done|]. split; [done|]. intros bm e He.
  destruct (cell_bounds storage e Hw He) as (He1 & He2 & _). case_decide as E.
  - subst e. unfold cell, set_cells. cbn [value_size st_mem].
    unfold zcopy in Hm. rewrite decide_True in Hm by lia. injection Hm as <-.
    unfold zlen in *. rewrite drop_app_ge by (rewrite length_take; lia).
    rewrite length_take, Nat.min_l, Nat.sub_diag, drop_0 by lia.
    rewrite take_app_le by lia. apply take_ge. lia.
  - apply cell_ext; try done. intros i Hi. cbn [set_cells st_mem]. rewrite Hget.
    rewrite decide_False; [done|]. rewrite Hs. intros Hi'.
    assert (e < d ∨ d < e) as [?|?] by lia; nia.
Qed.

Lemma set_cells_wf storage m bm :
  storage_wf storage → zlen m = zlen (st_mem storage) → ms_wf bm →
  ms_limit bm = ms_limit (null_bitmark storage) → storage_wf (set_cells storage m bm).
Proof. intros [] Hl Hm Hlim. split; cbn [set_cells value_size st_row_limit st_mem null_bitmark]; lia || done. Qed.

Lemma zsub_all (l : list Z) n : zlen l = n → zsub l 0 n = Some l.
Proof.
  intros <-. unfold zsub. rewrite decide_True by (unfold zlen; lia).
  unfold zlen. rewrite Nat2Z.id. simpl. by rewrite drop_0, take_ge by lia.
Qed.

Lemma storage_query_spec storage d :
  storage_wf storage → 0 ≤ d < st_row_limit storage →
  storage_query storage d =
  Some match contents storage d with
       | None => LowData HI_TYPE_NULL (replicate (Z.to_nat (value_size storage)) 0) 0
       | Some v => LowData HI_TYPE_NULL v (value_size storage)
       end.
Proof.
  intros Hw Hd. destruct (cell_bounds storage d Hw Hd) as (_ & _ & _ & E).
  unfold storage_query. rewrite ms_query_ok by (destruct Hw; done || lia).
  cbn [mbind option_bind]. unfold contents. destruct (ms_bit _ d); simpl (_ =? _); cbv iota; [|done].
  rewrite E, cell_zsub by done. done.
Qed.

Lemma storage_insert_spec storage v d :
  storage_wf storage → 0 ≤ d < st_row_limit storage → (len v ≠ 0 → fits storage v) →
  ∃ storage', storage_insert storage v d = Some (0, storage') ∧ storage_wf storage' ∧
    value_size storage' = value_size storage ∧ st_row_limit storage' = st_row_limit storage ∧
    ∀ e, 0 ≤ e < st_row_limit storage →
      contents storage' e =
      if decide (e = d ∧ len v ≠ 0) then Some (data v) else contents storage e.
Proof.
  intros Hw Hd Hf. unfold storage_insert. destruct (Z.eqb_spec (len v) 0) as [E|E]; simpl negb; cbv iota.
  { exists storage. split_and!; try done. intros e He. by rewrite decide_False by tauto. }
  destruct (Hf E) as [Hl Hz]. destruct (cell_bounds storage d Hw Hd) as (_ & _ & Eu & _).
  destruct (ms_set_ok (null_bitmark storage) d) as (bm & -> & Hbw & Hbl & Hb); [destruct Hw; done || lia..|].
  cbn [mbind option_bind]. rewrite zsub_all by done. cbn [mbind option_bind]. rewrite Eu.
  destruct (copy_cell storage d (data v) Hw Hd) as (m & -> & Hm & Hc); [lia|].
  cbn [mbind option_bind]. eexists. split; [done|]. split; [by apply set_cells_wf|].
  split; [done|]. split; [done|]. intros e He. unfold contents. rewrite Hc by done.
  cbn [set_cells null_bitmark]. rewrite Hb. destruct (Z.eqb_spec e d) as [->|Hne].
  - rewrite orb_true_r, !decide_True by done. done.
  - rewrite orb_false_r, !decide_False by tauto. done.
Qed.

Lemma storage_update_spec storage v d :
  storage_wf storage → 0 ≤ d < st_row_limit storage → (len v ≠ 0 → fits storage v) →
  ∃ storage' old, storage_update storage v d = Some (0, old, storage') ∧
    storage_query storage d = Some old ∧ storage_wf storage' ∧
    value_size storage' = value_size storage ∧ st_row_limit storage' = st_row_limit storage ∧
    ∀ e, 0 ≤ e < st_row_limit storage →
      contents storage' e =
      if decide (e = d) then (if len v =? 0 then None else Some (data v)) else contents storage e.
Proof.
  intros Hw Hd Hf. unfold storage_update. pose proof (storage_query_spec storage d Hw Hd) as Hq.
  rewrite Hq. cbn [mbind option_bind]. destruct (cell_bounds storage d Hw Hd) as (_ & _ & _ & Eu).
  destruct (Z.eqb_spec (len v) 0) as [E|E].
  - destruct (ms_clear_ok (null_bitmark storage) d) as (bm & -> & Hbw & Hbl & Hb); [destruct Hw; done || lia..|].
    cbn [mbind option_bind]. eexists _, _. split; [done|]. split; [done|].
    split; [by apply set_cells_wf|]. split; [done|]. split; [done|]. intros e He. unfold contents, cell.
    cbn [set_cells null_bitmark value_size st_mem]. rewrite Hb. destruct (Z.eqb_spec e d) as [->|Hne]; simpl.
    + rewrite andb_false_r, decide_True by done. done.
    + rewrite andb_true_r, decide_False by done. done.
  - destruct (Hf E) as [Hl Hz]. rewrite zsub_all by congruence. cbn [mbind option_bind]. rewrite Eu.
    destruct (copy_cell storage d (data v) Hw Hd) as (m & -> & Hm & Hc); [lia|]. cbn [mbind option_bind].
    destruct (ms_set_ok (null_bitmark storage) d) as (bm & -> & Hbw & Hbl & Hb); [destruct Hw; done || lia..|].
    cbn [mbind option_bind]. eexists _, _. split; [done|]. split; [done|].
    split; [by apply set_cells_wf|]. split; [done|]. split; [done|].
    intros e He. unfold contents. rewrite Hc by done.
    cbn [set_cells null_bitmark]. rewrite Hb. destruct (Z.eqb_spec e d) as [->|Hne].
    + rewrite orb_true_r, !decide_True by done. done.
    + rewrite orb_false_r, !decide_False by tauto. done.
Qed.

Lemma storage_recover_spec storage d :
  storage_wf storage → 0 ≤ d < st_row_limit storage →
  ∃ storage', storage_recover storage d = Some (0, storage') ∧ storage_wf storage' ∧
    value_size storage' = value_size storage ∧ st_row_limit storage' = st_row_limit storage ∧
    ∀ e, 0 ≤ e < st_row_limit storage →
      contents storage' e = if decide (e < d) then contents storage e else None.
Proof.
  intros Hw Hd. unfold storage_recover. rewrite Z.geb_leb, (proj2 (Z.leb_gt _ _)) by lia.
  destruct (cell_bounds storage d Hw Hd) as (Hb1 & Hb2 & Eu & _). pose proof Hw as [? ? Hfit Hmem ? ?].
  destruct (ms_recover_ok (null_bitmark storage) d) as (bm & -> & Hbw & Hbl & Hb); [done|lia|].
  cbn [mbind option_bind]. simpl negb. cbv iota. rewrite Eu.
  rewrite (u32_small (st_row_limit storage - d)) by nia.
  rewrite (u32_small (_ * value_size storage)) by nia.
  destruct (zfill_spec (st_mem storage) (value_size storage * d)
    ((st_row_limit storage - d) * value_size storage) 0) as (m & -> & Hm & Hget); [nia..|].
  cbn [mbind option_bind]. eexists. split; [done|]. split; [by apply set_cells_wf|].
  split; [done|]. split; [done|]. intros e He. unfold contents. cbn [set_cells null_bitmark].
  rewrite Hb. destruct (Z.ltb_spec e d).
  - rewrite andb_true_r, decide_True by done. destruct (ms_bit _ e); [|done]. f_equal.
    apply cell_ext; try done. intros i Hi. cbn [st_mem]. rewrite Hget. rewrite decide_False; [done|]. nia.
  - rewrite andb_false_r, decide_False by lia. done.
Qed.
End storage_proofs.

(** ** Refinement *)

Inductive storage_op := OpInsert (d : Z) (v : low_data_struct) | OpUpdate (d : Z) (v : low_data_struct)
  | OpRecover (d : Z).

Definition run_op {M} `{!MarkSet M} (st : storage_manager M) (op : storage_op)
    : option (Z * storage_manager M) :=
  match op with
  | OpInsert d v => storage_insert st v d
  | OpUpdate d v => '(rc, _, st) ← storage_update st v d; Some (rc, st)
  | OpRecover d => storage_recover st d
  end.

Fixpoint run_ops {M} `{!MarkSet M} (st : storage_manager M) (ops : list storage_op)
    : option (storage_manager M) :=
  match ops with
  | [] => Some st
  | op :: ops => '(rc, st) ← run_op st op; if rc =? 0 then run_ops st ops else None
  end.

(** On the abstract map: inserting null leaves the row as it is (a fresh row is
    null), updating with null clears it. *)
Definition spec_op (f : Z → option (list Z)) (op : storage_op) : Z → option (list Z) :=
  match op with
  | OpInsert d v => λ e, if decide (e = d ∧ len v ≠ 0) then Some (data v) else f e
  | OpUpdate d v => λ e, if decide (e = d) then (if len v =? 0 then None else Some (data v)) else f e
  | OpRecover d => λ e, if decide (e < d) then f e else None
  end.

Definition op_ok (size limit : Z) (op : storage_op) : Prop :=
  match op with
  | OpInsert d v | OpUpdate d v =>
      0 ≤ d < limit ∧ (len v ≠ 0 → len v = size ∧ zlen (data v) = len v)
  | OpRecover d => 0 ≤ d < limit
  end.

Lemma run_ops_spec {M} `{!MarkSet M, !MarkSetLaws M} (st : storage_manager M) f ops :
  storage_wf st → (∀ e, 0 ≤ e < st_row_limit st → contents st e = f e) →
  Forall (op_ok (value_size st) (st_row_limit st)) ops →
  ∃ st', run_ops st ops = Some st' ∧ storage_wf st' ∧ value_size st' = value_size st ∧
    st_row_limit st' = st_row_limit st ∧
    ∀ e, 0 ≤ e < st_row_limit st → contents st' e = foldl spec_op f ops e.
Proof.
  intros Hw Hf Hops. revert st f Hw Hf Hops. induction ops as [|op ops IH]; intros st f Hw Hf Hops.
  { exists st. done. }
  apply Forall_cons_1 in Hops as [Hop Hops].
  assert (∃ st1, run_op st op = Some (0, st1) ∧ storage_wf st1 ∧ value_size st1 = value_size st ∧
    st_row_limit st1 = st_row_limit st ∧
    ∀ e, 0 ≤ e < st_row_limit st → contents st1 e = spec_op f op e) as (st1 & Hr & Hw1 & Hv1 & Hl1 & Hc1).
  { destruct op as [d v|d v|d]; cbn [op_ok run_op spec_op] in *.
    - destruct Hop as [Hd Hv]. destruct (storage_insert_spec st v d Hw Hd Hv) as (st1 & ? & ? & ? & ? & Hc).
      exists st1. split_and!; try done. intros e He. rewrite Hc by done. by rewrite Hf by done.
    - destruct Hop as [Hd Hv].
      destruct (storage_update_spec st v d Hw Hd Hv) as (st1 & old & -> & _ & ? & ? & ? & Hc).
      exists st1. split_and!; try done. intros e He. rewrite Hc by done. by rewrite Hf by done.
    - destruct (storage_recover_spec st d Hw Hop) as (st1 & ? & ? & ? & ? & Hc).
      exists st1. split_and!; try done. intros e He. rewrite Hc by done. by rewrite Hf by done. }
  cbn [run_ops foldl]. rewrite Hr. cbn [mbind option_bind]. simpl (0 =? 0). cbv iota.
  destruct (IH st1 (spec_op f op) Hw1) as (st2 & ? & ? & ? & ? & Hc2).
  - by rewrite Hl1.
  - by rewrite Hv1, Hl1.
  - exists st2. rewrite Hl1 in *. split_and!; try done; congruence.
Qed.

(** A fixed-length column behaves as a map from rows to values.  From any
    well-formed storage, every sequence of inserts, updates and recoveries on
    rows below the limit with values of the column's width succeeds without a
    memory error, and a query then returns the value the sequence left in the
    row, or null.  No operation disturbs a neighbouring cell. *)
Theorem storage_refines {M} `{!MarkSet M, !MarkSetLaws M} (st : storage_manager M) ops d :
  storage_wf st → Forall (op_ok (value_size st) (st_row_limit st)) ops →
  0 ≤ d < st_row_limit st →
  ∃ st', run_ops st ops = Some st' ∧ storage_wf st' ∧
    storage_query st' d =
    Some match foldl spec_op (contents st) ops d with
         | None => LowData HI_TYPE_NULL (replicate (Z.to_nat (value_size st)) 0) 0
         | Some v => LowData HI_TYPE_NULL v (value_size st)
         end.
Proof.
  intros Hw Hops Hd. destruct (run_ops_spec st (contents st) ops Hw) as (st' & Hr & Hw' & Hv & Hl & Hc);
    [done|done|]. exists st'. split; [done|]. split; [done|].
  rewrite storage_query_spec by (done || lia). by rewrite Hc, Hv by done.
Qed.

(** A new storage over empty files. *)
Lemma storage_init_empty unit_size limit :
  0 < unit_size < 2 ^ 16 → 0 < limit → unit_size * limit < 2 ^ 31 →
  ∃ bm st, bitmark_init limit [] = Some bm ∧ storage_init true unit_size limit [] (Some bm) = Some st ∧
    storage_wf st ∧ value_size st = unit_size ∧ st_row_limit st = limit ∧
    ∀ d, contents st d = None.
Proof.
  intros Hs Hl Hmax. assert (limit < 2 ^ 31) by nia.
  destruct (bitmark_init_empty limit) as (bm & Hbm & Hbw & Hbl & Hb); [lia|].
  unfold storage_init. rewrite u32_small by nia.
  destruct (get_mmap_memory_spec 0 1 ltac:(lia) [] (unit_size * limit)) as (m & f & -> & Hm & Hz); [nia|lia|].
  cbn [fst mbind option_bind]. eexists bm, _. split_and!; try done.
  - split; cbn [value_size st_row_limit st_mem null_bitmark]; try done; lia.
  - intros d. unfold contents. cbn [null_bitmark ms_bit bitmark_MarkSetLaws]. by rewrite Hb.
Qed.

Lemma storage_refines_witness :
  ∃ bm st st', bitmark_init 4 [] = Some bm ∧ storage_init true 2 4 [] (Some bm) = Some st ∧
    run_ops st [OpInsert 0 (LowData HI_TYPE_SHORT [1; 2] 2); OpInsert 1 (LowData HI_TYPE_SHORT [3; 4] 2);
                OpUpdate 0 (LowData HI_TYPE_SHORT [9; 9] 2); OpRecover 1] = Some st' ∧
    storage_query st' 0 = Some (LowData HI_TYPE_NULL [9; 9] 2) ∧
    storage_query st' 1 = Some (LowData HI_TYPE_NULL [0; 0] 0).
Proof.
  destruct (storage_init_empty 2 4) as (bm & st & Hb & Hs & Hw & Hv & Hl & Hc); [lia|lia|lia|].
  pose proof (storage_refines st
    [OpInsert 0 (LowData HI_TYPE_SHORT [1; 2] 2); OpInsert 1 (LowData HI_TYPE_SHORT [3; 4] 2);
     OpUpdate 0 (LowData HI_TYPE_SHORT [9; 9] 2); OpRecover 1]) as H.
  assert (Forall (op_ok (value_size st) (st_row_limit st))
    [OpInsert 0 (LowData HI_TYPE_SHORT [1; 2] 2); OpInsert 1 (LowData HI_TYPE_SHORT [3; 4] 2);
     OpUpdate 0 (LowData HI_TYPE_SHORT [9; 9] 2); OpRecover 1]) as Hok.
  { rewrite Hv, Hl. repeat constructor; simpl; lia. }
  destruct (H 0 Hw Hok) as (st' & Hr & _ & H0); [lia|].
  destruct (H 1 Hw Hok) as (st2 & Hr2 & _ & H1); [lia|].
  rewrite Hr in Hr2. injection Hr2 as <-.
  exists bm, st, st'. split; [exact Hb|]. split; [exact Hs|]. split; [exact Hr|].
  cbn in H0, H1. rewrite Hv in H0, H1. split; [exact H0|exact H1].
Defined.

(** [storage_insert] copies [data->len] bytes, not [value_size] as its comment
    says: a value longer than the cell overwrites the next row. *)
Theorem storage_insert_overruns :
  ∃ bm st st1 st2, bitmark_init 4 [] = Some bm ∧ storage_init true 2 4 [] (Some bm) = Some st ∧
    storage_insert st (LowData HI_TYPE_SHORT [3; 4] 2) 1 = Some (0, st1) ∧
    storage_insert st1 (LowData HI_TYPE_LONG [7; 7; 7; 7] 4) 0 = Some (0, st2) ∧
    storage_query st1 1 = Some (LowData HI_TYPE_NULL [3; 4] 2) ∧
    storage_query st2 1 = Some (LowData HI_TYPE_NULL [7; 7] 2).
Proof.
  eexists _, _, _, _. repeat (split; [vm_compute; reflexivity|]). vm_compute. reflexivity.
Qed.
