(* ===== verification/VStorage.v ===== *)
(** * Variable-length column storage ([src/storage/docdb/vstorage.c])

    Values are appended to a data file; a memory-mapped array gives the offset
    and length of each row's value, and a header word the current end of the
    file.  Old columns have 16-bit lengths ([loc_info]), new ones 32-bit lengths
    ([loc_info4]). *)

From Stdlib Require Import ZArith Lia.
From stdpp Require Import base option list numbers.
From S2P Require Import Prelude LowData Bitmark.

(** [locate_info] or [locate_info4]. *)
Record locate_info := Loc { loc_offset : Z; loc_len : Z }.

Record vstorage_manager := VStorage {
  wide : bool;               (* [loc_info4] is in use *)
  vs_row_limit : Z;
  vs_offset : Z;             (* [*offset], the header of the index file *)
  locs : list locate_info;
  data_file : list Z         (* the bytes of the data file *)
}.

Definition set_vs (vs : vstorage_manager) (off : Z) (ls : list locate_info) (f : list Z)
    : vstorage_manager := VStorage (wide vs) (vs_row_limit vs) off ls f.

Definition loc_size (w : bool) : Z := if w then 12 else 10.

(** Mapping the index file: its records [ls], extended with zeros to the size
    of the array ([ensure_file_size] takes a signed 32-bit size). *)
Definition map_index (w : bool) (ls : list locate_info) (limit : Z) : list locate_info :=
  let size := s32 (u32 (limit * loc_size w + 8)) in
  take (Z.to_nat limit)
    (if 8 + zlen ls * loc_size w <? size
     then ls ++ replicate (Z.to_nat limit - length ls) (Loc 0 0) else ls).

(** [old] tells whether the index file with 16-bit lengths exists; [hd] and [ls]
    are the header and the records of the index file in use. *)
Definition vstorage_init (open_ok old : bool) (hd : Z) (ls : list locate_info) (f : list Z)
    (limit : Z) : ptr vstorage_manager :=
  if negb open_ok then NULL
  else Ptr (VStorage (negb old) limit hd (map_index (negb old) ls limit) f).

(** [w] is the result of the [write] call: the number of bytes appended, or -1. *)
Definition vstorage_insert (w : Z) (vs : vstorage_manager) (d : low_data_struct) (docid : Z)
    : option (Z * vstorage_manager) :=
  if negb (wide vs) && (len d >? 0xFFFF) then Some (-1, vs)
  else
    src ← zsub (data d) 0 (len d);
    let f := if negb (len d =? 0) then data_file vs ++ take (Z.to_nat w) src else data_file vs in
    if negb (len d =? 0) && negb (w =? len d)
    then Some (-1, set_vs vs (vs_offset vs) (locs vs) f)
    else
      ls ← (locs vs)⟦docid := Loc (vs_offset vs) (len d)⟧;
      Some (0, set_vs vs (u64 (vs_offset vs + len d)) ls f).

(** [pread] reads what the file has from the offset on. *)
Definition vstorage_query (vs : vstorage_manager) (docid : Z) : option (ptr low_data_struct) :=
  l ← (locs vs)⟦docid⟧;
  if negb (loc_len l =? 0) then
    let v := take (Z.to_nat (loc_len l)) (drop (Z.to_nat (loc_offset l)) (data_file vs)) in
    if negb (zlen v =? loc_len l) then Some NULL
    else Some (Ptr (LowData HI_TYPE_NULL v (loc_len l)))
  else Some (Ptr (LowData HI_TYPE_NULL [] 0)).

Definition vstorage_update (w : Z) (vs : vstorage_manager) (new_data : low_data_struct) (docid : Z)
    : option (Z * ptr low_data_struct * vstorage_manager) :=
  old_data ← vstorage_query vs docid;
  if len new_data =? 0 then
    l ← (locs vs)⟦docid⟧;
    ls ← (locs vs)⟦docid := Loc (loc_offset l) 0⟧;
    Some (0, old_data, set_vs vs (vs_offset vs) ls (data_file vs))
  else
    '(rc, vs) ← vstorage_insert w vs new_data docid;
    Some (rc, old_data, vs).

(** The end of the last value among the rows kept. *)
Definition end_step (offset : Z) (l : locate_info) : Z :=
  let off := u64 (loc_offset l + loc_len l) in
  if off >? offset then off else offset.

Definition data_end (ls : list locate_info) : Z := foldl end_step 0 ls.

Definition vstorage_recover (size_ok trunc_ok : bool) (vs : vstorage_manager) (docid : Z)
    : option (Z * vstorage_manager) :=
  if docid >=? vs_row_limit vs then Some (ERROR_EXCEED_LIMIT, vs)
  else
    ls ← zfill (locs vs) docid (u32 (vs_row_limit vs - docid)) (Loc 0 0);
    let offset := data_end (take (Z.to_nat docid) ls) in
    let vs := set_vs vs offset ls (data_file vs) in
    if negb size_ok then Some (-1, vs)
    else if zlen (data_file vs) <? offset then Some (-1, vs)
    else if negb trunc_ok then Some (-1, vs)
    else Some (0, set_vs vs offset ls (take (Z.to_nat offset) (data_file vs))).

(** ** Abstraction: the value of each row *)

Definition value_at (f : list Z) (l : locate_info) : list Z :=
  take (Z.to_nat (loc_len l)) (drop (Z.to_nat (loc_offset l)) f).

Definition contents (vs : vstorage_manager) (d : Z) : list Z :=
  match (locs vs)⟦d⟧ with None => [] | Some l => value_at (data_file vs) l end.

Definition loc_ok (f : list Z) (l : locate_info) : Prop :=
  0 ≤ loc_offset l ∧ 0 ≤ loc_len l ∧ loc_offset l + loc_len l ≤ zlen f.

(** The header is the end of the data file and every row lies inside it. *)
Record vstorage_wf (vs : vstorage_manager) : Prop := {
  vw_limit : 0 < vs_row_limit vs < 2 ^ 32;
  vw_locs : zlen (locs vs) = vs_row_limit vs;
  vw_offset : vs_offset vs = zlen (data_file vs);
  vw_size : zlen (data_file vs) < 2 ^ 64;
  vw_row : ∀ d l, (locs vs)⟦d⟧ = Some l → loc_ok (data_file vs) l
}.

Definition insertable (vs : vstorage_manager) (v : low_data_struct) : Prop :=
  zlen (data v) = len v ∧ (wide vs = false → len v ≤ 0xFFFF) ∧
  zlen (data_file vs) + len v < 2 ^ 64.

Lemma value_at_app f g l : loc_ok f l → value_at (f ++ g) l = value_at f l.
Proof.
  intros (H1 & H2 & H3). unfold value_at, zlen in *. rewrite drop_app_le by lia.
  rewrite take_app_le; [done|]. rewrite length_drop. lia.
Qed.

Lemma loc_ok_app f g l : loc_ok f l → loc_ok (f ++ g) l.
Proof. unfold loc_ok. rewrite zlen_app. pose proof (zlen_nonneg g). lia. Qed.

Lemma vstorage_insert_spec vs v d :
  vstorage_wf vs → 0 ≤ d < vs_row_limit vs → insertable vs v →
  ∃ vs', vstorage_insert (len v) vs v d = Some (0, vs') ∧ vstorage_wf vs' ∧
    vs_row_limit vs' = vs_row_limit vs ∧ wide vs' = wide vs ∧
    zlen (data_file vs') = zlen (data_file vs) + len v ∧
    ∀ e, contents vs' e = if decide (e = d) then data v else contents vs e.
Proof.
  intros [Hlim Hlocs Hoff Hsz Hrow] Hd (Hz & Hw & Hmax). unfold vstorage_insert.
  assert (negb (wide vs) && (len v >? 65535) = false) as ->.
  { destruct (wide vs); [done|]. specialize (Hw eq_refl). simpl. rewrite Z.gtb_ltb. apply Z.ltb_ge. lia. }
  assert (zsub (data v) 0 (len v) = Some (data v)) as ->.
  { unfold zsub. rewrite decide_True by (unfold zlen in *; lia). unfold zlen in Hz.
    rewrite <- Hz, Nat2Z.id. simpl. by rewrite drop_0, take_ge by lia. }
  cbn [mbind option_bind]. rewrite Z.eqb_refl. simpl negb. rewrite andb_false_r. cbv iota.
  rewrite zset_in by lia. cbn [mbind option_bind]. eexists. split; [done|].
  assert ((if negb (len v =? 0) then data_file vs ++ take (Z.to_nat (len v)) (data v) else data_file vs)
    = data_file vs ++ data v) as ->.
  { unfold zlen in Hz. rewrite take_ge by lia. destruct (Z.eqb_spec (len v) 0) as [E|E]; [|done].
    destruct (data v); [by rewrite app_nil_r|simpl in Hz; lia]. }
  pose proof (zlen_nonneg (data_file vs)). pose proof (zlen_nonneg (data v)).
  cbn [set_vs vs_row_limit wide data_file]. split; [|split_and!; [done|done|rewrite zlen_app; lia|]].
  - split; cbn [set_vs vs_row_limit locs vs_offset data_file]; rewrite ?zlen_insert, ?zlen_app; try lia.
    + rewrite u64_small; lia.
    + intros e l. destruct (decide (e = d)) as [->|Hne].
      * rewrite zget_insert_eq by lia. intros [= <-]. unfold loc_ok. simpl. rewrite zlen_app. lia.
      * rewrite zget_insert_ne by lia. intros Hl%Hrow. by apply loc_ok_app.
  - intros e. unfold contents. cbn [set_vs locs data_file]. case_decide as E.
    + subst e. rewrite zget_insert_eq by lia. unfold value_at. simpl. rewrite Hoff. unfold zlen in *.
      rewrite Nat2Z.id, drop_app_ge, Nat.sub_diag, drop_0 by lia. apply take_ge. lia.
    + rewrite zget_insert_ne by lia. destruct ((locs vs)⟦e⟧) as [l|] eqn:El; [|done].
      apply value_at_app. by eapply Hrow.
Qed.

Lemma value_at_len f l : loc_ok f l → zlen (value_at f l) = loc_len l.
Proof.
  intros (? & ? & ?). unfold value_at, zlen in *. rewrite length_take, length_drop. lia.
Qed.

Lemma vstorage_query_spec vs d :
  vstorage_wf vs → 0 ≤ d < vs_row_limit vs →
  vstorage_query vs d =
  Some (Ptr (LowData HI_TYPE_NULL (contents vs d) (zlen (contents vs d)))).
Proof.
  intros [Hlim Hlocs Hoff Hsz Hrow] Hd. unfold vstorage_query, contents.
  destruct (zget_lt (locs vs) d) as [l Hl]; [lia|]. rewrite Hl. cbn [mbind option_bind].
  pose proof (Hrow d l Hl) as Hok. fold (value_at (data_file vs) l). rewrite (value_at_len _ _ Hok).
  rewrite Z.eqb_refl. simpl negb. destruct (Z.eqb_spec (loc_len l) 0) as [E|E]; simpl negb; cbv iota; [|done].
  unfold value_at. by rewrite E.
Qed.

Lemma vstorage_update_spec vs v d :
  vstorage_wf vs → 0 ≤ d < vs_row_limit vs → insertable vs v →
  ∃ vs' old, vstorage_update (len v) vs v d = Some (0, old, vs') ∧ vstorage_query vs d = Some old ∧
    vstorage_wf vs' ∧ vs_row_limit vs' = vs_row_limit vs ∧ wide vs' = wide vs ∧
    zlen (data_file vs') = zlen (data_file vs) + len v ∧
    ∀ e, contents vs' e = if decide (e = d) then data v else contents vs e.
Proof.
  intros Hw Hd Hi. unfold vstorage_update. rewrite vstorage_query_spec by done. cbn [mbind option_bind].
  destruct (Z.eqb_spec (len v) 0) as [E|E].
  - destruct Hw as [Hlim Hlocs Hoff Hsz Hrow]. destruct (zget_lt (locs vs) d) as [l Hl]; [lia|].
    rewrite Hl. cbn [mbind option_bind]. rewrite zset_in by lia. cbn [mbind option_bind].
    eexists _, _. split; [done|]. split; [done|]. destruct Hi as (Hz & _ & _). rewrite E in Hz.
    assert (data v = []) as Hnil by (destruct (data v); [done|unfold zlen in Hz; simpl in Hz; lia]).
    cbn [set_vs vs_row_limit wide data_file]. split_and!; try done; [|lia|].
    + split; cbn [set_vs vs_row_limit locs vs_offset data_file]; rewrite ?zlen_insert; try done.
      intros e l'. destruct (decide (e = d)) as [->|Hne].
      * rewrite zget_insert_eq by lia. intros [= <-]. destruct (Hrow d l Hl) as (? & ? & ?).
        unfold loc_ok. simpl. lia.
      * rewrite zget_insert_ne by lia. apply Hrow.
    + intros e. unfold contents. cbn [set_vs locs data_file]. case_decide as Ee.
      * subst e. rewrite zget_insert_eq by lia. by rewrite Hnil.
      * by rewrite zget_insert_ne by lia.
  - destruct (vstorage_insert_spec vs v d Hw Hd Hi) as (vs' & -> & ?). cbn [mbind option_bind].
    eexists _, _. split; [done|]. split; done.
Qed.

Lemma data_end_acc ls B acc :
  (∀ l, l ∈ ls → 0 ≤ loc_offset l + loc_len l ≤ B) → B < 2 ^ 64 → 0 ≤ acc ≤ B →
  acc ≤ foldl end_step acc ls ≤ B ∧
  ∀ l, l ∈ ls → loc_offset l + loc_len l ≤ foldl end_step acc ls.
Proof.
  revert acc. induction ls as [|l ls IH]; intros acc Hls HB Hacc.
  { split; [simpl; lia|]. intros l Hl. by apply not_elem_of_nil in Hl. }
  cbn [foldl]. assert (0 ≤ loc_offset l + loc_len l ≤ B) as Hl by (apply Hls; left).
  assert (acc ≤ end_step acc l ≤ B ∧ loc_offset l + loc_len l ≤ end_step acc l) as Hacc'.
  { unfold end_step. rewrite u64_small by lia. destruct (_ >? acc) eqn:E; zb; lia. }
  destruct (IH (end_step acc l)) as [H1 H2]; [intros l' Hl'; apply Hls; by right|done|lia|].
  split; [lia|]. intros l' [->|Hl']%elem_of_cons; [lia|by apply H2].
Qed.

Lemma vstorage_recover_spec vs d :
  vstorage_wf vs → 0 ≤ d < vs_row_limit vs →
  ∃ vs', vstorage_recover true true vs d = Some (0, vs') ∧ vstorage_wf vs' ∧
    vs_row_limit vs' = vs_row_limit vs ∧ wide vs' = wide vs ∧
    zlen (data_file vs') ≤ zlen (data_file vs) ∧
    ∀ e, contents vs' e = if decide (e < d) then contents vs e else [].
Proof.
  intros [Hlim Hlocs Hoff Hsz Hrow] Hd. unfold vstorage_recover.
  rewrite Z.geb_leb, (proj2 (Z.leb_gt _ _)) by lia. rewrite u32_small by lia.
  destruct (zfill_spec (locs vs) d (vs_row_limit vs - d) (Loc 0 0)) as (ls & -> & Hl & Hget); [lia..|].
  cbn [mbind option_bind]. set (E := data_end (take (Z.to_nat d) ls)).
  assert (∀ e l, e < d → ls⟦e⟧ = Some l → l ∈ take (Z.to_nat d) ls ∧ (locs vs)⟦e⟧ = Some l) as Hkeep.
  { intros e l He Hel. pose proof (zget_Some_range _ _ _ Hel). split.
    - rewrite zget_lookup in Hel by lia. apply (list_elem_of_lookup_2 _ (Z.to_nat e)).
      by rewrite lookup_take_lt by lia.
    - rewrite Hget, decide_False in Hel by lia. done. }
  assert (0 ≤ E ≤ zlen (data_file vs) ∧
    ∀ l, l ∈ take (Z.to_nat d) ls → loc_offset l + loc_len l ≤ E) as [HE Hmax].
  { apply data_end_acc; [|done|pose proof (zlen_nonneg (data_file vs)); lia].
    intros l [n Hn]%list_elem_of_lookup_1. apply lookup_take_Some in Hn as [Hn Hlt].
    rewrite <- zget_of_nat in Hn. destruct (Hkeep (Z.of_nat n) l) as [_ Hl']; [lia|done|].
    destruct (Hrow _ _ Hl') as (? & ? & ?). lia. }
  cbn [set_vs data_file]. simpl negb. rewrite (proj2 (Z.ltb_ge _ _)) by lia. cbv iota.
  eexists. split; [done|]. cbn [set_vs vs_row_limit wide data_file].
  assert (zlen (take (Z.to_nat E) (data_file vs)) = E) as HlE by (unfold zlen in *; rewrite length_take; lia).
  split; [|split_and!; [done|done|lia|]].
  - split; cbn [set_vs vs_row_limit locs vs_offset data_file]; try lia.
    intros e l Hel. destruct (decide (e < d)) as [He|He].
    + destruct (Hkeep e l He Hel) as [Hin Hl']. destruct (Hrow _ _ Hl') as (? & ? & _).
      specialize (Hmax l Hin). unfold loc_ok. lia.
    + pose proof (zget_Some_range _ _ _ Hel). rewrite Hget, decide_True in Hel by lia.
      injection Hel as <-. unfold loc_ok. simpl. lia.
  - intros e. unfold contents. cbn [set_vs locs data_file]. case_decide as He.
    + destruct (ls⟦e⟧) as [l|] eqn:Hel.
      * destruct (Hkeep e l He Hel) as [Hin Hl']. rewrite Hl'. destruct (Hrow _ _ Hl') as (? & ? & _).
        specialize (Hmax l Hin). unfold value_at. rewrite <- (take_drop (Z.to_nat E) (data_file vs)) at 2.
        symmetry. apply value_at_app. unfold loc_ok. lia.
      * rewrite Hget, decide_False in Hel by lia. by rewrite Hel.
    + destruct (ls⟦e⟧) as [l|] eqn:Hel; [|done]. pose proof (zget_Some_range _ _ _ Hel).
      rewrite Hget, decide_True in Hel by lia. by injection Hel as <-.
Qed.

(** ** Refinement *)

Inductive vstorage_op :=
| VInsert (d : Z) (v : low_data_struct)
| VUpdate (d : Z) (v : low_data_struct)
| VRecover (d : Z).

(** System calls succeed: [write] appends all bytes. *)
Definition run_vop (vs : vstorage_manager) (op : vstorage_op) : option (Z * vstorage_manager) :=
  match op with
  | VInsert d v => vstorage_insert (len v) vs v d
  | VUpdate d v => '(rc, _, vs) ← vstorage_update (len v) vs v d; Some (rc, vs)
  | VRecover d => vstorage_recover true true vs d
  end.

Fixpoint run_vops (vs : vstorage_manager) (ops : list vstorage_op) : option vstorage_manager :=
  match ops with
  | [] => Some vs
  | op :: ops => '(rc, vs) ← run_vop vs op; if rc =? 0 then run_vops vs ops else None
  end.

Definition spec_vop (f : Z → list Z) (op : vstorage_op) : Z → list Z :=
  match op with
  | VInsert d v | VUpdate d v => λ e, if decide (e = d) then data v else f e
  | VRecover d => λ e, if decide (e < d) then f e else []
  end.

(** [n] bounds the size the data file can have; a column with 16-bit lengths is not
    meant for values of 65535 bytes and more. *)
Fixpoint vops_ok (w : bool) (limit n : Z) (ops : list vstorage_op) : Prop :=
  match ops with
  | [] => True
  | op :: ops =>
      match op with
      | VInsert d v | VUpdate d v =>
          0 ≤ d < limit ∧ zlen (data v) = len v ∧ (w = false → len v < 0xFFFF) ∧
          n + len v < 2 ^ 64 ∧ vops_ok w limit (n + len v) ops
      | VRecover d => 0 ≤ d < limit ∧ vops_ok w limit n ops
      end
  end.

Lemma run_vops_spec vs f n ops :
  vstorage_wf vs → (∀ e, contents vs e = f e) → zlen (data_file vs) ≤ n →
  vops_ok (wide vs) (vs_row_limit vs) n ops →
  ∃ vs', run_vops vs ops = Some vs' ∧ vstorage_wf vs' ∧ vs_row_limit vs' = vs_row_limit vs ∧
    ∀ e, contents vs' e = foldl spec_vop f ops e.
Proof.
  revert vs f n. induction ops as [|op ops IH]; intros vs f n Hw Hf Hn Hok; [by exists vs|].
  cbn [run_vops foldl]. destruct op as [d v|d v|d]; cbn [vops_ok run_vop spec_vop] in *.
  - destruct Hok as (Hd & Hz & H16 & Hmax & Hok).
    destruct (vstorage_insert_spec vs v d Hw Hd) as (vs1 & -> & Hw1 & Hl1 & Hwd & Hs1 & Hc1);
      [split_and!; first [done|lia|intros E; specialize (H16 E); lia]|]. cbn [mbind option_bind]. simpl (0 =? 0). cbv iota.
    destruct (IH vs1 (spec_vop f (VInsert d v)) (n + len v) Hw1) as (vs2 & ? & ? & ? & ?);
      [intros e; rewrite Hc1; simpl; by rewrite Hf|lia|by rewrite Hwd, Hl1|].
    exists vs2. split_and!; try done. congruence.
  - destruct Hok as (Hd & Hz & H16 & Hmax & Hok).
    destruct (vstorage_update_spec vs v d Hw Hd) as (vs1 & old & -> & _ & Hw1 & Hl1 & Hwd & Hs1 & Hc1);
      [split_and!; first [done|lia|intros E; specialize (H16 E); lia]|]. cbn [mbind option_bind]. simpl (0 =? 0). cbv iota.
    destruct (IH vs1 (spec_vop f (VUpdate d v)) (n + len v) Hw1) as (vs2 & ? & ? & ? & ?);
      [intros e; rewrite Hc1; simpl; by rewrite Hf|lia|by rewrite Hwd, Hl1|].
    exists vs2. split_and!; try done. congruence.
  - destruct Hok as (Hd & Hok).
    destruct (vstorage_recover_spec vs d Hw Hd) as (vs1 & -> & Hw1 & Hl1 & Hwd & Hs1 & Hc1).
    cbn [mbind option_bind]. simpl (0 =? 0). cbv iota.
    destruct (IH vs1 (spec_vop f (VRecover d)) n Hw1) as (vs2 & ? & ? & ? & ?);
      [intros e; rewrite Hc1; simpl; by rewrite Hf|lia|by rewrite Hwd, Hl1|].
    exists vs2. split_and!; try done. congruence.
Qed.

(** C39: a variable-length column behaves as a map from rows to byte strings.
    As long as the system calls succeed, every sequence of inserts, updates (of values
    shorter than 65535 bytes where the lengths have 16 bits) and
    recoveries succeeds and a query returns the bytes the sequence left in the
    row (the empty string is null): appending and truncating the data file never
    changes the value of a row that is kept. *)
Theorem vstorage_refines vs n ops d :
  vstorage_wf vs → zlen (data_file vs) ≤ n → vops_ok (wide vs) (vs_row_limit vs) n ops →
  0 ≤ d < vs_row_limit vs →
  ∃ vs', run_vops vs ops = Some vs' ∧ vstorage_wf vs' ∧
    vstorage_query vs' d =
    Some (Ptr (LowData HI_TYPE_NULL (foldl spec_vop (contents vs) ops d)
                 (zlen (foldl spec_vop (contents vs) ops d)))).
Proof.
  intros Hw Hn Hok Hd. destruct (run_vops_spec vs (contents vs) n ops Hw) as (vs' & Hr & Hw' & Hl & Hc);
    [done|done|done|]. exists vs'. split; [done|]. split; [done|].
  rewrite vstorage_query_spec by (done || lia). by rewrite Hc.
Qed.

Lemma vstorage_init_empty old limit :
  0 < limit → limit * 12 + 8 < 2 ^ 31 →
  ∃ vs, vstorage_init true old 0 [] [] limit = Ptr vs ∧ vstorage_wf vs ∧ vs_row_limit vs = limit ∧
    wide vs = negb old ∧ data_file vs = [] ∧ ∀ d, contents vs d = [].
Proof.
  intros Hl Hmax. unfold vstorage_init. simpl (negb true). cbv iota.
  assert (map_index (negb old) [] limit = replicate (Z.to_nat limit) (Loc 0 0)) as ->.
  { unfold map_index. assert (10 ≤ loc_size (negb old) ≤ 12) by (destruct old; simpl; lia).
    rewrite u32_small, s32_small by nia. rewrite (proj2 (Z.ltb_lt _ _)) by (unfold zlen; simpl; nia).
    simpl. rewrite Nat.sub_0_r. apply take_ge. by rewrite length_replicate. }
  eexists. split; [done|]. cbn [vs_row_limit wide data_file]. split_and!; try done.
  - split; cbn [vs_row_limit locs vs_offset data_file]; try done; try lia.
    + rewrite zlen_replicate. lia.
    + intros d l Hl'. pose proof (zget_Some_range _ _ _ Hl') as Hr. rewrite zlen_replicate in Hr.
      rewrite zget_replicate in Hl' by lia. injection Hl' as <-. unfold loc_ok, zlen. simpl. lia.
  - intros d. unfold contents. cbn [locs data_file]. destruct (_⟦d⟧) as [l|]; [|done].
    unfold value_at. by rewrite drop_nil, take_nil.
Qed.

Lemma vstorage_refines_witness :
  ∃ vs vs', vstorage_init true false 0 [] [] 4 = Ptr vs ∧
    run_vops vs [VInsert 0 (LowData HI_TYPE_STRING [1; 2; 3] 3); VInsert 1 (LowData HI_TYPE_STRING [4] 1);
                 VUpdate 0 (LowData HI_TYPE_STRING [5; 6] 2); VRecover 1] = Some vs' ∧
    vstorage_query vs' 0 = Some (Ptr (LowData HI_TYPE_NULL [5; 6] 2)).
Proof.
  destruct (vstorage_init_empty false 4) as (vs & Hi & Hw & Hl & Hwd & Hf & Hc); [lia|lia|].
  destruct (vstorage_refines vs 0
    [VInsert 0 (LowData HI_TYPE_STRING [1; 2; 3] 3); VInsert 1 (LowData HI_TYPE_STRING [4] 1);
     VUpdate 0 (LowData HI_TYPE_STRING [5; 6] 2); VRecover 1] 0) as (vs' & Hr & _ & Hq).
  - exact Hw.
  - rewrite Hf. done.
  - rewrite Hl. simpl. unfold zlen. simpl. repeat split; lia.
  - lia.
  - exists vs, vs'. split; [exact Hi|]. split; [exact Hr|]. rewrite Hq. reflexivity.
Defined.

(** A short [write] leaves bytes behind the recorded end of the file: the next
    value is appended after them but located at the recorded end, so the row
    reads back as other bytes. *)
Theorem short_write_corrupts :
  ∃ vs vs1 vs2, vstorage_init true false 0 [] [] 4 = Ptr vs ∧
    vstorage_insert 1 vs (LowData HI_TYPE_STRING [1; 2; 3] 3) 0 = Some (-1, vs1) ∧
    vstorage_insert 2 vs1 (LowData HI_TYPE_STRING [8; 9] 2) 1 = Some (0, vs2) ∧
    vstorage_query vs2 1 = Some (Ptr (LowData HI_TYPE_NULL [1; 8] 2)).
Proof. eexists _, _, _. repeat (split; [vm_compute; reflexivity|]). vm_compute. reflexivity. Qed.
