(* ===== verification/HashMemCompress.v ===== *)
(** * Compressed hash index ([src/storage/docdb/hash_memcompress.c])

    A full segment's hash index is rewritten as an array of [hash_seeks], one
    per used bucket and sorted by hash, over an array with the document ids of
    all buckets one after the other.  Lookups search the seeks by bisection.

    The data file is an array of 32-bit words; the byte offsets of the seeks are
    multiples of four.  [qsort] is the C library's sort, known by its contract
    only: the order of equal elements is unspecified. *)

From Stdlib Require Import ZArith Lia Sorted.
From stdpp Require Import base option list numbers sets sorting.
From S2P Require Import Prelude FileOp LowData RowidList SetOperator Doclist HashIndex HashIndexSpec.

Record hash_seeks := Seek { seek_hash : Z; seek_offset : Z; seek_len : Z }.

Record hash_compress_manager := HashCompress {
  info_mmap : list Z;                    (* 64 bytes, as 16 words *)
  index_mmap : option (list hash_seeks); (* [None] is NULL *)
  data_mmap : option (list Z);           (* words *)
  bucket_count : Z;
  doc_count : Z;
  hash_mod : Z;
  hc_row_limit : Z;
  hash_compress_num : Z
}.

(** The three files of a compressed index; a missing file is empty. *)
Record compress_files := CFiles {
  info_file : list Z;
  index_file : list hash_seeks;
  data_file : list Z
}.

(** Outcomes of the calls that map the three files. *)
Record compress_io := CIo { io_info : bool; io_index : bool; io_data : bool; io_remap : bool }.

Definition all_io : compress_io := CIo true true true true.

Definition map_seeks (io : bool) (f : list hash_seeks) (n : Z) :=
  get_mmap_memory (Seek 0 0 0) 16 io f n.
Definition map_words (io : bool) (f : list Z) (n : Z) := get_mmap_memory 0 4 io f n.

(** The manager and the files after the call; the manager is NULL on failure. *)
Definition hash_commpress_init (io : compress_io) (fs : compress_files) (row_limit num : Z)
    : option (ptr hash_compress_manager * compress_files) :=
  let '(info, fi) := map_words (io_info io) (info_file fs) 16 in
  match info with
  | None => Some (NULL, fs)
  | Some info =>
      let fs := CFiles fi (index_file fs) (data_file fs) in
      bc ← info⟦0⟧;
      dc ← info⟦1⟧;
      let c := HashCompress info None None bc dc (u32 (row_limit + 1)) row_limit num in
      if bc =? 0 then Some (Ptr c, fs)
      else
        let '(index, fx) := map_seeks (io_index io) (index_file fs) bc in
        match index with
        | None => Some (NULL, fs)
        | Some index =>
            let fs := CFiles fi fx (data_file fs) in
            let '(data, fd) := map_words (io_data io) (data_file fs) dc in
            match data with
            | None => Some (NULL, fs)
            | Some data =>
                Some (Ptr (HashCompress info (Some index) (Some data) bc dc
                             (u32 (row_limit + 1)) row_limit num), CFiles fi fx fd)
            end
        end
  end.

(** The order of two bucket numbers. *)
Definition hash_index_compare (bs : list hash_bucket) (p1 p2 : Z) : Z :=
  let h b := default 0 (hash_value <$> bs⟦b⟧) in
  if h p1 >? h p2 then 1 else if h p1 <? h p2 then -1 else 0.

(** [while (j < hash_mod && bucket[hash_bucket[j]].hash_value == 0) j++] *)
Fixpoint skip_free (bs : list hash_bucket) (order : list Z) : option Z :=
  match order with
  | [] => Some 0
  | b :: order =>
      bk ← bs⟦b⟧;
      if hash_value bk =? 0 then j ← skip_free bs order; Some (j + 1) else Some 0
  end.

(** [while (p != docids->tail)]: whole nodes up to the tail node, then the rest of
    the [stop - cur] bytes from the tail node. *)
Fixpoint copy_nodes (fuel : nat) (l : rowid_list) (p : nat) (data : list Z) (cur stop : Z)
    : option (list Z) :=
  match fuel with
  | O => None
  | S fuel =>
      nd ← nodes l !! p;
      if is_tail l p then
        src ← zsub (rowid_array nd) 0 (u32 (stop - cur) / 4);
        zcopy data (cur / 4) src
      else
        data ← zcopy data (cur / 4) (rowid_array nd);
        copy_nodes fuel l (S p) data (u32 (cur + ROWID_ARRAY_SIZE * 4)) stop
  end.

(** The loop over the used buckets; [k] is [i - j]. *)
Fixpoint load_buckets (h : hash_index_manager) (order : list Z) (k : Z)
    (index : list hash_seeks) (data : list Z) (cur : Z)
    : option (list hash_seeks * list Z * Z) :=
  match order with
  | [] => Some (index, data, cur)
  | b :: order =>
      bk ← (buckets h)⟦b⟧;
      docids ← chain_rowids h (offset bk);
      match docids with
      | NULL => None
      | Ptr l =>
          let seek := Seek (hash_value bk) cur (u32 (4 * rowid_num l)) in
          index ← index⟦k := seek⟧;
          let stop := u32 (seek_offset seek + seek_len seek) in
          data ← copy_nodes (S (length (nodes l))) l 0 data cur stop;
          load_buckets h order (k + 1) index data stop
      end
  end.

Section load.
Context (qsort : (Z → Z → Z) → list Z → list Z).

(** [fs] are the files an earlier attempt may have left; they are removed first.
    A NULL mapping has no cells, so that writing through it is an error. *)
Definition hash_compress_load (io : compress_io) (fs : compress_files)
    (hash_index : ptr hash_index_manager) (num : Z)
    : option (ptr hash_compress_manager * compress_files) :=
  match hash_index with
  | NULL => Some (NULL, fs)
  | Ptr h =>
      '(c, fs) ← hash_commpress_init io (CFiles [] [] []) (limit h) num;
      match c with
      | NULL => Some (NULL, fs)
      | Ptr c =>
          let hash_bucket := seqZ 0 (u32 (hashmod h + 1)) in
          let order := qsort (hash_index_compare (buckets h)) hash_bucket in
          order ← zsub order 0 (hash_mod c);
          j ← skip_free (buckets h) order;
          let bc := u32 (hash_mod c - j) in
          let index := fst (map_seeks (io_index io) (index_file fs) bc) in
          let data := fst (map_words (io_data io) (data_file fs) (limit h)) in
          '(ix, dt, cur) ← load_buckets h (drop (Z.to_nat j) order) 0
                             (default [] index) (default [] data) 0;
          let mapped := fst (map_words (io_remap io) dt (cur / 4)) in
          info ← (info_mmap c)⟦0 := bc⟧;
          info ← info⟦1 := cur / 4⟧;
          Some (Ptr (HashCompress info ((λ _, ix) <$> index) mapped bc (cur / 4)
                       (hash_mod c) (hc_row_limit c) num),
                CFiles info ix dt)
      end
  end.
End load.

(** The bisection; the result is the last entry looked at. *)
Fixpoint seek_search (fuel : nat) (index : list hash_seeks) (hv left right : Z) (last : option hash_seeks)
    : option hash_seeks :=
  if left <=? right then
    match fuel with
    | O => None
    | S fuel =>
        let mid := u32 (left + right + 1) / 2 in
        hseek ← index⟦mid⟧;
        if seek_hash hseek <? hv then seek_search fuel index hv (u32 (mid + 1)) right (Some hseek)
        else if seek_hash hseek >? hv then
          if mid =? 0 then Some hseek
          else seek_search fuel index hv left (mid - 1) (Some hseek)
        else Some hseek
    end
  else last.

Section query.
Context (get_hash_value : low_data_struct → Z).

(** The test [hash_value < 0] of the code is on an unsigned value: never true. *)
Definition hash_compress_query (c : hash_compress_manager) (data : low_data_struct)
    : option (ptr rowid_list) :=
  let hv := get_hash_value data in
  let rlist := Ptr rowid_list_init in
  if bucket_count c =? 0 then Some rlist
  else
    index ← index_mmap c;
    hseek ← seek_search (Z.to_nat (bucket_count c)) index hv 0 (bucket_count c - 1) None;
    if negb (seek_hash hseek =? hv) then Some rlist
    else
      mem ← data_mmap c;
      src ← zsub mem (seek_offset hseek / 4) (seek_len hseek / 4);
      rowid_list_batch_add rlist src (seek_len hseek / 4).
End query.

(** [if (hash_compress == NULL) ; return;] returns in every case: the files stay. *)
Definition hash_compress_destroy (c : ptr hash_compress_manager) (fs : compress_files)
    : compress_files := fs.

(** ** Copying *)

(** The ids from node [p] on. *)
Definition rest (l : rowid_list) (p : nat) : list Z := drop (BLK * p) (elems l).

Lemma rest_node l p nd :
  list_wf l → nodes l !! p = Some nd →
  rest l p = take (Z.to_nat (rowid_num l) - BLK * p) (rowid_array nd ++ flat (drop (S p) (nodes l))).
Proof.
  intros [Hn Hw Hr] Hp. unfold rest, elems, flat.
  rewrite skipn_firstn_comm, (drop_concat_blocks BLK) by by apply nodes_blocks.
  f_equal. rewrite <- fmap_drop. rewrite (drop_S _ nd) by done. done.
Qed.

Lemma copy_nodes_spec fuel l p data w :
  list_tight l → (p < length (nodes l))%nat → (length (nodes l) - p ≤ fuel)%nat →
  0 ≤ w → w + zlen (rest l p) ≤ zlen data → 4 * (w + zlen (rest l p)) < 2 ^ 32 →
  copy_nodes fuel l p data (4 * w) (4 * (w + zlen (rest l p))) = zcopy data w (rest l p).
Proof.
  intros Ht. revert p data w. induction fuel as [|fuel IH]; intros p data w Hp Hf Hw Hd Hmax; [lia|].
  pose proof Ht as [[Hn Hns Hr] Hc Htl].
  destruct (lookup_lt_is_Some_2 (nodes l) p Hp) as [nd Hnd].
  pose proof (rest_node l p nd (lt_wf _ Ht) Hnd) as Er.
  assert (length (rowid_array nd) = BLK) as Hlen
    by (eapply (Forall_lookup_1 _ _ _ _ Hns) in Hnd; apply Hnd).
  cbn [copy_nodes]. rewrite Hnd. cbn [mbind option_bind].
  replace (4 * w / 4) with w by (rewrite Z.mul_comm, Z.div_mul; lia).
  unfold is_tail. rewrite Htl. destruct (nodes l) as [|n0 ns] eqn:E; [simpl in Hp; lia|].
  rewrite <- E in *. clear E. case_bool_decide as Hlast.
  - assert (zlen (rest l p) = rowid_num l - ROWID_ARRAY_SIZE * Z.of_nat p) as Hlr.
    { unfold rest, zlen. rewrite length_drop. pose proof (zlen_elems l (lt_wf _ Ht)) as He.
      unfold zlen, BLK, ROWID_ARRAY_SIZE in *. lia. }
    rewrite u32_small by (pose proof (zlen_nonneg (rest l p)); lia).
    replace ((4 * (w + zlen (rest l p)) - 4 * w) / 4) with (zlen (rest l p))
      by (replace (4 * (w + zlen (rest l p)) - 4 * w) with (zlen (rest l p) * 4) by lia;
          rewrite Z.div_mul; lia).
    assert (zsub (rowid_array nd) 0 (zlen (rest l p)) = Some (rest l p)) as ->; [|done].
    unfold zsub. rewrite decide_True
      by (unfold zlen, BLK, ROWID_ARRAY_SIZE in *; pose proof (length (rest l p)); lia).
    f_equal. rewrite drop_0, Hlr, Er, take_app_le
      by (unfold zlen, BLK, ROWID_ARRAY_SIZE in *; lia).
    f_equal. unfold BLK, ROWID_ARRAY_SIZE. lia.
  - assert (rest l p = rowid_array nd ++ rest l (S p)) as Es.
    { rewrite Er. destruct (lookup_lt_is_Some_2 (nodes l) (S p)) as [nd' Hnd']; [lia|].
      rewrite take_app_ge by (unfold zlen, BLK, ROWID_ARRAY_SIZE in *; lia).
      rewrite (rest_node l (S p) nd' (lt_wf _ Ht) Hnd').
      f_equal. rewrite (drop_S _ nd') by done. unfold flat. rewrite fmap_cons, Hlen.
      cbn [concat]. f_equal. unfold BLK, ROWID_ARRAY_SIZE. lia. }
    rewrite Es, zlen_app in Hd, Hmax |- *.
    assert (zlen (rowid_array nd) = ROWID_ARRAY_SIZE) as Hz
      by (unfold zlen, BLK, ROWID_ARRAY_SIZE in *; lia).
    pose proof (zlen_nonneg (rest l (S p))).
    destruct (zcopy_spec data w (rowid_array nd)) as (d1 & Hd1 & Hl1 & _); [lia|lia|].
    rewrite Hd1. cbn [mbind option_bind]. rewrite <- (zcopy_app _ _ _ _ _ Hd1).
    rewrite u32_small by (unfold ROWID_ARRAY_SIZE in *; lia).
    replace (4 * w + ROWID_ARRAY_SIZE * 4) with (4 * (w + zlen (rowid_array nd))) by lia.
    rewrite Z.add_assoc. apply IH; lia.
Qed.

(** ** The layout of the compressed files *)

Section layout.
Context (hv : Z → Z) (docs : Z → list Z).

Definition body (bs : list Z) : list Z := concat (docs <$> bs).

Fixpoint layout (w : Z) (bs : list Z) : list hash_seeks :=
  match bs with
  | [] => []
  | b :: bs => Seek (hv b) (4 * w) (4 * zlen (docs b)) :: layout (w + zlen (docs b)) bs
  end.

Lemma body_cons b bs : body (b :: bs) = docs b ++ body bs.
Proof. done. Qed.

Lemma length_layout w bs : length (layout w bs) = length bs.
Proof. revert w. induction bs as [|b bs IH]; intros w; simpl; [done|]. by rewrite IH. Qed.

Lemma layout_hash w bs : seek_hash <$> layout w bs = hv <$> bs.
Proof. revert w. induction bs as [|b bs IH]; intros w; [done|]. cbn [layout]. by rewrite !fmap_cons, IH. Qed.

(** An entry tells where its documents are. *)
Lemma layout_find w bs e pre :
  zlen pre = w → e ∈ layout w bs →
  ∃ b, b ∈ bs ∧ seek_hash e = hv b ∧ seek_len e = 4 * zlen (docs b) ∧
    zsub (pre ++ body bs) (seek_offset e / 4) (zlen (docs b)) = Some (docs b).
Proof.
  revert w pre. induction bs as [|b bs IH]; intros w pre Hw He; cbn [layout] in He.
  { by apply not_elem_of_nil in He. }
  apply elem_of_cons in He as [->|He].
  - exists b. split; [left|]. split; [done|]. split; [done|]. cbn [seek_offset].
    rewrite Z.mul_comm, Z.div_mul by lia. unfold zsub. rewrite body_cons.
    rewrite decide_True by (rewrite !zlen_app; pose proof (zlen_nonneg (body bs)); unfold zlen in *; lia).
    unfold zlen in *. rewrite drop_app_length' by lia. by rewrite Nat2Z.id, take_app_length.
  - destruct (IH (w + zlen (docs b)) (pre ++ docs b)) as (b' & Hb' & ? & ? & Hz);
      [rewrite zlen_app; lia|done|].
    exists b'. split; [by right|]. split; [done|]. split; [done|].
    by rewrite body_cons, app_assoc.
Qed.
End layout.

Section load_spec.
Context (get_hash_value : low_data_struct → Z) (nh : Z) `{!HashLaws get_hash_value nh}.
Context (N : Z) (kh : key_history) (slot : key → Z) (hv : Z → Z) (h : hash_index_manager).
Context (Hinv : index_inv nh N kh slot hv h).

Definition bdocs (b : Z) : list Z := slot_docs (slots slot kh) b.

(** A bucket in use: its documents can be listed. *)
Lemma bucket_chain b :
  0 ≤ b ≤ N → hv b ≠ 0 →
  ∃ l, chain_rowids h (head_off (slots slot kh) b) = Some (Ptr l) ∧ list_tight l ∧
    elems l = bdocs b ∧ elems l ≠ [].
Proof.
  intros Hb Hne. apply (bucket_used get_hash_value nh N kh slot hv h Hinv) in Hne as (k & Hk & <-); [|done].
  destruct (chain_rowids_spec nh N kh slot hv h Hinv k Hk) as (l & Hl & Ht & He).
  exists l. unfold bdocs. rewrite (key_docs nh N kh slot hv h Hinv k Hk).
  split; [done|]. split; [done|]. split; [done|]. rewrite He.
  rewrite <- (key_docs nh N kh slot hv h Hinv k Hk). apply slot_docs_nonempty. eauto.
Qed.

Lemma load_buckets_spec bs k index data w :
  Forall (λ b, 0 ≤ b ≤ N ∧ hv b ≠ 0) bs →
  0 ≤ k → k + zlen bs ≤ zlen index → 0 ≤ w → w + zlen (body bdocs bs) ≤ zlen data →
  4 * zlen data < 2 ^ 32 →
  ∃ index' data', load_buckets h bs k index data (4 * w) =
      Some (index', data', 4 * (w + zlen (body bdocs bs))) ∧
    zcopy index k (layout hv bdocs w bs) = Some index' ∧
    zcopy data w (body bdocs bs) = Some data'.
Proof.
  intros Hbs. revert k index data w. induction Hbs as [|b bs [Hb Hne] _ IH];
    intros k index data w Hk Hi Hw Hd Hmax.
  { exists index, data. cbn [load_buckets layout]. unfold body, zlen in *. simpl in *.
    rewrite Z.add_0_r, !zcopy_nil by (unfold zlen; lia). done. }
  rewrite body_cons, zlen_app in *. cbn [load_buckets layout].
  rewrite (ti_bucket _ _ _ _ (xi_table _ _ _ _ _ _ Hinv)) by done.
  cbn [mbind option_bind offset hash_value].
  destruct (bucket_chain b Hb Hne) as (l & -> & Ht & He & Hnil). cbn [mbind option_bind].
  pose proof (zlen_elems l (lt_wf _ Ht)) as Hnum. rewrite He in Hnum. rewrite <- Hnum.
  pose proof (zlen_nonneg (body bdocs bs)). pose proof (zlen_nonneg (bdocs b)).
  assert (0 < zlen (b :: bs)) as Hpos by (unfold zlen; simpl; lia).
  assert (zlen (b :: bs) = 1 + zlen bs) as Hcons by (unfold zlen; simpl; lia).
  rewrite (u32_small (4 * zlen (bdocs b))) by lia. cbn [seek_offset seek_len].
  rewrite (u32_small (4 * w + 4 * zlen (bdocs b))) by lia.
  rewrite zset_zcopy by lia.
  set (e := Seek (hv b) (4 * w) (4 * zlen (bdocs b))).
  destruct (zcopy_spec index k [e]) as (ix & Hix & Hlx & _); [lia|unfold zlen at 1; simpl; lia|].
  rewrite Hix. cbn [mbind option_bind].
  assert (rest l 0 = bdocs b) as Er by (unfold rest; by rewrite Nat.mul_0_r).
  assert (nodes l ≠ []) as Hns by (intros En; apply Hnil; unfold elems; rewrite En; apply take_nil).
  pose proof (copy_nodes_spec (S (length (nodes l))) l 0 data w Ht) as Hcp. rewrite Er in Hcp.
  replace (4 * w + 4 * zlen (bdocs b)) with (4 * (w + zlen (bdocs b))) by lia.
  rewrite Hcp; [|destruct (nodes l); [done|simpl; lia]|lia|lia|lia|lia].
  destruct (zcopy_spec data w (bdocs b)) as (dt & Hdt & Hld & _); [lia|lia|].
  rewrite Hdt. cbn [mbind option_bind].
  destruct (IH (k + 1) ix dt (w + zlen (bdocs b))) as (ix' & dt' & -> & Hix' & Hdt'); [lia..|].
  exists ix', dt'. split; [do 2 f_equal; lia|]. split.
  - change (e :: layout hv bdocs (w + zlen (bdocs b)) bs) with ([e] ++ layout hv bdocs (w + zlen (bdocs b)) bs).
    rewrite <- (zcopy_app _ _ _ _ _ Hix). exact Hix'.
  - by rewrite <- (zcopy_app _ _ _ _ _ Hdt).
Qed.

(** The documents of distinct buckets are distinct. *)
Lemma body_length bs : NoDup bs → zlen (body bdocs bs) ≤ N.
Proof.
  intros Hnd. destruct (ti_rows _ _ _ _ (xi_table _ _ _ _ _ _ Hinv)) as (m & _ & Hm).
  pose proof (ri_desc _ _ _ Hm) as Hdesc. pose proof (desc_NoDup _ Hdesc) as Hnd'.
  pose proof (ti_N _ _ _ _ (xi_table _ _ _ _ _ _ Hinv)) as HN.
  assert (∀ d, d ∈ body bdocs bs → d ∈ (slots slot kh).*1) as Hsub.
  { intros d Hd. unfold body in Hd. apply list_elem_of_In, in_concat in Hd as (x & Hx & Hd).
    apply list_elem_of_In, list_elem_of_fmap in Hx as (b & -> & Hb). apply list_elem_of_In in Hd.
    apply elem_of_slot_docs in Hd. by apply (list_elem_of_fmap_2 fst) in Hd. }
  assert (NoDup (body bdocs bs)) as Hbody.
  { unfold body. clear Hsub. induction Hnd as [|b bs Hb Hnd IH]; [constructor|]. rewrite fmap_cons.
    cbn [concat]. apply NoDup_app. split; [|split; [|exact IH]].
    - unfold bdocs, slot_docs.
      apply (sublist_NoDup _ (slots slot kh).*1); [done|].
      apply fmap_sublist, sublist_filter.
    - intros d Hd Hin. apply Hb. apply list_elem_of_In, in_concat in Hin as (x & Hx & Hin).
      apply list_elem_of_In, list_elem_of_fmap in Hx as (b' & -> & Hb'). apply list_elem_of_In in Hin.
      apply elem_of_slot_docs in Hd. apply elem_of_slot_docs in Hin.
      by rewrite (NoDup_fst_unique (slots slot kh) d b b'). }
  assert (body bdocs bs ⊆+ (slots slot kh).*1) as Hs by (apply NoDup_submseteq; done).
  apply submseteq_length in Hs.
  assert (zlen (slots slot kh).*1 ≤ Z.max 0 N) as Hl.
  { apply desc_length; [done|]. intros v ([d b] & -> & Hin)%list_elem_of_fmap.
    by apply (ri_range _ _ _ Hm) in Hin as [? _]. }
  unfold zlen in *. lia.
Qed.
End load_spec.

(** ** Sorting *)

(** A comparison function that [qsort] accepts: the sign is antisymmetric and
    the order transitive. *)
Record comparator (cmp : Z → Z → Z) : Prop := {
  cmp_antisym : ∀ x y, 0 < cmp x y ↔ cmp y x < 0;
  cmp_trans : ∀ x y z, cmp x y ≤ 0 → cmp y z ≤ 0 → cmp x z ≤ 0
}.

Class QsortLaws (qsort : (Z → Z → Z) → list Z → list Z) : Prop := {
  qsort_perm : ∀ cmp l, comparator cmp → qsort cmp l ≡ₚ l;
  qsort_sorted : ∀ cmp l, comparator cmp → StronglySorted (λ x y, cmp x y ≤ 0) (qsort cmp l)
}.

(** An implementation of [qsort]. *)
Definition cmp_le (cmp : Z → Z → Z) (x y : Z) : Prop := cmp x y ≤ 0.

#[export] Instance cmp_le_dec cmp x y : Decision (cmp_le cmp x y).
Proof. unfold cmp_le. apply _. Defined.

Definition merge_qsort (cmp : Z → Z → Z) (l : list Z) : list Z :=
  merge_sort (cmp_le cmp) l.

Lemma merge_qsort_laws : QsortLaws merge_qsort.
Proof.
  split; intros cmp l [Ha Ht]; unfold merge_qsort.
  - apply merge_sort_Permutation.
  - assert (Transitive (cmp_le cmp)) by exact Ht.
    assert (Total (cmp_le cmp)).
    { intros x y. unfold cmp_le. destruct (decide (cmp x y ≤ 0)); [by left|right].
      assert (cmp y x < 0) by (apply Ha; lia). lia. }
    apply (StronglySorted_merge_sort (cmp_le cmp)).
Qed.

Lemma hash_index_comparator bs : comparator (hash_index_compare bs).
Proof.
  split; unfold hash_index_compare.
  - intros x y. destruct (Z.gtb_spec (default 0 (hash_value <$> bs⟦x⟧)) (default 0 (hash_value <$> bs⟦y⟧)));
      destruct (Z.gtb_spec (default 0 (hash_value <$> bs⟦y⟧)) (default 0 (hash_value <$> bs⟦x⟧)));
      destruct (Z.ltb_spec (default 0 (hash_value <$> bs⟦x⟧)) (default 0 (hash_value <$> bs⟦y⟧)));
      destruct (Z.ltb_spec (default 0 (hash_value <$> bs⟦y⟧)) (default 0 (hash_value <$> bs⟦x⟧))); lia.
  - intros x y z. destruct (Z.gtb_spec (default 0 (hash_value <$> bs⟦x⟧)) (default 0 (hash_value <$> bs⟦y⟧)));
      destruct (Z.gtb_spec (default 0 (hash_value <$> bs⟦y⟧)) (default 0 (hash_value <$> bs⟦z⟧)));
      destruct (Z.gtb_spec (default 0 (hash_value <$> bs⟦x⟧)) (default 0 (hash_value <$> bs⟦z⟧)));
      try lia. intros _ _. destruct (_ <? _); lia.
Qed.

Lemma compare_le bs x y vx vy :
  hash_value <$> bs⟦x⟧ = Some vx → hash_value <$> bs⟦y⟧ = Some vy →
  hash_index_compare bs x y ≤ 0 → vx ≤ vy.
Proof.
  intros Hx Hy. unfold hash_index_compare. rewrite Hx, Hy. simpl.
  destruct (Z.gtb_spec vx vy); lia.
Qed.

(** Free buckets (hash 0) come first. *)
Lemma skip_free_spec bs hv order :
  Forall (λ b, hash_value <$> bs⟦b⟧ = Some (hv b) ∧ 0 ≤ hv b) order →
  StronglySorted (λ x y, hv x ≤ hv y) order →
  ∃ j, skip_free bs order = Some j ∧ 0 ≤ j ≤ zlen order ∧
    (∀ b, b ∈ order → hv b ≠ 0 → b ∈ drop (Z.to_nat j) order) ∧
    Forall (λ b, hv b ≠ 0) (drop (Z.to_nat j) order).
Proof.
  induction order as [|b order IH]; intros Hv Hs.
  { exists 0. split; [done|]. split; [done|]. split; [set_solver|]. constructor. }
  apply Forall_cons in Hv as [[Hb Hpos] Hv]. apply StronglySorted_inv in Hs as [Hs Hle].
  cbn [skip_free]. destruct (bs⟦b⟧) as [bk|] eqn:Ebk; [|done]. simpl in Hb. injection Hb as Hb.
  cbn [mbind option_bind]. rewrite Hb. destruct (Z.eqb_spec (hv b) 0) as [E|E].
  - destruct (IH Hv Hs) as (j & -> & Hj & Hin & Hne). cbn [mbind option_bind].
    exists (j + 1). split; [done|]. replace (Z.to_nat (j + 1)) with (S (Z.to_nat j)) by lia.
    cbn [drop]. split; [unfold zlen in *; simpl; lia|]. split; [|done].
    intros b' [->|Hb']%elem_of_cons Hne'; [done|]. by apply Hin.
  - exists 0. split; [done|]. split; [pose proof (zlen_nonneg (b :: order)); lia|].
    simpl. split; [done|]. constructor; [done|].
    apply List.Forall_forall. intros x Hx. rewrite List.Forall_forall in Hle. specialize (Hle x Hx). lia.
Qed.

(** ** Bisection *)

Section search.
Context (index : list hash_seeks) (hv : Z).
Context (Hsorted : ∀ i j x y, index⟦i⟧ = Some x → index⟦j⟧ = Some y → i ≤ j → seek_hash x ≤ seek_hash y).
Context (Hmax : zlen index < 2 ^ 31).

Lemma seek_search_spec fuel left right last :
  0 ≤ left ≤ right + 1 → right < zlen index → right + 1 - left ≤ Z.of_nat fuel →
  (∀ i x, index⟦i⟧ = Some x → i < left ∨ right < i → seek_hash x ≠ hv) →
  (∀ x, last = Some x → x ∈ index ∧ seek_hash x ≠ hv) →
  (left ≤ right ∨ is_Some last) →
  ∃ e, seek_search fuel index hv left right last = Some e ∧ e ∈ index ∧
    (seek_hash e = hv ∨ ∀ x, x ∈ index → seek_hash x ≠ hv).
Proof.
  revert left right last. induction fuel as [|fuel IH]; intros left right last Hl Hr Hf Hout Hlast Hne;
    cbn [seek_search].
  all: destruct (Z.leb_spec left right) as [Hle|Hgt].
  2,4: destruct Hne as [?|[e ->]]; [lia|]; destruct (Hlast e eq_refl) as [Hin Hneq];
    exists e; split; [done|]; split; [done|]; right; intros x Hx;
    apply list_elem_of_lookup_1 in Hx as [i Hi]; rewrite <- zget_of_nat in Hi;
    apply (Hout _ _ Hi); lia.
  { lia. }
  rewrite (u32_small (left + right + 1)) by lia. set (mid := (left + right + 1) / 2).
  assert (left ≤ mid ≤ right) as Hmid by (unfold mid; zdiv).
  destruct (zget_lt index mid) as [e He]; [lia|]. rewrite He. cbn [mbind option_bind].
  assert (e ∈ index) as Hin by (rewrite zget_lookup in He by lia; by eapply list_elem_of_lookup_2).
  destruct (Z.ltb_spec (seek_hash e) hv) as [Hlt|Hge].
  - rewrite u32_small by lia. apply IH; try lia.
    + intros i x Hx [Hi|Hi]; [|apply (Hout i); [done|lia]].
      pose proof (Hsorted i mid x e Hx He ltac:(lia)). lia.
    + intros x [= <-]. split; [done|lia].
    + right. eauto.
  - destruct (Z.gtb_spec (seek_hash e) hv) as [Hgt|Hle'].
    + assert (∀ i x, index⟦i⟧ = Some x → mid ≤ i → seek_hash x ≠ hv) as Habove.
      { intros i x Hx Hi. pose proof (Hsorted mid i e x He Hx Hi). lia. }
      destruct (Z.eqb_spec mid 0) as [E0|E0].
      * exists e. split; [done|]. split; [done|]. right. intros x Hx.
        apply list_elem_of_lookup_1 in Hx as [i Hi]. rewrite <- zget_of_nat in Hi.
        apply (Habove _ _ Hi). lia.
      * apply IH; try lia.
        -- intros i x Hx [Hi|Hi]; [apply (Hout i); [done|lia]|]. apply (Habove i x Hx). lia.
        -- intros x [= <-]. split; [done|lia].
        -- right. eauto.
    + exists e. split; [done|]. split; [done|]. left. lia.
Qed.
End search.

(** ** The compressed index against the key history *)

(** What a load leaves in memory and in the files: the used buckets [bs], by hash. *)
Record compressed (hv : Z → Z) (docs : Z → list Z) (bs : list Z)
    (c : hash_compress_manager) (fs : compress_files) : Prop := {
  cp_count : bucket_count c = zlen bs;
  cp_docs : doc_count c = zlen (body docs bs);
  cp_index : bs ≠ [] → index_mmap c = Some (layout hv docs 0 bs);
  cp_data : bs ≠ [] → data_mmap c = Some (body docs bs);
  cp_info_file : zlen (info_file fs) = 16 ∧ (info_file fs)⟦0⟧ = Some (zlen bs) ∧
    (info_file fs)⟦1⟧ = Some (zlen (body docs bs));
  cp_index_file : index_file fs = layout hv docs 0 bs;
  cp_data_file : ∃ r, data_file fs = body docs bs ++ r
}.

Section compress_spec.
Context (qsort : (Z → Z → Z) → list Z → list Z) `{!QsortLaws qsort}.
Context (get_hash_value : low_data_struct → Z) (nh : Z) `{!HashLaws get_hash_value nh}.
Context (N : Z) (kh : key_history) (slot : key → Z) (hv : Z → Z) (h : hash_index_manager).
Context (Hinv : index_inv nh N kh slot hv h) (Hlimit : limit h = N) (Hmax : 16 * (N + 1) < 2 ^ 31).

Lemma hv_nonneg b : 0 ≤ b ≤ N → 0 ≤ hv b.
Proof.
  intros Hb. destruct (decide (hv b = 0)) as [->|Hne]; [done|].
  apply (bucket_used get_hash_value nh N kh slot hv h Hinv) in Hne as (k & Hk & <-); [|done].
  rewrite (xi_key _ _ _ _ _ _ Hinv k Hk). pose proof (xi_valid _ _ _ _ _ _ Hinv k Hk) as V.
  destruct k as [v|]; simpl in *; [lia|].
  rewrite <- (hash_null (null_hash:=nh) (LowData HI_TYPE_NULL [] 0)) by done. apply hash_range.
Qed.

Lemma bucket_hash b : 0 ≤ b ≤ N → hash_value <$> (buckets h)⟦b⟧ = Some (hv b).
Proof. intros Hb. by rewrite (ti_bucket _ _ _ _ (xi_table _ _ _ _ _ _ Hinv)) by done. Qed.

(** The sorted bucket numbers. *)
Lemma order_spec :
  let order := qsort (hash_index_compare (buckets h)) (seqZ 0 (N + 1)) in
  zlen order = N + 1 ∧ NoDup order ∧ (∀ b, b ∈ order ↔ 0 ≤ b ≤ N) ∧
  StronglySorted (λ x y, hv x ≤ hv y) order.
Proof.
  pose proof (ti_N _ _ _ _ (xi_table _ _ _ _ _ _ Hinv)) as HN. intros order.
  pose proof (qsort_perm _ (seqZ 0 (N + 1)) (hash_index_comparator (buckets h))) as Hp.
  pose proof (qsort_sorted _ (seqZ 0 (N + 1)) (hash_index_comparator (buckets h))) as Hs.
  fold order in Hp, Hs.
  assert (∀ b, b ∈ order ↔ 0 ≤ b ≤ N) as Hin by (intros b; rewrite Hp, elem_of_seqZ; lia).
  split; [unfold zlen; rewrite Hp, length_seqZ; lia|].
  split; [rewrite Hp; apply NoDup_seqZ|]. split; [done|].
  clear Hp. assert (∀ b, b ∈ order → 0 ≤ b ≤ N) as Hr by (intros; by apply Hin). clear Hin.
  induction Hs as [|b order' Hs IH Hle]; constructor; [apply IH; intros; apply Hr; by right|].
  apply List.Forall_forall. intros x Hx. rewrite List.Forall_forall in Hle. specialize (Hle x Hx).
  apply list_elem_of_In in Hx. eapply compare_le; [| |exact Hle]; apply bucket_hash, Hr; [left|by right].
Qed.

Lemma used_length bs :
  0 < N → NoDup bs → (∀ b, b ∈ bs ↔ 0 ≤ b ≤ N ∧ hv b ≠ 0) → zlen bs ≤ N + 1.
Proof.
  intros HN Hnd Hbs. assert (bs ⊆+ seqZ 0 (N + 1)) as Hsub.
  { apply NoDup_submseteq; [done|]. intros b [Hb _]%Hbs. apply elem_of_seqZ. lia. }
  apply submseteq_length in Hsub. rewrite length_seqZ in Hsub. unfold zlen. lia.
Qed.

Lemma body_pos bs :
  (∀ b, b ∈ bs ↔ 0 ≤ b ≤ N ∧ hv b ≠ 0) → bs ≠ [] → 0 < zlen (body (bdocs kh slot) bs).
Proof.
  intros Hbs Hne. destruct bs as [|b bs']; [done|]. rewrite body_cons, zlen_app.
  destruct (bucket_chain get_hash_value nh N kh slot hv h Hinv b) as (l & _ & _ & He & Hn);
    [apply Hbs; left..|]. rewrite He in Hn. pose proof (zlen_nonneg (body (bdocs kh slot) bs')).
  destruct (bdocs kh slot b); [done|unfold zlen in *; simpl; lia].
Qed.

(** The buckets that [hash_compress_load] keeps: those in use, by hash. *)
Lemma used_spec :
  let order := qsort (hash_index_compare (buckets h)) (seqZ 0 (N + 1)) in
  ∃ j, skip_free (buckets h) order = Some j ∧ N + 1 - j = zlen (drop (Z.to_nat j) order) ∧ 0 ≤ j ∧
    (∀ b, b ∈ drop (Z.to_nat j) order ↔ 0 ≤ b ≤ N ∧ hv b ≠ 0) ∧ NoDup (drop (Z.to_nat j) order) ∧
    StronglySorted (λ x y, hv x ≤ hv y) (drop (Z.to_nat j) order).
Proof.
  intros order. destruct order_spec as (Hl & Hnd & Hin & Hs). fold order in Hl, Hnd, Hin, Hs.
  destruct (skip_free_spec (buckets h) hv order) as (j & -> & Hj & Hused & Hne).
  { apply List.Forall_forall. intros b Hb%list_elem_of_In%Hin. split; [by apply bucket_hash|by apply hv_nonneg]. }
  { done. }
  exists j. split; [done|]. split; [unfold zlen in *; rewrite length_drop; lia|]. split; [lia|]. split_and!.
  - intros b. split.
    + intros Hb. split; [apply Hin; by apply (subseteq_drop (Z.to_nat j) order)|].
      rewrite List.Forall_forall in Hne. by apply Hne, list_elem_of_In.
    + intros [Hb H0]. apply Hused; [by apply Hin|done].
  - apply (sublist_NoDup _ order); [done|apply sublist_drop].
  - rewrite <- (take_drop (Z.to_nat j) order) in Hs. by apply StronglySorted_app_1_r in Hs.
Qed.

Lemma load_compressed fs0 num :
  ∃ bs c fs, hash_compress_load qsort all_io fs0 (Ptr h) num = Some (Ptr c, fs) ∧
    (∀ b, b ∈ bs ↔ 0 ≤ b ≤ N ∧ hv b ≠ 0) ∧ NoDup bs ∧ StronglySorted (λ x y, hv x ≤ hv y) bs ∧
    compressed hv (bdocs kh slot) bs c fs.
Proof.
  pose proof (xi_table _ _ _ _ _ _ Hinv) as Ht. pose proof (ti_N _ _ _ _ Ht) as HN.
  destruct order_spec as (Hl & _).
  unfold hash_compress_load, hash_commpress_init. rewrite (ti_mod _ _ _ _ Ht), Hlimit.
  change (map_words (io_info all_io) (info_file (CFiles [] [] [])) 16)
    with (Some (replicate 16 0), replicate 16 0). cbv iota beta.
  change ((replicate 16 0)⟦0⟧) with (Some 0). change ((replicate 16 0)⟦1⟧) with (Some 0).
  cbn [mbind option_bind]. simpl (0 =? 0). cbv iota.
  cbn [mbind option_bind hash_mod info_mmap hc_row_limit index_file data_file].
  rewrite !(u32_small (N + 1)) by lia.
  set (order := qsort (hash_index_compare (buckets h)) (seqZ 0 (N + 1))) in *.
  assert (zsub order 0 (N + 1) = Some order) as ->.
  { unfold zsub. rewrite decide_True by lia. rewrite drop_0, take_ge by (unfold zlen in *; lia). done. }
  cbn [mbind option_bind].
  destruct used_spec as (j & Hskip & Hbc & Hj & Hbs & Hnds & Hss). fold order in Hskip, Hbc, Hbs, Hnds, Hss.
  rewrite Hskip. cbn [mbind option_bind]. set (bs := drop (Z.to_nat j) order) in *.
  pose proof (body_length nh N kh slot hv h Hinv bs Hnds) as Hbl.
  pose proof (zlen_nonneg bs). rewrite (u32_small (N + 1 - j)) by lia. rewrite Hbc.
  unfold map_seeks, map_words. cbn [io_index io_data io_remap all_io].
  pose proof (fresh_map_len (Seek 0 0 0) 16 (zlen bs) ltac:(lia) ltac:(lia) ltac:(lia)) as Hix.
  pose proof (fresh_map_len 0 4 N ltac:(lia) ltac:(lia) ltac:(lia)) as Hdt.
  destruct (load_buckets_spec get_hash_value nh N kh slot hv h Hinv bs 0
    (default [] (fst (get_mmap_memory (Seek 0 0 0) 16 true [] (zlen bs))))
    (default [] (fst (get_mmap_memory 0 4 true [] N))) 0) as (ix & dt & Hload & Eix & Edt).
  { apply List.Forall_forall. intros b Hb%list_elem_of_In. by apply Hbs. }
  1-5: lia.
  change (4 * 0) with 0 in Hload. rewrite Hload. cbn [mbind option_bind]. rewrite Z.add_0_l.
  rewrite zcopy_whole in Eix by (rewrite Hix; unfold zlen; by rewrite length_layout).
  injection Eix as <-. rewrite zcopy_prefix in Edt by lia. injection Edt as <-.
  set (r := drop _ _).
  rewrite (Z.mul_comm 4), Z.div_mul by lia.
  change ((replicate 16 0)⟦0 := zlen bs⟧) with (Some (<[0%nat := zlen bs]> (replicate 16 0))).
  cbn [mbind option_bind].
  change ((<[0%nat := zlen bs]> (replicate 16 0))⟦1 := zlen (body (bdocs kh slot) bs)⟧)
    with (Some (<[1%nat := zlen (body (bdocs kh slot) bs)]> (<[0%nat := zlen bs]> (replicate 16 0)))).
  cbn [mbind option_bind].
  eexists bs, _, _. split; [reflexivity|]. split; [done|]. split; [done|]. split; [done|].
  split; cbn [bucket_count doc_count index_mmap data_mmap info_file index_file data_file]; try done.
  - intros Hnil. destruct (fresh_map_some (Seek 0 0 0) 16 (zlen bs)) as [m ->]; [lia| |lia|done].
    destruct bs; [done|unfold zlen; simpl; lia].
  - intros Hnil. rewrite get_mmap_again; [done|lia|by apply body_pos|lia].
  - by exists r.
Qed.

Lemma layout_sorted docs w bs i j x y :
  StronglySorted (λ x y, hv x ≤ hv y) bs →
  (layout hv docs w bs)⟦i⟧ = Some x → (layout hv docs w bs)⟦j⟧ = Some y → i ≤ j →
  seek_hash x ≤ seek_hash y.
Proof.
  intros Hs Hx Hy Hij. pose proof (zget_Some_range _ _ _ Hx) as Hi. pose proof (zget_Some_range _ _ _ Hy) as Hj.
  destruct (decide (i = j)) as [->|Hne]; [rewrite Hx in Hy; injection Hy as <-; lia|].
  rewrite zget_lookup in Hx, Hy by lia.
  assert (∀ n e, layout hv docs w bs !! n = Some e → ∃ b, bs !! n = Some b ∧ seek_hash e = hv b) as Hb.
  { intros n e He. assert ((seek_hash <$> layout hv docs w bs) !! n = Some (seek_hash e)) as He'
      by by rewrite list_lookup_fmap, He.
    rewrite layout_hash, list_lookup_fmap in He'. destruct (bs !! n) as [b|]; [|done].
    injection He' as He'. by exists b. }
  destruct (Hb _ _ Hx) as (bx & Hbx & ->). destruct (Hb _ _ Hy) as (by_ & Hby & ->).
  rewrite <- (take_drop (Z.to_nat j) bs) in Hs. eapply (StronglySorted_app_1_elem_of _ _ _ _ _ Hs).
  - apply (list_elem_of_lookup_2 _ (Z.to_nat i)). by rewrite lookup_take_lt by lia.
  - apply (list_elem_of_lookup_2 _ 0). by rewrite lookup_drop, Nat.add_0_r.
Qed.

Lemma query_compressed docs bs c fs data :
  compressed hv docs bs c fs → StronglySorted (λ x y, hv x ≤ hv y) bs →
  zlen bs < 2 ^ 31 → zlen (body docs bs) < 2 ^ 32 →
  ∃ l, hash_compress_query get_hash_value c data = Some (Ptr l) ∧ list_tight l ∧
    ((∃ b, b ∈ bs ∧ hv b = get_hash_value data ∧ elems l = docs b) ∨
     (∀ b, b ∈ bs → hv b ≠ get_hash_value data) ∧ elems l = []).
Proof.
  intros [Hc _ Hix Hdt _ _ _] Hs Hb1 Hb2. destruct rowid_list_init_tight as [Htl Hel].
  unfold hash_compress_query. rewrite Hc. destruct (Z.eqb_spec (zlen bs) 0) as [E|E].
  { exists rowid_list_init. split; [done|]. split; [done|]. right. split; [|done].
    intros b Hb. destruct bs; [by apply not_elem_of_nil in Hb|unfold zlen in E; simpl in E; lia]. }
  assert (bs ≠ []) as Hne by by intros ->. rewrite (Hix Hne), (Hdt Hne). cbn [mbind option_bind].
  pose proof (zlen_nonneg bs).
  assert (zlen (layout hv docs 0 bs) = zlen bs) as Hll by (unfold zlen; by rewrite length_layout).
  destruct (seek_search_spec (layout hv docs 0 bs) (get_hash_value data)
    (λ i j x y, layout_sorted docs 0 bs i j x y Hs) ltac:(lia)
    (Z.to_nat (zlen bs)) 0 (zlen bs - 1) None) as (e & -> & He & Hfound).
  - lia.
  - lia.
  - lia.
  - intros i x Hx Hi. apply zget_Some_range in Hx. lia.
  - done.
  - left. lia.
  - cbn [mbind option_bind]. destruct (layout_find hv docs 0 bs e [] eq_refl He) as (b & Hb & Eh & El & Hz).
    destruct (Z.eqb_spec (seek_hash e) (get_hash_value data)) as [Ev|Ev]; simpl negb; cbv iota.
    + rewrite El, (Z.mul_comm 4), Z.div_mul by lia. simpl in Hz. rewrite Hz. cbn [mbind option_bind].
      assert (zlen (docs b) < 2 ^ 32) as Hlen.
      { unfold zsub in Hz. case_decide; [|done]. lia. }
      destruct (rowid_list_batch_add_spec rowid_list_init (docs b) (zlen (docs b)) Htl)
        as (l & -> & Ht & El'); [done|pose proof (zlen_nonneg (docs b)); lia|simpl; lia|].
      exists l. split; [done|]. split; [done|]. left. exists b. split; [done|]. split; [congruence|].
      rewrite El', Hel. simpl. unfold zlen. by rewrite Nat2Z.id, firstn_all.
    + exists rowid_list_init. split; [done|]. split; [done|]. right. split; [|done].
      destruct Hfound as [?|Hnone]; [done|]. intros b' Hb' Eb'.
      assert (hv b' ∈ seek_hash <$> layout hv docs 0 bs) as Hin
        by (rewrite layout_hash; by apply list_elem_of_fmap_2).
      apply list_elem_of_fmap in Hin as (e' & Ee' & He'). apply (Hnone e' He'). congruence.
Qed.

(** Null and the values share the hashes without a clash. *)
Definition null_apart : Prop := Some nh ∉ kh.*2.

Lemma lookup_compressed bs c fs data :
  compressed hv (bdocs kh slot) bs c fs → (∀ b, b ∈ bs ↔ 0 ≤ b ≤ N ∧ hv b ≠ 0) → NoDup bs →
  StronglySorted (λ x y, hv x ≤ hv y) bs → null_apart → key_of get_hash_value data ≠ Some nh →
  ∃ l, hash_compress_query get_hash_value c data = Some (Ptr l) ∧ list_tight l ∧
    elems l = docs_of kh (key_of get_hash_value data).
Proof.
  intros Hcp Hbs Hnd Hs Hnull Hkey.
  pose proof (ti_N _ _ _ _ (xi_table _ _ _ _ _ _ Hinv)) as HN.
  pose proof (body_length nh N kh slot hv h Hinv bs Hnd) as Hbl.
  pose proof (used_length bs (proj1 HN) Hnd Hbs) as Hlen.
  destruct (query_compressed (bdocs kh slot) bs c fs data Hcp Hs) as (l & Hq & Ht & Hres); [lia|lia|].
  exists l. split; [done|]. split; [done|].
  assert (∀ k, keyhash nh k = get_hash_value data → k ∈ kh.*2 → k = key_of get_hash_value data) as Hk.
  { intros k Ek Hk. unfold key_of in *. destruct (Z.eqb_spec (len data) 0) as [E|E].
    - destruct k as [v|]; [|done]. simpl in Ek. subst v. rewrite (hash_null data E) in Hk. done.
    - destruct k as [v|]; simpl in Ek; congruence. }
  destruct Hres as [(b & Hb & Eb & ->)|[Hnone ->]].
  - apply Hbs in Hb as [Hb Hne].
    apply (bucket_used get_hash_value nh N kh slot hv h Hinv) in Hne as (k & Hkin & <-); [|done].
    unfold bdocs. rewrite (key_docs nh N kh slot hv h Hinv k Hkin). f_equal. apply Hk; [|done].
    rewrite <- Eb. symmetry. apply (xi_key _ _ _ _ _ _ Hinv k Hkin).
  - symmetry. apply docs_of_absent. intros Hin.
    assert (keyhash nh (key_of get_hash_value data) = get_hash_value data) as Ek.
    { unfold key_of. destruct (Z.eqb_spec (len data) 0) as [E|E]; [|done].
      symmetry. by apply hash_null. }
    apply (Hnone (slot (key_of get_hash_value data))).
    + apply Hbs. split.
      * apply valid_range; [lia|]. by apply Hinv.
      * apply (bucket_used get_hash_value nh N kh slot hv h Hinv); [|by eauto].
        apply valid_range; [lia|]. by apply Hinv.
    + rewrite (xi_key _ _ _ _ _ _ Hinv _ Hin). exact Ek.
Qed.
(** Initialising from the files of a load gives the loaded index again. *)
Lemma reopen_compressed bs c fs num :
  compressed hv (bdocs kh slot) bs c fs → (∀ b, b ∈ bs ↔ 0 ≤ b ≤ N ∧ hv b ≠ 0) → NoDup bs →
  ∃ c', hash_commpress_init all_io fs N num = Some (Ptr c', fs) ∧
    compressed hv (bdocs kh slot) bs c' fs.
Proof.
  intros [Hc Hdc Hix Hdt (Hi & Hi0 & Hi1) Hfx [r Hfd]] Hbs Hnd.
  pose proof (ti_N _ _ _ _ (xi_table _ _ _ _ _ _ Hinv)) as HN.
  pose proof (body_length nh N kh slot hv h Hinv bs Hnd) as Hbl.
  pose proof (used_length bs (proj1 HN) Hnd Hbs) as Hlen. pose proof (zlen_nonneg bs).
  unfold hash_commpress_init, map_words, map_seeks. cbn [io_info io_index io_data all_io].
  pose proof (get_mmap_same 0 4 ltac:(lia) (info_file fs)) as Hmi. rewrite Hi in Hmi.
  rewrite Hmi, Hi0, Hi1 by lia. cbn [mbind option_bind index_file data_file].
  destruct fs as [fi fx fd]. cbn [info_file index_file data_file] in *. subst fx.
  destruct (Z.eqb_spec (zlen bs) 0) as [E|E].
  { assert (bs = []) as -> by (destruct bs; [done|unfold zlen in E; simpl in E; lia]).
    eexists. split; [done|]. split; cbn; try done. by exists r. }
  assert (bs ≠ []) as Hne by by intros ->.
  pose proof (body_pos bs Hbs Hne) as Hpos.
  assert (zlen (layout hv (bdocs kh slot) 0 bs) = zlen bs) as Hll by (unfold zlen; by rewrite length_layout).
  pose proof (get_mmap_same (Seek 0 0 0) 16 ltac:(lia) (layout hv (bdocs kh slot) 0 bs)) as Hmx.
  rewrite Hll in Hmx. rewrite Hmx, Hfd by lia. rewrite get_mmap_again by lia.
  eexists. split; [done|]. split; cbn; try done. by exists r.
Qed.

Lemma compressed_query_same docs bs c fs c' fs' data :
  compressed hv docs bs c fs → compressed hv docs bs c' fs' →
  hash_compress_query get_hash_value c data = hash_compress_query get_hash_value c' data.
Proof.
  intros [Hc _ Hix Hdt _ _ _] [Hc' _ Hix' Hdt' _ _ _]. unfold hash_compress_query. rewrite Hc, Hc'.
  destruct (Z.eqb_spec (zlen bs) 0) as [E|E]; [done|].
  assert (bs ≠ []) as Hne by by intros ->. by rewrite (Hix Hne), (Hdt Hne), (Hix' Hne), (Hdt' Hne).
Qed.
End compress_spec.

Lemma tight_rows N kh k l :
  desc kh.*1 → (∀ d, d ∈ kh.*1 → 0 ≤ d < N) → list_tight l → elems l = docs_of kh k → rows_ok N (Ptr l).
Proof.
  intros Hd Hr Ht He. split; [apply Ht|simpl; rewrite He; by apply docs_of_desc|].
  simpl. rewrite He. intros v Hv%docs_of_elem. apply Hr. by apply (list_elem_of_fmap_2 fst) in Hv.
Qed.

Lemma represents_docs nh N kh h :
  represents nh N kh h → desc kh.*1 ∧ ∀ d, d ∈ kh.*1 → 0 ≤ d < N.
Proof.
  intros (_ & slot & hv & Hinv). destruct (ti_rows _ _ _ _ (xi_table _ _ _ _ _ _ Hinv)) as (m & _ & Hm).
  pose proof (ri_desc _ _ _ Hm) as Hd. rewrite slots_fst in Hd. split; [done|].
  intros d Hin. rewrite <- (slots_fst slot) in Hin. apply list_elem_of_fmap in Hin as ([d' b] & -> & Hin).
  by apply (ri_range _ _ _ Hm) in Hin as [? _].
Qed.

(** C31: compression preserves lookups.  Whatever the order in which [qsort] leaves
    buckets of equal hash, loading the compressed form of an index of [N]
    buckets that holds the key history [kh] succeeds without an access out of
    bounds, and the bisection then finds, for every value, exactly the documents
    that the hash index lists for it, newest first.  The hash of null must not
    be the hash of a value, neither stored nor asked for: the compressed index,
    unlike the original one, keeps null among the values. *)
Theorem hash_compress_correct qsort `{!QsortLaws qsort} get_hash_value nh `{!HashLaws get_hash_value nh}
    N kh h fs0 num :
  represents nh N kh h → limit h = N → 16 * (N + 1) < 2 ^ 31 → Some nh ∉ kh.*2 →
  ∃ c fs, hash_compress_load qsort all_io fs0 (Ptr h) num = Some (Ptr c, fs) ∧
    ∀ data, key_of get_hash_value data ≠ Some nh →
      ∃ r, hash_compress_query get_hash_value c data = Some r ∧ rows_ok N r ∧
        ids r = docs_of kh (key_of get_hash_value data).
Proof.
  intros Hrep Hlim Hmax Hnull. destruct (represents_docs _ _ _ _ Hrep) as [Hd Hr].
  destruct Hrep as (_ & slot & hv & Hinv).
  destruct (load_compressed qsort get_hash_value nh N kh slot hv h Hinv Hlim Hmax fs0 num)
    as (bs & c & fs & Hl & Hbs & Hnd & Hs & Hcp).
  exists c, fs. split; [done|]. intros data Hk.
  destruct (lookup_compressed get_hash_value nh N kh slot hv h Hinv Hmax bs c fs data)
    as (l & Hq & Ht & He); try done.
  exists (Ptr l). split; [done|]. split; [by eapply tight_rows|done].
Qed.

(** A compressed index survives a restart: initialising from the files that a
    load wrote gives an index that answers every lookup as the loaded one. *)
Theorem hash_compress_reopen qsort `{!QsortLaws qsort} get_hash_value nh `{!HashLaws get_hash_value nh}
    N kh h fs0 num :
  represents nh N kh h → limit h = N → 16 * (N + 1) < 2 ^ 31 →
  ∃ c fs c' fs', hash_compress_load qsort all_io fs0 (Ptr h) num = Some (Ptr c, fs) ∧
    hash_commpress_init all_io fs N num = Some (Ptr c', fs') ∧
    ∀ data, hash_compress_query get_hash_value c' data = hash_compress_query get_hash_value c data.
Proof.
  intros Hrep Hlim Hmax. destruct Hrep as (_ & slot & hv & Hinv).
  destruct (load_compressed qsort get_hash_value nh N kh slot hv h Hinv Hlim Hmax fs0 num)
    as (bs & c & fs & Hl & Hbs & Hnd & Hs & Hcp).
  destruct (reopen_compressed get_hash_value nh N kh slot hv h Hinv Hmax bs c fs num Hcp Hbs Hnd) as (c' & Hc' & Hcp').
  exists c, fs, c', fs. split; [done|]. split; [done|]. intros data. by eapply compressed_query_same.
Qed.

(** *** A concrete run *)

Lemma demo_represents :
  ∃ h0 h, hash_index_init false true true [] [] 5 false = Some h0 ∧
    run demo_hash false h0 demo_ops = Some h ∧ limit h = 5 ∧
    represents 77 5 (foldl (spec_op demo_hash) [] demo_ops) h.
Proof.
  destruct (hash_index_init_empty 77 false 5 false) as (h0 & H0 & Hr0); [lia|lia|].
  pose proof demo_hash_laws as Hlaws.
  destruct (run_spec demo_hash 77 false 5 [] h0 demo_ops) as (h & H & Hr); [lia|done|exact demo_ops_ok|].
  exists h0, h. split; [done|]. split; [done|]. split; [|done].
  vm_compute in H0. injection H0 as <-. vm_compute in H. by injection H as <-.
Qed.

Lemma hash_compress_correct_witness :
  ∃ h0 h c fs r, hash_index_init false true true [] [] 5 false = Some h0 ∧
    run demo_hash false h0 demo_ops = Some h ∧
    hash_compress_load merge_qsort all_io (CFiles [] [] []) (Ptr h) 10 = Some (Ptr c, fs) ∧
    hash_compress_query demo_hash c (byte_value 3) = Some r ∧ ids r = [3; 0].
Proof.
  destruct demo_represents as (h0 & h & H0 & H & Hl & Hr).
  destruct (hash_compress_correct merge_qsort (QsortLaws0:=merge_qsort_laws) demo_hash 77
    (HashLaws0:=demo_hash_laws) 5 _ h (CFiles [] [] []) 10 Hr Hl) as (c & fs & Hc & Hq).
  - lia.
  - vm_compute. intros Hin. set_unfold. naive_solver.
  - destruct (Hq (byte_value 3)) as (r & Hqr & _ & Hids); [vm_compute; discriminate|].
    exists h0, h, c, fs, r. split; [exact H0|]. split; [exact H|]. split; [exact Hc|]. split; [exact Hqr|].
    rewrite Hids. vm_compute. reflexivity.
Defined.

Lemma hash_compress_reopen_witness :
  ∃ h0 h c fs c' fs', hash_index_init false true true [] [] 5 false = Some h0 ∧
    run demo_hash false h0 demo_ops = Some h ∧
    hash_compress_load merge_qsort all_io (CFiles [] [] []) (Ptr h) 10 = Some (Ptr c, fs) ∧
    hash_commpress_init all_io fs 5 10 = Some (Ptr c', fs') ∧
    hash_compress_query demo_hash c' (byte_value 8) = hash_compress_query demo_hash c (byte_value 8).
Proof.
  destruct demo_represents as (h0 & h & H0 & H & Hl & Hr).
  destruct (hash_compress_reopen merge_qsort (QsortLaws0:=merge_qsort_laws) demo_hash 77
    (HashLaws0:=demo_hash_laws) 5 _ h (CFiles [] [] []) 10 Hr Hl) as (c & fs & c' & fs' & Hc & Hc' & Hq); [lia|].
  exists h0, h, c, fs, c', fs'. split; [exact H0|]. split; [exact H|]. split; [exact Hc|].
  split; [exact Hc'|]. apply Hq.
Defined.
