(* ===== verification/Compare.v ===== *)
(** * Comparing and adding values ([src/common/common_util.c])

    The order of typed values, which sorting and aggregation use, their equality,
    their sum, and their conversion to a double.  Floating point numbers are the
    standard library's [spec_float], the arithmetic of IEEE 754 on integers. *)

From Stdlib Require Import ZArith Lia SpecFloat.
From stdpp Require Import base option list numbers.
From S2P Require Import Prelude LowData Hash.

(** ** Floating point cells *)

Definition of_ieee (x : ieee) : spec_float :=
  match x with
  | Fin s m e => match m with Zpos p => S754_finite s p e | _ => S754_zero s end
  | Inf s => S754_infinity s
  | Nan _ => S754_nan
  end.

(** The bits of a number with [mw] bits of mantissa and [ew] of exponent. *)
Definition ieee_bits (mw ew : Z) (x : spec_float) : Z :=
  let sign (s : bool) := if s then 2 ^ (mw + ew) else 0 in
  let bias := 2 ^ (ew - 1) - 1 in
  match x with
  | S754_zero s => sign s
  | S754_infinity s => sign s + Z.ones ew * 2 ^ mw
  | S754_nan => Z.ones ew * 2 ^ mw + 2 ^ (mw - 1)
  | S754_finite s p e =>
      sign s + (if Zpos p <? 2 ^ mw then Zpos p else (e + bias + mw) * 2 ^ mw + (Zpos p - 2 ^ mw))
  end.

(** [*(float * )p] and [*(double * )p]; a float is a double without loss. *)
Definition load_float (p : list Z) : option spec_float := of_ieee ∘ decode_ieee 23 8 <$> load p 4.
Definition load_double (p : list Z) : option spec_float := of_ieee ∘ decode_ieee 52 11 <$> load p 8.

(** [1e-10] *)
Definition epsilon : spec_float := S754_finite false 7737125245533627 (-86).

(** ** Comparison *)

Definition COMP (a b : Z) : Z := (if a >? b then 1 else 0) - (if a <? b then 1 else 0).

Definition COMP_float (x y : spec_float) : Z := (if SFltb y x then 1 else 0) - (if SFltb x y then 1 else 0).

(** [fabs(x - y) < 1e-10 ? 0 : COMP(x, y)]; the difference has the precision of
    the numbers. *)
Definition compare_floats (prec emax : Z) (x y : spec_float) : Z :=
  if SFltb (SFabs (SFsub prec emax x y)) epsilon then 0 else COMP_float x y.

(** The numbers at [p] and [q], the two switches. *)
Definition compare_cells (t : field_types) (p q : list Z) : option Z :=
  match t with
  | HI_TYPE_TINY => x ← load p 1; y ← load q 1; Some (COMP (s8 x) (s8 y))
  | HI_TYPE_SHORT => x ← load p 2; y ← load q 2; Some (COMP (s16 x) (s16 y))
  | HI_TYPE_UNSIGNED_SHORT => x ← load p 2; y ← load q 2; Some (COMP x y)
  | HI_TYPE_LONG => x ← load p 4; y ← load q 4; Some (COMP (s32 x) (s32 y))
  | HI_TYPE_UNSIGNED_LONG => x ← load p 4; y ← load q 4; Some (COMP x y)
  | HI_TYPE_FLOAT => x ← load_float p; y ← load_float q; Some (compare_floats 24 128 x y)
  | HI_TYPE_DOUBLE => x ← load_double p; y ← load_double q; Some (compare_floats 53 1024 x y)
  | HI_TYPE_LONGLONG => x ← load p 8; y ← load q 8; Some (COMP (s64 x) (s64 y))
  | HI_TYPE_UNSIGNED_LONGLONG => x ← load p 8; y ← load q 8; Some (COMP x y)
  | _ => Some (-2)
  end.

Definition compare (a b : ptr (list Z)) (field_type : field_types) : option Z :=
  match a, b with Ptr p, Ptr q => compare_cells field_type p q | _, _ => Some (-2) end.

(** The first difference among the first [n] bytes, which are signed. *)
Fixpoint compare_loop (n : nat) (p q : list Z) : option (option Z) :=
  match n with
  | O => Some None
  | S n =>
      match p, q with
      | x :: p, y :: q =>
          if s8 x <? s8 y then Some (Some (-1))
          else if s8 x >? s8 y then Some (Some 1)
          else compare_loop n p q
      | _, _ => None
      end
  end.

Definition compare_string (a b : low_data_struct) : option Z :=
  r ← compare_loop (Z.to_nat (Z.min (len a) (len b))) (data a) (data b);
  Some match r with
       | Some c => c
       | None => if len a =? len b then 0 else if len a <? len b then -1 else 1
       end.

Definition LOW_DATA_IS_NULL (d : low_data_struct) : bool := bool_decide (type d = HI_TYPE_NULL) || (len d =? 0).

Definition compare_ld (a b : ptr low_data_struct) : option Z :=
  match a, b with
  | Ptr a, Ptr b =>
      if LOW_DATA_IS_NULL a && LOW_DATA_IS_NULL b then Some 0
      else if LOW_DATA_IS_NULL a then Some (-1)
      else if LOW_DATA_IS_NULL b then Some 1
      else if negb (bool_decide (type a = type b)) then Some (-2)
      else
        match type a with
        | HI_TYPE_VARCHAR | HI_TYPE_STRING => compare_string a b
        | t => compare_cells t (data a) (data b)
        end
  | _, _ => Some (-2)
  end.

Fixpoint same_bytes (n : nat) (p q : list Z) : option Z :=
  match n with
  | O => Some 1
  | S n =>
      match p, q with
      | x :: p, y :: q => if negb (x =? y) then Some 0 else same_bytes n p q
      | _, _ => None
      end
  end.

Definition is_ld_equal (a b : ptr low_data_struct) : option Z :=
  match a, b with
  | NULL, NULL => Some 1
  | Ptr a, Ptr b =>
      if negb (bool_decide (type a = type b)) then Some 0
      else if negb (len a =? len b) then Some 0
      else same_bytes (Z.to_nat (len a)) (data a) (data b)
  | _, _ => Some 0
  end.

(** ** Arithmetic *)

(** [*(intN_t * )a->data += *(intN_t * )b->data], for [n] bytes. *)
Definition add_ints (n : nat) (a b : low_data_struct) : option low_data_struct :=
  x ← load (data a) (Z.of_nat n);
  y ← load (data b) (Z.of_nat n);
  d ← zcopy (data a) 0 (le_bytes n ((x + y) `mod` 2 ^ (8 * Z.of_nat n)));
  Some (LowData (type a) d (len a)).

Definition add_floats (n : nat) (prec emax mw ew : Z) (a b : low_data_struct) : option low_data_struct :=
  x ← load (data a) (Z.of_nat n);
  y ← load (data b) (Z.of_nat n);
  let sum := SFadd prec emax (of_ieee (decode_ieee mw ew x)) (of_ieee (decode_ieee mw ew y)) in
  d ← zcopy (data a) 0 (le_bytes n (ieee_bits mw ew sum));
  Some (LowData (type a) d (len a)).

(** The result and [*a]. *)
Definition add_data (a b : low_data_struct) : option (Z * low_data_struct) :=
  if negb (bool_decide (type a = type b)) then Some (-1, a)
  else if bool_decide (type b = HI_TYPE_NULL) then Some (0, a)
  else if bool_decide (type a = HI_TYPE_NULL) then Some (0, b)
  else
    match type a with
    | HI_TYPE_TINY => a ← add_ints 1 a b; Some (0, a)
    | HI_TYPE_SHORT | HI_TYPE_UNSIGNED_SHORT => a ← add_ints 2 a b; Some (0, a)
    | HI_TYPE_LONG | HI_TYPE_UNSIGNED_LONG => a ← add_ints 4 a b; Some (0, a)
    | HI_TYPE_FLOAT => a ← add_floats 4 24 128 23 8 a b; Some (0, a)
    | HI_TYPE_DOUBLE => a ← add_floats 8 53 1024 52 11 a b; Some (0, a)
    | HI_TYPE_LONGLONG | HI_TYPE_UNSIGNED_LONGLONG => a ← add_ints 8 a b; Some (0, a)
    | _ => Some (-1, a)
    end.

(** An integer as the nearest double. *)
Definition double_of_int (z : Z) : spec_float := binary_normalize 53 1024 z 0 false.

Definition ld_to_double (ld : low_data_struct) : option spec_float :=
  let number n (f : Z → Z) := double_of_int ∘ f <$> load (data ld) n in
  match type ld with
  | HI_TYPE_TINY => number 1 s8
  | HI_TYPE_SHORT => number 2 s16
  | HI_TYPE_UNSIGNED_SHORT => number 2 id
  | HI_TYPE_LONG => number 4 s32
  | HI_TYPE_UNSIGNED_LONG => number 4 id
  | HI_TYPE_FLOAT => load_float (data ld)
  | HI_TYPE_DOUBLE => load_double (data ld)
  | HI_TYPE_LONGLONG => number 8 s64
  | HI_TYPE_UNSIGNED_LONGLONG => number 8 id
  | _ => Some S754_nan
  end.

(** ** The order of values *)

Inductive value := VNull | VNumber (z : Z) | VText (s : list Z).

(** How many bytes a number has, and whether it is signed; [None] for other types. *)
Definition cell_of (t : field_types) : option (Z * (Z → Z)) :=
  match t with
  | HI_TYPE_TINY => Some (1, s8)
  | HI_TYPE_SHORT => Some (2, s16)
  | HI_TYPE_UNSIGNED_SHORT => Some (2, id)
  | HI_TYPE_LONG => Some (4, s32)
  | HI_TYPE_UNSIGNED_LONG => Some (4, id)
  | HI_TYPE_LONGLONG => Some (8, s64)
  | HI_TYPE_UNSIGNED_LONGLONG => Some (8, id)
  | _ => None
  end.

Definition is_text (t : field_types) : bool := bool_decide (t = HI_TYPE_VARCHAR ∨ t = HI_TYPE_STRING).

Definition value_of (d : low_data_struct) : value :=
  if LOW_DATA_IS_NULL d then VNull
  else
    match cell_of (type d) with
    | Some (_, f) => VNumber (f (le_value (data d)))
    | None => VText (s8 <$> data d)
    end.

(** A null, or an integer or a text of type [t] with exactly its bytes. *)
Definition comparable (t : field_types) (d : low_data_struct) : Prop :=
  LOW_DATA_IS_NULL d = true ∨
  (type d = t ∧ zlen (data d) = len d ∧ Forall (λ b, 0 ≤ b < 256) (data d) ∧
   (is_text t = true ∨ ∃ f, cell_of t = Some (len d, f))).

(** Null comes first; texts are ordered byte by byte, a prefix before the longer. *)
Fixpoint text_cmp (s s' : list Z) : Z :=
  match s, s' with
  | [], [] => 0
  | [], _ => -1
  | _, [] => 1
  | x :: s, y :: s' => if x <? y then -1 else if x >? y then 1 else text_cmp s s'
  end.

Definition value_cmp (v v' : value) : Z :=
  match v, v' with
  | VNumber x, VNumber y => COMP x y
  | VText s, VText s' => text_cmp s s'
  | VNull, VNull => 0
  | VNull, _ => -1
  | _, VNull => 1
  | VNumber _, VText _ => -1
  | VText _, VNumber _ => 1
  end.

Lemma COMP_cases x y : (COMP x y = -1 ∧ x < y) ∨ (COMP x y = 0 ∧ x = y) ∨ (COMP x y = 1 ∧ y < x).
Proof. unfold COMP. rewrite Z.gtb_ltb. destruct (Z.ltb_spec y x), (Z.ltb_spec x y); lia. Qed.

Lemma text_cmp_cases s s' : text_cmp s s' = -1 ∨ text_cmp s s' = 0 ∨ text_cmp s s' = 1.
Proof.
  revert s'. induction s as [|x s IH]; intros [|y s']; cbn [text_cmp]; auto.
  destruct (x <? y); [auto|]. destruct (x >? y); [auto|]. apply IH.
Qed.

Lemma text_cmp_sym s s' : text_cmp s' s = - text_cmp s s'.
Proof.
  revert s'. induction s as [|x s IH]; intros [|y s']; cbn [text_cmp]; try done.
  rewrite !Z.gtb_ltb. destruct (Z.ltb_spec x y), (Z.ltb_spec y x); try lia. apply IH.
Qed.

Lemma text_cmp_eq s s' : text_cmp s s' = 0 ↔ s = s'.
Proof.
  revert s'. induction s as [|x s IH]; intros [|y s']; cbn [text_cmp]; try done.
  rewrite Z.gtb_ltb. destruct (Z.ltb_spec x y); [split; [done|intros [= -> _]; lia]|].
  destruct (Z.ltb_spec y x); [split; [done|intros [= -> _]; lia]|]. rewrite IH.
  split; [intros ->; f_equal; lia|by intros [= _ ->]].
Qed.

Lemma text_cmp_trans s1 s2 s3 : text_cmp s1 s2 ≤ 0 → text_cmp s2 s3 ≤ 0 → text_cmp s1 s3 ≤ 0.
Proof.
  revert s2 s3. induction s1 as [|x s1 IH]; intros [|y s2] [|z s3]; cbn [text_cmp]; try lia.
  rewrite !Z.gtb_ltb. destruct (Z.ltb_spec x y), (Z.ltb_spec y x), (Z.ltb_spec y z), (Z.ltb_spec z y),
    (Z.ltb_spec x z), (Z.ltb_spec z x); try lia. apply IH.
Qed.

Lemma value_cmp_sym v v' : value_cmp v' v = - value_cmp v v'.
Proof.
  destruct v as [|x|s], v' as [|y|s']; try done; [|apply text_cmp_sym]. cbn.
  destruct (COMP_cases x y) as [[-> ?]|[[-> ?]|[-> ?]]], (COMP_cases y x) as [[-> ?]|[[-> ?]|[-> ?]]]; lia.
Qed.

Lemma value_cmp_cases v v' : value_cmp v v' = -1 ∨ value_cmp v v' = 0 ∨ value_cmp v v' = 1.
Proof.
  destruct v as [|x|s], v' as [|y|s']; cbn; auto; [|apply text_cmp_cases].
  destruct (COMP_cases x y) as [[-> ?]|[[-> ?]|[-> ?]]]; auto.
Qed.

Lemma value_cmp_eq v v' : value_cmp v v' = 0 ↔ v = v'.
Proof.
  destruct v as [|x|s], v' as [|y|s']; cbn; try done.
  - destruct (COMP_cases x y) as [[-> ?]|[[-> ?]|[-> ?]]]; split; try done; try (intros [= ->]; lia); by intros _; subst.
  - rewrite text_cmp_eq. split; [by intros ->|by intros [= ->]].
Qed.

Lemma value_cmp_trans v1 v2 v3 : value_cmp v1 v2 ≤ 0 → value_cmp v2 v3 ≤ 0 → value_cmp v1 v3 ≤ 0.
Proof.
  destruct v1 as [|x|s1], v2 as [|y|s2], v3 as [|z|s3]; cbn; try lia; [|apply text_cmp_trans].
  destruct (COMP_cases x y) as [[-> ?]|[[-> ?]|[-> ?]]], (COMP_cases y z) as [[-> ?]|[[-> ?]|[-> ?]]],
    (COMP_cases x z) as [[-> ?]|[[-> ?]|[-> ?]]]; lia.
Qed.

(** ** The code compares values *)

Lemma compare_loop_text p q :
  (r ← compare_loop (Nat.min (length p) (length q)) p q;
   Some (match r with Some c => c | None => if zlen p =? zlen q then 0 else if zlen p <? zlen q then -1 else 1 end))
  = Some (text_cmp (s8 <$> p) (s8 <$> q)).
Proof.
  revert q. induction p as [|x p IH]; intros [|y q]; [done| | |].
  - cbn. rewrite zlen_cons. pose proof (zlen_nonneg q). change (zlen (@nil Z)) with 0.
    by rewrite (proj2 (Z.eqb_neq _ _)), (proj2 (Z.ltb_lt _ _)) by lia.
  - cbn. rewrite zlen_cons. pose proof (zlen_nonneg p). change (zlen (@nil Z)) with 0.
    by rewrite (proj2 (Z.eqb_neq _ _)), (proj2 (Z.ltb_ge _ _)) by lia.
  - rewrite !fmap_cons. cbn [length Nat.min compare_loop text_cmp].
    destruct (s8 x <? s8 y); [done|]. destruct (s8 x >? s8 y); [done|]. rewrite <- IH, !zlen_cons.
    replace (1 + zlen p =? 1 + zlen q) with (zlen p =? zlen q) by (destruct (Z.eqb_spec (zlen p) (zlen q)), (Z.eqb_spec (1 + zlen p) (1 + zlen q)); lia).
    by replace (1 + zlen p <? 1 + zlen q) with (zlen p <? zlen q)
    by (destruct (Z.ltb_spec (zlen p) (zlen q)), (Z.ltb_spec (1 + zlen p) (1 + zlen q)); lia).
Qed.

Lemma compare_string_text a b :
  zlen (data a) = len a → zlen (data b) = len b → compare_string a b = Some (text_cmp (s8 <$> data a) (s8 <$> data b)).
Proof.
  intros Ha Hb. rewrite <- compare_loop_text. unfold compare_string. rewrite <- Ha, <- Hb.
  replace (Z.to_nat (Z.min (zlen (data a)) (zlen (data b)))) with (Nat.min (length (data a)) (length (data b))) by (unfold zlen; lia).
  done.
Qed.

Lemma load_all p n : zlen p = n → load p n = Some (le_value p).
Proof. intros <-. unfold load. pose proof (zsub_mid [] p [] 0 (zlen p) eq_refl eq_refl) as E. rewrite app_nil_r in E. cbn [app] in E. by rewrite E. Qed.

Lemma compare_cells_numbers t n f p q :
  cell_of t = Some (n, f) → zlen p = n → zlen q = n → compare_cells t p q = Some (COMP (f (le_value p)) (f (le_value q))).
Proof. intros Ht Hp Hq. destruct t; try done; injection Ht as <- <-; cbn [compare_cells]; by rewrite !load_all. Qed.

Lemma text_no_cell t : is_text t = true → cell_of t = None.
Proof. by destruct t. Qed.

Lemma compare_ld_values t a b : comparable t a → comparable t b → compare_ld (Ptr a) (Ptr b) = Some (value_cmp (value_of a) (value_of b)).
Proof.
  intros Ha Hb. unfold compare_ld, value_of. destruct (LOW_DATA_IS_NULL a) eqn:Na, (LOW_DATA_IS_NULL b) eqn:Nb; cbn [andb].
  - done.
  - by destruct (cell_of (type b)) as [[]|].
  - by destruct (cell_of (type a)) as [[]|].
  - destruct Ha as [|(Ea & Hla & _ & Hta)]; [congruence|]. destruct Hb as [|(Eb & Hlb & _ & Htb)]; [congruence|].
    rewrite bool_decide_true by congruence. simpl (negb true). cbv iota. rewrite Ea, Eb. destruct Hta as [Ht|[f Ht]].
    + rewrite text_no_cell by done. cbn [value_cmp]. rewrite <- compare_string_text by done. by destruct t.
    + destruct Htb as [Ht'|[f' Ht']]; [by rewrite text_no_cell in Ht|]. rewrite Ht.
      assert (len b = len a) as Elen by congruence. cbn [value_cmp]. rewrite <- (compare_cells_numbers t (len a) f) by congruence.
      by destruct t.
Qed.

(** ** Equality *)

Lemma le_value_inj p q :
  Forall (λ b, 0 ≤ b < 256) p → Forall (λ b, 0 ≤ b < 256) q → length p = length q → le_value p = le_value q → p = q.
Proof.
  intros Hp. revert q. induction Hp as [|x p Hx _ IH]; intros q Hq Hl E; destruct q as [|y q]; try done.
  inversion Hq; subst. cbn [le_value] in E. injection Hl as Hl. assert (x = y ∧ le_value p = le_value q) as [-> E'] by lia.
  f_equal. by apply IH.
Qed.

Lemma cell_inj t n f x y : cell_of t = Some (n, f) → 0 ≤ x < 2 ^ (8 * n) → 0 ≤ y < 2 ^ (8 * n) → f x = f y → x = y.
Proof.
  intros Ht Hx Hy E. destruct t; try done; injection Ht as <- <-; try exact E;
    unfold s8, s16, s32, s64 in E; change (8 * 1) with 8 in *; change (8 * 2) with 16 in *; change (8 * 4) with 32 in *;
    change (8 * 8) with 64 in *; zdiv.
Qed.

Lemma s8_inj p q :
  Forall (λ b, 0 ≤ b < 256) p → Forall (λ b, 0 ≤ b < 256) q → s8 <$> p = s8 <$> q → p = q.
Proof.
  intros Hp. revert q. induction Hp as [|x p Hx _ IH]; intros q Hq E; destruct q as [|y q]; try done.
  inversion Hq; subst. injection E as E1 E2. f_equal; [|by apply IH]. by apply (cell_inj HI_TYPE_TINY 1 s8).
Qed.

Lemma same_bytes_spec p q : length p = length q → same_bytes (length p) p q = Some (if decide (p = q) then 1 else 0).
Proof.
  revert q. induction p as [|x p IH]; intros [|y q] Hl; try done. injection Hl as Hl. cbn [length same_bytes].
  destruct (Z.eqb_spec x y) as [->|Hne]; cbn [negb].
  - rewrite IH by done. f_equal. destruct (decide (p = q)) as [->|]; [by rewrite decide_True|]. rewrite decide_False; [done|]. by intros [= ->].
  - rewrite decide_False; [done|]. by intros [= ->].
Qed.

(** Values that are not null are equal as values when their bytes are. *)
Lemma equal_values t a b :
  comparable t a → comparable t b → LOW_DATA_IS_NULL a = false → LOW_DATA_IS_NULL b = false →
  is_ld_equal (Ptr a) (Ptr b) = Some 1 ↔ value_of a = value_of b.
Proof.
  intros Ha Hb Na Nb. destruct Ha as [|(Ea & Hla & Hba & Hta)]; [congruence|]. destruct Hb as [|(Eb & Hlb & Hbb & Htb)]; [congruence|].
  assert (is_ld_equal (Ptr a) (Ptr b) = Some 1 ↔ data a = data b) as ->.
  { unfold is_ld_equal. rewrite bool_decide_true by congruence. simpl (negb true). cbv iota.
    destruct (Z.eqb_spec (len a) (len b)) as [El|El]; simpl negb; cbv iota; [|split; [done|intros E; rewrite E in Hla; lia]].
    assert (Z.to_nat (len a) = length (data a)) as -> by (unfold zlen in Hla; lia).
    rewrite same_bytes_spec by (unfold zlen in *; lia). by destruct (decide (data a = data b)). }
  unfold value_of. rewrite Na, Nb, Ea, Eb. destruct (cell_of t) as [[n f]|] eqn:Ec.
  - assert (len a = n ∧ len b = n) as [Hna Hnb].
    { destruct Hta as [Ht|[? Ht]]; [by rewrite text_no_cell in Ec|]. destruct Htb as [Ht'|[? Ht']]; [by rewrite text_no_cell in Ec|]. split; congruence. }
    split; [by intros ->|]. intros [= E]. apply le_value_inj; [done|done|unfold zlen in *; lia|].
    apply (cell_inj t n f); [done| | |done]; apply le_value_bound; done || congruence.
  - split; [by intros ->|]. intros [= E]. by apply s8_inj.
Qed.

(** C22: [compare_ld] is a total order on the integers, or the texts, of one type,
    with null in front: it answers -1, 0 or 1, the opposite the other way round, it
    is transitive, and 0 means that both are null or that [is_ld_equal] holds,
    which for integers and texts is equality of the values. *)
Theorem compare_ld_order t a b c :
  comparable t a → comparable t b → comparable t c →
  ∃ x y z, compare_ld (Ptr a) (Ptr b) = Some x ∧ compare_ld (Ptr b) (Ptr a) = Some (- x) ∧
    compare_ld (Ptr b) (Ptr c) = Some y ∧ compare_ld (Ptr a) (Ptr c) = Some z ∧
    (x = -1 ∨ x = 0 ∨ x = 1) ∧ (x ≤ 0 → y ≤ 0 → z ≤ 0) ∧
    (x = 0 ↔ value_of a = value_of b) ∧
    (LOW_DATA_IS_NULL a = false → LOW_DATA_IS_NULL b = false → (x = 0 ↔ is_ld_equal (Ptr a) (Ptr b) = Some 1)).
Proof.
  intros Ha Hb Hc. rewrite !(compare_ld_values t) by done. do 3 eexists. do 2 (split; [done|rewrite ?(value_cmp_sym (value_of a))]).
  split; [done|]. split; [done|]. split; [apply value_cmp_cases|]. split; [apply value_cmp_trans|]. split; [apply value_cmp_eq|].
  intros Na Nb. rewrite (equal_values t) by done. apply value_cmp_eq.
Qed.

(** Shorts of which one is negative, and null. *)
Definition a_short (z : Z) : low_data_struct := LowData HI_TYPE_SHORT (le_bytes 2 (z `mod` 2 ^ 16)) 2.

Lemma compare_ld_order_witness :
  ∃ x y, compare_ld (Ptr (a_short (-300))) (Ptr (a_short 7)) = Some x ∧ compare_ld (Ptr (a_short 7)) (Ptr (a_short (-300))) = Some (- x) ∧
    compare_ld (Ptr (a_short 7)) (Ptr (LowData HI_TYPE_NULL [] 0)) = Some y ∧ (x = 0 ↔ is_ld_equal (Ptr (a_short (-300))) (Ptr (a_short 7)) = Some 1).
Proof.
  destruct (compare_ld_order HI_TYPE_SHORT (a_short (-300)) (a_short 7) (LowData HI_TYPE_NULL [] 0))
    as (x & y & z & E1 & E2 & E3 & _ & _ & _ & _ & Heq).
  - right. repeat split; [repeat constructor; vm_compute; done|]. right. by eexists.
  - right. repeat split; [repeat constructor; vm_compute; done|]. right. by eexists.
  - by left.
  - exists x, y. split; [exact E1|]. split; [exact E2|]. split; [exact E3|]. by apply Heq.
Defined.

(** ** Doubles *)

Definition a_double (x : spec_float) : low_data_struct := LowData HI_TYPE_DOUBLE (le_bytes 8 (ieee_bits 52 11 x)) 8.

(** About 0.7e-10 and 1.1e-10. *)
Definition d_7 : spec_float := S754_finite false 5485325432156155 (-86).
Definition d_11 : spec_float := S754_finite false 8863025059325876 (-86).

(** Doubles are not ordered by [compare_ld]: numbers that differ by less than 1e-10
    count as equal, which is not transitive. *)
Theorem compare_doubles_not_transitive :
  compare_ld (Ptr (a_double (S754_zero false))) (Ptr (a_double d_7)) = Some 0 ∧
  compare_ld (Ptr (a_double d_7)) (Ptr (a_double d_11)) = Some 0 ∧
  compare_ld (Ptr (a_double (S754_zero false))) (Ptr (a_double d_11)) = Some (-1).
Proof. vm_compute. repeat split. Qed.

(** A sum that starts as null stays null: the types are compared first, so that the
    branch for a null [a] is never reached. *)
Theorem null_sum_stays_null a b : type a = HI_TYPE_NULL → type b ≠ HI_TYPE_NULL → add_data a b = Some (-1, a).
Proof. intros Ha Hb. unfold add_data. by rewrite bool_decide_eq_false_2 by congruence. Qed.

(** Sums of integers are modulo the width; signed and unsigned ones agree. *)
Theorem add_data_wraps a b n f :
  cell_of (type a) = Some (n, f) → type b = type a → zlen (data a) = n → zlen (data b) = n →
  Forall (λ x, 0 ≤ x < 256) (data a) → Forall (λ x, 0 ≤ x < 256) (data b) →
  ∃ a', add_data a b = Some (0, a') ∧ type a' = type a ∧ len a' = len a ∧
    le_value (data a') = (le_value (data a) + le_value (data b)) `mod` 2 ^ (8 * n).
Proof.
  intros Hc Ht Ha Hb Hba Hbb. unfold add_data. rewrite Ht, bool_decide_true by done. simpl (negb true). cbv iota.
  assert (bool_decide (type a = HI_TYPE_NULL) = false) as -> by (apply bool_decide_false; intros E; by rewrite E in Hc).
  assert (n = Z.of_nat (Z.to_nat n)) as Hm by (destruct (type a); try done; by injection Hc as <- _).
  set (m := Z.to_nat n) in *.
  assert (∃ a', add_ints m a b = Some a' ∧ type a' = type a ∧ len a' = len a ∧
    le_value (data a') = (le_value (data a) + le_value (data b)) `mod` 2 ^ (8 * n)) as (a' & E & H).
  { unfold add_ints. rewrite !load_all by congruence. cbn [mbind option_bind].
    pose proof (zcopy_mid [] (data a) (le_bytes m ((le_value (data a) + le_value (data b)) `mod` 2 ^ (8 * Z.of_nat m)))) as Ez.
    cbn [app] in Ez. change (zlen []) with 0 in Ez. rewrite Ez by (rewrite zlen_le_bytes; lia). eexists. split; [done|]. split; [done|]. split; [done|].
    cbn [data]. rewrite drop_ge by (rewrite length_le_bytes; unfold zlen in *; lia). rewrite app_nil_r, le_value_bytes; [by rewrite Hm|].
    apply Z.mod_pos_bound, Z.pow_pos_nonneg; lia. }
  exists a'. split; [|exact H].
  subst m.
  destruct (type a); try done; injection Hc as <- _; cbv [Z.to_nat Pos.to_nat Pos.iter_op Nat.add] in E; by rewrite E.
Qed.
