(* ===== verification/LdbComparator.v ===== *)
(** * The order of the keys of leveldb tables ([src/storage/ldb/LdbComparator.cpp])

    A key is the bytes of the row key and behind them a time of fixed length, little
    endian.  Keys are ordered by row, and by time within a row, unless the server
    sets the time itself.  Leveldb asks the comparator for short keys to separate
    its blocks, which keep the time at their end, and for keys that are expired. *)

From Stdlib Require Import ZArith Lia.
From stdpp Require Import base option list numbers.
From S2P Require Import Prelude LowData Compare.

#[local] Open Scope mile_scope.

(** ** The code *)

Record LdbComparator := Comparator {
  time_len_ : Z;
  time_scale_value_ : Z;
  use_host_time_ : bool;
  expire_time_ : Z
}.

(** The power of ten has to fit an int. *)
Fixpoint scale_loop (n : nat) (v : Z) : option Z :=
  match n with
  | O => Some v
  | S n => let v := v * 10 in if (v <? - 2 ^ 31) || (2 ^ 31 <=? v) then None else scale_loop n v
  end.

Definition ldb_comparator_init (time_len time_scale : Z) (use_host_time : bool) (expire_time : Z) : option LdbComparator :=
  v ← scale_loop (Z.to_nat (Z.abs time_scale)) (if time_scale <? 0 then -1 else 1);
  Some (Comparator time_len v use_host_time expire_time).

(** The sign of the first difference in [n] bytes, which are unsigned. *)
Fixpoint memcmp (n : nat) (p q : list Z) : Z :=
  match n, p, q with
  | S n, x :: p, y :: q => if x <? y then -1 else if x >? y then 1 else memcmp n p q
  | _, _, _ => 0
  end.

(** The time field: 4 or 8 bytes at the end; another length aborts. *)
Definition time_field (n : Z) (k : list Z) : option Z :=
  if (n =? 4) || (n =? 8) then load (drop (Z.to_nat (zlen k - n)) k) n else None.

Section comparator.
Context (c : LdbComparator).
Implicit Types (a b k start limit : list Z).

(** An assertion that fails aborts. *)
Definition Compare a b : option Z :=
  if (zlen a <? time_len_ c) || (zlen b <? time_len_ c) then None
  else
    let min := Z.min (zlen a) (zlen b) - time_len_ c in
    let rc := memcmp (Z.to_nat min) a b in
    if negb (rc =? 0) then Some rc
    else if zlen a <? zlen b then Some (-1)
    else if zlen a >? zlen b then Some 1
    else if (time_len_ c =? 0) || use_host_time_ c then Some 0
    else
      a_v ← time_field (time_len_ c) a;
      b_v ← time_field (time_len_ c) b;
      Some (if a_v <? b_v then -1 else if a_v >? b_v then 1 else 0).

(** Is the key expired at the time [now], in seconds? *)
Definition Drop (now : Z) k : option bool :=
  if zlen k <? time_len_ c then None
  else if time_len_ c =? 0 then Some false
  else
    t ← time_field (time_len_ c) k;
    let t := if time_scale_value_ c >? 0 then u64 (t * time_scale_value_ c) else t `quot` (- time_scale_value_ c) in
    Some (negb (u64 (t + expire_time_ c) >=? now)).

(** The place of the first difference within [n] bytes. *)
Fixpoint common_prefix (n : nat) a b : nat :=
  match n, a, b with
  | S n, x :: a, y :: b => if x =? y then S (common_prefix n a b) else 0
  | _, _, _ => 0
  end.

(** The key up to byte [i], which becomes [x], and its time. *)
Definition cut_key k (i : nat) (x : Z) : list Z := take i k ++ x :: drop (Z.to_nat (zlen k - time_len_ c)) k.

Definition FindShortestSeparator start limit : option (list Z) :=
  let min := Z.min (zlen start) (zlen limit) in
  if min <? time_len_ c then None
  else
    let min := min - time_len_ c in
    let diff_index := common_prefix (Z.to_nat min) start limit in
    if min <=? Z.of_nat diff_index then Some start
    else
      diff_byte ← start !! diff_index;
      limit_byte ← limit !! diff_index;
      if (diff_byte <? 0xff) && (diff_byte + 1 <? limit_byte) then
        let start := cut_key start diff_index (diff_byte + 1) in
        rc ← Compare start limit;
        if rc <? 0 then Some start else None
      else Some start.

(** The first byte of the [n] that can be raised, from byte [i] on. *)
Fixpoint successor_loop (n i : nat) k (rest : list Z) : list Z :=
  match n, rest with
  | S n, x :: rest => if negb (x =? 0xff) then cut_key k i (x + 1) else successor_loop n (S i) k rest
  | _, _ => k
  end.

Definition FindShortSuccessor k : option (list Z) :=
  if zlen k <? time_len_ c then None
  else Some (successor_loop (Z.to_nat (zlen k - time_len_ c)) 0 k k).

Definition FilterKey k : list Z := take (Z.to_nat (zlen k - time_len_ c)) k.
End comparator.

(** ** The order of keys *)

Abbreviation is_byte := (λ b : Z, 0 ≤ b < 256).

Definition time_len_ok (c : LdbComparator) : Prop := time_len_ c = 0 ∨ time_len_ c = 4 ∨ time_len_ c = 8.

Definition key_ok (c : LdbComparator) (k : list Z) : Prop := Forall is_byte k ∧ time_len_ c ≤ zlen k.

(** Row and time of a key. *)
Definition key_time (c : LdbComparator) (k : list Z) : Z := le_value (drop (Z.to_nat (zlen k - time_len_ c)) k).

Definition key_cmp (c : LdbComparator) (a b : list Z) : Z :=
  let r := text_cmp (FilterKey c a) (FilterKey c b) in
  if negb (r =? 0) then r
  else if (time_len_ c =? 0) || use_host_time_ c then 0 else COMP (key_time c a) (key_time c b).

Section order.
Context (c : LdbComparator) (Htl : time_len_ok c).
Implicit Types (a b k start limit : list Z).

Lemma time_len_nonneg : 0 ≤ time_len_ c.
Proof. destruct Htl as [->|[->| ->]]; lia. Qed.

Lemma key_split k : key_ok c k → k = FilterKey c k ++ drop (Z.to_nat (zlen k - time_len_ c)) k.
Proof. intros _. unfold FilterKey. by rewrite take_drop. Qed.

Lemma zlen_row k : key_ok c k → zlen (FilterKey c k) = zlen k - time_len_ c.
Proof. intros [_ Hk]. pose proof time_len_nonneg. unfold FilterKey, zlen in *. rewrite length_take. lia. Qed.

(** Rows and times of keys that are put together. *)
Lemma row_app r t : zlen t = time_len_ c → FilterKey c (r ++ t) = r.
Proof.
  intros Ht. unfold FilterKey. rewrite zlen_app. replace (zlen r + zlen t - time_len_ c) with (zlen r) by lia.
  unfold zlen. by rewrite Nat2Z.id, take_app_length.
Qed.

Lemma time_app r t : zlen t = time_len_ c → key_time c (r ++ t) = le_value t.
Proof.
  intros Ht. unfold key_time. rewrite zlen_app. replace (zlen r + zlen t - time_len_ c) with (zlen r) by lia.
  unfold zlen. by rewrite Nat2Z.id, drop_app_length.
Qed.

Lemma time_field_spec k : key_ok c k → time_len_ c ≠ 0 → time_field (time_len_ c) k = Some (key_time c k).
Proof.
  intros [_ Hk] H0. unfold time_field. assert ((time_len_ c =? 4) || (time_len_ c =? 8) = true) as ->.
  { destruct Htl as [?|[->| ->]]; [lia|done..]. }
  pose proof time_len_nonneg. unfold key_time. apply load_all. unfold zlen in *. rewrite length_drop. lia.
Qed.

(** Comparing the rows without their ends, and then their lengths, compares the rows. *)
Lemma memcmp_text p q p' q' (n := Nat.min (length p) (length q)) :
  (let rc := memcmp n (p ++ p') (q ++ q') in
   if negb (rc =? 0) then rc else if zlen p <? zlen q then -1 else if zlen p >? zlen q then 1 else 0) = text_cmp p q.
Proof.
  subst n. revert q. induction p as [|x p IH]; intros [|y q]; [done| | |].
  - cbn. rewrite zlen_cons. pose proof (zlen_nonneg q). change (zlen (@nil Z)) with 0. by rewrite (proj2 (Z.ltb_lt _ _)) by lia.
  - cbn. rewrite zlen_cons. pose proof (zlen_nonneg p). change (zlen (@nil Z)) with 0.
    rewrite Z.gtb_ltb, (proj2 (Z.ltb_ge _ _)), (proj2 (Z.ltb_lt _ _)) by lia. done.
  - cbn [length Nat.min app memcmp text_cmp]. destruct (x <? y) eqn:E; [done|]. destruct (x >? y); [done|].
    rewrite <- IH, !zlen_cons, !Z.gtb_ltb. cbv zeta.
    by replace (1 + zlen p <? 1 + zlen q) with (zlen p <? zlen q) by (destruct (Z.ltb_spec (zlen p) (zlen q)), (Z.ltb_spec (1 + zlen p) (1 + zlen q)); lia);
    replace (1 + zlen q <? 1 + zlen p) with (zlen q <? zlen p) by (destruct (Z.ltb_spec (zlen q) (zlen p)), (Z.ltb_spec (1 + zlen q) (1 + zlen p)); lia).
Qed.

Lemma COMP_if x y : (if x <? y then -1 else if x >? y then 1 else 0) = COMP x y.
Proof. unfold COMP. rewrite Z.gtb_ltb. destruct (Z.ltb_spec x y), (Z.ltb_spec y x); lia. Qed.

Lemma Compare_spec a b : key_ok c a → key_ok c b → Compare c a b = Some (key_cmp c a b).
Proof.
  intros Ha Hb. pose proof (zlen_row a Ha) as La. pose proof (zlen_row b Hb) as Lb. pose proof time_len_nonneg.
  unfold Compare, key_cmp.
  rewrite (proj2 (Z.ltb_ge (zlen a) _) (proj2 Ha)), (proj2 (Z.ltb_ge (zlen b) _) (proj2 Hb)). cbn [orb].
  rewrite <- (memcmp_text _ _ (drop (Z.to_nat (zlen a - time_len_ c)) a) (drop (Z.to_nat (zlen b - time_len_ c)) b)).
  rewrite <- !key_split by done. cbv zeta.
  replace (Nat.min (length (FilterKey c a)) (length (FilterKey c b))) with (Z.to_nat (Z.min (zlen a) (zlen b) - time_len_ c))
    by (unfold zlen in *; lia).
  set (rc := memcmp _ a b). destruct (negb (rc =? 0)) eqn:E; [by rewrite E|]. rewrite La, Lb, !Z.gtb_ltb.
  replace (zlen a - time_len_ c <? zlen b - time_len_ c) with (zlen a <? zlen b)
    by (destruct (Z.ltb_spec (zlen a) (zlen b)), (Z.ltb_spec (zlen a - time_len_ c) (zlen b - time_len_ c)); lia).
  replace (zlen b - time_len_ c <? zlen a - time_len_ c) with (zlen b <? zlen a)
    by (destruct (Z.ltb_spec (zlen b) (zlen a)), (Z.ltb_spec (zlen b - time_len_ c) (zlen a - time_len_ c)); lia).
  destruct (zlen a <? zlen b); [done|]. destruct (zlen b <? zlen a); [done|].
  change (negb (0 =? 0)) with false. cbv iota. destruct (time_len_ c =? 0) eqn:E0; [done|]. destruct (use_host_time_ c); [done|]. cbn [orb].
  rewrite !time_field_spec by (done || by apply Z.eqb_neq). cbn [mbind option_bind]. by rewrite COMP_if.
Qed.

Lemma key_cmp_cases a b : key_cmp c a b = -1 ∨ key_cmp c a b = 0 ∨ key_cmp c a b = 1.
Proof.
  unfold key_cmp. destruct (text_cmp_cases (FilterKey c a) (FilterKey c b)) as [->|[->| ->]]; [auto| |auto].
  destruct (_ || _); [auto|]. destruct (COMP_cases (key_time c a) (key_time c b)) as [[-> _]|[[-> _]|[-> _]]]; auto.
Qed.

Lemma COMP_sym x y : COMP y x = - COMP x y.
Proof. destruct (COMP_cases x y) as [[-> ?]|[[-> ?]|[-> ?]]], (COMP_cases y x) as [[-> ?]|[[-> ?]|[-> ?]]]; lia. Qed.

Lemma key_cmp_sym a b : key_cmp c b a = - key_cmp c a b.
Proof.
  unfold key_cmp. rewrite (text_cmp_sym (FilterKey c a)). destruct (text_cmp_cases (FilterKey c a) (FilterKey c b)) as [->|[->| ->]]; try done.
  destruct (_ || _); [done|]. apply COMP_sym.
Qed.

(** The keys of one row, with the same time if times count. *)
Lemma key_cmp_eq a b : key_cmp c a b = 0 ↔
  FilterKey c a = FilterKey c b ∧ ((time_len_ c =? 0) || use_host_time_ c = true ∨ key_time c a = key_time c b).
Proof.
  unfold key_cmp. rewrite <- text_cmp_eq. destruct (text_cmp_cases (FilterKey c a) (FilterKey c b)) as [->|[->| ->]].
  1, 3: split; [done|intros [? _]; lia]. change (negb (0 =? 0)) with false. cbv iota. destruct (_ || _); [split; auto|].
  destruct (COMP_cases (key_time c a) (key_time c b)) as [[-> ?]|[[-> ?]|[-> ?]]]; split; try done; try lia; intros (_ & [?|?]); try done; lia.
Qed.

Lemma key_cmp_trans a b k : key_cmp c a b ≤ 0 → key_cmp c b k ≤ 0 → key_cmp c a k ≤ 0.
Proof.
  unfold key_cmp. set (ra := FilterKey c a). set (rb := FilterKey c b). set (rk := FilterKey c k). intros Hab Hbk.
  assert (text_cmp ra rb ≤ 0) as Tab by (destruct (text_cmp_cases ra rb) as [->|[->|E]]; [lia..|rewrite E in Hab; exfalso; by apply Hab]).
  assert (text_cmp rb rk ≤ 0) as Tbk by (destruct (text_cmp_cases rb rk) as [->|[->|E]]; [lia..|rewrite E in Hbk; exfalso; by apply Hbk]).
  pose proof (text_cmp_trans ra rb rk Tab Tbk) as Tak. destruct (text_cmp_cases ra rk) as [E|[E|E]]; [rewrite E; done| |rewrite E in Tak; exfalso; by apply Tak].
  pose proof E as Erk%text_cmp_eq. rewrite E. change (negb (0 =? 0)) with false. cbv iota. clear Tak. revert Tbk Hbk. rewrite <- Erk, (text_cmp_sym ra rb).
  intros Tbk Hbk. assert (text_cmp ra rb = 0) as E0 by lia. rewrite E0 in Hab, Hbk. change (negb (- 0 =? 0)) with false in Hbk. change (negb (0 =? 0)) with false in Hab. cbv iota in Hab, Hbk.
  destruct (_ || _); [done|]. revert Hab Hbk.
  destruct (COMP_cases (key_time c a) (key_time c b)) as [[-> ?]|[[-> ?]|[-> ?]]], (COMP_cases (key_time c b) (key_time c k)) as [[-> ?]|[[-> ?]|[-> ?]]],
    (COMP_cases (key_time c a) (key_time c k)) as [[-> ?]|[[-> ?]|[-> ?]]]; lia.
Qed.

(** *** Short keys *)

Lemma text_cmp_app p q q' : text_cmp (p ++ q) (p ++ q') = text_cmp q q'.
Proof. induction p as [|x p IH]; [done|]. cbn [app text_cmp]. by rewrite Z.gtb_ltb, Z.ltb_irrefl. Qed.

Lemma text_cmp_less p x y q q' : x < y → text_cmp (p ++ x :: q) (p ++ y :: q') = -1.
Proof. intros H. rewrite text_cmp_app. cbn [text_cmp]. by rewrite (proj2 (Z.ltb_lt x y) H). Qed.

(** A key with a byte of its row raised, and cut behind it, is a larger key. *)
Lemma cut_key_spec k i x : key_ok c k → FilterKey c k !! i = Some x → x < 255 →
  key_ok c (cut_key c k i (x + 1)) ∧ FilterKey c (cut_key c k i (x + 1)) = take i (FilterKey c k) ++ [x + 1] ∧
  key_cmp c k (cut_key c k i (x + 1)) < 0.
Proof.
  intros Hk Hi Hx. pose proof time_len_nonneg as H0. pose proof (zlen_row k Hk) as Hl. pose proof Hk as [Hb Hlen].
  pose proof (lookup_lt_Some _ _ _ Hi) as Hil. unfold zlen in Hl.
  assert (take i k = take i (FilterKey c k)) as Et by (unfold FilterKey; rewrite take_take, Nat.min_l; [done|unfold zlen; lia]).
  assert (Forall is_byte (FilterKey c k)) as Hbr by (by apply Forall_take).
  assert (0 ≤ x < 256) as Hbx by (by eapply (Forall_lookup_1 _ _ _ _ Hbr)).
  set (time := drop (Z.to_nat (zlen k - time_len_ c)) k).
  assert (zlen time = time_len_ c) as Ht by (unfold time, zlen in *; rewrite length_drop; lia).
  assert (cut_key c k i (x + 1) = (take i (FilterKey c k) ++ [x + 1]) ++ time) as E.
  { unfold cut_key. fold time. by rewrite Et, <- app_assoc. }
  rewrite E. assert (FilterKey c ((take i (FilterKey c k) ++ [x + 1]) ++ time) = take i (FilterKey c k) ++ [x + 1]) as Er by (by apply row_app).
  split; [|split; [done|]].
  - split.
    + apply Forall_app_2; [apply Forall_app_2; [by apply Forall_take|apply Forall_singleton; lia]|by apply Forall_drop].
    + rewrite !zlen_app. pose proof (zlen_nonneg (take i (FilterKey c k))). change (zlen [x + 1]) with 1. lia.
  - assert (text_cmp (FilterKey c k) (take i (FilterKey c k) ++ [x + 1]) = -1) as Et'.
    { rewrite <- (take_drop_middle _ _ _ Hi) at 1. by rewrite text_cmp_less by lia. }
    unfold key_cmp. by rewrite Er, Et'.
Qed.

Lemma common_prefix_spec n a b (d := common_prefix n a b) : (n ≤ length a)%nat → (n ≤ length b)%nat →
  (d ≤ n)%nat ∧ take d a = take d b.
Proof.
  subst d. revert a b. induction n as [|n IH]; intros [|x a] [|y b] Ha Hb; cbn [common_prefix length] in *; try (split; [lia|done]).
  destruct (Z.eqb_spec x y) as [->|]; [|split; [lia|done]]. destruct (IH a b) as [Hd E]; [lia..|]. split; [lia|]. cbn [take]. by rewrite E.
Qed.

Lemma row_lookup k i : key_ok c k → Z.of_nat i < zlen k - time_len_ c → FilterKey c k !! i = k !! i.
Proof. intros _ Hi. unfold FilterKey. apply lookup_take_lt. lia. Qed.

Lemma separator_spec start limit : key_ok c start → key_ok c limit → key_cmp c start limit < 0 →
  ∃ k, FindShortestSeparator c start limit = Some k ∧ key_ok c k ∧ key_cmp c start k ≤ 0 ∧ key_cmp c k limit < 0.
Proof.
  intros Hs Hl Hlt. pose proof time_len_nonneg as H0. pose proof (zlen_row start Hs) as Ls. pose proof (zlen_row limit Hl) as Ll.
  assert (∃ k, Some start = Some k ∧ key_ok c k ∧ key_cmp c start k ≤ 0 ∧ key_cmp c k limit < 0) as Hsame.
  { exists start. split; [done|]. split; [done|]. split; [|done]. by rewrite (proj2 (key_cmp_eq start start)) by auto. }
  unfold FindShortestSeparator. cbv zeta. rewrite (proj2 (Z.ltb_ge _ _)) by (destruct Hs, Hl; lia).
  set (n := Z.to_nat _). destruct (common_prefix_spec n start limit) as [Hd Et]; [unfold n, zlen in *; lia..|]. set (d := common_prefix n start limit) in *.
  destruct (Z.leb_spec (Z.min (zlen start) (zlen limit) - time_len_ c) (Z.of_nat d)) as [|Hdn]; [done|].
  assert (is_Some (start !! d)) as [x Hx] by (apply lookup_lt_is_Some; unfold zlen in *; lia).
  assert (is_Some (limit !! d)) as [y Hy] by (apply lookup_lt_is_Some; unfold zlen in *; lia).
  rewrite Hx, Hy. cbn [mbind option_bind]. destruct ((x <? 255) && (x + 1 <? y)) eqn:E; [|done]. apply andb_prop in E as [Hx1%Z.ltb_lt Hxy%Z.ltb_lt].
  rewrite <- row_lookup in Hx, Hy by (done || lia). destruct (cut_key_spec start d x Hs Hx Hx1) as (Hok & Er & Hup).
  assert (key_cmp c (cut_key c start d (x + 1)) limit = -1) as Hcmp.
  { unfold key_cmp. rewrite Er, <- (take_drop_middle _ _ _ Hy).
    replace (take d (FilterKey c limit)) with (take d (FilterKey c start)); [by rewrite text_cmp_less|].
    unfold FilterKey. rewrite !take_take, !Nat.min_l by lia. done. }
  rewrite (Compare_spec _ _ Hok Hl), Hcmp. cbn [mbind option_bind]. eexists. split; [done|]. split; [done|]. split; lia.
Qed.

Lemma successor_loop_spec k n i : key_ok c k → Z.of_nat (n + i) = zlen k - time_len_ c →
  let s := successor_loop c n i k (drop i k) in key_ok c s ∧ key_cmp c k s ≤ 0.
Proof.
  intros Hk. revert i. induction n as [|n IH]; intros i Hi s; subst s.
  { cbn [successor_loop]. split; [done|]. by rewrite (proj2 (key_cmp_eq k k)) by auto. }
  pose proof time_len_nonneg as H0. assert (is_Some (k !! i)) as [x Hx] by (apply lookup_lt_is_Some; unfold zlen in *; lia).
  rewrite (drop_S _ _ _ Hx). cbn [successor_loop]. destruct (Z.eqb_spec x 0xff) as [|Hne]; cbn [negb]; [apply IH; lia|].
  rewrite <- row_lookup in Hx by (done || lia). destruct (cut_key_spec k i x Hk Hx) as (Hok & _ & Hup); [|split; [done|lia]].
  assert (0 ≤ x < 256); [|lia]. rewrite row_lookup in Hx by (done || lia). destruct Hk as [Hb _]. exact (Forall_lookup_1 _ _ _ _ Hb Hx).
Qed.

(** C35: the comparator keeps the promises that leveldb relies on.  Keys are bytes with
    room for the time.  Comparing them never aborts, is antisymmetric and
    transitive, and finds keys equal that have the same row and, where times count,
    the same time.  The separator of two keys is between them, the second
    excluded; the successor of a key is not below it; both are keys. *)
Theorem comparator_contract a b k : key_ok c a → key_ok c b → key_ok c k →
  ∃ x y z, Compare c a b = Some x ∧ Compare c b a = Some (- x) ∧ Compare c b k = Some y ∧ Compare c a k = Some z ∧
    (x ≤ 0 → y ≤ 0 → z ≤ 0) ∧
    (x = 0 ↔ FilterKey c a = FilterKey c b ∧ ((time_len_ c =? 0) || use_host_time_ c = true ∨ key_time c a = key_time c b)) ∧
    (x < 0 → ∃ s u v, FindShortestSeparator c a b = Some s ∧ key_ok c s ∧ Compare c a s = Some u ∧ Compare c s b = Some v ∧ u ≤ 0 ∧ v < 0) ∧
    ∃ s u, FindShortSuccessor c a = Some s ∧ key_ok c s ∧ Compare c a s = Some u ∧ u ≤ 0.
Proof.
  intros Ha Hb Hk. exists (key_cmp c a b), (key_cmp c b k), (key_cmp c a k).
  rewrite !Compare_spec, (key_cmp_sym a b) by done. do 4 (split; [done|]). split; [apply key_cmp_trans|]. split; [apply key_cmp_eq|]. split.
  - intros Hlt. destruct (separator_spec a b Ha Hb Hlt) as (s & E & Hs & Hu & Hv). exists s, (key_cmp c a s), (key_cmp c s b). by rewrite !Compare_spec.
  - destruct (successor_loop_spec a (Z.to_nat (zlen a - time_len_ c)) 0 Ha) as [Hs Hu]; [destruct Ha; lia|].
    unfold FindShortSuccessor. rewrite (proj2 (Z.ltb_ge _ _)) by (destruct Ha; lia). rewrite drop_0 in Hs, Hu.
    eexists _, _. split; [done|]. split; [done|]. split; [by apply Compare_spec|done].
Qed.
End order.

(** Rows [ab] and [ad] at the times 5 and 1; the separator is [ac], at the time of the
    first. *)
Lemma comparator_contract_witness :
  let c := Comparator 4 1 false 0 in
  ∃ s u v, FindShortestSeparator c ([97; 98] ++ le_bytes 4 5) ([97; 100] ++ le_bytes 4 1) = Some s ∧
    Compare c ([97; 98] ++ le_bytes 4 5) s = Some u ∧ Compare c s ([97; 100] ++ le_bytes 4 1) = Some v ∧ u ≤ 0 ∧ v < 0 ∧ s = [97; 99] ++ le_bytes 4 5.
Proof.
  assert (∀ k, forallb (λ b, (0 <=? b) && (b <? 256)) k = true → 4 ≤ zlen k → key_ok (Comparator 4 1 false 0) k) as Hok.
  { intros k H Hl. split; [|done]. apply List.Forall_forall. intros b Hb. apply (proj1 (List.forallb_forall _ _) H) in Hb. lia. }
  destruct (comparator_contract (Comparator 4 1 false 0) (or_intror (or_introl eq_refl)) ([97; 98] ++ le_bytes 4 5) ([97; 100] ++ le_bytes 4 1) ([97; 98] ++ le_bytes 4 5))
    as (x & y & z & Ex & _ & _ & _ & _ & _ & Hsep & _); [apply Hok; [vm_compute; reflexivity|vm_compute; discriminate]..|].
  assert (Some (-1) = Some x) as [= <-] by (rewrite <- Ex; vm_compute; reflexivity).
  destruct (Hsep eq_refl) as (s & u & v & Es & _ & Eu & Ev & Hu & Hv). exists s, u, v. do 5 (split; [assumption|]).
  assert (Some s = Some ([97; 99] ++ le_bytes 4 5)) as [= ->] by (rewrite <- Es; vm_compute; reflexivity). reflexivity.
Defined.
