(* ===== verification/DynHash.v ===== *)
(** * Growing hash index of full-text columns ([src/storage/docdb/dynamic_hash_index.c])

    A list of hash tables, each over a document list whose rows are taken in
    sequence, since a document has several words.  Words go to the last table;
    when its document list is full, or too many buckets on the probe path of a
    word are taken, a new table is opened.  Lookups unite all tables. *)

From Stdlib Require Import ZArith Lia.
From stdpp Require Import base option list numbers gmap sets.
From S2P Require Import Prelude FileOp LowData RowidList SetOperator Doclist HashIndex.

Definition DOC_MULTIPLE_NUM : Z := 2.
Definition CONFLICT_RETRY_NUM : Z := 100.

Record dyhash_bucket := DBucket { dy_hash : Z; dy_count : Z; dy_offset : Z }.

Record dyhash_single_index := Single {
  sg_hashmod : Z;                   (* also [limit] *)
  sg_index : Z;
  sg_file : list dyhash_bucket;
  sg_table : list dyhash_bucket;    (* [mem_mmaped] *)
  sg_shared : bool;                 (* [mem_mmaped] is a mapping of the file, not private memory *)
  sg_doclist : doclist_manager
}.

(** [head] is the first table, [tail] the last. *)
Record dyhash_index_manager := DyHash {
  singles : list dyhash_single_index;
  dy_hashmod : Z;
  dy_is_full : bool
}.

(** The files of table number [index]; [None] is a missing file. *)
Definition dyhash_files := Z → option (list dyhash_bucket) * option (list Z).

(** Outcomes of mapping a table and its document list, by table number. *)
Definition dyhash_io := Z → bool * bool.

Definition set_single (s : dyhash_single_index) (bs : list dyhash_bucket) (dl : doclist_manager)
    : dyhash_single_index :=
  Single (sg_hashmod s) (sg_index s) (sg_file s) bs (sg_shared s) dl.

Definition set_single_file (s : dyhash_single_index) (f : list dyhash_bucket) (dl : doclist_manager)
    : dyhash_single_index :=
  Single (sg_hashmod s) (sg_index s) f (sg_table s) (sg_shared s) dl.

Definition set_singles (d : dyhash_index_manager) (l : list dyhash_single_index) : dyhash_index_manager :=
  DyHash l (dy_hashmod d) (dy_is_full d).

Section init.
Context (all_mmap : bool) (io : dyhash_io) (fs : dyhash_files).

(** NULL without files to open; a failed mapping stops the program. *)
Definition create_single_index (index hash_mod : Z) (full is_create : bool)
    : option (ptr dyhash_single_index) :=
  let '(f, fd) := fs index in
  if negb is_create && bool_decide (f = None) then Some NULL
  else
    let '(m, f) :=
      if full || all_mmap
      then get_mmap_memory (DBucket 0 0 0) 16 (fst (io index)) (default [] f) hash_mod
      else (alloc_file_memory (DBucket 0 0 0) (fst (io index)) (default [] f) hash_mod, default [] f) in
    m ← m;
    dl ← doclist_init_v2 all_mmap (snd (io index)) (default [] fd) (u32 (hash_mod * DOC_MULTIPLE_NUM)) full
           (if is_create then 1 else 0) (bool_decide (is_Some fd));
    match dl with
    | NULL => Some NULL
    | Ptr dl => Some (Ptr (Single hash_mod index f m (full || all_mmap) dl))
    end.

(** The [do ... while (1)]: tables 2, 3, ... as long as their files exist; the
    table number has 16 bits. *)
Fixpoint open_singles (fuel : nat) (i hash_mod : Z) (full : bool) : option (list dyhash_single_index) :=
  match fuel with
  | O => None
  | S fuel =>
      s ← create_single_index i hash_mod full (i =? 1);
      match s with
      | NULL => Some []
      | Ptr s => l ← open_singles fuel (u16 (i + 1)) hash_mod full; Some (s :: l)
      end
  end.

Definition dyhash_index_init (fuel : nat) (row_limit : Z) (full : bool) : option (ptr dyhash_index_manager) :=
  l ← open_singles fuel 1 row_limit full;
  match l with
  | [] => Some NULL
  | _ => Some (Ptr (DyHash l row_limit full))
  end.
End init.

Section dyhash.
Context (get_hash_value : low_data_struct → Z).

(** The result of [insert] on one table: 0, -1 for an empty word, 1 when the
    word needs a new table; [count] is the number of conflicts so far. *)
Fixpoint dyinsert_probe (fuel : nat) (s : dyhash_single_index) (hv loc i count docid : Z)
    : option (Z * dyhash_single_index) :=
  match fuel with
  | O => None
  | S fuel =>
      b ← (sg_table s)⟦i⟧;
      if dy_hash b =? 0 then
        '(off, dl) ← doclist_insert_v2 (sg_doclist s) docid 0 i;
        if off =? u32 (-1) then Some (1, set_single s (sg_table s) dl)
        else if off =? 0 then Some (off, set_single s (sg_table s) dl)
        else
          bs ← (sg_table s)⟦i := DBucket hv (u32 (dy_count b + 1)) off⟧;
          Some (0, set_single s bs dl)
      else if dy_hash b =? hv then
        '(off, dl) ← doclist_insert_v2 (sg_doclist s) docid (dy_offset b) i;
        if off =? u32 (-1) then Some (1, set_single s (sg_table s) dl)
        else if off =? 0 then Some (off, set_single s (sg_table s) dl)
        else
          bs ← (sg_table s)⟦i := DBucket (dy_hash b) (u32 (dy_count b + 1)) off⟧;
          Some (0, set_single s bs dl)
      else
        let i := u32 (i + 1) `mod` sg_hashmod s in
        if count >=? CONFLICT_RETRY_NUM then Some (1, s)
        else if i =? loc then Some (1, s)
        else dyinsert_probe fuel s hv loc i (count + 1) docid
  end.

Definition dyinsert (s : dyhash_single_index) (data : low_data_struct) (docid : Z)
    : option (Z * dyhash_single_index) :=
  if len data =? 0 then Some (-1, s)
  else if sg_hashmod s =? 0 then None    (* division by zero *)
  else
    let hv := get_hash_value data in
    let loc := hv `mod` sg_hashmod s in
    dyinsert_probe (Z.to_nat (sg_hashmod s)) s hv loc loc 0 docid.

(** The new table is private memory, whatever [is_full] of the index. *)
Definition dyhash_index_insert (all_mmap : bool) (io : dyhash_io) (fs : dyhash_files)
    (d : dyhash_index_manager) (data : low_data_struct) (docid : Z)
    : option (Z * dyhash_index_manager) :=
  tail ← last (singles d);
  let front := removelast (singles d) in
  '(ret, tail) ← dyinsert tail data docid;
  let d := set_singles d (front ++ [tail]) in
  if ret =? 1 then
    s ← create_single_index all_mmap io fs (u16 (sg_index tail + 1)) (dy_hashmod d) false true;
    match s with
    | NULL => Some (-1, d)
    | Ptr s =>
        '(ret, s) ← dyinsert s data docid;
        Some (ret, set_singles d (front ++ [tail; s]))
    end
  else Some (ret, d).

(** The bucket of a word, looked for by [query] and [count_query]: they give up
    after [DOC_MULTIPLE_NUM] conflicts. *)
Fixpoint dyquery_probe (fuel : nat) (s : dyhash_single_index) (hv loc i count : Z)
    : option (option dyhash_bucket) :=
  match fuel with
  | O => None
  | S fuel =>
      b ← (sg_table s)⟦i⟧;
      if dy_hash b =? 0 then Some None
      else if dy_hash b =? hv then Some (Some b)
      else
        let i := u32 (i + 1) `mod` sg_hashmod s in
        if count >=? DOC_MULTIPLE_NUM then Some None
        else if i =? loc then Some None
        else dyquery_probe fuel s hv loc i (count + 1)
  end.

Definition dyfind (s : dyhash_single_index) (data : low_data_struct) : option (option dyhash_bucket) :=
  if len data =? 0 then Some None
  else if sg_hashmod s =? 0 then None
  else
    let hv := get_hash_value data in
    let loc := hv `mod` sg_hashmod s in
    dyquery_probe (Z.to_nat (sg_hashmod s)) s hv loc loc 0.

Definition dyquery (s : dyhash_single_index) (data : low_data_struct) : option (ptr rowid_list) :=
  b ← dyfind s data;
  match b with
  | None => Some NULL
  | Some b =>
      m ← mem_mmaped (sg_doclist s);
      get_rowid_list (S (Z.to_nat (row_limit (sg_doclist s)))) m (dy_offset b) (Ptr rowid_list_init)
  end.

Definition count_query (s : dyhash_single_index) (data : low_data_struct) : option Z :=
  b ← dyfind s data;
  Some (default 0 (dy_count <$> b)).

Fixpoint query_singles (l : list dyhash_single_index) (data : low_data_struct) (result : ptr rowid_list)
    : option (ptr rowid_list) :=
  match l with
  | [] => Some result
  | s :: l =>
      temp ← dyquery s data;
      result ← rowid_union result temp;
      query_singles l data result
  end.

Definition dyhash_index_query (d : dyhash_index_manager) (data : low_data_struct) : option (ptr rowid_list) :=
  query_singles (singles d) data NULL.

Fixpoint count_singles (l : list dyhash_single_index) (data : low_data_struct) (result : Z) : option Z :=
  match l with
  | [] => Some result
  | s :: l => n ← count_query s data; count_singles l data (u32 (result + n))
  end.

Definition dyhash_index_count_query (d : dyhash_index_manager) (data : low_data_struct) : option Z :=
  count_singles (singles d) data 0.
End dyhash.

(** The first of [n] rows from [i] on with a document from [docid] on, or the
    row behind them. *)
Fixpoint first_row (n : nat) (m : list Z) (i docid : Z) : option Z :=
  match n with
  | O => Some i
  | S n =>
      '(doc_id, _) ← load_row m (GET_OFFSET i);
      if doc_id >=? docid then Some i else first_row n m (i + 1) docid
  end.

(** The length of a chain and the bucket number at its end. *)
Fixpoint chain_count (fuel : nat) (m : list Z) (next cnt : Z) : option (Z * Z) :=
  match fuel with
  | O => None
  | S fuel =>
      if negb (Z.land next LAST_ROW =? 0) then Some (u32 (cnt + 1), Z.land next 0x7fffffff)
      else '(_, n) ← load_row m next; chain_count fuel m n (u32 (cnt + 1))
  end.

(** The loop [for (i = del_docid - 1; ; i--)]. *)
Fixpoint dyrecover_rows (i : nat) (m : list Z) (limit : Z) (bs : list dyhash_bucket)
    : option (list dyhash_bucket) :=
  match i with
  | O => Some bs
  | S i =>
      '(doc_id, next) ← load_row m (GET_OFFSET (Z.of_nat i));
      if (doc_id =? 0) && (next =? 0) then dyrecover_rows i m limit bs
      else
        '(cnt, bucket_no) ← chain_count (S (Z.to_nat limit)) m next 0;
        b ← bs⟦bucket_no⟧;
        let off := u32 (Z.of_nat i * 8 + 4) in
        bs ← (if dy_offset b <? off then bs⟦bucket_no := DBucket (dy_hash b) cnt off⟧ else Some bs);
        dyrecover_rows i m limit bs
  end.

Definition dyrecover (s : dyhash_single_index) (docid : Z) : option (Z * dyhash_single_index) :=
  let limit := row_limit (sg_doclist s) in
  m ← mem_mmaped (sg_doclist s);
  del ← first_row (Z.to_nat limit) m 0 docid;
  if del =? limit then Some (0, s)
  else
    m ← m⟦0 := del⟧;
    m ← zfill m (1 + 2 * del) (2 * u32 (limit - del)) 0;
    let max_offset := u32 (8 * del + 4) in
    let bs := (λ b, if dy_offset b >=? max_offset then DBucket (dy_hash b) (dy_count b) 0 else b)
                <$> sg_table s in
    bs ← dyrecover_rows (Z.to_nat del) m limit bs;
    let bs := (λ b, if dy_offset b =? 0 then DBucket 0 0 0 else b) <$> bs in
    Some (0, set_single s bs (set_mem (sg_doclist s) m)).

Fixpoint recover_singles (l : list dyhash_single_index) (docid ret : Z)
    : option (Z * list dyhash_single_index) :=
  match l with
  | [] => Some (ret, [])
  | s :: l =>
      '(rc, s) ← dyrecover s docid;
      '(ret, l) ← recover_singles l docid (if rc =? -1 then -1 else ret);
      Some (ret, s :: l)
  end.

Definition dyhash_index_recover (d : dyhash_index_manager) (docid : Z)
    : option (Z * dyhash_index_manager) :=
  '(ret, l) ← recover_singles (singles d) docid 0;
  Some (ret, set_singles d l).

(** Checkpoint and release write every table and document list back.  For a full
    index the tables are synchronised with [msync], which leaves the file of a table
    in private memory as it is. *)
Definition checkpoint_single (all_mmap full : bool) (io : dyhash_io) (s : dyhash_single_index)
    : dyhash_single_index :=
  let '(_, dl) := doclist_checkpoint all_mmap (snd (io (sg_index s))) (sg_doclist s) in
  if full || all_mmap then
    let f := if sg_shared s && fst (io (sg_index s)) then sg_table s ++ drop (length (sg_table s)) (sg_file s)
             else sg_file s in
    set_single_file s f dl
  else
    let '(_, f) := flush_memory (fst (io (sg_index s))) (sg_file s) (Some (sg_table s)) in
    set_single_file s f dl.

Definition dyhash_index_checkpoint (all_mmap : bool) (io : dyhash_io) (d : dyhash_index_manager)
    : dyhash_index_manager :=
  set_singles d (checkpoint_single all_mmap (dy_is_full d) io <$> singles d).

(** The files after the memory is unmapped. *)
Definition dyhash_index_release (all_mmap : bool) (io : dyhash_io) (d : dyhash_index_manager)
    : list (Z * list dyhash_bucket * list Z) :=
  (λ s, (sg_index s, sg_file s, file (sg_doclist s))) <$> singles (dyhash_index_checkpoint all_mmap io d).

(** The loop over the tables: it stops at the first failure; the index counts as
    full once one table has been switched. *)
Fixpoint switch_singles (all_mmap : bool) (io_flush io_switch : dyhash_io) (l : list dyhash_single_index)
    (full : bool) : Z * bool * list dyhash_single_index :=
  match l with
  | [] => (0, full, [])
  | s :: l =>
      let '(rc, f) := flush_memory (fst (io_flush (sg_index s))) (sg_file s) (Some (sg_table s)) in
      let s := set_single_file s f (sg_doclist s) in
      if negb (rc =? 0) then (ERROR_MMAP_SWITCH, full, s :: l)
      else
        let '(rc, m) := switch_mmaped_file (fst (io_switch (sg_index s))) f (Some (sg_table s)) (sg_hashmod s) in
        if negb (rc =? 0) then (ERROR_MMAP_SWITCH, full, s :: l)
        else
          let s := Single (sg_hashmod s) (sg_index s) f (default [] m) true (sg_doclist s) in
          let '(rc, dl) := doclist_mmap_switch all_mmap (snd (io_flush (sg_index s)))
                             (snd (io_switch (sg_index s))) (sg_doclist s) in
          let s := set_single s (sg_table s) dl in
          if negb (rc =? 0) then (ERROR_MMAP_SWITCH, full, s :: l)
          else
            let '(rc, full, l) := switch_singles all_mmap io_flush io_switch l true in
            (rc, full, s :: l)
  end.

Definition dyhash_index_mmap_switch (all_mmap : bool) (io_flush io_switch : dyhash_io)
    (d : dyhash_index_manager) : Z * dyhash_index_manager :=
  if negb (dy_is_full d) && negb all_mmap then
    let '(rc, full, l) := switch_singles all_mmap io_flush io_switch (singles d) (dy_is_full d) in
    (rc, DyHash l (dy_hashmod d) full)
  else (0, d).
