(* ===== verification/DynHashSpec.v ===== *)
(** * The growing hash index finds the documents of a word

    A table is abstracted by the rows it has taken, newest first, with the
    document and the bucket of each, and by the hash that every bucket stands
    for.  The abstract state of the index is the history of the words of the
    documents. *)

From Stdlib Require Import ZArith Lia Sorted.
From stdpp Require Import base option list numbers gmap sets sorting.
From S2P Require Import Prelude FileOp LowData RowidList SetOperator Doclist HashIndex HashIndexSpec Hash DynHash.

Notation row_history := (list (Z * Z)) (only parsing).

(** ** Chains of rows taken in sequence *)

(** The offset of the newest row of bucket [b], 0 without one. *)
Fixpoint top (rows : row_history) (b : Z) : Z :=
  match rows with
  | [] => 0
  | (_, b') :: rows => if decide (b' = b) then GET_OFFSET (zlen rows) else top rows b
  end.

(** The documents of bucket [b], newest first. *)
Fixpoint docs_in (rows : row_history) (b : Z) : list Z :=
  match rows with
  | [] => []
  | (d, b') :: rows => if decide (b' = b) then d :: docs_in rows b else docs_in rows b
  end.

(** What the [next] word of a new row of bucket [b] says. *)
Definition back (rows : row_history) (b : Z) : Z := if top rows b =? 0 then Z.lor LAST_ROW b else top rows b.

Fixpoint taken (m : list Z) (rows : row_history) : Prop :=
  match rows with
  | [] => True
  | (d, b) :: rows => row m (zlen rows) = Some (d, back rows b) ∧ taken m rows
  end.

Lemma top_bound rows b : 0 ≤ top rows b ≤ 8 * zlen rows.
Proof.
  induction rows as [|[d b'] rows IH]; simpl; [unfold zlen; simpl; lia|].
  pose proof (zlen_nonneg rows). unfold GET_OFFSET, zlen in *. simpl. case_decide; lia.
Qed.

Lemma top_docs rows b : top rows b = 0 ↔ docs_in rows b = [].
Proof.
  induction rows as [|[d b'] rows IH]; simpl; [done|]. case_decide; [|done].
  pose proof (zlen_nonneg rows). unfold GET_OFFSET. split; [lia|done].
Qed.

Lemma elem_docs_in rows b d : d ∈ docs_in rows b ↔ (d, b) ∈ rows.
Proof.
  induction rows as [|[d' b'] rows IH]; simpl; [by rewrite !elem_of_nil|].
  rewrite elem_of_cons. case_decide as E.
  - subst b'. rewrite elem_of_cons, IH. split; [intros [->|?]; auto|intros [[= ->]|?]; auto].
  - rewrite IH. split; [auto|intros [[= -> ->]|?]; done].
Qed.

Lemma docs_in_length rows b : (length (docs_in rows b) ≤ length rows)%nat.
Proof. induction rows as [|[d b'] rows IH]; simpl; [done|]. case_decide; simpl; lia. Qed.

Lemma back_mark rows b : 0 ≤ b < 2 ^ 31 → zlen rows < 2 ^ 28 →
  Z.land (back rows b) LAST_ROW = if top rows b =? 0 then LAST_ROW else 0.
Proof.
  intros Hb Hl. pose proof (top_bound rows b). unfold back. destruct (Z.eqb_spec (top rows b) 0).
  - by apply land_last_mark.
  - apply land_last_small. lia.
Qed.

Section chains.
Context (m : list Z).

(** Walking a chain collects the documents of its bucket. *)
Lemma collect_chain fuel rows b l :
  taken m rows → zlen rows < 2 ^ 28 → 0 ≤ b < 2 ^ 31 → top rows b ≠ 0 →
  (length (docs_in rows b) ≤ fuel)%nat → list_tight l → rowid_num l + zlen (docs_in rows b) < 2 ^ 32 →
  ∃ l', get_rowid_list fuel m (top rows b) (Ptr l) = Some (Ptr l') ∧ list_tight l' ∧
    elems l' = elems l ++ docs_in rows b.
Proof.
  revert fuel l. induction rows as [|[d b'] rows IH]; intros fuel l Hm Hl Hb Ht Hf Hti Hmax; [done|].
  destruct Hm as [Hrow Hm]. unfold zlen in Hl. simpl in Hl, Ht, Hf, Hmax |- *.
  case_decide as E; [|apply IH; unfold zlen; auto; lia]. subst b'.
  destruct fuel as [|fuel]; [simpl in Hf; lia|]. cbn [get_rowid_list].
  unfold row in Hrow. rewrite Hrow. cbn [mbind option_bind].
  unfold zlen in Hmax. simpl in Hf, Hmax.
  destruct (rowid_list_add_spec l d Hti) as (l1 & -> & Ht1 & He1); [lia|]. cbn [mbind option_bind].
  assert (rowid_num l1 = rowid_num l + 1) as Hn1.
  { rewrite <- (zlen_elems l1), <- (zlen_elems l), He1, zlen_app by apply lt_wf, Hti || apply Ht1. done. }
  rewrite back_mark by (unfold zlen; lia). unfold back. destruct (Z.eqb_spec (top rows b) 0) as [E|E].
  - exists l1. simpl negb. split; [done|]. split; [done|]. apply top_docs in E. by rewrite He1, E.
  - simpl negb. cbn [orb]. rewrite (proj2 (Z.eqb_neq _ 0)) by done.
    destruct (IH fuel l1) as (l' & ? & ? & He); try done; [unfold zlen; lia|lia|unfold zlen; lia|].
    exists l'. split; [done|]. split; [done|]. by rewrite He, He1, <- app_assoc.
Qed.

(** Following the links of a row counts the chain and ends at its bucket. *)
Lemma count_chain fuel rows b cnt :
  taken m rows → zlen rows < 2 ^ 28 → 0 ≤ b < 2 ^ 31 → (length (docs_in rows b) < fuel)%nat →
  0 ≤ cnt → cnt + zlen (docs_in rows b) + 1 < 2 ^ 32 →
  chain_count fuel m (back rows b) cnt = Some (cnt + zlen (docs_in rows b) + 1, b).
Proof.
  revert fuel cnt. induction rows as [|[d b'] rows IH]; intros fuel cnt Hm Hl Hb Hf Hc Hmax.
  - destruct fuel as [|fuel]; [lia|]. change (back [] b) with (Z.lor LAST_ROW b). cbn [chain_count].
    rewrite land_last_mark, mark_bucket by lia. simpl in Hmax. change (zlen []) with 0 in *.
    simpl negb. cbv iota. rewrite u32_small by lia. do 2 f_equal. simpl. change (zlen []) with 0. lia.
  - destruct Hm as [Hrow Hm]. unfold back. unfold zlen in Hl. simpl in Hl, Hf, Hmax |- *.
    case_decide as E; [|apply IH; unfold zlen; auto; lia]. subst b'.
    pose proof (zlen_nonneg rows). destruct fuel as [|fuel]; [simpl in Hf; lia|].
    rewrite (proj2 (Z.eqb_neq _ 0)) by (unfold GET_OFFSET; lia). cbn [chain_count].
    rewrite offset_land by (unfold zlen in *; lia). simpl negb. cbv iota. unfold row in Hrow. rewrite Hrow.
    cbn [mbind option_bind]. unfold zlen in Hmax. simpl in Hf, Hmax.
    rewrite u32_small by lia. rewrite IH; [|done|unfold zlen; lia|done|lia|lia|unfold zlen; lia].
    do 2 f_equal. unfold zlen. simpl. lia.
Qed.
End chains.

Lemma taken_ext m m' rows :
  taken m rows → (∀ i, 0 ≤ i < zlen rows → row m' i = row m i) → taken m' rows.
Proof.
  induction rows as [|[d b] rows IH]; [done|]. intros [Hr Hm] He. simpl.
  pose proof (zlen_nonneg rows). unfold zlen in *. simpl in He. split; [rewrite He by lia; done|].
  apply IH; [done|]. intros i Hi. apply He. lia.
Qed.

(** ** One table *)

(** The words of a document list of [L] rows: unused rows are zero. *)
Record words_inv (L : Z) (rows : row_history) (m : list Z) : Prop := {
  wi_len : zlen m = DOCLIST_MMAP_SIZE L;
  wi_cur : m⟦0⟧ = Some (zlen rows);
  wi_max : zlen rows ≤ L;
  wi_rows : taken m rows;
  wi_free : ∀ i, zlen rows ≤ i < L → row m i = Some (0, 0)
}.

Record single_inv (N M : Z) (rows : row_history) (hv : Z → Z) (s : dyhash_single_index) : Prop := {
  si_N : 0 < N < 2 ^ 27;
  si_mod : sg_hashmod s = N;
  si_limit : row_limit (sg_doclist s) = 2 * N;
  si_words : ∃ m, mem_mmaped (sg_doclist s) = Some m ∧ words_inv (2 * N) rows m;
  si_len : zlen (sg_table s) = N;
  si_table : ∀ b, 0 ≤ b < N → (sg_table s)⟦b⟧ = Some (DBucket (hv b) (zlen (docs_in rows b)) (top rows b));
  si_range : ∀ d b, (d, b) ∈ rows → 0 ≤ d < M ∧ 0 ≤ b < N;
  si_used : ∀ b, hv b = 0 ↔ docs_in rows b = [];
  si_sorted : StronglySorted (λ x y, y ≤ x) rows.*1;
  si_desc : ∀ b, desc (docs_in rows b)
}.

Lemma row_header m v i : 0 ≤ i → row (<[Z.to_nat 0 := v]> m) i = row m i.
Proof. intros Hi. unfold row. rewrite !load_row_offset. by rewrite !zget_insert_ne by lia. Qed.

Lemma top_row m rows b d ds :
  taken m rows → docs_in rows b = d :: ds → ∃ n, load_row m (top rows b) = Some (d, n).
Proof.
  induction rows as [|[d' b'] rows IH]; simpl; [done|]. intros [Hr Hm] Hd.
  case_decide; [|by apply IH]. injection Hd as -> _. eauto.
Qed.

(** The document list refuses a document not newer than the newest of the chain. *)
Definition refused (rows : row_history) (b d : Z) : bool :=
  match docs_in rows b with [] => false | d' :: _ => d <=? d' end.

Lemma write_row L rows m d b n :
  words_inv L rows m → zlen rows < L → L < 2 ^ 28 → n = back rows b →
  ∃ m1, store_row m (GET_OFFSET (zlen rows)) d n = Some m1 ∧ m1⟦0⟧ = Some (zlen rows) ∧ zlen m1 = zlen m ∧
    words_inv L ((d, b) :: rows) (<[Z.to_nat 0 := zlen rows + 1]> m1).
Proof.
  intros Hw Hl HL ->. pose proof (zlen_nonneg rows) as H0. destruct Hw as [Hlen Hcur Hmax Hrows Hfree].
  destruct (store_row_spec m L (zlen rows) d (back rows b) Hlen) as (m1 & Hs & Hl1 & Hc1 & Hr1); [lia|].
  exists m1. split; [done|]. split; [by rewrite Hc1|]. split; [congruence|].
  assert (zlen ((d, b) :: rows) = zlen rows + 1) as Hz by (unfold zlen; simpl; lia).
  split; rewrite ?zlen_insert, ?Hz; try done; try lia.
  - apply zget_insert_eq. rewrite Hl1. unfold DOCLIST_MMAP_SIZE. lia.
  - simpl. rewrite row_header by done. rewrite Hr1, decide_True by done. split; [done|].
    eapply taken_ext; [done|]. intros i Hi. rewrite row_header, Hr1, decide_False by lia. done.
  - intros i Hi. rewrite row_header, Hr1, decide_False by lia. apply Hfree. lia.
Qed.

Lemma insert_row L rows dl m d b :
  mem_mmaped dl = Some m → row_limit dl = L → L < 2 ^ 28 → words_inv L rows m →
  if decide (zlen rows = L) then doclist_insert_v2 dl d (top rows b) b = Some (u32 (-1), dl)
  else if refused rows b d then doclist_insert_v2 dl d (top rows b) b = Some (0, dl)
  else ∃ m', doclist_insert_v2 dl d (top rows b) b = Some (GET_OFFSET (zlen rows), set_mem dl m') ∧
    words_inv L ((d, b) :: rows) m'.
Proof.
  intros Em El HL Hw. pose proof (zlen_nonneg rows) as H0. pose proof (wi_max _ _ _ Hw) as Hmax.
  unfold doclist_insert_v2. rewrite Em. cbn [mbind option_bind]. rewrite (wi_cur _ _ _ Hw). cbn [mbind option_bind].
  rewrite El. case_decide as E; [by rewrite E, Z.eqb_refl|]. rewrite (proj2 (Z.eqb_neq _ _)) by done.
  destruct (write_row L rows m d b (back rows b) Hw) as (m1 & Hs & Hc & Hl1 & Hw1); [lia|done|done|].
  assert (m1⟦0 := u32 (zlen rows + 1)⟧ = Some (<[Z.to_nat 0 := zlen rows + 1]> m1)) as Hk.
  { rewrite zset_in by (rewrite Hl1, (wi_len _ _ _ Hw); unfold DOCLIST_MMAP_SIZE; lia).
    by rewrite u32_small by lia. }
  assert (u32 (zlen rows * 8 + 4) = GET_OFFSET (zlen rows)) as Ho by (rewrite u32_small; unfold GET_OFFSET; lia).
  unfold refused, back in *. destruct (docs_in rows b) as [|d' ds] eqn:Ed.
  - apply top_docs in Ed. rewrite Ed in *. simpl (0 =? 0) in *. cbv iota in *. cbn [mbind option_bind].
    rewrite Hs. cbn [mbind option_bind]. rewrite Hk. cbn [mbind option_bind]. rewrite Ho. eauto.
  - assert (top rows b ≠ 0) as Ht by (intros Ht; apply top_docs in Ht; by rewrite Ht in Ed).
    rewrite (proj2 (Z.eqb_neq _ 0)) in * by done.
    destruct (top_row m rows b d' ds (wi_rows _ _ _ Hw) Ed) as [n ->].
    cbn [fmap option_fmap option_map mbind option_bind]. destruct (d <=? d'); [done|].
    rewrite Hs. cbn [mbind option_bind]. rewrite Hk. cbn [mbind option_bind]. rewrite Ho. eauto.
Qed.

(** ** Probe paths *)

(** How many buckets behind its home [k `mod` N] key [k] has bucket [b]. *)
Definition distance (N k b : Z) : Z := (b - k) `mod` N.

(** The buckets between the home of [k] and [b] have rows, of other keys. *)
Definition paved (N : Z) (rows : row_history) (hv : Z → Z) (k b : Z) : Prop :=
  ∀ j, 0 ≤ j < distance N k b → docs_in rows ((k + j) `mod` N) ≠ [] ∧ hv ((k + j) `mod` N) ≠ k.

(** When a row was added the path to its bucket was paved. *)
Fixpoint paths (N : Z) (rows : row_history) (hv : Z → Z) : Prop :=
  match rows with
  | [] => True
  | (_, b) :: rows => paved N rows hv (hv b) b ∧ paths N rows hv
  end.

Lemma distance_at N k t : 0 ≤ t < N → distance N k ((k + t) `mod` N) = t.
Proof.
  intros Ht. unfold distance. rewrite Zminus_mod_idemp_l. replace (k + t - k) with t by lia. by apply Z.mod_small.
Qed.

Lemma at_distance N k b : 0 ≤ b < N → (k + distance N k b) `mod` N = b.
Proof.
  intros Hb. unfold distance. rewrite Zplus_mod_idemp_r. replace (k + (b - k)) with b by lia. by apply Z.mod_small.
Qed.

Lemma docs_in_cons rows x b c : docs_in rows c ≠ [] → docs_in ((x, b) :: rows) c ≠ [].
Proof. simpl. by case_decide. Qed.

Lemma paths_paved N rows hv x b : paths N rows hv → (x, b) ∈ rows → paved N rows hv (hv b) b.
Proof.
  induction rows as [|[y c] rows IH]; [by intros _ ?%elem_of_nil|]. intros [Hp Hps] Hin j Hj.
  assert (docs_in rows ((hv b + j) `mod` N) ≠ [] ∧ hv ((hv b + j) `mod` N) ≠ hv b) as [Hd Hk].
  { apply elem_of_cons in Hin as [[= _ ->]|Hin]; [by apply Hp|by apply (IH Hps Hin)]. }
  split; [by apply docs_in_cons|done].
Qed.

(** Two buckets of one key are the same. *)
Lemma paths_unique N rows hv x y b c :
  paths N rows hv → (x, b) ∈ rows → (y, c) ∈ rows → 0 ≤ b < N → 0 ≤ c < N → hv b = hv c → b = c.
Proof.
  intros Hp Hb Hc Hbr Hcr E. pose proof (at_distance N (hv b) b Hbr) as Eb. pose proof (at_distance N (hv b) c Hcr) as Ec.
  pose proof (Z.mod_pos_bound (b - hv b) N ltac:(lia)). pose proof (Z.mod_pos_bound (c - hv b) N ltac:(lia)).
  fold (distance N (hv b) b) in *. fold (distance N (hv b) c) in *.
  destruct (Z.lt_trichotomy (distance N (hv b) b) (distance N (hv b) c)) as [Hlt|[Heq|Hlt]].
  - destruct (paths_paved _ _ _ _ _ Hp Hc (distance N (hv b) b)) as [_ Hne]; [rewrite <- E; lia|].
    rewrite <- E, Eb in Hne. congruence.
  - congruence.
  - destruct (paths_paved _ _ _ _ _ Hp Hb (distance N (hv b) c)) as [_ Hne]; [lia|]. rewrite Ec in Hne. congruence.
Qed.

Lemma paths_ext N rows hv hv' :
  (∀ x b, (x, b) ∈ rows → hv' b = hv b) → paths N rows hv → paths N rows hv'.
Proof.
  induction rows as [|[x b] rows IH]; [done|]. intros E [Hp Hps].
  assert (∀ y c, (y, c) ∈ rows → hv' c = hv c) as E' by (intros y c Hin; apply (E y); by right).
  split; [|by apply IH]. rewrite (E x b) by left. intros j Hj. destruct (Hp j Hj) as [Hd Hk]. split; [done|].
  destruct (docs_in rows ((hv b + j) `mod` N)) as [|y l] eqn:Ed; [done|].
  rewrite (E' y); [done|]. apply elem_docs_in. rewrite Ed. left.
Qed.

Lemma paths_app N newer older hv : paths N (newer ++ older) hv → paths N older hv.
Proof. induction newer as [|[x b] newer IH]; [done|]. intros [_ Hp]. by apply IH. Qed.

Lemma paths_cons N rows hv x b k :
  paths N rows hv → (∀ b', hv b' = 0 ↔ docs_in rows b' = []) → hv b = 0 ∨ hv b = k → paved N rows hv k b →
  paths N ((x, b) :: rows) (upd hv b k).
Proof.
  intros Hps Hu Hb Hp.
  assert (∀ c, docs_in rows c ≠ [] → upd hv b k c = hv c) as E.
  { intros c Hc. unfold upd. case_decide as Ec; [|done]. subst c. destruct Hb as [E0|E0]; [|done].
    by apply Hu in E0. }
  split.
  - replace (upd hv b k b) with k by (unfold upd; by rewrite decide_True).
    intros j Hj. destruct (Hp j Hj) as [Hd Hk]. by rewrite E.
  - apply (paths_ext N rows hv); [|done]. intros y c Hin. apply E. intros E0. apply elem_docs_in in Hin.
    rewrite E0 in Hin. by apply elem_of_nil in Hin.
Qed.

Section single.
Context (N M : Z) (rows : row_history) (hv : Z → Z) (s : dyhash_single_index).
Context (Hs : single_inv N M rows hv s).

Lemma single_inv_cons d b k m c :
  0 ≤ d < M → 0 ≤ b < N → k ≠ 0 → hv b = 0 ∨ hv b = k → (∀ x, x ∈ rows.*1 → x ≤ d) → refused rows b d = false →
  words_inv (2 * N) ((d, b) :: rows) m → c = zlen (docs_in rows b) + 1 →
  single_inv N M ((d, b) :: rows) (upd hv b k)
    (set_single s (<[Z.to_nat b := DBucket k c (GET_OFFSET (zlen rows))]> (sg_table s)) (set_mem (sg_doclist s) m)).
Proof.
  intros Hd Hb Hk Hh Hle Hr Hw ->. destruct Hs as [HN Hm Hl _ Hlen Ht Hrg Hu Hso Hde].
  split; cbn [set_single set_mem sg_hashmod sg_doclist sg_table row_limit mem_mmaped]; try done.
  - eauto.
  - by rewrite zlen_insert.
  - intros b' Hb'. unfold upd. simpl. destruct (decide (b' = b)) as [->|Hne].
    + rewrite !decide_True by done. rewrite zget_insert_eq by lia. do 2 f_equal. unfold zlen. simpl. lia.
    + rewrite !(decide_False (P:=b = b')) by done. rewrite zget_insert_ne by lia. by apply Ht.
  - intros d' b' [[= -> ->]|Hin]%elem_of_cons; [done|by apply Hrg].
  - intros b'. unfold upd. simpl. destruct (decide (b' = b)) as [->|Hne].
    + by rewrite decide_True by done.
    + rewrite decide_False by done. apply Hu.
  - simpl. constructor; [done|]. apply List.Forall_forall. intros x Hx. by apply Hle, list_elem_of_In.
  - intros b'. simpl. case_decide as E; [|done]. subst b'. apply desc_cons; [done|].
    intros y Hy. unfold refused in Hr. pose proof (Hde b) as Hdb. destruct (docs_in rows b) as [|d' ds]; [by apply elem_of_nil in Hy|].
    apply Z.leb_gt in Hr. apply desc_cons_inv in Hdb as [_ Hdb].
    apply elem_of_cons in Hy as [->|Hy]; [done|]. specialize (Hdb y Hy). lia.
Qed.

(** What an insertion of key [k] into bucket [b] can do. *)
Definition outcome (d k b rc : Z) (s' : dyhash_single_index) : Prop :=
  (rc = 1 ∧ s' = s ∧ zlen rows = 2 * N) ∨
  (rc = 0 ∧ s' = s ∧ (d, b) ∈ rows ∧ hv b = k) ∨
  (rc = 0 ∧ single_inv N M ((d, b) :: rows) (upd hv b k) s').

Lemma set_single_same : set_single s (sg_table s) (sg_doclist s) = s.
Proof. by destruct s. Qed.

Lemma refused_in b d : (∀ x, x ∈ rows.*1 → x ≤ d) → refused rows b d = true → (d, b) ∈ rows.
Proof.
  intros Hle. unfold refused. destruct (docs_in rows b) as [|d' ds] eqn:E; [done|]. intros Hd%Z.leb_le.
  assert ((d', b) ∈ rows) as Hin by (apply elem_docs_in; rewrite E; left).
  specialize (Hle d' ltac:(by apply (list_elem_of_fmap_2 fst) in Hin)). by replace d with d' by lia.
Qed.

(** A free bucket or the bucket of the key takes the document. *)
Lemma insert_here fuel d k loc t b :
  0 ≤ d < M → 0 ≤ b < N → k ≠ 0 → hv b = 0 ∨ hv b = k → (∀ x, x ∈ rows.*1 → x ≤ d) →
  ∃ rc s', dyinsert_probe (S fuel) s k loc b t d = Some (rc, s') ∧ outcome d k b rc s'.
Proof.
  intros Hd Hb Hk Hh Hle. destruct (si_words _ _ _ _ _ Hs) as (m & Em & Hw). pose proof (si_N _ _ _ _ _ Hs) as HN.
  pose proof (zlen_nonneg rows) as H0. pose proof (zlen_nonneg (docs_in rows b)).
  pose proof (docs_in_length rows b) as Hdl. pose proof (wi_max _ _ _ Hw) as Hmax.
  assert (u32 (zlen (docs_in rows b) + 1) = zlen (docs_in rows b) + 1) as Hc by (apply u32_small; unfold zlen in *; lia).
  cbn [dyinsert_probe]. rewrite (si_table _ _ _ _ _ Hs b Hb). cbn [mbind option_bind dy_hash dy_count dy_offset].
  pose proof (insert_row (2 * N) rows (sg_doclist s) m d b Em (si_limit _ _ _ _ _ Hs) ltac:(lia) Hw) as Hi.
  assert (hv b = 0 → top rows b = 0) as Htop by (intros E; by apply top_docs, (si_used _ _ _ _ _ Hs)).
  assert (∀ h, h = k →
    ∃ rc s', ('(off, dl) ← doclist_insert_v2 (sg_doclist s) d (top rows b) b;
      if off =? u32 (-1) then Some (1, set_single s (sg_table s) dl)
      else if off =? 0 then Some (off, set_single s (sg_table s) dl)
      else bs ← (sg_table s)⟦b := DBucket h (u32 (zlen (docs_in rows b) + 1)) off⟧; Some (0, set_single s bs dl))
      = Some (rc, s') ∧ outcome d k b rc s') as Hrun.
  { intros h ->. rewrite Hc. case_decide as Ef.
    { rewrite Hi. cbn [mbind option_bind]. rewrite Z.eqb_refl, set_single_same. eexists _, _. split; [done|]. by left. }
    destruct (refused rows b d) eqn:Er.
    { rewrite Hi. cbn [mbind option_bind]. change (0 =? u32 (-1)) with false. change (0 =? 0) with true. cbv iota.
      rewrite set_single_same. eexists _, _. split; [done|]. right; left. pose proof (refused_in b d Hle Er) as Hin.
      split_and!; try done. destruct Hh as [E|E]; [|done]. apply (si_used _ _ _ _ _ Hs) in E.
      apply elem_docs_in in Hin. rewrite E in Hin. by apply elem_of_nil in Hin. }
    destruct Hi as (m' & -> & Hw'). cbn [mbind option_bind].
    rewrite (proj2 (Z.eqb_neq _ (u32 (-1)))) by (change (u32 (-1)) with 4294967295; unfold GET_OFFSET; lia).
    rewrite (proj2 (Z.eqb_neq _ 0)) by (unfold GET_OFFSET; lia).
    rewrite zset_in by (rewrite (si_len _ _ _ _ _ Hs); lia). cbn [mbind option_bind].
    eexists _, _. split; [done|]. right; right. split; [done|]. by apply single_inv_cons. }
  destruct (Z.eqb_spec (hv b) 0) as [E|E].
  - rewrite (Htop E) in Hrun. by apply Hrun.
  - rewrite (proj2 (Z.eqb_eq (hv b) k)) by tauto. apply Hrun. tauto.
Qed.

Lemma insert_probe_outcome fuel d k t :
  0 ≤ d < M → 0 ≤ t → t + Z.of_nat fuel = N → (0 < fuel)%nat → k ≠ 0 → (∀ x, x ∈ rows.*1 → x ≤ d) →
  (∀ j, 0 ≤ j < t → hv ((k + j) `mod` N) ≠ 0 ∧ hv ((k + j) `mod` N) ≠ k) →
  ∃ rc s', dyinsert_probe fuel s k (k `mod` N) ((k + t) `mod` N) t d = Some (rc, s') ∧
    ((rc = 1 ∧ s' = s ∧ (0 < t ∨ hv (k `mod` N) ≠ 0)) ∨
     ∃ b, 0 ≤ b < N ∧ (hv b = 0 ∨ hv b = k) ∧ paved N rows hv k b ∧ outcome d k b rc s').
Proof.
  intros Hd. revert t. induction fuel as [|fuel IH]; intros t Ht Hf Hpos Hk Hle Hpast; [lia|].
  pose proof (si_N _ _ _ _ _ Hs) as HN. pose proof (Z.mod_pos_bound (k + t) N ltac:(lia)) as Hb.
  set (b := (k + t) `mod` N) in *.
  destruct (decide (hv b = 0 ∨ hv b = k)) as [Hh|Hh].
  { destruct (insert_here fuel d k (k `mod` N) t b) as (rc & s' & ? & ?); try done. exists rc, s'. split; [done|]. right.
    exists b. do 2 (split; [done|]). split; [|done]. intros j Hj. unfold b in Hj. rewrite distance_at in Hj by lia.
    destruct (Hpast j Hj) as [Hn0 ?]. split; [|done]. intros E. by apply Hn0, (si_used _ _ _ _ _ Hs). }
  assert (0 < t ∨ hv (k `mod` N) ≠ 0) as Hused.
  { destruct (decide (t = 0)) as [->|]; [right|left; lia]. unfold b in Hh. rewrite Z.add_0_r in Hh. tauto. }
  cbn [dyinsert_probe]. rewrite (si_table _ _ _ _ _ Hs b Hb). cbn [mbind option_bind dy_hash].
  rewrite !(proj2 (Z.eqb_neq _ _)) by tauto. rewrite (si_mod _ _ _ _ _ Hs). unfold b. rewrite probe_next by lia.
  destruct (t >=? CONFLICT_RETRY_NUM); [eauto 10|].
  destruct (Z.eqb_spec ((k + (t + 1)) `mod` N) (k `mod` N)) as [E|E]; [eauto 10|].
  destruct fuel as [|fuel].
  { exfalso. apply E. replace (k + (t + 1)) with (k + 1 * N) by lia. by rewrite Z.mod_add by lia. }
  destruct (IH (t + 1)) as (rc & s' & Hr & Ho); try done; try lia.
  { intros j Hj. destruct (decide (j = t)) as [->|]; [|apply Hpast; lia]. fold b. tauto. }
  exists rc, s'. split; [exact Hr|]. destruct Ho as [(-> & -> & _)|Ho]; [left; auto|by right].
Qed.

(** A lookup stops at a bucket of the key, if at all. *)
Lemma query_probe_outcome fuel k loc t :
  0 ≤ loc < N → 0 ≤ t → t + Z.of_nat fuel = N → (0 < fuel)%nat →
  ∃ r, dyquery_probe fuel s k loc ((loc + t) `mod` N) t = Some r ∧
    ∀ x, r = Some x → ∃ b, 0 ≤ b < N ∧ hv b = k ∧ x = DBucket k (zlen (docs_in rows b)) (top rows b).
Proof.
  intros Hl. revert t. induction fuel as [|fuel IH]; intros t Ht Hf Hpos; [lia|].
  pose proof (si_N _ _ _ _ _ Hs) as HN. pose proof (Z.mod_pos_bound (loc + t) N ltac:(lia)) as Hb.
  cbn [dyquery_probe]. rewrite (si_table _ _ _ _ _ Hs _ Hb). cbn [mbind option_bind dy_hash].
  destruct (Z.eqb_spec (hv ((loc + t) `mod` N)) 0); [by eexists|].
  destruct (Z.eqb_spec (hv ((loc + t) `mod` N)) k) as [E|E].
  { eexists. split; [done|]. intros x [= <-]. exists ((loc + t) `mod` N). rewrite E. split; [lia|done]. }
  rewrite (si_mod _ _ _ _ _ Hs), probe_next by lia.
  destruct (t >=? DOC_MULTIPLE_NUM); [by eexists|].
  destruct (Z.eqb_spec ((loc + (t + 1)) `mod` N) loc) as [E'|E']; [by eexists|].
  destruct fuel as [|fuel]; [|apply IH; lia].
  exfalso. apply E'. replace (loc + (t + 1)) with (loc + 1 * N) by lia. rewrite Z.mod_add by lia. by apply Z.mod_small.
Qed.

(** A key within reach of its home is found in its bucket. *)
Lemma query_probe_found fuel k t b :
  0 ≤ b < N → k ≠ 0 → hv b = k → paved N rows hv k b → distance N k b ≤ DOC_MULTIPLE_NUM →
  0 ≤ t ≤ distance N k b → t + Z.of_nat fuel = N →
  ∃ x, dyquery_probe fuel s k (k `mod` N) ((k + t) `mod` N) t = Some (Some x).
Proof.
  intros Hb Hk Hh Hp Hnear. pose proof (si_N _ _ _ _ _ Hs) as HN.
  pose proof (Z.mod_pos_bound (b - k) N ltac:(lia)) as Hdist. fold (distance N k b) in Hdist.
  revert t. induction fuel as [|fuel IH]; intros t Ht Hf; [lia|]. cbn [dyquery_probe].
  rewrite (si_table _ _ _ _ _ Hs) by (apply Z.mod_pos_bound; lia). cbn [mbind option_bind dy_hash].
  destruct (decide (t = distance N k b)) as [->|Hne].
  { rewrite at_distance by done. rewrite Hh, (proj2 (Z.eqb_neq _ _)), Z.eqb_refl by done. by eexists. }
  destruct (Hp t ltac:(lia)) as [Hd Hk'].
  assert (hv ((k + t) `mod` N) ≠ 0) as H0 by (intros E; by apply (si_used _ _ _ _ _ Hs) in E).
  rewrite !(proj2 (Z.eqb_neq _ _)) by done. rewrite (si_mod _ _ _ _ _ Hs), probe_next by lia.
  rewrite Z.geb_leb, (proj2 (Z.leb_gt _ _)) by lia.
  rewrite (proj2 (Z.eqb_neq _ _)); [apply IH; lia|]. intros E.
  pose proof (Z.div_mod (k + (t + 1)) N ltac:(lia)). pose proof (Z.div_mod k N ltac:(lia)).
  assert (t + 1 = N * ((k + (t + 1)) / N - k / N)) as Eq by lia.
  destruct (Z.le_gt_cases ((k + (t + 1)) / N - k / N) 0); nia.
Qed.

Lemma bucket_rows b :
  0 ≤ b < N → hv b ≠ 0 →
  ∃ m l, mem_mmaped (sg_doclist s) = Some m ∧
    get_rowid_list (S (Z.to_nat (row_limit (sg_doclist s)))) m (top rows b) (Ptr rowid_list_init) = Some (Ptr l) ∧
    rows_ok M (Ptr l) ∧ ids (Ptr l) = docs_in rows b.
Proof.
  intros Hb Hh. destruct (si_words _ _ _ _ _ Hs) as (m & Em & Hw). pose proof (si_N _ _ _ _ _ Hs) as HN.
  pose proof (docs_in_length rows b) as Hdl. pose proof (wi_max _ _ _ Hw) as Hmax.
  destruct rowid_list_init_tight as [Hti He]. rewrite (si_limit _ _ _ _ _ Hs).
  destruct (collect_chain m (S (Z.to_nat (2 * N))) rows b rowid_list_init) as (l & Hl & Htl & Hel);
    [apply Hw|lia|lia|rewrite top_docs, <- (si_used _ _ _ _ _ Hs); done|unfold zlen in Hmax; lia|done
    |unfold zlen in *; simpl; lia|].
  rewrite He in Hel. exists m, l. split_and!; try done. split; simpl.
  - apply Htl.
  - rewrite Hel. apply (si_desc _ _ _ _ _ Hs).
  - rewrite Hel. intros v Hv%elem_docs_in. apply (si_range _ _ _ _ _ Hs) in Hv as [? _]. done.
Qed.

Context (get_hash_value : low_data_struct → Z) (null_hash : Z) `{!HashLaws get_hash_value null_hash}.

Lemma find_outcome w :
  len w ≠ 0 →
  ∃ r, dyfind get_hash_value s w = Some r ∧
    (∀ x, r = Some x →
      ∃ b, 0 ≤ b < N ∧ hv b = get_hash_value w ∧ x = DBucket (hv b) (zlen (docs_in rows b)) (top rows b)) ∧
    (∀ b, 0 ≤ b < N → get_hash_value w ≠ 0 → hv b = get_hash_value w → paved N rows hv (get_hash_value w) b →
      distance N (get_hash_value w) b ≤ DOC_MULTIPLE_NUM → is_Some r).
Proof.
  intros Hlen. unfold dyfind. rewrite (proj2 (Z.eqb_neq _ _)) by done.
  pose proof (si_N _ _ _ _ _ Hs) as HN. rewrite (si_mod _ _ _ _ _ Hs), (proj2 (Z.eqb_neq _ _)) by lia.
  pose proof (hash_range w) as Hr. set (k := get_hash_value w) in *.
  pose proof (Z.mod_pos_bound k N ltac:(lia)) as Hl.
  destruct (query_probe_outcome (Z.to_nat N) k (k `mod` N) 0) as (r & Hq & Hx); [lia..|].
  rewrite Z.add_0_r, Z.mod_mod in Hq by lia. exists r. split; [done|]. split.
  - intros x E. destruct (Hx x E) as (b & ? & <- & ?). eauto.
  - intros b Hb Hk0 Hk Hp Hn. destruct (query_probe_found (Z.to_nat N) k 0 b) as (x & E); try done; try lia.
    { split; [done|]. apply Z.mod_pos_bound. lia. }
    rewrite Z.add_0_r in E. rewrite E in Hq. injection Hq as <-. eauto.
Qed.

(** A lookup in one table lists documents of the key only, and all that the
    table has if the bucket of the key is within reach. *)
Lemma query_single w :
  paths N rows hv → len w ≠ 0 → get_hash_value w ≠ 0 →
  ∃ r, dyquery get_hash_value s w = Some r ∧ rows_ok M r ∧
    (∀ d, d ∈ ids r → ∃ b, (d, b) ∈ rows ∧ hv b = get_hash_value w) ∧
    ((∀ b, 0 ≤ b < N → hv b = get_hash_value w → distance N (get_hash_value w) b ≤ DOC_MULTIPLE_NUM) →
     ∀ d b, (d, b) ∈ rows → hv b = get_hash_value w → d ∈ ids r).
Proof.
  intros Hp Hlen Hk. unfold dyquery. destruct (find_outcome w Hlen) as (r & -> & Hx & Hfound). cbn [mbind option_bind].
  destruct r as [x|].
  - destruct (Hx x eq_refl) as (b & Hb & Eb & ->). cbn [dy_offset].
    destruct (bucket_rows b Hb) as (m & l & -> & Hl & Hok & Hids); [congruence|]. cbn [mbind option_bind].
    exists (Ptr l). rewrite Hids. split_and!; try done.
    + intros d Hd%elem_docs_in. eauto.
    + intros _ d b' Hin Eb'. apply elem_docs_in. destruct (docs_in rows b) as [|y ds] eqn:Ed.
      { apply (si_used _ _ _ _ _ Hs) in Ed. congruence. }
      rewrite (paths_unique N rows hv y d b b'); try done; [|by eapply si_range|congruence].
      apply elem_docs_in. rewrite Ed. left.
  - exists NULL. split; [done|]. split; [split; simpl; try done; [constructor|intros v Hv; by apply elem_of_nil in Hv]|].
    split; [intros d Hd; by apply elem_of_nil in Hd|]. intros Hn d b Hin Eb.
    assert (0 ≤ b < N) as Hb by (by eapply si_range). pose proof (paths_paved N rows hv d b Hp Hin) as Hpv.
    rewrite Eb in Hpv. by destruct (Hfound b Hb Hk Eb Hpv (Hn b Hb Eb)).
Qed.
End single.

(** ** Recovery of one table *)

(** The rows of documents below [docid]; documents only grow, so that these are
    the oldest rows. *)
Definition keep (rows : row_history) (docid : Z) : row_history := filter (λ x, x.1 < docid) rows.

Lemma keep_split rows docid :
  StronglySorted (λ x y, y ≤ x) rows.*1 →
  ∃ newer, rows = newer ++ keep rows docid ∧ ∀ x, x ∈ newer.*1 → docid ≤ x.
Proof.
  induction rows as [|[d b] rows IH]; intros Hs; [by exists []; split; [|intros x Hx; by apply elem_of_nil in Hx]|].
  simpl in Hs. apply StronglySorted_inv in Hs as [Hs Hle]. rewrite List.Forall_forall in Hle.
  unfold keep. rewrite filter_cons. case_decide as E; simpl in E.
  - exists []. split; [|intros x Hx; by apply elem_of_nil in Hx]. simpl. f_equal. symmetry.
    apply filter_all_in. intros [d' b'] Hin. simpl. specialize (Hle d').
    apply (list_elem_of_fmap_2 fst) in Hin. apply list_elem_of_In, Hle in Hin. lia.
  - destruct (IH Hs) as (newer & E' & Hn). exists ((d, b) :: newer). split; [simpl; f_equal; exact E'|].
    intros x [->|Hx]%elem_of_cons; [simpl; lia|by apply Hn].
Qed.

Lemma taken_app m newer older : taken m (newer ++ older) → taken m older.
Proof. induction newer as [|[d b] newer IH]; [done|]. intros [_ H]. by apply IH. Qed.

Lemma top_app newer older b :
  top (newer ++ older) b = if decide (docs_in newer b = []) then top older b else top (newer ++ older) b.
Proof.
  case_decide as E; [|done]. induction newer as [|[d b'] newer IH]; [done|]. simpl in *. case_decide; [done|by apply IH].
Qed.

Lemma docs_in_app newer older b : docs_in (newer ++ older) b = docs_in newer b ++ docs_in older b.
Proof. induction newer as [|[d b'] newer IH]; [done|]. simpl. case_decide; simpl; by rewrite IH. Qed.

(** A bucket with a newer row points behind the older rows. *)
Lemma top_newer newer older b : docs_in newer b ≠ [] → GET_OFFSET (zlen older) ≤ top (newer ++ older) b.
Proof.
  induction newer as [|[d b'] newer IH]; [done|]. simpl. case_decide; [|done]. intros _.
  unfold GET_OFFSET, zlen. rewrite length_app. lia.
Qed.

Lemma top_older rows b : top rows b < GET_OFFSET (zlen rows).
Proof. pose proof (top_bound rows b). unfold GET_OFFSET. lia. Qed.

Lemma first_row_spec n m i stop docid :
  (∀ j, i ≤ j < stop → ∃ d x, row m j = Some (d, x) ∧ d < docid) → i ≤ stop →
  stop = i + Z.of_nat n ∨ (stop < i + Z.of_nat n ∧ ∃ d x, row m stop = Some (d, x) ∧ docid ≤ d) →
  first_row n m i docid = Some stop.
Proof.
  revert i. induction n as [|n IH]; intros i Hlt Hi Hstop.
  { destruct Hstop as [E|[? _]]; [|lia]. simpl. f_equal. lia. }
  cbn [first_row]. destruct (decide (i = stop)) as [->|Hne].
  - destruct Hstop as [?|(_ & d & x & Hr & Hd)]; [lia|]. unfold row in Hr. rewrite Hr. cbn [mbind option_bind].
    by rewrite (proj2 (Z.geb_le d docid)).
  - destruct (Hlt i) as (d & x & Hr & Hd); [lia|]. unfold row in Hr. rewrite Hr. cbn [mbind option_bind].
    destruct (Z.geb_spec d docid); [lia|]. apply IH; [|lia|].
    + intros j Hj. apply Hlt. lia.
    + destruct Hstop as [?|[? ?]]; [left; lia|right; split; [lia|done]].
Qed.

Lemma taken_elem m rows i :
  taken m rows → 0 ≤ i < zlen rows → ∃ d x, row m i = Some (d, x) ∧ d ∈ rows.*1.
Proof.
  induction rows as [|[d b] rows IH]; intros Hm Hi; [unfold zlen in Hi; simpl in Hi; lia|].
  destruct Hm as [Hr Hm]. destruct (decide (i = zlen rows)) as [->|].
  - eexists _, _. split; [done|]. simpl. left.
  - destruct IH as (d' & x & ? & ?); [done|unfold zlen in *; simpl in Hi; lia|]. eexists _, _. split; [done|]. by right.
Qed.

(** The rows before [keep] are untouched, the others become free. *)
Lemma words_cut L m newer older m1 m2 :
  words_inv L (newer ++ older) m → 0 < L → m⟦0 := zlen older⟧ = Some m1 →
  zfill m1 (1 + 2 * zlen older) (2 * (L - zlen older)) 0 = Some m2 → words_inv L older m2.
Proof.
  intros [Hl Hc Hmax Hr Hf] HL H1 H2. pose proof (zlen_nonneg older). pose proof (zlen_nonneg newer).
  rewrite zlen_app in *. apply zset_inv in H1 as [_ ->]. unfold DOCLIST_MMAP_SIZE in *.
  destruct (zfill_spec (<[Z.to_nat 0 := zlen older]> m) (1 + 2 * zlen older) (2 * (L - zlen older)) 0)
    as (m' & E & Hl' & Hg); [lia|lia|rewrite zlen_insert; lia|]. rewrite H2 in E. injection E as <-.
  rewrite zlen_insert in Hl'.
  assert (∀ i, 0 ≤ i < zlen older → row m2 i = row m i) as Hsame.
  { intros i Hi. unfold row. rewrite !load_row_offset, !Hg, !decide_False by lia. by rewrite !zget_insert_ne by lia. }
  split; unfold DOCLIST_MMAP_SIZE; try lia.
  - rewrite Hg, decide_False by lia. apply zget_insert_eq. lia.
  - eapply taken_ext; [by eapply taken_app|done].
  - intros i Hi. unfold row. rewrite !load_row_offset, !Hg, !decide_True by lia. done.
Qed.

Section recover_loop.
Context (N : Z) (HN : 0 < N < 2 ^ 27) (kept : row_history) (m : list Z) (Hm : words_inv (2 * N) kept m).
Context (hv : Z → Z) (Hrange : ∀ d b, (d, b) ∈ kept → 0 ≤ b < N).

(** During the loop a bucket is either final or cleared, and then none of its
    rows was visited yet; the rows still to visit are [older]. *)
Definition loop_inv (older : row_history) (bs : list dyhash_bucket) : Prop :=
  zlen bs = N ∧ ∀ b, 0 ≤ b < N → ∃ c o, bs⟦b⟧ = Some (DBucket (hv b) c o) ∧
    ((o = top kept b ∧ (o ≠ 0 → c = zlen (docs_in kept b))) ∨
     (o = 0 ∧ docs_in kept b = docs_in older b ∧ top kept b = top older b)).

Lemma back_nonzero rows b : back rows b ≠ 0.
Proof.
  unfold back. destruct (Z.eqb_spec (top rows b) 0); [|done]. intros [? _]%Z.lor_eq_0_iff. done.
Qed.

Lemma loop_inv_step newer d b older bs c o :
  kept = newer ++ (d, b) :: older → 0 ≤ b < N → loop_inv ((d, b) :: older) bs →
  bs⟦b⟧ = Some (DBucket (hv b) c o) →
  loop_inv older (if o <? GET_OFFSET (zlen older)
    then <[Z.to_nat b := DBucket (hv b) (zlen (docs_in older b) + 1) (GET_OFFSET (zlen older))]> bs else bs).
Proof.
  intros Ek Hb [Hl Hi] Hc. pose proof (zlen_nonneg older).
  assert (GET_OFFSET (zlen older) ≤ top kept b) as Hge.
  { rewrite Ek. destruct (decide (docs_in newer b = [])) as [E|E].
    - rewrite top_app, decide_True by done. simpl. by rewrite decide_True by done.
    - pose proof (top_newer newer ((d, b) :: older) b E). unfold GET_OFFSET, zlen in *. simpl in *. lia. }
  destruct (Z.ltb_spec o (GET_OFFSET (zlen older))) as [Hlt|Hlt].
  - split; [by rewrite zlen_insert|]. intros b' Hb'. destruct (decide (b' = b)) as [->|Hne].
    + rewrite zget_insert_eq by lia. eexists _, _. split; [done|]. left.
      destruct (Hi b Hb) as (c' & o' & E & Hd). rewrite Hc in E. injection E as <- <-.
      destruct Hd as [[-> _]|(-> & Ed & Et)]; [lia|]. simpl in Ed, Et. rewrite decide_True in Ed by done. rewrite decide_True in Et by done.
      split; [done|]. intros _. rewrite Ed. unfold zlen. simpl. lia.
    + rewrite zget_insert_ne by lia. destruct (Hi b' Hb') as (c' & o' & ? & Hd). exists c', o'. split; [done|].
      simpl in Hd. by repeat rewrite (decide_False (P:=b = b')) in Hd by done.
  - split; [done|]. intros b' Hb'. destruct (Hi b' Hb') as (c' & o' & E & Hd). exists c', o'. split; [done|].
    simpl in Hd. destruct (decide (b = b')) as [->|]; [|exact Hd].
    rewrite Hc in E. injection E as <- <-. destruct Hd as [?|(-> & _)]; [by left|unfold GET_OFFSET in Hlt; lia].
Qed.

Lemma recover_loop newer older bs :
  kept = newer ++ older → loop_inv older bs →
  ∃ bs', dyrecover_rows (length older) m (2 * N) bs = Some bs' ∧ loop_inv [] bs'.
Proof.
  revert newer bs. induction older as [|[d b] older IH]; intros newer bs Ek Hi; [by exists bs|].
  pose proof (wi_rows _ _ _ Hm) as Ht. pose proof (wi_max _ _ _ Hm) as Hmax.
  rewrite Ek in Ht, Hmax. apply taken_app in Ht as [Hrow Ht]. rewrite zlen_app in Hmax.
  pose proof (zlen_nonneg newer). pose proof (docs_in_length older b) as Hdl.
  assert (zlen ((d, b) :: older) = zlen older + 1) as Hz by (unfold zlen; simpl; lia). rewrite Hz in Hmax.
  assert (0 ≤ b < N) as Hb by (apply (Hrange d); rewrite Ek; set_solver).
  cbn [length dyrecover_rows]. change (Z.of_nat (length older)) with (zlen older).
  change (load_row m (GET_OFFSET (zlen older))) with (row m (zlen older)). rewrite Hrow. cbn [mbind option_bind].
  rewrite (proj2 (Z.eqb_neq (back older b) 0)) by apply back_nonzero. rewrite andb_false_r.
  rewrite count_chain; [|done|lia|lia|unfold zlen in *; lia|lia|unfold zlen in *; lia]. cbn [mbind option_bind].
  pose proof Hi as [Hl Hi']. destruct (Hi' b Hb) as (c & o & E & _). rewrite E. cbn [mbind option_bind dy_offset dy_hash].
  pose proof (zlen_nonneg older). replace (u32 (zlen older * 8 + 4)) with (GET_OFFSET (zlen older))
    by (rewrite u32_small; unfold GET_OFFSET; lia).
  pose proof (loop_inv_step newer d b older bs c o Ek Hb Hi E) as Hstep. rewrite Z.add_0_l.
  destruct (o <? GET_OFFSET (zlen older)).
  - rewrite zset_in by lia. cbn [mbind option_bind]. apply (IH (newer ++ [(d, b)])); [by rewrite <- app_assoc|done].
  - cbn [mbind option_bind]. apply (IH (newer ++ [(d, b)])); [by rewrite <- app_assoc|done].
Qed.
End recover_loop.

(** The hash of the buckets that still have rows. *)
Definition live_hash (rows : row_history) (hv : Z → Z) (b : Z) : Z :=
  if decide (docs_in rows b = []) then 0 else hv b.

Lemma single_inv_keep N M newer older hv s bs m :
  single_inv N M (newer ++ older) hv s → words_inv (2 * N) older m → zlen bs = N →
  (∀ b, 0 ≤ b < N → bs⟦b⟧ = Some (DBucket (live_hash older hv b) (zlen (docs_in older b)) (top older b))) →
  single_inv N M older (live_hash older hv) (set_single s bs (set_mem (sg_doclist s) m)).
Proof.
  intros [HN Hmod Hl _ _ _ Hrg Hu Hso Hde] Hw Hlen Ht.
  split; cbn [set_single set_mem sg_hashmod sg_doclist sg_table row_limit mem_mmaped]; try done.
  - eauto.
  - intros d b Hin. apply Hrg, elem_of_app. by right.
  - intros b. unfold live_hash. case_decide as E; [done|]. split; [|done]. intros E0. apply Hu in E0.
    rewrite docs_in_app in E0. by apply app_nil in E0 as [_ E0].
  - rewrite fmap_app in Hso. by apply StronglySorted_app_1_r in Hso.
  - intros b. specialize (Hde b). rewrite docs_in_app in Hde. by apply StronglySorted_app_1_r in Hde.
Qed.

Lemma live_all N M rows hv s b : single_inv N M rows hv s → live_hash rows hv b = hv b.
Proof.
  intros Hs. unfold live_hash. case_decide as E; [|done]. symmetry. by apply (si_used _ _ _ _ _ Hs).
Qed.

Lemma single_inv_ext N M rows hv hv' s : single_inv N M rows hv s → (∀ b, hv' b = hv b) → single_inv N M rows hv' s.
Proof.
  intros [HN Hmod Hl Hw Hlen Ht Hrg Hu Hso Hde] E. split; try done.
  - intros b Hb. rewrite E. by apply Ht.
  - intros b. rewrite E. apply Hu.
Qed.

(** Where the rows to remove begin. *)
Lemma first_removed N M rows hv s docid m newer older :
  single_inv N M rows hv s → words_inv (2 * N) rows m → 0 ≤ docid → rows = newer ++ older →
  (∀ x, x ∈ newer.*1 → docid ≤ x) → (∀ x, x ∈ older.*1 → x < docid) → newer ≠ [] ∨ docid = 0 →
  zlen older < 2 * N ∧ first_row (Z.to_nat (2 * N)) m 0 docid = Some (zlen older).
Proof.
  intros Hs Hw Hd Er Hn Ho Hsome. pose proof (si_N _ _ _ _ _ Hs) as HN. pose proof (wi_max _ _ _ Hw) as Hmax.
  pose proof (zlen_nonneg older) as Hz. rewrite Er, zlen_app in Hmax.
  assert (zlen older < 2 * N ∧ ∃ d x, row m (zlen older) = Some (d, x) ∧ docid ≤ d) as [Hlt Hrow].
  { destruct newer as [|y newer _] using rev_ind.
    - destruct Hsome as [?| ->]; [done|]. simpl in Er. subst rows. destruct older as [|[d b] older].
      + split; [change (zlen []) with 0; lia|]. rewrite (wi_free _ _ _ Hw) by (change (zlen []) with 0; lia). eauto.
      + exfalso. destruct (si_range _ _ _ _ _ Hs d b) as [? _]; [left|]. specialize (Ho d ltac:(left)). lia.
    - unfold zlen in Hmax. rewrite length_app in Hmax. simpl in Hmax. split; [unfold zlen; lia|].
      destruct y as [d b]. pose proof (wi_rows _ _ _ Hw) as Ht. rewrite Er, <- app_assoc in Ht.
      apply taken_app in Ht as [Hrow _]. eexists _, _. split; [done|]. apply Hn. rewrite fmap_app. set_solver. }
  split; [done|]. apply first_row_spec; [|lia|right; split; [lia|done]].
  intros j Hj. destruct (taken_elem m older j) as (d & x & Hr & Hin); [|lia|eauto].
  eapply taken_app. rewrite <- Er. apply Hw.
Qed.

(** The table after the rows were cut: the loop restores the cleared buckets. *)
Lemma recover_table N M rows hv s newer older m :
  single_inv N M rows hv s → rows = newer ++ older → words_inv (2 * N) older m →
  ∃ bs, dyrecover_rows (length older) m (2 * N)
      ((λ b, if dy_offset b >=? GET_OFFSET (zlen older) then DBucket (dy_hash b) (dy_count b) 0 else b) <$> sg_table s)
      = Some bs ∧ zlen bs = N ∧ ∀ b, 0 ≤ b < N →
      (λ b, if dy_offset b =? 0 then DBucket 0 0 0 else b) <$> bs⟦b⟧ =
      Some (DBucket (live_hash older hv b) (zlen (docs_in older b)) (top older b)).
Proof.
  intros Hs Er Hw. destruct (recover_loop N (si_N _ _ _ _ _ Hs) older m Hw hv) with (newer := @nil (Z * Z)) (older := older)
    (bs := (λ b, if dy_offset b >=? GET_OFFSET (zlen older) then DBucket (dy_hash b) (dy_count b) 0 else b) <$> sg_table s)
    as (bs & Hrun & Hl & Hi).
  - intros d b Hin. apply (si_range _ _ _ _ _ Hs d). rewrite Er. apply elem_of_app. by right.
  - done.
  - split; [unfold zlen; rewrite length_fmap; apply (si_len _ _ _ _ _ Hs)|]. intros b Hb.
    rewrite zget_fmap, (si_table _ _ _ _ _ Hs b Hb). cbn [fmap option_fmap option_map dy_offset dy_hash dy_count].
    destruct (Z.geb_spec (top rows b) (GET_OFFSET (zlen older))) as [Hge|Hlt].
    + eexists _, _. split; [done|]. right. done.
    + eexists _, _. split; [done|]. left. rewrite Er in Hlt |- *.
      assert (docs_in newer b = []) as E.
      { destruct (docs_in newer b) eqn:E; [done|]. pose proof (top_newer newer older b). rewrite E in *.
        exfalso. assert (GET_OFFSET (zlen older) ≤ top (newer ++ older) b); [by auto|lia]. }
      rewrite top_app, decide_True by done. split; [done|]. by rewrite docs_in_app, E.
  - exists bs. split; [done|]. split; [done|]. intros b Hb. destruct (Hi b Hb) as (c & o & -> & Hc).
    assert (o = top older b ∧ (o ≠ 0 → c = zlen (docs_in older b))) as [-> Hcc].
    { destruct Hc as [?|(-> & _ & E)]; [done|]. simpl in E. by rewrite E. }
    cbn [fmap option_fmap option_map dy_offset]. unfold live_hash. destruct (Z.eqb_spec (top older b) 0) as [E|E].
    + rewrite E. apply top_docs in E. rewrite E. by rewrite decide_True.
    + rewrite Hcc by done. rewrite decide_False; [done|]. intros E'. by apply top_docs in E'.
Qed.

Lemma recover_single N M rows hv s docid :
  single_inv N M rows hv s → 0 ≤ docid →
  ∃ s', dyrecover s docid = Some (0, s') ∧
    single_inv N M (keep rows docid) (live_hash (keep rows docid) hv) s'.
Proof.
  intros Hs Hd. destruct (keep_split rows docid (si_sorted _ _ _ _ _ Hs)) as (newer & Er & Hn).
  set (older := keep rows docid) in *.
  assert (∀ x, x ∈ older.*1 → x < docid) as Ho.
  { intros x Hx. apply list_elem_of_fmap in Hx as ([x' b] & -> & Hx). by apply list_elem_of_filter in Hx as [? _]. }
  destruct (si_words _ _ _ _ _ Hs) as (m & Em & Hw). pose proof (si_N _ _ _ _ _ Hs) as HN.
  pose proof (wi_max _ _ _ Hw) as Hmax. pose proof (zlen_nonneg older) as Hz. pose proof (zlen_nonneg newer) as Hz'.
  unfold dyrecover. rewrite Em, (si_limit _ _ _ _ _ Hs). cbn [mbind option_bind].
  destruct (decide (newer = [] ∧ 0 < docid)) as [[En Hpos]|Hsome].
  { subst newer. simpl in Er. rewrite <- Er. rewrite (first_row_spec (Z.to_nat (2 * N)) m 0 (2 * N)).
    - cbn [mbind option_bind]. rewrite Z.eqb_refl. exists s. split; [done|].
      eapply single_inv_ext; [done|]. intros b. by eapply live_all.
    - intros j Hj. destruct (decide (j < zlen rows)) as [Hlt|Hge].
      + destruct (taken_elem m rows j (wi_rows _ _ _ Hw)) as (d & x & Hrow & Hin); [lia|].
        rewrite Er in Hin. eauto.
      + rewrite (wi_free _ _ _ Hw) by lia. eauto.
    - lia.
    - left. lia. }
  destruct (first_removed N M rows hv s docid m newer older Hs Hw Hd Er Hn Ho) as [Hlt Hfirst].
  { destruct (decide (newer = [])) as [->|]; [right|by left]. destruct (decide (docid = 0)); [done|].
    exfalso. apply Hsome. split; [done|lia]. }
  rewrite Hfirst. cbn [mbind option_bind]. rewrite (proj2 (Z.eqb_neq _ _)) by lia.
  rewrite (u32_small (2 * N - zlen older)) by lia.
  replace (u32 (8 * zlen older + 4)) with (GET_OFFSET (zlen older)) by (rewrite u32_small; unfold GET_OFFSET; lia).
  pose proof (wi_len _ _ _ Hw) as Hml. unfold DOCLIST_MMAP_SIZE in Hml.
  destruct (m⟦0 := zlen older⟧) as [m1|] eqn:E1; [|rewrite zset_in in E1 by lia; done]. cbn [mbind option_bind].
  assert (zlen m1 = zlen m) as Hm1 by (apply zset_inv in E1 as [_ ->]; apply zlen_insert).
  destruct (zfill_spec m1 (1 + 2 * zlen older) (2 * (2 * N - zlen older)) 0) as (m2 & E2 & _); [lia..|].
  rewrite E2. cbn [mbind option_bind].
  assert (words_inv (2 * N) older m2) as Hw2 by (rewrite Er in Hw; by eapply (words_cut (2 * N) m newer); [..|lia| |]).
  destruct (recover_table N M rows hv s newer older m2 Hs Er Hw2) as (bs & Hrun & Hbl & Hb).
  unfold zlen at 1. rewrite Nat2Z.id, Hrun. cbn [mbind option_bind]. eexists. split; [done|].
  eapply (single_inv_keep N M newer); [by rewrite <- Er|done|unfold zlen in *; by rewrite length_fmap|].
  intros b Hb'. rewrite zget_fmap. by apply Hb.
Qed.

(** ** The whole index *)

Section index.
Context (get_hash_value : low_data_struct → Z) (null_hash : Z) `{!HashLaws get_hash_value null_hash}.
Context (N M : Z) (HN : 0 < N < 2 ^ 27) (HM : M < 2 ^ 31).

Definition table_state : Type := row_history * (Z → Z).

(** [h] is the history of documents and hashes of words. *)
Record log_inv (h : list (Z * Z)) (ts : list table_state) : Prop := {
  dy_sound : ∀ t x b, t ∈ ts → (x, b) ∈ t.1 → (x, t.2 b) ∈ h;
  dy_complete : ∀ x k, (x, k) ∈ h → ∃ t b, t ∈ ts ∧ (x, b) ∈ t.1 ∧ t.2 b = k;
  dy_paths : ∀ t, t ∈ ts → paths N t.1 t.2
}.

Definition dyhash_inv (h : list (Z * Z)) (d : dyhash_index_manager) : Prop :=
  ∃ ts, dy_hashmod d = N ∧ ts ≠ [] ∧ Forall2 (λ s t, single_inv N M t.1 t.2 s) (singles d) ts ∧ log_inv h ts.

Lemma fresh_single all_mmap i full :
  ∃ s, create_single_index all_mmap (λ _, (true, true)) (λ _, (None, None)) i N full true = Some (Ptr s) ∧
    single_inv N M [] (λ _, 0) s.
Proof.
  unfold create_single_index, doclist_init_v2, map_file. cbn [negb andb fst snd default]. rewrite (u32_small (N * DOC_MULTIPLE_NUM)) by (unfold DOC_MULTIPLE_NUM; lia).
  destruct (fresh_memory (DBucket 0 0 0) 16 (full || all_mmap) N) as (mb & fb & -> & Hlb & Hzb); [lia..|].
  cbn [mbind option_bind]. change (1 =? 1) with true. cbn [negb andb]. unfold DOC_MULTIPLE_NUM.
  destruct (fresh_memory 0 4 (full || all_mmap) (DOCLIST_MMAP_SIZE (N * 2))) as (m & f & -> & Hl & Hz);
    [unfold DOCLIST_MMAP_SIZE; lia..|].
  cbn [mbind option_bind]. unfold DOCLIST_MMAP_SIZE in *. eexists. split; [done|].
  split; cbn [sg_hashmod sg_doclist sg_table row_limit mem_mmaped]; try done; try lia.
  - exists m. split; [done|]. split; unfold DOCLIST_MMAP_SIZE; try done; try lia.
    + change (zlen []) with 0. apply Hz. lia.
    + change (zlen []) with 0. lia.
    + change (zlen []) with 0. intros j Hj. unfold row. rewrite load_row_offset, !Hz by lia. done.
  - intros d b Hin. by apply elem_of_nil in Hin.
  - constructor.
  - constructor.
Qed.

(** Insertion into one table; an empty one takes the word. *)
Lemma insert_single rows hv s w d :
  single_inv N M rows hv s → 0 ≤ d < M → len w ≠ 0 → get_hash_value w ≠ 0 → (∀ x, x ∈ rows.*1 → x ≤ d) →
  let k := get_hash_value w in
  ∃ rc s', dyinsert get_hash_value s w d = Some (rc, s') ∧
    ((rc = 1 ∧ s' = s ∧ rows ≠ []) ∨
     ∃ b, rc = 0 ∧ (hv b = 0 ∨ hv b = k) ∧ paved N rows hv k b ∧
       ((s' = s ∧ (d, b) ∈ rows ∧ hv b = k) ∨ single_inv N M ((d, b) :: rows) (upd hv b k) s')).
Proof.
  intros Hs Hd Hlen Hk Hle k. unfold dyinsert. rewrite (proj2 (Z.eqb_neq _ 0)) by done.
  rewrite (si_mod _ _ _ _ _ Hs), (proj2 (Z.eqb_neq N 0)) by lia. fold k.
  assert (zlen rows = 2 * N → rows ≠ []) as Hne by (intros E ->; change (zlen []) with 0 in E; lia).
  destruct (insert_probe_outcome N M rows hv s Hs (Z.to_nat N) d k 0) as (rc & s' & E & Ho); try done; try lia.
  rewrite Z.add_0_r in E. exists rc, s'. split; [done|].
  destruct Ho as [(-> & -> & Hu)|(b & Hb & Hhb & Hp & [(-> & -> & E')|[(-> & -> & ? & ?)|(-> & ?)]])].
  - left. split_and!; try done. intros ->. destruct Hu as [?|Hu]; [lia|]. by apply Hu, (si_used _ _ _ _ _ Hs).
  - left. auto.
  - right. exists b. do 3 (split; [done|]). by left.
  - right. exists b. do 3 (split; [done|]). by right.
Qed.

Lemma elem_snoc {A} (l : list A) x y : x ∈ l ++ [y] ↔ x ∈ l ∨ x = y.
Proof. by rewrite elem_of_app, list_elem_of_singleton. Qed.

Lemma log_inv_cons h ts rows hv x b k :
  log_inv h (ts ++ [(rows, hv)]) → (∀ b', hv b' = 0 ↔ docs_in rows b' = []) →
  hv b = 0 ∨ hv b = k → paved N rows hv k b →
  log_inv ((x, k) :: h) (ts ++ [((x, b) :: rows, upd hv b k)]).
Proof.
  intros [Hs Hc Hp] Hu Hb Hpv.
  assert (∀ y b', (y, b') ∈ rows → upd hv b k b' = hv b') as Hsame.
  { intros y b' Hin. unfold upd. case_decide as E; [|done]. subst b'. destruct Hb as [E|E]; [|done].
    apply Hu in E. apply elem_docs_in in Hin. rewrite E in Hin. by apply elem_of_nil in Hin. }
  split.
  - intros t y b' [Ht| ->]%elem_snoc Hin.
    + right. apply Hs; [|done]. apply elem_snoc. by left.
    + simpl in *. apply elem_of_cons in Hin as [[= -> ->]|Hin].
      * unfold upd. rewrite decide_True by done. left.
      * right. rewrite (Hsame y) by done. apply (Hs (rows, hv)); [|done]. apply elem_snoc. by right.
  - intros y k' [[= -> ->]|Hin]%elem_of_cons.
    + exists ((x, b) :: rows, upd hv b k), b. split; [apply elem_snoc; by right|]. split; [left|].
      simpl. unfold upd. by rewrite decide_True.
    + destruct (Hc y k' Hin) as (t & b' & [Ht| ->]%elem_snoc & Hr & Ek).
      * exists t, b'. split; [apply elem_snoc; by left|done].
      * exists ((x, b) :: rows, upd hv b k), b'. split; [apply elem_snoc; by right|]. simpl in *.
        split; [by right|]. by rewrite (Hsame y).
  - intros t [Ht| ->]%elem_snoc; [apply Hp, elem_snoc; by left|].
    apply paths_cons; try done. apply (Hp (rows, hv)), elem_snoc. by right.
Qed.

(** A repeated word of a document, and a new table, change nothing. *)
Lemma log_inv_same h ts t x k b : log_inv h ts → t ∈ ts → (x, b) ∈ t.1 → t.2 b = k → log_inv ((x, k) :: h) ts.
Proof.
  intros [Hs Hc Hh] Ht Hin Hb. split; [|..|done].
  - intros t' y b' ? ?. right. by apply Hs.
  - intros y k' [[= -> ->]|Hy]%elem_of_cons; [eauto|]. by apply Hc.
Qed.

Lemma log_inv_fresh h ts : log_inv h ts → log_inv h (ts ++ [([], λ _, 0)]).
Proof.
  intros [Hs Hc Hh]. split.
  - intros t x b [Ht| ->]%elem_snoc Hin; [by apply Hs|by apply elem_of_nil in Hin].
  - intros x k (t & b & Ht & ?)%Hc. exists t, b. split; [apply elem_snoc; by left|done].
  - intros t [Ht| ->]%elem_snoc; [by apply Hh|done].
Qed.

(** No files are left from before, and mapping succeeds. *)
Definition fresh_io : dyhash_io := λ _, (true, true).
Definition no_files : dyhash_files := λ _, (None, None).

Lemma insert_word all_mmap h d w x :
  dyhash_inv h d → 0 ≤ x < M → len w ≠ 0 → get_hash_value w ≠ 0 →
  (∀ y, y ∈ h.*1 → y ≤ x) →
  ∃ d', dyhash_index_insert get_hash_value all_mmap fresh_io no_files d w x = Some (0, d') ∧
    dyhash_inv ((x, get_hash_value w) :: h) d'.
Proof.
  intros (ts & Hmod & Hne & Ht & Hi) Hx Hlen Hk Hle. set (k := get_hash_value w) in *.
  destruct ts as [|[rows hv] ts _] using rev_ind; [done|].
  apply Forall2_app_inv_r in Ht as (front & l & Hf & Hl & Es). apply Forall2_cons_inv_r in Hl as (s & l' & Hs & Hl & ->).
  apply Forall2_nil_inv_r in Hl as ->. simpl in Hs.
  assert ((rows, hv) ∈ ts ++ [(rows, hv)]) as Htin by (apply elem_snoc; by right).
  unfold dyhash_index_insert. rewrite Es, last_snoc, removelast_last. cbn [mbind option_bind].
  destruct (insert_single rows hv s w x Hs Hx Hlen Hk) as (rc & s' & -> & Ho).
  { intros y Hy. apply list_elem_of_fmap in Hy as ([y' b] & -> & Hy). apply Hle.
    by apply (list_elem_of_fmap_2 fst h (y', hv b)), (dy_sound _ _ Hi (rows, hv)). }
  cbn [mbind option_bind]. destruct Ho as [(-> & -> & _)|(b & -> & Hb & Hp & Ho)].
  - simpl (1 =? 1). cbv iota. cbn [set_singles dy_hashmod sg_index]. rewrite Hmod.
    destruct (fresh_single all_mmap (u16 (sg_index s + 1)) false) as (s0 & Hc & Hs0). unfold fresh_io, no_files.
    rewrite Hc. cbn [mbind option_bind].
    destruct (insert_single [] (λ _, 0) s0 w x Hs0 Hx Hlen Hk) as (rc & s1 & -> & Ho).
    { intros y Hy. by apply elem_of_nil in Hy. }
    cbn [mbind option_bind]. destruct Ho as [(_ & _ & ?)|(b & -> & _ & Hp & [(_ & Hin & _)|Hs1])]; [done|by apply elem_of_nil in Hin|].
    eexists. split; [done|]. exists ((ts ++ [(rows, hv)]) ++ [([(x, b)], upd (λ _, 0) b k)]).
    split; [done|]. split; [by destruct (ts ++ _)|]. split.
    + cbn [set_singles singles]. change [s; s1] with ([s] ++ [s1]). rewrite app_assoc.
      apply Forall2_app; [apply Forall2_app; [done|]|]; by constructor.
    + apply log_inv_cons; try done; [by apply log_inv_fresh|by left].
  - simpl (0 =? 1). cbv iota. eexists. split; [done|]. destruct Ho as [(-> & Hin & Hbk)|Hs'].
    + exists (ts ++ [(rows, hv)]). split; [done|]. split; [by destruct ts|]. split.
      * apply Forall2_app; [done|]. by constructor.
      * by eapply log_inv_same.
    + exists (ts ++ [((x, b) :: rows, upd hv b k)]). split; [done|]. split; [by destruct ts|]. split.
      * apply Forall2_app; [done|]. by constructor.
      * apply log_inv_cons; try done. apply (si_used _ _ _ _ _ Hs).
Qed.

Lemma recover_tables docid l ts :
  Forall2 (λ s t, single_inv N M t.1 t.2 s) l ts → 0 ≤ docid →
  ∃ l', recover_singles l docid 0 = Some (0, l') ∧
    Forall2 (λ s t, single_inv N M t.1 t.2 s) l' ((λ t, (keep t.1 docid, live_hash (keep t.1 docid) t.2)) <$> ts).
Proof.
  intros H Hd. induction H as [|s [rows hv] l ts Hs _ (l' & Hr & Hl)]; [by exists []; split; [|constructor]|].
  destruct (recover_single N M rows hv s docid Hs Hd) as (s' & Hs' & Hi). cbn [recover_singles]. rewrite Hs'.
  cbn [mbind option_bind]. simpl (0 =? -1). cbv iota. rewrite Hr. cbn [mbind option_bind].
  eexists. split; [done|]. by constructor.
Qed.

Lemma log_inv_keep h ts docid :
  log_inv h ts → (∀ t, t ∈ ts → StronglySorted (λ x y, y ≤ x) t.1.*1) →
  log_inv (filter (λ p, p.1 < docid) h) ((λ t, (keep t.1 docid, live_hash (keep t.1 docid) t.2)) <$> ts).
Proof.
  intros [Hs Hc Hp] Hso.
  assert (∀ rows hv x b, (x, b) ∈ keep rows docid → live_hash (keep rows docid) hv b = hv b) as Hlive.
  { intros rows hv x b Hin. unfold live_hash. rewrite decide_False; [done|]. intros E.
    apply elem_docs_in in Hin. rewrite E in Hin. by apply elem_of_nil in Hin. }
  split.
  - intros t x b Ht Hin. apply list_elem_of_fmap in Ht as ([rows hv] & -> & Ht). simpl in *.
    rewrite (Hlive rows hv x) by done. apply list_elem_of_filter in Hin as [Hx Hin].
    apply list_elem_of_filter. split; [done|]. by apply (Hs (rows, hv)).
  - intros x k [Hx Hin]%list_elem_of_filter. destruct (Hc x k Hin) as ([rows hv] & b & Ht & Hb & Ek). simpl in *.
    assert ((x, b) ∈ keep rows docid) as Hk by (apply list_elem_of_filter; done).
    eexists _, b. split; [by apply (list_elem_of_fmap_2 _ _ (rows, hv))|]. simpl. split; [done|].
    by rewrite (Hlive rows hv x).
  - intros t Ht. apply list_elem_of_fmap in Ht as ([rows hv] & -> & Ht). simpl.
    apply (paths_ext N _ hv); [intros x b; apply Hlive|].
    destruct (keep_split rows docid (Hso (rows, hv) Ht)) as (newer & Er & _). specialize (Hp (rows, hv) Ht).
    simpl in Hp. rewrite Er in Hp. by eapply paths_app.
Qed.

Lemma recover_words h d docid :
  dyhash_inv h d → 0 ≤ docid →
  ∃ d', dyhash_index_recover d docid = Some (0, d') ∧ dyhash_inv (filter (λ p, p.1 < docid) h) d'.
Proof.
  intros (ts & Hmod & Hne & Ht & Hi) Hd. unfold dyhash_index_recover.
  destruct (recover_tables docid _ _ Ht Hd) as (l' & -> & Hl). cbn [mbind option_bind]. eexists. split; [done|].
  eexists. split; [done|]. split; [|split; [done|apply log_inv_keep; [done|]]]; [by destruct ts|].
  intros t Hin. apply list_elem_of_lookup_1 in Hin as [i Hi']. apply (Forall2_lookup_r _ _ _ _ _ Ht) in Hi' as (s & _ & Hs).
  apply (si_sorted _ _ _ _ _ Hs).
Qed.

(** ** Checkpoints and memory switches *)

Lemma single_inv_memory rows hv s s' :
  single_inv N M rows hv s → sg_hashmod s' = sg_hashmod s → sg_table s' = sg_table s →
  row_limit (sg_doclist s') = row_limit (sg_doclist s) → mem_mmaped (sg_doclist s') = mem_mmaped (sg_doclist s) →
  single_inv N M rows hv s'.
Proof. intros [] E1 E2 E3 E4. split; rewrite ?E1, ?E2, ?E3, ?E4; done. Qed.

Lemma checkpoint_words all_mmap h d :
  dyhash_inv h d → dyhash_inv h (dyhash_index_checkpoint all_mmap fresh_io d).
Proof.
  intros (ts & Hmod & Hne & Ht & Hi). exists ts. split; [done|]. split; [done|]. split; [|done].
  cbn [dyhash_index_checkpoint set_singles singles]. apply Forall2_fmap_l. eapply Forall2_impl; [exact Ht|].
  intros s [rows hv] Hs. unfold checkpoint_single, fresh_io. cbn [fst snd].
  assert (∃ dl rc, doclist_checkpoint all_mmap true (sg_doclist s) = (rc, dl) ∧
    row_limit dl = row_limit (sg_doclist s) ∧ mem_mmaped dl = mem_mmaped (sg_doclist s)) as (dl & rc & E & E1 & E2).
  { unfold doclist_checkpoint. destruct (mem_mmaped (sg_doclist s)) eqn:Em; [|eauto 10].
    destruct (is_full (sg_doclist s) || all_mmap); eexists _, _; (split; [reflexivity|]); split; try done; by rewrite <- Em. }
  unfold compose. cbv beta. rewrite E.   destruct (dy_is_full d || all_mmap); by apply (single_inv_memory rows hv s).
Qed.

Lemma switch_tables all_mmap l ts full :
  Forall2 (λ s t, single_inv N M t.1 t.2 s) l ts →
  ∃ full' l', switch_singles all_mmap fresh_io fresh_io l full = (0, full', l') ∧
    Forall2 (λ s t, single_inv N M t.1 t.2 s) l' ts.
Proof.
  intros H. revert full. induction H as [|s [rows hv] l ts Hs _ IH]; intros full; [by eexists _, []|].
  simpl in Hs. cbn [switch_singles]. repeat change (fst (fresh_io ?i)) with true. repeat change (snd (fresh_io ?i)) with true.
  destruct (flush_memory true (sg_file s) (Some (sg_table s))) as [rc f] eqn:Ef.
  pose proof Ef as Ef'. simpl in Ef'. injection Ef' as <- _. simpl negb. cbv iota.
  assert (switch_mmaped_file true f (Some (sg_table s)) (sg_hashmod s) = (0, Some (sg_table s))) as Esw.
  { rewrite (si_mod _ _ _ _ _ Hs), <- (si_len _ _ _ _ _ Hs). apply (flush_switch _ _ _ Ef). }
  cbn [set_single_file sg_table sg_hashmod sg_doclist]. rewrite Esw. simpl negb. cbv iota.
  cbn [default set_single set_single_file sg_doclist sg_table sg_index]. repeat change (snd (fresh_io ?i)) with true.
  destruct (si_words _ _ _ _ _ Hs) as (m & Em & Hm).
  destruct (doclist_switch_spec all_mmap (sg_doclist s)) as (dl & E & E1 & E2 & _).
  { exists m. split; [done|]. rewrite (si_limit _ _ _ _ _ Hs). apply Hm. }
  rewrite E. simpl negb. cbv iota. destruct (IH true) as (full' & l' & -> & Hl).
  eexists _, _. split; [reflexivity|]. constructor; [|done]. by apply (single_inv_memory rows hv s).
Qed.

Lemma switch_words all_mmap h d :
  dyhash_inv h d →
  ∃ d', dyhash_index_mmap_switch all_mmap fresh_io fresh_io d = (0, d') ∧ dyhash_inv h d'.
Proof.
  intros (ts & Hmod & Hne & Ht & Hi). unfold dyhash_index_mmap_switch.
  destruct (negb (dy_is_full d) && negb all_mmap); [|eexists; split; [done|]; by exists ts].
  destruct (switch_tables all_mmap _ _ (dy_is_full d) Ht) as (full' & l' & -> & Hl).
  eexists. split; [done|]. by exists ts.
Qed.

(** The documents of a word. *)
Definition word_docs (h : list (Z * Z)) (k : Z) : gset Z := list_to_set (filter (λ p, p.2 = k) h).*1.

Lemma elem_word_docs h k x : x ∈ word_docs h k ↔ (x, k) ∈ h.
Proof.
  unfold word_docs. rewrite elem_of_list_to_set, list_elem_of_fmap. split.
  - intros ([x' k'] & -> & [Ek Hin]%list_elem_of_filter). simpl in *. by subst k'.
  - intros Hin. exists (x, k). split; [done|]. by apply list_elem_of_filter.
Qed.

(** The bucket of hash [k], in every table that has it, is within the reach of
    the lookup from its home. *)
Definition near (d : dyhash_index_manager) (k : Z) : Prop :=
  ∀ s i b, s ∈ singles d → (sg_table s)⟦i⟧ = Some b → dy_hash b = k → (i - k) `mod` sg_hashmod s ≤ DOC_MULTIPLE_NUM.

Lemma near_table l ts k :
  Forall2 (λ s t, single_inv N M t.1 t.2 s) l ts →
  (∀ s i b, s ∈ l → (sg_table s)⟦i⟧ = Some b → dy_hash b = k → (i - k) `mod` sg_hashmod s ≤ DOC_MULTIPLE_NUM) ↔
  (∀ t b, t ∈ ts → 0 ≤ b < N → t.2 b = k → distance N k b ≤ DOC_MULTIPLE_NUM).
Proof.
  intros H. split.
  - intros Hn t b Ht Hb Eb. apply list_elem_of_lookup_1 in Ht as [j Hj].
    apply (Forall2_lookup_r _ _ _ _ _ H) in Hj as (s & Hin & Hs). apply list_elem_of_lookup_2 in Hin.
    pose proof (si_table _ _ _ _ _ Hs b Hb) as Hg. pose proof (Hn s b _ Hin Hg Eb) as Hd.
    by rewrite (si_mod _ _ _ _ _ Hs) in Hd.
  - intros Hn s i b Hin Hg Eb. apply list_elem_of_lookup_1 in Hin as [j Hj].
    apply (Forall2_lookup_l _ _ _ _ _ H) in Hj as (t & Ht & Hs). apply list_elem_of_lookup_2 in Ht.
    rewrite (si_mod _ _ _ _ _ Hs). pose proof (zget_Some_range _ _ _ Hg) as Hi. rewrite (si_len _ _ _ _ _ Hs) in Hi.
    rewrite (si_table _ _ _ _ _ Hs i Hi) in Hg. injection Hg as <-. by apply (Hn t).
Qed.

Lemma query_tables h l ts acc w :
  Forall2 (λ s t, single_inv N M t.1 t.2 s) l ts → rows_ok M acc → len w ≠ 0 → get_hash_value w ≠ 0 →
  (∀ t, t ∈ ts → paths N t.1 t.2) →
  (∀ t x b, t ∈ ts → (x, b) ∈ t.1 → (x, t.2 b) ∈ h) → id_set acc ⊆ word_docs h (get_hash_value w) →
  ∃ r, query_singles get_hash_value l w acc = Some r ∧ rows_ok M r ∧ id_set r ⊆ word_docs h (get_hash_value w) ∧
    id_set acc ⊆ id_set r ∧
    ((∀ t b, t ∈ ts → 0 ≤ b < N → t.2 b = get_hash_value w → distance N (get_hash_value w) b ≤ DOC_MULTIPLE_NUM) →
     ∀ t x b, t ∈ ts → (x, b) ∈ t.1 → t.2 b = get_hash_value w → x ∈ id_set r).
Proof.
  intros H. revert acc. induction H as [|s [rows hv] l ts Hs _ IH]; intros acc Hacc Hlen Hk Hp Hso Hsub.
  { exists acc. split_and!; try done. intros _ t x b Ht. by apply elem_of_nil in Ht. }
  set (k := get_hash_value w) in *.
  destruct (query_single N M rows hv s Hs get_hash_value null_hash w (Hp (rows, hv) ltac:(left)) Hlen Hk) as (q & Hq & Hok & Hqs & Hqc).
  cbn [query_singles]. rewrite Hq. cbn [mbind option_bind].
  destruct (set_op_ok (op:=rowid_union) M acc q HM Hacc Hok) as (u & -> & Hu & Hset). cbn [mbind option_bind].
  destruct (IH u) as (r & Hr & Hrok & Hrsub & Hur & Hrc); try done.
  { intros t Ht. apply Hp. by right. }
  { intros t x b Ht. apply Hso. by right. }
  { rewrite Hset. intros x [Hx|Hx]%elem_of_union; [by apply Hsub|]. apply elem_word_docs.
    apply elem_of_list_to_set in Hx. destruct (Hqs x Hx) as (b & Hin & Eb). fold k in Eb. rewrite <- Eb.
    apply (Hso (rows, hv)); [left|done]. }
  exists r. split_and!; try done.
  - rewrite Hset in Hur. set_solver.
  - intros Hn t x b [->|Ht]%elem_of_cons Hin Eb.
    + simpl in *. apply Hur. rewrite Hset. apply elem_of_union. right. apply elem_of_list_to_set.
      apply (Hqc (λ b', Hn (rows, hv) b' (list_elem_of_here _ _)) x b Hin Eb).
    + apply (Hrc (λ t' b' Ht', Hn t' b' (list_elem_of_further _ _ _ Ht')) t x b Ht Hin Eb).
Qed.

(** No two of the words have the same home bucket. *)
Definition apart (ks : list Z) : Prop := ∀ k1 k2, k1 ∈ ks → k2 ∈ ks → k1 `mod` N = k2 `mod` N → k1 = k2.

(** Words that are apart are in their home buckets. *)
Lemma apart_home rows hv x b :
  paths N rows hv → apart (hv <$> rows.*2) → (x, b) ∈ rows → distance N (hv b) b = 0.
Proof.
  induction rows as [|[y c] rows IH] in x, b |- *; [by intros _ _ ?%elem_of_nil|]. intros [Hp Hps] Ha Hin.
  assert (∀ z a, (z, a) ∈ rows → distance N (hv a) a = 0) as Hold.
  { intros z a. apply IH; [done|]. intros k1 k2 H1 H2. apply Ha; by right. }
  apply elem_of_cons in Hin as [[= -> ->]|Hin]; [|by eapply Hold].
  pose proof (Z.mod_pos_bound (c - hv c) N ltac:(lia)) as Hd. fold (distance N (hv c) c) in Hd.
  destruct (decide (distance N (hv c) c = 0)) as [|Hne]; [done|]. destruct (Hp 0 ltac:(lia)) as [Hdocs Hk].
  rewrite Z.add_0_r in *. destruct (docs_in rows (hv c `mod` N)) as [|z l] eqn:Ed; [done|].
  assert ((z, hv c `mod` N) ∈ rows) as Hz by (apply elem_docs_in; rewrite Ed; left).
  exfalso. apply Hk, Ha; [right; exact (list_elem_of_fmap_2 hv _ _ (list_elem_of_fmap_2 snd _ _ Hz))|left|].
  pose proof (Z.mod_pos_bound (hv c) N ltac:(lia)) as Hm. pose proof (at_distance N (hv (hv c `mod` N)) _ Hm) as E.
  by rewrite (Hold z _ Hz), Z.add_0_r in E.
Qed.

Lemma apart_near h d k : dyhash_inv h d → apart h.*2 → k ≠ 0 → near d k.
Proof.
  intros (ts & _ & _ & Ht & [Hs _ Hp]) Ha Hk. refine (proj2 (near_table (singles d) ts k Ht) _). intros [rows hv] b Hin Hb Eb. simpl in Eb.
  pose proof Hin as Hin'. apply list_elem_of_lookup_1 in Hin' as [j Hj].
  apply (Forall2_lookup_r _ _ _ _ _ Ht) in Hj as (s & _ & Hsi). simpl in Hsi.
  destruct (docs_in rows b) as [|x l] eqn:Ed; [apply (si_used _ _ _ _ _ Hsi) in Ed; congruence|].
  rewrite <- Eb, (apart_home rows hv x b); [done|by apply (Hp (rows, hv))| |apply elem_docs_in; rewrite Ed; left].
  assert (∀ a, a ∈ hv <$> rows.*2 → a ∈ h.*2) as Hsub.
  { intros a Ha'. apply list_elem_of_fmap in Ha' as (c & -> & Hc). apply list_elem_of_fmap in Hc as ([y c'] & -> & Hc).
    apply (list_elem_of_fmap_2 snd h (y, hv c')). by apply (Hs (rows, hv)). }
  intros k1 k2 H1 H2. apply Ha; by apply Hsub.
Qed.

(** ** Sequences of operations *)

Inductive dyhash_op :=
| DyInsert (docid : Z) (word : low_data_struct)
| DyRecover (docid : Z)
| DyCheckpoint
| DySwitch.

Definition run_word (all_mmap : bool) (d : dyhash_index_manager) (op : dyhash_op)
    : option (Z * dyhash_index_manager) :=
  match op with
  | DyInsert docid w => dyhash_index_insert get_hash_value all_mmap fresh_io no_files d w docid
  | DyRecover docid => dyhash_index_recover d docid
  | DyCheckpoint => Some (0, dyhash_index_checkpoint all_mmap fresh_io d)
  | DySwitch => Some (dyhash_index_mmap_switch all_mmap fresh_io fresh_io d)
  end.

Fixpoint run_words (all_mmap : bool) (d : dyhash_index_manager) (ops : list dyhash_op)
    : option dyhash_index_manager :=
  match ops with
  | [] => Some d
  | op :: ops => '(rc, d) ← run_word all_mmap d op; if rc =? 0 then run_words all_mmap d ops else None
  end.

Definition spec_word (h : list (Z * Z)) (op : dyhash_op) : list (Z * Z) :=
  match op with
  | DyInsert docid w => (docid, get_hash_value w) :: h
  | DyRecover docid => filter (λ p, p.1 < docid) h
  | DyCheckpoint | DySwitch => h
  end.

(** Words are not empty, and documents come in order. *)
Fixpoint words_ok (h : list (Z * Z)) (ops : list dyhash_op) : Prop :=
  match ops with
  | [] => True
  | op :: ops =>
      match op with
      | DyInsert docid w =>
          0 ≤ docid < M ∧ len w ≠ 0 ∧ get_hash_value w ≠ 0 ∧ Forall (λ p, p.1 ≤ docid) h
      | DyRecover docid => 0 ≤ docid
      | DyCheckpoint | DySwitch => True
      end ∧ words_ok (spec_word h op) ops
  end.

Lemma run_words_spec all_mmap h d ops :
  dyhash_inv h d → words_ok h ops →
  ∃ d', run_words all_mmap d ops = Some d' ∧ dyhash_inv (foldl spec_word h ops) d'.
Proof.
  revert h d. induction ops as [|op ops IH]; intros h d Hi Hok; [by exists d|].
  destruct Hok as [Hop Hok]. cbn [run_words foldl].
  assert (∃ d1, run_word all_mmap d op = Some (0, d1) ∧ dyhash_inv (spec_word h op) d1) as (d1 & -> & H1).
  { destruct op as [docid w|docid| |]; cbn [run_word spec_word].
    - destruct Hop as (? & ? & ? & Hle). apply insert_word; try done.
      intros y Hy. apply list_elem_of_fmap in Hy as ([y' k] & -> & Hy). rewrite List.Forall_forall in Hle.
      by apply (Hle (y', k)), list_elem_of_In.
    - by apply recover_words.
    - eexists. split; [done|]. by apply checkpoint_words.
    - destruct (switch_words all_mmap h d Hi) as (d1 & -> & ?). by exists d1. }
  cbn [mbind option_bind]. simpl (0 =? 0). cbv iota. by apply IH.
Qed.

Lemma dyhash_empty all_mmap fuel :
  ∃ d, dyhash_index_init all_mmap fresh_io no_files (S (S fuel)) N false = Some (Ptr d) ∧ dyhash_inv [] d.
Proof.
  unfold dyhash_index_init. cbn [open_singles]. change (1 =? 1) with true.
  destruct (fresh_single all_mmap 1 false) as (s & Hs & Hi). unfold fresh_io, no_files. rewrite Hs. cbn [mbind option_bind].
  change (u16 (1 + 1)) with 2. change (2 =? 1) with false. unfold create_single_index at 1.
  rewrite bool_decide_true by done. cbn [negb andb mbind option_bind]. eexists. split; [done|].
  exists [([], λ _, 0)]. split; [done|]. split; [done|]. split; [by constructor|]. split.
  - intros t x b ->%list_elem_of_singleton Hin. by apply elem_of_nil in Hin.
  - intros x k Hin. by apply elem_of_nil in Hin.
  - by intros t ->%list_elem_of_singleton.
Qed.
End index.

(** C18: the growing hash index of words refines the history of words.  From a
    fresh index, when the system calls succeed, every sequence of insertions of
    words in document order, recoveries, checkpoints and memory switches succeeds.
    A lookup then lists, in descending order, only documents of the history with
    the hash of the word, and it lists all of them, across all tables, when the
    buckets of that hash are at most [DOC_MULTIPLE_NUM] behind their homes, which
    is as far as a lookup goes.  That is so for every word when no two words of the
    history share a home bucket.  A table number has 16 bits.  Reopening the files
    is not among the operations. *)
Theorem dyhash_index_refines get_hash_value null_hash `{!HashLaws get_hash_value null_hash}
    (N M : Z) (all_mmap : bool) (ops : list dyhash_op) :
  0 < N < 2 ^ 27 → M < 2 ^ 31 → words_ok get_hash_value M [] ops →
  ∃ d0 d, dyhash_index_init all_mmap fresh_io no_files 2 N false = Some (Ptr d0) ∧
    run_words get_hash_value all_mmap d0 ops = Some d ∧
    (zlen (singles d) < 2 ^ 16 →
      let h := foldl (spec_word get_hash_value) [] ops in
      (∀ w, len w ≠ 0 → get_hash_value w ≠ 0 →
        ∃ r, dyhash_index_query get_hash_value d w = Some r ∧ rows_ok M r ∧
          id_set r ⊆ word_docs h (get_hash_value w) ∧
          (near d (get_hash_value w) → id_set r = word_docs h (get_hash_value w))) ∧
      (apart N h.*2 → ∀ k, k ≠ 0 → near d k)).
Proof.
  intros HN HM Hok. destruct (dyhash_empty N M HN all_mmap 0) as (d0 & H0 & Hi0).
  destruct (run_words_spec get_hash_value N M HN all_mmap [] d0 ops Hi0 Hok) as (d & Hr & Hi).
  exists d0, d. split; [done|]. split; [done|]. intros _ h. split; [|intros Ha k Hk; by apply (apart_near N M HN h)].
  intros w Hlen Hk. destruct Hi as (ts & _ & _ & Ht & [Hs Hc Hp]).
  edestruct (query_tables get_hash_value null_hash N M HN HM) with (1 := Ht) (acc := @NULL rowid_list) (w := w)
    as (r & Hq & Hrok & Hsub & _ & Hall); try done.
  { split; simpl; [done|constructor|intros v Hv; by apply elem_of_nil in Hv]. }
  exists r. split; [done|]. split; [done|]. split; [done|]. intros Hn. apply set_eq. intros x. split; [apply Hsub|].
  intros Hx%elem_word_docs. destruct (Hc x _ Hx) as (t & b & Hin & Hrow & Eb).
  apply (Hall (proj1 (near_table N M _ _ _ Ht) Hn) t x b Hin Hrow Eb).
Qed.

Lemma near_check d k :
  forallb (λ s, forallb (λ p, negb (dy_hash p.2 =? k) || ((p.1 - k) `mod` sg_hashmod s <=? DOC_MULTIPLE_NUM))
    (zip (seqZ 0 (zlen (sg_table s))) (sg_table s))) (singles d) = true → near d k.
Proof.
  intros H s i b Hin Hg Eb. rewrite forallb_forall in H. apply list_elem_of_In in Hin. specialize (H s Hin).
  rewrite forallb_forall in H. pose proof (zget_Some_range _ _ _ Hg) as Hi. rewrite zget_lookup in Hg by lia.
  specialize (H (i, b)). apply Z.leb_le. simpl in H. rewrite Eb, Z.eqb_refl in H. apply H.
  apply list_elem_of_In, (list_elem_of_lookup_2 _ (Z.to_nat i)). apply lookup_zip_Some. split; [|done].
  apply lookup_seqZ. lia.
Qed.

(** Three words of one home bucket, a second table for the last, and documents
    that are cut off again. *)
Definition demo_words : list dyhash_op :=
  [DyInsert 0 (int64 3); DyInsert 0 (int64 7); DyInsert 1 (int64 11); DyInsert 1 (int64 7); DyCheckpoint;
   DyInsert 2 (int64 3); DyInsert 2 (int64 15); DySwitch; DyRecover 2; DyInsert 2 (int64 7);
   DyInsert 3 (int64 3); DyInsert 4 (int64 7); DyInsert 5 (int64 11); DyInsert 6 (int64 11)].

Lemma dyhash_index_refines_witness :
  ∃ d0 d r, dyhash_index_init false fresh_io no_files 2 4 false = Some (Ptr d0) ∧
    run_words hash_of false d0 demo_words = Some d ∧ length (singles d) = 2%nat ∧
    dyhash_index_query hash_of d (int64 11) = Some r ∧ id_set r = {[1; 5; 6]}.
Proof.
  destruct (dyhash_index_refines hash_of null_hash 4 10 false demo_words) as (d0 & d & H0 & Hr & Hq).
  - lia.
  - lia.
  - vm_compute. repeat first [split|constructor|discriminate|intros ?; discriminate].
  - pose proof H0 as H0'. vm_compute in H0'. injection H0' as <-.
    pose proof Hr as Hr'. vm_compute in Hr'. injection Hr' as <-.
    destruct (Hq ltac:(vm_compute; reflexivity)) as [Hq1 _].
    destruct (Hq1 (int64 11)) as (r & Hr1 & _ & _ & Hset); [discriminate|vm_compute; discriminate|].
    eexists _, _, r. split; [exact H0|]. split; [exact Hr|]. split; [reflexivity|]. split; [exact Hr1|]. rewrite Hset.
    + vm_compute. reflexivity.
    + apply near_check. vm_compute. reflexivity.
Defined.

(** Four words with the same home bucket: all are stored, but a lookup gives up
    after [DOC_MULTIPLE_NUM] conflicts where the insertion goes on for
    [CONFLICT_RETRY_NUM], and the fourth word is never found again. *)
Theorem dyhash_query_gives_up :
  ∃ d0 d, dyhash_index_init false fresh_io no_files 2 8 false = Some (Ptr d0) ∧
    run_words hash_of false d0 ((λ i, DyInsert i (int64 (8 * i))) <$> [0; 1; 2; 3]) = Some d ∧
    length (singles d) = 1%nat ∧
    (∃ l, dyhash_index_query hash_of d (int64 16) = Some (Ptr l) ∧ elems l = [2]) ∧
    dyhash_index_query hash_of d (int64 24) = Some NULL.
Proof.
  eexists _, _. do 2 (split; [vm_compute; reflexivity|]). split; [reflexivity|].
  split; [eexists; split; vm_compute; reflexivity|vm_compute; reflexivity].
Qed.

(** A table opened after the memory switch is private memory, but the index counts
    as full, so that its checkpoint and release only call [msync]: the words of the
    table are found as long as the server runs, and its file stays empty. *)
Theorem late_table_not_written :
  ∃ d0 d, dyhash_index_init false fresh_io no_files 2 1 false = Some (Ptr d0) ∧
    run_words hash_of false d0 [DyInsert 0 (int64 3); DySwitch; DyInsert 1 (int64 4); DyCheckpoint] = Some d ∧
    (∃ l, dyhash_index_query hash_of d (int64 4) = Some (Ptr l) ∧ elems l = [1]) ∧
    map (λ t, (t.1.1, map dy_hash t.1.2)) (dyhash_index_release false fresh_io d) = [(1, [hash_of (int64 3)]); (2, [])].
Proof.
  eexists _, _. do 2 (split; [vm_compute; reflexivity|]).
  split; [eexists; split; vm_compute; reflexivity|vm_compute; reflexivity].
Qed.
