(* ===== verification/Column.v ===== *)
(** * Columns: the contract of the storage layers

    A column keeps one value per row.  [Column] lists the operations that the
    layers above call, [ColumnLaws] what they promise; the fixed-length storage,
    the variable-length storage and the filter index that chooses between them
    are instances, and the row store is verified against this contract only. *)

From Stdlib Require Import ZArith Lia.
From stdpp Require Import base option list numbers.
From S2P Require Import Prelude LowData.

Class Column (S : Type) := {
  col_insert : S → low_data_struct → Z → option (Z * S);
  col_update : S → low_data_struct → Z → option (Z * ptr low_data_struct * S);
  col_query : S → Z → option (ptr low_data_struct);
  col_recover : S → Z → option (Z * S)
}.

(** The abstract value of a datum: length 0 is null. *)
Definition to_val (v : low_data_struct) : option (list Z) :=
  if len v =? 0 then None else Some (data v).

(** A query result shows the value [o]. *)
Definition shows (r : low_data_struct) (o : option (list Z)) : Prop :=
  match o with
  | None => len r = 0
  | Some v => data r = v ∧ len r = zlen v ∧ len r ≠ 0
  end.

Class ColumnLaws (S : Type) `{!Column S} := {
  col_wf : S → Prop;
  col_limit : S → Z;
  col_val : S → Z → option (list Z);
  (** the lengths that the column accepts, and the bytes it has taken so far *)
  col_fits : S → Z → Prop;
  col_size : S → Z;
  value_ok s v := zlen (data v) = len v ∧ (len v ≠ 0 → col_fits s (len v)) ∧ col_size s + len v < 2 ^ 64;
  next s s' n := col_wf s' ∧ col_limit s' = col_limit s ∧ (∀ k, col_fits s' k ↔ col_fits s k) ∧
    col_size s' ≤ col_size s + n;
  (** the row takes the value; null is inserted into null rows only *)
  col_insert_ok : ∀ s v d, col_wf s → 0 ≤ d < col_limit s → value_ok s v → len v ≠ 0 ∨ col_val s d = None →
    ∃ s', col_insert s v d = Some (0, s') ∧ next s s' (len v) ∧
      ∀ e, 0 ≤ e < col_limit s → col_val s' e = if decide (e = d) then to_val v else col_val s e;
  (** as does any row, and the old value is returned *)
  col_update_ok : ∀ s v d, col_wf s → 0 ≤ d < col_limit s → value_ok s v →
    ∃ s' old, col_update s v d = Some (0, Ptr old, s') ∧ shows old (col_val s d) ∧ next s s' (len v) ∧
      ∀ e, 0 ≤ e < col_limit s → col_val s' e = if decide (e = d) then to_val v else col_val s e;
  col_query_ok : ∀ s d, col_wf s → 0 ≤ d < col_limit s →
    ∃ r, col_query s d = Some (Ptr r) ∧ shows r (col_val s d);
  (** the rows from [d] on become null *)
  col_recover_ok : ∀ s d, col_wf s → 0 ≤ d < col_limit s →
    ∃ s', col_recover s d = Some (0, s') ∧ next s s' 0 ∧
      ∀ e, 0 ≤ e < col_limit s → col_val s' e = if decide (e < d) then col_val s e else None
}.

Arguments value_ok {S _ _} s v.
Arguments next {S _ _} s s' n.

(** ** Sequences of operations *)

Inductive column_op :=
| ColInsert (d : Z) (v : low_data_struct)
| ColUpdate (d : Z) (v : low_data_struct)
| ColRecover (d : Z).

Section ops.
Context {S : Type} `{!Column S}.

Definition run_col (s : S) (op : column_op) : option (Z * S) :=
  match op with
  | ColInsert d v => col_insert s v d
  | ColUpdate d v => '(rc, _, s) ← col_update s v d; Some (rc, s)
  | ColRecover d => col_recover s d
  end.

Fixpoint run_cols (s : S) (ops : list column_op) : option S :=
  match ops with
  | [] => Some s
  | op :: ops => '(rc, s) ← run_col s op; if rc =? 0 then run_cols s ops else None
  end.

Definition spec_col (f : Z → option (list Z)) (op : column_op) : Z → option (list Z) :=
  match op with
  | ColInsert d v | ColUpdate d v => λ e, if decide (e = d) then to_val v else f e
  | ColRecover d => λ e, if decide (e < d) then f e else None
  end.

(** Null is inserted into null rows only; [n] bounds the bytes taken so far. *)
Fixpoint cols_ok (limit : Z) (fits : Z → Prop) (f : Z → option (list Z)) (n : Z) (ops : list column_op)
    : Prop :=
  match ops with
  | [] => True
  | op :: ops =>
      match op with
      | ColInsert d v | ColUpdate d v =>
          0 ≤ d < limit ∧ zlen (data v) = len v ∧ (len v ≠ 0 → fits (len v)) ∧ n + len v < 2 ^ 64 ∧
          (match op with ColInsert _ _ => len v ≠ 0 ∨ f d = None | _ => True end) ∧
          cols_ok limit fits (spec_col f op) (n + len v) ops
      | ColRecover d => 0 ≤ d < limit ∧ cols_ok limit fits (spec_col f op) n ops
      end
  end.

Context `{!ColumnLaws S}.

Lemma run_col_ok s f n op ops fits :
  col_wf s → (∀ e, 0 ≤ e < col_limit s → col_val s e = f e) → (∀ k, fits k → col_fits s k) →
  col_size s ≤ n → cols_ok (col_limit s) fits f n (op :: ops) →
  ∃ s' n', run_col s op = Some (0, s') ∧ col_wf s' ∧ col_limit s' = col_limit s ∧
    (∀ k, fits k → col_fits s' k) ∧ col_size s' ≤ n' ∧
    cols_ok (col_limit s) fits (spec_col f op) n' ops ∧
    ∀ e, 0 ≤ e < col_limit s → col_val s' e = spec_col f op e.
Proof.
  intros Hw Hf Hfit Hn. destruct op as [d v|d v|d]; cbn [cols_ok run_col spec_col].
  - intros (Hd & Hz & Hv & Hmax & Hnone & Hops).
    destruct (col_insert_ok s v d Hw Hd) as (s' & -> & (Hw' & Hl & Hfit' & Hs) & Hc);
      [split_and!; [done|auto|lia]|by rewrite Hf|].
    exists s', (n + len v). split_and!; try done; [intros; apply Hfit'; auto|lia|].
    intros e He. rewrite Hc by done. by rewrite Hf by done.
  - intros (Hd & Hz & Hv & Hmax & _ & Hops).
    destruct (col_update_ok s v d Hw Hd) as (s' & old & -> & _ & (Hw' & Hl & Hfit' & Hs) & Hc);
      [split_and!; [done|auto|lia]|].
    exists s', (n + len v). split_and!; try done; [intros; apply Hfit'; auto|lia|].
    intros e He. rewrite Hc by done. by rewrite Hf by done.
  - intros (Hd & Hops). destruct (col_recover_ok s d Hw Hd) as (s' & -> & (Hw' & Hl & Hfit' & Hs) & Hc).
    exists s', n. split_and!; try done; [intros; apply Hfit'; auto|lia|].
    intros e He. rewrite Hc by done. by rewrite Hf by done.
Qed.

(** Every column implements a map from rows to values. *)
Lemma run_cols_ok s f n ops fits :
  col_wf s → (∀ e, 0 ≤ e < col_limit s → col_val s e = f e) → (∀ k, fits k → col_fits s k) →
  col_size s ≤ n → cols_ok (col_limit s) fits f n ops →
  ∃ s', run_cols s ops = Some s' ∧ col_wf s' ∧ col_limit s' = col_limit s ∧
    ∀ e, 0 ≤ e < col_limit s → col_val s' e = foldl spec_col f ops e.
Proof.
  revert s f n. induction ops as [|op ops IH]; intros s f n Hw Hf Hfit Hn Hok; [by exists s|].
  destruct (run_col_ok s f n op ops fits) as (s1 & n1 & H1 & Hw1 & Hl1 & Hfit1 & Hn1 & Hok1 & Hc1); try done.
  cbn [run_cols foldl]. rewrite H1. cbn [mbind option_bind]. simpl (0 =? 0). cbv iota.
  destruct (IH s1 (spec_col f op) n1 Hw1) as (s2 & H2 & Hw2 & Hl2 & Hc2);
    [by rewrite Hl1|done|done|by rewrite Hl1|].
  exists s2. rewrite Hl1 in *. split_and!; try done; congruence.
Qed.
End ops.
