(* ===== verification/FilterIndex.v ===== *)
(** * Filter index ([src/storage/docdb/filter_index.c])

    The column behind a filter index or a row store: fixed-length or
    variable-length storage, by the type of the values. *)

From Stdlib Require Import ZArith Lia.
From stdpp Require Import base option list numbers.
From S2P Require Import Prelude FileOp LowData Bitmark Storage VStorage Column.

Definition is_fixed_size (t : field_types) : bool := get_unit_size t >? 0.

Record filter_index_manager (M : Type) := FilterIndex {
  fi_type : field_types;
  fi_storage : option (storage_manager M);    (* [None] is NULL *)
  fi_vstorage : option vstorage_manager
}.
Arguments FilterIndex {M}.
Arguments fi_type {M}.
Arguments fi_storage {M}.
Arguments fi_vstorage {M}.

Section filter_index.
Context {M : Type} `{!MarkSet M}.
Implicit Types (f : filter_index_manager M).

Definition with_storage f (st : storage_manager M) : filter_index_manager M :=
  FilterIndex (fi_type f) (Some st) (fi_vstorage f).
Definition with_vstorage f (vs : vstorage_manager) : filter_index_manager M :=
  FilterIndex (fi_type f) (fi_storage f) (Some vs).

(** [st] and [vs] are the results of [storage_init] and [vstorage_init] for the
    files of the column; the code asserts that the one it calls is not NULL. *)
Definition filter_index_init (t : field_types) (unit_size row_limit : Z)
    (st : Z → Z → option (storage_manager M)) (vs : Z → ptr vstorage_manager)
    : option (filter_index_manager M) :=
  if negb (is_fixed_size t) then
    match vs row_limit with NULL => None | Ptr v => Some (FilterIndex t None (Some v)) end
  else
    s ← st unit_size row_limit;
    Some (FilterIndex t (Some s) None).

(** [w] is the result of the [write] that a variable-length insertion makes. *)
Definition filter_index_insert (w : Z) f (data : low_data_struct) (docid : Z)
    : option (Z * filter_index_manager M) :=
  if negb (is_fixed_size (fi_type f)) then
    vs ← fi_vstorage f;
    '(ret, vs) ← vstorage_insert w vs data docid;
    Some (ret, with_vstorage f vs)
  else
    st ← fi_storage f;
    '(ret, st) ← storage_insert st data docid;
    Some (ret, with_storage f st).

Definition filter_index_update (w : Z) f (new_data : low_data_struct) (docid : Z)
    : option (Z * ptr low_data_struct * filter_index_manager M) :=
  if negb (is_fixed_size (fi_type f)) then
    vs ← fi_vstorage f;
    '(ret, old, vs) ← vstorage_update w vs new_data docid;
    Some (ret, old, with_vstorage f vs)
  else
    st ← fi_storage f;
    '(ret, old, st) ← storage_update st new_data docid;
    Some (ret, Ptr old, with_storage f st).

Definition filter_index_query f (docid : Z) : option (ptr low_data_struct) :=
  if negb (is_fixed_size (fi_type f)) then
    vs ← fi_vstorage f;
    vstorage_query vs docid
  else
    st ← fi_storage f;
    Ptr <$> storage_query st docid.

(** [size_ok] and [trunc_ok]: the outcomes of [fstat] and [ftruncate]. *)
Definition filter_index_recover (size_ok trunc_ok : bool) f (docid : Z)
    : option (Z * filter_index_manager M) :=
  if negb (is_fixed_size (fi_type f)) then
    vs ← fi_vstorage f;
    '(ret, vs) ← vstorage_recover size_ok trunc_ok vs docid;
    Some (ret, with_vstorage f vs)
  else
    st ← fi_storage f;
    '(ret, st) ← storage_recover st docid;
    Some (ret, with_storage f st).

(** The files as the next opener finds them: the cells of fixed-length storage
    ([inl]) after [msync], or the index and data file of the other ([inr]).
    [filter_index_release] unmaps the same memory. *)
Definition filter_index_checkpoint f (file : list Z)
    : option (list Z + (Z * list locate_info * list Z)) :=
  if negb (is_fixed_size (fi_type f)) then
    vs ← fi_vstorage f;
    Some (inr (vs_offset vs, locs vs, VStorage.data_file vs))
  else
    st ← fi_storage f;
    Some (inl (storage_checkpoint st file)).
End filter_index.

(** ** The storages as columns *)

Section storage_column.
Context {M : Type} `{!MarkSet M, !MarkSetLaws M}.

#[export] Instance storage_Column : Column (storage_manager M) := {
  col_insert := storage_insert;
  col_update s v d := '(rc, old, s) ← storage_update s v d; Some (rc, Ptr old, s);
  col_query s d := Ptr <$> storage_query s d;
  col_recover := storage_recover
}.

Lemma storage_shows (st : storage_manager M) d :
  storage_wf st → 0 ≤ d < st_row_limit st →
  ∃ r, storage_query st d = Some r ∧ shows r (Storage.contents st d).
Proof.
  intros Hw Hd. rewrite storage_query_spec by done. eexists. split; [done|].
  pose proof (sw_size _ Hw). destruct (Storage.contents st d) as [v|] eqn:E; [|done].
  simpl. split; [done|]. unfold Storage.contents in E. destruct (ms_bit _ d); [|done].
  injection E as <-. destruct (cell_bounds st d Hw Hd) as (? & ? & _). pose proof (sw_mem _ Hw) as Hm.
  unfold cell, zlen in *. rewrite length_take, length_drop. lia.
Qed.

#[export] Instance storage_ColumnLaws : ColumnLaws (storage_manager M).
Proof.
  refine {| col_wf := storage_wf; col_limit := st_row_limit; col_val := Storage.contents;
            col_fits s n := n = value_size s; col_size _ := 0 |}.
  - intros st v d Hw Hd (Hz & Hv & _) Hnone.
    destruct (storage_insert_spec st v d Hw Hd) as (st' & H & Hw' & Hs & Hl & Hc);
      [intros E; split; [by apply Hv|done]|].
    exists st'. split; [done|]. pose proof (zlen_nonneg (data v)).
    split; [split_and!; try done; [by rewrite Hs|lia]|]. intros e He. rewrite Hc by done.
    unfold to_val. destruct (Z.eqb_spec (len v) 0) as [E|E]; repeat case_decide; try tauto; subst; destruct Hnone; tauto.
  - intros st v d Hw Hd (Hz & Hv & _).
    destruct (storage_update_spec st v d Hw Hd) as (st' & old & H & Hq & Hw' & Hs & Hl & Hc);
      [intros E; split; [by apply Hv|done]|].
    destruct (storage_shows st d Hw Hd) as (r & Hr & Hsh). rewrite Hq in Hr. injection Hr as <-.
    exists st', old. cbn [col_update storage_Column]. rewrite H. cbn [mbind option_bind].
    split; [done|]. split; [done|]. pose proof (zlen_nonneg (data v)).
    split; [split_and!; try done; [by rewrite Hs|lia]|]. exact Hc.
  - intros st d Hw Hd. destruct (storage_shows st d Hw Hd) as (r & Hr & Hsh).
    exists r. cbn [col_query storage_Column]. by rewrite Hr.
  - intros st d Hw Hd. destruct (storage_recover_spec st d Hw Hd) as (st' & H & Hw' & Hs & Hl & Hc).
    exists st'. split; [done|]. split; [split_and!; try done; by rewrite Hs|]. exact Hc.
Defined.
End storage_column.

(** The system calls succeed. *)
#[export] Instance vstorage_Column : Column vstorage_manager := {
  col_insert s v d := vstorage_insert (len v) s v d;
  col_update s v d := vstorage_update (len v) s v d;
  col_query := vstorage_query;
  col_recover := vstorage_recover true true
}.

Definition bytes_val (v : list Z) : option (list Z) := match v with [] => None | _ => Some v end.

Lemma to_val_bytes v : zlen (data v) = len v → to_val v = bytes_val (data v).
Proof.
  intros Hz. unfold to_val. rewrite <- Hz. unfold zlen, bytes_val. by destruct (data v).
Qed.

Lemma shows_bytes v : shows (LowData HI_TYPE_NULL v (zlen v)) (bytes_val v).
Proof. destruct v as [|b v]; [done|]. unfold shows, zlen. simpl. split; [done|]. lia. Qed.

#[export] Instance vstorage_ColumnLaws : ColumnLaws vstorage_manager.
Proof.
  refine {| col_wf := vstorage_wf; col_limit := vs_row_limit;
            col_val s d := bytes_val (VStorage.contents s d);
            col_fits s n := wide s = false → n ≤ 0xFFFF; col_size s := zlen (VStorage.data_file s) |}.
  - intros vs v d Hw Hd (Hz & Hv & Hmax) _.
    destruct (vstorage_insert_spec vs v d Hw Hd) as (vs' & H & Hw' & Hl & Hwd & Hs & Hc).
    { split; [done|]. split; [|done]. intros Hf. destruct (decide (len v = 0)); [lia|]. auto. }
    exists vs'. split; [done|]. split; [split_and!; try done; [by rewrite Hwd|lia]|].
    intros e He. rewrite Hc. case_decide; [|done]. by rewrite to_val_bytes.
  - intros vs v d Hw Hd (Hz & Hv & Hmax).
    destruct (vstorage_update_spec vs v d Hw Hd) as (vs' & old & H & Hq & Hw' & Hl & Hwd & Hs & Hc).
    { split; [done|]. split; [|done]. intros Hf. destruct (decide (len v = 0)); [lia|]. auto. }
    rewrite vstorage_query_spec in Hq by done. injection Hq as <-.
    eexists vs', _. split; [exact H|]. split; [apply shows_bytes|].
    split; [split_and!; try done; [by rewrite Hwd|lia]|].
    intros e He. rewrite Hc. case_decide; [|done]. by rewrite to_val_bytes.
  - intros vs d Hw Hd. cbn [col_query vstorage_Column]. rewrite vstorage_query_spec by done.
    eexists. split; [done|]. apply shows_bytes.
  - intros vs d Hw Hd. destruct (vstorage_recover_spec vs d Hw Hd) as (vs' & H & Hw' & Hl & Hwd & Hs & Hc).
    exists vs'. split; [exact H|]. split; [split_and!; try done; [by rewrite Hwd|lia]|].
    intros e He. rewrite Hc. by case_decide.
Defined.

(** ** The filter index as a column *)

Section filter_column.
Context {M : Type} `{!MarkSet M, !MarkSetLaws M}.
Implicit Types (f : filter_index_manager M).

(** The storage in use. *)
Definition on_store {R} (z : R) (g : storage_manager M → R) (h : vstorage_manager → R) f : R :=
  if is_fixed_size (fi_type f) then match fi_storage f with Some st => g st | None => z end
  else match fi_vstorage f with Some vs => h vs | None => z end.

#[export] Instance filter_Column : Column (filter_index_manager M) := {
  col_insert f v d := filter_index_insert (len v) f v d;
  col_update f v d := filter_index_update (len v) f v d;
  col_query := filter_index_query;
  col_recover := filter_index_recover true true
}.

Definition filter_wf : filter_index_manager M → Prop := on_store False col_wf col_wf.

(** Case analysis on the storage of a well-formed filter index. *)
Lemma filter_cases f (P : Prop) :
  filter_wf f →
  (∀ st, is_fixed_size (fi_type f) = true → fi_storage f = Some st → col_wf st → P) →
  (∀ vs, is_fixed_size (fi_type f) = false → fi_vstorage f = Some vs → col_wf vs → P) → P.
Proof.
  unfold filter_wf, on_store. intros Hw Hst Hvs.
  destruct (is_fixed_size (fi_type f)).
  - destruct (fi_storage f) as [st|]; [|done]. by apply (Hst st).
  - destruct (fi_vstorage f) as [vs|]; [|done]. by apply (Hvs vs).
Qed.

#[export] Instance filter_ColumnLaws : ColumnLaws (filter_index_manager M).
Proof.
  refine {| col_wf := filter_wf;
            col_limit := on_store 0 col_limit col_limit;
            col_val := on_store (λ _, None) col_val col_val;
            col_fits := on_store (λ _, False) col_fits col_fits;
            col_size := on_store 0 col_size col_size |}.
  - intros f v d Hw. apply (filter_cases f _ Hw);
      intros s Ef Es Hs; unfold on_store; cbn [col_insert filter_Column]; unfold filter_index_insert, filter_wf, on_store;
      cbn [with_storage with_vstorage fi_type fi_storage fi_vstorage]; rewrite Ef, Es; intros Hd Hv Hn;
      (edestruct (col_insert_ok s v d Hs Hd Hv Hn) as (s' & H & (? & ? & ? & ?) & Hc));
      cbn [col_insert storage_Column vstorage_Column] in H; simpl negb; cbv iota; cbn [mbind option_bind];
      rewrite H; cbn [mbind option_bind]; eexists; (split; [done|]);
      cbn [with_storage with_vstorage fi_type fi_storage fi_vstorage]; rewrite Ef; done.
  - intros f v d Hw. apply (filter_cases f _ Hw); intros s Ef Es Hs; unfold on_store;
      cbn [col_update filter_Column]; unfold filter_index_update, filter_wf, on_store; rewrite Ef, Es; intros Hd Hv;
      (edestruct (col_update_ok s v d Hs Hd Hv) as (s' & old & H & Hsh & (? & ? & ? & ?) & Hc));
      cbn [col_update storage_Column vstorage_Column] in H; simpl negb; cbv iota; cbn [mbind option_bind];
      [destruct (storage_update s v d) as [[[? ?] ?]|]; [|done]; cbn [mbind option_bind] in H; injection H as -> -> ->
      |rewrite H]; cbn [mbind option_bind]; eexists _, old; (split; [done|]); (split; [done|]);
      cbn [with_storage with_vstorage fi_type fi_storage fi_vstorage]; rewrite Ef; done.
  - intros f d Hw. apply (filter_cases f _ Hw); intros s Ef Es Hs; unfold on_store;
      cbn [col_query filter_Column]; unfold filter_index_query; rewrite Ef, Es; intros Hd;
      exact (col_query_ok s d Hs Hd).
  - intros f d Hw. apply (filter_cases f _ Hw); intros s Ef Es Hs; unfold on_store;
      cbn [col_recover filter_Column]; unfold filter_index_recover, filter_wf, on_store; rewrite Ef, Es; intros Hd;
      (edestruct (col_recover_ok s d Hs Hd) as (s' & H & (? & ? & ? & ?) & Hc));
      cbn [col_recover storage_Column vstorage_Column] in H; simpl negb; cbv iota; cbn [mbind option_bind];
      rewrite H; cbn [mbind option_bind]; eexists; (split; [done|]);
      cbn [with_storage with_vstorage fi_type fi_storage fi_vstorage]; rewrite Ef; done.
Defined.
End filter_column.

(** C37: a filter index of any type implements a map from rows to values.  Opened
    over empty files, it runs every sequence of insertions (of null into null rows only),
    updates and recoveries with values of its type, as long as the system calls
    succeed, and a query then shows the value that the sequence left in the
    row.  The caller need not know which storage is behind. *)
Theorem filter_index_refines t limit ops d :
  0 < limit < 2 ^ 31 → limit * 12 + 8 < 2 ^ 31 → get_unit_size t * limit < 2 ^ 31 →
  cols_ok limit (λ n, is_fixed_size t = true → n = get_unit_size t) (λ _, None) 0 ops → 0 ≤ d < limit →
  ∃ f f' r,
    filter_index_init t (get_unit_size t) limit
      (λ u l, bm ← bitmark_init l []; storage_init true u l [] (Some bm))
      (vstorage_init true false 0 [] []) = Some f ∧
    run_cols f ops = Some f' ∧ filter_index_query f' d = Some (Ptr r) ∧
    shows r (foldl spec_col (λ _, None) ops d).
Proof.
  intros Hl Hl12 Hu Hops Hd.
  assert (∃ f, filter_index_init t (get_unit_size t) limit
      (λ u l, bm ← bitmark_init l []; storage_init true u l [] (Some bm))
      (vstorage_init true false 0 [] []) = Some f ∧ col_wf f ∧ col_limit f = limit ∧ col_size f = 0 ∧
      (∀ e, col_val f e = None) ∧
      ∀ n, (is_fixed_size t = true → n = get_unit_size t) → col_fits f n) as (f & Hi & Hw & Hlim & Hs & Hv & Hfit).
  { unfold filter_index_init, is_fixed_size. destruct (Z.gtb_spec (get_unit_size t) 0) as [Hg|Hg]; simpl negb; cbv iota.
    - destruct (storage_init_empty (get_unit_size t) limit) as (bm & st & Hb & Hst & Hw & Hvs & Hlim & Hc);
        [destruct t; simpl in *; lia|lia|lia|].
      rewrite Hb. cbn [mbind option_bind]. rewrite Hst. cbn [mbind option_bind].
      eexists. split; [done|]. unfold col_wf, col_limit, col_size, col_val, col_fits; cbn [filter_ColumnLaws].
      unfold filter_wf, on_store, is_fixed_size. cbn [fi_type fi_storage]. rewrite (proj2 (Z.gtb_lt _ 0) Hg).
      split_and!; try done. intros n Hn. rewrite Hn by done. simpl. by rewrite Hvs.
    - destruct (vstorage_init_empty false limit) as (vs & Hvs & Hw & Hlim & Hwd & Hf & Hc); [lia|simpl; lia|].
      rewrite Hvs. eexists. split; [done|]. unfold col_wf, col_limit, col_size, col_val, col_fits; cbn [filter_ColumnLaws].
      unfold filter_wf, on_store, is_fixed_size. cbn [fi_type fi_vstorage].
      rewrite Z.gtb_ltb, (proj2 (Z.ltb_ge _ _)) by lia. split_and!; try done.
      + simpl. by rewrite Hf.
      + intros e. simpl. by rewrite Hc.
      + intros n _. simpl. by rewrite Hwd. }
  destruct (run_cols_ok f (λ _, None) 0 ops _ Hw (λ e _, Hv e) Hfit) as (f' & Hr & Hw' & Hl' & Hc');
    [lia|by rewrite Hlim|].
  destruct (col_query_ok f' d Hw') as (r & Hq & Hsh); [by rewrite Hl', Hlim|].
  exists f, f', r. split; [done|]. split; [done|]. split; [done|]. by rewrite Hc' in Hsh by by rewrite Hlim.
Qed.

Lemma filter_index_refines_witness :
  ∃ f f' r,
    filter_index_init HI_TYPE_STRING 0 4
      (λ u l, bm ← bitmark_init l []; storage_init true u l [] (Some bm))
      (vstorage_init true false 0 [] []) = Some f ∧
    run_cols f [ColInsert 0 (LowData HI_TYPE_STRING [65; 66; 67] 3); ColInsert 1 (LowData HI_TYPE_STRING [68] 1);
                ColUpdate 0 (LowData HI_TYPE_STRING [69; 70] 2); ColRecover 1] = Some f' ∧
    filter_index_query f' 0 = Some (Ptr r) ∧ data r = [69; 70].
Proof.
  destruct (filter_index_refines HI_TYPE_STRING 4
    [ColInsert 0 (LowData HI_TYPE_STRING [65; 66; 67] 3); ColInsert 1 (LowData HI_TYPE_STRING [68] 1);
     ColUpdate 0 (LowData HI_TYPE_STRING [69; 70] 2); ColRecover 1] 0) as (f & f' & r & Hi & Hr & Hq & Hsh).
  - lia.
  - lia.
  - simpl. lia.
  - cbn. repeat split; try lia; try (intros _ H; vm_compute in H; discriminate).
  - lia.
  - exists f, f', r. split; [exact Hi|]. split; [exact Hr|]. split; [exact Hq|].
    vm_compute in Hsh. apply Hsh.
Defined.
