(* ===== verification/RowData.v ===== *)
(** * Rows as byte strings ([src/common/common_util.c])

    The row store keeps a row as one byte string: the number of fields in two
    bytes, then for every field the length of its name (one byte), the name, the
    type (one byte), the length of the data (four bytes) and the data.

    A field name is a C string, the list of its characters without the zero. *)

From Stdlib Require Import ZArith Lia.
From stdpp Require Import base option list numbers.
From S2P Require Import Prelude LowData.

Record field := Field { field_name : list Z; fdata : low_data_struct }.

Record row_data := Row { datas : list field; field_count : Z }.

(** The length of the string, in 32-bit arithmetic. *)
Definition row_len (fs : list field) : Z :=
  foldl (λ l f, u32 (l + 1 + 1 + zlen (field_name f) + 4 + len (fdata f))) 2 fs.

(** One turn of the loop that writes the fields, at [offset]. *)
Definition put_field (st : list Z * Z) (f : field) : option (list Z * Z) :=
  let '(buf, offset) := st in
  let fieldname_len := u8 (zlen (field_name f)) in
  buf ← zcopy buf offset [fieldname_len];
  let offset := u32 (offset + 1) in
  name ← zsub (field_name f) 0 fieldname_len;
  buf ← zcopy buf offset name;
  let offset := u32 (offset + fieldname_len) in
  buf ← zcopy buf offset [type_code (type (fdata f)) `mod` 256];
  let offset := u32 (offset + 1) in
  buf ← zcopy buf offset (le_bytes 4 (len (fdata f)));
  let offset := u32 (offset + 4) in
  src ← zsub (data (fdata f)) 0 (len (fdata f));
  buf ← zcopy buf offset src;
  Some (buf, u32 (offset + len (fdata f))).

Fixpoint put_fields (st : list Z * Z) (fs : list field) : option (list Z * Z) :=
  match fs with
  | [] => Some st
  | f :: fs => st ← put_field st f; put_fields st fs
  end.

(** [mem] is the memory that the pool hands out: it holds at least the requested
    bytes, with any content.  [memset (buf, 0, sizeof (buf))] clears the size of
    a pointer. *)
Definition rowdata_to_lowdata (mem : list Z) (rdata : row_data) : option low_data_struct :=
  fs ← zsub (datas rdata) 0 (field_count rdata);
  let len := row_len fs in
  buf ← zfill mem 0 8 0;
  buf ← zcopy buf 0 (le_bytes 2 (field_count rdata));
  '(buf, _) ← put_fields (buf, 2) fs;
  d ← zsub buf 0 len;
  Some (LowData HI_TYPE_NULL d len).

Definition load_at (p : list Z) (off n : Z) : option Z := le_value <$> zsub p off n.

(** One turn of the reading loop: the field at [offset] and the next offset. *)
Definition get_field (d : list Z) (offset : Z) : option (field * Z) :=
  fieldname_len ← d⟦offset⟧;
  let offset := u32 (offset + 1) in
  name ← zsub d offset fieldname_len;
  let offset := u32 (offset + fieldname_len) in
  code ← d⟦offset⟧;
  t ← type_of_code code;
  let offset := u32 (offset + 1) in
  len ← load_at d offset 4;
  let offset := u32 (offset + 4) in
  v ← zsub d offset len;
  Some (Field (c_string name) (LowData t v len), u32 (offset + len)).

Fixpoint get_fields (n : nat) (d : list Z) (offset : Z) : option (list field) :=
  match n with
  | O => Some []
  | S n =>
      '(f, offset) ← get_field d offset;
      fs ← get_fields n d offset;
      Some (f :: fs)
  end.

Definition lowdata_to_rowdata (rdata : low_data_struct) : option row_data :=
  n ← load_at (data rdata) 0 2;
  fs ← get_fields (Z.to_nat n) (data rdata) 2;
  Some (Row fs n).

(** ** The format *)

Definition encode_field (f : field) : list Z :=
  zlen (field_name f) :: field_name f ++ type_code (type (fdata f)) :: le_bytes 4 (len (fdata f)) ++ data (fdata f).

Definition encode_fields (fs : list field) : list Z := concat (encode_field <$> fs).

Definition encode_row (fs : list field) : list Z := le_bytes 2 (zlen fs) ++ encode_fields fs.

Record field_ok (f : field) : Prop := {
  fo_name : zlen (field_name f) < 256;
  fo_chars : Forall (λ c, c ≠ 0) (field_name f);
  fo_data : zlen (data (fdata f)) = len (fdata f)
}.

Record row_ok (fs : list field) : Prop := {
  rk_count : zlen fs < 2 ^ 16;
  rk_fields : Forall field_ok fs;
  rk_size : zlen (encode_row fs) < 2 ^ 32
}.

Lemma encode_field_len f :
  field_ok f → zlen (encode_field f) = 6 + zlen (field_name f) + len (fdata f).
Proof.
  intros [_ _ Hd]. unfold encode_field, zlen in *. simpl length. rewrite length_app. simpl. lia.
Qed.

Lemma encode_fields_cons f fs : encode_fields (f :: fs) = encode_field f ++ encode_fields fs.
Proof. done. Qed.

Lemma encode_row_len fs : zlen (encode_row fs) = 2 + zlen (encode_fields fs).
Proof. unfold encode_row. rewrite zlen_app, zlen_le_bytes. lia. Qed.

(** *** Writing *)

(** A chain of copies one behind the other is one copy. *)
Lemma zcopy_step {A} (d : list A) o a b off :
  off = o + zlen a → 0 ≤ o → o + zlen a + zlen b ≤ zlen d →
  ∃ d1, zcopy d o a = Some d1 ∧ zlen d1 = zlen d ∧ zcopy d1 off b = zcopy d o (a ++ b).
Proof.
  intros -> Ho Hl. pose proof (zlen_nonneg b).
  destruct (zcopy_spec d o a) as (d1 & Hd1 & Hl1 & _); [lia|lia|].
  exists d1. split; [done|]. split; [done|]. by apply zcopy_app.
Qed.

Lemma put_field_spec buf off f :
  field_ok f → 0 ≤ off → off + zlen (encode_field f) ≤ zlen buf → off + zlen (encode_field f) < 2 ^ 32 →
  ∃ buf', put_field (buf, off) f = Some (buf', off + zlen (encode_field f)) ∧
    zcopy buf off (encode_field f) = Some buf'.
Proof.
  intros Hok Hoff Hl Hmax. pose proof (encode_field_len f Hok) as He. destruct Hok as [Hn _ Hd].
  pose proof (zlen_nonneg (field_name f)). pose proof (zlen_nonneg (data (fdata f))).
  set (name := field_name f) in *. set (v := fdata f) in *. set (c := type_code (type v)).
  unfold put_field. fold name v c. unfold u8. rewrite (Z.mod_small (zlen name)) by lia.
  rewrite (Z.mod_small c) by apply type_code_byte.
  rewrite (u32_small (off + 1)) by lia. rewrite (u32_small (off + 1 + _)) by lia.
  rewrite (u32_small (off + 1 + zlen name + 1)) by lia. rewrite (u32_small (_ + 4)) by lia.
  rewrite (u32_small (_ + len v)) by lia.
  assert (zsub name 0 (zlen name) = Some name) as Hsn.
  { pose proof (zsub_mid [] name [] 0 (zlen name) eq_refl eq_refl) as Hm. by rewrite app_nil_r in Hm. }
  assert (zsub (data v) 0 (len v) = Some (data v)) as Hsd.
  { pose proof (zsub_mid [] (data v) [] 0 (len v) eq_refl (eq_sym Hd)) as Hm. by rewrite app_nil_r in Hm. }
  assert (∀ (x : Z), zlen [x] = 1) as H1 by done.
  pose proof (zlen_le_bytes 4 (len v)) as H4. change (Z.of_nat 4) with 4 in H4.
  destruct (zcopy_step buf off [zlen name] name (off + 1)) as (b1 & E1 & L1 & N1);
    [done|lia|rewrite H1; lia|].
  rewrite E1. cbn [mbind option_bind]. rewrite Hsn. cbn [mbind option_bind]. rewrite N1.
  destruct (zcopy_step buf off ([zlen name] ++ name) [c] (off + 1 + zlen name)) as (b2 & E2 & L2 & N2);
    [rewrite zlen_app, H1; lia|lia|rewrite zlen_app, !H1; lia|].
  rewrite E2. cbn [mbind option_bind]. rewrite N2.
  destruct (zcopy_step buf off (([zlen name] ++ name) ++ [c]) (le_bytes 4 (len v)) (off + 1 + zlen name + 1))
    as (b3 & E3 & L3 & N3); [rewrite !zlen_app, !H1; lia|lia|rewrite !zlen_app, !H1, H4; lia|].
  rewrite E3. cbn [mbind option_bind]. rewrite N3.
  destruct (zcopy_step buf off ((([zlen name] ++ name) ++ [c]) ++ le_bytes 4 (len v)) (data v)
    (off + 1 + zlen name + 1 + 4)) as (b4 & E4 & L4 & N4);
    [rewrite !zlen_app, !H1, H4; lia|lia|rewrite !zlen_app, !H1, H4; lia|].
  rewrite E4. cbn [mbind option_bind]. rewrite Hsd. cbn [mbind option_bind]. rewrite N4.
  assert (((([zlen name] ++ name) ++ [c]) ++ le_bytes 4 (len v)) ++ data v = encode_field f) as ->.
  { unfold encode_field. fold name v c. by rewrite <- !app_assoc. }
  destruct (zcopy_spec buf off (encode_field f)) as (b5 & -> & _); [lia|lia|].
  cbn [mbind option_bind]. exists b5. split; [|done]. do 2 f_equal. lia.
Qed.

Lemma put_fields_spec buf off fs :
  Forall field_ok fs → 0 ≤ off → off + zlen (encode_fields fs) ≤ zlen buf →
  off + zlen (encode_fields fs) < 2 ^ 32 →
  ∃ buf', put_fields (buf, off) fs = Some (buf', off + zlen (encode_fields fs)) ∧
    zcopy buf off (encode_fields fs) = Some buf'.
Proof.
  intros Hfs. revert buf off. induction Hfs as [|f fs Hf _ IH]; intros buf off Hoff Hl Hmax.
  { exists buf. change (zlen (encode_fields [])) with 0 in *. cbn [put_fields]. rewrite Z.add_0_r.
    split; [done|]. apply zcopy_nil. lia. }
  rewrite encode_fields_cons, zlen_app in *. pose proof (zlen_nonneg (encode_fields fs)).
  pose proof (zlen_nonneg (encode_field f)).
  destruct (put_field_spec buf off f) as (b1 & Hp & Hc); [done|lia|lia|lia|].
  cbn [put_fields]. rewrite Hp. cbn [mbind option_bind].
  assert (zlen b1 = zlen buf) as Hl1.
  { destruct (zcopy_spec buf off (encode_field f)) as (b & Hb & ? & _); [lia|lia|]. congruence. }
  destruct (IH b1 (off + zlen (encode_field f))) as (b2 & -> & Hc2); [lia|lia|lia|].
  exists b2. split; [do 2 f_equal; lia|]. by rewrite <- (zcopy_app _ _ _ _ _ Hc).
Qed.

Lemma row_len_spec fs n :
  Forall field_ok fs → 0 ≤ n → n + zlen (encode_fields fs) < 2 ^ 32 →
  foldl (λ l f, u32 (l + 1 + 1 + zlen (field_name f) + 4 + len (fdata f))) n fs
  = n + zlen (encode_fields fs).
Proof.
  intros Hfs. revert n. induction Hfs as [|f fs Hf _ IH]; intros n Hn Hmax.
  { change (zlen (encode_fields [])) with 0. cbn [foldl]. lia. }
  rewrite encode_fields_cons, zlen_app in *. cbn [foldl]. pose proof (zlen_nonneg (encode_fields fs)).
  pose proof (zlen_nonneg (encode_field f)). rewrite (encode_field_len f Hf) in *.
  rewrite u32_small by lia. rewrite IH by lia. lia.
Qed.

(** Writing a row leaves its encoding, whatever was in the memory. *)
Lemma rowdata_to_lowdata_spec mem fs :
  row_ok fs → 8 ≤ zlen mem → zlen (encode_row fs) ≤ zlen mem →
  rowdata_to_lowdata mem (Row fs (zlen fs)) = Some (LowData HI_TYPE_NULL (encode_row fs) (zlen (encode_row fs))).
Proof.
  intros [Hc Hfs Hmax] H8 Hm. pose proof (encode_row_len fs) as Hr. pose proof (zlen_nonneg (encode_fields fs)).
  unfold rowdata_to_lowdata. cbn [datas field_count].
  pose proof (zsub_mid [] fs [] 0 (zlen fs) eq_refl eq_refl) as Hsub. rewrite app_nil_r in Hsub.
  rewrite (Hsub : zsub fs 0 (zlen fs) = Some fs). cbn [mbind option_bind].
  unfold row_len. rewrite row_len_spec by (done || lia). rewrite <- Hr.
  destruct (zfill_spec mem 0 8 0) as (m0 & -> & Hl0 & _); [lia..|]. cbn [mbind option_bind].
  destruct (zcopy_step m0 0 (le_bytes 2 (zlen fs)) (encode_fields fs) 2) as (m1 & -> & Hl1 & Hm1);
    [by rewrite zlen_le_bytes|lia|rewrite zlen_le_bytes; lia|]. cbn [mbind option_bind].
  destruct (put_fields_spec m1 2 fs) as (m2 & -> & Hm2); [done|lia|lia|lia|]. cbn [mbind option_bind].
  rewrite Hm1 in Hm2. fold (encode_row fs) in Hm2. unfold zcopy in Hm2.
  rewrite decide_True in Hm2 by lia. injection Hm2 as <-.
  pose proof (zsub_mid [] (encode_row fs) (drop (length (encode_row fs)) m0) 0 _ eq_refl eq_refl) as Hz.
  simpl in Hz. simpl. by rewrite Hz.
Qed.

(** *** Reading *)

Lemma load_at_mid pre x post off n :
  off = zlen pre → n = zlen x → load_at (pre ++ x ++ post) off n = Some (le_value x).
Proof. intros Ho Hn. unfold load_at. by rewrite zsub_mid. Qed.

Lemma get_field_spec pre f post :
  field_ok f → zlen pre + zlen (encode_field f) < 2 ^ 32 →
  get_field (pre ++ encode_field f ++ post) (zlen pre) = Some (f, zlen (pre ++ encode_field f)).
Proof.
  intros Hok Hmax. pose proof (encode_field_len f Hok) as He. destruct Hok as [Hn Hc Hd].
  rewrite zlen_app, He in *. pose proof (zlen_nonneg pre). pose proof (zlen_nonneg (field_name f)).
  pose proof (zlen_nonneg (data (fdata f))).
  destruct f as [name [t v l]]. cbn [field_name fdata type data len] in *.
  assert (∀ (x : Z), zlen [x] = 1) as Hone by done.
  pose proof (zlen_le_bytes 4 l) as H4. change (Z.of_nat 4) with 4 in H4.
  set (D := pre ++ encode_field (Field name (LowData t v l)) ++ post).
  set (n := zlen name) in *. set (c := type_code t).
  assert (D = pre ++ n :: (name ++ [c] ++ le_bytes 4 l ++ v ++ post)) as E1.
  { unfold D, encode_field. cbn [field_name fdata type data len]. fold n c.
    rewrite <- app_comm_cons, <- app_assoc, <- app_comm_cons, <- app_assoc. done. }
  assert (D = (pre ++ [n]) ++ name ++ ([c] ++ le_bytes 4 l ++ v ++ post)) as E2 by by rewrite E1, <- app_assoc.
  assert (D = (pre ++ [n] ++ name) ++ c :: (le_bytes 4 l ++ v ++ post)) as E3 by by rewrite E2, <- !app_assoc.
  assert (D = (pre ++ [n] ++ name ++ [c]) ++ le_bytes 4 l ++ (v ++ post)) as E4 by by rewrite E3, <- !app_assoc.
  assert (D = (pre ++ [n] ++ name ++ [c] ++ le_bytes 4 l) ++ v ++ post) as E5 by by rewrite E4, <- !app_assoc.
  assert (D⟦zlen pre⟧ = Some n) as R1 by by rewrite E1, zget_mid.
  assert (zsub D (zlen pre + 1) n = Some name) as R2
    by (rewrite E2; apply zsub_mid; [rewrite zlen_app, Hone|]; done).
  assert (D⟦zlen pre + 1 + n⟧ = Some c) as R3
    by (rewrite E3; apply zget_mid; rewrite !zlen_app, Hone; fold n; lia).
  assert (load_at D (zlen pre + 1 + n + 1) 4 = Some l) as R4.
  { rewrite E4, load_at_mid by (rewrite ?zlen_app, ?Hone; fold n; lia).
    rewrite le_value_bytes by (change (8 * Z.of_nat 4) with 32; lia). done. }
  assert (zsub D (zlen pre + 1 + n + 1 + 4) l = Some v) as R5
    by (rewrite E5; apply zsub_mid; [rewrite !zlen_app, !Hone, H4; fold n|]; lia).
  unfold get_field. rewrite R1. cbn [mbind option_bind].
  rewrite (u32_small (zlen pre + 1)), (u32_small (zlen pre + 1 + n)), (u32_small (zlen pre + 1 + n + 1)),
    (u32_small (zlen pre + 1 + n + 1 + 4)) by lia.
  rewrite R2. cbn [mbind option_bind]. rewrite R3. cbn [mbind option_bind]. unfold c.
  rewrite type_of_type_code. cbn [mbind option_bind]. rewrite R4. cbn [mbind option_bind].
  rewrite R5. cbn [mbind option_bind].
  rewrite (u32_small (_ + l)) by lia. rewrite c_string_id by done. do 2 f_equal. lia.
Qed.

Lemma get_fields_spec pre fs post :
  Forall field_ok fs → zlen pre + zlen (encode_fields fs) < 2 ^ 32 →
  get_fields (length fs) (pre ++ encode_fields fs ++ post) (zlen pre) = Some fs.
Proof.
  intros Hfs. revert pre. induction Hfs as [|f fs Hf _ IH]; intros pre Hmax; [done|].
  rewrite encode_fields_cons, zlen_app in *. cbn [length get_fields]. pose proof (zlen_nonneg (encode_fields fs)).
  rewrite <- app_assoc, get_field_spec by (done || lia). cbn [mbind option_bind].
  rewrite app_assoc, IH by (rewrite ?zlen_app; lia). done.
Qed.

Lemma lowdata_to_rowdata_spec fs t n :
  row_ok fs → lowdata_to_rowdata (LowData t (encode_row fs) n) = Some (Row fs (zlen fs)).
Proof.
  intros [Hc Hfs Hmax]. unfold lowdata_to_rowdata. cbn [data]. pose proof (zlen_nonneg fs).
  assert (load_at (encode_row fs) 0 2 = Some (zlen fs)) as ->.
  { unfold encode_row. rewrite (load_at_mid [] (le_bytes 2 (zlen fs)) (encode_fields fs)) by done.
    rewrite le_value_bytes by (change (8 * Z.of_nat 2) with 16; lia). done. }
  cbn [mbind option_bind]. replace (Z.to_nat (zlen fs)) with (length fs) by (unfold zlen; lia).
  pose proof (get_fields_spec (le_bytes 2 (zlen fs)) fs [] Hfs) as Hg. rewrite zlen_le_bytes, app_nil_r in Hg.
  rewrite encode_row_len in Hmax. fold (encode_row fs) in Hg. change (Z.of_nat 2) with 2 in Hg. rewrite Hg by lia. done.
Qed.

(** C38: writing a row and reading it back gives the same row: for every row of
    fewer than 2^16 fields whose names have fewer than 256 non-zero characters
    and whose encoding is shorter than 2^32 bytes, and whatever the pool's
    memory held, all names, types, lengths and data survive and no write leaves
    the buffer. *)
Theorem row_roundtrip mem fs :
  row_ok fs → 8 ≤ zlen mem → zlen (encode_row fs) ≤ zlen mem →
  (d ← rowdata_to_lowdata mem (Row fs (zlen fs)); lowdata_to_rowdata d) = Some (Row fs (zlen fs)).
Proof.
  intros Hok H8 Hm. rewrite rowdata_to_lowdata_spec by done. cbn [mbind option_bind].
  by apply lowdata_to_rowdata_spec.
Qed.

Definition demo_row : list field :=
  [Field [105; 100] (LowData HI_TYPE_LONG [7; 0; 0; 0] 4);
   Field [110] (LowData HI_TYPE_STRING [65; 66] 2);
   Field [120] (LowData HI_TYPE_NULL [] 0)].

Lemma demo_row_ok : row_ok demo_row.
Proof.
  split; [vm_compute; reflexivity| |vm_compute; reflexivity].
  repeat constructor; vm_compute; done.
Qed.

Lemma row_roundtrip_witness :
  (d ← rowdata_to_lowdata (replicate 100 85) (Row demo_row 3); lowdata_to_rowdata d) = Some (Row demo_row 3).
Proof.
  apply (row_roundtrip (replicate 100 85) demo_row demo_row_ok); vm_compute; discriminate.
Defined.
