(* ===== verification/DataField.v ===== *)
(** * The row store of a segment ([src/storage/docdb/data_field.c])

    Rows are kept as byte strings in a column.  The column is any [Column]: the
    code uses a filter index of type HI_TYPE_STRING. *)

From Stdlib Require Import ZArith Lia.
From stdpp Require Import base option list numbers.
From S2P Require Import Prelude FileOp LowData Bitmark Storage VStorage Column FilterIndex RowData.

Definition ERROR_UPDATE_FAIL : Z := -4006.

(** The loop of [data_field_query_col] over the bytes of a row. *)
Fixpoint find_col (n : nat) (d : list Z) (name : list Z) (offset : Z) : option (ptr field) :=
  match n with
  | O => Some NULL
  | S n =>
      fieldname_len ← d⟦offset⟧;
      let offset := u32 (offset + 1) in
      found ← (if zlen name =? fieldname_len
               then cur ← zsub d offset fieldname_len; Some (bool_decide (cur = name))
               else Some false);
      let offset := u32 (offset + fieldname_len) in
      if (found : bool) then
        code ← d⟦offset⟧;
        t ← type_of_code code;
        let offset := u32 (offset + 1) in
        len ← load_at d offset 4;
        let offset := u32 (offset + 4) in
        v ← zsub d offset len;
        Some (Ptr (Field name (LowData t v len)))
      else
        let offset := u32 (offset + 1) in
        l ← load_at d offset 4;
        let offset := u32 (offset + l) in
        find_col n d name (u32 (offset + 4))
  end.

(** The first field named as [new] is replaced; [Some (old, row)] if there is one. *)
Fixpoint replace_field (fs : list field) (new : field) : option (field * list field) :=
  match fs with
  | [] => None
  | f :: fs =>
      if bool_decide (field_name f = field_name new) then Some (f, new :: fs)
      else '(old, fs) ← replace_field fs new; Some (old, f :: fs)
  end.

(** The row store opens a filter index of strings; [st] and [vs] open its files. *)
Definition data_field_init {M} `{!MarkSet M} (row_limit : Z)
    (st : Z → Z → option (storage_manager M)) (vs : Z → ptr vstorage_manager)
    : option (filter_index_manager M) :=
  filter_index_init HI_TYPE_STRING 0 row_limit st vs.

Section data_field.
Context {S : Type} `{!Column S}.
Implicit Types (data_field : S).

(** [mem] is the memory that the pool hands out for the encoded row. *)
Definition data_field_insert (mem : list Z) data_field (rdata : row_data) (docid : Z) : option (Z * S) :=
  d ← rowdata_to_lowdata mem rdata;
  col_insert data_field d docid.

Definition data_field_query_row data_field (docid : Z) : option (ptr row_data) :=
  r ← col_query data_field docid;
  match r with
  | NULL => Some NULL
  | Ptr r => if len r =? 0 then Some NULL else Ptr <$> lowdata_to_rowdata r
  end.

Definition data_field_query_col data_field (name : list Z) (docid : Z) : option (ptr field) :=
  r ← col_query data_field docid;
  match r with
  | NULL => Some NULL
  | Ptr r =>
      if len r =? 0 then Some NULL
      else
        field_num ← load_at (data r) 0 2;
        find_col (Z.to_nat field_num) (data r) name 2
  end.

(** Returns the old field as well, NULL for a new one. *)
Definition data_field_update (mem : list Z) data_field (new_data : field) (docid : Z)
    : option (Z * ptr field * S) :=
  r ← data_field_query_row data_field docid;
  match r with
  | NULL => Some (ERROR_UPDATE_FAIL, NULL, data_field)
  | Ptr rdata =>
      fs ← zsub (datas rdata) 0 (field_count rdata);
      match replace_field fs new_data with
      | Some (old, fs) =>
          '(ret, data_field) ← data_field_insert mem data_field (Row fs (field_count rdata)) docid;
          Some (ret, Ptr old, data_field)
      | None =>
          '(ret, data_field) ← data_field_insert mem data_field
                                 (Row (fs ++ [new_data]) (u16 (field_count rdata + 1))) docid;
          Some (ret, NULL, data_field)
      end
  end.

Definition data_field_recover data_field (docid : Z) : option (Z * S) := col_recover data_field docid.
End data_field.

(** ** Rows as maps from names to values *)

Definition lookup_field (name : list Z) (fs : list field) : ptr field :=
  match List.find (λ f, bool_decide (field_name f = name)) fs with Some f => Ptr f | None => NULL end.

Definition set_field (fs : list field) (new : field) : list field :=
  match replace_field fs new with Some (_, fs') => fs' | None => fs ++ [new] end.

Lemma lookup_field_cons name f fs :
  lookup_field name (f :: fs) = if bool_decide (field_name f = name) then Ptr f else lookup_field name fs.
Proof. unfold lookup_field. simpl. by case_bool_decide. Qed.

Lemma replace_field_old fs new :
  lookup_field (field_name new) fs = match replace_field fs new with Some (old, _) => Ptr old | None => NULL end.
Proof.
  induction fs as [|f fs IH]; [done|]. rewrite lookup_field_cons. cbn [replace_field].
  case_bool_decide; [done|]. rewrite IH. by destruct (replace_field fs new) as [[old fs']|].
Qed.

Lemma replace_field_length fs new old fs' :
  replace_field fs new = Some (old, fs') → length fs' = length fs.
Proof.
  revert fs'. induction fs as [|f fs IH]; intros fs'; cbn [replace_field]; [done|].
  case_bool_decide; [by intros [= <- <-]|].
  destruct (replace_field fs new) as [[o r]|]; [|done]. intros [= -> <-]. simpl. by rewrite (IH r).
Qed.

Lemma lookup_set_field name fs new :
  lookup_field name (set_field fs new) =
  if bool_decide (field_name new = name) then Ptr new else lookup_field name fs.
Proof.
  unfold set_field. induction fs as [|f fs IH]; [simpl; by rewrite lookup_field_cons|].
  cbn [replace_field]. destruct (decide (field_name f = field_name new)) as [E|E].
  - rewrite (bool_decide_eq_true_2 (_ f = _ new)) by done.
    rewrite (lookup_field_cons name new), (lookup_field_cons name f), E. by case_bool_decide.
  - rewrite (bool_decide_eq_false_2 (_ f = _ new)) by done. destruct (replace_field fs new) as [[old fs']|]; cbn [mbind option_bind].
    + rewrite !lookup_field_cons, IH. repeat case_bool_decide; congruence.
    + rewrite <- app_comm_cons, !lookup_field_cons, IH. repeat case_bool_decide; congruence.
Qed.

Lemma find_col_spec pre fs post name :
  Forall field_ok fs → zlen pre + zlen (encode_fields fs) < 2 ^ 32 →
  find_col (length fs) (pre ++ encode_fields fs ++ post) name (zlen pre) = Some (lookup_field name fs).
Proof.
  intros Hfs. revert pre. induction Hfs as [|f fs Hf _ IH]; intros pre Hmax; [done|].
  rewrite encode_fields_cons, zlen_app in *. pose proof (zlen_nonneg (encode_fields fs)).
  rewrite <- app_assoc. pose proof (get_field_spec pre f (encode_fields fs ++ post) Hf) as Hg.
  rewrite zlen_app in Hg. specialize (Hg ltac:(lia)).
  specialize (IH (pre ++ encode_field f)). rewrite zlen_app, <- app_assoc in IH. specialize (IH ltac:(lia)).
  pose proof (encode_field_len f Hf) as He. pose proof (zlen_nonneg pre).
  pose proof (zlen_nonneg (field_name f)). pose proof (zlen_nonneg (data (fdata f))). pose proof (fo_data _ Hf).
  set (D := pre ++ encode_field f ++ encode_fields fs ++ post) in *.
  assert (D = (pre ++ [zlen (field_name f)]) ++ field_name f ++
    (type_code (type (fdata f)) :: le_bytes 4 (len (fdata f)) ++ data (fdata f)) ++ encode_fields fs ++ post) as ED.
  { unfold D, encode_field. by rewrite <- !app_assoc, <- !app_comm_cons, <- !app_assoc. }
  assert (zsub D (zlen pre + 1) (zlen (field_name f)) = Some (field_name f)) as Hname
    by (rewrite ED; apply zsub_mid; [rewrite zlen_app|]; done).
  assert (D⟦zlen pre⟧ = Some (zlen (field_name f))) as Hlen by (unfold D, encode_field; by rewrite <- app_comm_cons, zget_mid).
  unfold get_field in Hg. rewrite Hlen in Hg. cbn [mbind option_bind] in Hg.
  rewrite (u32_small (zlen pre + 1)), (u32_small (zlen pre + 1 + _)) in Hg by lia.
  rewrite Hname in Hg. cbn [mbind option_bind] in Hg.
  rewrite (u32_small (zlen pre + 1 + zlen (field_name f) + 1)) in Hg by lia.
  destruct (D⟦zlen pre + 1 + zlen (field_name f)⟧) as [code|] eqn:Ec; [|done]. cbn [mbind option_bind] in Hg.
  destruct (type_of_code code) as [t|] eqn:Et; [|done]. cbn [mbind option_bind] in Hg.
  destruct (load_at D (zlen pre + 1 + zlen (field_name f) + 1) 4) as [l|] eqn:El; [|done]. cbn [mbind option_bind] in Hg.
  rewrite (u32_small (_ + 4)) in Hg by lia.
  destruct (zsub D (zlen pre + 1 + zlen (field_name f) + 1 + 4) l) as [v|] eqn:Ev; [|done]. cbn [mbind option_bind] in Hg.
  rewrite c_string_id in Hg by apply Hf. injection Hg as Hf1 Hf2.
  assert (l = len (fdata f)) as Hl by (by rewrite <- Hf1).
  cbn [length find_col]. rewrite Hlen. cbn [mbind option_bind].
  rewrite (u32_small (zlen pre + 1)), (u32_small (zlen pre + 1 + _)) by lia.
  rewrite (u32_small (zlen pre + 1 + zlen (field_name f) + 1)) by lia.
  assert ((if zlen name =? zlen (field_name f)
           then cur ← zsub D (zlen pre + 1) (zlen (field_name f)); Some (bool_decide (cur = name))
           else Some false) = Some (bool_decide (field_name f = name))) as ->.
  { rewrite Hname. cbn [mbind option_bind]. destruct (Z.eqb_spec (zlen name) (zlen (field_name f))) as [|Hne]; [done|].
    rewrite bool_decide_eq_false_2; [done|]. intros E. by rewrite E in Hne. }
  cbn [mbind option_bind]. rewrite lookup_field_cons. case_bool_decide as En.
  - rewrite Ec. cbn [mbind option_bind]. rewrite Et. cbn [mbind option_bind]. rewrite El. cbn [mbind option_bind].
    rewrite (u32_small (_ + 4)) by lia. rewrite Ev. cbn [mbind option_bind]. by rewrite <- En, Hf1.
  - rewrite El. cbn [mbind option_bind]. rewrite (u32_small (_ + l)) by lia. rewrite (u32_small (_ + 4)) by lia.
    rewrite <- IH. f_equal. lia.
Qed.

Section data_field_spec.
Context {S : Type} `{!Column S, !ColumnLaws S}.
Implicit Types (data_field : S).

(** Document [d] holds the row [fs]. *)
Definition row_at data_field (d : Z) (fs : list field) : Prop :=
  col_wf data_field ∧ 0 ≤ d < col_limit data_field ∧ col_val data_field d = Some (encode_row fs) ∧ row_ok fs.

Lemma row_at_query data_field d fs :
  row_at data_field d fs →
  ∃ r, col_query data_field d = Some (Ptr r) ∧ data r = encode_row fs ∧ len r ≠ 0.
Proof.
  intros (Hw & Hd & Hv & Hok). destruct (col_query_ok data_field d Hw Hd) as (r & Hq & Hsh).
  rewrite Hv in Hsh. destruct Hsh as (? & ? & ?). eauto.
Qed.

Lemma query_row_spec data_field d fs :
  row_at data_field d fs → data_field_query_row data_field d = Some (Ptr (Row fs (zlen fs))).
Proof.
  intros Hr. destruct (row_at_query data_field d fs Hr) as (r & Hq & He & Hl).
  unfold data_field_query_row. rewrite Hq. cbn [mbind option_bind].
  rewrite (proj2 (Z.eqb_neq _ 0) Hl). destruct r as [t v l]. cbn [data] in He. subst v.
  rewrite lowdata_to_rowdata_spec by apply Hr. done.
Qed.

Lemma query_col_spec data_field d fs name :
  row_at data_field d fs → data_field_query_col data_field name d = Some (lookup_field name fs).
Proof.
  intros Hr. destruct (row_at_query data_field d fs Hr) as (r & Hq & He & Hl).
  destruct Hr as (_ & _ & _ & [Hc Hfs Hmax]).
  unfold data_field_query_col. rewrite Hq. cbn [mbind option_bind].
  rewrite (proj2 (Z.eqb_neq _ 0) Hl), He. pose proof (zlen_nonneg fs).
  assert (load_at (encode_row fs) 0 2 = Some (zlen fs)) as ->.
  { unfold encode_row. rewrite (load_at_mid [] (le_bytes 2 (zlen fs)) (encode_fields fs)) by done.
    rewrite le_value_bytes by (change (8 * Z.of_nat 2) with 16; lia). done. }
  cbn [mbind option_bind]. replace (Z.to_nat (zlen fs)) with (length fs) by (unfold zlen; lia).
  rewrite encode_row_len in Hmax. pose proof (find_col_spec (le_bytes 2 (zlen fs)) fs [] name Hfs) as Hf.
  rewrite zlen_le_bytes, app_nil_r in Hf. by apply Hf.
Qed.

(** The pool has room for the encoded row, and the column for its bytes. *)
Definition room (mem : list Z) data_field (fs : list field) : Prop :=
  8 ≤ zlen mem ∧ zlen (encode_row fs) ≤ zlen mem ∧ col_fits data_field (zlen (encode_row fs)) ∧
  col_size data_field + zlen (encode_row fs) < 2 ^ 64.

Lemma insert_row_spec mem data_field d fs :
  col_wf data_field → 0 ≤ d < col_limit data_field → row_ok fs → room mem data_field fs →
  ∃ data_field', data_field_insert mem data_field (Row fs (zlen fs)) d = Some (0, data_field') ∧
    row_at data_field' d fs ∧ next data_field data_field' (zlen (encode_row fs)) ∧
    ∀ e, 0 ≤ e < col_limit data_field → e ≠ d → col_val data_field' e = col_val data_field e.
Proof.
  intros Hw Hd Hok (H8 & Hm & Hfit & Hsz). unfold data_field_insert.
  rewrite rowdata_to_lowdata_spec by done. cbn [mbind option_bind].
  pose proof (encode_row_len fs) as Hl. pose proof (zlen_nonneg (encode_fields fs)).
  destruct (col_insert_ok data_field (LowData HI_TYPE_NULL (encode_row fs) (zlen (encode_row fs))) d)
    as (s' & Hi & Hnext & Hc); [done|done|split_and!; done|left; simpl; lia|].
  pose proof Hnext as (Hw' & Hl' & _). exists s'. split; [done|]. split.
  - split; [done|]. split; [by rewrite Hl'|]. split; [|done]. rewrite Hc, decide_True by done.
    unfold to_val. cbn [len data]. by rewrite (proj2 (Z.eqb_neq _ 0)) by lia.
  - split; [done|]. intros e He Hne. by rewrite Hc, decide_False by done.
Qed.

Lemma update_row_spec mem data_field d fs new :
  row_at data_field d fs → row_ok (set_field fs new) → room mem data_field (set_field fs new) →
  ∃ data_field', data_field_update mem data_field new d = Some (0, lookup_field (field_name new) fs, data_field') ∧
    row_at data_field' d (set_field fs new) ∧ next data_field data_field' (zlen (encode_row (set_field fs new))) ∧
    ∀ e, 0 ≤ e < col_limit data_field → e ≠ d → col_val data_field' e = col_val data_field e.
Proof.
  intros Hr Hok Hroom. pose proof Hr as (Hw & Hd & _ & [Hc Hfs _]). unfold data_field_update.
  rewrite (query_row_spec data_field d fs Hr). cbn [mbind option_bind datas field_count].
  pose proof (zsub_mid [] fs [] 0 (zlen fs) eq_refl eq_refl) as Hsub. rewrite app_nil_r in Hsub.
  rewrite (Hsub : zsub fs 0 (zlen fs) = Some fs). cbn [mbind option_bind].
  destruct (insert_row_spec mem data_field d (set_field fs new)) as (s' & Hi & Hr' & Hn & Hother); try done.
  pose proof (rk_count _ Hok) as Hc'. rewrite replace_field_old.
  exists s'. split; [|done]. unfold set_field in *. destruct (replace_field fs new) as [[old fs']|] eqn:E.
  - assert (zlen fs' = zlen fs) as El by (unfold zlen; by rewrite (replace_field_length fs new old fs' E)).
    rewrite El in Hi. by rewrite Hi.
  - rewrite zlen_app in Hi, Hc'. change (zlen [new]) with 1 in Hi, Hc'. pose proof (zlen_nonneg fs).
    rewrite u16_small by lia. by rewrite Hi.
Qed.
End data_field_spec.

(** The row store reads single columns correctly.  For any column
    implementation below it, a row that was stored is found again field by
    field: the scan over the encoded bytes returns the first field of the given
    name with its type, length and data, or NULL if the row has none. *)
Theorem data_field_query_col_correct {S} `{!Column S, !ColumnLaws S} mem (s : S) d fs name :
  col_wf s → 0 ≤ d < col_limit s → row_ok fs → room mem s fs →
  ∃ s', data_field_insert mem s (Row fs (zlen fs)) d = Some (0, s') ∧
    data_field_query_row s' d = Some (Ptr (Row fs (zlen fs))) ∧
    data_field_query_col s' name d = Some (lookup_field name fs).
Proof.
  intros Hw Hd Hok Hroom. destruct (insert_row_spec mem s d fs) as (s' & Hi & Hr & _); try done.
  exists s'. split; [done|]. split; [by apply query_row_spec|by apply query_col_spec].
Qed.

(** C36: updating a field.  On a stored row the update returns the old field (NULL
    for a name the row does not have), afterwards the name reads as the new
    field, every other name of the row as before, and no other row changes. *)
Theorem data_field_update_correct {S} `{!Column S, !ColumnLaws S} mem (s : S) d fs new :
  row_at s d fs → row_ok (set_field fs new) → room mem s (set_field fs new) →
  ∃ s', data_field_update mem s new d = Some (0, lookup_field (field_name new) fs, s') ∧
    (∀ name, data_field_query_col s' name d =
       Some (if bool_decide (field_name new = name) then Ptr new else lookup_field name fs)) ∧
    ∀ e, 0 ≤ e < col_limit s → e ≠ d → col_val s' e = col_val s e.
Proof.
  intros Hr Hok Hroom. destruct (update_row_spec mem s d fs new Hr Hok Hroom) as (s' & Hu & Hr' & _ & Hother).
  exists s'. split; [done|]. split; [|done]. intros name. rewrite (query_col_spec s' d (set_field fs new)) by done.
  by rewrite lookup_set_field.
Qed.

(** *** A concrete store *)

Lemma demo_store :
  ∃ vs, vstorage_init true false 0 [] [] 4 = Ptr vs ∧ col_wf vs ∧ col_limit vs = 4 ∧ wide vs = true ∧
    VStorage.data_file vs = [].
Proof.
  destruct (vstorage_init_empty false 4) as (vs & Hi & Hw & Hl & Hwd & Hf & _); [lia|lia|].
  exists vs. done.
Qed.

Lemma demo_room vs fs :
  wide vs = true → zlen (VStorage.data_file vs) ≤ 1000 → zlen (encode_row fs) ≤ 100 →
  room (replicate 100 85) vs fs.
Proof.
  intros Hwd Hf Hl. unfold room, col_fits, col_size; cbn [vstorage_ColumnLaws].
  change (zlen (replicate 100 85)) with 100. rewrite Hwd. split_and!; done || lia.
Qed.

Lemma data_field_query_col_correct_witness :
  ∃ vs vs', vstorage_init true false 0 [] [] 4 = Ptr vs ∧
    data_field_insert (replicate 100 85) vs (Row demo_row 3) 2 = Some (0, vs') ∧
    data_field_query_col vs' [110] 2 = Some (Ptr (Field [110] (LowData HI_TYPE_STRING [65; 66] 2))).
Proof.
  destruct demo_store as (vs & Hi & Hw & Hl & Hwd & Hf).
  destruct (data_field_query_col_correct (replicate 100 85) vs 2 demo_row [110]) as (vs' & Hins & _ & Hq).
  - exact Hw.
  - rewrite Hl. lia.
  - exact demo_row_ok.
  - apply demo_room; [done|rewrite Hf; vm_compute; discriminate|vm_compute; discriminate].
  - exists vs, vs'. split; [exact Hi|]. split; [exact Hins|]. rewrite Hq. vm_compute. reflexivity.
Defined.

Definition demo_new : field := Field [110] (LowData HI_TYPE_STRING [67] 1).

Lemma demo_set_ok : row_ok (set_field demo_row demo_new).
Proof.
  split; [vm_compute; reflexivity| |vm_compute; reflexivity].
  repeat constructor; vm_compute; done.
Qed.

Lemma data_field_update_correct_witness :
  ∃ vs vs1 vs2, vstorage_init true false 0 [] [] 4 = Ptr vs ∧
    data_field_insert (replicate 100 85) vs (Row demo_row 3) 2 = Some (0, vs1) ∧
    data_field_update (replicate 100 85) vs1 demo_new 2 =
      Some (0, Ptr (Field [110] (LowData HI_TYPE_STRING [65; 66] 2)), vs2) ∧
    data_field_query_col vs2 [110] 2 = Some (Ptr demo_new).
Proof.
  destruct demo_store as (vs & Hi & Hw & Hl & Hwd & Hf).
  destruct (insert_row_spec (replicate 100 85) vs 2 demo_row) as (vs1 & H1 & Hr & _).
  - exact Hw.
  - rewrite Hl. lia.
  - exact demo_row_ok.
  - apply demo_room; [done|rewrite Hf; vm_compute; discriminate|vm_compute; discriminate].
  - assert (wide vs1 = true ∧ zlen (VStorage.data_file vs1) ≤ 1000) as [Hwd1 Hf1].
    { vm_compute in Hi. injection Hi as <-. vm_compute in H1. injection H1 as <-.
      split; [reflexivity|vm_compute; discriminate]. }
    destruct (data_field_update_correct (replicate 100 85) vs1 2 demo_row demo_new Hr demo_set_ok)
      as (vs2 & H2 & Hq & _).
    + apply demo_room; [done|done|vm_compute; discriminate].
    + exists vs, vs1, vs2. split; [exact Hi|]. split; [exact H1|]. split; [exact H2|].
      rewrite Hq. reflexivity.
Defined.
