(* ===== verification/FilterCompress.v ===== *)
(** * Compressed filter columns ([src/storage/docdb/filtercompress.c])

    The fixed-length storage of a full segment is rewritten in one of three
    forms: the distinct values and a bitmap that selects one of two (type 2), the
    distinct values and an array of numbers into them (type 1), or the cells cut
    to the width in use (type 0).  The distinct values are found with an open
    addressing table of the size of the column. *)

From Stdlib Require Import ZArith Lia.
From stdpp Require Import base option list numbers.
From S2P Require Import Prelude FileOp LowData Bitmark Storage.

Record bucket_entry := Entry { value : Z; pos : Z }.

Record filter_compress_manager := FilterCompress {
  fc_index : option (list Z);             (* [index_mmap], bytes; [None] is NULL *)
  fc_data : option (list Z);              (* [data_mmap], bytes *)
  bitmap_index : option bitmark_manager;
  bitmark : option bitmark_manager;
  info_map : list Z;                      (* 16 words *)
  n_row : Z;
  n_value : Z;
  unit_size : Z;
  idx_size : Z;
  index_type : Z
}.

(** The files: info, data, index and the two bit marks; empty if missing. *)
Record filter_files := FFiles {
  info_f : list Z;
  data_f : list Z;
  index_f : list Z;
  bitmap_f : list Z;
  null_f : list Z
}.

(** Outcomes of the calls that map the info, data and index file. *)
Record filter_io := FIo { io_info : bool; io_data : bool; io_index : bool }.

Definition map_bytes (io : bool) (f : list Z) (n : Z) : option (list Z) * list Z :=
  get_mmap_memory 0 1 io f n.

(** A byte at the start of a word. *)
Definition low_byte (w : Z) : Z := w `mod` 256.
Definition set_low_byte (w b : Z) : Z := w / 256 * 256 + b.

(** [info_map] is a [uint32_t *]: the numbers are in the words 0, 4, 8, 12 and 13.
    The result of mapping the info file is not checked. *)
Definition filter_compress_init (io : filter_io) (fs : filter_files)
    : option (ptr filter_compress_manager * filter_files) :=
  let '(info, fi) := get_mmap_memory 0 4 (io_info io) (info_f fs) 16 in
  info ← info;
  let fs := FFiles fi (data_f fs) (index_f fs) (bitmap_f fs) (null_f fs) in
  n ← info⟦0⟧;
  if n =? 0 then Some (Ptr (FilterCompress None None None None info 0 0 0 0 0), fs)
  else
    nv ← info⟦4⟧;
    us ← info⟦8⟧;
    iw ← low_byte <$> info⟦12⟧;
    ty ← low_byte <$> info⟦13⟧;
    if ty =? 0 then
      let '(d, fd) := if negb (us =? 0) then map_bytes (io_data io) (data_f fs) (u32 (n * us))
                      else (None, data_f fs) in
      let fs := FFiles fi fd (index_f fs) (bitmap_f fs) (null_f fs) in
      if negb (us =? 0) && bool_decide (d = None) then Some (NULL, fs)
      else
        bm ← bitmark_init n (null_f fs);
        Some (Ptr (FilterCompress None d None (Some bm) info n nv us iw ty),
              FFiles fi fd (index_f fs) (bitmap_f fs) (mem_mmaped bm))
    else if ty =? 1 then
      let '(d, fd) := map_bytes (io_data io) (data_f fs) (u32 (nv * us)) in
      let '(ix, fx) := map_bytes (io_index io) (index_f fs) (u32 (n * iw)) in
      let fs := FFiles fi fd fx (bitmap_f fs) (null_f fs) in
      match ix with
      | None => Some (NULL, fs)
      | Some ix => Some (Ptr (FilterCompress (Some ix) d None None info n nv us iw ty), fs)
      end
    else
      let '(d, fd) := map_bytes (io_data io) (data_f fs) (u32 (nv * us)) in
      bi ← bitmark_init n (bitmap_f fs);
      bm ← bitmark_init n (null_f fs);
      Some (Ptr (FilterCompress None d (Some bi) (Some bm) info n nv us iw ty),
            FFiles fi fd (index_f fs) (mem_mmaped bi) (mem_mmaped bm)).

(** ** The table of distinct values *)

(** The [do ... while (pos != value % n_row)]: the slot of [v] and whether it is
    free ([empty] tells), or [Some None] when the table is full. *)
Fixpoint probe (empty : bucket_entry → bool) (fuel : nat) (b : list bucket_entry) (n v start p : Z)
    : option (option (Z * bool)) :=
  match fuel with
  | O => None
  | S fuel =>
      e ← b⟦p⟧;
      if empty e then Some (Some (p, true))
      else if value e =? v then Some (Some (p, false))
      else
        let p := u32 (p + 1) `mod` n in
        if p =? start then Some None else probe empty fuel b n v start p
  end.

Definition free0 (e : bucket_entry) : bool := pos e =? 0.
Definition free1 (e : bucket_entry) : bool := pos e =? -1.

Section load.
Context (st : storage_manager bitmark_manager) (junk : Z).

(** The 64-bit variable [value] after [memcpy (&value, cell, value_size)]: the
    bytes beyond the cell keep what they held at first. *)
Definition row_value (i : Z) : option (option Z) :=
  q ← ms_query (null_bitmark st) i;
  if q =? 1 then Some None
  else
    cell ← zsub (st_mem st) (u32 (i * value_size st)) (value_size st);
    if value_size st <=? 8 then
      Some (Some (junk / 2 ^ (8 * value_size st) * 2 ^ (8 * value_size st) + le_value cell))
    else None.

(** The first pass: the numbers of distinct values and of nulls, [Some None]
    when the table is full. *)
Fixpoint count_rows (k : nat) (i : Z) (b : list bucket_entry) (nv nn : Z) : option (option (Z * Z)) :=
  match k with
  | O => Some (Some (nv, nn))
  | S k =>
      v ← row_value i;
      match v with
      | None => count_rows k (i + 1) b nv (u32 (nn + 1))
      | Some v =>
          let n := st_row_limit st in
          r ← probe free0 (Z.to_nat n) b n v (v `mod` n) (v `mod` n);
          match r with
          | None => Some None
          | Some (p, true) => b ← b⟦p := Entry v 1⟧; count_rows k (i + 1) b (u32 (nv + 1)) nn
          | Some (_, false) => count_rows k (i + 1) b nv nn
          end
      end
  end.

(** The second pass of types 1 and 2.  [write i o] records row [i]: null, or the
    number of its value. *)
Context {Out : Type} (write : Z → option Z → Out → option Out) (us : Z).

Fixpoint fill_rows (k : nat) (i : Z) (b : list bucket_entry) (nv : Z) (d : list Z) (out : Out)
    : option (option (Z * list Z * Out)) :=
  match k with
  | O => Some (Some (nv, d, out))
  | S k =>
      v ← row_value i;
      match v with
      | None => out ← write i None out; fill_rows k (i + 1) b nv d out
      | Some v =>
          let n := st_row_limit st in
          r ← probe free1 (Z.to_nat n) b n v (v `mod` n) (v `mod` n);
          match r with
          | None => Some None
          | Some (p, true) =>
              d ← (if us <=? 8 then zcopy d (u32 (nv * us)) (le_bytes (Z.to_nat us) v) else None);
              out ← write i (Some nv) out;
              b ← b⟦p := Entry v nv⟧;
              fill_rows k (i + 1) b (u32 (nv + 1)) d out
          | Some (p, false) =>
              e ← b⟦p⟧;
              out ← write i (Some (pos e)) out;
              fill_rows k (i + 1) b nv d out
          end
      end
  end.
End load.

Definition write_bitmap (i : Z) (o : option Z) (bm : bitmark_manager) : option bitmark_manager :=
  match o with
  | Some p => if p =? 1 then '(_, bm) ← bitmark_set bm i; Some bm else Some bm
  | None => Some bm
  end.

Definition write_index (iw i : Z) (o : option Z) (ix : list Z) : option (list Z) :=
  zcopy ix (u32 (i * iw)) (le_bytes (Z.to_nat iw) (default (-1) o)).

(** The new null mark: a copy of the storage's. *)
Definition copy_nulls (st : storage_manager bitmark_manager) (null_file : list Z) : option bitmark_manager :=
  bm ← bitmark_init (st_row_limit st) null_file;
  src ← zsub (mem_mmaped (null_bitmark st)) 0 (st_row_limit st / BYTE_SIZE + 1);
  m ← zcopy (mem_mmaped bm) 0 src;
  Some (set_mem bm m).

(** The cut cells of type 0. *)
Fixpoint copy_cells (k : nat) (i : Z) (st : storage_manager bitmark_manager) (us : Z) (d : list Z)
    : option (list Z) :=
  match k with
  | O => Some d
  | S k =>
      src ← zsub (st_mem st) (u32 (i * value_size st)) us;
      d ← zcopy d (u32 (i * us)) src;
      copy_cells k (i + 1) st us d
  end.

(** [LoadNull] is NULL, [LoadSkip] the address 1 for a column not worth it. *)
Inductive load_result := LoadNull | LoadSkip | Loaded (c : filter_compress_manager).

Definition index_width (nv : Z) : Z := if nv <? 128 then 1 else if nv <? 32768 then 2 else 4.

(** What the load writes at its end. *)
Definition set_info (c : filter_compress_manager) (n nv us iw : Z) : option filter_compress_manager :=
  w12 ← (info_map c)⟦12⟧;
  w13 ← (info_map c)⟦13⟧;
  m ← (info_map c)⟦0 := n⟧;
  m ← m⟦4 := nv⟧;
  m ← m⟦8 := us⟧;
  m ← m⟦12 := set_low_byte w12 iw⟧;
  m ← m⟦13 := set_low_byte w13 (index_type c)⟧;
  Some (FilterCompress (fc_index c) (fc_data c) (bitmap_index c) (bitmark c) m n nv us iw (index_type c)).

Definition files_of (c : filter_compress_manager) (fs : filter_files) : filter_files :=
  FFiles (info_map c) (default (data_f fs) (fc_data c)) (default (index_f fs) (fc_index c))
    (default (bitmap_f fs) (mem_mmaped <$> bitmap_index c)) (default (null_f fs) (mem_mmaped <$> bitmark c)).

Definition finish (c : filter_compress_manager) (fs : filter_files) (n nv us iw : Z)
    : option (load_result * filter_files) :=
  c ← set_info c n nv us iw;
  Some (Loaded c, files_of c fs).

(** The files of an earlier attempt are removed, except the bit marks. *)
Definition filter_compress_load (io : filter_io) (junk : Z) (fs : filter_files)
    (st : storage_manager bitmark_manager) (us : Z) : option (load_result * filter_files) :=
  '(c, fs) ← filter_compress_init io (FFiles [] [] [] (bitmap_f fs) (null_f fs));
  match c with
  | NULL => Some (LoadNull, fs)
  | Ptr c =>
      let n := st_row_limit st in
      let k := Z.to_nat n in
      counted ← count_rows st junk k 0 (replicate k (Entry 0 0)) 0 0;
      match counted with
      | None => Some (LoadNull, fs)
      | Some (nv, nn) =>
          let s0 := u32 (n / 8 + 1 + n * us) in
          let iw := index_width nv in
          let s1 := u32 (n * iw + nv * us) in
          let b := replicate k (Entry 0 (-1)) in
          if nv =? 2 then
            let d := fst (map_bytes (io_data io) (data_f fs) (u32 (nv * us))) in
            bi ← bitmark_init n (bitmap_f fs);
            bm ← (if negb (nn =? 0) then Some <$> copy_nulls st (null_f fs) else Some None);
            r ← fill_rows st junk write_bitmap us k 0 b 0 (default [] d) bi;
            match r with
            | None => Some (LoadNull, fs)
            | Some (nv, dt, bi) =>
                finish (FilterCompress None ((λ _, dt) <$> d) (Some bi) bm (info_map c) 0 0 0 0 2) fs n nv us iw
            end
          else if s1 <? s0 then
            let ix := fst (map_bytes (io_index io) (index_f fs) (u32 (n * iw))) in
            let d := fst (map_bytes (io_data io) (data_f fs) (u32 (nv * us))) in
            r ← fill_rows st junk (write_index iw) us k 0 b 0 (default [] d) (default [] ix);
            match r with
            | None => Some (LoadNull, fs)
            | Some (nv, dt, xt) =>
                finish (FilterCompress ((λ _, xt) <$> ix) ((λ _, dt) <$> d) None None (info_map c) 0 0 0 0 1)
                  fs n nv us iw
            end
          else if us <? value_size st then
            bm ← copy_nulls st (null_f fs);
            d ← (if negb (us =? 0) then
                   let d := fst (map_bytes (io_data io) (data_f fs) (u32 (n * us))) in
                   dt ← copy_cells k 0 st us (default [] d);
                   Some ((λ _, dt) <$> d)
                 else Some None);
            finish (FilterCompress None d None (Some bm) (info_map c) 0 0 0 0 0) fs n nv us iw
          else Some (LoadSkip, FFiles [] [] [] (bitmap_f fs) (null_f fs))
      end
  end.

Definition null_result (us : Z) : low_data_struct := LowData HI_TYPE_NULL (replicate (Z.to_nat us) 0) 0.

(** The value number [p]. *)
Definition value_result (c : filter_compress_manager) (p : Z) : option low_data_struct :=
  d ← fc_data c;
  v ← zsub d (u32 (p * unit_size c)) (unit_size c);
  Some (LowData HI_TYPE_NULL v (unit_size c)).

Definition sext (w z : Z) : Z := if w =? 1 then s8 z else if w =? 2 then s16 z else s32 z.

Definition filter_compress_query (c : filter_compress_manager) (docid : Z) : option low_data_struct :=
  if index_type c =? 2 then
    isnull ← (match bitmark c with None => Some 0 | Some bm => bitmark_query bm docid end);
    if isnull =? 1 then Some (null_result (unit_size c))
    else
      bi ← bitmap_index c;
      p ← bitmark_query bi docid;
      if p <? 0 then Some (null_result (unit_size c))
      else value_result c (if p =? 0 then 1 else 0)
  else if index_type c =? 1 then
    ix ← fc_index c;
    let w := if idx_size c =? 1 then 1 else if idx_size c =? 2 then 2 else 4 in
    cell ← zsub ix (u32 (docid * idx_size c)) w;
    let p := sext w (le_value cell) in
    if p =? -1 then Some (null_result (unit_size c)) else value_result c p
  else
    bm ← bitmark c;
    isnull ← bitmark_query bm docid;
    if isnull =? 1 then Some (null_result (unit_size c)) else value_result c docid.

(** The files that are left: the info file always stays.  The marks are released
    first; a NULL one that is needed stops the program. *)
Definition filter_compress_destroy (c : filter_compress_manager) (fs : filter_files) : option filter_files :=
  if index_type c =? 2 then
    _ ← bitmap_index c;
    Some (FFiles (info_f fs) [] (index_f fs) [] (if bitmark c then [] else null_f fs))
  else if index_type c =? 1 then Some (FFiles (info_f fs) [] [] (bitmap_f fs) (null_f fs))
  else
    _ ← bitmark c;
    Some (FFiles (info_f fs) [] (index_f fs) (bitmap_f fs) []).
