(* ===== verification/FilterCompressSpec.v ===== *)
(** * Compressed filter columns keep their values

    Both passes of the load probe the same table: [occ] is its abstraction, the
    value in every used slot.  The second pass follows the first one step by
    step, so that it finds as many distinct values as the buffers were made for. *)

From Stdlib Require Import ZArith Lia.
From stdpp Require Import base option list numbers.
From S2P Require Import Prelude FileOp LowData Bitmark Storage FilterCompress.

Notation occupancy := (list (option Z)) (only parsing).

(** The slot of [v] from [p] on. *)
Fixpoint aprobe (fuel : nat) (occ : occupancy) (n v start p : Z) : option (option (Z * bool)) :=
  match fuel with
  | O => None
  | S fuel =>
      e ← occ⟦p⟧;
      match e with
      | None => Some (Some (p, true))
      | Some w =>
          if w =? v then Some (Some (p, false))
          else
            let p := u32 (p + 1) `mod` n in
            if p =? start then Some None else aprobe fuel occ n v start p
      end
  end.

Definition occ_of (empty : bucket_entry → bool) (b : list bucket_entry) : occupancy :=
  (λ e, if empty e then None else Some (value e)) <$> b.

Lemma probe_occ empty fuel b n v start p :
  probe empty fuel b n v start p = aprobe fuel (occ_of empty b) n v start p.
Proof.
  revert p. induction fuel as [|fuel IH]; intros p; [done|]. cbn [probe aprobe].
  assert ((occ_of empty b)⟦p⟧ = (λ e, if empty e then None else Some (value e)) <$> b⟦p⟧) as ->
    by apply zget_fmap.
  destruct (b⟦p⟧) as [e|]; [|done].
  cbn [fmap option_fmap option_map mbind option_bind]. destruct (empty e); [done|].
  destruct (value e =? v); [done|]. by rewrite IH.
Qed.

(** *** A table with a free slot has a place for every value *)

Definition used (occ : occupancy) : Z := zlen (filter is_Some occ).

Lemma used_bound occ : 0 ≤ used occ ≤ zlen occ.
Proof. unfold used, zlen. pose proof (length_filter is_Some occ). lia. Qed.

Lemma used_replicate k : used (replicate k None) = 0.
Proof.
  unfold used. rewrite filter_none_in; [done|]. intros x Hx. apply elem_of_replicate in Hx as [-> _].
  by intros [? ?].
Qed.

Lemma used_insert occ p v : occ⟦p⟧ = Some None → used (<[Z.to_nat p := Some v]> occ) = used occ + 1.
Proof.
  intros Hp. pose proof (zget_Some_range _ _ _ Hp). rewrite zget_lookup in Hp by lia.
  unfold used, zlen. rewrite (insert_take_drop _ _ _ (lookup_lt_Some _ _ _ Hp)).
  rewrite <- (take_drop_middle _ _ _ Hp) at 3. rewrite !list.filter_app, !filter_cons, !length_app.
  rewrite (decide_True (P := is_Some (Some v))) by done.
  rewrite (decide_False (P := is_Some None)) by (by intros [? ?]). simpl. lia.
Qed.

Lemma free_slot occ : used occ < zlen occ → ∃ p, 0 ≤ p < zlen occ ∧ occ⟦p⟧ = Some None.
Proof.
  unfold used. induction occ as [|[v|] occ IH]; intros H.
  - unfold zlen in H. simpl in H. lia.
  - destruct IH as (p & Hp & Ho).
    { rewrite filter_cons, decide_True in H by done. unfold zlen in *. simpl in H. lia. }
    exists (p + 1). split; [unfold zlen in *; simpl; lia|].
    rewrite zget_lookup in Ho |- * by lia. by replace (Z.to_nat (p + 1)) with (S (Z.to_nat p)) by lia.
  - exists 0. split; [unfold zlen; simpl; lia|done].
Qed.

(** What a probe tells. *)
Definition lands (occ : occupancy) (v : Z) (p : Z) (new : bool) : Prop :=
  occ⟦p⟧ = Some (if new then None else Some v).

Lemma aprobe_spec occ n v start (k : nat) :
  zlen occ = n → 0 ≤ start < n → n < 2 ^ 31 → (k ≤ Z.to_nat n)%nat →
  (∃ t, n - Z.of_nat k ≤ t < n ∧ occ⟦(start + t) `mod` n⟧ = Some None) →
  ∃ p new, aprobe k occ n v start ((start + (n - Z.of_nat k)) `mod` n) = Some (Some (p, new)) ∧
    lands occ v p new.
Proof.
  intros Hl Hs Hn. induction k as [|k IH]; intros Hk (t & Ht & Hfree); [lia|].
  cbn [aprobe]. set (x := n - Z.of_nat (S k)) in *.
  pose proof (Z.mod_pos_bound (start + x) n ltac:(lia)) as Hx.
  destruct (zget_lt occ ((start + x) `mod` n)) as [e He]; [lia|]. rewrite He. cbn [mbind option_bind].
  destruct e as [w|]; [|eexists _, true; done].
  destruct (Z.eqb_spec w v) as [->|Hne]; [eexists _, false; done|].
  assert (t ≠ x) as Htx by (intros ->; congruence).
  assert (u32 ((start + x) `mod` n + 1) `mod` n = (start + (x + 1)) `mod` n) as ->.
  { rewrite u32_small by lia. rewrite Zplus_mod_idemp_l. f_equal. lia. }
  destruct (Z.eqb_spec ((start + (x + 1)) `mod` n) start) as [E|E].
  - exfalso. assert (x + 1 = 0); [|lia]. apply (mod_inj n start); [lia|lia|].
    by rewrite Z.add_0_r, E, Z.mod_small by lia.
  - replace (x + 1) with (n - Z.of_nat k) by lia. apply IH; [lia|]. exists t. split; [lia|done].
Qed.

(** The place of a value when the table is not full. *)
Lemma find_place occ n v :
  zlen occ = n → 0 < n < 2 ^ 31 → used occ < n →
  ∃ p new, aprobe (Z.to_nat n) occ n v (v `mod` n) (v `mod` n) = Some (Some (p, new)) ∧ lands occ v p new.
Proof.
  intros Hl Hn Hu. pose proof (Z.mod_pos_bound v n ltac:(lia)) as Hv.
  destruct (free_slot occ) as (e & He & Hfree); [lia|].
  destruct (aprobe_spec occ n v (v `mod` n) (Z.to_nat n)) as (p & new & Hp & Hlands); [done|done|lia|lia| |].
  - exists ((e - v `mod` n) `mod` n). rewrite Z2Nat.id by lia.
    pose proof (Z.mod_pos_bound (e - v `mod` n) n ltac:(lia)). split; [lia|].
    rewrite Zplus_mod_idemp_r. replace (v `mod` n + (e - v `mod` n)) with e by lia.
    rewrite Z.mod_small by lia. done.
  - rewrite Z2Nat.id, Z.sub_diag, Z.add_0_r, Z.mod_mod in Hp by lia. eauto.
Qed.

(** ** The two passes *)

(** The table after a value, and how many new values a sequence of rows brings. *)
Definition put (occ : occupancy) (p v : Z) (new : bool) : occupancy :=
  if new then <[Z.to_nat p := Some v]> occ else occ.

Fixpoint news (n : Z) (occ : occupancy) (vals : list (option Z)) : Z :=
  match vals with
  | [] => 0
  | None :: vals => news n occ vals
  | Some v :: vals =>
      match aprobe (Z.to_nat n) occ n v (v `mod` n) (v `mod` n) with
      | Some (Some (p, new)) => (if new then 1 else 0) + news n (put occ p v new) vals
      | _ => 0
      end
  end.

Lemma news_nonneg n occ vals : 0 ≤ news n occ vals.
Proof.
  revert occ. induction vals as [|[v|] vals IH]; intros occ; cbn [news]; [done| |apply IH].
  destruct (aprobe _ _ _ _ _ _) as [[[p new]|]|]; try done.
  specialize (IH (put occ p v new)). destruct new; lia.
Qed.

Lemma put_used occ p v new : lands occ v p new → used (put occ p v new) = used occ + if new then 1 else 0.
Proof. unfold lands, put. destruct new; intros H; [by apply used_insert|lia]. Qed.

Lemma put_len occ p v new : zlen (put occ p v new) = zlen occ.
Proof. unfold put. destruct new; [apply zlen_insert|done]. Qed.

Lemma occ_of_set empty b p e :
  empty e = false → 0 ≤ p < zlen b →
  ∃ b', b⟦p := e⟧ = Some b' ∧ zlen b' = zlen b ∧ occ_of empty b' = put (occ_of empty b) p (value e) true ∧
    b' = <[Z.to_nat p := e]> b.
Proof.
  intros He Hp. exists (<[Z.to_nat p := e]> b). split; [by apply zset_in|]. split; [apply zlen_insert|].
  split; [|done]. unfold put, occ_of. rewrite list_fmap_insert. by rewrite He.
Qed.

Lemma zlen_occ empty b : zlen (occ_of empty b) = zlen b.
Proof. unfold zlen, occ_of. by rewrite length_fmap. Qed.

Section passes.
Context (st : storage_manager bitmark_manager) (junk : Z) (n : Z) (vals : Z → option Z).
Context (Hn : 0 < n < 2 ^ 31) (Hlimit : st_row_limit st = n).
Context (Hvals : ∀ i, 0 ≤ i < n → row_value st junk i = Some (vals i)).

Definition rows (i : Z) (k : nat) : list (option Z) := vals <$> seqZ i (Z.of_nat k).

Lemma rows_cons i k : rows i (S k) = vals i :: rows (i + 1) k.
Proof.
  unfold rows. rewrite seqZ_cons by lia. rewrite fmap_cons. do 3 f_equal; lia.
Qed.

Lemma count_rows_spec k i b nv nn :
  0 ≤ i → i + Z.of_nat k = n → zlen b = n → used (occ_of free0 b) = nv → nv ≤ i → 0 ≤ nn ≤ i →
  ∃ nn', count_rows st junk k i b nv nn = Some (Some (nv + news n (occ_of free0 b) (rows i k), nn')) ∧
    nn ≤ nn' ∧ (nn' = nn → ∀ j, i ≤ j < n → vals j ≠ None).
Proof.
  revert i b nv nn. induction k as [|k IH]; intros i b nv nn Hi Hk Hb Hu Hnv Hnn.
  { exists nn. cbn. rewrite Z.add_0_r. split; [done|]. split; [done|]. intros _ j Hj. lia. }
  cbn [count_rows]. rewrite Hvals by lia. cbn [mbind option_bind]. rewrite rows_cons.
  pose proof (used_bound (occ_of free0 b)).
  assert (∀ nn0 nn' : Z, (nn' = nn0 → ∀ j, i + 1 ≤ j < n → vals j ≠ None) → vals i ≠ None →
    nn' = nn0 → ∀ j, i ≤ j < n → vals j ≠ None) as Hext.
  { intros nn0 nn' Hj Hv E j Hij. destruct (decide (j = i)) as [->|]; [done|]. apply Hj; [done|lia]. }
  destruct (vals i) as [v|] eqn:Ev; cbn [news].
  2:{ rewrite u32_small by lia. destruct (IH (i + 1) b nv (nn + 1)) as (nn' & -> & ? & _); try lia; try done.
      exists nn'. split; [done|]. split; [lia|]. intros ->. lia. }
  rewrite Hlimit, probe_occ.
  destruct (find_place (occ_of free0 b) n v) as (p & new & -> & Hl); [by rewrite zlen_occ|done|lia|].
  cbn [mbind option_bind]. pose proof (put_used _ _ _ _ Hl) as Hpu.
  destruct new.
  - pose proof (zget_Some_range _ _ _ Hl) as Hp. rewrite zlen_occ in Hp.
    destruct (occ_of_set free0 b p (Entry v 1) eq_refl Hp) as (b' & -> & Hb' & Ho & _). cbn [mbind option_bind].
    rewrite u32_small by lia. cbn [value] in Ho. rewrite <- Ho in Hpu |- *.
    destruct (IH (i + 1) b' (nv + 1) nn) as (nn' & -> & ? & Hj); try lia.
    exists nn'. split; [do 3 f_equal; lia|]. split; [lia|]. by apply Hext.
  - destruct (IH (i + 1) b nv nn) as (nn' & -> & ? & Hj); try lia; try done.
    exists nn'. split; [do 3 f_equal; lia|]. split; [lia|]. by apply Hext.
Qed.

(** The second pass, for any way to record the rows: [ready out i] before row
    [i], [rd out j o] once row [j] has the number [o]. *)
Context {Out : Type} (write : Z → option Z → Out → option Out) (us total : Z).
Context (ready : Out → Z → Prop) (rd : Out → Z → option Z → Prop) (Hus : 0 < us ≤ 8).
Context (Hwrite : ∀ i o out, 0 ≤ i < n → ready out i → (∀ p, o = Some p → 0 ≤ p < total) →
  ∃ out', write i o out = Some out' ∧ ready out' (i + 1) ∧ rd out' i o ∧
    ∀ j o', 0 ≤ j < i → rd out j o' → rd out' j o').

Definition value_bytes (v : Z) : list Z := le_bytes (Z.to_nat us) v.

(** The value number [p] of the data is [v]. *)
Definition stored (d : list Z) (nv p v : Z) : Prop :=
  0 ≤ p < nv ∧ zsub d (p * us) us = Some (value_bytes v).

Definition entries_ok (b : list bucket_entry) (nv : Z) (d : list Z) : Prop :=
  ∀ s e, b⟦s⟧ = Some e → pos e ≠ -1 → stored d nv (pos e) (value e).

Definition row_done (nv : Z) (d : list Z) (out : Out) (j : Z) : Prop :=
  match vals j with
  | None => rd out j None
  | Some v => ∃ p, rd out j (Some p) ∧ stored d nv p v
  end.

Lemma stored_new d d' nv v :
  0 ≤ nv → zcopy d (nv * us) (value_bytes v) = Some d' →
  stored d' (nv + 1) nv v ∧ ∀ p w, stored d nv p w → stored d' (nv + 1) p w.
Proof.
  intros Hnv Hc. assert (zlen (value_bytes v) = us) as Hl
    by (unfold value_bytes; rewrite zlen_le_bytes; lia). split.
  - split; [lia|]. rewrite <- Hl at 2. by eapply zsub_zcopy_same.
  - intros p w [Hp Hs]. split; [lia|]. rewrite <- Hs. eapply zsub_zcopy_other; [done|]. left. nia.
Qed.

Lemma row_done_next i o nv d out nv' d' out' :
  (∀ j, 0 ≤ j < i → row_done nv d out j) → rd out' i o →
  match vals i with None => o = None | Some v => ∃ p, o = Some p ∧ stored d' nv' p v end →
  (∀ j o', 0 ≤ j < i → rd out j o' → rd out' j o') → (∀ p v, stored d nv p v → stored d' nv' p v) →
  ∀ j, 0 ≤ j < i + 1 → row_done nv' d' out' j.
Proof.
  intros Hdone Ho Hv Hkeep Hst j Hj. unfold row_done. destruct (decide (j = i)) as [->|Hne].
  - destruct (vals i) as [v|]; [destruct Hv as (p & -> & ?); eauto|by subst].
  - specialize (Hdone j ltac:(lia)). unfold row_done in Hdone.
    destruct (vals j) as [v|]; [|apply Hkeep; [lia|done]].
    destruct Hdone as (p & ? & ?). exists p. split; [apply Hkeep; [lia|done]|auto].
Qed.

Lemma entries_ok_new b b' p v nv d d' :
  entries_ok b nv d → 0 ≤ p < zlen b → b' = <[Z.to_nat p := Entry v nv]> b →
  stored d' (nv + 1) nv v → (∀ q w, stored d nv q w → stored d' (nv + 1) q w) →
  entries_ok b' (nv + 1) d'.
Proof.
  intros He Hp -> Hnew Hold s e Hs Hpos. destruct (decide (s = p)) as [->|Hne].
  - rewrite zget_insert_eq in Hs by done. by injection Hs as <-.
  - rewrite zget_insert_ne in Hs by lia. apply Hold. by apply (He s).
Qed.

Lemma entry_at (b : list bucket_entry) p v :
  (occ_of free1 b)⟦p⟧ = Some (Some v) → ∃ e, b⟦p⟧ = Some e ∧ value e = v ∧ pos e ≠ -1.
Proof.
  unfold occ_of. rewrite zget_fmap. intros Hl. destruct (b⟦p⟧) as [e|]; [|done]. exists e.
  simpl in Hl. unfold free1 in Hl. destruct (Z.eqb_spec (pos e) (-1)); [done|]. by injection Hl as <-.
Qed.

Lemma fill_rows_spec k i b nv d out :
  0 ≤ i → i + Z.of_nat k = n → zlen b = n → used (occ_of free1 b) = nv → nv ≤ i →
  nv + news n (occ_of free1 b) (rows i k) = total → zlen d = total * us → total * us < 2 ^ 32 →
  ready out i → entries_ok b nv d → (∀ j, 0 ≤ j < i → row_done nv d out j) →
  ∃ d' out', fill_rows st junk write us k i b nv d out = Some (Some (total, d', out')) ∧
    zlen d' = zlen d ∧ ∀ j, 0 ≤ j < n → row_done total d' out' j.
Proof.
  revert i b nv d out. induction k as [|k IH]; intros i b nv d out Hi Hk Hb Hu Hnv Htot Hd Hmax Hr He Hdone.
  { cbn in Htot. rewrite Z.add_0_r in Htot. subst total. exists d, out. split; [done|]. split; [done|].
    intros j Hj. apply Hdone. lia. }
  cbn [fill_rows]. rewrite Hvals by lia. cbn [mbind option_bind]. rewrite rows_cons in Htot.
  pose proof (used_bound (occ_of free1 b)).
  pose proof (λ o nv' d' out', row_done_next i o nv d out nv' d' out' Hdone) as Hext.
  destruct (vals i) as [v|] eqn:Ev; cbn [news] in Htot.
  2:{ destruct (Hwrite i None out) as (out' & -> & Hr' & Ho & Hkeep); [lia|done|done|]. cbn [mbind option_bind].
      apply IH; try lia; try done. by apply (Hext None). }
  rewrite Hlimit, probe_occ.
  destruct (find_place (occ_of free1 b) n v) as (p & new & E & Hl); [by rewrite zlen_occ|done|lia|].
  rewrite E in Htot |- *. cbn [mbind option_bind]. pose proof (put_used _ _ _ _ Hl) as Hpu.
  pose proof (zget_Some_range _ _ _ Hl) as Hp. rewrite zlen_occ in Hp.
  pose proof (news_nonneg n (put (occ_of free1 b) p v new) (rows (i + 1) k)).
  destruct new.
  - rewrite (proj2 (Z.leb_le us 8)) by lia. rewrite (u32_small (nv * us)) by nia.
    assert (zlen (value_bytes v) = us) as Hlv by (unfold value_bytes; rewrite zlen_le_bytes; lia).
    destruct (zcopy_spec d (nv * us) (value_bytes v)) as (d' & Hd' & Hld & _); [nia|nia|].
    change (le_bytes (Z.to_nat us) v) with (value_bytes v). rewrite Hd'. cbn [mbind option_bind].
    destruct (stored_new d d' nv v) as [Hnew Hold]; [lia|done|].
    destruct (Hwrite i (Some nv) out) as (out' & -> & Hr' & Ho & Hkeep); [lia|done|intros q [= <-]; lia|].
    cbn [mbind option_bind].
    destruct (occ_of_set free1 b p (Entry v nv)) as (b' & -> & Hb' & Hob & Eb'); [unfold free1; simpl; by apply Z.eqb_neq; lia|done|].
    cbn [mbind option_bind]. rewrite u32_small by lia. cbn [value] in Hob. rewrite <- Hob in Htot, Hpu.
    destruct (IH (i + 1) b' (nv + 1) d' out') as (d2 & out2 & ? & ? & ?); try lia; try done.
    + by eapply entries_ok_new.
    + apply (Hext (Some nv)); try done. rewrite ?Ev. eauto.
    + exists d2, out2. split; [done|]. split; [congruence|done].
  - destruct (entry_at b p v Hl) as (e & Hbe & Hve & Hpe).
    rewrite Hbe. cbn [mbind option_bind]. pose proof (He p e Hbe Hpe) as Hse. rewrite Hve in Hse.
    destruct (Hwrite i (Some (pos e)) out) as (out' & -> & Hr' & Ho & Hkeep);
      [lia|done|intros q [= <-]; destruct Hse; lia|].
    cbn [mbind option_bind]. apply IH; try lia; try done.
    apply (Hext (Some (pos e))); try done. rewrite ?Ev. eauto.
Qed.
End passes.

(** ** The values of the rows *)

Lemma le_value_mod k z : le_value (le_bytes k z) = z `mod` 2 ^ (8 * Z.of_nat k).
Proof.
  revert z. induction k as [|k IH]; intros z; cbn [le_bytes le_value]; [by rewrite Z.mod_1_r|].
  rewrite IH. replace (8 * Z.of_nat (S k)) with (8 + 8 * Z.of_nat k) by lia.
  rewrite Z.pow_add_r by lia. change (2 ^ 8) with 256.
  rewrite Z.rem_mul_r by (try lia; apply Z.pow_nonzero; lia). lia.
Qed.

(** The low bytes of a number that has [bs] below some other bytes. *)
Lemma le_bytes_low k bs h :
  Forall (λ b, 0 ≤ b < 256) bs → (k ≤ length bs)%nat →
  le_bytes k (h * 2 ^ (8 * zlen bs) + le_value bs) = take k bs.
Proof.
  intros Hb. revert k. induction Hb as [|b bs Hb _ IH]; intros k Hk; [destruct k; [done|simpl in Hk; lia]|].
  destruct k as [|k]; [done|]. cbn [le_bytes take].
  replace (h * 2 ^ (8 * zlen (b :: bs)) + le_value (b :: bs))
    with (b + (h * 2 ^ (8 * zlen bs) + le_value bs) * 256).
  - rewrite Z.mod_add, Z.mod_small, Z.div_add, Z.div_small by lia. rewrite Z.add_0_l, IH; [done|simpl in Hk; lia].
  - cbn [le_value]. replace (8 * zlen (b :: bs)) with (8 * zlen bs + 8) by (unfold zlen; simpl; lia).
    rewrite Z.pow_add_r by (pose proof (zlen_nonneg bs); lia). lia.
Qed.

Section compressed.
Context (st : storage_manager bitmark_manager) (junk us : Z).
Context (Hwf : storage_wf st) (Hvs : value_size st ≤ 8) (Hus : 0 < us ≤ value_size st).
Context (Hn : st_row_limit st * 8 < 2 ^ 31) (Hbytes : Forall (λ b, 0 ≤ b < 256) (st_mem st)).

Definition word (v : list Z) : Z :=
  junk / 2 ^ (8 * value_size st) * 2 ^ (8 * value_size st) + le_value v.

Definition vals (i : Z) : option Z := word <$> contents st i.

Lemma limit_bound : 0 < st_row_limit st < 2 ^ 31.
Proof. pose proof (sw_limit _ Hwf). lia. Qed.

Lemma row_value_spec i : 0 ≤ i < st_row_limit st → row_value st junk i = Some (vals i).
Proof.
  intros Hi. unfold row_value, vals, contents. rewrite (ms_query_ok (null_bitmark st) i)
    by (apply Hwf || by rewrite (sw_mlimit _ Hwf)).
  cbn [mbind option_bind]. destruct (cell_bounds st i Hwf Hi) as (_ & _ & _ & E).
  destruct (ms_bit (null_bitmark st) i); [|done]. change (0 =? 1) with false. cbv iota.
  rewrite E, (cell_zsub st i Hwf Hi). cbn [mbind option_bind].
  by rewrite (proj2 (Z.leb_le _ _) Hvs).
Qed.

(** A stored number, cut to [us] bytes, is the start of the cell. *)
Lemma cut_value i v : 0 ≤ i < st_row_limit st → contents st i = Some v →
  value_bytes us (word v) = take (Z.to_nat us) v.
Proof.
  intros Hi Hv. unfold contents in Hv. destruct (ms_bit _ i); [|done]. injection Hv as <-.
  destruct (cell_bounds st i Hwf Hi) as (? & ? & _). pose proof (sw_mem _ Hwf) as Hm.
  assert (zlen (cell st i) = value_size st) as Hl
    by (unfold cell, zlen in *; rewrite length_take, length_drop; lia).
  unfold value_bytes, word. rewrite <- Hl. apply le_bytes_low.
  - unfold cell. by apply Forall_take, Forall_drop.
  - unfold zlen in Hl. lia.
Qed.

(** [q] is the answer for row [i]. *)
Definition answers (i : Z) (q : low_data_struct) : Prop :=
  match contents st i with
  | None => len q = 0
  | Some v => data q = take (Z.to_nat us) v ∧ len q = us
  end.

Lemma value_answers c d nv i p v :
  fc_data c = Some d → unit_size c = us → 0 ≤ i < st_row_limit st → contents st i = Some v →
  stored us d nv p (word v) → nv * us < 2 ^ 32 →
  ∃ q, value_result c p = Some q ∧ answers i q.
Proof.
  intros Hd Hu Hi Hv [Hp Hs] Hmax. unfold value_result. rewrite Hd, Hu. cbn [mbind option_bind].
  rewrite u32_small by nia. rewrite Hs. cbn [mbind option_bind]. eexists. split; [done|].
  unfold answers. rewrite Hv. cbn [data len]. by rewrite (cut_value i).
Qed.

(** *** The copies *)

Lemma copy_nulls_spec f : copy_nulls st f = Some (null_bitmark st).
Proof.
  pose proof limit_bound. unfold copy_nulls.
  destruct (bitmark_init_spec (st_row_limit st) f) as (bm & -> & Hl & Hm & _); [lia|]. cbn [mbind option_bind].
  pose proof (wf_size _ (sw_mark _ Hwf)) as Hs. unfold BITMARK_MMAP_SIZE in *.
  pose proof (sw_mlimit _ Hwf) as Hml. cbn [ms_limit bitmark_MarkSet] in Hml. rewrite Hml in Hs.
  pose proof (zsub_mid [] (mem_mmaped (null_bitmark st)) [] 0 _ eq_refl (eq_sym Hs)) as Hz.
  rewrite app_nil_r in Hz. rewrite (Hz : zsub (mem_mmaped (null_bitmark st)) 0 _ = _). cbn [mbind option_bind].
  rewrite zcopy_whole by congruence. cbn [mbind option_bind]. unfold set_mem. rewrite Hl, <- Hml.
  by destruct (null_bitmark st).
Qed.

Lemma null_query i : 0 ≤ i < st_row_limit st →
  bitmark_query (null_bitmark st) i = Some (if contents st i then 0 else 1).
Proof.
  intros Hi. pose proof (sw_mlimit _ Hwf) as Hml. cbn [ms_limit bitmark_MarkSet] in Hml.
  rewrite bitmark_query_in_range by (apply (sw_mark _ Hwf) || lia).
  unfold contents. cbn [ms_bit bitmark_MarkSetLaws]. by destruct (bit _ i).
Qed.

Lemma copy_cells_spec k i d :
  0 ≤ i → i + Z.of_nat k = st_row_limit st → zlen d = st_row_limit st * us →
  (∀ j, 0 ≤ j < i → zsub d (j * us) us = Some (take (Z.to_nat us) (cell st j))) →
  ∃ d', copy_cells k i st us d = Some d' ∧
    ∀ j, 0 ≤ j < st_row_limit st → zsub d' (j * us) us = Some (take (Z.to_nat us) (cell st j)).
Proof.
  pose proof limit_bound. revert i d. induction k as [|k IH]; intros i d Hi Hk Hd Hdone.
  { exists d. split; [done|]. intros j Hj. apply Hdone. lia. }
  cbn [copy_cells]. destruct (cell_bounds st i Hwf) as (? & ? & _ & E); [lia|]. rewrite E.
  assert (zsub (st_mem st) (value_size st * i) us = Some (take (Z.to_nat us) (cell st i))) as ->.
  { unfold zsub. rewrite decide_True by (rewrite (sw_mem _ Hwf); lia). unfold cell. f_equal.
    rewrite take_take. f_equal. lia. }
  cbn [mbind option_bind]. rewrite u32_small by nia.
  assert (zlen (take (Z.to_nat us) (cell st i)) = us) as Hl.
  { pose proof (sw_mem _ Hwf) as Hm. unfold cell, zlen in *. rewrite !length_take, length_drop. lia. }
  destruct (zcopy_spec d (i * us) (take (Z.to_nat us) (cell st i))) as (d' & Hd' & Hld & _); [nia|nia|].
  rewrite Hd'. cbn [mbind option_bind]. apply IH; [lia|lia|congruence|].
  intros j Hj. destruct (decide (j = i)) as [->|Hne].
  - rewrite <- Hl at 2. by eapply zsub_zcopy_same.
  - rewrite <- (Hdone j ltac:(lia)). eapply zsub_zcopy_other; [done|]. left. nia.
Qed.

(** *** The two ways to record a row *)

Definition bitmap_ready (bm : bitmark_manager) (i : Z) : Prop :=
  bitmark_wf bm ∧ row_limit bm = st_row_limit st ∧ ∀ j, i ≤ j → bit bm j = false.

Definition bitmap_rd (bm : bitmark_manager) (j : Z) (o : option Z) : Prop :=
  bitmark_wf bm ∧ row_limit bm = st_row_limit st ∧ ∀ p, o = Some p → 0 ≤ p < 2 ∧ bit bm j = (p =? 1).

Lemma write_bitmap_ok i o bm :
  0 ≤ i < st_row_limit st → bitmap_ready bm i → (∀ p, o = Some p → 0 ≤ p < 2) →
  ∃ bm', write_bitmap i o bm = Some bm' ∧ bitmap_ready bm' (i + 1) ∧ bitmap_rd bm' i o ∧
    ∀ j o', 0 ≤ j < i → bitmap_rd bm j o' → bitmap_rd bm' j o'.
Proof.
  intros Hi (Hw & Hl & Hb) Ho. unfold write_bitmap.
  assert (∀ x, (∀ p, o = Some p → p = 0) → Some x = Some bm → ∃ bm', Some x = Some bm' ∧
    bitmap_ready bm' (i + 1) ∧ bitmap_rd bm' i o ∧ ∀ j o', 0 ≤ j < i → bitmap_rd bm j o' → bitmap_rd bm' j o') as Hsame.
  { intros x Hp [= ->]. exists bm. split; [done|]. split; [split_and!; try done; intros; apply Hb; lia|].
    split; [|done]. split_and!; try done. intros p Ep. rewrite (Hp p Ep). split; [lia|]. apply Hb. lia. }
  destruct o as [p|]; [|by apply Hsame]. destruct (Z.eqb_spec p 1) as [->|Hp].
  2:{ apply Hsame; [|done]. intros q [= <-]. specialize (Ho p eq_refl). lia. }
  destruct (bitmark_set_spec bm i) as (bm' & -> & Hw' & Hl' & Hb'); [done|lia|]. cbn [mbind option_bind].
  exists bm'. split; [done|]. split.
  - split_and!; [done|lia|]. intros j Hj. rewrite Hb', Hb by lia. apply Z.eqb_neq. lia.
  - split.
    + split_and!; [done|lia|]. intros q [= <-]. split; [lia|]. rewrite Hb', Z.eqb_refl. apply orb_true_r.
    + intros j o' Hj (_ & _ & Hrd). split_and!; [done|lia|]. intros q Hq. destruct (Hrd q Hq) as [? <-].
      split; [done|]. rewrite Hb', (proj2 (Z.eqb_neq j i)) by lia. apply orb_false_r.
Qed.

Definition index_rd (iw : Z) (ix : list Z) (j : Z) (o : option Z) : Prop :=
  zsub ix (j * iw) iw = Some (le_bytes (Z.to_nat iw) (default (-1) o)).

Lemma write_index_ok iw i o ix :
  0 < iw ≤ 4 → 0 ≤ i < st_row_limit st → zlen ix = st_row_limit st * iw →
  ∃ ix', write_index iw i o ix = Some ix' ∧ zlen ix' = st_row_limit st * iw ∧ index_rd iw ix' i o ∧
    ∀ j o', 0 ≤ j < i → index_rd iw ix j o' → index_rd iw ix' j o'.
Proof.
  intros Hiw Hi Hl. unfold write_index. rewrite u32_small by nia.
  set (src := le_bytes (Z.to_nat iw) (default (-1) o)).
  assert (zlen src = iw) as Hs by (unfold src; rewrite zlen_le_bytes; lia).
  destruct (zcopy_spec ix (i * iw) src) as (ix' & Hx & Hlx & _); [nia|nia|].
  exists ix'. split; [done|]. split; [lia|]. split.
  - unfold index_rd. rewrite <- Hs at 2. by eapply zsub_zcopy_same.
  - intros j o' Hj. unfold index_rd. intros <-. eapply zsub_zcopy_other; [done|]. left. nia.
Qed.

(** *** The three forms *)

Lemma finish_spec c fs n nv iw :
  info_map c = replicate 16 0 →
  ∃ m fs', finish c fs n nv us iw =
    Some (Loaded (FilterCompress (fc_index c) (fc_data c) (bitmap_index c) (bitmark c) m n nv us iw
                    (index_type c)), fs').
Proof. intros E. unfold finish, set_info. rewrite E. eexists _, _. reflexivity. Qed.

Definition total : Z := news (st_row_limit st) (replicate (Z.to_nat (st_row_limit st)) None)
                          (rows vals 0 (Z.to_nat (st_row_limit st))).

Lemma occ_empty empty e k : empty e = true → occ_of empty (replicate k e) = replicate k None.
Proof. intros E. unfold occ_of. rewrite fmap_replicate. by rewrite E. Qed.

Lemma data_room n : 0 ≤ n → n * us < 2 ^ 31 →
  zlen (default [] (fst (map_bytes true [] (u32 (n * us))))) = n * us ∧
  (0 < n → is_Some (fst (map_bytes true [] (u32 (n * us))))).
Proof.
  intros Hn0 Hmax. rewrite u32_small by nia. unfold map_bytes. split.
  - apply fresh_map_len; [lia|nia|lia].
  - intros. apply fresh_map_some; [lia|nia|lia].
Qed.

Lemma total_bound : 0 ≤ total ≤ st_row_limit st.
Proof.
  pose proof limit_bound as Hlb. unfold total. split; [apply news_nonneg|].
  assert (∀ vs occ, zlen occ = st_row_limit st →
    used occ + news (st_row_limit st) occ vs ≤ Z.max (used occ) (st_row_limit st)) as Hgen.
  { induction vs as [|[v|] vs IH]; intros occ Hl; cbn [news]; [lia| |by apply IH].
    destruct (decide (used occ < st_row_limit st)) as [Hu|Hu].
    - destruct (find_place occ (st_row_limit st) v) as (p & new & -> & Hp); [done|lia|done|].
      specialize (IH (put occ p v new)). rewrite put_len, (put_used _ _ _ _ Hp) in IH.
      specialize (IH Hl). destruct new; lia.
    - assert (∀ fuel pp, match aprobe fuel occ (st_row_limit st) v (v `mod` st_row_limit st) pp with
        | Some (Some (p, true)) => False | _ => True end) as Hfull.
      { intros fuel. induction fuel as [|fuel IHf]; intros pp; cbn [aprobe]; [done|].
        destruct (occ⟦pp⟧) as [[w|]|] eqn:Ew; cbn [mbind option_bind]; [| |done].
        - destruct (w =? v); [done|]. destruct (_ =? _); [done|]. apply IHf.
        - pose proof (used_insert occ pp v Ew) as Hi. pose proof (used_bound (<[Z.to_nat pp := Some v]> occ)) as Hb.
          rewrite zlen_insert in Hb. lia. }
      specialize (Hfull (Z.to_nat (st_row_limit st)) (v `mod` st_row_limit st)).
      destruct (aprobe _ _ _ _ _ _) as [[[p [|]]|]|]; try done; unfold put; pose proof (IH occ Hl); lia. }
  specialize (Hgen (rows vals 0 (Z.to_nat (st_row_limit st))) (replicate (Z.to_nat (st_row_limit st)) None)).
  rewrite used_replicate, zlen_replicate in Hgen. lia.
Qed.

(** A load that succeeded answers every row. *)
Definition complete (c : filter_compress_manager) : Prop :=
  ∀ i, 0 ≤ i < st_row_limit st → ∃ q, filter_compress_query c i = Some q ∧ answers i q.

Lemma null_answers i : contents st i = None → answers i (null_result us).
Proof. unfold answers. by intros ->. Qed.

Lemma bitmap_form bm :
  total = 2 → (bm = None → ∀ i, 0 ≤ i < st_row_limit st → vals i ≠ None) → bm = None ∨ bm = Some (null_bitmark st) →
  ∃ bi dt bi', bitmark_init (st_row_limit st) [] = Some bi ∧
    fill_rows st junk write_bitmap us (Z.to_nat (st_row_limit st)) 0
      (replicate (Z.to_nat (st_row_limit st)) (Entry 0 (-1))) 0
      (default [] (fst (map_bytes true [] (u32 (2 * us))))) bi = Some (Some (2, dt, bi')) ∧
    ∀ m iw, complete (FilterCompress None (Some dt) (Some bi') bm m (st_row_limit st) 2 us iw 2).
Proof.
  intros Htot Hnonull Hbm. pose proof limit_bound as Hlb.
  destruct (bitmark_init_empty (st_row_limit st)) as (bi & Hbi & Hw & Hl & Hb); [lia|].
  destruct (data_room 2) as [Hlen _]; [lia|lia|].
  destruct (fill_rows_spec st junk (st_row_limit st) vals Hlb eq_refl row_value_spec write_bitmap us 2
    bitmap_ready bitmap_rd ltac:(lia) write_bitmap_ok (Z.to_nat (st_row_limit st)) 0
    (replicate (Z.to_nat (st_row_limit st)) (Entry 0 (-1))) 0
    (default [] (fst (map_bytes true [] (u32 (2 * us))))) bi) as (dt & bi' & Hfill & Hld & Hrows).
  - done.
  - lia.
  - rewrite zlen_replicate. lia.
  - by rewrite occ_empty, used_replicate.
  - done.
  - by rewrite occ_empty.
  - done.
  - lia.
  - split_and!; done.
  - intros s e Hs Hp. pose proof (zget_Some_range _ _ _ Hs) as Hr. rewrite zlen_replicate in Hr.
    rewrite zget_replicate in Hs by lia. injection Hs as <-. done.
  - intros j Hj. lia.
  - exists bi, dt, bi'. split; [done|]. split; [done|]. intros m iw i Hi. specialize (Hrows i Hi).
    unfold filter_compress_query. cbn [index_type bitmark bitmap_index unit_size]. change (2 =? 2) with true. cbv iota.
    assert ((match bm with None => Some 0 | Some bm => bitmark_query bm i end)
      = Some (if contents st i then 0 else 1)) as Hq.
    { destruct Hbm as [-> | ->]; [|by apply null_query]. specialize (Hnonull eq_refl i Hi).
      unfold vals in Hnonull. by destruct (contents st i). }
    rewrite Hq. cbn [mbind option_bind]. unfold row_done, vals in Hrows.
    destruct (contents st i) as [v|] eqn:Ev; simpl in Hrows; [|eexists; split; [done|by apply null_answers]].
    destruct Hrows as (p & (Hw' & Hl' & Hbit) & Hst). destruct (Hbit p eq_refl) as [Hp Hbi'].
    change (0 =? 1) with false. cbv iota. rewrite bitmark_query_in_range by (done || lia).
    cbn [mbind option_bind]. rewrite Hbi'.
    assert ((if (if p =? 1 then 0 else 1) =? 0 then 1 else 0) = p) as Ep by (destruct (Z.eqb_spec p 1); simpl; lia).
    assert (((if p =? 1 then 0 else 1) <? 0) = false) as -> by (by destruct (p =? 1)). rewrite Ep.
    by eapply value_answers; [| | | |exact Hst|lia].
Qed.

Lemma sext_index p : -1 ≤ p < total →
  sext (index_width total) (le_value (le_bytes (Z.to_nat (index_width total)) p)) = p.
Proof.
  intros Hp. pose proof total_bound. pose proof limit_bound. rewrite le_value_mod.
  unfold index_width, sext in *. destruct (Z.ltb_spec total 128); [|destruct (Z.ltb_spec total 32768)];
    simpl Z.to_nat; simpl (8 * Z.of_nat _); simpl (_ =? _); cbv iota;
    unfold s8, s16, s32; rewrite Zplus_mod_idemp_l;
    rewrite Z.mod_small by lia; lia.
Qed.

Lemma index_form :
  let iw := index_width total in
  let ix := fst (map_bytes true [] (u32 (st_row_limit st * iw))) in
  let d := fst (map_bytes true [] (u32 (total * us))) in
  ∃ dt xt, fill_rows st junk (write_index iw) us (Z.to_nat (st_row_limit st)) 0
      (replicate (Z.to_nat (st_row_limit st)) (Entry 0 (-1))) 0 (default [] d) (default [] ix)
      = Some (Some (total, dt, xt)) ∧ is_Some ix ∧ (0 < total → is_Some d) ∧
    ∀ m dd, (0 < total → dd = Some dt) →
      complete (FilterCompress (Some xt) dd None None m (st_row_limit st) total us iw 1).
Proof.
  intros iw ix d. pose proof limit_bound as Hlb. pose proof total_bound as Htb.
  assert (0 < iw ≤ 4) as Hiw by (unfold iw, index_width; destruct (_ <? _); [lia|]; destruct (_ <? _); lia).
  destruct (data_room total) as [Hlen Hsome]; [lia|nia|].
  assert (zlen (default [] ix) = st_row_limit st * iw ∧ is_Some ix) as [Hlx Hix].
  { unfold ix, map_bytes. rewrite u32_small by nia. split; [apply fresh_map_len; [lia|nia|nia]|].
    apply fresh_map_some; [lia|nia|nia]. }
  destruct (fill_rows_spec st junk (st_row_limit st) vals Hlb eq_refl row_value_spec (write_index iw) us total
    (λ x _, zlen x = st_row_limit st * iw) (index_rd iw) ltac:(lia)
    (λ i o x Hi Hx _, write_index_ok iw i o x Hiw Hi Hx) (Z.to_nat (st_row_limit st)) 0
    (replicate (Z.to_nat (st_row_limit st)) (Entry 0 (-1))) 0 (default [] d) (default [] ix))
    as (dt & xt & Hfill & Hld & Hrows).
  - done.
  - lia.
  - rewrite zlen_replicate. lia.
  - by rewrite occ_empty, used_replicate.
  - done.
  - by rewrite occ_empty.
  - done.
  - nia.
  - done.
  - intros s e Hs Hp. pose proof (zget_Some_range _ _ _ Hs) as Hr. rewrite zlen_replicate in Hr.
    rewrite zget_replicate in Hs by lia. injection Hs as <-. done.
  - intros j Hj. lia.
  - exists dt, xt. split; [done|]. split; [done|]. split; [done|]. intros m dd Hdd i Hi. specialize (Hrows i Hi).
    unfold filter_compress_query. cbn [index_type fc_index idx_size unit_size].
    change (1 =? 2) with false. change (1 =? 1) with true. cbv iota. cbn [mbind option_bind].
    assert ((if iw =? 1 then 1 else if iw =? 2 then 2 else 4) = iw) as ->.
    { unfold iw, index_width. by repeat destruct (_ <? _). }
    rewrite u32_small by nia. unfold row_done, index_rd, vals in Hrows.
    destruct (contents st i) as [v|] eqn:Ev; simpl in Hrows.
    + destruct Hrows as (p & Hx & Hst). rewrite Hx. cbn [mbind option_bind].
      destruct Hst as [Hp Hs]. simpl. unfold iw. rewrite sext_index by lia.
      rewrite (proj2 (Z.eqb_neq p (-1))) by lia.
      eapply (value_answers _ dt total); [cbn; apply Hdd; lia|done|done|done|split; done|nia].
    + rewrite Hrows. cbn [mbind option_bind]. unfold iw. rewrite sext_index by lia.
      eexists. split; [done|]. by apply null_answers.
Qed.

Lemma cells_form :
  let d := fst (map_bytes true [] (u32 (st_row_limit st * us))) in
  ∃ dt, copy_cells (Z.to_nat (st_row_limit st)) 0 st us (default [] d) = Some dt ∧ is_Some d ∧
    ∀ m nv iw, complete (FilterCompress None (Some dt) None (Some (null_bitmark st)) m (st_row_limit st) nv us iw 0).
Proof.
  intros d. pose proof limit_bound as Hlb. destruct (data_room (st_row_limit st)) as [Hlen Hsome]; [lia|nia|].
  destruct (copy_cells_spec (Z.to_nat (st_row_limit st)) 0 (default [] d)) as (dt & Hcp & Hcells);
    [lia|lia|done|intros; lia|].
  exists dt. split; [done|]. split; [apply Hsome; lia|]. intros m nv iw i Hi.
  unfold filter_compress_query. cbn [index_type bitmark unit_size]. change (0 =? 2) with false.
  change (0 =? 1) with false. cbv iota. cbn [mbind option_bind]. rewrite null_query by done. cbn [mbind option_bind].
  destruct (contents st i) as [v|] eqn:Ev; [|eexists; split; [done|by apply null_answers]].
  change (0 =? 1) with false. cbv iota. unfold value_result. cbn [fc_data unit_size mbind option_bind].
  rewrite u32_small by nia. rewrite Hcells by done. cbn [mbind option_bind]. eexists. split; [done|].
  unfold answers. rewrite Ev. unfold contents in Ev. destruct (ms_bit _ i); [|done]. by injection Ev as <-.
Qed.
End compressed.

Definition system_ok : filter_io := FIo true true true.

(** Runs the end of the load, then reads back through the form's lemma. *)
Ltac finish_load :=
  edestruct finish_spec as (? & ? & ->); [reflexivity|]; eexists _, _; split; [done|];
  cbn [fc_index fc_data bitmap_index bitmark index_type fmap option_fmap option_map];
  match goal with Hok : _ |- _ => apply Hok end.

(** Every outcome of a load. *)
Lemma filter_load_spec st junk us fs :
  storage_wf st → value_size st ≤ 8 → 0 < us ≤ value_size st → st_row_limit st * 8 < 2 ^ 31 →
  Forall (λ b, 0 ≤ b < 256) (st_mem st) → bitmap_f fs = [] →
  ∃ r fs', filter_compress_load system_ok junk fs st us = Some (r, fs') ∧
    match r with
    | LoadNull => False
    | LoadSkip => us = value_size st
    | Loaded c => complete st us c
    end.
Proof.
  intros Hwf Hvs Hus Hn Hbytes Hfs. pose proof (limit_bound st Hwf Hn) as Hlb.
  unfold filter_compress_load, filter_compress_init. cbn [io_info system_ok info_f data_f index_f bitmap_f null_f].
  change (get_mmap_memory 0 4 true [] 16) with (Some (replicate 16 0), replicate 16 0). cbv iota beta.
  cbn [mbind option_bind]. change ((replicate 16 0)⟦0⟧) with (Some 0). cbn [mbind option_bind].
  change (0 =? 0) with true. cbv iota. cbn [mbind option_bind data_f index_f bitmap_f null_f info_map io_data io_index].
  change (io_data system_ok) with true. change (io_index system_ok) with true.
  destruct (count_rows_spec st junk (st_row_limit st) (vals st junk) Hlb eq_refl
    (row_value_spec st junk Hwf Hvs) (Z.to_nat (st_row_limit st)) 0
    (replicate (Z.to_nat (st_row_limit st)) (Entry 0 0)) 0 0) as (nn & Hc & Hnn & Hnull).
  1-6: solve [done|lia|rewrite zlen_replicate; lia|by rewrite occ_empty, used_replicate].
  rewrite Hc, occ_empty, Z.add_0_l by done. cbn [mbind option_bind]. fold (total st junk).
  destruct (Z.eqb_spec (total st junk) 2) as [E2|E2].
  - rewrite E2, Hfs.
    destruct (bitmap_form st junk us Hwf Hvs Hus Hn Hbytes
      (if negb (nn =? 0) then Some (null_bitmark st) else None)) as (bi & dt & bi' & -> & Hfill & Hok).
    { done. }
    { destruct (Z.eqb_spec nn 0) as [->|]; [|done]. intros _ i Hi. by apply Hnull. }
    { destruct (nn =? 0); simpl; auto. }
    cbn [mbind option_bind].
    assert ((if negb (nn =? 0) then Some <$> copy_nulls st (null_f fs) else Some None)
      = Some (if negb (nn =? 0) then Some (null_bitmark st) else None)) as ->.
    { destruct (negb (nn =? 0)); [|done]. by rewrite copy_nulls_spec. }
    cbn [mbind option_bind]. rewrite Hfill. cbn [mbind option_bind].
    destruct (data_room st us Hus 2) as [_ [dm Hdm]]; [lia|lia|lia|]. rewrite Hdm.
    by finish_load.
  - destruct (_ <? _).
    + destruct (index_form st junk us Hwf Hvs Hus Hn Hbytes) as (dt & xt & Hfill & [xm Hxm] & Hd & Hok).
      rewrite Hfill. cbn [mbind option_bind]. rewrite Hxm.
      finish_load.
      intros Ht. destruct (Hd Ht) as [dm Hdm]. by rewrite Hdm.
    + destruct (Z.ltb_spec us (value_size st)) as [Hlt|Hge].
      * rewrite copy_nulls_spec by done. cbn [mbind option_bind]. rewrite (proj2 (Z.eqb_neq us 0)) by lia. simpl negb.
        cbv iota. destruct (cells_form st us Hwf Hvs Hus Hn) as (dt & Hcp & [dm Hdm] & Hok).
        rewrite Hcp. cbn [mbind option_bind]. rewrite Hdm.
        finish_load.
      * eexists LoadSkip, _. split; [done|]. lia.
Qed.

(** C30: compression of a filter column loses nothing.  For a column of at most
    eight-byte cells and a width [us] that is at most the cell's, the load never
    runs out of table or buffer space, whatever the uninitialised bytes of its
    variable; if it decides to compress, in whichever of the three forms, a
    query of every row gives null exactly for the null rows and else the first
    [us] bytes of the value; if it declines, the cells are already of that
    width. *)
Theorem filter_compress_correct st junk us fs :
  storage_wf st → value_size st ≤ 8 → 0 < us ≤ value_size st → st_row_limit st * 8 < 2 ^ 31 →
  Forall (λ b, 0 ≤ b < 256) (st_mem st) → bitmap_f fs = [] →
  ∃ r fs', filter_compress_load system_ok junk fs st us = Some (r, fs') ∧
    match r with
    | LoadNull => False
    | LoadSkip => us = value_size st
    | Loaded c => ∀ i, 0 ≤ i < st_row_limit st →
        ∃ q, filter_compress_query c i = Some q ∧
          match contents st i with
          | None => len q = 0
          | Some v => data q = take (Z.to_nat us) v ∧ len q = us
          end
    end.
Proof. by apply filter_load_spec. Qed.

(** *** Concrete columns *)

Definition int32_cell (z : Z) : low_data_struct := LowData HI_TYPE_LONG (le_bytes 4 z) 4.

Definition demo_inserts : list storage_op :=
  [OpInsert 0 (int32_cell 5); OpInsert 1 (int32_cell 7); OpInsert 3 (int32_cell 5)].

Lemma demo_column :
  ∃ bm st0 st, bitmark_init 4 [] = Some bm ∧ storage_init true 4 4 [] (Some bm) = Some st0 ∧
    Storage.run_ops st0 demo_inserts = Some st ∧ storage_wf st ∧ value_size st = 4 ∧ st_row_limit st = 4 ∧
    Forall (λ b, 0 ≤ b < 256) (st_mem st).
Proof.
  destruct (storage_init_empty 4 4) as (bm & st0 & Hb & Hs & Hw & Hv & Hl & Hc); [lia|lia|lia|].
  destruct (run_ops_spec st0 (contents st0) demo_inserts Hw) as (st & Hr & Hw' & Hv' & Hl' & _).
  - done.
  - rewrite Hv, Hl. repeat constructor; simpl; lia.
  - exists bm, st0, st. rewrite Hv in Hv'. rewrite Hl in Hl'. split_and!; try done.
    vm_compute in Hb. injection Hb as <-. vm_compute in Hs. injection Hs as <-. vm_compute in Hr.
    injection Hr as <-. cbn. repeat constructor; lia.
Qed.

Lemma filter_compress_correct_witness :
  ∃ bm st0 st c fs q, bitmark_init 4 [] = Some bm ∧ storage_init true 4 4 [] (Some bm) = Some st0 ∧
    Storage.run_ops st0 demo_inserts = Some st ∧
    filter_compress_load system_ok 0 (FFiles [] [] [] [] []) st 1 = Some (Loaded c, fs) ∧
    filter_compress_query c 3 = Some q ∧ data q = [5] ∧ len q = 1.
Proof.
  destruct demo_column as (bm & st0 & st & Hb & Hs & Hr & Hw & Hv & Hl & Hby).
  destruct (filter_compress_correct st 0 1 (FFiles [] [] [] [] []) Hw) as (r & fs & Hload & Hres).
  - rewrite Hv. lia.
  - rewrite Hv. lia.
  - rewrite Hl. lia.
  - exact Hby.
  - reflexivity.
  - destruct r as [| |c]; [destruct Hres|rewrite Hv in Hres; discriminate|].
    destruct (Hres 3) as (q & Hq & Hans); [rewrite Hl; lia|].
    exists bm, st0, st, c, fs, q. split; [exact Hb|]. split; [exact Hs|]. split; [exact Hr|].
    split; [exact Hload|]. split; [exact Hq|].
    vm_compute in Hb. injection Hb as <-. vm_compute in Hs. injection Hs as <-. vm_compute in Hr.
    injection Hr as <-. vm_compute in Hans. exact Hans.
Defined.

(** A column of two values and no nulls is lost at the next start.  The load
    leaves no null mark for it, [filter_compress_init] opens one all the same, a
    new file without a bit set, and every row reads as null. *)
Theorem two_values_lost_on_restart :
  ∃ bm st0 st c fs c' fs' q q', bitmark_init 4 [] = Some bm ∧ storage_init true 4 4 [] (Some bm) = Some st0 ∧
    Storage.run_ops st0 (demo_inserts ++ [OpInsert 2 (int32_cell 7)]) = Some st ∧
    filter_compress_load system_ok 0 (FFiles [] [] [] [] []) st 1 = Some (Loaded c, fs) ∧
    filter_compress_query c 3 = Some q ∧ data q = [5] ∧ len q = 1 ∧
    filter_compress_init system_ok fs = Some (Ptr c', fs') ∧
    filter_compress_query c' 3 = Some q' ∧ len q' = 0.
Proof.
  eexists _, _, _, _, _, _, _, _, _. do 9 (split; [vm_compute; reflexivity|]). vm_compute. reflexivity.
Qed.

(** The bitmap file of an earlier attempt is not removed before a new load and
    its bits are never cleared: rows read as the wrong one of the two values. *)
Theorem stale_bitmap_corrupts :
  ∃ bm st0 st c fs q, bitmark_init 4 [] = Some bm ∧ storage_init true 4 4 [] (Some bm) = Some st0 ∧
    Storage.run_ops st0 demo_inserts = Some st ∧
    filter_compress_load system_ok 0 (FFiles [] [] [] [255] []) st 1 = Some (Loaded c, fs) ∧
    contents st 3 = Some [5; 0; 0; 0] ∧ filter_compress_query c 3 = Some q ∧ data q = [7].
Proof.
  eexists _, _, _, _, _, _. do 6 (split; [vm_compute; reflexivity|]). vm_compute. reflexivity.
Qed.
