(* ===== verification/IndexField.v ===== *)
(** * Index fields ([src/storage/docdb/index_field.c])

    An index of one column of a segment: a hash index, a growing hash index for
    full text, or a filter column, chosen by its type, and for a full segment the
    compressed form that replaces it.  [flag] and [max_len] point to mapped words;
    they are NULL for the types that do not use them.  The compressed forms are
    files of the field's directory, next to the ones that the indexes keep. *)

From Stdlib Require Import ZArith Lia.
From stdpp Require Import base option list numbers.
From S2P Require Import Prelude FileOp Doclist Bitmark RowidList LowData HashIndex Storage VStorage HashMemCompress DynHash Column FilterIndex FilterCompress.

Definition ERROR_FIELD_NOT_WORK : Z := -3691.
Definition ERROR_NOT_SUPPORT_INDEX : Z := -3699.
Definition ERROR_ONLY_FILTER_SUPPORT : Z := -3695.
Definition ERROR_NOT_SUPPORT_COMMPRESS : Z := -3689.
Definition ERROR_NOT_NEED_COMPRESS : Z := -3688.
Definition ERROR_INDEX_FIELD_COMPRESSED : Z := -3687.
Definition ERROR_INSERT_FAILDED : Z := -4000.
Definition ERROR_COMMPRESS_FAIL : Z := -4005.
Definition INDEX_FIELD_COMPRESS : Z := 1.

Inductive index_key_alg :=
| HI_KEY_ALG_UNDEF | HI_KEY_ALG_BTREE | HI_KEY_ALG_HASH | HI_KEY_ALG_FILTER | HI_KEY_ALG_FULLTEXT.

#[export] Instance index_key_alg_eq_dec : EqDecision index_key_alg.
Proof. solve_decision. Defined.

(** The numbers of the types. *)
Definition alg_code (t : index_key_alg) : Z :=
  match t with
  | HI_KEY_ALG_UNDEF => 0 | HI_KEY_ALG_BTREE => 1 | HI_KEY_ALG_HASH => 2
  | HI_KEY_ALG_FILTER => 3 | HI_KEY_ALG_FULLTEXT => 4
  end.

(** The files of a field's directory; a missing file is empty. *)
Record field_files := FieldFiles {
  stat_file : list Z;                       (* hash_stat.inf or filter_stat.inf, words *)
  len_file : list Z;                        (* len.inf *)
  hash_file : list hash_bucket;
  doclist_file : list Z;
  cells_file : list Z;                      (* the filter's cells and null mark *)
  mark_file : list Z;
  hcompress_files : compress_files;
  fcompress_files : filter_files;
  dy_files : dyhash_files
}.

(** Outcomes of the system calls, and what the program does not choose: the
    memory behind an uninitialised 64-bit value, and the order [qsort] gives
    equal elements. *)
Record field_env := FieldEnv {
  all_mmap : bool;
  io_stat : bool;
  io_len : bool;
  io_hash : bool;
  io_doclist : bool;
  io_cells : bool;
  io_hcompress : compress_io;
  io_fcompress : filter_io;
  io_dyhash : dyhash_io;
  junk_value : Z;
  qsort_fn : (Z → Z → Z) → list Z → list Z
}.

Record index_field_manager := IndexField {
  if_type : index_key_alg;                  (* [index_type] *)
  if_limit : Z;                             (* [row_limit] *)
  flag : option Z;                          (* [None] is NULL, as below *)
  filter_index : option (filter_index_manager bitmark_manager);
  hash_index : option hash_index_manager;
  dyhash_index : option dyhash_index_manager;
  hash_compress : option hash_compress_manager;
  filter_compress : load_result;
  compress_num : Z;                         (* [hash_compress_num] *)
  max_len : option Z;
  disk : field_files                        (* the directory *)
}.

Implicit Types (f : index_field_manager).

Definition set_flag f (w : Z) : index_field_manager :=
  IndexField (if_type f) (if_limit f) (Some w) (filter_index f) (hash_index f) (dyhash_index f)
    (hash_compress f) (filter_compress f) (compress_num f) (max_len f) (disk f).
Definition set_filter f (x : option (filter_index_manager bitmark_manager)) : index_field_manager :=
  IndexField (if_type f) (if_limit f) (flag f) x (hash_index f) (dyhash_index f)
    (hash_compress f) (filter_compress f) (compress_num f) (max_len f) (disk f).
Definition set_hash f (x : option hash_index_manager) : index_field_manager :=
  IndexField (if_type f) (if_limit f) (flag f) (filter_index f) x (dyhash_index f)
    (hash_compress f) (filter_compress f) (compress_num f) (max_len f) (disk f).
Definition set_dyhash f (x : option dyhash_index_manager) : index_field_manager :=
  IndexField (if_type f) (if_limit f) (flag f) (filter_index f) (hash_index f) x
    (hash_compress f) (filter_compress f) (compress_num f) (max_len f) (disk f).
Definition set_max_len f (n : Z) : index_field_manager :=
  IndexField (if_type f) (if_limit f) (flag f) (filter_index f) (hash_index f) (dyhash_index f)
    (hash_compress f) (filter_compress f) (compress_num f) (Some n) (disk f).
Definition set_hcompress f (x : option hash_compress_manager) (fs : compress_files) : index_field_manager :=
  let d := disk f in
  IndexField (if_type f) (if_limit f) (flag f) (filter_index f) (hash_index f) (dyhash_index f)
    x (filter_compress f) (compress_num f) (max_len f)
    (FieldFiles (stat_file d) (len_file d) (hash_file d) (doclist_file d) (cells_file d) (mark_file d)
       fs (fcompress_files d) (dy_files d)).
Definition set_fcompress f (x : load_result) (fs : filter_files) : index_field_manager :=
  let d := disk f in
  IndexField (if_type f) (if_limit f) (flag f) (filter_index f) (hash_index f) (dyhash_index f)
    (hash_compress f) x (compress_num f) (max_len f)
    (FieldFiles (stat_file d) (len_file d) (hash_file d) (doclist_file d) (cells_file d) (mark_file d)
       (hcompress_files d) fs (dy_files d)).

Definition ptr_option {A} (p : ptr A) : option A := match p with NULL => None | Ptr x => Some x end.
Definition option_ptr {A} (o : option A) : ptr A := match o with None => NULL | Some x => Ptr x end.

(** Whether a status word says that the index is compressed. *)
Definition compress_bit (w : Z) : bool := negb (Z.land w INDEX_FIELD_COMPRESS =? 0).

(** [flag] is not NULL and has the bit INDEX_FIELD_COMPRESS. *)
Definition is_compressed f : bool := match flag f with None => false | Some w => compress_bit w end.

(** A mapped word. *)
Definition map_word (io : bool) (file : list Z) : option Z :=
  m ← fst (get_mmap_memory 0 4 io file 1);
  m⟦0⟧.

(** An empty directory. *)
Definition no_files : field_files :=
  FieldFiles [] [] [] [] [] [] (CFiles [] [] []) (FFiles [] [] [] [] []) (λ _, (None, None)).

(** The cells of the filter column, 8 bytes each. *)
Definition open_cells (io : bool) (d : field_files) (unit_size limit : Z) : option (storage_manager bitmark_manager) :=
  bm ← bitmark_init limit (mark_file d);
  storage_init io unit_size limit (cells_file d) (Some bm).

(** The tables [l] of a growing index are written to the directory. *)
Definition with_dy_files (d : field_files) (l : list (Z * list dyhash_bucket * list Z)) : field_files :=
  FieldFiles (stat_file d) (len_file d) (hash_file d) (doclist_file d) (cells_file d) (mark_file d)
    (hcompress_files d) (fcompress_files d)
    (λ i, match List.find (λ x, fst (fst x) =? i) l with
          | Some (_, hf, df) => (Some hf, Some df)
          | None => dy_files d i
          end).

Section index_field.
Context (env : field_env) (get_hash_value : low_data_struct → Z).

(** [mkdir_ok]: whether the directory could be made.  Outside, [None] is a failed
    assertion. *)
Definition index_field_init (mkdir_ok : bool) (d : field_files) (index_type : index_key_alg)
    (row_limit num : Z) (full : bool) : option (ptr index_field_manager) :=
  if negb mkdir_ok then Some NULL
  else
    let f := IndexField index_type row_limit None None None None None LoadNull num None d in
    match index_type with
    | HI_KEY_ALG_FULLTEXT =>
        dy ← dyhash_index_init (all_mmap env) (io_dyhash env) (dy_files d) (Z.to_nat (2 ^ 16)) row_limit full;
        match dy with NULL => None | Ptr dy => Some (Ptr (set_dyhash f (Some dy))) end
    | HI_KEY_ALG_HASH =>
        w ← map_word (io_stat env) (stat_file d);
        let f := set_flag f w in
        if compress_bit w then
          '(c, fs) ← hash_commpress_init (io_hcompress env) (hcompress_files d) row_limit num;
          match c with NULL => None | Ptr c => Some (Ptr (set_hcompress f (Some c) fs)) end
        else
          h ← hash_index_init (all_mmap env) (io_hash env) (io_doclist env) (hash_file d) (doclist_file d) row_limit full;
          Some (Ptr (set_hash f (Some h)))
    | HI_KEY_ALG_FILTER =>
        w ← map_word (io_stat env) (stat_file d);
        n ← map_word (io_len env) (len_file d);
        let f := set_max_len (set_flag f w) n in
        if compress_bit w then
          '(c, fs) ← filter_compress_init (io_fcompress env) (fcompress_files d);
          match c with NULL => None | Ptr c => Some (Ptr (set_fcompress f (Loaded c) fs)) end
        else
          x ← filter_index_init HI_TYPE_LONGLONG (get_unit_size HI_TYPE_LONGLONG) row_limit
                (open_cells (io_cells env) d) (λ _, NULL);
          Some (Ptr (set_filter f (Some x)))
    | HI_KEY_ALG_BTREE => Some (Ptr f)
    | HI_KEY_ALG_UNDEF => Some NULL
    end.

(** The segment passes no NULL to the operations that change a field: it looks
    the field up first. *)
Definition index_field_recover f (docid : Z) : option (Z * index_field_manager) :=
  if is_compressed f then Some (0, f)
  else
    match if_type f with
    | HI_KEY_ALG_HASH =>
        h ← hash_index f;
        '(ret, h) ← hash_index_recover h docid;
        Some (ret, set_hash f (Some h))
    | HI_KEY_ALG_FILTER =>
        x ← filter_index f;
        '(ret, x) ← filter_index_recover true true x docid;
        Some (ret, set_filter f (Some x))
    | HI_KEY_ALG_FULLTEXT =>
        dy ← dyhash_index f;
        '(ret, dy) ← dyhash_index_recover dy docid;
        Some (ret, set_dyhash f (Some dy))
    | HI_KEY_ALG_BTREE => Some (0, f)
    | HI_KEY_ALG_UNDEF => Some (ERROR_NOT_SUPPORT_INDEX, f)
    end.

(** The hash of a string as the value of a filter column. *)
Definition hash_data (data : low_data_struct) : low_data_struct :=
  LowData HI_TYPE_LONGLONG (le_bytes 8 (get_hash_value data)) (get_unit_size HI_TYPE_LONGLONG).

(** The word [max_len] is raised to [n]. *)
Definition raise_len f (n : Z) : option index_field_manager :=
  m ← max_len f;
  Some (if m <? n then set_max_len f n else f).

(** [if ((ret = filter_index_insert(...) < 0)) return ret]: a failure is 1. *)
Definition insert_filter f (data : low_data_struct) (docid : Z) : option (Z * index_field_manager) :=
  x ← filter_index f;
  '(rc, x) ← filter_index_insert 0 x data docid;
  Some (if rc <? 0 then 1 else 0, set_filter f (Some x)).

Definition index_field_insert f (data : low_data_struct) (docid : Z) : option (Z * index_field_manager) :=
  if is_compressed f then Some (ERROR_INDEX_FIELD_COMPRESSED, f)
  else
    match if_type f with
    | HI_KEY_ALG_FULLTEXT =>
        dy ← dyhash_index f;
        '(ret, dy) ← dyhash_index_insert get_hash_value (all_mmap env) (io_dyhash env) (dy_files (disk f)) dy data docid;
        Some (if ret <? 0 then ret else 0, set_dyhash f (Some dy))
    | HI_KEY_ALG_HASH =>
        h ← hash_index f;
        '(ret, h) ← hash_index_insert get_hash_value h data docid;
        Some (if ret <? 0 then ret else 0, set_hash f (Some h))
    | HI_KEY_ALG_BTREE => Some (0, f)
    | HI_KEY_ALG_FILTER =>
        if decide (type data = HI_TYPE_STRING) then
          f ← raise_len f (get_unit_size HI_TYPE_LONGLONG);
          insert_filter f (hash_data data) docid
        else if len data >? get_unit_size HI_TYPE_LONGLONG then Some (ERROR_INSERT_FAILDED, f)
        else
          f ← raise_len f (len data);
          insert_filter f data docid
    | HI_KEY_ALG_UNDEF => Some (ERROR_NOT_SUPPORT_INDEX, f)
    end.

(** Returns the old value as well. *)
Definition update_filter f (data : low_data_struct) (docid : Z)
    : option (Z * ptr low_data_struct * index_field_manager) :=
  x ← filter_index f;
  '(rc, old, x) ← filter_index_update 0 x data docid;
  Some (if rc <? 0 then 1 else 0, old, set_filter f (Some x)).

Definition index_field_update f (new_data : low_data_struct) (docid : Z)
    : option (Z * ptr low_data_struct * index_field_manager) :=
  if is_compressed f then Some (ERROR_INDEX_FIELD_COMPRESSED, NULL, f)
  else
    match if_type f with
    | HI_KEY_ALG_FILTER =>
        if decide (type new_data = HI_TYPE_STRING) then update_filter f (hash_data new_data) docid
        else update_filter f new_data docid
    | _ => Some (ERROR_ONLY_FILTER_SUPPORT, NULL, f)
    end.

Definition index_field_value_query (index_field : ptr index_field_manager) (docid : Z) : option (ptr low_data_struct) :=
  match index_field with
  | NULL => Some (Ptr (LowData HI_TYPE_NULL [] 0))
  | Ptr f =>
      if decide (if_type f = HI_KEY_ALG_FILTER) then
        w ← flag f;
        if compress_bit w then
          match filter_compress f with
          | Loaded c => Ptr <$> filter_compress_query c docid
          | _ => None
          end
        else
          x ← filter_index f;
          filter_index_query x docid
      else Some NULL
  end.

Definition index_field_count_query (index_field : ptr index_field_manager) (data : low_data_struct) : option Z :=
  match index_field with
  | NULL => Some 0
  | Ptr f =>
      if decide (if_type f = HI_KEY_ALG_FULLTEXT) then
        dy ← dyhash_index f;
        dyhash_index_count_query get_hash_value dy data
      else Some 0
  end.

Definition index_field_equal_query (index_field : ptr index_field_manager) (data : low_data_struct)
    : option (ptr rowid_list) :=
  match index_field with
  | NULL => Some NULL
  | Ptr f =>
      match if_type f with
      | HI_KEY_ALG_HASH =>
          w ← flag f;
          if compress_bit w then c ← hash_compress f; hash_compress_query get_hash_value c data
          else h ← hash_index f; hash_index_query get_hash_value h data
      | HI_KEY_ALG_FULLTEXT =>
          dy ← dyhash_index f;
          dyhash_index_query get_hash_value dy data
      | _ => Some NULL
      end
  end.

(** The compressed form is built beside the index; [flag] is read without a test
    for NULL. *)
Definition index_field_compress f : option (Z * index_field_manager) :=
  w ← flag f;
  if compress_bit w then Some (ERROR_NOT_NEED_COMPRESS, f)
  else
    match if_type f with
    | HI_KEY_ALG_HASH =>
        '(c, fs) ← hash_compress_load (qsort_fn env) (io_hcompress env) (hcompress_files (disk f))
                     (option_ptr (hash_index f)) (compress_num f);
        let f := set_hcompress f (ptr_option c) fs in
        match c with NULL => Some (ERROR_COMMPRESS_FAIL, f) | Ptr _ => Some (0, f) end
    | HI_KEY_ALG_FILTER =>
        x ← filter_index f;
        st ← fi_storage x;
        n ← max_len f;
        '(c, fs) ← filter_compress_load (io_fcompress env) (junk_value env) (fcompress_files (disk f)) st n;
        let f := set_fcompress f c fs in
        match c with
        | LoadNull => Some (ERROR_COMMPRESS_FAIL, f)
        | LoadSkip => Some (ERROR_NOT_NEED_COMPRESS, f)
        | Loaded _ => Some (0, f)
        end
    | _ => Some (ERROR_NOT_SUPPORT_COMMPRESS, f)
    end.

(** From now on the compressed form is used; the index and its files are gone. *)
Definition index_field_switch f : option (Z * index_field_manager) :=
  w ← flag f;
  if compress_bit w then Some (ERROR_FIELD_NOT_WORK, f)
  else
    match if_type f with
    | HI_KEY_ALG_HASH =>
        match hash_compress f with
        | None => Some (ERROR_COMMPRESS_FAIL, f)
        | Some _ => Some (0, set_hash (set_flag f (Z.lor w INDEX_FIELD_COMPRESS)) None)
        end
    | HI_KEY_ALG_FILTER =>
        match filter_compress f with
        | LoadNull => Some (ERROR_COMMPRESS_FAIL, f)
        | LoadSkip => Some (ERROR_NOT_NEED_COMPRESS, f)
        | Loaded _ => Some (0, set_filter (set_flag f (Z.lor w INDEX_FIELD_COMPRESS)) None)
        end
    | _ => Some (ERROR_NOT_SUPPORT_COMMPRESS, f)
    end.

(** Shared mappings need no write: only private memory is flushed. *)
Definition index_field_checkpoint f : option index_field_manager :=
  if is_compressed f then Some f
  else
    match if_type f with
    | HI_KEY_ALG_HASH =>
        h ← hash_index f;
        Some (set_hash f (Some (hash_index_checkpoint (all_mmap env) (io_hash env) (io_doclist env) h)))
    | HI_KEY_ALG_FULLTEXT =>
        dy ← dyhash_index f;
        Some (set_dyhash f (Some (dyhash_index_checkpoint (all_mmap env) (io_dyhash env) dy)))
    | _ => Some f
    end.

(** The directory after the memory is unmapped. *)
Definition index_field_release f : option field_files :=
  let d := disk f in
  let stat := match flag f with None => stat_file d | Some w => w :: drop 1 (stat_file d) end in
  let lenf := match max_len f with None => len_file d | Some n => n :: drop 1 (len_file d) end in
  let with_files hf df cf mf dy :=
    Some (FieldFiles stat lenf hf df cf mf (hcompress_files d) (fcompress_files d) dy) in
  match if_type f with
  | HI_KEY_ALG_HASH =>
      w ← flag f;
      if compress_bit w then with_files [] [] (cells_file d) (mark_file d) (dy_files d)
      else
        h ← hash_index f;
        let '(hf, df) := hash_index_release (all_mmap env) (io_hash env) (io_doclist env) h in
        with_files hf df (cells_file d) (mark_file d) (dy_files d)
  | HI_KEY_ALG_FILTER =>
      w ← flag f;
      if compress_bit w then with_files (hash_file d) (doclist_file d) [] [] (dy_files d)
      else
        x ← filter_index f;
        st ← fi_storage x;
        with_files (hash_file d) (doclist_file d) (storage_checkpoint st (cells_file d))
          (mem_mmaped (null_bitmark st)) (dy_files d)
  | HI_KEY_ALG_FULLTEXT =>
      dy ← dyhash_index f;
      with_files (hash_file d) (doclist_file d) (cells_file d) (mark_file d)
        (dy_files (with_dy_files d (dyhash_index_release (all_mmap env) (io_dyhash env) dy)))
  | _ => with_files (hash_file d) (doclist_file d) (cells_file d) (mark_file d) (dy_files d)
  end.

(** The directory after the index is dropped: a hash index removes its table and
    document list, its compressed form nothing (see [hash_compress_destroy]), a
    filter column its cells and null mark, its compressed form what it uses.  A
    full-text index is not among the cases: it keeps its files, with what their
    mappings hold. *)
Definition index_field_destroy (index_field : ptr index_field_manager) (d0 : field_files) : option field_files :=
  match index_field with
  | NULL => Some d0
  | Ptr f =>
      let d := disk f in
      match if_type f with
      | HI_KEY_ALG_HASH =>
          w ← flag f;
          fs ← (if compress_bit w then
                  Some (hash_compress_destroy (option_ptr (hash_compress f)) (hcompress_files d))
                else _ ← hash_index f; Some (hcompress_files d));
          Some (FieldFiles [] (len_file d) [] [] (cells_file d) (mark_file d) fs (fcompress_files d) (dy_files d))
      | HI_KEY_ALG_FILTER =>
          w ← flag f;
          fs ← (if compress_bit w then
                  match filter_compress f with
                  | Loaded c => filter_compress_destroy c (fcompress_files d)
                  | _ => None
                  end
                else _ ← filter_index f; Some (fcompress_files d));
          Some (FieldFiles [] [] (hash_file d) (doclist_file d) [] [] (hcompress_files d) fs (dy_files d))
      | HI_KEY_ALG_FULLTEXT =>
          dy ← dyhash_index f;
          let shared i := (dy_is_full dy || all_mmap env,
            existsb (λ s, (sg_index s =? i) && (is_full (sg_doclist s) || all_mmap env)) (singles dy)) in
          Some (with_dy_files d (dyhash_index_release (all_mmap env) shared dy))
      | _ => Some d
      end
  end.

(** [flush] and [switch]: outcomes for the index and the document list. *)
Definition index_mmap_switch (flush switch : bool * bool) (dy_flush dy_switch : dyhash_io) f
    : option (Z * index_field_manager) :=
  match if_type f with
  | HI_KEY_ALG_HASH =>
      w ← flag f;
      if compress_bit w then Some (0, f)
      else
        h ← hash_index f;
        let '(rc, h) := hash_index_mmap_switch (all_mmap env) (fst flush) (fst switch) (snd flush) (snd switch) h in
        Some (rc, set_hash f (Some h))
  | HI_KEY_ALG_FULLTEXT =>
      dy ← dyhash_index f;
      let '(rc, dy) := dyhash_index_mmap_switch (all_mmap env) dy_flush dy_switch dy in
      Some (rc, set_dyhash f (Some dy))
  | _ => Some (0, f)
  end.
End index_field.

(** There is no tree index yet. *)
Definition index_field_range_query (index_field : ptr index_field_manager) : option (ptr rowid_list) := Some NULL.
