(* ===== verification/IndexFieldSpec.v ===== *)
(** * What an index field promises

    The life of a hash field as its segment drives it: insertions, recovery,
    moves to shared memory, restarts, and the two steps of compression, against a
    specification that also gives every return code; and the values of a filter
    column before and after its compression. *)

From Stdlib Require Import ZArith Lia Sorted.
From stdpp Require Import base option list numbers sets.
From S2P Require Import Prelude FileOp Doclist Bitmark RowidList SetOperator LowData HashIndex HashIndexSpec Storage VStorage HashMemCompress DynHash Column FilterIndex FilterCompress FilterCompressSpec IndexField.

(** The system calls succeed; sharing, uninitialised memory and [qsort] are open. *)
Definition calm (all_mmap : bool) (junk : Z) (qsort : (Z → Z → Z) → list Z → list Z) : field_env :=
  FieldEnv all_mmap true true true true true all_io system_ok (λ _, (true, true)) junk qsort.

Lemma map_word_again w r : map_word true (w :: r) = Some w.
Proof.
  unfold map_word. change 1 with (zlen [w]) at 1. change (w :: r) with ([w] ++ r).
  by rewrite get_mmap_again by (unfold zlen; simpl; lia).
Qed.

(** *** The number of rows of a table is fixed *)

Lemma init_limit all_mmap io io' f fd N full h :
  hash_index_init all_mmap io io' f fd N full = Some h → limit h = N.
Proof.
  unfold hash_index_init. destruct (if full || all_mmap then _ else _) as [[m|] f']; [|done].
  cbn [mbind option_bind]. destruct (doclist_init _ _ _ _ _); [|done]. by intros [= <-].
Qed.

Lemma insert_probe_limit fuel h hv loc i d rc h' :
  insert_probe fuel h hv loc i d = Some (rc, h') → limit h' = limit h.
Proof.
  revert i. induction fuel as [|fuel IH]; intros i; cbn [insert_probe]; [done|].
  destruct ((buckets h)⟦i⟧) as [b|]; [|done]. cbn [mbind option_bind].
  intros H. repeat (case_match; simplify_option_eq); eauto.
Qed.

Lemma insert_limit ghv h data d rc h' : hash_index_insert ghv h data d = Some (rc, h') → limit h' = limit h.
Proof.
  unfold hash_index_insert. destruct (len data =? 0).
  - destruct ((buckets h)⟦hashmod h⟧) as [b|]; [|done]. cbn [mbind option_bind].
    intros H. repeat (case_match; simplify_option_eq); done.
  - destruct (hashmod h =? 0); [done|]. apply insert_probe_limit.
Qed.

Lemma recover_limit h d rc h' : hash_index_recover h d = Some (rc, h') → limit h' = limit h.
Proof. unfold hash_index_recover. intros H. repeat (case_match; simplify_option_eq); done. Qed.

Lemma switch_limit all_mmap a b c d h rc h' :
  hash_index_mmap_switch all_mmap a b c d h = (rc, h') → limit h' = limit h.
Proof. unfold hash_index_mmap_switch. repeat case_match; intros [= <- <-]; done. Qed.

Lemma represents_mod nh N kh h : represents nh N kh h → hashmod h = N.
Proof. intros (_ & slot & hv & Hinv). apply Hinv. Qed.

Lemma checkpoint_represents all_mmap nh N kh h :
  represents nh N kh h → represents nh N kh (hash_index_checkpoint all_mmap true true h).
Proof.
  apply represents_memory. unfold hash_index_checkpoint, doclist_checkpoint.
  repeat case_match; simplify_eq; done.
Qed.

(** ** Steps of a field *)

Inductive field_op :=
| FInsert (docid : Z) (data : low_data_struct)
| FRecover (docid : Z)
| FCheckpoint
| FMmapSwitch
| FRestart (full : bool)
| FCompress
| FSwitch.

Section steps.
Context (env : field_env) (get_hash_value : low_data_struct → Z).

Definition field_step (f : index_field_manager) (op : field_op) : option (Z * index_field_manager) :=
  match op with
  | FInsert docid data => index_field_insert env get_hash_value f data docid
  | FRecover docid => index_field_recover f docid
  | FCheckpoint => f ← index_field_checkpoint env f; Some (0, f)
  | FMmapSwitch => index_mmap_switch env (true, true) (true, true) (λ _, (true, true)) (λ _, (true, true)) f
  | FRestart full =>
      d ← index_field_release env f;
      r ← index_field_init env true d (if_type f) (if_limit f) (compress_num f) full;
      match r with NULL => None | Ptr f => Some (0, f) end
  | FCompress => index_field_compress env f
  | FSwitch => index_field_switch f
  end.

(** The return codes of a sequence of steps and the field it leaves. *)
Fixpoint field_run (f : index_field_manager) (ops : list field_op) : option (list Z * index_field_manager) :=
  match ops with
  | [] => Some ([], f)
  | op :: ops =>
      '(rc, f) ← field_step f op;
      '(rcs, f) ← field_run f ops;
      Some (rc :: rcs, f)
  end.
End steps.

(** ** The specification of a hash field

    [live]: the documents with the keys they were inserted with; [built]: those
    the compressed form was built from, until it replaces the index; [packed]:
    whether it has. *)
Record hash_field := HashField { live : list (Z * option Z); built : option (list (Z * option Z)); packed : bool }.

Section spec.
Context (get_hash_value : low_data_struct → Z) (nh : Z) `{!HashLaws get_hash_value nh}.
Implicit Types (s : hash_field).

Definition hash_spec s (op : field_op) : Z * hash_field :=
  if packed s then
    match op with
    | FInsert _ _ => (ERROR_INDEX_FIELD_COMPRESSED, s)
    | FCompress => (ERROR_NOT_NEED_COMPRESS, s)
    | FSwitch => (ERROR_FIELD_NOT_WORK, s)
    | _ => (0, s)
    end
  else
    match op with
    | FInsert d data => (0, HashField ((d, key_of get_hash_value data) :: live s) (built s) false)
    | FRecover d => (0, HashField (key_before d (live s)) (built s) false)
    | FCheckpoint | FMmapSwitch => (0, s)
    | FRestart _ => (0, HashField (live s) None false)
    | FCompress => (0, HashField (live s) (Some (live s)) false)
    | FSwitch =>
        match built s with
        | None => (ERROR_COMMPRESS_FAIL, s)
        | Some kh => (0, HashField kh None true)
        end
    end.

Fixpoint hash_spec_run s (ops : list field_op) : list Z * hash_field :=
  match ops with
  | [] => ([], s)
  | op :: ops =>
      let '(rc, s) := hash_spec s op in
      let '(rcs, s) := hash_spec_run s ops in
      (rc :: rcs, s)
  end.

(** Documents come in ascending order with a hash that is neither 0 nor that of
    null. *)
Definition field_op_ok (N : Z) s (op : field_op) : Prop :=
  match op with
  | FInsert d data =>
      packed s = false →
      HashIndexSpec.op_ok get_hash_value N (live s) (Insert d data) ∧ key_of get_hash_value data ≠ Some nh
  | FRecover d => 0 ≤ d ≤ N
  | _ => True
  end.

Fixpoint field_ops_ok (N : Z) s (ops : list field_op) : Prop :=
  match ops with
  | [] => True
  | op :: ops => field_op_ok N s op ∧ field_ops_ok N (snd (hash_spec s op)) ops
  end.

(** ** The relation between a field and its specification *)

(** [c], and its files, hold the documents [kh]. *)
Definition packs (N : Z) (kh : list (Z * option Z)) (c : hash_compress_manager) (fs : compress_files) : Prop :=
  desc kh.*1 ∧ (∀ d, d ∈ kh.*1 → 0 ≤ d < N) ∧ Some nh ∉ kh.*2 ∧
  ∃ h slot hv bs, index_inv nh N kh slot hv h ∧ compressed hv (bdocs kh slot) bs c fs ∧
    (∀ b, b ∈ bs ↔ 0 ≤ b ≤ N ∧ hv b ≠ 0) ∧ NoDup bs ∧ StronglySorted (λ x y, hv x ≤ hv y) bs.

Lemma packs_query N kh c fs data :
  packs N kh c fs → 16 * (N + 1) < 2 ^ 31 → key_of get_hash_value data ≠ Some nh →
  ∃ r, hash_compress_query get_hash_value c data = Some r ∧ rows_ok N r ∧
    ids r = docs_of kh (key_of get_hash_value data).
Proof.
  intros (Hd & Hr & Hnull & h & slot & hv & bs & Hinv & Hcp & Hbs & Hnd & Hs) Hmax Hk.
  destruct (lookup_compressed get_hash_value nh N kh slot hv h Hinv Hmax bs c fs data)
    as (l & Hq & Ht & He); try done.
  exists (Ptr l). split; [done|]. split; [by eapply tight_rows|done].
Qed.

Lemma packs_reopen N kh c fs num :
  packs N kh c fs → 16 * (N + 1) < 2 ^ 31 →
  ∃ c', hash_commpress_init all_io fs N num = Some (Ptr c', fs) ∧ packs N kh c' fs.
Proof.
  intros (Hd & Hr & Hnull & h & slot & hv & bs & Hinv & Hcp & Hbs & Hnd & Hs) Hmax.
  destruct (reopen_compressed get_hash_value nh N kh slot hv h Hinv Hmax bs c fs num Hcp Hbs Hnd)
    as (c' & Hc' & Hcp').
  exists c'. split; [done|]. split; [done|]. split; [done|]. split; [done|]. by exists h, slot, hv, bs.
Qed.

Lemma packs_load qsort `{!QsortLaws qsort} N kh h fs0 num :
  represents nh N kh h → limit h = N → 16 * (N + 1) < 2 ^ 31 → Some nh ∉ kh.*2 →
  ∃ c fs, hash_compress_load qsort all_io fs0 (Ptr h) num = Some (Ptr c, fs) ∧ packs N kh c fs.
Proof.
  intros Hrep Hlim Hmax Hnull. destruct (represents_docs _ _ _ _ Hrep) as [Hd Hr].
  destruct Hrep as (_ & slot & hv & Hinv).
  destruct (load_compressed qsort get_hash_value nh N kh slot hv h Hinv Hlim Hmax fs0 num)
    as (bs & c & fs & Hl & Hbs & Hnd & Hs & Hcp).
  exists c, fs. split; [done|]. split; [done|]. split; [done|]. split; [done|]. by exists h, slot, hv, bs.
Qed.

(** [f] is a hash field of [N] rows in the state [s]. *)
Definition field_rep (N : Z) s (f : index_field_manager) : Prop :=
  if_type f = HI_KEY_ALG_HASH ∧ if_limit f = N ∧ Some nh ∉ (live s).*2 ∧
  ∃ w, flag f = Some w ∧ compress_bit w = packed s ∧
    if packed s then
      ∃ c, hash_compress f = Some c ∧ packs N (live s) c (hcompress_files (disk f))
    else
      ∃ h, hash_index f = Some h ∧ limit h = N ∧ represents nh N (live s) h ∧
        match built s with
        | None => hash_compress f = None
        | Some kh => ∃ c, hash_compress f = Some c ∧ packs N kh c (hcompress_files (disk f))
        end.

Lemma is_compressed_flag f w : flag f = Some w → is_compressed f = compress_bit w.
Proof. unfold is_compressed. by intros ->. Qed.

Lemma compress_bit_lor w : compress_bit (Z.lor w INDEX_FIELD_COMPRESS) = true.
Proof.
  unfold compress_bit, INDEX_FIELD_COMPRESS. rewrite Z.land_lor_distr_l, Z.land_diag.
  destruct (Z.eqb_spec (Z.lor (Z.land w 1) 1) 0) as [E|]; [|done].
  apply Z.lor_eq_0_iff in E. lia.
Qed.

(** *** The steps *)

Section preserved.
Context (shared : bool) (junk : Z) (qsort : (Z → Z → Z) → list Z → list Z) `{!QsortLaws qsort}.
Context (N : Z) (HN : 0 < N) (Hmax : 16 * (N + 1) < 2 ^ 31).
Let env := calm shared junk qsort.

Lemma init_rep full num :
  ∃ f, index_field_init env true no_files HI_KEY_ALG_HASH N num full = Some (Ptr f) ∧
    field_rep N (HashField [] None false) f.
Proof.
  destruct (hash_index_init_empty nh shared N full HN ltac:(lia)) as (h & Hh & Hrep).
  unfold index_field_init. simpl negb. cbv iota. cbn [io_stat env calm stat_file no_files].
  change (map_word true []) with (Some 0). cbn [mbind option_bind]. change (compress_bit 0) with false. cbv iota.
  cbn [all_mmap io_hash io_doclist env calm hash_file doclist_file no_files]. rewrite Hh. cbn [mbind option_bind].
  eexists. split; [done|]. split; [done|]. split; [done|]. split; [apply not_elem_of_nil|].
  exists 0. split; [done|]. split; [done|]. cbn. exists h. split; [done|]. split; [|done].
  by apply init_limit in Hh.
Qed.

Lemma step_packed s f op :
  packed s = true → (∀ full, op ≠ FRestart full) → field_rep N s f →
  ∃ f', field_step env get_hash_value f op = Some (fst (hash_spec s op), f') ∧
    field_rep N (snd (hash_spec s op)) f'.
Proof.
  intros Hp Hop Hrep. pose proof Hrep as (Ht & Hl & Hn & w & Hw & Hb & _). rewrite Hp in Hb.
  pose proof (is_compressed_flag f w Hw) as Hic. rewrite Hb in Hic.
  unfold hash_spec. rewrite Hp.
  destruct op; cbn [field_step fst snd]; unfold index_field_insert, index_field_recover, index_field_checkpoint,
    index_mmap_switch, index_field_compress, index_field_switch; rewrite ?Hic, ?Ht, ?Hw; cbn [mbind option_bind];
    rewrite ?Hb; try (by exists f). by destruct (Hop full).
Qed.

(** A field that still uses its hash index. *)
Lemma live_rep s f w h :
  packed s = false → if_type f = HI_KEY_ALG_HASH → if_limit f = N → Some nh ∉ (live s).*2 →
  flag f = Some w → compress_bit w = false → hash_index f = Some h → limit h = N → represents nh N (live s) h →
  match built s with
  | None => hash_compress f = None
  | Some kh => ∃ c, hash_compress f = Some c ∧ packs N kh c (hcompress_files (disk f))
  end → field_rep N s f.
Proof. intros Hp Ht Hl Hn Hw Hb Hh Hlh Hr Hbt. do 3 (split; [done|]). exists w. rewrite Hp. eauto 10. Qed.

(** What a field leaves on disk opens as the same field. *)
Lemma reopen_field s f :
  field_rep N s f →
  ∃ d, index_field_release env f = Some d ∧
    ∀ num full, ∃ f', index_field_init env true d HI_KEY_ALG_HASH N num full = Some (Ptr f') ∧
      field_rep N (snd (hash_spec s (FRestart full))) f'.
Proof.
  intros (Ht & Hl & Hn & w & Hw & Hb & Hrest). unfold index_field_release. rewrite Ht, Hw. cbn [mbind option_bind].
  unfold hash_spec. rewrite Hb. destruct (packed s) eqn:Hp.
  - destruct Hrest as (c & Hc & Hpack). eexists. split; [done|]. intros num full.
    unfold index_field_init. simpl negb. cbv iota. cbn [io_stat io_hcompress hcompress_files env calm stat_file].
    rewrite map_word_again. cbn [mbind option_bind]. rewrite Hb.
    destruct (packs_reopen N (live s) c _ num Hpack Hmax) as (c' & -> & Hpack'). cbn [mbind option_bind].
    eexists. split; [done|]. do 3 (split; [done|]). exists w. cbn [snd]. rewrite Hp.
    split; [done|]. split; [done|]. by exists c'.
  - destruct Hrest as (h & Hh & _ & Hr & _). rewrite Hh. cbn [mbind option_bind io_hash io_doclist all_mmap env calm].
    pose proof (λ full, restart_spec shared full nh N (live s) h Hr ltac:(lia)) as Hre. unfold hash_index_restart in Hre.
    rewrite (represents_mod _ _ _ _ Hr) in Hre. destruct (hash_index_release shared true true h) as [hf df].
    eexists. split; [done|]. intros num full. destruct (Hre full) as (h' & Hi & Hr').
    unfold index_field_init. simpl negb. cbv iota.
    cbn [io_stat io_hash io_doclist all_mmap env calm stat_file hash_file doclist_file].
    rewrite map_word_again. cbn [mbind option_bind]. rewrite Hb, Hi. cbn [mbind option_bind].
    eexists. split; [done|]. eapply (live_rep _ _ w h'); try done. by apply init_limit in Hi.
Qed.

Lemma restart_step s f full :
  field_rep N s f →
  ∃ f', field_step env get_hash_value f (FRestart full) = Some (fst (hash_spec s (FRestart full)), f') ∧
    field_rep N (snd (hash_spec s (FRestart full))) f'.
Proof.
  intros Hrep. pose proof Hrep as (Ht & Hl & _). destruct (reopen_field s f Hrep) as (d & Hd & Hre).
  destruct (Hre (compress_num f) full) as (f' & Hf & Hrep'). exists f'. split; [|done].
  cbn [field_step]. rewrite Hd. cbn [mbind option_bind]. rewrite Ht, Hl, Hf. unfold hash_spec. by destruct (packed s).
Qed.

Section live_steps.
Context (s : hash_field) (f : index_field_manager) (w : Z) (h : hash_index_manager).
Context (Hp : packed s = false) (Ht : if_type f = HI_KEY_ALG_HASH) (Hl : if_limit f = N).
Context (Hn : Some nh ∉ (live s).*2) (Hw : flag f = Some w) (Hb : compress_bit w = false).
Context (Hh : hash_index f = Some h) (Hlh : limit h = N) (Hr : represents nh N (live s) h).
Context (Hbt : match built s with
               | None => hash_compress f = None
               | Some kh => ∃ c, hash_compress f = Some c ∧ packs N kh c (hcompress_files (disk f))
               end).

(** The step [op] does what the specification says. *)
Definition step_ok (op : field_op) : Prop :=
  ∃ f', field_step env get_hash_value f op = Some (fst (hash_spec s op), f') ∧
    field_rep N (snd (hash_spec s op)) f'.

Ltac start := unfold step_ok, hash_spec; rewrite Hp; cbn [fst snd field_step].

Lemma insert_live d data : field_op_ok N s (FInsert d data) → step_ok (FInsert d data).
Proof.
  start. intros [Hop Hk]; [done|].
  destruct (insert_represents get_hash_value nh N (live s) h data d Hr Hop) as (h' & Hins & Hr').
  unfold index_field_insert. rewrite (is_compressed_flag f w Hw), Hb, Ht, Hh. cbn [mbind option_bind]. rewrite Hins.
  cbn [mbind option_bind]. eexists. split; [done|]. apply insert_limit in Hins.
  eapply (live_rep _ _ w h'); try done; [|congruence]. cbn [live]. rewrite fmap_cons. by apply not_elem_of_cons.
Qed.

Lemma recover_live d : 0 ≤ d ≤ N → step_ok (FRecover d).
Proof.
  start. intros Hd. destruct (recover_represents nh N (live s) h d Hr Hd) as (h' & Hrec & Hr').
  unfold index_field_recover. rewrite (is_compressed_flag f w Hw), Hb, Ht, Hh. cbn [mbind option_bind]. rewrite Hrec.
  cbn [mbind option_bind]. eexists. split; [done|]. apply recover_limit in Hrec.
  eapply (live_rep _ _ w h'); try done; [|congruence]. cbn [live]. by intros ?%key_before_snd.
Qed.

Lemma checkpoint_live : step_ok FCheckpoint.
Proof.
  start. unfold index_field_checkpoint. rewrite (is_compressed_flag f w Hw), Hb, Ht, Hh. cbn [mbind option_bind].
  eexists. split; [done|]. eapply (live_rep _ _ w); try done; [|by apply checkpoint_represents].
  rewrite <- Hlh. unfold hash_index_checkpoint. repeat case_match; done.
Qed.

Lemma mmap_switch_live : step_ok FMmapSwitch.
Proof.
  start. destruct (switch_spec shared nh N (live s) h Hr) as (h' & Hsw & Hr').
  unfold index_mmap_switch. rewrite Ht, Hw. cbn [mbind option_bind]. rewrite Hb, Hh.
  cbn [mbind option_bind fst snd all_mmap env calm]. rewrite Hsw. eexists. split; [done|].
  apply switch_limit in Hsw. eapply (live_rep _ _ w h'); try done. congruence.
Qed.

Lemma compress_live : step_ok FCompress.
Proof.
  start. unfold index_field_compress. rewrite Ht, Hw. cbn [mbind option_bind]. rewrite Hb, Hh.
  cbn [option_ptr qsort_fn io_hcompress env calm].
  destruct (packs_load qsort N (live s) h (hcompress_files (disk f)) (compress_num f) Hr Hlh Hmax Hn)
    as (c & fs & -> & Hpack). cbn [mbind option_bind ptr_option].
  eexists. split; [done|]. eapply (live_rep _ _ w h); try done. cbn [built]. by exists c.
Qed.

Lemma switch_live : step_ok FSwitch.
Proof.
  start. unfold index_field_switch. rewrite Ht, Hw. cbn [mbind option_bind]. rewrite Hb.
  destruct (built s) as [kh|] eqn:Eb.
  - destruct Hbt as (c & Hc & Hpack). rewrite Hc. eexists. split; [done|]. split; [done|]. split; [done|].
    split; [apply Hpack|]. eexists. split; [done|]. cbn [packed]. split; [apply compress_bit_lor|]. by exists c.
  - rewrite Hbt. exists f. split; [done|]. apply (live_rep s f w h); try done. by rewrite Eb.
Qed.
End live_steps.

Lemma step_spec s f op :
  field_op_ok N s op → field_rep N s f →
  ∃ f', field_step env get_hash_value f op = Some (fst (hash_spec s op), f') ∧
    field_rep N (snd (hash_spec s op)) f'.
Proof.
  intros Hok Hrep. destruct (packed s) eqn:Hp.
  { destruct op; try (by apply step_packed); by apply restart_step. }
  pose proof Hrep as (Ht & Hl & Hn & w & Hw & Hb & Hrest). rewrite Hp in Hb, Hrest.
  destruct Hrest as (h & Hh & Hlh & Hr & Hbt). destruct op.
  - by eapply insert_live.
  - by eapply recover_live.
  - by eapply checkpoint_live.
  - by eapply mmap_switch_live.
  - by apply restart_step.
  - by eapply compress_live.
  - by eapply switch_live.
Qed.

Lemma field_run_spec s f ops :
  field_ops_ok N s ops → field_rep N s f →
  ∃ f', field_run env get_hash_value f ops = Some (fst (hash_spec_run s ops), f') ∧
    field_rep N (snd (hash_spec_run s ops)) f'.
Proof.
  revert s f. induction ops as [|op ops IH]; intros s f Hok Hrep; [by exists f|].
  destruct Hok as [Hop Hok]. destruct (step_spec s f op Hop Hrep) as (f1 & H1 & Hrep1).
  cbn [field_run hash_spec_run]. rewrite H1. cbn [mbind option_bind].
  destruct (hash_spec s op) as [rc s1]. cbn [fst snd] in *.
  destruct (IH s1 f1 Hok Hrep1) as (f2 & H2 & Hrep2). rewrite H2. cbn [mbind option_bind].
  destruct (hash_spec_run s1 ops). by exists f2.
Qed.

Lemma equal_query_spec s f data :
  field_rep N s f → key_of get_hash_value data ≠ Some nh →
  ∃ r, index_field_equal_query get_hash_value (Ptr f) data = Some r ∧ rows_ok N r ∧
    ids r = docs_of (live s) (key_of get_hash_value data).
Proof.
  intros (Ht & Hl & Hn & w & Hw & Hb & Hrest) Hk. unfold index_field_equal_query.
  rewrite Ht, Hw. cbn [mbind option_bind]. rewrite Hb. destruct (packed s).
  - destruct Hrest as (c & -> & Hpack). cbn [mbind option_bind]. by eapply packs_query.
  - destruct Hrest as (h & -> & _ & Hr & _). cbn [mbind option_bind]. by apply (query_represents get_hash_value nh).
Qed.
End preserved.
End spec.

(** C16: the life of a hash field.  A field over an empty directory, put through any
    sequence of insertions (ascending ids, hashes other than 0 and null's),
    recoveries, checkpoints, moves to shared memory, restarts, compressions and
    switches to the compressed form, returns at each step the code that the
    specification gives, never touches memory out of bounds, and then answers
    each lookup with exactly the documents of the specification: those inserted
    and not recovered, or, once the compressed form is in use, those that were
    there when it was built. *)
Theorem hash_field_refines get_hash_value nh `{!HashLaws get_hash_value nh} qsort `{!QsortLaws qsort}
    shared junk N num full ops data :
  0 < N → 16 * (N + 1) < 2 ^ 31 → field_ops_ok get_hash_value nh N (HashField [] None false) ops →
  key_of get_hash_value data ≠ Some nh →
  let env := calm shared junk qsort in
  let '(rcs, s) := hash_spec_run get_hash_value (HashField [] None false) ops in
  ∃ f0 f r, index_field_init env true no_files HI_KEY_ALG_HASH N num full = Some (Ptr f0) ∧
    field_run env get_hash_value f0 ops = Some (rcs, f) ∧
    index_field_equal_query get_hash_value (Ptr f) data = Some r ∧ rows_ok N r ∧
    ids r = docs_of (live s) (key_of get_hash_value data).
Proof.
  intros HN Hmax Hok Hk env.
  destruct (init_rep nh shared junk qsort N HN Hmax full num) as (f0 & H0 & Hrep0).
  destruct (field_run_spec get_hash_value nh shared junk qsort N Hmax _ f0 ops Hok Hrep0) as (f & Hf & Hrep).
  destruct (hash_spec_run get_hash_value _ ops) as [rcs s]. cbn [fst snd] in *.
  destruct (equal_query_spec get_hash_value nh N Hmax s f data Hrep Hk) as (r & Hq & Hrows & Hids).
  by exists f0, f, r.
Qed.

(** Document 4 comes after the compressed form was built: the switch drops it. *)
Definition demo_life : list field_op :=
  [FInsert 0 (byte_value 3); FInsert 1 (byte_value 8); FCheckpoint; FRestart false; FInsert 2 (byte_value 3);
   FSwitch; FInsert 3 (byte_value 9); FRecover 3; FCompress; FInsert 4 (byte_value 3); FSwitch;
   FInsert 4 (byte_value 3); FRestart true; FCompress].

Lemma demo_life_ok : field_ops_ok demo_hash 77 5 (HashField [] None false) demo_life.
Proof.
  repeat refine (conj _ _); cbn [field_op_ok demo_life]; try done; try lia.
  all: intros Hp; try (vm_compute in Hp; discriminate); split; [split; [lia|split]|vm_compute; discriminate].
  all: try (intros _; vm_compute; discriminate).
  all: vm_compute; intros x Hx; set_unfold; naive_solver lia.
Qed.

Lemma hash_field_refines_witness :
  let env := calm false 0 merge_qsort in
  ∃ f0 f r, index_field_init env true no_files HI_KEY_ALG_HASH 5 10 false = Some (Ptr f0) ∧
    field_run env demo_hash f0 demo_life =
      Some ([0; 0; 0; 0; 0; ERROR_COMMPRESS_FAIL; 0; 0; 0; 0; 0; ERROR_INDEX_FIELD_COMPRESSED; 0;
             ERROR_NOT_NEED_COMPRESS], f) ∧
    index_field_equal_query demo_hash (Ptr f) (byte_value 3) = Some r ∧ ids r = [2; 0].
Proof.
  pose proof (hash_field_refines demo_hash 77 (HashLaws0:=demo_hash_laws) merge_qsort (QsortLaws0:=merge_qsort_laws)
    false 0 5 10 false demo_life (byte_value 3) ltac:(lia) ltac:(lia) demo_life_ok ltac:(vm_compute; discriminate)) as H.
  assert (hash_spec_run demo_hash (HashField [] None false) demo_life =
    ([0; 0; 0; 0; 0; ERROR_COMMPRESS_FAIL; 0; 0; 0; 0; 0; ERROR_INDEX_FIELD_COMPRESSED; 0; ERROR_NOT_NEED_COMPRESS],
     HashField [(2, Some 3); (1, Some 8); (0, Some 3)] None true)) as E by (vm_compute; reflexivity).
  rewrite E in H. destruct H as (f0 & f & r & H0 & Hf & Hq & _ & Hids).
  exists f0, f, r. split; [exact H0|]. split; [exact Hf|]. split; [exact Hq|]. exact Hids.
Defined.

(** A full-text index cannot be compressed.  Its [flag] stays NULL, and
    [index_field_compress] and [index_field_switch] read it before they look at
    the type: instead of the code for an unsupported type there is an access
    through NULL. *)
Theorem fulltext_compress_crashes env d N num full f :
  index_field_init env true d HI_KEY_ALG_FULLTEXT N num full = Some (Ptr f) →
  index_field_compress env f = None ∧ index_field_switch f = None.
Proof.
  unfold index_field_init. simpl negb. cbv iota. destruct (dyhash_index_init _ _ _ _ _ _) as [[|dy]|]; [done| |done].
  cbn [mbind option_bind]. intros [= <-]. done.
Qed.

Lemma fulltext_compress_crashes_witness :
  ∃ f, index_field_init (calm false 0 merge_qsort) true no_files HI_KEY_ALG_FULLTEXT 5 10 false = Some (Ptr f) ∧
    index_field_compress (calm false 0 merge_qsort) f = None ∧ index_field_switch f = None.
Proof.
  eexists. split; [vm_compute; reflexivity|].
  apply (fulltext_compress_crashes (calm false 0 merge_qsort) no_files 5 10 false). vm_compute. reflexivity.
Defined.
