(* ===== verification/FilterFieldSpec.v ===== *)
(** * What a filter field promises

    The cells of a filter field are 8 bytes wide; shorter numbers are stored in
    the first bytes of a blank cell, strings by their hash.  The field remembers
    the widest value inserted, and its compressed form keeps as many bytes of
    every value. *)

From Stdlib Require Import ZArith Lia.
From stdpp Require Import base option list numbers.
From S2P Require Import Prelude FileOp Doclist Bitmark RowidList LowData HashIndex HashIndexSpec VStorage Storage HashMemCompress DynHash Column FilterIndex FilterCompress FilterCompressSpec IndexField IndexFieldSpec.

(** ** Cells written in part *)

Notation is_byte := (λ b : Z, 0 ≤ b < 256).

(** Copying a prefix of a slice is copying the slice with its old tail. *)
Lemma zcopy_extend {A} (m c src : list A) off n :
  zsub m off n = Some c → zlen src ≤ n →
  zcopy m off src = zcopy m off (src ++ drop (length src) c).
Proof.
  unfold zsub. case_decide as H; [|done]. intros [= <-] Hs. unfold zcopy, zlen in *.
  rewrite !length_app, length_drop, length_take, length_drop.
  rewrite !decide_True by lia. do 2 f_equal. rewrite <- app_assoc. f_equal.
  replace (Z.to_nat off + (length src + (Z.to_nat n `min` (length m - Z.to_nat off) - length src)))%nat
    with (Z.to_nat off + Z.to_nat n)%nat by lia.
  rewrite <- !drop_drop. set (x := drop (Z.to_nat off) m).
  rewrite <- (take_drop (Z.to_nat n) x) at 1. apply drop_app_le.
  subst x. rewrite length_take, length_drop. lia.
Qed.

Lemma zcopy_bytes (m m' src : list Z) off :
  zcopy m off src = Some m' → Forall is_byte m → Forall is_byte src → Forall is_byte m'.
Proof.
  unfold zcopy. case_decide; [|done]. intros [= <-] Hm Hs.
  apply Forall_app_2; [by apply Forall_take|]. apply Forall_app_2; [done|by apply Forall_drop].
Qed.

Lemma le_bytes_bytes n z : Forall is_byte (le_bytes n z).
Proof. revert z. induction n as [|n IH]; intros z; simpl; constructor; [by apply Z.mod_pos_bound|done]. Qed.

Lemma le_value_zeros n : le_value (replicate n 0) = 0.
Proof. induction n as [|n IH]; [done|]. simpl. lia. Qed.

Lemma le_value_app bs n : le_value (bs ++ replicate n 0) = le_value bs.
Proof. induction bs as [|b bs IH]; simpl; [apply le_value_zeros|lia]. Qed.

Section cells.
Context (st : storage_manager bitmark_manager) (Hwf : storage_wf st).

(** A store that changed row [d] only. *)
Definition changed (st' : storage_manager bitmark_manager) (d : Z) : Prop :=
  storage_wf st' ∧ value_size st' = value_size st ∧ st_row_limit st' = st_row_limit st ∧
  (∀ e, 0 ≤ e < st_row_limit st → e ≠ d → cell st' e = cell st e ∧ contents st' e = contents st e).

Lemma set_cells_changed m bm d :
  zlen m = zlen (st_mem st) → ms_wf bm → ms_limit bm = ms_limit (null_bitmark st) →
  (∀ e, e ≠ d → ms_bit bm e = ms_bit (null_bitmark st) e) →
  (∀ e, 0 ≤ e < st_row_limit st → e ≠ d → cell (set_cells st m bm) e = cell st e) →
  changed (set_cells st m bm) d.
Proof.
  intros Hm Hbw Hbl Hb Hc. split; [by apply set_cells_wf|]. split; [done|]. split; [done|]. intros e He Hne.
  split; [by apply Hc|]. unfold contents. cbn [set_cells null_bitmark]. rewrite Hb by done. by rewrite Hc.
Qed.

Lemma insert_cells v d :
  0 ≤ d < st_row_limit st → 0 ≤ len v ≤ value_size st → zlen (data v) = len v →
  ∃ st', storage_insert st v d = Some (0, st') ∧ changed st' d ∧
    contents st' d = (if len v =? 0 then contents st d else Some (data v ++ drop (length (data v)) (cell st d))) ∧
    (Forall is_byte (data v) → Forall is_byte (st_mem st) → Forall is_byte (st_mem st')).
Proof.
  intros Hd Hl Hz. unfold storage_insert. destruct (Z.eqb_spec (len v) 0) as [E|E]; simpl negb; cbv iota.
  { exists st. split_and!; done. }
  destruct (cell_bounds st d Hwf Hd) as (Hb1 & Hb2 & Eu & _).
  destruct (ms_set_ok (null_bitmark st) d) as (bm & -> & Hbw & Hbl & Hb); [destruct Hwf; done || lia..|].
  cbn [mbind option_bind]. rewrite zsub_all by done. cbn [mbind option_bind]. rewrite Eu.
  pose proof (cell_zsub st d Hwf Hd) as Hcell.
  assert (zlen (cell st d) = value_size st) as Hlc.
  { destruct (zsub_spec (st_mem st) (value_size st * d) (value_size st)) as (c & Hc & Hlc & _);
      [lia|lia|destruct Hwf; lia|]. congruence. }
  set (new := data v ++ drop (length (data v)) (cell st d)).
  assert (zlen new = value_size st) as Hln.
  { unfold new, zlen in *. rewrite length_app, length_drop. lia. }
  destruct (copy_cell st d new Hwf Hd Hln) as (m & Hm & Hlm & Hc).
  unfold new in Hm. rewrite <- (zcopy_extend _ _ (data v) _ _ Hcell) in Hm by lia. rewrite Hm.
  cbn [mbind option_bind]. eexists. split; [done|]. split.
  - apply set_cells_changed; try done.
    + intros e Hne. rewrite Hb, (proj2 (Z.eqb_neq e d)) by done. by rewrite orb_false_r.
    + intros e He Hne. by rewrite Hc, decide_False.
  - split; [|intros; by eapply zcopy_bytes]. unfold contents. cbn [set_cells null_bitmark].
    rewrite Hb, Z.eqb_refl, orb_true_r. rewrite Hc, decide_True by done. done.
Qed.

Lemma update_cells v d :
  0 ≤ d < st_row_limit st → (len v ≠ 0 → fits st v) →
  ∃ st' old, storage_update st v d = Some (0, old, st') ∧ changed st' d ∧
    contents st' d = (if len v =? 0 then None else Some (data v)) ∧
    ((len v ≠ 0 → Forall is_byte (data v)) → Forall is_byte (st_mem st) → Forall is_byte (st_mem st')).
Proof.
  intros Hd Hf. unfold storage_update. rewrite (storage_query_spec st d Hwf Hd). cbn [mbind option_bind].
  destruct (cell_bounds st d Hwf Hd) as (_ & _ & _ & Eu). destruct (Z.eqb_spec (len v) 0) as [E|E].
  - destruct (ms_clear_ok (null_bitmark st) d) as (bm & -> & Hbw & Hbl & Hb); [destruct Hwf; done || lia..|].
    cbn [mbind option_bind]. eexists _, _. split; [done|]. split.
    + apply set_cells_changed; try done.
      intros e Hne. rewrite Hb, (proj2 (Z.eqb_neq e d)) by done. by rewrite andb_true_r.
    + split; [|done]. unfold contents. cbn [set_cells null_bitmark]. rewrite Hb, Z.eqb_refl. simpl. by rewrite andb_false_r.
  - destruct (Hf E) as [Hl Hz]. rewrite zsub_all by congruence. cbn [mbind option_bind]. rewrite Eu.
    destruct (copy_cell st d (data v) Hwf Hd) as (m & Hm & Hlm & Hc); [lia|]. rewrite Hm. cbn [mbind option_bind].
    destruct (ms_set_ok (null_bitmark st) d) as (bm & -> & Hbw & Hbl & Hb); [destruct Hwf; done || lia..|].
    cbn [mbind option_bind]. eexists _, _. split; [done|]. split.
    + apply set_cells_changed; try done.
      * intros e Hne. rewrite Hb, (proj2 (Z.eqb_neq e d)) by done. by rewrite orb_false_r.
      * intros e He Hne. by rewrite Hc, decide_False.
    + split; [|intros Hbv ?; eapply zcopy_bytes; [done|done|by apply Hbv]]. unfold contents.
      cbn [set_cells null_bitmark]. rewrite Hb, Z.eqb_refl, orb_true_r. rewrite Hc, decide_True by done. done.
Qed.

Lemma zero_cells (st' : storage_manager bitmark_manager) d e :
  value_size st' = value_size st → 0 ≤ d → value_size st * (e + 1) ≤ zlen (st_mem st') → d ≤ e →
  (∀ i, value_size st * d ≤ i < zlen (st_mem st') → (st_mem st')⟦i⟧ = Some 0) →
  cell st' e = replicate (Z.to_nat (value_size st)) 0.
Proof.
  intros Hv Hd He Hde Hz. destruct Hwf as [Hs _ _ _ _ _]. unfold cell. rewrite Hv.
  apply list_eq. intros i. destruct (decide (i < Z.to_nat (value_size st))%nat) as [Hi|Hi].
  - rewrite lookup_take_lt, lookup_drop by lia. rewrite lookup_replicate_2 by done.
    assert (Z.of_nat i < value_size st) by lia. rewrite Z.mul_add_distr_l in He.
    assert (value_size st * d ≤ value_size st * e) by nia. assert (0 ≤ value_size st * d) by nia.
    specialize (Hz (value_size st * e + Z.of_nat i)). rewrite zget_lookup in Hz by lia.
    rewrite <- Hz by lia. f_equal. lia.
  - rewrite lookup_take_ge by lia. symmetry. apply lookup_replicate_None. lia.
Qed.

Lemma recover_cells d :
  0 ≤ d < st_row_limit st →
  ∃ st', storage_recover st d = Some (0, st') ∧ storage_wf st' ∧
    value_size st' = value_size st ∧ st_row_limit st' = st_row_limit st ∧
    (∀ e, 0 ≤ e < st_row_limit st →
      contents st' e = (if decide (e < d) then contents st e else None) ∧
      cell st' e = if decide (e < d) then cell st e else replicate (Z.to_nat (value_size st)) 0) ∧
    (Forall is_byte (st_mem st) → Forall is_byte (st_mem st')).
Proof.
  intros Hd. destruct (storage_recover_spec st d Hwf Hd) as (st' & Hr & Hw' & Hv & Hl & Hc).
  exists st'. split; [done|]. split; [done|]. split; [done|]. split; [done|].
  destruct (cell_bounds st d Hwf Hd) as (Hb1 & Hb2 & Eu & _). pose proof Hwf as [Hvs ? Hfit Hmem ? ?].
  unfold storage_recover in Hr. rewrite Z.geb_leb, (proj2 (Z.leb_gt _ _)) in Hr by lia.
  destruct (ms_recover_ok (null_bitmark st) d) as (bm & Hbm & _); [done|lia|]. rewrite Hbm in Hr.
  cbn [mbind option_bind] in Hr. simpl negb in Hr. cbv iota in Hr. rewrite Eu in Hr.
  rewrite (u32_small (st_row_limit st - d)), (u32_small (_ * value_size st)) in Hr by nia.
  destruct (zfill_spec (st_mem st) (value_size st * d) ((st_row_limit st - d) * value_size st) 0)
    as (m & Hm & Hlm & Hget); [nia..|]. rewrite Hm in Hr. cbn [mbind option_bind] in Hr. injection Hr as <-.
  split.
  - intros e He. split; [by apply Hc|]. case_decide.
    + apply cell_ext; try done. intros i Hi. cbn [set_cells st_mem]. rewrite Hget. rewrite decide_False; [done|]. nia.
    + apply (zero_cells _ d); cbn [set_cells st_mem value_size]; try lia; [nia|].
      intros i Hi. rewrite Hget. by rewrite decide_True by nia.
  - cbn [set_cells st_mem]. unfold zfill in Hm. case_decide; [|done]. injection Hm as <-. intros Hf.
    apply Forall_app_2; [by apply Forall_take|]. apply Forall_app_2; [|by apply Forall_drop].
    by apply Forall_replicate.
Qed.

(** The files of a column open as the same column. *)
Lemma open_again (d : field_files) f :
  st_row_limit st * value_size st < 2 ^ 31 →
  cells_file d = storage_checkpoint st f → mark_file d = mem_mmaped (null_bitmark st) →
  open_cells true d (value_size st) (st_row_limit st) = Some st.
Proof.
  intros Hmax Ec Em. destruct Hwf as [Hvs Hl Hfit Hmem Hmark Hml].
  change (row_limit (null_bitmark st) = st_row_limit st) in Hml.
  unfold open_cells, storage_init. rewrite Ec, Em, <- Hml. unfold storage_checkpoint.
  rewrite bitmark_init_again by (done || nia). cbn [fst mbind option_bind]. rewrite Hml, u32_small, <- Hmem by lia.
  rewrite get_mmap_again by (rewrite ?Hmem; nia). cbn [fst mbind option_bind]. by destruct st.
Qed.
End cells.

(** ** The specification of a filter field

    [column]: the 8-byte cell of each row that is not null; [rows]: rows from
    here on were never written; [width]: the widest value inserted. *)
Record filter_field := FilterField { column : Z → option (list Z); rows : Z; width : Z }.

Inductive column_op :=
| CInsert (docid : Z) (data : low_data_struct)
| CUpdate (docid : Z) (data : low_data_struct)
| CRecover (docid : Z)
| CCheckpoint
| CRestart (full : bool).

Section column_steps.
Context (env : field_env) (get_hash_value : low_data_struct → Z).

Definition column_step (f : index_field_manager) (op : column_op) : option (Z * index_field_manager) :=
  match op with
  | CInsert docid data => index_field_insert env get_hash_value f data docid
  | CUpdate docid data => '(rc, _, f) ← index_field_update get_hash_value f data docid; Some (rc, f)
  | CRecover docid => field_step env get_hash_value f (FRecover docid)
  | CCheckpoint => field_step env get_hash_value f FCheckpoint
  | CRestart full => field_step env get_hash_value f (FRestart full)
  end.

(** All steps return 0, or the run stops. *)
Fixpoint column_run (f : index_field_manager) (ops : list column_op) : option index_field_manager :=
  match ops with
  | [] => Some f
  | op :: ops => '(rc, f) ← column_step f op; if rc =? 0 then column_run f ops else None
  end.

(** What is stored for a value: the value or the hash of a string. *)
Definition stored_value (v : low_data_struct) : low_data_struct :=
  if decide (type v = HI_TYPE_STRING) then hash_data get_hash_value v else v.

(** A number in a blank cell. *)
Definition pad (bs : list Z) : list Z := bs ++ replicate (8 - length bs) 0.

Definition column_spec (s : filter_field) (op : column_op) : filter_field :=
  match op with
  | CInsert d v =>
      let v := stored_value v in
      FilterField (λ e, if decide (e = d) then (if len v =? 0 then None else Some (pad (data v))) else column s e)
        (d + 1) (Z.max (width s) (len v))
  | CUpdate d v =>
      let v := stored_value v in
      FilterField (λ e, if decide (e = d) then (if len v =? 0 then None else Some (data v)) else column s e)
        (rows s) (width s)
  | CRecover d => FilterField (λ e, if decide (e < d) then column s e else None) (Z.min (rows s) d) (width s)
  | CCheckpoint | CRestart _ => s
  end.

(** The first [w] bytes of [v] tell its number. *)
Definition narrow (w : Z) (v : list Z) : Prop :=
  length v = 8%nat ∧ drop (Z.to_nat w) v = replicate (8 - Z.to_nat w) 0.

(** Rows are inserted in ascending order; a number has at most 8 bytes, and the
    new value of an update is null, a string or an 8-byte number, no wider than
    the values inserted before. *)
Definition column_op_ok (N : Z) (s : filter_field) (op : column_op) : Prop :=
  match op with
  | CInsert d v =>
      rows s ≤ d < N ∧
      (type v ≠ HI_TYPE_STRING → 0 ≤ len v ≤ 8 ∧ zlen (data v) = len v ∧ Forall is_byte (data v))
  | CUpdate d v =>
      0 ≤ d < rows s ∧
      let v := stored_value v in
      (len v ≠ 0 → len v = 8 ∧ Forall is_byte (data v) ∧ narrow (width s) (data v))
  | CRecover d => 0 ≤ d < N
  | CCheckpoint | CRestart _ => True
  end.

Fixpoint column_ops_ok (N : Z) (s : filter_field) (ops : list column_op) : Prop :=
  match ops with
  | [] => True
  | op :: ops => column_op_ok N s op ∧ column_ops_ok N (column_spec s op) ops
  end.
End column_steps.

(** The number that a query of a row tells; [None] is null. *)
Definition number (q : low_data_struct) : option Z :=
  if len q =? 0 then None else Some (le_value (data q)).

(** [f] is a filter field of [N] rows in the state [s], with the cells [st]. *)
Record column_rep (N : Z) (s : filter_field) (f : index_field_manager)
    (st : storage_manager bitmark_manager) : Prop := {
  cr_type : if_type f = HI_KEY_ALG_FILTER;
  cr_limit : if_limit f = N;
  cr_flag : ∃ w, flag f = Some w ∧ compress_bit w = false;
  cr_len : max_len f = Some (width s);
  cr_index : filter_index f = Some (FilterIndex HI_TYPE_LONGLONG (Some st) None);
  cr_wf : storage_wf st;
  cr_size : value_size st = 8;
  cr_rows : st_row_limit st = N;
  cr_bytes : Forall is_byte (st_mem st);
  cr_column : ∀ e, 0 ≤ e < N → contents st e = column s e;
  cr_blank : ∀ e, rows s ≤ e < N → 0 ≤ e → cell st e = replicate 8 0 ∧ contents st e = None;
  cr_used : 0 ≤ rows s ≤ N;
  cr_width : 0 ≤ width s ≤ 8;
  cr_narrow : ∀ e v, 0 ≤ e < N → column s e = Some v → narrow (width s) v;
  cr_bitmap : bitmap_f (fcompress_files (disk f)) = []
}.

Lemma narrow_wider w w' v : 0 ≤ w ≤ w' → narrow w v → narrow w' v.
Proof.
  intros Hw [Hl Hd]. split; [done|].
  replace (Z.to_nat w') with (Z.to_nat w + (Z.to_nat w' - Z.to_nat w))%nat by lia.
  rewrite <- drop_drop, Hd, drop_replicate. f_equal. lia.
Qed.

Lemma narrow_pad w bs : zlen bs ≤ w ≤ 8 → narrow w (pad bs).
Proof.
  intros Hw. unfold zlen in Hw. split; unfold pad; [rewrite length_app, length_replicate; lia|].
  rewrite drop_app_ge, drop_replicate by lia. f_equal. lia.
Qed.

Lemma narrow_number w v : narrow w v → le_value (take (Z.to_nat w) v) = le_value v.
Proof. intros [_ Hd]. rewrite <- (take_drop (Z.to_nat w) v) at 2. by rewrite Hd, le_value_app. Qed.

(** ** The steps *)

Section column_proofs.
Context (get_hash_value : low_data_struct → Z).
Context (shared : bool) (junk : Z) (qsort : (Z → Z → Z) → list Z → list Z).
Context (N : Z) (HN : 0 < N) (Hmax : N * 8 < 2 ^ 31).
Let env := calm shared junk qsort.

Lemma raise_len_spec f w n : max_len f = Some w → raise_len f n = Some (set_max_len f (Z.max w n)).
Proof.
  intros Hw. unfold raise_len. rewrite Hw. cbn [mbind option_bind]. destruct (Z.ltb_spec w n).
  - do 2 f_equal. lia.
  - rewrite Z.max_l by lia. f_equal. destruct f. cbn in *. by subst.
Qed.

(** A field after its cells have changed. *)
Lemma column_rep_change s s' f st st' w' :
  column_rep N s f st → width s' = w' → 0 ≤ w' ≤ 8 → 0 ≤ rows s' ≤ N →
  storage_wf st' → value_size st' = 8 → st_row_limit st' = N → Forall is_byte (st_mem st') →
  (∀ e, 0 ≤ e < N → contents st' e = column s' e) →
  (∀ e, rows s' ≤ e < N → 0 ≤ e → cell st' e = replicate 8 0 ∧ contents st' e = None) →
  (∀ e v, 0 ≤ e < N → column s' e = Some v → narrow w' v) →
  column_rep N s' (set_filter (set_max_len f w') (Some (FilterIndex HI_TYPE_LONGLONG (Some st') None))) st'.
Proof. intros [] <- Hw Hu Hwf Hv Hl Hb Hc Hbl Hn. split; done. Qed.

(** An insertion, once the value to store is known. *)
Lemma insert_filter_spec s f st v d :
  column_rep N s f st → rows s ≤ d < N →
  0 ≤ len v ≤ 8 → zlen (data v) = len v → Forall is_byte (data v) →
  ∃ f' st', insert_filter (set_max_len f (Z.max (width s) (len v))) v d = Some (0, f') ∧
    column_rep N (FilterField (λ e, if decide (e = d) then (if len v =? 0 then None else Some (pad (data v)))
                                    else column s e) (d + 1) (Z.max (width s) (len v))) f' st'.
Proof.
  intros Hrep Hd Hl Hz Hb. pose proof Hrep as [Ht Hlim Hfl Hlen Hix Hwf Hs Hr Hby Hcol Hbl Hu Hw Hnar Hbm].
  unfold insert_filter. cbn [filter_index set_max_len]. rewrite Hix. cbn [mbind option_bind].
  unfold filter_index_insert. cbn [fi_type]. change (negb (is_fixed_size HI_TYPE_LONGLONG)) with false. cbv iota.
  cbn [fi_storage mbind option_bind].
  destruct (insert_cells st Hwf v d) as (st' & -> & (Hwf' & Hs' & Hr' & Hother) & Hc & Hby'); [lia|lia|done|].
  destruct (Hbl d) as [Hcell Hnull]; [lia|lia|]. rewrite Hcell, Hnull in Hc.
  rewrite drop_replicate in Hc.
  cbn [mbind option_bind]. eexists _, st'. split; [done|]. unfold with_storage. cbn [fi_type fi_vstorage].
  apply (column_rep_change s _ f st); try done; cbn [width column rows]; try lia.
  - by apply Hby'.
  - intros e He. case_decide as E; [by rewrite E|]. rewrite <- Hcol by done. apply Hother; [lia|done].
  - intros e He He0. destruct (Hother e) as [-> ->]; [lia|lia|]. apply Hbl; lia.
  - intros e v' He. case_decide as E.
    + destruct (len v =? 0); [done|]. intros [= <-]. apply narrow_pad. lia.
    + intros Hv'. eapply (narrow_wider (width s)); [lia|]. by eapply Hnar.
Qed.

Lemma insert_step s f st v d :
  column_rep N s f st → column_op_ok get_hash_value N s (CInsert d v) →
  ∃ f' st', column_step env get_hash_value f (CInsert d v) = Some (0, f') ∧
    column_rep N (column_spec get_hash_value s (CInsert d v)) f' st'.
Proof.
  intros Hrep [Hd Hv]. pose proof Hrep as [Ht _ (w & Hw & Hb) Hlen _ _ _ _ _ _ _ Hu _ _ _].
  cbn [column_step column_spec]. unfold index_field_insert, stored_value.
  rewrite (is_compressed_flag f w Hw), Hb, Ht. case_decide as Hstr.
  - rewrite (raise_len_spec f (width s)) by done. cbn [mbind option_bind].
    apply (insert_filter_spec s f st (hash_data get_hash_value v) d); try done; try lia.
    apply le_bytes_bytes.
  - destruct (Hv Hstr) as (Hl & Hz & Hby). rewrite Z.gtb_ltb, (proj2 (Z.ltb_ge _ _)) by (cbn; lia).
    rewrite (raise_len_spec f (width s)) by done. cbn [mbind option_bind].
    by apply (insert_filter_spec s f st v d); try lia.
Qed.

Lemma update_step s f st v d :
  column_rep N s f st → column_op_ok get_hash_value N s (CUpdate d v) →
  ∃ f' st', column_step env get_hash_value f (CUpdate d v) = Some (0, f') ∧
    column_rep N (column_spec get_hash_value s (CUpdate d v)) f' st'.
Proof.
  intros Hrep [Hd Hv]. pose proof Hrep as [Ht Hlim (w & Hw & Hb) Hlen Hix Hwf Hs Hr Hby Hcol Hbl Hu Hwd Hnar Hbm].
  cbn [column_step column_spec]. unfold index_field_update.
  rewrite (is_compressed_flag f w Hw), Hb, Ht. cbv iota.
  assert ((if decide (type v = HI_TYPE_STRING) then update_filter f (hash_data get_hash_value v) d
           else update_filter f v d) = update_filter f (stored_value get_hash_value v) d) as ->
    by (unfold stored_value; by case_decide).
  set (v' := stored_value get_hash_value v) in *. clearbody v'. clear v.
  unfold update_filter. rewrite Hix. cbn [mbind option_bind]. unfold filter_index_update. cbn [fi_type].
  change (negb (is_fixed_size HI_TYPE_LONGLONG)) with false. cbv iota. cbn [fi_storage mbind option_bind].
  destruct (update_cells st Hwf v' d) as (st' & old & -> & (Hwf' & Hs' & Hr' & Hother) & Hc & Hby'); [lia| |].
  { intros E. destruct (Hv E) as (Hl & _ & [Hl8 _]). split; [lia|]. unfold zlen. lia. }
  cbn [mbind option_bind]. eexists _, st'. split; [done|]. unfold with_storage. cbn [fi_type fi_vstorage].
  replace f with (set_max_len f (width s)) by (destruct f; cbn in *; by subst).
  apply (column_rep_change s _ f st); try done; cbn [width column rows]; try lia.
  - apply Hby'; [|done]. intros E. by apply Hv.
  - intros e He. case_decide as E; [by rewrite E|]. rewrite <- Hcol by done. apply Hother; [lia|done].
  - intros e He He0. destruct (Hother e) as [-> ->]; [lia|lia|]. apply Hbl; lia.
  - intros e x He. case_decide as E; [|by apply Hnar].
    destruct (Z.eqb_spec (len v') 0) as [|E0]; [done|]. intros [= <-]. by apply Hv.
Qed.

Lemma recover_step s f st d :
  column_rep N s f st → 0 ≤ d < N →
  ∃ f' st', column_step env get_hash_value f (CRecover d) = Some (0, f') ∧
    column_rep N (column_spec get_hash_value s (CRecover d)) f' st'.
Proof.
  intros Hrep Hd. pose proof Hrep as [Ht Hlim (w & Hw & Hb) Hlen Hix Hwf Hs Hr Hby Hcol Hbl Hu Hwd Hnar Hbm].
  cbn [column_step column_spec field_step]. unfold index_field_recover.
  rewrite (is_compressed_flag f w Hw), Hb, Ht, Hix. cbn [mbind option_bind].
  unfold filter_index_recover. cbn [fi_type]. change (negb (is_fixed_size HI_TYPE_LONGLONG)) with false. cbv iota.
  cbn [fi_storage mbind option_bind].
  destruct (recover_cells st Hwf d) as (st' & -> & Hwf' & Hs' & Hr' & Hc & Hby'); [lia|].
  cbn [mbind option_bind]. eexists _, st'. split; [done|]. unfold with_storage. cbn [fi_type fi_vstorage].
  replace f with (set_max_len f (width s)) by (destruct f; cbn in *; by subst).
  rewrite Hr in Hc. rewrite Hs in Hc.
  apply (column_rep_change s _ f st); try done; cbn [width column rows]; try lia.
  - by apply Hby'.
  - intros e He. destruct (Hc e He) as [-> _]. case_decide; [by apply Hcol|done].
  - intros e He He0. destruct (Hc e ltac:(lia)) as [-> ->]. case_decide; [apply Hbl; lia|done].
  - intros e v He. case_decide; [by apply Hnar|done].
Qed.

Lemma column_restart s f st full :
  column_rep N s f st →
  ∃ f', column_step env get_hash_value f (CRestart full) = Some (0, f') ∧ column_rep N s f' st.
Proof.
  intros Hrep. pose proof Hrep as [Ht Hlim (w & Hw & Hb) Hlen Hix Hwf Hs Hr Hby Hcol Hbl Hu Hwd Hnar Hbm].
  cbn [column_step field_step]. unfold index_field_release. rewrite Ht, Hw, Hlen. cbn [mbind option_bind].
  rewrite Hb, Hix. cbn [mbind option_bind fi_storage].
  unfold index_field_init. simpl negb. cbv iota. cbn [io_stat io_len io_cells env calm stat_file len_file].
  rewrite !map_word_again. cbn [mbind option_bind]. rewrite Hb, Hlim. unfold filter_index_init.
  change (negb (is_fixed_size HI_TYPE_LONGLONG)) with false. cbv iota.
  change (get_unit_size HI_TYPE_LONGLONG) with 8. rewrite <- Hs, <- Hr.
  erewrite (open_again st Hwf) by (try done; rewrite Hs, Hr; lia). cbn [mbind option_bind].
  eexists. split; [done|]. split; try done; cbn [flag set_filter set_max_len set_flag]; rewrite ?Hr; try done.
  by exists w.
Qed.

Lemma column_step_spec s f st op :
  column_rep N s f st → column_op_ok get_hash_value N s op →
  ∃ f' st', column_step env get_hash_value f op = Some (0, f') ∧
    column_rep N (column_spec get_hash_value s op) f' st'.
Proof.
  intros Hrep Hok. destruct op as [d v|d v|d| |full].
  - by apply (insert_step s f st).
  - by apply (update_step s f st).
  - by apply (recover_step s f st).
  - pose proof Hrep as [Ht _ (w & Hw & Hb) _ _ _ _ _ _ _ _ _ _ _ _]. exists f, st. split; [|done].
    cbn [column_step field_step]. unfold index_field_checkpoint. by rewrite (is_compressed_flag f w Hw), Hb, Ht.
  - destruct (column_restart s f st full Hrep) as (f' & Hf & Hrep'). by exists f', st.
Qed.

Lemma column_run_spec s f st ops :
  column_rep N s f st → column_ops_ok get_hash_value N s ops →
  ∃ f' st', column_run env get_hash_value f ops = Some f' ∧
    column_rep N (foldl (column_spec get_hash_value) s ops) f' st'.
Proof.
  revert s f st. induction ops as [|op ops IH]; intros s f st Hrep Hok; [by exists f, st|].
  destruct Hok as [Hop Hok]. destruct (column_step_spec s f st op Hrep Hop) as (f1 & st1 & H1 & Hrep1).
  cbn [column_run foldl]. rewrite H1. cbn [mbind option_bind]. simpl (0 =? 0). cbv iota. by apply (IH _ f1 st1).
Qed.

Definition blank_column : filter_field := FilterField (λ _, None) 0 0.

Lemma init_column full num :
  ∃ f st, index_field_init env true no_files HI_KEY_ALG_FILTER N num full = Some (Ptr f) ∧
    column_rep N blank_column f st.
Proof.
  destruct (storage_init_empty 8 N) as (bm & st & Hbm & Hst & Hwf & Hs & Hr & Hc); [lia|lia|lia|].
  unfold index_field_init. simpl negb. cbv iota. cbn [io_stat io_len io_cells env calm stat_file len_file no_files].
  change (map_word true []) with (Some 0). cbn [mbind option_bind]. change (compress_bit 0) with false. cbv iota.
  unfold filter_index_init. change (negb (is_fixed_size HI_TYPE_LONGLONG)) with false. cbv iota.
  change (get_unit_size HI_TYPE_LONGLONG) with 8. unfold open_cells. cbn [mark_file cells_file no_files].
  rewrite Hbm. cbn [mbind option_bind]. rewrite Hst. cbn [mbind option_bind].
  assert (∀ i, 0 ≤ i < zlen (st_mem st) → (st_mem st)⟦i⟧ = Some 0) as Hz.
  { unfold storage_init in Hst. rewrite u32_small in Hst by lia.
    destruct (get_mmap_memory_spec 0 1 ltac:(lia) [] (8 * N)) as (m & f & Hm & Hlm & Hget); [lia|lia|].
    rewrite Hm in Hst. cbn in Hst. injection Hst as <-. cbn [st_mem]. intros i Hi.
    rewrite Hget by lia. by rewrite decide_False by (unfold zlen; simpl; lia). }
  eexists _, st. split; [done|]. split; try done; cbn [column blank_column rows width]; try lia.
  - by exists 0.
  - apply Forall_lookup_2. intros i x Hx. specialize (Hz (Z.of_nat i)). rewrite zget_of_nat, Hx in Hz.
    apply lookup_lt_Some in Hx. assert (Some x = Some 0) as [= ->] by (apply Hz; unfold zlen; lia). lia.
  - intros e He He0. split; [|done]. pose proof (zero_cells st Hwf st 0 e) as Hzc. rewrite Hs in Hzc.
    destruct Hwf as [_ _ _ Hmem _ _]. rewrite Hs, Hr in Hmem. apply Hzc; try done; lia.
Qed.

(** ** Reading *)

(** Every row of [f] tells the number of its cell. *)
Definition tells (s : filter_field) (f : index_field_manager) : Prop :=
  ∀ i, 0 ≤ i < N → ∃ q, index_field_value_query (Ptr f) i = Some (Ptr q) ∧ number q = le_value <$> column s i.

Lemma live_tells s f st : column_rep N s f st → tells s f.
Proof.
  intros [Ht Hlim (w & Hw & Hb) Hlen Hix Hwf Hs Hr Hby Hcol Hbl Hu Hwd Hnar Hbm] i Hi.
  unfold index_field_value_query. rewrite decide_True, Hw by done. cbn [mbind option_bind]. rewrite Hb, Hix.
  cbn [mbind option_bind]. unfold filter_index_query. cbn [fi_type].
  change (negb (is_fixed_size HI_TYPE_LONGLONG)) with false. cbv iota. cbn [fi_storage mbind option_bind].
  rewrite storage_query_spec by (done || lia). rewrite Hcol by done. cbn [fmap option_fmap option_map].
  eexists. split; [done|]. unfold number. destruct (column s i); [|done]. cbn [len data]. by rewrite Hs.
Qed.

Lemma compress_column s f st :
  column_rep N s f st → 0 < width s →
  ∃ rc f1 f2, index_field_compress env f = Some (rc, f1) ∧ index_field_switch f1 = Some (rc, f2) ∧
    (rc = 0 ∧ is_compressed f2 = true ∨ rc = ERROR_NOT_NEED_COMPRESS ∧ is_compressed f2 = false) ∧ tells s f2.
Proof.
  intros Hrep Hpos. pose proof Hrep as [Ht Hlim (w & Hw & Hb) Hlen Hix Hwf Hs Hr Hby Hcol Hbl Hu Hwd Hnar Hbm].
  unfold index_field_compress. rewrite Hw. cbn [mbind option_bind]. rewrite Hb, Ht, Hix. cbn [mbind option_bind fi_storage].
  rewrite Hlen. cbn [mbind option_bind io_fcompress junk_value env calm].
  destruct (filter_load_spec st junk (width s) (fcompress_files (disk f)) Hwf) as (r & fs & -> & Hload);
    [lia|lia|lia|done|done|]. cbn [mbind option_bind].
  destruct r as [| |c]; [done| |].
  - eexists _, _, _. split; [done|]. unfold index_field_switch. cbn [flag set_fcompress if_type filter_compress].
    rewrite Hw. cbn [mbind option_bind]. rewrite Hb, Ht. split; [done|]. split.
    + right. split; [done|]. unfold is_compressed. cbn [flag set_fcompress]. by rewrite Hw.
    + intros i Hi. destruct (live_tells s f st Hrep i Hi) as (q & Hq & Hnum). exists q. split; [|done].
      rewrite <- Hq. unfold index_field_value_query.
      cbn [if_type set_fcompress flag filter_index filter_compress]. rewrite Hw. cbn [mbind option_bind]. by rewrite Hb.
  - eexists _, _, _. split; [done|]. unfold index_field_switch. cbn [flag set_fcompress if_type filter_compress].
    rewrite Hw. cbn [mbind option_bind]. rewrite Hb, Ht. split; [done|]. split.
    + left. split; [done|]. unfold is_compressed. cbn [flag set_filter set_flag]. apply compress_bit_lor.
    + intros i Hi. destruct (Hload i) as (q & Hq & Hans); [lia|]. exists q.
      unfold index_field_value_query. cbn [if_type set_filter set_flag set_fcompress flag filter_compress].
      rewrite decide_True by done. cbn [mbind option_bind]. rewrite compress_bit_lor, Hq. split; [done|].
      unfold answers in Hans. rewrite Hcol in Hans by done. unfold number.
      destruct (column s i) as [v|] eqn:Ev; [|by rewrite Hans].
      destruct Hans as [-> ->]. rewrite (proj2 (Z.eqb_neq _ 0)) by lia. cbn. f_equal.
      apply narrow_number. by eapply Hnar.
Qed.
End column_proofs.

(** C17: a filter field keeps its numbers through compression.  From an empty
    directory, any sequence of insertions (ascending rows, numbers of up to 8
    bytes, strings by their hash, nulls), updates that are no wider than the
    values inserted, recoveries, checkpoints and restarts succeeds.  Every row
    then reads as the number written last, or null; and once a column with a
    value has been compressed and switched to the compressed form, or the
    compression has declined, every row still reads as the same number.  Nothing
    follows the switch: neither a restart nor a further change. *)
Theorem filter_field_keeps_numbers get_hash_value shared junk qsort N num full ops :
  0 < N → N * 8 < 2 ^ 31 → column_ops_ok get_hash_value N blank_column ops →
  let env := calm shared junk qsort in
  let s := foldl (column_spec get_hash_value) blank_column ops in
  0 < width s →
  ∃ f0 f rc f1 f2, index_field_init env true no_files HI_KEY_ALG_FILTER N num full = Some (Ptr f0) ∧
    column_run env get_hash_value f0 ops = Some f ∧ tells N s f ∧
    index_field_compress env f = Some (rc, f1) ∧ index_field_switch f1 = Some (rc, f2) ∧
    (rc = 0 ∧ is_compressed f2 = true ∨ rc = ERROR_NOT_NEED_COMPRESS ∧ is_compressed f2 = false) ∧ tells N s f2.
Proof.
  intros HN Hmax Hok env s Hpos.
  destruct (init_column shared junk qsort N HN Hmax full num) as (f0 & st0 & H0 & Hrep0).
  destruct (column_run_spec get_hash_value shared junk qsort N HN Hmax _ f0 st0 ops Hrep0 Hok) as (f & st & Hf & Hrep).
  destruct (compress_column shared junk qsort N Hmax _ f st Hrep Hpos) as (rc & f1 & f2 & Hc & Hsw & Hrc & Ht).
  exists f0, f, rc, f1, f2. do 2 (split; [done|]). split; [by eapply live_tells|]. done.
Qed.

(** *** Concrete columns *)

Definition demo_column_ops : list column_op :=
  [CInsert 0 (byte_value 7); CInsert 1 (LowData HI_TYPE_SHORT [1; 2] 2); CInsert 2 null_value; CRestart false;
   CUpdate 0 (LowData HI_TYPE_LONGLONG [9; 0; 0; 0; 0; 0; 0; 0] 8); CInsert 3 (byte_value 5); CRecover 3;
   CCheckpoint; CInsert 3 (byte_value 7)].

Lemma demo_column_ops_ok : column_ops_ok demo_hash 6 blank_column demo_column_ops.
Proof.
  repeat refine (conj _ _); cbn [column_op_ok demo_column_ops]; try done; try lia.
  all: intros; vm_compute; repeat split; try done; repeat constructor; done.
Qed.

Lemma filter_field_keeps_numbers_witness :
  let env := calm false 12345 merge_qsort in
  ∃ f0 f f1 f2 q, index_field_init env true no_files HI_KEY_ALG_FILTER 6 10 false = Some (Ptr f0) ∧
    column_run env demo_hash f0 demo_column_ops = Some f ∧ index_field_compress env f = Some (0, f1) ∧
    index_field_switch f1 = Some (0, f2) ∧ index_field_value_query (Ptr f2) 1 = Some (Ptr q) ∧
    number q = Some 513.
Proof.
  destruct (filter_field_keeps_numbers demo_hash false 12345 merge_qsort 6 10 false demo_column_ops)
    as (f0 & f & rc & f1 & f2 & H0 & Hf & _ & Hc & Hsw & _ & Ht); [lia|lia|exact demo_column_ops_ok|vm_compute; reflexivity|].
  destruct (Ht 1) as (q & Hq & Hn); [lia|].
  assert (rc = 0) as ->.
  { vm_compute in H0. injection H0 as <-. vm_compute in Hf. injection Hf as <-. vm_compute in Hc. by injection Hc. }
  exists f0, f, f1, f2, q. split; [exact H0|]. split; [exact Hf|]. split; [exact Hc|]. split; [exact Hsw|].
  split; [exact Hq|]. rewrite Hn. vm_compute. reflexivity.
Defined.

(** Updates and the width of a column.  [index_field_update] does not raise the
    recorded width as [index_field_insert] does: a wider number that was written
    by an update is cut by the next compression.  And it always copies 8 bytes: a
    4-byte integer is read past its end. *)
Theorem filter_update_ignores_width :
  let env := calm false 0 merge_qsort in
  ∃ f0 f f1 f2 q q', index_field_init env true no_files HI_KEY_ALG_FILTER 6 10 false = Some (Ptr f0) ∧
    column_run env demo_hash f0
      [CInsert 0 (byte_value 7); CInsert 1 (byte_value 8); CInsert 2 (byte_value 9);
       CUpdate 1 (LowData HI_TYPE_LONGLONG [8; 1; 0; 0; 0; 0; 0; 0] 8)] = Some f ∧
    index_field_value_query (Ptr f) 1 = Some (Ptr q) ∧ number q = Some 264 ∧
    index_field_compress env f = Some (0, f1) ∧ index_field_switch f1 = Some (0, f2) ∧
    index_field_value_query (Ptr f2) 1 = Some (Ptr q') ∧ number q' = Some 8 ∧
    index_field_update demo_hash f (LowData HI_TYPE_LONG [1; 0; 0; 0] 4) 1 = None.
Proof.
  eexists _, _, _, _, _, _. do 8 (split; [vm_compute; reflexivity|]). vm_compute. reflexivity.
Qed.
