(* ===== verification/Segment.v ===== *)
(** * Segments ([src/storage/docdb/segment.c])

    A segment holds up to [row_limit] documents: their rows in a row store, the
    indexes of their columns in a string map, a mark for the documents that were
    inserted and not deleted, and counters in a mapped block of the table's meta
    data.  The row store is any [Column].  A pointer that the string map returns
    is the object in the map: a call that changes it changes the map's cell. *)

From Stdlib Require Import ZArith Lia.
From stdpp Require Import base option list numbers gmap.
From S2P Require Import Prelude FileOp StringMap Doclist Bitmark RowidList LowData HashIndex VStorage Storage HashMemCompress DynHash Column FilterIndex RowData DataField FilterCompress IndexField.

Definition MAX_FIELD_NAME : Z := 100.
Definition MAX_INDEX_FIELD_NUM : Z := 100.
Definition MAX_INDEX_PER_FIELD : Z := 10.
Definition ERROR_FIELD_INIT_FAILED : Z := -3997.

Definition SEGMENT_INIT : Z := 1.
Definition SEGMENT_DUMP : Z := 2.
Definition SEGMENT_FULL : Z := 4.
Definition SEGMENT_COMPRESS : Z := 8.

Record segment_meta_data := SegMeta {
  create_time : Z;
  modify_time : Z;
  checkpoint_time : Z;
  seg_flag : Z;                     (* [flag], 8 bits *)
  row_count : Z;
  del_count : Z
}.

(** [ix_flag]: 1 once the index has been built, 0 until then. *)
Record index_field_stat := IndexStat { ix_type : index_key_alg; ix_data : field_types; ix_flag : Z }.

(** [indexs] has [index_count] elements. *)
Record index_field_meta := FieldMeta { meta_name : list Z; indexs : list index_field_stat }.

(** The directories of the fields, by name and type: the file names of the types
    are distinct. *)
Definition directories := list Z → index_key_alg → field_files.

Record segment_manager (S : Type) := Segment {
  seg_limit : Z;                    (* [row_limit] *)
  seg_compress_num : Z;             (* [hash_compress_num] *)
  meta : segment_meta_data;
  del_bitmap : bitmark_manager;
  data_field : S;
  index_fields : string_map index_field_manager;
  dirs : directories                (* of the fields that are not open *)
}.
Arguments Segment {S}.
Arguments seg_limit {S}.
Arguments seg_compress_num {S}.
Arguments meta {S}.
Arguments del_bitmap {S}.
Arguments data_field {S}.
Arguments index_fields {S}.
Arguments dirs {S}.

(** [sprintf(key, "%s %d", field_name, index_type)] into MAX_FIELD_NAME*2 bytes. *)
Definition index_key (name : list Z) (t : index_key_alg) : option (list Z) :=
  let key := name ++ [32; 48 + alg_code t] in
  if zlen key <? MAX_FIELD_NAME * 2 then Some key else None.

(** The cell of [key] after the object in it has become [v]. *)
Definition set_object {V} (m : string_map V) (key : list Z) (v : V) : option (string_map V) :=
  i ← sm_find m key;
  match i with
  | None => None
  | Some i => cs ← (cells m)⟦i := Some (key, v)⟧; Some (StringMap (sm_size m) (sm_pos m) cs)
  end.

Section meta_data.
Implicit Types (m : segment_meta_data).

Definition set_modify m (t : Z) : segment_meta_data :=
  SegMeta (create_time m) t (checkpoint_time m) (seg_flag m) (row_count m) (del_count m).
Definition set_row_count m (n : Z) : segment_meta_data :=
  SegMeta (create_time m) (modify_time m) (checkpoint_time m) (seg_flag m) n (del_count m).
Definition set_del_count m (n : Z) : segment_meta_data :=
  SegMeta (create_time m) (modify_time m) (checkpoint_time m) (seg_flag m) (row_count m) n.
Definition set_seg_flag m (w : Z) : segment_meta_data :=
  SegMeta (create_time m) (modify_time m) (checkpoint_time m) w (row_count m) (del_count m).
End meta_data.

Section segment.
Context {S : Type} `{!Column S}.
Context (env : field_env) (get_hash_value : low_data_struct → Z).
Implicit Types (segment : segment_manager S).

Definition with_meta segment (m : segment_meta_data) : segment_manager S :=
  Segment (seg_limit segment) (seg_compress_num segment) m (del_bitmap segment) (data_field segment)
    (index_fields segment) (dirs segment).
Definition with_mark segment (bm : bitmark_manager) : segment_manager S :=
  Segment (seg_limit segment) (seg_compress_num segment) (meta segment) bm (data_field segment)
    (index_fields segment) (dirs segment).
Definition with_data segment (s : S) : segment_manager S :=
  Segment (seg_limit segment) (seg_compress_num segment) (meta segment) (del_bitmap segment) s
    (index_fields segment) (dirs segment).
Definition with_fields segment (m : string_map index_field_manager) : segment_manager S :=
  Segment (seg_limit segment) (seg_compress_num segment) (meta segment) (del_bitmap segment) (data_field segment)
    m (dirs segment).
Definition with_dir segment (name : list Z) (t : index_key_alg) (d : field_files) : segment_manager S :=
  Segment (seg_limit segment) (seg_compress_num segment) (meta segment) (del_bitmap segment) (data_field segment)
    (index_fields segment) (λ n u, if decide (n = name ∧ u = t) then d else dirs segment n u).

(** The modification time is set by the first change only. *)
Definition touch segment (now : Z) : segment_manager S :=
  if modify_time (meta segment) =? 0 then with_meta segment (set_modify (meta segment) now) else segment.

(** [mkdir_ok]: whether the directory of the field can be made.  The table asks
    for indexes that the segment does not have. *)
Definition segment_ensure_index (now : Z) (mkdir_ok : bool) segment (name : list Z) (t : index_key_alg)
    : option (Z * segment_manager S) :=
  let segment := touch segment now in
  if MAX_FIELD_NAME <=? zlen name then None
  else
    let full := row_count (meta segment) =? seg_limit segment in
    r ← index_field_init env mkdir_ok (dirs segment name t) t (seg_limit segment) (seg_compress_num segment) full;
    match r with
    | NULL => Some (ERROR_FIELD_INIT_FAILED, segment)
    | Ptr f =>
        key ← index_key name t;
        '(_, m) ← string_map_put (index_fields segment) key f;
        Some (0, with_fields segment m)
    end.

(** Also of a field that does not exist. *)
Definition segment_del_index (now : Z) segment (name : list Z) (t : index_key_alg)
    : option (Z * segment_manager S) :=
  let segment := touch segment now in
  key ← index_key name t;
  '(f, m) ← string_map_remove (index_fields segment) key;
  d ← index_field_destroy env (option_ptr f) (dirs segment name t);
  Some (0, with_dir (with_fields segment m) name t d).

(** The loops over the columns and the types of each. *)
Fixpoint ensure_types (now : Z) (mkdir_ok : list Z → bool) segment (name : list Z) (l : list index_field_stat)
    : option (segment_manager S) :=
  match l with
  | [] => Some segment
  | ix :: l =>
      '(_, segment) ← segment_ensure_index now (mkdir_ok name) segment name (ix_type ix);
      ensure_types now mkdir_ok segment name l
  end.

Fixpoint ensure_fields (now : Z) (mkdir_ok : list Z → bool) segment (l : list index_field_meta)
    : option (segment_manager S) :=
  match l with
  | [] => Some segment
  | fm :: l =>
      segment ← ensure_types now mkdir_ok segment (meta_name fm) (indexs fm);
      ensure_fields now mkdir_ok segment l
  end.

(** [mark] is the file of the deletion mark, [store] the result of
    [data_field_init]; the code asserts that both are opened. *)
Definition segment_init (now : Z) (mkdir_seg : bool) (mkdir_ok : list Z → bool) (row_limit num : Z)
    (m : segment_meta_data) (mark : list Z) (store : option S) (ds : directories) (fields : list index_field_meta)
    : option (ptr (segment_manager S)) :=
  if negb mkdir_seg then Some NULL
  else
    bm ← bitmark_init row_limit mark;
    s ← store;
    let segment := Segment row_limit num m bm s
                     (init_string_map (MAX_INDEX_FIELD_NUM * MAX_INDEX_PER_FIELD)) ds in
    segment ← ensure_fields now mkdir_ok segment fields;
    Some (Ptr segment).

Definition segment_get_rowcount segment : Z := row_count (meta segment).

Definition segment_set_rowcount segment (docid : Z) : segment_manager S :=
  with_meta segment (set_row_count (meta segment) (u32 (docid + 1))).

Definition segment_exceed_limit segment : Z :=
  if row_count (meta segment) >=? seg_limit segment then ERROR_EXCEED_LIMIT else 0.

(** [mem] is the memory of the pool for the encoded row. *)
Definition segment_data_insert (now : Z) (mem : list Z) segment (rdata : row_data) (docid : Z)
    : option (Z * segment_manager S) :=
  let segment := with_meta segment (set_modify (meta segment) now) in
  '(rc, s) ← data_field_insert mem (data_field segment) rdata docid;
  Some (rc, with_data segment s).

Definition segment_data_update (mem : list Z) segment (docid : Z) (new_data : field)
    : option (Z * ptr field * segment_manager S) :=
  if docid >=? seg_limit segment then Some (ERROR_EXCEED_LIMIT, NULL, segment)
  else
    '(rc, old, s) ← data_field_update mem (data_field segment) new_data docid;
    Some (rc, old, with_data segment s).

Definition segment_get_index_instance segment (name : list Z) (t : index_key_alg)
    : option (ptr index_field_manager) :=
  key ← index_key name t;
  f ← string_map_get (index_fields segment) key;
  Some (option_ptr f).

(** The field [name] of type [t] has become [f]. *)
Definition put_field_back segment (name : list Z) (t : index_key_alg) (f : index_field_manager)
    : option (segment_manager S) :=
  key ← index_key name t;
  m ← set_object (index_fields segment) key f;
  Some (with_fields segment m).

Definition segment_index_update segment (docid : Z) (new_data : field)
    : option (Z * ptr low_data_struct * segment_manager S) :=
  if docid >=? seg_limit segment then Some (ERROR_EXCEED_LIMIT, NULL, segment)
  else
    f ← segment_get_index_instance segment (field_name new_data) HI_KEY_ALG_FILTER;
    match f with
    | NULL => Some (ERROR_EXCEED_LIMIT, NULL, segment)
    | Ptr f =>
        '(rc, old, f) ← index_field_update get_hash_value f (fdata new_data) docid;
        segment ← put_field_back segment (field_name new_data) HI_KEY_ALG_FILTER f;
        Some (rc, old, segment)
    end.

Definition segment_data_query_col segment (name : list Z) (docid : Z) : option (ptr field) :=
  if docid >=? seg_limit segment then Some NULL else data_field_query_col (data_field segment) name docid.

Definition segment_data_query_row segment (docid : Z) : option (ptr row_data) :=
  if docid >=? seg_limit segment then Some NULL else data_field_query_row (data_field segment) docid.

Definition segment_index_insert segment (data : field) (t : index_key_alg) (docid : Z)
    : option (Z * segment_manager S) :=
  f ← segment_get_index_instance segment (field_name data) t;
  match f with
  | NULL => Some (ERROR_FIELD_INIT_FAILED, segment)
  | Ptr f =>
      '(rc, f) ← index_field_insert env get_hash_value f (fdata data) docid;
      segment ← put_field_back segment (field_name data) t f;
      Some (rc, segment)
  end.

Definition segment_index_range_query segment (name : list Z) : option (ptr rowid_list) :=
  f ← segment_get_index_instance segment name HI_KEY_ALG_BTREE;
  match f with NULL => Some NULL | Ptr f => index_field_range_query (Ptr f) end.

Definition segment_index_value_query segment (name : list Z) (docid : Z) : option (ptr low_data_struct) :=
  f ← segment_get_index_instance segment name HI_KEY_ALG_FILTER;
  match f with
  | NULL => Some NULL
  | Ptr f => if docid >=? seg_limit segment then Some NULL else index_field_value_query (Ptr f) docid
  end.

Definition segment_index_equal_query segment (data : field) (t : index_key_alg) : option (ptr rowid_list) :=
  f ← segment_get_index_instance segment (field_name data) t;
  match f with NULL => Some NULL | Ptr f => index_field_equal_query get_hash_value (Ptr f) (fdata data) end.

Definition segment_index_count_query segment (data : field) : option Z :=
  f ← segment_get_index_instance segment (field_name data) HI_KEY_ALG_FULLTEXT;
  match f with NULL => Some 0 | Ptr f => index_field_count_query get_hash_value (Ptr f) (fdata data) end.

Definition segment_del_docid (now : Z) segment (docid : Z) : option (Z * segment_manager S) :=
  let segment := with_meta segment (set_modify (meta segment) now) in
  if docid >=? seg_limit segment then Some (ERROR_EXCEED_LIMIT, segment)
  else
    '(ret, bm) ← bitmark_clear (del_bitmap segment) docid;
    let segment := with_mark segment bm in
    if ret =? 1
    then Some (0, with_meta segment (set_del_count (meta segment) (u32 (del_count (meta segment) + 1))))
    else Some (ret, segment).

Definition segment_is_docid_deleted segment (docid : Z) : option Z :=
  if docid >=? seg_limit segment then Some ERROR_EXCEED_LIMIT else bitmark_query (del_bitmap segment) docid.

Definition segment_set_docid_inserted segment (docid : Z) : option (Z * segment_manager S) :=
  if docid >=? seg_limit segment then Some (ERROR_EXCEED_LIMIT, segment)
  else
    '(ret, bm) ← bitmark_set (del_bitmap segment) docid;
    Some (ret, with_mark segment bm).

(** A call for every field, in the order of the keys. *)
Definition for_each_field segment (call : index_field_manager → option (Z * index_field_manager))
    : option (Z * segment_manager S) :=
  '(rc, m, _) ← string_map_for_each (index_fields segment)
                  (λ _ f (u : unit), '(rc, f) ← call f; Some (rc, f, u)) ();
  Some (rc, with_fields segment m).

(** All codes but ERROR_COMMPRESS_FAIL count as success. *)
Definition unless_failed (call : index_field_manager → option (Z * index_field_manager))
    (f : index_field_manager) : option (Z * index_field_manager) :=
  '(ret, f) ← call f;
  Some (if negb (ret =? ERROR_COMMPRESS_FAIL) then 0 else ERROR_COMMPRESS_FAIL, f).

Definition index_compress_iterator_func : index_field_manager → option (Z * index_field_manager) :=
  unless_failed (index_field_compress env).
Definition index_switch_iterator_func : index_field_manager → option (Z * index_field_manager) :=
  unless_failed index_field_switch.
Definition index_checkpoint_iterator_func (f : index_field_manager) : option (Z * index_field_manager) :=
  f ← index_field_checkpoint env f; Some (0, f).
Definition index_recover_iterator_func (docid : Z) (f : index_field_manager) : option (Z * index_field_manager) :=
  index_field_recover f docid.
Definition mmap_switch_iterator_func (flush switch : bool * bool) (dy_flush dy_switch : dyhash_io)
    (f : index_field_manager) : option (Z * index_field_manager) :=
  index_mmap_switch env flush switch dy_flush dy_switch f.

(** The mark, the rows and the counters are shared mappings and files: only the
    fields have private memory to write. *)
Definition segment_checkpoint segment : option (segment_manager S) :=
  '(_, segment) ← for_each_field segment index_checkpoint_iterator_func;
  Some segment.

Definition segment_compress segment : option (Z * segment_manager S) :=
  segment ← segment_checkpoint segment;
  for_each_field segment index_compress_iterator_func.

Definition segment_compress_switch segment : option (Z * segment_manager S) :=
  for_each_field segment index_switch_iterator_func.

(** [assert(real_row_count <= docid)] compares unsigned numbers. *)
Definition segment_recover segment (docid : Z) : option (Z * segment_manager S) :=
  if negb (Z.land (seg_flag (meta segment)) SEGMENT_COMPRESS =? 0) then Some (0, segment)
  else
    '(rc, bm) ← bitmark_recover (del_bitmap segment) docid;
    let segment := with_mark segment bm in
    if negb (rc =? 0) then Some (-1, segment)
    else
      '(rc, s) ← data_field_recover (data_field segment) docid;
      let segment := with_data segment s in
      if negb (rc =? 0) then Some (-1, segment)
      else
        '(rc, segment) ← for_each_field segment (index_recover_iterator_func docid);
        if negb (rc =? 0) then Some (-1, segment)
        else
          real_row_count ← bitmark_count (del_bitmap segment);
          if docid <? real_row_count then None
          else
            let m := set_row_count (meta segment) docid in
            Some (0, with_meta segment (set_del_count m (u32 (docid - real_row_count)))).

Definition segment_set_flag segment (w : Z) : segment_manager S :=
  with_meta segment (set_seg_flag (meta segment) (Z.lor (seg_flag (meta segment)) w)).

Definition segment_get_flag segment : Z := seg_flag (meta segment).

Definition segment_mmap_switch (flush switch : bool * bool) (dy_flush dy_switch : dyhash_io) segment
    : option (Z * segment_manager S) :=
  if Z.land (seg_flag (meta segment)) SEGMENT_FULL =? 0 then Some (-1, segment)
  else for_each_field segment (mmap_switch_iterator_func flush switch dy_flush dy_switch).

(** The field writes to its directory. *)
Definition index_release_iterator_func (key : list Z) (f : index_field_manager) (ds : directories)
    : option (Z * index_field_manager * directories) :=
  d ← index_field_release env f;
  Some (0, f, λ n t, if decide (index_key n t = Some key) then d else ds n t).

(** What is left on disk: the mark, the rows, and the directory of every field. *)
Definition segment_release segment : option (list Z * S * directories) :=
  '(_, _, ds) ← string_map_for_each (index_fields segment) index_release_iterator_func (dirs segment);
  Some (mem_mmaped (del_bitmap segment), data_field segment, ds).
End segment.
