(* ===== verification/SegmentSpec.v ===== *)
(** * What a segment promises

    A segment with hash indexes, driven as the table drives it: documents are
    indexed column by column, marked as inserted, deleted, recovered, and the
    segment is moved to shared memory, compressed, switched and restarted.  The
    specification keeps one [hash_field] per index, the set of documents that are
    there, and the counters. *)

From Stdlib Require Import ZArith Lia Sorted.
From stdpp Require Import base option list numbers gmap sets.
From S2P Require Import Prelude FileOp StringMap Doclist Bitmark RowidList SetOperator LowData HashIndex HashIndexSpec VStorage Storage HashMemCompress DynHash Column FilterIndex RowData DataField FilterCompress FilterCompressSpec IndexField IndexFieldSpec Segment.

(** ** Objects in a string map *)

Section objects.
Context {V : Type}.
Implicit Types (kvs : list (list Z * V)).

Lemma set_object_spec (m : string_map V) kvs key v0 v :
  holds_entries m kvs → entry_map kvs !! key = Some v0 →
  ∃ m' kvs', set_object m key v = Some m' ∧ holds_entries m' kvs' ∧ sm_size m' = sm_size m ∧
    zlen kvs' = zlen kvs ∧ entry_map kvs' = <[key := v]> (entry_map kvs).
Proof.
  intros Hh Hk. destruct (find_spec m kvs key Hh) as (r & Hr & Hfound).
  destruct Hh as (Ho & Hp & Hc & Hs & rest & Hrest).
  apply (entry_map_lookup kvs key v0 Ho) in Hk. destruct r as [i|]; [|by destruct (Hfound _ Hk)].
  destruct Hfound as [v1 Hi]. pose proof (zget_Some_range _ _ _ Hi) as Hir.
  unfold set_object. rewrite Hr. cbn [mbind option_bind].
  rewrite zset_in by (rewrite Hrest, zlen_app, zlen_fmap; pose proof (zlen_nonneg rest); lia).
  cbn [mbind option_bind]. set (kvs' := <[Z.to_nat i := (key, v)]> kvs).
  assert (kvs'.*1 = kvs.*1) as Hkeys.
  { subst kvs'. rewrite list_fmap_insert. apply list_insert_id. rewrite list_lookup_fmap.
    rewrite zget_lookup in Hi by lia. by rewrite Hi. }
  assert (ordered kvs') as Ho' by by apply (ordered_keys kvs).
  exists (StringMap (sm_size m) (sm_pos m) (<[Z.to_nat i := Some (key, v)]> (cells m))), kvs'.
  split; [done|]. split.
  { split; [done|]. cbn [sm_pos cells sm_size]. unfold kvs'. rewrite !zlen_insert. split; [done|]. split; [done|].
    split; [done|]. exists rest. rewrite Hrest, insert_app_l.
    - by rewrite list_fmap_insert.
    - rewrite length_fmap. unfold zlen in Hir. lia. }
  split; [done|]. split; [apply zlen_insert|]. apply map_eq. intros k.
  destruct (decide (k = key)) as [->|Hne].
  - rewrite lookup_insert_eq. apply (entry_map_lookup kvs' key v Ho'). apply (list_elem_of_lookup_2 _ (Z.to_nat i)).
    apply list_lookup_insert_eq. unfold zlen in Hir. lia.
  - rewrite lookup_insert_ne by done. apply option_eq. intros x.
    rewrite !entry_map_lookup by done. rewrite !list_elem_of_lookup. rewrite zget_lookup in Hi by lia.
    split; intros [j Hj]; exists j; destruct (decide (j = Z.to_nat i)) as [->|Hji].
    + unfold kvs' in Hj. rewrite list_lookup_insert_eq in Hj by (unfold zlen in Hir; lia). congruence.
    + unfold kvs' in Hj. by rewrite list_lookup_insert_ne in Hj.
    + congruence.
    + unfold kvs'. by rewrite list_lookup_insert_ne.
Qed.

(** A pass in which every call succeeds. *)
Lemma pass_ok {U} (func : list Z → V → U → option (Z * V * U)) (P : list Z → V → V → Prop) kvs (u : U) :
  (∀ k v, (k, v) ∈ kvs → ∃ v', func k v u = Some (0, v', u) ∧ P k v v') →
  ∃ kvs', pass func kvs u = Some (0, kvs', u) ∧ Forall2 (λ a b, a.1 = b.1 ∧ P a.1 a.2 b.2) kvs kvs'.
Proof.
  induction kvs as [|[k v] kvs IH]; intros H; [by exists []|].
  destruct (H k v) as (v' & Hf & HP); [left|]. destruct IH as (kvs' & Hp & HF); [intros; apply H; by right|].
  cbn [pass]. rewrite Hf. cbn [mbind option_bind]. simpl (0 <? 0). cbv iota. rewrite Hp. cbn [mbind option_bind].
  eexists. split; [done|]. by constructor.
Qed.

Lemma entry_map_forall2 (P : list Z → V → V → Prop) kvs kvs' k :
  Forall2 (λ a b, a.1 = b.1 ∧ P a.1 a.2 b.2) kvs kvs' →
  option_Forall2 (P k) (entry_map kvs !! k) (entry_map kvs' !! k).
Proof.
  unfold entry_map. induction 1 as [|[k1 v1] [k2 v2] kvs kvs' [Hk HP] HF IH]; [constructor|].
  simpl in *. subst k2. destruct (decide (k1 = k)) as [->|Hne].
  - rewrite !lookup_insert_eq. by constructor.
  - by rewrite !lookup_insert_ne.
Qed.
End objects.

(** ** The specification *)

Record segment_state := SegState {
  fields : gmap (list Z) hash_field;   (* by key *)
  there : Z → bool;                    (* inserted and not deleted *)
  drows : Z;
  ddels : Z;
  dfails : Z;                          (* documents that could not be indexed *)
  docs : Z → option (list field);      (* the rows *)
  dsize : Z;                           (* bytes that the rows have taken so far *)
  dflag : Z
}.

Inductive segment_op :=
| SData (docid : Z) (fs : list field)
| SUpdate (docid : Z) (new : field)
| SIndex (name : list Z) (docid : Z) (data : low_data_struct)
| SInserted (docid : Z)
| SFailed (docid : Z)
| SDelete (docid : Z)
| SRecover (docid : Z)
| SCheckpoint
| SMmapSwitch
| SCompress
| SSwitch
| SSeal                                (* marked as compressed *)
| SRestart.

Definition hash_key (name : list Z) : list Z := name ++ [32; 50].

(** The documents below [n] that are there. *)
Definition count_there (there : Z → bool) (n : Z) : Z := zlen (filter (λ d, there d = true) (seqZ 0 n)).

Lemma count_ext f g n : (∀ d, 0 ≤ d < n → f d = g d) → count_there f n = count_there g n.
Proof.
  intros H. unfold count_there. f_equal. apply filter_ext_in. intros d Hd%elem_of_seqZ. by rewrite H by lia.
Qed.

Lemma count_app f n m : 0 ≤ n → 0 ≤ m → count_there f (n + m) = count_there f n + zlen (filter (λ d, f d = true) (seqZ n m)).
Proof. intros. unfold count_there. rewrite seqZ_split, filter_app, zlen_app by done. by rewrite Z.add_0_l. Qed.

Lemma count_succ f n : 0 ≤ n → count_there f (n + 1) = count_there f n + if f n then 1 else 0.
Proof.
  intros Hn. rewrite count_app by lia. f_equal. change (seqZ n 1) with [n]. rewrite filter_cons, filter_nil.
  destruct (f n); [by rewrite decide_True|by rewrite decide_False].
Qed.

(** Past the documents there is nothing to count. *)
Lemma count_past f n m : 0 ≤ n ≤ m → (∀ d, f d = true → d < n) → count_there f m = count_there f n.
Proof.
  intros Hn Hf. replace m with (n + (m - n)) by lia. rewrite count_app by lia.
  rewrite filter_none_in; [unfold zlen; simpl; lia|]. intros d Hd%elem_of_seqZ Hfd. apply Hf in Hfd. lia.
Qed.

Lemma count_bound f n : 0 ≤ n → 0 ≤ count_there f n ≤ n.
Proof.
  intros Hn. unfold count_there. split; [apply zlen_nonneg|]. unfold zlen.
  pose proof (length_filter (λ d, f d = true) (seqZ 0 n)) as H. rewrite length_seqZ in H. lia.
Qed.

Lemma count_remove f n d :
  0 ≤ d < n → f d = true → count_there (λ e, negb (bool_decide (e = d)) && f e) n = count_there f n - 1.
Proof.
  intros Hd Hf. replace n with (d + 1 + (n - d - 1)) by lia. rewrite !(count_app _ (d + 1)), !count_succ by lia.
  rewrite bool_decide_eq_true_2, Hf by done. simpl.
  rewrite (count_ext _ f d); [|intros e He; by rewrite bool_decide_eq_false_2 by lia].
  rewrite (filter_ext_in (λ e, negb (bool_decide (e = d)) && f e = true) (λ e, f e = true)); [lia|].
  intros e He%elem_of_seqZ. by rewrite bool_decide_eq_false_2 by lia.
Qed.

Section spec.
Context (get_hash_value : low_data_struct → Z) (nh : Z) `{!HashLaws get_hash_value nh}.
Implicit Types (st : segment_state).

Definition all_fields st (op : field_op) : gmap (list Z) hash_field :=
  (λ s, snd (hash_spec get_hash_value s op)) <$> fields st.

Definition with_fields_spec st (m : gmap (list Z) hash_field) : segment_state :=
  SegState m (there st) (drows st) (ddels st) (dfails st) (docs st) (dsize st) (dflag st).

Definition with_docs st (d : Z) (fs : list field) : segment_state :=
  SegState (fields st) (there st) (drows st) (ddels st) (dfails st)
    (λ e, if decide (e = d) then Some fs else docs st e) (dsize st + zlen (encode_row fs)) (dflag st).

Definition sealed st : bool := negb (Z.land (dflag st) SEGMENT_COMPRESS =? 0).

Definition segment_spec (N : Z) st (op : segment_op) : segment_state :=
  match op with
  | SData d fs => with_docs st d fs
  | SUpdate d new => with_docs st d (set_field (default [] (docs st d)) new)
  | SIndex name d v =>
      with_fields_spec st (alter (λ s, snd (hash_spec get_hash_value s (FInsert d v))) (hash_key name) (fields st))
  | SInserted d =>
      SegState (fields st) (λ e, bool_decide (e = d) || there st e) (d + 1) (ddels st) (dfails st) (docs st)
        (dsize st) (dflag st)
  | SFailed d => SegState (fields st) (there st) (d + 1) (ddels st) (dfails st + 1) (docs st) (dsize st) (dflag st)
  | SDelete d =>
      SegState (fields st) (λ e, negb (bool_decide (e = d)) && there st e) (drows st)
        (if there st d then ddels st + 1 else ddels st) (dfails st) (docs st) (dsize st) (dflag st)
  | SRecover d =>
      if sealed st then st
      else SegState (all_fields st (FRecover d)) (λ e, bool_decide (e < d) && there st e) d
             (d - count_there (there st) d) 0 (λ e, if decide (e < d) then docs st e else None) (dsize st) (dflag st)
  | SCheckpoint => with_fields_spec st (all_fields st FCheckpoint)
  | SMmapSwitch =>
      SegState (all_fields st FMmapSwitch) (there st) (drows st) (ddels st) (dfails st) (docs st) (dsize st)
        (Z.lor (dflag st) SEGMENT_FULL)
  | SCompress => with_fields_spec st (all_fields st FCompress)
  | SSwitch => with_fields_spec st (all_fields st FSwitch)
  | SSeal =>
      SegState (fields st) (there st) (drows st) (ddels st) (dfails st) (docs st) (dsize st)
        (Z.lor (dflag st) SEGMENT_COMPRESS)
  | SRestart => with_fields_spec st (all_fields st (FRestart (drows st =? N)))
  end.

(** The row can be encoded, the pool has memory for it and the store takes it. *)
Definition row_fits (mem : list Z) (fits : Z → Prop) st (fs : list field) : Prop :=
  row_ok fs ∧ 8 ≤ zlen mem ∧ zlen (encode_row fs) ≤ zlen mem ∧ fits (zlen (encode_row fs)) ∧
  dsize st + zlen (encode_row fs) < 2 ^ 64.

(** Documents get the ids in sequence; only an indexed column that the segment
    has takes a value, before it is compressed; a document is recovered to an id
    that was given; the switch follows the compression. *)
Definition segment_op_ok (N : Z) (names : list (list Z)) (mem : list Z) (fits : Z → Prop) st (op : segment_op)
    : Prop :=
  match op with
  | SData d fs => 0 ≤ d < N ∧ row_fits mem fits st fs
  | SUpdate d new => 0 ≤ d < N ∧ ∃ fs, docs st d = Some fs ∧ row_fits mem fits st (set_field fs new)
  | SIndex name d v =>
      name ∈ names ∧ ∃ s, fields st !! hash_key name = Some s ∧ packed s = false ∧
        field_op_ok get_hash_value nh N s (FInsert d v)
  | SInserted d | SFailed d => d = drows st ∧ d < N
  | SDelete d => 0 ≤ d < drows st
  | SRecover d => 0 ≤ d ≤ drows st ∧ d < N
  | SSwitch => map_Forall (λ _ s, packed s = true ∨ is_Some (built s)) (fields st)
  | _ => True
  end.

Fixpoint segment_ops_ok (N : Z) (names : list (list Z)) (mem : list Z) (fits : Z → Prop) st (ops : list segment_op)
    : Prop :=
  match ops with
  | [] => True
  | op :: ops =>
      segment_op_ok N names mem fits st op ∧ segment_ops_ok N names mem fits (segment_spec N st op) ops
  end.
End spec.

(** ** The segment *)

Section impl.
Context {S : Type} `{!Column S, !ColumnLaws S}.
Context (get_hash_value : low_data_struct → Z) (nh : Z) `{!HashLaws get_hash_value nh}.
Context (shared : bool) (junk : Z) (qsort : (Z → Z → Z) → list Z → list Z) `{!QsortLaws qsort}.
Context (N : Z) (HN : 0 < N) (Hmax : 16 * (N + 1) < 2 ^ 31).
Context (names : list (list Z)) (Hnames : Forall (λ name, zlen name < MAX_FIELD_NAME) names).
Context (Hcount : zlen names ≤ MAX_INDEX_FIELD_NUM) (types : list Z → field_types) (now num : Z).
Context (mem : list Z) (fits : Z → Prop).
Let env := calm shared junk qsort.
Implicit Types (seg : segment_manager S) (st : segment_state).

(** A hash index on every column of [names], for values of the column's type. *)
Definition hash_fields (names : list (list Z)) : list index_field_meta :=
  (λ name, FieldMeta name [IndexStat HI_KEY_ALG_HASH (types name) 1]) <$> names.

(** The table marks a full segment before it is moved to shared memory.  The row
    store keeps its rows in files and shared mappings. *)
Definition segment_step seg (op : segment_op) : option (Z * segment_manager S) :=
  match op with
  | SData d fs => segment_data_insert now mem seg (Row fs (zlen fs)) d
  | SUpdate d new => '(rc, _, seg) ← segment_data_update mem seg d new; Some (rc, seg)
  | SIndex name d v => segment_index_insert env get_hash_value seg (Field name v) HI_KEY_ALG_HASH d
  | SInserted d => '(rc, seg) ← segment_set_docid_inserted seg d; Some (rc, segment_set_rowcount seg d)
  | SFailed d => Some (0, segment_set_rowcount seg d)
  | SDelete d => segment_del_docid now seg d
  | SRecover d => segment_recover seg d
  | SCheckpoint => seg ← segment_checkpoint env seg; Some (0, seg)
  | SMmapSwitch =>
      segment_mmap_switch env (true, true) (true, true) (λ _, (true, true)) (λ _, (true, true))
        (segment_set_flag seg SEGMENT_FULL)
  | SCompress => segment_compress env seg
  | SSwitch => segment_compress_switch seg
  | SSeal => Some (0, segment_set_flag seg SEGMENT_COMPRESS)
  | SRestart =>
      '(mark, s, ds) ← segment_release env seg;
      r ← segment_init env now true (λ _, true) (seg_limit seg) num (meta seg) mark (Some s) ds (hash_fields names);
      match r with NULL => None | Ptr seg => Some (0, seg) end
  end.

(** All steps return 0, or the run stops. *)
Fixpoint segment_run seg (ops : list segment_op) : option (segment_manager S) :=
  match ops with
  | [] => Some seg
  | op :: ops => '(rc, seg) ← segment_step seg op; if rc =? 0 then segment_run seg ops else None
  end.

(** The string map [m] holds the fields [fs]. *)
Definition fields_rep (fs : gmap (list Z) hash_field) (m : string_map index_field_manager) : Prop :=
  ∃ kvs, holds_entries m kvs ∧ sm_size m = MAX_INDEX_FIELD_NUM * MAX_INDEX_PER_FIELD ∧
    ∀ k, option_Forall2 (field_rep nh N) (fs !! k) (entry_map kvs !! k).

Record seg_rep st seg : Prop := {
  sr_limit : seg_limit seg = N;
  sr_flag : seg_flag (meta seg) = dflag st;
  sr_fields : fields_rep (fields st) (index_fields seg);
  sr_names : dom (fields st) = list_to_set (hash_key <$> names);
  sr_mark : bitmark_wf (del_bitmap seg);
  sr_mlimit : row_limit (del_bitmap seg) = N;
  sr_bits : ∀ d, bit (del_bitmap seg) d = there st d;
  sr_store : col_wf (data_field seg);
  sr_slimit : col_limit (data_field seg) = N;
  sr_docs : ∀ d, 0 ≤ d < N → col_val (data_field seg) d = encode_row <$> docs st d;
  sr_rowok : ∀ d fs, docs st d = Some fs → row_ok fs;
  sr_fits : ∀ k, fits k → col_fits (data_field seg) k;
  sr_size : col_size (data_field seg) ≤ dsize st;
  sr_rows : row_count (meta seg) = drows st;
  sr_dels : del_count (meta seg) = ddels st;
  sr_range : 0 ≤ drows st ≤ N;
  sr_pos : 0 ≤ ddels st ∧ 0 ≤ dfails st;
  sr_there : ∀ d, there st d = true → 0 ≤ d < drows st;
  sr_count : count_there (there st) (drows st) + ddels st + dfails st = drows st
}.

Lemma name_key name : name ∈ names → index_key name HI_KEY_ALG_HASH = Some (hash_key name).
Proof.
  intros Hin. rewrite Forall_forall in Hnames. specialize (Hnames name Hin). unfold index_key, hash_key.
  cbn [alg_code]. change (48 + 2) with 50. rewrite zlen_app. unfold MAX_FIELD_NAME in *.
  change (zlen [32; 50]) with 2. by rewrite (proj2 (Z.ltb_lt _ _)) by lia.
Qed.

(** *** Fields *)

Lemma fields_get fs m name s :
  fields_rep fs m → fs !! hash_key name = Some s →
  ∃ f, string_map_get m (hash_key name) = Some (Some f) ∧ field_rep nh N s f.
Proof.
  intros (kvs & Hh & _ & Hrel) Hs. specialize (Hrel (hash_key name)). rewrite Hs in Hrel.
  rewrite (get_spec m kvs _ Hh). inversion Hrel as [? f Hf E1 E2|]; subst. eauto.
Qed.

Lemma fields_set fs m key s f :
  fields_rep fs m → is_Some (fs !! key) → field_rep nh N s f →
  ∃ m', set_object m key f = Some m' ∧ fields_rep (<[key := s]> fs) m'.
Proof.
  intros (kvs & Hh & Hs & Hrel) [s0 Hs0] Hf. pose proof (Hrel key) as Hk. rewrite Hs0 in Hk.
  inversion Hk as [? f0 _ E1 E2|]; subst. symmetry in E2.
  destruct (set_object_spec m kvs key f0 f Hh E2) as (m' & kvs' & -> & Hh' & Hs' & _ & He).
  exists m'. split; [done|]. exists kvs'. split; [done|]. split; [congruence|]. intros k. rewrite He.
  destruct (decide (k = key)) as [->|Hne].
  - rewrite !lookup_insert_eq. by constructor.
  - rewrite !lookup_insert_ne by done. apply Hrel.
Qed.

(** A pass over all fields in which each takes the step [op]. *)
Lemma for_each_fields fs seg (call : index_field_manager → option (Z * index_field_manager)) op :
  fields_rep fs (index_fields seg) →
  (∀ k s f, fs !! k = Some s → field_rep nh N s f →
     ∃ f', call f = Some (0, f') ∧ field_rep nh N (snd (hash_spec get_hash_value s op)) f') →
  ∃ m, for_each_field seg call = Some (0, with_fields seg m) ∧
    fields_rep ((λ s, snd (hash_spec get_hash_value s op)) <$> fs) m.
Proof.
  intros (kvs & Hh & Hsz & Hrel) Hcall.
  set (P := λ k (_ f' : index_field_manager),
    ∀ s, fs !! k = Some s → field_rep nh N (snd (hash_spec get_hash_value s op)) f').
  destruct (pass_ok (λ _ f (u : unit), '(rc, f) ← call f; Some (rc, f, u)) P kvs ()) as (kvs' & Hp & HF).
  { intros k f Hin. apply (entry_map_lookup kvs k f (proj1 Hh)) in Hin. pose proof (Hrel k) as Hk. rewrite Hin in Hk.
    inversion Hk as [s ? Hf E1 E2|]; subst. symmetry in E1.
    destruct (Hcall k s f E1 Hf) as (f' & -> & Hf'). cbn [mbind option_bind]. eexists. split; [done|].
    intros s' Hs'. assert (s' = s) as -> by congruence. done. }
  destruct (for_each_spec _ (index_fields seg) kvs () 0 kvs' () Hh Hp) as (m & Hm & Hh' & Hs').
  exists m. unfold for_each_field. rewrite Hm. split; [done|]. exists kvs'. split; [done|]. split; [congruence|].
  intros k. rewrite lookup_fmap. specialize (Hrel k).
  pose proof (entry_map_forall2 P kvs kvs' k HF) as Hk.
  destruct (fs !! k) as [s|] eqn:Es; inversion Hrel as [? f Hf E1 E2|E1 E2]; subst; rewrite <- E2 in Hk;
    inversion Hk as [? f' Hf' E3 E4|E3]; subst; constructor. by apply Hf'.
Qed.

(** The step of a field that the code counts as a success. *)
Lemma call_step s f op :
  field_op_ok get_hash_value nh N s op → field_rep nh N s f → fst (hash_spec get_hash_value s op) ≠ ERROR_COMMPRESS_FAIL →
  ∃ f', unless_failed (λ f, field_step env get_hash_value f op) f = Some (0, f') ∧
    field_rep nh N (snd (hash_spec get_hash_value s op)) f'.
Proof.
  intros Hop Hf Hrc. destruct (step_spec get_hash_value nh shared junk qsort N Hmax s f op Hop Hf) as (f' & Hst & Hf').
  exists f'. split; [|done]. unfold unless_failed. fold env in Hst. rewrite Hst. cbn [mbind option_bind].
  by rewrite (proj2 (Z.eqb_neq _ _)).
Qed.

(** *** Steps *)

Ltac seg_simpl :=
  cbn [segment_set_rowcount with_mark with_meta with_data with_fields seg_limit meta del_bitmap data_field index_fields
       seg_flag row_count del_count set_row_count set_del_count set_modify set_seg_flag segment_set_flag
       drows ddels dfails there fields docs dsize dflag with_docs].

Definition goes st seg (op : segment_op) : Prop :=
  ∃ seg', segment_step seg op = Some (0, seg') ∧ seg_rep (segment_spec get_hash_value N st op) seg'.

Lemma seg_rep_fields st seg fs m :
  seg_rep st seg → fields_rep fs m → dom fs = dom (fields st) →
  seg_rep (with_fields_spec st fs) (with_fields seg m).
Proof. intros [] Hf Hd. split; try done. cbn [fields with_fields_spec]. congruence. Qed.

Lemma all_fields_dom st op : dom (all_fields get_hash_value st op) = dom (fields st).
Proof. apply dom_fmap_L. Qed.

Lemma index_goes st seg name d v :
  seg_rep st seg → segment_op_ok get_hash_value nh N names mem fits st (SIndex name d v) → goes st seg (SIndex name d v).
Proof.
  intros Hrep (Hin & s & Hs & Hp & Hop). unfold goes. cbn [segment_step segment_spec].
  unfold segment_index_insert, segment_get_index_instance. cbn [field_name fdata]. rewrite (name_key name Hin).
  cbn [mbind option_bind]. pose proof (sr_fields _ _ Hrep) as Hf.
  destruct (fields_get _ _ _ _ Hf Hs) as (f & -> & Hfr). cbn [mbind option_bind option_ptr].
  destruct (step_spec get_hash_value nh shared junk qsort N Hmax s f (FInsert d v) Hop Hfr) as (f' & Hst & Hfr').
  cbn [field_step] in Hst. fold env in Hst. rewrite Hst. cbn [mbind option_bind].
  unfold put_field_back. rewrite (name_key name Hin). cbn [mbind option_bind].
  destruct (fields_set _ _ (hash_key name) _ f' Hf ltac:(by exists s) Hfr') as (m & -> & Hm). cbn [mbind option_bind].
  eexists. split; [unfold hash_spec; by rewrite Hp|].
  assert (alter (λ s, snd (hash_spec get_hash_value s (FInsert d v))) (hash_key name) (fields st)
    = <[hash_key name := snd (hash_spec get_hash_value s (FInsert d v))]> (fields st)) as ->.
  { apply map_eq. intros k. destruct (decide (hash_key name = k)) as [<-|Hne].
    - by rewrite lookup_alter_eq, lookup_insert_eq, Hs.
    - by rewrite lookup_alter_ne, lookup_insert_ne. }
  apply seg_rep_fields; try done. rewrite dom_insert_L. apply elem_of_dom_2 in Hs. set_solver.
Qed.

Lemma inserted_goes st seg d : seg_rep st seg → d = drows st → d < N → goes st seg (SInserted d).
Proof.
  intros Hrep Hd HdN. pose proof Hrep as [Hl Hfl Hf Hn Hm Hml Hb Hs Hsl Hv Hro Hfi Hsz Hr Hde Hrg Hpos Hth Hc].
  unfold goes. cbn [segment_step segment_spec]. unfold segment_set_docid_inserted. rewrite Hl, geb_false by lia.
  destruct (bitmark_set_spec (del_bitmap seg) d Hm) as (bm & -> & Hbw & Hbl & Hbb); [lia|]. cbn [mbind option_bind].
  eexists. split; [done|]. split; seg_simpl; try done; try lia; try congruence.
  - intros e. rewrite Hbb, Hb. rewrite orb_comm. f_equal. by destruct (Z.eqb_spec e d); case_bool_decide.
  - apply u32_small. lia.
  - intros e [->%bool_decide_eq_true|He%Hth]%orb_prop; lia.
  - subst d. rewrite count_succ by lia. rewrite bool_decide_eq_true_2 by done. simpl.
    rewrite (count_ext _ (there st)); [lia|]. intros e He. by rewrite bool_decide_eq_false_2 by lia.
Qed.

Lemma failed_goes st seg d : seg_rep st seg → d = drows st → d < N → goes st seg (SFailed d).
Proof.
  intros Hrep Hd HdN. pose proof Hrep as [Hl Hfl Hf Hn Hm Hml Hb Hs Hsl Hv Hro Hfi Hsz Hr Hde Hrg Hpos Hth Hc].
  unfold goes. cbn [segment_step segment_spec].
  eexists. split; [done|]. split; seg_simpl; try done; try lia; try congruence.
  - apply u32_small. lia.
  - intros e He%Hth. lia.
  - subst d. rewrite count_succ by lia. destruct (there st (drows st)) eqn:E; [apply Hth in E; lia|lia].
Qed.

Lemma delete_goes st seg d : seg_rep st seg → 0 ≤ d < drows st → goes st seg (SDelete d).
Proof.
  intros Hrep Hd. pose proof Hrep as [Hl Hfl Hf Hn Hm Hml Hb Hs Hsl Hv Hro Hfi Hsz Hr Hde Hrg Hpos Hth Hc].
  unfold goes. cbn [segment_step segment_spec]. unfold segment_del_docid. cbn [seg_limit with_meta del_bitmap].
  rewrite Hl, geb_false by lia.
  destruct (bitmark_clear_spec (del_bitmap seg) d Hm) as (bm & -> & Hbw & Hbl & Hbb); [lia|]. cbn [mbind option_bind].
  rewrite Hb. pose proof (count_bound (there st) (drows st) ltac:(lia)).
  assert (∀ e, bit bm e = negb (bool_decide (e = d)) && there st e) as Hbits.
  { intros e. rewrite Hbb, Hb, andb_comm. f_equal. f_equal. by destruct (Z.eqb_spec e d); case_bool_decide. }
  destruct (there st d) eqn:Et; eexists; (split; [done|]); split; seg_simpl; try done; try lia; try congruence.
  - rewrite Hde. apply u32_small. lia.
  - intros e [_ He%Hth]%andb_prop. lia.
  - rewrite count_remove by done. lia.
  - intros e [_ He%Hth]%andb_prop. lia.
  - rewrite (count_ext _ (there st)); [lia|]. intros e He.
    destruct (decide (e = d)) as [->|Hne]; [by rewrite Et, andb_false_r|by rewrite bool_decide_eq_false_2].
Qed.

Lemma recover_goes st seg d : seg_rep st seg → 0 ≤ d ≤ drows st → d < N → goes st seg (SRecover d).
Proof.
  intros Hrep Hd HdN. pose proof Hrep as [Hl Hfl Hf Hn Hm Hml Hb Hs Hsl Hv Hro Hfi Hsz Hr Hde Hrg Hpos Hth Hc].
  unfold goes. cbn [segment_step segment_spec]. unfold segment_recover, sealed. rewrite Hfl.
  destruct (Z.land (dflag st) SEGMENT_COMPRESS =? 0); simpl negb; cbv iota; [|by exists seg].
  destruct (bitmark_recover_spec (del_bitmap seg) d Hm) as (bm & -> & Hbw & Hbl & Hbb); [lia|]. cbn [mbind option_bind].
  simpl (0 =? 0). simpl negb. cbv iota. unfold data_field_recover. cbn [data_field with_mark].
  destruct (col_recover_ok (data_field seg) d Hs) as (s' & -> & (Hw' & Hl' & Hfi' & Hsz') & Hv'); [lia|]. cbn [mbind option_bind].
  simpl (0 =? 0). simpl negb. cbv iota.
  destruct (for_each_fields (fields st) (with_data (with_mark seg bm) s') (index_recover_iterator_func d) (FRecover d))
    as (m & -> & Hm'); [done| |].
  { intros k s f Es Hfr. destruct (step_spec get_hash_value nh shared junk qsort N Hmax s f (FRecover d)) as (f' & Hst & Hf');
      [simpl; lia|done|]. exists f'. split; [|done]. cbn [field_step] in Hst. unfold index_recover_iterator_func.
    rewrite Hst. unfold hash_spec. by destruct (packed s). }
  cbn [mbind option_bind]. simpl (0 =? 0). simpl negb. cbv iota. seg_simpl.
  rewrite bitmark_count_marks by (done || lia). cbn [mbind option_bind].
  assert (∀ e, bit bm e = bool_decide (e < d) && there st e) as Hbits.
  { intros e. rewrite Hbb, Hb, andb_comm. f_equal. destruct (Z.ltb_spec e d); case_bool_decide; done || lia. }
  assert (zlen (marks bm) = count_there (there st) d) as Hcnt.
  { change (zlen (marks bm)) with (count_there (bit bm) (row_limit bm)). rewrite (count_past _ d); [|lia|].
    2:{ intros e. rewrite Hbits. intros [He _]%andb_prop. by apply bool_decide_eq_true in He. }
    apply count_ext. intros e He. rewrite Hbits. by rewrite bool_decide_eq_true_2 by lia. }
  pose proof (count_bound (there st) d ltac:(lia)).
  rewrite Hcnt, (proj2 (Z.ltb_ge _ _)), u32_small by lia. eexists. split; [done|].
  split; seg_simpl; try done; try lia; try congruence.
  - rewrite all_fields_dom. done.
  - intros e He. rewrite Hv' by lia. destruct (decide (e < d)); [by apply Hv|done].
  - intros e fs. case_decide; [apply Hro|done].
  - intros k Hk. by apply Hfi', Hfi.
  - intros e [?%bool_decide_eq_true He%Hth]%andb_prop. lia.
  - rewrite (count_ext _ (there st)); [lia|]. intros e He. by rewrite bool_decide_eq_true_2 by lia.
Qed.

Lemma checkpoint_goes st seg : seg_rep st seg → goes st seg SCheckpoint.
Proof.
  intros Hrep. unfold goes. cbn [segment_step segment_spec]. unfold segment_checkpoint.
  destruct (for_each_fields (fields st) seg (index_checkpoint_iterator_func env) FCheckpoint (sr_fields _ _ Hrep))
    as (m & -> & Hm').
  { intros k s f Es Hfr. destruct (step_spec get_hash_value nh shared junk qsort N Hmax s f FCheckpoint) as (f' & Hst & Hf');
      [done|done|]. exists f'. split; [|done]. cbn [field_step] in Hst. fold env in Hst.
    unfold index_checkpoint_iterator_func. rewrite Hst. unfold hash_spec. by destruct (packed s). }
  cbn [mbind option_bind]. eexists. split; [done|]. apply seg_rep_fields; [done|done|apply all_fields_dom].
Qed.

Lemma mmap_goes st seg : seg_rep st seg → goes st seg SMmapSwitch.
Proof.
  intros Hrep. unfold goes. cbn [segment_step segment_spec]. unfold segment_mmap_switch. cbn [meta segment_set_flag with_meta].
  cbn [seg_flag set_seg_flag].
  assert (Z.land (Z.lor (seg_flag (meta seg)) SEGMENT_FULL) SEGMENT_FULL =? 0 = false) as ->.
  { apply Z.eqb_neq. rewrite Z.land_lor_distr_l, Z.land_diag. intros E%Z.lor_eq_0_iff. by destruct E. }
  destruct (for_each_fields (fields st) (segment_set_flag seg SEGMENT_FULL)
    (mmap_switch_iterator_func env (true, true) (true, true) (λ _, (true, true)) (λ _, (true, true))) FMmapSwitch
    (sr_fields _ _ Hrep)) as (m & -> & Hm').
  { intros k s f Es Hfr. destruct (step_spec get_hash_value nh shared junk qsort N Hmax s f FMmapSwitch) as (f' & Hst & Hf');
      [done|done|]. exists f'. split; [|done]. cbn [field_step] in Hst. fold env in Hst.
    unfold mmap_switch_iterator_func. rewrite Hst. unfold hash_spec. by destruct (packed s). }
  eexists. split; [done|]. destruct Hrep. split; seg_simpl; try done; [congruence|by rewrite all_fields_dom].
Qed.

Lemma seal_goes st seg : seg_rep st seg → goes st seg SSeal.
Proof. intros []. eexists. split; [done|]. cbn [segment_spec]. split; seg_simpl; try done. congruence. Qed.

(** The row [fs] is written for document [d]. *)
Lemma write_rep st seg m s d fs :
  seg_rep st seg → 0 ≤ d < N → row_at s d fs → next (data_field seg) s (zlen (encode_row fs)) →
  (∀ e, 0 ≤ e < N → e ≠ d → col_val s e = col_val (data_field seg) e) →
  seg_flag m = seg_flag (meta seg) → row_count m = row_count (meta seg) → del_count m = del_count (meta seg) →
  seg_rep (with_docs st d fs) (with_data (with_meta seg m) s).
Proof.
  intros Hrep Hd (Hw & _ & Hval & Hok) (_ & Hl' & Hfi' & Hsz') Hother E1 E2 E3.
  pose proof Hrep as [Hl Hfl Hf Hn Hm Hml Hb Hs Hsl Hv Hro Hfi Hsz Hr Hde Hrg Hpos Hth Hc].
  split; seg_simpl; try done; try congruence; try lia.
  - intros e He. case_decide; [by subst|]. rewrite Hother by done. by apply Hv.
  - intros e fs'. case_decide; [by intros [= <-]|apply Hro].
  - intros k Hk. by apply Hfi', Hfi.
Qed.

Lemma fits_room st seg fs : seg_rep st seg → row_fits mem fits st fs → room mem (data_field seg) fs.
Proof.
  intros Hrep (_ & H8 & Hmem & Hfit & Hsz). pose proof (sr_fits _ _ Hrep _ Hfit). pose proof (sr_size _ _ Hrep).
  repeat split; try done. lia.
Qed.

Lemma rep_row st seg d fs : seg_rep st seg → 0 ≤ d < N → docs st d = Some fs → row_at (data_field seg) d fs.
Proof.
  intros Hrep Hd Hfs. split; [apply Hrep|]. split; [by rewrite (sr_slimit _ _ Hrep)|].
  split; [by rewrite (sr_docs _ _ Hrep), Hfs by done|by eapply (sr_rowok _ _ Hrep)].
Qed.

Lemma data_goes st seg d fs : seg_rep st seg → 0 ≤ d < N → row_fits mem fits st fs → goes st seg (SData d fs).
Proof.
  intros Hrep Hd Hfit. unfold goes. cbn [segment_step segment_spec]. unfold segment_data_insert.
  pose proof (sr_slimit _ _ Hrep) as Hsl.
  destruct (insert_row_spec mem (data_field seg) d fs) as (s' & Hi & Hr' & Hn & Hother);
    [apply Hrep|by rewrite Hsl|apply Hfit|by eapply fits_room|].
  cbn [data_field with_meta]. rewrite Hi. cbn [mbind option_bind]. eexists. split; [done|].
  apply write_rep; try done. by rewrite <- Hsl.
Qed.

Lemma update_goes st seg d new fs :
  seg_rep st seg → 0 ≤ d < N → docs st d = Some fs → row_fits mem fits st (set_field fs new) →
  goes st seg (SUpdate d new).
Proof.
  intros Hrep Hd Hfs Hfit. unfold goes. cbn [segment_step segment_spec]. unfold segment_data_update.
  pose proof (sr_slimit _ _ Hrep) as Hsl. rewrite (sr_limit _ _ Hrep), geb_false by lia.
  destruct (update_row_spec mem (data_field seg) d fs new) as (s' & Hi & Hr' & Hn & Hother);
    [by eapply rep_row|apply Hfit|by eapply fits_room|].
  rewrite Hi. cbn [mbind option_bind]. eexists. split; [done|]. rewrite Hfs. cbn [default].
  pose proof (write_rep st seg (meta seg) s' d (set_field fs new) Hrep Hd Hr' Hn) as H. rewrite Hsl in Hother.
  specialize (H Hother eq_refl eq_refl eq_refl). by destruct seg.
Qed.

Lemma compress_goes st seg : seg_rep st seg → goes st seg SCompress.
Proof.
  intros Hrep. destruct (checkpoint_goes st seg Hrep) as (seg1 & H1 & Hrep1). unfold goes.
  cbn [segment_step segment_spec] in *. unfold segment_compress.
  destruct (segment_checkpoint env seg) as [seg0|]; [|done]. cbn [mbind option_bind] in *. injection H1 as ->.
  assert (all_fields get_hash_value st FCheckpoint = fields st) as E.
  { unfold all_fields. transitivity (id <$> fields st); [|apply map_fmap_id]. apply map_fmap_ext.
    intros k s _. unfold hash_spec. by destruct (packed s). }
  rewrite E in Hrep1. replace (with_fields_spec st (fields st)) with st in Hrep1 by by destruct st.
  destruct (for_each_fields (fields st) seg1 (index_compress_iterator_func env) FCompress (sr_fields _ _ Hrep1))
    as (m & -> & Hm').
  { intros k s f Es Hfr. apply (call_step s f FCompress); [done|done|]. unfold hash_spec. by destruct (packed s). }
  eexists. split; [done|]. apply seg_rep_fields; [done|done|apply all_fields_dom].
Qed.

Lemma switch_goes st seg :
  seg_rep st seg → map_Forall (λ _ s, packed s = true ∨ is_Some (built s)) (fields st) → goes st seg SSwitch.
Proof.
  intros Hrep Hall. unfold goes. cbn [segment_step segment_spec]. unfold segment_compress_switch.
  destruct (for_each_fields (fields st) seg index_switch_iterator_func FSwitch (sr_fields _ _ Hrep)) as (m & -> & Hm').
  { intros k s f Es Hfr. apply (call_step s f FSwitch); [done|done|]. unfold hash_spec. apply Hall in Es.
    destruct (packed s); [done|]. destruct Es as [|[kh ->]]; done. }
  eexists. split; [done|]. apply seg_rep_fields; [done|done|apply all_fields_dom].
Qed.

(** *** Opening *)

Definition put_names (G : list Z → hash_field) (fs : gmap (list Z) hash_field) (l : list (list Z))
    : gmap (list Z) hash_field :=
  foldl (λ m name, <[hash_key name := G (hash_key name)]> m) fs l.

Lemma put_names_lookup G fs l k :
  put_names G fs l !! k = if decide (k ∈ hash_key <$> l) then Some (G k) else fs !! k.
Proof.
  revert fs. induction l as [|name l IH]; intros fs; cbn [put_names foldl]; [by rewrite decide_False by apply not_elem_of_nil|].
  change (foldl _ _ l) with (put_names G (<[hash_key name := G (hash_key name)]> fs) l). rewrite IH, fmap_cons.
  destruct (decide (k = hash_key name)) as [->|Hne].
  - rewrite lookup_insert_eq. rewrite (decide_True (P:=hash_key name ∈ hash_key name :: _)) by left. by case_decide.
  - rewrite lookup_insert_ne by done. destruct (decide (k ∈ hash_key <$> l)) as [Hin|Hin].
    + by rewrite decide_True by by right.
    + by rewrite decide_False by (by rewrite not_elem_of_cons).
Qed.

(** What opening fields leaves as it is. *)
Definition same_rest seg seg' : Prop :=
  seg_limit seg' = seg_limit seg ∧ seg_compress_num seg' = seg_compress_num seg ∧ del_bitmap seg' = del_bitmap seg ∧
  data_field seg' = data_field seg ∧ dirs seg' = dirs seg ∧ seg_flag (meta seg') = seg_flag (meta seg) ∧
  row_count (meta seg') = row_count (meta seg) ∧ del_count (meta seg') = del_count (meta seg) ∧
  create_time (meta seg') = create_time (meta seg).

Lemma fields_room (fs : gmap (list Z) hash_field) (m : string_map index_field_manager) kvs :
  (∀ k, option_Forall2 (field_rep nh N) (fs !! k) (entry_map kvs !! k)) → holds_entries m kvs →
  zlen kvs = Z.of_nat (size fs).
Proof.
  intros Hrel [Ho _]. rewrite <- entries_size by done. rewrite <- !size_dom. do 2 f_equal. apply set_eq.
  intros k. rewrite !elem_of_dom. destruct (Hrel k); split; intros [? ?]; eauto; done.
Qed.

Lemma ensure_spec seg fs name s :
  seg_limit seg = N → fields_rep fs (index_fields seg) → Z.of_nat (size fs) < 1000 → name ∈ names →
  (∃ f, index_field_init env true (dirs seg name HI_KEY_ALG_HASH) HI_KEY_ALG_HASH N (seg_compress_num seg)
          (row_count (meta seg) =? N) = Some (Ptr f) ∧ field_rep nh N s f) →
  ∃ seg', segment_ensure_index env now true seg name HI_KEY_ALG_HASH = Some (0, seg') ∧ same_rest seg seg' ∧
    fields_rep (<[hash_key name := s]> fs) (index_fields seg').
Proof.
  intros Hl (kvs & Hh & Hsz & Hrel) Hsize Hin (f & Hf & Hfr). unfold segment_ensure_index.
  assert (same_rest seg (touch seg now) ∧ index_fields (touch seg now) = index_fields seg) as [Hsame Hix].
  { unfold touch. destruct (modify_time (meta seg) =? 0); done. }
  set (seg0 := touch seg now) in *. clearbody seg0. destruct Hsame as (E1 & E2 & E3 & E4 & E5 & E6 & E7 & E8 & E9).
  pose proof Hnames as Hn. rewrite Forall_forall in Hn. specialize (Hn name Hin).
  rewrite (proj2 (Z.leb_gt _ _)) by done. rewrite E5, E1, E2, E7, Hl, Hf. cbn [mbind option_bind].
  rewrite (name_key name Hin), Hix. cbn [mbind option_bind].
  destruct (map_put_spec (index_fields seg) kvs (hash_key name) f Hh) as (m & kvs' & -> & Hh' & Hs' & He).
  { rewrite (fields_room fs _ kvs Hrel Hh), Hsz. unfold MAX_INDEX_FIELD_NUM, MAX_INDEX_PER_FIELD. lia. }
  cbn [mbind option_bind]. eexists. split; [done|]. split; [done|]. exists kvs'. split; [done|].
  split; [cbn [index_fields with_fields]; congruence|]. intros k. rewrite He.
  destruct (decide (k = hash_key name)) as [->|Hne].
  - rewrite !lookup_insert_eq. by constructor.
  - rewrite !lookup_insert_ne by done. apply Hrel.
Qed.

Lemma ensure_names G l fs seg :
  seg_limit seg = N → fields_rep fs (index_fields seg) → Z.of_nat (size fs) + zlen l ≤ 1000 → l ⊆ names →
  (∀ name, name ∈ l → ∃ f, index_field_init env true (dirs seg name HI_KEY_ALG_HASH) HI_KEY_ALG_HASH N
     (seg_compress_num seg) (row_count (meta seg) =? N) = Some (Ptr f) ∧ field_rep nh N (G (hash_key name)) f) →
  ∃ seg', ensure_fields env now (λ _, true) seg (hash_fields l) = Some seg' ∧ same_rest seg seg' ∧
    fields_rep (put_names G fs l) (index_fields seg').
Proof.
  revert fs seg. induction l as [|name l IH]; intros fs seg Hl Hf Hsize Hsub Hinit; [by exists seg|].
  cbn [hash_fields fmap list_fmap ensure_fields meta_name indexs ensure_types ix_type].
  unfold zlen in Hsize. simpl in Hsize.
  destruct (ensure_spec seg fs name (G (hash_key name)) Hl Hf) as (seg1 & -> & Hs1 & Hf1);
    [lia|apply Hsub; left|apply Hinit; left|]. cbn [mbind option_bind].
  pose proof Hs1 as (E1 & E2 & E3 & E4 & E5 & E6 & E7 & E8 & E9).
  destruct (IH (<[hash_key name := G (hash_key name)]> fs) seg1) as (seg2 & H2 & Hs2 & Hf2).
  - congruence.
  - done.
  - rewrite map_size_insert. unfold zlen. destruct (fs !! hash_key name); simpl; lia.
  - intros x Hx. apply Hsub. by right.
  - intros x Hx. rewrite E5, E2, E7. apply Hinit. by right.
  - exists seg2. split; [exact H2|]. split; [|done]. destruct Hs2 as (F1 & F2 & F3 & F4 & F5 & F6 & F7 & F8 & F9).
    repeat split; congruence.
Qed.

(** *** Closing *)

Lemma release_pass kvs ds :
  NoDup kvs.*1 → (∀ k f, (k, f) ∈ kvs → is_Some (index_field_release env f)) →
  ∃ ds', pass (index_release_iterator_func env) kvs ds = Some (0, kvs, ds') ∧
    (∀ n t k f, (k, f) ∈ kvs → index_key n t = Some k → index_field_release env f = Some (ds' n t)) ∧
    (∀ n t, (∀ k, k ∈ kvs.*1 → index_key n t ≠ Some k) → ds' n t = ds n t).
Proof.
  revert ds. induction kvs as [|[k f] kvs IH]; intros ds Hnd Hrel.
  { exists ds. split; [done|]. split; [|done]. intros n t k f Hin. by apply not_elem_of_nil in Hin. }
  rewrite fmap_cons in Hnd. apply NoDup_cons in Hnd as [Hk Hnd]. simpl in Hk.
  destruct (Hrel k f) as [d Hd]; [left|]. cbn [pass].
  assert (index_release_iterator_func env k f ds = Some (0, f, λ n t, if decide (index_key n t = Some k) then d else ds n t)) as ->
    by (unfold index_release_iterator_func; by rewrite Hd). cbn [mbind option_bind]. simpl (0 <? 0). cbv iota.
  destruct (IH (λ n t, if decide (index_key n t = Some k) then d else ds n t) Hnd) as (ds' & -> & Hin & Hout).
  { intros k' f' Hin. apply (Hrel k'). by right. }
  cbn [mbind option_bind]. exists ds'. split; [done|]. split.
  - intros n t k' f' [[= -> ->]|Hin']%elem_of_cons Ek; [|by eapply Hin].
    rewrite Hout; [by rewrite decide_True|]. intros k'' Hk'' Ek''. congruence.
  - intros n t Hnot. rewrite Hout.
    + rewrite decide_False; [done|]. apply Hnot. rewrite fmap_cons. left.
    + intros k'' Hk''. apply Hnot. rewrite fmap_cons. by right.
Qed.

Lemma release_seg st seg :
  seg_rep st seg →
  ∃ ds, segment_release env seg = Some (mem_mmaped (del_bitmap seg), data_field seg, ds) ∧
    ∀ name s, name ∈ names → fields st !! hash_key name = Some s →
      ∃ f, field_rep nh N s f ∧ index_field_release env f = Some (ds name HI_KEY_ALG_HASH).
Proof.
  intros Hrep. destruct (sr_fields _ _ Hrep) as (kvs & Hh & _ & Hrel). pose proof (proj1 Hh) as Ho.
  assert (∀ k f, (k, f) ∈ kvs → ∃ s, fields st !! k = Some s ∧ field_rep nh N s f) as Hfs.
  { intros k f Hin%(entry_map_lookup kvs k f Ho). specialize (Hrel k). rewrite Hin in Hrel.
    inversion Hrel as [s ? Hf E1 E2|]; subst. eauto. }
  destruct (release_pass kvs (dirs seg) (ordered_NoDup kvs Ho)) as (ds & Hp & Hin & _).
  { intros k f (s & _ & Hf)%Hfs. destruct (reopen_field get_hash_value nh shared junk qsort N Hmax s f Hf) as (d & Hd & _).
    by exists d. }
  destruct (for_each_spec _ (index_fields seg) kvs _ 0 kvs ds Hh Hp) as (m & Hm & _).
  exists ds. unfold segment_release. rewrite Hm. cbn [mbind option_bind]. split; [done|].
  intros name s Hname Hs. specialize (Hrel (hash_key name)). rewrite Hs in Hrel.
  inversion Hrel as [? f Hf E1 E2|]; subst. exists f. split; [done|].
  eapply Hin; [|by apply name_key]. symmetry in E2. by apply (entry_map_lookup kvs _ f Ho).
Qed.

Lemma put_names_fields (F : hash_field → hash_field) fs :
  dom fs = list_to_set (hash_key <$> names) →
  put_names (λ k, F (default (HashField [] None false) (fs !! k))) ∅ names = F <$> fs.
Proof.
  intros Hd. apply map_eq. intros k. rewrite put_names_lookup, lookup_fmap, lookup_empty.
  destruct (fs !! k) as [s|] eqn:Es; case_decide as Hk; try done.
  - destruct Hk. apply elem_of_dom_2 in Es. rewrite Hd in Es. by apply elem_of_list_to_set in Es.
  - apply not_elem_of_dom in Es. destruct Es. rewrite Hd. by apply elem_of_list_to_set.
Qed.

Lemma put_names_dom G : dom (put_names G ∅ names) = list_to_set (hash_key <$> names).
Proof.
  apply set_eq. intros k. rewrite elem_of_dom, put_names_lookup, elem_of_list_to_set, lookup_empty.
  by case_decide.
Qed.

Lemma no_fields : fields_rep ∅ (init_string_map (MAX_INDEX_FIELD_NUM * MAX_INDEX_PER_FIELD)).
Proof.
  exists []. split; [by apply init_holds|]. split; [done|]. intros k. unfold entry_map. simpl. rewrite !lookup_empty. constructor.
Qed.

Lemma restart_goes st seg : seg_rep st seg → goes st seg SRestart.
Proof.
  intros Hrep. destruct (release_seg st seg Hrep) as (ds & Hrel & Hds). unfold goes. cbn [segment_step segment_spec].
  rewrite Hrel. cbn [mbind option_bind].
  pose proof Hrep as [Hl Hfl Hf Hn Hm Hml Hb Hs Hsl Hv Hro Hfi Hsz Hr Hde Hrg Hpos Hth Hc].
  unfold segment_init. simpl negb. cbv iota. rewrite Hl, <- Hml, bitmark_init_again by (done || lia).
  cbn [mbind option_bind]. rewrite Hml.
  set (F := λ s, snd (hash_spec get_hash_value s (FRestart (drows st =? N)))).
  destruct (ensure_names (λ k, F (default (HashField [] None false) (fields st !! k))) names ∅
    (Segment N num (meta seg) (del_bitmap seg) (data_field seg)
       (init_string_map (MAX_INDEX_FIELD_NUM * MAX_INDEX_PER_FIELD)) ds))
    as (seg' & -> & (E1 & E2 & E3 & E4 & E5 & E6 & E7 & E8 & E9) & Hf').
  - done.
  - apply no_fields.
  - rewrite map_size_empty. unfold MAX_INDEX_FIELD_NUM in Hcount. lia.
  - done.
  - intros name Hin. cbn [dirs seg_compress_num row_count meta].
    assert (is_Some (fields st !! hash_key name)) as [s Hsome].
    { apply elem_of_dom. rewrite Hn. apply elem_of_list_to_set. by apply list_elem_of_fmap_2. }
    destruct (Hds name s Hin Hsome) as (f & Hfr & Hd). rewrite Hsome, Hr. cbn [default].
    destruct (reopen_field get_hash_value nh shared junk qsort N Hmax s f Hfr) as (d & Hd' & Hopen).
    fold env in Hd', Hopen. rewrite Hd' in Hd. injection Hd as <-. apply Hopen.
  - cbn [mbind option_bind]. eexists. split; [done|]. rewrite (put_names_fields F) in Hf' by done.
    cbn in E1, E3, E4, E6, E7, E8.
    split; seg_simpl; cbn [with_fields_spec fields there drows ddels dfails docs dsize dflag]; try done; try congruence.
    + by rewrite all_fields_dom.
    + intros d Hd. rewrite E4. by apply Hv.
    + intros k Hk. rewrite E4. by apply Hfi.
Qed.

Lemma step_goes st seg op :
  seg_rep st seg → segment_op_ok get_hash_value nh N names mem fits st op → goes st seg op.
Proof.
  intros Hrep Hok. destruct op.
  - by apply data_goes; try apply Hok.
  - destruct Hok as (Hd & fs & Hfs & Hfit). by apply (update_goes st seg docid new fs).
  - by apply index_goes.
  - by apply inserted_goes; try apply Hok.
  - by apply failed_goes; try apply Hok.
  - by apply delete_goes.
  - by apply recover_goes; try apply Hok.
  - by apply checkpoint_goes.
  - by apply mmap_goes.
  - by apply compress_goes.
  - by apply switch_goes.
  - by apply seal_goes.
  - by apply restart_goes.
Qed.

Lemma run_goes st seg ops :
  seg_rep st seg → segment_ops_ok get_hash_value nh N names mem fits st ops →
  ∃ seg', segment_run seg ops = Some seg' ∧ seg_rep (foldl (segment_spec get_hash_value N) st ops) seg'.
Proof.
  revert st seg. induction ops as [|op ops IH]; intros st seg Hrep Hok; [by exists seg|].
  destruct Hok as [Hop Hok]. destruct (step_goes st seg op Hrep Hop) as (seg1 & H1 & Hrep1).
  cbn [segment_run foldl]. rewrite H1. cbn [mbind option_bind]. simpl (0 =? 0). cbv iota. by apply (IH _ seg1).
Qed.

(** A new segment whose store has taken [size] bytes. *)
Definition new_segment (flag size : Z) : segment_state :=
  SegState (put_names (λ _, HashField [] None false) ∅ names) (λ _, false) 0 0 0 (λ _, None) size flag.

(** An empty store of [N] rows that takes rows of the lengths [fits]. *)
Definition new_store (store : S) : Prop :=
  col_wf store ∧ col_limit store = N ∧ (∀ d, 0 ≤ d < N → col_val store d = None) ∧ (∀ k, fits k → col_fits store k).

Lemma init_goes store ctime flag :
  new_store store →
  ∃ seg, segment_init env now true (λ _, true) N num (SegMeta ctime 0 0 flag 0 0) [] (Some store)
           (λ _ _, no_files) (hash_fields names) = Some (Ptr seg) ∧ seg_rep (new_segment flag (col_size store)) seg ∧
           create_time (meta seg) = ctime.
Proof.
  intros (Hs & Hsl & Hnone & Hfi). unfold segment_init. simpl negb. cbv iota.
  destruct (bitmark_init_empty N) as (bm & -> & Hbw & Hbl & Hb); [lia|]. cbn [mbind option_bind].
  destruct (ensure_names (λ _, HashField [] None false) names ∅
    (Segment N num (SegMeta ctime 0 0 flag 0 0) bm store
       (init_string_map (MAX_INDEX_FIELD_NUM * MAX_INDEX_PER_FIELD)) (λ _ _, no_files)))
    as (seg & -> & (E1 & E2 & E3 & E4 & E5 & E6 & E7 & E8 & E9) & Hf').
  - done.
  - apply no_fields.
  - rewrite map_size_empty. unfold MAX_INDEX_FIELD_NUM in Hcount. lia.
  - done.
  - intros name Hin. cbn [dirs]. by apply init_rep.
  - cbn [mbind option_bind]. eexists. split; [done|]. split; [|done]. cbn in E1, E3, E4, E6, E7, E8.
    split; cbn [new_segment fields there drows ddels dfails docs dsize dflag]; try done; try lia; try congruence.
    + apply put_names_dom.
    + intros d Hd. rewrite E4. by apply Hnone.
    + intros k Hk. rewrite E4. by apply Hfi.
    + rewrite E4. lia.
Qed.

Lemma index_query_spec st seg name data :
  seg_rep st seg → name ∈ names → key_of get_hash_value data ≠ Some nh →
  ∃ s r, fields st !! hash_key name = Some s ∧
    segment_index_equal_query get_hash_value seg (Field name data) HI_KEY_ALG_HASH = Some r ∧ rows_ok N r ∧
    ids r = docs_of (live s) (key_of get_hash_value data).
Proof.
  intros Hrep Hin Hk. assert (is_Some (fields st !! hash_key name)) as [s Hs].
  { apply elem_of_dom. rewrite (sr_names _ _ Hrep). apply elem_of_list_to_set. by apply list_elem_of_fmap_2. }
  destruct (fields_get _ _ _ _ (sr_fields _ _ Hrep) Hs) as (f & Hget & Hf).
  destruct (equal_query_spec get_hash_value nh N Hmax s f data Hf Hk) as (r & Hq & Hrows & Hids).
  exists s, r. split; [done|]. unfold segment_index_equal_query, segment_get_index_instance.
  cbn [field_name fdata]. rewrite (name_key name Hin). cbn [mbind option_bind]. rewrite Hget. done.
Qed.

Lemma deleted_spec st seg d :
  seg_rep st seg → 0 ≤ d < N → segment_is_docid_deleted seg d = Some (if there st d then 0 else 1).
Proof.
  intros Hrep Hd. pose proof Hrep as [Hl Hfl Hf Hn Hm Hml Hb Hs Hsl Hv Hro Hfi Hsz Hr Hde Hrg Hpos Hth Hc].
  unfold segment_is_docid_deleted. rewrite Hl, geb_false by lia.
  rewrite bitmark_query_spec by (done || lia). rewrite decide_False by lia. by rewrite Hb.
Qed.

Lemma row_query_spec st seg d :
  seg_rep st seg → 0 ≤ d < N →
  segment_data_query_row seg d = Some (match docs st d with Some fs => Ptr (Row fs (zlen fs)) | None => NULL end).
Proof.
  intros Hrep Hd. unfold segment_data_query_row. rewrite (sr_limit _ _ Hrep), geb_false by lia.
  destruct (docs st d) as [fs|] eqn:E; [by apply query_row_spec, (rep_row st)|].
  unfold data_field_query_row.
  destruct (col_query_ok (data_field seg) d (sr_store _ _ Hrep)) as (r & -> & Hsh); [by rewrite (sr_slimit _ _ Hrep)|].
  rewrite (sr_docs _ _ Hrep), E in Hsh by done. simpl in Hsh. cbn [mbind option_bind]. by rewrite Hsh.
Qed.
End impl.

(** C11: a segment answers for its documents.  Take a new segment with hash indexes
    on any columns [names], over any row store, and let it go through any sequence
    of: storing and updating rows, indexing the columns of the next document,
    marking it as inserted (or counting it when its indexing failed), deleting
    documents, recovering to an earlier document, checkpoints, the move to shared
    memory, compressing all indexes, switching to the compressed forms, and
    restarts.  Every step succeeds, and then each index lists for each value
    exactly the documents of its own history, every row is read back as it was
    last written, the mark tells which documents are there, and the counters are
    those of the specification. *)
Theorem segment_refines {S} `{!Column S, !ColumnLaws S} get_hash_value nh `{!HashLaws get_hash_value nh}
    qsort `{!QsortLaws qsort} shared junk N names types now num mem fits ctime (store : S) ops :
  0 < N → 16 * (N + 1) < 2 ^ 31 → Forall (λ name, zlen name < MAX_FIELD_NAME) names →
  zlen names ≤ MAX_INDEX_FIELD_NUM → new_store N fits store →
  segment_ops_ok get_hash_value nh N names mem fits (new_segment names SEGMENT_INIT (col_size store)) ops →
  let env := calm shared junk qsort in
  let st := foldl (segment_spec get_hash_value N) (new_segment names SEGMENT_INIT (col_size store)) ops in
  ∃ seg0 seg, segment_init env now true (λ _, true) N num (SegMeta ctime 0 0 SEGMENT_INIT 0 0) [] (Some store)
                (λ _ _, no_files) (hash_fields types names) = Some (Ptr seg0) ∧
    segment_run get_hash_value shared junk qsort names types now num mem seg0 ops = Some seg ∧
    (∀ name data, name ∈ names → key_of get_hash_value data ≠ Some nh →
       ∃ s r, fields st !! hash_key name = Some s ∧
         segment_index_equal_query get_hash_value seg (Field name data) HI_KEY_ALG_HASH = Some r ∧ rows_ok N r ∧
         ids r = docs_of (live s) (key_of get_hash_value data)) ∧
    (∀ d, 0 ≤ d < N → segment_is_docid_deleted seg d = Some (if there st d then 0 else 1)) ∧
    (∀ d, 0 ≤ d < N → segment_data_query_row seg d =
       Some (match docs st d with Some fs => Ptr (Row fs (zlen fs)) | None => NULL end)) ∧
    segment_get_rowcount seg = drows st ∧ del_count (meta seg) = ddels st.
Proof.
  intros HN Hmax Hnames Hcount Hs Hok env st.
  destruct (init_goes nh shared junk qsort N HN Hmax names Hnames Hcount types now num fits store ctime SEGMENT_INIT Hs) as (seg0 & H0 & Hrep0 & _).
  destruct (run_goes get_hash_value nh shared junk qsort N HN Hmax names Hnames Hcount types now num mem fits _ seg0 ops Hrep0 Hok)
    as (seg & Hrun & Hrep).
  exists seg0, seg. split; [done|]. split; [done|]. split; [|split; [|split; [|by destruct Hrep]]].
  - intros name data Hin Hk. by eapply index_query_spec.
  - intros d Hd. by eapply deleted_spec.
  - intros d Hd. by eapply row_query_spec.
Qed.

(** The counters of a segment.  At any point of such a life the number of
    documents is the number of those that are there, of those deleted and of
    those whose indexing failed; recovery turns the failed ones into deleted
    ones. *)
Theorem segment_counts {S} `{!Column S, !ColumnLaws S} get_hash_value nh `{!HashLaws get_hash_value nh}
    qsort `{!QsortLaws qsort} shared junk N names types now num mem fits ctime (store : S) ops :
  0 < N → 16 * (N + 1) < 2 ^ 31 → Forall (λ name, zlen name < MAX_FIELD_NAME) names →
  zlen names ≤ MAX_INDEX_FIELD_NUM → new_store N fits store →
  segment_ops_ok get_hash_value nh N names mem fits (new_segment names SEGMENT_INIT (col_size store)) ops →
  ∃ seg0 seg, segment_init (calm shared junk qsort) now true (λ _, true) N num (SegMeta ctime 0 0 SEGMENT_INIT 0 0) []
                (Some store) (λ _ _, no_files) (hash_fields types names) = Some (Ptr seg0) ∧
    segment_run get_hash_value shared junk qsort names types now num mem seg0 ops = Some seg ∧
    0 ≤ del_count (meta seg) ∧ segment_get_rowcount seg ≤ N ∧
    segment_get_rowcount seg =
      zlen (filter (λ d, segment_is_docid_deleted seg d = Some 0) (seqZ 0 (segment_get_rowcount seg))) +
      del_count (meta seg) + dfails (foldl (segment_spec get_hash_value N) (new_segment names SEGMENT_INIT (col_size store)) ops).
Proof.
  intros HN Hmax Hnames Hcount Hs Hok.
  destruct (init_goes nh shared junk qsort N HN Hmax names Hnames Hcount types now num fits store ctime SEGMENT_INIT Hs) as (seg0 & H0 & Hrep0 & _).
  destruct (run_goes get_hash_value nh shared junk qsort N HN Hmax names Hnames Hcount types now num mem fits _ seg0 ops Hrep0 Hok)
    as (seg & Hrun & Hrep).
  exists seg0, seg. split; [done|]. split; [done|]. set (st := foldl _ _ ops) in *.
  pose proof Hrep as [_ _ _ _ _ _ _ _ _ _ _ _ _ Hr Hde Hrg Hpos _ Hc]. unfold segment_get_rowcount. rewrite Hr, Hde.
  split; [lia|]. split; [lia|]. rewrite <- Hc at 1. do 2 f_equal. unfold count_there. f_equal.
  apply filter_ext_in. intros d Hd%elem_of_seqZ. rewrite (deleted_spec nh N names fits st seg d Hrep) by lia.
  by destruct (there st d).
Qed.

(** *** A concrete segment *)

Definition demo_names : list (list Z) := [[97]; [98]].

(** Document 2 cannot be indexed; document 3 comes again after a recovery. *)
Definition demo_docs : list segment_op :=
  [SData 0 demo_row; SIndex [97] 0 (byte_value 3); SIndex [98] 0 (byte_value 9); SInserted 0; SUpdate 0 demo_new;
   SIndex [97] 1 (byte_value 3); SIndex [98] 1 null_value; SInserted 1; SCheckpoint; SFailed 2; SDelete 0; SRestart;
   SIndex [97] 3 (byte_value 5); SRecover 3; SIndex [97] 3 (byte_value 3); SInserted 3; SMmapSwitch; SCompress; SSwitch;
   SSeal; SRestart; SRecover 1].

Lemma demo_names_ok : Forall (λ name, zlen name < MAX_FIELD_NAME) demo_names.
Proof. repeat constructor. Qed.

Definition demo_segment_new : segment_state := new_segment demo_names SEGMENT_INIT 0.

Ltac demo_op :=
  match goal with
  | |- segment_op_ok _ _ _ _ _ _ _ (SData _ _) =>
      split; [lia|]; split; [exact demo_row_ok|]; repeat split; vm_compute; done
  | |- segment_op_ok _ _ _ _ _ _ _ (SUpdate _ _) =>
      split; [lia|]; eexists; split; [vm_compute; reflexivity|]; split; [exact demo_set_ok|]; repeat split; vm_compute; done
  | |- segment_op_ok _ _ _ _ _ _ _ (SIndex _ _ _) =>
      split; [vm_compute; set_solver|]; eexists; split; [vm_compute; reflexivity|];
      split; [reflexivity|]; intros _; split; [split; [lia|split]|vm_compute; discriminate];
      [vm_compute; intros x Hx; set_unfold; naive_solver lia|intros _; vm_compute; discriminate]
  | |- segment_op_ok _ _ _ _ _ _ _ SSwitch => apply map_Forall_to_list; vm_compute; repeat (constructor; [right; by eexists|]); constructor
  | |- _ => vm_compute; repeat split; done
  end.

Definition demo_pool : list Z := replicate 100 85.
Definition demo_fits (n : Z) : Prop := n ≤ 100.
Definition demo_types (name : list Z) : field_types := HI_TYPE_TINY.

Lemma demo_docs_ok : segment_ops_ok demo_hash 77 4 demo_names demo_pool demo_fits demo_segment_new demo_docs.
Proof. unfold demo_docs. repeat (refine (conj _ _); [demo_op|]). done. Qed.

Lemma demo_segment_store :
  ∃ vs, vstorage_init true false 0 [] [] 4 = Ptr vs ∧ new_store 4 demo_fits vs ∧ col_size vs = 0.
Proof.
  destruct (vstorage_init_empty false 4) as (vs & Hi & Hw & Hl & Hwd & Hf & Hnone); [lia|lia|].
  exists vs. split; [done|]. unfold new_store, col_val, col_fits, col_size; cbn [vstorage_ColumnLaws].
  rewrite Hf, Hwd. split; [|done]. split; [done|]. split; [done|]. split; [|done]. intros d Hd. by rewrite Hnone.
Qed.

Lemma segment_refines_witness :
  ∃ vs seg0 seg r, vstorage_init true false 0 [] [] 4 = Ptr vs ∧
    segment_init (calm false 0 merge_qsort) 100 true (λ _, true) 4 10 (SegMeta 1 0 0 SEGMENT_INIT 0 0) [] (Some vs)
      (λ _ _, no_files) (hash_fields demo_types demo_names) = Some (Ptr seg0) ∧
    segment_run demo_hash false 0 merge_qsort demo_names demo_types 100 10 demo_pool seg0 demo_docs = Some seg ∧
    segment_index_equal_query demo_hash seg (Field [97] (byte_value 3)) HI_KEY_ALG_HASH = Some r ∧ ids r = [3; 1; 0] ∧
    segment_is_docid_deleted seg 0 = Some 1 ∧ segment_is_docid_deleted seg 3 = Some 0 ∧
    segment_data_query_row seg 0 = Some (Ptr (Row (set_field demo_row demo_new) 3)).
Proof.
  destruct demo_segment_store as (vs & Hvs & Hst & Hsz).
  destruct (segment_refines demo_hash 77 (HashLaws0:=demo_hash_laws) merge_qsort (QsortLaws0:=merge_qsort_laws)
    false 0 4 demo_names demo_types 100 10 demo_pool demo_fits 1 vs demo_docs) as (seg0 & seg & H0 & Hrun & Hq & Hd & Hr & _);
    [lia|lia|exact demo_names_ok|vm_compute; discriminate|exact Hst|rewrite Hsz; exact demo_docs_ok|].
  destruct (Hq [97] (byte_value 3)) as (s & r & Hs & Hres & _ & Hids); [left|vm_compute; discriminate|].
  exists vs, seg0, seg, r. split; [exact Hvs|]. split; [exact H0|]. split; [exact Hrun|]. split; [exact Hres|].
  rewrite Hsz in Hs, Hd, Hr. split; [|split; [|split]].
  - rewrite Hids. vm_compute in Hs. injection Hs as <-. vm_compute. reflexivity.
  - rewrite Hd by lia. vm_compute. reflexivity.
  - rewrite Hd by lia. vm_compute. reflexivity.
  - rewrite Hr by lia. vm_compute. reflexivity.
Defined.

Lemma segment_counts_witness :
  ∃ vs seg0 seg, vstorage_init true false 0 [] [] 4 = Ptr vs ∧
    segment_init (calm false 0 merge_qsort) 100 true (λ _, true) 4 10 (SegMeta 1 0 0 SEGMENT_INIT 0 0) [] (Some vs)
      (λ _ _, no_files) (hash_fields demo_types demo_names) = Some (Ptr seg0) ∧
    segment_run demo_hash false 0 merge_qsort demo_names demo_types 100 10 demo_pool seg0 demo_docs = Some seg ∧
    segment_get_rowcount seg =
      zlen (filter (λ d, segment_is_docid_deleted seg d = Some 0) (seqZ 0 (segment_get_rowcount seg))) +
      del_count (meta seg) + 0.
Proof.
  destruct demo_segment_store as (vs & Hvs & Hst & Hsz).
  destruct (segment_counts demo_hash 77 (HashLaws0:=demo_hash_laws) merge_qsort (QsortLaws0:=merge_qsort_laws)
    false 0 4 demo_names demo_types 100 10 demo_pool demo_fits 1 vs demo_docs) as (seg0 & seg & H0 & Hrun & _ & _ & Hc);
    [lia|lia|exact demo_names_ok|vm_compute; discriminate|exact Hst|rewrite Hsz; exact demo_docs_ok|].
  exists vs, seg0, seg. split; [exact Hvs|]. split; [exact H0|]. split; [exact Hrun|]. rewrite Hsz in Hc. exact Hc.
Defined.
