(* ===== verification/Table.v ===== *)
(** * Tables ([src/storage/docdb/table.c])

    A table is an array of segments with their meta data in one mapped file, and
    the list of its indexed columns.  The meta data of a segment is shared: the
    table's block [segment_meta] and the pointer [meta_data] of the segment are
    the same memory.  Here the block of the table is that memory; a segment is
    loaded with the current content of its block ([get_segment]) and stored back
    into it ([set_segment]).  The map [index_meta_hash] points to private copies of
    the columns that were there at the start, and into the table's own list for
    columns added later ([index_ref]).

    One operation runs at a time; the mutex and the reader-writer lock, which
    order operations of different threads, are not part of the state. *)

From Stdlib Require Import ZArith Lia.
From stdpp Require Import base option list numbers gmap.
From S2P Require Import Prelude FileOp StringMap Doclist Bitmark RowidList SegRowid LowData HashIndex Hash DynHash Column RowData DataField IndexField Segment.

Definition ERROR_SEGMENT_INIT_FAILED : Z := -3996.
Definition ERROR_SEGMENT_NOT_INIT : Z := -3991.
Definition ERROR_FILE_OP_FAILED : Z := -3990.
Definition ERROR_LOCK_FAILED : Z := -3989.
Definition ERROR_EXCEED_SEGMENT_NUM : Z := -3896.
Definition ERROR_EXCEED_CURRENT : Z := -3894.
Definition ERROR_TABLE_DELETED : Z := -3797.

Definition TABLE_INIT : Z := 1.
Definition TABLE_DEL : Z := 2.
Definition MAX_SEGMENT_NUM : Z := 2 ^ 10.

(** Whether [docid] and [sid] are given by the binary log or by the table. *)
Inductive docid_source := DOCID_BY_BINLOG | DOCID_BY_SELF.

(** [index_meta] has [index_field_count] elements; the cells after them are zero:
    they are cleared when the table is made and when a column is deleted. *)
Record table_meta_data := TableMeta {
  table_name : list Z;
  tstat : Z;
  segment_current : Z;
  index_meta : list index_field_meta
}.

(** Where a pointer of [index_meta_hash] points to. *)
Inductive index_ref := Own (m : index_field_meta) | Slot (i : Z).

(** The directory of a segment that is not open: the file of the deletion mark,
    the row store as [data_field_init] opens it, the directories of the fields,
    and the two files that go with an unloaded segment. *)
Record segment_dir (S : Type) := SegDir {
  dir_mark : list Z;
  dir_store : option S;
  dir_fields : directories;
  meta_dat : segment_meta_data;
  index_dat : list index_field_meta
}.
Arguments SegDir {S}.
Arguments dir_mark {S}.
Arguments dir_store {S}.
Arguments dir_fields {S}.
Arguments meta_dat {S}.
Arguments index_dat {S}.

(** [segments] and [segment_meta] have [max_segment_num] cells; [seg_dirs] is the
    part of the file system under the table's directory. *)
Record table_manager (S : Type) := Table {
  storage_dirs : list (list Z);
  table_meta : table_meta_data;
  segments : list (ptr (segment_manager S));
  segment_meta : list segment_meta_data;
  max_segment_num : Z;
  index_meta_hash : string_map index_ref;
  table_compress_num : Z;           (* [hash_compress_num] *)
  table_limit : Z;                  (* [row_limit] *)
  store_raw : bool;
  new_seg_complete : Z;
  seg_dirs : list (option (segment_dir S))
}.
Arguments Table {S}.
Arguments storage_dirs {S}.
Arguments table_meta {S}.
Arguments segments {S}.
Arguments segment_meta {S}.
Arguments max_segment_num {S}.
Arguments index_meta_hash {S}.
Arguments table_compress_num {S}.
Arguments table_limit {S}.
Arguments store_raw {S}.
Arguments new_seg_complete {S}.
Arguments seg_dirs {S}.

Record table_config := TableConfig {
  config_dirs : list (list Z);
  config_segments : Z;              (* [max_segment_num] *)
  config_compress : Z;
  config_limit : Z;
  config_raw : bool
}.

(** What the system gives during one operation. *)
Record table_io (S : Type) := TableIo {
  now : Z;
  table_mkdirs : bool;              (* [mkdirs] of the table's directory *)
  dir_mkdirs : bool;                (* of a segment's directory *)
  dir_realpath : bool;
  dir_symlink : bool;
  mkdir_seg : bool;
  mkdir_field : list Z → bool;
  fresh_store : option S;           (* the row store in an empty directory *)
  pool : list Z;                    (* memory for encoded rows *)
  null_type : field_types;          (* the type of [null_data], never written *)
  thread_ok : bool;                 (* [create_mmap_switch_thread] *)
  map_meta : bool;                  (* mapping of segment.meta and meta.dat *)
  map_index : bool;                 (* mapping of index.dat *)
  rename_ok : bool;
  lock_ok : bool
}.
Arguments TableIo {S}.
Arguments now {S}.
Arguments table_mkdirs {S}.
Arguments dir_mkdirs {S}.
Arguments dir_realpath {S}.
Arguments dir_symlink {S}.
Arguments mkdir_seg {S}.
Arguments mkdir_field {S}.
Arguments fresh_store {S}.
Arguments pool {S}.
Arguments null_type {S}.
Arguments thread_ok {S}.
Arguments map_meta {S}.
Arguments map_index {S}.
Arguments rename_ok {S}.
Arguments lock_ok {S}.

Definition zero_meta : segment_meta_data := SegMeta 0 0 0 0 0 0.

Definition set_create (m : segment_meta_data) (t : Z) : segment_meta_data :=
  SegMeta t (modify_time m) (checkpoint_time m) (seg_flag m) (row_count m) (del_count m).

(** [sprintf(segment_name, "%s_segment_%06u", table_name, sid)] *)
Definition segment_name (name : list Z) (sid : Z) : list Z :=
  name ++ [95; 115; 101; 103; 109; 101; 110; 116; 95] ++ pad6 sid.

(** [sprintf(path, "%s/%s", dir, name)] *)
Definition join (dir name : list Z) : list Z := dir ++ [47] ++ name.

(** The column name under which an index is kept, in MAX_FIELD_NAME bytes. *)
Definition index_field_name (name : list Z) (t : index_key_alg) : option (list Z) :=
  let n := if bool_decide (t = HI_KEY_ALG_FULLTEXT) then 36 :: name else name in
  if zlen n <? MAX_FIELD_NAME then Some n else None.

Section table.
Context {S : Type} `{!Column S}.
Context (env : field_env) (get_hash_value : low_data_struct → Z).
Implicit Types (io : table_io S) (table : table_manager S) (segment : segment_manager S).

(** ** Fields of the state *)

Definition with_table_meta table (m : table_meta_data) : table_manager S :=
  Table (storage_dirs table) m (segments table) (segment_meta table) (max_segment_num table) (index_meta_hash table)
    (table_compress_num table) (table_limit table) (store_raw table) (new_seg_complete table) (seg_dirs table).
Definition with_segments table (l : list (ptr (segment_manager S))) : table_manager S :=
  Table (storage_dirs table) (table_meta table) l (segment_meta table) (max_segment_num table) (index_meta_hash table)
    (table_compress_num table) (table_limit table) (store_raw table) (new_seg_complete table) (seg_dirs table).
Definition with_segment_meta table (l : list segment_meta_data) : table_manager S :=
  Table (storage_dirs table) (table_meta table) (segments table) l (max_segment_num table) (index_meta_hash table)
    (table_compress_num table) (table_limit table) (store_raw table) (new_seg_complete table) (seg_dirs table).
Definition with_hash table (m : string_map index_ref) : table_manager S :=
  Table (storage_dirs table) (table_meta table) (segments table) (segment_meta table) (max_segment_num table) m
    (table_compress_num table) (table_limit table) (store_raw table) (new_seg_complete table) (seg_dirs table).
Definition with_complete table (n : Z) : table_manager S :=
  Table (storage_dirs table) (table_meta table) (segments table) (segment_meta table) (max_segment_num table)
    (index_meta_hash table) (table_compress_num table) (table_limit table) (store_raw table) n (seg_dirs table).
Definition with_dirs table (l : list (option (segment_dir S))) : table_manager S :=
  Table (storage_dirs table) (table_meta table) (segments table) (segment_meta table) (max_segment_num table)
    (index_meta_hash table) (table_compress_num table) (table_limit table) (store_raw table)
    (new_seg_complete table) l.

Definition set_current table (sid : Z) : table_manager S :=
  let m := table_meta table in
  with_table_meta table (TableMeta (table_name m) (tstat m) sid (index_meta m)).
Definition set_index_meta table (l : list index_field_meta) : table_manager S :=
  let m := table_meta table in
  with_table_meta table (TableMeta (table_name m) (tstat m) (segment_current m) l).
Definition set_stat table (w : Z) : table_manager S :=
  let m := table_meta table in
  with_table_meta table (TableMeta (table_name m) w (segment_current m) (index_meta m)).

Definition table_deleted table : bool := negb (Z.land (tstat (table_meta table)) TABLE_DEL =? 0).

Definition set_segment_meta table (sid : Z) (m : segment_meta_data) : option (table_manager S) :=
  l ← (segment_meta table)⟦sid := m⟧; Some (with_segment_meta table l).

Definition set_pointer table (sid : Z) (p : ptr (segment_manager S)) : option (table_manager S) :=
  l ← (segments table)⟦sid := p⟧; Some (with_segments table l).

Definition set_dir table (sid : Z) (d : option (segment_dir S)) : option (table_manager S) :=
  l ← (seg_dirs table)⟦sid := d⟧; Some (with_dirs table l).

(** [(table->segment_meta + sid)->flag & w] *)
Definition has_flag table (sid w : Z) : option bool :=
  m ← (segment_meta table)⟦sid⟧; Some (negb (Z.land (seg_flag m) w =? 0)).

Definition get_segment table (sid : Z) : option (segment_manager S) :=
  p ← (segments table)⟦sid⟧;
  match p with
  | NULL => None
  | Ptr segment => m ← (segment_meta table)⟦sid⟧; Some (with_meta segment m)
  end.

Definition set_segment table (sid : Z) segment : option (table_manager S) :=
  table ← set_pointer table sid (Ptr segment);
  set_segment_meta table sid (meta segment).

(** A call that changes the segment. *)
Definition on_segment {R} table (sid : Z) (call : segment_manager S → option (R * segment_manager S))
    : option (R * table_manager S) :=
  segment ← get_segment table sid;
  '(r, segment) ← call segment;
  table ← set_segment table sid segment;
  Some (r, table).

(** The column behind a pointer of the map. *)
Definition deref table (r : index_ref) : option index_field_meta :=
  match r with
  | Own m => Some m
  | Slot i =>
      if (0 <=? i) && (i <? MAX_INDEX_FIELD_NUM)
      then Some (default (FieldMeta [] []) ((index_meta (table_meta table))⟦i⟧)) else None
  end.

Definition find_column table (name : list Z) : option (option index_field_meta) :=
  r ← string_map_get (index_meta_hash table) name;
  match r with None => Some None | Some r => m ← deref table r; Some (Some m) end.

(** The loop that makes the map point into the table's list of columns. *)
Fixpoint reload_columns (h : string_map index_ref) (i : Z) (l : list index_field_meta)
    : option (string_map index_ref) :=
  match l with
  | [] => Some h
  | m :: l =>
      '(_, h) ← string_map_remove h (meta_name m);
      '(_, h) ← string_map_put h (meta_name m) (Slot i);
      reload_columns h (i + 1) l
  end.

Definition reload table : option (table_manager S) :=
  h ← reload_columns (index_meta_hash table) 0 (index_meta (table_meta table));
  Some (with_hash table h).

(** ** Opening *)

(** [dir_exists]: the directory of the segment, or a link to it. *)
Definition make_segment_dir io (dirs : list (list Z)) (work_space name : list Z) (sid : Z) (dir_exists : bool)
    : option Z :=
  if dir_exists then Some 0
  else if zlen dirs =? 0 then None
  else
    base ← dirs⟦sid `mod` zlen dirs⟧;
    let real_dir := join base name in
    if negb (dir_mkdirs io) then Some (-1)
    else if bool_decide (join work_space name = real_dir) then Some 0
    else if negb (bool_decide (head real_dir = Some 47)) && negb (dir_realpath io) then Some (-1)
    else if negb (dir_symlink io) then Some (-1)
    else Some 0.

Definition empty_dir io : segment_dir S := SegDir [] (fresh_store io) (λ _ _, no_files) zero_meta [].

Definition init_segment_manager_instance io table (sid : Z)
    : option (ptr (segment_manager S) * table_manager S) :=
  d ← (seg_dirs table)⟦sid⟧;
  work_space ← (storage_dirs table)⟦0⟧;
  rc ← make_segment_dir io (storage_dirs table) work_space (segment_name (table_name (table_meta table)) sid) sid
         (bool_decide (is_Some d));
  if negb (rc =? 0) then Some (NULL, table)
  else
    let d := default (empty_dir io) d in
    table ← set_dir table sid (Some d);
    m ← (segment_meta table)⟦sid⟧;
    r ← segment_init env (now io) (mkdir_seg io) (mkdir_field io) (table_limit table) (table_compress_num table) m
          (dir_mark d) (dir_store d) (dir_fields d) (index_meta (table_meta table));
    match r with
    | NULL => table ← set_segment_meta table sid zero_meta; Some (NULL, table)
    | Ptr segment => table ← set_segment_meta table sid (meta segment); Some (Ptr segment, table)
    end.

(** [if (meta_data->create_time == 0) ...] *)
Definition start_segment io table (sid : Z) : option (table_manager S) :=
  m ← (segment_meta table)⟦sid⟧;
  if create_time m =? 0
  then set_segment_meta table sid (set_seg_flag (set_create m (now io)) (Z.lor (seg_flag m) SEGMENT_INIT))
  else Some table.

(** The loop over the segments that have been made; [assert(segment)]. *)
Fixpoint open_segments io (n : nat) (i : Z) table : option (table_manager S) :=
  match n with
  | O => Some table
  | Datatypes.S n =>
      init ← has_flag table i SEGMENT_INIT;
      if (init : bool) then
        '(p, table) ← init_segment_manager_instance io table i;
        table ← start_segment io table i;
        match p with
        | NULL => None
        | Ptr _ => table ← set_pointer table i p; open_segments io n (i + 1) table
        end
      else open_segments io n (i + 1) table
  end.

(** Copies of the columns. *)
Fixpoint load_columns (h : string_map index_ref) (l : list index_field_meta) : option (string_map index_ref) :=
  match l with
  | [] => Some h
  | m :: l => '(_, h) ← string_map_put h (meta_name m) (Own m); load_columns h l
  end.

(** [file] is segment.meta, [ds] the directories.  A configured number of 0
    segments stays 0: the default that is set for it is overwritten. *)
Definition table_init io (config : table_config) (tm : table_meta_data) (file : list segment_meta_data)
    (ds : list (option (segment_dir S))) : option (ptr (table_manager S)) :=
  let dirs := (λ d, join d (table_name tm)) <$> config_dirs config in
  if negb (table_mkdirs io) then Some NULL
  else
    let n := config_segments config in
    metas ← fst (get_mmap_memory zero_meta 33 (map_meta io) file n);
    let table := Table dirs tm (replicate (Z.to_nat n) NULL) metas n (init_string_map MAX_INDEX_FIELD_NUM)
                   (config_compress config) (config_limit config) (config_raw config) 0 ds in
    table ← open_segments io (Z.to_nat n) 0 table;
    h ← load_columns (index_meta_hash table) (index_meta tm);
    Some (Ptr (set_stat (with_hash table h) (Z.lor (tstat tm) TABLE_INIT))).

(** ** New segments *)

(** [i]: the first number for which the cell after the current one is free. *)
Fixpoint find_free table (n : nat) (i : Z) : option (option Z) :=
  match n with
  | O => Some None
  | Datatypes.S n =>
      init ← has_flag table ((i + segment_current (table_meta table)) `mod` max_segment_num table) SEGMENT_INIT;
      if (init : bool) then find_free table n (i + 1) else Some (Some i)
  end.

(** Its meta data is cleared before the directory is looked at. *)
Definition place_segment io table : option (Z * table_manager S) :=
  let sid := segment_current (table_meta table) in
  table ← set_segment_meta table sid zero_meta;
  d ← (seg_dirs table)⟦sid⟧;
  if bool_decide (is_Some d) then Some (ERROR_SEGMENT_INIT_FAILED, table)
  else
    '(p, table) ← init_segment_manager_instance io table sid;
    table ← set_pointer table sid p;
    match p with
    | NULL => Some (ERROR_SEGMENT_INIT_FAILED, table)
    | Ptr _ => table ← start_segment io table sid; Some (0, table)
    end.

Definition table_add_segment io table (error : Z) : option (Z * table_manager S) :=
  if table_deleted table then Some (ERROR_TABLE_DELETED, table)
  else if error =? ERROR_EXCEED_LIMIT then
    r ← find_free table (Z.to_nat (max_segment_num table)) 0;
    match r with
    | None => Some (ERROR_EXCEED_SEGMENT_NUM, table)
    | Some i =>
        table ← reload (set_current table ((i + segment_current (table_meta table)) `mod` max_segment_num table));
        place_segment io table
    end
  else place_segment io table.

(** ** Indexes *)

(** Only documents that are there; a value of another type is indexed as null.
    The stored column is looked up under the name of the index. *)
Definition query_data_and_insert_index io segment (docid : Z) (t : index_key_alg) (data_type : field_types)
    (index_name : list Z) : option (segment_manager S) :=
  deleted ← segment_is_docid_deleted segment docid;
  if negb (deleted =? 0) then Some segment
  else
    data ← segment_data_query_col segment index_name docid;
    match data with
    | NULL => Some segment
    | Ptr data =>
        let data := if bool_decide (type (fdata data) = data_type) then Field index_name (fdata data)
                    else Field index_name (LowData (null_type io) [] 0) in
        '(_, segment) ← segment_index_insert env get_hash_value segment data t docid;
        Some segment
    end.

(** [n] documents from [docid] on. *)
Fixpoint index_documents io segment (t : index_key_alg) (data_type : field_types) (index_name : list Z) (n : nat)
    (docid : Z) : option (segment_manager S) :=
  match n with
  | O => Some segment
  | Datatypes.S n =>
      segment ← query_data_and_insert_index io segment docid t data_type index_name;
      index_documents io segment t data_type index_name n (docid + 1)
  end.

Definition index_documents_of io table (sid : Z) (t : index_key_alg) (data_type : field_types)
    (index_name : list Z) (n : nat) (docid : Z) : option (table_manager S) :=
  '(_, table) ← on_segment table sid (λ segment,
                  segment ← index_documents io segment t data_type index_name n docid; Some ((), segment));
  Some table.

(** A compressed segment has to be compressed again. *)
Definition compress_again table (sid : Z) : option (table_manager S) :=
  m ← (segment_meta table)⟦sid⟧;
  if negb (Z.land (seg_flag m) SEGMENT_COMPRESS =? 0)
  then set_segment_meta table sid
         (set_seg_flag m (Z.lor (Z.land (seg_flag m) (Z.lnot SEGMENT_COMPRESS)) SEGMENT_FULL))
  else Some table.

(** [memmove(index_hash_meta, index_meta, sizeof(struct index_field_meta))] *)
Definition copy_column table (name : list Z) (r : index_ref) (i : Z) : option (table_manager S) :=
  m ← deref table (Slot i);
  match r with
  | Own _ => h ← set_object (index_meta_hash table) name (Own m); Some (with_hash table h)
  | Slot j => l ← (index_meta (table_meta table))⟦j := m⟧; Some (set_index_meta table l)
  end.

(** Insertions use the index of column [i] from now on. *)
Definition publish table (sid i : Z) (name : list Z) : option (table_manager S) :=
  r ← string_map_get (index_meta_hash table) name;
  table ← match r with
          | None => '(_, h) ← string_map_put (index_meta_hash table) name (Slot i); Some (with_hash table h)
          | Some r => copy_column table name r i
          end;
  compress_again table sid.

(** The documents of the current segment.  When fewer than 10 are left the table
    is locked, they are indexed, and the index is published; [n] documents are
    left from [docid] on. *)
Fixpoint catch_up io table (sid i : Z) (t : index_key_alg) (data_type : field_types) (name : list Z) (n : nat)
    (docid : Z) : option (table_manager S) :=
  match n with
  | O => Some table
  | Datatypes.S n =>
      table ← index_documents_of io table sid t data_type name 1 docid;
      segment ← get_segment table sid;
      if (sid =? segment_current (table_meta table)) && (segment_get_rowcount segment - docid <? 10) then
        table ← index_documents_of io table sid t data_type name n (docid + 1);
        publish table sid i name
      else catch_up io table sid i t data_type name n (docid + 1)
  end.

(** The full segments other than [cur]; what [segment_ensure_index] returns is not
    looked at. *)
Fixpoint index_full_segments io table (cur : Z) (t : index_key_alg) (data_type : field_types) (name : list Z) (n : nat)
    (i : Z) : option (table_manager S) :=
  match n with
  | O => Some table
  | Datatypes.S n =>
      full ← has_flag table i SEGMENT_FULL;
      if negb full || (i =? cur) then index_full_segments io table cur t data_type name n (i + 1)
      else
        '(_, table) ← on_segment table i (λ segment,
                        segment_ensure_index env (now io) (mkdir_field io name) segment name t);
        table ← index_documents_of io table i t data_type name (Z.to_nat (table_limit table)) 0;
        table ← compress_again table i;
        index_full_segments io table cur t data_type name n (i + 1)
  end.

(** A call for every segment that has been made. *)
Fixpoint for_segments table (call : segment_manager S → option (segment_manager S)) (n : nat) (i : Z)
    : option (table_manager S) :=
  match n with
  | O => Some table
  | Datatypes.S n =>
      init ← has_flag table i SEGMENT_INIT;
      table ← (if (init : bool)
               then '(_, table) ← on_segment table i (λ segment, segment ← call segment; Some ((), segment)); Some table
               else Some table);
      for_segments table call n (i + 1)
  end.

Definition table_checkpoint table : option (table_manager S) :=
  if table_deleted table then Some table
  else for_segments table (segment_checkpoint env) (Z.to_nat (max_segment_num table)) 0.

(** All indexes of the type on column [i] can be queried. *)
Definition mark_built table (i : Z) (t : index_key_alg) : option (table_manager S) :=
  m ← deref table (Slot i);
  let ixs := (λ ix, if bool_decide (ix_type ix = t) then IndexStat (ix_type ix) (ix_data ix) 1 else ix) <$> indexs m in
  l ← (index_meta (table_meta table))⟦i := FieldMeta (meta_name m) ixs⟧;
  Some (set_index_meta table l).

(** [i]: the column in the table's list. *)
Definition table_build_index io table (i : Z) (name : list Z) (t : index_key_alg) (data_type : field_types)
    : option (Z * table_manager S) :=
  let sid := segment_current (table_meta table) in
  init ← has_flag table sid SEGMENT_INIT;
  '(ret, table) ← (if (init : bool) then
                     '(ret, table) ← on_segment table sid (λ segment,
                                       segment_ensure_index env (now io) (mkdir_field io name) segment name t);
                     if negb (ret =? 0) then Some (ret, table)
                     else
                       segment ← get_segment table sid;
                       table ← catch_up io table sid i t data_type name (Z.to_nat (segment_get_rowcount segment)) 0;
                       Some (0, table)
                   else Some (0, table));
  if negb (ret =? 0) then Some (ret, table)
  else
    table ← index_full_segments io table sid t data_type name (Z.to_nat (max_segment_num table)) 0;
    table ← table_checkpoint table;
    table ← mark_built table i t;
    '(_, h) ← string_map_remove (index_meta_hash table) name;
    '(_, h) ← string_map_put h name (Slot i);
    Some (0, with_hash table h).

(** The first column of the name. *)
Fixpoint column_of (l : list index_field_meta) (name : list Z) (i : Z) : option (Z * index_field_meta) :=
  match l with
  | [] => None
  | m :: l => if bool_decide (meta_name m = name) then Some (i, m) else column_of l name (i + 1)
  end.

Definition has_type (m : index_field_meta) (t : index_key_alg) : bool :=
  existsb (λ ix, bool_decide (ix_type ix = t)) (indexs m).

(** The arrays have MAX_INDEX_PER_FIELD and MAX_INDEX_FIELD_NUM cells. *)
Definition table_ensure_index io table (field_name : list Z) (t : index_key_alg) (data_type : field_types)
    : option (Z * table_manager S) :=
  name ← index_field_name field_name t;
  let l := index_meta (table_meta table) in
  match column_of l name 0 with
  | Some (i, m) =>
      if has_type m t then Some (0, table)
      else if MAX_INDEX_PER_FIELD <=? zlen (indexs m) then None
      else
        l ← l⟦i := FieldMeta (meta_name m) (indexs m ++ [IndexStat t data_type 0])⟧;
        table_build_index io (set_index_meta table l) i name t data_type
  | None =>
      if MAX_INDEX_FIELD_NUM <=? zlen l then None
      else table_build_index io (set_index_meta table (l ++ [FieldMeta name [IndexStat t data_type 0]])) (zlen l) name
             t data_type
  end.

(** Without the first index of the type, if there is one. *)
Fixpoint drop_type (l : list index_field_stat) (t : index_key_alg) : option (list index_field_stat) :=
  match l with
  | [] => None
  | ix :: l => if bool_decide (ix_type ix = t) then Some l else l ← drop_type l t; Some (ix :: l)
  end.

(** A column without indexes leaves the list. *)
Fixpoint drop_index (l : list index_field_meta) (name : list Z) (t : index_key_alg)
    : option (list index_field_meta) :=
  match l with
  | [] => None
  | m :: l =>
      match (if bool_decide (meta_name m = name) then drop_type (indexs m) t else None) with
      | Some [] => Some l
      | Some ixs => Some (FieldMeta (meta_name m) ixs :: l)
      | None => l ← drop_index l name t; Some (m :: l)
      end
  end.

Definition table_del_index io table (field_name : list Z) (t : index_key_alg) : option (Z * table_manager S) :=
  name ← index_field_name field_name t;
  match drop_index (index_meta (table_meta table)) name t with
  | None => Some (0, table)
  | Some l =>
      let table := set_index_meta table l in
      '(_, h) ← string_map_remove (index_meta_hash table) name;
      table ← reload (with_hash table h);
      table ← for_segments table (λ segment,
                '(_, segment) ← segment_del_index env (now io) segment name t; Some segment)
                (Z.to_nat (max_segment_num table)) 0;
      Some (0, table)
  end.

(** ** Documents *)

Definition table_recover table (sid docid : Z) : option (Z * table_manager S) :=
  if table_deleted table then Some (ERROR_TABLE_DELETED, table)
  else
    init ← has_flag table sid SEGMENT_INIT;
    if negb init then Some (ERROR_SEGMENT_NOT_INIT, table)
    else on_segment table sid (λ segment, segment_recover segment docid).

(** The error code is returned as a time. *)
Definition segment_time table (sid : Z) (time : segment_meta_data → Z) : option Z :=
  if table_deleted table then Some (u64 ERROR_TABLE_DELETED)
  else
    init ← has_flag table sid SEGMENT_INIT;
    if negb init then Some 0 else m ← (segment_meta table)⟦sid⟧; Some (time m).

Definition table_get_segment_ctime table (sid : Z) : option Z := segment_time table sid create_time.
Definition table_get_segment_mtime table (sid : Z) : option Z := segment_time table sid modify_time.

(** The return code, [*sid] and [*docid]. *)
Definition table_prepare_insert io table (sid docid : Z) (flag : docid_source)
    : option (Z * Z * Z * table_manager S) :=
  if table_deleted table then Some (ERROR_TABLE_DELETED, sid, docid, table)
  else
    match flag with
    | DOCID_BY_BINLOG =>
        init ← has_flag table sid SEGMENT_INIT;
        '(ret, table) ← (if negb init then
                           '(p, table) ← init_segment_manager_instance io table sid;
                           table ← set_pointer table sid p;
                           match p with
                           | NULL => Some (ERROR_SEGMENT_INIT_FAILED, table)
                           | Ptr _ => table ← start_segment io table sid; Some (0, with_complete table 1)
                           end
                         else Some (0, table));
        if negb (ret =? 0) then Some (ret, sid, docid, table) else Some (0, sid, docid, set_current table sid)
    | DOCID_BY_SELF =>
        let cur := segment_current (table_meta table) in
        init ← has_flag table cur SEGMENT_INIT;
        ret ← (if negb init then Some ERROR_SEGMENT_NOT_INIT
               else segment ← get_segment table cur; Some (segment_exceed_limit segment));
        '(ret, table) ← (if (ret =? ERROR_EXCEED_LIMIT) || (ret =? ERROR_SEGMENT_NOT_INIT) then
                           '(ret, table) ← table_add_segment io table ret;
                           Some (ret, with_complete table 1)
                         else Some (ret, table));
        if ret <? 0 then Some (ret, sid, docid, table)
        else
          let cur := segment_current (table_meta table) in
          segment ← get_segment table cur;
          Some (ret, cur, segment_get_rowcount segment, table)
    end.

(** The indexes of one column; [true]: none failed. *)
Fixpoint insert_types io segment (data : field) (l : list index_field_stat) (docid ret : Z)
    : option (Z * bool * segment_manager S) :=
  match l with
  | [] => Some (ret, true, segment)
  | ix :: l =>
      let d := if bool_decide (type (fdata data) = ix_data ix) then data
               else Field (field_name data) (LowData (null_type io) [] 0) in
      '(ret, segment) ← segment_index_insert env get_hash_value segment d (ix_type ix) docid;
      if ret <? 0 then Some (ret, false, segment) else insert_types io segment data l docid ret
  end.

Fixpoint insert_fields io table segment (l : list field) (docid ret : Z) : option (Z * bool * segment_manager S) :=
  match l with
  | [] => Some (ret, true, segment)
  | data :: l =>
      m ← find_column table (field_name data);
      match m with
      | None => insert_fields io table segment l docid ret
      | Some m =>
          '(ret, ok, segment) ← insert_types io segment data (indexs m) docid ret;
          if (ok : bool) then insert_fields io table segment l docid ret else Some (ret, false, segment)
      end
  end.

(** The document, its indexes, the mark and the count.  A document whose indexing
    fails is counted but not marked. *)
Definition insert_document io table segment (docid : Z) (rdata : row_data) : option (Z * bool * segment_manager S) :=
  '(ret, segment) ← (if store_raw table then segment_data_insert (now io) (pool io) segment rdata docid
                     else Some (0, with_meta segment (set_modify (meta segment) (now io))));
  if ret <? 0 then Some (ret, false, segment)
  else
    l ← zsub (datas rdata) 0 (field_count rdata);
    '(ret, ok, segment) ← insert_fields io table segment l docid ret;
    if negb ok then Some (ret, false, segment_set_rowcount segment docid)
    else
      '(_, segment) ← segment_set_docid_inserted segment docid;
      Some (ret, true, segment_set_rowcount segment docid).

(** [table_pk_check] accepts every row. *)
Definition table_insert io table (sid docid : Z) (rdata : row_data) : option (Z * table_manager S) :=
  if table_deleted table then Some (ERROR_TABLE_DELETED, table)
  else
    init ← has_flag table sid SEGMENT_INIT;
    if negb init then Some (ERROR_SEGMENT_NOT_INIT, table)
    else
      '(r, table) ← on_segment table sid (λ segment,
                      '(ret, ok, segment) ← insert_document io table segment docid rdata; Some ((ret, ok), segment));
      let '(ret, ok) := r in
      if negb ok then Some (ret, table)
      else
        m ← (segment_meta table)⟦sid⟧;
        if row_count m =? table_limit table then
          table ← set_segment_meta table sid (set_seg_flag m (Z.lor (seg_flag m) SEGMENT_FULL));
          let table := with_complete table 0 in
          if negb (thread_ok io) then Some (ERROR_MMAP_SWITCH, table) else Some (ret, table)
        else Some (ret, table).

(** The data type of an index that can be queried. *)
Definition check_index table (name : list Z) (t : index_key_alg) : option (option field_types) :=
  m ← find_column table name;
  match m with
  | None => Some None
  | Some m =>
      Some (ix_data <$> List.find (λ ix, bool_decide (ix_type ix = t) && (ix_flag ix =? 1)) (indexs m))
  end.

Definition supports table (name : list Z) (t : index_key_alg) : option bool :=
  ty ← check_index table name t; Some (bool_decide (is_Some ty)).

(** Whether the segment can be asked. *)
Definition open_segment table (sid : Z) : option bool :=
  if sid >=? max_segment_num table then Some false else has_flag table sid SEGMENT_INIT.

(** Also returns [*old_data], NULL where it is not written. *)
Definition table_update io table (sid docid : Z) (new_data : field)
    : option (Z * ptr low_data_struct * table_manager S) :=
  if table_deleted table then Some (ERROR_TABLE_DELETED, NULL, table)
  else
    init ← open_segment table sid;
    if negb init then Some (ERROR_SEGMENT_NOT_INIT, NULL, table)
    else
      segment ← get_segment table sid;
      if docid >=? segment_get_rowcount segment then Some (ERROR_EXCEED_CURRENT, NULL, table)
      else
        hashed ← supports table (field_name new_data) HI_KEY_ALG_HASH;
        if (hashed : bool) then Some (ERROR_ONLY_FILTER_SUPPORT, NULL, table)
        else
          '(ret, old, segment) ← segment_data_update (pool io) segment docid new_data;
          let old := match old with NULL => NULL | Ptr f => Ptr (fdata f) end in
          table ← set_segment table sid segment;
          if ret <? 0 then Some (ret, old, table)
          else
            filtered ← supports table (field_name new_data) HI_KEY_ALG_FILTER;
            if negb filtered then Some (ret, old, table)
            else
              '(ret, old', segment) ← segment_index_update get_hash_value segment docid new_data;
              table ← set_segment table sid segment;
              Some (ret, match old' with NULL => old | Ptr _ => old' end, table).

(** ** Reading *)

Definition table_data_query_row table (sid docid : Z) : option (ptr row_data) :=
  if table_deleted table || negb (store_raw table) then Some NULL
  else
    init ← open_segment table sid;
    if negb init then Some NULL
    else segment ← get_segment table sid; segment_data_query_row segment docid.

(** A numeric filter index is asked first; what it returns is read without a test
    for NULL. *)
Definition table_data_query_col table (sid : Z) (name : list Z) (docid : Z) : option (ptr low_data_struct) :=
  if table_deleted table then Some NULL
  else
    init ← open_segment table sid;
    if negb init then Some NULL
    else
      segment ← get_segment table sid;
      ty ← check_index table name HI_KEY_ALG_FILTER;
      let stored :=
        f ← segment_data_query_col segment name docid;
        Some (match f with NULL => NULL | Ptr f => Ptr (fdata f) end) in
      match ty with
      | Some ty =>
          if bool_decide (ty = HI_TYPE_STRING) then if store_raw table then stored else Some NULL
          else
            r ← segment_index_value_query segment name docid;
            match r with
            | NULL => None
            | Ptr v =>
                if negb (len v =? 0) then Some (Ptr (LowData ty (data v) (len v)))
                else if store_raw table then stored else Some (Ptr v)
            end
      | None => if store_raw table then stored else Some NULL
      end.

Definition table_index_value_query table (sid : Z) (name : list Z) (docid : Z) : option (ptr low_data_struct) :=
  if table_deleted table then Some NULL
  else
    init ← open_segment table sid;
    if negb init then Some NULL
    else
      ty ← check_index table name HI_KEY_ALG_FILTER;
      match ty with
      | None => Some NULL
      | Some ty =>
          segment ← get_segment table sid;
          r ← segment_index_value_query segment name docid;
          Some (match r with
                | NULL => NULL
                | Ptr v =>
                    Ptr (LowData (if bool_decide (ty = HI_TYPE_STRING) then HI_TYPE_LONGLONG else ty) (data v) (len v))
                end)
      end.

(** A node of [table_seghint_query]; its [rowids] are NULL. *)
Record segment_hint := SegHint { hint_sid : Z; max_docid : Z }.

(** [time_cond]: [None] for NULL, or the two hints. *)
Definition in_time (m : segment_meta_data) (time_cond : option (Z * Z)) : bool :=
  match time_cond with
  | None => true
  | Some (h0, h1) => negb ((modify_time m <=? h0) || (create_time m >=? h1))
  end.

(** Every node is added at the head of the list. *)
Fixpoint hint_loop table (time_cond : option (Z * Z)) (n : nat) (i : Z) (l : list segment_hint)
    : option (list segment_hint) :=
  match n with
  | O => Some l
  | Datatypes.S n =>
      init ← has_flag table i SEGMENT_INIT;
      if negb init then hint_loop table time_cond n (i + 1) l
      else
        segment ← get_segment table i;
        let l := if in_time (meta segment) time_cond then SegHint i (row_count (meta segment)) :: l else l in
        hint_loop table time_cond n (i + 1) l
  end.

Definition table_seghint_query table (time_cond : option (Z * Z)) : option (ptr (list segment_hint)) :=
  if table_deleted table then Some NULL
  else l ← hint_loop table time_cond (Z.to_nat (max_segment_num table)) 0 []; Some (Ptr l).

Fixpoint count_loop table (data : field) (l : list segment_hint) (ret : Z) : option Z :=
  match l with
  | [] => Some ret
  | p :: l =>
      segment ← get_segment table (hint_sid p);
      n ← segment_index_count_query get_hash_value segment data;
      count_loop table data l (u32 (ret + n))
  end.

Definition table_index_count_query table (l : list segment_hint) (data : field) : option Z :=
  if table_deleted table then Some 0
  else
    ok ← supports table (field_name data) HI_KEY_ALG_FULLTEXT;
    if negb ok then Some 0 else count_loop table data l 0.

(** [max_docid], which only the result iterator reads, is copied to the nodes and
    left out here. *)
Fixpoint equal_loop table (data : field) (t : index_key_alg) (l : list segment_hint) (acc : seg_list)
    : option seg_list :=
  match l with
  | [] => Some acc
  | p :: l =>
      segment ← get_segment table (hint_sid p);
      r ← segment_index_equal_query get_hash_value segment data t;
      equal_loop table data t l (SegRowids (hint_sid p) r :: acc)
  end.

Definition index_equal_query table (l : list segment_hint) (data : field) (t : index_key_alg)
    : option (ptr seg_list) :=
  if table_deleted table then Some NULL
  else
    ok ← supports table (field_name data) t;
    if negb ok then Some NULL else r ← equal_loop table data t l []; Some (Ptr r).

Definition table_fulltext_index_equal_query table (l : list segment_hint) (data : field) : option (ptr seg_list) :=
  index_equal_query table l data HI_KEY_ALG_FULLTEXT.
Definition table_index_equal_query table (l : list segment_hint) (data : field) : option (ptr seg_list) :=
  index_equal_query table l data HI_KEY_ALG_HASH.

Fixpoint range_loop table (name : list Z) (time_cond : Z * Z) (n : nat) (i : Z) (acc : seg_list) : option seg_list :=
  match n with
  | O => Some acc
  | Datatypes.S n =>
      init ← has_flag table i SEGMENT_INIT;
      if negb init then range_loop table name time_cond n (i + 1) acc
      else
        segment ← get_segment table i;
        if negb (in_time (meta segment) (Some time_cond)) then range_loop table name time_cond n (i + 1) acc
        else
          r ← segment_index_range_query segment name;
          range_loop table name time_cond n (i + 1) (SegRowids i r :: acc)
  end.

Definition table_index_range_query table (name : list Z) (time_cond : Z * Z) : option (ptr seg_list) :=
  if table_deleted table then Some NULL
  else
    ok ← supports table name HI_KEY_ALG_BTREE;
    if negb ok then Some NULL
    else r ← range_loop table name time_cond (Z.to_nat (max_segment_num table)) 0 []; Some (Ptr r).

(** Sums over the segments of a list. *)
Fixpoint sum_loop table (num : segment_meta_data → Z) (l : list segment_hint) (sum : Z) : option Z :=
  match l with
  | [] => Some sum
  | p :: l =>
      m ← (segment_meta table)⟦hint_sid p⟧;
      sum_loop table num l (if Z.land (seg_flag m) SEGMENT_INIT =? 0 then sum else s64 (sum + num m))
  end.

(** The difference is taken in 32 bits without sign. *)
Definition table_get_record_num table (l : list segment_hint) : option Z :=
  if table_deleted table then Some ERROR_TABLE_DELETED
  else sum_loop table (λ m, u32 (row_count m - del_count m)) l 0.

Definition table_get_delete_num table (l : list segment_hint) : option Z :=
  if table_deleted table then Some ERROR_TABLE_DELETED else sum_loop table del_count l 0.

Definition table_del_docid io table (sid docid : Z) : option (Z * table_manager S) :=
  if table_deleted table then Some (ERROR_TABLE_DELETED, table)
  else
    init ← has_flag table sid SEGMENT_INIT;
    if negb init then Some (ERROR_SEGMENT_NOT_INIT, table)
    else on_segment table sid (λ segment, segment_del_docid (now io) segment docid).

Definition table_is_docid_deleted table (sid docid : Z) : option Z :=
  if table_deleted table then Some ERROR_TABLE_DELETED
  else
    init ← has_flag table sid SEGMENT_INIT;
    if negb init then Some ERROR_SEGMENT_NOT_INIT
    else segment ← get_segment table sid; segment_is_docid_deleted segment docid.

Definition table_lock io : Z := if lock_ok io then 0 else ERROR_LOCK_FAILED.

Definition table_set_segment_current io table (sid : Z) : Z * table_manager S :=
  if negb (table_lock io =? 0) then (ERROR_LOCK_FAILED, table) else (0, set_current table sid).

Definition table_del table : Z * table_manager S :=
  (0, set_stat table (Z.lor (tstat (table_meta table)) TABLE_DEL)).

(** ** Closing, compressing, moving *)

(** The directory of a segment after its release. *)
Definition released (d : option (segment_dir S)) (mark : list Z) (s : S) (ds : directories) : segment_dir S :=
  SegDir mark (Some s) ds (default zero_meta (meta_dat <$> d)) (default [] (index_dat <$> d)).

Definition release_segment table (sid : Z) : option (table_manager S) :=
  segment ← get_segment table sid;
  '(mark, s, ds) ← segment_release env segment;
  d ← (seg_dirs table)⟦sid⟧;
  set_dir table sid (Some (released d mark s ds)).

Fixpoint release_segments table (n : nat) (i : Z) : option (table_manager S) :=
  match n with
  | O => Some table
  | Datatypes.S n =>
      init ← has_flag table i SEGMENT_INIT;
      table ← (if (init : bool) then release_segment table i else Some table);
      release_segments table n (i + 1)
  end.

(** What is left: the meta data of the table and of its segments, and the
    directories. *)
Definition table_release table
    : option (table_meta_data * list segment_meta_data * list (option (segment_dir S))) :=
  table ← (if table_deleted table then Some table else release_segments table (Z.to_nat (max_segment_num table)) 0);
  Some (table_meta table, segment_meta table, seg_dirs table).

(** The segment counts as compressed whatever the switch returned. *)
Fixpoint compress_segments table (n : nat) (i ret : Z) : option (Z * table_manager S) :=
  match n with
  | O => Some (ret, table)
  | Datatypes.S n =>
      done ← has_flag table i SEGMENT_COMPRESS;
      full ← has_flag table i SEGMENT_FULL;
      init ← has_flag table i SEGMENT_INIT;
      if (done : bool) || negb full || negb init then compress_segments table n (i + 1) ret
      else
        '(ret, table) ← on_segment table i (segment_compress env);
        if negb (ret =? 0) then Some (ret, table)
        else
          '(ret, table) ← on_segment table i (λ segment,
                            '(ret, segment) ← segment_compress_switch segment;
                            Some (ret, segment_set_flag segment SEGMENT_COMPRESS));
          compress_segments table n (i + 1) ret
  end.

Definition table_compress table : option (Z * table_manager S) :=
  if table_deleted table then Some (ERROR_TABLE_DELETED, table)
  else compress_segments table (Z.to_nat (max_segment_num table)) 0 0.

Definition table_mmap_switch (flush switch : bool * bool) (dy_flush dy_switch : dyhash_io) table (sid : Z)
    : option (Z * table_manager S) :=
  if table_deleted table then Some (ERROR_TABLE_DELETED, table)
  else on_segment table sid (segment_mmap_switch env flush switch dy_flush dy_switch).

(** An index of the table that the loaded segment does not have. *)
Fixpoint load_documents segment (t : index_key_alg) (name : list Z) (n : nat) (docid : Z)
    : option (segment_manager S) :=
  match n with
  | O => Some segment
  | Datatypes.S n =>
      data ← segment_data_query_col segment name docid;
      segment ← match data with
                | NULL => Some segment
                | Ptr data =>
                    '(_, segment) ← segment_index_insert env get_hash_value segment data t docid; Some segment
                end;
      load_documents segment t name n (docid + 1)
  end.

Fixpoint complete_types io segment (limit : Z) (name : list Z) (l : list index_field_stat)
    : option (segment_manager S) :=
  match l with
  | [] => Some segment
  | ix :: l =>
      f ← segment_get_index_instance segment name (ix_type ix);
      segment ← match f with
                | Ptr _ => Some segment
                | NULL =>
                    '(_, segment) ← segment_ensure_index env (now io) (mkdir_field io name) segment name (ix_type ix);
                    load_documents segment (ix_type ix) name (Z.to_nat limit) 0
                end;
      complete_types io segment limit name l
  end.

Fixpoint complete_fields io segment (limit : Z) (l : list index_field_meta) : option (segment_manager S) :=
  match l with
  | [] => Some segment
  | m :: l =>
      segment ← complete_types io segment limit (meta_name m) (indexs m);
      complete_fields io segment limit l
  end.

(** Success is returned in every case.  A cell that is taken leads to [munmap] of
    a pointer that was never set. *)
Definition table_load_segment io table (sid : Z) (dir : segment_dir S) : option (Z * table_manager S) :=
  taken ← has_flag table sid SEGMENT_INIT;
  if (taken : bool) then None
  else if negb (map_meta io && map_index io && rename_ok io) then Some (0, table)
  else
    table ← set_dir table sid (Some dir);
    m ← (segment_meta table)⟦sid⟧;
    r ← segment_init env (now io) (mkdir_seg io) (mkdir_field io) (table_limit table) (table_compress_num table) m
          (dir_mark dir) (dir_store dir) (dir_fields dir) (index_dat dir);
    table ← set_pointer table sid r;
    match r with
    | NULL => Some (0, table)
    | Ptr segment =>
        segment ← complete_fields io segment (table_limit table) (index_meta (table_meta table));
        let m := meta_dat dir in
        let w := Z.lor (Z.land (seg_flag m) (Z.lnot SEGMENT_DUMP)) SEGMENT_INIT in
        table ← set_segment table sid (with_meta segment (set_seg_flag m w));
        Some (0, table)
    end.

(** Also returns the directory that has been moved away.  A segment that has not
    been made but has a pointer is unloaded nevertheless. *)
Definition table_unload_segment io table (sid : Z) : option (Z * option (segment_dir S) * table_manager S) :=
  if table_deleted table then Some (ERROR_TABLE_DELETED, None, table)
  else
    init ← has_flag table sid SEGMENT_INIT;
    let ret := if (init : bool) then 0 else ERROR_SEGMENT_NOT_INIT in
    p ← (segments table)⟦sid⟧;
    match p with
    | NULL => Some (ERROR_SEGMENT_NOT_INIT, None, table)
    | Ptr _ =>
        if negb (map_meta io) then Some (ERROR_FILE_OP_FAILED, None, table)
        else
          m ← (segment_meta table)⟦sid⟧;
          let m := set_seg_flag m (Z.lor (seg_flag m) SEGMENT_DUMP) in
          table ← set_segment_meta table sid m;
          if negb (map_index io) then Some (ERROR_FILE_OP_FAILED, None, table)
          else
            table ← set_segment_meta table sid zero_meta;
            table ← release_segment table sid;
            table ← set_pointer table sid NULL;
            d ← (seg_dirs table)⟦sid⟧;
            d ← d;
            let d := SegDir (dir_mark d) (dir_store d) (dir_fields d) m (index_meta (table_meta table)) in
            if negb (rename_ok io) then table ← set_dir table sid (Some d); Some (ERROR_FILE_OP_FAILED, None, table)
            else table ← set_dir table sid None; Some (ret, Some d, table)
    end.

(** The first cell that is free. *)
Fixpoint first_free table (n : nat) (i : Z) : option (option Z) :=
  match n with
  | O => Some None
  | Datatypes.S n =>
      init ← has_flag table i SEGMENT_INIT;
      if (init : bool) then first_free table n (i + 1) else Some (Some i)
  end.

Definition traversal_dir_func io table (dir : segment_dir S) : option (Z * table_manager S) :=
  r ← first_free table (Z.to_nat (max_segment_num table)) 0;
  match r with
  | None => Some (ERROR_EXCEED_SEGMENT_NUM, table)
  | Some i => table_load_segment io table i dir
  end.

(** [traversal_single_deep_childdir] over the child directories. *)
Fixpoint traverse_dirs io table (l : list (segment_dir S)) : option (Z * table_manager S) :=
  match l with
  | [] => Some (0, table)
  | d :: l =>
      '(ret, table) ← traversal_dir_func io table d;
      if ret <? 0 then Some (ret, table) else traverse_dirs io table l
  end.

(** [true]: none failed. *)
Fixpoint unload_segments io table (n : nat) (i ret : Z) (out : list (segment_dir S))
    : option (Z * bool * list (segment_dir S) * table_manager S) :=
  match n with
  | O => Some (ret, true, out, table)
  | Datatypes.S n =>
      init ← has_flag table i SEGMENT_INIT;
      if negb init then unload_segments io table n (i + 1) ret out
      else
        '(ret, d, table) ← table_unload_segment io table i;
        if ret <? 0 then Some (ret, false, out, table)
        else unload_segments io table n (i + 1) ret (out ++ option_list d)
  end.

(** [uninit]: the value of [ret], which is not set when there is nothing to do.
    [segments_dir]: [None] for NULL. *)
Definition table_replace_all_segments io (uninit : Z) table (segments_dir : option (list (segment_dir S)))
    : option (Z * list (segment_dir S) * table_manager S) :=
  '(ret, ok, out, table) ← unload_segments io table (Z.to_nat (max_segment_num table)) 0 uninit [];
  if negb ok then Some (ret, out, table)
  else
    match segments_dir with
    | None => Some (ret, out, table)
    | Some l => '(ret, table) ← traverse_dirs io table l; Some (ret, out, table)
    end.

Definition table_query_segment_stat table : ptr (list segment_meta_data * Z) :=
  if table_deleted table then NULL else Ptr (segment_meta table, max_segment_num table).

Definition table_query_index_stat table : ptr (list index_field_meta) :=
  if table_deleted table then NULL else Ptr (index_meta (table_meta table)).
End table.
