(* ===== verification/TableSpec.v ===== *)
(** * What a table promises

    Documents are numbered in the order of their insertion; document [n] of a table
    with [N] rows per segment is row [n mod N] of segment [n / N].  The
    specification of a table is the list of its rows, the set of deleted documents
    and, per hash index and segment, the history of keyed rows. *)

From Stdlib Require Import ZArith Lia Sorted.
From stdpp Require Import base option list numbers gmap sets.
From S2P Require Import Prelude FileOp StringMap Doclist Bitmark RowidList SetOperator SegRowid LowData HashIndex HashIndexSpec VStorage Storage HashMemCompress DynHash Column FilterIndex RowData DataField FilterCompress FilterCompressSpec IndexField IndexFieldSpec Segment SegmentSpec Table.

(** ** Flags *)

Definition flag_on (w b : Z) : bool := negb (Z.land w b =? 0).

Lemma flag_on_lor a b c : flag_on (Z.lor a b) c = flag_on a c || flag_on b c.
Proof.
  unfold flag_on. rewrite Z.land_lor_distr_l.
  destruct (Z.eqb_spec (Z.land a c) 0) as [E1|E1], (Z.eqb_spec (Z.land b c) 0) as [E2|E2];
    destruct (Z.eqb_spec (Z.lor (Z.land a c) (Z.land b c)) 0) as [E|E]; try done.
  - destruct E. by rewrite E1, E2.
  - apply Z.lor_eq_0_iff in E. naive_solver.
  - apply Z.lor_eq_0_iff in E. naive_solver.
  - apply Z.lor_eq_0_iff in E. naive_solver.
Qed.

Lemma filter_lengths {A} (p : A → bool) (l : list A) :
  (length (filter (λ x, p x = true) l) + length (filter (λ x, p x = false) l) = length l)%nat.
Proof.
  induction l as [|x l IH]; [done|]. rewrite !filter_cons. destruct (p x) eqn:E.
  - rewrite decide_True, decide_False by congruence. simpl. lia.
  - rewrite decide_False, decide_True by congruence. simpl. lia.
Qed.

(** ** The specification *)

Record table_state := TState {
  tcols : list (list Z);                              (* columns with a hash index *)
  trows : list (list field);
  tgone : Z → bool;                                   (* deleted documents *)
  tkeys : list Z → Z → list (Z * option Z);           (* by column and segment, newest first *)
  tbytes : Z                                          (* written to the row stores so far *)
}.

Inductive table_op :=
| TInsert (fs : list field)
| TUpdate (n : Z) (new : field)
| TDelete (n : Z)
| TCheckpoint
| TMmapSwitch (sid : Z)
| TCompress
| TRestart.

Section spec.
Context (get_hash_value : low_data_struct → Z) (nh : Z) (N : Z) (types : list Z → field_types).
Implicit Types (ts : table_state).

(** The key under which a row is indexed; a value of another type counts as null. *)
Definition row_key (name : list Z) (fs : list field) : option (option Z) :=
  match lookup_field name fs with
  | NULL => None
  | Ptr f => Some (if bool_decide (type (fdata f) = types name) then key_of get_hash_value (fdata f) else None)
  end.

Definition push_key (name : list Z) (fs : list field) (d : Z) (kh : list (Z * option Z)) : list (Z * option Z) :=
  match row_key name fs with None => kh | Some k => (d, k) :: kh end.

Definition table_spec ts (op : table_op) : table_state :=
  match op with
  | TInsert fs =>
      let n := zlen (trows ts) in
      TState (tcols ts) (trows ts ++ [fs]) (tgone ts)
        (λ name i, if decide (i = n / N) then push_key name fs (n `mod` N) (tkeys ts name i) else tkeys ts name i)
        (tbytes ts + zlen (encode_row fs))
  | TUpdate n new =>
      let fs := set_field (default [] ((trows ts)⟦n⟧)) new in
      TState (tcols ts) (<[Z.to_nat n := fs]> (trows ts)) (tgone ts) (tkeys ts) (tbytes ts + zlen (encode_row fs))
  | TDelete n => TState (tcols ts) (trows ts) (λ m, bool_decide (m = n) || tgone ts m) (tkeys ts) (tbytes ts)
  | _ => ts
  end.

(** The row can be stored, and its indexed values have usable hashes. *)
Definition row_insertable (mem : list Z) (fits : Z → Prop) (B0 : Z) ts (fs : list field) : Prop :=
  row_ok fs ∧ 8 ≤ zlen mem ∧ zlen (encode_row fs) ≤ zlen mem ∧ fits (zlen (encode_row fs)) ∧
  B0 + tbytes ts + zlen (encode_row fs) < 2 ^ 64.

Definition usable_hashes ts (fs : list field) : Prop :=
  NoDup (field_name <$> fs) ∧
  ∀ f, f ∈ fs → field_name f ∈ tcols ts → type (fdata f) = types (field_name f) → len (fdata f) ≠ 0 →
    get_hash_value (fdata f) ≠ 0 ∧ get_hash_value (fdata f) ≠ nh.

(** [M] segments, [mem] the pool's memory. *)
Definition table_op_ok (M : Z) (mem : list Z) (fits : Z → Prop) (B0 : Z) ts (op : table_op) : Prop :=
  let n := zlen (trows ts) in
  match op with
  | TInsert fs => n < N * M ∧ row_insertable mem fits B0 ts fs ∧ usable_hashes ts fs
  | TUpdate m new =>
      0 ≤ m < n ∧ field_name new ∉ tcols ts ∧
      row_insertable mem fits B0 ts (set_field (default [] ((trows ts)⟦m⟧)) new)
  | TDelete m => 0 ≤ m < n
  | TMmapSwitch sid => 0 ≤ sid ∧ (sid + 1) * N ≤ n
  | _ => True
  end.
End spec.

(** ** Steps of a table *)

Section run.
Context {S : Type} `{!Column S}.
Context (env : field_env) (get_hash_value : low_data_struct → Z) (config : table_config).
Implicit Types (io : table_io S) (t : table_manager S).

Definition limit_of : Z := config_limit config.

(** The place of a new document, and the table after the step; a step that does
    not return success stops the run. *)
Definition table_step io t (op : table_op) : option (option (Z * Z) * table_manager S) :=
  match op with
  | TInsert fs =>
      '(rc, sid, docid, t) ← table_prepare_insert env io t 0 0 DOCID_BY_SELF;
      if negb (rc =? 0) then None
      else
        '(rc, t) ← table_insert env get_hash_value io t sid docid (Row fs (zlen fs));
        if rc =? 0 then Some (Some (sid, docid), t) else None
  | TUpdate n new =>
      '(rc, _, t) ← table_update get_hash_value io t (n / limit_of) (n `mod` limit_of) new;
      if rc =? 0 then Some (None, t) else None
  | TDelete n =>
      '(rc, t) ← table_del_docid io t (n / limit_of) (n `mod` limit_of);
      if rc =? 0 then Some (None, t) else None
  | TCheckpoint => t ← table_checkpoint env t; Some (None, t)
  | TMmapSwitch sid =>
      '(rc, t) ← table_mmap_switch env (true, true) (true, true) (λ _, (true, true)) (λ _, (true, true)) t sid;
      if rc =? 0 then Some (None, t) else None
  | TCompress => '(rc, t) ← table_compress env t; if rc =? 0 then Some (None, t) else None
  | TRestart =>
      '(tm, metas, ds) ← table_release env t;
      r ← table_init env io config tm metas ds;
      match r with NULL => None | Ptr t => Some (None, t) end
  end.

(** The places of the documents, in order. *)
Fixpoint table_run t (ops : list (table_io S * table_op)) : option (list (Z * Z) * table_manager S) :=
  match ops with
  | [] => Some ([], t)
  | (io, op) :: ops =>
      '(place, t) ← table_step io t op;
      '(places, t) ← table_run t ops;
      Some (option_list place ++ places, t)
  end.
End run.

(** ** The relation *)

(** Cells of an array after one is written. *)
Lemma zset_Some {A} (l : list A) i v : 0 ≤ i < zlen l → ∃ l', l⟦i := v⟧ = Some l' ∧ zlen l' = zlen l ∧ l'⟦i⟧ = Some v ∧
  ∀ j, j ≠ i → l'⟦j⟧ = l⟦j⟧.
Proof.
  intros Hi. rewrite zset_in by done. eexists. split; [done|]. rewrite zlen_insert. split; [done|].
  split.
  - rewrite zget_lookup by lia. apply list_lookup_insert_eq. unfold zlen in Hi. lia.
  - intros j Hj. destruct (decide (0 ≤ j)).
    + rewrite !zget_lookup by lia. apply list_lookup_insert_ne. lia.
    + unfold zget. by rewrite !decide_False by lia.
Qed.

Section impl.
Context {S : Type} `{!Column S, !ColumnLaws S}.
Context (get_hash_value : low_data_struct → Z) (nh : Z) `{!HashLaws get_hash_value nh}.
Context (shared : bool) (junk : Z) (qsort : (Z → Z → Z) → list Z → list Z) `{!QsortLaws qsort}.
Context (N : Z) (HN : 0 < N) (Hmax : 16 * (N + 1) < 2 ^ 31).
Context (M : Z) (HM : 0 < M) (HM33 : M * 33 < 2 ^ 31).
Context (types : list Z → field_types) (fits : Z → Prop) (B0 : Z).
Let env := calm shared junk qsort.
Implicit Types (io : table_io S) (t : table_manager S) (ts : table_state) (st : segment_state) (seg : segment_manager S).

(** Calls to the system succeed; a new row store is empty. *)
Record calm_io io : Prop := {
  ci_table : table_mkdirs io = true;
  ci_dir : dir_mkdirs io = true;
  ci_path : dir_realpath io = true;
  ci_link : dir_symlink io = true;
  ci_seg : mkdir_seg io = true;
  ci_field : mkdir_field io = λ _, true;
  ci_store : ∃ store, fresh_store io = Some store ∧ new_store N fits store ∧ col_size store ≤ B0;
  ci_thread : thread_ok io = true;
  ci_meta : map_meta io = true
}.

Definition column_meta (name : list Z) : index_field_meta := FieldMeta name [IndexStat HI_KEY_ALG_HASH (types name) 1].

(** The map finds the columns. *)
Definition columns_rep (cols : list (list Z)) t : Prop :=
  ∃ kvs, holds_entries (index_meta_hash t) kvs ∧ sm_size (index_meta_hash t) = MAX_INDEX_FIELD_NUM ∧
    (∀ name, is_Some (entry_map kvs !! name) ↔ name ∈ cols) ∧
    ∀ name r, entry_map kvs !! name = Some r → deref t r = Some (column_meta name).

Record seg_matches ts (i : Z) st : Prop := {
  ma_rows : drows st = Z.min N (zlen (trows ts) - i * N);
  ma_docs : ∀ d, 0 ≤ d < N → docs st d = (trows ts)⟦i * N + d⟧;
  ma_there : ∀ d, 0 ≤ d < drows st → there st d = negb (tgone ts (i * N + d));
  ma_fails : dfails st = 0;
  ma_size : dsize st ≤ B0 + tbytes ts;
  ma_init : flag_on (dflag st) SEGMENT_INIT = true;
  ma_full : flag_on (dflag st) SEGMENT_FULL = bool_decide (drows st = N);
  ma_fields : ∀ name, name ∈ tcols ts → ∃ s, fields st !! hash_key name = Some s ∧ live s = tkeys ts name i ∧
    built s = None ∧ (packed s = true → drows st = N)
}.

(** [t] has [k] segments. *)
Record table_rep ts (k : Z) t : Prop := {
  tr_dirs : 0 < zlen (storage_dirs t);
  tr_del : table_deleted t = false;
  tr_max : max_segment_num t = M;
  tr_limit : table_limit t = N;
  tr_raw : store_raw t = true;
  tr_segments : zlen (segments t) = M;
  tr_metas : zlen (segment_meta t) = M;
  tr_seg_dirs : zlen (seg_dirs t) = M;
  tr_meta : index_meta (table_meta t) = hash_fields types (tcols ts);
  tr_cols : columns_rep (tcols ts) t;
  tr_names : NoDup (tcols ts) ∧ Forall (λ name, zlen name < MAX_FIELD_NAME) (tcols ts) ∧
    zlen (tcols ts) ≤ MAX_INDEX_FIELD_NUM;
  tr_cur : segment_current (table_meta t) = Z.max 0 (k - 1);
  tr_k : 0 ≤ k ≤ M ∧ zlen (trows ts) ≤ k * N ∧ (k = 0 ∨ (k - 1) * N ≤ zlen (trows ts));
  tr_open : ∀ i, 0 ≤ i < k → ∃ seg st, get_segment t i = Some seg ∧ seg_rep nh N (tcols ts) fits st seg ∧
    seg_matches ts i st ∧ is_Some (mjoin ((seg_dirs t)⟦i⟧));
  tr_closed : ∀ i, k ≤ i < M → (segments t)⟦i⟧ = Some NULL ∧ (segment_meta t)⟦i⟧ = Some zero_meta ∧
    (seg_dirs t)⟦i⟧ = Some None;
  (** documents in the histories are rows of the segment *)
  tr_keys : ∀ name i d, d ∈ (tkeys ts name i).*1 → 0 ≤ d < N ∧ i * N + d < zlen (trows ts);
  tr_gone : ∀ n, tgone ts n = true → 0 ≤ n < zlen (trows ts);
  tr_bytes : 0 ≤ tbytes ts
}.

(** *** Segments of a table *)

Lemma get_segment_meta t i seg : get_segment t i = Some seg → (segment_meta t)⟦i⟧ = Some (meta seg).
Proof.
  unfold get_segment. destruct ((segments t)⟦i⟧) as [[|s]|]; try done. cbn [mbind option_bind].
  destruct ((segment_meta t)⟦i⟧) as [m|]; [|done]. by intros [= <-].
Qed.

Lemma has_flag_segment t i seg w : get_segment t i = Some seg → has_flag t i w = Some (flag_on (seg_flag (meta seg)) w).
Proof. intros H%get_segment_meta. unfold has_flag. by rewrite H. Qed.

(** [t'] is [t] but for segment [i], which is [seg']. *)
Record updated t t' (i : Z) seg' : Prop := {
  up_dirs : storage_dirs t' = storage_dirs t;
  up_meta : table_meta t' = table_meta t;
  up_max : max_segment_num t' = max_segment_num t;
  up_hash : index_meta_hash t' = index_meta_hash t;
  up_limit : table_limit t' = table_limit t;
  up_raw : store_raw t' = store_raw t;
  up_sdirs : seg_dirs t' = seg_dirs t;
  up_lens : zlen (segments t') = zlen (segments t);
  up_lenm : zlen (segment_meta t') = zlen (segment_meta t);
  up_seg : get_segment t' i = Some seg';
  up_other : ∀ j, j ≠ i → (segments t')⟦j⟧ = (segments t)⟦j⟧ ∧ (segment_meta t')⟦j⟧ = (segment_meta t)⟦j⟧
}.

Lemma set_segment_spec t i seg' :
  0 ≤ i < zlen (segments t) → 0 ≤ i < zlen (segment_meta t) → ∃ t', set_segment t i seg' = Some t' ∧ updated t t' i seg'.
Proof.
  intros Hs Hm. unfold set_segment, set_pointer.
  destruct (zset_Some (segments t) i (Ptr seg') Hs) as (l & -> & Hl & Hi & Hj). cbn [mbind option_bind].
  unfold set_segment_meta. cbn [segment_meta with_segments].
  destruct (zset_Some (segment_meta t) i (meta seg') Hm) as (l' & -> & Hl' & Hi' & Hj'). cbn [mbind option_bind].
  eexists. split; [done|]. split; cbn; try done.
  - unfold get_segment. cbn. rewrite Hi. cbn [mbind option_bind]. rewrite Hi'. cbn [mbind option_bind]. by destruct seg'.
  - intros j Hne. by rewrite Hj, Hj'.
Qed.

Lemma on_segment_spec {R} t i seg (r : R) seg' call :
  zlen (segments t) = M → zlen (segment_meta t) = M → 0 ≤ i < M → get_segment t i = Some seg →
  call seg = Some (r, seg') →
  ∃ t', on_segment t i call = Some (r, t') ∧ updated t t' i seg'.
Proof.
  intros Hls Hlm Hi Hg Hc. unfold on_segment. rewrite Hg. cbn [mbind option_bind]. rewrite Hc. cbn [mbind option_bind].
  destruct (set_segment_spec t i seg') as (t' & -> & Hu); [lia|lia|]. by exists t'.
Qed.

Lemma deref_meta t t' r : table_meta t' = table_meta t → deref t' r = deref t r.
Proof. intros H. destruct r; [done|]. cbn [deref]. by rewrite H. Qed.

Lemma columns_same cols t t' :
  table_meta t' = table_meta t → index_meta_hash t' = index_meta_hash t → columns_rep cols t → columns_rep cols t'.
Proof.
  intros Hm Hh (kvs & H1 & H2 & H3 & H4). exists kvs. rewrite Hh. split_and!; try done.
  intros name r Hr. rewrite (deref_meta t t' r Hm). by apply H4.
Qed.

(** Segment [i] has moved to [st'], and the table to [ts']. *)
Lemma update_rep ts ts' k t t' i seg' st' :
  table_rep ts k t → updated t t' i seg' → 0 ≤ i < k →
  seg_rep nh N (tcols ts') fits st' seg' → seg_matches ts' i st' →
  tcols ts' = tcols ts → zlen (trows ts') ≤ k * N → (k - 1) * N ≤ zlen (trows ts') →
  (∀ j st, 0 ≤ j < k → j ≠ i → seg_matches ts j st → seg_matches ts' j st) →
  (∀ name j d, d ∈ (tkeys ts' name j).*1 → 0 ≤ d < N ∧ j * N + d < zlen (trows ts')) →
  (∀ n, tgone ts' n = true → 0 ≤ n < zlen (trows ts')) → tbytes ts ≤ tbytes ts' →
  table_rep ts' k t'.
Proof.
  intros [] [] Hi Hrep Hm Hc Hl1 Hl2 Hother Hk Hgone Hb. split; try congruence; try done; try lia.
  - unfold table_deleted. rewrite up_meta0. apply tr_del0.
  - rewrite Hc. by apply (columns_same _ t).
  - intros j Hj. destruct (decide (j = i)) as [->|Hne].
    + exists seg', st'. rewrite up_sdirs0. destruct (tr_open0 i Hi) as (_ & _ & _ & _ & _ & Hd). done.
    + destruct (tr_open0 j Hj) as (seg & st & Hg & Hr & Hma & Hd). destruct (up_other0 j Hne) as [E1 E2].
      exists seg, st. split; [unfold get_segment in *; by rewrite E1, E2|]. rewrite Hc, up_sdirs0. split; [done|].
      split; [by apply Hother|done].
  - intros j Hj. assert (j ≠ i) as Hne by lia. destruct (up_other0 j Hne) as [-> ->]. rewrite up_sdirs0. by apply tr_closed0.
Qed.

(** *** Places *)

Lemma place_of n : 0 ≤ n → n / N * N + n `mod` N = n ∧ 0 ≤ n `mod` N < N ∧ 0 ≤ n / N.
Proof.
  intros Hn. pose proof (Z.div_mod n N ltac:(lia)). pose proof (Z.mod_pos_bound n N HN).
  pose proof (Z.div_pos n N Hn HN). lia.
Qed.

Lemma place_unique i d n : 0 ≤ d < N → i * N + d = n → i = n / N ∧ d = n `mod` N.
Proof.
  intros Hd <-. rewrite Z.div_add_l, Z.div_small by lia. rewrite (Z.add_comm (i * N) d), Z_mod_plus_full, Z.mod_small by done. lia.
Qed.

Lemma place_open ts k t n : table_rep ts k t → 0 ≤ n < zlen (trows ts) → 0 ≤ n / N < k.
Proof.
  intros H Hn. destruct (tr_k _ _ _ H) as (_ & Hk & _). destruct (place_of n) as (E & ? & ?); [lia|]. nia.
Qed.

Lemma place_row ts k t n st :
  table_rep ts k t → 0 ≤ n < zlen (trows ts) → seg_matches ts (n / N) st → 0 ≤ n `mod` N < drows st.
Proof. intros H Hn Hma. rewrite (ma_rows _ _ _ Hma). destruct (place_of n) as (E & ? & ?); [lia|]. nia. Qed.

(** *** Segments take their steps *)

Abbreviation step_of cols tm mem := (segment_step get_hash_value shared junk qsort cols types tm 0 mem) (only parsing).

Lemma seg_step ts k t st seg op tm mem :
  table_rep ts k t → seg_rep nh N (tcols ts) fits st seg → segment_op_ok get_hash_value nh N (tcols ts) mem fits st op →
  ∃ seg', step_of (tcols ts) tm mem seg op = Some (0, seg') ∧
    seg_rep nh N (tcols ts) fits (segment_spec get_hash_value N st op) seg'.
Proof.
  intros Ht Hrep Hop. destruct (tr_names _ _ _ Ht) as (_ & Hn & Hc).
  exact (step_goes get_hash_value nh shared junk qsort N HN Hmax (tcols ts) Hn Hc types tm 0 mem fits st seg op Hrep Hop).
Qed.

(** The flag word of a segment. *)
Definition with_flag st (w : Z) : segment_state :=
  SegState (fields st) (there st) (drows st) (ddels st) (dfails st) (docs st) (dsize st) w.

Lemma meta_rep cols st seg m :
  seg_rep nh N cols fits st seg → row_count m = row_count (meta seg) → del_count m = del_count (meta seg) →
  seg_rep nh N cols fits (with_flag st (seg_flag m)) (with_meta seg m).
Proof. intros [] E1 E2. split; cbn; try done; congruence. Qed.

(** A segment in which fields and flags have changed only. *)
Lemma matches_fields ts i st m w :
  seg_matches ts i st → flag_on w SEGMENT_INIT = true → flag_on w SEGMENT_FULL = bool_decide (drows st = N) →
  (∀ name s, name ∈ tcols ts → fields st !! hash_key name = Some s → built s = None → (packed s = true → drows st = N) →
     ∃ s', m !! hash_key name = Some s' ∧ live s' = live s ∧ built s' = None ∧ (packed s' = true → drows st = N)) →
  seg_matches ts i (SegState m (there st) (drows st) (ddels st) (dfails st) (docs st) (dsize st) w).
Proof.
  intros [] Hi Hf Hm. split; cbn; try done. intros name Hin. destruct (ma_fields0 name Hin) as (s & Hs & Hl & Hb & Hp).
  destruct (Hm name s Hin Hs Hb Hp) as (s' & ? & ? & ? & ?). exists s'. by rewrite <- Hl.
Qed.

(** A step of all fields that keeps what they hold. *)
Lemma matches_all ts i st op :
  seg_matches ts i st →
  (∀ s, built s = None → let s' := snd (hash_spec get_hash_value s op) in
     live s' = live s ∧ built s' = None ∧ packed s' = packed s) →
  seg_matches ts i (with_fields_spec st (all_fields get_hash_value st op)).
Proof.
  intros Hm Hop. apply matches_fields; [done|apply Hm|apply Hm|]. intros name s Hin Hs Hb Hp.
  destruct (Hop s Hb) as (? & ? & E). eexists. split; [unfold all_fields; by rewrite lookup_fmap, Hs|]. by rewrite E.
Qed.

Lemma checkpoint_matches ts i st :
  seg_matches ts i st → seg_matches ts i (segment_spec get_hash_value N st SCheckpoint).
Proof.
  intros Hm. cbn [segment_spec]. apply matches_all; [done|]. intros s Hb. unfold hash_spec.
  destruct (packed s) eqn:E; cbn; rewrite ?E; done.
Qed.

Lemma restart_matches ts i st :
  seg_matches ts i st → seg_matches ts i (segment_spec get_hash_value N st SRestart).
Proof.
  intros Hm. cbn [segment_spec]. apply matches_all; [done|]. intros s Hb. unfold hash_spec.
  destruct (packed s) eqn:E; cbn; rewrite ?E; done.
Qed.

Lemma mmap_matches ts i st :
  seg_matches ts i st → drows st = N → seg_matches ts i (segment_spec get_hash_value N st SMmapSwitch).
Proof.
  intros Hm HdN. cbn [segment_spec]. apply matches_fields; [done| | |].
  - by rewrite flag_on_lor, (ma_init _ _ _ Hm).
  - rewrite flag_on_lor, (ma_full _ _ _ Hm). by rewrite bool_decide_eq_true_2.
  - intros name s Hin Hs Hb Hp. eexists. split; [unfold all_fields; by rewrite lookup_fmap, Hs|].
    unfold hash_spec. destruct (packed s) eqn:E; cbn; rewrite ?E; done.
Qed.

(** Compression, switch and mark of a full segment. *)
Lemma compress_matches ts i st :
  seg_matches ts i st → drows st = N →
  seg_matches ts i (foldl (segment_spec get_hash_value N) st [SCompress; SSwitch; SSeal]).
Proof.
  intros Hm HdN. cbn [foldl segment_spec with_fields_spec there drows ddels dfails docs dsize dflag].
  apply (matches_fields ts i st); [done| | |].
  - cbn. by rewrite flag_on_lor, (ma_init _ _ _ Hm).
  - cbn. rewrite flag_on_lor, (ma_full _ _ _ Hm). by rewrite orb_false_r.
  - intros name s Hin Hs Hb Hp. cbn [with_fields_spec fields]. unfold all_fields. cbn [with_fields_spec fields].
    rewrite !lookup_fmap, Hs. cbn [fmap option_fmap option_map]. eexists. split; [done|].
    unfold hash_spec. destruct (packed s) eqn:E; cbn; [by rewrite E|done].
Qed.

(** *** Steps that keep the documents *)

Lemma keep_rep ts k t t' i seg' st' :
  table_rep ts k t → updated t t' i seg' → 0 ≤ i < k → seg_rep nh N (tcols ts) fits st' seg' → seg_matches ts i st' →
  table_rep ts k t'.
Proof.
  intros Ht Hu Hi Hr Hm. pose proof (tr_k _ _ _ Ht) as (? & ? & [->|?]); [lia|].
  by apply (update_rep ts ts k t t' i seg' st'); try done; apply Ht.
Qed.

Lemma closed_flag ts k t i w : table_rep ts k t → k ≤ i < M → has_flag t i w = Some false.
Proof. intros Ht Hi. destruct (tr_closed _ _ _ Ht i Hi) as (_ & Hm & _). unfold has_flag. by rewrite Hm. Qed.

Lemma for_segments_rep ts k call n i t :
  (∀ t j seg st, table_rep ts k t → seg_rep nh N (tcols ts) fits st seg → seg_matches ts j st →
     ∃ seg' st', call seg = Some seg' ∧ seg_rep nh N (tcols ts) fits st' seg' ∧ seg_matches ts j st') →
  table_rep ts k t → 0 ≤ i → i + Z.of_nat n = M →
  ∃ t', for_segments t call n i = Some t' ∧ table_rep ts k t'.
Proof.
  intros Hcall. revert i t. induction n as [|n IH]; intros i t Ht Hi HiM; [by exists t|]. cbn [for_segments].
  destruct (decide (i < k)) as [Hk|Hk].
  - destruct (tr_open _ _ _ Ht i ltac:(lia)) as (seg & st & Hg & Hr & Hma & _).
    rewrite (has_flag_segment t i seg _ Hg), (sr_flag _ _ _ _ _ _ Hr), (ma_init _ _ _ Hma). cbn [mbind option_bind].
    destruct (Hcall t i seg st Ht Hr Hma) as (seg' & st' & Hc & Hr' & Hma').
    destruct (on_segment_spec t i seg () seg' (λ segment, segment ← call segment; Some ((), segment)))
      as (t' & Ho & Hu); [apply Ht|apply Ht|lia|done|by rewrite Hc|]. rewrite Ho. cbn [mbind option_bind].
    apply IH; [|lia|lia]. by apply (keep_rep ts k t t' i seg' st').
  - rewrite (closed_flag ts k t i _ Ht) by lia. cbn [mbind option_bind]. apply IH; [done|lia|lia].
Qed.

Lemma checkpoint_table ts k t :
  table_rep ts k t → ∃ t', table_checkpoint env t = Some t' ∧ table_rep ts k t'.
Proof.
  intros Ht. unfold table_checkpoint. rewrite (tr_del _ _ _ Ht).
  apply (for_segments_rep ts k); [|done|lia|rewrite (tr_max _ _ _ Ht); lia].
  intros t0 j seg st Ht0 Hr Hma. destruct (seg_step ts k t0 st seg SCheckpoint 0 [] Ht0 Hr I) as (seg' & Hs & Hr').
  cbn [segment_step] in Hs. fold env in Hs. destruct (segment_checkpoint env seg) as [s|] eqn:E; [|done].
  cbn [mbind option_bind] in Hs. injection Hs as ->. exists seg'. eexists. split; [done|]. split; [done|].
  by apply checkpoint_matches.
Qed.

Lemma compress_loop ts k n i t :
  table_rep ts k t → 0 ≤ i → i + Z.of_nat n = M →
  ∃ t', compress_segments env t n i 0 = Some (0, t') ∧ table_rep ts k t'.
Proof.
  revert i t. induction n as [|n IH]; intros i t Ht Hi HiM; [by exists t|]. cbn [compress_segments].
  destruct (decide (i < k)) as [Hk|Hk].
  2:{ rewrite !(closed_flag ts k t i _ Ht) by lia. cbn [mbind option_bind]. simpl. apply IH; [done|lia|lia]. }
  destruct (tr_open _ _ _ Ht i ltac:(lia)) as (seg & st & Hg & Hr & Hma & _).
  rewrite !(has_flag_segment t i seg _ Hg), (sr_flag _ _ _ _ _ _ Hr), (ma_full _ _ _ Hma), (ma_init _ _ _ Hma).
  cbn [mbind option_bind]. destruct (flag_on (dflag st) SEGMENT_COMPRESS); [apply IH; [done|lia|lia]|].
  case_bool_decide as HdN; simpl negb; simpl orb; cbv iota; [|apply IH; [done|lia|lia]].
  destruct (seg_step ts k t st seg SCompress 0 [] Ht Hr I) as (seg1 & H1 & Hr1). cbn [segment_step] in H1.
  fold env in H1. destruct (on_segment_spec t i seg 0 seg1 (segment_compress env)) as (t1 & -> & Hu1);
    [apply Ht|apply Ht|lia|done|done|]. cbn [mbind option_bind]. simpl (0 =? 0). simpl negb. cbv iota.
  destruct (seg_step ts k t _ seg1 SSwitch 0 [] Ht Hr1) as (seg2 & H2 & Hr2).
  { intros name s. cbn [segment_spec with_fields_spec fields]. unfold all_fields. rewrite lookup_fmap.
    destruct (fields st !! name) as [s0|]; [|done]. intros [= <-]. unfold hash_spec. destruct (packed s0) eqn:E; eauto. }
  cbn [segment_step] in H2. destruct (seg_step ts k t _ seg2 SSeal 0 [] Ht Hr2 I) as (seg3 & H3 & Hr3).
  cbn [segment_step] in H3. injection H3 as <-.
  destruct (on_segment_spec t1 i seg1 0 (segment_set_flag seg2 SEGMENT_COMPRESS)
    (λ segment, '(ret, segment) ← segment_compress_switch segment; Some (ret, segment_set_flag segment SEGMENT_COMPRESS)))
    as (t2 & -> & Hu2); [by rewrite (up_lens _ _ _ _ Hu1); apply Ht|by rewrite (up_lenm _ _ _ _ Hu1); apply Ht|lia|apply Hu1|by rewrite H2|].
  cbn [mbind option_bind]. apply IH; [|lia|lia].
  assert (updated t t2 i (segment_set_flag seg2 SEGMENT_COMPRESS)) as Hu.
  { destruct Hu1, Hu2. split; try congruence. intros j Hj. destruct (up_other0 j Hj), (up_other1 j Hj). split; congruence. }
  apply (keep_rep ts k t t2 i _ _ Ht Hu ltac:(lia) Hr3). by apply (compress_matches ts i st).
Qed.

Lemma compress_table ts k t :
  table_rep ts k t → ∃ t', table_compress env t = Some (0, t') ∧ table_rep ts k t'.
Proof.
  intros Ht. unfold table_compress. rewrite (tr_del _ _ _ Ht). apply compress_loop; [done|lia|].
  rewrite (tr_max _ _ _ Ht). lia.
Qed.

(** A full segment is marked: setting the mark again changes nothing. *)
Lemma full_again st seg cols :
  seg_rep nh N cols fits st seg → flag_on (dflag st) SEGMENT_FULL = true →
  segment_mmap_switch env (true, true) (true, true) (λ _, (true, true)) (λ _, (true, true)) seg =
  segment_mmap_switch env (true, true) (true, true) (λ _, (true, true)) (λ _, (true, true))
    (segment_set_flag seg SEGMENT_FULL).
Proof.
  intros Hr Hf. assert (segment_set_flag seg SEGMENT_FULL = seg) as ->; [|done].
  destruct seg as [l n m b s f d]. unfold segment_set_flag, with_meta. cbn. f_equal.
  pose proof (sr_flag _ _ _ _ _ _ Hr) as E. cbn in E. destruct m as [a1 a2 a3 w a4 a5]. unfold set_seg_flag. cbn in *.
  subst w. f_equal. apply Z.bits_inj'. intros j Hj. rewrite Z.lor_spec.
  destruct (decide (j = 2)) as [->|Hne].
  - unfold flag_on in Hf. assert (Z.testbit (dflag st) 2 = true) as ->; [|done].
    destruct (Z.testbit (dflag st) 2) eqn:Eb; [done|]. destruct (Z.eqb_spec (Z.land (dflag st) SEGMENT_FULL) 0) as [|Hz]; [done|].
    destruct Hz. apply Z.bits_inj'. intros n0 Hn0. rewrite Z.land_spec, Z.bits_0. unfold SEGMENT_FULL.
    change 4 with (2 ^ 2). rewrite Z.pow2_bits_eqb by lia. destruct (Z.eqb_spec 2 n0); [subst; by rewrite Eb|apply andb_false_r].
  - unfold SEGMENT_FULL. change 4 with (2 ^ 2). rewrite Z.pow2_bits_eqb by lia.
    rewrite (proj2 (Z.eqb_neq 2 j)) by lia. apply orb_false_r.
Qed.

Lemma mmap_table ts k t sid :
  table_rep ts k t → 0 ≤ sid → (sid + 1) * N ≤ zlen (trows ts) →
  ∃ t', table_mmap_switch env (true, true) (true, true) (λ _, (true, true)) (λ _, (true, true)) t sid = Some (0, t') ∧
    table_rep ts k t'.
Proof.
  intros Ht Hs Hfull. pose proof (tr_k _ _ _ Ht) as (Hk & Hk1 & _). assert (sid < k) as Hsk by nia.
  unfold table_mmap_switch. rewrite (tr_del _ _ _ Ht).
  destruct (tr_open _ _ _ Ht sid ltac:(lia)) as (seg & st & Hg & Hr & Hma & _).
  assert (drows st = N) as HdN by (rewrite (ma_rows _ _ _ Hma); nia).
  destruct (seg_step ts k t st seg SMmapSwitch 0 [] Ht Hr I) as (seg' & H1 & Hr1). cbn [segment_step] in H1. fold env in H1.
  rewrite <- (full_again st seg _ Hr) in H1 by (rewrite (ma_full _ _ _ Hma); by apply bool_decide_eq_true_2).
  edestruct (on_segment_spec t sid seg 0 seg') as (t' & -> & Hu); [apply Ht|apply Ht|lia|done|exact H1|].
  exists t'. split; [done|]. apply (keep_rep ts k t t' sid _ _ Ht Hu ltac:(lia) Hr1). by apply mmap_matches.
Qed.

(** *** Deleting and updating *)

Lemma delete_table io ts k t n :
  table_rep ts k t → 0 ≤ n < zlen (trows ts) →
  ∃ t', table_del_docid io t (n / N) (n `mod` N) = Some (0, t') ∧
    table_rep (table_spec get_hash_value N types ts (TDelete n)) k t'.
Proof.
  intros Ht Hn. pose proof (place_open ts k t n Ht Hn) as Hi. unfold table_del_docid. rewrite (tr_del _ _ _ Ht).
  destruct (tr_open _ _ _ Ht (n / N) Hi) as (seg & st & Hg & Hr & Hma & _).
  rewrite (has_flag_segment t _ seg _ Hg), (sr_flag _ _ _ _ _ _ Hr), (ma_init _ _ _ Hma). cbn [mbind option_bind].
  simpl negb. cbv iota. pose proof (place_row ts k t n st Ht Hn Hma) as Hd.
  destruct (seg_step ts k t st seg (SDelete (n `mod` N)) (now io) [] Ht Hr Hd) as (seg' & H1 & Hr1).
  cbn [segment_step] in H1. pose proof (tr_k _ _ _ Ht) as (Hk & Hk1 & Hk2).
  destruct (on_segment_spec t (n / N) seg 0 seg' (λ segment, segment_del_docid (now io) segment (n `mod` N)))
    as (t' & -> & Hu); [apply Ht|apply Ht|lia|done|done|].
  exists t'. split; [done|].
  apply (update_rep ts (table_spec get_hash_value N types ts (TDelete n)) k t t' (n / N) seg' _ Ht Hu Hi Hr1);
    cbn [table_spec tcols trows tkeys]; try done.
  - destruct Hma. split; cbn [segment_spec drows docs there dfails dsize dflag fields tgone tbytes table_spec tcols trows tkeys]; try done.
    intros d Hd'. rewrite ma_there0 by done. destruct (place_of n) as (E & _); [lia|].
    destruct (decide (d = n `mod` N)) as [->|Hne].
    + rewrite !bool_decide_eq_true_2 by done. done.
    + rewrite !bool_decide_eq_false_2; [done| |done]. intros Heq. apply place_unique in Heq; [tauto|]. lia.
  - destruct Hk2; lia.
  - intros j st' Hj Hne [] . split; try done. cbn [tgone table_spec]. intros d Hd'. rewrite ma_there0 by done.
    rewrite bool_decide_eq_false_2; [done|]. intros Heq. apply place_unique in Heq; [tauto|]. lia.
  - apply Ht.
  - cbn [tgone]. intros m [->%bool_decide_eq_true|Hm]%orb_prop; [done|]. by apply (tr_gone _ _ _ Ht).
Qed.

Lemma find_column_spec cols t name :
  columns_rep cols t → find_column t name = Some (if decide (name ∈ cols) then Some (column_meta name) else None).
Proof.
  intros (kvs & Hh & _ & Hdom & Href). unfold find_column. rewrite (get_spec _ kvs name Hh). cbn [mbind option_bind].
  specialize (Hdom name). destruct (entry_map kvs !! name) as [r|] eqn:E.
  - rewrite (Href name r E). cbn [mbind option_bind]. by rewrite decide_True by (apply Hdom; eauto).
  - rewrite decide_False; [done|]. intros Hin%Hdom. by destruct Hin.
Qed.

Lemma supports_spec cols t name alg :
  columns_rep cols t → supports t name alg = Some (bool_decide (name ∈ cols ∧ alg = HI_KEY_ALG_HASH)).
Proof.
  intros H. unfold supports, check_index. rewrite (find_column_spec cols t name H). cbn [mbind option_bind].
  case_decide as Hin; cbn [mbind option_bind column_meta indexs List.find ix_type ix_flag].
  - change (1 =? 1) with true. rewrite andb_true_r. destruct (decide (alg = HI_KEY_ALG_HASH)) as [->|Hne].
    + by rewrite !bool_decide_eq_true_2 by done.
    + rewrite (bool_decide_eq_false_2 (HI_KEY_ALG_HASH = alg)) by congruence. cbn [fmap option_fmap option_map].
      rewrite (bool_decide_eq_false_2 (is_Some _)) by (by intros [? ?]). by rewrite bool_decide_eq_false_2 by tauto.
  - rewrite (bool_decide_eq_false_2 (is_Some _)) by (by intros [? ?]). by rewrite bool_decide_eq_false_2 by tauto.
Qed.

Lemma update_table io ts k t n new :
  table_rep ts k t → table_op_ok get_hash_value nh N types M (pool io) fits B0 ts (TUpdate n new) →
  ∃ old t', table_update get_hash_value io t (n / N) (n `mod` N) new = Some (0, old, t') ∧
    table_rep (table_spec get_hash_value N types ts (TUpdate n new)) k t'.
Proof.
  intros Ht (Hn & Hnew & Hins). pose proof (place_open ts k t n Ht Hn) as Hi. unfold table_update, open_segment.
  pose proof (tr_k _ _ _ Ht) as (Hk & Hk1 & Hk2). rewrite (tr_del _ _ _ Ht), (tr_max _ _ _ Ht), geb_false by lia.
  destruct (tr_open _ _ _ Ht (n / N) Hi) as (seg & st & Hg & Hr & Hma & _).
  rewrite (has_flag_segment t _ seg _ Hg), (sr_flag _ _ _ _ _ _ Hr), (ma_init _ _ _ Hma). cbn [mbind option_bind].
  simpl negb. cbv iota. rewrite Hg. cbn [mbind option_bind]. pose proof (place_row ts k t n st Ht Hn Hma) as Hd.
  unfold segment_get_rowcount. rewrite (sr_rows _ _ _ _ _ _ Hr), geb_false by lia.
  rewrite (supports_spec (tcols ts)) by apply Ht. cbn [mbind option_bind]. rewrite bool_decide_eq_false_2 by tauto.
  destruct (place_of n) as (En & Hmod & _); [lia|].
  assert (∃ fs, (trows ts)⟦n⟧ = Some fs) as [fs Hfs] by (apply zget_lt; lia). rewrite Hfs in Hins. cbn [default] in Hins.
  assert (docs st (n `mod` N) = Some fs) as Hdoc by (rewrite (ma_docs _ _ _ Hma) by lia; by rewrite En).
  destruct (seg_step ts k t st seg (SUpdate (n `mod` N) new) 0 (pool io) Ht Hr) as (seg' & H1 & Hr1).
  { split; [lia|]. exists fs. split; [done|]. destruct Hins as (? & ? & ? & ? & ?). pose proof (ma_size _ _ _ Hma).
    split_and!; try done. simpl in *. lia. }
  cbn [segment_step] in H1. destruct (segment_data_update (pool io) seg (n `mod` N) new) as [[[rc old] s]|]; [|done].
  cbn [mbind option_bind] in H1. injection H1 as -> ->. cbn [mbind option_bind].
  destruct (set_segment_spec t (n / N) seg') as (t' & -> & Hu);
    [rewrite (tr_segments _ _ _ Ht); lia|rewrite (tr_metas _ _ _ Ht); lia|]. cbn [mbind option_bind]. simpl (0 <? 0). cbv iota.
  rewrite (supports_spec (tcols ts)) by (apply (columns_same _ t); [apply Hu|apply Hu|apply Ht]). cbn [mbind option_bind].
  rewrite bool_decide_eq_false_2 by tauto. simpl negb. cbv iota. eexists _, t'. split; [done|].
  set (ts' := table_spec _ _ _ ts (TUpdate n new)).
  assert (trows ts' = <[Z.to_nat n := set_field fs new]> (trows ts)) as Etr
    by (unfold ts'; cbn [table_spec trows]; by rewrite Hfs).
  assert (zlen (trows ts') = zlen (trows ts)) as El by (by rewrite Etr, zlen_insert).
  assert (tbytes ts' = tbytes ts + zlen (encode_row (set_field fs new))) as Eb
    by (unfold ts'; cbn [table_spec tbytes]; by rewrite Hfs).
  pose proof (zlen_nonneg (encode_row (set_field fs new))).
  assert (∀ m, m ≠ n → 0 ≤ m → (trows ts')⟦m⟧ = (trows ts)⟦m⟧) as Hrow_ne.
  { intros m Hm Hm0. rewrite Etr, !zget_lookup by lia. apply list_lookup_insert_ne. lia. }
  apply (update_rep ts ts' k t t' (n / N) seg' _ Ht Hu Hi Hr1); rewrite ?El; try done.
  - destruct Hma. split; cbn [segment_spec with_docs drows there dfails dsize dflag fields docs]; rewrite ?El; try done.
    + intros d Hd'. destruct (decide (d = n `mod` N)) as [->|Hne].
      * rewrite Hdoc. cbn [default]. rewrite Etr, En, zget_lookup by lia. symmetry. apply list_lookup_insert_eq.
        unfold zlen in Hn. lia.
      * rewrite Hrow_ne; [by apply ma_docs0| |nia]. intros Heq. by apply place_unique in Heq as [_ ?].
    + rewrite Hdoc. rewrite Eb. simpl. lia.
  - destruct Hk2; lia.
  - intros j st' Hj Hne []. split; rewrite ?El; try done; [|lia].
    intros d Hd'. rewrite Hrow_ne; [by apply ma_docs0| |nia]. intros Heq. by apply place_unique in Heq as [? _].
  - apply Ht.
  - apply Ht.
  - lia.
Qed.

(** *** Indexing a row *)

Definition coerce io (f : field) : low_data_struct :=
  if bool_decide (type (fdata f) = types (field_name f)) then fdata f else LowData (null_type io) [] 0.

Lemma hash_key_inj a b : hash_key a = hash_key b → a = b.
Proof. apply app_inv_tail. Qed.

Definition index_field io (cols : list (list Z)) (d : Z) st (f : field) : segment_state :=
  if decide (field_name f ∈ cols) then segment_spec get_hash_value N st (SIndex (field_name f) d (coerce io f)) else st.

Definition index_row io cols d st (l : list field) : segment_state := foldl (index_field io cols d) st l.

(** The field takes the value. *)
Definition takes io (cols : list (list Z)) (d : Z) st (f : field) : Prop :=
  field_name f ∈ cols → ∃ s, fields st !! hash_key (field_name f) = Some s ∧ packed s = false ∧
    field_op_ok get_hash_value nh N s (FInsert d (coerce io f)).

Lemma index_field_ne io cols d st f name :
  field_name f ≠ name → fields (index_field io cols d st f) !! hash_key name = fields st !! hash_key name.
Proof.
  intros Hne. unfold index_field. case_decide; [|done]. cbn [segment_spec with_fields_spec fields].
  apply lookup_alter_ne. intros E%hash_key_inj. done.
Qed.

Lemma index_row_rest io cols d st l : ∃ m, index_row io cols d st l = with_fields_spec st m.
Proof.
  revert st. induction l as [|f l IH]; intros st; [exists (fields st); by destruct st|]. cbn [index_row foldl].
  destruct (IH (index_field io cols d st f)) as [m Hm]. exists m. unfold index_row in Hm. rewrite Hm.
  unfold index_field. by case_decide.
Qed.

Lemma index_row_none io cols d st l name :
  name ∉ field_name <$> l → fields (index_row io cols d st l) !! hash_key name = fields st !! hash_key name.
Proof.
  revert st. induction l as [|f l IH]; intros st Hnot; [done|]. rewrite fmap_cons in Hnot.
  apply not_elem_of_cons in Hnot as [Hne Hnot]. cbn [index_row foldl].
  change (foldl _ _ l) with (index_row io cols d (index_field io cols d st f) l). rewrite IH by done.
  by apply index_field_ne.
Qed.

Lemma coerce_key io f : key_of get_hash_value (coerce io f) =
  if bool_decide (type (fdata f) = types (field_name f)) then key_of get_hash_value (fdata f) else None.
Proof. unfold coerce. by case_bool_decide. Qed.

(** The histories of the columns after a row. *)
Lemma index_row_fields io cols d st l name s :
  NoDup (field_name <$> l) → name ∈ cols → fields st !! hash_key name = Some s → packed s = false → built s = None →
  ∃ s', fields (index_row io cols d st l) !! hash_key name = Some s' ∧
    live s' = push_key get_hash_value types name l d (live s) ∧ packed s' = false ∧ built s' = None.
Proof.
  revert st s. induction l as [|f l IH]; intros st s Hnd Hin Hs Hp Hb; [by exists s|].
  rewrite fmap_cons in Hnd. apply NoDup_cons in Hnd as [Hf Hnd]. cbn [index_row foldl].
  change (foldl _ _ l) with (index_row io cols d (index_field io cols d st f) l).
  unfold push_key, row_key. rewrite lookup_field_cons. case_bool_decide as En.
  - subst name. rewrite index_row_none by done. unfold index_field. rewrite decide_True by done.
    cbn [segment_spec with_fields_spec fields]. rewrite lookup_alter_eq, Hs. cbn [fmap option_fmap option_map].
    eexists. split; [done|]. unfold hash_spec. rewrite Hp. cbn [snd live built packed]. by rewrite coerce_key.
  - destruct (IH (index_field io cols d st f) s Hnd Hin) as (s' & H1 & H2 & H3); [|done|done|by exists s'].
    by rewrite index_field_ne.
Qed.

Lemma insert_fields_goes ts k t io seg st l d :
  table_rep ts k t → seg_rep nh N (tcols ts) fits st seg → NoDup (field_name <$> l) →
  (∀ f, f ∈ l → takes io (tcols ts) d st f) →
  ∃ seg', insert_fields env get_hash_value io t seg l d 0 = Some (0, true, seg') ∧
    seg_rep nh N (tcols ts) fits (index_row io (tcols ts) d st l) seg'.
Proof.
  intros Ht. revert st seg. induction l as [|f l IH]; intros st seg Hr Hnd Hok; [by exists seg|].
  rewrite fmap_cons in Hnd. apply NoDup_cons in Hnd as [Hf Hnd]. cbn [insert_fields index_row foldl].
  change (foldl _ _ l) with (index_row io (tcols ts) d (index_field io (tcols ts) d st f) l).
  rewrite (find_column_spec (tcols ts)) by apply Ht. cbn [mbind option_bind].
  assert (∀ st', (∀ name, name ≠ field_name f → fields st' !! hash_key name = fields st !! hash_key name) →
    ∀ g, g ∈ l → takes io (tcols ts) d st' g) as Hnext.
  { intros st' Hst g Hg Hin. destruct (Hok g ltac:(by right) Hin) as (s & Hs & ?). exists s. split; [|done].
    rewrite Hst; [done|]. intros E. apply Hf. rewrite <- E. by apply list_elem_of_fmap_2. }
  unfold index_field. case_decide as Hin.
  - cbn [column_meta indexs insert_types ix_data ix_type]. destruct (Hok f ltac:(left) Hin) as (s & Hs & Hp & Hop).
    destruct (seg_step ts k t st seg (SIndex (field_name f) d (coerce io f)) 0 [] Ht Hr) as (seg1 & H1 & Hr1);
      [split; [done|]; by exists s|]. cbn [segment_step] in H1. fold env in H1.
    assert ((if bool_decide (type (fdata f) = types (field_name f)) then f
             else Field (field_name f) (LowData (null_type io) [] 0)) = Field (field_name f) (coerce io f)) as ->
      by (unfold coerce; case_bool_decide; by destruct f).
    rewrite H1. cbn [mbind option_bind]. simpl (0 <? 0). cbv iota. apply IH; [done|done|]. apply Hnext.
    intros name Hne. cbn [segment_spec with_fields_spec fields]. apply lookup_alter_ne. intros E%hash_key_inj. by destruct Hne.
  - apply IH; [done|done|]. by apply Hnext.
Qed.

(** The segment after the document [d] with the row [fs]. *)
Definition put_document io cols d st (fs : list field) : segment_state :=
  segment_spec get_hash_value N (index_row io cols d (with_docs st d fs) fs) (SInserted d).

Lemma insert_document_goes ts k t io seg st fs d :
  table_rep ts k t → seg_rep nh N (tcols ts) fits st seg → 0 ≤ d < N → d = drows st →
  row_fits (pool io) fits st fs → NoDup (field_name <$> fs) → (∀ f, f ∈ fs → takes io (tcols ts) d st f) →
  ∃ seg', insert_document env get_hash_value io t seg d (Row fs (zlen fs)) = Some (0, true, seg') ∧
    seg_rep nh N (tcols ts) fits (put_document io (tcols ts) d st fs) seg'.
Proof.
  intros Ht Hr Hd Hrows Hfit Hnd Hok. unfold insert_document. rewrite (tr_raw _ _ _ Ht). cbn [datas field_count].
  destruct (seg_step ts k t st seg (SData d fs) (now io) (pool io) Ht Hr) as (seg1 & H1 & Hr1); [done|].
  cbn [segment_step] in H1. rewrite H1. cbn [mbind option_bind]. simpl (0 <? 0). cbv iota.
  pose proof (zsub_mid [] fs [] 0 (zlen fs) eq_refl eq_refl) as Hsub. rewrite app_nil_r in Hsub.
  rewrite (Hsub : zsub fs 0 (zlen fs) = Some fs). cbn [mbind option_bind].
  destruct (insert_fields_goes ts k t io seg1 (with_docs st d fs) fs d Ht Hr1 Hnd) as (seg2 & -> & Hr2); [done|].
  cbn [mbind option_bind]. simpl negb. cbv iota.
  destruct (index_row_rest io (tcols ts) d (with_docs st d fs) fs) as [m Hm].
  destruct (seg_step ts k t _ seg2 (SInserted d) 0 [] Ht Hr2) as (seg3 & H3 & Hr3); [rewrite Hm; split; [done|lia]|].
  cbn [segment_step] in H3. destruct (segment_set_docid_inserted seg2 d) as [[rc s]|]; [|done].
  cbn [mbind option_bind] in H3 |- *. injection H3 as -> ->. by exists seg3.
Qed.

Lemma set_meta_updated t t1 i seg m :
  updated t t1 i seg → 0 ≤ i < zlen (segment_meta t1) →
  ∃ t2, set_segment_meta t1 i m = Some t2 ∧ updated t t2 i (with_meta seg m).
Proof.
  intros [] Hi. unfold set_segment_meta.
  destruct (zset_Some (segment_meta t1) i m Hi) as (l & -> & Hl & Hli & Hlj). cbn [mbind option_bind].
  eexists. split; [done|]. split; cbn; try congruence.
  - unfold get_segment in *. cbn. destruct ((segments t1)⟦i⟧) as [[|s]|]; try done. cbn [mbind option_bind] in *.
    destruct ((segment_meta t1)⟦i⟧) as [m0|]; [|done]. cbn [mbind option_bind] in *. injection up_seg0 as <-.
    by rewrite Hli.
  - intros j Hj. rewrite Hlj by done. by apply up_other0.
Qed.

Lemma zget_snoc {A} (l : list A) x i : (l ++ [x])⟦i⟧ = if decide (i = zlen l) then Some x else l⟦i⟧.
Proof.
  case_decide as E; [by apply zget_mid|]. destruct (decide (0 ≤ i)) as [Hi|Hi].
  - rewrite !zget_lookup by lia. unfold zlen in E. destruct (decide (Z.to_nat i < length l)%nat).
    + by apply lookup_app_l.
    + rewrite lookup_app_r by lia. rewrite (lookup_ge_None_2 l) by lia. apply lookup_ge_None_2. simpl. lia.
  - unfold zget. by rewrite !decide_False by lia.
Qed.

Lemma push_key_docs name fs d kh x :
  x ∈ (push_key get_hash_value types name fs d kh).*1 → x = d ∨ x ∈ kh.*1.
Proof.
  unfold push_key. destruct (row_key get_hash_value types name fs); [|by right].
  rewrite fmap_cons. by intros [->|?]%elem_of_cons; [left|right].
Qed.

Section insert.
Context (ts : table_state) (k : Z) (t : table_manager S) (io : table_io S) (fs : list field) (Ht : table_rep ts k t).
Let n := zlen (trows ts).
Context (Hcur : n / N = k - 1) (Hok : row_insertable (pool io) fits B0 ts fs)
  (Hhash : usable_hashes get_hash_value nh types ts fs).
Let i := n / N.
Let d := n `mod` N.
Let ts' := table_spec get_hash_value N types ts (TInsert fs).

Lemma insert_takes st f : seg_matches ts i st → f ∈ fs → takes io (tcols ts) d st f.
Proof.
  intros Hma Hf Hin. destruct (ma_fields _ _ _ Hma _ Hin) as (s & Hs & Hl & Hb & Hp).
  destruct (place_of n (zlen_nonneg _)) as (En & Hd & Hi0). fold i d in En, Hd, Hi0.
  assert (drows st = d) as Hdr by (rewrite (ma_rows _ _ _ Hma); fold n; lia).
  exists s. split; [done|]. split; [destruct (packed s); [|done]; specialize (Hp eq_refl); lia|].
  intros _. destruct Hhash as [_ Hh]. specialize (Hh f Hf Hin). unfold coerce. case_bool_decide as Ety.
  - destruct (decide (len (fdata f) = 0)) as [E0|E0].
    + split; [split; [done|split; [|done]]|unfold key_of; by rewrite E0].
      rewrite Hl. intros x Hx. apply (tr_keys _ _ _ Ht) in Hx. fold n in Hx. lia.
    + destruct (Hh Ety E0) as [H0 H1]. split; [split; [done|split; [|done]]|].
      * rewrite Hl. intros x Hx. apply (tr_keys _ _ _ Ht) in Hx. fold n in Hx. lia.
      * unfold key_of. rewrite (proj2 (Z.eqb_neq _ 0) E0). congruence.
  - split; [split; [done|split; [|done]]|done].
    rewrite Hl. intros x Hx. apply (tr_keys _ _ _ Ht) in Hx. fold n in Hx. lia.
Qed.

(** Every other segment is full. *)
Lemma insert_other j st : 0 ≤ j < k → j ≠ i → seg_matches ts j st → seg_matches ts' j st.
Proof.
  intros Hj Hne []. destruct (place_of n (zlen_nonneg _)) as (En & Hd & Hi0). fold i d in En, Hd, Hi0.
  assert ((j + 1) * N ≤ n) as Hjn by (unfold i in *; nia).
  pose proof (zlen_nonneg (encode_row fs)).
  split; cbn [ts' table_spec trows tgone tkeys tbytes tcols]; try done.
  - rewrite zlen_app. change (zlen [fs]) with 1. fold n. fold n in ma_rows0. lia.
  - intros e He. rewrite zget_snoc, decide_False by (fold n; lia). by apply ma_docs0.
  - lia.
  - intros name Hin. rewrite decide_False by (fold n; fold i; lia). by apply ma_fields0.
Qed.

Lemma insert_matches st w :
  seg_matches ts i st → flag_on w SEGMENT_INIT = true → flag_on w SEGMENT_FULL = bool_decide (d + 1 = N) →
  seg_matches ts' i (with_flag (put_document io (tcols ts) d st fs) w).
Proof.
  intros Hma Hwi Hwf. destruct (place_of n (zlen_nonneg _)) as (En & Hd & Hi0). fold i d in En, Hd, Hi0.
  assert (drows st = d) as Hdr by (rewrite (ma_rows _ _ _ Hma); fold n; lia).
  destruct (index_row_rest io (tcols ts) d (with_docs st d fs) fs) as [m Hm].
  pose proof (zlen_nonneg (encode_row fs)). unfold put_document, with_flag.
  split; cbn [segment_spec fields there drows dfails docs dsize dflag ts' table_spec trows tgone tkeys tbytes tcols].
  - rewrite zlen_app. change (zlen [fs]) with 1. fold n. lia.
  - rewrite Hm. cbn [with_fields_spec with_docs docs]. intros e He. rewrite zget_snoc. fold n.
    destruct (decide (e = d)) as [->|Hne].
    + by rewrite decide_True by lia.
    + rewrite decide_False by lia. by apply (ma_docs _ _ _ Hma).
  - rewrite Hm. cbn [with_fields_spec with_docs there]. intros e He. destruct (decide (e = d)) as [->|Hne].
    + rewrite bool_decide_eq_true_2 by done. destruct (tgone ts (i * N + d)) eqn:E; [|done].
      apply (tr_gone _ _ _ Ht) in E. fold n in E. lia.
    + rewrite bool_decide_eq_false_2 by done. apply (ma_there _ _ _ Hma). lia.
  - rewrite Hm. apply (ma_fails _ _ _ Hma).
  - rewrite Hm. cbn [with_fields_spec with_docs dsize]. pose proof (ma_size _ _ _ Hma). lia.
  - done.
  - done.
  - intros name Hin. destruct (ma_fields _ _ _ Hma _ Hin) as (s & Hs & Hl & Hb & Hp).
    destruct (index_row_fields io (tcols ts) d (with_docs st d fs) fs name s) as (s' & Hs' & Hl' & Hp' & Hb');
      [apply Hhash|done|done|destruct (packed s); [specialize (Hp eq_refl); lia|done]|done|].
    exists s'. split; [done|]. rewrite decide_True by (fold n; done). fold n d. rewrite Hl', Hl. split; [done|].
    split; [done|]. by rewrite Hp'.
Qed.
End insert.

(** *** Inserting into the current segment *)

Lemma insert_table ts k t io fs :
  table_rep ts k t → calm_io io → zlen (trows ts) / N = k - 1 → row_insertable (pool io) fits B0 ts fs →
  usable_hashes get_hash_value nh types ts fs →
  ∃ t', table_insert env get_hash_value io t (zlen (trows ts) / N) (zlen (trows ts) `mod` N) (Row fs (zlen fs)) = Some (0, t') ∧
    table_rep (table_spec get_hash_value N types ts (TInsert fs)) k t'.
Proof.
  intros Ht Hio Hcur Hok Hhash. destruct (place_of _ (zlen_nonneg (trows ts))) as (En & Hd & Hi0).
  set (n := zlen (trows ts)) in *. set (i := n / N) in *. set (d := n `mod` N) in *.
  pose proof (tr_k _ _ _ Ht) as (Hk & Hk1 & Hk2). fold n in Hk1, Hk2.
  destruct (tr_open _ _ _ Ht i ltac:(lia)) as (seg & st & Hg & Hr & Hma & _).
  assert (drows st = d) as Hdr by (rewrite (ma_rows _ _ _ Hma); fold n; lia).
  unfold table_insert. rewrite (tr_del _ _ _ Ht), (has_flag_segment t i seg _ Hg), (sr_flag _ _ _ _ _ _ Hr), (ma_init _ _ _ Hma).
  cbn [mbind option_bind]. simpl negb. cbv iota.
  destruct (insert_document_goes ts k t io seg st fs d Ht Hr) as (seg' & Hins & Hr'); [done|done| |apply Hhash| |].
  { destruct Hok as (? & ? & ? & ? & ?). pose proof (ma_size _ _ _ Hma). split_and!; try done. lia. }
  { intros f Hf. by apply (insert_takes ts k t io fs Ht Hhash). }
  destruct (on_segment_spec t i seg (0, true) seg' (λ segment, '(ret, ok, segment) ← insert_document env get_hash_value io t
    segment d (Row fs (zlen fs)); Some ((ret, ok), segment))) as (t1 & -> & Hu);
    [apply Ht|apply Ht|lia|done|by rewrite Hins|]. cbn [mbind option_bind]. simpl negb. cbv iota.
  rewrite (get_segment_meta t1 i seg') by apply Hu. cbn [mbind option_bind].
  assert (row_count (meta seg') = d + 1) as Hrc by (by rewrite (sr_rows _ _ _ _ _ _ Hr')).
  rewrite Hrc, (up_limit _ _ _ _ Hu), (tr_limit _ _ _ Ht).
  assert (seg_flag (meta seg') = dflag st) as Hflag.
  { rewrite (sr_flag _ _ _ _ _ _ Hr'). unfold put_document.
    destruct (index_row_rest io (tcols ts) d (with_docs st d fs) fs) as [m Hm]. by rewrite Hm. }
  assert (flag_on (dflag st) SEGMENT_FULL = false) as Hnf
    by (rewrite (ma_full _ _ _ Hma); apply bool_decide_eq_false_2; lia).
  assert (∀ w seg2 t2, updated t t2 i seg2 → seg_rep nh N (tcols ts) fits
      (with_flag (put_document io (tcols ts) d st fs) w) seg2 → flag_on w SEGMENT_INIT = true →
      flag_on w SEGMENT_FULL = bool_decide (d + 1 = N) →
      table_rep (table_spec get_hash_value N types ts (TInsert fs)) k t2) as Hfin.
  { intros w seg2 t2 Hu2 Hr2 Hwi Hwf. assert (zlen (trows ts ++ [fs]) = n + 1) as El by (rewrite zlen_app; done).
    pose proof (zlen_nonneg (encode_row fs)).
    apply (update_rep ts (table_spec get_hash_value N types ts (TInsert fs)) k t t2 i seg2 _ Ht Hu2 ltac:(lia) Hr2);
      cbn [table_spec tcols trows tgone tkeys tbytes]; rewrite ?El.
    - by apply (insert_matches ts k t io fs Ht Hhash).
    - done.
    - lia.
    - lia.
    - intros j st' Hj Hne Hma'. by apply (insert_other ts k fs Hcur).
    - intros name j x. fold n i d. destruct (decide (j = i)) as [Ej|Ej].
      + intros [->|Hx]%push_key_docs; [subst j; lia|]. apply (tr_keys _ _ _ Ht) in Hx. fold n in Hx. lia.
      + intros Hx%(tr_keys _ _ _ Ht). fold n in Hx. lia.
    - intros m Hm%(tr_gone _ _ _ Ht). fold n in Hm. lia.
    - lia. }
  destruct (Z.eqb_spec (d + 1) N) as [Efull|Efull].
  - destruct (set_meta_updated t t1 i seg' (set_seg_flag (meta seg') (Z.lor (seg_flag (meta seg')) SEGMENT_FULL)) Hu)
      as (t2 & -> & Hu2); [rewrite (up_lenm _ _ _ _ Hu), (tr_metas _ _ _ Ht); lia|]. cbn [mbind option_bind].
    rewrite (ci_thread _ Hio). simpl negb. cbv iota. eexists. split; [done|].
    apply (Hfin (Z.lor (dflag st) SEGMENT_FULL) (with_meta seg' (set_seg_flag (meta seg') (Z.lor (seg_flag (meta seg')) SEGMENT_FULL)))).
    + destruct Hu2. split; done.
    + rewrite <- Hflag. by apply (meta_rep _ _ _ (set_seg_flag (meta seg') (Z.lor (seg_flag (meta seg')) SEGMENT_FULL)) Hr').
    + by rewrite flag_on_lor, (ma_init _ _ _ Hma).
    + rewrite flag_on_lor, bool_decide_eq_true_2 by done. by rewrite orb_true_r.
  - eexists. split; [done|]. apply (Hfin (dflag st) seg'); [done| |apply Hma|].
    + unfold put_document in *. destruct (index_row_rest io (tcols ts) d (with_docs st d fs) fs) as [m Hm].
      rewrite Hm in *. done.
    + rewrite Hnf. by rewrite bool_decide_eq_false_2.
Qed.

(** *** The map of the columns *)

Lemma entries_fit {V} (h : string_map V) kvs : holds_entries h kvs → zlen kvs ≤ sm_size h.
Proof.
  intros (_ & _ & Hl & _ & rest & Hc). rewrite Hc, zlen_app, zlen_fmap in Hl. pose proof (zlen_nonneg rest). lia.
Qed.

(** Replacing what a name maps to. *)
Lemma replace_entry (h : string_map index_ref) kvs name r :
  holds_entries h kvs → is_Some (entry_map kvs !! name) →
  ∃ o h1 h' kvs', string_map_remove h name = Some (o, h1) ∧ string_map_put h1 name r = Some (0, h') ∧
    holds_entries h' kvs' ∧ sm_size h' = sm_size h ∧ entry_map kvs' = <[name := r]> (entry_map kvs).
Proof.
  intros Hh Hin. destruct (remove_spec h kvs name Hh) as (h1 & kvs1 & H1 & Hh1 & Hs1 & He1 & _).
  destruct (map_put_spec h1 kvs1 name r Hh1) as (h' & kvs' & H2 & Hh' & Hs' & He').
  { rewrite <- (entries_size kvs1) by apply Hh1. rewrite He1, map_size_delete_Some by done.
    pose proof (entries_fit h kvs Hh). rewrite <- (entries_size kvs) in H by apply Hh.
    assert (size (entry_map kvs) ≠ 0%nat) as Hne.
    { intros E%map_size_empty_iff. rewrite E, lookup_empty in Hin. by destruct Hin. }
    lia. }
  eexists _, h1, h', kvs'. split; [done|]. split; [done|]. split; [done|]. split; [congruence|].
  rewrite He', He1. apply insert_delete_eq.
Qed.

Lemma reload_spec l h kvs i :
  holds_entries h kvs → (∀ m, m ∈ l → is_Some (entry_map kvs !! meta_name m)) →
  ∃ h' kvs', reload_columns h i l = Some h' ∧ holds_entries h' kvs' ∧ sm_size h' = sm_size h ∧
    (∀ name, is_Some (entry_map kvs' !! name) ↔ is_Some (entry_map kvs !! name)) ∧
    ∀ name r, entry_map kvs' !! name = Some r →
      (∃ j m, l⟦j⟧ = Some m ∧ meta_name m = name ∧ r = Slot (i + j)) ∨
      (name ∉ meta_name <$> l ∧ entry_map kvs !! name = Some r).
Proof.
  revert h kvs i. induction l as [|m l IH]; intros h kvs i Hh Hin.
  { exists h, kvs. split_and!; try done. intros name r Hr. right. split; [apply not_elem_of_nil|done]. }
  cbn [reload_columns].
  destruct (replace_entry h kvs (meta_name m) (Slot i) Hh) as (o & h1 & h2 & kvs2 & -> & H2 & Hh2 & Hs2 & He2); [apply Hin; left|].
  cbn [mbind option_bind]. rewrite H2. cbn [mbind option_bind].
  assert (∀ name, is_Some (entry_map kvs2 !! name) ↔ is_Some (entry_map kvs !! name)) as Hdom.
  { intros name. rewrite He2. destruct (decide (name = meta_name m)) as [->|Hne].
    - rewrite lookup_insert_eq. split; [intros _; apply Hin; left|by eexists].
    - by rewrite lookup_insert_ne. }
  destruct (IH h2 kvs2 (i + 1) Hh2) as (h' & kvs' & -> & Hh' & Hs' & Hdom' & Href').
  { intros m' Hm'. apply Hdom, Hin. by right. }
  exists h', kvs'. split; [done|]. split; [done|]. split; [congruence|]. split; [intros name; by rewrite Hdom'|].
  intros name r [(j & m' & Hj & Hn & ->)|[Hnot Hr]]%Href'.
  - left. exists (j + 1), m'. pose proof (zget_Some_range _ _ _ Hj). split; [|split; [done|f_equal; lia]].
    rewrite zget_lookup in Hj |- * by lia. replace (Z.to_nat (j + 1)) with (Datatypes.S (Z.to_nat j)) by lia. done.
  - rewrite He2 in Hr. destruct (decide (name = meta_name m)) as [->|Hne].
    + rewrite lookup_insert_eq in Hr. injection Hr as <-. left. exists 0, m. split; [done|]. split; [done|]. f_equal. lia.
    + rewrite lookup_insert_ne in Hr by done. right. split; [|done]. rewrite fmap_cons. by apply not_elem_of_cons.
Qed.

Lemma hash_fields_lookup cols j m : (hash_fields types cols)⟦j⟧ = Some m → m = column_meta (meta_name m).
Proof.
  intros Hj. pose proof (zget_Some_range _ _ _ Hj). rewrite zget_lookup in Hj by lia.
  unfold hash_fields in Hj. rewrite list_lookup_fmap in Hj. by destruct (cols !! Z.to_nat j); [injection Hj as <-|].
Qed.

Lemma slot_deref cols t j m :
  index_meta (table_meta t) = hash_fields types cols → zlen cols ≤ MAX_INDEX_FIELD_NUM →
  (hash_fields types cols)⟦j⟧ = Some m → deref t (Slot j) = Some (column_meta (meta_name m)).
Proof.
  intros Hmeta Hc Hj. pose proof (zget_Some_range _ _ _ Hj) as Hr. unfold hash_fields in Hr. rewrite zlen_fmap in Hr.
  cbn [deref]. rewrite (proj2 (Z.leb_le 0 j)), (proj2 (Z.ltb_lt j MAX_INDEX_FIELD_NUM)) by lia. simpl andb. cbv iota.
  rewrite Hmeta, Hj. simpl. f_equal. by apply (hash_fields_lookup cols j).
Qed.

Lemma reload_table ts k t sid :
  table_rep ts k t →
  ∃ h, reload (set_current t sid) = Some (with_hash (set_current t sid) h) ∧
    columns_rep (tcols ts) (with_hash (set_current t sid) h).
Proof.
  intros Ht. destruct (tr_cols _ _ _ Ht) as (kvs & Hh & Hsz & Hdom & Href). unfold reload.
  cbn [index_meta_hash set_current with_table_meta table_meta index_meta]. rewrite (tr_meta _ _ _ Ht).
  destruct (reload_spec (hash_fields types (tcols ts)) (index_meta_hash t) kvs 0 Hh) as (h & kvs' & -> & Hh' & Hs' & Hdom' & Href').
  { intros m Hm. apply Hdom. unfold hash_fields in Hm. by apply list_elem_of_fmap in Hm as (name & -> & Hin). }
  exists h. split; [done|]. exists kvs'. cbn [index_meta_hash with_hash]. split; [done|]. split; [congruence|].
  split; [intros name; by rewrite Hdom'|]. destruct (tr_names _ _ _ Ht) as (_ & _ & Hc).
  intros name r [(j & m & Hj & <- & ->)|[Hnot Hr]]%Href'.
  - rewrite Z.add_0_l. apply (slot_deref (tcols ts)); [by apply (tr_meta _ _ _ Ht)|done|done].
  - destruct Hnot. unfold hash_fields. rewrite <- list_fmap_compose. apply list_elem_of_fmap. exists name. split; [done|].
    apply Hdom. by eexists.
Qed.

(** *** A new segment *)

Lemma make_dir_calm io dirs work name sid ex :
  calm_io io → 0 < zlen dirs → 0 ≤ sid → make_segment_dir io dirs work name sid ex = Some 0.
Proof.
  intros [] Hd Hs. unfold make_segment_dir. destruct ex; [done|]. rewrite (proj2 (Z.eqb_neq _ 0)) by lia.
  destruct (zget_lt dirs (sid `mod` zlen dirs)) as [b ->]; [by apply Z.mod_pos_bound|]. cbn [mbind option_bind].
  rewrite ci_dir0, ci_path0, ci_link0. simpl negb. cbv iota. rewrite andb_false_r. by case_bool_decide.
Qed.

(** [t'] is [t] but for what belongs to segment [i]: it has been opened as [seg']
    in the directory [d]. *)
Record opened t t' (i : Z) seg' : Prop := {
  op_dirs : storage_dirs t' = storage_dirs t;
  op_meta : table_meta t' = table_meta t;
  op_max : max_segment_num t' = max_segment_num t;
  op_hash : index_meta_hash t' = index_meta_hash t;
  op_limit : table_limit t' = table_limit t;
  op_num : table_compress_num t' = table_compress_num t;
  op_raw : store_raw t' = store_raw t;
  op_lend : zlen (seg_dirs t') = zlen (seg_dirs t);
  op_lens : zlen (segments t') = zlen (segments t);
  op_lenm : zlen (segment_meta t') = zlen (segment_meta t);
  op_seg : get_segment t' i = Some seg';
  op_dir : is_Some (mjoin ((seg_dirs t')⟦i⟧));
  op_other : ∀ j, j ≠ i → (segments t')⟦j⟧ = (segments t)⟦j⟧ ∧ (segment_meta t')⟦j⟧ = (segment_meta t)⟦j⟧ ∧
    (seg_dirs t')⟦j⟧ = (seg_dirs t)⟦j⟧
}.

(** The meta data of a new segment once it is opened. *)
Definition started io (m : segment_meta_data) : segment_meta_data :=
  if create_time m =? 0 then set_seg_flag (set_create m (now io)) (Z.lor (seg_flag m) SEGMENT_INIT) else m.

(** Opening a segment in the directory [od], or in a new one. *)
Lemma open_instance io t i od m seg :
  calm_io io → 0 < zlen (storage_dirs t) → 0 ≤ i < M → zlen (segments t) = M → zlen (segment_meta t) = M →
  (seg_dirs t)⟦i⟧ = Some od → (segment_meta t)⟦i⟧ = Some m →
  (let d := default (empty_dir io) od in
   segment_init env (now io) true (λ _, true) (table_limit t) (table_compress_num t) m (dir_mark d) (dir_store d)
     (dir_fields d) (index_meta (table_meta t)) = Some (Ptr seg)) →
  ∃ t1 t2 t3, init_segment_manager_instance env io t i = Some (Ptr seg, t1) ∧
    set_pointer t1 i (Ptr seg) = Some t2 ∧ start_segment io t2 i = Some t3 ∧
    (∃ t4, start_segment io t1 i = Some t4 ∧ set_pointer t4 i (Ptr seg) = Some t3) ∧
    opened t t3 i (with_meta seg (started io (meta seg))).
Proof.
  intros Hio Hsd Hi Hls Hlm Hod Hm Hinit. pose proof (zget_Some_range _ _ _ Hod) as Hir.
  unfold init_segment_manager_instance. rewrite Hod. cbn [mbind option_bind].
  destruct (zget_lt (storage_dirs t) 0) as [w ->]; [lia|]. cbn [mbind option_bind].
  rewrite make_dir_calm by (done || lia). cbn [mbind option_bind]. simpl (0 =? 0). simpl negb. cbv iota zeta.
  unfold set_dir. destruct (zset_Some (seg_dirs t) i (Some (default (empty_dir io) od)) Hir) as (ld & -> & Hld & Hldi & Hldj).
  cbn [mbind option_bind segment_meta with_dirs]. rewrite Hm. cbn [mbind option_bind table_limit table_compress_num table_meta with_dirs].
  rewrite (ci_seg _ Hio), (ci_field _ Hio). cbv zeta in Hinit. rewrite Hinit. cbn [mbind option_bind].
  unfold set_segment_meta. cbn [segment_meta with_dirs].
  destruct (zset_Some (segment_meta t) i (meta seg) ltac:(lia)) as (lm & -> & Hlm' & Hlmi & Hlmj). cbn [mbind option_bind].
  destruct (zset_Some (segments t) i (Ptr seg) ltac:(lia)) as (ls & Els & Hls' & Hlsi & Hlsj).
  destruct (zset_Some lm i (started io (meta seg)) ltac:(lia)) as (lm2 & Elm2 & Hlm2 & Hlm2i & Hlm2j).
  set (T := with_segment_meta (with_dirs t ld) lm).
  assert (∀ l, set_pointer (with_segment_meta T l) i (Ptr seg) = Some (with_segments (with_segment_meta T l) ls)) as Hptr
    by (intros l; unfold set_pointer; cbn [segments with_segment_meta T with_dirs]; by rewrite Els).
  assert (∀ l, start_segment io (with_segments T l) i
    = Some (if create_time (meta seg) =? 0 then with_segment_meta (with_segments T l) lm2 else with_segments T l)) as Hst.
  { intros l. unfold start_segment. cbn [segment_meta with_segments T with_segment_meta]. rewrite Hlmi. cbn [mbind option_bind].
    unfold started in Elm2. destruct (create_time (meta seg) =? 0); [|done].
    unfold set_segment_meta. cbn [segment_meta with_segments T with_segment_meta]. by rewrite Elm2. }
  set (T3 := if create_time (meta seg) =? 0 then with_segment_meta (with_segments T ls) lm2 else with_segments T ls) in *.
  exists T, (with_segments T ls), T3. split; [done|]. split; [apply (Hptr lm)|]. split; [apply Hst|]. split.
  { exists (if create_time (meta seg) =? 0 then with_segment_meta T lm2 else T). split; [apply (Hst (segments t))|].
    unfold T3. destruct (create_time (meta seg) =? 0); [apply (Hptr lm2)|apply (Hptr lm)]. }
  unfold T3, started in *. destruct (create_time (meta seg) =? 0); split; cbn; try done; try lia.
  - unfold get_segment. cbn. rewrite Hlsi. cbn [mbind option_bind]. by rewrite Hlm2i.
  - rewrite Hldi. by eexists.
  - intros j Hj. rewrite Hlsj, Hlm2j, Hlmj, Hldj by done. done.
  - unfold get_segment. cbn. rewrite Hlsi. cbn [mbind option_bind]. by rewrite Hlmi.
  - rewrite Hldi. by eexists.
  - intros j Hj. rewrite Hlsj, Hlmj, Hldj by done. done.
Qed.

Lemma new_matches ts k t size :
  table_rep ts k t → zlen (trows ts) = k * N → size ≤ B0 →
  seg_matches ts k (with_flag (new_segment (tcols ts) 0 size) SEGMENT_INIT).
Proof.
  intros Ht Hn Hsize. pose proof (tr_bytes _ _ _ Ht). pose proof (zlen_nonneg (trows ts)). split; cbn [with_flag new_segment drows docs there dfails dsize dflag fields].
  - lia.
  - intros d Hd. symmetry. rewrite zget_lookup by lia. apply lookup_ge_None_2. unfold zlen in Hn. lia.
  - lia.
  - done.
  - lia.
  - done.
  - by rewrite bool_decide_eq_false_2 by lia.
  - intros name Hin. exists (HashField [] None false). rewrite put_names_lookup.
    rewrite decide_True by by apply list_elem_of_fmap_2. split; [done|]. split; [|done]. cbn [live].
    destruct (tkeys ts name k) as [|[d key] l] eqn:E; [done|].
    destruct (tr_keys _ _ _ Ht name k d) as [? ?]; [rewrite E; left|]. lia.
Qed.

(** [t1] is [t] but for its current segment and its map of columns. *)
Record variant t t1 : Prop := {
  va_dirs : storage_dirs t1 = storage_dirs t;
  va_stat : tstat (table_meta t1) = tstat (table_meta t);
  va_index : index_meta (table_meta t1) = index_meta (table_meta t);
  va_max : max_segment_num t1 = max_segment_num t;
  va_limit : table_limit t1 = table_limit t;
  va_raw : store_raw t1 = store_raw t;
  va_sdirs : seg_dirs t1 = seg_dirs t;
  va_segments : segments t1 = segments t;
  va_lenm : zlen (segment_meta t1) = zlen (segment_meta t);
  va_metas : ∀ j, (segment_meta t1)⟦j⟧ = (segment_meta t)⟦j⟧
}.

Lemma set_current_id t k : segment_current (table_meta t) = k → set_current t k = t.
Proof. intros <-. by destruct t as [? [] ? ? ? ? ? ? ? ? ?]. Qed.

(** The next segment is opened, and becomes the current one. *)
Lemma open_new ts k t t1 io :
  table_rep ts k t → calm_io io → zlen (trows ts) = k * N → k < M → variant t t1 → columns_rep (tcols ts) t1 →
  ∃ seg t2 t3 t4, init_segment_manager_instance env io t1 k = Some (Ptr seg, t2) ∧
    set_pointer t2 k (Ptr seg) = Some t3 ∧ start_segment io t3 k = Some t4 ∧ table_meta t4 = table_meta t1 ∧
    table_rep ts (k + 1) (set_current t4 k).
Proof.
  intros Ht Hio Hn HkM Hv Hcols. pose proof (tr_k _ _ _ Ht) as (Hk & _ & _).
  destruct (tr_closed _ _ _ Ht k ltac:(lia)) as (Hseg & Hmeta & Hdir). destruct (tr_names _ _ _ Ht) as (Hnd & Hnm & Hc).
  destruct (ci_store _ Hio) as (store & Hfs & Hns & Hsize).
  destruct (init_goes nh shared junk qsort N HN Hmax (tcols ts) Hnm Hc types (now io) (table_compress_num t1) fits store 0 0 Hns)
    as (seg & Hinit & Hrep & Hct). fold env in Hinit. pose proof Hv as []. pose proof Ht as [].
  destruct (open_instance io t1 k None zero_meta seg) as (t2 & t3 & t4 & H2 & H3 & H4 & _ & Hop); [done|congruence|lia|congruence|congruence|congruence|by rewrite va_metas0| |].
  { rewrite va_limit0, va_index0, tr_limit0, tr_meta0. cbn [default option.from_option empty_dir dir_mark dir_store dir_fields]. rewrite Hfs. exact Hinit. }
  destruct Hop. exists seg, t2, t3, t4. do 4 (split; [done|]).
  assert (seg_rep nh N (tcols ts) fits (with_flag (new_segment (tcols ts) 0 (col_size store)) SEGMENT_INIT)
    (with_meta seg (started io (meta seg)))) as Hrep'.
  { pose proof (sr_flag _ _ _ _ _ _ Hrep) as Hfl. unfold started. rewrite Hct. simpl (0 =? 0). cbv iota.
    apply (meta_rep _ _ _ (set_seg_flag (set_create (meta seg) (now io)) (Z.lor (seg_flag (meta seg)) SEGMENT_INIT))) in Hrep; [|done|done].
    cbn [seg_flag set_seg_flag] in Hrep. by rewrite Hfl in Hrep |- *. }
  split; cbn [set_current with_table_meta storage_dirs table_meta max_segment_num table_limit store_raw segments segment_meta
    seg_dirs index_meta segment_current]; try done; try congruence; try lia.
  - unfold table_deleted in *. cbn. rewrite op_meta0. congruence.
  - destruct Hcols as (kvs & ? & ? & ? & Hd). exists kvs. cbn. rewrite op_hash0. split_and!; try done.
    intros name r Hr. rewrite <- (Hd name r Hr). destruct r; [done|]. cbn [deref]. cbn. by rewrite op_meta0.
  - intros j Hj. destruct (decide (j = k)) as [->|Hne].
    + eexists _, _. split; [done|]. split; [done|]. split; [|done]. by apply (new_matches ts k t).
    + destruct (tr_open0 j ltac:(lia)) as (sg & st & Hg & ? & ? & ?). destruct (op_other0 j Hne) as (E1 & E2 & E3).
      exists sg, st. rewrite E3, va_sdirs0. split; [|done]. unfold get_segment in *. cbn. by rewrite E1, E2, va_segments0, va_metas0.
  - intros j Hj. destruct (op_other0 j ltac:(lia)) as (-> & -> & ->). rewrite va_segments0, va_metas0, va_sdirs0. apply tr_closed0. lia.
Qed.

Lemma place_table ts k t h io :
  table_rep ts k t → calm_io io → zlen (trows ts) = k * N → k < M →
  columns_rep (tcols ts) (with_hash (set_current t k) h) →
  ∃ t', place_segment env io (with_hash (set_current t k) h) = Some (0, t') ∧ table_rep ts (k + 1) t'.
Proof.
  intros Ht Hio Hn HkM Hcols. pose proof (tr_k _ _ _ Ht) as (Hk & _ & _).
  destruct (tr_closed _ _ _ Ht k ltac:(lia)) as (Hseg & Hmeta & Hdir).
  unfold place_segment. cbn [segment_current set_current with_hash with_table_meta table_meta].
  unfold set_segment_meta. cbn [segment_meta with_hash set_current with_table_meta].
  destruct (zset_Some (segment_meta t) k zero_meta) as (lm & -> & Hlm & Hlmk & Hlmj); [rewrite (tr_metas _ _ _ Ht); lia|].
  cbn [mbind option_bind seg_dirs with_segment_meta with_hash set_current with_table_meta]. rewrite Hdir. cbn [mbind option_bind].
  rewrite bool_decide_eq_false_2 by (by intros [? ?]).
  destruct (open_new ts k t (with_segment_meta (with_hash (set_current t k) h) lm) io Ht Hio Hn HkM)
    as (seg & t2 & t3 & t4 & H2 & H3 & H4 & Hm & Hrep).
  { split; try done. intros j. cbn. destruct (decide (j = k)) as [->|]; [by rewrite Hlmk, Hmeta|by apply Hlmj]. }
  { exact Hcols. }
  rewrite H2. cbn [mbind option_bind]. rewrite H3. cbn [mbind option_bind]. rewrite H4. cbn [mbind option_bind].
  exists t4. split; [done|]. rewrite set_current_id in Hrep; [done|]. by rewrite Hm.
Qed.

Lemma complete_rep ts k t c : table_rep ts k t → table_rep ts k (with_complete t c).
Proof. intros []. split; try done. Qed.

(** A full table gets a new segment. *)
Lemma add_table ts k t io :
  table_rep ts k t → calm_io io → zlen (trows ts) = k * N → k < M →
  ∃ t', table_add_segment env io t (if k =? 0 then ERROR_SEGMENT_NOT_INIT else ERROR_EXCEED_LIMIT) = Some (0, t') ∧
    table_rep ts (k + 1) t'.
Proof.
  intros Ht Hio Hn HkM. pose proof (tr_k _ _ _ Ht) as (Hk & _ & _). unfold table_add_segment. rewrite (tr_del _ _ _ Ht).
  destruct (Z.eqb_spec k 0) as [->|Hk0].
  - change (ERROR_SEGMENT_NOT_INIT =? ERROR_EXCEED_LIMIT) with false. cbv iota.
    assert (with_hash (set_current t 0) (index_meta_hash t) = t) as E.
    { rewrite set_current_id by by rewrite (tr_cur _ _ _ Ht). by destruct t. }
    pose proof (place_table ts 0 t (index_meta_hash t) io Ht Hio Hn HkM) as H. rewrite E in H. apply H, Ht.
  - rewrite Z.eqb_refl. destruct (tr_open _ _ _ Ht (k - 1) ltac:(lia)) as (seg & st & Hg & Hr & Hma & _).
    rewrite (tr_max _ _ _ Ht). replace (Z.to_nat M) with (Datatypes.S (Datatypes.S (Z.to_nat (M - 2)))) by lia.
    cbn [find_free]. rewrite (tr_cur _ _ _ Ht), (tr_max _ _ _ Ht).
    replace (Z.max 0 (k - 1)) with (k - 1) by lia.
    replace (0 + (k - 1)) with (k - 1) by lia. rewrite (Z.mod_small (k - 1)) by lia.
    rewrite (has_flag_segment t _ seg _ Hg), (sr_flag _ _ _ _ _ _ Hr), (ma_init _ _ _ Hma). cbn [mbind option_bind].
    replace (0 + 1 + (k - 1)) with k by lia. rewrite (Z.mod_small k M) by lia.
    rewrite (closed_flag ts k t k _ Ht) by lia. cbn [mbind option_bind].
    replace (0 + 1 + (k - 1)) with k by lia. rewrite (Z.mod_small k M) by lia.
    destruct (reload_table ts k t k Ht) as (h & -> & Hcols). cbn [mbind option_bind]. by apply place_table.
Qed.

Lemma prepare_table ts k t io :
  table_rep ts k t → calm_io io → zlen (trows ts) < N * M →
  ∃ k' t', table_prepare_insert env io t 0 0 DOCID_BY_SELF
             = Some (0, zlen (trows ts) / N, zlen (trows ts) `mod` N, t') ∧
    table_rep ts k' t' ∧ zlen (trows ts) / N = k' - 1.
Proof.
  intros Ht Hio HnM. pose proof (tr_k _ _ _ Ht) as (Hk & Hk1 & Hk2). set (n := zlen (trows ts)) in *.
  destruct (place_of n (zlen_nonneg _)) as (En & Hd & Hi0).
  (* the end: the table returns the row count of its last segment *)
  assert (∀ k' t', table_rep ts k' t' → n / N = k' - 1 →
    (segment ← get_segment t' (segment_current (table_meta t'));
     Some (0, segment_current (table_meta t'), segment_get_rowcount segment, t')) = Some (0, n / N, n `mod` N, t')) as Hend.
  { intros k' t' Ht' Hk'. pose proof (tr_k _ _ _ Ht') as (? & Hka & Hkb). fold n in Hka, Hkb.
    rewrite (tr_cur _ _ _ Ht'). replace (Z.max 0 (k' - 1)) with (n / N) by lia.
    destruct (tr_open _ _ _ Ht' (n / N) ltac:(lia)) as (seg & st & Hg & Hr & Hma & _). rewrite Hg. cbn [mbind option_bind].
    unfold segment_get_rowcount. rewrite (sr_rows _ _ _ _ _ _ Hr), (ma_rows _ _ _ Hma). fold n. do 4 f_equal. lia. }
  unfold table_prepare_insert. rewrite (tr_del _ _ _ Ht).
  destruct (decide (n < k * N)) as [Hroom|Hroom].
  - assert (n / N = k - 1) as Hcur by nia. exists k, t. rewrite (tr_cur _ _ _ Ht). replace (Z.max 0 (k - 1)) with (k - 1) by lia.
    destruct (tr_open _ _ _ Ht (k - 1) ltac:(lia)) as (seg & st & Hg & Hr & Hma & _).
    rewrite (has_flag_segment t _ seg _ Hg), (sr_flag _ _ _ _ _ _ Hr), (ma_init _ _ _ Hma). cbn [mbind option_bind].
    simpl negb. cbv iota. rewrite Hg. cbn [mbind option_bind]. unfold segment_exceed_limit.
    rewrite (sr_rows _ _ _ _ _ _ Hr), (sr_limit _ _ _ _ _ _ Hr), geb_false by (rewrite (ma_rows _ _ _ Hma); fold n; lia).
    change (0 =? ERROR_EXCEED_LIMIT) with false. change (0 =? ERROR_SEGMENT_NOT_INIT) with false. simpl orb. cbv iota.
    cbn [mbind option_bind]. change (0 <? 0) with false. cbv iota. split; [|done]. exact (Hend k t Ht Hcur).
  - assert (n = k * N) as Hn by lia. assert (k < M) as HkM by nia.
    destruct (add_table ts k t io Ht Hio Hn HkM) as (t' & Hadd & Ht'). apply (complete_rep ts (k + 1) t' 1) in Ht'.
    exists (k + 1), (with_complete t' 1). assert (n / N = k) as Hcur by nia.
    assert (∃ ret, (init ← has_flag t (segment_current (table_meta t)) SEGMENT_INIT;
       (if negb init then Some ERROR_SEGMENT_NOT_INIT
        else segment ← get_segment t (segment_current (table_meta t)); Some (segment_exceed_limit segment))) = Some ret ∧
       ret = if k =? 0 then ERROR_SEGMENT_NOT_INIT else ERROR_EXCEED_LIMIT) as (ret & Hret & Eret).
    { rewrite (tr_cur _ _ _ Ht). destruct (Z.eqb_spec k 0) as [Ek|Ek].
      - replace (Z.max 0 (k - 1)) with 0 by lia. rewrite (closed_flag ts k t 0 _ Ht) by lia. by eexists.
      - replace (Z.max 0 (k - 1)) with (k - 1) by lia.
        destruct (tr_open _ _ _ Ht (k - 1) ltac:(lia)) as (seg & st & Hg & Hr & Hma & _).
        rewrite (has_flag_segment t _ seg _ Hg), (sr_flag _ _ _ _ _ _ Hr), (ma_init _ _ _ Hma). cbn [mbind option_bind].
        simpl negb. cbv iota. rewrite Hg. cbn [mbind option_bind]. eexists. split; [done|]. unfold segment_exceed_limit.
        rewrite (sr_rows _ _ _ _ _ _ Hr), (sr_limit _ _ _ _ _ _ Hr), Z.geb_leb, (proj2 (Z.leb_le _ _)); [done|]. rewrite (ma_rows _ _ _ Hma). fold n. lia. }
    destruct (has_flag t (segment_current (table_meta t)) SEGMENT_INIT) as [init|]; [|done]. cbn [mbind option_bind] in *.
    rewrite Hret. cbn [mbind option_bind]. subst ret.
    assert (((if k =? 0 then ERROR_SEGMENT_NOT_INIT else ERROR_EXCEED_LIMIT) =? ERROR_EXCEED_LIMIT)
      || ((if k =? 0 then ERROR_SEGMENT_NOT_INIT else ERROR_EXCEED_LIMIT) =? ERROR_SEGMENT_NOT_INIT) = true) as -> by (by destruct (k =? 0)).
    rewrite Hadd. cbn [mbind option_bind]. simpl (0 <? 0). cbv iota. split; [|split; [done|lia]]. apply (Hend (k + 1)); [done|lia].
Qed.

(** The next document of the table, at the place the log gives. *)
Lemma prepare_binlog ts k t io :
  table_rep ts k t → calm_io io → zlen (trows ts) < N * M →
  ∃ k' t', table_prepare_insert env io t (zlen (trows ts) / N) (zlen (trows ts) `mod` N) DOCID_BY_BINLOG
             = Some (0, zlen (trows ts) / N, zlen (trows ts) `mod` N, t') ∧
    table_rep ts k' t' ∧ zlen (trows ts) / N = k' - 1.
Proof.
  intros Ht Hio HnM. pose proof (tr_k _ _ _ Ht) as (Hk & Hk1 & Hk2). set (n := zlen (trows ts)) in *.
  destruct (place_of n (zlen_nonneg _)) as (En & Hd & Hi0). unfold table_prepare_insert. rewrite (tr_del _ _ _ Ht).
  destruct (decide (n < k * N)) as [Hroom|Hroom].
  - assert (n / N = k - 1) as Hcur by nia. exists k, t.
    destruct (tr_open _ _ _ Ht (n / N) ltac:(lia)) as (seg & st & Hg & Hr & Hma & _).
    rewrite (has_flag_segment t _ seg _ Hg), (sr_flag _ _ _ _ _ _ Hr), (ma_init _ _ _ Hma). cbn [mbind option_bind].
    simpl. rewrite set_current_id; [done|]. rewrite (tr_cur _ _ _ Ht). lia.
  - assert (n = k * N) as Hn by lia. assert (k < M) as HkM by nia. assert (n / N = k) as Hcur by nia. rewrite Hcur.
    rewrite (closed_flag ts k t k _ Ht) by lia. cbn [mbind option_bind]. simpl negb. cbv iota.
    destruct (open_new ts k t t io Ht Hio Hn HkM) as (seg & t2 & t3 & t4 & H2 & H3 & H4 & Hm & Hrep); [by split|apply Ht|].
    rewrite H2. cbn [mbind option_bind]. rewrite H3. cbn [mbind option_bind]. rewrite H4. cbn [mbind option_bind]. simpl.
    exists (k + 1), (with_complete (set_current t4 k) 1). split; [done|]. split; [by apply complete_rep|lia].
Qed.

(** *** Opening a table *)

Lemma load_spec l (h : string_map index_ref) kvs :
  holds_entries h kvs → zlen kvs + zlen l ≤ sm_size h →
  ∃ h' kvs', load_columns h l = Some h' ∧ holds_entries h' kvs' ∧ sm_size h' = sm_size h ∧
    (∀ name, is_Some (entry_map kvs' !! name) ↔ is_Some (entry_map kvs !! name) ∨ name ∈ meta_name <$> l) ∧
    ∀ name r, entry_map kvs' !! name = Some r →
      (∃ m, m ∈ l ∧ meta_name m = name ∧ r = Own m) ∨ entry_map kvs !! name = Some r.
Proof.
  revert h kvs. induction l as [|m l IH]; intros h kvs Hh Hroom.
  { exists h, kvs. split_and!; try done; [|by right]. intros name. split; [by left|]. by intros [?|?%elem_of_nil]. }
  change (m :: l) with ([m] ++ l) in Hroom. rewrite zlen_app in Hroom. change (zlen [m]) with 1 in Hroom. pose proof (zlen_nonneg l).
  destruct (map_put_spec h kvs (meta_name m) (Own m) Hh) as (h1 & kvs1 & H1 & Hh1 & Hs1 & He1); [lia|].
  cbn [load_columns]. rewrite H1. cbn [mbind option_bind].
  assert (zlen kvs1 ≤ zlen kvs + 1) as Hlen.
  { rewrite <- (entries_size kvs1), <- (entries_size kvs) by (apply Hh || apply Hh1). rewrite He1, map_size_insert.
    destruct (entry_map kvs !! meta_name m); simpl; lia. }
  destruct (IH h1 kvs1 Hh1 ltac:(lia)) as (h' & kvs' & -> & Hh' & Hs' & Hdom & Href).
  exists h', kvs'. split; [done|]. split; [done|]. split; [congruence|]. split.
  - intros name. rewrite Hdom, He1, fmap_cons, elem_of_cons. destruct (decide (name = meta_name m)) as [->|Hne].
    + rewrite lookup_insert_eq. naive_solver.
    + rewrite lookup_insert_ne by done. naive_solver.
  - intros name r [(m' & Hin & ? & ?)|Hr]%Href; [left; exists m'; split; [by right|done]|].
    rewrite He1 in Hr. destruct (decide (name = meta_name m)) as [->|Hne].
    + rewrite lookup_insert_eq in Hr. injection Hr as <-. left. exists m. split; [left|done].
    + rewrite lookup_insert_ne in Hr by done. by right.
Qed.

(** What a table's files must hold for [k] segments with the content of [ts]. *)
Record files_rep ts (k tm num : Z) (metas : list segment_meta_data) (ds : list (option (segment_dir S))) : Prop := {
  fr_metas : zlen metas = M;
  fr_dirs : zlen ds = M;
  fr_open : ∀ j, 0 ≤ j < k → ∃ m d seg st, metas⟦j⟧ = Some m ∧ ds⟦j⟧ = Some (Some d) ∧
    segment_init env tm true (λ _, true) N num m (dir_mark d) (dir_store d) (dir_fields d)
      (hash_fields types (tcols ts)) = Some (Ptr seg) ∧
    seg_rep nh N (tcols ts) fits st seg ∧ seg_matches ts j st ∧ flag_on (seg_flag m) SEGMENT_INIT = true;
  fr_closed : ∀ j, k ≤ j < M → metas⟦j⟧ = Some zero_meta ∧ ds⟦j⟧ = Some None
}.

(** The segments below [i] are open. *)
Record partly_open ts (k : Z) (metas : list segment_meta_data) (ds : list (option (segment_dir S))) (i : Z) t0 t : Prop := {
  po_dirs : storage_dirs t = storage_dirs t0;
  po_meta : table_meta t = table_meta t0;
  po_max : max_segment_num t = max_segment_num t0;
  po_hash : index_meta_hash t = index_meta_hash t0;
  po_limit : table_limit t = table_limit t0;
  po_num : table_compress_num t = table_compress_num t0;
  po_raw : store_raw t = store_raw t0;
  po_lens : zlen (segments t) = M;
  po_lenm : zlen (segment_meta t) = M;
  po_lend : zlen (seg_dirs t) = M;
  po_open : ∀ j, 0 ≤ j < i → j < k → ∃ seg st, get_segment t j = Some seg ∧ seg_rep nh N (tcols ts) fits st seg ∧
    seg_matches ts j st ∧ is_Some (mjoin ((seg_dirs t)⟦j⟧));
  po_closed : ∀ j, 0 ≤ j < M → i ≤ j ∨ k ≤ j → (segments t)⟦j⟧ = Some NULL ∧ (segment_meta t)⟦j⟧ = metas⟦j⟧ ∧
    (seg_dirs t)⟦j⟧ = ds⟦j⟧
}.

Lemma started_matches ts j st seg io :
  seg_rep nh N (tcols ts) fits st seg → seg_matches ts j st →
  seg_matches ts j (with_flag st (seg_flag (started io (meta seg)))).
Proof.
  intros Hr Hma. apply matches_fields; [done| | |].
  - unfold started. destruct (create_time (meta seg) =? 0); cbn; [by rewrite flag_on_lor, orb_true_r|].
    by rewrite (sr_flag _ _ _ _ _ _ Hr), (ma_init _ _ _ Hma).
  - unfold started. destruct (create_time (meta seg) =? 0); cbn; rewrite ?flag_on_lor, (sr_flag _ _ _ _ _ _ Hr), (ma_full _ _ _ Hma);
      [by rewrite orb_false_r|done].
  - eauto.
Qed.

Lemma open_loop ts k io num metas ds t0 n i t :
  calm_io io → 0 < zlen (storage_dirs t0) → table_limit t0 = N → table_compress_num t0 = num →
  index_meta (table_meta t0) = hash_fields types (tcols ts) → files_rep ts k (now io) num metas ds →
  partly_open ts k metas ds i t0 t → 0 ≤ i → i + Z.of_nat n = M →
  ∃ t', open_segments env io n i t = Some t' ∧ partly_open ts k metas ds M t0 t'.
Proof.
  intros Hio Hsd Hlim Hnum Hmeta Hf. revert i t. induction n as [|n IH]; intros i t Hp Hi HiM.
  { exists t. replace M with i by lia. done. }
  cbn [open_segments]. pose proof Hp as []. destruct (po_closed0 i ltac:(lia) ltac:(lia)) as (Hnull & Hmi & Hdi).
  unfold has_flag. rewrite Hmi. destruct (decide (i < k)) as [Hik|Hik].
  - destruct (fr_open _ _ _ _ _ _ Hf i ltac:(lia)) as (m & d & seg & st & Hm & Hd & Hinit & Hr & Hma & Hfl).
    rewrite Hm. cbn [mbind option_bind]. fold (flag_on (seg_flag m) SEGMENT_INIT). rewrite Hfl.
    destruct (open_instance io t i (Some d) m seg) as (t1 & t2 & t3 & H1 & _ & _ & (t4 & H4 & H5) & Hop);
      [done|by rewrite po_dirs0|lia|done|done|by rewrite Hdi|by rewrite Hmi| |].
    { cbn. rewrite po_limit0, po_num0, po_meta0, Hlim, Hnum, Hmeta. exact Hinit. }
    rewrite H1. cbn [mbind option_bind]. rewrite H4. cbn [mbind option_bind]. rewrite H5. cbn [mbind option_bind].
    apply IH; [|lia|lia]. destruct Hop. split; try congruence.
    + intros j Hj Hjk. destruct (decide (j = i)) as [->|Hne].
      * eexists _, _. split; [done|]. split; [apply (meta_rep _ st); [done| |]|].
        -- unfold started. by destruct (create_time (meta seg) =? 0).
        -- unfold started. by destruct (create_time (meta seg) =? 0).
        -- split; [by apply started_matches|done].
      * destruct (po_open0 j ltac:(lia) Hjk) as (sg & s & Hg & ? & ? & ?). destruct (op_other0 j Hne) as (E1 & E2 & E3).
        exists sg, s. rewrite E3. split; [|done]. unfold get_segment in *. by rewrite E1, E2.
    + intros j Hj Hc. destruct (op_other0 j ltac:(lia)) as (-> & -> & ->). apply po_closed0; lia.
  - destruct (fr_closed _ _ _ _ _ _ Hf i ltac:(lia)) as [-> _]. cbn [mbind option_bind]. simpl. apply IH; [|lia|lia].
    split; try done.
    + intros j Hj Hjk. apply po_open0; lia.
    + intros j Hj Hc. apply po_closed0; lia.
Qed.

(** The facts about [ts] itself. *)
Record state_ok ts (k : Z) : Prop := {
  so_names : NoDup (tcols ts) ∧ Forall (λ name, zlen name < MAX_FIELD_NAME) (tcols ts) ∧
    zlen (tcols ts) ≤ MAX_INDEX_FIELD_NUM;
  so_k : 0 ≤ k ≤ M ∧ zlen (trows ts) ≤ k * N ∧ (k = 0 ∨ (k - 1) * N ≤ zlen (trows ts));
  so_keys : ∀ name i d, d ∈ (tkeys ts name i).*1 → 0 ≤ d < N ∧ i * N + d < zlen (trows ts);
  so_gone : ∀ n, tgone ts n = true → 0 ≤ n < zlen (trows ts);
  so_bytes : 0 ≤ tbytes ts
}.

Lemma init_table ts k io config tm file metas ds :
  calm_io io → 0 < zlen (config_dirs config) → config_segments config = M → config_limit config = N →
  config_raw config = true → index_meta tm = hash_fields types (tcols ts) → flag_on (tstat tm) TABLE_DEL = false →
  segment_current tm = Z.max 0 (k - 1) → state_ok ts k → fst (get_mmap_memory zero_meta 33 true file M) = Some metas →
  files_rep ts k (now io) (config_compress config) metas ds →
  ∃ t, table_init env io config tm file ds = Some (Ptr t) ∧ table_rep ts k t.
Proof.
  intros Hio Hcd Hcs Hcl Hcr Htm Hdel Hcur Hok Hfile Hfr. unfold table_init. rewrite (ci_table _ Hio), (ci_meta _ Hio), Hcs.
  simpl negb. cbv iota zeta. rewrite Hfile. cbn [mbind option_bind].
  set (t0 := Table _ tm _ _ _ _ _ _ _ _ _). pose proof Hfr as [Hlm Hld _ _].
  destruct (open_loop ts k io (config_compress config) metas ds t0 (Z.to_nat M) 0 t0) as (t & -> & Hp); try done; try lia.
  { cbn. by rewrite zlen_fmap. }
  { split; try done.
    - cbn. unfold zlen. rewrite length_replicate. lia.
    - lia.
    - intros j Hj _. cbn. split; [|done]. rewrite zget_lookup by lia. apply lookup_replicate_2. lia. }
  cbn [mbind option_bind]. destruct Hp. cbn in po_dirs0, po_meta0, po_max0, po_hash0, po_limit0, po_raw0. rewrite po_hash0, Htm.
  destruct Hok as [(Hnd & Hnm & Hc) ? ? ? ?].
  destruct (load_spec (hash_fields types (tcols ts)) (init_string_map MAX_INDEX_FIELD_NUM : string_map index_ref) [])
    as (h & kvs & -> & Hh & Hs & Hdom & Href).
  { by apply init_holds. }
  { unfold hash_fields. rewrite zlen_fmap. change (zlen (@nil (list Z * index_ref))) with 0. cbn [init_string_map sm_size]. lia. }
  cbn [mbind option_bind]. eexists. split; [done|].
  split; cbn [set_stat with_hash with_table_meta storage_dirs table_meta segments segment_meta max_segment_num index_meta_hash
    table_limit store_raw seg_dirs index_meta segment_current tstat]; rewrite ?po_dirs0, ?po_meta0; try done; try congruence.
  - by rewrite zlen_fmap.
  - unfold table_deleted. cbn. fold (flag_on (Z.lor (tstat tm) TABLE_INIT) TABLE_DEL). by rewrite flag_on_lor, Hdel.
  - exists kvs. split; [done|]. split; [done|]. split.
    + intros name. rewrite Hdom. unfold entry_map at 1. simpl. rewrite lookup_empty. unfold hash_fields.
      rewrite <- list_fmap_compose. rewrite list_elem_of_fmap. split; [|intros; right; by exists name].
      intros [[? ?]|(x & -> & ?)]; done.
    + intros name r [(m & Hin & <- & ->)|Hr]%Href; [|by unfold entry_map in Hr].
      cbn [deref]. unfold hash_fields in Hin. apply list_elem_of_fmap in Hin as (x & -> & _). done.
  - intros j Hj. by apply po_open0; lia.
  - intros j Hj. destruct (po_closed0 j ltac:(lia) ltac:(lia)) as (? & E2 & E3). rewrite E2, E3.
    destruct (fr_closed _ _ _ _ _ _ Hfr j Hj) as [-> ->]. done.
Qed.

Lemma rep_state_ok ts k t : table_rep ts k t → state_ok ts k.
Proof. by intros []. Qed.

(** A new table. *)
Definition new_table (cols : list (list Z)) : table_state := TState cols [] (λ _, false) (λ _ _, []) 0.

Lemma create_table io config cols name :
  calm_io io → 0 < zlen (config_dirs config) → config_segments config = M → config_limit config = N →
  config_raw config = true → NoDup cols → Forall (λ name, zlen name < MAX_FIELD_NAME) cols →
  zlen cols ≤ MAX_INDEX_FIELD_NUM →
  ∃ t, table_init env io config (TableMeta name 0 0 (hash_fields types cols)) [] (replicate (Z.to_nat M) None) = Some (Ptr t) ∧
    table_rep (new_table cols) 0 t.
Proof.
  intros Hio Hcd Hcs Hcl Hcr Hnd Hnm Hc.
  destruct (get_mmap_memory_spec zero_meta 33 ltac:(lia) [] M ltac:(lia) ltac:(lia)) as (m & f & Hm & Hlen & Hget).
  apply (init_table _ _ _ _ _ _ m); try done.
  - split; cbn; [done| |intros name' i d Hd; by apply elem_of_nil in Hd|done|done].
    split; [lia|]. split; [by rewrite Z.mul_0_l|by left].
  - by rewrite Hm.
  - split; [done|unfold zlen; rewrite length_replicate; lia|lia|]. intros j Hj.
    rewrite Hget by lia. rewrite decide_False by (unfold zlen; simpl; lia). split; [done|].
    rewrite zget_lookup by lia. apply lookup_replicate_2. lia.
Qed.

(** *** Closing and opening again *)

Lemma restart_parts ts k t st seg tm num :
  table_rep ts k t → seg_rep nh N (tcols ts) fits st seg →
  ∃ mark s ds seg', segment_release env seg = Some (mark, s, ds) ∧
    segment_init env tm true (λ _, true) N num (meta seg) mark (Some s) ds (hash_fields types (tcols ts)) = Some (Ptr seg') ∧
    seg_rep nh N (tcols ts) fits (segment_spec get_hash_value N st SRestart) seg'.
Proof.
  intros Ht Hr. destruct (tr_names _ _ _ Ht) as (_ & Hn & Hc).
  destruct (step_goes get_hash_value nh shared junk qsort N HN Hmax (tcols ts) Hn Hc types tm num [] fits st seg SRestart Hr I)
    as (seg' & H & Hr'). cbn [segment_step] in H. fold env in H.
  destruct (segment_release env seg) as [[[mark s] ds]|]; [|done]. cbn [mbind option_bind] in H.
  rewrite (sr_limit _ _ _ _ _ _ Hr) in H. exists mark, s, ds, seg'. split; [done|]. split; [|done].
  destruct (segment_init _ _ _ _ _ _ _ _ _ _ _) as [[|sg]|]; try done. cbn [mbind option_bind] in H. by injection H as ->.
Qed.

Lemma release_loop ts k t n i l :
  table_rep ts k t → 0 ≤ i → i + Z.of_nat n = M → zlen l = M → (∀ j, i ≤ j < M → l⟦j⟧ = (seg_dirs t)⟦j⟧) →
  ∃ l', release_segments env (with_dirs t l) n i = Some (with_dirs t l') ∧ zlen l' = M ∧
    (∀ j, 0 ≤ j < i → l'⟦j⟧ = l⟦j⟧) ∧
    (∀ j, i ≤ j < k → ∃ seg d mark s ds, get_segment t j = Some seg ∧ segment_release env seg = Some (mark, s, ds) ∧
       l'⟦j⟧ = Some (Some (released d mark s ds))) ∧
    ∀ j, i ≤ j < M → k ≤ j → l'⟦j⟧ = (seg_dirs t)⟦j⟧.
Proof.
  intros Ht. revert i l. induction n as [|n IH]; intros i l Hi HiM Hl Hsame; cbn [release_segments].
  { exists l. pose proof (tr_k _ _ _ Ht). split; [done|]. split; [done|]. split; [done|]. split; [intros; lia|]. intros; lia. }
  change (has_flag (with_dirs t l) i SEGMENT_INIT) with (has_flag t i SEGMENT_INIT).
  destruct (decide (i < k)) as [Hik|Hik].
  - destruct (tr_open _ _ _ Ht i ltac:(lia)) as (seg & st & Hg & Hr & Hma & _).
    rewrite (has_flag_segment t i seg _ Hg), (sr_flag _ _ _ _ _ _ Hr), (ma_init _ _ _ Hma). cbn [mbind option_bind].
    unfold release_segment. change (get_segment (with_dirs t l) i) with (get_segment t i). rewrite Hg. cbn [mbind option_bind].
    destruct (restart_parts ts k t st seg 0 0 Ht Hr) as (mark & s & ds & _ & Hrel & _). rewrite Hrel. cbn [mbind option_bind].
    cbn [seg_dirs with_dirs]. destruct (zget_lt l i ltac:(lia)) as [d Hd]. rewrite Hd. cbn [mbind option_bind].
    unfold set_dir. cbn [seg_dirs with_dirs].
    destruct (zset_Some l i (Some (released d mark s ds)) ltac:(lia)) as (l1 & -> & Hl1 & Hl1i & Hl1j). cbn [mbind option_bind].
    destruct (IH (i + 1) l1) as (l' & Hl' & Hlen & Hlow & Hmid & Hhigh); [lia|lia|lia| |].
    { intros j Hj. rewrite Hl1j by lia. apply Hsame. lia. }
    exists l'. split; [exact Hl'|]. split; [done|]. split; [intros j Hj; rewrite Hlow, Hl1j by lia; done|]. split.
    + intros j Hj. destruct (decide (j = i)) as [->|Hne]; [|apply Hmid; lia]. exists seg, d, mark, s, ds.
      rewrite Hlow by lia. done.
    + intros j Hj Hkj. apply Hhigh; lia.
  - rewrite (closed_flag ts k t i _ Ht) by lia. cbn [mbind option_bind].
    destruct (IH (i + 1) l) as (l' & -> & Hlen & Hlow & Hmid & Hhigh); [lia|lia|lia| |].
    { intros j Hj. apply Hsame. lia. }
    exists l'. split; [done|]. split; [done|]. split; [intros j Hj; apply Hlow; lia|]. split; [intros j Hj; lia|].
    intros j Hj Hkj. destruct (decide (j = i)) as [->|Hne]; [|apply Hhigh; lia]. rewrite Hlow by lia. apply Hsame. lia.
Qed.

Lemma restart_table ts k t io config :
  table_rep ts k t → calm_io io → 0 < zlen (config_dirs config) → config_segments config = M → config_limit config = N →
  config_raw config = true →
  ∃ tm metas ds t', table_release env t = Some (tm, metas, ds) ∧ table_init env io config tm metas ds = Some (Ptr t') ∧
    table_rep ts k t'.
Proof.
  intros Ht Hio Hcd Hcs Hcl Hcr. unfold table_release. rewrite (tr_del _ _ _ Ht), (tr_max _ _ _ Ht).
  destruct (release_loop ts k t (Z.to_nat M) 0 (seg_dirs t)) as (l & Hrel & Hl & _ & Hopen & Hclosed);
    [done|lia|lia|apply Ht|done|].
  assert (with_dirs t (seg_dirs t) = t) as E by by destruct t. rewrite E in Hrel. rewrite Hrel. cbn [mbind option_bind].
  exists (table_meta t), (segment_meta t), l.
  destruct (init_table ts k io config (table_meta t) (segment_meta t) (segment_meta t) l) as (t' & Hi & Ht'); try done.
  - apply (tr_meta _ _ _ Ht).
  - apply negb_false_iff, Z.eqb_eq. pose proof (tr_del _ _ _ Ht) as Hd. unfold table_deleted in Hd.
    by apply negb_false_iff, Z.eqb_eq in Hd.
  - apply (tr_cur _ _ _ Ht).
  - by apply (rep_state_ok ts k t).
  - pose proof (get_mmap_again zero_meta 33 ltac:(lia) (segment_meta t) []) as H. rewrite app_nil_r, (tr_metas _ _ _ Ht) in H.
    by rewrite H.
  - split; [apply Ht|done| |].
    + intros j Hj. destruct (Hopen j Hj) as (seg & d & mark & s & ds & Hg & Hre & Hlj).
      destruct (tr_open _ _ _ Ht j Hj) as (seg2 & st & Hg2 & Hr & Hma & _). rewrite Hg in Hg2. injection Hg2 as <-.
      destruct (restart_parts ts k t st seg (now io) (config_compress config) Ht Hr) as (mark' & s' & ds' & seg' & Hre' & Hin & Hr').
      rewrite Hre in Hre'. injection Hre' as <- <- <-.
      exists (meta seg), (released d mark s ds), seg', (segment_spec get_hash_value N st SRestart).
      split; [by apply get_segment_meta|]. split; [done|]. split; [done|]. split; [done|]. split; [by apply restart_matches|].
      by rewrite (sr_flag _ _ _ _ _ _ Hr), (ma_init _ _ _ Hma).
    + intros j Hj. destruct (tr_closed _ _ _ Ht j Hj) as (_ & ? & ?). pose proof (tr_k _ _ _ Ht). rewrite Hclosed by lia. done.
  - exists t'. done.
Qed.

(** *** Runs *)

Section run.
Context (config : table_config) (Hcd : 0 < zlen (config_dirs config)) (Hcs : config_segments config = M)
  (Hcl : config_limit config = N) (Hcr : config_raw config = true).

(** The number of segments in use. *)
Definition segs ts : Z := (zlen (trows ts) + N - 1) / N.

Definition place_of_op ts (op : table_op) : list (Z * Z) :=
  match op with TInsert _ => [(zlen (trows ts) / N, zlen (trows ts) `mod` N)] | _ => [] end.

Lemma segs_insert ts fs : segs (table_spec get_hash_value N types ts (TInsert fs)) = zlen (trows ts) / N + 1.
Proof.
  unfold segs. cbn [table_spec trows]. rewrite zlen_app. change (zlen [fs]) with 1.
  replace (zlen (trows ts) + 1 + N - 1) with (zlen (trows ts) + 1 * N) by lia. by rewrite Z.div_add by lia.
Qed.

Lemma step_table ts t io op :
  table_rep ts (segs ts) t → calm_io io → table_op_ok get_hash_value nh N types M (pool io) fits B0 ts op →
  ∃ place t', table_step env get_hash_value config io t op = Some (place, t') ∧
    option_list place = place_of_op ts op ∧
    table_rep (table_spec get_hash_value N types ts op) (segs (table_spec get_hash_value N types ts op)) t'.
Proof.
  intros Ht Hio Hop. unfold table_step, limit_of. rewrite Hcl. destruct op as [fs|n new|n| |sid| |].
  - destruct Hop as (HnM & Hins & Hhash).
    destruct (prepare_table ts _ t io Ht Hio HnM) as (k' & t1 & -> & Ht1 & Hk'). cbn [mbind option_bind]. simpl (0 =? 0). simpl negb. cbv iota.
    destruct (insert_table ts k' t1 io fs Ht1 Hio Hk' Hins Hhash) as (t2 & -> & Ht2). cbn [mbind option_bind]. simpl (0 =? 0). cbv iota.
    eexists _, t2. split; [done|]. split; [done|]. rewrite segs_insert. by replace (zlen (trows ts) / N + 1) with k' by lia.
  - destruct (update_table io ts _ t n new Ht Hop) as (old & t' & -> & Ht'). cbn [mbind option_bind]. simpl (0 =? 0). cbv iota.
    eexists _, t'. split; [done|]. split; [done|].
    assert (segs (table_spec get_hash_value N types ts (TUpdate n new)) = segs ts) as ->
      by (unfold segs; cbn [table_spec trows]; by rewrite zlen_insert). done.
  - destruct (delete_table io ts _ t n Ht Hop) as (t' & -> & Ht'). cbn [mbind option_bind]. simpl (0 =? 0). cbv iota.
    by eexists _, t'.
  - destruct (checkpoint_table ts _ t Ht) as (t' & -> & Ht'). cbn [mbind option_bind]. by eexists _, t'.
  - destruct Hop as [Hs Hfull]. destruct (mmap_table ts _ t sid Ht Hs Hfull) as (t' & -> & Ht'). cbn [mbind option_bind].
    simpl (0 =? 0). cbv iota. by eexists _, t'.
  - destruct (compress_table ts _ t Ht) as (t' & -> & Ht'). cbn [mbind option_bind]. simpl (0 =? 0). cbv iota. by eexists _, t'.
  - destruct (restart_table ts _ t io config Ht Hio Hcd Hcs Hcl Hcr) as (tm & metas & ds & t' & -> & Hi & Ht').
    cbn [mbind option_bind]. rewrite Hi. cbn [mbind option_bind]. by eexists _, t'.
Qed.

(** All operations are as they should be. *)
Fixpoint table_ops_ok ts (ops : list (table_io S * table_op)) : Prop :=
  match ops with
  | [] => True
  | (io, op) :: ops =>
      calm_io io ∧ table_op_ok get_hash_value nh N types M (pool io) fits B0 ts op ∧
      table_ops_ok (table_spec get_hash_value N types ts op) ops
  end.

Definition table_specs ts (ops : list (table_io S * table_op)) : table_state :=
  foldl (λ ts op, table_spec get_hash_value N types ts op.2) ts ops.

Fixpoint places_of ts (ops : list (table_io S * table_op)) : list (Z * Z) :=
  match ops with
  | [] => []
  | (_, op) :: ops => place_of_op ts op ++ places_of (table_spec get_hash_value N types ts op) ops
  end.

Lemma run_table ts t ops :
  table_rep ts (segs ts) t → table_ops_ok ts ops →
  ∃ t', table_run env get_hash_value config t ops = Some (places_of ts ops, t') ∧
    table_rep (table_specs ts ops) (segs (table_specs ts ops)) t'.
Proof.
  revert ts t. induction ops as [|[io op] ops IH]; intros ts t Ht Hok; [by exists t|].
  destruct Hok as (Hio & Hop & Hok). destruct (step_table ts t io op Ht Hio Hop) as (place & t1 & H1 & Hpl & Ht1).
  cbn [table_run places_of]. rewrite H1. cbn [mbind option_bind].
  destruct (IH _ t1 Ht1 Hok) as (t' & -> & Ht'). cbn [mbind option_bind]. exists t'. by rewrite Hpl.
Qed.

(** The places are in order. *)
Lemma places_spec ts ops :
  zlen (trows (table_specs ts ops)) = zlen (trows ts) + zlen (places_of ts ops) ∧
  ∀ j p, (places_of ts ops)⟦j⟧ = Some p → p = ((zlen (trows ts) + j) / N, (zlen (trows ts) + j) `mod` N).
Proof.
  revert ts. induction ops as [|[io op] ops IH]; intros ts.
  { cbn. split; [unfold zlen; simpl; lia|]. intros j p Hj. by apply zget_Some_range in Hj; unfold zlen in Hj; simpl in Hj; lia. }
  cbn [places_of table_specs foldl snd]. destruct (IH (table_spec get_hash_value N types ts op)) as (E & Hp).
  change (foldl _ _ ops) with (table_specs (table_spec get_hash_value N types ts op) ops). rewrite E, zlen_app.
  assert (zlen (trows (table_spec get_hash_value N types ts op)) = zlen (trows ts) + zlen (place_of_op ts op)) as El.
  { destruct op; cbn [table_spec trows place_of_op]; rewrite ?zlen_app, ?zlen_insert; unfold zlen; simpl; lia. }
  rewrite El in *. split; [lia|]. intros j p Hj.
  destruct (decide (j < zlen (place_of_op ts op))) as [Hlt|Hge].
  - pose proof (zget_Some_range _ _ _ Hj). destruct op; cbn [place_of_op] in *; try (unfold zlen in Hlt; simpl in Hlt; lia).
    change (zlen [_]) with 1 in Hlt. assert (j = 0) as -> by lia. cbn in Hj. injection Hj as <-. by rewrite Z.add_0_r.
  - pose proof (zget_Some_range _ _ _ Hj). pose proof (zlen_nonneg (place_of_op ts op)).
    specialize (Hp (j - zlen (place_of_op ts op)) p). rewrite Hp; [do 2 f_equal; lia|].
    rewrite zget_lookup in Hj |- * by lia. rewrite lookup_app_r in Hj by (unfold zlen in *; lia).
    rewrite <- Hj. f_equal. unfold zlen. lia.
Qed.
End run.

(** *** Asking *)

Lemma hint_loop_spec ts k t n i l :
  table_rep ts k t → 0 ≤ i → i + Z.of_nat n = M →
  hint_loop t None n i l =
  Some (reverse ((λ j, SegHint j (Z.min N (zlen (trows ts) - j * N))) <$> seqZ i (Z.max 0 (k - i))) ++ l).
Proof.
  intros Ht. revert i l. induction n as [|n IH]; intros i l Hi HiM; cbn [hint_loop].
  { pose proof (tr_k _ _ _ Ht). replace (Z.max 0 (k - i)) with 0 by lia. done. }
  destruct (decide (i < k)) as [Hik|Hik].
  - destruct (tr_open _ _ _ Ht i ltac:(lia)) as (seg & st & Hg & Hr & Hma & _).
    rewrite (has_flag_segment t i seg _ Hg), (sr_flag _ _ _ _ _ _ Hr), (ma_init _ _ _ Hma). cbn [mbind option_bind].
    simpl negb. cbv iota. rewrite Hg. cbn [mbind option_bind in_time].
    rewrite (sr_rows _ _ _ _ _ _ Hr), (ma_rows _ _ _ Hma), IH by lia. f_equal.
    replace (Z.max 0 (k - i)) with (Z.succ (Z.max 0 (k - (i + 1)))) by lia.
    rewrite (seqZ_cons i) by lia. rewrite Z.pred_succ, fmap_cons, reverse_cons, <- app_assoc. done.
  - rewrite (closed_flag ts k t i _ Ht) by lia. cbn [mbind option_bind]. simpl negb. cbv iota. rewrite IH by lia.
    replace (Z.max 0 (k - i)) with 0 by lia. by replace (Z.max 0 (k - (i + 1))) with 0 by lia.
Qed.

(** The nodes for the segments, the last one first. *)
Definition hints ts (k : Z) : list segment_hint :=
  reverse ((λ j, SegHint j (Z.min N (zlen (trows ts) - j * N))) <$> seqZ 0 k).

Lemma seghint_spec ts k t : table_rep ts k t → table_seghint_query t None = Some (Ptr (hints ts k)).
Proof.
  intros Ht. pose proof (tr_k _ _ _ Ht). unfold table_seghint_query. rewrite (tr_del _ _ _ Ht), (tr_max _ _ _ Ht).
  rewrite (hint_loop_spec ts k) by (done || lia). cbn [mbind option_bind]. rewrite app_nil_r.
  by replace (Z.max 0 (k - 0)) with k by lia.
Qed.

(** The answer of segment [i]. *)
Definition answers ts (name : list Z) (data : low_data_struct) (q : segment_query_rowids) : Prop :=
  rows_ok N (rowids q) ∧ ids (rowids q) = docs_of (tkeys ts name (sid q)) (key_of get_hash_value data).

Lemma equal_loop_spec ts k t name data l acc :
  table_rep ts k t → name ∈ tcols ts → key_of get_hash_value data ≠ Some nh →
  Forall (λ p, 0 ≤ hint_sid p < k) l →
  ∃ rs, equal_loop get_hash_value t (Field name data) HI_KEY_ALG_HASH l acc = Some (rs ++ acc) ∧
    sid <$> rs = reverse (hint_sid <$> l) ∧ Forall (answers ts name data) rs.
Proof.
  intros Ht Hin Hk. revert acc. induction l as [|p l IH]; intros acc Hl; [by exists []|].
  apply Forall_cons in Hl as [Hp Hl]. cbn [equal_loop].
  destruct (tr_open _ _ _ Ht (hint_sid p) Hp) as (seg & st & Hg & Hr & Hma & _). rewrite Hg. cbn [mbind option_bind].
  destruct (tr_names _ _ _ Ht) as (_ & Hnm & _).
  destruct (index_query_spec get_hash_value nh N Hmax (tcols ts) Hnm fits st seg name data Hr Hin Hk) as (s & r & Hs & -> & Hrows & Hids).
  cbn [mbind option_bind]. destruct (ma_fields _ _ _ Hma name Hin) as (s' & Hs' & Hlive & _).
  assert (s' = s) as -> by congruence.
  destruct (IH (SegRowids (hint_sid p) r :: acc) Hl) as (rs & -> & Hsid & Hall).
  exists (rs ++ [SegRowids (hint_sid p) r]). rewrite <- app_assoc. split; [done|]. split.
  - rewrite fmap_app, Hsid. cbn [fmap list_fmap sid]. by rewrite reverse_cons.
  - apply Forall_app. split; [done|]. constructor; [|constructor]. split; cbn [rowids sid]; [done|]. by rewrite <- Hlive.
Qed.

Lemma equal_query_table ts k t name data :
  table_rep ts k t → name ∈ tcols ts → key_of get_hash_value data ≠ Some nh →
  ∃ l, table_index_equal_query get_hash_value t (hints ts k) (Field name data) = Some (Ptr l) ∧ sid <$> l = seqZ 0 k ∧
    Forall (answers ts name data) l.
Proof.
  intros Ht Hin Hk. unfold table_index_equal_query, index_equal_query. rewrite (tr_del _ _ _ Ht). cbn [field_name].
  rewrite (supports_spec (tcols ts)) by apply Ht. cbn [mbind option_bind]. rewrite bool_decide_eq_true_2 by done.
  simpl negb. cbv iota.
  destruct (equal_loop_spec ts k t name data (hints ts k) [] Ht Hin Hk) as (rs & -> & Hsid & Hall).
  { apply Forall_forall. intros p Hp. unfold hints in Hp. rewrite elem_of_reverse in Hp.
    apply list_elem_of_fmap in Hp as (j & -> & Hj%elem_of_seqZ). cbn. lia. }
  cbn [mbind option_bind]. rewrite app_nil_r. exists rs. split; [done|]. split; [|done].
  rewrite Hsid. unfold hints. rewrite fmap_reverse, reverse_involutive, <- list_fmap_compose. apply list_fmap_id.
Qed.

(** *** Asking with a time condition *)

(** The nodes for the segments [js], the last one first. *)
Definition hints_in ts (js : list Z) : list segment_hint :=
  reverse ((λ j, SegHint j (Z.min N (zlen (trows ts) - j * N))) <$> js).

(** The segment was changed after the first hint and made before the second. *)
Definition hinted t (tc : option (Z * Z)) (j : Z) : bool :=
  match get_segment t j with Some segment => in_time (meta segment) tc | None => false end.

Lemma hint_loop_in ts k t tc n i l :
  table_rep ts k t → 0 ≤ i → i + Z.of_nat n = M →
  hint_loop t tc n i l = Some (hints_in ts (filter (λ j, hinted t tc j = true) (seqZ i (Z.max 0 (k - i)))) ++ l).
Proof.
  intros Ht. revert i l. induction n as [|n IH]; intros i l Hi HiM; cbn [hint_loop].
  { pose proof (tr_k _ _ _ Ht). replace (Z.max 0 (k - i)) with 0 by lia. done. }
  destruct (decide (i < k)) as [Hik|Hik].
  - destruct (tr_open _ _ _ Ht i ltac:(lia)) as (seg & st & Hg & Hr & Hma & _).
    rewrite (has_flag_segment t i seg _ Hg), (sr_flag _ _ _ _ _ _ Hr), (ma_init _ _ _ Hma). cbn [mbind option_bind].
    simpl negb. cbv iota. rewrite Hg. cbn [mbind option_bind]. cbv zeta.
    rewrite (sr_rows _ _ _ _ _ _ Hr), (ma_rows _ _ _ Hma), IH by lia. f_equal.
    replace (Z.max 0 (k - i)) with (Z.succ (Z.max 0 (k - (i + 1)))) by lia. rewrite (seqZ_cons i) by lia. rewrite Z.pred_succ.
    assert (hinted t tc i = in_time (meta seg) tc) as Eh by (unfold hinted; by rewrite Hg).
    rewrite filter_cons, Eh. unfold hints_in. replace (Z.succ i) with (i + 1) by lia.
    destruct (in_time (meta seg) tc); [rewrite decide_True by done|rewrite decide_False by done; done].
    by rewrite fmap_cons, reverse_cons, <- app_assoc.
  - rewrite (closed_flag ts k t i _ Ht) by lia. cbn [mbind option_bind]. simpl negb. cbv iota. rewrite IH by lia.
    replace (Z.max 0 (k - i)) with 0 by lia. by replace (Z.max 0 (k - (i + 1))) with 0 by lia.
Qed.

Lemma seghint_in ts k t tc :
  table_rep ts k t → table_seghint_query t tc = Some (Ptr (hints_in ts (filter (λ j, hinted t tc j = true) (seqZ 0 k)))).
Proof.
  intros Ht. pose proof (tr_k _ _ _ Ht). unfold table_seghint_query. rewrite (tr_del _ _ _ Ht), (tr_max _ _ _ Ht).
  rewrite (hint_loop_in ts k) by (done || lia). cbn [mbind option_bind]. rewrite app_nil_r. by replace (Z.max 0 (k - 0)) with k by lia.
Qed.

Lemma equal_query_in ts k t name data js :
  table_rep ts k t → name ∈ tcols ts → key_of get_hash_value data ≠ Some nh → Forall (λ j, 0 ≤ j < k) js →
  ∃ l, table_index_equal_query get_hash_value t (hints_in ts js) (Field name data) = Some (Ptr l) ∧ sid <$> l = js ∧
    Forall (answers ts name data) l.
Proof.
  intros Ht Hin Hk Hjs. unfold table_index_equal_query, index_equal_query. rewrite (tr_del _ _ _ Ht). cbn [field_name].
  rewrite (supports_spec (tcols ts)) by apply Ht. cbn [mbind option_bind]. rewrite bool_decide_eq_true_2 by done.
  simpl negb. cbv iota.
  destruct (equal_loop_spec ts k t name data (hints_in ts js) [] Ht Hin Hk) as (rs & -> & Hsid & Hall).
  { apply Forall_forall. intros p Hp. unfold hints_in in Hp. rewrite elem_of_reverse in Hp.
    apply list_elem_of_fmap in Hp as (j & -> & Hj). cbn. by apply (proj1 (Forall_forall _ _) Hjs). }
  cbn [mbind option_bind]. rewrite app_nil_r. exists rs. split; [done|]. split; [|done].
  rewrite Hsid. unfold hints_in. rewrite fmap_reverse, reverse_involutive, <- list_fmap_compose. apply list_fmap_id.
Qed.

(** No column has a filter index. *)
Lemma access_table ts k t name : table_rep ts k t → check_index t name HI_KEY_ALG_FILTER = Some None.
Proof.
  intros Ht. unfold check_index. rewrite (find_column_spec (tcols ts) t name) by apply Ht. cbn [mbind option_bind]. by case_decide.
Qed.

Lemma row_table ts k t n fs :
  table_rep ts k t → (trows ts)⟦n⟧ = Some fs →
  table_data_query_row t (n / N) (n `mod` N) = Some (Ptr (Row fs (zlen fs))).
Proof.
  intros Ht Hn. pose proof (zget_Some_range _ _ _ Hn) as Hr0. pose proof (place_open ts k t n Ht Hr0) as Hi.
  pose proof (tr_k _ _ _ Ht) as (Hk & _). destruct (place_of n) as (En & Hd & _); [lia|].
  unfold table_data_query_row, open_segment. rewrite (tr_del _ _ _ Ht), (tr_raw _ _ _ Ht), (tr_max _ _ _ Ht), geb_false by lia. simpl.
  destruct (tr_open _ _ _ Ht (n / N) Hi) as (seg & st & Hg & Hr & Hma & _).
  rewrite (has_flag_segment t _ seg _ Hg), (sr_flag _ _ _ _ _ _ Hr), (ma_init _ _ _ Hma). cbn [mbind option_bind]. simpl.
  rewrite Hg. cbn [mbind option_bind]. rewrite (row_query_spec nh N (tcols ts) fits st seg) by done.
  rewrite (ma_docs _ _ _ Hma) by done. rewrite En, Hn. done.
Qed.

Lemma deleted_table ts k t n :
  table_rep ts k t → 0 ≤ n < zlen (trows ts) →
  table_is_docid_deleted t (n / N) (n `mod` N) = Some (if tgone ts n then 1 else 0).
Proof.
  intros Ht Hn. pose proof (place_open ts k t n Ht Hn) as Hi. destruct (place_of n) as (En & Hd & _); [lia|].
  unfold table_is_docid_deleted. rewrite (tr_del _ _ _ Ht).
  destruct (tr_open _ _ _ Ht (n / N) Hi) as (seg & st & Hg & Hr & Hma & _).
  rewrite (has_flag_segment t _ seg _ Hg), (sr_flag _ _ _ _ _ _ Hr), (ma_init _ _ _ Hma). cbn [mbind option_bind]. simpl.
  rewrite Hg. cbn [mbind option_bind]. rewrite (deleted_spec nh N (tcols ts) fits st seg) by done.
  rewrite (ma_there _ _ _ Hma) by by apply (place_row ts k t). rewrite En. by destruct (tgone ts n).
Qed.

(** *** Counting *)

(** The documents below [n] that are there. *)
Definition live_docs ts (n : Z) : Z := count_there (λ m, negb (tgone ts m)) n.

Lemma filter_shift (p q : Z → bool) a m :
  (∀ d, 0 ≤ d < m → p d = q (a + d)) →
  zlen (filter (λ d, p d = true) (seqZ 0 m)) = zlen (filter (λ d, q d = true) (seqZ a m)).
Proof.
  destruct (decide (0 ≤ m)) as [Hm|Hm]; [|by rewrite !seqZ_nil by lia]. pattern m. revert m Hm.
  apply natlike_ind; [done|]. intros m Hm IH H. rewrite <- Z.add_1_r, !seqZ_app, !filter_app, !zlen_app by lia.
  rewrite IH by (intros d Hd; apply H; lia). f_equal. change (seqZ (0 + m) 1) with [0 + m]. change (seqZ (a + m) 1) with [a + m].
  rewrite !filter_cons, !filter_nil, Z.add_0_l, H by lia. by destruct (decide (q (a + m) = true)).
Qed.

Lemma segment_live ts k t i seg st :
  table_rep ts k t → 0 ≤ i < k → seg_rep nh N (tcols ts) fits st seg → seg_matches ts i st →
  0 ≤ ddels st ≤ drows st ∧ drows st - ddels st = live_docs ts (i * N + drows st) - live_docs ts (i * N).
Proof.
  intros Ht Hi Hr Hma. pose proof (sr_count _ _ _ _ _ _ Hr) as Hc. rewrite (ma_fails _ _ _ Hma) in Hc.
  pose proof (sr_range _ _ _ _ _ _ Hr). pose proof (sr_pos _ _ _ _ _ _ Hr).
  pose proof (count_bound (there st) (drows st) ltac:(lia)). split; [lia|].
  unfold live_docs. rewrite count_app by nia. unfold count_there in Hc.
  rewrite (filter_shift (there st) (λ m, negb (tgone ts m)) (i * N) (drows st) (ma_there _ _ _ Hma)) in Hc. lia.
Qed.

(** A number that every segment adds, as the difference of a running total. *)
Lemma sum_loop_spec ts k t num (F : Z → Z) j n s :
  table_rep ts k t → 0 ≤ j → j + Z.of_nat n ≤ k →
  (∀ i seg st, 0 ≤ i < k → get_segment t i = Some seg → seg_rep nh N (tcols ts) fits st seg → seg_matches ts i st →
     num (meta seg) = F (i + 1) - F i) →
  (∀ i, 0 ≤ i ≤ k → 0 ≤ F i) → (∀ i, 0 ≤ i < k → F i ≤ F (i + 1)) → 0 ≤ s → s + F (j + Z.of_nat n) < 2 ^ 63 →
  sum_loop t num (reverse ((λ i, SegHint i (Z.min N (zlen (trows ts) - i * N))) <$> seqZ j (Z.of_nat n))) s
  = Some (s + (F (j + Z.of_nat n) - F j)).
Proof.
  intros Ht Hj Hn Hnum HF Hmono. revert s Hn. induction n as [|n IH]; intros s Hn Hs Hmax'.
  { cbn [sum_loop]. f_equal. replace (j + Z.of_nat 0) with j by lia. lia. }
  replace (Z.of_nat (Datatypes.S n)) with (Z.of_nat n + 1) by lia. rewrite seqZ_app, fmap_app, reverse_app by lia.
  set (i := j + Z.of_nat n). change (seqZ i 1) with [i]. cbn [fmap list_fmap]. rewrite reverse_singleton. cbn [app sum_loop hint_sid].
  destruct (tr_open _ _ _ Ht i ltac:(lia)) as (seg & st & Hg & Hr & Hma & _). rewrite (get_segment_meta t i seg Hg).
  cbn [mbind option_bind]. pose proof (ma_init _ _ _ Hma) as Hi. rewrite <- (sr_flag _ _ _ _ _ _ Hr) in Hi. unfold flag_on in Hi.
  destruct (Z.land (seg_flag (meta seg)) SEGMENT_INIT =? 0); [done|]. rewrite (Hnum i seg st ltac:(lia) Hg Hr Hma).
  pose proof (HF i ltac:(lia)). pose proof (Hmono i ltac:(lia)).
  replace (j + Z.of_nat (Datatypes.S n)) with (i + 1) in Hmax' by lia.
  assert (s64 (s + (F (i + 1) - F i)) = s + (F (i + 1) - F i)) as -> by (unfold s64; rewrite Z.mod_small; lia).
  rewrite IH by (fold i; lia). f_equal. fold i. replace (j + (Z.of_nat n + 1)) with (i + 1) by lia. lia.
Qed.

(** The documents of the first [i] segments. *)
Definition upto ts (i : Z) : Z := Z.min (zlen (trows ts)) (i * N).

Lemma live_step ts i :
  0 ≤ i → 0 ≤ upto ts i ≤ upto ts (i + 1) ∧ 0 ≤ live_docs ts (upto ts i) ≤ upto ts i ∧
  live_docs ts (upto ts i) ≤ live_docs ts (upto ts (i + 1)) ∧
  upto ts i - live_docs ts (upto ts i) ≤ upto ts (i + 1) - live_docs ts (upto ts (i + 1)).
Proof.
  intros Hi. pose proof (zlen_nonneg (trows ts)). assert (0 ≤ upto ts i ≤ upto ts (i + 1)) as Hu by (unfold upto; nia).
  split; [done|]. split; [apply count_bound; lia|]. unfold live_docs.
  replace (upto ts (i + 1)) with (upto ts i + (upto ts (i + 1) - upto ts i)) by lia. rewrite count_app by lia.
  set (l := filter _ (seqZ (upto ts i) _)). pose proof (zlen_nonneg l).
  assert (zlen l ≤ upto ts (i + 1) - upto ts i); [|lia]. unfold l, zlen.
  pose proof (length_filter (λ d, negb (tgone ts d) = true) (seqZ (upto ts i) (upto ts (i + 1) - upto ts i))) as H'.
  rewrite length_seqZ in H'. lia.
Qed.

Lemma numbers_table ts k t :
  table_rep ts k t → N * M < 2 ^ 63 →
  let n := zlen (trows ts) in
  table_get_record_num t (hints ts k) = Some (live_docs ts n) ∧
  table_get_delete_num t (hints ts k) = Some (n - live_docs ts n).
Proof.
  intros Ht HNM n. pose proof (tr_k _ _ _ Ht) as (Hk & Hk1 & Hk2). fold n in Hk1, Hk2. pose proof (zlen_nonneg (trows ts)) as Hn0.
  fold n in Hn0. unfold table_get_record_num, table_get_delete_num. rewrite (tr_del _ _ _ Ht). unfold hints.
  assert (upto ts (0 + k) = n ∧ upto ts 0 = 0) as [Ek E0] by (unfold upto; fold n; lia).
  pose proof (count_bound (λ m, negb (tgone ts m)) n ltac:(lia)) as Hb. fold (live_docs ts n) in Hb.
  assert (∀ i seg st, 0 ≤ i < k → get_segment t i = Some seg → seg_rep nh N (tcols ts) fits st seg → seg_matches ts i st →
    0 ≤ ddels st ≤ drows st ∧ drows st ≤ N ∧ drows st = upto ts (i + 1) - upto ts i ∧
    drows st - ddels st = live_docs ts (upto ts (i + 1)) - live_docs ts (upto ts i)) as Hseg.
  { intros i seg st Hi Hg Hr Hma. destruct (segment_live ts k t i seg st Ht Hi Hr Hma) as [Hd Hlive].
    rewrite (ma_rows _ _ _ Hma) in *. unfold upto. fold n. fold n in Hlive, Hd. split; [done|]. split; [lia|]. split; [nia|].
    rewrite Hlive. f_equal; f_equal; nia. }
  split.
  - pose proof (sum_loop_spec ts k t (λ m, u32 (row_count m - del_count m)) (λ i, live_docs ts (upto ts i)) 0 (Z.to_nat k) 0 Ht) as H.
    cbv beta in H. replace (Z.of_nat (Z.to_nat k)) with k in H by lia. rewrite Ek, E0 in H. rewrite H; clear H; try lia.
    + f_equal. change (live_docs ts 0) with 0. lia.
    + intros i seg st Hi Hg Hr Hma. destruct (Hseg i seg st Hi Hg Hr Hma) as (? & ? & ? & E).
      rewrite (sr_rows _ _ _ _ _ _ Hr), (sr_dels _ _ _ _ _ _ Hr). rewrite u32_small by lia. exact E.
    + intros i Hi. apply (live_step ts i); lia.
    + intros i Hi. apply (live_step ts i); lia.
    + nia.
  - pose proof (sum_loop_spec ts k t del_count (λ i, upto ts i - live_docs ts (upto ts i)) 0 (Z.to_nat k) 0 Ht) as H.
    cbv beta in H. replace (Z.of_nat (Z.to_nat k)) with k in H by lia. rewrite Ek, E0 in H. rewrite H; clear H; try lia.
    + f_equal. change (live_docs ts 0) with 0. lia.
    + intros i seg st Hi Hg Hr Hma. destruct (Hseg i seg st Hi Hg Hr Hma) as (? & ? & ? & E).
      rewrite (sr_dels _ _ _ _ _ _ Hr). lia.
    + intros i Hi. pose proof (live_step ts i ltac:(lia)). lia.
    + intros i Hi. apply (live_step ts i); lia.
    + nia.
Qed.
End impl.

Lemma specs_cols {S} get_hash_value N types ts (ops : list (table_io S * table_op)) :
  tcols (table_specs get_hash_value N types ts ops) = tcols ts.
Proof.
  revert ts. induction ops as [|[io op] ops IH]; intros ts; [done|]. cbn [table_specs foldl snd].
  change (foldl _ _ ops) with (table_specs get_hash_value N types (table_spec get_hash_value N types ts op) ops).
  rewrite IH. by destruct op.
Qed.

(** C10: a table is the list of its documents.  Take a new table with hash indexes on
    any columns, over any row store, for [M] segments of [N] rows, and let it go
    through any sequence of insertions, updates of columns without index,
    deletions, checkpoints, moves of full segments to shared memory, compressions
    and restarts.  Every step succeeds; the documents are placed in order, [n] at
    row [n mod N] of segment [n / N], with new segments made when needed; every
    document is read back as it was last written and is known as deleted exactly
    if it was; and a lookup of a value returns one list per segment, in the order
    of the segments, of exactly the rows that were inserted with the value,
    newest first, whether or not the segment has been compressed. *)
Theorem table_refines {S} `{!Column S, !ColumnLaws S} get_hash_value nh `{!HashLaws get_hash_value nh}
    qsort `{!QsortLaws qsort} shared junk N M types fits B0 config cols tname (io : table_io S) ops :
  0 < N → 16 * (N + 1) < 2 ^ 31 → 0 < M < 2 ^ 16 → 0 < zlen (config_dirs config) → config_segments config = M →
  config_limit config = N → config_raw config = true → NoDup cols →
  Forall (λ name, zlen name < MAX_FIELD_NAME) cols → zlen cols ≤ MAX_INDEX_FIELD_NUM → calm_io N fits B0 io →
  table_ops_ok get_hash_value nh N M types fits B0 (new_table cols) ops →
  let env := calm shared junk qsort in
  let ts := table_specs get_hash_value N types (new_table cols) ops in
  ∃ t0 t places, table_init env io config (TableMeta tname 0 0 (hash_fields types cols)) [] (replicate (Z.to_nat M) None)
                   = Some (Ptr t0) ∧
    table_run env get_hash_value config t0 ops = Some (places, t) ∧
    zlen places = zlen (trows ts) ∧ (∀ n p, places⟦n⟧ = Some p → p = (n / N, n `mod` N)) ∧
    (∀ n fs, (trows ts)⟦n⟧ = Some fs → table_data_query_row t (n / N) (n `mod` N) = Some (Ptr (Row fs (zlen fs)))) ∧
    (∀ n, 0 ≤ n < zlen (trows ts) →
       table_is_docid_deleted t (n / N) (n `mod` N) = Some (if tgone ts n then 1 else 0)) ∧
    ∀ name data, name ∈ cols → key_of get_hash_value data ≠ Some nh →
      ∃ hs l, table_seghint_query t None = Some (Ptr hs) ∧
        table_index_equal_query get_hash_value t hs (Field name data) = Some (Ptr l) ∧
        sid <$> l = seqZ 0 (segs N ts) ∧ Forall (answers get_hash_value N ts name data) l.
Proof.
  intros HN Hmax HM Hcd Hcs Hcl Hcr Hnd Hnm Hc Hio Hok env ts.
  destruct (create_table nh shared junk qsort N M ltac:(lia) ltac:(lia) types fits B0 io config cols tname)
    as (t0 & H0 & Ht0); try done.
  destruct (run_table get_hash_value nh shared junk qsort N HN Hmax M ltac:(lia) ltac:(lia) types fits B0 config Hcd Hcs Hcl Hcr
    (new_table cols) t0 ops) as (t & Hrun & Ht); [|done|].
  { replace (segs N (new_table cols)) with 0; [done|]. unfold segs. change (zlen (trows (new_table cols))) with 0. rewrite Z.div_small; lia. }
  fold ts in Ht. exists t0, t. eexists. split; [done|]. split; [exact Hrun|].
  destruct (places_spec get_hash_value N types config (new_table cols) ops) as (Hlen & Hplaces). fold ts in Hlen.
  split; [rewrite Hlen; done|]. split; [exact Hplaces|]. split; [|split].
  - intros n fs Hn. by eapply row_table.
  - intros n Hn. by eapply deleted_table.
  - intros name data Hin Hk. exists (hints N ts (segs N ts)). eapply seghint_spec in Ht as Hs; [|done|lia].
    eapply (equal_query_table get_hash_value nh) in Ht as (l & Hq & Hsid & Hall); try done; [|by unfold ts; rewrite specs_cols].
    by exists l.
Qed.

(** C19: the numbers of a table.  At any point of such a life the number of records
    that the table reports is the number of documents that are there, and the
    number of deletions that of the documents that are not. *)
Theorem table_counts {S} `{!Column S, !ColumnLaws S} get_hash_value nh `{!HashLaws get_hash_value nh}
    qsort `{!QsortLaws qsort} shared junk N M types fits B0 config cols tname (io : table_io S) ops :
  0 < N → 16 * (N + 1) < 2 ^ 31 → 0 < M < 2 ^ 16 → 0 < zlen (config_dirs config) → config_segments config = M →
  config_limit config = N → config_raw config = true → NoDup cols →
  Forall (λ name, zlen name < MAX_FIELD_NAME) cols → zlen cols ≤ MAX_INDEX_FIELD_NUM → calm_io N fits B0 io →
  table_ops_ok get_hash_value nh N M types fits B0 (new_table cols) ops →
  let env := calm shared junk qsort in
  let ts := table_specs get_hash_value N types (new_table cols) ops in
  ∃ t0 t places hs, table_init env io config (TableMeta tname 0 0 (hash_fields types cols)) [] (replicate (Z.to_nat M) None)
                      = Some (Ptr t0) ∧
    table_run env get_hash_value config t0 ops = Some (places, t) ∧ table_seghint_query t None = Some (Ptr hs) ∧
    table_get_record_num t hs = Some (zlen (filter (λ n, tgone ts n = false) (seqZ 0 (zlen (trows ts))))) ∧
    table_get_delete_num t hs = Some (zlen (filter (λ n, tgone ts n = true) (seqZ 0 (zlen (trows ts))))).
Proof.
  intros HN Hmax HM Hcd Hcs Hcl Hcr Hnd Hnm Hc Hio Hok env ts.
  destruct (create_table nh shared junk qsort N M ltac:(lia) ltac:(lia) types fits B0 io config cols tname)
    as (t0 & H0 & Ht0); try done.
  destruct (run_table get_hash_value nh shared junk qsort N HN Hmax M ltac:(lia) ltac:(lia) types fits B0 config Hcd Hcs Hcl Hcr
    (new_table cols) t0 ops) as (t & Hrun & Ht); [|done|].
  { replace (segs N (new_table cols)) with 0; [done|]. unfold segs. change (zlen (trows (new_table cols))) with 0.
    rewrite Z.div_small; lia. }
  fold ts in Ht. exists t0, t. eexists _, (hints N ts (segs N ts)). split; [done|]. split; [exact Hrun|].
  split; [eapply seghint_spec in Ht as Hs; [exact Hs|done|lia]|].
  destruct (numbers_table nh N HN Hmax M ltac:(lia) ltac:(lia) types fits B0 ts _ t Ht) as [H1 H2]; [nia|]. rewrite H1, H2. set (n := zlen (trows ts)).
  pose proof (zlen_nonneg (trows ts)) as Hn0. fold n in Hn0.
  assert (live_docs ts n = zlen (filter (λ m, tgone ts m = false) (seqZ 0 n))) as E.
  { unfold live_docs, count_there. f_equal. apply filter_ext_in. intros m _. by destruct (tgone ts m). }
  split; [by rewrite E|]. f_equal. rewrite E.
  pose proof (filter_lengths (λ m, tgone ts m) (seqZ 0 n)) as Hl. rewrite length_seqZ in Hl. unfold zlen. lia.
Qed.

(** *** A concrete table *)

Definition demo_doc (x : Z) : list field := [Field [97] (byte_value x); Field [110] (LowData HI_TYPE_STRING [65; 66] 2)].

Definition demo_io (vs : vstorage_manager) : table_io vstorage_manager :=
  TableIo 100 true true true true true (λ _, true) (Some vs) demo_pool HI_TYPE_MAX true true true true true.

Definition demo_config : table_config := TableConfig [[47]] 3 10 2 true.

(** Two rows per segment; the first segment is compressed before the third document is
    changed, and the table is restarted twice. *)
Definition demo_table_ops : list table_op :=
  [TInsert (demo_doc 3); TInsert (demo_doc 9); TMmapSwitch 0; TInsert (demo_doc 3); TDelete 0; TCompress; TRestart;
   TUpdate 2 (Field [110] (LowData HI_TYPE_STRING [67] 1)); TCheckpoint; TInsert (demo_doc 3); TRestart].

Definition demo_run (vs : vstorage_manager) : list (table_io vstorage_manager * table_op) :=
  (λ op, (demo_io vs, op)) <$> demo_table_ops.

Lemma demo_table_store :
  ∃ vs, vstorage_init true false 0 [] [] 2 = Ptr vs ∧ new_store 2 demo_fits vs ∧ col_size vs = 0.
Proof.
  destruct (vstorage_init_empty false 2) as (vs & Hi & Hw & Hl & Hwd & Hf & Hnone); [lia|lia|].
  exists vs. split; [done|]. unfold new_store, col_val, col_fits, col_size; cbn [vstorage_ColumnLaws].
  rewrite Hf, Hwd. split; [|done]. split; [done|]. split; [done|]. split; [|done]. intros d Hd. by rewrite Hnone.
Qed.

Lemma demo_calm vs : new_store 2 demo_fits vs → col_size vs = 0 → calm_io 2 demo_fits 0 (demo_io vs).
Proof. intros Hs Hz. split; try done. exists vs. split; [done|]. split; [done|]. by rewrite Hz. Qed.

Ltac demo_fields := split; [vm_compute; reflexivity|repeat constructor; vm_compute; done|vm_compute; reflexivity].

Ltac demo_table_op :=
  match goal with
  | |- table_op_ok _ _ _ _ _ _ _ _ _ (TInsert _) =>
      split; [vm_compute; reflexivity|]; split;
      [split; [demo_fields|]; repeat split; vm_compute; done|];
      split; [vm_compute; repeat constructor; set_solver|];
      intros f Hf _ _ _; vm_compute in Hf; set_unfold in Hf; destruct Hf as [->|[->|[]]]; vm_compute; done
  | |- table_op_ok _ _ _ _ _ _ _ _ _ (TUpdate _ _) =>
      split; [vm_compute; done|]; split; [vm_compute; set_solver|]; split; [demo_fields|]; repeat split; vm_compute; done
  | |- _ => vm_compute; repeat split; done
  end.

Lemma demo_run_ok vs :
  new_store 2 demo_fits vs → col_size vs = 0 →
  table_ops_ok demo_hash 77 2 3 demo_types demo_fits 0 (new_table [[97]]) (demo_run vs).
Proof.
  intros Hs Hz. pose proof (demo_calm vs Hs Hz) as Hio. unfold demo_run, demo_table_ops. cbn [fmap list_fmap].
  repeat (refine (conj Hio _); refine (conj _ _); [demo_table_op|]). done.
Qed.

Lemma table_refines_witness :
  ∃ vs t0 t places hs l, vstorage_init true false 0 [] [] 2 = Ptr vs ∧
    table_init (calm false 0 merge_qsort) (demo_io vs) demo_config (TableMeta [116] 0 0 (hash_fields demo_types [[97]])) []
      (replicate 3 None) = Some (Ptr t0) ∧
    table_run (calm false 0 merge_qsort) demo_hash demo_config t0 (demo_run vs) = Some (places, t) ∧ zlen places = 4 ∧
    table_is_docid_deleted t 0 0 = Some 1 ∧
    table_data_query_row t 1 0 = Some (Ptr (Row [Field [97] (byte_value 3); Field [110] (LowData HI_TYPE_STRING [67] 1)] 2)) ∧
    table_seghint_query t None = Some (Ptr hs) ∧
    table_index_equal_query demo_hash t hs (Field [97] (byte_value 3)) = Some (Ptr l) ∧ sid <$> l = [0; 1].
Proof.
  destruct demo_table_store as (vs & Hvs & Hst & Hsz).
  destruct (table_refines demo_hash 77 (HashLaws0:=demo_hash_laws) merge_qsort (QsortLaws0:=merge_qsort_laws)
    false 0 2 3 demo_types demo_fits 0 demo_config [[97]] [116] (demo_io vs) (demo_run vs))
    as (t0 & t & places & H0 & Hrun & Hlen & Hpl & Hrow & Hdel & Hq);
    [lia|lia|lia|vm_compute; reflexivity|reflexivity|reflexivity|reflexivity|repeat constructor; set_solver|repeat constructor
    |vm_compute; discriminate|by apply demo_calm|by apply demo_run_ok|].
  destruct (Hq [97] (byte_value 3)) as (hs & l & Hhs & Hl & Hsid & _); [left|vm_compute; discriminate|].
  exists vs, t0, t, places, hs, l. split; [exact Hvs|]. split; [exact H0|]. split; [exact Hrun|].
  split; [rewrite Hlen; vm_compute; reflexivity|].
  split; [apply (Hdel 0); vm_compute; done|]. split; [apply (Hrow 2); vm_compute; reflexivity|].
  split; [exact Hhs|]. split; [exact Hl|]. rewrite Hsid. vm_compute. reflexivity.
Defined.

Lemma table_counts_witness :
  ∃ vs t0 t places hs, vstorage_init true false 0 [] [] 2 = Ptr vs ∧
    table_init (calm false 0 merge_qsort) (demo_io vs) demo_config (TableMeta [116] 0 0 (hash_fields demo_types [[97]])) []
      (replicate 3 None) = Some (Ptr t0) ∧
    table_run (calm false 0 merge_qsort) demo_hash demo_config t0 (demo_run vs) = Some (places, t) ∧
    table_seghint_query t None = Some (Ptr hs) ∧ table_get_record_num t hs = Some 3 ∧ table_get_delete_num t hs = Some 1.
Proof.
  destruct demo_table_store as (vs & Hvs & Hst & Hsz).
  destruct (table_counts demo_hash 77 (HashLaws0:=demo_hash_laws) merge_qsort (QsortLaws0:=merge_qsort_laws)
    false 0 2 3 demo_types demo_fits 0 demo_config [[97]] [116] (demo_io vs) (demo_run vs))
    as (t0 & t & places & hs & H0 & Hrun & Hhs & Hr & Hd);
    [lia|lia|lia|vm_compute; reflexivity|reflexivity|reflexivity|reflexivity|repeat constructor; set_solver|repeat constructor
    |vm_compute; discriminate|by apply demo_calm|by apply demo_run_ok|].
  exists vs, t0, t, places, hs. split; [exact Hvs|]. split; [exact H0|]. split; [exact Hrun|]. split; [exact Hhs|].
  split; [exact Hr|exact Hd].
Defined.
