(* ===== verification/TableIndexSpec.v ===== *)
(** * Making an index on an empty table

    [table_ensure_index] on a table without documents adds the column: later
    documents are indexed under it. *)

From Stdlib Require Import ZArith Lia.
From stdpp Require Import base option list numbers gmap sets.
From S2P Require Import Prelude StringMap LowData HashIndex HashIndexSpec HashMemCompress Column RowData IndexField IndexFieldSpec Segment SegmentSpec Table TableSpec.

Definition add_column (ts : table_state) (col : list Z) : table_state :=
  TState (tcols ts ++ [col]) (trows ts) (tgone ts) (tkeys ts) (tbytes ts).

Section ensure_index.
Context {S : Type} `{!Column S, !ColumnLaws S}.
Context (env : field_env) (get_hash_value : low_data_struct → Z) (nh N M : Z) (HM : 0 < M).
Context (types : list Z → field_types) (fits : Z → Prop) (B0 : Z).
Implicit Types (t : table_manager S) (ts : table_state) (io : table_io S).

Abbreviation rep := (table_rep nh N M types fits B0) (only parsing).
Abbreviation hash_columns := (hash_fields types) (only parsing).

(** *** Tables without segments *)

(** The list of columns is not looked at while no segment is open. *)
Lemma has_flag_index t l i w : has_flag (set_index_meta t l) i w = has_flag t i w.
Proof. done. Qed.

Lemma for_segments_index t l call n i :
  (∀ j, has_flag t j SEGMENT_INIT = Some false ∨ ¬ (i ≤ j < i + Z.of_nat n)) →
  for_segments (set_index_meta t l) call n i = Some (set_index_meta t l).
Proof.
  revert i. induction n as [|n IH]; intros i H; [done|]. cbn [for_segments]. rewrite has_flag_index.
  destruct (H i) as [->|?]; [|lia]. cbn [mbind option_bind]. apply IH. intros j. destruct (H j); [by left|right; lia].
Qed.

Lemma index_full_index t l io cur alg ty name n i :
  (∀ j, has_flag t j SEGMENT_FULL = Some false ∨ ¬ (i ≤ j < i + Z.of_nat n)) →
  index_full_segments env get_hash_value io (set_index_meta t l) cur alg ty name n i = Some (set_index_meta t l).
Proof.
  revert i. induction n as [|n IH]; intros i H; [done|]. cbn [index_full_segments]. rewrite has_flag_index.
  destruct (H i) as [->|?]; [|lia]. cbn [mbind option_bind]. apply IH. intros j. destruct (H j); [by left|right; lia].
Qed.

Lemma closed_all ts t w i n j :
  rep ts 0 t → 0 ≤ i → i + n = M → has_flag t j w = Some false ∨ ¬ (i ≤ j < i + n).
Proof.
  intros Ht Hi Hn. destruct (decide (0 ≤ j < M)) as [Hj|]; [left|right; lia].
  by apply (closed_flag _ _ _ _ _ _ ts 0 t j _ Ht).
Qed.

(** *** Columns *)

Lemma column_of_none cols name i : name ∉ cols → column_of (hash_columns cols) name i = None.
Proof.
  revert i. induction cols as [|c cols IH]; intros i Hn; [done|]. apply not_elem_of_cons in Hn as [Hne Hn].
  cbn. rewrite bool_decide_eq_false_2 by done. by apply IH.
Qed.

Lemma column_of_some cols name i :
  name ∈ cols → ∃ j, column_of (hash_columns cols) name i = Some (j, column_meta types name).
Proof.
  revert i. induction cols as [|c cols IH]; intros i Hin; [by apply elem_of_nil in Hin|]. cbn. case_bool_decide as E.
  - subst. by eexists.
  - apply elem_of_cons in Hin as [->|Hin]; [done|]. by apply IH.
Qed.

Lemma hash_fields_snoc cols col : hash_columns (cols ++ [col]) = hash_columns cols ++ [column_meta types col].
Proof. unfold hash_fields. by rewrite fmap_app. Qed.

Lemma entries_few {V} (h : string_map V) kvs (cols : list (list Z)) :
  holds_entries h kvs → (∀ name, is_Some (entry_map kvs !! name) → name ∈ cols) → zlen kvs ≤ zlen cols.
Proof.
  intros Hh Hdom. rewrite <- (entries_size kvs) by apply Hh. unfold zlen. apply inj_le.
  rewrite <- (size_dom (D := gset (list Z)) (entry_map kvs)).
  transitivity (size (list_to_set cols : gset (list Z))).
  - apply subseteq_size. intros name Hn. apply elem_of_list_to_set, Hdom. by apply elem_of_dom in Hn.
  - revert Hdom. clear. intros _. induction cols as [|c cols IH]; [by rewrite list_to_set_nil, size_empty|].
    rewrite list_to_set_cons, size_union_alt, size_singleton. cbn [length].
    etransitivity; [|apply le_n_S, IH]. cbn. apply le_n_S, subseteq_size. set_solver.
Qed.

(** Slots of the old list are slots of the longer one. *)
Lemma deref_longer t t' cols x r m :
  index_meta (table_meta t) = hash_columns cols → index_meta (table_meta t') = hash_columns cols ++ [x] →
  deref t r = Some m → m ≠ FieldMeta [] [] → deref t' r = Some m.
Proof.
  intros E E' H Hne. destruct r as [m'|j]; cbn [deref] in *; [done|]. destruct (_ && _) eqn:Eb; [|done].
  rewrite E in H. rewrite E'. injection H as <-. f_equal.
  destruct ((hash_columns cols)⟦j⟧) as [m|] eqn:Ej; [|done]. pose proof (zget_Some_range _ _ _ Ej).
  cbn [default option.from_option]. unfold id. rewrite zget_lookup in Ej |- * by lia.
  rewrite lookup_app_l by (unfold zlen in *; lia). by rewrite Ej.
Qed.

Lemma ensure_index_again ts k t io col :
  rep ts k t → col ∈ tcols ts →
  table_ensure_index env get_hash_value io t col HI_KEY_ALG_HASH (types col) = Some (0, t).
Proof.
  intros Ht Hin. destruct (tr_names _ _ _ _ _ _ _ _ _ Ht) as (_ & Hnm & _).
  unfold table_ensure_index, index_field_name. rewrite bool_decide_eq_false_2 by done. cbv zeta.
  rewrite List.Forall_forall in Hnm. rewrite (proj2 (Z.ltb_lt _ _)) by (by apply Hnm, list_elem_of_In).
  cbn [mbind option_bind]. rewrite (tr_meta _ _ _ _ _ _ _ _ _ Ht).
  destruct (column_of_some (tcols ts) col 0 Hin) as (j & ->). done.
Qed.

Lemma ensure_index_table ts t io col :
  rep ts 0 t → col ∉ tcols ts → zlen col < MAX_FIELD_NAME → zlen (tcols ts) < MAX_INDEX_FIELD_NUM →
  ∃ t', table_ensure_index env get_hash_value io t col HI_KEY_ALG_HASH (types col) = Some (0, t') ∧
    rep (add_column ts col) 0 t' ∧ table_name (table_meta t') = table_name (table_meta t).
Proof.
  intros Ht Hnew Hlen Hroom. pose proof Ht as []. set (cols := tcols ts) in *. set (i := zlen cols).
  assert (0 ≤ i) as Hi0 by apply zlen_nonneg.
  unfold table_ensure_index, index_field_name. rewrite bool_decide_eq_false_2 by done. cbv zeta.
  rewrite (proj2 (Z.ltb_lt _ _)) by done. cbn [mbind option_bind]. rewrite tr_meta.
  rewrite column_of_none by done. assert (zlen (hash_columns cols) = i) as Hl by (unfold hash_fields; by rewrite zlen_fmap).
  rewrite Hl, (proj2 (Z.leb_gt _ _)) by done.
  set (x0 := FieldMeta col [IndexStat HI_KEY_ALG_HASH (types col) 0]).
  (* no segment is looked at *)
  unfold table_build_index. cbv zeta.
  assert (segment_current (table_meta (set_index_meta t (hash_columns cols ++ [x0]))) = 0) as -> by (cbn; rewrite tr_cur; done).
  rewrite has_flag_index, (closed_flag _ _ _ _ _ _ ts 0 t 0 _ Ht) by lia. cbn [mbind option_bind].
  simpl negb. cbv iota. change (max_segment_num (set_index_meta t _)) with (max_segment_num t). rewrite tr_max.
  rewrite index_full_index by (intros j; apply (closed_all ts); [done|lia|lia]). cbn [mbind option_bind]. unfold table_checkpoint.
  change (table_deleted (set_index_meta t ?l)) with (table_deleted t). rewrite tr_del.
  change (max_segment_num (set_index_meta t ?l)) with (max_segment_num t). rewrite tr_max.
  rewrite for_segments_index by (intros j; apply (closed_all ts); [done|lia|lia]). cbn [mbind option_bind].
  (* the column becomes usable *)
  assert (mark_built (set_index_meta t (hash_columns cols ++ [x0])) i HI_KEY_ALG_HASH
    = Some (set_index_meta t (hash_columns (cols ++ [col])))) as ->.
  { unfold mark_built, deref. rewrite (proj2 (Z.leb_le 0 i)), (proj2 (Z.ltb_lt i _)) by done. simpl andb. cbv iota.
    cbn [table_meta set_index_meta with_table_meta index_meta]. rewrite zget_mid by done. cbn [mbind option_bind default option.from_option x0].
    rewrite zset_in by (rewrite zlen_app, Hl; change (zlen [_]) with 1; lia). cbn [mbind option_bind].
    rewrite hash_fields_snoc. unfold set_index_meta, with_table_meta. cbn. do 3 f_equal.
    replace (Z.to_nat i) with (length (hash_columns cols) + 0)%nat by (unfold zlen in *; lia).
    by rewrite insert_app_r. }
  cbn [mbind option_bind].
  destruct tr_cols as (kvs & Hh & Hsz & Hdom & Href).
  destruct (remove_spec (index_meta_hash t) kvs col Hh) as (h1 & kvs1 & H1 & Hh1 & Hs1 & He1 & _).
  change (index_meta_hash (set_index_meta t ?l)) with (index_meta_hash t). rewrite H1. cbn [mbind option_bind].
  assert (entry_map kvs !! col = None) as Hno.
  { apply eq_None_not_Some. intros [r Hr]. apply Hnew, Hdom. by eexists. }
  rewrite delete_id in He1 by done.
  destruct (map_put_spec h1 kvs1 col (Slot i) Hh1) as (h2 & kvs2 & -> & Hh2 & Hs2 & He2).
  { rewrite Hs1, Hsz. eapply Z.le_lt_trans; [|exact Hroom]. apply (entries_few h1); [done|]. intros name. rewrite He1. apply Hdom. }
  cbn [mbind option_bind]. eexists. split; [done|]. split; [|done]. destruct tr_names as (Hnd & Hnm & _).
  split; cbn [add_column tcols trows tgone tkeys tbytes with_hash set_index_meta with_table_meta storage_dirs table_meta
    max_segment_num table_limit store_raw segments segment_meta seg_dirs index_meta segment_current]; try done.
  - exists kvs2. cbn [index_meta_hash with_hash]. split; [done|]. split; [congruence|]. rewrite He2, He1. split.
    + intros name. rewrite elem_of_app, list_elem_of_singleton. destruct (decide (name = col)) as [->|Hne].
      * rewrite lookup_insert_eq. split; [by right|by eexists].
      * rewrite lookup_insert_ne by done. rewrite Hdom. naive_solver.
    + intros name r. destruct (decide (name = col)) as [->|Hne].
      * rewrite lookup_insert_eq. intros [= <-]. cbn [deref]. rewrite (proj2 (Z.leb_le 0 i)), (proj2 (Z.ltb_lt i _)) by done. simpl andb. cbv iota.
        cbn. rewrite hash_fields_snoc, zget_mid by done. done.
      * rewrite lookup_insert_ne by done. intros Hr. apply Href in Hr.
        apply (deref_longer t _ cols (column_meta types col)); [done|cbn; apply hash_fields_snoc|exact Hr|done].
  - split; [|split].
    + apply NoDup_app. split; [done|]. split; [|apply NoDup_singleton]. intros c Hc ->%list_elem_of_singleton. done.
    + apply Forall_app. by rewrite Forall_singleton.
    + rewrite zlen_app. change (zlen [col]) with 1. unfold cols in *. lia.
  - intros j Hj. lia.
Qed.
End ensure_index.

(** ** Tables outside of their contract

    Concrete runs of a table where a call fails or a value of the configuration is
    out of the ordinary. *)

From S2P Require Import Prelude FileOp StringMap Bitmark RowidList LowData HashIndex HashIndexSpec HashMemCompress Storage VStorage Column FilterIndex RowData DataField IndexField IndexFieldSpec Segment SegmentSpec Table TableSpec.

Module TableCases.
(** A table for 0 segments.  [table_init] means to take MAX_SEGMENT_NUM segments
    when the configuration says 0, but the next statement overwrites the number,
    and mapping a file of no bytes fails: the assertion on the mapping stops the
    server. *)
Theorem zero_segments_stop {S} `{!Column S} env (io : table_io S) config tm file ds :
  config_segments config = 0 → table_mkdirs io = true → table_init env io config tm file ds = None.
Proof.
  intros Hc Hd. unfold table_init. rewrite Hc, Hd. simpl negb. cbv iota zeta.
  unfold get_mmap_memory. by destruct (map_meta io).
Qed.

Definition plain_io (dirs_ok : bool) (vs : option vstorage_manager) : table_io vstorage_manager :=
  TableIo 100 true true true true true (λ _, dirs_ok) vs demo_pool HI_TYPE_MAX true true true true true.

Definition demo_vs : option vstorage_manager :=
  match vstorage_init true false 0 [] [] 2 with NULL => None | Ptr vs => Some vs end.

Definition demo_env : field_env := calm false 0 merge_qsort.

Lemma zero_segments_stop_witness :
  table_init demo_env (plain_io true demo_vs) (TableConfig [[47]] 0 10 2 true) (TableMeta [116] 0 0 []) [] [] = None.
Proof. apply zero_segments_stop; reflexivity. Defined.

(** The return codes of inserting two documents, and the table. *)
Definition two_failures : option (Z * Z * table_manager vstorage_manager) :=
  let io := plain_io false demo_vs in
  r ← table_init demo_env io demo_config (TableMeta [116] 0 0 (hash_fields demo_types [[97]])) [] (replicate 3 None);
  match r with
  | NULL => None
  | Ptr t =>
      '(_, sid, docid, t) ← table_prepare_insert demo_env io t 0 0 DOCID_BY_SELF;
      '(rc1, t) ← table_insert demo_env demo_hash io t sid docid (Row (demo_doc 3) 2);
      '(_, sid, docid, t) ← table_prepare_insert demo_env io t 0 0 DOCID_BY_SELF;
      '(rc2, t) ← table_insert demo_env demo_hash io t sid docid (Row (demo_doc 9) 2);
      Some (rc1, rc2, t)
  end.

(** What can be seen of the table: the rows and the mark of segment 0, the code of
    moving it to shared memory, its mark after a compression, and the place of the
    next document. *)
Definition after_failures : option (Z * Z * (Z * bool) * Z * bool * (Z * Z)) :=
  '(rc1, rc2, t) ← two_failures;
  m ← (segment_meta t)⟦0⟧;
  '(rc, _) ← table_mmap_switch demo_env (true, true) (true, true) (λ _, (true, true)) (λ _, (true, true)) t 0;
  '(_, t') ← table_compress demo_env t;
  packed ← has_flag t' 0 SEGMENT_COMPRESS;
  '(_, sid, docid, _) ← table_prepare_insert demo_env (plain_io false demo_vs) t 0 0 DOCID_BY_SELF;
  Some (rc1, rc2, (row_count m, flag_on (seg_flag m) SEGMENT_FULL), rc, packed, (sid, docid)).

(** A document whose indexing fails ends a segment silently.  When the indexing
    of the last document of a segment fails, the segment has all its rows but is
    not marked as full: the next insertion opens another segment, the full one is
    never moved to shared memory ([segment_mmap_switch] refuses it) nor compressed,
    and an index built later leaves it out. *)
Theorem failed_last_row_not_full :
  after_failures =
  Some (ERROR_FIELD_INIT_FAILED, ERROR_FIELD_INIT_FAILED, (config_limit demo_config, false), -1, false, (1, 0)).
Proof. vm_compute. reflexivity. Qed.

(** A table without stored rows and a filter index on its column. *)
Definition filter_without_rows : option (Z * table_manager vstorage_manager) :=
  let io := plain_io true demo_vs in
  let cols := [FieldMeta [97] [IndexStat HI_KEY_ALG_FILTER HI_TYPE_TINY 1]] in
  r ← table_init demo_env io (TableConfig [[47]] 3 10 2 false) (TableMeta [116] 0 0 cols) [] (replicate 3 None);
  match r with
  | NULL => None
  | Ptr t =>
      '(_, sid, docid, t) ← table_prepare_insert demo_env io t 0 0 DOCID_BY_SELF;
      table_insert demo_env demo_hash io t sid docid (Row [Field [97] (byte_value 3)] 1)
  end.

(** A table that does not store rows cannot be updated.  [table_update] writes
    the stored row first, also when [store_raw] is off; there is none, so that the
    update of a filter column fails and the filter keeps its value. *)
Theorem update_needs_raw :
  ('(rc, t) ← filter_without_rows;
   '(rc', old, t) ← table_update demo_hash (plain_io true demo_vs) t 0 0 (Field [97] (byte_value 7));
   v ← table_index_value_query t 0 [97] 0;
   Some (rc, rc', old, v)) =
  Some (0, ERROR_UPDATE_FAIL, NULL, Ptr (LowData HI_TYPE_TINY [3; 0; 0; 0; 0; 0; 0; 0] 8)).
Proof. vm_compute. reflexivity. Qed.
End TableCases.
