(* ===== verification/Binlog.v ===== *)
(** * The binary log ([src/storage/binlog.c], [binlog.h])

    Every change of the database is appended as a record to a log that is cut
    into files [mile-bin.log.<suffix>]; the text file [mile-bin.index] has a line
    per log file: the time of its first record, the offset of its first byte in
    the whole log, and its suffix.  The index is kept in memory as a growing
    array ([binlog_index_t]) which the writer owns; a reader refers to the index
    of the writer it follows, or loads an index of its own.

    A file descriptor is the suffix of the log file it is open on.  Calls of
    [read] and [write] may be short, be interrupted or fail: their outcomes are
    given from outside, as are the time and the outcome of the other calls. *)

From Stdlib Require Import ZArith Lia.
From stdpp Require Import base option list numbers gmap.
From S2P Require Import Prelude LowData Hash.

(** ** The directory *)

(** The text of the index file, and the log files by suffix. *)
Record binlog_files := Files { index_file : list Z; log_files : gmap Z (list Z) }.

Definition set_log (files : binlog_files) (fd : Z) (content : list Z) : binlog_files :=
  Files (index_file files) (<[fd := content]> (log_files files)).

(** The outcome of one [read] or [write] call: the number of bytes it moved (at
    least one where one is left), [EINTR], or another error. *)
Inductive sys_io := Bytes (n : Z) | Eintr | Eio.

Definition moved (n count : Z) : Z := Z.min count (Z.max 1 n).

(** [while_write] appends to the content [f] of a file opened with [O_APPEND];
    calls beyond the given outcomes move all that is left.  An interrupted call
    returns -1, which the loop adds to [done]. *)
Fixpoint while_write_loop (f buf : list Z) (count done : Z) (io : list sys_io) : option (Z * list Z) :=
  if done <? count then
    match io with
    | [] => part ← zsub buf done (count - done); Some (s64 count, f ++ part)
    | Bytes n :: io =>
        let n := moved n (count - done) in
        part ← zsub buf done n;
        while_write_loop (f ++ part) buf count (u64 (done + n)) io
    | Eintr :: io => while_write_loop f buf count (u64 (done - 1)) io
    | Eio :: _ => Some (-1, f)
    end
  else Some (s64 done, f).

Definition while_write (f buf : list Z) (count : Z) (io : list sys_io) : option (Z * list Z) :=
  while_write_loop f buf count 0 io.

Definition pread (f : list Z) (count offset : Z) : list Z :=
  take (Z.to_nat count) (drop (Z.to_nat offset) f).

(** [while_pread]: the result and the first [done] bytes of the buffer. *)
Fixpoint while_pread_loop (f acc : list Z) (count offset done : Z) (io : list sys_io) : Z * list Z :=
  if done <? count then
    match io with
    | [] =>
        let part := pread f (count - done) (offset + done) in
        (s64 (done + zlen part), acc ++ part)
    | Bytes n :: io =>
        let part := pread f (moved n (count - done)) (offset + done) in
        if zlen part =? 0 then (s64 done, acc)
        else while_pread_loop f (acc ++ part) count offset (u64 (done + zlen part)) io
    | Eintr :: io => while_pread_loop f (take (length acc - 1) acc) count offset (u64 (done - 1)) io
    | Eio :: _ => (-1, acc)
    end
  else (s64 done, acc).

Definition while_pread (f : list Z) (count offset : Z) (io : list sys_io) : Z * list Z :=
  while_pread_loop f [] count offset 0 io.

(** [open_binlog_file]: the descriptor, or whether [errno] is [ENOENT]. *)
Inductive open_result := Opened (fd : Z) | OpenFailed (enoent : bool).

Definition open_binlog_file (files : binlog_files) (suffix : Z) (creat ok : bool) : open_result * binlog_files :=
  if ok then
    match log_files files !! suffix with
    | Some _ => (Opened suffix, files)
    | None => if creat then (Opened suffix, set_log files suffix []) else (OpenFailed true, files)
    end
  else (OpenFailed false, files).

(** ** The index *)

Record binlog_file_item := Item { item_time : Z; item_abs_offset : Z; item_suffix : Z }.

(** The cells of the array that were never written are [None]. *)
Record binlog_index_t := Index {
  index_last : Z;
  index_items : ptr (list (option binlog_file_item));
  item_array_len : Z }.

(** [(uint32_t)-1], the [last] of an index without items. *)
Definition NO_ITEM : Z := 2 ^ 32 - 1.

Definition no_items (index : binlog_index_t) : bool := index_last index =? NO_ITEM.

Definition item_at (index : binlog_index_t) (i : Z) : option binlog_file_item :=
  match index_items index with NULL => None | Ptr a => mjoin (a⟦i⟧) end.

Definition last_item (index : binlog_index_t) : option binlog_file_item := item_at index (index_last index).

Definition add_item_array (index : binlog_index_t) (item : binlog_file_item) : option binlog_index_t :=
  '(items, alen) ←
    (if index_last index =? u32 (item_array_len index - 1) then
       let new_len := u32 (item_array_len index + 1024) in
       let items := replicate (Z.to_nat new_len) None in
       match index_items index with
       | NULL => Some (Ptr items, new_len)
       | Ptr old =>
           old ← zsub old 0 (item_array_len index);
           items ← zcopy items 0 old;
           Some (Ptr items, new_len)
       end
     else Some (index_items index, item_array_len index));
  match items with
  | NULL => None
  | Ptr a =>
      a ← a⟦u32 (index_last index + 1) := Some item⟧;
      Some (Index (u32 (index_last index + 1)) (Ptr a) alen)
  end.

Definition c_tab : Z := 9.
Definition c_newline : Z := 10.
Definition c_hash : Z := 35.

(** The line of an item, printed with ["%u\t%llu\t%u\n"]. *)
Definition item_text (item : binlog_file_item) : list Z :=
  dec (item_time item) ++ c_tab :: dec (item_abs_offset item) ++ c_tab :: dec (item_suffix item) ++ [c_newline].

(** The outcomes of opening and writing the index file. *)
Definition add_file_item (open_ok : bool) (io : list sys_io) (files : binlog_files) (index : binlog_index_t)
    (item : binlog_file_item) : option (Z * binlog_files * binlog_index_t) :=
  if negb open_ok then Some (-1, files, index)
  else
    let buf := item_text item in
    '(rc, text) ← while_write (index_file files) buf (zlen buf) io;
    index ← add_item_array index item;
    Some (if rc <? 0 then -1 else 0, Files text (log_files files), index).

(** [getline]: the lines of a text with their newlines. *)
Fixpoint get_lines (s line : list Z) : list (list Z) :=
  match s with
  | [] => match line with [] => [] | _ => [line] end
  | c :: s => if c =? c_newline then (line ++ [c]) :: get_lines s [] else get_lines s (line ++ [c])
  end.

(** [strtok_r] with the blanks as delimiters, up to the end of the string. *)
Fixpoint tokens (s word : list Z) : list (list Z) :=
  let flush := match word with [] => [] | _ => [word] end in
  match s with
  | [] => flush
  | c :: s =>
      if c =? 0 then flush
      else if is_space c then flush ++ tokens s [] else tokens s (word ++ [c])
  end.

Inductive line_result := BlankLine | BadLine | ItemLine (item : binlog_file_item).

Definition parse_line (line : list Z) : line_result :=
  match tokens line [] with
  | [] => BlankLine
  | p :: ps =>
      if bool_decide (head p = Some c_hash) then BlankLine
      else
        match ps with
        | q :: r :: _ => ItemLine (Item (u32 (strtoll p)) (u64 (strtoll q)) (u32 (strtoll r)))
        | _ => BadLine
        end
  end.

Fixpoint load_lines (index : binlog_index_t) (lines : list (list Z)) : option (Z * binlog_index_t) :=
  match lines with
  | [] => Some (0, index)
  | line :: lines =>
      match parse_line line with
      | BlankLine => load_lines index lines
      | BadLine => Some (-1, index)
      | ItemLine item => index ← add_item_array index item; load_lines index lines
      end
  end.

Definition load_index_file (fopen_ok : bool) (files : binlog_files) (index : binlog_index_t) : option (Z * binlog_index_t) :=
  if fopen_ok then load_lines index (get_lines (index_file files) []) else Some (-1, index).

Definition binlog_index_init (fopen_ok : bool) (files : binlog_files) : option (ptr binlog_index_t) :=
  '(rc, index) ← load_index_file fopen_ok files (Index NO_ITEM NULL 0);
  Some (if rc =? 0 then Ptr index else NULL).

(** ** Records *)

Record binlog_record := Record_ {
  rec_len : Z;
  rec_time : Z;
  rec_sid : Z;
  rec_docid : Z;
  rec_flag : Z;
  rec_op_code : Z;
  rec_data : list Z }.

(** [sizeof (struct binlog_record)], a packed structure. *)
Definition RECORD_SIZE : Z := 16.

Definition record_bytes (r : binlog_record) : list Z :=
  le_bytes 4 (rec_len r) ++ le_bytes 4 (rec_time r) ++ le_bytes 2 (rec_sid r) ++ le_bytes 4 (rec_docid r)
  ++ le_bytes 1 (rec_flag r) ++ le_bytes 1 (rec_op_code r) ++ rec_data r.

Definition OPERATION_CONFIRM_OK : Z := 0.
Definition OPERATION_CONFIRM_FAIL : Z := 1.

Definition create_binlog_record (data_len : Z) : binlog_record :=
  Record_ (u32 (data_len + RECORD_SIZE)) 0 0 0 0 0 (replicate (Z.to_nat data_len) 0).

Definition set_time (r : binlog_record) (t : Z) : binlog_record :=
  Record_ (rec_len r) t (rec_sid r) (rec_docid r) (rec_flag r) (rec_op_code r) (rec_data r).

(** The field [time] of a record in memory. *)
Definition time_of_bytes (b : list Z) : option Z := le_value <$> zsub b 4 4.
Definition len_of_bytes (b : list Z) : option Z := le_value <$> zsub b 0 4.

(** ** The writer *)

Record BL_WRITER := Writer {
  writer_max_size : Z;
  writer_fd : Z;
  sync_immediately : bool;
  writer_abs_offset : Z;
  writer_index : binlog_index_t }.

(** What the system answers to the calls of one write. *)
Record write_io := WriteIo {
  io_time : Z;
  io_fsync : bool;
  io_open_index : bool;
  io_index : list sys_io;
  io_open_log : bool;
  io_log : list sys_io }.

(** What it answers to the calls of an initialisation. *)
Record init_io := InitIo { io_fopen : bool; io_open : bool; io_lseek : bool }.

Definition binlog_writer_init (io : init_io) (files : binlog_files) (max_size : Z)
    : option (ptr BL_WRITER * binlog_files) :=
  index ← binlog_index_init (io_fopen io) files;
  match index with
  | NULL => Some (NULL, files)
  | Ptr index =>
      suffix ← (if no_items index then Some 0 else item_suffix <$> last_item index);
      let '(fd, files) := open_binlog_file files suffix true (io_open io) in
      match fd with
      | OpenFailed _ => Some (NULL, files)
      | Opened fd =>
          if negb (io_lseek io) then Some (NULL, files)
          else
            content ← log_files files !! fd;
            base ← (if no_items index then Some 0 else item_abs_offset <$> last_item index);
            Some (Ptr (Writer max_size fd false (u64 (zlen content + base)) index), files)
      end
  end.

Definition writer_goto_next (io : write_io) (files : binlog_files) (w : BL_WRITER) (time : Z)
    : option (Z * binlog_files * BL_WRITER) :=
  let is_first := no_items (writer_index w) in
  if negb is_first && negb (sync_immediately w) && negb (io_fsync io) then Some (-1, files, w)
  else
    item ←
      (if is_first then Some (Item time 0 0)
       else l ← last_item (writer_index w); Some (Item time (writer_abs_offset w) (u32 (item_suffix l + 1))));
    '(rc, files, index) ← add_file_item (io_open_index io) (io_index io) files (writer_index w) item;
    let w := Writer (writer_max_size w) (writer_fd w) (sync_immediately w) (writer_abs_offset w) index in
    if negb (rc =? 0) then Some (-1, files, w)
    else if is_first then Some (0, files, w)
    else
      let '(fd, files) := open_binlog_file files (item_suffix item) true (io_open_log io) in
      match fd with
      | OpenFailed _ => Some (-1, files, w)
      | Opened fd =>
          Some (0, files, Writer (writer_max_size w) fd (sync_immediately w) (writer_abs_offset w) (writer_index w))
      end.

(** Is the record too long for the current file? *)
Definition must_switch (w : BL_WRITER) (len : Z) : option bool :=
  if no_items (writer_index w) then Some true
  else
    l ← last_item (writer_index w);
    Some (u64 (len + writer_abs_offset w - item_abs_offset l) >? writer_max_size w).

Definition binlog_write_record (io : write_io) (files : binlog_files) (w : BL_WRITER) (record : ptr binlog_record)
    : option (Z * binlog_files * BL_WRITER) :=
  match record with
  | NULL => Some (-1, files, w)
  | Ptr record =>
      let len := rec_len record in
      let record := set_time record (u32 (io_time io)) in
      switch ← must_switch w len;
      '(rc, files, w) ←
        (if (switch : bool) then writer_goto_next io files w (rec_time record) else Some (0, files, w));
      if negb (rc =? 0) then Some (-1, files, w)
      else
        f ← log_files files !! writer_fd w;
        '(n, f) ← while_write f (record_bytes record) len (io_log io);
        let files := set_log files (writer_fd w) f in
        if n <? 0 then Some (-1, files, w)
        else
          Some (0, files, Writer (writer_max_size w) (writer_fd w) (sync_immediately w)
                            (u64 (writer_abs_offset w + len)) (writer_index w))
  end.

Definition binlog_confirm (io : write_io) (files : binlog_files) (w : BL_WRITER) (op_code : Z)
    : option (Z * binlog_files * BL_WRITER) :=
  let r := create_binlog_record 0 in
  binlog_write_record io files w
    (Ptr (Record_ (rec_len r) (rec_time r) (rec_sid r) (rec_docid r) (rec_flag r) op_code (rec_data r))).

Definition binlog_confirm_ok io files w := binlog_confirm io files w OPERATION_CONFIRM_OK.
Definition binlog_confirm_fail io files w := binlog_confirm io files w OPERATION_CONFIRM_FAIL.

(** ** The reader *)

(** The index of a reader is its own, or the one of the writer it follows. *)
Inductive reader_index := OwnIndex (index : binlog_index_t) | WriterIndex.

Record BL_READER := Reader {
  reader_max_size : Z;
  reader_fd : Z;
  reader_suffix : Z;
  reader_offset : Z;
  reader_index_ : reader_index;
  index_item_pos : Z;
  has_writer : bool }.

Definition set_offset (r : BL_READER) (offset : Z) : BL_READER :=
  Reader (reader_max_size r) (reader_fd r) (reader_suffix r) offset (reader_index_ r) (index_item_pos r) (has_writer r).

(** The index a reader sees, given the writer. *)
Definition index_of (writer : ptr BL_WRITER) (r : BL_READER) : option binlog_index_t :=
  match reader_index_ r, writer with
  | OwnIndex index, _ => Some index
  | WriterIndex, Ptr w => Some (writer_index w)
  | WriterIndex, NULL => None
  end.

(** The position as an unsigned 64-bit number. *)
Definition position (writer : ptr BL_WRITER) (r : BL_READER) : option Z :=
  index ← index_of writer r;
  base ← (if no_items index then Some 0 else item_abs_offset <$> item_at index (index_item_pos r));
  Some (u64 (base + reader_offset r)).

Definition binlog_get_position (writer : ptr BL_WRITER) (r : BL_READER) : option Z :=
  s64 <$> position writer r.

Definition binlog_check_position (writer : ptr BL_WRITER) (r : BL_READER) (absolute_offset : Z) : option Z :=
  p ← binlog_get_position writer r;
  Some (if u64 p =? absolute_offset then 1 else 0).

Definition binlog_remain_data_len (writer : ptr BL_WRITER) (r : BL_READER) : option Z :=
  if negb (has_writer r) then Some (-1)
  else
    rpos ← binlog_get_position writer r;
    match writer with NULL => None | Ptr w => Some (s64 (u64 (writer_abs_offset w - rpos))) end.

Definition binlog_is_read_all (fstat_ok : bool) (files : binlog_files) (r : BL_READER) : option Z :=
  if negb fstat_ok then Some (-1)
  else f ← log_files files !! reader_fd r; Some (if u32 (zlen f) =? reader_offset r then 1 else 0).

(** What the system answers to the calls of one [binlog_read_data]. *)
Record read_io := ReadIo { io_read : list sys_io; io_open_next : bool; io_read_next : list sys_io }.

(** Fewer than the four bytes of a record length are left to the writer. *)
Definition caught_up (writer : ptr BL_WRITER) (r : BL_READER) : option bool :=
  if has_writer r then
    rpos ← position writer r;
    match writer with NULL => None | Ptr w => Some (u64 (writer_abs_offset w - rpos) <? 4) end
  else Some false.

(** The result and the bytes placed in the buffer. *)
Definition binlog_read_data (io : read_io) (files : binlog_files) (writer : ptr BL_WRITER) (r : BL_READER)
    (data_len : Z) : option (Z * list Z * BL_READER) :=
  stop ← caught_up writer r;
  if (stop : bool) then Some (0, [], r)
  else
    f ← log_files files !! reader_fd r;
    let '(n, data) := while_pread f data_len (reader_offset r) (io_read io) in
    let n := s32 n in
    if n <? 0 then Some (-1, data, r)
    else
      let r := set_offset r (u32 (reader_offset r + n)) in
      if u32 n =? data_len then Some (n, data, r)
      else
        index ← index_of writer r;
        if (index_item_pos r =? index_last index) || no_items index then Some (n, data, r)
        else
          let data_len := u32 (data_len - n) in
          match fst (open_binlog_file files (u32 (reader_suffix r + 1)) false (io_open_next io)) with
          | OpenFailed enoent => Some (if (enoent : bool) then n else -1, data, r)
          | Opened fd =>
              let r := Reader (reader_max_size r) fd (u32 (reader_suffix r + 1)) 0 (reader_index_ r)
                         (u32 (index_item_pos r + 1)) (has_writer r) in
              f ← log_files files !! fd;
              let '(n2, data2) := while_pread f data_len 0 (io_read_next io) in
              let n2 := s32 n2 in
              if n2 <? 0 then Some (-1, data ++ data2, r)
              else Some (s32 (n + n2), data ++ data2, set_offset r (u32 n2))
          end.

(** The result and the record, as the bytes of its block; the block must hold the
    length that is stored in it. *)
Definition binlog_read_record (io : read_io * read_io) (files : binlog_files) (writer : ptr BL_WRITER) (r : BL_READER)
    : option (Z * list Z * BL_READER) :=
  '(n, lbytes, r) ← binlog_read_data (fst io) files writer r 4;
  if n <? 0 then Some (-1, [], r)
  else if negb (n =? 4) then Some (0, [], set_offset r (u32 (reader_offset r - n)))
  else
    let record_len := le_value lbytes in
    if record_len <? 4 then None
    else
      '(n, body, r) ← binlog_read_data (snd io) files writer r (record_len - 4);
      if n <? 0 then Some (-1, [], r)
      else if negb (u32 n =? record_len - 4) then Some (0, [], set_offset r (u32 (reader_offset r - (4 + n))))
      else Some (1, lbytes ++ body, r).

(** [seek_to_time]: at most [fuel] records are read. *)
Fixpoint seek_to_time (fuel : nat) (io : nat → read_io * read_io) (files : binlog_files) (writer : ptr BL_WRITER)
    (r : BL_READER) (time : Z) : option (Z * BL_READER) :=
  match fuel with
  | O => None
  | S fuel =>
      '(rc, record, r) ← binlog_read_record (io fuel) files writer r;
      if rc <? 0 then Some (-1, r)
      else if rc =? 0 then Some (0, r)
      else
        t ← time_of_bytes record;
        if t >=? time then
          len ← len_of_bytes record;
          if reader_offset r <? len then None
          else Some (0, set_offset r (u32 (reader_offset r - len)))
        else seek_to_time fuel io files writer r time
  end.

(** The loops over the index: the number of leading items that satisfy [p]. *)
Fixpoint scan_items (fuel : nat) (p : binlog_file_item → bool) (index : binlog_index_t) (i : Z) : option Z :=
  match fuel with
  | O => None
  | S fuel =>
      if i <=? index_last index then
        item ← item_at index i;
        if p item then scan_items fuel p index (u32 (i + 1)) else Some i
      else Some i
  end.

(** [if (i > 0) i--] and the suffix of item [i]. *)
Definition choose_item (p : binlog_file_item → bool) (index : binlog_index_t) : option (Z * binlog_file_item) :=
  i ← scan_items (Z.to_nat (index_last index) + 2) p index 0;
  let i := if i >? 0 then i - 1 else i in
  item ← item_at index i;
  Some (i, item).

Inductive reader_init_param_t := READER_INIT_BY_OFFSET (offset : Z) | READER_INIT_BY_TIME (time : Z).

(** The suffix, offset and item a reader starts with. *)
Definition start_at (index : binlog_index_t) (param : reader_init_param_t) : option (Z * Z * Z) :=
  match param with
  | READER_INIT_BY_OFFSET offset =>
      if no_items index then Some (0, u32 offset, 0)
      else
        '(i, item) ← choose_item (λ item, item_abs_offset item <=? offset) index;
        Some (item_suffix item, u32 (offset - item_abs_offset item), i)
  | READER_INIT_BY_TIME time =>
      if no_items index then Some (0, 0, 0)
      else
        '(i, item) ← choose_item (λ item, item_time item <? time) index;
        Some (item_suffix item, 0, i)
  end.

Definition binlog_reader_init (fuel : nat) (io : init_io) (seek_io : nat → read_io * read_io) (files : binlog_files)
    (max_size : Z) (writer : ptr BL_WRITER) (param : reader_init_param_t) : option (ptr BL_READER * binlog_files) :=
  ix ← match writer with
       | Ptr w => Some (Ptr (WriterIndex, writer_index w))
       | NULL =>
           index ← binlog_index_init (io_fopen io) files;
           Some match index with NULL => NULL | Ptr index => Ptr (OwnIndex index, index) end
       end;
  match ix with
  | NULL => Some (NULL, files)
  | Ptr (ref, index) =>
      '(suffix, offset, i) ← start_at index param;
      let '(fd, files) := open_binlog_file files suffix true (io_open io) in
      match fd with
      | OpenFailed _ => Some (NULL, files)
      | Opened fd =>
          let r := Reader max_size fd suffix offset ref i (match writer with NULL => false | Ptr _ => true end) in
          match param with
          | READER_INIT_BY_OFFSET _ => Some (Ptr r, files)
          | READER_INIT_BY_TIME time =>
              '(rc, r) ← seek_to_time fuel seek_io files writer r time;
              Some (if rc =? 0 then Ptr r else NULL, files)
          end
      end
  end.

(** No record is read when the reader is opened by offset. *)
Definition binlog_reader_init_byoffset (io : init_io) (files : binlog_files) (max_size absolute_offset : Z)
    (writer : ptr BL_WRITER) : option (ptr BL_READER * binlog_files) :=
  binlog_reader_init 0 io (λ _, (ReadIo [] true [], ReadIo [] true [])) files max_size writer
    (READER_INIT_BY_OFFSET absolute_offset).

Definition binlog_reader_init_bytime (fuel : nat) (io : init_io) (seek_io : nat → read_io * read_io)
    (files : binlog_files) (max_size time : Z) : option (ptr BL_READER * binlog_files) :=
  binlog_reader_init fuel io seek_io files max_size NULL (READER_INIT_BY_TIME time).

(** ** Serving a slave *)

Record slave_sync_res := SyncRes {
  res_len : Z; res_return_code : Z; res_offset : Z; res_remain_length : Z; res_data : list Z }.

Definition MAX_BINLOG_DATA_PER_PACKET : Z := 1024 * 512.
Definition ERROR_BINLOG_FAILED : Z := -3988.

(** The session's reader, opened anew when the slave asks for another offset. *)
Definition session_reader (io : init_io) (files : binlog_files) (max_size : Z) (writer : ptr BL_WRITER)
    (bl_reader : ptr BL_READER) (offset : Z) : option (ptr BL_READER * binlog_files) :=
  fits ← match bl_reader with
         | NULL => Some false
         | Ptr r => c ← binlog_check_position writer r offset; Some (negb (c =? 0))
         end;
  if (fits : bool) then Some (bl_reader, files)
  else
    '(r, files) ← binlog_reader_init_byoffset io files max_size offset writer;
    match r with
    | NULL => Some (NULL, files)
    | Ptr r =>
        c ← binlog_check_position writer r offset;
        if c =? 0 then None else Some (Ptr r, files)
    end.

Definition execute_slave_sync (io : init_io) (rio : read_io) (files : binlog_files) (max_size : Z)
    (writer : ptr BL_WRITER) (offset : Z) (bl_reader : ptr BL_READER)
    : option (slave_sync_res * ptr BL_READER * binlog_files) :=
  '(bl_reader, files) ← session_reader io files max_size writer bl_reader offset;
  match bl_reader with
  | NULL => Some (SyncRes 0 ERROR_BINLOG_FAILED 0 0 [], NULL, files)
  | Ptr r =>
      '(n, data, r) ← binlog_read_data rio files writer r MAX_BINLOG_DATA_PER_PACKET;
      if n <? 0 then Some (SyncRes 0 ERROR_BINLOG_FAILED 0 0 data, Ptr r, files)
      else
        remain ← binlog_remain_data_len writer r;
        pos ← binlog_get_position writer r;
        Some (SyncRes n 0 (u64 pos) (u64 remain) data, Ptr r, files)
  end.
