(* ===== verification/BinlogSpec.v ===== *)
(** * The binary log: what is written is read back

    The abstract log is the list of its records.  [chunks] cuts it into the
    records of each log file; the relations below tie the files, the index, the
    writer and the readers to it. *)

From Stdlib Require Import ZArith Lia.
From stdpp Require Import base option list numbers gmap.
From S2P Require Import Prelude LowData Hash Binlog.

(** ** Bytes *)

Definition bytes_of (rs : list binlog_record) : list Z := concat (record_bytes <$> rs).
Definition size_of (rs : list binlog_record) : Z := zlen (bytes_of rs).

Definition record_ok (r : binlog_record) : Prop :=
  rec_len r = RECORD_SIZE + zlen (rec_data r) ∧ rec_len r < 2 ^ 31 ∧ 0 ≤ rec_time r < 2 ^ 32.

Lemma zlen_record r : zlen (record_bytes r) = RECORD_SIZE + zlen (rec_data r).
Proof. unfold record_bytes, RECORD_SIZE. rewrite !zlen_app, !zlen_le_bytes. lia. Qed.

Lemma bytes_of_app a b : bytes_of (a ++ b) = bytes_of a ++ bytes_of b.
Proof. unfold bytes_of. by rewrite fmap_app, concat_app. Qed.

Lemma bytes_of_cons r rs : bytes_of (r :: rs) = record_bytes r ++ bytes_of rs.
Proof. done. Qed.

Lemma size_of_app a b : size_of (a ++ b) = size_of a + size_of b.
Proof. unfold size_of. by rewrite bytes_of_app, zlen_app. Qed.

Lemma size_of_nonneg a : 0 ≤ size_of a.
Proof. apply zlen_nonneg. Qed.

Lemma size_of_one r : size_of [r] = RECORD_SIZE + zlen (rec_data r).
Proof. unfold size_of. rewrite bytes_of_cons, zlen_app, zlen_record. change (zlen (bytes_of [])) with 0. lia. Qed.

Lemma size_of_cons r rs : size_of (r :: rs) = RECORD_SIZE + zlen (rec_data r) + size_of rs.
Proof. rewrite <- size_of_one, <- size_of_app. done. Qed.

Lemma size_of_ge rs : RECORD_SIZE * zlen rs ≤ size_of rs.
Proof.
  induction rs as [|r rs IH]; [done|]. rewrite size_of_cons. pose proof (zlen_nonneg (rec_data r)).
  change (r :: rs) with ([r] ++ rs). rewrite zlen_app. change (zlen [r]) with 1. lia.
Qed.

(** ** The loops around the system calls *)

Definition smooth (io : list sys_io) : Prop := Forall (λ x, ∃ n, x = Bytes n) io.

Lemma s64_small z : - 2 ^ 63 ≤ z < 2 ^ 63 → s64 z = z.
Proof. intros. unfold s64. rewrite Z.mod_small; lia. Qed.

Lemma while_write_loop_smooth io f pre buf done :
  smooth io → done = zlen pre → zlen (pre ++ buf) < 2 ^ 63 →
  while_write_loop f (pre ++ buf) (zlen (pre ++ buf)) done io = Some (zlen (pre ++ buf), f ++ buf).
Proof.
  intros Hio. revert f pre buf done. induction Hio as [|x io [n ->] Hio IH]; intros f pre buf done -> Hlen;
    rewrite zlen_app in Hlen |- *; pose proof (zlen_nonneg pre); pose proof (zlen_nonneg buf);
    cbn [while_write_loop]; destruct (Z.ltb_spec (zlen pre) (zlen pre + zlen buf)).
  - replace (zlen pre + zlen buf - zlen pre) with (zlen buf) by lia.
    pose proof (zsub_mid pre buf [] (zlen pre) (zlen buf)) as Hs. rewrite app_nil_r in Hs. rewrite Hs by done.
    cbn [mbind option_bind]. by rewrite s64_small by lia.
  - destruct buf; [|unfold zlen in *; simpl in *; lia]. rewrite app_nil_r, s64_small by lia. repeat f_equal.
    change (zlen (@nil Z)) with 0. lia.
  - set (m := moved n (zlen pre + zlen buf - zlen pre)).
    assert (0 < m ≤ zlen buf) as Hm by (unfold m, moved; lia).
    assert (buf = take (Z.to_nat m) buf ++ drop (Z.to_nat m) buf) as Hb by by rewrite take_drop.
    set (a := take (Z.to_nat m) buf) in *. set (b := drop (Z.to_nat m) buf) in *.
    assert (zlen a = m) as Ha by (unfold a, zlen in *; rewrite length_take; lia).
    rewrite Hb at 1. rewrite (zsub_mid pre a b) by (done || lia). cbn [mbind option_bind].
    rewrite u64_small by lia. rewrite Hb. clearbody a b. subst buf.
    specialize (IH (f ++ a) (pre ++ a) b (zlen pre + m)). rewrite <- !app_assoc in IH.
    rewrite <- zlen_app. apply IH; rewrite zlen_app in *; [lia|]. rewrite zlen_app. lia.
  - destruct buf; [|unfold zlen in *; simpl in *; lia]. rewrite app_nil_r, s64_small by lia. repeat f_equal.
    change (zlen (@nil Z)) with 0. lia.
Qed.

Lemma while_write_smooth io f buf :
  smooth io → zlen buf < 2 ^ 63 → while_write f buf (zlen buf) io = Some (zlen buf, f ++ buf).
Proof. intros. by apply (while_write_loop_smooth io f []). Qed.

Lemma pread_app pre x off n :
  off = zlen pre → 0 ≤ n → pread (pre ++ x) n off = take (Z.to_nat n) x.
Proof. intros -> Hn. unfold pread, zlen. by rewrite Nat2Z.id, drop_app_length. Qed.

Lemma while_pread_loop_smooth io pre acc x off done count :
  smooth io → off = zlen pre → done = zlen acc → done ≤ count < 2 ^ 63 →
  while_pread_loop (pre ++ acc ++ x) acc count off done io
  = (done + Z.min (count - done) (zlen x), acc ++ take (Z.to_nat (count - done)) x).
Proof.
  intros Hio -> . revert acc x done. induction Hio as [|e io [n ->] Hio IH]; intros acc x done -> Hc;
    pose proof (zlen_nonneg acc); pose proof (zlen_nonneg x);
    cbn [while_pread_loop]; destruct (Z.ltb_spec (zlen acc) count).
  - rewrite app_assoc, pread_app by (rewrite ?zlen_app; lia).
    assert (zlen (take (Z.to_nat (count - zlen acc)) x) = Z.min (count - zlen acc) (zlen x)) as Hl
      by (unfold zlen in *; rewrite length_take; lia).
    rewrite Hl, s64_small by lia. done.
  - assert (count = zlen acc) as -> by lia. rewrite Z.sub_diag, s64_small by lia. simpl.
    rewrite take_0, app_nil_r. f_equal. lia.
  - set (m := moved n (count - zlen acc)). assert (0 < m ≤ count - zlen acc) as Hm by (unfold m, moved; lia).
    rewrite app_assoc, pread_app by (rewrite ?zlen_app; lia).
    set (a := take (Z.to_nat m) x).
    assert (zlen a = Z.min m (zlen x)) as Ha by (unfold a, zlen in *; rewrite length_take; lia).
    destruct (Z.eqb_spec (zlen a) 0) as [E|E].
    + assert (zlen x = 0) as Hx by lia. destruct x; [|unfold zlen in Hx; simpl in Hx; lia].
      rewrite take_nil, app_nil_r, s64_small by lia. f_equal. change (zlen (@nil Z)) with 0. lia.
    + rewrite u64_small by lia. set (b := drop (Z.to_nat m) x).
      assert (x = a ++ b) as Hx by (unfold a, b; by rewrite take_drop).
      rewrite <- app_assoc, Hx, (app_assoc acc a b). rewrite IH by (rewrite ?zlen_app; lia).
      rewrite <- app_assoc, zlen_app. f_equal; [lia|]. f_equal.
      rewrite take_app_ge by (unfold zlen in *; lia). f_equal.
      unfold zlen in *. f_equal. lia.
  - assert (count = zlen acc) as -> by lia. rewrite Z.sub_diag, s64_small by lia. simpl.
    rewrite take_0, app_nil_r. f_equal. lia.
Qed.

Lemma while_pread_smooth io pre x off count :
  smooth io → off = zlen pre → 0 ≤ count < 2 ^ 63 →
  while_pread (pre ++ x) count off io = (Z.min count (zlen x), take (Z.to_nat count) x).
Proof.
  intros Hio Ho Hc. unfold while_pread.
  pose proof (while_pread_loop_smooth io pre [] x off 0 count Hio Ho eq_refl) as H. cbn [app] in H.
  rewrite H by lia. by rewrite Z.sub_0_r, Z.add_0_l.
Qed.

(** ** The index in memory *)

Definition index_rep (index : binlog_index_t) (its : list binlog_file_item) : Prop :=
  zlen its ≤ 2 ^ 31 ∧ index_last index = u32 (zlen its - 1) ∧
  match index_items index with
  | NULL => its = [] ∧ item_array_len index = 0
  | Ptr a =>
      its ≠ [] ∧ zlen a = item_array_len index ∧ zlen its ≤ zlen a ≤ zlen its + 1024 ∧
      ∀ i it, its !! i = Some it → a !! i = Some (Some it)
  end.

Lemma index_rep_nil : index_rep (Index NO_ITEM NULL 0) [].
Proof. done. Qed.

Lemma zlen_pos {A} (l : list A) : l ≠ [] → 0 < zlen l.
Proof. destruct l; [done|]. unfold zlen. simpl. lia. Qed.

Lemma no_items_rep index its : index_rep index its → no_items index = bool_decide (its = []).
Proof.
  intros (Hb & Hl & _). unfold no_items, NO_ITEM. rewrite Hl. case_bool_decide as E; [by subst|].
  apply zlen_pos in E. apply Z.eqb_neq. rewrite u32_small; lia.
Qed.

Lemma item_at_rep index its i it : index_rep index its → its !! i = Some it → item_at index (Z.of_nat i) = Some it.
Proof.
  intros (_ & _ & H) Hi. unfold item_at. destruct (index_items index) as [|a].
  - destruct H as [-> _]. done.
  - destruct H as (_ & _ & _ & Ha). rewrite zget_of_nat, (Ha _ _ Hi). done.
Qed.

Lemma last_item_rep index its it : index_rep index (its ++ [it]) → last_item index = Some it.
Proof.
  intros Hr. pose proof Hr as (Hb & Hl & _). unfold last_item. rewrite Hl, zlen_app in *. change (zlen [it]) with 1 in *.
  pose proof (zlen_nonneg its). rewrite u32_small by lia.
  replace (zlen its + 1 - 1) with (Z.of_nat (length its)) by (unfold zlen; lia).
  eapply item_at_rep; [done|]. by apply list_lookup_middle.
Qed.

(** Placing an item after [its] in an array of room. *)
Lemma place_item its it (a : list (option binlog_file_item)) alen last :
  zlen its < 2 ^ 31 → last = u32 (zlen its - 1) → zlen a = alen → zlen its < zlen a ≤ zlen its + 1024 →
  (∀ i x, its !! i = Some x → a !! i = Some (Some x)) →
  ∃ a', a⟦u32 (last + 1) := Some it⟧ = Some a' ∧ index_rep (Index (u32 (last + 1)) (Ptr a') alen) (its ++ [it]).
Proof.
  intros Hb -> <- Hlen Ha. pose proof (zlen_nonneg its).
  assert (u32 (u32 (zlen its - 1) + 1) = zlen its) as ->.
  { unfold u32. rewrite Z.add_mod_idemp_l by done. rewrite Z.sub_add. apply Z.mod_small. lia. }
  rewrite zset_in by lia. eexists. split; [done|]. unfold index_rep. cbn.
  rewrite zlen_app, zlen_insert. change (zlen [it]) with 1.
  replace (Z.to_nat (zlen its)) with (length its) by (unfold zlen; lia).
  split_and!; try lia.
  - rewrite u32_small; lia.
  - by destruct its.
  - intros i x Hi. destruct (decide (i = length its)) as [->|Hne].
    + rewrite list_lookup_middle in Hi by done. injection Hi as <-. apply list_lookup_insert_eq. unfold zlen in *. lia.
    + apply lookup_app_Some in Hi as [Hi|[Hge Hi]].
      * rewrite list_lookup_insert_ne by done. by apply Ha.
      * apply list_lookup_singleton_Some in Hi as [? _]. lia.
Qed.

Lemma add_item_array_rep index its it :
  index_rep index its → zlen its < 2 ^ 31 →
  ∃ index', add_item_array index it = Some index' ∧ index_rep index' (its ++ [it]).
Proof.
  intros (Hb & Hl & H) Hlt. unfold add_item_array. destruct (index_items index) as [|a].
  - destruct H as [-> E]. rewrite Hl, E. cbn [mbind option_bind].
    destruct (place_item [] it (replicate (Z.to_nat (u32 (0 + 1024))) None) (u32 (0 + 1024)) (u32 (zlen (A:=binlog_file_item) [] - 1)))
      as (a' & Ea & Hr); [done|done|done|done|done|].
    rewrite Z.eqb_refl. cbn [mbind option_bind].
    rewrite Ea. eexists. by split.
  - destruct H as (Hne & Elen & Hlen & Ha). apply zlen_pos in Hne.
    rewrite Hl. rewrite <- Elen. rewrite (u32_small (zlen its - 1)), (u32_small (zlen a - 1)) by lia.
    destruct (Z.eqb_spec (zlen its - 1) (zlen a - 1)) as [E|E].
    + pose proof (zlen_nonneg a). rewrite (u32_small (zlen a + 1024)) by lia.
      assert (zsub a 0 (zlen a) = Some a) as ->.
      { pose proof (zsub_mid [] a [] 0 (zlen a) eq_refl eq_refl) as Hs. by rewrite app_nil_r in Hs. }
      cbn [mbind option_bind]. unfold zcopy. rewrite zlen_replicate, decide_True by lia.
      cbn [mbind option_bind]. rewrite take_0, app_nil_l.
      destruct (place_item its it (a ++ drop (Z.to_nat 0 + length a) (replicate (Z.to_nat (zlen a + 1024)) None))
                  (zlen a + 1024) (zlen its - 1)) as (a' & Ea & Hr).
      * done.
      * rewrite u32_small; lia.
      * rewrite zlen_app. unfold zlen. rewrite length_drop, length_replicate. lia.
      * rewrite zlen_app. unfold zlen. rewrite length_drop, length_replicate. unfold zlen in E. lia.
      * intros i x Hi. apply lookup_app_l_Some. by apply Ha.
      * rewrite Ea. eexists. by split.
    + cbn [mbind option_bind].
      destruct (place_item its it a (zlen a) (zlen its - 1)) as (a' & Ea & Hr);
        [done|by rewrite u32_small by lia|done|lia|done|].
      rewrite Ea. eexists. by split.
Qed.

(** ** The index file *)

Definition item_ok (it : binlog_file_item) : Prop :=
  0 ≤ item_time it < 2 ^ 32 ∧ 0 ≤ item_abs_offset it < 2 ^ 63 ∧ 0 ≤ item_suffix it < 2 ^ 32.

Definition index_text (its : list binlog_file_item) : list Z := concat (item_text <$> its).

Lemma digit_in_token c : is_digit c = true → c ≠ 0 ∧ c ≠ c_newline ∧ c ≠ c_hash ∧ is_space c = false.
Proof.
  unfold is_digit, is_space, c_newline, c_hash. intros [H1%Z.leb_le H2%Z.leb_le]%andb_prop.
  split_and!; [lia|lia|lia|]. rewrite (proj2 (Z.eqb_neq c 32)) by lia. rewrite (proj2 (Z.leb_gt c 13)) by lia.
  by rewrite andb_false_r.
Qed.

Lemma tokens_word w c s word :
  Forall (λ c, is_digit c = true) w → word ++ w ≠ [] → c ≠ 0 → is_space c = true →
  tokens (w ++ c :: s) word = (word ++ w) :: tokens s [].
Proof.
  intros Hw. revert word. induction Hw as [|x w Hx Hw IH]; intros word Hne Hc Hsp; cbn [tokens app].
  - rewrite (proj2 (Z.eqb_neq c 0)), Hsp by done. rewrite app_nil_r in *. by destruct word.
  - destruct (digit_in_token x Hx) as (H0 & _ & _ & H1).
    rewrite (proj2 (Z.eqb_neq x 0)), H1 by done. rewrite IH by (done || by destruct word).
    by rewrite <- app_assoc.
Qed.

Lemma dec_not_nil n : 0 ≤ n → dec n ≠ [].
Proof. intros H. destruct (dec_head n H) as (c & s & -> & _). done. Qed.

Lemma parse_item_text it : item_ok it → parse_line (item_text it) = ItemLine it.
Proof.
  intros (Ht & Ha & Hs). unfold parse_line, item_text.
  rewrite tokens_word by first [done|apply dec_all; lia|apply dec_not_nil; lia].
  rewrite tokens_word by first [done|apply dec_all; lia|apply dec_not_nil; lia].
  rewrite tokens_word by first [done|apply dec_all; lia|apply dec_not_nil; lia].
  cbn [app]. destruct (dec_head (item_time it)) as (c & s & E & Hd); [lia|].
  destruct (digit_in_token c Hd) as (_ & _ & Hc & _).
  rewrite bool_decide_false by (rewrite E; intros [= ?]; done).
  assert (∀ n, 0 ≤ n < 2 ^ 63 → strtoll (dec n) = n) as Hp.
  { intros n Hn. rewrite <- (app_nil_r (dec n)), strtoll_dec by (done || lia). lia. }
  rewrite !Hp, !u32_small, u64_small by lia. by destruct it.
Qed.

Lemma get_lines_line l s line :
  Forall (λ c, c ≠ c_newline) l → get_lines (l ++ c_newline :: s) line = (line ++ l ++ [c_newline]) :: get_lines s [].
Proof.
  intros Hl. revert line. induction Hl as [|c l Hc Hl IH]; intros line; cbn [get_lines app]; [done|].
  rewrite (proj2 (Z.eqb_neq _ _) Hc), IH. by rewrite <- !app_assoc.
Qed.

Lemma get_lines_text its : Forall item_ok its → get_lines (index_text its) [] = item_text <$> its.
Proof.
  intros H. induction H as [|it its (Ht & Ha & Hs) _ IH]; [done|].
  change (index_text (it :: its)) with (item_text it ++ index_text its). rewrite fmap_cons, <- IH.
  assert (∀ n, 0 ≤ n → Forall (λ c, c ≠ c_newline) (dec n)) as Hd.
  { intros n Hn. eapply Forall_impl; [by apply dec_all|]. intros c Hc. by apply digit_in_token in Hc as (_ & ? & _). }
  assert (item_text it =
    (dec (item_time it) ++ [c_tab] ++ dec (item_abs_offset it) ++ [c_tab] ++ dec (item_suffix it)) ++ [c_newline]) as ->
    by (unfold item_text; rewrite <- !app_assoc; done).
  rewrite <- app_assoc. change ([c_newline] ++ index_text its) with (c_newline :: index_text its).
  rewrite get_lines_line; [done|].
  repeat (apply Forall_app; split); try (apply Hd; lia); by repeat constructor.
Qed.

Lemma load_lines_rep its index done_ :
  index_rep index done_ → Forall item_ok its → zlen (done_ ++ its) ≤ 2 ^ 31 →
  ∃ index', load_lines index (item_text <$> its) = Some (0, index') ∧ index_rep index' (done_ ++ its).
Proof.
  intros Hr Hok. revert index done_ Hr. induction Hok as [|it its Hit _ IH]; intros index done_ Hr Hb.
  - exists index. rewrite app_nil_r. done.
  - rewrite zlen_app in Hb. assert (0 < zlen (it :: its)) by by apply zlen_pos.
    rewrite fmap_cons. cbn [load_lines]. rewrite parse_item_text by done.
    destruct (add_item_array_rep index done_ it Hr) as (index1 & -> & Hr1); [lia|]. cbn [mbind option_bind].
    destruct (IH index1 _ Hr1) as (index2 & -> & Hr2).
    { rewrite <- app_assoc, zlen_app. done. }
    exists index2. by rewrite <- app_assoc in Hr2.
Qed.

Lemma binlog_index_init_rep files its :
  index_file files = index_text its → Forall item_ok its → zlen its ≤ 2 ^ 31 →
  ∃ index, binlog_index_init true files = Some (Ptr index) ∧ index_rep index its.
Proof.
  intros Hf Hok Hb. unfold binlog_index_init, load_index_file. rewrite Hf, get_lines_text by done.
  destruct (load_lines_rep its _ [] index_rep_nil Hok Hb) as (index & -> & Hr). by exists index.
Qed.

(** ** The log and its files *)

Definition first_time (c : list binlog_record) : Z := match c with [] => 0 | r :: _ => rec_time r end.

(** The offset of the first byte of file [i]. *)
Definition base_of (chunks : list (list binlog_record)) (i : nat) : Z := size_of (concat (take i chunks)).

Definition items_of (chunks : list (list binlog_record)) : list binlog_file_item :=
  imap (λ i c, Item (first_time c) (base_of chunks i) (Z.of_nat i)) chunks.

(** The records of file [i]. *)
Definition chunk (chunks : list (list binlog_record)) (i : nat) : list binlog_record := default [] (chunks !! i).

Record log_ok (chunks : list (list binlog_record)) : Prop := {
  chunks_some : Forall (λ c, c ≠ []) chunks;
  chunks_size : Forall (λ c, size_of c < 2 ^ 32) chunks;
  records_ok : Forall record_ok (concat chunks);
  log_size : size_of (concat chunks) < 2 ^ 63;
  log_length : zlen (concat chunks) ≤ 2 ^ 31 }.

Record files_rep (files : binlog_files) (chunks : list (list binlog_record)) : Prop := {
  index_rep_file : index_file files = index_text (items_of chunks);
  log_content : ∀ i : nat, default [] (log_files files !! Z.of_nat i) = bytes_of (chunk chunks i);
  log_exists : ∀ i : nat, (i < length chunks)%nat → is_Some (log_files files !! Z.of_nat i) }.

Record writer_rep (w : BL_WRITER) (files : binlog_files) (chunks : list (list binlog_record)) : Prop := {
  writer_file : writer_fd w = Z.of_nat (length chunks - 1);
  writer_open : is_Some (log_files files !! writer_fd w);
  writer_offset : writer_abs_offset w = size_of (concat chunks);
  writer_items : index_rep (writer_index w) (items_of chunks);
  writer_limit : 0 ≤ writer_max_size w < 2 ^ 32 }.

Lemma items_of_length chunks : zlen (items_of chunks) = zlen chunks.
Proof. unfold zlen, items_of. by rewrite length_imap. Qed.

Lemma items_of_nil chunks : items_of chunks = [] ↔ chunks = [].
Proof. by destruct chunks. Qed.

Lemma items_of_lookup chunks i c :
  chunks !! i = Some c → items_of chunks !! i = Some (Item (first_time c) (base_of chunks i) (Z.of_nat i)).
Proof. intros H. unfold items_of. by rewrite list_lookup_imap, H. Qed.

Lemma items_of_snoc cs c :
  items_of (cs ++ [c]) = items_of cs ++ [Item (first_time c) (size_of (concat cs)) (Z.of_nat (length cs))].
Proof.
  unfold items_of. rewrite imap_app. f_equal.
  - apply imap_ext. intros i x Hx. apply lookup_lt_Some in Hx. unfold base_of.
    by rewrite take_app_le by lia.
  - simpl. unfold base_of. by rewrite Nat.add_0_r, take_app_length.
Qed.

Lemma items_of_grow cs c r : c ≠ [] → items_of (cs ++ [c ++ [r]]) = items_of (cs ++ [c]).
Proof. intros Hc. rewrite !items_of_snoc. by destruct c. Qed.

Lemma chunk_split chunks i :
  concat chunks = concat (take i chunks) ++ chunk chunks i ++ concat (drop (S i) chunks).
Proof.
  unfold chunk. destruct (chunks !! i) as [c|] eqn:E; simpl.
  - rewrite <- (take_drop_middle chunks i c E) at 1. by rewrite concat_app.
  - apply lookup_ge_None in E. by rewrite take_ge, drop_ge, app_nil_r by lia.
Qed.

Lemma base_le chunks i : 0 ≤ base_of chunks i ∧ base_of chunks i + size_of (chunk chunks i) ≤ size_of (concat chunks).
Proof.
  rewrite (chunk_split chunks i), !size_of_app. unfold base_of. pose proof (size_of_nonneg (concat (drop (S i) chunks))).
  pose proof (size_of_nonneg (concat (take i chunks))). lia.
Qed.

Lemma base_next chunks i : base_of chunks (S i) = base_of chunks i + size_of (chunk chunks i).
Proof.
  unfold base_of, chunk. destruct (chunks !! i) as [c|] eqn:E; simpl.
  - rewrite (take_S_r _ _ _ E), concat_app, size_of_app. simpl. by rewrite app_nil_r.
  - apply lookup_ge_None in E. rewrite !take_ge by lia. change (size_of []) with 0. lia.
Qed.

Lemma base_end chunks i : (length chunks ≤ i)%nat → base_of chunks i = size_of (concat chunks).
Proof. intros. unfold base_of. by rewrite take_ge by lia. Qed.

Lemma log_files_few chunks : log_ok chunks → zlen chunks ≤ zlen (concat chunks).
Proof.
  intros [H _ _ _ _]. induction H as [|c cs Hc _ IH]; [done|]. apply zlen_pos in Hc. simpl. rewrite zlen_app.
  change (c :: cs) with ([c] ++ cs). rewrite zlen_app. change (zlen [c]) with 1. lia.
Qed.

Lemma chunk_small chunks i : log_ok chunks → 0 ≤ size_of (chunk chunks i) < 2 ^ 32.
Proof.
  intros [_ H _ _ _]. split; [apply size_of_nonneg|]. unfold chunk. destruct (chunks !! i) as [c|] eqn:E; [|done].
  rewrite Forall_lookup in H. by apply (H i).
Qed.

Lemma items_of_ok chunks : log_ok chunks → Forall item_ok (items_of chunks).
Proof.
  intros Hl. apply Forall_lookup. intros i it Hi. unfold items_of in Hi. rewrite list_lookup_imap in Hi.
  destruct (chunks !! i) as [c|] eqn:E; [|done]. injection Hi as <-. unfold item_ok. cbn.
  pose proof (log_files_few _ Hl). pose proof (log_length _ Hl). pose proof (log_size _ Hl).
  apply lookup_lt_Some in E as Hlt. pose proof (base_le chunks i). pose proof (size_of_nonneg (chunk chunks i)).
  assert (0 ≤ first_time c < 2 ^ 32); [|unfold zlen in *; lia].
  destruct c as [|r c]; [simpl; lia|]. assert (record_ok r) as (_ & _ & ?); [|simpl; lia].
  pose proof (records_ok _ Hl) as Hr. rewrite (chunk_split chunks i) in Hr. unfold chunk in Hr. rewrite E in Hr.
  apply Forall_app in Hr as [_ Hr]. by inversion Hr.
Qed.

(** ** The writer *)

(** The record [r] went to a new file or to the end of the last one. *)
Definition added (chunks : list (list binlog_record)) (r : binlog_record) (chunks' : list (list binlog_record)) : Prop :=
  chunks' = chunks ++ [[r]] ∨ ∃ cs c, chunks = cs ++ [c] ∧ chunks' = cs ++ [c ++ [r]].

Lemma added_concat chunks r chunks' : added chunks r chunks' → concat chunks' = concat chunks ++ [r].
Proof.
  intros [->|(cs & c & -> & ->)]; rewrite !concat_app; [done|]. simpl. by rewrite !app_nil_r, app_assoc.
Qed.

Lemma default_bytes (o : option (list Z)) f : default [] o = f → is_Some o → o = Some f.
Proof. intros <- [x ->]. done. Qed.

Lemma open_log files chunks i :
  files_rep files chunks →
  ∃ files', open_binlog_file files (Z.of_nat i) true true = (Opened (Z.of_nat i), files') ∧
    index_file files' = index_file files ∧ files_rep files' chunks ∧ is_Some (log_files files' !! Z.of_nat i) ∧
    ∀ j, is_Some (log_files files !! j) → is_Some (log_files files' !! j).
Proof.
  intros Hf. unfold open_binlog_file. destruct (log_files files !! Z.of_nat i) as [f|] eqn:E; eexists;
    (split; [done|]); (split; [done|]).
  { split; [done|]. by rewrite E. }
  assert (∀ j, is_Some (log_files files !! j) → is_Some (<[Z.of_nat i := []]> (log_files files) !! j)) as Hs.
  { intros j Hj. rewrite lookup_insert_is_Some. destruct (decide (Z.of_nat i = j)); auto. }
  split_and!; [|cbn; by rewrite lookup_insert_eq|done].
  destruct Hf as [Hi Hc He]. split; [done| |].
  - intros j. cbn. destruct (decide (i = j)) as [<-|Hne].
    + rewrite lookup_insert_eq. cbn. rewrite <- Hc, E. done.
    + rewrite lookup_insert_ne by lia. apply Hc.
  - intros j Hj. by apply Hs, He.
Qed.

Lemma binlog_writer_init_rep files chunks max_size :
  files_rep files chunks → log_ok chunks → 0 ≤ max_size < 2 ^ 32 →
  ∃ w files', binlog_writer_init (InitIo true true true) files max_size = Some (Ptr w, files') ∧
    files_rep files' chunks ∧ writer_rep w files' chunks ∧ writer_max_size w = max_size.
Proof.
  intros Hf Hl Hm. pose proof (log_files_few _ Hl). pose proof (log_length _ Hl). pose proof (log_size _ Hl).
  destruct (binlog_index_init_rep files (items_of chunks)) as (index & Ei & Hr);
    [apply Hf|by apply items_of_ok|rewrite items_of_length; lia|].
  unfold binlog_writer_init. cbn [io_fopen io_open io_lseek]. rewrite Ei. cbn [mbind option_bind].
  rewrite (no_items_rep _ _ Hr).
  assert (∃ base, (if bool_decide (items_of chunks = []) then Some 0 else item_suffix <$> last_item index)
           = Some (Z.of_nat (length chunks - 1)) ∧
         (if bool_decide (items_of chunks = []) then Some 0 else item_abs_offset <$> last_item index) = Some base ∧
         base + size_of (chunk chunks (length chunks - 1)) = size_of (concat chunks)) as (base & -> & Eb & Hb).
  { destruct chunks as [|c cs _] using rev_ind; [by exists 0|]. rewrite items_of_snoc in Hr |- *.
    rewrite bool_decide_false by by destruct (items_of cs). rewrite (last_item_rep _ _ _ Hr). cbn.
    exists (size_of (concat cs)). rewrite length_app. cbn. split; [f_equal; lia|]. split; [done|].
    unfold chunk. replace (length cs + 1 - 1)%nat with (length cs) by lia. rewrite list_lookup_middle by done. cbn.
    rewrite concat_app, size_of_app. cbn. by rewrite app_nil_r. }
  cbn [mbind option_bind]. destruct (open_log files chunks (length chunks - 1) Hf) as (files' & -> & _ & Hf' & Ho & _).
  cbn [negb]. rewrite (default_bytes _ _ (log_content _ _ Hf' _) Ho). cbn [mbind option_bind]. rewrite Eb.
  cbn [mbind option_bind]. eexists _, files'. split; [done|]. split; [done|]. split; [|done].
  split; cbn; try done. change (zlen (bytes_of ?x)) with (size_of x). rewrite u64_small; [lia|].
  pose proof (size_of_nonneg (concat chunks)). lia.
Qed.

Definition write_goes (io : write_io) : Prop :=
  io_fsync io = true ∧ io_open_index io = true ∧ io_open_log io = true ∧ smooth (io_index io) ∧ smooth (io_log io).

(** The state between the switch to a new file and the write of its record. *)
Record switched (w : BL_WRITER) (files : binlog_files) (chunks : list (list binlog_record)) (time : Z)
    (w' : BL_WRITER) (files' : binlog_files) : Prop := {
  switched_index : index_file files'
    = index_text (items_of chunks ++ [Item time (size_of (concat chunks)) (Z.of_nat (length chunks))]);
  switched_items : index_rep (writer_index w')
    (items_of chunks ++ [Item time (size_of (concat chunks)) (Z.of_nat (length chunks))]);
  switched_fd : writer_fd w' = Z.of_nat (length chunks);
  switched_open : is_Some (log_files files' !! writer_fd w');
  switched_content : ∀ i : nat, default [] (log_files files' !! Z.of_nat i) = bytes_of (chunk chunks i);
  switched_exists : ∀ j, is_Some (log_files files !! j) → is_Some (log_files files' !! j);
  switched_offset : writer_abs_offset w' = writer_abs_offset w;
  switched_limit : writer_max_size w' = writer_max_size w }.

Lemma index_text_snoc its it : index_text (its ++ [it]) = index_text its ++ item_text it.
Proof. unfold index_text. rewrite fmap_app, concat_app. simpl. by rewrite app_nil_r. Qed.

Lemma item_text_short it : item_ok it → zlen (item_text it) < 2 ^ 63.
Proof.
  intros (Ht & Ha & Hs). unfold item_text, zlen. rewrite !length_app. simpl. rewrite !length_app. simpl.
  rewrite length_app. simpl.
  pose proof (dec_length (item_time it)). pose proof (dec_length (item_abs_offset it)).
  pose proof (dec_length (item_suffix it)). lia.
Qed.

Lemma writer_goto_next_rep io w files chunks time :
  write_goes io → files_rep files chunks → writer_rep w files chunks → log_ok chunks → zlen (concat chunks) < 2 ^ 31 →
  0 ≤ time < 2 ^ 32 →
  ∃ files' w', writer_goto_next io files w time = Some (0, files', w') ∧ switched w files chunks time w' files'.
Proof.
  intros (Hs & Hoi & Hol & Hii & _) Hf Hw Hl Hlen Ht. pose proof (log_files_few _ Hl). pose proof (log_size _ Hl).
  pose proof (size_of_nonneg (concat chunks)).
  unfold writer_goto_next. rewrite Hs, andb_false_r. pose proof (writer_items _ _ _ Hw) as Hr.
  rewrite (no_items_rep _ _ Hr). set (it := Item time (size_of (concat chunks)) (Z.of_nat (length chunks))).
  assert ((if bool_decide (items_of chunks = []) then Some (Item time 0 0)
           else l ← last_item (writer_index w); Some (Item time (writer_abs_offset w) (u32 (item_suffix l + 1)))) = Some it) as ->.
  { destruct chunks as [|c cs _] using rev_ind; [done|]. rewrite items_of_snoc in Hr |- *.
    rewrite bool_decide_false by by destruct (items_of cs). rewrite (last_item_rep _ _ _ Hr). cbn.
    unfold it. rewrite (writer_offset _ _ _ Hw), length_app. cbn. unfold zlen in *. rewrite length_app in *. cbn in *.
    rewrite u32_small by lia. do 2 f_equal. lia. }
  cbn [mbind option_bind]. assert (item_ok it) as Hit by (unfold item_ok, it, zlen in *; cbn; lia).
  unfold add_file_item. rewrite Hoi. cbn [negb]. rewrite while_write_smooth by (done || by apply item_text_short).
  cbn [mbind option_bind].
  destruct (add_item_array_rep _ _ it Hr) as (index' & -> & Hr'); [rewrite items_of_length; lia|].
  cbn [mbind option_bind]. rewrite (proj2 (Z.ltb_ge _ _) (zlen_nonneg _)). cbn [negb Z.eqb].
  rewrite (index_rep_file _ _ Hf), <- index_text_snoc.
  set (files1 := Files (index_text (items_of chunks ++ [it])) (log_files files)).
  case_bool_decide as E.
  - apply items_of_nil in E as ->. eexists _, _. split; [done|].
    split; try done; [apply Hw|apply Hw|apply Hf].
  - cbn [item_suffix it]. rewrite Hol. unfold open_binlog_file. fold it. cbn [log_files files1].
    assert (∀ i : nat, default [] (log_files files !! Z.of_nat i) = bytes_of (chunk chunks i)) as Hc by apply Hf.
    destruct (log_files files !! Z.of_nat (length chunks)) as [f|] eqn:Ef; eexists _, _; (split; [done|]);
      split; try done.
    + cbn. by rewrite lookup_insert_eq.
    + intros i. cbn. destruct (decide (i = length chunks)) as [->|Hne].
      * rewrite lookup_insert_eq. by rewrite <- Hc, Ef.
      * rewrite lookup_insert_ne by lia. apply Hc.
    + intros j Hj. cbn. rewrite lookup_insert_is_Some. destruct (decide (Z.of_nat (length chunks) = j)); auto.
Qed.

Lemma added_chunk chunks r chunks' i :
  added chunks r chunks' →
  chunk chunks' i = chunk chunks i ++ (if decide (i = length chunks' - 1)%nat then [r] else []).
Proof.
  assert (∀ (cs : list (list binlog_record)) c i, (cs ++ [c]) !! i = if decide (i = length cs) then Some c else cs !! i) as Hs.
  { intros cs c j. case_decide as E; [subst; by apply list_lookup_middle|].
    destruct (decide (j < length cs)%nat); [by apply lookup_app_l|].
    rewrite !(proj2 (lookup_ge_None _ _)); rewrite ?length_app; simpl; (done || lia). }
  unfold chunk. intros [->|(cs & c & -> & ->)]; rewrite length_app; simpl; rewrite !Hs.
  - replace (length chunks + 1 - 1)%nat with (length chunks) by lia. case_decide as E; cbn; [|by rewrite app_nil_r].
    subst i. by rewrite (proj2 (lookup_ge_None _ _)) by lia.
  - replace (length cs + 1 - 1)%nat with (length cs) by lia. case_decide as E; cbn; [done|by rewrite app_nil_r].
Qed.

Lemma added_length chunks r chunks' i : added chunks r chunks' → (i < length chunks')%nat →
  (i < length chunks)%nat ∨ i = (length chunks' - 1)%nat.
Proof. intros [->|(cs & c & -> & ->)]; rewrite !length_app; simpl; lia. Qed.

Lemma added_ok chunks r chunks' :
  added chunks r chunks' → log_ok chunks → record_ok r → zlen (concat chunks) < 2 ^ 31 →
  size_of (concat chunks) + rec_len r < 2 ^ 63 → size_of (chunk chunks' (length chunks' - 1)) < 2 ^ 32 → log_ok chunks'.
Proof.
  intros Ha [H1 H2 H3 H4 H5] Hr Hb Hs Hc. pose proof (added_concat _ _ _ Ha) as Ec. pose proof Hr as (Hl & _).
  split; rewrite ?Ec, ?size_of_app, ?size_of_one, ?zlen_app; try done; try lia.
  - destruct Ha as [->|(cs & c & -> & ->)]; apply Forall_app; (split; [|apply Forall_singleton]).
    + done.
    + done.
    + by apply Forall_app in H1 as [? _].
    + by destruct c.
  - apply Forall_lookup. intros i c Hi. apply lookup_lt_Some in Hi as Hlt.
    destruct (decide (i = length chunks' - 1)%nat) as [->|Hne]; [unfold chunk in Hc; by rewrite Hi in Hc|].
    pose proof (added_chunk _ _ _ i Ha) as Hk. rewrite decide_False, app_nil_r in Hk by done.
    unfold chunk in Hk. rewrite Hi in Hk. cbn in Hk. destruct (chunks !! i) as [d|] eqn:E; cbn in Hk; subst; [|done].
    rewrite Forall_lookup in H2. by apply (H2 i).
  - apply Forall_app. split; [done|]. by apply Forall_singleton.
  - change (zlen [r]) with 1. lia.
Qed.

(** The record is appended to the file the writer has open. *)
Lemma append_rep w files chunks r chunks' :
  added chunks r chunks' → index_file files = index_text (items_of chunks') →
  index_rep (writer_index w) (items_of chunks') → writer_fd w = Z.of_nat (length chunks' - 1) →
  is_Some (log_files files !! writer_fd w) →
  (∀ i : nat, default [] (log_files files !! Z.of_nat i) = bytes_of (chunk chunks i)) →
  (∀ i : nat, (i < length chunks)%nat → is_Some (log_files files !! Z.of_nat i)) →
  0 ≤ writer_max_size w < 2 ^ 32 → writer_abs_offset w = size_of (concat chunks) → rec_len r = zlen (record_bytes r) →
  size_of (concat chunks) + rec_len r < 2 ^ 63 →
  ∃ f, log_files files !! writer_fd w = Some f ∧
    files_rep (set_log files (writer_fd w) (f ++ record_bytes r)) chunks' ∧
    writer_rep (Writer (writer_max_size w) (writer_fd w) (sync_immediately w) (u64 (writer_abs_offset w + rec_len r))
                  (writer_index w)) (set_log files (writer_fd w) (f ++ record_bytes r)) chunks'.
Proof.
  intros Ha Hi Hr Hfd Ho Hc He Hm Hoff Hlen Hs. rewrite Hfd in *. set (n := (length chunks' - 1)%nat) in *.
  exists (bytes_of (chunk chunks n)). pose proof (zlen_nonneg (record_bytes r)). pose proof (size_of_nonneg (concat chunks)).
  split; [by apply default_bytes|]. split; split; try done; cbn.
  - intros i. rewrite (added_chunk _ _ _ i Ha). fold n. case_decide as E.
    + subst i. rewrite lookup_insert_eq. cbn. by rewrite bytes_of_app, bytes_of_cons, app_nil_r.
    + rewrite lookup_insert_ne by lia. by rewrite app_nil_r.
  - intros i Hlt. rewrite lookup_insert_is_Some. destruct (decide (Z.of_nat n = Z.of_nat i)); [by left|]. right.
    split; [done|]. apply He. destruct (added_length _ _ _ _ Ha Hlt); [done|lia].
  - by rewrite lookup_insert_eq.
  - rewrite (added_concat _ _ _ Ha), size_of_app, size_of_one, u64_small by lia. rewrite zlen_record in Hlen. lia.
Qed.

Lemma must_switch_rep w files chunks len :
  writer_rep w files chunks → log_ok chunks → 0 ≤ len < 2 ^ 31 → size_of (concat chunks) + len < 2 ^ 63 →
  must_switch w len = Some match last chunks with
                           | None => true
                           | Some c => size_of c + len >? writer_max_size w
                           end.
Proof.
  intros Hw Hl Hlen Hs. unfold must_switch. pose proof (writer_items _ _ _ Hw) as Hr. rewrite (no_items_rep _ _ Hr).
  destruct chunks as [|c cs _] using rev_ind; [done|]. rewrite last_snoc. rewrite items_of_snoc in Hr |- *.
  rewrite bool_decide_false by by destruct (items_of cs). rewrite (last_item_rep _ _ _ Hr). cbn [mbind option_bind item_abs_offset].
  rewrite (writer_offset _ _ _ Hw). rewrite concat_app, size_of_app in *. cbn [concat] in *. rewrite app_nil_r in *.
  pose proof (size_of_nonneg c). pose proof (size_of_nonneg (concat cs)).
  rewrite u64_small by lia. do 2 f_equal. lia.
Qed.

(** The writer has the file open that takes the record. *)
Record ready (w : BL_WRITER) (files : binlog_files) (chunks : list (list binlog_record)) (r : binlog_record)
    (w1 : BL_WRITER) (files1 : binlog_files) (chunks' : list (list binlog_record)) : Prop := {
  ready_added : added chunks r chunks';
  ready_ok : log_ok chunks';
  ready_index : index_file files1 = index_text (items_of chunks');
  ready_items : index_rep (writer_index w1) (items_of chunks');
  ready_fd : writer_fd w1 = Z.of_nat (length chunks' - 1);
  ready_open : is_Some (log_files files1 !! writer_fd w1);
  ready_content : ∀ i : nat, default [] (log_files files1 !! Z.of_nat i) = bytes_of (chunk chunks i);
  ready_exists : ∀ j, is_Some (log_files files !! j) → is_Some (log_files files1 !! j);
  ready_offset : writer_abs_offset w1 = writer_abs_offset w;
  ready_limit : writer_max_size w1 = writer_max_size w }.

Lemma chunk_last (cs : list (list binlog_record)) c : chunk (cs ++ [c]) (length (cs ++ [c]) - 1) = c.
Proof.
  rewrite length_app. simpl. replace (length cs + 1 - 1)%nat with (length cs) by lia. unfold chunk.
  by rewrite list_lookup_middle.
Qed.

Lemma prepare_rep io files w chunks r :
  write_goes io → files_rep files chunks → writer_rep w files chunks → log_ok chunks → record_ok r →
  zlen (concat chunks) < 2 ^ 31 → size_of (concat chunks) + rec_len r < 2 ^ 63 →
  ∃ files1 w1 chunks', ready w files chunks r w1 files1 chunks' ∧
    (switch ← must_switch w (rec_len r);
     if (switch : bool) then writer_goto_next io files w (rec_time r) else Some (0, files, w)) = Some (0, files1, w1).
Proof.
  intros Hio Hf Hw Hl Hr Hn Hs. pose proof Hr as (Hlen & Hmax & Ht). pose proof (zlen_nonneg (rec_data r)).
  rewrite (must_switch_rep w files chunks) by (done || unfold RECORD_SIZE in *; lia). cbn [mbind option_bind].
  destruct (match last chunks with None => true | Some c => _ end) eqn:E.
  - destruct (writer_goto_next_rep io w files chunks (rec_time r) Hio Hf Hw Hl Hn Ht) as (files1 & w1 & Eg & Hsw).
    exists files1, w1, (chunks ++ [[r]]). split; [|done]. assert (added chunks r (chunks ++ [[r]])) as Ha by by left.
    split; rewrite ?items_of_snoc; try apply Hsw; try done.
    + apply (added_ok _ _ _ Ha); try done. rewrite chunk_last, size_of_one. lia.
    + rewrite (switched_fd _ _ _ _ _ _ Hsw), length_app. simpl. f_equal. lia.
  - destruct chunks as [|c cs _] using rev_ind; [done|]. rewrite last_snoc in E. zb.
    exists files, w, (cs ++ [c ++ [r]]). split; [|done]. pose proof (chunks_some _ Hl) as Hc.
    apply Forall_app in Hc as [_ Hc]. rewrite Forall_singleton in Hc. pose proof (items_of_grow cs c r Hc) as Eg.
    assert (added (cs ++ [c]) r (cs ++ [c ++ [r]])) as Ha by (right; by eexists _, _).
    split; rewrite ?Eg; try apply Hw; try apply Hf; try done.
    + apply (added_ok _ _ _ Ha); try done. rewrite chunk_last, size_of_app, size_of_one.
      pose proof (writer_limit _ _ _ Hw). lia.
    + rewrite (writer_file _ _ _ Hw), !length_app. done.
Qed.

Lemma binlog_write_record_rep io files w chunks r :
  let r' := set_time r (u32 (io_time io)) in
  write_goes io → files_rep files chunks → writer_rep w files chunks → log_ok chunks → record_ok r' →
  zlen (concat chunks) < 2 ^ 31 → size_of (concat chunks) + rec_len r < 2 ^ 63 →
  ∃ files' w' chunks', binlog_write_record io files w (Ptr r) = Some (0, files', w') ∧ added chunks r' chunks' ∧
    files_rep files' chunks' ∧ writer_rep w' files' chunks' ∧ log_ok chunks' ∧
    writer_max_size w' = writer_max_size w ∧
    ∀ j, is_Some (log_files files !! j) → is_Some (log_files files' !! j).
Proof.
  intros r' Hio Hf Hw Hl Hr Hn Hs. pose proof Hr as (Hlen & Hmax & _). cbn in Hlen, Hmax.
  assert (rec_len r' = zlen (record_bytes r')) as Hlen' by by rewrite zlen_record.
  destruct (prepare_rep io files w chunks r' Hio Hf Hw Hl Hr Hn Hs) as (files1 & w1 & chunks' & Hrd & Egoto).
  destruct (append_rep w1 files1 chunks r' chunks') as (f & Ef & Hf' & Hw'); try apply Hrd; try done.
  { intros i Hi. by apply (ready_exists _ _ _ _ _ _ _ Hrd), Hf. }
  { rewrite (ready_limit _ _ _ _ _ _ _ Hrd). apply Hw. }
  { rewrite (ready_offset _ _ _ _ _ _ _ Hrd). apply Hw. }
  exists (set_log files1 (writer_fd w1) (f ++ record_bytes r')). eexists _, chunks'. split.
  { unfold binlog_write_record. fold r'. change (rec_len r) with (rec_len r').
    destruct (must_switch w (rec_len r')) as [b|]; [|done]. cbn [mbind option_bind] in Egoto |- *. rewrite Egoto.
    cbn [mbind option_bind Z.eqb negb]. rewrite Ef. cbn [mbind option_bind].
    rewrite Hlen', while_write_smooth; [|apply Hio|rewrite <- Hlen'; cbn; lia].
    cbn [mbind option_bind]. rewrite (proj2 (Z.ltb_ge _ _)) by apply zlen_nonneg. rewrite <- Hlen'. done. }
  split_and!; try apply Hrd; try done. intros j Hj. cbn. rewrite lookup_insert_is_Some.
  destruct (decide (writer_fd w1 = j)); [by left|right]. split; [done|]. by apply (ready_exists _ _ _ _ _ _ _ Hrd).
Qed.

(** ** The reader *)

Section reading.
Context (files : binlog_files) (writer : ptr BL_WRITER) (chunks : list (list binlog_record)).
Hypothesis Hlog : log_ok chunks.
Hypothesis Hfiles : files_rep files chunks.
Implicit Types (r : BL_READER).

(** The reader has an index of these files, and the writer it follows wrote all
    of them. *)
Definition reader_sees r : Prop :=
  (∃ index, index_of writer r = Some index ∧ index_rep index (items_of chunks)) ∧
  (has_writer r = true → ∃ w, writer = Ptr w ∧ writer_abs_offset w = size_of (concat chunks)).

(** The reader is at byte [off] of file [i]. *)
Record reader_at r (i : nat) (off : Z) : Prop := {
  at_item : index_item_pos r = Z.of_nat i;
  at_suffix : reader_suffix r = Z.of_nat i;
  at_fd : reader_fd r = Z.of_nat i;
  at_open : is_Some (log_files files !! Z.of_nat i);
  at_offset : reader_offset r = off;
  at_range : 0 ≤ off ≤ size_of (chunk chunks i);
  at_file : (i < length chunks)%nat ∨ i = O }.

(** [r'] is [r] at another place. *)
Definition moved_from r r' : Prop :=
  reader_max_size r' = reader_max_size r ∧ reader_index_ r' = reader_index_ r ∧ has_writer r' = has_writer r.

Lemma reader_sees_moved r r' : moved_from r r' → reader_sees r → reader_sees r'.
Proof. intros (_ & Hi & Hh). unfold reader_sees, index_of. by rewrite Hi, Hh. Qed.

Lemma reader_file_small r i off : reader_at r i off → Z.of_nat i < 2 ^ 31 + 1.
Proof.
  intros [_ _ _ _ _ _ H]. pose proof (log_files_few _ Hlog). pose proof (log_length _ Hlog). unfold zlen in *. lia.
Qed.

Lemma position_at r i off : reader_sees r → reader_at r i off → position writer r = Some (base_of chunks i + off).
Proof.
  intros [(index & Ei & Hr) _] Ha. unfold position. rewrite Ei. cbn [mbind option_bind].
  pose proof (base_le chunks i). pose proof (log_size _ Hlog). pose proof (at_range _ _ _ Ha).
  rewrite (no_items_rep _ _ Hr), (at_item _ _ _ Ha), (at_offset _ _ _ Ha).
  destruct (chunks !! i) as [c|] eqn:E.
  - rewrite bool_decide_false by (intros E0%items_of_nil; by rewrite E0 in E).
    rewrite (item_at_rep _ _ _ _ Hr (items_of_lookup _ _ _ E)). cbn. by rewrite u64_small by lia.
  - apply lookup_ge_None in E. destruct (at_file _ _ _ Ha) as [?|Hi]; [lia|]. subst i.
    assert (chunks = []) as E0 by (apply length_zero_iff_nil; lia). rewrite bool_decide_true by by rewrite E0.
    cbn. rewrite u64_small by lia. done.
Qed.

Lemma caught_up_at r i off :
  reader_sees r → reader_at r i off →
  caught_up writer r = Some (has_writer r && (size_of (concat chunks) - (base_of chunks i + off) <? 4)).
Proof.
  intros Hs Ha. unfold caught_up. pose proof Hs as [_ Hw]. destruct (has_writer r); [|done].
  destruct Hw as (w & Ew & Eo); [done|]. rewrite (position_at r i off Hs Ha). cbn [mbind option_bind].
  rewrite Ew, Eo. pose proof (base_le chunks i). pose proof (log_size _ Hlog). pose proof (at_range _ _ _ Ha).
  by rewrite u64_small by lia.
Qed.

(** The unread bytes of the file. *)
Definition rest_of (i : nat) (off : Z) : list Z := drop (Z.to_nat off) (bytes_of (chunk chunks i)).

Lemma rest_of_split i off :
  0 ≤ off ≤ size_of (chunk chunks i) →
  ∃ pre, bytes_of (chunk chunks i) = pre ++ rest_of i off ∧ zlen pre = off ∧
    zlen (rest_of i off) = size_of (chunk chunks i) - off.
Proof.
  intros Ho. exists (take (Z.to_nat off) (bytes_of (chunk chunks i))). unfold rest_of, size_of, zlen in *.
  rewrite take_drop, length_take, length_drop. split; [done|]. lia.
Qed.

Definition read_goes (io : read_io) : Prop := smooth (io_read io) ∧ io_open_next io = true ∧ smooth (io_read_next io).

Lemma set_offset_at r i off n :
  reader_at r i off → 0 ≤ n → off + n ≤ size_of (chunk chunks i) →
  reader_at (set_offset r (u32 (reader_offset r + n))) i (off + n) ∧ moved_from r (set_offset r (u32 (reader_offset r + n))).
Proof.
  intros [? ? ? ? Ho ? ?] Hn Hle. split; [|done]. rewrite Ho. pose proof (chunk_small chunks i Hlog).
  rewrite u32_small by lia. split; cbn; try done; lia.
Qed.

(** Enough bytes are left in the file, or this is the last file. *)
Lemma read_data_here io r i off n :
  read_goes io → reader_sees r → reader_at r i off → 0 ≤ n < 2 ^ 31 →
  has_writer r && (size_of (concat chunks) - (base_of chunks i + off) <? 4) = false →
  n ≤ zlen (rest_of i off) ∨ (length chunks ≤ S i)%nat →
  let data := take (Z.to_nat n) (rest_of i off) in
  let r' := set_offset r (u32 (reader_offset r + zlen data)) in
  binlog_read_data io files writer r n = Some (zlen data, data, r') ∧ reader_at r' i (off + zlen data) ∧ moved_from r r'.
Proof.
  intros (Hio & _ & _) Hs Ha Hn Hc Hlast data r'. pose proof (at_range _ _ _ Ha) as Hoff.
  destruct (rest_of_split i off Hoff) as (pre & Eb & Hpre & Hrest).
  assert (zlen data = Z.min n (zlen (rest_of i off))) as Hd by (unfold data, zlen; rewrite length_take; lia).
  pose proof (zlen_nonneg (rest_of i off)). pose proof (chunk_small chunks i Hlog).
  destruct (set_offset_at r i off (zlen data) Ha) as [Ha' Hm]; [lia|lia|]. fold r' in Ha', Hm.
  split; [|done]. unfold binlog_read_data. rewrite (caught_up_at r i off Hs Ha), Hc. cbn [mbind option_bind].
  rewrite (at_fd _ _ _ Ha), (default_bytes _ _ (log_content _ _ Hfiles i) (at_open _ _ _ Ha)). cbn [mbind option_bind].
  rewrite Eb, (at_offset _ _ _ Ha), while_pread_smooth by (done || lia). fold data. rewrite <- Hd.
  rewrite s32_small by lia. rewrite (proj2 (Z.ltb_ge _ _)) by lia. rewrite u32_small by lia.
  unfold r'. rewrite (at_offset _ _ _ Ha). destruct (Z.eqb_spec (zlen data) n) as [E|E]; [done|].
  destruct Hlast as [Hlast|Hlast]; [lia|]. destruct Hs as [(index & Ei & Hr) _].
  unfold index_of in Ei |- *. cbn [reader_index_ set_offset]. rewrite Ei. cbn [mbind option_bind].
  rewrite (no_items_rep _ _ Hr). cbn [index_item_pos set_offset]. rewrite (at_item _ _ _ Ha).
  destruct Hr as (_ & -> & _). rewrite items_of_length.
  destruct (decide (items_of chunks = [])) as [E0|E0].
  - by rewrite bool_decide_true, orb_true_r by done.
  - assert (chunks ≠ []) as E1 by by rewrite <- items_of_nil. apply zlen_pos in E1.
    pose proof (log_files_few _ Hlog). pose proof (log_length _ Hlog). destruct (at_file _ _ _ Ha) as [Hi|Hi].
    + rewrite u32_small by lia. rewrite (proj2 (Z.eqb_eq _ _)) by (unfold zlen in *; lia). done.
    + rewrite u32_small by lia. rewrite (proj2 (Z.eqb_eq _ _)) by (unfold zlen in *; lia). done.
Qed.

(** The read goes on in the next file. *)
Lemma read_data_next io r i off n :
  read_goes io → reader_sees r → reader_at r i off → 0 ≤ n < 2 ^ 31 →
  has_writer r && (size_of (concat chunks) - (base_of chunks i + off) <? 4) = false →
  zlen (rest_of i off) < n → (S i < length chunks)%nat →
  let more := take (Z.to_nat (n - zlen (rest_of i off))) (bytes_of (chunk chunks (S i))) in
  ∃ r', binlog_read_data io files writer r n = Some (zlen (rest_of i off ++ more), rest_of i off ++ more, r') ∧
    reader_at r' (S i) (zlen more) ∧ moved_from r r'.
Proof.
  intros (Hio & Hopen & Hio2) Hs Ha Hn Hc Hlt Hi more. pose proof (at_range _ _ _ Ha) as Hoff.
  destruct (rest_of_split i off Hoff) as (pre & Eb & Hpre & Hrest). set (rest := rest_of i off) in *.
  assert (zlen more = Z.min (n - zlen rest) (size_of (chunk chunks (S i)))) as Hd
    by (unfold more, size_of, zlen in *; rewrite length_take; lia).
  pose proof (zlen_nonneg rest). pose proof (chunk_small chunks i Hlog). pose proof (chunk_small chunks (S i) Hlog).
  pose proof (log_files_few _ Hlog) as Hfew. pose proof (log_length _ Hlog).
  assert (Z.of_nat (S i) < 2 ^ 31) as Hsi by (unfold zlen in *; lia).
  eexists. unfold binlog_read_data. rewrite (caught_up_at r i off Hs Ha), Hc. cbn [mbind option_bind].
  rewrite (at_fd _ _ _ Ha), (default_bytes _ _ (log_content _ _ Hfiles i) (at_open _ _ _ Ha)). cbn [mbind option_bind].
  rewrite Eb, (at_offset _ _ _ Ha), while_pread_smooth by (done || lia).
  rewrite Z.min_r by lia. rewrite take_ge by (unfold zlen in *; lia).
  rewrite s32_small by lia. rewrite (proj2 (Z.ltb_ge _ _)) by lia. rewrite (u32_small (zlen rest)) by lia.
  rewrite (proj2 (Z.eqb_neq _ _)) by lia. pose proof Hs as [(index & Ei & Hr) _].
  unfold index_of in Ei |- *. cbn [reader_index_ set_offset]. rewrite Ei. cbn [mbind option_bind].
  rewrite (no_items_rep _ _ Hr), bool_decide_false by (rewrite items_of_nil; intros E; rewrite E in Hi; simpl in Hi; lia).
  cbn [index_item_pos set_offset reader_suffix]. rewrite (at_item _ _ _ Ha), (at_suffix _ _ _ Ha).
  pose proof Hr as (_ & El & _). rewrite El, items_of_length, u32_small by (unfold zlen in *; lia).
  rewrite (proj2 (Z.eqb_neq _ _)) by (unfold zlen; lia). cbn [orb].
  replace (Z.of_nat i + 1) with (Z.of_nat (S i)) by lia. rewrite (u32_small (Z.of_nat (S i))) by lia.
  unfold open_binlog_file. rewrite Hopen. destruct (log_exists _ _ Hfiles (S i) Hi) as [f Ef]. rewrite Ef. cbn [fst].
  pose proof (log_content _ _ Hfiles (S i)) as Ec. rewrite Ef in Ec. cbn in Ec. subst f. rewrite Ef.
  cbn [mbind option_bind]. rewrite (u32_small (n - zlen rest)) by lia.
  pose proof (while_pread_smooth (io_read_next io) [] (bytes_of (chunk chunks (S i))) 0 (n - zlen rest) Hio2 eq_refl) as Hp.
  cbn [app] in Hp. rewrite Hp by lia. change (zlen (bytes_of ?x)) with (size_of x). rewrite <- Hd. fold more.
  rewrite (s32_small (zlen more)) by lia. rewrite (proj2 (Z.ltb_ge _ _)) by lia. rewrite (s32_small (_ + _)) by lia.
  rewrite zlen_app, (u32_small (zlen more)) by lia. split; [done|]. split; [|done].
  split; cbn; try done; lia.
Qed.

(** *** Records *)

Lemma size_take_lt (l : list binlog_record) j k :
  (j < k)%nat → (j < length l)%nat → size_of (take j l) < size_of (take k l).
Proof.
  intros Hjk Hl. destruct (lookup_lt_is_Some_2 l j Hl) as [x Hx].
  assert (take k l = take j l ++ x :: take (k - S j) (drop (S j) l)) as ->.
  { replace k with (j + S (k - S j))%nat at 1 by lia. rewrite <- take_take_drop. f_equal.
    rewrite (drop_S _ _ _ Hx). done. }
  rewrite size_of_app, size_of_cons. pose proof (zlen_nonneg (rec_data x)).
  pose proof (size_of_nonneg (take (k - S j) (drop (S j) l))). unfold RECORD_SIZE. lia.
Qed.

(** A record boundary in file [i]. *)
Lemma boundary i off k :
  (k ≤ length (concat chunks))%nat → base_of chunks i + off = size_of (take k (concat chunks)) →
  0 ≤ off ≤ size_of (chunk chunks i) →
  ∃ pre post, chunk chunks i = pre ++ post ∧ off = size_of pre ∧ (length (concat (take i chunks)) + length pre)%nat = k.
Proof.
  intros Hk Hp Hoff. rewrite (chunk_split chunks i) in Hk, Hp. unfold base_of in Hp.
  set (a := concat (take i chunks)) in *. set (c := chunk chunks i) in *. set (b := concat (drop (S i) chunks)) in *.
  assert (length a ≤ k)%nat as Ha.
  { destruct (decide (length a ≤ k)%nat) as [|Hn]; [done|].
    pose proof (size_take_lt (a ++ c ++ b) k (length a)) as H. rewrite take_app_length, length_app in H.
    lia. }
  rewrite take_app_ge in Hp by done. rewrite size_of_app in Hp. remember (k - length a)%nat as m eqn:Em.
  assert (m ≤ length c)%nat as Hm.
  { destruct (decide (m ≤ length c)%nat) as [|Hn]; [done|]. rewrite !length_app in Hk.
    pose proof (size_take_lt (c ++ b) (length c) m) as H. rewrite take_app_length, length_app in H. lia. }
  exists (take m c), (drop m c). rewrite take_drop, length_take. rewrite take_app_le in Hp by done.
  split; [done|]. split; lia.
Qed.

Lemma rest_of_boundary i pre post n :
  chunk chunks i = pre ++ post → 0 ≤ n → rest_of i (size_of pre + n) = drop (Z.to_nat n) (bytes_of post).
Proof.
  intros E Hn. unfold rest_of. rewrite E, bytes_of_app. unfold size_of, zlen.
  rewrite Z2Nat.inj_add, Nat2Z.id, <- drop_drop, drop_app_length by lia. done.
Qed.

Lemma record_split rec : record_bytes rec = le_bytes 4 (rec_len rec) ++ drop 4 (record_bytes rec).
Proof. done. Qed.

(** The length of a record, once it was found at the start of [post]. *)
Lemma length_read rec post :
  take (Z.to_nat 4) (bytes_of (rec :: post)) = le_bytes 4 (rec_len rec).
Proof. done. Qed.

Lemma record_in_chunk i pre rec post :
  chunk chunks i = pre ++ rec :: post →
  record_ok rec ∧ (concat chunks) !! (length (concat (take i chunks)) + length pre)%nat = Some rec ∧
  base_of chunks i + size_of pre + rec_len rec ≤ size_of (concat chunks) ∧
  size_of pre + rec_len rec ≤ size_of (chunk chunks i).
Proof.
  intros E. pose proof (chunk_split chunks i) as Hc. rewrite E in Hc. pose proof (records_ok _ Hlog) as Hr.
  rewrite Hc in Hr. apply Forall_app in Hr as [_ Hr]. rewrite <- app_assoc in Hr. apply Forall_app in Hr as [_ Hr].
  inversion Hr as [|? ? Hrec _]. subst. pose proof Hrec as (Hlen & _). split; [done|]. split; [|split].
  - rewrite Hc, <- app_assoc, lookup_app_r by lia. rewrite Nat.add_comm, Nat.add_sub, lookup_app_r by lia.
    by rewrite Nat.sub_diag.
  - rewrite Hc, !size_of_app, size_of_cons. unfold base_of. pose proof (size_of_nonneg post).
    pose proof (size_of_nonneg (concat (drop (S i) chunks))). lia.
  - rewrite E, size_of_app, size_of_cons. pose proof (size_of_nonneg post). lia.
Qed.

(** The bytes after the length of a record. *)
Lemma read_body io r i pre rec post :
  read_goes io → reader_sees r → chunk chunks i = pre ++ rec :: post → reader_at r i (size_of pre + 4) →
  ∃ r', binlog_read_data io files writer r (rec_len rec - 4) = Some (rec_len rec - 4, drop 4 (record_bytes rec), r') ∧
    reader_at r' i (size_of pre + rec_len rec) ∧ moved_from r r'.
Proof.
  intros Hio Hs E Ha. destruct (record_in_chunk _ _ _ _ E) as ((Hlen & Hmax & _) & _ & Htot & Hsz).
  pose proof (zlen_nonneg (rec_data rec)). assert (RECORD_SIZE ≤ rec_len rec) as Hmin by lia. unfold RECORD_SIZE in Hmin.
  assert (take (Z.to_nat (rec_len rec - 4)) (rest_of i (size_of pre + 4)) = drop 4 (record_bytes rec)) as Hd.
  { rewrite (rest_of_boundary _ _ _ 4 E), bytes_of_cons by lia. rewrite record_split at 1.
    rewrite <- app_assoc. rewrite drop_app_length' by done. rewrite take_app_length'; [done|].
    rewrite length_drop. pose proof (zlen_record rec) as Hz. unfold zlen in *. unfold RECORD_SIZE in *. lia. }
  assert (zlen (drop 4 (record_bytes rec)) = rec_len rec - 4) as Hl.
  { pose proof (zlen_record rec) as Hz. unfold zlen in *. rewrite length_drop. unfold RECORD_SIZE in *. lia. }
  destruct (read_data_here io r i (size_of pre + 4) (rec_len rec - 4) Hio Hs Ha) as (Er & Hr & Hm); [lia| | |].
  - rewrite (proj2 (Z.ltb_ge _ _)) by lia. apply andb_false_r.
  - left. destruct (rest_of_split i (size_of pre + 4)) as (_ & _ & _ & ->); [apply Ha|]. lia.
  - rewrite Hd, Hl in Er, Hr. eexists. split; [exact Er|]. split; [|by rewrite Hd, Hl in Hm].
    by replace (size_of pre + rec_len rec) with (size_of pre + 4 + (rec_len rec - 4)) by lia.
Qed.

(** The length of the next record, here or in the next file. *)
Lemma read_length io r i off k rec :
  read_goes io → reader_sees r → reader_at r i off → base_of chunks i + off = size_of (take k (concat chunks)) →
  concat chunks !! k = Some rec →
  ∃ r' j pre post, binlog_read_data io files writer r 4 = Some (4, le_bytes 4 (rec_len rec), r') ∧
    chunk chunks j = pre ++ rec :: post ∧ (length (concat (take j chunks)) + length pre)%nat = k ∧
    reader_at r' j (size_of pre + 4) ∧ moved_from r r'.
Proof.
  intros Hio Hs Ha Hp Hk. pose proof (lookup_lt_Some _ _ _ Hk) as Hlt.
  destruct (boundary i off k) as (pre & post & E & -> & Ek); [lia|done|apply Ha|].
  assert (∀ j pre rec' post, chunk chunks j = pre ++ rec' :: post → (length (concat (take j chunks)) + length pre)%nat = k →
    rec' = rec ∧ 16 ≤ rec_len rec ∧ has_writer r && (size_of (concat chunks) - (base_of chunks j + size_of pre) <? 4) = false)
    as Hrec.
  { intros j pre' rec' post' E' Ek'. destruct (record_in_chunk _ _ _ _ E') as ((Hlen & _) & Hl & Htot & _).
    rewrite Ek', Hk in Hl. injection Hl as ->. pose proof (zlen_nonneg (rec_data rec')). unfold RECORD_SIZE in *.
    split; [done|]. split; [lia|]. rewrite (proj2 (Z.ltb_ge _ _)) by lia. apply andb_false_r. }
  destruct post as [|rec' post].
  - rewrite app_nil_r in E. assert (rest_of i (size_of pre) = []) as Er.
    { rewrite <- (Z.add_0_r (size_of pre)), (rest_of_boundary i pre [] 0); [done|by rewrite app_nil_r|lia]. }
    assert (length (concat (take (S i) chunks)) = k) as Ek'.
    { rewrite <- Ek. unfold chunk in E. destruct (chunks !! i) as [c|] eqn:Ec.
      - cbn in E. subst c. rewrite (take_S_r _ _ _ Ec), concat_app, length_app. simpl. rewrite app_nil_r. done.
      - cbn in E. subst pre. apply lookup_ge_None in Ec. rewrite !take_ge by lia. simpl. lia. }
    assert (S i < length chunks)%nat as Hi.
    { destruct (decide (S i < length chunks)%nat); [done|]. rewrite take_ge in Ek' by lia. lia. }
    destruct (lookup_lt_is_Some_2 chunks (S i) Hi) as [c Ec].
    assert (c ≠ []) as Hc by (pose proof (chunks_some _ Hlog) as Hcs; rewrite Forall_lookup in Hcs; by apply (Hcs (S i))).
    destruct c as [|rec' post]; [done|]. assert (chunk chunks (S i) = [] ++ rec' :: post) as E' by (unfold chunk; by rewrite Ec).
    destruct (Hrec _ _ _ _ E') as (-> & Hmin & Hnc); [simpl; lia|].
    pose proof (base_next chunks i) as Hb. rewrite E in Hb. change (size_of []) with 0 in Hnc. rewrite Z.add_0_r, Hb in Hnc.
    destruct (read_data_next io r i (size_of pre) 4 Hio Hs Ha) as (r' & Erd & Ha' & Hm);
      [lia|done|by rewrite Er|done|].
    rewrite Er in Erd, Ha'. rewrite E' in Erd, Ha'. change (zlen []) with 0 in Erd, Ha'. rewrite Z.sub_0_r in Erd, Ha'.
    cbn [app] in Erd, Ha'. rewrite length_read in Erd, Ha'. exists r', (S i), [], post.
    split; [done|]. split; [done|]. split; [simpl; lia|]. done.
  - destruct (Hrec _ _ _ _ E Ek) as (-> & Hmin & Hnc).
    pose proof (rest_of_boundary i pre (rec :: post) 0 E) as Er. rewrite Z.add_0_r in Er. rewrite drop_0 in Er.
    destruct (read_data_here io r i (size_of pre) 4 Hio Hs Ha) as (Erd & Ha' & Hm); [lia|done| |].
    + left. destruct (rest_of_split i (size_of pre)) as (_ & _ & _ & ->); [apply Ha|].
      rewrite E, size_of_app, size_of_cons. destruct (record_in_chunk _ _ _ _ E) as ((Hlen & _) & _).
      pose proof (size_of_nonneg post). lia.
    + rewrite Er, length_read in Erd, Ha', Hm by lia. by eexists _, i, pre, post.
Qed.

Lemma take_at j pre post : chunk chunks j = pre ++ post →
  take (length (concat (take j chunks)) + length pre) (concat chunks) = concat (take j chunks) ++ pre.
Proof.
  intros E. rewrite (chunk_split chunks j). rewrite E, take_app_add, <- app_assoc. by rewrite take_app_length.
Qed.

Lemma read_record_some io r i off k rec :
  read_goes (fst io) → read_goes (snd io) → reader_sees r → reader_at r i off →
  base_of chunks i + off = size_of (take k (concat chunks)) → concat chunks !! k = Some rec →
  ∃ r' j off', binlog_read_record io files writer r = Some (1, record_bytes rec, r') ∧ reader_at r' j off' ∧
    base_of chunks j + off' = size_of (take (S k) (concat chunks)) ∧ moved_from r r' ∧ rec_len rec ≤ off'.
Proof.
  intros Hio1 Hio2 Hs Ha Hp Hk.
  destruct (read_length (fst io) r i off k rec Hio1 Hs Ha Hp Hk) as (r1 & j & pre & post & E1 & Ec & Ej & Ha1 & Hm1).
  destruct (record_in_chunk _ _ _ _ Ec) as ((Hlen & Hmax & _) & _). pose proof (zlen_nonneg (rec_data rec)).
  unfold RECORD_SIZE in Hlen.
  destruct (read_body (snd io) r1 j pre rec post Hio2 (reader_sees_moved _ _ Hm1 Hs) Ec Ha1) as (r2 & E2 & Ha2 & Hm2).
  exists r2, j, (size_of pre + rec_len rec). split_and!.
  - unfold binlog_read_record. rewrite E1. cbn [mbind option_bind]. rewrite le_value_bytes by (cbn; lia).
    rewrite (proj2 (Z.ltb_ge (rec_len rec) 4)) by lia. cbn [Z.ltb Z.compare Z.eqb negb Pos.eqb]. rewrite E2.
    cbn [mbind option_bind]. rewrite (proj2 (Z.ltb_ge _ _)) by lia. rewrite u32_small, Z.eqb_refl by lia. done.
  - done.
  - rewrite (take_S_r _ _ _ Hk), <- Ej, (take_at _ _ _ Ec), !size_of_app, size_of_one. unfold base_of, RECORD_SIZE. lia.
  - destruct Hm1 as (? & ? & ?), Hm2 as (? & ? & ?). unfold moved_from. split_and!; congruence.
  - pose proof (size_of_nonneg pre). lia.
Qed.

Lemma set_offset_same r : set_offset r (reader_offset r) = r.
Proof. by destruct r. Qed.

Lemma reader_offset_small r i off : reader_at r i off → 0 ≤ reader_offset r < 2 ^ 32.
Proof. intros Ha. rewrite (at_offset _ _ _ Ha). pose proof (at_range _ _ _ Ha). pose proof (chunk_small chunks i Hlog). lia. Qed.

(** A reader at the end of the log is in its last file. *)
Lemma end_is_last r i off :
  reader_at r i off → base_of chunks i + off = size_of (concat chunks) →
  (length chunks ≤ S i)%nat ∧ off = size_of (chunk chunks i).
Proof.
  intros Ha Hp. pose proof (at_range _ _ _ Ha) as Hr. pose proof (base_le chunks i). split; [|lia].
  destruct (decide (length chunks ≤ S i)%nat) as [|Hn]; [done|].
  pose proof (base_next chunks i). pose proof (base_le chunks (S i)).
  destruct (lookup_lt_is_Some_2 chunks (S i)) as [c Ec]; [lia|].
  assert (c ≠ []) as Hc by (pose proof (chunks_some _ Hlog) as Hcs; rewrite Forall_lookup in Hcs; by apply (Hcs (S i))).
  assert (chunk chunks (S i) = c) as E by (unfold chunk; by rewrite Ec). rewrite E in *.
  destruct c as [|x c]; [done|]. rewrite size_of_cons in *. pose proof (zlen_nonneg (rec_data x)).
  pose proof (size_of_nonneg c). unfold RECORD_SIZE in *. lia.
Qed.

Lemma read_data_end io r i off n :
  read_goes io → reader_sees r → reader_at r i off → base_of chunks i + off = size_of (concat chunks) → 0 ≤ n < 2 ^ 31 →
  binlog_read_data io files writer r n = Some (0, [], r).
Proof.
  intros Hio Hs Ha Hp Hn. destruct (end_is_last r i off Ha Hp) as [Hi Ho].
  destruct (has_writer r) eqn:Eh.
  - unfold binlog_read_data. rewrite (caught_up_at r i off Hs Ha), Eh. rewrite (proj2 (Z.ltb_lt _ _)) by lia. done.
  - destruct (read_data_here io r i off n Hio Hs Ha Hn) as (E & _); [by rewrite Eh|by right|].
    destruct (rest_of_split i off (at_range _ _ _ Ha)) as (_ & _ & _ & Hl).
    assert (rest_of i off = []) as Er by (apply length_zero_iff_nil; unfold zlen in Hl; lia).
    rewrite Er, take_nil in E. change (zlen []) with 0 in E. rewrite Z.add_0_r in E.
    rewrite u32_small in E by by eapply reader_offset_small. by rewrite set_offset_same in E.
Qed.

Lemma read_record_end io r i off :
  read_goes (fst io) → reader_sees r → reader_at r i off → base_of chunks i + off = size_of (concat chunks) →
  binlog_read_record io files writer r = Some (0, [], r).
Proof.
  intros Hio Hs Ha Hp. unfold binlog_read_record. rewrite (read_data_end (fst io) r i off) by (done || lia).
  cbn [mbind option_bind Z.ltb Z.compare Z.eqb negb]. rewrite Z.sub_0_r, u32_small by by eapply reader_offset_small.
  by rewrite set_offset_same.
Qed.

(** *** Opening *)

Lemma scan_items_rep p index its fuel i :
  index_rep index its → its ≠ [] → (i ≤ length its)%nat → (length its - i < fuel)%nat →
  ∃ j, (i ≤ j ≤ length its)%nat ∧ scan_items fuel p index (Z.of_nat i) = Some (Z.of_nat j) ∧
    (∀ m it, (i ≤ m < j)%nat → its !! m = Some it → p it = true) ∧ ∀ it, its !! j = Some it → p it = false.
Proof.
  intros Hr Hne. apply zlen_pos in Hne. pose proof Hr as (Hb & El & _). rewrite u32_small in El by lia.
  revert i. induction fuel as [|fuel IH]; intros i Hi Hf; [lia|]. cbn [scan_items]. rewrite El.
  destruct (Z.leb_spec (Z.of_nat i) (zlen its - 1)) as [Hle|Hgt].
  - destruct (lookup_lt_is_Some_2 its i) as [it Eit]; [unfold zlen in *; lia|].
    rewrite (item_at_rep _ _ _ _ Hr Eit). cbn [mbind option_bind]. destruct (p it) eqn:Ep.
    + rewrite u32_small by lia. replace (Z.of_nat i + 1) with (Z.of_nat (S i)) by lia.
      destruct (IH (S i)) as (j & Hj & Es & Hall & Hend); [unfold zlen in *; lia|unfold zlen in *; lia|].
      exists j. split; [lia|]. split; [done|]. split; [|done]. intros m x Hm Hx.
      destruct (decide (m = i)) as [->|]; [congruence|]. apply (Hall m); [lia|done].
    + exists i. split; [lia|]. split; [done|]. split; [intros; exfalso; lia|]. intros x Hx. congruence.
  - exists i. split; [lia|]. split; [done|]. split; [intros; exfalso; lia|]. intros x Hx.
    apply lookup_lt_Some in Hx. unfold zlen in *. lia.
Qed.

Lemma choose_item_rep p index its :
  index_rep index its → its ≠ [] →
  ∃ j it, choose_item p index = Some (Z.of_nat j, it) ∧ its !! j = Some it ∧
    (∀ m x, (m ≤ j)%nat → its !! m = Some x → (0 < j)%nat ∨ p it = true → p x = true) ∧
    (∀ x, its !! S j = Some x → p it = true → p x = false).
Proof.
  intros Hr Hne. pose proof Hr as (Hb & El & _). pose proof (zlen_pos _ Hne). rewrite u32_small in El by lia.
  unfold choose_item. rewrite El.
  destruct (scan_items_rep p index its (Z.to_nat (zlen its - 1) + 2) 0 Hr Hne) as (j & Hj & Es & Hall & Hend);
    [lia|unfold zlen in *; lia|].
  change (Z.of_nat 0) with 0 in Es. rewrite Es. cbn [mbind option_bind].
  destruct j as [|j].
  - destruct (lookup_lt_is_Some_2 its 0) as [it Eit]; [unfold zlen in *; lia|]. exists O, it.
    pose proof (item_at_rep _ _ 0%nat _ Hr Eit) as E0. change (Z.of_nat 0) with 0 in *.
    cbn [Z.gtb Z.compare]. rewrite E0. cbn. split; [done|]. split; [done|].
    rewrite (Hend _ Eit). split; [intros ? ? ? ? [?|?]; [exfalso; lia|done]|done].
  - rewrite Z.gtb_ltb, (proj2 (Z.ltb_lt _ _)) by lia. replace (Z.of_nat (S j) - 1) with (Z.of_nat j) by lia.
    destruct (lookup_lt_is_Some_2 its j) as [it Eit]; [lia|]. exists j, it. rewrite (item_at_rep _ _ _ _ Hr Eit).
    cbn. split; [done|]. split; [done|]. split.
    + intros m x Hm Hx _. apply (Hall m); [lia|done].
    + intros x Hx _. by apply Hend.
Qed.

(** Every offset of the log lies in the file that is chosen for it. *)
Lemma start_at_offset index p :
  index_rep index (items_of chunks) → 0 ≤ p ≤ size_of (concat chunks) →
  ∃ i off, start_at index (READER_INIT_BY_OFFSET p) = Some (Z.of_nat i, off, Z.of_nat i) ∧
    base_of chunks i + off = p ∧ 0 ≤ off ≤ size_of (chunk chunks i) ∧ ((i < length chunks)%nat ∨ i = O).
Proof.
  intros Hr Hp. unfold start_at. rewrite (no_items_rep _ _ Hr). case_bool_decide as E.
  - apply items_of_nil in E as E0. rewrite E0 in Hp |- *. change (size_of (concat [])) with 0 in Hp. exists O, 0. assert (p = 0) as -> by lia.
    cbn. split; [done|]. split; [done|]. split; [done|by right].
  - destruct (choose_item_rep (λ it, item_abs_offset it <=? p) index _ Hr E) as (j & it & -> & Hj & Hle & Hnext).
    cbn [mbind option_bind]. unfold items_of in Hj. rewrite list_lookup_imap in Hj.
    destruct (chunks !! j) as [c|] eqn:Ec; [|done]. injection Hj as <-. cbn [item_suffix item_abs_offset] in *.
    pose proof (lookup_lt_Some _ _ _ Ec) as Hlt. pose proof (chunk_small chunks j Hlog).
    assert (base_of chunks j ≤ p) as Hb.
    { apply Z.leb_le. destruct j as [|j]; [change (base_of chunks 0) with 0; apply Z.leb_le; lia|].
      apply (Hle (S j) _ ltac:(lia) (items_of_lookup _ _ _ Ec)). left. lia. }
    assert (p ≤ base_of chunks j + size_of (chunk chunks j)) as Hb2.
    { rewrite <- base_next. destruct (decide (S j < length chunks)%nat) as [Hs|Hs]; [|rewrite base_end by lia; lia].
      destruct (lookup_lt_is_Some_2 chunks (S j) Hs) as [d Ed].
      pose proof (Hnext _ (items_of_lookup _ _ _ Ed) (proj2 (Z.leb_le _ _) Hb)) as Hn. cbn in Hn. zb. lia. }
    exists j, (p - base_of chunks j). rewrite u32_small by lia. split; [done|]. split; [lia|]. split; [lia|by left].
Qed.
End reading.

(** ** The abstract log *)

(** The records, and the reader: whether it follows the writer, and the offset it
    is at. *)
Record log_spec := LogSpec { spec_log : list binlog_record; spec_reader : option (bool * Z) }.

Inductive log_op :=
| LWrite (io : write_io) (r : binlog_record)
| LConfirm (io : write_io) (ok : bool)
| LRestart (sync : bool)
| LOpen (follow : bool) (offset : Z)
| LRead (io : read_io * read_io).

Fixpoint record_at (log : list binlog_record) (p : Z) : option binlog_record :=
  match log with
  | [] => None
  | r :: log => if p =? 0 then Some r else record_at log (p - rec_len r)
  end.

(** A reader with an index of its own is closed before the log is written. *)
Definition followers (rd : option (bool * Z)) : option (bool * Z) :=
  match rd with Some (true, p) => Some (true, p) | _ => None end.

Definition confirm_record (ok : bool) : binlog_record :=
  Record_ RECORD_SIZE 0 0 0 0 (if ok then OPERATION_CONFIRM_OK else OPERATION_CONFIRM_FAIL) [].

(** What a read returns: the record, if there is one, and the new offset. *)
Definition spec_step (s : log_spec) (op : log_op) : option (option (list Z) * Z) * log_spec :=
  let '(LogSpec log rd) := s in
  match op with
  | LWrite io r => (None, LogSpec (log ++ [set_time r (u32 (io_time io))]) (followers rd))
  | LConfirm io ok => (None, LogSpec (log ++ [set_time (confirm_record ok) (u32 (io_time io))]) (followers rd))
  | LRestart _ => (None, LogSpec log None)
  | LOpen follow p => (None, LogSpec log (Some (follow, p)))
  | LRead _ =>
      match rd with
      | None => (None, s)
      | Some (follow, p) =>
          let rec := record_at log p in
          let p := p + from_option rec_len 0 rec in
          (Some (record_bytes <$> rec, p), LogSpec log (Some (follow, p)))
      end
  end.

Fixpoint spec_run (s : log_spec) (ops : list log_op) : list (option (list Z) * Z) * log_spec :=
  match ops with
  | [] => ([], s)
  | op :: ops =>
      let '(out, s) := spec_step s op in
      let '(outs, s) := spec_run s ops in
      (option_list out ++ outs, s)
  end.

Definition room_for (log : list binlog_record) (r : binlog_record) : Prop :=
  zlen log < 2 ^ 31 ∧ size_of log + rec_len r < 2 ^ 63.

Definition spec_op_ok (s : log_spec) (op : log_op) : Prop :=
  match op with
  | LWrite io r => write_goes io ∧ record_ok (set_time r (u32 (io_time io))) ∧ room_for (spec_log s) r
  | LConfirm io ok => write_goes io ∧ room_for (spec_log s) (confirm_record ok)
  | LRestart _ => True
  | LOpen _ p => ∃ k, (k ≤ length (spec_log s))%nat ∧ p = size_of (take k (spec_log s))
  | LRead io => read_goes (fst io) ∧ read_goes (snd io) ∧ is_Some (spec_reader s)
  end.

Fixpoint spec_ops_ok (s : log_spec) (ops : list log_op) : Prop :=
  match ops with
  | [] => True
  | op :: ops => spec_op_ok s op ∧ spec_ops_ok (snd (spec_step s op)) ops
  end.

(** ** Runs of the code *)

Record log_state := LogState { st_files : binlog_files; st_writer : BL_WRITER; st_reader : ptr BL_READER }.

Definition keep_followers (rd : ptr BL_READER) : ptr BL_READER :=
  match rd with Ptr r => if has_writer r then Ptr r else NULL | NULL => NULL end.

Definition all_well : init_io := InitIo true true true.

(** A step whose calls do not return success stops the run. *)
Definition log_step (max_size : Z) (st : log_state) (op : log_op)
    : option (option (option (list Z) * Z) * log_state) :=
  let '(LogState files w rd) := st in
  match op with
  | LWrite io r =>
      '(rc, files, w) ← binlog_write_record io files w (Ptr r);
      if rc =? 0 then Some (None, LogState files w (keep_followers rd)) else None
  | LConfirm io ok =>
      '(rc, files, w) ← (if ok then binlog_confirm_ok io files w else binlog_confirm_fail io files w);
      if rc =? 0 then Some (None, LogState files w (keep_followers rd)) else None
  | LRestart sync =>
      '(w, files) ← binlog_writer_init all_well files max_size;
      match w with
      | NULL => None
      | Ptr w => Some (None, LogState files (Writer (writer_max_size w) (writer_fd w) sync (writer_abs_offset w)
                                              (writer_index w)) NULL)
      end
  | LOpen follow p =>
      '(rd, files) ← binlog_reader_init_byoffset all_well files max_size p (if follow then Ptr w else NULL);
      match rd with NULL => None | Ptr r => Some (None, LogState files w (Ptr r)) end
  | LRead io =>
      match rd with
      | NULL => None
      | Ptr r =>
          '(rc, rec, r) ← binlog_read_record io files (Ptr w) r;
          pos ← binlog_get_position (Ptr w) r;
          if rc <? 0 then None
          else Some (Some (if rc =? 0 then None else Some rec, pos), LogState files w (Ptr r))
      end
  end.

Fixpoint log_run (max_size : Z) (st : log_state) (ops : list log_op)
    : option (list (option (list Z) * Z) * log_state) :=
  match ops with
  | [] => Some ([], st)
  | op :: ops =>
      '(out, st) ← log_step max_size st op;
      '(outs, st) ← log_run max_size st ops;
      Some (option_list out ++ outs, st)
  end.

(** The log of an empty directory, opened and used. *)
Definition log_session (max_size : Z) (ops : list log_op) : option (list (option (list Z) * Z) * log_state) :=
  '(w, files) ← binlog_writer_init all_well (Files [] ∅) max_size;
  match w with NULL => None | Ptr w => log_run max_size (LogState files w NULL) ops end.

(** ** The relation *)

Definition reader_rel (st : log_state) (chunks : list (list binlog_record)) (rd : option (bool * Z)) : Prop :=
  match rd, st_reader st with
  | None, NULL => True
  | Some (follow, p), Ptr r =>
      has_writer r = follow ∧ (follow = true → reader_index_ r = WriterIndex) ∧
      reader_sees (Ptr (st_writer st)) chunks r ∧
      (∃ i off, reader_at (st_files st) chunks r i off ∧ base_of chunks i + off = p) ∧
      ∃ k, (k ≤ length (concat chunks))%nat ∧ p = size_of (take k (concat chunks))
  | _, _ => False
  end.

Definition log_rel (max_size : Z) (st : log_state) (s : log_spec) : Prop :=
  ∃ chunks, concat chunks = spec_log s ∧ log_ok chunks ∧ files_rep (st_files st) chunks ∧
    writer_rep (st_writer st) (st_files st) chunks ∧ writer_max_size (st_writer st) = max_size ∧
    reader_rel st chunks (spec_reader s).

Lemma record_at_take log k :
  Forall record_ok log → (k ≤ length log)%nat → record_at log (size_of (take k log)) = log !! k.
Proof.
  intros Hl. revert k. induction Hl as [|r log (Hlen & _) _ IH]; intros k Hk; [done|].
  destruct k as [|k]; [done|]. cbn [record_at take lookup list_lookup]. simpl in Hk.
  rewrite size_of_cons. pose proof (zlen_nonneg (rec_data r)). pose proof (size_of_nonneg (take k log)).
  rewrite (proj2 (Z.eqb_neq _ _)) by (unfold RECORD_SIZE in *; lia).
  replace (RECORD_SIZE + zlen (rec_data r) + size_of (take k log) - rec_len r) with (size_of (take k log)) by lia.
  apply IH. lia.
Qed.

Lemma added_base chunks r chunks' i :
  added chunks r chunks' → (i < length chunks)%nat ∨ i = O → base_of chunks' i = base_of chunks i.
Proof.
  intros Ha Hi. unfold base_of. do 2 f_equal. destruct Ha as [->|(cs & c & -> & ->)].
  - rewrite take_app_le by lia. done.
  - rewrite length_app in Hi. simpl in Hi. rewrite !take_app_le by lia. done.
Qed.

Lemma reader_at_added files files' chunks r0 chunks' r i off :
  added chunks r0 chunks' → (∀ j, is_Some (log_files files !! j) → is_Some (log_files files' !! j)) →
  reader_at files chunks r i off → reader_at files' chunks' r i off.
Proof.
  intros Ha He [? ? ? ? ? ? Hf]. split; try done; [by apply He| |].
  - rewrite (added_chunk _ _ _ i Ha), size_of_app. pose proof (size_of_nonneg (if decide (i = (length chunks' - 1)%nat) then [r0] else [])).
    lia.
  - destruct Hf as [Hf|Hf]; [left|by right]. destruct Ha as [->|(cs & c & -> & ->)]; rewrite length_app in *; simpl in *; lia.
Qed.

Lemma writer_rep_files w files files' chunks :
  (∀ j, is_Some (log_files files !! j) → is_Some (log_files files' !! j)) → writer_rep w files chunks → writer_rep w files' chunks.
Proof. intros He []. split; auto. Qed.

Lemma write_rel max_size st s io r :
  log_rel max_size st s → write_goes io → record_ok (set_time r (u32 (io_time io))) → room_for (spec_log s) r →
  ∃ files w, binlog_write_record io (st_files st) (st_writer st) (Ptr r) = Some (0, files, w) ∧
    log_rel max_size (LogState files w (keep_followers (st_reader st)))
      (LogSpec (spec_log s ++ [set_time r (u32 (io_time io))]) (followers (spec_reader s))).
Proof.
  intros (chunks & Hc & Hl & Hf & Hw & Hm & Hrd) Hio Hr [Hn Hs]. rewrite <- Hc in Hn, Hs.
  destruct (binlog_write_record_rep io _ _ chunks r Hio Hf Hw Hl Hr Hn Hs)
    as (files' & w' & chunks' & E & Ha & Hf' & Hw' & Hl' & Hm' & He).
  exists files', w'. split; [done|]. exists chunks'. cbn. rewrite (added_concat _ _ _ Ha), Hc.
  split_and!; try done; [congruence|].
  unfold reader_rel in *. cbn. destruct (spec_reader s) as [[follow p]|]; destruct (st_reader st) as [|rd]; try done.
  destruct Hrd as (Hh & Hx & Hsee & (i & off & Hat & Hp) & k & Hk & Ek). cbn. rewrite Hh.
  destruct follow; cbn; [|done]. split; [done|]. split; [done|]. split.
  { split; [|intros _; eexists; split; [done|apply Hw']]. exists (writer_index w'). unfold index_of.
    rewrite Hx by done. split; [done|apply Hw']. }
  split.
  - exists i, off. rewrite (added_base _ _ _ i Ha) by apply Hat. split; [|done]. by eapply reader_at_added.
  - exists k. rewrite (added_concat _ _ _ Ha), length_app, take_app_le by done. split; [lia|done].
Qed.

(** A reader can be opened at any offset of the log. *)
Lemma open_at files chunks max_size p writer :
  files_rep files chunks → log_ok chunks → 0 ≤ p ≤ size_of (concat chunks) →
  (∀ w, writer = Ptr w → writer_rep w files chunks) →
  ∃ r files' i off, binlog_reader_init_byoffset all_well files max_size p writer = Some (Ptr r, files') ∧
    files_rep files' chunks ∧ (∀ j, is_Some (log_files files !! j) → is_Some (log_files files' !! j)) ∧
    reader_at files' chunks r i off ∧ base_of chunks i + off = p ∧
    has_writer r = (match writer with NULL => false | Ptr _ => true end) ∧
    (has_writer r = true → reader_index_ r = WriterIndex) ∧
    (∀ w, writer = NULL ∨ writer = Ptr w → reader_sees (Ptr w) chunks r).
Proof.
  intros Hf Hl Hp Hw. pose proof (log_files_few _ Hl). pose proof (log_length _ Hl).
  assert (∃ ref index,
    (match writer with
     | Ptr w => Some (Ptr (WriterIndex, writer_index w))
     | NULL => index ← binlog_index_init (io_fopen all_well) files;
               Some match index with NULL => NULL | Ptr index => Ptr (OwnIndex index, index) end
     end) = Some (Ptr (ref, index)) ∧ index_rep index (items_of chunks) ∧
    match writer with NULL => ref = OwnIndex index | Ptr w => ref = WriterIndex ∧ index = writer_index w end)
    as (ref & index & Ei & Hr & Href).
  { destruct writer as [|w].
    - destruct (binlog_index_init_rep files (items_of chunks)) as (index & Ei & Hr);
        [apply Hf|by apply items_of_ok|rewrite items_of_length; lia|].
      exists (OwnIndex index), index. cbn [io_fopen all_well]. rewrite Ei. done.
    - exists WriterIndex, (writer_index w). split; [done|]. split; [by apply (Hw w)|done]. }
  destruct (start_at_offset chunks Hl index p Hr Hp) as (i & off & Es & Hb & Hoff & Hi).
  destruct (open_log files chunks i Hf) as (files' & Eo & _ & Hf' & Ho & He).
  eexists _, files', i, off. unfold binlog_reader_init_byoffset, binlog_reader_init. rewrite Ei. cbn [mbind option_bind].
  rewrite Es. cbn [mbind option_bind io_open all_well]. rewrite Eo. split; [done|]. split; [done|]. split; [done|].
  split; [done|]. split; [done|]. split; [done|]. split; [by destruct writer; cbn; [|intros _; apply Href]|].
  intros w [Ew|Ew]; subst writer; cbn.
  - subst ref. split; [exists index; done|done].
  - destruct Href as [-> ->]. split; [exists (writer_index w); done|]. intros _. exists w. split; [done|]. by apply (Hw w).
Qed.

Lemma take_size_range (l : list binlog_record) k : 0 ≤ size_of (take k l) ≤ size_of l.
Proof.
  pose proof (size_of_nonneg (take k l)). rewrite <- (take_drop k l) at 3. rewrite size_of_app.
  pose proof (size_of_nonneg (drop k l)). lia.
Qed.

Lemma position_rel files writer chunks r i off :
  log_ok chunks → reader_sees writer chunks r → reader_at files chunks r i off →
  binlog_get_position writer r = Some (base_of chunks i + off).
Proof.
  intros Hl Hs Ha. unfold binlog_get_position. rewrite (position_at files writer chunks Hl r i off Hs Ha). cbn.
  pose proof (base_le chunks i). pose proof (log_size _ Hl). pose proof (at_range _ _ _ _ _ Ha).
  by rewrite s64_small by lia.
Qed.

Lemma read_rel max_size st s io follow p :
  log_rel max_size st s → read_goes (fst io) → read_goes (snd io) → spec_reader s = Some (follow, p) →
  ∃ st', log_step max_size st (LRead io) = Some (fst (spec_step s (LRead io)), st') ∧
    log_rel max_size st' (snd (spec_step s (LRead io))).
Proof.
  intros (chunks & Hc & Hl & Hf & Hw & Hm & Hrd) Hio1 Hio2 Es. destruct s as [log rd]. cbn in Es, Hc. subst rd log.
  unfold reader_rel in Hrd. cbn [spec_reader] in Hrd. destruct st as [files w [|r]]; [done|]. cbn in Hrd, Hf, Hw, Hm.
  destruct Hrd as (Hh & Hx & Hsee & (i & off & Hat & Hp) & k & Hk & Ek).
  cbn [spec_step fst snd spec_log log_step]. rewrite Ek, (record_at_take _ _ (records_ok _ Hl) Hk).
  destruct (concat chunks !! k) as [rec|] eqn:Erec.
  - destruct (read_record_some files (Ptr w) chunks Hl Hf io r i off k rec) as (r' & j & off' & E & Hat' & Hp' & Hmv & _);
      [done..|congruence|done|].
    assert (reader_sees (Ptr w) chunks r') as Hsee' by by eapply reader_sees_moved.
    assert (size_of (take (S k) (concat chunks)) = size_of (take k (concat chunks)) + rec_len rec) as Esz.
    { rewrite (take_S_r _ _ _ Erec), size_of_app, size_of_one. pose proof (records_ok _ Hl) as Hr.
      rewrite Forall_lookup in Hr. destruct (Hr _ _ Erec) as (Hlen & _). lia. }
    rewrite E. cbn [mbind option_bind]. rewrite (position_rel files (Ptr w) chunks r' j off') by done.
    cbn [mbind option_bind Z.ltb Z.compare Z.eqb]. cbn [fmap option_fmap option_map from_option].
    eexists. split; [by rewrite Hp', Esz|]. exists chunks. cbn. destruct Hmv as (_ & Hi & Hh').
    split_and!; try done; [congruence|by rewrite Hi|exists j, off'; split; [done|lia]|]. exists (S k). apply lookup_lt_Some in Erec. split; [lia|done].
  - apply lookup_ge_None in Erec. rewrite take_ge in Ek |- * by done.
    rewrite (read_record_end files (Ptr w) chunks Hl Hf io r i off) by (done || lia).
    cbn [mbind option_bind]. rewrite (position_rel files (Ptr w) chunks r i off) by done.
    cbn [mbind option_bind Z.ltb Z.compare Z.eqb]. cbn [fmap option_fmap option_map from_option]. rewrite Z.add_0_r.
    eexists. split; [by rewrite Hp, Ek|]. exists chunks. cbn. split_and!; try done.
    { exists i, off. split; [done|lia]. }
    exists k. rewrite take_ge by done. done.
Qed.

Lemma confirm_ok io ok : record_ok (set_time (confirm_record ok) (u32 (io_time io))).
Proof. pose proof (u32_bounds (io_time io)). split; [done|]. cbn. unfold RECORD_SIZE. lia. Qed.

#[local] Arguments binlog_writer_init : simpl never.
#[local] Arguments binlog_write_record : simpl never.
#[local] Arguments binlog_reader_init_byoffset : simpl never.

Lemma confirm_writes io files w ok :
  (if (ok : bool) then binlog_confirm_ok io files w else binlog_confirm_fail io files w)
  = binlog_write_record io files w (Ptr (confirm_record ok)).
Proof. by destruct ok. Qed.

Lemma log_step_rel max_size st s op :
  0 ≤ max_size < 2 ^ 32 → log_rel max_size st s → spec_op_ok s op →
  ∃ st', log_step max_size st op = Some (fst (spec_step s op), st') ∧ log_rel max_size st' (snd (spec_step s op)).
Proof.
  intros Hms Hrel Hok. destruct op as [io r|io ok|sync|follow p|io]; cbn in Hok.
  - destruct Hok as (Hio & Hr & Hroom). destruct (write_rel _ _ _ io r Hrel Hio Hr Hroom) as (files & w & E & Hrel').
    destruct st as [f0 w0 rd], s as [log sr]. cbn in *. rewrite E. eexists. by split.
  - destruct Hok as (Hio & Hroom). destruct (write_rel _ _ _ io _ Hrel Hio (confirm_ok io ok) Hroom) as (files & w & E & Hrel').
    destruct st as [f0 w0 rd], s as [log sr]. cbn [log_step st_files st_writer st_reader] in *.
    rewrite confirm_writes, E. eexists. by split.
  - destruct Hrel as (chunks & Hc & Hl & Hf & _ & Hm & _). destruct st as [files w rd], s as [log sr]. cbn in *.
    destruct (binlog_writer_init_rep files chunks max_size Hf Hl Hms) as (w' & files' & E & Hf' & Hw' & Hm'). fold all_well in E.
    rewrite E. cbn [mbind option_bind]. eexists. split; [done|]. exists chunks. cbn. split_and!; try done.
    by destruct Hw'.
  - destruct Hok as (k & Hk & ->). destruct Hrel as (chunks & Hc & Hl & Hf & Hw & Hm & _).
    destruct st as [files w rd], s as [log sr]. cbn in *. subst log.
    destruct (open_at files chunks max_size (size_of (take k (concat chunks))) (if follow then Ptr w else NULL) Hf Hl)
      as (r & files' & i & off & E & Hf' & He & Hat & Hb & Hh & Hx & Hsee).
    { apply take_size_range. }
    { intros w0 Ew. by destruct follow; [injection Ew as <-|]. }
    rewrite E. cbn [mbind option_bind]. eexists. split; [done|]. exists chunks. cbn.
    assert (has_writer r = follow) as Hh' by by destruct follow.
    split_and!; try done.
    + by eapply writer_rep_files.
    + intros Hfl. apply Hx. congruence.
    + apply Hsee. destruct follow; [by right|by left].
    + by exists i, off.
    + by exists k.
  - destruct Hok as (H1 & H2 & [[follow p] Es]). by eapply read_rel.
Qed.

Lemma log_run_rel max_size ops st s :
  0 ≤ max_size < 2 ^ 32 → log_rel max_size st s → spec_ops_ok s ops →
  ∃ st', log_run max_size st ops = Some (fst (spec_run s ops), st') ∧ log_rel max_size st' (snd (spec_run s ops)).
Proof.
  intros Hms. revert st s. induction ops as [|op ops IH]; intros st s Hrel Hok; [by exists st|].
  destruct Hok as [Hop Hops]. destruct (log_step_rel _ _ _ _ Hms Hrel Hop) as (st1 & E1 & Hrel1).
  cbn [log_run spec_run]. rewrite E1. destruct (spec_step s op) as [out s1]. cbn [mbind option_bind fst snd] in *.
  destruct (IH _ _ Hrel1 Hops) as (st2 & E2 & Hrel2). rewrite E2. destruct (spec_run s1 ops) as [outs s2].
  by exists st2.
Qed.

Lemma log_ok_nil : log_ok [].
Proof. split; by try constructor. Qed.

Lemma files_rep_nil : files_rep (Files [] ∅) [].
Proof. split; [done| |]; intros i; cbn; [by rewrite lookup_empty|lia]. Qed.

Lemma log_session_rel max_size ops :
  0 ≤ max_size < 2 ^ 32 → spec_ops_ok (LogSpec [] None) ops →
  ∃ st, log_session max_size ops = Some (fst (spec_run (LogSpec [] None) ops), st) ∧
    log_rel max_size st (snd (spec_run (LogSpec [] None) ops)).
Proof.
  intros Hms Hok. destruct (binlog_writer_init_rep _ _ max_size files_rep_nil log_ok_nil Hms) as (w & files & E & Hf & Hw & Hm).
  fold all_well in E. unfold log_session. rewrite E. cbn [mbind option_bind]. apply log_run_rel; [done| |done].
  exists []. cbn. split_and!; try done.
Qed.

(** C12: records written to the binary log of an empty directory, with confirm
    records, restarts of the writer and readers opened at any record in between,
    are read back byte for byte in the order they were written: a read returns
    the record at the reader's offset and moves the offset behind it, or says
    that there is none yet, wherever the log is cut into files and however short
    the single reads and writes are. *)
Theorem binlog_refines max_size ops :
  0 ≤ max_size < 2 ^ 32 → spec_ops_ok (LogSpec [] None) ops →
  ∃ st, log_session max_size ops = Some (fst (spec_run (LogSpec [] None) ops), st).
Proof. intros Hms Hok. destruct (log_session_rel max_size ops Hms Hok) as (st & E & _). by exists st. Qed.

Definition calm_write (t : Z) : write_io := WriteIo t true true [Bytes 3; Bytes 2] true [Bytes 5].
Definition calm_read : read_io * read_io := (ReadIo [Bytes 1] true [], ReadIo [] true [Bytes 2]).
Definition example_record (b : Z) : binlog_record := Record_ 24 0 7 b 0 2 [b; b; b; b; b; b; b; b].
Definition example_ops : list log_op :=
  [LWrite (calm_write 100) (example_record 1); LOpen true 0; LRead calm_read; LRead calm_read;
   LConfirm (calm_write 101) true; LWrite (calm_write 102) (example_record 2); LRead calm_read; LRead calm_read;
   LRestart true; LOpen false 24; LRead calm_read; LRead calm_read; LRead calm_read].

Lemma calm_write_goes t : write_goes (calm_write t).
Proof. unfold write_goes, smooth, calm_write; cbn. split_and!; eauto. Qed.

Lemma calm_read_goes : read_goes (fst calm_read) ∧ read_goes (snd calm_read).
Proof. unfold read_goes, smooth, calm_read; cbn. split_and!; eauto. Qed.

Lemma example_ops_ok : spec_ops_ok (LogSpec [] None) example_ops.
Proof.
  cbn -[write_goes read_goes record_ok room_for size_of record_at].
  split_and!; try apply calm_write_goes; try apply calm_read_goes; try done.
  - exists 0%nat. split; [lia|done].
  - exists 1%nat. split; [lia|done].
Qed.

Lemma binlog_refines_witness : ∃ st, log_session 40 example_ops = Some (
  [(Some (record_bytes (set_time (example_record 1) 100)), 24); (None, 24);
   (Some (record_bytes (set_time (confirm_record true) 101)), 40);
   (Some (record_bytes (set_time (example_record 2) 102)), 64);
   (Some (record_bytes (set_time (confirm_record true) 101)), 40);
   (Some (record_bytes (set_time (example_record 2) 102)), 64); (None, 64)], st).
Proof. exact (binlog_refines 40 example_ops ltac:(lia) example_ops_ok). Defined.
