(* ===== verification/BinlogSync.v ===== *)
(** * Recovery from the binary log and its transfer to a slave

    Opening a reader at a time, reading to the end, and the packets a slave is
    sent ([binlog_reader_init_bytime], [seek_to_time], [binlog_is_read_all] and
    [execute_slave_sync] of [src/storage/binlog.c]). *)

From Stdlib Require Import ZArith Lia Sorted.
From stdpp Require Import base option list numbers gmap.
From S2P Require Import Prelude LowData Hash Binlog BinlogSpec.

(** ** Recovery *)

(** The records from the reader's place to the end of the log. *)
Fixpoint read_all (fuel : nat) (io : nat → read_io * read_io) (files : binlog_files) (writer : ptr BL_WRITER)
    (r : BL_READER) : option (list (list Z) * BL_READER) :=
  match fuel with
  | O => None
  | S fuel =>
      '(rc, rec, r) ← binlog_read_record (io fuel) files writer r;
      if rc <? 0 then None
      else if rc =? 0 then Some ([], r)
      else '(recs, r) ← read_all fuel io files writer r; Some (rec :: recs, r)
  end.

Definition reads_go (io : nat → read_io * read_io) : Prop := ∀ n, read_goes (fst (io n)) ∧ read_goes (snd (io n)).

Lemma time_of_record rec : 0 ≤ rec_time rec < 2 ^ 32 → time_of_bytes (record_bytes rec) = Some (rec_time rec).
Proof.
  intros Ht. unfold time_of_bytes, record_bytes. rewrite zsub_mid; [|by rewrite zlen_le_bytes..].
  cbn [fmap option_fmap option_map]. by rewrite le_value_bytes by (cbn; lia).
Qed.

Lemma len_of_record rec : 0 ≤ rec_len rec < 2 ^ 32 → len_of_bytes (record_bytes rec) = Some (rec_len rec).
Proof.
  intros Ht. unfold len_of_bytes, record_bytes.
  match goal with |- context [zsub (?a ++ ?b) 0 4] => pose proof (zsub_mid [] a b 0 4) as E end. cbn [app] in E.
  rewrite E by (done || by rewrite zlen_le_bytes).
  cbn [fmap option_fmap option_map]. by rewrite le_value_bytes by (cbn; lia).
Qed.

Section recovery.
Context (files : binlog_files) (writer : ptr BL_WRITER) (chunks : list (list binlog_record)).
Hypothesis Hlog : log_ok chunks.
Hypothesis Hfiles : files_rep files chunks.

(** The reader is before record [k]. *)
Definition at_record (r : BL_READER) (k : nat) : Prop :=
  reader_sees writer chunks r ∧ (k ≤ length (concat chunks))%nat ∧
  ∃ i off, reader_at files chunks r i off ∧ base_of chunks i + off = size_of (take k (concat chunks)).

Lemma next_record io r k rec :
  read_goes (fst io) → read_goes (snd io) → at_record r k → concat chunks !! k = Some rec →
  ∃ r', binlog_read_record io files writer r = Some (1, record_bytes rec, r') ∧ at_record r' (S k) ∧
    at_record (set_offset r' (u32 (reader_offset r' - rec_len rec))) k ∧ rec_len rec ≤ reader_offset r'.
Proof.
  intros H1 H2 (Hs & Hk & i & off & Hat & Hp) Hrec.
  destruct (read_record_some files writer chunks Hlog Hfiles io r i off k rec H1 H2 Hs Hat Hp Hrec)
    as (r' & j & off' & E & Hat' & Hp' & Hm & Hle).
  pose proof (reader_sees_moved _ _ _ _ Hm Hs) as Hs'. apply lookup_lt_Some in Hrec as Hlt.
  exists r'. split; [done|]. split; [split; [done|]; split; [lia|]; by exists j, off'|].
  rewrite (at_offset _ _ _ _ _ Hat'). split; [|done].
  assert (size_of (take (S k) (concat chunks)) = size_of (take k (concat chunks)) + rec_len rec ∧ 0 ≤ rec_len rec) as [Esz Hpos].
  { rewrite (take_S_r _ _ _ Hrec), size_of_app, size_of_one. pose proof (records_ok _ Hlog) as Hr.
    rewrite Forall_lookup in Hr. destruct (Hr _ _ Hrec) as (Hlen & _). pose proof (zlen_nonneg (rec_data rec)).
    unfold RECORD_SIZE in *. lia. }
  pose proof (at_range _ _ _ _ _ Hat'). pose proof (chunk_small chunks j Hlog). rewrite u32_small by lia.
  split; [done|]. split; [done|]. exists j, (off' - rec_len rec). split; [|lia].
  destruct Hat'. split; cbn; try done; lia.
Qed.

Lemma no_next_record io r :
  read_goes (fst io) → at_record r (length (concat chunks)) → binlog_read_record io files writer r = Some (0, [], r).
Proof.
  intros H1 (Hs & _ & i & off & Hat & Hp). rewrite take_ge in Hp by lia. by eapply read_record_end.
Qed.

Lemma seek_to_time_at io r k fuel t :
  reads_go io → at_record r k → (length (concat chunks) - k < fuel)%nat →
  ∃ r' m, seek_to_time fuel io files writer r t = Some (0, r') ∧ at_record r' m ∧ (k ≤ m)%nat ∧
    (∀ n rec, (k ≤ n < m)%nat → concat chunks !! n = Some rec → rec_time rec < t) ∧
    (∀ rec, concat chunks !! m = Some rec → t ≤ rec_time rec).
Proof.
  intros Hio. revert r k. induction fuel as [|fuel IH]; intros r k Hat Hf; [lia|]. cbn [seek_to_time].
  destruct (Hio fuel) as [H1 H2]. destruct (concat chunks !! k) as [rec|] eqn:Erec.
  - destruct (next_record (io fuel) r k rec H1 H2 Hat Erec) as (r1 & -> & Hat1 & Hback & Hle).
    pose proof (records_ok _ Hlog) as Hr. rewrite Forall_lookup in Hr. destruct (Hr _ _ Erec) as (Hlen & Hmax & Ht).
    pose proof (zlen_nonneg (rec_data rec)). unfold RECORD_SIZE in *.
    cbn [mbind option_bind Z.ltb Z.compare Z.eqb]. rewrite time_of_record by done. cbn [mbind option_bind].
    rewrite len_of_record by lia. destruct (Z.geb_spec (rec_time rec) t) as [Hge|Hlt].
    + cbn [mbind option_bind]. rewrite (proj2 (Z.ltb_ge _ _)) by lia. eexists _, k. split; [done|]. split; [done|].
      split; [lia|]. split; [intros; exfalso; lia|]. intros x Hx. congruence.
    + destruct (IH r1 (S k) Hat1) as (r' & m & E & Hat' & Hm & Hbefore & Hafter).
      { apply lookup_lt_Some in Erec. lia. }
      exists r', m. split; [done|]. split; [done|]. split; [lia|]. split; [|done]. intros n x Hn Hx.
      destruct (decide (n = k)) as [->|]; [congruence|]. apply (Hbefore n); [lia|done].
  - apply lookup_ge_None in Erec. assert (k = length (concat chunks)) as -> by (destruct Hat as (_ & ? & _); lia).
    rewrite no_next_record by done. cbn [mbind option_bind Z.ltb Z.compare Z.eqb]. eexists _, _.
    split; [done|]. split; [done|]. split; [lia|]. split; [intros; exfalso; lia|]. intros x Hx.
    apply lookup_lt_Some in Hx. lia.
Qed.

Lemma read_all_at io r k fuel :
  reads_go io → at_record r k → (length (concat chunks) - k < fuel)%nat →
  ∃ r', read_all fuel io files writer r = Some (record_bytes <$> drop k (concat chunks), r') ∧
    at_record r' (length (concat chunks)).
Proof.
  intros Hio. revert r k. induction fuel as [|fuel IH]; intros r k Hat Hf; [lia|]. cbn [read_all].
  destruct (Hio fuel) as [H1 H2]. destruct (concat chunks !! k) as [rec|] eqn:Erec.
  - destruct (next_record (io fuel) r k rec H1 H2 Hat Erec) as (r1 & -> & Hat1 & _).
    cbn [mbind option_bind Z.ltb Z.compare Z.eqb]. apply lookup_lt_Some in Erec as Hlt.
    destruct (IH r1 (S k) Hat1) as (r' & -> & Hat'); [lia|]. cbn [mbind option_bind]. exists r'.
    by rewrite (drop_S _ _ _ Erec).
  - apply lookup_ge_None in Erec. assert (k = length (concat chunks)) as -> by (destruct Hat as (_ & ? & _); lia).
    rewrite no_next_record by done. cbn [mbind option_bind Z.ltb Z.compare Z.eqb]. rewrite drop_ge by lia. by exists r.
Qed.

Lemma is_read_all_at r : at_record r (length (concat chunks)) → binlog_is_read_all true files r = Some 1.
Proof.
  intros (_ & _ & i & off & Hat & Hp). rewrite take_ge in Hp by lia.
  destruct (end_is_last files chunks Hlog r i off Hat Hp) as [_ Ho].
  unfold binlog_is_read_all. cbn [negb].
  rewrite (at_fd _ _ _ _ _ Hat), (default_bytes _ _ (log_content _ _ Hfiles i) (at_open _ _ _ _ _ Hat)).
  cbn [mbind option_bind]. change (zlen (bytes_of ?x)) with (size_of x). pose proof (chunk_small chunks i Hlog).
  rewrite u32_small, (at_offset _ _ _ _ _ Hat), Ho, Z.eqb_refl by lia. done.
Qed.
End recovery.

(** *** Opening at a time *)

(** The records were written by a clock that never went back. *)
Definition in_order (log : list binlog_record) : Prop :=
  ∀ i j a b, (i ≤ j)%nat → log !! i = Some a → log !! j = Some b → rec_time a ≤ rec_time b.

Lemma chunk_start chunks i :
  base_of chunks i = size_of (take (length (concat (take i chunks))) (concat chunks)).
Proof. rewrite (chunk_split chunks i). by rewrite take_app_length. Qed.

Lemma chunk_start_le (chunks : list (list binlog_record)) i : (length (concat (take i chunks)) ≤ length (concat chunks))%nat.
Proof. rewrite (chunk_split chunks i). rewrite length_app. lia. Qed.

(** The records before the file chosen for time [t] are older. *)
Lemma start_at_time chunks index t :
  index_rep index (items_of chunks) → log_ok chunks → in_order (concat chunks) →
  ∃ i, start_at index (READER_INIT_BY_TIME t) = Some (Z.of_nat i, 0, Z.of_nat i) ∧ ((i < length chunks)%nat ∨ i = O) ∧
    ∀ n rec, (n < length (concat (take i chunks)))%nat → concat chunks !! n = Some rec → rec_time rec < t.
Proof.
  intros Hr Hl Hord. unfold start_at. rewrite (no_items_rep _ _ Hr). case_bool_decide as E.
  { exists O. split; [done|]. split; [by right|]. intros n rec Hn. simpl in Hn. lia. }
  destruct (choose_item_rep (λ it, item_time it <? t) index _ Hr E) as (j & it & -> & Hj & Hle & _).
  cbn [mbind option_bind]. unfold items_of in Hj. rewrite list_lookup_imap in Hj.
  destruct (chunks !! j) as [c|] eqn:Ec; [|done]. injection Hj as <-. cbn [item_suffix] in *.
  pose proof (lookup_lt_Some _ _ _ Ec) as Hlt. exists j. split; [done|]. split; [by left|].
  intros n rec Hn Hrec. destruct j as [|j]; [simpl in Hn; lia|].
  pose proof (Hle (S j) _ ltac:(lia) (items_of_lookup _ _ _ Ec)) as Ht. cbn [item_time] in Ht.
  assert (c ≠ []) as Hc by (pose proof (chunks_some _ Hl) as Hcs; rewrite Forall_lookup in Hcs; by apply (Hcs (S j))).
  destruct c as [|r0 c]; [done|]. cbn [first_time] in Ht. assert (rec_time r0 < t) by (apply Z.ltb_lt, Ht; left; lia).
  destruct (record_in_chunk chunks Hl (S j) [] r0 c) as (_ & Hr0 & _); [unfold chunk; by rewrite Ec|].
  simpl length in Hr0. rewrite Nat.add_0_r in Hr0.
  assert (rec_time rec ≤ rec_time r0) by (eapply (Hord n); [|done|done]; lia). lia.
Qed.

Lemma filter_from (log : list binlog_record) t m :
  (∀ n rec, (n < m)%nat → log !! n = Some rec → rec_time rec < t) →
  (∀ n rec, (m ≤ n)%nat → log !! n = Some rec → t ≤ rec_time rec) →
  filter (λ rec, t ≤ rec_time rec) log = drop m log.
Proof.
  intros Hb Ha. rewrite <- (take_drop m log) at 1. rewrite filter_app, filter_none_in, filter_all_in; [done| |].
  - intros x [i Hi]%list_elem_of_lookup. rewrite lookup_drop in Hi. apply (Ha (m + i)%nat); [lia|done].
  - intros x [i Hi]%list_elem_of_lookup. apply lookup_take_Some in Hi as [Hi Hlt]. specialize (Hb i x Hlt Hi). lia.
Qed.

Lemma bytime_rel files chunks max_size t fuel io :
  files_rep files chunks → log_ok chunks → in_order (concat chunks) → reads_go io → (length (concat chunks) < fuel)%nat →
  ∃ r files' m, binlog_reader_init_bytime fuel all_well io files max_size t = Some (Ptr r, files') ∧
    files_rep files' chunks ∧ at_record files' NULL chunks r m ∧
    filter (λ rec, t ≤ rec_time rec) (concat chunks) = drop m (concat chunks).
Proof.
  intros Hf Hl Hord Hio Hfuel. pose proof (log_files_few _ Hl). pose proof (log_length _ Hl).
  destruct (binlog_index_init_rep files (items_of chunks)) as (index & Ei & Hr);
    [apply Hf|by apply items_of_ok|rewrite items_of_length; lia|].
  destruct (start_at_time chunks index t Hr Hl Hord) as (i & Es & Hi & Hbefore).
  destruct (open_log files chunks i Hf) as (files' & Eo & _ & Hf' & Ho & _).
  unfold binlog_reader_init_bytime, binlog_reader_init. cbn [io_fopen io_open all_well]. rewrite Ei.
  cbn [mbind option_bind]. rewrite Es. cbn [mbind option_bind]. rewrite Eo.
  set (r0 := Reader max_size (Z.of_nat i) (Z.of_nat i) 0 (OwnIndex index) (Z.of_nat i) false).
  assert (at_record files' NULL chunks r0 (length (concat (take i chunks)))) as Hat.
  { split; [split; [exists index; done|done]|]. split; [apply chunk_start_le|]. exists i, 0.
    rewrite <- chunk_start. split; [|lia]. pose proof (size_of_nonneg (chunk chunks i)). split; try done. }
  destruct (seek_to_time_at files' NULL chunks Hl Hf' io r0 _ fuel t Hio Hat) as (r & m & -> & Hat' & Hm & Hb & Ha); [lia|].
  cbn [mbind option_bind Z.eqb]. exists r, files', m. split; [done|]. split; [done|]. split; [done|].
  apply filter_from.
  - intros n rec Hn Hrec. destruct (decide (n < length (concat (take i chunks)))%nat).
    + by eapply Hbefore.
    + apply (Hb n); [lia|done].
  - intros n rec Hn Hrec. apply lookup_lt_Some in Hrec as Hlt.
    destruct (lookup_lt_is_Some_2 (concat chunks) m) as [x Hx]; [lia|]. specialize (Ha x Hx).
    pose proof (Hord m n x rec ltac:(lia) Hx Hrec). lia.
Qed.

(** C23: recovery.  After any session of writing and reading, a reader opened at
    time [t] on the log's directory reads exactly the records of time [t] or
    later, in their order, then reaches the end of the log with nothing left in
    the last file, provided that the clock never went back. *)
Theorem binlog_recovery_complete max_size ops t fuel io :
  0 ≤ max_size < 2 ^ 32 → spec_ops_ok (LogSpec [] None) ops → reads_go io →
  in_order (spec_log (snd (spec_run (LogSpec [] None) ops))) →
  (length (spec_log (snd (spec_run (LogSpec [] None) ops))) < fuel)%nat →
  ∃ st r files recs r', snd <$> log_session max_size ops = Some st ∧
    binlog_reader_init_bytime fuel all_well io (st_files st) max_size t = Some (Ptr r, files) ∧
    read_all fuel io files NULL r = Some (recs, r') ∧
    recs = record_bytes <$> filter (λ rec, t ≤ rec_time rec) (spec_log (snd (spec_run (LogSpec [] None) ops))) ∧
    binlog_is_read_all true files r' = Some 1.
Proof.
  intros Hms Hok Hio Hord Hfuel. destruct (log_session_rel max_size ops Hms Hok) as (st & E & Hrel).
  destruct Hrel as (chunks & Hc & Hl & Hf & _). rewrite <- Hc in *. exists st.
  destruct (bytime_rel (st_files st) chunks max_size t fuel io Hf Hl Hord Hio Hfuel)
    as (r & files & m & Eo & Hf' & Hat & Hfil).
  destruct (read_all_at files NULL chunks Hl Hf' io r m fuel Hio Hat) as (r' & Er & Hat'); [lia|].
  exists r, files, (record_bytes <$> drop m (concat chunks)), r'. rewrite E, Hfil. split; [done|].
  split; [done|]. split; [done|]. split; [done|]. by eapply is_read_all_at.
Qed.

Lemma example_in_order : in_order (spec_log (snd (spec_run (LogSpec [] None) example_ops))).
Proof.
  intros i j a b Hij Ha Hb. cbn in Ha, Hb.
  destruct i as [|[|[|i]]], j as [|[|[|j]]]; cbn in Ha, Hb; try done; try lia; injection Ha as <-; injection Hb as <-; vm_compute; done.
Qed.

Lemma binlog_recovery_complete_witness :
  ∃ st r files recs r', snd <$> log_session 40 example_ops = Some st ∧
    binlog_reader_init_bytime 4 all_well (λ _, calm_read) (st_files st) 40 101 = Some (Ptr r, files) ∧
    read_all 4 (λ _, calm_read) files NULL r = Some (recs, r') ∧
    recs = [record_bytes (set_time (confirm_record true) 101); record_bytes (set_time (example_record 2) 102)] ∧
    binlog_is_read_all true files r' = Some 1.
Proof.
  exact (binlog_recovery_complete 40 example_ops 101 4 (λ _, calm_read) ltac:(lia) example_ops_ok
    (λ _, calm_read_goes) example_in_order ltac:(cbn; lia)).
Defined.

(** ** Packets for a slave *)

Section packets.
Context (w : BL_WRITER) (chunks : list (list binlog_record)).
Hypothesis Hlog : log_ok chunks.
Implicit Types (files : binlog_files).

(** The reader of the session, at offset [p]. *)
Definition session_at files (r : BL_READER) (p : Z) : Prop :=
  reader_sees (Ptr w) chunks r ∧ has_writer r = true ∧
  ∃ i off, reader_at files chunks r i off ∧ base_of chunks i + off = p.

Lemma log_bytes_at i off :
  0 ≤ off ≤ size_of (chunk chunks i) →
  ∃ pre, zlen pre = base_of chunks i + off ∧
    bytes_of (concat chunks) = pre ++ rest_of chunks i off ++ bytes_of (concat (drop (S i) chunks)).
Proof.
  intros Hoff. destruct (rest_of_split chunks i off Hoff) as (pre & E & Hpre & _).
  exists (bytes_of (concat (take i chunks)) ++ pre). rewrite zlen_app, Hpre. split; [done|].
  rewrite (chunk_split chunks i) at 1. by rewrite !bytes_of_app, E, <- !app_assoc.
Qed.

(** A read delivers the next bytes of the log, at least one where four are left. *)
Lemma read_data_prefix io files r p n :
  files_rep files chunks → read_goes io → session_at files r p → 0 < n < 2 ^ 31 → 4 ≤ size_of (concat chunks) - p →
  ∃ data r', binlog_read_data io files (Ptr w) r n = Some (zlen data, data, r') ∧ session_at files r' (p + zlen data) ∧
    zsub (bytes_of (concat chunks)) p (zlen data) = Some data ∧ 0 < zlen data ≤ n.
Proof.
  intros Hf Hio (Hs & Hh & i & off & Hat & <-) Hn Hleft. pose proof (at_range _ _ _ _ _ Hat) as Hoff.
  assert (has_writer r && (size_of (concat chunks) - (base_of chunks i + off) <? 4) = false) as Hnc.
  { rewrite Hh. apply Z.ltb_ge. lia. }
  destruct (log_bytes_at i off Hoff) as (pre & Hpre & Eb).
  destruct (rest_of_split chunks i off Hoff) as (_ & _ & _ & Hrest). set (rest := rest_of chunks i off) in *.
  destruct (decide (n ≤ zlen rest ∨ (length chunks ≤ S i)%nat)) as [Hc|Hc].
  - destruct (read_data_here files (Ptr w) chunks Hlog Hf io r i off n Hio Hs Hat ltac:(lia) Hnc Hc) as (E & Hat' & Hm).
    fold rest in E, Hat', Hm. set (data := take (Z.to_nat n) rest) in *. eexists data, _. split; [exact E|].
    assert (zlen data = Z.min n (zlen rest)) as Hd by (unfold data, zlen in *; rewrite length_take; lia).
    split; [|split].
    + split; [by eapply reader_sees_moved|]. split; [by destruct Hm as (_ & _ & ->)|]. exists i, (off + zlen data). split; [done|lia].
    + rewrite Eb. rewrite <- (take_drop (Z.to_nat n) rest), <- app_assoc. fold data. by apply zsub_mid.
    + destruct Hc as [Hc|Hc]; [lia|]. pose proof (base_next chunks i). rewrite base_end in * by lia. lia.
  - assert (zlen rest < n ∧ (S i < length chunks)%nat) as [Hc1 Hc2] by lia.
    destruct (read_data_next files (Ptr w) chunks Hlog Hf io r i off n Hio Hs Hat ltac:(lia) Hnc Hc1 Hc2) as (r' & E & Hat' & Hm).
    fold rest in E, Hat'. set (more := take (Z.to_nat (n - zlen rest)) (bytes_of (chunk chunks (S i)))) in *.
    assert (zlen more = Z.min (n - zlen rest) (size_of (chunk chunks (S i)))) as Hd
      by (unfold more, size_of, zlen in *; rewrite length_take; lia).
    destruct (lookup_lt_is_Some_2 chunks (S i) Hc2) as [c Ec].
    assert (0 < size_of (chunk chunks (S i))) as Hpos.
    { assert (c ≠ []) as Hne by (pose proof (chunks_some _ Hlog) as Hcs; rewrite Forall_lookup in Hcs; by apply (Hcs (S i))).
      unfold chunk. rewrite Ec. cbn. pose proof (size_of_ge c). apply zlen_pos in Hne. unfold RECORD_SIZE in *. lia. }
    exists (rest ++ more), r'. split; [done|]. rewrite zlen_app. pose proof (zlen_nonneg rest). split; [|split; [|lia]].
    + split; [by eapply reader_sees_moved|]. split; [by destruct Hm as (_ & _ & ->)|]. exists (S i), (zlen more).
      split; [done|]. pose proof (base_next chunks i). lia.
    + rewrite Eb, (drop_S _ _ _ Ec). cbn [concat]. rewrite bytes_of_app.
      assert (bytes_of c = more ++ drop (Z.to_nat (n - zlen rest)) (bytes_of c)) as ->
        by (unfold more, chunk; rewrite Ec; cbn; by rewrite take_drop).
      rewrite <- app_assoc, (app_assoc rest), <- zlen_app. by apply zsub_mid.
Qed.

Lemma session_position files r p :
  session_at files r p → binlog_get_position (Ptr w) r = Some p ∧ 0 ≤ p ≤ size_of (concat chunks).
Proof.
  intros (Hs & _ & i & off & Hat & <-). rewrite (position_rel files (Ptr w) chunks r i off) by done.
  pose proof (base_le chunks i). pose proof (at_range _ _ _ _ _ Hat). split; [done|lia].
Qed.

Lemma session_files files files' r p :
  (∀ j, is_Some (log_files files !! j) → is_Some (log_files files' !! j)) → session_at files r p → session_at files' r p.
Proof.
  intros He (Hs & Hh & i & off & [] & Hp). split; [done|]. split; [done|]. exists i, off. split; [|done]. split; auto.
Qed.

(** The reader of an earlier packet goes on, or a new one is opened. *)
Lemma session_reader_rel files max_size p bl_reader :
  files_rep files chunks → writer_rep w files chunks → 0 ≤ p ≤ size_of (concat chunks) →
  (∀ r, bl_reader = Ptr r → ∃ q, session_at files r q) →
  ∃ r files', session_reader all_well files max_size (Ptr w) bl_reader p = Some (Ptr r, files') ∧
    files_rep files' chunks ∧ writer_rep w files' chunks ∧ session_at files' r p ∧
    ∀ j, is_Some (log_files files !! j) → is_Some (log_files files' !! j).
Proof.
  intros Hf Hw Hp Hsess. pose proof (log_size _ Hlog).
  assert (∀ files r q, session_at files r q → binlog_check_position (Ptr w) r p = Some (if q =? p then 1 else 0)) as Hcheck.
  { intros f r q Hq. destruct (session_position f r q Hq) as [E Hr]. unfold binlog_check_position. rewrite E.
    cbn [mbind option_bind]. by rewrite u64_small by lia. }
  destruct (open_at files chunks max_size p (Ptr w) Hf Hlog Hp) as (r & files' & i & off & E & Hf' & He & Hat & Hb & Hh & _ & Hsee).
  { by intros w' [= <-]. }
  assert (session_at files' r p) as Hnew.
  { split; [apply Hsee; by right|]. split; [done|]. by exists i, off. }
  assert (∃ b, match bl_reader with
    | NULL => Some false
    | Ptr r => c ← binlog_check_position (Ptr w) r p; Some (negb (c =? 0)) end = Some b ∧
    (b = true → ∃ r, bl_reader = Ptr r ∧ session_at files r p)) as (b & Eb & Hb1).
  { destruct bl_reader as [|r0]; [by exists false|]. destruct (Hsess r0 eq_refl) as (q & Hq). rewrite (Hcheck _ _ _ Hq).
    cbn [mbind option_bind]. eexists. split; [done|]. destruct (Z.eqb_spec q p) as [->|]; [|done]. intros _. by exists r0. }
  unfold session_reader. rewrite Eb. cbn [mbind option_bind]. destruct b.
  - destruct (Hb1 eq_refl) as (r0 & -> & Hr0). by exists r0, files.
  - rewrite E. cbn [mbind option_bind]. rewrite (Hcheck _ _ _ Hnew), Z.eqb_refl. cbn [mbind option_bind Z.eqb].
    exists r, files'. split; [done|]. split; [done|]. split; [by eapply writer_rep_files|done].
Qed.

(** The response to a slave at offset [p]. *)
Definition good_response (p : Z) (res : slave_sync_res) : Prop :=
  res_return_code res = 0 ∧ res_len res = zlen (res_data res) ∧ res_offset res = p + res_len res ∧
  res_remain_length res = size_of (concat chunks) - res_offset res ∧
  zsub (bytes_of (concat chunks)) p (res_len res) = Some (res_data res) ∧ res_len res ≤ MAX_BINLOG_DATA_PER_PACKET ∧
  (res_len res = 0 ↔ size_of (concat chunks) - p < 4).

Lemma sync_rel rio files max_size p bl_reader :
  files_rep files chunks → writer_rep w files chunks → 0 ≤ p ≤ size_of (concat chunks) → read_goes rio →
  (∀ r, bl_reader = Ptr r → ∃ q, session_at files r q) →
  ∃ res r files', execute_slave_sync all_well rio files max_size (Ptr w) p bl_reader = Some (res, Ptr r, files') ∧
    good_response p res ∧ files_rep files' chunks ∧ writer_rep w files' chunks ∧ session_at files' r (res_offset res).
Proof.
  intros Hf Hw Hp Hio Hsess. pose proof (log_size _ Hlog).
  destruct (session_reader_rel files max_size p bl_reader Hf Hw Hp Hsess) as (r & files' & E & Hf' & Hw' & Hat & _).
  assert (∃ data r', binlog_read_data rio files' (Ptr w) r MAX_BINLOG_DATA_PER_PACKET = Some (zlen data, data, r') ∧
    session_at files' r' (p + zlen data) ∧ zsub (bytes_of (concat chunks)) p (zlen data) = Some data ∧
    zlen data ≤ MAX_BINLOG_DATA_PER_PACKET ∧ (zlen data = 0 ↔ size_of (concat chunks) - p < 4))
    as (data & r' & Er & Hat' & Hz & Hmax & Hzero).
  { destruct (decide (size_of (concat chunks) - p < 4)) as [Hlt|Hge].
    - exists [], r. change (zlen (@nil Z)) with 0. rewrite Z.add_0_r. split_and!; try done.
      + pose proof Hat as (Hs & Hh & i & off & Ha & <-). unfold binlog_read_data.
        rewrite (caught_up_at files' (Ptr w) chunks Hlog r i off Hs Ha), Hh. by rewrite (proj2 (Z.ltb_lt _ _)) by lia.
      + unfold zsub. unfold size_of in Hp. rewrite decide_True by lia. by rewrite take_0.
    - destruct (read_data_prefix rio files' r p MAX_BINLOG_DATA_PER_PACKET Hf' Hio Hat) as (data & r' & Er & Hat' & Hz & Hl);
        [done|lia|]. exists data, r'. split_and!; try done; [lia|]. split; lia. }
  destruct (session_position _ _ _ Hat') as [Epos Hrange]. unfold execute_slave_sync. rewrite E. cbn [mbind option_bind].
  rewrite Er. cbn [mbind option_bind]. pose proof (zlen_nonneg data). rewrite (proj2 (Z.ltb_ge _ _)) by lia.
  unfold binlog_remain_data_len. destruct Hat' as (Hs' & Hh' & Hx'). rewrite Hh', Epos. cbn [negb mbind option_bind].
  rewrite (writer_offset _ _ _ Hw'). eexists _, r', files'. split; [done|].
  assert (p + zlen data < 2 ^ 63) by lia. rewrite (u64_small (p + zlen data)) by lia.
  rewrite (u64_small (size_of (concat chunks) - _)), s64_small by lia. rewrite u64_small by lia.
  split; [|done]. unfold good_response. cbn. done.
Qed.
End packets.

(** ** Behaviour outside of these contracts *)

(** The last bytes of the log are not sent: a slave fewer than four bytes
    behind the end of the log gets an empty packet, which it takes for having
    caught up, although the response itself says that bytes remain; they come
    with the next record only. *)
Theorem sync_withholds_tail max_size ops rio p :
  0 ≤ max_size < 2 ^ 32 → spec_ops_ok (LogSpec [] None) ops → read_goes rio →
  let total := size_of (spec_log (snd (spec_run (LogSpec [] None) ops))) in
  0 ≤ p → total - 4 < p < total →
  ∃ st rd files, snd <$> log_session max_size ops = Some st ∧
    execute_slave_sync all_well rio (st_files st) max_size (Ptr (st_writer st)) p NULL
    = Some (SyncRes 0 0 p (total - p) [], rd, files) ∧ 0 < total - p.
Proof.
  intros Hms Hok Hio total Hp Hr. destruct (log_session_rel max_size ops Hms Hok) as (st & E & Hrel).
  destruct Hrel as (chunks & Hc & Hl & Hf & Hw & _). unfold total in *. rewrite <- Hc in *. exists st.
  destruct (sync_rel (st_writer st) chunks Hl rio (st_files st) max_size p NULL Hf Hw) as (res & r & files & Es & Hg & _);
    [lia|done|done|].
  exists (Ptr r), files. rewrite E. split; [done|]. split; [|lia]. rewrite Es.
  destruct res as [n rc off rem data]. destruct Hg as (H1 & H2 & H3 & H4 & _ & _ & H5). cbn in *.
  assert (n = 0) as -> by (apply H5; lia). subst. rewrite Z.add_0_r.
  assert (data = []) as -> by (apply length_zero_iff_nil; unfold zlen in H2; lia). done.
Qed.

Lemma sync_withholds_tail_witness :
  ∃ st rd files, snd <$> log_session 40 example_ops = Some st ∧
    execute_slave_sync all_well (fst calm_read) (st_files st) 40 (Ptr (st_writer st)) 61 NULL
    = Some (SyncRes 0 0 61 3 [], rd, files) ∧ 0 < 3.
Proof.
  exact (sync_withholds_tail 40 example_ops (fst calm_read) 61 ltac:(lia) example_ops_ok (proj1 calm_read_goes)
    ltac:(lia) ltac:(vm_compute; split; reflexivity)).
Defined.

Definition interrupted_ops : list log_op :=
  [LWrite (WriteIo 100 true true [] true [Bytes 5; Eintr]) (example_record 1); LOpen true 0; LRead calm_read].

(** A write that is interrupted after some bytes is taken back by one byte:
    the byte before the interruption is written twice, the write is reported as
    successful, and the record is read back shifted. *)
Theorem interrupted_write_duplicates :
  let written := record_bytes (set_time (example_record 1) 100) in
  let stored := take 24 (take 5 written ++ drop 4 written) in
  fst <$> log_session 40 interrupted_ops = Some [(Some stored, 24)] ∧ stored ≠ written.
Proof. vm_compute. split; [reflexivity|discriminate]. Qed.
