(* ===== verification/Slave.v ===== *)
(** * The slave's side of replication ([src/execute/slave.c])

    A slave asks its master for the log behind its offset, collects the packets
    in a buffer and executes the records as they become complete.  A change is
    applied when the record after it confirms it.  The storage engine is known
    by its interface. *)

From Stdlib Require Import ZArith Lia.
From stdpp Require Import base option list numbers gmap.
From S2P Require Import Prelude LowData Hash Binlog.

(** What the slave calls of the storage engine ([StorageEngine]), with the state
    [D] of its data; a record is the bytes of its block. *)
Class StorageEngine (D : Type) := {
  ApplyBinlog : D → list Z → Z * D;
  SetSlaveSyncPos : D → Z → Z → Z * D;
  SetReadable : D → bool → D }.

Definition MILE_RETURN_SUCCESS : Z := 0.
Definition MILE_SLAVE_CACTCH_UP : Z := 1.

(** [struct data_buffer]: [data_len] is the length of [sb_data]. *)
Record slave_buffer := SlaveBuffer { sb_data : list Z; sb_wpos : Z; sb_rpos : Z }.

Section slave.
Context {D : Type} `{!StorageEngine D}.

(** The field [op_code] of a record in memory. *)
Definition op_code_of (record : list Z) : option Z := record⟦15⟧.

Definition IS_CONFIRM_RECORD (record : list Z) : option bool :=
  op ← op_code_of record; Some ((op =? OPERATION_CONFIRM_OK) || (op =? OPERATION_CONFIRM_FAIL)).

(** The result, the previous record and the data. *)
Definition execute_binrecord (prev : ptr (list Z)) (record : list Z) (db : D) : option (Z * ptr (list Z) * D) :=
  first ← match prev with NULL => Some true | Ptr p => IS_CONFIRM_RECORD p end;
  match prev, (first : bool) with
  | Ptr p, false =>
      confirm ← IS_CONFIRM_RECORD record;
      if negb confirm then Some (0, Ptr record, db)
      else
        op ← op_code_of record;
        if op =? OPERATION_CONFIRM_FAIL then Some (0, NULL, db)
        else let '(ret, db) := ApplyBinlog db p in Some (ret, NULL, db)
  | _, _ => Some (0, Ptr record, db)
  end.

Inductive slave_outcome (A : Type) := Running (a : A) | Exited.
Arguments Running {A}.
Arguments Exited {A}.

(** The inner loop of [sync_with_master]: the complete records of the buffer.
    The server exits when one cannot be executed. *)
Fixpoint drain_loop (fuel : nat) (buffer : slave_buffer) (prev : ptr (list Z)) (db : D)
    : option (slave_outcome (slave_buffer * ptr (list Z) * D)) :=
  match fuel with
  | O => None
  | S fuel =>
      let '(SlaveBuffer data wpos rpos) := buffer in
      if u32 (wpos - rpos) >? 4 then
        len ← le_value <$> zsub data rpos 4;
        if len >? u32 (wpos - rpos) then Some (Running (buffer, prev, db))
        else
          copy ← zsub data rpos len;
          '(rc, prev, db) ← execute_binrecord prev copy db;
          if negb (rc =? MILE_RETURN_SUCCESS) then Some Exited
          else drain_loop fuel (SlaveBuffer data wpos (u32 (rpos + len))) prev db
      else Some (Running (buffer, prev, db))
  end.

Record slave_state := Slave {
  prev_record : ptr (list Z);
  sl_buffer : slave_buffer;
  cur_offset : Z;
  sl_db : D }.

(** One turn of the loop of [sync_with_master], for the response [res].  Every
    record takes some of the buffer, so that its length is enough fuel. *)
Definition sync_turn (s : slave_state) (res : slave_sync_res) : option (slave_outcome slave_state) :=
  let '(Slave prev (SlaveBuffer data wpos rpos) off db) := s in
  if (res_return_code res <? 0) || (res_len res =? 0) then
    if res_return_code res <? 0 then Some (Running s)
    else Some (Running (Slave prev (SlaveBuffer data wpos rpos) off (SetReadable db true)))
  else
    received ← zsub (res_data res) 0 (res_len res);
    data ← zcopy data wpos received;
    out ← drain_loop (S (length data)) (SlaveBuffer data (u32 (wpos + res_len res)) rpos) prev db;
    match out with
    | Exited => Some Exited
    | Running (SlaveBuffer data wpos rpos, prev, db) =>
        left ← zsub data rpos (u32 (wpos - rpos));
        data ← zcopy data 0 left;
        let wpos := u32 (wpos - rpos) in
        let '(rc, db) := SetSlaveSyncPos db (u64 (res_offset res - wpos)) (u64 (res_remain_length res + wpos)) in
        let db := SetReadable db (rc =? MILE_SLAVE_CACTCH_UP) in
        Some (Running (Slave prev (SlaveBuffer data wpos 0) (res_offset res) db))
    end.

(** A new connection ([slave_client_handler]): the buffer is emptied and the
    slave asks from the offset its storage engine has kept. *)
Definition connect (buffer : slave_buffer) (offset : Z) (db : D) : slave_state :=
  Slave NULL (SlaveBuffer (sb_data buffer) 0 0) offset db.

(** Turns against a master with writer [w]: each sends the slave's offset. *)
Fixpoint sync_with_master (rios : list read_io) (max_size : Z) (w : BL_WRITER) (files : binlog_files)
    (bl_reader : ptr BL_READER) (s : slave_state)
    : option (slave_outcome (slave_state * ptr BL_READER * binlog_files)) :=
  match rios with
  | [] => Some (Running (s, bl_reader, files))
  | rio :: rios =>
      '(res, bl_reader, files) ←
        execute_slave_sync (InitIo true true true) rio files max_size (Ptr w) (cur_offset s) bl_reader;
      out ← sync_turn s res;
      match out with
      | Exited => Some Exited
      | Running s => sync_with_master rios max_size w files bl_reader s
      end
  end.
End slave.

Arguments Running {A}.
Arguments Exited {A}.
Arguments slave_state : clear implicits.
