(* ===== verification/SlaveSpec.v ===== *)
(** * A slave applies what its master confirmed

    The abstract slave replays the records of the log; the theorems tie it to
    the turns of [sync_with_master] against [execute_slave_sync]. *)

From Stdlib Require Import ZArith Lia.
From stdpp Require Import base option list numbers gmap.
From S2P Require Import Prelude LowData Hash Binlog BinlogSpec BinlogSync Slave.

(** ** The abstract slave *)

Definition is_confirm (r : binlog_record) : bool :=
  (rec_op_code r =? OPERATION_CONFIRM_OK) || (rec_op_code r =? OPERATION_CONFIRM_FAIL).

(** The changes to apply, and the one that waits for its confirmation. *)
Fixpoint replay (prev : option binlog_record) (log : list binlog_record) : list binlog_record * option binlog_record :=
  match log with
  | [] => ([], prev)
  | r :: log =>
      if is_confirm r then
        let '(l, p) := replay None log in
        (if rec_op_code r =? OPERATION_CONFIRM_OK then option_list prev ++ l else l, p)
      else replay (Some r) log
  end.

Lemma replay_app prev a b :
  replay prev (a ++ b) = (fst (replay prev a) ++ fst (replay (snd (replay prev a)) b), snd (replay (snd (replay prev a)) b)).
Proof.
  revert prev. induction a as [|r a IH]; intros prev; cbn [replay app]; [apply surjective_pairing|].
  destruct (is_confirm r); [|apply IH]. rewrite IH. destruct (replay None a) as [l p]. cbn [fst snd].
  destruct (replay p b) as [l' p']. cbn [fst snd]. destruct (rec_op_code r =? OPERATION_CONFIRM_OK); [|done].
  by rewrite app_assoc.
Qed.

(** What a storage engine promises: its data has a content, and a change that makes
    sense for the content is executed. *)
Class StorageEngineLaws (D A : Type) `{!StorageEngine D} := {
  content : A → D → Prop;
  apply_change : A → list Z → option A;
  apply_succeeds : ∀ a a' db r, content a db → apply_change a r = Some a' →
    ∃ db', ApplyBinlog db r = (MILE_RETURN_SUCCESS, db') ∧ content a' db';
  sync_pos_content : ∀ a db p q, content a db → content a (snd (SetSlaveSyncPos db p q));
  readable_content : ∀ a db b, content a db → content a (SetReadable db b) }.

Section spec.
Context {D A : Type} `{!StorageEngine D} `{!StorageEngineLaws D A}.
Implicit Types (db : D) (prev : ptr (list Z)).

(** A record the slave can take: its buffer has ten packets, a turn adds one. *)
Definition slave_takes (r : binlog_record) : Prop :=
  record_ok r ∧ 0 ≤ rec_op_code r < 256 ∧ rec_len r ≤ 9 * MAX_BINLOG_DATA_PER_PACKET.

Definition prev_rep prev (p : option binlog_record) : Prop :=
  match p with
  | None => ∀ b, prev = Ptr b → IS_CONFIRM_RECORD b = Some true
  | Some r => prev = Ptr (record_bytes r) ∧ slave_takes r ∧ is_confirm r = false
  end.

Fixpoint apply_all (a : A) (rs : list binlog_record) : option A :=
  match rs with
  | [] => Some a
  | r :: rs => a ← apply_change a (record_bytes r); apply_all a rs
  end.

Lemma apply_all_app a rs rs' : apply_all a (rs ++ rs') = a ← apply_all a rs; apply_all a rs'.
Proof. revert a. induction rs as [|r rs IH]; intros a; [done|]. cbn [apply_all app]. destruct (apply_change a (record_bytes r)); [apply IH|done]. Qed.

(** What makes sense as a whole makes sense up to any record. *)
Lemma apply_prefix a log k :
  is_Some (apply_all a (fst (replay None log))) → is_Some (apply_all a (fst (replay None (take k log)))).
Proof.
  rewrite <- (take_drop k log) at 1. rewrite replay_app. cbn [fst]. rewrite apply_all_app.
  destruct (apply_all a (fst (replay None (take k log)))); [by eexists|]. by intros [? [=]].
Qed.

Lemma op_code_of_record r : slave_takes r → op_code_of (record_bytes r) = Some (rec_op_code r).
Proof.
  intros (_ & Ho & _). unfold op_code_of, record_bytes. rewrite zget_lookup by lia.
  change (Z.to_nat 15) with 15%nat. cbn. f_equal. by apply Z.mod_small.
Qed.

Lemma is_confirm_record r : slave_takes r → IS_CONFIRM_RECORD (record_bytes r) = Some (is_confirm r).
Proof. intros Hr. unfold IS_CONFIRM_RECORD. by rewrite op_code_of_record. Qed.

#[local] Arguments record_bytes : simpl never.

Lemma execute_binrecord_rep prev p r a a' db :
  prev_rep prev p → slave_takes r → content a db → apply_all a (fst (replay p [r])) = Some a' →
  ∃ prev' db', execute_binrecord prev (record_bytes r) db = Some (0, prev', db') ∧
    prev_rep prev' (snd (replay p [r])) ∧ content a' db'.
Proof.
  intros Hp Hr Ha Happ. pose proof (op_code_of_record r Hr) as Eop. pose proof (is_confirm_record r Hr) as Ec.
  unfold execute_binrecord. destruct p as [q|].
  - destruct Hp as (-> & Hq & Hqc). rewrite (is_confirm_record q Hq), Hqc. cbn [mbind option_bind]. rewrite Ec, Eop.
    cbn [mbind option_bind replay] in *. unfold is_confirm in *.
    destruct (Z.eqb_spec (rec_op_code r) OPERATION_CONFIRM_OK) as [E1|E1];
      destruct (Z.eqb_spec (rec_op_code r) OPERATION_CONFIRM_FAIL) as [E2|E2]; cbn in Happ |- *.
    + rewrite E1 in E2. done.
    + destruct (apply_change a (record_bytes q)) as [a1|] eqn:Eq; [|done]. injection Happ as ->.
      destruct (apply_succeeds a a' db (record_bytes q) Ha Eq) as (db' & -> & Hc).
      eexists _, _. split; [done|]. split; [by intros ? [=]|done].
    + injection Happ as ->. eexists _, _. split; [done|]. split; [by intros ? [=]|done].
    + injection Happ as ->. eexists _, _. split; [done|]. split; [|done]. split; [done|]. split; [done|]. unfold is_confirm.
      by rewrite (proj2 (Z.eqb_neq _ _) E1), (proj2 (Z.eqb_neq _ _) E2).
  - cbn [prev_rep] in Hp. assert (execute_binrecord prev (record_bytes r) db = Some (0, Ptr (record_bytes r), db)) as E.
    { unfold execute_binrecord. destruct prev as [|b]; [done|]. by rewrite (Hp b eq_refl). }
    unfold execute_binrecord in E. rewrite E. eexists _, _. split; [done|]. cbn [replay] in *.
    destruct (is_confirm r) eqn:Ei; cbn in Happ |- *.
    + assert (a' = a) as -> by (destruct (rec_op_code r =? OPERATION_CONFIRM_OK); by injection Happ).
      split; [|done]. intros b [= <-]. congruence.
    + by injection Happ as ->.
Qed.

(** ** The buffer *)

(** [partial] is the beginning of the next record of [log]. *)
Definition incomplete (log : list binlog_record) (partial : list Z) : Prop :=
  partial = [] ∨ ∃ r log' tail, log = r :: log' ∧ record_bytes r = partial ++ tail ∧ tail ≠ [].

Lemma cut_bytes log (q : nat) :
  Z.of_nat q ≤ size_of log →
  ∃ m partial, (m ≤ length log)%nat ∧ take q (bytes_of log) = bytes_of (take m log) ++ partial ∧ incomplete (drop m log) partial.
Proof.
  revert q. induction log as [|r log IH]; intros q Hq.
  - exists 0%nat, []. split; [done|]. split; [by destruct q|by left].
  - rewrite bytes_of_cons. destruct (decide (length (record_bytes r) ≤ q)%nat) as [Hle|Hlt].
    + destruct (IH (q - length (record_bytes r))%nat) as (m & partial & Hm & E & Hinc).
      { rewrite size_of_cons, <- zlen_record in Hq. unfold zlen in Hq. lia. }
      exists (S m), partial. rewrite take_app_ge by done. cbn [take drop]. rewrite bytes_of_cons, E, app_assoc.
      split; [simpl; lia|done].
    + exists 0%nat, (take q (record_bytes r)). rewrite take_app_le by lia. split; [simpl; lia|].
      split; [done|]. right. exists r, log, (drop q (record_bytes r)). split; [done|]. rewrite take_drop. split; [done|].
      intros E. apply (f_equal length) in E. rewrite length_drop in E. cbn [length] in E. lia.
Qed.

Lemma prefix_length partial tail r : record_ok r → record_bytes r = partial ++ tail → 4 ≤ zlen partial →
  le_value (take 4 partial) = rec_len r.
Proof.
  intros (Hlen & Hmax & _) E Hp. assert (take 4 (record_bytes r) = take 4 partial) as <-.
  { rewrite E, take_app_le; [done|unfold zlen in Hp; lia]. }
  change (take 4 (record_bytes r)) with (le_bytes 4 (rec_len r)). pose proof (zlen_nonneg (rec_data r)).
  unfold RECORD_SIZE in *. apply le_value_bytes. cbn. lia.
Qed.

Lemma drain_rep fuel pre recs log partial post prev p a a' db :
  prev_rep prev p → content a db → apply_all a (fst (replay p recs)) = Some a' → Forall slave_takes recs → Forall slave_takes log → incomplete log partial →
  zlen (pre ++ bytes_of recs ++ partial ++ post) < 2 ^ 32 → (length recs < fuel)%nat →
  ∃ prev' db', drain_loop fuel (SlaveBuffer (pre ++ bytes_of recs ++ partial ++ post)
                                  (zlen (pre ++ bytes_of recs ++ partial)) (zlen pre)) prev db
    = Some (Running (SlaveBuffer (pre ++ bytes_of recs ++ partial ++ post)
                       (zlen (pre ++ bytes_of recs ++ partial)) (zlen (pre ++ bytes_of recs)), prev', db')) ∧
    prev_rep prev' (snd (replay p recs)) ∧ content a' db'.
Proof.
  intros Hp Ha Happ Hrecs Hlog Hinc. revert pre prev p a db recs Hp Ha Happ Hrecs.
  induction fuel as [|fuel IH]; intros pre prev p a db recs Hp Ha Happ Hrecs Hb Hf; [lia|].
  pose proof (zlen_nonneg pre). pose proof (zlen_nonneg partial). pose proof (zlen_nonneg post).
  destruct recs as [|r recs]; cbn [drain_loop].
  - change (bytes_of []) with (@nil Z) in *. cbn [app] in *. rewrite !app_nil_r in *.
    rewrite !zlen_app in Hb. rewrite !zlen_app. replace (zlen pre + zlen partial - zlen pre) with (zlen partial) by lia.
    rewrite u32_small by lia. injection Happ as ->. exists prev, db. split; [|done].
    destruct (Z.gtb_spec (zlen partial) 4) as [Hgt|]; [|done].
    destruct Hinc as [->|(r & log' & tail & -> & E & Htail)]; [done|].
    inversion Hlog as [|? ? Hr _]; subst. pose proof Hr as ((Hlen & _) & _).
    assert (zsub (pre ++ partial ++ post) (zlen pre) 4 = Some (take 4 partial)) as ->.
    { rewrite <- (take_drop 4 partial) at 1. rewrite <- app_assoc. apply zsub_mid; [done|].
      unfold zlen in *. rewrite length_take. lia. }
    cbn [fmap option_fmap option_map mbind option_bind]. rewrite (prefix_length _ _ _ (proj1 Hr) E) by lia.
    assert (zlen partial < rec_len r).
    { pose proof (zlen_record r) as Hz. rewrite E, zlen_app in Hz. apply zlen_pos in Htail. lia. }
    by rewrite Z.gtb_ltb, (proj2 (Z.ltb_lt _ _)) by lia.
  - inversion Hrecs as [|? ? Hr Hrecs']; subst. pose proof Hr as ((Hlen & Hmax & _) & _).
    rewrite bytes_of_cons in *. set (more := bytes_of recs ++ partial) in *.
    assert (zlen (record_bytes r) = rec_len r) as Hlr by (rewrite zlen_record; lia).
    pose proof (zlen_nonneg (rec_data r)). pose proof (zlen_nonneg (bytes_of recs)).
    rewrite <- !(app_assoc (record_bytes r)) in *. unfold RECORD_SIZE in *.
    rewrite !zlen_app in Hb. rewrite !zlen_app. replace (zlen pre + _ - zlen pre) with (rec_len r + (zlen (bytes_of recs) + zlen partial)) by lia.
    rewrite u32_small by lia. rewrite Z.gtb_ltb, (proj2 (Z.ltb_lt _ _)) by lia.
    assert (zsub (pre ++ record_bytes r ++ bytes_of recs ++ partial ++ post) (zlen pre) 4 = Some (le_bytes 4 (rec_len r))) as ->.
    { rewrite record_split, <- app_assoc. apply zsub_mid; [done|]. by rewrite zlen_le_bytes. }
    cbn [fmap option_fmap option_map mbind option_bind]. rewrite le_value_bytes by (cbn; lia).
    rewrite Z.gtb_ltb, (proj2 (Z.ltb_ge _ _)) by lia. rewrite zsub_mid by done. cbn [mbind option_bind].
    change (r :: recs) with ([r] ++ recs) in Happ |- *. rewrite replay_app in Happ |- *. cbn [fst snd] in Happ |- *.
    rewrite apply_all_app in Happ. destruct (apply_all a (fst (replay p [r]))) as [a1|] eqn:Ea; [|done]. cbn [mbind option_bind] in Happ.
    destruct (execute_binrecord_rep prev p r a a1 db Hp Hr Ha Ea) as (prev1 & db1 & -> & Hp1 & Hc1). cbn [mbind option_bind Z.eqb negb MILE_RETURN_SUCCESS].
    destruct (IH (pre ++ record_bytes r) prev1 _ a1 db1 recs Hp1 Hc1 Happ Hrecs') as (prev2 & db2 & E2 & Hp2 & Hc2).
    { rewrite !zlen_app. lia. }
    { simpl in Hf. lia. }
    rewrite u32_small by lia. rewrite <- !app_assoc in E2. rewrite !zlen_app, Hlr in E2.
    exists prev2, db2. split.
    + rewrite Hlr. done.
    + done.
Qed.

(** ** Turns *)

(** The slave has executed [k] records and has the beginning of the next one. *)
Record slave_rel (log : list binlog_record) (c0 : A) (s : slave_state D) (k : nat) : Prop := {
  sl_count : (k ≤ length log)%nat;
  sl_partial : ∃ partial junk, incomplete (drop k log) partial ∧ sl_buffer s = SlaveBuffer (partial ++ junk) (zlen partial) 0 ∧
    cur_offset s = size_of (take k log) + zlen partial;
  sl_room : zlen (sb_data (sl_buffer s)) = 10 * MAX_BINLOG_DATA_PER_PACKET;
  sl_prev : prev_rep (prev_record s) (snd (replay None (take k log)));
  sl_content : ∃ a, apply_all c0 (fst (replay None (take k log))) = Some a ∧ content a (sl_db s) }.

Lemma incomplete_prefix log partial : incomplete log partial → ∃ tail, bytes_of log = partial ++ tail.
Proof.
  intros [->|(r & log' & tail & -> & E & _)]; [by exists (bytes_of log)|].
  exists (tail ++ bytes_of log'). by rewrite bytes_of_cons, E, <- app_assoc.
Qed.

Lemma incomplete_short log partial :
  Forall slave_takes log → incomplete log partial → zlen partial < 9 * MAX_BINLOG_DATA_PER_PACKET.
Proof.
  intros Hlog [->|(r & log' & tail & -> & E & Ht)]; [done|]. inversion Hlog as [|? ? ((Hlen & _) & _ & Hmax) _]; subst.
  pose proof (zlen_record r) as Hz. rewrite E, zlen_app in Hz. apply zlen_pos in Ht. lia.
Qed.

(** The packet makes [m] more records complete. *)
Lemma receive log k partial n data :
  (k ≤ length log)%nat → incomplete (drop k log) partial →
  zsub (bytes_of log) (size_of (take k log) + zlen partial) n = Some data → zlen data = n →
  ∃ m partial', (k + m ≤ length log)%nat ∧ partial ++ data = bytes_of (take m (drop k log)) ++ partial' ∧
    incomplete (drop (k + m) log) partial' ∧
    size_of (take k log) + zlen partial + n = size_of (take (k + m) log) + zlen partial'.
Proof.
  intros Hk Hinc Hz Hn. destruct (incomplete_prefix _ _ Hinc) as [tail Et].
  assert (bytes_of log = (bytes_of (take k log) ++ partial) ++ tail) as Eb.
  { rewrite <- (take_drop k log) at 1. by rewrite bytes_of_app, Et, app_assoc. }
  rewrite Eb in Hz. unfold zsub in Hz. case_decide as Hd; [|done]. injection Hz as Hz.
  assert (Z.to_nat (size_of (take k log) + zlen partial) = length (bytes_of (take k log) ++ partial)) as El.
  { unfold size_of, zlen. rewrite length_app. lia. }
  rewrite El, drop_app_length in Hz.
  destruct (cut_bytes (drop k log) (length partial + Z.to_nat n)) as (m & partial' & Hm & E & Hinc').
  { unfold size_of. rewrite Et. rewrite !zlen_app in Hd. unfold size_of, zlen in *. rewrite length_app. lia. }
  rewrite Et, take_app_add, Hz in E. rewrite length_drop in Hm.
  exists m, partial'. rewrite <- drop_drop. split; [lia|]. split; [done|]. split; [done|].
  rewrite <- take_take_drop, size_of_app. apply (f_equal zlen) in E. rewrite !zlen_app in E. unfold size_of at 3. lia.
Qed.

Lemma sync_turn_rel chunks c0 s k res :
  Forall slave_takes (concat chunks) → is_Some (apply_all c0 (fst (replay None (concat chunks)))) →
  slave_rel (concat chunks) c0 s k → good_response chunks (cur_offset s) res →
  ∃ s' k', sync_turn s res = Some (Running s') ∧ slave_rel (concat chunks) c0 s' k' ∧ cur_offset s' = res_offset res.
Proof.
  intros Htakes Hall [Hk (partial & junk & Hinc & Ebuf & Eoff) Hroom Hprev (a & Happ & Hcont)]
    (Hrc & Hlen & Hoff & _ & Hdata & Hmax & _). set (log := concat chunks) in *.
  destruct s as [prev buf off db]. cbn in Ebuf, Eoff, Hroom, Hprev, Hcont, Hoff, Hdata. subst buf. cbn in Hroom.
  unfold sync_turn. rewrite Hrc. cbn [Z.ltb Z.compare orb]. destruct (Z.eqb_spec (res_len res) 0) as [E0|E0].
  { eexists _, k. split; [done|]. split; [|cbn; lia]. split; cbn; try done; [by exists partial, junk|].
    exists a. split; [done|]. by apply readable_content. }
  assert (Forall slave_takes (drop k log)) as Hdrop by by apply Forall_drop.
  pose proof (incomplete_short _ _ Hdrop Hinc) as Hshort. pose proof (zlen_nonneg partial). pose proof (zlen_nonneg (res_data res)).
  rewrite Eoff in Hdata, Hoff. destruct (receive log k partial (res_len res) (res_data res) Hk Hinc Hdata (eq_sym Hlen))
    as (m & partial' & Hm & Ecut & Hinc' & Esz).
  assert (zsub (res_data res) 0 (res_len res) = Some (res_data res)) as ->.
  { pose proof (zsub_mid [] (res_data res) [] 0 (res_len res) eq_refl Hlen) as Hs. by rewrite app_nil_r in Hs. }
  cbn [mbind option_bind]. rewrite zlen_app in Hroom. rewrite zcopy_mid by lia. cbn [mbind option_bind].
  set (junk' := drop (length (res_data res)) junk). rewrite (app_assoc partial), Ecut, <- app_assoc.
  set (recs := take m (drop k log)) in *.
  assert (zlen partial + res_len res = zlen (bytes_of recs ++ partial')) as Ew by (rewrite <- Ecut, zlen_app; lia).
  assert (zlen (bytes_of recs ++ partial' ++ junk') = 10 * MAX_BINLOG_DATA_PER_PACKET) as Hroom'.
  { rewrite app_assoc, zlen_app, <- Ew. unfold junk', zlen in *. rewrite length_drop. lia. }
  rewrite Ew, u32_small.
  2:{ rewrite app_assoc, zlen_app in Hroom'. pose proof (zlen_nonneg junk'). unfold MAX_BINLOG_DATA_PER_PACKET in *.
      split; [apply zlen_nonneg|lia]. }
  assert (take (k + m) log = take k log ++ recs) as Etake by by rewrite <- take_take_drop.
  destruct (apply_prefix c0 log (k + m) Hall) as [a' Happ']. rewrite Etake, replay_app in Happ'. cbn [fst] in Happ'.
  rewrite apply_all_app, Happ in Happ'. cbn [mbind option_bind] in Happ'.
  destruct (drain_rep (S (length (bytes_of recs ++ partial' ++ junk'))) [] recs (drop (k + m) log) partial' junk' prev _ a a' db Hprev Hcont Happ')
    as (prev' & db' & Edrain & Hprev' & Hcont').
  { by apply Forall_take. } { by apply Forall_drop. } { done. }
  { cbn [app]. rewrite Hroom'. unfold MAX_BINLOG_DATA_PER_PACKET. lia. }
  { pose proof (size_of_ge recs) as Hs. unfold RECORD_SIZE, size_of, zlen in Hs. rewrite length_app. lia. }
  cbn [app] in Edrain. change (zlen []) with 0 in Edrain. rewrite Edrain. cbn [mbind option_bind].
  assert (u32 (zlen (bytes_of recs ++ partial') - zlen (bytes_of recs)) = zlen partial') as ->.
  { rewrite zlen_app. pose proof (zlen_nonneg (bytes_of recs)). pose proof (zlen_nonneg partial').
    pose proof (zlen_nonneg junk'). rewrite !zlen_app in Hroom'. unfold MAX_BINLOG_DATA_PER_PACKET in *. rewrite u32_small; lia. }
  rewrite (zsub_mid (bytes_of recs) partial' junk') by done. cbn [mbind option_bind].
  pose proof (zcopy_mid [] (bytes_of recs ++ partial' ++ junk') partial') as Ez. cbn [app] in Ez. change (zlen []) with 0 in Ez.
  rewrite Ez by (rewrite !zlen_app; pose proof (zlen_nonneg (bytes_of recs)); pose proof (zlen_nonneg junk'); lia).
  cbn [mbind option_bind]. pose proof (sync_pos_content a' db' (u64 (res_offset res - zlen partial'))
    (u64 (res_remain_length res + zlen partial')) Hcont') as Hpos. destruct (SetSlaveSyncPos _ _ _) as [rc db2]. cbn in Hpos.
  eexists _, (k + m)%nat. split; [done|]. split; [|done].
  split; cbn; rewrite ?Etake, ?replay_app; try done.
  - eexists partial', _. split; [done|]. split; [done|]. rewrite <- Etake. lia.
  - rewrite zlen_app. unfold zlen in *. rewrite length_drop. rewrite !length_app in *. lia.
  - exists a'. split; [|by apply readable_content]. cbn [fst]. by rewrite apply_all_app, Happ.
Qed.

Lemma connect_rel log c0 buffer db :
  zlen (sb_data buffer) = 10 * MAX_BINLOG_DATA_PER_PACKET → content c0 db → slave_rel log c0 (connect buffer 0 db) 0.
Proof.
  intros Hb Hc. split; try done; [lia| |by exists c0]. exists [], (sb_data buffer). split; [by left|]. done.
Qed.

Lemma sync_with_master_rel rios chunks max_size w files bl_reader c0 s k :
  log_ok chunks → Forall slave_takes (concat chunks) → is_Some (apply_all c0 (fst (replay None (concat chunks)))) → files_rep files chunks → writer_rep w files chunks →
  Forall read_goes rios → (∀ r, bl_reader = Ptr r → ∃ q, session_at w chunks files r q) → slave_rel (concat chunks) c0 s k →
  size_of (concat chunks) - cur_offset s ≤ zlen rios + 3 →
  ∃ s' rd files' k', sync_with_master rios max_size w files bl_reader s = Some (Running (s', rd, files')) ∧
    slave_rel (concat chunks) c0 s' k' ∧ size_of (concat chunks) - cur_offset s' < 4.
Proof.
  intros Hl Htakes Hall Hf Hw Hio. revert files bl_reader s k Hf Hw.
  induction Hio as [|rio rios Hrio Hio IH]; intros files bl_reader s k Hf Hw Hsess Hs Hleft.
  { eexists _, _, _, k. split; [done|]. split; [done|]. change (zlen (@nil read_io)) with 0 in Hleft. lia. }
  assert (0 ≤ cur_offset s ≤ size_of (concat chunks)) as Hp.
  { destruct (sl_partial _ _ _ _ Hs) as (partial & junk & Hinc & _ & ->). apply incomplete_prefix in Hinc as [tail Et].
    pose proof (size_of_nonneg (take k (concat chunks))). pose proof (zlen_nonneg partial). pose proof (zlen_nonneg tail).
    split; [lia|]. rewrite <- (take_drop k (concat chunks)) at 2. rewrite size_of_app. unfold size_of at 3.
    rewrite Et, zlen_app. lia. }
  destruct (sync_rel w chunks Hl rio files max_size (cur_offset s) bl_reader Hf Hw Hp Hrio Hsess)
    as (res & r & files' & E & Hgood & Hf' & Hw' & Hat).
  destruct (sync_turn_rel chunks c0 s k res Htakes Hall Hs Hgood) as (s1 & k1 & E1 & Hs1 & Eoff).
  cbn [sync_with_master]. fold all_well. rewrite E. cbn [mbind option_bind]. rewrite E1. cbn [mbind option_bind].
  apply (IH files' (Ptr r) s1 k1); try done.
  - intros r' [= <-]. by eexists.
  - change (rio :: rios) with ([rio] ++ rios) in Hleft. rewrite zlen_app in Hleft. change (zlen [rio]) with 1 in Hleft.
    destruct Hgood as (_ & Hlen & Hoff & _ & _ & _ & Hzero). pose proof (zlen_nonneg (res_data res)).
    pose proof (zlen_nonneg rios). destruct (decide (res_len res = 0)) as [Hz|Hz]; [|lia].
    pose proof (proj1 Hzero Hz). lia.
Qed.

(** At most the last record waits for its last bytes. *)
Lemma almost_all log c0 s k :
  Forall slave_takes log → slave_rel log c0 s k → size_of log - cur_offset s < 4 → (length log ≤ S k)%nat.
Proof.
  intros Htakes Hs Hleft. destruct (sl_partial _ _ _ _ Hs) as (partial & junk & Hinc & _ & Eoff).
  destruct (decide (length log ≤ S k)%nat) as [|Hn]; [done|].
  rewrite <- (take_drop k log) in Hleft at 1. rewrite size_of_app in Hleft. exfalso.
  assert (∃ r1 r2 rest, drop k log = r1 :: r2 :: rest) as (r1 & r2 & rest & E).
  { destruct (drop k log) as [|r1 [|r2 rest]] eqn:E; [| |by exists r1, r2, rest];
      apply (f_equal length) in E; rewrite length_drop in E; simpl in E; lia. }
  rewrite E in Hinc, Hleft. rewrite !size_of_cons in Hleft. pose proof (size_of_nonneg rest).
  pose proof (zlen_nonneg (rec_data r1)). pose proof (zlen_nonneg (rec_data r2)). unfold RECORD_SIZE in *.
  destruct Hinc as [->|(r & log' & tail & [= -> _] & Er & _)].
  - change (zlen (@nil Z)) with 0 in Eoff. lia.
  - pose proof (zlen_record r) as Hz. rewrite Er, zlen_app in Hz. pose proof (zlen_nonneg tail). unfold RECORD_SIZE in *. lia.
Qed.

(** The turns that are enough for the log of a master. *)
Lemma slave_follows rios chunks max_size w files c0 db buffer :
  log_ok chunks → Forall slave_takes (concat chunks) → is_Some (apply_all c0 (fst (replay None (concat chunks)))) →
  files_rep files chunks → writer_rep w files chunks → zlen (sb_data buffer) = 10 * MAX_BINLOG_DATA_PER_PACKET →
  Forall read_goes rios → size_of (concat chunks) ≤ zlen rios → content c0 db →
  ∃ s rd files' k a, sync_with_master rios max_size w files NULL (connect buffer 0 db) = Some (Running (s, rd, files')) ∧
    apply_all c0 (fst (replay None (take k (concat chunks)))) = Some a ∧ content a (sl_db s) ∧
    (k ≤ length (concat chunks) ≤ S k)%nat ∧ size_of (concat chunks) - cur_offset s < 4.
Proof.
  intros Hl Htakes Hall Hf Hw Hbuf Hio Hlen Hdb.
  destruct (sync_with_master_rel rios chunks max_size w files NULL c0 (connect buffer 0 db) 0 Hl Htakes Hall Hf Hw Hio)
    as (s & rd & files' & k & Es & Hs & Hleft); [done|by apply connect_rel|cbn; lia|].
  destruct (sl_content _ _ _ _ Hs) as (a & Happ & Ha). exists s, rd, files', k, a. split_and!; try done.
  - apply (sl_count _ _ _ _ Hs).
  - by apply (almost_all _ c0 s).
Qed.

(** C13: replication.  A slave that starts from nothing and pulls the log of a
    master, however the log is cut into files and packets, executes the log's
    records in order and applies exactly the changes that are followed by a
    confirmation, provided that they make sense one after the other for what the
    slave has; at most the last record of the log is still incomplete, and
    fewer than four bytes of the log are left. *)
Theorem slave_applies_confirmed max_size ops rios (c0 : A) (db : D) buffer :
  0 ≤ max_size < 2 ^ 32 → spec_ops_ok (LogSpec [] None) ops →
  let log := spec_log (snd (spec_run (LogSpec [] None) ops)) in
  Forall slave_takes log → zlen (sb_data buffer) = 10 * MAX_BINLOG_DATA_PER_PACKET → Forall read_goes rios →
  size_of log ≤ zlen rios → content c0 db → is_Some (apply_all c0 (fst (replay None log))) →
  ∃ st s rd files k a, snd <$> log_session max_size ops = Some st ∧
    sync_with_master rios max_size (st_writer st) (st_files st) NULL (connect buffer 0 db) = Some (Running (s, rd, files)) ∧
    apply_all c0 (fst (replay None (take k log))) = Some a ∧ content a (sl_db s) ∧
    (k ≤ length log ≤ S k)%nat ∧ size_of log - cur_offset s < 4.
Proof.
  intros Hms Hok log Htakes Hbuf Hio Hlen Hdb Hall. destruct (log_session_rel max_size ops Hms Hok) as (st & E & Hrel).
  destruct Hrel as (chunks & Hc & Hl & Hf & Hw & _). fold log in Hc. rewrite <- Hc in *. exists st.
  destruct (slave_follows rios chunks max_size (st_writer st) (st_files st) c0 db buffer)
    as (s & rd & files & k & a & Hrun); try done.
  exists s, rd, files, k, a. by rewrite E.
Qed.
End spec.

(** ** A storage engine that keeps the changes and the position *)

#[export] Instance trace_engine : StorageEngine (list (list Z) * Z) := {
  ApplyBinlog db r := (MILE_RETURN_SUCCESS, (fst db ++ [r], snd db));
  SetSlaveSyncPos db p _ := (MILE_RETURN_SUCCESS, (fst db, p));
  SetReadable db _ := db }.

#[export] Program Instance trace_laws : StorageEngineLaws (list (list Z) * Z) (list (list Z)) :=
  {| content l db := fst db = l; apply_change l r := Some (l ++ [r]) |}.
Next Obligation. intros a a' db r <- [= <-]. by eexists. Qed.
Next Obligation. by intros a db p q <-. Qed.
Next Obligation. by intros a db b <-. Qed.

Definition slave_memory : slave_buffer := SlaveBuffer (replicate (Z.to_nat (10 * MAX_BINLOG_DATA_PER_PACKET)) 0) 0 0.

Lemma slave_memory_length : zlen (sb_data slave_memory) = 10 * MAX_BINLOG_DATA_PER_PACKET.
Proof. unfold slave_memory. cbn [sb_data]. rewrite zlen_replicate. unfold MAX_BINLOG_DATA_PER_PACKET. lia. Qed.

Lemma slave_applies_confirmed_witness :
  ∃ st s rd files k, snd <$> log_session 40 example_ops = Some st ∧
    sync_with_master (replicate 64 (fst calm_read)) 40 (st_writer st) (st_files st) NULL
      (connect slave_memory 0 ([], 0)) = Some (Running (s, rd, files)) ∧
    apply_all [] (fst (replay None (take k (spec_log (snd (spec_run (LogSpec [] None) example_ops)))))) = Some (fst (sl_db s)) ∧
    (k ≤ 3 ≤ S k)%nat ∧ 64 - cur_offset s < 4.
Proof.
  destruct (slave_applies_confirmed 40 example_ops (replicate 64 (fst calm_read)) [] ([], 0) slave_memory
    ltac:(lia) example_ops_ok) as (st & s & rd & files & k & a & E & Es & Ha & Hc & Hk & Hleft).
  - repeat constructor; done.
  - exact slave_memory_length.
  - apply Forall_replicate, calm_read_goes.
  - done.
  - done.
  - vm_compute. by eexists.
  - exists st, s, rd, files, k. split; [exact E|]. split; [exact Es|]. split; [|split; [exact Hk|exact Hleft]].
    rewrite Ha. f_equal. exact (eq_sym Hc).
Defined.

(** The slave of [max_size] 40 and a buffer of 100 bytes, after a turn against
    each of the masters, with a new connection in between or not. *)
Definition slave_between (reconnect : bool) (masters : list log_state) (s : slave_state (list (list Z) * Z))
    : option (slave_state (list (list Z) * Z)) :=
  foldl (λ o st,
    s ← o;
    let s := if reconnect then connect (sl_buffer s) (snd (sl_db s)) (sl_db s) else s in
    out ← sync_with_master [ReadIo [] true []] 40 (st_writer st) (st_files st) NULL s;
    match out with Exited => None | Running (s, _, _) => Some s end) (Some s) masters.

Definition master_after (ops : list log_op) : option log_state := snd <$> log_session 40 ops.

Definition change_then_confirm (reconnect : bool) : option (list (list Z) * Z) :=
  st1 ← master_after [LWrite (calm_write 100) (example_record 1)];
  st2 ← master_after [LWrite (calm_write 100) (example_record 1); LConfirm (calm_write 100) true];
  s ← slave_between reconnect [st1; st2] (connect (SlaveBuffer (replicate 100 0) 0 0) 0 ([], 0));
  Some (sl_db s).

(** A change is lost when the connection to the master breaks between its
    record and the confirmation: the slave keeps an offset behind the change but
    forgets the change, so that the confirmation, the first record of the new
    connection, applies nothing.  On one connection the change is applied. *)
Theorem reconnect_loses_change :
  change_then_confirm false = Some ([record_bytes (set_time (example_record 1) 100)], 40) ∧
  change_then_confirm true = Some ([], 40).
Proof. vm_compute. split; reflexivity. Qed.
