(* ===== verification/DataBuffer.v ===== *)
(** * Data buffers of the protocol ([src/protocol/databuffer.c], [databuffer.h])

    A packet is written to and read from a growing byte buffer, numbers in big
    endian.  A read past the received data gives 0 and sets [array_border]. *)

From Stdlib Require Import ZArith Lia.
From stdpp Require Import base option list numbers.
From S2P Require Import Prelude LowData.

(** [size] is the length of the block [data] points to. *)
Record data_buffer := Buffer {
  data_len : Z;
  buf_data : ptr (list Z);
  wpos : Z;
  rpos : Z;
  size : Z;
  array_border : Z }.

(** [n = data[0]; n <<= 8; n |= data[1]; ...]: as many bytes as the type of [n]
    has, so that nothing is shifted out. *)
Definition be_value (bytes : list Z) : Z := foldl (λ n b, Z.lor (Z.shiftl n 8) b) 0 bytes.

(** [data[k-1] = (uint8_t) n; n >>= 8; ... data[0] = (uint8_t) n]. *)
Definition be_bytes (k : nat) (n : Z) : list Z := reverse (le_bytes k n).

Definition init_data_buffer : data_buffer := Buffer 0 NULL 0 0 0 0.
Definition clear_data_buffer (buffer : data_buffer) : data_buffer := Buffer 0 NULL 0 0 0 0.

Definition set_border (b : data_buffer) : data_buffer :=
  Buffer (data_len b) (buf_data b) (wpos b) (rpos b) (size b) 1.
Definition set_rpos (b : data_buffer) (p : Z) : data_buffer :=
  Buffer (data_len b) (buf_data b) (wpos b) p (size b) (array_border b).
Definition set_data (b : data_buffer) (d : list Z) : data_buffer :=
  Buffer (data_len b) (Ptr d) (wpos b) (rpos b) (size b) (array_border b).

(** The block; of NULL no byte can be read or written. *)
Definition block (b : data_buffer) : list Z := match buf_data b with NULL => [] | Ptr d => d end.

Section buffers.
(** The content of fresh memory of [n] bytes. *)
Context (junk : Z → list Z).

Definition databuf_resize (b : data_buffer) (n : Z) : option data_buffer :=
  if size b >=? n then Some b
  else
    match buf_data b with
    | NULL => Some (Buffer (data_len b) (Ptr (junk n)) (wpos b) (rpos b) (u32 n) (array_border b))
    | Ptr old =>
        old ← zsub old 0 (size b);
        d ← zcopy (junk n) 0 old;
        Some (Buffer (data_len b) (Ptr d) (wpos b) (rpos b) (u32 n) (array_border b))
    end.

Definition databuf_reserve (b : data_buffer) (n : Z) : option data_buffer :=
  if size b >=? n then Some b
  else databuf_resize b (if n <? 1024 / 2 then 1024 else u64 (2 * n)).

Definition make_write_room (b : data_buffer) (n : Z) : option data_buffer :=
  if wpos b + n >? size b then databuf_reserve b (wpos b + n) else Some b.

(** The bytes at [wpos], behind which the buffer now ends. *)
Definition append_bytes (b : data_buffer) (bytes : list Z) : option data_buffer :=
  d ← zcopy (block b) (wpos b) bytes;
  let d := match buf_data b with NULL => NULL | Ptr _ => Ptr d end in
  Some (Buffer (u32 (data_len b + zlen bytes)) d (u32 (wpos b + zlen bytes)) (rpos b) (size b) (array_border b)).

Definition write_int8 (n : Z) (b : data_buffer) : option data_buffer :=
  b ← make_write_room b 1; append_bytes b (be_bytes 1 n).
Definition write_int16 (n : Z) (b : data_buffer) : option data_buffer :=
  b ← make_write_room b 2; append_bytes b (be_bytes 2 n).
Definition write_int32 (n : Z) (b : data_buffer) : option data_buffer :=
  b ← make_write_room b 4; append_bytes b (be_bytes 4 n).
Definition write_int64 (n : Z) (b : data_buffer) : option data_buffer :=
  b ← make_write_room b 8; append_bytes b (be_bytes 8 n).

Definition write_bytes (bytes : list Z) (len : Z) (b : data_buffer) : option data_buffer :=
  b ← make_write_room b len;
  bytes ← zsub bytes 0 len;
  append_bytes b bytes.

(** Reading [k] bytes as a number at the read position. *)
Definition read_number (k : Z) (b : data_buffer) : option (Z * data_buffer) :=
  if u32 (rpos b + k) >? data_len b then Some (0, set_border b)
  else
    bytes ← zsub (block b) (rpos b) k;
    Some (be_value bytes, set_rpos b (u32 (rpos b + k))).

Definition read_int8 := read_number 1.
Definition read_int16 := read_number 2.
Definition read_int32 := read_number 4.
Definition read_int64 := read_number 8.

(** Reading at a position, which leaves the read position. *)
Definition read_pos_number (k : Z) (b : data_buffer) (pos : Z) : option (Z * data_buffer) :=
  if u32 (pos + k) >? data_len b then Some (0, set_border b)
  else
    bytes ← zsub (block b) pos k;
    Some (be_value bytes, b).

Definition read_pos_int8 := read_pos_number 1.
Definition read_pos_int16 := read_pos_number 2.
Definition read_pos_int32 := read_pos_number 4.
Definition read_pos_int64 := read_pos_number 8.

(** The bytes copied; the destination keeps its content past the end. *)
Definition read_bytes (b : data_buffer) (len : Z) : option (list Z * data_buffer) :=
  if u32 (rpos b + len) >? data_len b then Some ([], set_border b)
  else
    bytes ← zsub (block b) (rpos b) len;
    Some (bytes, set_rpos b (u32 (rpos b + len))).

(** The string without its NUL; the length is signed, and a negative one asks
    [memcpy] for more than any block has. *)
Definition read_cstring (b : data_buffer) : option (ptr (list Z) * data_buffer) :=
  if u32 (rpos b + 4) >? data_len b then Some (NULL, set_border b)
  else
    '(n, b) ← read_int32 b;
    let len := s32 n in
    if u32 (rpos b + len) >? data_len b then Some (NULL, set_border b)
    else
      bytes ← zsub (block b) (rpos b) (u64 len);
      Some (Ptr bytes, set_rpos b (u32 (rpos b + len))).

Definition fill_number (k : nat) (n : Z) (b : data_buffer) (fpos : Z) : option data_buffer :=
  if u32 (fpos + Z.of_nat k) >? data_len b then Some (set_border b)
  else
    d ← zcopy (block b) fpos (be_bytes k n);
    Some (set_data b d).

Definition fill_int8 := fill_number 1.
Definition fill_int32 := fill_number 4.

Definition convert_int16 (n : Z) : Z := le_value (be_bytes 2 n).
Definition convert_int32 (n : Z) : Z := le_value (be_bytes 4 n).
Definition convert_int64 (n : Z) : Z := le_value (be_bytes 8 n).

(** ** Messages *)

(** A value of a message, as the handlers write and read it. *)
Inductive field_value :=
| Int8 (n : Z) | Int16 (n : Z) | Int32 (n : Z) | Int64 (n : Z)
| Raw (bytes : list Z)
| Cstring (s : list Z).

Definition write_value (v : field_value) (b : data_buffer) : option data_buffer :=
  match v with
  | Int8 n => write_int8 n b
  | Int16 n => write_int16 n b
  | Int32 n => write_int32 n b
  | Int64 n => write_int64 n b
  | Raw bytes => write_bytes bytes (zlen bytes) b
  | Cstring s => b ← write_int32 (zlen s) b; write_bytes s (zlen s) b
  end.

(** A read of the kind of value that [v] is. *)
Definition read_like (v : field_value) (b : data_buffer) : option (field_value * data_buffer) :=
  match v with
  | Int8 _ => '(n, b) ← read_int8 b; Some (Int8 n, b)
  | Int16 _ => '(n, b) ← read_int16 b; Some (Int16 n, b)
  | Int32 _ => '(n, b) ← read_int32 b; Some (Int32 n, b)
  | Int64 _ => '(n, b) ← read_int64 b; Some (Int64 n, b)
  | Raw bytes => '(x, b) ← read_bytes b (zlen bytes); Some (Raw x, b)
  | Cstring _ =>
      '(s, b) ← read_cstring b;
      match s with NULL => None | Ptr s => Some (Cstring s, b) end
  end.

Fixpoint write_values (vs : list field_value) (b : data_buffer) : option data_buffer :=
  match vs with [] => Some b | v :: vs => b ← write_value v b; write_values vs b end.

Fixpoint read_values (vs : list field_value) (b : data_buffer) : option (list field_value * data_buffer) :=
  match vs with
  | [] => Some ([], b)
  | v :: vs => '(x, b) ← read_like v b; '(xs, b) ← read_values vs b; Some (x :: xs, b)
  end.

Definition value_bytes (v : field_value) : list Z :=
  match v with
  | Int8 n => be_bytes 1 n
  | Int16 n => be_bytes 2 n
  | Int32 n => be_bytes 4 n
  | Int64 n => be_bytes 8 n
  | Raw bytes => bytes
  | Cstring s => be_bytes 4 (zlen s) ++ s
  end.

Definition value_ok (v : field_value) : Prop :=
  match v with
  | Int8 n => 0 ≤ n < 2 ^ 8
  | Int16 n => 0 ≤ n < 2 ^ 16
  | Int32 n => 0 ≤ n < 2 ^ 32
  | Int64 n => 0 ≤ n < 2 ^ 64
  | Raw bytes => True
  | Cstring s => zlen s < 2 ^ 31
  end.

Definition message_bytes (vs : list field_value) : list Z := concat (value_bytes <$> vs).

(** ** Numbers *)

Lemma zlen_be_bytes k n : zlen (be_bytes k n) = Z.of_nat k.
Proof. unfold be_bytes, zlen. by rewrite length_reverse, length_le_bytes. Qed.

Lemma be_value_snoc l b : be_value (l ++ [b]) = Z.lor (Z.shiftl (be_value l) 8) b.
Proof. unfold be_value. by rewrite foldl_app. Qed.

Lemma be_value_bytes k n : 0 ≤ n < 2 ^ (8 * Z.of_nat k) → be_value (be_bytes k n) = n.
Proof.
  clear junk. unfold be_bytes. revert n. induction k as [|k IH]; intros n Hn; [simpl in Hn; cbn; lia|].
  cbn [le_bytes]. rewrite reverse_cons, be_value_snoc, IH.
  - rewrite Z.shiftl_mul_pow2 by lia. change (2 ^ 8) with 256.
    pose proof (Z.add_lor_land ((n / 256) * 256) (n `mod` 256)) as Ha.
    assert (Z.land ((n / 256) * 256) (n `mod` 256) = 0) as E0.
    { change 256 with (2 ^ 8). rewrite <- Z.land_ones, <- Z.shiftl_mul_pow2 by lia.
      apply Z.bits_inj'. intros i Hi. rewrite Z.land_spec, Z.shiftl_spec, Z.land_spec, Z.bits_0 by lia.
      destruct (Z.ltb_spec i 8).
      - rewrite Z.testbit_neg_r by lia. done.
      - rewrite Z.ones_spec_high by lia. by rewrite !andb_false_r. }
    pose proof (Z.div_mod n 256). lia.
  - rewrite Nat2Z.inj_succ in Hn. replace (8 * Z.succ (Z.of_nat k)) with (8 * Z.of_nat k + 8) in Hn by lia.
    rewrite Z.pow_add_r in Hn by lia. change (2 ^ 8) with 256 in Hn. zdiv.
Qed.

(** ** Writing *)

Hypothesis junk_len : ∀ n, 0 ≤ n → zlen (junk n) = n.

(** The buffer holds the written bytes [m]. *)
Record holds (b : data_buffer) (m : list Z) : Prop := {
  held_len : data_len b = zlen m;
  held_wpos : wpos b = zlen m;
  held_rpos : rpos b = 0;
  held_size : zlen (block b) = size b;
  held_small : size b < 2 ^ 31;
  held_data : ∃ rest, block b = m ++ rest;
  held_border : array_border b = 0 }.

Lemma holds_init : holds init_data_buffer [].
Proof. split; try done. by exists []. Qed.

Lemma zcopy_front {A} (a b src : list A) :
  zlen src ≤ zlen b → ∃ rest, zcopy (a ++ b) (zlen a) src = Some (a ++ src ++ rest) ∧ zlen (src ++ rest) = zlen b.
Proof.
  intros Hl. exists (drop (length src) b). rewrite zcopy_mid by done. split; [done|].
  unfold zlen in *. rewrite length_app, length_drop. lia.
Qed.

Lemma make_write_room_holds b m n :
  holds b m → 0 ≤ n → zlen m + n < 2 ^ 29 →
  ∃ b', make_write_room b n = Some b' ∧ holds b' m ∧ zlen m + n ≤ size b' ∧ (buf_data b' = NULL → n = 0).
Proof.
  intros [Hl Hw Hr Hs Hm (rest & Hd) Hb] Hn Hbound. unfold make_write_room. rewrite Hw. pose proof (zlen_nonneg m).
  destruct (Z.gtb_spec (zlen m + n) (size b)) as [Hgt|Hle].
  2:{ exists b. split; [done|]. split; [split; by eauto|]. split; [lia|]. intros E. unfold block in Hs. rewrite E in Hs.
      change (zlen (@nil Z)) with 0 in Hs. lia. }
  unfold databuf_reserve. rewrite Z.geb_leb, (proj2 (Z.leb_gt _ _)) by lia.
  set (c := if zlen m + n <? 1024 / 2 then 1024 else u64 (2 * (zlen m + n))).
  assert (zlen m + n ≤ c < 2 ^ 31) as Hc.
  { unfold c. change (1024 / 2) with 512. destruct (Z.ltb_spec (zlen m + n) 512); [lia|]. rewrite u64_small by lia. lia. }
  unfold databuf_resize. rewrite Z.geb_leb, (proj2 (Z.leb_gt _ _)) by lia. rewrite u32_small by lia.
  unfold block in Hs, Hd. destruct (buf_data b) as [|old] eqn:Eb.
  - eexists. split; [done|]. symmetry in Hd. apply app_eq_nil in Hd as [-> ->]. split; [|split; [cbn; lia|done]].
    split; cbn; try done; [apply junk_len; lia|lia|by exists (junk c)].
  - assert (zsub old 0 (size b) = Some old) as ->.
    { pose proof (zsub_mid [] old [] 0 (size b) eq_refl (eq_sym Hs)) as E. by rewrite app_nil_r in E. }
    cbn [mbind option_bind]. destruct (zcopy_front [] (junk c) old) as (r2 & E & Hlen); [rewrite junk_len; lia|].
    cbn [app] in E. change (zlen []) with 0 in E. rewrite E. cbn [mbind option_bind]. eexists. split; [done|].
    split; [|split; [cbn; lia|done]]. split; cbn; try done; [rewrite Hlen; apply junk_len; lia|lia|]. exists (rest ++ r2). by rewrite Hd, <- app_assoc.
Qed.

Lemma append_holds b m x :
  holds b m → zlen m + zlen x ≤ size b → (buf_data b = NULL → zlen x = 0) →
  ∃ b', append_bytes b x = Some b' ∧ holds b' (m ++ x).
Proof.
  intros [Hl Hw Hr Hs Hm (rest & Hd) Hb] Hroom Hnull. unfold append_bytes. pose proof (zlen_nonneg m). pose proof (zlen_nonneg x).
  rewrite Hd, zlen_app in Hs. rewrite Hw, Hl, Hd. destruct (zcopy_front m rest x) as (r2 & E & Hlen); [lia|].
  rewrite E. cbn [mbind option_bind]. eexists. split; [done|]. rewrite u32_small by lia.
  assert (block (Buffer (zlen m + zlen x) (match buf_data b with NULL => NULL | Ptr _ => Ptr (m ++ x ++ r2) end)
    (zlen m + zlen x) (rpos b) (size b) (array_border b)) = m ++ x ++ r2) as Eblk.
  { unfold block in Hd |- *. cbn. destruct (buf_data b); [|done]. specialize (Hnull eq_refl).
    symmetry in Hd. apply app_eq_nil in Hd as [-> ->]. rewrite zlen_app in Hlen. change (zlen (@nil Z)) with 0 in Hlen.
    pose proof (zlen_nonneg r2). symmetry. apply length_zero_iff_nil. unfold zlen in *. rewrite !length_app. simpl. lia. }
  split; rewrite ?Eblk; cbn [data_len wpos rpos size array_border]; rewrite ?zlen_app in *; try done; try lia.
  exists r2. by rewrite app_assoc.
Qed.

Lemma write_bytes_holds b m x :
  holds b m → zlen m + zlen x < 2 ^ 29 →
  ∃ b', (b ← make_write_room b (zlen x); append_bytes b x) = Some b' ∧ holds b' (m ++ x).
Proof.
  intros Hb Hlen. destruct (make_write_room_holds b m (zlen x) Hb (zlen_nonneg _) Hlen) as (b1 & -> & Hb1 & Hroom & Hnull).
  cbn [mbind option_bind]. by apply append_holds.
Qed.

Lemma write_value_holds b m v :
  holds b m → zlen m + zlen (value_bytes v) < 2 ^ 29 → ∃ b', write_value v b = Some b' ∧ holds b' (m ++ value_bytes v).
Proof.
  intros Hb Hlen. assert (∀ x : list Z, zsub x 0 (zlen x) = Some x) as Hz.
  { intros x. pose proof (zsub_mid [] x [] 0 (zlen x) eq_refl eq_refl) as E. by rewrite app_nil_r in E. }
  destruct v as [n|n|n|n|x|x]; cbn [write_value value_bytes] in *;
    try (unfold write_int8, write_int16, write_int32, write_int64;
         match goal with |- context [append_bytes _ ?x] =>
           pose proof (write_bytes_holds b m x Hb Hlen) as Hw; rewrite zlen_be_bytes in Hw; exact Hw end).
  - unfold write_bytes. rewrite Hz. cbn [mbind option_bind]. by apply write_bytes_holds.
  - rewrite zlen_app in Hlen. pose proof (zlen_nonneg x).
    pose proof (write_bytes_holds b m (be_bytes 4 (zlen x)) Hb) as (b1 & E1 & Hb1); [lia|].
    rewrite zlen_be_bytes in E1. unfold write_int32. change (Z.of_nat 4) with 4 in E1. rewrite E1. cbn [mbind option_bind].
    unfold write_bytes. rewrite Hz. cbn [mbind option_bind].
    pose proof (write_bytes_holds b1 _ x Hb1) as (b2 & E2 & Hb2); [rewrite zlen_app; lia|].
    exists b2. rewrite app_assoc. split; [|done]. exact E2.
Qed.

Lemma write_values_holds vs b m :
  holds b m → zlen m + zlen (message_bytes vs) < 2 ^ 29 →
  ∃ b', write_values vs b = Some b' ∧ holds b' (m ++ message_bytes vs).
Proof.
  revert b m. induction vs as [|v vs IH]; intros b m Hb Hlen; [exists b; by rewrite app_nil_r|].
  change (message_bytes (v :: vs)) with (value_bytes v ++ message_bytes vs) in *. rewrite zlen_app in Hlen.
  pose proof (zlen_nonneg (message_bytes vs)). cbn [write_values].
  destruct (write_value_holds b m v Hb) as (b1 & -> & Hb1); [lia|]. cbn [mbind option_bind].
  destruct (IH b1 _ Hb1) as (b2 & -> & Hb2); [rewrite zlen_app; lia|]. exists b2. by rewrite app_assoc.
Qed.

End buffers.

(** ** Reading *)

(** The buffer has received [m], followed by unused bytes. *)
Definition received (b : data_buffer) (m : list Z) : Prop :=
  data_len b = zlen m ∧ zlen m < 2 ^ 31 ∧ ∃ rest, block b = m ++ rest.

Lemma received_rpos b m p : received b m → received (set_rpos b p) m.
Proof. done. Qed.

Lemma read_number_at b pre x post k :
  received b (pre ++ x ++ post) → rpos b = zlen pre → zlen x = k →
  read_number k b = Some (be_value x, set_rpos b (zlen pre + k)).
Proof.
  intros (Hl & Hs & rest & Hd) Hr <-. unfold read_number. rewrite Hr, Hl, Hd. rewrite !zlen_app in *.
  pose proof (zlen_nonneg pre). pose proof (zlen_nonneg x). pose proof (zlen_nonneg post). rewrite u32_small by lia.
  rewrite Z.gtb_ltb, (proj2 (Z.ltb_ge _ _)) by lia. rewrite <- !app_assoc, zsub_mid by done. done.
Qed.

Lemma read_bytes_at b pre x post :
  received b (pre ++ x ++ post) → rpos b = zlen pre →
  read_bytes b (zlen x) = Some (x, set_rpos b (zlen pre + zlen x)).
Proof.
  intros (Hl & Hs & rest & Hd) Hr. unfold read_bytes. rewrite Hr, Hl, Hd. rewrite !zlen_app in *.
  pose proof (zlen_nonneg pre). pose proof (zlen_nonneg x). pose proof (zlen_nonneg post). rewrite u32_small by lia.
  rewrite Z.gtb_ltb, (proj2 (Z.ltb_ge _ _)) by lia. rewrite <- !app_assoc, zsub_mid by done. done.
Qed.

Lemma read_cstring_at b pre s post :
  received b (pre ++ (be_bytes 4 (zlen s) ++ s) ++ post) → rpos b = zlen pre →
  read_cstring b = Some (Ptr s, set_rpos b (zlen pre + zlen (be_bytes 4 (zlen s) ++ s))).
Proof.
  intros Hrec Hr. pose proof Hrec as (Hl & Hs & rest & Hd). pose proof (zlen_nonneg pre). pose proof (zlen_nonneg s).
  pose proof (zlen_nonneg post). assert (zlen (be_bytes 4 (zlen s)) = 4) as H4 by apply zlen_be_bytes.
  unfold read_cstring. rewrite Hr, Hl. rewrite !zlen_app in Hs |- *. rewrite u32_small by lia.
  rewrite Z.gtb_ltb, (proj2 (Z.ltb_ge _ _)) by lia. unfold read_int32.
  rewrite (read_number_at b pre (be_bytes 4 (zlen s)) (s ++ post)); [|by rewrite <- app_assoc in Hrec|done|done].
  cbn [mbind option_bind]. rewrite be_value_bytes by (cbn; lia). rewrite s32_small by lia.
  cbn [rpos set_rpos data_len]. rewrite Hl, u32_small by lia. rewrite !zlen_app, Z.gtb_ltb, (proj2 (Z.ltb_ge _ _)) by lia.
  change (block (set_rpos b (zlen pre + 4))) with (block b). rewrite Hd, u64_small by lia.
  assert ((pre ++ (be_bytes 4 (zlen s) ++ s) ++ post) ++ rest = (pre ++ be_bytes 4 (zlen s)) ++ s ++ (post ++ rest)) as ->
    by by rewrite <- !app_assoc.
  rewrite zsub_mid by (rewrite ?zlen_app; lia). cbn [mbind option_bind]. rewrite H4.
  replace (zlen pre + (4 + zlen s)) with (zlen pre + 4 + zlen s) by lia. done.
Qed.

Lemma read_like_at b pre v post :
  received b (pre ++ value_bytes v ++ post) → rpos b = zlen pre → value_ok v →
  read_like v b = Some (v, set_rpos b (zlen pre + zlen (value_bytes v))).
Proof.
  intros Hrec Hr Hv. destruct v as [n|n|n|n|x|x]; cbn [read_like value_bytes value_ok] in *;
    unfold read_int8, read_int16, read_int32, read_int64;
    try (erewrite read_number_at by first [exact Hrec|exact Hr|apply zlen_be_bytes];
         cbn [mbind option_bind]; rewrite be_value_bytes by (cbn; lia); by rewrite zlen_be_bytes).
  - by rewrite (read_bytes_at b pre x post Hrec Hr).
  - by rewrite (read_cstring_at b pre x post Hrec Hr).
Qed.

Lemma read_values_at vs b pre post :
  received b (pre ++ message_bytes vs ++ post) → rpos b = zlen pre → Forall value_ok vs →
  read_values vs b = Some (vs, set_rpos b (zlen pre + zlen (message_bytes vs))).
Proof.
  revert b pre. induction vs as [|v vs IH]; intros b pre Hrec Hr Hok.
  - cbn [read_values]. change (zlen (message_bytes [])) with 0. rewrite Z.add_0_r, <- Hr. by destruct b.
  - inversion Hok as [|? ? Hv Hvs]; subst. change (message_bytes (v :: vs)) with (value_bytes v ++ message_bytes vs) in *.
    rewrite <- app_assoc in Hrec. cbn [read_values]. rewrite (read_like_at b pre v (message_bytes vs ++ post)) by done.
    cbn [mbind option_bind]. rewrite (IH _ (pre ++ value_bytes v)); [|by rewrite <- app_assoc|by rewrite zlen_app|done].
    cbn [mbind option_bind]. unfold set_rpos. cbn. rewrite !zlen_app. do 3 f_equal. lia.
Qed.

Section messages.
Context (junk : Z → list Z).
Hypothesis junk_len : ∀ n, 0 ≤ n → zlen (junk n) = n.

(** C28: a message written value by value to a fresh buffer, growing it as
    needed, is read back value by value: numbers of all widths, byte strings and
    strings with their length, up to the end of the buffer and without touching
    the border flag. *)
Theorem message_roundtrip vs :
  Forall value_ok vs → zlen (message_bytes vs) < 2 ^ 29 →
  ∃ b b', write_values junk vs init_data_buffer = Some b ∧ read_values vs b = Some (vs, b') ∧
    rpos b' = data_len b' ∧ data_len b' = zlen (message_bytes vs) ∧ array_border b' = 0.
Proof.
  intros Hok Hlen. destruct (write_values_holds junk junk_len vs _ _ holds_init Hlen) as (b & E & Hb). cbn [app] in Hb.
  destruct Hb as [Hl Hw Hr _ _ Hd Hbd]. eexists b, _. split; [done|].
  assert (received b ([] ++ message_bytes vs ++ [])) as Hrec.
  { cbn [app]. rewrite app_nil_r. split; [done|]. split; [lia|done]. }
  rewrite (read_values_at vs b [] [] Hrec Hr Hok). split; [done|]. cbn [rpos set_rpos data_len array_border].
  change (zlen (@nil Z)) with 0. by rewrite Hl.
Qed.
End messages.

(** ** Reading what anyone has sent *)

(** A buffer with a received packet: nothing is known of its bytes. *)
Definition buffer_ok (b : data_buffer) : Prop :=
  0 ≤ rpos b ≤ data_len b ∧ data_len b < 2 ^ 31 ∧ data_len b ≤ zlen (block b).

Inductive read_op :=
| RNumber (k : Z) | RNumberAt (k pos : Z) | RBytes (len : Z) | RFill (k : nat) (n pos : Z).

Definition read_op_ok (op : read_op) : Prop :=
  match op with
  | RNumber k => 0 ≤ k ≤ 8
  | RNumberAt k pos => 0 ≤ k ≤ 8 ∧ 0 ≤ pos ∧ pos + k < 2 ^ 32
  | RBytes len => 0 ≤ len < 2 ^ 31
  | RFill k _ pos => 0 ≤ pos ∧ pos + Z.of_nat k < 2 ^ 32
  end.

Definition run_read_op (op : read_op) (b : data_buffer) : option data_buffer :=
  match op with
  | RNumber k => snd <$> read_number k b
  | RNumberAt k pos => snd <$> read_pos_number k b pos
  | RBytes len => snd <$> read_bytes b len
  | RFill k n pos => fill_number k n b pos
  end.

Fixpoint run_read_ops (ops : list read_op) (b : data_buffer) : option data_buffer :=
  match ops with [] => Some b | op :: ops => b ← run_read_op op b; run_read_ops ops b end.

(** A block of [n] bytes inside of the received data. *)
Lemma inside b p n : buffer_ok b → 0 ≤ p → 0 ≤ n → p + n ≤ data_len b → is_Some (zsub (block b) p n).
Proof. intros (_ & _ & Hd) Hp Hn Hle. unfold zsub. rewrite decide_True by lia. by eexists. Qed.

Lemma run_read_op_ok op b :
  buffer_ok b → read_op_ok op → ∃ b', run_read_op op b = Some b' ∧ buffer_ok b' ∧ data_len b' = data_len b.
Proof.
  intros Hb Hop. pose proof Hb as (Hr & Hl & Hd). destruct op as [k|k pos|len|k n pos]; cbn [read_op_ok run_read_op] in *.
  - unfold read_number. rewrite u32_small by lia. destruct (Z.gtb_spec (rpos b + k) (data_len b)); [by eexists|].
    destruct (inside b (rpos b) k) as [x Hx]; [done|lia|lia|lia|]. rewrite Hx. eexists. split; [done|].
    split; [|done]. split; [cbn; lia|done].
  - unfold read_pos_number. rewrite u32_small by lia. destruct (Z.gtb_spec (pos + k) (data_len b)); [by eexists|].
    destruct (inside b pos k) as [x Hx]; [done|lia|lia|lia|]. rewrite Hx. by eexists.
  - unfold read_bytes. rewrite u32_small by lia. destruct (Z.gtb_spec (rpos b + len) (data_len b)); [by eexists|].
    destruct (inside b (rpos b) len) as [x Hx]; [done|lia|lia|lia|]. rewrite Hx. eexists. split; [done|].
    split; [|done]. split; [cbn; lia|done].
  - unfold fill_number. rewrite u32_small by lia. destruct (Z.gtb_spec (pos + Z.of_nat k) (data_len b)); [by eexists|].
    unfold zcopy. rewrite zlen_be_bytes, decide_True by lia. cbn [mbind option_bind]. eexists. split; [done|].
    split; [|done]. split; [done|]. split; [done|]. cbn. rewrite (zcopy_len (block b) _ (be_bytes k n) pos); [done|].
    unfold zcopy. by rewrite zlen_be_bytes, decide_True by lia.
Qed.

(** C29: whatever bytes were received, reading numbers and blocks of less than 2^31
    bytes and filling in numbers never leaves the received data: every such operation
    returns, and a read past the end only sets the border flag. *)
Theorem reads_stay_inside ops b :
  buffer_ok b → Forall read_op_ok ops → ∃ b', run_read_ops ops b = Some b' ∧ buffer_ok b' ∧ data_len b' = data_len b.
Proof.
  intros Hb Hops. revert b Hb. induction Hops as [|op ops Hop _ IH]; intros b Hb; [by exists b|].
  destruct (run_read_op_ok op b Hb Hop) as (b1 & E & Hb1 & El). cbn [run_read_ops]. rewrite E. cbn [mbind option_bind].
  rewrite <- El. by apply IH.
Qed.

(** A string whose length is sent as a small negative number passes the test
    against the end of the packet, and the copy runs out of the buffer: with the
    four bytes of the length at the read position, any length from
    [- (rpos + 4)] to -1 does. *)
Theorem negative_length_overruns b pre len post rest :
  data_len b = zlen (pre ++ be_bytes 4 (u32 len) ++ post) → zlen (block b) < 2 ^ 31 →
  block b = (pre ++ be_bytes 4 (u32 len) ++ post) ++ rest → rpos b = zlen pre → - (zlen pre + 4) ≤ len < 0 →
  read_cstring b = None.
Proof.
  intros Hl Hs Hd Hr Hlen. assert (zlen (be_bytes 4 (u32 len)) = 4) as H4 by apply zlen_be_bytes.
  pose proof Hs as Hs'. rewrite Hd, !zlen_app in Hs'. pose proof (zlen_nonneg pre). pose proof (zlen_nonneg post).
  pose proof (zlen_nonneg rest). unfold read_cstring. rewrite Hr, Hl, u32_small, !zlen_app by lia.
  rewrite Z.gtb_ltb, (proj2 (Z.ltb_ge _ _)) by lia. unfold read_int32.
  rewrite (read_number_at b pre (be_bytes 4 (u32 len)) post);
    [|split; [done|]; split; [rewrite !zlen_app; lia|by exists rest]|done|done].
  cbn [mbind option_bind]. rewrite be_value_bytes by (pose proof (u32_bounds len); cbn; lia).
  assert (s32 (u32 len) = len) as ->.
  { unfold u32, s32. rewrite Z.add_mod_idemp_l by done. rewrite Z.mod_small; lia. }
  cbn [rpos set_rpos data_len]. rewrite Hl, u32_small, !zlen_app, Z.gtb_ltb, (proj2 (Z.ltb_ge _ _)) by lia.
  change (block (set_rpos b (zlen pre + 4))) with (block b).
  assert (u64 len = len + 2 ^ 64) as -> by (unfold u64; rewrite <- (Z.mod_add _ 1), Z.mod_small by lia; lia).
  unfold zsub. by rewrite decide_False by lia.
Qed.

Definition fresh_170 (n : Z) : list Z := replicate (Z.to_nat n) 170.

Lemma fresh_170_len n : 0 ≤ n → zlen (fresh_170 n) = n.
Proof. intros. unfold fresh_170. rewrite zlen_replicate. lia. Qed.

Definition example_message : list field_value :=
  [Int8 7; Int16 513; Int32 67305985; Int64 (2 ^ 64 - 2); Cstring [109; 105; 108; 101]; Raw []; Raw [1; 2; 3]].

Lemma message_roundtrip_witness :
  ∃ b b', write_values fresh_170 example_message init_data_buffer = Some b ∧
    read_values example_message b = Some (example_message, b') ∧
    rpos b' = data_len b' ∧ data_len b' = 26 ∧ array_border b' = 0.
Proof.
  refine (message_roundtrip fresh_170 fresh_170_len example_message _ _); [|done].
  repeat constructor; done.
Defined.

Definition packet_of (bytes : list Z) : data_buffer := Buffer (zlen bytes) (Ptr bytes) (zlen bytes) 0 (zlen bytes) 0.

Lemma reads_stay_inside_witness :
  ∃ b', run_read_ops [RNumber 2; RNumberAt 4 2; RBytes 1; RNumber 4; RFill 4 9 1] (packet_of [1; 2; 3; 4; 5]) = Some b' ∧
    buffer_ok b' ∧ data_len b' = 5.
Proof.
  refine (reads_stay_inside _ (packet_of [1; 2; 3; 4; 5]) _ _); [by vm_compute; split_and!|].
  repeat constructor; done.
Defined.

Lemma negative_length_overruns_witness : read_cstring (packet_of [255; 255; 255; 252; 1; 2; 3; 4]) = None.
Proof.
  refine (negative_length_overruns (packet_of [255; 255; 255; 252; 1; 2; 3; 4]) [] (-4) [1; 2; 3; 4] [] _ _ _ _ _);
    [done..|]. vm_compute. split; [discriminate|reflexivity].
Defined.
