(* ===== verification/DbRecord.v ===== *)
(** * The changes of the database as log records ([src/storage/docdb/db.c])

    Every change has a function that packs it into a record of the binary log and
    one that unpacks it.  A C string is the list of its characters without the
    zero; in a record it is preceded by its length in one byte.  The types of
    fields and indexes are numbers here: in a record they are bytes, which need
    not be numbers of types. *)

From Stdlib Require Import ZArith Lia.
From stdpp Require Import base option list numbers gmap.
From S2P Require Import Prelude LowData RowData Binlog.

Definition OPERATION_INSERT : Z := 2.
Definition OPERATION_UPDATE : Z := 3.
Definition OPERATION_DELETE : Z := 4.
Definition OPERATION_INDEX : Z := 5.
Definition OPERATION_DINDEX : Z := 6.
Definition OPERATION_LOAD : Z := 7.
Definition OPERATION_UNLOAD : Z := 8.
Definition OPERATION_COMPRESS : Z := 9.

(** [struct binlog_record] over a block of memory. *)
Definition record_of_bytes (b : list Z) : option binlog_record :=
  len ← load_at b 0 4;
  time ← load_at b 4 4;
  sid ← load_at b 8 2;
  docid ← load_at b 10 4;
  flag ← b⟦14⟧;
  op ← b⟦15⟧;
  Some (Record_ len time sid docid flag op (drop 16 b)).

(** A new record with the fields [sid], [docid] and [op_code], and [data] at the
    start of its data; the length is passed as a 32-bit [int]. *)
Definition make_record (data_len sid docid op : Z) (data : list Z) : option binlog_record :=
  let r := create_binlog_record (s32 data_len) in
  data ← zcopy (rec_data r) 0 data;
  Some (Record_ (rec_len r) (rec_time r) sid docid (rec_flag r) op data).

(** ** Packing *)

(** [memcpy(buf + offset, bytes, ...); offset += ...] *)
Definition put (st : list Z * Z) (bytes : list Z) : option (list Z * Z) :=
  let '(buf, offset) := st in
  buf ← zcopy buf offset bytes;
  Some (buf, u32 (offset + zlen bytes)).

(** The length [n], one byte, and as many characters. *)
Definition put_string (st : list Z * Z) (n : Z) (s : list Z) : option (list Z * Z) :=
  st ← put st [n];
  chars ← zsub s 0 n;
  put st chars.

Definition zeroes (n : Z) : list Z := replicate (Z.to_nat n) 0.

Definition db_index_to_binrecord (table_name field_name : list Z) (index_type data_type : Z) : option binlog_record :=
  let fld_len := u8 (zlen field_name) in
  let tbl_len := u8 (zlen table_name) in
  let data_len := u32 (4 + fld_len + tbl_len) in
  st ← put (zeroes data_len, 0) [u8 data_type];
  st ← put_string st tbl_len table_name;
  st ← put_string st fld_len field_name;
  '(buf, _) ← put st [u8 index_type];
  make_record data_len 0 0 OPERATION_INDEX buf.

Definition db_dindex_to_binrecord (table_name field_name : list Z) (index_type : Z) : option binlog_record :=
  let fld_len := u8 (zlen field_name) in
  let tbl_len := u8 (zlen table_name) in
  let data_len := u32 (3 + fld_len + tbl_len) in
  st ← put_string (zeroes data_len, 0) tbl_len table_name;
  st ← put_string st fld_len field_name;
  '(buf, _) ← put st [u8 index_type];
  make_record data_len 0 0 OPERATION_DINDEX buf.

(** [mem] is the pool's memory for the packed row.  The record has room for the
    whole name, of which it takes the first [len] characters. *)
Definition db_insert_to_binrecord (mem table_name : list Z) (sid docid : Z) (rdata : row_data) : option binlog_record :=
  let n := u8 (zlen table_name) in
  buf ← rowdata_to_lowdata mem rdata;
  let data_len := len buf + zlen table_name + 1 in
  '(d, _) ← put_string (zeroes (s32 data_len), 0) n table_name;
  src ← zsub (data buf) 0 (len buf);
  d ← zcopy d (n + 1) src;
  make_record data_len sid docid OPERATION_INSERT d.

Definition db_update_to_binrecord (table_name : list Z) (sid docid : Z) (new_data : field) : option binlog_record :=
  let v := fdata new_data in
  let fld_len := u8 (zlen (field_name new_data)) in
  let tbl_len := u8 (zlen table_name) in
  let data_len := u32 (3 + fld_len + tbl_len + len v + 4) in
  st ← put_string (zeroes data_len, 0) tbl_len table_name;
  st ← put_string st fld_len (field_name new_data);
  st ← put st [u8 (type_code (type v))];
  st ← put st (le_bytes 4 (len v));
  src ← zsub (data v) 0 (len v);
  '(buf, _) ← put st src;
  make_record data_len sid docid OPERATION_UPDATE buf.

Definition db_delete_to_binrecord (table_name : list Z) (sid row_id : Z) : option binlog_record :=
  let n := u8 (zlen table_name) in
  '(buf, _) ← put_string (zeroes (n + 1), 0) n table_name;
  make_record (n + 1) sid row_id OPERATION_DELETE buf.

(** The whole length is kept in one byte. *)
Definition db_load_to_binrecord (table_name : list Z) (sid : Z) (segment_dir : list Z) : option binlog_record :=
  let tblen := u8 (zlen table_name) in
  let dirlen := u8 (zlen segment_dir) in
  let n := u8 (tblen + dirlen + 2) in
  st ← put_string (zeroes n, 0) tblen table_name;
  '(buf, _) ← put_string st dirlen segment_dir;
  make_record n sid 0 OPERATION_LOAD buf.

Definition db_unload_to_binrecord (table_name : list Z) (sid : Z) : option binlog_record :=
  let tblen := u8 (zlen table_name) in
  let n := u8 (tblen + 1) in
  '(buf, _) ← put_string (zeroes n, 0) tblen table_name;
  make_record n sid 0 OPERATION_UNLOAD buf.

Definition db_compress_to_binrecord (table_name : list Z) : option binlog_record :=
  let tblen := u8 (zlen table_name) in
  let n := u8 (tblen + 1) in
  '(buf, _) ← put_string (zeroes n, 0) tblen table_name;
  make_record n 0 0 OPERATION_COMPRESS buf.

(** ** Unpacking *)

(** A string at [offset], in memory of its own, and the offset behind it. *)
Definition get_string (d : list Z) (offset : Z) : option (list Z * Z) :=
  n ← d⟦offset⟧;
  s ← zsub d (u32 (offset + 1)) n;
  Some (c_string s, u32 (u32 (offset + 1) + n)).

Definition db_binrecord_to_insert (bl_record : binlog_record) : option (list Z * row_data) :=
  n ← (rec_data bl_record)⟦0⟧;
  '(table_name, _) ← get_string (rec_data bl_record) 0;
  row ← lowdata_to_rowdata (LowData HI_TYPE_NULL (drop (Z.to_nat (n + 1)) (rec_data bl_record))
                              (u32 (rec_len bl_record - RECORD_SIZE)));
  Some (table_name, row).

(** The data are left where they are: [data] is the rest of the record. *)
Definition db_binrecord_to_update (bl_record : binlog_record) : option (list Z * field) :=
  let d := rec_data bl_record in
  '(table_name, offset) ← get_string d 0;
  '(name, offset) ← get_string d offset;
  code ← d⟦offset⟧;
  t ← type_of_code code;
  let offset := u32 (offset + 1) in
  n ← load_at d offset 4;
  let offset := u32 (offset + 4) in
  Some (table_name, Field name (LowData t (drop (Z.to_nat offset) d) n)).

(** The names, the type of the data and the type of the index. *)
Definition db_binrecord_to_index (bl_record : binlog_record) : option (list Z * list Z * Z * Z) :=
  let d := rec_data bl_record in
  data_type ← d⟦0⟧;
  '(table_name, offset) ← get_string d 1;
  '(name, offset) ← get_string d offset;
  index_type ← d⟦offset⟧;
  Some (table_name, name, data_type, index_type).

Definition db_binrecord_to_dindex (bl_record : binlog_record) : option (list Z * list Z * Z) :=
  let d := rec_data bl_record in
  '(table_name, offset) ← get_string d 0;
  '(name, offset) ← get_string d offset;
  index_type ← d⟦offset⟧;
  Some (table_name, name, index_type).

(** The directory is never copied: it is the string of zeroes that was allocated. *)
Definition db_binrecord_to_load (bl_record : binlog_record) : option (list Z * list Z) :=
  let d := rec_data bl_record in
  '(table_name, offset) ← get_string d 0;
  n ← d⟦offset⟧;
  Some (table_name, c_string (zeroes (n + 1))).

Definition db_binrecord_to_unload (bl_record : binlog_record) : option (list Z) :=
  fst <$> get_string (rec_data bl_record) 0.

Definition db_binrecord_to_compress (bl_record : binlog_record) : option (list Z) :=
  fst <$> get_string (rec_data bl_record) 0.

(** [OPERATION_DELETE] in [db_execute_binrecord]. *)
Definition db_binrecord_to_delete (bl_record : binlog_record) : option (list Z) :=
  fst <$> get_string (rec_data bl_record) 0.
