(* ===== verification/DbRecordSpec.v ===== *)
(** * Packed changes unpack to themselves

    The round trip of the records of [DbRecord], through the bytes of the log. *)

From Stdlib Require Import ZArith Lia.
From stdpp Require Import base option list numbers gmap.
From S2P Require Import Prelude LowData RowData Binlog BinlogSpec DbRecord.

(** The changes that are logged. *)
Inductive change :=
| CInsert (table_name : list Z) (sid docid : Z) (fs : list field)
| CUpdate (table_name : list Z) (sid docid : Z) (new : field)
| CDelete (table_name : list Z) (sid docid : Z)
| CIndex (table_name column : list Z) (index_type data_type : Z)
| CDindex (table_name column : list Z) (index_type : Z)
| CCompress (table_name : list Z)
| CUnload (table_name : list Z) (sid : Z).

(** What the operations of the database append to the log. *)
Definition change_record (mem : list Z) (c : change) : option binlog_record :=
  match c with
  | CInsert t sid docid fs => db_insert_to_binrecord mem t sid docid (Row fs (zlen fs))
  | CUpdate t sid docid new => db_update_to_binrecord t sid docid new
  | CDelete t sid docid => db_delete_to_binrecord t sid docid
  | CIndex t col ty dt => db_index_to_binrecord t col ty dt
  | CDindex t col ty => db_dindex_to_binrecord t col ty
  | CCompress t => db_compress_to_binrecord t
  | CUnload t sid => db_unload_to_binrecord t sid
  end.

(** How [db_execute_binrecord] reads a record. *)
Definition read_change (r : binlog_record) : option change :=
  if rec_op_code r =? OPERATION_DELETE then t ← db_binrecord_to_delete r; Some (CDelete t (rec_sid r) (rec_docid r))
  else if rec_op_code r =? OPERATION_INSERT then
    '(t, row) ← db_binrecord_to_insert r; Some (CInsert t (rec_sid r) (rec_docid r) (datas row))
  else if rec_op_code r =? OPERATION_UPDATE then
    '(t, new) ← db_binrecord_to_update r; Some (CUpdate t (rec_sid r) (rec_docid r) new)
  else if rec_op_code r =? OPERATION_INDEX then
    '(t, col, dt, ty) ← db_binrecord_to_index r; Some (CIndex t col ty dt)
  else if rec_op_code r =? OPERATION_DINDEX then
    '(t, col, ty) ← db_binrecord_to_dindex r; Some (CDindex t col ty)
  else if rec_op_code r =? OPERATION_COMPRESS then t ← db_binrecord_to_compress r; Some (CCompress t)
  else if rec_op_code r =? OPERATION_UNLOAD then t ← db_binrecord_to_unload r; Some (CUnload t (rec_sid r))
  else None.

(** A C string that fits its length byte. *)
Definition name_ok (s : list Z) : Prop := zlen s < 255 ∧ Forall (λ c, c ≠ 0) s.

Definition place_ok (sid docid : Z) : Prop := 0 ≤ sid < 2 ^ 16 ∧ 0 ≤ docid < 2 ^ 32.

Definition change_ok (mem : list Z) (c : change) : Prop :=
  match c with
  | CInsert t sid docid fs =>
      name_ok t ∧ place_ok sid docid ∧ row_ok fs ∧ 8 ≤ zlen mem ∧ zlen (encode_row fs) ≤ zlen mem ∧
      zlen (encode_row fs) < 2 ^ 30
  | CUpdate t sid docid new =>
      name_ok t ∧ place_ok sid docid ∧ name_ok (field_name new) ∧ zlen (data (fdata new)) = len (fdata new) ∧
      len (fdata new) < 2 ^ 30
  | CDelete t sid docid => name_ok t ∧ place_ok sid docid
  | CIndex t col ty dt => name_ok t ∧ name_ok col ∧ 0 ≤ ty < 256 ∧ 0 ≤ dt < 256
  | CDindex t col ty => name_ok t ∧ name_ok col ∧ 0 ≤ ty < 256
  | CCompress t => name_ok t
  | CUnload t sid => name_ok t ∧ 0 ≤ sid < 2 ^ 16
  end.

(** ** Memory *)

Lemma zlen_zeroes n : 0 ≤ n → zlen (zeroes n) = n.
Proof. intros. unfold zeroes. rewrite zlen_replicate. lia. Qed.

(** The buffer holds [pre] and is cleared behind it. *)
Definition written (pre : list Z) (n : Z) : list Z * Z := (pre ++ zeroes n, zlen pre).

Lemma written_start n : (zeroes n, 0) = written [] n.
Proof. done. Qed.

Lemma put_written pre n b :
  zlen b ≤ n → zlen pre + zlen b < 2 ^ 32 → put (written pre n) b = Some (written (pre ++ b) (n - zlen b)).
Proof.
  intros Hb Hmax. pose proof (zlen_nonneg pre). pose proof (zlen_nonneg b). unfold put, written.
  rewrite zcopy_mid by (rewrite zlen_zeroes; lia). cbn [mbind option_bind].
  rewrite u32_small, zlen_app by lia. rewrite <- app_assoc. do 4 f_equal. unfold zeroes. rewrite drop_replicate.
  f_equal. unfold zlen. lia.
Qed.

(** A string as it is kept in a record. *)
Definition string_bytes (s : list Z) : list Z := zlen s :: s.

Lemma zlen_string_bytes s : zlen (string_bytes s) = 1 + zlen s.
Proof. unfold string_bytes, zlen. simpl. lia. Qed.

Lemma zsub_front {A} (x post : list A) n : n = zlen x → zsub (x ++ post) 0 n = Some x.
Proof. intros ->. exact (zsub_mid [] x post 0 (zlen x) eq_refl eq_refl). Qed.

Lemma zsub_whole {A} (l : list A) n : n = zlen l → zsub l 0 n = Some l.
Proof. intros H. pose proof (zsub_front l [] n H) as E. by rewrite app_nil_r in E. Qed.

Lemma u8_name s : name_ok s → u8 (zlen s) = zlen s.
Proof. intros [H _]. pose proof (zlen_nonneg s). unfold u8. apply Z.mod_small. lia. Qed.

Lemma put_string_written pre n s :
  name_ok s → 1 + zlen s ≤ n → zlen pre + 1 + zlen s < 2 ^ 32 →
  put_string (written pre n) (zlen s) s = Some (written (pre ++ string_bytes s) (n - (1 + zlen s))).
Proof.
  intros Hs Hn Hmax. pose proof (zlen_nonneg s). unfold put_string. assert (zlen [zlen s] = 1) as H1 by done.
  rewrite put_written by lia. cbn [mbind option_bind]. rewrite zsub_whole by done. cbn [mbind option_bind].
  rewrite put_written by (rewrite ?zlen_app; lia). f_equal. unfold string_bytes.
  rewrite H1, <- app_assoc. f_equal. lia.
Qed.

Lemma get_string_mid pre s post off :
  off = zlen pre → name_ok s → zlen pre + 1 + zlen s < 2 ^ 32 →
  get_string (pre ++ string_bytes s ++ post) off = Some (s, zlen (pre ++ string_bytes s)).
Proof.
  intros -> [Hs Hc] Hmax. pose proof (zlen_nonneg pre). pose proof (zlen_nonneg s). unfold get_string, string_bytes.
  rewrite <- app_comm_cons, (zget_mid pre _ (zlen s) _ eq_refl). cbn [mbind option_bind]. rewrite !u32_small by (rewrite ?u32_small; lia).
  change (zlen s :: s ++ post) with ([zlen s] ++ s ++ post). rewrite app_assoc, zsub_mid; [|rewrite zlen_app; done|done].
  cbn [mbind option_bind]. rewrite c_string_id by done. do 2 f_equal. rewrite zlen_app.
  change (zlen (zlen s :: s)) with (zlen (string_bytes s)). rewrite zlen_string_bytes. lia.
Qed.

(** The record when the buffer is full. *)
Definition packed_record (sid docid op : Z) (d : list Z) : binlog_record :=
  Record_ (RECORD_SIZE + zlen d) 0 sid docid 0 op d.

Lemma make_record_full n sid docid op d :
  zlen d = n → n < 2 ^ 31 - RECORD_SIZE → make_record n sid docid op d = Some (packed_record sid docid op d).
Proof.
  intros <- Hn. pose proof (zlen_nonneg d). unfold make_record, create_binlog_record, RECORD_SIZE in *. cbn [rec_data rec_len rec_time rec_flag].
  rewrite s32_small by lia. rewrite zcopy_whole by (rewrite zlen_replicate; lia). cbn [mbind option_bind].
  rewrite u32_small by lia. unfold packed_record, RECORD_SIZE. do 2 f_equal. lia.
Qed.

Lemma record_of_record_bytes r :
  record_ok r → 0 ≤ rec_sid r < 2 ^ 16 → 0 ≤ rec_docid r < 2 ^ 32 → 0 ≤ rec_flag r < 256 → 0 ≤ rec_op_code r < 256 →
  record_of_bytes (record_bytes r) = Some r.
Proof.
  intros (Hl & Hmax & Ht) Hs Hd Hf Ho. pose proof (zlen_nonneg (rec_data r)). unfold RECORD_SIZE in *.
  unfold record_of_bytes, record_bytes, load_at.
  set (a := le_bytes 4 (rec_len r)). set (b := le_bytes 4 (rec_time r)). set (c := le_bytes 2 (rec_sid r)).
  set (d := le_bytes 4 (rec_docid r)).
  change (le_bytes 1 (rec_flag r)) with [rec_flag r `mod` 256]. change (le_bytes 1 (rec_op_code r)) with [rec_op_code r `mod` 256].
  rewrite (Z.mod_small (rec_flag r)), (Z.mod_small (rec_op_code r)) by done.
  assert (zlen a = 4 ∧ zlen b = 4 ∧ zlen c = 2 ∧ zlen d = 4) as (Ea & Eb & Ec & Ed) by (unfold a, b, c, d; by rewrite !zlen_le_bytes).
  rewrite (zsub_front a) by done. cbn [fmap option_fmap option_map mbind option_bind].
  rewrite (zsub_mid a b _ 4 4) by done. cbn [fmap option_fmap option_map mbind option_bind].
  rewrite (app_assoc a b), (zsub_mid (a ++ b) c _ 8 2) by (rewrite ?zlen_app; lia). cbn [fmap option_fmap option_map mbind option_bind].
  rewrite (app_assoc (a ++ b) c), (zsub_mid ((a ++ b) ++ c) d _ 10 4) by (rewrite ?zlen_app; lia). cbn [fmap option_fmap option_map mbind option_bind].
  rewrite (app_assoc _ d). cbn [app]. rewrite (zget_mid (((a ++ b) ++ c) ++ d) _ (rec_flag r) 14) by (rewrite !zlen_app; lia). cbn [mbind option_bind].
  change (rec_flag r :: rec_op_code r :: rec_data r) with ([rec_flag r] ++ rec_op_code r :: rec_data r). rewrite (app_assoc _ [rec_flag r]).
  rewrite (zget_mid ((((a ++ b) ++ c) ++ d) ++ [rec_flag r]) _ (rec_op_code r) 15) by (rewrite !zlen_app; change (zlen [rec_flag r]) with 1; lia). cbn [mbind option_bind].
  unfold a, b, c, d. rewrite !le_value_bytes by (cbn; lia). by destruct r.
Qed.

(** ** Each kind of change *)

(** The data of its record. *)
Definition change_data (c : change) : list Z :=
  match c with
  | CInsert t _ _ fs => string_bytes t ++ encode_row fs
  | CUpdate t _ _ (Field name v) =>
      string_bytes t ++ string_bytes name ++ type_code (type v) :: le_bytes 4 (len v) ++ data v
  | CDelete t _ _ | CCompress t | CUnload t _ => string_bytes t
  | CIndex t col ty dt => dt :: string_bytes t ++ string_bytes col ++ [ty]
  | CDindex t col ty => string_bytes t ++ string_bytes col ++ [ty]
  end.

Definition change_place (c : change) : Z * Z :=
  match c with
  | CInsert _ sid docid _ | CUpdate _ sid docid _ | CDelete _ sid docid => (sid, docid)
  | CUnload _ sid => (sid, 0)
  | _ => (0, 0)
  end.

Definition change_op (c : change) : Z :=
  match c with
  | CInsert _ _ _ _ => OPERATION_INSERT | CUpdate _ _ _ _ => OPERATION_UPDATE | CDelete _ _ _ => OPERATION_DELETE
  | CIndex _ _ _ _ => OPERATION_INDEX | CDindex _ _ _ => OPERATION_DINDEX
  | CCompress _ => OPERATION_COMPRESS | CUnload _ _ => OPERATION_UNLOAD
  end.

Definition packed_change (c : change) : binlog_record :=
  packed_record (fst (change_place c)) (snd (change_place c)) (change_op c) (change_data c).

Lemma type_byte t : u8 (type_code t) = type_code t.
Proof. unfold u8. apply Z.mod_small, type_code_byte. Qed.

Create HintDb sizes.
#[export] Hint Rewrite @zlen_app zlen_string_bytes zlen_le_bytes @zlen_cons : sizes.

(** Steps of packing: what is written is what is left of the buffer. *)
Ltac pack_size := autorewrite with sizes; change (zlen (@nil Z)) with 0; lia.
Ltac pack_string := rewrite put_string_written by first [done | pack_size]; cbn [mbind option_bind].
Ltac pack := rewrite put_written by pack_size; cbn [mbind option_bind].
Ltac pack_all :=
  unfold written at 1; cbn [app];
  match goal with |- context [zeroes ?n] => replace n with 0 by pack_size end; change (zeroes 0) with (@nil Z); rewrite ?app_nil_r.

Lemma pack_name n t :
  name_ok t → n = 1 + zlen t → put_string (zeroes n, 0) (zlen t) t = Some (string_bytes t, 1 + zlen t).
Proof.
  intros Ht ->. pose proof (proj1 Ht). pose proof (zlen_nonneg t). rewrite written_start, put_string_written by first [done | pack_size].
  unfold written. cbn [app]. rewrite Z.sub_diag. change (zeroes 0) with (@nil Z). by rewrite app_nil_r, zlen_string_bytes.
Qed.

Lemma pack_insert mem t sid docid fs :
  change_ok mem (CInsert t sid docid fs) →
  change_record mem (CInsert t sid docid fs) = Some (packed_change (CInsert t sid docid fs)).
Proof.
  intros (Ht & _ & Hrow & H8 & Hmem & Hmax). pose proof (proj1 Ht). pose proof (zlen_nonneg t). pose proof (zlen_nonneg (encode_row fs)).
  cbn [change_record]. unfold db_insert_to_binrecord. rewrite u8_name by done.
  rewrite rowdata_to_lowdata_spec by done. cbn [mbind option_bind data len]. rewrite s32_small by lia.
  rewrite written_start. pack_string. unfold written. rewrite zsub_whole by done. cbn [mbind option_bind app].
  replace (zlen (encode_row fs) + zlen t + 1 - (1 + zlen t)) with (zlen (encode_row fs)) by lia.
  replace (zlen t + 1) with (zlen (string_bytes t)) by pack_size. rewrite zcopy_mid by (rewrite zlen_zeroes; lia).
  cbn [mbind option_bind]. unfold zeroes. rewrite drop_replicate. replace (_ - _)%nat with 0%nat by (unfold zlen; lia).
  cbn [replicate]. rewrite app_nil_r. rewrite make_record_full by (unfold RECORD_SIZE; pack_size). done.
Qed.

Lemma pack_update mem t sid docid new :
  change_ok mem (CUpdate t sid docid new) →
  change_record mem (CUpdate t sid docid new) = Some (packed_change (CUpdate t sid docid new)).
Proof.
  destruct new as [name v]. cbn [change_ok field_name fdata]. intros (Ht & _ & Hn & Hd & Hmax). pose proof (proj1 Ht). pose proof (proj1 Hn). pose proof (zlen_nonneg t).
  pose proof (zlen_nonneg name). pose proof (zlen_nonneg (data v)).
  cbn [change_record]. unfold db_update_to_binrecord. cbn [field_name fdata]. rewrite !u8_name, type_byte by done. rewrite u32_small by lia.
  rewrite written_start. pack_string. pack_string. pack. pack. rewrite zsub_whole by done. cbn [mbind option_bind]. pack. pack_all.
  rewrite make_record_full by (unfold RECORD_SIZE; pack_size). unfold packed_change. cbn. by rewrite <- !app_assoc.
Qed.

Lemma pack_index mem t col ty dt :
  change_ok mem (CIndex t col ty dt) → change_record mem (CIndex t col ty dt) = Some (packed_change (CIndex t col ty dt)).
Proof.
  intros (Ht & Hc & Hty & Hdt). pose proof (proj1 Ht). pose proof (proj1 Hc). pose proof (zlen_nonneg t). pose proof (zlen_nonneg col).
  cbn [change_record]. unfold db_index_to_binrecord. rewrite !u8_name by done. rewrite u32_small by lia.
  unfold u8. rewrite (Z.mod_small dt), (Z.mod_small ty) by done. rewrite written_start. pack. pack_string. pack_string. pack. pack_all.
  rewrite make_record_full by (unfold RECORD_SIZE; pack_size). unfold packed_change. cbn. by rewrite <- !app_assoc.
Qed.

Lemma pack_dindex mem t col ty :
  change_ok mem (CDindex t col ty) → change_record mem (CDindex t col ty) = Some (packed_change (CDindex t col ty)).
Proof.
  intros (Ht & Hc & Hty). pose proof (proj1 Ht). pose proof (proj1 Hc). pose proof (zlen_nonneg t). pose proof (zlen_nonneg col).
  cbn [change_record]. unfold db_dindex_to_binrecord. rewrite !u8_name by done. rewrite u32_small by lia.
  unfold u8. rewrite (Z.mod_small ty) by done. rewrite written_start. pack_string. pack_string. pack. pack_all.
  rewrite make_record_full by (unfold RECORD_SIZE; pack_size). unfold packed_change. cbn. by rewrite <- !app_assoc.
Qed.

Lemma change_packs mem c : change_ok mem c → change_record mem c = Some (packed_change c).
Proof.
  destruct c as [t sid docid fs|t sid docid new|t sid docid|t col ty dt|t col ty|t|t sid].
  - apply pack_insert.
  - apply pack_update.
  - intros (Ht & _). cbn [change_record]. unfold db_delete_to_binrecord. rewrite u8_name, pack_name by first [done | lia].
    cbn [mbind option_bind]. pose proof (proj1 Ht). by rewrite make_record_full by (unfold RECORD_SIZE; pack_size).
  - apply pack_index.
  - apply pack_dindex.
  - intros Ht. cbn [change_ok] in Ht. cbn [change_record]. unfold db_compress_to_binrecord. pose proof (proj1 Ht). pose proof (zlen_nonneg t).
    rewrite u8_name by done. unfold u8. rewrite Z.mod_small by lia. rewrite pack_name by first [done | lia]. cbn [mbind option_bind].
    by rewrite make_record_full by (unfold RECORD_SIZE; pack_size).
  - intros (Ht & _). cbn [change_record]. unfold db_unload_to_binrecord. pose proof (proj1 Ht). pose proof (zlen_nonneg t).
    rewrite u8_name by done. unfold u8. rewrite Z.mod_small by lia. rewrite pack_name by first [done | lia]. cbn [mbind option_bind].
    by rewrite make_record_full by (unfold RECORD_SIZE; pack_size).
Qed.

(** *** Unpacking *)

Lemma get_first s post : name_ok s → get_string (string_bytes s ++ post) 0 = Some (s, 1 + zlen s).
Proof.
  intros Hs. pose proof (proj1 Hs). pose proof (get_string_mid [] s post 0 eq_refl Hs) as E. cbn [app] in E.
  rewrite E by (change (zlen (@nil Z)) with 0; lia). by rewrite zlen_string_bytes.
Qed.

Lemma get_only s : name_ok s → get_string (string_bytes s) 0 = Some (s, 1 + zlen s).
Proof. intros Hs. rewrite <- (app_nil_r (string_bytes s)). by apply get_first. Qed.

Lemma get_second s s' post :
  name_ok s → name_ok s' → get_string (string_bytes s ++ string_bytes s' ++ post) (1 + zlen s) = Some (s', 2 + zlen s + zlen s').
Proof.
  intros Hs Hs'. pose proof (proj1 Hs). pose proof (proj1 Hs').
  rewrite get_string_mid by first [done | by rewrite zlen_string_bytes | pack_size].
  do 2 f_equal. pack_size.
Qed.

Lemma unpack_insert mem t sid docid fs r :
  change_ok mem (CInsert t sid docid fs) → rec_data r = change_data (CInsert t sid docid fs) →
  db_binrecord_to_insert r = Some (t, Row fs (zlen fs)).
Proof.
  intros (Ht & _ & Hrow & _) E. unfold db_binrecord_to_insert. rewrite E. cbn [change_data].
  rewrite get_first by done.
  assert ((string_bytes t ++ encode_row fs)⟦0⟧ = Some (zlen t)) as -> by exact (zget_mid [] (t ++ encode_row fs) (zlen t) 0 eq_refl).
  cbn [mbind option_bind].
  pose proof (zlen_nonneg t). rewrite drop_app_length' by (unfold string_bytes, zlen in *; simpl; lia).
  by rewrite lowdata_to_rowdata_spec.
Qed.

Lemma unpack_update mem t sid docid new r :
  change_ok mem (CUpdate t sid docid new) → rec_data r = change_data (CUpdate t sid docid new) →
  db_binrecord_to_update r = Some (t, new).
Proof.
  destruct new as [name v]. cbn [change_ok field_name fdata]. intros (Ht & _ & Hn & Hd & Hmax) E. pose proof (proj1 Ht). pose proof (proj1 Hn).
  pose proof (zlen_nonneg t). pose proof (zlen_nonneg name). pose proof (zlen_nonneg (data v)).
  unfold db_binrecord_to_update. rewrite E. cbn [change_data].
  rewrite get_first by done. cbn [mbind option_bind]. rewrite get_second by done. cbn [mbind option_bind].
  set (pre := string_bytes t ++ string_bytes name). assert (zlen pre = 2 + zlen t + zlen name) as Hpre by (unfold pre; pack_size).
  rewrite app_assoc. fold pre. rewrite zget_mid by done. cbn [mbind option_bind]. rewrite type_of_type_code. cbn [mbind option_bind].
  rewrite (u32_small (2 + zlen t + zlen name + 1)) by lia. change (type_code (type v) :: le_bytes 4 (len v) ++ data v) with ([type_code (type v)] ++ le_bytes 4 (len v) ++ data v).
  rewrite app_assoc. unfold load_at. rewrite zsub_mid by first [done | pack_size]. cbn [fmap option_fmap option_map mbind option_bind].
  rewrite le_value_bytes by (cbn; lia). rewrite u32_small by lia. rewrite (app_assoc _ (le_bytes 4 (len v))).
  rewrite drop_app_length'; [by destruct v|].
  match goal with |- _ = length ?l => assert (zlen l = 2 + zlen t + zlen name + 1 + 4) as Hl by pack_size end. unfold zlen in *. lia.
Qed.

Lemma unpack_index mem t col ty dt r :
  change_ok mem (CIndex t col ty dt) → rec_data r = change_data (CIndex t col ty dt) →
  db_binrecord_to_index r = Some (t, col, dt, ty).
Proof.
  intros (Ht & Hc & Hty & Hdt) E. pose proof (proj1 Ht). pose proof (proj1 Hc). pose proof (zlen_nonneg t). pose proof (zlen_nonneg col).
  unfold db_binrecord_to_index. rewrite E. cbn [change_data].
  assert ((dt :: string_bytes t ++ string_bytes col ++ [ty])⟦0⟧ = Some dt) as -> by exact (zget_mid [] _ dt 0 eq_refl).
  cbn [mbind option_bind].
  change (dt :: string_bytes t ++ string_bytes col ++ [ty]) with ([dt] ++ string_bytes t ++ string_bytes col ++ [ty]).
  rewrite get_string_mid by first [done | pack_size]. cbn [mbind option_bind]. rewrite app_assoc.
  rewrite get_string_mid by first [done | pack_size]. cbn [mbind option_bind]. rewrite app_assoc, zget_mid by done. done.
Qed.

Lemma unpack_dindex mem t col ty r :
  change_ok mem (CDindex t col ty) → rec_data r = change_data (CDindex t col ty) →
  db_binrecord_to_dindex r = Some (t, col, ty).
Proof.
  intros (Ht & Hc & Hty) E. pose proof (proj1 Ht). pose proof (proj1 Hc). pose proof (zlen_nonneg t). pose proof (zlen_nonneg col).
  unfold db_binrecord_to_dindex. rewrite E. cbn [change_data]. rewrite get_first by done. cbn [mbind option_bind].
  rewrite get_second by done. cbn [mbind option_bind]. rewrite app_assoc, zget_mid by pack_size. done.
Qed.

(** A record of the log that was packed from [c], stamped with some time. *)
Definition logs (c : change) (r : binlog_record) : Prop := ∃ time, r = set_time (packed_change c) time ∧ 0 ≤ time < 2 ^ 32.

Lemma logs_read mem c r : change_ok mem c → logs c r → read_change r = Some c.
Proof.
  intros Hc (time & -> & _). set (r := set_time (packed_change c) time). unfold read_change.
  destruct c as [t sid docid fs|t sid docid new|t sid docid|t col ty dt|t col ty|t|t sid]; cbn [r rec_op_code set_time packed_change packed_record change_op].
  all: repeat match goal with |- context [?a =? ?b] => change (a =? b) with true || change (a =? b) with false end; cbv iota.
  - by rewrite (unpack_insert mem t sid docid fs).
  - by rewrite (unpack_update mem t sid docid new).
  - destruct Hc as [Hc _]. unfold db_binrecord_to_delete. by rewrite (get_only t Hc : get_string (rec_data r) 0 = _).
  - by rewrite (unpack_index mem t col ty dt).
  - by rewrite (unpack_dindex mem t col ty).
  - cbn [change_ok] in Hc. unfold db_binrecord_to_compress. by rewrite (get_only t Hc : get_string (rec_data r) 0 = _).
  - destruct Hc as [Hc _]. unfold db_binrecord_to_unload. by rewrite (get_only t Hc : get_string (rec_data r) 0 = _).
Qed.

(** Its length and place fit the fields of the header. *)
Record header_ok (r : binlog_record) : Prop := {
  ho_ok : record_ok r;
  ho_sid : 0 ≤ rec_sid r < 2 ^ 16;
  ho_docid : 0 ≤ rec_docid r < 2 ^ 32;
  ho_flag : 0 ≤ rec_flag r < 256;
  ho_op : 0 ≤ rec_op_code r < 256 }.

Lemma change_data_size mem c : change_ok mem c → zlen (change_data c) < 2 ^ 31 - RECORD_SIZE.
Proof.
  unfold RECORD_SIZE. destruct c as [t sid docid fs|t sid docid [name v]|t sid docid|t col ty dt|t col ty|t|t sid]; cbn [change_ok change_data field_name fdata].
  - intros ([Ht _] & _ & _ & _ & _ & ?). pack_size.
  - intros ([Ht _] & _ & [Hn _] & Hd & ?). pack_size.
  - intros ([Ht _] & _). pack_size.
  - intros ([Ht _] & [Hn _] & _). pack_size.
  - intros ([Ht _] & [Hn _] & _). pack_size.
  - intros [Ht _]. pack_size.
  - intros ([Ht _] & _). pack_size.
Qed.

Lemma logs_header mem c r : change_ok mem c → logs c r → header_ok r.
Proof.
  intros Hc (time & -> & Ht). pose proof (change_data_size mem c Hc). pose proof (zlen_nonneg (change_data c)). unfold RECORD_SIZE in *.
  assert (place_ok (fst (change_place c)) (snd (change_place c))) as [? ?].
  { unfold place_ok. destruct c as [t sid docid fs|t sid docid new|t sid docid|t col ty dt|t col ty|t|t sid]; cbn; try lia.
    - destruct Hc as (_ & [? ?] & _). done.
    - destruct Hc as (_ & [? ?] & _). done.
    - destruct Hc as (_ & [? ?]). done.
    - destruct Hc as (_ & ?). lia. }
  split; cbn; try done; try lia; [|by destruct c].
  unfold record_ok, RECORD_SIZE. cbn. unfold RECORD_SIZE. lia.
Qed.

(** C20: a change of the database (an insertion, update, deletion, new index, dropped
    index, compression or unloading; not a loading) that is packed into a record, stamped and stored
    as the bytes of the log is read back as the same change: its tables, columns,
    document, values and types; the record fits the header's fields. *)
Theorem change_roundtrip mem c time :
  change_ok mem c → 0 ≤ time < 2 ^ 32 →
  ∃ r, change_record mem c = Some r ∧ record_ok (set_time r time) ∧
    (r' ← record_of_bytes (record_bytes (set_time r time)); read_change r') = Some c.
Proof.
  intros Hc Ht. exists (packed_change c). split; [by apply change_packs|].
  assert (logs c (set_time (packed_change c) time)) as Hl by by exists time.
  destruct (logs_header mem c _ Hc Hl) as []. split; [done|]. rewrite record_of_record_bytes by done.
  cbn [mbind option_bind]. by apply (logs_read mem).
Qed.

Lemma change_roundtrip_witness :
  let c := CUpdate [116; 49] 3 70000 (Field [110] (LowData HI_TYPE_STRING [65; 66] 2)) in
  ∃ r, change_record [] c = Some r ∧ record_ok (set_time r 1331020800) ∧
    (r' ← record_of_bytes (record_bytes (set_time r 1331020800)); read_change r') = Some c.
Proof.
  apply (change_roundtrip [] (CUpdate [116; 49] 3 70000 (Field [110] (LowData HI_TYPE_STRING [65; 66] 2)))); [|lia].
  split; [split; [done|repeat constructor; lia]|]. split; [split; lia|]. split; [split; [done|repeat constructor; lia]|]. done.
Defined.

(** A record that loads a segment packs the segment's directory, but reading
    it back yields the empty string. *)
Theorem load_loses_directory t sid dir :
  name_ok t → name_ok dir → zlen t + zlen dir < 254 →
  ∃ r, db_load_to_binrecord t sid dir = Some r ∧ rec_data r = string_bytes t ++ string_bytes dir ∧
    db_binrecord_to_load r = Some (t, []).
Proof.
  intros Ht Hd Hmax. pose proof (zlen_nonneg t). pose proof (zlen_nonneg dir). unfold db_load_to_binrecord.
  rewrite !u8_name by done. unfold u8. rewrite Z.mod_small by lia. rewrite written_start. pack_string. pack_string. pack_all.
  rewrite make_record_full by (unfold RECORD_SIZE; pack_size). cbn [mbind option_bind]. eexists. split; [done|]. split; [done|].
  unfold db_binrecord_to_load. cbn [packed_record rec_data]. rewrite get_first by done. cbn [mbind option_bind].
  unfold string_bytes at 2. rewrite zget_mid by (rewrite zlen_string_bytes; done). cbn [mbind option_bind].
  do 2 f_equal. unfold zeroes. replace (Z.to_nat (zlen dir + 1)) with (S (Z.to_nat (zlen dir))) by lia. done.
Qed.

Lemma load_loses_directory_witness :
  ∃ r, db_load_to_binrecord [116] 2 [47; 100] = Some r ∧ rec_data r = string_bytes [116] ++ string_bytes [47; 100] ∧
    db_binrecord_to_load r = Some ([116], []).
Proof.
  apply (load_loses_directory [116] 2 [47; 100]); [split; [done|repeat constructor; lia]|split; [done|repeat constructor; lia]|done].
Defined.
