(* ===== verification/Db.v ===== *)
(** * The database ([src/storage/docdb/db.c])

    The database is a map from names to tables, the meta data of the tables in one
    mapped file, and the binary log.  A table's meta data is shared: the cell of
    [table_metas] and the pointer [table_meta] of the table are the same memory.
    Here the cell is that memory; a table is taken with the current content of its
    cell ([db_get_table_instance]) and put back into it ([set_table]).

    One operation runs at a time.  The reader-writer lock [locker] only orders
    operations of different threads and is left out; the mutex [task_locker] is
    kept, since some operations return while they hold it.  [None] stands for
    undefined behaviour, or for a call that never returns. *)

From Stdlib Require Import ZArith Lia.
From stdpp Require Import base option list numbers gmap.
From S2P Require Import Prelude FileOp StringMap Doclist Bitmark RowidList SetOperator SegRowid LowData HashIndex Hash DynHash Column RowData DataField IndexField Segment Table Binlog Slave DbRecord.

Definition ERROR_TABLE_INIT_FAILED : Z := -3995.
Definition ERROR_DB_INIT_FAILED : Z := -3994.
Definition ERROR_TABLE_NOT_EXIT : Z := -3988.
Definition ERROR_SYNC_FAILED : Z := -3987.
Definition ERROR_PK_CONFLICT : Z := -4001.

Definition MAX_TABLE_NUM : Z := 255.
Definition MAX_TABLE_NAME : Z := 100.
Definition USEC_PER_MSEC : Z := 1000.
Definition MASTER_ROLE : Z := 0.
Definition SLAVE_ROLE : Z := 1.

Inductive db_stat := RECOVER_DATA | RECOVER_FIN.

Inductive data_access_type_t := DATA_ACCESS_ORIGINAL | DATA_ACCESS_FILTER.
Inductive field_access_type_t := FIELD_ACCESS_ORIGINAL | FIELD_ACCESS_FILTER_ORIGINAL | FIELD_ACCESS_FILTER_HASHED.

(** The settings that [db_init] copies, and [binlog_threshold], which it does not. *)
Record db_conf := DbConf {
  conf_dirs : list (list Z);             (* [storage_dirs] *)
  conf_compress : Z;                     (* [hash_compress_num] *)
  conf_segments : Z;                     (* [max_segment_num] *)
  conf_limit : Z;                        (* [row_limit] *)
  only_index : string_map unit;          (* [table_store_only_index] *)
  binlog_flag : bool;
  binlog_maxsize : Z;
  binlog_sync_interval : Z;
  role : Z;
  conf_threshold : Z                     (* [binlog_threshold] *)
}.

Record binlog_meta := BlMeta { last_checkpoint : Z; bl_offset : Z }.

(** The tables, and what their directories hold while they are not open: the file
    segment.meta and the segments.  A table knows the number of its cell. *)
Record catalog (S : Type) := Catalog {
  tables : string_map (Z * table_manager S);
  table_count : Z;
  table_metas : list table_meta_data;    (* MAX_TABLE_NUM cells *)
  table_metas_hash : string_map Z;
  table_files : list Z → list segment_meta_data * list (option (segment_dir S))
}.
Arguments Catalog {S}.
Arguments tables {S}.
Arguments table_count {S}.
Arguments table_metas {S}.
Arguments table_metas_hash {S}.
Arguments table_files {S}.

Record db_manager (S : Type) := Db {
  cat : catalog S;
  bl_meta : binlog_meta;
  catch_up_start : Z;
  offset_start : Z;
  settings : db_conf;
  binlog_threshold : Z;
  log_dir : binlog_files;                (* the files of [binlog_dir] *)
  binlog_writer : ptr BL_WRITER;
  stat : db_stat;                        (* [db_stat] *)
  readable : bool;
  task_locked : bool                     (* [task_locker] is held *)
}.
Arguments Db {S}.
Arguments cat {S}.
Arguments bl_meta {S}.
Arguments catch_up_start {S}.
Arguments offset_start {S}.
Arguments settings {S}.
Arguments binlog_threshold {S}.
Arguments log_dir {S}.
Arguments binlog_writer {S}.
Arguments stat {S}.
Arguments readable {S}.
Arguments task_locked {S}.

(** What the system gives during one operation: to the creation of a table, to
    [table_prepare_insert], to the other calls of the table, to the two writes of
    the log, and the directory behind a path. *)
Record db_io (S : Type) := DbIo {
  create_io : table_io S;
  prepare_io : table_io S;
  call_io : table_io S;
  record_io : write_io;
  confirm_io : write_io;
  dir_of : list Z → segment_dir S
}.
Arguments DbIo {S}.
Arguments create_io {S}.
Arguments prepare_io {S}.
Arguments call_io {S}.
Arguments record_io {S}.
Arguments confirm_io {S}.
Arguments dir_of {S}.

Definition zero_table_meta : table_meta_data := TableMeta [] 0 0 [].

Definition alg_of_code (c : Z) : option index_key_alg :=
  List.find (λ t, alg_code t =? c)
    [HI_KEY_ALG_UNDEF; HI_KEY_ALG_BTREE; HI_KEY_ALG_HASH; HI_KEY_ALG_FILTER; HI_KEY_ALG_FULLTEXT].

Section db.
Context {S : Type} `{!Column S}.
Context (env : field_env) (get_hash_value : low_data_struct → Z).
Implicit Types (io : db_io S) (db : db_manager S) (table : table_manager S).

(** ** Fields of the state *)

Definition with_cat db (c : catalog S) : db_manager S :=
  Db c (bl_meta db) (catch_up_start db) (offset_start db) (settings db) (binlog_threshold db) (log_dir db)
    (binlog_writer db) (stat db) (readable db) (task_locked db).
Definition with_bl_meta db (m : binlog_meta) : db_manager S :=
  Db (cat db) m (catch_up_start db) (offset_start db) (settings db) (binlog_threshold db) (log_dir db)
    (binlog_writer db) (stat db) (readable db) (task_locked db).
Definition with_log db (files : binlog_files) (w : ptr BL_WRITER) : db_manager S :=
  Db (cat db) (bl_meta db) (catch_up_start db) (offset_start db) (settings db) (binlog_threshold db) files w
    (stat db) (readable db) (task_locked db).
Definition with_stat db (s : db_stat) : db_manager S :=
  Db (cat db) (bl_meta db) (catch_up_start db) (offset_start db) (settings db) (binlog_threshold db) (log_dir db)
    (binlog_writer db) s (readable db) (task_locked db).
Definition with_readable db (b : bool) : db_manager S :=
  Db (cat db) (bl_meta db) (catch_up_start db) (offset_start db) (settings db) (binlog_threshold db) (log_dir db)
    (binlog_writer db) (stat db) b (task_locked db).
Definition with_locked db (b : bool) : db_manager S :=
  Db (cat db) (bl_meta db) (catch_up_start db) (offset_start db) (settings db) (binlog_threshold db) (log_dir db)
    (binlog_writer db) (stat db) (readable db) b.
Definition with_catch_up db (t : Z) : db_manager S :=
  Db (cat db) (bl_meta db) t (offset_start db) (settings db) (binlog_threshold db) (log_dir db)
    (binlog_writer db) (stat db) (readable db) (task_locked db).

(** ** Tables *)

(** The table of the name, or NULL. *)
Definition find_table (c : catalog S) (name : list Z) : option (option (table_manager S)) :=
  r ← string_map_get (tables c) name;
  match r with
  | None => Some None
  | Some (slot, table) => m ← (table_metas c)⟦slot⟧; Some (Some (with_table_meta table m))
  end.

Definition db_get_table_instance db (name : list Z) : option (option (table_manager S)) := find_table (cat db) name.

(** The table behind the pointer has become [table]. *)
Definition set_table db (name : list Z) table : option (db_manager S) :=
  let c := cat db in
  r ← string_map_get (tables c) name;
  '(slot, _) ← r;
  h ← set_object (tables c) name (slot, table);
  metas ← (table_metas c)⟦slot := table_meta table⟧;
  Some (with_cat db (Catalog h (table_count c) metas (table_metas_hash c) (table_files c))).

(** A call that changes a table that is there. *)
Definition on_table {R} db (name : list Z) (call : table_manager S → option (R * table_manager S))
    : option (R * db_manager S) :=
  t ← db_get_table_instance db name;
  t ← t;
  '(r, t) ← call t;
  db ← set_table db name t;
  Some (r, db).

(** The cell of the meta data of a table: its own, or the next one, in which only
    the name is written; also the counter and the cells. *)
Definition meta_cell (c : catalog S) (name : list Z) : option (Z * Z * list table_meta_data) :=
  r ← string_map_get (table_metas_hash c) name;
  match r with
  | Some slot => Some (slot, table_count c, table_metas c)
  | None =>
      let slot := table_count c in
      m ← (table_metas c)⟦slot⟧;
      if zlen name <? MAX_TABLE_NAME then
        metas ← (table_metas c)⟦slot := TableMeta name (tstat m) (segment_current m) (index_meta m)⟧;
        Some (slot, u8 (slot + 1), metas)
      else None
  end.

Definition table_config_of (conf : db_conf) (name : list Z) : option table_config :=
  r ← string_map_get (only_index conf) name;
  Some (TableConfig (conf_dirs conf) (conf_segments conf) (conf_compress conf) (conf_limit conf)
          (negb (bool_decide (is_Some r)))).

(** [assert(table)] *)
Definition db_create_table io db (name : list Z) : option (db_manager S) :=
  let c := cat db in
  r ← db_get_table_instance db name;
  match r with
  | Some _ => Some db
  | None =>
      '(slot, count, metas) ← meta_cell c name;
      config ← table_config_of (settings db) name;
      m ← metas⟦slot⟧;
      let '(file, ds) := table_files c name in
      t ← table_init env (create_io io) config m file ds;
      match t with
      | NULL => None
      | Ptr table =>
          '(_, h) ← string_map_put (tables c) name (slot, table);
          metas ← metas⟦slot := table_meta table⟧;
          Some (with_cat db (Catalog h count metas (table_metas_hash c) (table_files c)))
      end
  end.

(** Where a missing table is made first. *)
Definition ensure_table io db (name : list Z) : option (db_manager S) :=
  r ← db_get_table_instance db name;
  match r with Some _ => Some db | None => db_create_table io db name end.

(** A call that needs the table; [missing] is the result without it. *)
Definition call_table {R} db (name : list Z) (missing : R) (call : table_manager S → option (R * table_manager S))
    : option (R * db_manager S) :=
  r ← db_get_table_instance db name;
  match r with None => Some (missing, db) | Some _ => on_table db name call end.

Definition db_del_table db (name : list Z) : option (Z * db_manager S) :=
  call_table db name ERROR_TABLE_INIT_FAILED (λ t, Some (table_del t)).

(** ** Logging *)

Definition logging db : bool :=
  binlog_flag (settings db) && match stat db with RECOVER_FIN => true | RECOVER_DATA => false end.

Definition write_record (wio : write_io) db (r : binlog_record) : option (Z * db_manager S) :=
  match binlog_writer db with
  | NULL => None
  | Ptr w => '(rc, files, w) ← binlog_write_record wio (log_dir db) w (Ptr r); Some (rc, with_log db files (Ptr w))
  end.

Definition write_confirm (wio : write_io) db (ok : bool) : option (Z * db_manager S) :=
  match binlog_writer db with
  | NULL => None
  | Ptr w =>
      '(rc, files, w) ← (if ok then binlog_confirm_ok else binlog_confirm_fail) wio (log_dir db) w;
      Some (rc, with_log db files (Ptr w))
  end.

(** Before the change of a document. *)
Definition log_before io db (r : option binlog_record) : option (Z * db_manager S) :=
  if logging db then r ← r; write_record (record_io io) db r else Some (0, db).

(** After it: the result is that of the confirmation when the change succeeded. *)
Definition confirm_after io db (ret : Z) : option (Z * db_manager S) :=
  if logging db then
    '(rc, db) ← write_confirm (confirm_io io) db (ret =? 0);
    Some (if ret =? 0 then rc else ret, db)
  else Some (ret, db).

(** Other operations are logged when they are done. *)
Definition log_after io db (ret : Z) (r : option binlog_record) : option (Z * db_manager S) :=
  if logging db then
    r ← r;
    '(rc, db) ← write_record (record_io io) db r;
    '(rc, db) ← (if negb (rc =? 0) then Some (rc, db) else write_confirm (confirm_io io) db (ret =? 0));
    Some (if negb (rc =? 0) && (ret =? 0) then ERROR_BINLOG_FAILED else ret, db)
  else Some (ret, db).

(** ** Indexes *)

(** [pthread_mutex_lock] of a mutex that this thread holds never returns. *)
Definition with_task_lock {R} db (call : db_manager S → option R) : option R :=
  if task_locked db then None else call db.

(** The types are numbers; those between the limits have to be types. *)
Definition db_ensure_index io db (table_name field_name : list Z) (index_type data_type : Z)
    : option (Z * db_manager S) :=
  if (index_type <? alg_code HI_KEY_ALG_HASH) || (index_type >? alg_code HI_KEY_ALG_FULLTEXT) then Some (-1, db)
  else if (data_type <? type_code HI_TYPE_TINY) || (data_type >? type_code HI_TYPE_STRING) then Some (-1, db)
  else
    db ← ensure_table io db table_name;
    alg ← alg_of_code index_type;
    ty ← type_of_code data_type;
    with_task_lock db (λ db,
      '(ret, db) ← on_table db table_name (λ t, table_ensure_index env get_hash_value (call_io io) t field_name alg ty);
      log_after io db ret (db_index_to_binrecord table_name field_name index_type data_type)).

Definition db_del_index io db (table_name field_name : list Z) (index_type : Z) : option (Z * db_manager S) :=
  r ← db_get_table_instance db table_name;
  match r with
  | None => Some (ERROR_TABLE_NOT_EXIT, db)
  | Some _ =>
      alg ← alg_of_code index_type;
      with_task_lock db (λ db,
        '(ret, db) ← on_table db table_name (λ t, table_del_index env (call_io io) t field_name alg);
        log_after io db ret (db_dindex_to_binrecord table_name field_name index_type))
  end.

(** ** Documents *)

(** The return code, [*sid] and [*docid]. *)
Definition db_insert io db (table_name : list Z) (sid docid : Z) (rdata : row_data) (flag : docid_source)
    : option (Z * Z * Z * db_manager S) :=
  db ← ensure_table io db table_name;
  '(r, db) ← on_table db table_name (λ t,
               '(ret, sid, docid, t) ← table_prepare_insert env (prepare_io io) t sid docid flag;
               Some ((ret, sid, docid), t));
  let '(ret, sid, docid) := r in
  if negb (ret =? 0) then Some (ret, sid, docid, db)
  else
    '(ret, db) ← log_before io db (db_insert_to_binrecord (pool (call_io io)) table_name sid docid rdata);
    if negb (ret =? 0) then Some (ret, sid, docid, db)
    else
      '(ret, db) ← on_table db table_name (λ t, table_insert env get_hash_value (call_io io) t sid docid rdata);
      '(ret, db) ← confirm_after io db ret;
      Some (ret, sid, docid, db).

(** Also [*old_data], NULL where it is not written. *)
Definition db_update io db (table_name : list Z) (sid docid : Z) (new_data : field)
    : option (Z * ptr low_data_struct * db_manager S) :=
  r ← db_get_table_instance db table_name;
  match r with
  | None => Some (ERROR_TABLE_NOT_EXIT, NULL, db)
  | Some _ =>
      '(ret, db) ← log_before io db (db_update_to_binrecord table_name sid docid new_data);
      if negb (ret =? 0) then Some (ret, NULL, db)
      else
        '(r, db) ← on_table db table_name (λ t,
                     '(ret, old, t) ← table_update get_hash_value (call_io io) t sid docid new_data; Some ((ret, old), t));
        '(ret, db) ← confirm_after io db (fst r);
        Some (ret, snd r, db)
  end.

Definition db_del_docid io db (table_name : list Z) (sid docid : Z) : option (Z * db_manager S) :=
  r ← db_get_table_instance db table_name;
  match r with
  | None => Some (ERROR_TABLE_INIT_FAILED, db)
  | Some _ =>
      '(ret, db) ← log_before io db (db_delete_to_binrecord table_name sid docid);
      if negb (ret =? 0) then Some (ret, db)
      else
        '(ret, db) ← on_table db table_name (λ t, table_del_docid (call_io io) t sid docid);
        confirm_after io db ret
  end.

(** ** Segments *)

(** The mutex is held when the table cannot be locked: the call returns with it. *)
Definition with_table_lock {R} io db (failed : Z → R) (call : db_manager S → option (R * db_manager S))
    : option (R * db_manager S) :=
  with_task_lock db (λ db,
    let ret := table_lock (call_io io) in
    if negb (ret =? 0) then Some (failed ret, with_locked db true) else call db).

(** Also the directories that have been moved away. *)
Definition db_replace_all_segments io db (uninit : Z) (table_name : list Z) (dirs : option (list (segment_dir S)))
    : option (Z * list (segment_dir S) * db_manager S) :=
  r ← db_get_table_instance db table_name;
  match r with
  | None => Some (ERROR_TABLE_INIT_FAILED, [], db)
  | Some _ =>
      '(r, db) ← with_table_lock io db (λ ret, (ret, [])) (λ db, on_table db table_name (λ t,
                   '(ret, out, t) ← table_replace_all_segments env get_hash_value (call_io io) uninit t dirs;
                   Some ((ret, out), t)));
      Some (fst r, snd r, db)
  end.

Definition db_unload_segment io db (table_name : list Z) (sid : Z) : option (Z * option (segment_dir S) * db_manager S) :=
  r ← db_get_table_instance db table_name;
  match r with
  | None => Some (ERROR_TABLE_INIT_FAILED, None, db)
  | Some _ =>
      '(r, db) ← with_table_lock io db (λ ret, (ret, None)) (λ db, on_table db table_name (λ t,
                   '(ret, out, t) ← table_unload_segment env (call_io io) t sid; Some ((ret, out), t)));
      Some (fst r, snd r, db)
  end.

Definition db_set_segment_current io db (table_name : list Z) (sid : Z) : option (Z * db_manager S) :=
  call_table db table_name ERROR_TABLE_INIT_FAILED (λ t, Some (table_set_segment_current (call_io io) t sid)).

(** The number is passed as an [int16_t] and back. *)
Definition db_load_segment io db (table_name : list Z) (sid : Z) (segment_dir : list Z) : option (Z * db_manager S) :=
  r ← db_get_table_instance db table_name;
  match r with
  | None => Some (ERROR_TABLE_INIT_FAILED, db)
  | Some _ =>
      with_table_lock io db (λ ret, ret) (λ db, on_table db table_name (λ t,
        table_load_segment env get_hash_value (call_io io) t (u16 (s16 sid)) (dir_of io segment_dir)))
  end.

Definition db_compress io db (table_name : list Z) : option (Z * db_manager S) :=
  r ← db_get_table_instance db table_name;
  match r with
  | None => Some (ERROR_TABLE_INIT_FAILED, db)
  | Some _ =>
      with_task_lock db (λ db,
        '(ret, db) ← on_table db table_name (table_compress env);
        log_after io db ret (db_compress_to_binrecord table_name))
  end.

(** ** Locks of tables: a missing table is made *)

Definition db_lock_table io db (table_name : list Z) : option (Z * db_manager S) :=
  db ← ensure_table io db table_name; Some (table_lock (call_io io), db).

Definition db_unlock_table io db (table_name : list Z) : option (db_manager S) := ensure_table io db table_name.
Definition db_readlock_table io db (table_name : list Z) : option (db_manager S) := ensure_table io db table_name.
Definition db_unreadlock_table io db (table_name : list Z) : option (db_manager S) := ensure_table io db table_name.

(** ** Reading *)

(** The answer of the table; [missing] without it. *)
Definition query {R} db (table_name : list Z) (missing : R) (q : table_manager S → option R) : option R :=
  r ← db_get_table_instance db table_name;
  match r with None => Some missing | Some t => q t end.

(** A cleared [struct low_data_struct]. *)
Definition zero_data : low_data_struct := LowData HI_TYPE_NULL [] 0.

Fixpoint index_values table (sid docid : Z) (names : list (list Z)) : option (list low_data_struct) :=
  match names with
  | [] => Some []
  | name :: names =>
      r ← table_index_value_query table sid name docid;
      l ← index_values table sid docid names;
      Some (match r with NULL => zero_data | Ptr v => v end :: l)
  end.

(** The first field of the name. *)
Definition column_of_row (fs : list field) (name : list Z) : low_data_struct :=
  match List.find (λ f, bool_decide (field_name f = name)) fs with
  | Some f => fdata f
  | None => zero_data
  end.

(** The names of the values are left out.  The loop counts in 16 bits. *)
Definition db_data_query_multi_col db (table_name : list Z) (sid docid : Z) (names : list (list Z))
    (access : data_access_type_t) : option (ptr (list low_data_struct)) :=
  query db table_name NULL (λ t,
    if 2 ^ 16 <=? zlen names then None
    else
      match access with
      | DATA_ACCESS_FILTER => l ← index_values t sid docid names; Some (Ptr l)
      | DATA_ACCESS_ORIGINAL =>
          r ← table_data_query_row t sid docid;
          match r with
          | NULL => Some NULL
          | Ptr row => fs ← zsub (datas row) 0 (field_count row); Some (Ptr (column_of_row fs <$> names))
          end
      end).

Definition db_data_query_col db (table_name : list Z) (sid : Z) (name : list Z) (docid : Z) : option (ptr low_data_struct) :=
  query db table_name NULL (λ t, table_data_query_col t sid name docid).
Definition db_data_query_row db (table_name : list Z) (sid docid : Z) : option (ptr row_data) :=
  query db table_name NULL (λ t, table_data_query_row t sid docid).
Definition db_index_range_query db (table_name name : list Z) (time_cond : Z * Z) : option (ptr seg_list) :=
  query db table_name NULL (λ t, table_index_range_query t name time_cond).
Definition db_index_value_query db (table_name : list Z) (sid : Z) (name : list Z) (docid : Z) : option (ptr low_data_struct) :=
  query db table_name NULL (λ t, table_index_value_query t sid name docid).
Definition db_seghint_query db (table_name : list Z) (time_cond : option (Z * Z)) : option (ptr (list segment_hint)) :=
  query db table_name NULL (λ t, table_seghint_query t time_cond).
Definition db_fulltext_index_length_query db (table_name : list Z) (l : list segment_hint) (data : field) : option Z :=
  query db table_name 0 (λ t, table_index_count_query get_hash_value t l data).
Definition db_index_equal_query db (table_name : list Z) (l : list segment_hint) (data : field) : option (ptr seg_list) :=
  query db table_name NULL (λ t, table_index_equal_query get_hash_value t l data).
Definition db_fulltext_index_equal_query db (table_name : list Z) (l : list segment_hint) (data : field)
    : option (ptr seg_list) :=
  query db table_name NULL (λ t, table_fulltext_index_equal_query get_hash_value t l data).

Definition db_is_docid_deleted db (table_name : list Z) (sid docid : Z) : option Z :=
  query db table_name ERROR_TABLE_INIT_FAILED (λ t, table_is_docid_deleted t sid docid).
Definition db_get_record_num db (table_name : list Z) (l : list segment_hint) : option Z :=
  query db table_name ERROR_TABLE_INIT_FAILED (λ t, table_get_record_num t l).
Definition db_get_delete_num db (table_name : list Z) (l : list segment_hint) : option Z :=
  query db table_name ERROR_TABLE_INIT_FAILED (λ t, table_get_delete_num t l).

(** The error code becomes a time. *)
Definition db_get_segment_ctime db (table_name : list Z) (sid : Z) : option Z :=
  query db table_name (u64 ERROR_TABLE_INIT_FAILED) (λ t, table_get_segment_ctime t sid).
Definition db_get_segment_mtime db (table_name : list Z) (sid : Z) : option Z :=
  query db table_name (u64 ERROR_TABLE_INIT_FAILED) (λ t, table_get_segment_mtime t sid).

Definition db_query_segment_stat db (table_name : list Z) : option (ptr (list segment_meta_data * Z)) :=
  query db table_name NULL (λ t, Some (table_query_segment_stat t)).
Definition db_query_index_stat db (table_name : list Z) : option (ptr (list index_field_meta)) :=
  query db table_name NULL (λ t, Some (table_query_index_stat t)).

(** [None] inside is the value -1. *)
Definition db_query_data_type db (table_name name : list Z) : option (option field_types) :=
  query db table_name None (λ t,
    ty ← check_index t name HI_KEY_ALG_FILTER;
    match ty with Some ty => Some (Some ty) | None => check_index t name HI_KEY_ALG_HASH end).

Definition db_get_data_access_type db (table_name name : list Z) : option field_access_type_t :=
  query db table_name FIELD_ACCESS_ORIGINAL (λ t,
    ty ← check_index t name HI_KEY_ALG_FILTER;
    Some (match ty with
          | None => FIELD_ACCESS_ORIGINAL
          | Some ty => if bool_decide (ty = HI_TYPE_STRING) then FIELD_ACCESS_FILTER_HASHED else FIELD_ACCESS_FILTER_ORIGINAL
          end)).
End db.
