(* ===== verification/DbRecover.v ===== *)
(** * The database's log, recovery, start and end ([src/storage/docdb/db.c])

    Changes come back to the database as records of the binary log, from a master
    or, when the server starts, from its own log.  A record in memory is the bytes
    of its block. *)

From Stdlib Require Import ZArith Lia.
From stdpp Require Import base option list numbers gmap.
From S2P Require Import Prelude FileOp StringMap Doclist Bitmark RowidList SegRowid LowData HashIndex Hash DynHash Column RowData DataField IndexField Segment Table Binlog Slave DbRecord Db.

(** [db_recover_check]: the tables' flags per segment, set when it was cut back. *)
Record recover_check_param_t := CheckParam {
  table_sid : string_map (list bool);
  last_table : ptr (list Z);
  last_sid : Z
}.

(** The outcomes of the system calls of [db_init]. *)
Record start_io (S : Type) := StartIo {
  mkdir_work : bool;
  mkdir_binlog : bool;
  map_binlog_meta : bool;
  table_start : Z → db_io S;              (* for the table in a cell *)
  reader_io : init_io;
  seek_io : nat → read_io * read_io;
  recover_reads : nat → nat → read_io * read_io;   (* of the records, per change *)
  recover_io : nat → db_io S;             (* of the changes *)
  fstat_ok : bool;
  writer_io : init_io;
  rwlock_ok : bool;
  mutex_ok : bool
}.
Arguments StartIo {S}.
Arguments mkdir_work {S}.
Arguments mkdir_binlog {S}.
Arguments map_binlog_meta {S}.
Arguments table_start {S}.
Arguments reader_io {S}.
Arguments seek_io {S}.
Arguments recover_reads {S}.
Arguments recover_io {S}.
Arguments fstat_ok {S}.
Arguments writer_io {S}.
Arguments rwlock_ok {S}.
Arguments mutex_ok {S}.

(** What the working directory holds: table.meta, binlog.meta, the files of the
    tables and of the log. *)
Record db_files (S : Type) := DbFiles {
  table_meta_file : Z * list table_meta_data;
  binlog_meta_file : binlog_meta;
  table_dirs : list Z → list segment_meta_data * list (option (segment_dir S));
  binlog_dir : binlog_files
}.
Arguments DbFiles {S}.
Arguments table_meta_file {S}.
Arguments binlog_meta_file {S}.
Arguments table_dirs {S}.
Arguments binlog_dir {S}.

Section recover.
Context {S : Type} `{!Column S}.
Context (env : field_env) (get_hash_value : low_data_struct → Z).
Implicit Types (io : db_io S) (db : db_manager S).

(** ** Executing a record *)

(** A document's table is locked, and made when it is missing. *)
Definition on_locked_table {R} io db (name : list Z) (call : db_manager S → option (R * db_manager S))
    : option (R * db_manager S) :=
  db ← db_readlock_table env io db name;
  '(ret, db) ← call db;
  db ← db_unreadlock_table env io db name;
  Some (ret, db).

Definition db_execute_binrecord io db (block : list Z) : option (Z * db_manager S) :=
  r ← record_of_bytes block;
  let op := rec_op_code r in
  if op =? OPERATION_DELETE then
    t ← db_binrecord_to_delete r;
    on_locked_table io db t (λ db, db_del_docid io db t (rec_sid r) (rec_docid r))
  else if op =? OPERATION_INSERT then
    '(t, rdata) ← db_binrecord_to_insert r;
    on_locked_table io db t (λ db,
      '(ret, _, _, db) ← db_insert env get_hash_value io db t (rec_sid r) (rec_docid r) rdata DOCID_BY_BINLOG;
      Some (ret, db))
  else if op =? OPERATION_UPDATE then
    '(t, new_data) ← db_binrecord_to_update r;
    on_locked_table io db t (λ db,
      '(ret, _, db) ← db_update get_hash_value io db t (rec_sid r) (rec_docid r) new_data; Some (ret, db))
  else if op =? OPERATION_INDEX then
    '(t, name, data_type, index_type) ← db_binrecord_to_index r;
    db_ensure_index env get_hash_value io db t name index_type data_type
  else if op =? OPERATION_DINDEX then
    '(t, name, index_type) ← db_binrecord_to_dindex r; db_del_index env io db t name index_type
  else if op =? OPERATION_COMPRESS then
    t ← db_binrecord_to_compress r; db_compress env io db t
  else if op =? OPERATION_LOAD then
    '(t, dir) ← db_binrecord_to_load r; db_load_segment env get_hash_value io db t (rec_sid r) dir
  else if op =? OPERATION_UNLOAD then
    t ← db_binrecord_to_unload r;
    '(ret, _, db) ← db_unload_segment env io db t (rec_sid r);
    Some (ret, db)
  else Some (0, db).

(** ** Recovery *)

(** The flags of a table, and the map with them; an object that the map refused
    stays outside of it. *)
Definition find_flags (p : recover_check_param_t) (num : Z) (table : list Z)
    : option (list bool * string_map (list bool)) :=
  r ← string_map_get (table_sid p) table;
  match r with
  | Some flags => Some (flags, table_sid p)
  | None =>
      let flags := replicate (Z.to_nat num) false in
      '(_, h) ← string_map_put (table_sid p) table flags;
      Some (flags, h)
  end.

Definition set_flags (h : string_map (list bool)) (table : list Z) (flags : list bool) : option (string_map (list bool)) :=
  r ← string_map_get h table;
  match r with None => Some h | Some _ => set_object h table flags end.

(** Before an insertion the segment is cut back to the document, once per segment. *)
Definition db_recover_check (param : recover_check_param_t) db (rec : binlog_record)
    : option (Z * recover_check_param_t * db_manager S) :=
  if negb (rec_op_code rec =? OPERATION_INSERT) then Some (0, param, db)
  else
    let num := conf_segments (settings db) in
    if rec_sid rec >=? num then Some (-1, param, db)
    else
      '(table, _) ← get_string (rec_data rec) 0;
      let same := match last_table param with NULL => false | Ptr l => bool_decide (l = table) end in
      if same && (rec_sid rec =? last_sid param) then Some (0, param, db)
      else
        '(flags, h) ← (if same then r ← string_map_get (table_sid param) table; flags ← r; Some (flags, table_sid param)
                       else find_flags param num table);
        let param := CheckParam h (Ptr table) (rec_sid rec) in
        cut ← flags⟦rec_sid rec⟧;
        t ← db_get_table_instance db table;
        match t, (cut : bool) with
        | Some _, false =>
            '(rc, db) ← on_table db table (λ t, table_recover t (rec_sid rec) (rec_docid rec));
            if rc =? 0 then
              flags ← flags⟦rec_sid rec := true⟧;
              h ← set_flags h table flags;
              Some (rc, CheckParam h (Ptr table) (rec_sid rec), db)
            else Some (rc, param, db)
        | _, _ => Some (0, param, db)
        end.

(** The next change that the record behind it confirms; NULL when nothing more
    can be read. *)
Fixpoint next_confirmed (fuel : nat) (io : nat → read_io * read_io) (files : binlog_files) (r : BL_READER)
    (pre_rec : ptr (list Z)) : option (Z * ptr (list Z) * BL_READER) :=
  match fuel with
  | O => None
  | Datatypes.S fuel =>
      '(ret, rec, r) ← binlog_read_record (io fuel) files NULL r;
      if ret <=? 0 then Some (ret, NULL, r)
      else
        match pre_rec with
        | NULL => next_confirmed fuel io files r (Ptr rec)
        | Ptr p =>
            first ← IS_CONFIRM_RECORD p;
            if (first : bool) then next_confirmed fuel io files r (Ptr rec)
            else
              confirm ← IS_CONFIRM_RECORD rec;
              op ← op_code_of rec;
              if negb confirm || (op =? OPERATION_CONFIRM_FAIL) then next_confirmed fuel io files r (Ptr rec)
              else Some (ret, Ptr p, r)
        end
  end.

(** Results of a change after which recovery goes on. *)
Definition recovers (ret : Z) : bool :=
  (ret =? MILE_RETURN_SUCCESS) || (ret =? ERROR_INSERT_REPEAT) || (ret =? ERROR_PK_CONFLICT)
  || (ret =? ERROR_ONLY_FILTER_SUPPORT) || (ret =? ERROR_INDEX_FIELD_COMPRESSED).

Fixpoint recover_loop (fuel : nat) (sio : start_io S) (reads : nat) (param : recover_check_param_t) db (r : BL_READER)
    : option (Z * BL_READER * db_manager S) :=
  match fuel with
  | O => None
  | Datatypes.S fuel =>
      '(ret, pre_rec, r) ← next_confirmed reads (recover_reads sio fuel) (log_dir db) r NULL;
      match pre_rec with
      | NULL => Some (ret, r, db)
      | Ptr pre_rec =>
          rec ← record_of_bytes pre_rec;
          '(ret, param, db) ← db_recover_check param db rec;
          if negb (ret =? 0) then Some (ret, r, db)
          else
            '(ret, db) ← db_execute_binrecord (recover_io sio fuel) db pre_rec;
            if recovers ret then recover_loop fuel sio reads param db r else Some (ret, r, db)
      end
  end.

(** At most [fuel] changes, each found in at most [fuel] records. *)
Definition db_recover_data (fuel : nat) (sio : start_io S) db : option (Z * db_manager S) :=
  '(reader, files) ← binlog_reader_init_bytime fuel (reader_io sio) (seek_io sio) (log_dir db)
                       (binlog_maxsize (settings db)) (last_checkpoint (bl_meta db));
  let db := with_log db files (binlog_writer db) in
  match reader with
  | NULL => Some (ERROR_BINLOG_FAILED, db)
  | Ptr r =>
      '(ret, r, db) ← recover_loop fuel sio fuel (CheckParam (init_string_map MAX_TABLE_NUM) NULL 0) db r;
      if ret =? MILE_RETURN_SUCCESS then
        all ← binlog_is_read_all (fstat_ok sio) (log_dir db) r;
        Some (if negb (all =? 1) then ERROR_BINLOG_FAILED else ret, db)
      else Some (ret, db)
  end.

(** ** The slave's position *)

Definition db_start_catch_up (now : Z) db : Z * db_manager S :=
  (bl_offset (bl_meta db), with_catch_up db (u64 (now / USEC_PER_MSEC))).

(** The threshold is compared with the time that is left, in milliseconds. *)
Definition db_slave_set_offset (msync_ok : bool) (now : Z) db (offset_cur offset_left : Z) : Z * db_manager S :=
  let db := with_bl_meta db (BlMeta (last_checkpoint (bl_meta db)) offset_cur) in
  if negb msync_ok then (ERROR_SYNC_FAILED, db)
  else
    let now := u64 (now / USEC_PER_MSEC) in
    let finish_offset := u64 (offset_cur - offset_start db) in
    let elapsed := u64 (now - catch_up_start db) in
    let speed := if elapsed >? 0 then finish_offset / elapsed else 0 in
    let time_left := if negb (speed =? 0) then offset_left / speed else 2 ^ 64 - 1 in
    (if time_left <? binlog_threshold db then MILE_SLAVE_CACTCH_UP else MILE_RETURN_SUCCESS, db).

Definition set_db_readable db : db_manager S := with_readable db true.
Definition set_db_unreadable db : db_manager S := with_readable db false.

(** ** All tables *)

(** The callbacks of [string_map_for_each]: a table is taken with the content of
    its cell, which is written back. *)
Definition db_checkpoint_iterator_func (name : list Z) (value : Z * table_manager S) (metas : list table_meta_data)
    : option (Z * (Z * table_manager S) * list table_meta_data) :=
  let '(slot, table) := value in
  m ← metas⟦slot⟧;
  table ← table_checkpoint env (with_table_meta table m);
  metas ← metas⟦slot := table_meta table⟧;
  Some (0, (slot, table), metas).

Definition db_release_iterator_func (name : list Z) (value : Z * table_manager S)
    (u : list table_meta_data * (list Z → list segment_meta_data * list (option (segment_dir S))))
    : option (Z * (Z * table_manager S) * (list table_meta_data * (list Z → list segment_meta_data * list (option (segment_dir S))))) :=
  let '(slot, table) := value in
  let '(metas, dirs) := u in
  m ← metas⟦slot⟧;
  '(m, file, ds) ← table_release env (with_table_meta table m);
  metas ← metas⟦slot := m⟧;
  Some (0, (slot, table), (metas, λ n, if decide (n = name) then (file, ds) else dirs n)).

(** What [msync] answers is only logged. *)
Definition db_checkpoint (now : Z) db : option (db_manager S) :=
  let c := cat db in
  '(_, h, metas) ← string_map_for_each (tables c) db_checkpoint_iterator_func (table_metas c);
  let db := with_cat db (Catalog h (table_count c) metas (table_metas_hash c) (table_files c)) in
  Some (with_bl_meta db (BlMeta now (bl_offset (bl_meta db)))).

(** What is left on disk; the log is where it was. *)
Definition db_release db : option (db_files S) :=
  let c := cat db in
  '(_, _, u) ← string_map_for_each (tables c) db_release_iterator_func (table_metas c, table_files c);
  Some (DbFiles (table_count c, fst u) (bl_meta db) (snd u) (log_dir db)).

(** The loop that waits for the new segment: [wakes] are the database and the
    running flag when the thread wakes up.  Also the table's name is there. *)
Fixpoint wait_complete (wakes : list (db_manager S * bool)) db (running : bool) (name : list Z)
    : option (db_manager S * bool * bool) :=
  t ← db_get_table_instance db name;
  match t with
  | None => Some (db, running, false)
  | Some t =>
      if (new_seg_complete t =? 0) && running then
        match wakes with [] => None | (db, running) :: wakes => wait_complete wakes db running name end
      else Some (db, running, true)
  end.

(** The running flag is read again before the switch and before the checkpoint. *)
Definition db_mmap_switch (flush switch : bool * bool) (dy_flush dy_switch : dyhash_io)
    (wakes : list (db_manager S * bool)) (still_running : bool) (now : Z) db (running : bool) (name : list Z) (sid : Z)
    : option (db_manager S) :=
  '(db, running, found) ← wait_complete wakes db running name;
  db ← (if (found : bool) && (running : bool)
        then '(_, db) ← on_table db name (λ t, table_mmap_switch env flush switch dy_flush dy_switch t sid); Some db
        else Some db);
  if running && still_running then db_checkpoint now db else Some db.

(** ** Start *)

(** The tables that table.meta names. *)
Fixpoint open_tables (sio : start_io S) (n : nat) (i : Z) db : option (db_manager S) :=
  match n with
  | O => Some db
  | Datatypes.S n =>
      let c := cat db in
      m ← (table_metas c)⟦i⟧;
      if Z.land (tstat m) TABLE_INIT =? 0 then open_tables sio n (i + 1) db
      else
        '(_, h) ← string_map_put (table_metas_hash c) (table_name m) i;
        let db := with_cat db (Catalog (tables c) (table_count c) (table_metas c) h (table_files c)) in
        db ← db_create_table env (table_start sio i) db (table_name m);
        open_tables sio n (i + 1) db
  end.

(** [memset(db, 0, sizeof(struct db_manager))] and the settings. *)
Definition blank_db (conf : db_conf) (files : db_files S) : db_manager S :=
  Db (Catalog (init_string_map MAX_TABLE_NUM) (fst (table_meta_file files)) (snd (table_meta_file files))
        (init_string_map MAX_TABLE_NUM) (table_dirs files))
    (binlog_meta_file files) 0 0 conf 0 (binlog_dir files) NULL RECOVER_DATA false false.

Definition start_binlog (fuel : nat) (sio : start_io S) db : option (Z * db_manager S) :=
  '(ret, db) ← db_recover_data fuel sio (with_stat db RECOVER_DATA);
  if negb (ret =? MILE_RETURN_SUCCESS) then Some (ERROR_DB_INIT_FAILED, db)
  else
    let db := with_stat db RECOVER_FIN in
    '(w, files) ← binlog_writer_init (writer_io sio) (log_dir db) (binlog_maxsize (settings db));
    match w with
    | NULL => Some (ERROR_DB_INIT_FAILED, with_log db files NULL)
    | Ptr w =>
        let sync := (binlog_sync_interval (settings db) =? 0) || sync_immediately w in
        Some (0, with_log db files (Ptr (Writer (writer_max_size w) (writer_fd w) sync (writer_abs_offset w) (writer_index w))))
    end.

Definition db_init (fuel : nat) (sio : start_io S) (conf : db_conf) (files : db_files S) : option (Z * db_manager S) :=
  let db := blank_db conf files in
  if zlen (conf_dirs conf) =? 0 then None
  else if negb (mkdir_work sio) then Some (ERROR_DB_INIT_FAILED, db)
  else if binlog_flag conf && negb (mkdir_binlog sio) then Some (ERROR_DB_INIT_FAILED, db)
  else
    db ← open_tables sio (Z.to_nat (table_count (cat db))) 0 db;
    if negb (map_binlog_meta sio) then Some (ERROR_DB_INIT_FAILED, db)
    else
      let db := Db (cat db) (bl_meta db) (catch_up_start db) (bl_offset (bl_meta db)) (settings db) (binlog_threshold db)
                  (log_dir db) (binlog_writer db) (stat db) (readable db) (task_locked db) in
      '(ret, db) ← (if binlog_flag conf then start_binlog fuel sio db else Some (0, db));
      if negb (ret =? 0) then Some (ret, db)
      else if negb (rwlock_ok sio) || negb (mutex_ok sio) then Some (ERROR_DB_INIT_FAILED, db)
      else Some (0, if role conf =? MASTER_ROLE then set_db_readable db else db).
End recover.
