(* ===== verification/CatalogSpec.v ===== *)
(** * The map of tables

    The database's tables with their shared meta data as a finite map from names
    to what is known of the table of that name. *)

From Stdlib Require Import ZArith Lia Sorted.
From stdpp Require Import base option list numbers gmap sets.
From S2P Require Import Prelude StringMap LowData Hash RowData IndexField Segment SegmentSpec Table Column Binlog Db DbRecover.

(** ** Going through a string map *)

Section each.
Context {V U : Type}.
Implicit Types (kvs l : list (list Z * V)).

(** The entries after all calls, none of which stops the loop. *)
Fixpoint each (func : list Z → V → U → option (Z * V * U)) kvs (u : U) : option (list (list Z * V) * U) :=
  match kvs with
  | [] => Some ([], u)
  | kv :: kvs =>
      '(rc, v, u) ← func (fst kv) (snd kv) u;
      if rc <? 0 then None else '(l, u) ← each func kvs u; Some ((fst kv, v) :: l, u)
  end.

Lemma each_keys func kvs u l u' : each func kvs u = Some (l, u') → l.*1 = kvs.*1.
Proof.
  revert u l. induction kvs as [|kv kvs IH]; intros u l; cbn [each]; [by intros [= <- _]|].
  destruct (func _ _ u) as [[[rc v] u1]|]; [|done]. cbn [mbind option_bind]. destruct (rc <? 0); [done|].
  destruct (each func kvs u1) as [[l1 u2]|] eqn:E; [|done]. cbn [mbind option_bind]. intros [= <- <-].
  rewrite !fmap_cons. f_equal. by apply (IH u1).
Qed.

Lemma catalog_keys kvs l : l.*1 = kvs.*1 → ordered kvs → ordered l.
Proof.
  revert l. induction kvs as [|[k v] kvs IH]; intros [|[k' v'] l] E; try done.
  rewrite !fmap_cons in E. injection E as -> E. intros [Hs Hall]%StronglySorted_inv. constructor; [by apply IH|].
  rewrite Forall_forall in Hall. apply Forall_forall. intros [n w] Hn. assert (n ∈ kvs.*1) as Hk.
  { rewrite <- E. apply list_elem_of_fmap. by exists (n, w). }
  apply list_elem_of_fmap in Hk as ([n' w'] & -> & Hin). exact (Hall _ Hin).
Qed.

Lemma for_each_cells_each func pre kvs rest u l u' :
  each func kvs u = Some (l, u') →
  for_each_cells func (length kvs) (zlen pre) (pre ++ (Some <$> kvs) ++ rest) u = Some (0, pre ++ (Some <$> l) ++ rest, u').
Proof.
  revert pre u l. induction kvs as [|kv kvs IH]; intros pre u l; cbn [each for_each_cells length]; [by intros [= <- <-]|].
  destruct (func _ _ u) as [[[rc v] u1]|] eqn:Ef; [|done]. cbn [mbind option_bind]. destruct (rc <? 0) eqn:Erc; [done|].
  destruct (each func kvs u1) as [[l1 u2]|] eqn:E; [|done]. cbn [mbind option_bind]. intros [= <- <-].
  rewrite !fmap_cons, <- !app_comm_cons. rewrite zget_mid by done. cbn [mbind option_bind]. rewrite Ef. cbn [mbind option_bind].
  pose proof (zlen_nonneg ((Some <$> kvs) ++ rest)).
  rewrite zset_in by (rewrite zlen_app; unfold zlen; simpl; lia). cbn [mbind option_bind]. rewrite Erc.
  replace (Z.to_nat (zlen pre)) with (length pre + 0)%nat by (unfold zlen; lia). rewrite insert_app_r. cbn [insert list_insert].
  replace (zlen pre + 1) with (zlen (pre ++ [Some (fst kv, v)])) by (rewrite zlen_app; done).
  assert (∀ (x : option (list Z * V)) k, pre ++ x :: k = (pre ++ [x]) ++ k) as Hm by (intros; by rewrite <- app_assoc).
  rewrite (Hm (Some (fst kv, v)) ((Some <$> kvs) ++ rest)), (Hm (Some (fst kv, v)) ((Some <$> l1) ++ rest)). by apply IH.
Qed.

Lemma catalog_for_each (m : string_map V) kvs func u l u' :
  holds_entries m kvs → each func kvs u = Some (l, u') →
  ∃ m', string_map_for_each m func u = Some (0, m', u') ∧ holds_entries m' l ∧ sm_size m' = sm_size m.
Proof.
  intros (Ho & Hp & Hl & Hs & rest & Hc) He. unfold string_map_for_each. rewrite Hp, Hc. replace (Z.to_nat (zlen kvs)) with (length kvs) by (unfold zlen; lia).
  pose proof (for_each_cells_each func [] kvs rest u l u' He) as E. cbn [app] in E.
  change (zlen []) with 0 in E. rewrite E. cbn [mbind option_bind].
  eexists. split; [done|]. split; [|done]. pose proof (each_keys _ _ _ _ _ He) as Hk.
  assert (zlen l = zlen kvs) as Hlen by (apply (f_equal length) in Hk; rewrite !length_fmap in Hk; unfold zlen; lia).
  split; [by apply (catalog_keys kvs)|]. split; [simpl; lia|]. split; [|split; [done|by exists rest]].
  cbn [cells sm_size]. rewrite Hc in Hl. rewrite !zlen_app, !zlen_fmap in *. lia.
Qed.
End each.

Section catalog.
Context {S : Type} `{!Column S}.
Implicit Types (db : db_manager S) (t : table_manager S) (T : gmap (list Z) (table_manager S → Prop)).

(** The settings give every table the configuration [config]. *)
Definition same_config (conf : db_conf) (config : table_config) : Prop :=
  ∀ name, table_config_of conf name = Some config.

(** The entries [kvs] of the map, over the cells [metas], of which [count] are used. *)
Record entries_rep T (count : Z) (metas : list table_meta_data) (kvs : list (list Z * (Z * table_manager S))) : Prop := {
  er_names : ∀ name, is_Some (entry_map kvs !! name) ↔ is_Some (T !! name);
  er_tables : ∀ name slot t P, entry_map kvs !! name = Some (slot, t) → T !! name = Some P →
    0 ≤ slot < count ∧ ∃ m, metas⟦slot⟧ = Some m ∧ P (with_table_meta t m);
  er_cells : ∀ name name' slot t t',
    entry_map kvs !! name = Some (slot, t) → entry_map kvs !! name' = Some (slot, t') → name = name'
}.

Record catalog_rep (conf : db_conf) T db : Prop := {
  cr_conf : settings db = conf;
  cr_free : task_locked db = false;
  cr_count : table_count (cat db) = Z.of_nat (size T);
  cr_metas : zlen (table_metas (cat db)) = MAX_TABLE_NUM;
  cr_few : table_count (cat db) ≤ MAX_TABLE_NUM;
  cr_fresh : ∀ i, table_count (cat db) ≤ i < MAX_TABLE_NUM → (table_metas (cat db))⟦i⟧ = Some zero_table_meta;
  cr_hash : ∃ kvs, holds_entries (table_metas_hash (cat db)) kvs ∧ ∀ name, is_Some (entry_map kvs !! name) → is_Some (T !! name);
  cr_files : ∀ name, T !! name = None →
    table_files (cat db) name = ([], replicate (Z.to_nat (conf_segments conf)) None);
  cr_tables : ∃ kvs, holds_entries (tables (cat db)) kvs ∧ sm_size (tables (cat db)) = MAX_TABLE_NUM ∧
    entries_rep T (table_count (cat db)) (table_metas (cat db)) kvs
}.

(** What is not part of the catalog stays. *)
Record same_rest db db' : Prop := {
  rest_bl : bl_meta db' = bl_meta db;
  rest_catch : catch_up_start db' = catch_up_start db;
  rest_start : offset_start db' = offset_start db;
  rest_conf : settings db' = settings db;
  rest_threshold : binlog_threshold db' = binlog_threshold db;
  rest_log : log_dir db' = log_dir db;
  rest_writer : binlog_writer db' = binlog_writer db;
  rest_stat : stat db' = stat db;
  rest_readable : readable db' = readable db;
  rest_locked : task_locked db' = task_locked db
}.

#[global] Instance same_rest_preorder : PreOrder same_rest.
Proof. split; [by split|]. intros a b c [] []. split; congruence. Qed.

Lemma with_meta_same t : with_table_meta t (table_meta t) = t.
Proof. by destruct t. Qed.

Lemma cell_other (metas : list table_meta_data) slot j m : j ≠ slot → 0 ≤ slot → (<[Z.to_nat slot := m]> metas)⟦j⟧ = metas⟦j⟧.
Proof.
  intros Hj Hs. destruct (decide (0 ≤ j)).
  - rewrite !zget_lookup by lia. apply list_lookup_insert_ne. lia.
  - unfold zget. by rewrite !decide_False by lia.
Qed.

Lemma cell_same (metas : list table_meta_data) slot m : 0 ≤ slot < zlen metas → (<[Z.to_nat slot := m]> metas)⟦slot⟧ = Some m.
Proof. intros H. rewrite zget_lookup by lia. apply list_lookup_insert_eq. unfold zlen in *. lia. Qed.

(** A table is put into cell [slot], which no other table has. *)
Lemma entries_insert T count count' metas kvs kvs' name slot t (Q : table_manager S → Prop) :
  entries_rep T count metas kvs → entry_map kvs' = <[name := (slot, t)]> (entry_map kvs) → Q t →
  count ≤ count' → 0 ≤ slot < count' → slot < zlen metas →
  (∀ n t', entry_map kvs !! n = Some (slot, t') → n = name) →
  entries_rep (<[name := Q]> T) count' (<[Z.to_nat slot := table_meta t]> metas) kvs'.
Proof.
  intros [Hdom Hin Hinj] He HQ Hc Hs Hm Hown. split; rewrite He.
  - intros n. destruct (decide (name = n)) as [<-|Hne]; [rewrite !lookup_insert_eq; split; by eexists|].
    rewrite !lookup_insert_ne by done. apply Hdom.
  - intros n slot' t' P' Hn HP'. destruct (decide (name = n)) as [<-|Hne].
    + rewrite lookup_insert_eq in Hn. rewrite lookup_insert_eq in HP'. injection Hn as <- <-. injection HP' as <-.
      split; [done|]. exists (table_meta t). split; [apply cell_same; lia|by rewrite with_meta_same].
    + rewrite lookup_insert_ne in Hn by done. rewrite lookup_insert_ne in HP' by done.
      destruct (Hin _ _ _ _ Hn HP') as (? & m' & Hm' & ?). split; [lia|]. exists m'. split; [|done].
      rewrite cell_other; [done| |lia]. intros ->. by apply Hne, eq_sym, (Hown n t').
  - intros n n' sl t1 t2. destruct (decide (name = n)) as [<-|Hne], (decide (name = n')) as [<-|Hne'];
      rewrite ?lookup_insert_eq, ?lookup_insert_ne by done; try done.
    + intros [= <- <-] Hn'. by apply Hown in Hn'.
    + intros Hn' [= <- <-]. by apply Hown in Hn'.
    + apply Hinj.
Qed.

Lemma hash_insert T (h : string_map Z) name (Q : table_manager S → Prop) :
  (∃ kvs, holds_entries h kvs ∧ ∀ n, is_Some (entry_map kvs !! n) → is_Some (T !! n)) →
  ∃ kvs, holds_entries h kvs ∧ ∀ n, is_Some (entry_map kvs !! n) → is_Some (<[name := Q]> T !! n).
Proof.
  intros (kh & ? & Hd). exists kh. split; [done|]. intros n Hn. rewrite lookup_insert_is_Some.
  destruct (decide (name = n)); [by left|right]. split; [done|]. by apply Hd.
Qed.

Lemma get_table_some conf T db name P :
  catalog_rep conf T db → T !! name = Some P →
  ∃ t, db_get_table_instance db name = Some (Some t) ∧ P t.
Proof.
  intros Hr HP. destruct (cr_tables _ _ _ Hr) as (kvs & Hh & _ & [Hdom Hin _]).
  destruct (proj2 (Hdom name)) as [[slot t] Hk]; [by eexists|]. destruct (Hin _ _ _ _ Hk HP) as (_ & m & Hm & Hp).
  exists (with_table_meta t m). split; [|done]. unfold db_get_table_instance, find_table.
  rewrite (get_spec _ kvs) by done. rewrite Hk. cbn [mbind option_bind]. by rewrite Hm.
Qed.

Lemma get_table_none conf T db name :
  catalog_rep conf T db → T !! name = None → db_get_table_instance db name = Some None.
Proof.
  intros Hr HP. destruct (cr_tables _ _ _ Hr) as (kvs & Hh & _ & [Hdom _ _]). unfold db_get_table_instance, find_table.
  rewrite (get_spec _ kvs) by done. destruct (entry_map kvs !! name) eqn:E; [|done].
  destruct (proj1 (Hdom name)) as [? ?]; [by eexists|congruence].
Qed.

Lemma set_table_spec conf T db name P (Q : table_manager S → Prop) t :
  catalog_rep conf T db → T !! name = Some P → Q t →
  ∃ db', set_table db name t = Some db' ∧ catalog_rep conf (<[name := Q]> T) db' ∧ same_rest db db'.
Proof.
  intros Hr HP HQ. pose proof Hr as []. destruct cr_tables0 as (kvs & Hh & Hsz & Hent). pose proof Hent as [Hdom Hin Hinj].
  destruct (proj2 (Hdom name)) as [[slot t0] Hk]; [by eexists|]. destruct (Hin _ _ _ _ Hk HP) as (Hs & m & Hm & _).
  unfold set_table. rewrite (get_spec _ kvs), Hk by done. cbn [mbind option_bind].
  destruct (set_object_spec (tables (cat db)) kvs name (slot, t0) (slot, t) Hh Hk) as (h & kvs' & -> & Hh' & Hs' & _ & He).
  cbn [mbind option_bind]. destruct (zget_Some_range _ _ _ Hm) as [? ?].
  rewrite zset_in by done. cbn [mbind option_bind]. eexists. split; [done|]. split; [|by split].
  split; cbn [with_cat cat settings task_locked table_count table_metas table_metas_hash table_files tables]; try done.
  - rewrite map_size_insert_Some; [done|by eexists].
  - by rewrite zlen_insert.
  - intros i Hi. rewrite cell_other by lia. by apply cr_fresh0.
  - by apply hash_insert.
  - intros n Hn. apply lookup_insert_None in Hn as [Hn _]. by apply cr_files0.
  - exists kvs'. split; [done|]. split; [congruence|]. apply (entries_insert T (table_count (cat db)) _ _ kvs); try done; try lia.
    intros n t' Hn. by apply (Hinj _ _ slot t' t0).
Qed.

(** A call on a table that is there. *)
Lemma on_table_spec {R} conf T db name P (Q : table_manager S → Prop) (r : R) call :
  catalog_rep conf T db → T !! name = Some P →
  (∀ t, P t → ∃ t', call t = Some (r, t') ∧ Q t') →
  ∃ db', on_table db name call = Some (r, db') ∧ catalog_rep conf (<[name := Q]> T) db' ∧ same_rest db db'.
Proof.
  intros Hr HP Hcall. destruct (get_table_some conf T db name P Hr HP) as (t & Hg & Ht). unfold on_table. rewrite Hg.
  cbn [mbind option_bind]. destruct (Hcall t Ht) as (t' & -> & Ht'). cbn [mbind option_bind].
  destruct (set_table_spec conf T db name P Q t' Hr HP Ht') as (db' & -> & ? & ?). cbn [mbind option_bind]. by exists db'.
Qed.

(** A new table gets the next cell. *)
Lemma create_table_spec env conf config T db io name (Q : table_manager S → Prop) t :
  catalog_rep conf T db → T !! name = None → Z.of_nat (size T) < MAX_TABLE_NUM → zlen name < MAX_TABLE_NAME →
  same_config conf config →
  table_init env (create_io io) config (TableMeta name 0 0 []) [] (replicate (Z.to_nat (conf_segments conf)) None) = Some (Ptr t) →
  Q t →
  ∃ db', db_create_table env io db name = Some db' ∧ catalog_rep conf (<[name := Q]> T) db' ∧ same_rest db db'.
Proof.
  intros Hr HT Hroom Hname Hconf Hinit HQ. pose proof Hr as []. unfold db_create_table.
  rewrite (get_table_none conf T) by done. cbn [mbind option_bind].
  destruct cr_hash0 as (kh & Hkh & Hkd). unfold meta_cell. rewrite (get_spec _ kh) by done.
  destruct (entry_map kh !! name) eqn:Eh.
  { destruct (Hkd name) as [? ?]; [by eexists|congruence]. }
  set (slot := table_count (cat db)) in *. cbn [mbind option_bind].
  rewrite cr_fresh0 by lia. cbn [mbind option_bind]. rewrite (proj2 (Z.ltb_lt _ _)) by done.
  rewrite zset_in by lia. cbn [mbind option_bind]. rewrite cr_conf0, Hconf. cbn [mbind option_bind zero_table_meta tstat segment_current index_meta].
  rewrite zget_lookup by lia. rewrite list_lookup_insert_eq by (unfold zlen in *; lia). cbn [mbind option_bind].
  rewrite (cr_files0 name HT), Hinit. cbn [mbind option_bind].
  destruct cr_tables0 as (kvs & Hh & Hsz & Hent). pose proof Hent as [Hdom Hin Hinj].
  assert (dom (entry_map kvs) = dom T) as Edom by (apply set_eq; intros n; by rewrite !elem_of_dom).
  assert (zlen kvs = Z.of_nat (size T)) as Ekvs.
  { rewrite <- (entries_size kvs) by apply Hh. by rewrite <- !size_dom, Edom. }
  destruct (map_put_spec (tables (cat db)) kvs name (slot, t) Hh) as (h & kvs' & -> & Hh' & Hs' & He); [lia|].
  cbn [mbind option_bind]. rewrite zset_in by (rewrite zlen_insert; lia). cbn [mbind option_bind]. rewrite list_insert_insert_eq.
  eexists. split; [done|]. split; [|by split].
  unfold MAX_TABLE_NUM in *. assert (u8 (slot + 1) = slot + 1) as E8 by (unfold u8; apply Z.mod_small; lia).
  split; cbn [with_cat cat settings task_locked table_count table_metas table_metas_hash table_files tables]; rewrite ?E8; try done; try lia.
  - rewrite map_size_insert_None by done. lia.
  - by rewrite zlen_insert.
  - unfold MAX_TABLE_NUM. lia.
  - unfold MAX_TABLE_NUM. intros i Hi. rewrite cell_other by lia. apply cr_fresh0. lia.
  - apply hash_insert. by exists kh.
  - intros n Hn. apply lookup_insert_None in Hn as [Hn _]. by apply cr_files0.
  - exists kvs'. split; [done|]. split; [unfold MAX_TABLE_NUM; congruence|]. apply (entries_insert T slot _ _ kvs); try done; try lia.
    intros n t' Hn. destruct (proj1 (Hdom n)) as [P' HP']; [by eexists|]. destruct (Hin _ _ _ _ Hn HP') as (? & _). lia.
Qed.

Lemma entry_replace {V} pre name (v v' : V) post :
  name ∉ pre.*1 → entry_map (pre ++ (name, v') :: post) = <[name := v']> (entry_map (pre ++ (name, v) :: post)).
Proof.
  intros Hn. unfold entry_map. rewrite !list_to_map_app. simpl.
  rewrite insert_union_r by by apply not_elem_of_list_to_map_1. by rewrite insert_insert_eq.
Qed.

Lemma checkpoint_each env T count metas pre kvs :
  entries_rep T count metas (pre ++ kvs) → NoDup (pre ++ kvs).*1 → count ≤ zlen metas →
  (∀ name P t, T !! name = Some P → P t → ∃ t', table_checkpoint env t = Some t' ∧ P t') →
  ∃ l metas', each (db_checkpoint_iterator_func env) kvs metas = Some (l, metas') ∧ entries_rep T count metas' (pre ++ l) ∧
    zlen metas' = zlen metas ∧ ∀ i, count ≤ i → metas'⟦i⟧ = metas⟦i⟧.
Proof.
  intros Hent Hnd Hc Hcall. revert pre metas Hent Hnd Hc.
  induction kvs as [|[name [slot t]] kvs IH]; intros pre metas Hent Hnd Hc; [by exists [], metas|].
  assert (name ∉ pre.*1) as Hpre.
  { rewrite fmap_app, fmap_cons in Hnd. apply NoDup_app in Hnd as (_ & Hd & _). intros Hin. apply (Hd _ Hin). left. }
  assert (entry_map (pre ++ (name, (slot, t)) :: kvs) !! name = Some (slot, t)) as Hk.
  { apply elem_of_list_to_map_1; [done|]. apply elem_of_app. right. left. }
  pose proof Hent as [Hdom Hin Hinj]. destruct (proj1 (Hdom name)) as [P HP]; [by eexists|].
  destruct (Hin _ _ _ _ Hk HP) as (Hs & m & Hm & Hp). destruct (Hcall _ _ _ HP Hp) as (t' & Ht & Hp').
  cbn [each fst snd db_checkpoint_iterator_func]. rewrite Hm. cbn [mbind option_bind]. rewrite Ht. cbn [mbind option_bind].
  rewrite zset_in by lia. cbn [mbind option_bind]. simpl (0 <? 0). cbv iota.
  destruct (IH (pre ++ [(name, (slot, t'))]) (<[Z.to_nat slot := table_meta t']> metas)) as (l & metas' & -> & Hent' & Hl & Hother).
  - rewrite <- (insert_id T name P HP), <- app_assoc. cbn [app].
    apply (entries_insert T count count metas (pre ++ (name, (slot, t)) :: kvs)); try done; try lia; [by apply entry_replace|].
    intros n t1 Hn. by apply (Hinj _ _ slot t1 t).
  - rewrite <- app_assoc. cbn [app]. rewrite fmap_app, fmap_cons in *. done.
  - by rewrite zlen_insert.
  - cbn [mbind option_bind]. exists ((name, (slot, t')) :: l), metas'. split; [done|]. rewrite <- app_assoc in Hent'. split; [done|].
    rewrite Hl, zlen_insert. split; [done|]. intros i Hi. rewrite Hother, cell_other by lia. done.
Qed.

Lemma checkpoint_spec env conf T db now :
  catalog_rep conf T db →
  (∀ name P t, T !! name = Some P → P t → ∃ t', table_checkpoint env t = Some t' ∧ P t') →
  ∃ db' c, db_checkpoint env now db = Some db' ∧ catalog_rep conf T db' ∧
    db' = with_bl_meta (with_cat db c) (BlMeta now (bl_offset (bl_meta db))).
Proof.
  intros Hr Hcall. pose proof Hr as []. destruct cr_tables0 as (kvs & Hh & Hsz & Hent).
  destruct (checkpoint_each env T (table_count (cat db)) (table_metas (cat db)) [] kvs) as (l & metas' & He & Hent' & Hl & Hother);
    [done|apply ordered_NoDup, Hh|lia|done|].
  destruct (catalog_for_each _ _ _ _ _ _ Hh He) as (h & Hf & Hh' & Hs'). unfold db_checkpoint. rewrite Hf. cbn [mbind option_bind].
  eexists _, _. split; [done|]. split; [|done].
  split; cbn [with_cat with_bl_meta cat settings task_locked table_count table_metas table_metas_hash table_files tables]; try done.
  - lia.
  - intros i Hi. rewrite Hother by lia. by apply cr_fresh0.
  - exists l. split; [done|]. split; [congruence|done].
Qed.
End catalog.
