(* ===== verification/DbSpec.v ===== *)
(** * What the database promises

    The database is specified as a finite map from names to the contents of
    tables.  Every successful change leaves a record in the binary log, followed by
    its confirmation; another database that executes the confirmed records comes to
    the same map. *)

From Stdlib Require Import ZArith Lia.
From stdpp Require Import base option list numbers gmap sets.
From S2P Require Import Prelude StringMap SegRowid LowData Hash Column RowData IndexField Segment Table TableSpec TableIndexSpec Binlog BinlogSpec Slave DbRecord DbRecordSpec Db CatalogSpec DbRecover.

(** ** What tables promise to the database

    [promise ts t]: the table [t] has the content [ts]; [prepared] is in between
    the two calls of an insertion.  [TableLaws.v] proves the laws of [table.c]. *)

Class TableLaws {S : Type} `{!Column S} (env : field_env) (get_hash_value : low_data_struct → Z)
    (config : table_config) (types : list Z → field_types) := {
  promise : table_state → table_manager S → Prop;
  prepared : table_state → table_manager S → Prop;
  calm_table : table_io S → Prop;
  allowed : list Z → table_state → table_op → Prop;       (* with the memory for rows *)
  new_column : table_state → list Z → Prop;               (* an index can be made *)
  law_create io name : calm_table io →
    ∃ t, table_init env io config (TableMeta name 0 0 []) [] (replicate (Z.to_nat (config_segments config)) None)
           = Some (Ptr t) ∧ promise (new_table []) t;
  law_prepare io ts t mem fs : calm_table io → promise ts t → allowed mem ts (TInsert fs) →
    let n := zlen (trows ts) in
    ∃ t', table_prepare_insert env io t 0 0 DOCID_BY_SELF
            = Some (0, n / config_limit config, n `mod` config_limit config, t') ∧ prepared ts t';
  law_prepare_binlog io ts t mem fs : calm_table io → promise ts t → allowed mem ts (TInsert fs) →
    let n := zlen (trows ts) in
    ∃ t', table_prepare_insert env io t (n / config_limit config) (n `mod` config_limit config) DOCID_BY_BINLOG
            = Some (0, n / config_limit config, n `mod` config_limit config, t') ∧ prepared ts t';
  law_insert io ts t fs : calm_table io → prepared ts t → allowed (pool io) ts (TInsert fs) →
    let n := zlen (trows ts) in
    ∃ t', table_insert env get_hash_value io t (n / config_limit config) (n `mod` config_limit config) (Row fs (zlen fs))
            = Some (0, t') ∧ promise (table_spec get_hash_value (config_limit config) types ts (TInsert fs)) t';
  law_update io ts t n new : promise ts t → allowed (pool io) ts (TUpdate n new) →
    ∃ old t', table_update get_hash_value io t (n / config_limit config) (n `mod` config_limit config) new = Some (0, old, t') ∧
      promise (table_spec get_hash_value (config_limit config) types ts (TUpdate n new)) t';
  law_delete io ts t n : promise ts t → allowed (pool io) ts (TDelete n) →
    ∃ t', table_del_docid io t (n / config_limit config) (n `mod` config_limit config) = Some (0, t') ∧
      promise (table_spec get_hash_value (config_limit config) types ts (TDelete n)) t';
  law_compress ts t : promise ts t → ∃ t', table_compress env t = Some (0, t') ∧ promise ts t';
  law_checkpoint ts t : promise ts t → ∃ t', table_checkpoint env t = Some t' ∧ promise ts t';
  law_index io ts t col : promise ts t → new_column ts col →
    ∃ t', table_ensure_index env get_hash_value io t col HI_KEY_ALG_HASH (types col) = Some (0, t') ∧
      promise (add_column ts col) t';
  law_row ts t n fs : promise ts t → (trows ts)⟦n⟧ = Some fs →
    table_data_query_row t (n / config_limit config) (n `mod` config_limit config) = Some (Ptr (Row fs (zlen fs)));
  law_deleted ts t n : promise ts t → 0 ≤ n < zlen (trows ts) →
    table_is_docid_deleted t (n / config_limit config) (n `mod` config_limit config) = Some (if tgone ts n then 1 else 0);
  can_ask : low_data_struct → Prop;                       (* the value has a usable hash *)
  law_hints ts t : promise ts t →
    table_seghint_query t None = Some (Ptr (hints (config_limit config) ts (segs (config_limit config) ts)));
  law_hinted ts t tc : promise ts t →
    table_seghint_query t tc = Some (Ptr (hints_in (config_limit config) ts
      (filter (λ j, hinted t tc j = true) (seqZ 0 (segs (config_limit config) ts)))));
  law_equal_in ts t name v js : promise ts t → name ∈ tcols ts → can_ask v → Forall (λ j, 0 ≤ j < segs (config_limit config) ts) js →
    ∃ l, table_index_equal_query get_hash_value t (hints_in (config_limit config) ts js) (Field name v) = Some (Ptr l) ∧
      sid <$> l = js ∧ Forall (answers get_hash_value (config_limit config) ts name v) l;
  law_access ts t name : promise ts t → check_index t name HI_KEY_ALG_FILTER = Some None
}.

Section laws.
Context {S : Type} `{!Column S} (env : field_env) (get_hash_value : low_data_struct → Z)
    (config : table_config) (types : list Z → field_types).
Context {Laws : TableLaws (S := S) env get_hash_value config types}.

(** All segments are asked. *)
Lemma law_equal ts t name v : promise ts t → name ∈ tcols ts → can_ask v →
  ∃ l, table_index_equal_query get_hash_value t (hints (config_limit config) ts (segs (config_limit config) ts)) (Field name v)
         = Some (Ptr l) ∧
    sid <$> l = seqZ 0 (segs (config_limit config) ts) ∧ Forall (answers get_hash_value (config_limit config) ts name v) l.
Proof.
  intros Ht Hin Hv. apply law_equal_in; [done..|]. apply Forall_forall. intros j Hj%elem_of_seqZ. lia.
Qed.
End laws.

(** ** The specification *)

Inductive db_op :=
| DInsert (table_name : list Z) (fs : list field)
| DUpdate (table_name : list Z) (n : Z) (new : field)
| DDelete (table_name : list Z) (n : Z)
| DIndex (table_name column : list Z)
| DCompress (table_name : list Z)
| DCheckpoint (now : Z).

Section spec.
Context (get_hash_value : low_data_struct → Z) (N : Z) (types : list Z → field_types).
Implicit Types (D : gmap (list Z) table_state).

(** A table that is not there counts as a new one. *)
Definition table_at D (name : list Z) : table_state := default (new_table []) (D !! name).

Definition db_spec D (op : db_op) : gmap (list Z) table_state :=
  let step name op := <[name := table_spec get_hash_value N types (table_at D name) op]> D in
  match op with
  | DInsert name fs => step name (TInsert fs)
  | DUpdate name n new => step name (TUpdate n new)
  | DDelete name n => step name (TDelete n)
  | DIndex name col => <[name := add_column (table_at D name) col]> D
  | DCompress name => D
  | DCheckpoint _ => D
  end.

(** The change that is logged. *)
Definition change_of D (op : db_op) : option change :=
  match op with
  | DInsert name fs => let n := zlen (trows (table_at D name)) in Some (CInsert name (n / N) (n `mod` N) fs)
  | DUpdate name n new => Some (CUpdate name (n / N) (n `mod` N) new)
  | DDelete name n => Some (CDelete name (n / N) (n `mod` N))
  | DIndex name col => Some (CIndex name col (alg_code HI_KEY_ALG_HASH) (type_code (types col)))
  | DCompress name => Some (CCompress name)
  | DCheckpoint _ => None
  end.
End spec.

(** ** Steps of a database *)

Section run.
Context {S : Type} `{!Column S}.
Context (env : field_env) (get_hash_value : low_data_struct → Z) (N : Z) (types : list Z → field_types).
Implicit Types (io : db_io S) (db : db_manager S).

(** A step that does not return success stops the run. *)
Definition db_step io db (op : db_op) : option (db_manager S) :=
  '(rc, db) ←
    match op with
    | DInsert name fs =>
        '(rc, _, _, db) ← db_insert env get_hash_value io db name 0 0 (Row fs (zlen fs)) DOCID_BY_SELF; Some (rc, db)
    | DUpdate name n new => '(rc, _, db) ← db_update get_hash_value io db name (n / N) (n `mod` N) new; Some (rc, db)
    | DDelete name n => db_del_docid io db name (n / N) (n `mod` N)
    | DIndex name col =>
        db_ensure_index env get_hash_value io db name col (alg_code HI_KEY_ALG_HASH) (type_code (types col))
    | DCompress name => db_compress env io db name
    | DCheckpoint now => db ← db_checkpoint env now db; Some (0, db)
    end;
  if rc =? 0 then Some db else None.

Fixpoint db_run db (ops : list (db_io S * db_op)) : option (db_manager S) :=
  match ops with
  | [] => Some db
  | (io, op) :: ops => db ← db_step io db op; db_run db ops
  end.

(** Records that are executed one after the other, each with success. *)
Fixpoint db_execute_all db (ios : nat → db_io S) (blocks : list (list Z)) : option (db_manager S) :=
  match blocks with
  | [] => Some db
  | b :: blocks =>
      '(rc, db) ← db_execute_binrecord env get_hash_value (ios (length blocks)) db b;
      if rc =? MILE_RETURN_SUCCESS then db_execute_all db ios blocks else None
  end.
End run.

(** ** The relation *)

Section holds.
Context {S : Type} `{!Column S}.
Context (env : field_env) (get_hash_value : low_data_struct → Z) (config : table_config) (types : list Z → field_types).
Context {Laws : TableLaws (S := S) env get_hash_value config types}.
Context (conf : db_conf) (Hconf : same_config conf config) (Hsegs : conf_segments conf = config_segments config).
Context (mem : list Z).
Abbreviation N := (config_limit config) (only parsing).
Implicit Types (io : db_io S) (db : db_manager S) (T : gmap (list Z) (table_manager S → Prop)).
Implicit Types (D : gmap (list Z) table_state) (L : list binlog_record).

(** The log holds the records [L]. *)
Definition log_rep db L : Prop :=
  ∃ w chunks, binlog_writer db = Ptr w ∧ concat chunks = L ∧ log_ok chunks ∧ files_rep (log_dir db) chunks ∧
    writer_rep w (log_dir db) chunks.

(** [b]: the database logs its changes. *)
Record holds (b : bool) T L db : Prop := {
  ho_cat : catalog_rep conf T db;
  ho_logging : logging db = b;
  ho_log : b = true → log_rep db L
}.

Lemma rest_logging db db' : same_rest db db' → logging db' = logging db.
Proof. intros H. unfold logging. by rewrite (rest_conf _ _ H), (rest_stat _ _ H). Qed.

Lemma holds_cat b T T' L db db' :
  holds b T L db → catalog_rep conf T' db' → same_rest db db' → holds b T' L db'.
Proof.
  intros [Hc Hl Hlog] Hc' Hr. split; [done|by rewrite (rest_logging _ _ Hr)|]. intros Hb. destruct (Hlog Hb) as (w & chunks & ? & ? & ? & ? & ?).
  destruct Hr. exists w, chunks. split_and!; congruence.
Qed.

Lemma holds_on_table {R} b T L db name P (Q : table_manager S → Prop) (r : R) call :
  holds b T L db → T !! name = Some P → (∀ t, P t → ∃ t', call t = Some (r, t') ∧ Q t') →
  ∃ db', on_table db name call = Some (r, db') ∧ holds b (<[name := Q]> T) L db'.
Proof.
  intros H HP Hcall. destruct (on_table_spec conf T db name P Q r call (ho_cat _ _ _ _ H) HP Hcall) as (db' & -> & Hc & Hr).
  exists db'. split; [done|]. by apply (holds_cat b T _ L db).
Qed.

(** There is a table of the name, or room for one. *)
Definition can_have T (name : list Z) : Prop :=
  zlen name < MAX_TABLE_NAME ∧ (T !! name = None → Z.of_nat (size T) < MAX_TABLE_NUM).

Definition with_new T (name : list Z) : gmap (list Z) (table_manager S → Prop) :=
  match T !! name with Some _ => T | None => <[name := promise (new_table [])]> T end.

Lemma holds_ensure b T L db io name :
  holds b T L db → can_have T name → calm_table (create_io io) →
  ∃ db', ensure_table env io db name = Some db' ∧ holds b (with_new T name) L db'.
Proof.
  intros H [Hn Hroom] Hio. unfold ensure_table, with_new. destruct (T !! name) as [P|] eqn:E.
  - destruct (get_table_some conf T db name P (ho_cat _ _ _ _ H) E) as (t & -> & _). by exists db.
  - rewrite (get_table_none conf T) by (apply H || done). cbn [mbind option_bind].
    destruct (law_create (create_io io) name Hio) as (t & Ht & Hp). rewrite <- Hsegs in Ht.
    destruct (create_table_spec env conf config T db io name (promise (new_table [])) t) as (db' & -> & Hc & Hr); try done;
      [apply H|by apply Hroom|].
    exists db'. split; [done|]. by apply (holds_cat b T _ L db).
Qed.

(** *** The log *)

Definition log_room L : Prop := zlen L + 2 < 2 ^ 31 ∧ size_of L + 2 ^ 32 < 2 ^ 62.

Lemma holds_with_log b T L L' db f w :
  holds b T L db → (b = true → log_rep (with_log db f w) L') → holds b T L' (with_log db f w).
Proof. intros [[] Hl Hlog] H. split; [by split|done|done]. Qed.

Lemma write_record_rep wio db L r :
  log_rep db L → write_goes wio → record_ok (set_time r (u32 (io_time wio))) → room_for L r →
  ∃ f w, write_record wio db r = Some (0, with_log db f w) ∧ log_rep (with_log db f w) (L ++ [set_time r (u32 (io_time wio))]).
Proof.
  intros (w & chunks & Hw & Hc & Hok & Hf & Hwr) Hio Hr [Hn Hs]. rewrite <- Hc in Hn, Hs. unfold write_record. rewrite Hw.
  destruct (binlog_write_record_rep wio (log_dir db) w chunks r Hio Hf Hwr Hok Hr Hn Hs)
    as (f & w' & chunks' & -> & Ha & Hf' & Hw' & Hok' & _).
  cbn [mbind option_bind]. exists f, (Ptr w'). split; [done|]. exists w', chunks'. cbn.
  rewrite (added_concat _ _ _ Ha), Hc. done.
Qed.

(** What one change adds to the log. *)
Definition record_entry (c : change) L L' : Prop := ∃ r, logs c r ∧ L' = L ++ [r].
Definition confirm_entry L L' : Prop := ∃ t, 0 ≤ t < 2 ^ 32 ∧ L' = L ++ [set_time (confirm_record true) t].
Definition entry (b : bool) (c : change) L L' : Prop :=
  if b then ∃ L1, record_entry c L L1 ∧ confirm_entry L1 L' else L' = L.

Lemma packed_ok c time : change_ok mem c → 0 ≤ time < 2 ^ 32 → record_ok (set_time (packed_change c) time).
Proof. intros Hc Ht. apply (ho_ok _ (logs_header mem c _ Hc ltac:(by exists time))). Qed.

Lemma packed_room c L : change_ok mem c → log_room L → room_for L (packed_change c).
Proof.
  intros Hc [Hn Hs]. destruct (packed_ok c 0 Hc ltac:(lia)) as (_ & Hmax & _). cbn in Hmax. split; [lia|].
  change (rec_len (packed_change c)) with (RECORD_SIZE + zlen (change_data c)). lia.
Qed.

Lemma size_entry c r : change_ok mem c → logs c r → 0 < size_of [r] < 2 ^ 31.
Proof.
  intros Hc Hl. destruct (ho_ok _ (logs_header mem c r Hc Hl)) as (Hlen & Hmax & _). rewrite size_of_one.
  pose proof (zlen_nonneg (rec_data r)). unfold RECORD_SIZE in *. lia.
Qed.

Lemma holds_record b T L db wio c :
  holds b T L db → b = true → change_ok mem c → log_room L → write_goes wio →
  ∃ db' L', write_record wio db (packed_change c) = Some (0, db') ∧ holds b T L' db' ∧ record_entry c L L'.
Proof.
  intros H Hb Hc Hroom Hio. pose proof (u32_bounds (io_time wio)).
  destruct (write_record_rep wio db L (packed_change c) (ho_log _ _ _ _ H Hb) Hio) as (f & w & -> & Hl);
    [by apply packed_ok|by apply packed_room|].
  eexists _, _. split; [done|]. split; [by apply (holds_with_log b T L)|].
  eexists. split; [|done]. by eexists.
Qed.

Lemma holds_confirm b T L db wio :
  holds b T L db → b = true → zlen L < 2 ^ 31 → size_of L < 2 ^ 62 → write_goes wio →
  ∃ db' L', write_confirm wio db true = Some (0, db') ∧ holds b T L' db' ∧ confirm_entry L L'.
Proof.
  intros H Hb Hn Hs Hio. pose proof (u32_bounds (io_time wio)).
  destruct (write_record_rep wio db L (confirm_record true) (ho_log _ _ _ _ H Hb) Hio) as (f & w & E & Hl);
    [apply confirm_ok|split; [done|]; change (rec_len (confirm_record true)) with 16; lia|].
  eexists _, _. split; [|split; [by apply (holds_with_log b T L)|]].
  - unfold write_confirm, write_record in *. destruct (binlog_writer db); [done|]. rewrite <- (confirm_writes _ _ _ true) in E. exact E.
  - by eexists.
Qed.

Lemma entry_room c L L1 : change_ok mem c → log_room L → record_entry c L L1 → zlen L1 < 2 ^ 31 ∧ size_of L1 < 2 ^ 62.
Proof.
  intros Hc [Hn Hs] (r & Hl & ->). pose proof (size_entry c r Hc Hl). rewrite zlen_app, size_of_app.
  change (zlen [r]) with 1. lia.
Qed.

Lemma holds_log_before b T L db io c :
  holds b T L db → change_ok mem c → log_room L → write_goes (record_io io) →
  ∃ db' L', log_before io db (change_record mem c) = Some (0, db') ∧ holds b T L' db' ∧
    (if b then record_entry c L L' else L' = L).
Proof.
  intros H Hc Hroom Hio. unfold log_before. rewrite (ho_logging _ _ _ _ H), change_packs by done. destruct b.
  - cbn [mbind option_bind]. destruct (holds_record true T L db (record_io io) c H eq_refl Hc Hroom Hio) as (db' & L' & -> & ? & ?). by exists db', L'.
  - by exists db, L.
Qed.

Lemma holds_confirm_after b T L L1 db io c :
  holds b T L1 db → change_ok mem c → log_room L → (if b then record_entry c L L1 else L1 = L) → write_goes (confirm_io io) →
  ∃ db' L', confirm_after io db 0 = Some (0, db') ∧ holds b T L' db' ∧ entry b c L L'.
Proof.
  intros H Hc Hroom He Hio. unfold confirm_after. rewrite (ho_logging _ _ _ _ H). destruct b.
  - destruct (entry_room c L L1 Hc Hroom He) as [Hn Hs]. change (0 =? 0) with true.
    destruct (holds_confirm true T L1 db (confirm_io io) H eq_refl Hn Hs Hio) as (db' & L' & -> & ? & ?). cbn [mbind option_bind].
    exists db', L'. split; [done|]. split; [done|]. by exists L1.
  - by exists db, L1.
Qed.

Lemma holds_log_after b T L db io c :
  holds b T L db → change_ok mem c → log_room L → write_goes (record_io io) → write_goes (confirm_io io) →
  ∃ db' L', log_after io db 0 (change_record mem c) = Some (0, db') ∧ holds b T L' db' ∧ entry b c L L'.
Proof.
  intros H Hc Hroom Hio Hio'. unfold log_after. rewrite (ho_logging _ _ _ _ H), change_packs by done. destruct b.
  - cbn [mbind option_bind]. destruct (holds_record true T L db (record_io io) c H eq_refl Hc Hroom Hio) as (db1 & L1 & -> & H1 & He).
    cbn [mbind option_bind Z.eqb negb]. destruct (entry_room c L L1 Hc Hroom He) as [Hn Hs].
    destruct (holds_confirm true T L1 db1 (confirm_io io) H1 eq_refl Hn Hs Hio') as (db' & L' & -> & ? & ?). cbn [mbind option_bind].
    exists db', L'. split; [done|]. split; [done|]. by exists L1.
  - by exists db, L.
Qed.

(** *** Changes *)

Record calm_db io : Prop := {
  cd_create : calm_table (create_io io);
  cd_prepare : calm_table (prepare_io io);
  cd_call : calm_table (call_io io);
  cd_mem : pool (call_io io) = mem;
  cd_record : write_goes (record_io io);
  cd_confirm : write_goes (confirm_io io)
}.

Definition promises D : gmap (list Z) (table_manager S → Prop) := promise <$> D.

Definition db_rep (b : bool) D L db : Prop := holds b (promises D) L db.

Definition may_have D (name : list Z) : Prop :=
  zlen name < MAX_TABLE_NAME ∧ (D !! name = None → Z.of_nat (size D) < MAX_TABLE_NUM).

Definition db_op_ok D (op : db_op) : Prop :=
  (∀ c, change_of N types D op = Some c → change_ok mem c) ∧
  match op with
  | DInsert name fs => may_have D name ∧ allowed mem (table_at D name) (TInsert fs)
  | DUpdate name n new => is_Some (D !! name) ∧ allowed mem (table_at D name) (TUpdate n new)
  | DDelete name n => is_Some (D !! name) ∧ allowed mem (table_at D name) (TDelete n)
  | DIndex name col =>
      may_have D name ∧ new_column (table_at D name) col ∧
      type_code HI_TYPE_TINY ≤ type_code (types col) ≤ type_code HI_TYPE_STRING
  | DCompress name => is_Some (D !! name)
  | DCheckpoint _ => True
  end.

Lemma promises_insert D name ts : promises (<[name := ts]> D) = <[name := promise ts]> (promises D).
Proof. apply fmap_insert. Qed.

Lemma may_can D name : may_have D name → can_have (promises D) name.
Proof.
  intros [Hn Hs]. split; [done|]. unfold promises. rewrite lookup_fmap, map_size_fmap. intros E. apply Hs.
  by destruct (D !! name).
Qed.

Lemma new_at D name : with_new (promises D) name !! name = Some (promise (table_at D name)).
Proof.
  unfold with_new, promises, table_at. rewrite lookup_fmap. destruct (D !! name) as [ts|] eqn:E; simpl.
  - by rewrite lookup_fmap, E.
  - by rewrite lookup_insert_eq.
Qed.

Lemma new_insert D name ts : <[name := promise ts]> (with_new (promises D) name) = promises (<[name := ts]> D).
Proof.
  rewrite promises_insert. unfold with_new. destruct (promises D !! name); [done|]. apply insert_insert_eq.
Qed.

Lemma there_at D name : is_Some (D !! name) → promises D !! name = Some (promise (table_at D name)).
Proof. intros [ts E]. unfold promises, table_at. by rewrite lookup_fmap, E. Qed.

Lemma there_instance b D L db name :
  db_rep b D L db → is_Some (D !! name) → ∃ t, db_get_table_instance db name = Some (Some t) ∧ promise (table_at D name) t.
Proof. intros H Hin. apply (get_table_some conf (promises D)); [apply H|by apply there_at]. Qed.

(** Where the document's place comes from. *)
Definition source_ok (n sid docid : Z) (flag : docid_source) : Prop :=
  match flag with
  | DOCID_BY_SELF => sid = 0 ∧ docid = 0
  | DOCID_BY_BINLOG => sid = n / N ∧ docid = n `mod` N
  end.

Lemma insert_holds b D L db io name fs sid docid flag :
  let n := zlen (trows (table_at D name)) in
  db_rep b D L db → calm_db io → db_op_ok D (DInsert name fs) → log_room L → source_ok n sid docid flag →
  ∃ db' L', db_insert env get_hash_value io db name sid docid (Row fs (zlen fs)) flag = Some (0, n / N, n `mod` N, db') ∧
    db_rep b (db_spec get_hash_value N types D (DInsert name fs)) L' db' ∧
    entry b (CInsert name (n / N) (n `mod` N) fs) L L'.
Proof.
  intros n H [] [Hc [Hhave Hall]] Hroom Hsrc. specialize (Hc _ eq_refl). set (ts := table_at D name) in *. unfold db_insert.
  destruct (holds_ensure b _ L db io name H (may_can D name Hhave) cd_create0) as (db1 & -> & H1). cbn [mbind option_bind].
  destruct (holds_on_table b _ L db1 name (promise ts) (prepared ts) (0, n / N, n `mod` N) (λ t,
     '(ret, sid, docid, t) ← table_prepare_insert env (prepare_io io) t sid docid flag; Some ((ret, sid, docid), t)) H1 (new_at D name))
    as (db2 & -> & H2).
  { intros t Ht. destruct flag; destruct Hsrc as [-> ->].
    - destruct (law_prepare_binlog (prepare_io io) ts t mem fs cd_prepare0 Ht Hall) as (t' & E & ?). fold n in E. rewrite E. by exists t'.
    - destruct (law_prepare (prepare_io io) ts t mem fs cd_prepare0 Ht Hall) as (t' & E & ?). fold n in E. rewrite E. by exists t'. }
  cbn [mbind option_bind]. simpl (negb _). cbv iota. rewrite cd_mem0.
  destruct (holds_log_before b _ L db2 io (CInsert name (n / N) (n `mod` N) fs) H2 Hc Hroom cd_record0) as (db3 & L1 & E3 & H3 & He).
  cbn [change_record] in E3. rewrite E3. cbn [mbind option_bind]. simpl (negb _). cbv iota.
  destruct (holds_on_table b _ L1 db3 name (prepared ts) (promise (table_spec get_hash_value N types ts (TInsert fs))) 0
    (λ t, table_insert env get_hash_value (call_io io) t (n / N) (n `mod` N) (Row fs (zlen fs))) H3) as (db4 & -> & H4).
  { apply lookup_insert_eq. }
  { intros t Ht. apply law_insert; [done|done|by rewrite cd_mem0]. }
  cbn [mbind option_bind].
  destruct (holds_confirm_after b _ L L1 db4 io (CInsert name (n / N) (n `mod` N) fs) H4 Hc Hroom He cd_confirm0) as (db5 & L' & -> & H5 & He').
  cbn [mbind option_bind]. exists db5, L'. split; [done|]. split; [|done]. unfold db_rep, db_spec.
  by rewrite insert_insert_eq, new_insert in H5.
Qed.

Lemma update_holds b D L db io name n new :
  db_rep b D L db → calm_db io → db_op_ok D (DUpdate name n new) → log_room L →
  ∃ old db' L', db_update get_hash_value io db name (n / N) (n `mod` N) new = Some (0, old, db') ∧
    db_rep b (db_spec get_hash_value N types D (DUpdate name n new)) L' db' ∧
    entry b (CUpdate name (n / N) (n `mod` N) new) L L'.
Proof.
  intros H [] [Hc [Hin Hall]] Hroom. specialize (Hc _ eq_refl). unfold db_update.
  destruct (there_instance b D L db name H Hin) as (t & -> & _). cbn [mbind option_bind].
  destruct (holds_log_before b _ L db io (CUpdate name (n / N) (n `mod` N) new) H Hc Hroom cd_record0) as (db1 & L1 & E1 & H1 & He).
  cbn [change_record] in E1. rewrite E1. cbn [mbind option_bind]. simpl (negb _). cbv iota.
  (* the old value is that of the table that is there *)
  destruct (get_table_some conf _ db1 name _ (ho_cat _ _ _ _ H1) (there_at D name Hin)) as (t1 & Hg & Ht1).
  destruct (law_update (call_io io) _ t1 n new Ht1) as (old & t2 & Hu & Ht2); [by rewrite cd_mem0|].
  destruct (set_table_spec conf _ db1 name _ (promise (table_spec get_hash_value N types (table_at D name) (TUpdate n new))) t2
    (ho_cat _ _ _ _ H1) (there_at D name Hin) Ht2) as (db2 & Hset & Hcat & Hrest).
  unfold on_table. rewrite Hg. cbn [mbind option_bind]. rewrite Hu. cbn [mbind option_bind]. rewrite Hset. cbn [mbind option_bind fst snd].
  pose proof (holds_cat b _ _ L1 db1 db2 H1 Hcat Hrest) as H2.
  destruct (holds_confirm_after b _ L L1 db2 io (CUpdate name (n / N) (n `mod` N) new) H2 Hc Hroom He cd_confirm0) as (db3 & L' & -> & H3 & He').
  cbn [mbind option_bind]. exists old, db3, L'. split; [done|]. split; [|done]. unfold db_rep, db_spec. by rewrite promises_insert.
Qed.

Lemma delete_holds b D L db io name n :
  db_rep b D L db → calm_db io → db_op_ok D (DDelete name n) → log_room L →
  ∃ db' L', db_del_docid io db name (n / N) (n `mod` N) = Some (0, db') ∧
    db_rep b (db_spec get_hash_value N types D (DDelete name n)) L' db' ∧
    entry b (CDelete name (n / N) (n `mod` N)) L L'.
Proof.
  intros H [] [Hc [Hin Hall]] Hroom. specialize (Hc _ eq_refl). unfold db_del_docid.
  destruct (there_instance b D L db name H Hin) as (t & -> & _). cbn [mbind option_bind].
  destruct (holds_log_before b _ L db io (CDelete name (n / N) (n `mod` N)) H Hc Hroom cd_record0) as (db1 & L1 & E1 & H1 & He).
  cbn [change_record] in E1. rewrite E1. cbn [mbind option_bind]. simpl (negb _). cbv iota.
  destruct (holds_on_table b _ L1 db1 name _ (promise (table_spec get_hash_value N types (table_at D name) (TDelete n))) 0
    (λ t, table_del_docid (call_io io) t (n / N) (n `mod` N)) H1 (there_at D name Hin)) as (db2 & -> & H2).
  { intros t' Ht. apply law_delete; [done|by rewrite cd_mem0]. }
  cbn [mbind option_bind].
  destruct (holds_confirm_after b _ L L1 db2 io (CDelete name (n / N) (n `mod` N)) H2 Hc Hroom He cd_confirm0) as (db3 & L' & -> & H3 & He').
  exists db3, L'. split; [done|]. split; [|done]. unfold db_rep, db_spec. by rewrite promises_insert.
Qed.

Lemma index_holds b D L db io name col :
  db_rep b D L db → calm_db io → db_op_ok D (DIndex name col) → log_room L →
  ∃ db' L', db_ensure_index env get_hash_value io db name col (alg_code HI_KEY_ALG_HASH) (type_code (types col)) = Some (0, db') ∧
    db_rep b (db_spec get_hash_value N types D (DIndex name col)) L' db' ∧
    entry b (CIndex name col (alg_code HI_KEY_ALG_HASH) (type_code (types col))) L L'.
Proof.
  intros H [] [Hc (Hhave & Hnew & Hlo & Hhi)] Hroom. specialize (Hc _ eq_refl). unfold db_ensure_index.
  change ((alg_code HI_KEY_ALG_HASH <? alg_code HI_KEY_ALG_HASH) || (alg_code HI_KEY_ALG_HASH >? alg_code HI_KEY_ALG_FULLTEXT)) with false.
  cbv iota. rewrite (proj2 (Z.ltb_ge _ _)), Z.gtb_ltb, (proj2 (Z.ltb_ge _ _)) by done. cbn [orb].
  destruct (holds_ensure b _ L db io name H (may_can D name Hhave) cd_create0) as (db1 & -> & H1). cbn [mbind option_bind].
  change (alg_of_code (alg_code HI_KEY_ALG_HASH)) with (Some HI_KEY_ALG_HASH). cbn [mbind option_bind]. rewrite type_of_type_code.
  cbn [mbind option_bind]. unfold with_task_lock. rewrite (cr_free _ _ _ (ho_cat _ _ _ _ H1)).
  destruct (holds_on_table b _ L db1 name _ (promise (add_column (table_at D name) col)) 0
    (λ t, table_ensure_index env get_hash_value (call_io io) t col HI_KEY_ALG_HASH (types col)) H1 (new_at D name)) as (db2 & -> & H2).
  { intros t Ht. by apply law_index. }
  cbn [mbind option_bind].
  destruct (holds_log_after b _ L db2 io (CIndex name col (alg_code HI_KEY_ALG_HASH) (type_code (types col))) H2 Hc Hroom cd_record0 cd_confirm0)
    as (db3 & L' & E3 & H3 & He).
  cbn [change_record] in E3. rewrite E3. exists db3, L'. split; [done|]. split; [|done]. unfold db_rep, db_spec. by rewrite new_insert in H3.
Qed.

Lemma compress_holds b D L db io name :
  db_rep b D L db → calm_db io → db_op_ok D (DCompress name) → log_room L →
  ∃ db' L', db_compress env io db name = Some (0, db') ∧ db_rep b D L' db' ∧ entry b (CCompress name) L L'.
Proof.
  intros H [] [Hc Hin] Hroom. specialize (Hc _ eq_refl). unfold db_compress.
  destruct (there_instance b D L db name H Hin) as (t & -> & _). cbn [mbind option_bind].
  unfold with_task_lock. rewrite (cr_free _ _ _ (ho_cat _ _ _ _ H)).
  destruct (holds_on_table b _ L db name _ (promise (table_at D name)) 0 (table_compress env) H (there_at D name Hin)) as (db2 & -> & H2).
  { intros t' Ht. by apply law_compress. }
  cbn [mbind option_bind].
  destruct (holds_log_after b _ L db2 io (CCompress name) H2 Hc Hroom cd_record0 cd_confirm0) as (db3 & L' & E3 & H3 & He).
  cbn [change_record] in E3. rewrite E3. exists db3, L'. split; [done|]. split; [|done]. unfold db_rep.
  by rewrite insert_id in H3 by by apply there_at.
Qed.

(** *** Executing a record *)

(** [D] with the table that a lock makes. *)
Definition ensured D (name : list Z) : gmap (list Z) table_state := <[name := table_at D name]> D.

Lemma ensured_at D name : table_at (ensured D name) name = table_at D name.
Proof. unfold ensured, table_at at 1. by rewrite lookup_insert_eq. Qed.

Lemma ensure_same b D L db io name : db_rep b D L db → is_Some (D !! name) → ensure_table env io db name = Some db.
Proof. intros H Hin. destruct (there_instance b D L db name H Hin) as (t & E & _). unfold ensure_table. by rewrite E. Qed.

Lemma ensure_db b D L db io name :
  db_rep b D L db → may_have D name → calm_table (create_io io) →
  ∃ db', ensure_table env io db name = Some db' ∧ db_rep b (ensured D name) L db'.
Proof.
  intros H Hhave Hio. destruct (holds_ensure b _ L db io name H (may_can D name Hhave) Hio) as (db' & -> & H').
  exists db'. split; [done|]. unfold db_rep, ensured. rewrite <- new_insert, (insert_id _ _ _ (new_at D name)). done.
Qed.

(** The call keeps the table. *)
Lemma locked_call {R} b D D' L L' db db' io name (r : R) call :
  db_rep b D L db → is_Some (D !! name) → call db = Some (r, db') → db_rep b D' L' db' → is_Some (D' !! name) →
  on_locked_table env io db name call = Some (r, db').
Proof.
  intros H Hin Hcall H' Hin'. unfold on_locked_table, db_readlock_table, db_unreadlock_table.
  rewrite (ensure_same b D L) by done. cbn [mbind option_bind]. rewrite Hcall. cbn [mbind option_bind].
  by rewrite (ensure_same b D' L').
Qed.

Lemma insert_ok_ensured D name fs : db_op_ok D (DInsert name fs) → db_op_ok (ensured D name) (DInsert name fs).
Proof.
  unfold db_op_ok, change_of, may_have. rewrite ensured_at. intros (Hc & (Hn & _) & Ha). split; [done|]. split; [|done]. split; [done|].
  unfold ensured. by rewrite lookup_insert_eq.
Qed.

Lemma execute_insert b D L db io name fs r :
  let n := zlen (trows (table_at D name)) in
  db_rep b D L db → calm_db io → db_op_ok D (DInsert name fs) → log_room L → logs (CInsert name (n / N) (n `mod` N) fs) r →
  ∃ db' L', db_execute_binrecord env get_hash_value io db (record_bytes r) = Some (0, db') ∧
    db_rep b (db_spec get_hash_value N types D (DInsert name fs)) L' db' ∧ entry b (CInsert name (n / N) (n `mod` N) fs) L L'.
Proof.
  intros n H Hio Hok Hroom Hl. pose proof (proj1 Hok _ eq_refl) as Hc. fold n in Hc. pose proof (proj2 Hok) as [Hhave _].
  destruct (logs_header mem _ r Hc Hl) as []. unfold db_execute_binrecord. rewrite record_of_record_bytes by done. cbn [mbind option_bind].
  destruct Hl as (time & -> & Ht). set (c := CInsert name (n / N) (n `mod` N) fs) in *.
  change (rec_op_code (set_time (packed_change c) time)) with OPERATION_INSERT. simpl (OPERATION_INSERT =? _). cbv iota.
  rewrite (unpack_insert mem name (n / N) (n `mod` N) fs) by done. cbn [mbind option_bind].
  change (rec_sid (set_time (packed_change c) time)) with (n / N). change (rec_docid (set_time (packed_change c) time)) with (n `mod` N).
  unfold on_locked_table, db_readlock_table, db_unreadlock_table.
  destruct (ensure_db b D L db io name H Hhave (cd_create _ Hio)) as (db1 & -> & H1). cbn [mbind option_bind].
  pose proof (insert_holds b (ensured D name) L db1 io name fs (n / N) (n `mod` N) DOCID_BY_BINLOG H1 Hio (insert_ok_ensured _ _ _ Hok) Hroom) as Hi.
  rewrite ensured_at in Hi. fold n in Hi. destruct Hi as (db' & L' & -> & H' & He); [done|]. cbn [mbind option_bind].
  assert (db_spec get_hash_value N types (ensured D name) (DInsert name fs) = db_spec get_hash_value N types D (DInsert name fs)) as Espec.
  { cbn [db_spec]. rewrite ensured_at. apply insert_insert_eq. }
  rewrite Espec in H'. rewrite (ensure_same b _ L' db' io name H').
  - by exists db', L'.
  - cbn [db_spec]. by rewrite lookup_insert_eq.
Qed.

(** What comes after the header of a record is read. *)
Lemma execute_header c r : change_ok mem c → logs c r →
  ∃ time, r = set_time (packed_change c) time ∧ record_of_bytes (record_bytes r) = Some r.
Proof.
  intros Hc Hl. destruct (logs_header mem c r Hc Hl) as []. destruct Hl as (time & -> & Ht). exists time. split; [done|].
  by apply record_of_record_bytes.
Qed.

Lemma execute_update b D L db io name n new r :
  db_rep b D L db → calm_db io → db_op_ok D (DUpdate name n new) → log_room L → logs (CUpdate name (n / N) (n `mod` N) new) r →
  ∃ db' L', db_execute_binrecord env get_hash_value io db (record_bytes r) = Some (0, db') ∧
    db_rep b (db_spec get_hash_value N types D (DUpdate name n new)) L' db' ∧ entry b (CUpdate name (n / N) (n `mod` N) new) L L'.
Proof.
  intros H Hio Hok Hroom Hl. pose proof (proj1 Hok _ eq_refl) as Hc. pose proof (proj2 Hok) as [Hin _].
  destruct (execute_header _ r Hc Hl) as (time & -> & E). unfold db_execute_binrecord. rewrite E. cbn [mbind option_bind].
  set (c := CUpdate name (n / N) (n `mod` N) new) in *.
  change (rec_op_code (set_time (packed_change c) time)) with OPERATION_UPDATE. simpl (OPERATION_UPDATE =? _). cbv iota.
  rewrite (unpack_update mem name (n / N) (n `mod` N) new) by done. cbn [mbind option_bind].
  change (rec_sid (set_time (packed_change c) time)) with (n / N). change (rec_docid (set_time (packed_change c) time)) with (n `mod` N).
  destruct (update_holds b D L db io name n new H Hio Hok Hroom) as (old & db' & L' & Eu & H' & He). exists db', L'. split; [|done].
  eapply (locked_call b D _ L L'); [done|done| |exact H'|].
  - by rewrite Eu.
  - cbn [db_spec]. by rewrite lookup_insert_eq.
Qed.

Lemma execute_delete b D L db io name n r :
  db_rep b D L db → calm_db io → db_op_ok D (DDelete name n) → log_room L → logs (CDelete name (n / N) (n `mod` N)) r →
  ∃ db' L', db_execute_binrecord env get_hash_value io db (record_bytes r) = Some (0, db') ∧
    db_rep b (db_spec get_hash_value N types D (DDelete name n)) L' db' ∧ entry b (CDelete name (n / N) (n `mod` N)) L L'.
Proof.
  intros H Hio Hok Hroom Hl. pose proof (proj1 Hok _ eq_refl) as Hc. pose proof (proj2 Hok) as [Hin _].
  destruct (execute_header _ r Hc Hl) as (time & -> & E). unfold db_execute_binrecord. rewrite E. cbn [mbind option_bind].
  set (c := CDelete name (n / N) (n `mod` N)) in *.
  change (rec_op_code (set_time (packed_change c) time)) with OPERATION_DELETE. simpl (OPERATION_DELETE =? _). cbv iota.
  unfold db_binrecord_to_delete. change (rec_data (set_time (packed_change c) time)) with (string_bytes name).
  rewrite get_only by apply Hc. cbn [fmap option_fmap option_map mbind option_bind fst].
  change (rec_sid (set_time (packed_change c) time)) with (n / N). change (rec_docid (set_time (packed_change c) time)) with (n `mod` N).
  destruct (delete_holds b D L db io name n H Hio Hok Hroom) as (db' & L' & Eu & H' & He). exists db', L'. split; [|done].
  eapply (locked_call b D _ L L'); [done|done|exact Eu|exact H'|]. cbn [db_spec]. by rewrite lookup_insert_eq.
Qed.

Lemma execute_index b D L db io name col r :
  let c := CIndex name col (alg_code HI_KEY_ALG_HASH) (type_code (types col)) in
  db_rep b D L db → calm_db io → db_op_ok D (DIndex name col) → log_room L → logs c r →
  ∃ db' L', db_execute_binrecord env get_hash_value io db (record_bytes r) = Some (0, db') ∧
    db_rep b (db_spec get_hash_value N types D (DIndex name col)) L' db' ∧ entry b c L L'.
Proof.
  intros c H Hio Hok Hroom Hl. pose proof (proj1 Hok _ eq_refl) as Hc. fold c in Hc.
  destruct (execute_header _ r Hc Hl) as (time & -> & E). unfold db_execute_binrecord. rewrite E. cbn [mbind option_bind].
  change (rec_op_code (set_time (packed_change c) time)) with OPERATION_INDEX. simpl (OPERATION_INDEX =? _). cbv iota.
  rewrite (unpack_index mem name col (alg_code HI_KEY_ALG_HASH) (type_code (types col))) by done. cbn [mbind option_bind].
  by apply index_holds.
Qed.

Lemma execute_compress b D L db io name r :
  db_rep b D L db → calm_db io → db_op_ok D (DCompress name) → log_room L → logs (CCompress name) r →
  ∃ db' L', db_execute_binrecord env get_hash_value io db (record_bytes r) = Some (0, db') ∧
    db_rep b D L' db' ∧ entry b (CCompress name) L L'.
Proof.
  intros H Hio Hok Hroom Hl. pose proof (proj1 Hok _ eq_refl) as Hc.
  destruct (execute_header _ r Hc Hl) as (time & -> & E). unfold db_execute_binrecord. rewrite E. cbn [mbind option_bind].
  change (rec_op_code (set_time (packed_change (CCompress name)) time)) with OPERATION_COMPRESS. simpl (OPERATION_COMPRESS =? _). cbv iota.
  unfold db_binrecord_to_compress. change (rec_data (set_time (packed_change (CCompress name)) time)) with (string_bytes name).
  rewrite get_only by done. cbn [fmap option_fmap option_map mbind option_bind fst]. by apply compress_holds.
Qed.

(** Executing the record of an operation does what the operation did. *)
Lemma execute_op b D L db io op c r :
  db_rep b D L db → calm_db io → db_op_ok D op → log_room L → change_of N types D op = Some c → logs c r →
  ∃ db' L', db_execute_binrecord env get_hash_value io db (record_bytes r) = Some (0, db') ∧
    db_rep b (db_spec get_hash_value N types D op) L' db' ∧ entry b c L L'.
Proof.
  intros H Hio Hok Hroom Hc Hl. destruct op as [name fs|name n new|name n|name col|name|now]; cbn [change_of] in Hc; try done;
    injection Hc as <-.
  - by apply execute_insert.
  - by apply execute_update.
  - by apply execute_delete.
  - by apply execute_index.
  - by apply execute_compress.
Qed.

Lemma checkpoint_holds b D L db now :
  db_rep b D L db → ∃ db', db_checkpoint env now db = Some db' ∧ db_rep b D L db'.
Proof.
  intros [Hc Hl Hlog]. destruct (checkpoint_spec env conf (promises D) db now Hc) as (db' & c & -> & Hc' & ->).
  - intros name P t HP Ht. unfold promises in HP. rewrite lookup_fmap in HP. destruct (D !! name) as [ts|]; [|done]. injection HP as <-.
    destruct (law_checkpoint ts t Ht) as (t' & ? & ?). by exists t'.
  - eexists. split; [done|]. by split.
Qed.

(** A step of the database; [L'] is the log after it. *)
Definition op_entry (b : bool) D (op : db_op) L L' : Prop :=
  match change_of N types D op with Some c => entry b c L L' | None => L' = L end.

Lemma step_holds b D L db io op :
  db_rep b D L db → calm_db io → db_op_ok D op → log_room L →
  ∃ db' L', db_step env get_hash_value N types io db op = Some db' ∧
    db_rep b (db_spec get_hash_value N types D op) L' db' ∧ op_entry b D op L L'.
Proof.
  intros H Hio Hok Hroom. unfold db_step, op_entry. destruct op as [name fs|name n new|name n|name col|name|now]; cbn [change_of].
  - destruct (insert_holds b D L db io name fs 0 0 DOCID_BY_SELF H Hio Hok Hroom) as (db' & L' & -> & ? & ?); [done|]. by exists db', L'.
  - destruct (update_holds b D L db io name n new H Hio Hok Hroom) as (old & db' & L' & -> & ? & ?). by exists db', L'.
  - destruct (delete_holds b D L db io name n H Hio Hok Hroom) as (db' & L' & -> & ? & ?). by exists db', L'.
  - destruct (index_holds b D L db io name col H Hio Hok Hroom) as (db' & L' & -> & ? & ?). by exists db', L'.
  - destruct (compress_holds b D L db io name H Hio Hok Hroom) as (db' & L' & -> & ? & ?). by exists db', L'.
  - destruct (checkpoint_holds b D L db now H) as (db' & -> & ?). by exists db', L.
Qed.
End holds.
