(* ===== verification/DbReplica.v ===== *)
(** * A database and its replica

    Runs of the database, the log they leave, and another database that executes
    the confirmed records of that log. *)

From Stdlib Require Import ZArith Lia.
From stdpp Require Import base option list numbers gmap sets.
From S2P Require Import Prelude StringMap SegRowid LowData Hash Column RowData IndexField Segment Table TableSpec Binlog BinlogSpec BinlogSync Slave SlaveSpec DbRecord DbRecordSpec Db DbRecover CatalogSpec DbSpec.

Section replica.
Context {S : Type} `{!Column S}.
Context (env : field_env) (get_hash_value : low_data_struct → Z) (config : table_config) (types : list Z → field_types).
Context {Laws : TableLaws (S := S) env get_hash_value config types}.
Context (conf : db_conf) (Hconf : same_config conf config) (Hsegs : conf_segments conf = config_segments config).
Context (mem : list Z).
Abbreviation N := (config_limit config) (only parsing).
Implicit Types (io : db_io S) (db : db_manager S) (D : gmap (list Z) table_state) (L : list binlog_record).

Abbreviation spec_of := (db_spec get_hash_value N types) (only parsing).
Abbreviation rep := (db_rep env get_hash_value config types conf) (only parsing).
Abbreviation op_ok := (db_op_ok env get_hash_value config types mem) (only parsing).
Abbreviation io_ok := (calm_db env get_hash_value config types mem) (only parsing).

(** ** Sequences of operations *)

Fixpoint db_ops_ok D (ops : list (db_io S * db_op)) : Prop :=
  match ops with
  | [] => True
  | (io, op) :: ops => io_ok io ∧ op_ok D op ∧ db_ops_ok (spec_of D op) ops
  end.

Definition db_specs D (ops : list (db_io S * db_op)) : gmap (list Z) table_state :=
  foldl (λ D op, spec_of D op.2) D ops.

(** The changes of the operations, in order. *)
Fixpoint changes D (ops : list (db_io S * db_op)) : list change :=
  match ops with
  | [] => []
  | (_, op) :: ops => option_list (change_of N types D op) ++ changes (spec_of D op) ops
  end.

(** Every change is followed by its confirmation. *)
Fixpoint confirmed (cs : list change) L : Prop :=
  match cs with
  | [] => L = []
  | c :: cs => ∃ r t L', logs c r ∧ 0 ≤ t < 2 ^ 32 ∧ L = r :: set_time (confirm_record true) t :: L' ∧ confirmed cs L'
  end.

(** Room for [n] more changes. *)
Definition room_of_log L (n : Z) : Prop := zlen L + 2 * n + 2 < 2 ^ 31 ∧ size_of L + 2 ^ 32 * (n + 1) < 2 ^ 62.

Lemma entry_rooms c L L1 n :
  change_ok mem c → room_of_log L (n + 1) → (∃ L0, record_entry c L L0 ∧ confirm_entry L0 L1) → room_of_log L1 n.
Proof.
  intros Hc [Hn Hs] (L0 & (r & Hl & ->) & t & Ht & ->). pose proof (size_entry mem c r Hc Hl).
  assert (size_of [set_time (confirm_record true) t] = 16) as Ec by by rewrite size_of_one.
  unfold room_of_log. rewrite !zlen_app, !size_of_app, Ec. change (zlen [_]) with 1. lia.
Qed.

Lemma run_holds b D L db ops :
  rep b D L db → db_ops_ok D ops → room_of_log L (zlen ops) →
  ∃ db' E, db_run env get_hash_value N types db ops = Some db' ∧ rep b (db_specs D ops) (L ++ E) db' ∧
    (if b then confirmed (changes D ops) E else E = []) ∧
    ∀ k, 0 ≤ k → room_of_log L (zlen ops + k) → room_of_log (L ++ E) k.
Proof.
  revert D L db. induction ops as [|[io op] ops IH]; intros D L db H Hok Hroom.
  { exists db, []. cbn. rewrite app_nil_r. split; [done|]. split; [done|]. split; [by destruct b|]. done. }
  destruct Hok as (Hio & Hop & Hok). rewrite zlen_cons in Hroom. pose proof (zlen_nonneg ops).
  destruct (step_holds env get_hash_value config types conf Hconf Hsegs mem b D L db io op H Hio Hop) as (db1 & L1 & E1 & H1 & He).
  { destruct Hroom. split; lia. }
  cbn [db_run]. rewrite E1. cbn [mbind option_bind]. unfold op_entry in He.
  assert (∀ k, 0 ≤ k → room_of_log L (1 + zlen ops + k) → room_of_log L1 (zlen ops + k)) as Hroom1.
  { intros k Hk Hr. destruct (change_of N types D op) as [c|] eqn:Ec; [destruct b|]; cbn [entry] in He.
    - apply (entry_rooms c L L1); [by apply (proj1 Hop)|by replace (zlen ops + k + 1) with (1 + zlen ops + k) by lia|done].
    - subst. destruct Hr. split; lia.
    - subst. destruct Hr. split; lia. }
  destruct (IH _ _ _ H1 Hok) as (db' & E & -> & H' & HE & Hk).
  { rewrite <- (Z.add_0_r (zlen ops)). apply Hroom1; [lia|]. by rewrite Z.add_0_r. }
  cbn [changes]. destruct (change_of N types D op) as [c|]; [destruct b|]; cbn [entry option_list app] in *.
  - destruct He as (L0 & (r & Hl & ->) & t & Ht & ->). exists db', (r :: set_time (confirm_record true) t :: E).
    split; [done|]. rewrite <- !app_assoc in H'. split; [done|]. split; [by exists r, t, E|].
    intros k Hk0 Hr. rewrite zlen_cons in Hr. specialize (Hk k Hk0 (Hroom1 k Hk0 Hr)). by rewrite <- !app_assoc in Hk.
  - subst. exists db', []. split_and!; try done. intros k Hk0 Hr. rewrite zlen_cons in Hr. by apply Hk; [|apply Hroom1].
  - subst. exists db', E. split_and!; try done. intros k Hk0 Hr. rewrite zlen_cons in Hr. by apply Hk; [|apply Hroom1].
Qed.

(** ** Replay *)

Lemma logs_not_confirm c r : logs c r → is_confirm r = false.
Proof. intros (t & -> & _). by destruct c. Qed.

Lemma replay_confirmed cs L :
  confirmed cs L → snd (replay None L) = None ∧ Forall2 logs cs (fst (replay None L)).
Proof.
  revert L. induction cs as [|c cs IH]; intros L; cbn [confirmed]; [by intros ->|].
  intros (r & t & L' & Hl & Ht & -> & HL). destruct (IH L' HL) as [Hn Hf].
  cbn [replay]. rewrite (logs_not_confirm c r Hl). change (is_confirm (set_time (confirm_record true) t)) with true. cbv iota.
  destruct (replay None L') as [l p]. cbn [fst snd] in *. split; [done|]. change (rec_op_code _ =? OPERATION_CONFIRM_OK) with true.
  cbn. by constructor.
Qed.

(** A replica executes the records of the operations [ops] of another database. *)
Lemma execute_holds b D L db ops rs (ios : nat → db_io S) :
  rep b D L db → db_ops_ok D ops → room_of_log L (zlen ops) → (∀ i, io_ok (ios i)) → Forall2 logs (changes D ops) rs →
  ∃ db' L', db_execute_all env get_hash_value db ios (record_bytes <$> rs) = Some db' ∧ rep b (db_specs D ops) L' db'.
Proof.
  intros H Hok Hroom Hios. revert D L db rs H Hok Hroom. induction ops as [|[io op] ops IH]; intros D L db rs H Hok Hroom Hrs.
  { inversion Hrs; subst. by exists db, L. }
  destruct Hok as (Hio & Hop & Hok). rewrite zlen_cons in Hroom. pose proof (zlen_nonneg ops). cbn [changes] in Hrs.
  destruct (change_of N types D op) as [c|] eqn:Ec; cbn [option_list app] in Hrs.
  - inversion Hrs as [|? r ? rs' Hl Hrs' E1 E2]; subst. rewrite fmap_cons. cbn [db_execute_all].
    destruct (execute_op env get_hash_value config types conf Hconf Hsegs mem b D L db (ios (length (record_bytes <$> rs'))) op c r H)
      as (db1 & L1 & -> & H1 & He); try done; [destruct Hroom; split; lia|].
    cbn [mbind option_bind]. simpl (0 =? _). cbv iota. apply (IH _ L1); try done.
    destruct b; cbn [entry] in He.
    + apply (entry_rooms c L L1); [by apply (proj1 Hop)|by rewrite Z.add_comm|done].
    + subst. destruct Hroom. split; lia.
  - assert (spec_of D op = D) as Espec by (by destruct op).
    change (db_specs D ((io, op) :: ops)) with (db_specs (spec_of D op) ops). rewrite Espec in *.
    apply (IH D L); try done. destruct Hroom. split; lia.
Qed.
End replica.
