(* ===== verification/DbStartSpec.v ===== *)
(** * Starting on an empty directory

    [db_init] on directories without files: no table, an empty log. *)

From Stdlib Require Import ZArith Lia.
From stdpp Require Import base option list numbers gmap sets.
From S2P Require Import Prelude StringMap SegRowid LowData HashIndex HashIndexSpec HashMemCompress Hash Column RowData IndexField IndexFieldSpec Segment SegmentSpec Table TableSpec TableIndexSpec Binlog BinlogSpec Slave DbRecord Db DbRecover CatalogSpec DbSpec.

(** ** The tables keep their promises to the database

    The laws of [TableLaws] for [table.c], from the theorems of [TableSpec]. *)

Section instance.
Context {S : Type} `{!Column S, !ColumnLaws S}.
Context (get_hash_value : low_data_struct → Z) (nh : Z) `{!HashLaws get_hash_value nh}.
Context (shared : bool) (junk : Z) (qsort : (Z → Z → Z) → list Z → list Z) `{!QsortLaws qsort}.
Context (N : Z) (HN : 0 < N) (Hmax : 16 * (N + 1) < 2 ^ 31).
Context (M : Z) (HM : 0 < M) (HM33 : M * 33 < 2 ^ 31).
Context (types : list Z → field_types) (fits : Z → Prop) (B0 : Z).
Context (config : table_config) (Hcd : 0 < zlen (config_dirs config)) (Hcs : config_segments config = M)
  (Hcl : config_limit config = N) (Hcr : config_raw config = true).

Abbreviation trep := (table_rep nh N M types fits B0) (only parsing).

(** No segment is in use before the first document. *)
Definition column_fits (ts : table_state) (col : list Z) : Prop :=
  trows ts = [] ∧ col ∉ tcols ts ∧ zlen col < MAX_FIELD_NAME ∧ zlen (tcols ts) < MAX_INDEX_FIELD_NUM.

Lemma segs_empty ts : trows ts = [] → segs N ts = 0.
Proof. intros E. unfold segs. rewrite E. change (zlen []) with 0. apply Z.div_small. lia. Qed.

#[global] Program Instance table_laws : TableLaws (S := S) (calm shared junk qsort) get_hash_value config types := {
  promise ts t := trep ts (segs N ts) t;
  prepared ts t := ∃ k, trep ts k t ∧ zlen (trows ts) / N = k - 1;
  calm_table := calm_io N fits B0;
  allowed mem ts op := table_op_ok get_hash_value nh N types M mem fits B0 ts op;
  new_column := column_fits;
  can_ask v := key_of get_hash_value v ≠ Some nh
}.
Next Obligation.
  intros io name Hio. rewrite Hcs.
  destruct (create_table nh shared junk qsort N M HM HM33 types fits B0 io config [] name Hio Hcd Hcs Hcl Hcr) as (t & E & Ht);
    [constructor|constructor|done|].
  exists t. split; [exact E|]. by rewrite segs_empty.
Qed.
Next Obligation.
  intros io ts t mem fs Hio Ht (Hn & _). rewrite Hcl. cbv zeta.
  destruct (prepare_table nh shared junk qsort N HN Hmax M HM HM33 types fits B0 ts _ t io Ht Hio Hn) as (k & t' & -> & ? & ?).
  exists t'. split; [done|]. by exists k.
Qed.
Next Obligation.
  intros io ts t mem fs Hio Ht (Hn & _). rewrite Hcl. cbv zeta.
  destruct (prepare_binlog nh shared junk qsort N HN Hmax M HM HM33 types fits B0 ts _ t io Ht Hio Hn) as (k & t' & -> & ? & ?).
  exists t'. split; [done|]. by exists k.
Qed.
Next Obligation.
  intros io ts t fs Hio (k & Ht & Hk) (_ & Hins & Hhash). rewrite Hcl. cbv zeta.
  destruct (insert_table get_hash_value nh shared junk qsort N HN Hmax M HM HM33 types fits B0 ts k t io fs Ht Hio Hk Hins Hhash) as (t' & -> & Ht').
  exists t'. split; [done|]. rewrite (segs_insert get_hash_value N HN types). by replace (zlen (trows ts) / N + 1) with k by lia.
Qed.
Next Obligation.
  intros io ts t n new Ht Hok. rewrite Hcl.
  destruct (update_table get_hash_value nh shared junk qsort N HN Hmax M HM HM33 types fits B0 io ts _ t n new Ht Hok) as (old & t' & -> & Ht').
  exists old, t'. split; [done|]. replace (segs N (table_spec get_hash_value N types ts (TUpdate n new))) with (segs N ts); [done|].
  unfold segs. cbn [table_spec trows]. by rewrite zlen_insert.
Qed.
Next Obligation.
  intros io ts t n Ht Hok. rewrite Hcl.
  destruct (delete_table get_hash_value nh shared junk qsort N HN Hmax M HM HM33 types fits B0 io ts _ t n Ht Hok) as (t' & -> & Ht').
  by exists t'.
Qed.
Next Obligation.
  intros ts t Ht. destruct (compress_table get_hash_value nh shared junk qsort N HN Hmax M HM HM33 types fits B0 ts _ t Ht) as (t' & -> & ?).
  by exists t'.
Qed.
Next Obligation.
  intros ts t Ht. destruct (checkpoint_table get_hash_value nh shared junk qsort N HN Hmax M HM HM33 types fits B0 ts _ t Ht) as (t' & -> & ?).
  by exists t'.
Qed.
Next Obligation.
  intros io ts t col Ht (He & Hnew & Hlen & Hroom). cbv beta in Ht. rewrite (segs_empty ts He) in Ht.
  destruct (ensure_index_table (calm shared junk qsort) get_hash_value nh N M HM types fits B0 ts t io col Ht Hnew Hlen Hroom) as (t' & -> & Ht' & _).
  exists t'. split; [done|]. cbv beta. by rewrite segs_empty.
Qed.
Next Obligation.
  intros ts t n fs Ht Hn. rewrite Hcl. by apply (row_table nh N HN M types fits B0 ts (segs N ts)).
Qed.
Next Obligation.
  intros ts t n Ht Hn. rewrite Hcl. by apply (deleted_table nh N HN M types fits B0 ts (segs N ts)).
Qed.
Next Obligation.
  intros ts t Ht. rewrite Hcl. by apply (seghint_spec nh N HN M HM types fits B0 ts (segs N ts)).
Qed.
Next Obligation.
  intros ts t tc Ht. rewrite Hcl. by apply (seghint_in nh N HN M HM types fits B0 ts (segs N ts)).
Qed.
Next Obligation.
  intros ts t name v js Ht Hin Hask Hjs. rewrite Hcl in *.
  by apply (equal_query_in get_hash_value nh N Hmax M types fits B0 ts (segs N ts) t name v js).
Qed.
Next Obligation.
  intros ts t name Ht. by apply (access_table nh N M types fits B0 ts (segs N ts)).
Qed.
End instance.

From S2P Require Import Prelude StringMap SegRowid LowData Hash Column RowData IndexField Segment Table TableSpec Binlog BinlogSpec Slave DbRecord Db DbRecover CatalogSpec DbSpec.

(** Nothing on disk, for tables of [num] segments. *)
Definition no_db_files {S : Type} (num : Z) : db_files S :=
  DbFiles (0, replicate (Z.to_nat MAX_TABLE_NUM) zero_table_meta) (BlMeta 0 0)
    (λ _, ([], replicate (Z.to_nat num) None)) (Files [] ∅).

(** The system calls of a start succeed. *)
Record calm_start {S : Type} (sio : start_io S) : Prop := {
  cs_work : mkdir_work sio = true;
  cs_binlog : mkdir_binlog sio = true;
  cs_meta : map_binlog_meta sio = true;
  cs_reader : reader_io sio = all_well;
  cs_seek : ∀ i, read_goes (fst (seek_io sio i));
  cs_reads : ∀ i j, read_goes (fst (recover_reads sio i j));
  cs_fstat : fstat_ok sio = true;
  cs_writer : writer_io sio = all_well;
  cs_rwlock : rwlock_ok sio = true;
  cs_mutex : mutex_ok sio = true
}.

Lemma pread_empty io count : smooth io → 0 ≤ count < 2 ^ 63 → while_pread [] count 0 io = (0, []).
Proof.
  intros Hio Hc. pose proof (while_pread_smooth io [] [] 0 count Hio eq_refl Hc) as E. cbn [app] in E. rewrite E.
  rewrite take_nil. change (zlen []) with 0. f_equal. lia.
Qed.

(** A reader of an empty log. *)
Definition empty_reader (max_size : Z) : BL_READER := Reader max_size 0 0 0 (OwnIndex (Index NO_ITEM NULL 0)) 0 false.

Lemma read_empty io files max_size :
  read_goes (fst io) → log_files files !! 0 = Some [] →
  binlog_read_record io files NULL (empty_reader max_size) = Some (0, [], empty_reader max_size).
Proof.
  intros [Hio _] Hf. unfold binlog_read_record, binlog_read_data. cbn [caught_up empty_reader has_writer reader_fd mbind option_bind].
  rewrite Hf. cbn [mbind option_bind]. cbn [reader_offset]. rewrite pread_empty by (done || lia). done.
Qed.

Lemma reader_empty fuel sio_seek max_size time :
  (∀ i, read_goes (fst (sio_seek i))) →
  binlog_reader_init_bytime (Datatypes.S fuel) all_well sio_seek (Files [] ∅) max_size time
  = Some (Ptr (empty_reader max_size), set_log (Files [] ∅) 0 []).
Proof.
  intros Hs. unfold binlog_reader_init_bytime, binlog_reader_init.
  change (binlog_index_init (io_fopen all_well) (Files [] ∅)) with (Some (Ptr (Index NO_ITEM NULL 0))). cbn [mbind option_bind].
  change (start_at (Index NO_ITEM NULL 0) (READER_INIT_BY_TIME time)) with (Some (0, 0, 0)). cbn [mbind option_bind].
  unfold open_binlog_file. cbn [io_open all_well log_files]. rewrite lookup_empty. cbn [seek_to_time].
  change (Reader max_size 0 0 0 (OwnIndex (Index NO_ITEM NULL 0)) 0 false) with (empty_reader max_size).
  rewrite read_empty by first [done | apply lookup_insert_eq]. done.
Qed.

Section start.
Context {S : Type} `{!Column S}.
Context (env : field_env) (get_hash_value : low_data_struct → Z) (config : table_config) (types : list Z → field_types).
Context {Laws : TableLaws (S := S) env get_hash_value config types}.
Context (conf : db_conf) (Hdirs : 0 < zlen (conf_dirs conf)).
Implicit Types (db : db_manager S).

Lemma no_catalog db :
  settings db = conf → task_locked db = false → cat db = cat (blank_db conf (no_db_files (S := S) (conf_segments conf))) →
  catalog_rep conf ∅ db.
Proof.
  intros Hs Hl Hc. split; rewrite ?Hc; try done.
  - intros i Hi. cbn [blank_db cat table_metas no_db_files table_meta_file snd table_count fst] in *. rewrite zget_lookup by lia.
    apply lookup_replicate_2. unfold MAX_TABLE_NUM in *. lia.
  - exists []. split; [by apply init_holds|]. intros name [x Hx]. unfold entry_map in Hx. simpl in Hx. by rewrite lookup_empty in Hx.
  - exists []. split; [by apply init_holds|]. split; [done|]. split.
    + intros name. unfold entry_map. simpl. by rewrite !lookup_empty.
    + intros name slot t P Hk. unfold entry_map in Hk. simpl in Hk. by rewrite lookup_empty in Hk.
    + intros name name' slot t t' Hk. unfold entry_map in Hk. simpl in Hk. by rewrite lookup_empty in Hk.
Qed.

(** The log is empty, with its first file. *)
Lemma recover_empty fuel sio db :
  calm_start sio → log_dir db = Files [] ∅ →
  db_recover_data env get_hash_value (Datatypes.S fuel) sio db
  = Some (0, with_log db (set_log (Files [] ∅) 0 []) (binlog_writer db)).
Proof.
  intros [] Hd. unfold db_recover_data. rewrite Hd, cs_reader0, reader_empty by done. cbn [mbind option_bind recover_loop next_confirmed].
  change (log_dir (with_log db ?f ?w)) with f.
  rewrite read_empty by first [apply cs_reads0 | apply lookup_insert_eq]. cbn [mbind option_bind]. change (0 <=? 0) with true. cbv iota.
  cbn [mbind option_bind]. change (0 =? MILE_RETURN_SUCCESS) with true. cbv iota. unfold binlog_is_read_all. rewrite cs_fstat0.
  simpl negb. cbv iota. cbn [empty_reader reader_fd log_dir with_log log_files set_log]. rewrite lookup_insert_eq. cbn [mbind option_bind]. done.
Qed.

Lemma start_empty fuel sio :
  calm_start sio → 0 ≤ binlog_maxsize conf < 2 ^ 32 →
  ∃ db, db_init env get_hash_value (Datatypes.S fuel) sio conf (no_db_files (conf_segments conf)) = Some (0, db) ∧
    db_rep env get_hash_value config types conf (binlog_flag conf) ∅ [] db ∧ binlog_threshold db = 0.
Proof.
  intros Hcs Hmax. pose proof Hcs as []. unfold db_init. rewrite (proj2 (Z.eqb_neq _ 0)) by lia.
  rewrite cs_work0, cs_binlog0, cs_meta0, cs_rwlock0, cs_mutex0. simpl (negb true). rewrite andb_false_r. cbv iota.
  change (open_tables env sio _ 0 ?db) with (Some db). cbn [mbind option_bind].
  set (db0 := Db (cat (blank_db conf (no_db_files (S := S) (conf_segments conf)))) _ _ _ _ _ _ _ _ _ _). destruct (binlog_flag conf) eqn:Eb.
  - unfold start_binlog. rewrite recover_empty by done. cbn [mbind option_bind]. change (negb (0 =? MILE_RETURN_SUCCESS)) with false. cbv iota.
    set (f0 := set_log (Files [] ∅) 0 []). set (db1 := with_log _ f0 _). change (log_dir (with_stat db1 RECOVER_FIN)) with f0.
    change (settings (with_stat db1 RECOVER_FIN)) with conf. rewrite cs_writer0.
    assert (files_rep f0 []) as Hf0.
    { split; [done| |intros i Hi; simpl in Hi; lia]. intros i. cbn. destruct (decide (Z.of_nat i = 0)) as [E|E].
      - rewrite E, lookup_insert_eq. by destruct i.
      - rewrite lookup_insert_ne by done. rewrite lookup_empty. by destruct i. }
    destruct (binlog_writer_init_rep f0 [] (binlog_maxsize conf) Hf0 log_ok_nil Hmax) as (w & f & Ew & Hf & Hw & _).
    fold all_well in Ew. rewrite Ew. cbn [mbind option_bind]. simpl (negb (0 =? 0)). cbv iota.
    eexists. split; [done|]. split; [|by destruct (role conf =? MASTER_ROLE)].
    assert (∀ db', cat db' = cat db0 → settings db' = conf → task_locked db' = false → stat db' = RECOVER_FIN →
      log_dir db' = f → (∃ w', binlog_writer db' = Ptr w' ∧ writer_rep w' f []) →
      db_rep env get_hash_value config types conf true ∅ [] db') as Hrep.
    { intros db' Hc Hs Hl Hst Hd (w' & Hwr & Hw'). split.
      - unfold promises. rewrite fmap_empty. apply no_catalog; [done|done|]. by rewrite Hc.
      - unfold logging. by rewrite Hs, Eb, Hst.
      - intros _. exists w', []. rewrite Hd. split_and!; first [done | apply log_ok_nil]. }
    destruct (role conf =? MASTER_ROLE); apply Hrep; try done.
    + eexists. split; [done|]. destruct Hw. by split.
    + eexists. split; [done|]. destruct Hw. by split.
  - cbn [mbind option_bind]. simpl (negb (0 =? 0)). cbv iota. eexists. split; [done|]. split; [|by destruct (role conf =? MASTER_ROLE)].
    assert (∀ db', cat db' = cat db0 → settings db' = conf → task_locked db' = false →
      db_rep env get_hash_value config types conf false ∅ [] db') as Hrep.
    { intros db' Hc Hs Hl. split.
      - unfold promises. rewrite fmap_empty. apply no_catalog; [done|done|]. by rewrite Hc.
      - unfold logging. by rewrite Hs, Eb.
      - done. }
    destruct (role conf =? MASTER_ROLE); by apply Hrep.
Qed.
End start.
