(* ===== verification/DatabaseSpec.v ===== *)
(** * The database as a map of tables

    [db.c] on top of [table.c], from the start on empty directories: what its queries
    show after a run, the log the run leaves, and the database of a slave that
    executes the log. *)

From Stdlib Require Import ZArith Lia.
From stdpp Require Import base option list numbers gmap sets relations.
From S2P Require Import Prelude FileOp StringMap SegRowid LowData HashIndex HashIndexSpec HashMemCompress VStorage Hash Column FilterIndex RowData IndexField IndexFieldSpec Segment SegmentSpec Table TableSpec TableIndexSpec Binlog BinlogSpec BinlogSync Slave SlaveSpec DbRecord DbRecordSpec Db DbRecover CatalogSpec DbSpec DbReplica DbStartSpec.

(** ** What can be seen of a database *)

Section shown.
Context {S : Type} `{!Column S}.
Context (get_hash_value : low_data_struct → Z) (N : Z).
Implicit Types (D : gmap (list Z) table_state) (db : db_manager S).

(** The queries for the table [name] answer as its content says.  [can_ask]: the
    values that a hash index can look up. *)
Definition table_shown (can_ask : low_data_struct → Prop) db (name : list Z) (ts : table_state) : Prop :=
  (∀ n fs, (trows ts)⟦n⟧ = Some fs → db_data_query_row db name (n / N) (n `mod` N) = Some (Ptr (Row fs (zlen fs)))) ∧
  (∀ n, 0 ≤ n < zlen (trows ts) → db_is_docid_deleted db name (n / N) (n `mod` N) = Some (if tgone ts n then 1 else 0)) ∧
  ∀ col v, col ∈ tcols ts → can_ask v →
    ∃ hs l, db_seghint_query db name None = Some (Ptr hs) ∧
      db_index_equal_query get_hash_value db name hs (Field col v) = Some (Ptr l) ∧
      sid <$> l = seqZ 0 (segs N ts) ∧ Forall (answers get_hash_value N ts col v) l.

Definition shows (can_ask : low_data_struct → Prop) D db : Prop :=
  ∀ name,
    match D !! name with
    | Some ts => table_shown can_ask db name ts
    | None => ∀ sid docid, db_data_query_row db name sid docid = Some NULL ∧
                db_is_docid_deleted db name sid docid = Some ERROR_TABLE_INIT_FAILED
    end.
End shown.

Lemma rep_shows {S} `{!Column S} env get_hash_value config types {Laws : TableLaws (S := S) env get_hash_value config types}
    conf b D L (db : db_manager S) :
  db_rep env get_hash_value config types conf b D L db →
  shows get_hash_value (config_limit config) (can_ask (TableLaws := Laws)) D db.
Proof.
  intros H name. destruct (D !! name) as [ts|] eqn:E.
  - destruct (there_instance env get_hash_value config types conf b D L db name H) as (t & Hg & Ht); [by eexists|].
    unfold table_at in Ht. rewrite E in Ht. simpl in Ht.
    unfold table_shown, db_data_query_row, db_is_docid_deleted, db_seghint_query, db_index_equal_query, query.
    rewrite Hg. cbn [mbind option_bind]. split; [|split].
    + intros n fs Hn. by apply law_row with (ts := ts).
    + intros n Hn. by apply law_deleted.
    + intros col v Hc Hv. eexists. destruct (law_equal _ _ _ _ ts t col v Ht Hc Hv) as (l & Hl & Hs & Ha). exists l.
      split; [by apply law_hints|]. by split.
  - intros s d. unfold db_data_query_row, db_is_docid_deleted, query.
    rewrite (get_table_none conf (promises env get_hash_value config types D)); [done|apply H|].
    unfold promises. by rewrite lookup_fmap, E.
Qed.

(** ** The database and its replica *)

Section database.
Context {S : Type} `{!Column S, !ColumnLaws S}.
Context (get_hash_value : low_data_struct → Z) (nh : Z) `{!HashLaws get_hash_value nh}.
Context (shared : bool) (junk : Z) (qsort : (Z → Z → Z) → list Z → list Z) `{!QsortLaws qsort}.
Context (N : Z) (HN : 0 < N) (Hmax : 16 * (N + 1) < 2 ^ 31).
Context (M : Z) (HM : 0 < M) (HM33 : M * 33 < 2 ^ 31).
Context (types : list Z → field_types) (fits : Z → Prop) (B0 : Z).
Context (config : table_config) (Hcd : 0 < zlen (config_dirs config)) (Hcs : config_segments config = M)
  (Hcl : config_limit config = N) (Hcr : config_raw config = true).

(** The laws of the tables, for these parameters. *)
#[local] Instance laws : TableLaws (S := S) (calm shared junk qsort) get_hash_value config types :=
  table_laws get_hash_value nh shared junk qsort N HN Hmax M HM HM33 types fits B0 config Hcd Hcs Hcl Hcr.

(** Settings of a database whose tables have the configuration [config]. *)
Record conf_ok (conf : db_conf) : Prop := {
  co_tables : same_config conf config;
  co_segments : conf_segments conf = M;
  co_dirs : 0 < zlen (conf_dirs conf);
  co_log : 0 ≤ binlog_maxsize conf < 2 ^ 32
}.

Lemma room_at_start (n : Z) : 0 ≤ n < 2 ^ 29 → room_of_log [] n.
Proof. intros Hn. unfold room_of_log. change (zlen []) with 0. change (size_of []) with 0. lia. Qed.

Abbreviation env := (calm shared junk qsort) (only parsing).

Lemma run_from_start fuel sio conf mem (ops : list (db_io S * db_op)) :
  calm_start sio → conf_ok conf → zlen ops < 2 ^ 29 → db_ops_ok env get_hash_value config types mem ∅ ops →
  ∃ db0 db L, db_init env get_hash_value (Datatypes.S fuel) sio conf (no_db_files M) = Some (0, db0) ∧
    db_run env get_hash_value N types db0 ops = Some db ∧
    db_rep env get_hash_value config types conf (binlog_flag conf) (db_specs get_hash_value config types ∅ ops) L db ∧
    (binlog_flag conf = true → confirmed (changes get_hash_value config types ∅ ops) L) ∧
    ∀ k, 0 ≤ k → zlen ops + k < 2 ^ 29 → room_of_log L k.
Proof.
  intros Hs [Ht Hsg Hd Hl] Hn Hops.
  destruct (start_empty env get_hash_value config types conf Hd fuel sio Hs Hl) as (db0 & H0 & Hrep & _). rewrite Hsg in H0.
  destruct (run_holds env get_hash_value config types conf Ht ltac:(congruence) mem (binlog_flag conf) ∅ [] db0 ops Hrep Hops)
    as (db & L & Hrun & Hrep' & HE & Hk); [apply room_at_start; pose proof (zlen_nonneg ops); lia|].
  rewrite Hcl in Hrun. exists db0, db, L. split; [done|]. split; [done|]. split; [done|].
  split; [intros Hb; by rewrite Hb in HE|]. intros k H1 H2. apply Hk; [done|]. apply room_at_start. pose proof (zlen_nonneg ops). lia.
Qed.

(** C2: the database is a map from names to tables.  It starts on empty
    directories; insertions, updates of fields without an index, deletions, hash
    indexes on tables that have no row yet, compressions and checkpoints of any tables
    (a table is made when it is first named) all succeed.  Filter and full-text indexes,
    and indexes on a table that already has rows, are not among the operations.
    Afterwards a query for a row, for a deletion or for the documents with a value
    answers for each table as the sequence of operations says, whether or not
    the changes are logged, and a table that no operation named is not there. *)
Theorem database_refines fuel sio conf mem (ops : list (db_io S * db_op)) :
  calm_start sio → conf_ok conf → zlen ops < 2 ^ 29 → db_ops_ok env get_hash_value config types mem ∅ ops →
  ∃ db0 db, db_init env get_hash_value (Datatypes.S fuel) sio conf (no_db_files M) = Some (0, db0) ∧
    db_run env get_hash_value N types db0 ops = Some db ∧
    shows get_hash_value N (λ v, key_of get_hash_value v ≠ Some nh) (db_specs get_hash_value config types ∅ ops) db.
Proof.
  intros Hs Hc Hn Hops. destruct (run_from_start fuel sio conf mem ops Hs Hc Hn Hops) as (db0 & db & L & H0 & Hrun & Hrep & _).
  exists db0, db. split; [done|]. split; [done|]. rewrite <- Hcl. exact (rep_shows env get_hash_value config types conf (binlog_flag conf) _ L _ ltac:(eassumption)).
Qed.

(** A slave that executes the log has the database of the master.  The
    master logs its changes, each with its confirmation; the records that the
    replay of its log gives, executed one after the other by another database that
    starts on empty directories, with settings of its own for the log, all succeed,
    and the queries of both answer alike. *)
Theorem replica_equals_master fuel sio conf conf' sio' mem (ops : list (db_io S * db_op)) (ios : nat → db_io S) :
  calm_start sio → calm_start sio' → conf_ok conf → conf_ok conf' → binlog_flag conf = true → zlen ops < 2 ^ 29 →
  db_ops_ok env get_hash_value config types mem ∅ ops → (∀ i, calm_db env get_hash_value config types mem (ios i)) →
  let D := db_specs get_hash_value config types ∅ ops in
  let asked v := key_of get_hash_value v ≠ Some nh in
  ∃ m0 m chunks s0 s,
    db_init env get_hash_value (Datatypes.S fuel) sio conf (no_db_files M) = Some (0, m0) ∧
    db_run env get_hash_value N types m0 ops = Some m ∧
    files_rep (log_dir m) chunks ∧
    db_init env get_hash_value (Datatypes.S fuel) sio' conf' (no_db_files M) = Some (0, s0) ∧
    db_execute_all env get_hash_value s0 ios (record_bytes <$> fst (replay None (concat chunks))) = Some s ∧
    shows get_hash_value N asked D m ∧ shows get_hash_value N asked D s.
Proof.
  intros Hs Hs' Hc [Ht Hsg Hd Hl] Hb Hn Hops Hios D asked.
  destruct (run_from_start fuel sio conf mem ops Hs Hc Hn Hops) as (m0 & m & L & H0 & Hrun & Hrep & HL & _). specialize (HL Hb).
  rewrite Hb in Hrep. destruct (ho_log _ _ _ _ _ Hrep eq_refl) as (w & chunks & _ & HcL & _ & Hf & _).
  destruct (start_empty env get_hash_value config types conf' Hd fuel sio' Hs' Hl) as (s0 & Hs0 & Hrep0 & _). rewrite Hsg in Hs0.
  destruct (replay_confirmed _ _ HL) as [_ Hlogs].
  destruct (execute_holds env get_hash_value config types conf' Ht ltac:(congruence) mem (binlog_flag conf') ∅ [] s0 ops (fst (replay None L)) ios Hrep0 Hops)
    as (s & L' & Hexec & HrepS); [apply room_at_start; pose proof (zlen_nonneg ops); lia|exact Hios|exact Hlogs|].
  exists m0, m, chunks, s0, s. rewrite HcL. split_and!; try done.
  - rewrite <- Hcl. exact (rep_shows env get_hash_value config types conf true _ L _ ltac:(eassumption)).
  - rewrite <- Hcl. exact (rep_shows env get_hash_value config types conf' (binlog_flag conf') _ L' _ ltac:(eassumption)).
Qed.
End database.

(** *** A concrete database *)

Definition demo_conf (logs : bool) : db_conf := DbConf [[47]] 10 3 2 (init_string_map 1) logs 1000 0 MASTER_ROLE 0.

Lemma demo_conf_ok b : conf_ok 3 demo_config (demo_conf b).
Proof. split; [|done..|]; [intros name|]; done. Qed.

Definition demo_db_io (vs : vstorage_manager) : db_io vstorage_manager :=
  DbIo (demo_io vs) (demo_io vs) (demo_io vs) (calm_write 100) (calm_write 100) (λ _, empty_dir (demo_io vs)).

Definition demo_start (vs : vstorage_manager) : start_io vstorage_manager :=
  StartIo true true true (λ _, demo_db_io vs) all_well (λ _, calm_read) (λ _ _, calm_read)
    (λ _, demo_db_io vs) true all_well true true.

(** Two tables; the first has a column [a] with an index. *)
Definition demo_db_ops : list db_op :=
  [DIndex [116] [97]; DInsert [116] (demo_doc 3); DInsert [116] (demo_doc 9); DInsert [117] (demo_doc 5); DInsert [116] (demo_doc 3);
   DUpdate [116] 2 (Field [110] (LowData HI_TYPE_STRING [67] 1)); DDelete [116] 0; DCompress [116]; DCheckpoint 5;
   DInsert [116] (demo_doc 3)].

Definition demo_db_run (vs : vstorage_manager) : list (db_io vstorage_manager * db_op) := (λ op, (demo_db_io vs, op)) <$> demo_db_ops.

Lemma demo_starts vs : calm_start (demo_start vs).
Proof. split; try done; intros; apply calm_read_goes. Qed.

(** The hypotheses of the theorems on the parameters, for the concrete database. *)
Definition demo_laws : TableLaws (S := vstorage_manager) (calm false 0 merge_qsort) demo_hash demo_config demo_types :=
  table_laws demo_hash 77 (HashLaws0 := demo_hash_laws) false 0 merge_qsort (QsortLaws0 := merge_qsort_laws) 2
    eq_refl eq_refl 3 eq_refl eq_refl demo_types demo_fits 0 demo_config eq_refl eq_refl eq_refl eq_refl.

Abbreviation demo_ok := (db_ops_ok (Laws := demo_laws) (calm false 0 merge_qsort) demo_hash demo_config demo_types demo_pool).
Abbreviation demo_calm_db := (calm_db (Laws := demo_laws) (calm false 0 merge_qsort) demo_hash demo_config demo_types demo_pool).

Lemma demo_db_calm vs : new_store 2 demo_fits vs → col_size vs = 0 → demo_calm_db (demo_db_io vs).
Proof. intros Hs Hz. pose proof (demo_calm vs Hs Hz). split; try done; apply calm_write_goes. Qed.

Ltac demo_change := let c := fresh "c" in let E := fresh "E" in intros c E; vm_compute in E; first [discriminate E | injection E as <-]; vm_compute; repeat first [done | apply conj | apply Forall_cons_2 | apply Forall_nil_2 | demo_fields].
Ltac demo_db_op :=
  refine (conj _ _); [demo_change|];
  lazymatch goal with
  | |- may_have _ _ ∧ allowed ?mem ?ts ?op =>
      split; [split; [|intros _]; vm_compute; done|];
      change (allowed mem ts op) with (table_op_ok demo_hash 77 2 demo_types 3 mem demo_fits 0 ts op); demo_table_op
  | |- is_Some _ ∧ allowed ?mem ?ts ?op =>
      split; [by eexists|];
      change (allowed mem ts op) with (table_op_ok demo_hash 77 2 demo_types 3 mem demo_fits 0 ts op); demo_table_op
  | |- may_have _ _ ∧ new_column ?ts ?col ∧ _ =>
      split; [split; [|intros _]; vm_compute; done|]; split; [|vm_compute; split; done];
      change (column_fits ts col); split; [reflexivity|]; split; [vm_compute; set_solver|]; split; vm_compute; done
  | |- is_Some _ => by eexists
  | |- _ => exact I
  end.

Lemma demo_db_ok vs : new_store 2 demo_fits vs → col_size vs = 0 → demo_ok ∅ (demo_db_run vs).
Proof.
  intros Hs Hz. pose proof (demo_db_calm vs Hs Hz) as Hio. unfold demo_db_run, demo_db_ops. cbn [fmap list_fmap].
  repeat (refine (conj Hio _); refine (conj _ _); [demo_db_op|]). done.
Qed.

Lemma database_refines_witness :
  ∃ vs db0 db, vstorage_init true false 0 [] [] 2 = Ptr vs ∧
    db_init (calm false 0 merge_qsort) demo_hash 1 (demo_start vs) (demo_conf false) (no_db_files 3) = Some (0, db0) ∧
    db_run (calm false 0 merge_qsort) demo_hash 2 demo_types db0 (demo_db_run vs) = Some db ∧
    db_data_query_row db [117] 0 0 = Some (Ptr (Row (demo_doc 5) 2)) ∧
    db_is_docid_deleted db [116] 0 0 = Some 1 ∧ db_is_docid_deleted db [116] 0 1 = Some 0 ∧
    db_data_query_row db [116] 1 0 = Some (Ptr (Row [Field [97] (byte_value 3); Field [110] (LowData HI_TYPE_STRING [67] 1)] 2)) ∧
    db_data_query_row db [118] 0 0 = Some NULL ∧
    ∃ hs l, db_seghint_query db [116] None = Some (Ptr hs) ∧
      db_index_equal_query demo_hash db [116] hs (Field [97] (byte_value 3)) = Some (Ptr l) ∧ sid <$> l = [0; 1].
Proof.
  destruct demo_table_store as (vs & Hvs & Hst & Hsz).
  destruct (database_refines demo_hash 77 (HashLaws0 := demo_hash_laws) false 0 merge_qsort (QsortLaws0 := merge_qsort_laws)
    2 eq_refl eq_refl 3 eq_refl eq_refl demo_types demo_fits 0 demo_config eq_refl eq_refl eq_refl eq_refl
    0 (demo_start vs) (demo_conf false) demo_pool (demo_db_run vs)) as (db0 & db & H0 & Hrun & Hshow);
    [apply demo_starts|apply demo_conf_ok|vm_compute; reflexivity|by apply demo_db_ok|].
  exists vs, db0, db. split; [exact Hvs|]. split; [exact H0|]. split; [exact Hrun|].
  destruct (Hshow [117]) as (Hr & _). split; [apply (Hr 0); vm_compute; reflexivity|].
  destruct (Hshow [116]) as (Hr' & Hd & Hq). split; [apply (Hd 0); vm_compute; done|]. split; [apply (Hd 1); vm_compute; done|].
  split; [apply (Hr' 2); vm_compute; reflexivity|]. split; [apply (proj1 (Hshow [118] 0 0))|].
  destruct (Hq [97] (byte_value 3)) as (hs & l & Hhs & Hl & Hsid & _); [vm_compute; left|vm_compute; discriminate|].
  exists hs, l. split; [exact Hhs|]. split; [exact Hl|]. rewrite Hsid. vm_compute. reflexivity.
Defined.

(** The master logs its changes, the slave does not. *)
Lemma replica_equals_master_witness :
  ∃ vs m0 m chunks s0 s, vstorage_init true false 0 [] [] 2 = Ptr vs ∧
    db_init (calm false 0 merge_qsort) demo_hash 1 (demo_start vs) (demo_conf true) (no_db_files 3) = Some (0, m0) ∧
    db_run (calm false 0 merge_qsort) demo_hash 2 demo_types m0 (demo_db_run vs) = Some m ∧
    files_rep (log_dir m) chunks ∧
    db_init (calm false 0 merge_qsort) demo_hash 1 (demo_start vs) (demo_conf false) (no_db_files 3) = Some (0, s0) ∧
    db_execute_all (calm false 0 merge_qsort) demo_hash s0 (λ _, demo_db_io vs)
      (record_bytes <$> fst (replay None (concat chunks))) = Some s ∧
    db_is_docid_deleted m [116] 0 0 = Some 1 ∧ db_is_docid_deleted s [116] 0 0 = Some 1 ∧
    db_data_query_row s [116] 1 0 = Some (Ptr (Row [Field [97] (byte_value 3); Field [110] (LowData HI_TYPE_STRING [67] 1)] 2)).
Proof.
  destruct demo_table_store as (vs & Hvs & Hst & Hsz).
  destruct (replica_equals_master demo_hash 77 (HashLaws0 := demo_hash_laws) false 0 merge_qsort (QsortLaws0 := merge_qsort_laws)
    2 eq_refl eq_refl 3 eq_refl eq_refl demo_types demo_fits 0 demo_config eq_refl eq_refl eq_refl eq_refl
    0 (demo_start vs) (demo_conf true) (demo_conf false) (demo_start vs) demo_pool (demo_db_run vs) (λ _, demo_db_io vs))
    as (m0 & m & chunks & s0 & s & H0 & Hrun & Hf & Hs0 & Hexec & Hm & Hs);
    [apply demo_starts|apply demo_starts|apply demo_conf_ok|apply demo_conf_ok|reflexivity|vm_compute; reflexivity|by apply demo_db_ok
    |intros i; by apply demo_db_calm|].
  exists vs, m0, m, chunks, s0, s. split; [exact Hvs|]. split; [exact H0|]. split; [exact Hrun|]. split; [exact Hf|].
  split; [exact Hs0|]. split; [exact Hexec|].
  destruct (Hm [116]) as (_ & Hd & _). split; [apply (Hd 0); vm_compute; done|].
  destruct (Hs [116]) as (Hr & Hd' & _). split; [apply (Hd' 0); vm_compute; done|].
  apply (Hr 2); vm_compute; reflexivity.
Defined.

(** ** The database outside of its contract

    A setting that is never used, a mutex that is never given back, one table too
    many, and a recovery that stops. *)

From S2P Require Import Prelude FileOp StringMap SegRowid LowData HashIndex HashIndexSpec HashMemCompress VStorage Hash Column FilterIndex RowData IndexField IndexFieldSpec Segment SegmentSpec Table TableSpec Binlog BinlogSpec Slave DbRecord DbRecordSpec Db DbRecover DbSpec DbStartSpec.

Module DbCases.
Section cases.
Context {S : Type} `{!Column S}.
Context (env : field_env) (get_hash_value : low_data_struct → Z).
Implicit Types (io : db_io S) (db : db_manager S).

(** ** The threshold of the catch-up *)

(** Results with a database in them. *)
Class WithDb (A : Type) := db_of : A → db_manager S.
#[local] Instance db_itself : WithDb (db_manager S) := λ db, db.
#[local] Instance db_last {R A} `{WithDb A} : WithDb (R * A) := λ r, db_of (snd r).

(** The database in the result of [o] has the threshold [x]. *)
Definition keeps {A} `{WithDb A} (x : Z) (o : option A) : Prop := ∀ a, o = Some a → binlog_threshold (db_of a) = x.

Lemma keeps_bind {A B} `{WithDb A, WithDb B} x (o : option A) (k : A → option B) :
  keeps x o → (∀ a, binlog_threshold (db_of a) = x → keeps x (k a)) → keeps x (o ≫= k).
Proof. intros Ho Hk b (a & E & E')%bind_Some. exact (Hk a (Ho a E) b E'). Qed.

Lemma keeps_pure {A B} `{WithDb B} x (o : option A) (k : A → option B) : (∀ a, keeps x (k a)) → keeps x (o ≫= k).
Proof. intros Hk b (a & _ & E)%bind_Some. exact (Hk a b E). Qed.

Lemma keeps_some {A} `{WithDb A} x (a : A) : binlog_threshold (db_of a) = x → keeps x (Some a).
Proof. by intros H' ? [= <-]. Qed.

Lemma keeps_none {A} `{WithDb A} x : keeps (A := A) x None.
Proof. done. Qed.

Create HintDb keeps.
Ltac keep :=
  repeat first
    [ progress cbv beta
    | apply keeps_none
    | apply keeps_some; done
    | solve [eauto with keeps]
    | apply keeps_bind; [solve [keep]|intros; repeat match goal with a : _ * _ |- _ => destruct a end]
    | apply keeps_pure; intros; repeat match goal with a : _ * _ |- _ => destruct a end
    | case_match ].

Lemma keeps_set_table x db name t : binlog_threshold db = x → keeps x (set_table db name t).
Proof. intros H. unfold set_table. keep. Qed.
#[local] Hint Resolve keeps_set_table : keeps.

Lemma keeps_on_table {R} x db name (call : table_manager S → option (R * table_manager S)) :
  binlog_threshold db = x → keeps x (on_table db name call).
Proof. intros H. unfold on_table. keep. Qed.
#[local] Hint Resolve keeps_on_table : keeps.

Lemma keeps_create_table x io db name : binlog_threshold db = x → keeps x (db_create_table env io db name).
Proof. intros H. unfold db_create_table. keep. Qed.
#[local] Hint Resolve keeps_create_table : keeps.

Lemma keeps_ensure x io db name : binlog_threshold db = x → keeps x (ensure_table env io db name).
Proof. intros H. unfold ensure_table. keep. Qed.
#[local] Hint Resolve keeps_ensure : keeps.

Lemma keeps_write_record x wio db r : binlog_threshold db = x → keeps x (write_record wio db r).
Proof. intros H. unfold write_record. keep. Qed.
#[local] Hint Resolve keeps_write_record : keeps.

Lemma keeps_write_confirm x wio db ok : binlog_threshold db = x → keeps x (write_confirm wio db ok).
Proof. intros H. unfold write_confirm. keep. Qed.
#[local] Hint Resolve keeps_write_confirm : keeps.

Lemma keeps_log_before x io db r : binlog_threshold db = x → keeps x (log_before io db r).
Proof. intros H. unfold log_before. keep. Qed.
#[local] Hint Resolve keeps_log_before : keeps.

Lemma keeps_confirm_after x io db ret : binlog_threshold db = x → keeps x (confirm_after io db ret).
Proof. intros H. unfold confirm_after. keep. Qed.
#[local] Hint Resolve keeps_confirm_after : keeps.

Lemma keeps_log_after x io db ret r : binlog_threshold db = x → keeps x (log_after io db ret r).
Proof. intros H. unfold log_after. keep. Qed.
#[local] Hint Resolve keeps_log_after : keeps.

Lemma keeps_insert x io db t sid docid rd flag : binlog_threshold db = x → keeps x (db_insert env get_hash_value io db t sid docid rd flag).
Proof. intros H. unfold db_insert. keep. Qed.
#[local] Hint Resolve keeps_insert : keeps.

Lemma keeps_update x io db t sid docid new : binlog_threshold db = x → keeps x (db_update get_hash_value io db t sid docid new).
Proof. intros H. unfold db_update. keep. Qed.
#[local] Hint Resolve keeps_update : keeps.

Lemma keeps_del_docid x io db t sid docid : binlog_threshold db = x → keeps x (db_del_docid io db t sid docid).
Proof. intros H. unfold db_del_docid. keep. Qed.
#[local] Hint Resolve keeps_del_docid : keeps.

Lemma keeps_ensure_index x io db t col a ty : binlog_threshold db = x → keeps x (db_ensure_index env get_hash_value io db t col a ty).
Proof. intros H. unfold db_ensure_index, with_task_lock. keep. Qed.
#[local] Hint Resolve keeps_ensure_index : keeps.

Lemma keeps_del_index x io db t col a : binlog_threshold db = x → keeps x (db_del_index env io db t col a).
Proof. intros H. unfold db_del_index, with_task_lock. keep. Qed.
#[local] Hint Resolve keeps_del_index : keeps.

Lemma keeps_compress x io db t : binlog_threshold db = x → keeps x (db_compress env io db t).
Proof. intros H. unfold db_compress, with_task_lock. keep. Qed.
#[local] Hint Resolve keeps_compress : keeps.

Lemma keeps_unload x io db t sid : binlog_threshold db = x → keeps x (db_unload_segment env io db t sid).
Proof. intros H. unfold db_unload_segment, with_table_lock, with_task_lock. keep. Qed.
#[local] Hint Resolve keeps_unload : keeps.

Lemma keeps_load x io db t sid dir : binlog_threshold db = x → keeps x (db_load_segment env get_hash_value io db t sid dir).
Proof. intros H. unfold db_load_segment, with_table_lock, with_task_lock. keep. Qed.
#[local] Hint Resolve keeps_load : keeps.

Lemma keeps_execute x io db b : binlog_threshold db = x → keeps x (db_execute_binrecord env get_hash_value io db b).
Proof. intros H. unfold db_execute_binrecord, on_locked_table, db_readlock_table, db_unreadlock_table. keep. Qed.
#[local] Hint Resolve keeps_execute : keeps.

(** *** The start *)

Lemma keeps_recover_check x p db r : binlog_threshold db = x → keeps x (db_recover_check p db r).
Proof. intros H. unfold db_recover_check. keep. Qed.
#[local] Hint Resolve keeps_recover_check : keeps.

Lemma keeps_recover_loop x fuel sio reads p db r :
  binlog_threshold db = x → keeps x (recover_loop env get_hash_value fuel sio reads p db r).
Proof. revert p db r. induction fuel; intros p db r H; cbn [recover_loop]; keep. Qed.
#[local] Hint Resolve keeps_recover_loop : keeps.

Lemma keeps_open_tables x sio n i db : binlog_threshold db = x → keeps x (open_tables env sio n i db).
Proof. revert i db. induction n; intros i db H; cbn [open_tables]; keep. Qed.
#[local] Hint Resolve keeps_open_tables : keeps.

Lemma keeps_recover_data x fuel sio db : binlog_threshold db = x → keeps x (db_recover_data env get_hash_value fuel sio db).
Proof. intros H. unfold db_recover_data. keep. Qed.
#[local] Hint Resolve keeps_recover_data : keeps.

Lemma keeps_start x fuel sio db : binlog_threshold db = x → keeps x (start_binlog env get_hash_value fuel sio db).
Proof. intros H. unfold start_binlog. keep. Qed.
#[local] Hint Resolve keeps_start : keeps.

Lemma keeps_init fuel sio conf files : keeps 0 (db_init env get_hash_value fuel sio conf files).
Proof. unfold db_init. keep. Qed.

(** What the protocol does with the database of a slave: it executes a record, or
    reports how far it has come. *)
Inductive slave_step : db_manager S → db_manager S → Prop :=
| SExecute io db block rc db' : db_execute_binrecord env get_hash_value io db block = Some (rc, db') → slave_step db db'
| SOffset msync_ok now db cur left rc db' : db_slave_set_offset msync_ok now db cur left = (rc, db') → slave_step db db'
| SCatchUp now db at_ db' : db_start_catch_up now db = (at_, db') → slave_step db db'
| SReadable db : slave_step db (set_db_readable db)
| SUnreadable db : slave_step db (set_db_unreadable db).

Lemma step_keeps db db' : slave_step db db' → binlog_threshold db' = binlog_threshold db.
Proof.
  intros []; [|unfold db_slave_set_offset in *|unfold db_start_catch_up in *|done|done].
  - exact (keeps_execute _ io _ block eq_refl _ H).
  - case_match; by simplify_eq.
  - by simplify_eq.
Qed.

Lemma steps_keep db db' : rtc slave_step db db' → binlog_threshold db' = binlog_threshold db.
Proof. induction 1 as [|? ? ? Hs _ IH]; [done|]. rewrite IH. by apply step_keeps. Qed.

(** A slave never learns that it has caught up.  [db_init] clears the manager and
    never copies the setting [binlog_threshold] into it, and nothing else writes it;
    so whatever the settings say and whatever has happened since the start, the time
    that is left is never below the threshold, and [db_slave_set_offset] never
    answers MILE_SLAVE_CACTCH_UP. *)
Theorem slave_never_catches_up fuel sio conf files rc db db' msync_ok now cur left :
  db_init env get_hash_value fuel sio conf files = Some (rc, db) → rtc slave_step db db' → 0 ≤ left →
  fst (db_slave_set_offset msync_ok now db' cur left) ≠ MILE_SLAVE_CACTCH_UP.
Proof.
  intros Hi Hs Hl. assert (binlog_threshold db' = 0) as H0 by (rewrite (steps_keep db db' Hs); exact (keeps_init fuel sio conf files _ Hi)).
  unfold db_slave_set_offset. destruct (negb msync_ok); [done|]. cbn [binlog_threshold with_bl_meta].
  set (elapsed := u64 _). set (finish := u64 _). set (speed := if _ >? 0 then _ else 0). set (time_left := if negb _ then _ else _).
  assert (0 ≤ time_left) as Ht.
  { unfold time_left. destruct (negb (speed =? 0)); [|lia]. apply Z_div_nonneg_nonneg; [done|].
    unfold speed. destruct (elapsed >? 0); [|lia]. apply Z_div_nonneg_nonneg; unfold finish, elapsed; apply u64_bounds. }
  rewrite (proj2 (Z.ltb_ge _ _)); [done|]. lia.
Qed.

(** ** The lock of the tasks *)

Lemma locked_blocks {R} db (call : db_manager S → option R) : task_locked db = true → with_task_lock db call = None.
Proof. intros H. unfold with_task_lock. by rewrite H. Qed.

(** A segment command that fails to lock the table stops all later ones.
    [db_load_segment], [db_unload_segment] and [db_replace_all_segments] lock the
    mutex of the tasks, and return without unlocking it when the table cannot be
    locked; every later compression, new or deleted index, loading or unloading
    waits for the mutex for ever ([None]), whichever table it is for. *)
Theorem failed_lock_blocks_tasks io db name sid dir t :
  task_locked db = false → db_get_table_instance db name = Some (Some t) → table_lock (call_io io) ≠ 0 →
  ∃ db', db_load_segment env get_hash_value io db name sid dir = Some (table_lock (call_io io), db') ∧
    db_unload_segment env io db name sid = Some (table_lock (call_io io), None, db') ∧
    (∀ uninit dirs, db_replace_all_segments env get_hash_value io db uninit name dirs = Some (table_lock (call_io io), [], db')) ∧
    ∀ io' other t', db_get_table_instance db other = Some (Some t') →
      db_compress env io' db' other = None ∧
      (∀ col a, db_del_index env io' db' other col a = None) ∧
      (∀ col a ty, alg_code HI_KEY_ALG_HASH ≤ a ≤ alg_code HI_KEY_ALG_FULLTEXT →
         type_code HI_TYPE_TINY ≤ ty ≤ type_code HI_TYPE_STRING →
         db_ensure_index env get_hash_value io' db' other col a ty = None) ∧
      (∀ sid dir, db_load_segment env get_hash_value io' db' other sid dir = None) ∧
      (∀ sid, db_unload_segment env io' db' other sid = None) ∧
      ∀ uninit dirs, db_replace_all_segments env get_hash_value io' db' uninit other dirs = None.
Proof.
  intros Hl Hg Hlock. exists (with_locked db true).
  assert ((table_lock (call_io io) =? 0) = false) as E by by apply Z.eqb_neq.
  unfold db_load_segment, db_unload_segment, db_replace_all_segments, with_table_lock.
  rewrite Hg. unfold with_task_lock at 1 2 3. rewrite Hl, E. cbn [negb mbind option_bind]. do 2 (split; [done|]). split; [done|].
  intros io' other t' Hg'. assert (db_get_table_instance (with_locked db true) other = Some (Some t')) as Hg2 by done.
  assert (∀ R (call : db_manager S → option R), with_task_lock (with_locked db true) call = None) as Hb by (intros; by apply locked_blocks).
  unfold db_compress, db_del_index. rewrite Hg2. cbn [mbind option_bind]. rewrite !Hb. split; [done|].
  split; [intros col a; destruct (alg_of_code a); [cbn [mbind option_bind]; by rewrite Hb|done]|].
  split; [|by do 2 (split; [intros; by rewrite !Hb|]); intros; rewrite !Hb].
  intros col a ty Ha Hty. unfold db_ensure_index, ensure_table.
  rewrite !(proj2 (Z.ltb_ge _ _)), !Z.gtb_ltb, !(proj2 (Z.ltb_ge _ _)) by lia. simpl (false || false). cbv iota.
  rewrite Hg2. cbn [mbind option_bind]. destruct (alg_of_code a); [|done]. cbn [mbind option_bind].
  destruct (type_of_code ty); [|done]. cbn [mbind option_bind]. by rewrite Hb.
Qed.
End cases.

(** ** Recovery *)

Definition store : option vstorage_manager :=
  match vstorage_init true false 0 [] [] 2 with NULL => None | Ptr vs => Some vs end.

(** A database that has done [ops], on directories that were empty. *)
Definition after (ops : list db_op) : option (db_manager vstorage_manager) :=
  vs ← store;
  '(_, db) ← db_init (calm false 0 merge_qsort) demo_hash 20 (demo_start vs) (demo_conf true) (no_db_files 3);
  db_run (calm false 0 merge_qsort) demo_hash 2 demo_types db ((λ op, (demo_db_io vs, op)) <$> ops).

(** The files of the tables as [older] leaves them, and the log of [newer]. *)
Definition files_of (older newer : db_manager vstorage_manager) : option (db_files vstorage_manager) :=
  files ← db_release (calm false 0 merge_qsort) older;
  Some (DbFiles (table_meta_file files) (binlog_meta_file files) (table_dirs files) (log_dir newer)).

(** The result of starting on them, and the row at segment [s], place [d]. *)
Definition restart (older newer : list db_op) (s d : Z) : option (Z * option (ptr row_data)) :=
  vs ← store;
  db1 ← after older;
  db2 ← after newer;
  files ← files_of db1 db2;
  '(rc, db) ← db_init (calm false 0 merge_qsort) demo_hash 20 (demo_start vs) (demo_conf true) files;
  Some (rc, db_data_query_row db [116] s d).

(** What the row query for the document says: its fields, [None] for NULL. *)
Definition seen (r : option (Z * option (ptr row_data))) : option (Z * option (list field)) :=
  '(rc, q) ← r;
  q ← q;
  Some (rc, match q with NULL => None | Ptr row => Some (datas row) end).

Definition a_doc (x : Z) : db_op := DInsert [116] (demo_doc x).

(** Recovery goes on inside the segments that are on disk, but stops at a new
    one.  A server whose tables have lost the last documents reads them from its
    log when it starts, also the first documents of a table that was lost as a
    whole; but when the lost document was the first of its segment,
    [table_recover] refuses the segment and the server does not start, although
    the record is confirmed and a slave would execute it.  The same happens when a
    table was lost with an index and its first document. *)
Theorem recovery_stops_at_segment :
  seen (restart [a_doc 3] [a_doc 3; a_doc 9] 0 1) = Some (0, Some (demo_doc 9)) ∧
  seen (restart [] [a_doc 3; a_doc 9] 0 1) = Some (0, Some (demo_doc 9)) ∧
  seen (restart [a_doc 3; a_doc 9] [a_doc 3; a_doc 9; a_doc 3] 1 0) = Some (ERROR_DB_INIT_FAILED, None) ∧
  fst <$> restart [] [DIndex [116] [97]; a_doc 3] 0 0 = Some ERROR_DB_INIT_FAILED ∧
  seen (restart [a_doc 3; a_doc 9; a_doc 3] [a_doc 3; a_doc 9; a_doc 3; a_doc 5] 1 1) = Some (0, Some (demo_doc 5)).
Proof. vm_compute. repeat split. Qed.

(** *** Concrete inputs of the other theorems *)

Definition patient_conf : db_conf := DbConf [[47]] 10 3 2 (init_string_map 1) true 1000 0 SLAVE_ROLE 60000.

Lemma slave_never_catches_up_witness :
  ∃ vs db, vstorage_init true false 0 [] [] 2 = Ptr vs ∧
    db_init (calm false 0 merge_qsort) demo_hash 1 (demo_start vs) patient_conf (no_db_files 3) = Some (0, db) ∧
    fst (db_slave_set_offset true 5000000 (snd (db_start_catch_up 1000000 db)) 4096 0) ≠ MILE_SLAVE_CACTCH_UP.
Proof.
  destruct demo_table_store as (vs & Hvs & Hst & Hsz).
  destruct (start_empty (Laws := demo_laws) (calm false 0 merge_qsort) demo_hash demo_config demo_types patient_conf eq_refl
    0 (demo_start vs) (demo_starts vs)) as (db & Hi & _); [done|].
  exists vs, db. split; [exact Hvs|]. split; [exact Hi|].
  apply (slave_never_catches_up (calm false 0 merge_qsort) demo_hash 1 (demo_start vs) patient_conf (no_db_files 3) 0 db);
    [exact Hi| |lia].
  apply (rtc_once _ _). by eapply SCatchUp.
Defined.

(** A lock that fails. *)
Definition no_lock (io : table_io vstorage_manager) : table_io vstorage_manager :=
  TableIo (now io) (table_mkdirs io) (dir_mkdirs io) (dir_realpath io) (dir_symlink io) (mkdir_seg io) (mkdir_field io)
    (fresh_store io) (pool io) (null_type io) (thread_ok io) (map_meta io) (map_index io) (rename_ok io) false.

Definition unlucky_io (vs : vstorage_manager) : db_io vstorage_manager :=
  DbIo (demo_io vs) (demo_io vs) (no_lock (demo_io vs)) (calm_write 100) (calm_write 100) (λ _, empty_dir (demo_io vs)).

Lemma failed_lock_blocks_tasks_witness :
  ∃ vs db db' t, store = Some vs ∧ after [a_doc 3] = Some db ∧ db_get_table_instance db [116] = Some (Some t) ∧
    db_load_segment (calm false 0 merge_qsort) demo_hash (unlucky_io vs) db [116] 1 [47] = Some (ERROR_LOCK_FAILED, db') ∧
    db_compress (calm false 0 merge_qsort) (demo_db_io vs) db' [116] = None.
Proof.
  destruct store as [vs|] eqn:Ev; [|vm_compute in Ev; discriminate Ev].
  assert (task_locked <$> after [a_doc 3] = Some false) as Hl by (vm_compute; reflexivity).
  assert ((λ r, bool_decide (is_Some r)) <$> (db ← after [a_doc 3]; db_get_table_instance db [116]) = Some true) as Ht by (vm_compute; reflexivity).
  destruct (after [a_doc 3]) as [db|]; [|discriminate Hl]. injection Hl as Hl. cbn [mbind option_bind] in Ht.
  destruct (db_get_table_instance db [116]) as [[t|]|] eqn:Hg; [|discriminate Ht|discriminate Ht].
  destruct (failed_lock_blocks_tasks (calm false 0 merge_qsort) demo_hash (unlucky_io vs) db [116] 1 [47] t Hl Hg) as (db' & Hload & _ & _ & Hlater);
    [discriminate|].
  exists vs, db, db', t. split; [reflexivity|]. split; [reflexivity|]. split; [exact Hg|]. split; [exact Hload|].
  exact (proj1 (Hlater (demo_db_io vs) [116] t Hg)).
Defined.
End DbCases.
