(* ===== verification/DbSlave.v ===== *)
(** * A slave with its database

    [slave_client_handler] on the database of [db.c] ([DocEngine.cpp]): the records
    that come in packets are executed on the tables. *)

From Stdlib Require Import ZArith Lia.
From stdpp Require Import base option list numbers gmap sets.
From S2P Require Import Prelude FileOp StringMap SegRowid LowData HashIndex HashIndexSpec HashMemCompress VStorage Hash Column FilterIndex RowData IndexField IndexFieldSpec Segment SegmentSpec Table TableSpec Binlog BinlogSpec BinlogSync Slave SlaveSpec DbRecord DbRecordSpec Db DbRecover CatalogSpec DbSpec DbReplica DbStartSpec DatabaseSpec.

(** ** The storage engine ([DocEngine]) *)

(** What the calls meet, by their number. *)
Record engine_io (S : Type) := EngineIo {
  apply_io : nat → db_io S;
  msync_io : nat → bool;
  clock : nat → Z
}.
Arguments EngineIo {S}.
Arguments apply_io {S}.
Arguments msync_io {S}.
Arguments clock {S}.

Section engine.
Context {S : Type} `{!Column S}.
Context (env : field_env) (get_hash_value : low_data_struct → Z) (eio : engine_io S).

(** The number of calls so far and the database; [None] when a call was undefined. *)
Definition engine : Type := nat * option (db_manager S).

Definition DocEngine_ApplyBinlog (e : engine) (record : list Z) : Z * engine :=
  let '(i, odb) := e in
  match (db ← odb; db_execute_binrecord env get_hash_value (apply_io eio i) db record) with
  | Some (rc, db) => (rc, (Datatypes.S i, Some db))
  | None => (-1, (Datatypes.S i, None))
  end.

Definition DocEngine_SetSlaveSyncPos (e : engine) (offset_cur offset_left : Z) : Z * engine :=
  let '(i, odb) := e in
  match odb with
  | Some db =>
      let '(rc, db) := db_slave_set_offset (msync_io eio i) (clock eio i) db offset_cur offset_left in (rc, (Datatypes.S i, Some db))
  | None => (-1, (Datatypes.S i, None))
  end.

Definition DocEngine_SetReadable (e : engine) (readable : bool) : engine :=
  (fst e, (if readable then set_db_readable else set_db_unreadable) <$> snd e).

#[export] Instance db_engine : StorageEngine engine := {
  ApplyBinlog := DocEngine_ApplyBinlog;
  SetSlaveSyncPos := DocEngine_SetSlaveSyncPos;
  SetReadable := DocEngine_SetReadable
}.
End engine.

(** ** What it promises *)

(** A log of confirmed changes has two records for each. *)
Lemma confirmed_length cs L : confirmed cs L → length L = (2 * length cs)%nat.
Proof. revert L. induction cs as [|c cs IH]; intros L; cbn [confirmed]; [by intros ->|]. intros (r & t & L' & _ & _ & -> & H). simpl. rewrite (IH _ H). lia. Qed.

Lemma confirmed_take cs L k : confirmed cs L → fst (replay None (take k L)) = take (Nat.div2 k) (fst (replay None L)).
Proof.
  revert L k. induction cs as [|c cs IH]; intros L k; cbn [confirmed]; [intros ->; cbn [replay fst]; by rewrite !take_nil|].
  intros (r & t & L' & Hl & _ & -> & H). destruct k as [|[|k]]; [done| |].
  - cbn [take replay]. by rewrite (logs_not_confirm c r Hl).
  - cbn [take replay Nat.div2]. rewrite (logs_not_confirm c r Hl).
    change (is_confirm (set_time (confirm_record true) t)) with true. cbv iota. specialize (IH L' k H).
    destruct (replay None (take k L')) as [l p], (replay None L') as [l' p']. cbn [fst snd] in *. subst l.
    by change (rec_op_code _ =? OPERATION_CONFIRM_OK) with true.
Qed.

Section slave.
Context {S : Type} `{!Column S}.
Context (env : field_env) (get_hash_value : low_data_struct → Z) (config : table_config) (types : list Z → field_types).
Context {Laws : TableLaws (S := S) env get_hash_value config types}.
Context (conf : db_conf) (Hconf : same_config conf config) (Hsegs : conf_segments conf = config_segments config).
Context (mem : list Z) (eio : engine_io S) (Heio : ∀ i, calm_db env get_hash_value config types mem (apply_io eio i)).
Implicit Types (D : gmap (list Z) table_state) (L : list binlog_record).
Abbreviation N := (config_limit config) (only parsing).
Abbreviation rep := (db_rep env get_hash_value config types conf) (only parsing).
Abbreviation specs := (db_specs get_hash_value config types) (only parsing).
Abbreviation ok := (db_ops_ok env get_hash_value config types mem) (only parsing).

Lemma rep_other b D L db db' :
  rep b D L db → cat db' = cat db → settings db' = settings db → task_locked db' = task_locked db → stat db' = stat db →
  log_dir db' = log_dir db → binlog_writer db' = binlog_writer db → rep b D L db'.
Proof.
  intros [[] Hl Hlog] Hc Hs Ht Hst Hd Hw. split.
  - split; rewrite ?Hc, ?Hs, ?Ht; done.
  - unfold logging in *. by rewrite Hs, Hst.
  - intros Hb. destruct (Hlog Hb) as (w & chunks & ?). exists w, chunks. by rewrite Hd, Hw.
Qed.

(** Checkpoints are not logged. *)
Definition is_change (op : db_op) : Prop := match op with DCheckpoint _ => False | _ => True end.

#[global] Instance is_change_dec op : Decision (is_change op).
Proof. destruct op; apply _. Defined.

(** The changes [ops], and the records for them. *)
Context (b : bool) (ops : list (db_io S * db_op)) (Hok : ok ∅ ops).
Context (rs : list binlog_record).

(** The first [j] operations have been executed. *)
Definition done_first (j : nat) (e : engine (S := S)) : Prop :=
  ∃ db L, snd e = Some db ∧ rep b (specs ∅ (take j ops)) L db ∧ room_of_log L (zlen ops - Z.of_nat j) ∧ (j ≤ length ops)%nat.

(** The next record is the one for the next operation. *)
Definition next_record (j : nat) (block : list Z) : option nat :=
  match rs !! j with
  | Some r => if decide (record_bytes r = block) then Some (Datatypes.S j) else None
  | None => None
  end.

Lemma specs_app D (a a' : list (db_io S * db_op)) : specs D (a ++ a') = specs (specs D a) a'.
Proof. apply foldl_app. Qed.

Lemma ok_app D (a a' : list (db_io S * db_op)) : ok D (a ++ a') → ok (specs D a) a'.
Proof. revert D. induction a as [|[io op] a IH]; intros D; [done|]. intros (_ & _ & H). by apply IH. Qed.

Lemma changes_at D (l : list (db_io S * db_op)) j p :
  Forall (λ p, is_change p.2) l → l !! j = Some p →
  ∃ c, change_of N types (specs D (take j l)) p.2 = Some c ∧ changes get_hash_value config types D l !! j = Some c.
Proof.
  intros Hl. revert D j. induction Hl as [|[io op] l Hop Hl IH]; intros D j Hj; [done|].
  destruct (change_of N types D op) as [c|] eqn:Ec; [|by destruct op].
  cbn [changes]. rewrite Ec. destruct j as [|j]; [by injection Hj as <-; exists c|]. exact (IH _ j Hj).
Qed.

Context (Hchange : Forall (λ p : db_io S * db_op, is_change p.2) ops).
Context (Hrs : Forall2 logs (changes get_hash_value config types ∅ ops) rs).

Lemma next_done j j' (e : engine (S := S)) block :
  done_first j e → next_record j block = Some j' →
  ∃ e', ApplyBinlog (StorageEngine := db_engine env get_hash_value eio) e block = (MILE_RETURN_SUCCESS, e') ∧ done_first j' e'.
Proof.
  intros (db & L & He & Hrep & Hroom & Hj) Hn. unfold next_record in Hn.
  destruct (rs !! j) as [r|] eqn:Er; [|done]. case_decide as Hb; [|done]. injection Hn as <-. subst block.
  assert (j < length ops)%nat as Hlt.
  { apply lookup_lt_Some in Er. rewrite <- (Forall2_length _ _ _ Hrs) in Er.
    clear - Er Hchange. revert j Er. generalize (∅ : gmap (list Z) table_state). induction Hchange as [|[io op] l Hop Hl IH]; intros D j Hj.
    - simpl in Hj. lia.
    - cbn [changes] in Hj. destruct (change_of N types D op) eqn:Ec; [|by destruct op]. simpl in Hj. destruct j as [|j]; [simpl; lia|].
      simpl. apply Nat.lt_succ_r, Nat.le_succ_l. apply (IH Hl (db_spec get_hash_value N types D op)). lia. }
  destruct (lookup_lt_is_Some_2 ops j Hlt) as [[io op] Hop].
  destruct (changes_at ∅ ops j _ Hchange Hop) as (c & Hc & Hcj).
  destruct (Forall2_lookup_l _ _ _ _ _ Hrs Hcj) as (r' & Er' & Hlog). assert (r' = r) as -> by congruence.
  pose proof (take_drop_middle ops j _ Hop) as Eops. pose proof Hok as Hok'. rewrite <- Eops in Hok'. apply ok_app in Hok' as (_ & Hopok & _).
  destruct e as [i odb]. cbn [snd] in He. subst odb.
  destruct (execute_op env get_hash_value config types conf Hconf Hsegs mem b _ L db (apply_io eio i) op c r Hrep (Heio i) Hopok)
    as (db' & L' & E & Hrep' & Hentry); [destruct Hroom; split; unfold zlen in *; lia|exact Hc|exact Hlog|].
  cbn [ApplyBinlog db_engine]. unfold DocEngine_ApplyBinlog. cbn [mbind option_bind]. rewrite E. eexists. split; [done|]. exists db', L'. split; [done|].
  rewrite (take_S_r _ _ _ Hop), specs_app. split; [exact Hrep'|]. split; [|lia].
  unfold entry in Hentry. destruct b.
  - apply (entry_rooms mem c L L'); [by apply Hopok|by replace (_ - _ + 1) with (zlen ops - Z.of_nat j) by lia|done].
  - subst L'. destruct Hroom. split; unfold zlen in *; lia.
Qed.

Lemma offset_rep D L db m t p left : rep b D L db → rep b D L (snd (db_slave_set_offset m t db p left)).
Proof.
  intros H. unfold db_slave_set_offset. destruct (negb m); [by apply (rep_other b D L db)|].
  cbv zeta. by apply (rep_other b D L db).
Qed.

#[local] Program Instance slave_laws : StorageEngineLaws (StorageEngine0 := db_engine env get_hash_value eio) (engine (S := S)) nat :=
  {| content := done_first; apply_change := next_record |}.
Next Obligation. intros j j' e block. apply next_done. Qed.
Next Obligation.
  intros j [i odb] p left (db & L & He & Hrep & Hroom & Hj). cbn in He. subst odb. cbn.
  destruct (db_slave_set_offset _ _ _ _ _) as [rc db'] eqn:E. exists db', L. split; [done|]. split; [|done].
  apply (f_equal snd) in E. cbn in E. subst db'. by apply offset_rep.
Qed.
Next Obligation.
  intros j [i odb] r (db & L & He & Hrep & Hroom & Hj). cbn in He. subst odb. eexists _, L. split; [done|]. split; [|done].
  by destruct r; apply (rep_other b _ L db).
Qed.

(** All records make sense, one after the other. *)
Lemma records_apply j k :
  (j + k ≤ length rs)%nat →
  apply_all (StorageEngineLaws0 := slave_laws) j (take k (drop j rs)) = Some (j + k)%nat.
Proof.
  revert j. induction k as [|k IH]; intros j Hk; [by rewrite Nat.add_0_r|].
  destruct (lookup_lt_is_Some_2 rs j) as [r Hr]; [lia|]. rewrite (drop_S _ _ _ Hr). cbn [take apply_all].
  cbn [apply_change slave_laws]. unfold next_record. rewrite Hr, decide_True by done. cbn [mbind option_bind].
  rewrite IH by lia. f_equal. lia.
Qed.

Lemma ops_length D (l : list (db_io S * db_op)) :
  Forall (λ p, is_change p.2) l → length (changes get_hash_value config types D l) = length l.
Proof.
  intros H. revert D. induction H as [|[io op] l Hop Hl IH]; intros D; [done|]. cbn [changes].
  destruct (change_of N types D op) eqn:E; [|by destruct op]. simpl. by rewrite IH.
Qed.

Lemma slave_reaches L chunks rios max_size w files s0 buffer :
  confirmed (changes get_hash_value config types ∅ ops) L → rs = fst (replay None L) → concat chunks = L → log_ok chunks →
  Forall slave_takes L → files_rep files chunks → writer_rep w files chunks →
  zlen (sb_data buffer) = 10 * MAX_BINLOG_DATA_PER_PACKET → Forall read_goes rios → size_of L ≤ zlen rios →
  rep b ∅ [] s0 → room_of_log [] (zlen ops) →
  ∃ s rd files' i sdb j L',
    sync_with_master (StorageEngine0 := db_engine env get_hash_value eio) rios max_size w files NULL
      (connect buffer 0 (0%nat, Some s0)) = Some (Running (s, rd, files')) ∧
    sl_db s = (i, Some sdb) ∧ rep b (specs ∅ (take j ops)) L' sdb ∧ (j ≤ length ops ≤ Datatypes.S j)%nat.
Proof.
  intros HL Ers Hc Hlog Htakes Hf Hw Hbuf Hio Hlen Hrep Hroom. rewrite <- Hc in *.
  pose proof (ops_length ∅ ops Hchange) as Hops. pose proof (Forall2_length _ _ _ Hrs) as Hlrs.
  destruct (slave_follows (StorageEngineLaws0 := slave_laws) rios chunks max_size w files 0%nat (0%nat, Some s0) buffer)
    as (s & rd & files' & k & j & Es & Hj & (sdb & L' & Hdb & Hrep' & _ & Hjl) & Hk & _); try done.
  - rewrite <- Ers. pose proof (records_apply 0 (length rs) (le_n _)) as E. rewrite drop_0, firstn_all in E. by eexists.
  - exists s0, []. split; [done|]. split; [done|]. split; [by rewrite Z.sub_0_r|lia].
  - destruct (sl_db s) as [i odb] eqn:Edb. cbn [snd] in Hdb. subst odb. exists s, rd, files', i, sdb, j, L'. do 3 (split; [done|]).
    rewrite (confirmed_take _ _ k HL), <- Ers in Hj.
    assert (Nat.div2 k ≤ length rs)%nat as Hk2.
    { pose proof (confirmed_length _ _ HL). rewrite Nat.div2_div. apply Nat.Div0.div_le_upper_bound. lia. }
    pose proof (records_apply 0 (Nat.div2 k) Hk2) as E. rewrite drop_0 in E. rewrite E in Hj. injection Hj as <-.
    pose proof (confirmed_length _ _ HL). rewrite Nat.add_0_l, Nat.div2_div in *. split; [lia|].
    pose proof (Nat.div_mod_eq k 2). pose proof (Nat.mod_upper_bound k 2). lia.
Qed.
End slave.

(** ** Operations without checkpoints *)

Section logged.
Context {S : Type} `{!Column S}.
Context (env : field_env) (get_hash_value : low_data_struct → Z) (config : table_config) (types : list Z → field_types).
Context {Laws : TableLaws (S := S) env get_hash_value config types}.
Implicit Types (D : gmap (list Z) table_state) (ops : list (db_io S * db_op)).

Definition logged ops : list (db_io S * db_op) := filter (λ p, is_change p.2) ops.

Lemma logged_changes ops : Forall (λ p, is_change p.2) (logged ops).
Proof. apply Forall_forall. intros p Hp. by apply list_elem_of_filter in Hp as [? _]. Qed.

Lemma logged_same mem D ops :
  db_specs get_hash_value config types D (logged ops) = db_specs get_hash_value config types D ops ∧
  changes get_hash_value config types D (logged ops) = changes get_hash_value config types D ops ∧
  (db_ops_ok env get_hash_value config types mem D ops → db_ops_ok env get_hash_value config types mem D (logged ops)).
Proof.
  revert D. induction ops as [|[io op] ops IH]; intros D; [done|]. unfold logged. rewrite filter_cons. fold (logged ops). cbn [snd].
  case_decide as Hc.
  - destruct (IH (db_spec get_hash_value (config_limit config) types D op)) as (E1 & E2 & E3). split; [exact E1|].
    cbn [changes]. rewrite E2. split; [done|]. intros (? & ? & H). split; [done|]. split; [done|]. by apply E3.
  - destruct op; try done. destruct (IH D) as (E1 & E2 & E3). split; [exact E1|]. split; [exact E2|]. intros (_ & _ & H). by apply E3.
Qed.

Lemma logged_length ops : zlen (logged ops) ≤ zlen ops.
Proof. unfold logged, zlen. pose proof (length_filter (λ p : db_io S * db_op, is_change p.2) ops). lia. Qed.
End logged.

(** ** Small changes *)

(** The buffer of a slave has ten packets, a turn adds one. *)
Definition small (c : change) : Prop := RECORD_SIZE + zlen (change_data c) ≤ 9 * MAX_BINLOG_DATA_PER_PACKET.

#[global] Instance small_dec c : Decision (small c).
Proof. unfold small. apply _. Defined.

Lemma small_taken mem c r : change_ok mem c → small c → logs c r → slave_takes r.
Proof.
  intros Hc Hs Hl. destruct (logs_header mem c r Hc Hl) as [Hok _]. destruct Hl as (t & -> & _). split; [done|].
  split; [by destruct c|]. exact Hs.
Qed.

Lemma confirm_taken t : 0 ≤ t < 2 ^ 32 → slave_takes (set_time (confirm_record true) t).
Proof. intros. split; [|done]. split; [done|]. by split. Qed.

Lemma log_taken mem cs L : Forall (change_ok mem) cs → Forall small cs → confirmed cs L → Forall slave_takes L.
Proof.
  revert L. induction cs as [|c cs IH]; intros L Hc Hs; cbn [confirmed]; [by intros ->|].
  intros (r & t & L' & Hl & Ht & -> & H). inversion Hc; inversion Hs; subst.
  apply Forall_cons; split; [by apply (small_taken mem c)|]. apply Forall_cons; split; [by apply confirm_taken|]. by apply IH.
Qed.

(** ** The end to end theorem *)

Section follows.
Context {S : Type} `{!Column S, !ColumnLaws S}.
Context (get_hash_value : low_data_struct → Z) (nh : Z) `{!HashLaws get_hash_value nh}.
Context (shared : bool) (junk : Z) (qsort : (Z → Z → Z) → list Z → list Z) `{!QsortLaws qsort}.
Context (N : Z) (HN : 0 < N) (Hmax : 16 * (N + 1) < 2 ^ 31).
Context (M : Z) (HM : 0 < M) (HM33 : M * 33 < 2 ^ 31).
Context (types : list Z → field_types) (fits : Z → Prop) (B0 : Z).
Context (config : table_config) (Hcd : 0 < zlen (config_dirs config)) (Hcs : config_segments config = M)
  (Hcl : config_limit config = N) (Hcr : config_raw config = true).

#[local] Instance follow_laws : TableLaws (S := S) (calm shared junk qsort) get_hash_value config types :=
  table_laws get_hash_value nh shared junk qsort N HN Hmax M HM HM33 types fits B0 config Hcd Hcs Hcl Hcr.
Abbreviation env := (calm shared junk qsort) (only parsing).

Lemma changes_are_ok mem D (ops : list (db_io S * db_op)) :
  db_ops_ok env get_hash_value config types mem D ops → Forall (change_ok mem) (changes get_hash_value config types D ops).
Proof.
  revert D. induction ops as [|[io op] ops IH]; intros D; [constructor|]. intros (_ & [Hc _] & H). cbn [changes].
  apply Forall_app. split; [|by apply IH]. destruct (change_of _ _ D op) as [c|]; constructor; [by apply Hc|constructor].
Qed.

(** C1: replication of the database.  A master runs any sequence of changes and
    logs them; a slave, another database on empty directories, pulls the log's files
    in packets over one connection, as [sync_with_master] does, and executes on
    its tables what was confirmed.  When enough packets have come its queries
    answer as the queries of the master after the same changes, or after all but
    the last one, whose confirmation may still be on the way. *)
Theorem slave_follows_master fuel sio sio' conf conf' mem (ops : list (db_io S * db_op)) eio buffer :
  calm_start sio → calm_start sio' → conf_ok M config conf → conf_ok M config conf' → binlog_flag conf = true →
  zlen ops < 2 ^ 29 → db_ops_ok env get_hash_value config types mem ∅ ops →
  Forall small (changes get_hash_value config types ∅ ops) →
  (∀ i, calm_db env get_hash_value config types mem (apply_io eio i)) →
  zlen (sb_data buffer) = 10 * MAX_BINLOG_DATA_PER_PACKET →
  let asked v := key_of get_hash_value v ≠ Some nh in
  ∃ m0 m w chunks s0,
    db_init env get_hash_value (Datatypes.S fuel) sio conf (no_db_files M) = Some (0, m0) ∧
    db_run env get_hash_value N types m0 ops = Some m ∧
    shows get_hash_value N asked (db_specs get_hash_value config types ∅ ops) m ∧
    binlog_writer m = Ptr w ∧ files_rep (log_dir m) chunks ∧
    db_init env get_hash_value (Datatypes.S fuel) sio' conf' (no_db_files M) = Some (0, s0) ∧
    ∀ rios, Forall read_goes rios → size_of (concat chunks) ≤ zlen rios →
      ∃ s rd files i sdb j,
        sync_with_master (StorageEngine0 := db_engine env get_hash_value eio) rios (binlog_maxsize conf) w (log_dir m) NULL
          (connect buffer 0 (0%nat, Some s0)) = Some (Running (s, rd, files)) ∧
        sl_db s = (i, Some sdb) ∧ (j ≤ length (logged ops) ≤ Datatypes.S j)%nat ∧
        shows get_hash_value N asked (db_specs get_hash_value config types ∅ (take j (logged ops))) sdb.
Proof.
  intros Hs Hs' Hc [Ht Hsg Hd Hl] Hb Hn Hops Hsmall Heio Hbuf asked.
  destruct (run_from_start get_hash_value nh shared junk qsort N HN Hmax M HM HM33 types fits B0 config Hcd Hcs Hcl Hcr
    fuel sio conf mem ops Hs Hc Hn Hops) as (m0 & m & L & H0 & Hrun & Hrep & HL & _). specialize (HL Hb).
  rewrite Hb in Hrep. destruct (ho_log _ _ _ _ _ Hrep eq_refl) as (w & chunks & Hw & HcL & Hlok & Hf & Hwr).
  destruct (start_empty env get_hash_value config types conf' Hd fuel sio' Hs' Hl) as (s0 & Hs0 & Hrep0 & _). rewrite Hsg in Hs0.
  exists m0, m, w, chunks, s0. split; [done|]. split; [done|].
  split; [rewrite <- Hcl; exact (rep_shows env get_hash_value config types conf true _ L _ Hrep)|].
  do 3 (split; [done|]). intros rios Hio Hlen.
  destruct (logged_same env get_hash_value config types mem ∅ ops) as (_ & Ech & Hok). specialize (Hok Hops).
  destruct (replay_confirmed _ _ HL) as [_ Hlogs]. pose proof HL as HL'. rewrite <- Ech in HL', Hlogs.
  destruct (slave_reaches env get_hash_value config types conf' Ht ltac:(congruence) mem eio Heio (binlog_flag conf') (logged ops) Hok
    (fst (replay None L)) (logged_changes ops) Hlogs L chunks rios (binlog_maxsize conf) w (log_dir m) s0 buffer)
    as (s & rd & files & i & sdb & j & L' & Es & Edb & Hrep' & Hj); try done.
  - exact (log_taken mem _ L (changes_are_ok mem ∅ ops Hops) Hsmall HL).
  - by rewrite <- HcL.
  - apply room_at_start. pose proof (zlen_nonneg (logged ops)). pose proof (logged_length ops). lia.
  - exists s, rd, files, i, sdb, j. do 3 (split; [done|]).
    rewrite <- Hcl. exact (rep_shows env get_hash_value config types conf' (binlog_flag conf') _ L' _ Hrep').
Qed.
End follows.

Definition demo_engine_io (vs : vstorage_manager) : engine_io vstorage_manager :=
  EngineIo (λ _, demo_db_io vs) (λ _, true) (λ i, 1000 * Z.of_nat i).

(** The slave has the deletion, which is not the last change. *)
Lemma slave_follows_master_witness :
  ∃ vs m0 m w s0 rios s rd files i sdb, vstorage_init true false 0 [] [] 2 = Ptr vs ∧
    db_init (calm false 0 merge_qsort) demo_hash 1 (demo_start vs) (demo_conf true) (no_db_files 3) = Some (0, m0) ∧
    db_run (calm false 0 merge_qsort) demo_hash 2 demo_types m0 (demo_db_run vs) = Some m ∧ binlog_writer m = Ptr w ∧
    db_init (calm false 0 merge_qsort) demo_hash 1 (demo_start vs) (demo_conf false) (no_db_files 3) = Some (0, s0) ∧
    sync_with_master (StorageEngine0 := db_engine (calm false 0 merge_qsort) demo_hash (demo_engine_io vs)) rios 1000 w (log_dir m) NULL
      (connect slave_memory 0 (0%nat, Some s0)) = Some (Running (s, rd, files)) ∧
    sl_db s = (i, Some sdb) ∧ db_is_docid_deleted m [116] 0 0 = Some 1 ∧ db_is_docid_deleted sdb [116] 0 0 = Some 1.
Proof.
  destruct demo_table_store as (vs & Hvs & Hst & Hsz).
  destruct (slave_follows_master demo_hash 77 (HashLaws0 := demo_hash_laws) false 0 merge_qsort (QsortLaws0 := merge_qsort_laws)
    2 eq_refl eq_refl 3 eq_refl eq_refl demo_types demo_fits 0 demo_config eq_refl eq_refl eq_refl eq_refl
    0 (demo_start vs) (demo_start vs) (demo_conf true) (demo_conf false) demo_pool (demo_db_run vs) (demo_engine_io vs) slave_memory)
    as (m0 & m & w & chunks & s0 & H0 & Hrun & Hm & Hw & _ & Hs0 & Hsync);
    [apply demo_starts|apply demo_starts|apply demo_conf_ok|apply demo_conf_ok|reflexivity|vm_compute; reflexivity|by apply demo_db_ok
    |refine (bool_decide_unpack _ _); vm_compute; exact I|intros i; by apply demo_db_calm|exact slave_memory_length|].
  destruct (Hsync (replicate (Z.to_nat (size_of (concat chunks))) (fst calm_read))) as (s & rd & files & i & sdb & j & Es & Edb & Hj & Hs).
  - apply Forall_replicate, calm_read_goes.
  - rewrite zlen_replicate. pose proof (size_of_nonneg (concat chunks)). lia.
  - exists vs, m0, m, w, s0. eexists _, s, rd, files, i, sdb. split; [exact Hvs|]. split; [exact H0|]. split; [exact Hrun|].
    split; [exact Hw|]. split; [exact Hs0|]. split; [exact Es|]. split; [exact Edb|].
    destruct (Hm [116]) as (_ & Hd & _). split; [apply (Hd 0); vm_compute; done|].
    change (length (logged (demo_db_run vs))) with 9%nat in Hj. assert (j = 8 ∨ j = 9)%nat as [->| ->] by lia.
    + destruct (Hs [116]) as (_ & Hd' & _). apply (Hd' 0); vm_compute; done.
    + destruct (Hs [116]) as (_ & Hd' & _). apply (Hd' 0); vm_compute; done.
Defined.
