(* ===== verification/DbQuery.v ===== *)
(** * Index conditions on a database

    The evaluator of [suffix.c] with the lookups of [db.c]: what a condition over
    indexed columns finds are the documents whose values satisfy it. *)

From Stdlib Require Import ZArith Lia.
From stdpp Require Import base option list numbers gmap sets.
From S2P Require Import Prelude FileOp StringMap RowidList SetOperator SegRowid Suffix LowData HashIndex HashIndexSpec HashMemCompress VStorage Hash Column FilterIndex RowData DataField IndexField IndexFieldSpec Segment SegmentSpec Table TableSpec TableIndexSpec Binlog BinlogSpec BinlogSync Slave SlaveSpec DbRecord DbRecordSpec Db DbRecover CatalogSpec DbSpec DbReplica DbStartSpec DatabaseSpec.

(** ** Keys and rows *)

Section keys.
Context (get_hash_value : low_data_struct → Z) (N : Z) (HN : 0 < N) (types : list Z → field_types).
Implicit Types (ts : table_state).

(** The index of a column is what the rows say. *)
Record keyed ts : Prop := {
  ke_inside : ∀ name i p, p ∈ tkeys ts name i → 0 ≤ p.1 < N ∧ 0 ≤ i ∧ i * N + p.1 < zlen (trows ts);
  ke_rows : ∀ name i d k, name ∈ tcols ts → 0 ≤ i → 0 ≤ d < N →
    ((d, k) ∈ tkeys ts name i ↔ ∃ fs, (trows ts)⟦i * N + d⟧ = Some fs ∧ row_key get_hash_value types name fs = Some k)
}.

Lemma keyed_new : keyed (new_table []).
Proof. split; [intros name i p H; by apply elem_of_nil in H|]. intros name i d k H. by apply elem_of_nil in H. Qed.

Lemma push_key_spec name fs d kh p :
  p ∈ push_key get_hash_value types name fs d kh ↔ p ∈ kh ∨ ∃ k, row_key get_hash_value types name fs = Some k ∧ p = (d, k).
Proof.
  unfold push_key. destruct (row_key get_hash_value types name fs) as [k|]; [rewrite elem_of_cons|]; naive_solver.
Qed.

Lemma keyed_insert ts fs : keyed ts → keyed (table_spec get_hash_value N types ts (TInsert fs)).
Proof.
  intros [Hin Hrows]. pose proof (zlen_nonneg (trows ts)) as Hz. set (n := zlen (trows ts)) in *.
  assert (n = n / N * N + n `mod` N ∧ 0 ≤ n `mod` N < N ∧ 0 ≤ n / N) as (En & Hm & Hd).
  { pose proof (Z.div_mod n N ltac:(lia)). pose proof (Z.mod_pos_bound n N HN). pose proof (Z.div_pos n N ltac:(lia) HN). lia. }
  split; cbn [table_spec tcols trows tkeys]; fold n; rewrite ?zlen_app; change (zlen [fs]) with 1; fold n.
  - intros name i p Hp. case_decide as Hi.
    + apply push_key_spec in Hp as [Hp|(k & _ & ->)]; [destruct (Hin _ _ _ Hp); lia|]. cbn [fst]. subst i. lia.
    + destruct (Hin _ _ _ Hp). lia.
  - intros name i d k Hname Hi Hdd.
    assert (∀ x, ((trows ts ++ [fs])⟦i * N + d⟧ = Some x ↔ (trows ts)⟦i * N + d⟧ = Some x ∨ (i * N + d = n ∧ x = fs))) as Hget.
    { intros x. destruct (decide (i * N + d < n)) as [Hlt|Hge].
      - rewrite !zget_lookup by lia. rewrite lookup_app_l by (unfold n, zlen in *; lia). split; [auto|]. intros [?|[? _]]; [done|lia].
      - destruct (decide (i * N + d = n)) as [E|Hne].
        + rewrite E. rewrite zget_mid by done. split; [intros [= ->]; auto|]. intros [Hx|[_ ->]]; [|done].
          apply zget_Some_range in Hx. fold n in Hx. lia.
        + split; [intros Hx; apply zget_Some_range in Hx; rewrite zlen_app in Hx; fold n in Hx; change (zlen [fs]) with 1 in Hx; lia|].
          intros [Hx|[? _]]; [apply zget_Some_range in Hx; fold n in Hx; lia|done]. }
    setoid_rewrite Hget. specialize (Hrows name i d k Hname Hi Hdd). case_decide as Hin'.
    + rewrite push_key_spec, Hrows. split.
      * intros [(x & ? & ?)|(k' & Hk & [= -> ->])]; [by eauto|]. exists fs. split; [right; split; [lia|done]|done].
      * intros (x & [Hx|[E ->]] & Hk); [eauto|]. right. exists k. split; [done|]. f_equal. subst i. lia.
    + rewrite Hrows. split; [intros (x & ? & ?); eauto|]. intros (x & [Hx|[E ->]] & Hk); [eauto|]. exfalso. apply Hin'.
      apply (Z.div_unique n N i d); lia.
Qed.

Lemma keyed_update ts n new :
  keyed ts → 0 ≤ n < zlen (trows ts) → field_name new ∉ tcols ts → keyed (table_spec get_hash_value N types ts (TUpdate n new)).
Proof.
  intros [Hin Hrows] Hn Hnew. split; cbn [table_spec tcols trows tkeys]; [intros name i p; rewrite zlen_insert; apply Hin|].
  intros name i d k Hname Hi Hd. rewrite Hrows by done. destruct (zget_lt _ _ Hn) as [old Hold]. rewrite Hold. cbn [default option.from_option id].
  assert (row_key get_hash_value types name (set_field old new) = row_key get_hash_value types name old) as Ek.
  { unfold row_key. rewrite lookup_set_field, bool_decide_false; [done|]. by intros <-. }
  destruct (decide (i * N + d = n)) as [E|Hne].
  - rewrite E, Hold, zget_insert_eq by lia. split.
    + intros (x & [= <-] & Hk). eexists. split; [done|]. simpl. by rewrite Ek.
    + intros (x & [= <-] & Hk). eexists. split; [done|]. simpl in Hk. by rewrite Ek in Hk.
  - by rewrite zget_insert_ne by lia.
Qed.
End keys.

(** ** Evaluation row by row *)

Section eval.
Context {V : Type} `{!IndexDb V} (segs : list Z) (F : V → Z → gset Z).
Context (Hfound : ∀ v, found v = (λ s, (s, F v s)) <$> segs).

(** The rows of a segment. *)
Fixpoint rows_of (e : expr V) (s : Z) : gset Z :=
  match e with
  | Lookup v => F v s
  | In v vs => foldl (λ a v, a ∪ F v s) (F v s) vs
  | And e1 e2 => rows_of e1 s ∩ rows_of e2 s
  | Or e1 e2 => rows_of e1 s ∪ rows_of e2 s
  | Minus e1 e2 => rows_of e1 s ∖ rows_of e2 s
  end.

Lemma map2_rows sem (a b : Z → gset Z) (l : list Z) :
  seg_map2 sem ((λ s, (s, a s)) <$> l) ((λ s, (s, b s)) <$> l) = (λ s, (s, sem (a s) (b s))) <$> l.
Proof. unfold seg_map2. induction l as [|s l IH]; [done|]. cbn. by rewrite IH. Qed.

Lemma eval_rows e : eval e = (λ s, (s, rows_of e s)) <$> segs.
Proof.
  induction e as [v|v vs|e1 IH1 e2 IH2|e1 IH1 e2 IH2|e1 IH1 e2 IH2]; cbn [eval rows_of]; [apply Hfound| |by rewrite IH1, IH2, map2_rows..].
  rewrite (Hfound v). generalize (F v). induction vs as [|v' vs IH]; intros a; [done|]. cbn [foldl]. by rewrite Hfound, map2_rows, IH.
Qed.
End eval.

(** ** Conditions over documents *)

(** A value that can be looked up in an indexed column. *)
Record sought (get_hash_value : low_data_struct → Z) (nh : Z) (cols : list (list Z)) := Sought {
  sought_field : field;
  sought_col : field_name sought_field ∈ cols;
  sought_key : key_of get_hash_value (fdata sought_field) ≠ Some nh
}.
Arguments sought_field {get_hash_value nh cols}.
Arguments sought_col {get_hash_value nh cols}.
Arguments sought_key {get_hash_value nh cols}.

Section condition.
Context (get_hash_value : low_data_struct → Z) (nh : Z) (types : list Z → field_types) (cols : list (list Z)).
Implicit Types (p : sought get_hash_value nh cols) (e : expr (sought get_hash_value nh cols)).

(** The row has the value in the column, as far as the hash tells. *)
Definition has_value p (fs : list field) : bool :=
  bool_decide (row_key get_hash_value types (field_name (sought_field p)) fs = Some (key_of get_hash_value (fdata (sought_field p)))).

Fixpoint matches e (fs : list field) : bool :=
  match e with
  | Lookup p => has_value p fs
  | In p ps => existsb (λ p, has_value p fs) (p :: ps)
  | And e1 e2 => matches e1 fs && matches e2 fs
  | Or e1 e2 => matches e1 fs || matches e2 fs
  | Minus e1 e2 => matches e1 fs && negb (matches e2 fs)
  end.

(** The lookups of the database for the table [name] and the segments [hs]. *)
Definition db_lookups {S} (log : double → double) (db : db_manager S) (name : list Z) (hs : list segment_hint)
    : IndexDb (sought get_hash_value nh cols) := {|
  Suffix.db_index_equal_query p := default NULL (Db.db_index_equal_query get_hash_value db name hs (sought_field p));
  Suffix.db_fulltext_index_equal_query p := default NULL (Db.db_fulltext_index_equal_query get_hash_value db name hs (sought_field p));
  Suffix.db_fulltext_index_length_query p := default 0 (Db.db_fulltext_index_length_query get_hash_value db name hs (sought_field p));
  Suffix.db_get_record_num := default 0 (Db.db_get_record_num db name hs);
  Suffix.db_get_delete_num := default 0 (Db.db_get_delete_num db name hs);
  Suffix.log := log
|}.
End condition.

(** ** The theorem *)

Lemma docs_of_spec kh k d : d ∈ docs_of kh k ↔ (d, k) ∈ kh.
Proof.
  unfold docs_of. rewrite list_elem_of_fmap. split.
  - intros ([d' k'] & -> & H). apply list_elem_of_filter in H as [<- H]. done.
  - intros H. exists (d, k). split; [done|]. by apply list_elem_of_filter.
Qed.

Lemma foldl_union {V} (f : V → gset Z) vs (a : gset Z) d :
  d ∈ foldl (λ a v, a ∪ f v) a vs ↔ d ∈ a ∨ ∃ v, v ∈ vs ∧ d ∈ f v.
Proof.
  revert a. induction vs as [|v vs IH]; intros a; cbn [foldl]; [set_solver|]. rewrite IH. set_solver.
Qed.

Lemma elem_of_id_set p d : d ∈ id_set p ↔ d ∈ ids p.
Proof. apply elem_of_list_to_set. Qed.

Lemma same_places (l : seg_list) (places : list Z) (f : Z → gset Z) q :
  sid <$> l = places → seg_sets l = (λ s, (s, f s)) <$> places → q ∈ l → sid q ∈ places ∧ id_set (rowids q) = f (sid q).
Proof.
  intros <- E Hq. split; [by apply list_elem_of_fmap_2|]. rewrite <- list_fmap_compose in E.
  apply list_elem_of_lookup_1 in Hq as [i Hi]. apply (f_equal (lookup i)) in E. unfold seg_sets in E.
  rewrite !list_lookup_fmap, Hi in E. by injection E.
Qed.

Section evaluation.
Context {S : Type} `{!Column S}.
Context (get_hash_value : low_data_struct → Z) (nh : Z) (types : list Z → field_types) (N : Z) (HN : 0 < N) (HN31 : N < 2 ^ 31).
Context (ts : table_state) (Hts : keyed get_hash_value N types ts).
Abbreviation sought := (sought get_hash_value nh (tcols ts)).
Implicit Types (p : sought) (e : expr sought).

(** The documents of segment [s] that have the value. *)
Definition docs_with p (s : Z) : gset Z :=
  list_to_set (docs_of (tkeys ts (field_name (sought_field p)) s) (key_of get_hash_value (fdata (sought_field p)))).

Lemma elem_docs_with p s d : 0 ≤ s →
  d ∈ docs_with p s ↔ 0 ≤ d < N ∧ ∃ fs, (trows ts)⟦s * N + d⟧ = Some fs ∧ has_value get_hash_value nh types (tcols ts) p fs = true.
Proof.
  intros Hs. unfold docs_with, has_value. rewrite elem_of_list_to_set, docs_of_spec. setoid_rewrite bool_decide_eq_true. split.
  - intros Hp. destruct (ke_inside _ _ _ _ Hts _ _ _ Hp) as (Hd & _). cbn [fst] in Hd. split; [done|].
    exact (proj1 (ke_rows _ _ _ _ Hts _ s d _ (sought_col p) Hs Hd) Hp).
  - intros [Hd H]. exact (proj2 (ke_rows _ _ _ _ Hts _ s d _ (sought_col p) Hs Hd) H).
Qed.

Lemma elem_rows_of e s d : 0 ≤ s →
  d ∈ rows_of docs_with e s ↔ 0 ≤ d < N ∧ ∃ fs, (trows ts)⟦s * N + d⟧ = Some fs ∧ matches get_hash_value nh types (tcols ts) e fs = true.
Proof.
  intros Hs. induction e as [p|p ps|e1 IH1 e2 IH2|e1 IH1 e2 IH2|e1 IH1 e2 IH2]; cbn [rows_of matches].
  - by apply elem_docs_with.
  - rewrite foldl_union. setoid_rewrite (elem_docs_with _ _ _ Hs). cbn [existsb]. setoid_rewrite orb_true_iff.
    setoid_rewrite existsb_exists. setoid_rewrite <- list_elem_of_In. naive_solver.
  - rewrite elem_of_intersection, IH1, IH2. setoid_rewrite andb_true_iff. naive_solver.
  - rewrite elem_of_union, IH1, IH2. setoid_rewrite orb_true_iff. naive_solver.
  - rewrite elem_of_difference, IH1, IH2. setoid_rewrite andb_true_iff. setoid_rewrite negb_true_iff. split.
    + intros [[Hd (fs & Hf & H1)] Hn]. split; [done|]. exists fs. split_and!; [done..|]. apply not_true_iff_false. intros H2. apply Hn. eauto.
    + intros [Hd (fs & Hf & H1 & H2)]. split; [eauto|]. intros [_ (fs' & Hf' & H2')]. congruence.
Qed.

(** The database answers each lookup as the table says. *)
Lemma lookups_laws (log : double → double) (db : db_manager S) name hs places :
  (∀ p, ∃ l, Db.db_index_equal_query get_hash_value db name hs (sought_field p) = Some (Ptr l) ∧ sid <$> l = places ∧
      Forall (answers get_hash_value N ts (field_name (sought_field p)) (fdata (sought_field p))) l) →
  let I := db_lookups get_hash_value nh (tcols ts) log db name hs in
  IndexDbLaws sought N (places) ∧ ∀ p, found p = (λ s, (s, docs_with p s)) <$> places.
Proof.
  intros H I. split; [split; [done|]|]; intros p; destruct (H p) as (l & Hl & Hs & Ha).
  - exists l. simpl. rewrite Hl. split; [done|]. split; [|done]. by eapply Forall_impl; [exact Ha|intros q []].
  - unfold found. simpl. rewrite Hl. simpl. rewrite <- Hs. unfold seg_sets. rewrite <- list_fmap_compose.
    apply list_fmap_ext. intros i q Hq. rewrite Forall_lookup in Ha. destruct (Ha i q Hq) as [_ E]. simpl. unfold docs_with, id_set. by rewrite <- E.
Qed.
End evaluation.

Section query.
Context {S : Type} `{!Column S, !ColumnLaws S}.
Context (get_hash_value : low_data_struct → Z) (nh : Z) `{!HashLaws get_hash_value nh}.
Context (shared : bool) (junk : Z) (qsort : (Z → Z → Z) → list Z → list Z) `{!QsortLaws qsort}.
Context (N : Z) (HN : 0 < N) (Hmax : 16 * (N + 1) < 2 ^ 31).
Context (M : Z) (HM : 0 < M) (HM33 : M * 33 < 2 ^ 31).
Context (types : list Z → field_types) (fits : Z → Prop) (B0 : Z).
Context (config : table_config) (Hcd : 0 < zlen (config_dirs config)) (Hcs : config_segments config = M)
  (Hcl : config_limit config = N) (Hcr : config_raw config = true).

#[local] Instance query_laws : TableLaws (S := S) (calm shared junk qsort) get_hash_value config types :=
  table_laws get_hash_value nh shared junk qsort N HN Hmax M HM HM33 types fits B0 config Hcd Hcs Hcl Hcr.
Abbreviation env := (calm shared junk qsort) (only parsing).

Definition all_keyed (D : gmap (list Z) table_state) : Prop := ∀ name ts, D !! name = Some ts → keyed get_hash_value N types ts.

Lemma keyed_at D name : all_keyed D → keyed get_hash_value N types (table_at D name).
Proof.
  intros H. unfold table_at. destruct (D !! name) as [ts|] eqn:E; [by apply (H name)|]. apply keyed_new.
Qed.

Lemma keyed_step mem D op :
  all_keyed D → db_op_ok env get_hash_value config types mem D op → all_keyed (db_spec get_hash_value (config_limit config) types D op).
Proof.
  intros H [_ Hok].
  assert (∀ name ts, keyed get_hash_value N types ts → all_keyed (<[name := ts]> D)) as Hins.
  { intros name ts Hts name' ts' Hl. destruct (decide (name = name')) as [<-|Hne].
    - rewrite lookup_insert_eq in Hl. by injection Hl as <-.
    - rewrite lookup_insert_ne in Hl by done. by apply (H name'). }
  destruct op as [name fs|name n new|name n|name col|name|now]; cbn [db_spec]; rewrite ?Hcl; try done.
  - apply Hins, keyed_insert; [done|]. by apply keyed_at.
  - destruct Hok as [_ (Hn & Hnew & _)]. by apply Hins, keyed_update; [apply keyed_at|..].
  - apply Hins. by destruct (keyed_at D name H).
  - destruct Hok as (_ & (He & _) & _). apply Hins. destruct (keyed_at D name H) as [Hin _].
    split; cbn [add_column tkeys trows tcols]; [done|]. intros nm i d k _ Hi Hd. rewrite He. split.
    + intros Hk. destruct (Hin _ _ _ Hk) as (_ & _ & Hlt). rewrite He in Hlt. change (zlen []) with 0 in Hlt. cbn [fst] in Hlt. lia.
    + intros (x & Hx & _). apply zget_Some_range in Hx. change (zlen []) with 0 in Hx. lia.
Qed.

Lemma keyed_run mem D (ops : list (db_io S * db_op)) :
  all_keyed D → db_ops_ok env get_hash_value config types mem D ops → all_keyed (db_specs get_hash_value config types D ops).
Proof.
  revert D. induction ops as [|[io op] ops IH]; intros D H; [done|]. intros (_ & Hop & Hops). apply IH; [|done]. by apply (keyed_step mem).
Qed.
Abbreviation asked := (λ v, key_of get_hash_value v ≠ Some nh).

(** C9: any condition over indexed columns, on a database after any run from
    empty directories.  The evaluator, with the lookups of [db.c] over all segments
    of a table, returns one list per segment, in order; the list of a segment holds,
    in descending order, exactly the documents of the segment whose row satisfies the
    condition, where a row has a value when the hashes agree (rows with integer
    values: when the values do).  Rows marked as deleted are among them. *)
Theorem condition_query_exact fuel sio conf mem (ops : list (db_io S * db_op)) :
  calm_start sio → conf_ok M config conf → zlen ops < 2 ^ 29 → db_ops_ok env get_hash_value config types mem ∅ ops →
  ∃ db0 db, db_init env get_hash_value (Datatypes.S fuel) sio conf (no_db_files M) = Some (0, db0) ∧
    db_run env get_hash_value N types db0 ops = Some db ∧
    ∀ name ts, db_specs get_hash_value config types ∅ ops !! name = Some ts →
      ∃ hs, db_seghint_query db name None = Some (Ptr hs) ∧
        ∀ log (e : expr (sought get_hash_value nh (tcols ts))),
          ∃ l, query_by_hash_conditions (IndexDb0 := db_lookups get_hash_value nh (tcols ts) log db name hs) (postfix e) = Some (Ptr l) ∧
            sid <$> l = seqZ 0 (segs N ts) ∧
            ∀ q, q ∈ l → desc (ids (rowids q)) ∧
              ∀ d, d ∈ ids (rowids q) ↔ 0 ≤ d < N ∧
                ∃ fs, (trows ts)⟦sid q * N + d⟧ = Some fs ∧ matches get_hash_value nh types (tcols ts) e fs = true.
Proof.
  intros Hs Hc Hn Hops.
  destruct (run_from_start get_hash_value nh shared junk qsort N HN Hmax M HM HM33 types fits B0 config Hcd Hcs Hcl Hcr
    fuel sio conf mem ops Hs Hc Hn Hops) as (db0 & db & L & H0 & Hrun & Hrep & _).
  exists db0, db. split; [done|]. split; [done|]. intros name ts Hts.
  pose proof (keyed_run mem ∅ ops ltac:(intros ? ? H; by rewrite lookup_empty in H) Hops name ts Hts) as Hkeyed.
  assert (shows get_hash_value N asked (db_specs get_hash_value config types ∅ ops) db) as Hshow.
  { rewrite <- Hcl. exact (rep_shows env get_hash_value config types conf (binlog_flag conf) _ L _ ltac:(eassumption)). }
  specialize (Hshow name). rewrite Hts in Hshow.
  destruct Hshow as (_ & _ & Hq).
  destruct (there_instance env get_hash_value config types conf (binlog_flag conf) _ L db name Hrep) as (t & Hg & Ht); [by eexists|].
  unfold table_at in Ht. rewrite Hts in Ht. cbn [default option.from_option id] in Ht.
  assert (db_seghint_query db name None = Some (Ptr (hints N ts (segs N ts)))) as Hhs.
  { unfold db_seghint_query, query. rewrite Hg. cbn [mbind option_bind]. rewrite <- Hcl. exact (law_hints ts t Ht). }
  exists (hints N ts (segs N ts)). split; [done|]. intros log e.
  assert (∀ p : sought get_hash_value nh (tcols ts), ∃ l,
    Db.db_index_equal_query get_hash_value db name (hints N ts (segs N ts)) (sought_field p) = Some (Ptr l) ∧ sid <$> l = seqZ 0 (segs N ts) ∧
    Forall (answers get_hash_value N ts (field_name (sought_field p)) (fdata (sought_field p))) l) as Hl.
  { intros [[col v] Hcol Hkey]. simpl in *. destruct (Hq col v Hcol Hkey) as (hs & l & Hhs' & H). rewrite Hhs in Hhs'. injection Hhs' as <-. eauto. }
  destruct (lookups_laws get_hash_value nh N ltac:(lia) ts log db name _ _ Hl) as [HI Hfound].
  destruct (query_postfix (IndexDbLaws0 := HI) N _ e) as (l & El & Hok & Hsid & Hev). exists l. split; [done|]. split; [done|].
  intros q Hin. unfold seg_ok in Hok. rewrite List.Forall_forall in Hok. destruct (Hok q) as [_ Hd _]; [by apply list_elem_of_In|]. split; [done|].
  rewrite (eval_rows _ _ Hfound) in Hev. intros d.
  destruct (same_places l (seqZ 0 (segs N ts)) _ q Hsid Hev Hin) as [Hq0 Eq].
  rewrite elem_of_seqZ in Hq0. rewrite <- (elem_rows_of get_hash_value nh types N ts Hkeyed) by lia.
  by rewrite <- Eq, elem_of_id_set.
Qed.
End query.

(** The documents with the value 3, but not those with 9: row 0 of the table is
    found (it is deleted), row 1 is not. *)

Abbreviation demo_table vs := (table_at (db_specs demo_hash demo_config demo_types ∅ (demo_db_run vs)) [116]).

Lemma demo_table_there vs : db_specs demo_hash demo_config demo_types ∅ (demo_db_run vs) !! [116] = Some (demo_table vs).
Proof.
  unfold table_at. destruct (_ !! [116]) as [ts|] eqn:E; [done|]. exfalso.
  assert (bool_decide (is_Some (db_specs demo_hash demo_config demo_types ∅ (demo_db_run vs) !! [116])) = true) as H by (vm_compute; reflexivity).
  rewrite E in H. discriminate.
Qed.

Lemma demo_table_rows vs : (trows (demo_table vs))⟦0⟧ = Some (demo_doc 3) ∧ (trows (demo_table vs))⟦1⟧ = Some (demo_doc 9).
Proof. split; vm_compute; reflexivity. Qed.

Lemma condition_query_exact_witness :
  ∃ vs db0 db, vstorage_init true false 0 [] [] 2 = Ptr vs ∧
    db_init (calm false 0 merge_qsort) demo_hash 1 (demo_start vs) (demo_conf false) (no_db_files 3) = Some (0, db0) ∧
    db_run (calm false 0 merge_qsort) demo_hash 2 demo_types db0 (demo_db_run vs) = Some db ∧
    ∃ hs l, db_seghint_query db [116] None = Some (Ptr hs) ∧ sid <$> l = [0; 1] ∧
      ∀ q, q ∈ l → sid q = 0 → 0 ∈ ids (rowids q) ∧ 1 ∉ ids (rowids q).
Proof.
  destruct demo_table_store as (vs & Hvs & Hst & Hsz).
  destruct (condition_query_exact demo_hash 77 (HashLaws0 := demo_hash_laws) false 0 merge_qsort (QsortLaws0 := merge_qsort_laws)
    2 eq_refl eq_refl 3 eq_refl eq_refl demo_types demo_fits 0 demo_config eq_refl eq_refl eq_refl eq_refl
    0 (demo_start vs) (demo_conf false) demo_pool (demo_db_run vs)) as (db0 & db & H0 & Hrun & Hq);
    [apply demo_starts|apply demo_conf_ok|vm_compute; reflexivity|by apply demo_db_ok|].
  exists vs, db0, db. split; [exact Hvs|]. split; [exact H0|]. split; [exact Hrun|].
  destruct (Hq [116] _ (demo_table_there vs)) as (hs & Hhs & He). exists hs.
  assert ([97] ∈ tcols (demo_table vs)) as Hcol by (vm_compute; left).
  pose (p v := λ H, Sought demo_hash 77 (tcols (demo_table vs)) (Field [97] (byte_value v)) Hcol H).
  destruct (He (λ x, x) (Minus (Lookup (p 3 ltac:(vm_compute; discriminate))) (Lookup (p 9 ltac:(vm_compute; discriminate)))))
    as (l & _ & Hsid & Hl).
  exists l. split; [exact Hhs|]. split; [rewrite Hsid; vm_compute; reflexivity|].
  destruct (demo_table_rows vs) as [R0 R1].
  intros q Hin Hq0. destruct (Hl q Hin) as [_ Hd]. rewrite Hq0 in Hd. split.
  - apply Hd. split; [lia|]. exists (demo_doc 3). split; [exact R0|]. cbn [matches]. unfold has_value. cbn [sought_field p]. vm_compute. reflexivity.
  - intros H1. apply Hd in H1 as (_ & fs & Hf & Hm). change (0 * 2 + 1) with 1 in Hf. rewrite R1 in Hf. injection Hf as <-.
    cbn [matches] in Hm. unfold has_value in Hm. cbn [sought_field p] in Hm. vm_compute in Hm. discriminate Hm.
Defined.
