(* ===== verification/Row.v ===== *)
(** * Rows of a query result ([src/execute/Row*.cpp], [OrderComparator.cpp], [src/common/LD*.cpp])

    The rows that a query selects, their copies, equality, hashes and order.  A
    value of a row is a plain value, or what an aggregate function collects: a set
    of values or an array of values. *)

From Stdlib Require Import ZArith Lia.
From stdpp Require Import base option list numbers sets.
From S2P Require Import Prelude RowidList LowData Compare MileArray MileHashMap Db.

#[local] Open Scope mile_scope.

(** ** Rows *)

Inductive select_types_t := SELECT_TYPE_ORIGINAL | SELECT_TYPE_HASH | SELECT_TYPE_DELAY | SELECT_TYPE_SKIP.

#[export] Instance select_types_eq_dec : EqDecision select_types_t.
Proof. solve_decision. Defined.

(** What [type], [len] and [data] of a [low_data_struct] of a row are. *)
Inductive row_value :=
| Plain (d : low_data_struct)
| SetOf (n : Z) (s : HashSet low_data_struct)        (* [HI_TYPE_SET] *)
| ArrayOf (n : Z) (a : MileArray low_data_struct).   (* [HI_TYPE_ARRAY] *)

(** A value with its [field_name]. *)
Record row_cell := Cell { cell_name : ptr (list Z); content : row_value }.

Record DocHandler := Handler { docid : Z; match_score : double }.

(** The number [n] is the length of both arrays. *)
Record select_row_t := SelectRow {
  row_data : list row_cell;
  select_type : list select_types_t;
  handler : ptr DocHandler
}.

Definition zero_cell : row_cell := Cell NULL (Plain zero_data).

Definition init_select_row_t (n : Z) : select_row_t :=
  SelectRow (replicate (Z.to_nat n) zero_cell) (replicate (Z.to_nat n) SELECT_TYPE_ORIGINAL) NULL.

(** ** Copies *)

(** [memcpy] of [len] bytes into memory that has room for them. *)
Definition copy_low_data_struct (src : low_data_struct) : option low_data_struct :=
  d ← zsub (data src) 0 (len src); Some (LowData (type src) d (len src)).

(** The code copies plain values only. *)
Definition copy_cell (src : row_cell) : option row_cell :=
  match content src with
  | Plain d => d ← copy_low_data_struct d; Some (Cell (cell_name src) (Plain d))
  | _ => None
  end.

Fixpoint copy_cells (l : list row_cell) : option (list row_cell) :=
  match l with [] => Some [] | c :: l => c ← copy_cell c; l ← copy_cells l; Some (c :: l) end.

Definition row_clone (row : select_row_t) : option select_row_t :=
  d ← copy_cells (row_data row); Some (SelectRow d (select_type row) (handler row)).

(** ** Equality *)

Definition cell_equal (a b : row_cell) : option Z :=
  match content a, content b with
  | Plain x, Plain y => is_ld_equal (Ptr x) (Ptr y)
  | _, _ => None
  end.

Fixpoint cells_equal (a b : list row_cell) : option Z :=
  match a, b with
  | x :: a, y :: b => e ← cell_equal x y; if e =? 0 then Some 0 else cells_equal a b
  | _, _ => Some 1
  end.

Definition row_equal (a b : select_row_t) : option Z :=
  if negb (zlen (row_data a) =? zlen (row_data b)) then Some 0 else cells_equal (row_data a) (row_data b).

Definition ld_equal (a b : low_data_struct) : option Z := is_ld_equal (Ptr a) (Ptr b).

(** ** Hashes *)

(** [hash ^= ((hash << 5) + ( *p++ ) + (hash >> 2))] *)
Definition hash_byte (hash b : Z) : Z := Z.lxor hash (u32 (Z.shiftl hash 5 + b + Z.shiftr hash 2)).

Definition hash_bytes (hash : Z) (d : low_data_struct) : option Z :=
  bs ← zsub (data d) 0 (len d); Some (foldl hash_byte hash bs).

Definition HASH_START : Z := 1315423911.
Definition HASH_MASK : Z := 2147483647.

Definition ld_coding (d : low_data_struct) : option Z := h ← hash_bytes HASH_START d; Some (Z.land h HASH_MASK).

Fixpoint hash_cells (hash : Z) (l : list row_cell) : option Z :=
  match l with
  | [] => Some hash
  | c :: l => match content c with Plain d => h ← hash_bytes hash d; hash_cells h l | _ => None end
  end.

Definition row_coding (row : select_row_t) : option Z := h ← hash_cells HASH_START (row_data row); Some (Z.land h HASH_MASK).

(** ** Order *)

Inductive order_types := ORDER_TYPE_ASC | ORDER_TYPE_DESC.

#[export] Instance order_types_eq_dec : EqDecision order_types.
Proof. solve_decision. Defined.

(** [ord_index] is not set ([None]) when no selected field has the name. *)
Record OrderComparator := Order { ord_index : list (option Z); ord_type : list order_types }.

Definition index_of (name : list Z) (names : list (list Z)) : option Z :=
  p ← list_find (λ x, x = name) names; Some (Z.of_nat p.1).

(** From the names of the selected fields and the order fields. *)
Definition order_comparator (select_names : list (list Z)) (order : list (list Z * order_types)) : OrderComparator :=
  Order ((λ o, index_of o.1 select_names) <$> order) order.*2.

Definition compare_at (a b : select_row_t) (i : Z) : option Z :=
  x ← (row_data a)⟦i⟧; y ← (row_data b)⟦i⟧;
  match content x, content y with
  | Plain x, Plain y => compare_ld (Ptr x) (Ptr y)
  | _, _ => None
  end.

Fixpoint order_loop (idx : list (option Z)) (tys : list order_types) (a b : select_row_t) (ret : Z) : option Z :=
  match idx, tys with
  | i :: idx, t :: tys =>
      i ← i;
      ret ← compare_at a b i;
      if ret =? -2 then Some ret
      else
        let ret := if bool_decide (t = ORDER_TYPE_DESC) then - ret else ret in
        if negb (ret =? 0) then Some ret else order_loop idx tys a b ret
  | _, _ => Some ret
  end.

Definition order_compare (o : OrderComparator) (a b : select_row_t) : option Z := order_loop (ord_index o) (ord_type o) a b 0.

(** ** Equality and hashes agree *)

(** The value has exactly its bytes. *)
Definition whole (d : low_data_struct) : Prop := zlen (data d) = len d.

Definition ld_code (d : low_data_struct) : Z := Z.land (foldl hash_byte HASH_START (data d)) HASH_MASK.

Lemma mask_range h : 0 ≤ Z.land h HASH_MASK < 2 ^ 32.
Proof. change HASH_MASK with (Z.ones 31). rewrite Z.land_ones by lia. pose proof (Z.mod_pos_bound h (2 ^ 31)). lia. Qed.

Lemma whole_bytes d : whole d → zsub (data d) 0 (len d) = Some (data d).
Proof.
  intros Hl. unfold whole in Hl. pose proof (zsub_mid [] (data d) [] 0 (len d) eq_refl (eq_sym Hl)) as H. by rewrite app_nil_r in H.
Qed.

Lemma copy_whole d : whole d → copy_low_data_struct d = Some d.
Proof. intros H. unfold copy_low_data_struct. rewrite whole_bytes by done. by destruct d. Qed.

Lemma whole_equal a b : whole a → whole b → ld_equal a b = Some (if decide (a = b) then 1 else 0).
Proof.
  unfold whole. intros Ha Hb. destruct a as [ta da la], b as [tb db lb]. cbn [data len] in *. unfold ld_equal, is_ld_equal. cbn [type data len].
  destruct (bool_decide_reflect (ta = tb)) as [<-|Hne]; cbn [negb]; [|rewrite decide_False; [done|by intros [=]]].
  destruct (Z.eqb_spec la lb) as [<-|Hne]; cbn [negb]; [|rewrite decide_False; [done|by intros [=]]].
  replace (Z.to_nat la) with (length da) by (unfold zlen in Ha; lia). rewrite same_bytes_spec by (unfold zlen in *; lia).
  destruct (decide (da = db)) as [<-|Hne]; [by rewrite decide_True|]. rewrite decide_False; [done|by intros [=]].
Qed.

#[export] Instance ld_hashing : Hashing ld_equal ld_coding whole id ld_code.
Proof.
  split.
  - intros a b Ha Hb. by apply whole_equal.
  - intros a Ha. unfold ld_coding, hash_bytes. by rewrite whole_bytes.
  - intros d. apply mask_range.
Qed.

(** The plain values of a row. *)
Definition plain_of (c : row_cell) : low_data_struct := match content c with Plain d => d | _ => zero_data end.
Definition row_values (row : select_row_t) : list low_data_struct := plain_of <$> row_data row.
Definition plain_cell (c : row_cell) : Prop := ∃ d, content c = Plain d ∧ whole d.
Definition plain_row (row : select_row_t) : Prop := Forall plain_cell (row_data row).

Definition row_code (ds : list low_data_struct) : Z :=
  Z.land (foldl (λ h d, foldl hash_byte h (data d)) HASH_START ds) HASH_MASK.

Lemma cells_equal_spec a b :
  Forall plain_cell a → Forall plain_cell b → length a = length b →
  cells_equal a b = Some (if decide (plain_of <$> a = plain_of <$> b) then 1 else 0).
Proof.
  intros Ha. revert b. induction Ha as [|x a (d & Ex & Hd) Ha IH]; intros b Hb Hl; destruct b as [|y b]; try done.
  apply Forall_cons in Hb as [(e & Ey & He) Hb]. injection Hl as Hl. cbn [cells_equal fmap list_fmap].
  unfold cell_equal. rewrite Ex, Ey. pose proof (whole_equal d e Hd He) as E. unfold ld_equal in E. rewrite E. cbn [mbind option_bind].
  assert (plain_of x = d ∧ plain_of y = e) as [-> ->] by (unfold plain_of; by rewrite Ex, Ey).
  destruct (decide (d = e)) as [<-|Hne].
  - change (1 =? 0) with false. cbv iota. rewrite IH by done. f_equal. unfold fmap.
    destruct (decide (list_fmap _ _ plain_of a = list_fmap _ _ plain_of b)) as [->|Hne]; [by rewrite decide_True|].
    rewrite decide_False; [done|by intros [=]].
  - change (0 =? 0) with true. cbv iota. rewrite decide_False; [done|by intros [=]].
Qed.

Lemma hash_cells_spec l h : Forall plain_cell l → hash_cells h l = Some (foldl (λ h d, foldl hash_byte h (data d)) h (plain_of <$> l)).
Proof.
  intros H. revert h. induction H as [|c l (d & E & Hd) _ IH]; intros h; [done|]. cbn [hash_cells fmap list_fmap foldl].
  assert (plain_of c = d) as -> by (unfold plain_of; by rewrite E).
  rewrite E. unfold hash_bytes. rewrite whole_bytes by done. cbn [mbind option_bind]. apply IH.
Qed.

#[export] Instance row_hashing : Hashing row_equal row_coding plain_row row_values row_code.
Proof.
  split.
  - intros a b Ha Hb. unfold row_equal. destruct (Z.eqb_spec (zlen (row_data a)) (zlen (row_data b))) as [E|E]; cbn [negb].
    + apply cells_equal_spec; [done..|]. unfold zlen in E. lia.
    + rewrite decide_False; [done|]. intros H. apply E. apply (f_equal length) in H. unfold row_values in H. rewrite !length_fmap in H. unfold zlen. lia.
  - intros a Ha. unfold row_coding. by rewrite hash_cells_spec.
  - intros k. apply mask_range.
Qed.

Lemma copy_plain_cells l : Forall plain_cell l → copy_cells l = Some l.
Proof.
  induction 1 as [|c l (d & E & Hd) _ IH]; [done|]. cbn [copy_cells]. unfold copy_cell. rewrite E, copy_whole by done.
  cbn [mbind option_bind]. rewrite IH. destruct c. cbn in *. by subst.
Qed.

Lemma row_clone_spec row : plain_row row → row_clone row = Some row.
Proof. intros H. unfold row_clone. rewrite copy_plain_cells by done. by destruct row. Qed.

(** ** Rows are ordered by their order columns *)

Definition signed (t : order_types) (c : Z) : Z := if bool_decide (t = ORDER_TYPE_DESC) then - c else c.

(** The lexicographic order of values. *)
Fixpoint values_cmp (tys : list order_types) (vs ws : list value) : Z :=
  match tys, vs, ws with
  | t :: tys, v :: vs, w :: ws => let c := signed t (value_cmp v w) in if c =? 0 then values_cmp tys vs ws else c
  | _, _, _ => 0
  end.

Section order.
Context (cols : list (Z * order_types * field_types)).

(** The order columns of the row, by their place, hold values of their type. *)
Definition sortable (row : select_row_t) : Prop :=
  Forall (λ p, ∃ c d, (row_data row)⟦p.1.1⟧ = Some c ∧ content c = Plain d ∧ comparable p.2 d) cols.

Definition order_values (row : select_row_t) : list value :=
  (λ p, match (row_data row)⟦p.1.1⟧ with Some c => value_of (plain_of c) | None => VNull end) <$> cols.

Definition comparator : OrderComparator := Order ((λ p, Some p.1.1) <$> cols) ((λ p, p.1.2) <$> cols).

Lemma order_compare_values a b :
  sortable a → sortable b → order_compare comparator a b = Some (values_cmp ((λ p, p.1.2) <$> cols) (order_values a) (order_values b)).
Proof.
  unfold order_compare, comparator, sortable, order_values. cbn [ord_index ord_type].
  induction cols as [|[[i t] ty] l IH]; intros Ha Hb; [done|].
  apply Forall_cons in Ha as [(x & d & Hx & Ex & Hd) Ha]. apply Forall_cons in Hb as [(y & e & Hy & Ey & He) Hb]. cbn [fst snd] in *.
  cbn [fmap list_fmap order_loop values_cmp fst snd mbind option_bind]. unfold compare_at. rewrite Hx, Hy. cbn [mbind option_bind].
  rewrite Ex, Ey, (compare_ld_values ty) by done. cbn [mbind option_bind].
  assert (plain_of x = d ∧ plain_of y = e) as [-> ->] by (unfold plain_of; by rewrite Ex, Ey).
  destruct (value_cmp_cases (value_of d) (value_of e)) as [E|[E|E]]; rewrite E; unfold signed.
  1, 3: by destruct t.
  destruct t; cbn; by apply IH.
Qed.
End order.

Lemma values_cmp_cases tys vs ws : values_cmp tys vs ws = -1 ∨ values_cmp tys vs ws = 0 ∨ values_cmp tys vs ws = 1.
Proof.
  revert vs ws. induction tys as [|t tys IH]; intros [|v vs] [|w ws]; cbn [values_cmp]; auto.
  destruct (Z.eqb_spec (signed t (value_cmp v w)) 0); [apply IH|]. unfold signed in *.
  destruct (value_cmp_cases v w) as [E|[E|E]]; rewrite E in *; case_bool_decide; lia.
Qed.

Lemma values_cmp_sym tys vs ws : values_cmp tys ws vs = - values_cmp tys vs ws.
Proof.
  revert vs ws. induction tys as [|t tys IH]; intros [|v vs] [|w ws]; cbn [values_cmp]; try done.
  assert (signed t (value_cmp w v) = - signed t (value_cmp v w)) as -> by (unfold signed; rewrite (value_cmp_sym v w); by case_bool_decide).
  destruct (Z.eqb_spec (signed t (value_cmp v w)) 0) as [E|E]; [rewrite E; apply IH|]. by rewrite (proj2 (Z.eqb_neq _ _)) by lia.
Qed.

Lemma signed_trans t u v w :
  signed t (value_cmp u v) ≤ 0 → signed t (value_cmp v w) ≤ 0 → signed t (value_cmp u w) ≤ 0.
Proof.
  unfold signed. case_bool_decide; [|apply value_cmp_trans]. rewrite <- (value_cmp_sym u v), <- (value_cmp_sym v w), <- (value_cmp_sym u w).
  intros H1 H2. by apply (value_cmp_trans w v u).
Qed.

Lemma signed_eq t v w : signed t (value_cmp v w) = 0 ↔ v = w.
Proof. rewrite <- value_cmp_eq. unfold signed. case_bool_decide; lia. Qed.

Lemma values_cmp_trans tys us vs ws :
  length us = length tys → length vs = length tys → length ws = length tys →
  values_cmp tys us vs ≤ 0 → values_cmp tys vs ws ≤ 0 → values_cmp tys us ws ≤ 0.
Proof.
  revert us vs ws. induction tys as [|t tys IH]; intros [|u us] [|v vs] [|w ws] L1 L2 L3; cbn [values_cmp]; try done.
  injection L1 as L1. injection L2 as L2. injection L3 as L3. intros H1 H2.
  destruct (Z.eqb_spec (signed t (value_cmp u v)) 0) as [E1|E1].
  - apply signed_eq in E1 as <-. destruct (Z.eqb_spec (signed t (value_cmp u w)) 0); [by apply (IH us vs)|done].
  - destruct (Z.eqb_spec (signed t (value_cmp v w)) 0) as [E2|E2].
    + apply signed_eq in E2 as <-. by rewrite (proj2 (Z.eqb_neq _ _)).
    + pose proof (signed_trans t u v w H1 H2). destruct (Z.eqb_spec (signed t (value_cmp u w)) 0) as [E3|E3]; [|done].
      exfalso. apply signed_eq in E3 as ->. assert (signed t (value_cmp v w) = - signed t (value_cmp w v)) as E.
      { unfold signed. rewrite (value_cmp_sym w v). case_bool_decide; lia. }
      lia.
Qed.

#[export] Instance row_ordering cols : Ordering (order_compare (comparator cols)) (sortable cols).
Proof.
  assert (∀ r, length (order_values cols r) = length ((λ p, p.1.2) <$> cols)) as Hl by (intros; unfold order_values; by rewrite !length_fmap).
  split.
  - intros a b Ha Hb. rewrite !order_compare_values by done. eexists. split; [done|]. split; [apply values_cmp_cases|].
    by rewrite values_cmp_sym.
  - intros a b c x y Ha Hb Hc. rewrite !order_compare_values by done. intros [= <-] [= <-] Hx Hy. eexists. split; [done|].
    by apply (values_cmp_trans _ _ (order_values cols b)).
Qed.
