(* ===== verification/Aggr.v ===== *)
(** * Aggregate functions ([src/common/AggrFunc.cpp])

    A function takes the value collected so far, [cur_value], and the value of a
    row.  Counts and extrema are plain values, sums are doubles, an average is the
    array of its sum and its count, a variance has the sum of the squares in front,
    and distinct values are collected in a hash set. *)

From Stdlib Require Import ZArith Lia SpecFloat.
From stdpp Require Import base option list numbers sets.
From S2P Require Import Prelude RowidList LowData Hash Compare MileArray MileHashMap Db Row.

#[local] Open Scope mile_scope.

(** ** The code *)

Definition ERROR_UNSUPPORTED_AGRFUNC_TYPE : Z := -3006.

(** [FUNC_OTHER] stands for a number that names no function. *)
Inductive function_type :=
| FUNC_COUNT | FUNC_SUM | FUNC_MAX | FUNC_MIN | FUNC_COUNT_DISTINCT
| FUNC_SQUARE_SUM | FUNC_AVG | FUNC_VAR | FUNC_STD | FUNC_OTHER.

#[export] Instance function_type_eq_dec : EqDecision function_type.
Proof. solve_decision. Defined.

(** Cells of eight bytes. *)
Definition longlong (z : Z) : low_data_struct := LowData HI_TYPE_LONGLONG (le_bytes 8 (u64 z)) 8.
Definition a_double (x : double) : low_data_struct := LowData HI_TYPE_DOUBLE (le_bytes 8 (ieee_bits 52 11 x)) 8.

(** [*(double * )cur->data = x], in cells that have eight bytes. *)
Definition store_double (cur : low_data_struct) (x : double) : option low_data_struct :=
  d ← zcopy (data cur) 0 (le_bytes 8 (ieee_bits 52 11 x)); Some (LowData (type cur) d (len cur)).

(** [*(int64_t * )cur->data += n] *)
Definition add_longlong (cur : low_data_struct) (n : Z) : option low_data_struct :=
  x ← load (data cur) 8; d ← zcopy (data cur) 0 (le_bytes 8 (u64 (x + n))); Some (LowData (type cur) d (len cur)).

Definition is_nan (x : double) : bool := match x with S754_nan => true | _ => false end.

(** [data == NULL] in a value that was cleared and not written since. *)
Definition no_data (v : row_value) : bool := match v with Plain d => bool_decide (data d = []) | _ => false end.

Definition value_len (v : row_value) : Z := match v with Plain d => len d | SetOf n _ => n | ArrayOf n _ => n end.
Definition value_is_null (d : low_data_struct) : bool := bool_decide (type d = HI_TYPE_NULL) || (len d =? 0).

Section functions.
Context (pool : Z).   (* the block size of the memory pool *)
Implicit Types (cur : row_value) (new : low_data_struct).

Definition Count cur : option (Z * row_value) :=
  if value_len cur =? 0 then Some (0, Plain (longlong 1))
  else match cur with Plain d => d ← add_longlong d 1; Some (0, Plain d) | _ => None end.

Definition MergeCount cur new : option (Z * row_value) :=
  let add (count : low_data_struct) :=
    if 0 <? len new then n ← load (data new) 8; d ← add_longlong count n; Some (0, Plain d) else Some (0, Plain count) in
  if value_len cur =? 0 then add (longlong 0)
  else match cur with Plain d => add d | _ => None end.

(** [Max] copies the new value when the comparison gives -1, [Min] when it gives 1. *)
Definition extremum (better : Z) cur new : option (Z * row_value) :=
  match cur with
  | Plain d =>
      if bool_decide (type d = HI_TYPE_NOTCOMP) then Some (0, cur)
      else if value_is_null d then c ← copy_low_data_struct new; Some (0, Plain c)
      else if value_is_null new then Some (0, cur)
      else
        ret ← compare_ld (Ptr d) (Ptr new);
        if ret =? better then c ← copy_low_data_struct new; Some (0, Plain c)
        else if ret =? -2 then Some (0, Plain (LowData HI_TYPE_NOTCOMP (data d) 0))
        else Some (0, cur)
  | _ => None
  end.

Definition Max : row_value → low_data_struct → option (Z * row_value) := extremum (-1).
Definition Min : row_value → low_data_struct → option (Z * row_value) := extremum 1.

(** The step of both sums, for [f b a] of the sum [b] and the new number [a]. *)
Definition add_number (f : double → double → double) (sum new : low_data_struct) : option low_data_struct :=
  a ← ld_to_double new;
  b ← load_double (data sum);
  if is_nan a then store_double sum a
  else if negb (is_nan b) then store_double sum (f b a)
  else Some sum.

Definition plus_number (b a : double) : double := dadd b a.
Definition plus_square (b a : double) : double := dadd b (SFmul 53 1024 a a).

Definition a_sum (f : double → double → double) cur new : option (Z * row_value) :=
  if value_is_null new then Some (0, cur)
  else
    match cur with
    | Plain d => s ← add_number f (if value_is_null d then a_double d0 else d) new; Some (0, Plain s)
    | _ => None
    end.

Definition Sum : row_value → low_data_struct → option (Z * row_value) := a_sum plus_number.
Definition SquareSum : row_value → low_data_struct → option (Z * row_value) := a_sum plus_square.

(** The array with the values in front. *)
Fixpoint fill_array (a : MileArray low_data_struct) (l : list low_data_struct) : option (MileArray low_data_struct) :=
  match l with [] => Some a | d :: l => '(_, a) ← array_add a d; fill_array a l end.

Definition start_array cur (l : list low_data_struct) : option (MileArray low_data_struct) :=
  if no_data cur then fill_array (array_init pool) l
  else match cur with ArrayOf _ a => Some a | _ => None end.

Definition array_value (a : MileArray low_data_struct) (i : Z) : option low_data_struct :=
  p ← array_get a i; match p with Ptr d => Some d | NULL => None end.

(** [Avg] keeps the sum and the count. *)
Definition Avg cur new : option (Z * row_value) :=
  if value_is_null new then Some (0, cur)
  else
    a ← start_array cur [a_double d0; longlong 0];
    sum ← array_value a 0;
    count ← array_value a 1;
    count ← add_longlong count 1;
    sum ← add_number plus_number sum new;
    a ← array_set a 0 sum;
    a ← array_set a 1 count;
    Some (0, ArrayOf 2 a).

(** [Var] keeps the sum of the squares, the sum and the count.  A number that is no
    number makes both sums so; the sum alone decides whether they go on. *)
Definition Var cur new : option (Z * row_value) :=
  if value_is_null new then Some (0, cur)
  else
    a ← start_array cur [a_double d0; a_double d0; longlong 0];
    square ← array_value a 0;
    sum ← array_value a 1;
    count ← array_value a 2;
    count ← add_longlong count 1;
    x ← ld_to_double new;
    b ← load_double (data sum);
    q ← load_double (data square);
    '(square, sum) ←
      (if is_nan x then square ← store_double square x; sum ← store_double sum x; Some (square, sum)
       else if negb (is_nan b) then
         square ← store_double square (plus_square q x); sum ← store_double sum (plus_number b x); Some (square, sum)
       else Some (square, sum));
    a ← array_set a 0 square;
    a ← array_set a 1 sum;
    a ← array_set a 2 count;
    Some (0, ArrayOf 3 a).

Definition start_set cur : option (Z * HashSet low_data_struct) :=
  if no_data cur then Some (0, buckets_init) else match cur with SetOf n s => Some (n, s) | _ => None end.

Definition CountDistinct cur new : option (Z * row_value) :=
  '(n, s) ← start_set cur;
  c ← set_contains ld_equal ld_coding s new;
  if (c : bool) then Some (0, SetOf n s)
  else if negb (bool_decide (type new = HI_TYPE_NULL)) then
    d ← copy_low_data_struct new;
    s ← set_add ld_equal ld_coding s d;
    Some (0, SetOf (u32 (n + 1)) s)
  else Some (0, SetOf n s).

(** [new] is [None] when it points behind the row, which [Count] never reads. *)
Definition ComputeFunc (f : function_type) cur (new : option low_data_struct) : option (Z * row_value) :=
  match f with
  | FUNC_COUNT => Count cur
  | FUNC_OTHER => Some (ERROR_UNSUPPORTED_AGRFUNC_TYPE, cur)
  | FUNC_MIN => new ← new; Min cur new
  | FUNC_MAX => new ← new; Max cur new
  | FUNC_SUM => new ← new; Sum cur new
  | FUNC_AVG => new ← new; Avg cur new
  | FUNC_VAR | FUNC_STD => new ← new; Var cur new
  | FUNC_SQUARE_SUM => new ← new; SquareSum cur new
  | FUNC_COUNT_DISTINCT => new ← new; CountDistinct cur new
  end.

Definition MergeFunc (f : function_type) cur new : option (Z * row_value) :=
  match f with
  | FUNC_MIN => Min cur new
  | FUNC_MAX => Max cur new
  | FUNC_COUNT => MergeCount cur new
  | FUNC_SUM => Sum cur new
  | _ => Some (ERROR_UNSUPPORTED_AGRFUNC_TYPE, cur)
  end.
End functions.
