(* ===== verification/Expression.v ===== *)
(** * Filter conditions ([src/execute/Expression.cpp])

    The where clause of a statement: conditions in reverse Polish form become a
    tree, which is executed on the values of a row.  A column may be given by the
    hashes of its values instead of the values; then the hashes of the constants
    are compared. *)

From Stdlib Require Import ZArith Lia.
From stdpp Require Import base option list numbers sets.
From S2P Require Import Prelude Suffix LowData Compare MileHashMap Row Aggr.

#[local] Open Scope mile_scope.

(** ** The code *)

(** [struct condition_t]; the number of values is the length of the list. *)
Record filter_condition := FilterCond {
  cond_type : condition_type;
  cond_field : list Z;
  comparator : compare_type;
  cond_values : list low_data_struct;
  hash_values : ptr (list low_data_struct)
}.

(** Both [left] and [right] are set for a logical operator only. *)
Inductive Expression :=
| Leaf (cond : filter_condition)
| Node (cond : filter_condition) (left right : Expression).

(** Names and the kinds of values that are asked for. *)
Record select_fields_t := Fields { fields_name : list (list Z); fields_type : list select_types_t }.

Definition compares_hashes (c : compare_type) : bool :=
  match c with CT_EQ | CT_NE | EXP_COMPARE_IN => true | _ => false end.

Section gen.
Context (get_hash_value : low_data_struct → Z).

(** The constants of a condition with their hashes. *)
Definition with_hashes (c : filter_condition) : filter_condition :=
  FilterCond (cond_type c) (cond_field c) (comparator c) (cond_values c)
    (if compares_hashes (comparator c) then Ptr ((λ v, longlong (get_hash_value v)) <$> cond_values c) else hash_values c).

(** A new field is stored behind the others, in an array of [room] cells. *)
Definition note_field (room : Z) (c : filter_condition) (fs : select_fields_t) : option select_fields_t :=
  if bool_decide (cond_field c ∈ fields_name fs) then Some fs
  else if zlen (fields_name fs) <? room then
    Some (Fields (fields_name fs ++ [cond_field c])
      (fields_type fs ++ [if compares_hashes (comparator c) then SELECT_TYPE_HASH else SELECT_TYPE_ORIGINAL]))
  else None.

(** The stack is a list with its top at the end. *)
Fixpoint gen_loop (room : Z) (cs : list filter_condition) (stack : list Expression) (fs : select_fields_t)
    : option (ptr (Expression * select_fields_t)) :=
  match cs with
  | [] => match list_pop stack with (Some e, _) => Some (Ptr (e, fs)) | (None, _) => Some NULL end
  | c :: cs =>
      match cond_type c with
      | LOGIC_AND | LOGIC_OR =>
          match list_pop stack with
          | (Some e1, stack) =>
              match list_pop stack with
              | (Some e2, stack) => gen_loop room cs (list_add stack (Node c e1 e2)) fs
              | (None, _) => Some NULL
              end
          | (None, _) => Some NULL
          end
      | CONDITION_EXP => fs ← note_field room c fs; gen_loop room cs (list_add stack (Leaf (with_hashes c))) fs
      | _ => gen_loop room cs (list_add stack (Leaf c)) fs
      end
  end.

Definition GenExp (cs : list filter_condition) : option (ptr (Expression * select_fields_t)) :=
  gen_loop (zlen cs / 2 + 1) cs [] (Fields [] []).
End gen.

(** [&cond_values[i]]; the address of the first cell of no array is NULL. *)
Definition value_ptr (vs : ptr (list low_data_struct)) (i : Z) : option (ptr low_data_struct) :=
  match vs with NULL => if i =? 0 then Some NULL else None | Ptr l => v ← l⟦i⟧; Some (Ptr v) end.

Definition compare_nth (value : low_data_struct) (vs : ptr (list low_data_struct)) (i : Z) : option Z :=
  p ← value_ptr vs i; compare_ld (Ptr value) p.

(** One comparison, which holds for the results that [accept] takes; -2 never does. *)
Definition compare_one (value : low_data_struct) (vs : ptr (list low_data_struct)) (i : Z) (accept : Z → bool) : option Z :=
  ret ← compare_nth value vs i; Some (if ret =? -2 then 0 else if accept ret then 1 else 0).

Fixpoint compare_in (value : low_data_struct) (vs : ptr (list low_data_struct)) (n : nat) (i : Z) : option Z :=
  match n with
  | O => Some 0
  | S n =>
      ret ← compare_nth value vs i;
      if ret =? -2 then Some 0 else if ret =? 0 then Some 1 else compare_in value vs n (i + 1)
  end.

Definition compare_between (value : low_data_struct) (vs : ptr (list low_data_struct)) (low high : Z → bool) : option Z :=
  r ← compare_one value vs 0 low; if r =? 1 then compare_one value vs 1 high else Some 0.

Definition CompareValue (value : low_data_struct) (comparator : compare_type) (cond_value_num : Z)
    (vs : ptr (list low_data_struct)) : option Z :=
  match comparator with
  | CT_EQ => compare_one value vs 0 (λ c, c =? 0)
  | CT_NE => compare_one value vs 0 (λ c, negb (c =? 0))
  | CT_LT => compare_one value vs 0 (λ c, c =? -1)
  | CT_LE => compare_one value vs 0 (λ c, (c =? -1) || (c =? 0))
  | CT_GE => compare_one value vs 0 (λ c, (c =? 1) || (c =? 0))
  | CT_GT => compare_one value vs 0 (λ c, c =? 1)
  | EXP_COMPARE_IN => compare_in value vs (Z.to_nat cond_value_num) 0
  | EXP_COMPARE_BETWEEN_LGE => compare_between value vs (λ c, c =? 1) (λ c, (c =? 0) || (c =? -1))
  | EXP_COMPARE_BETWEEN_LEGE => compare_between value vs (λ c, (c =? 0) || (c =? 1)) (λ c, (c =? 0) || (c =? -1))
  | EXP_COMPARE_BETWEEN_LG => compare_between value vs (λ c, c =? 1) (λ c, c =? -1)
  | EXP_COMPARE_BETWEEN_LEG => compare_between value vs (λ c, (c =? 0) || (c =? 1)) (λ c, c =? -1)
  | CT_MATCH => Some (-1)
  end.

(** The first value of the name; a value without a name is undefined behaviour. *)
Fixpoint find_cell (name : list Z) (cells : list row_cell) (tys : list select_types_t) : option (option (low_data_struct * select_types_t)) :=
  match cells with
  | [] => Some None
  | c :: cells =>
      match cell_name c with
      | NULL => None
      | Ptr n =>
          if bool_decide (n = name) then
            match content c, tys with
            | Plain d, t :: _ => Some (Some (d, t))
            | _, _ => None
            end
          else find_cell name cells (tail tys)
      end
  end.

Definition execute_leaf (c : filter_condition) (row : select_row_t) : option Z :=
  r ← find_cell (cond_field c) (row_data row) (select_type row);
  match r with
  | None => Some (-1)
  | Some (d, t) =>
      CompareValue d (comparator c) (zlen (cond_values c))
        (if bool_decide (t = SELECT_TYPE_HASH) then hash_values c else Ptr (cond_values c))
  end.

Fixpoint exp_execute (e : Expression) (row : select_row_t) : option Z :=
  match e with
  | Leaf c => execute_leaf c row
  | Node c e1 e2 =>
      match cond_type c with
      | LOGIC_AND =>
          l ← exp_execute e1 row;
          if l =? 1 then r ← exp_execute e2 row; Some (if r =? 1 then 1 else 0) else Some 0
      | LOGIC_OR =>
          l ← exp_execute e1 row;
          if l =? 1 then Some 1 else r ← exp_execute e2 row; Some (if r =? 1 then 1 else 0)
      | _ => Some (-1)
      end
  end.

(** ** What a where clause means *)

Inductive where_expr :=
| Test (name : list Z) (cmp : compare_type) (vals : list low_data_struct)
| Both (a b : where_expr)
| Either (a b : where_expr).

Definition test_cond (name : list Z) (cmp : compare_type) (vals : list low_data_struct) : filter_condition :=
  FilterCond CONDITION_EXP name cmp vals NULL.
Definition logic_cond (t : condition_type) : filter_condition := FilterCond t [] CT_EQ [] NULL.

(** The reverse Polish form. *)
Fixpoint rpn (e : where_expr) : list filter_condition :=
  match e with
  | Test name cmp vals => [test_cond name cmp vals]
  | Both a b => rpn a ++ rpn b ++ [logic_cond LOGIC_AND]
  | Either a b => rpn a ++ rpn b ++ [logic_cond LOGIC_OR]
  end.

(** Whether a value satisfies a comparison; null is below every other value. *)
Definition satisfies (cmp : compare_type) (x : value) (vs : list value) : bool :=
  let c i := value_cmp x (default VNull (vs !! i)) in
  match cmp with
  | CT_EQ => c 0%nat =? 0
  | CT_NE => negb (c 0%nat =? 0)
  | CT_LT => c 0%nat <? 0
  | CT_LE => c 0%nat <=? 0
  | CT_GE => 0 <=? c 0%nat
  | CT_GT => 0 <? c 0%nat
  | EXP_COMPARE_IN => existsb (λ v, value_cmp x v =? 0) vs
  | EXP_COMPARE_BETWEEN_LGE => (0 <? c 0%nat) && (c 1%nat <=? 0)
  | EXP_COMPARE_BETWEEN_LEGE => (0 <=? c 0%nat) && (c 1%nat <=? 0)
  | EXP_COMPARE_BETWEEN_LG => (0 <? c 0%nat) && (c 1%nat <? 0)
  | EXP_COMPARE_BETWEEN_LEG => (0 <=? c 0%nat) && (c 1%nat <? 0)
  | CT_MATCH => false
  end.

(** The numbers of constants that the comparisons read. *)
Definition arity (cmp : compare_type) : option nat :=
  match cmp with
  | EXP_COMPARE_IN => Some 0%nat
  | EXP_COMPARE_BETWEEN_LGE | EXP_COMPARE_BETWEEN_LEGE | EXP_COMPARE_BETWEEN_LG | EXP_COMPARE_BETWEEN_LEG => Some 2%nat
  | CT_MATCH => None
  | _ => Some 1%nat
  end.

(** The clause for the values [val] of the fields. *)
Fixpoint holds (e : where_expr) (val : list Z → low_data_struct) : bool :=
  match e with
  | Test name cmp vals => satisfies cmp (value_of (val name)) (value_of <$> vals)
  | Both a b => holds a val && holds b val
  | Either a b => holds a val || holds b val
  end.

Lemma compare_nth_spec t d vals (i : nat) :
  comparable t d → Forall (comparable t) vals → (i < length vals)%nat →
  compare_nth d (Ptr vals) (Z.of_nat i) = Some (value_cmp (value_of d) (default VNull ((value_of <$> vals) !! i))).
Proof.
  intros Hd Hv Hi. destruct (lookup_lt_is_Some_2 vals i Hi) as [v Ev]. unfold compare_nth, value_ptr.
  rewrite zget_of_nat, Ev. cbn [mbind option_bind]. rewrite list_lookup_fmap, Ev. cbn.
  apply (compare_ld_values t); [done|]. by eapply Forall_lookup_1.
Qed.

Lemma compare_one_spec t d vals (i : nat) accept :
  comparable t d → Forall (comparable t) vals → (i < length vals)%nat →
  compare_one d (Ptr vals) (Z.of_nat i) accept
  = Some (if accept (value_cmp (value_of d) (default VNull ((value_of <$> vals) !! i))) then 1 else 0).
Proof.
  intros Hd Hv Hi. unfold compare_one. rewrite (compare_nth_spec t) by done. cbn [mbind option_bind].
  set (c := value_cmp _ _). assert (c = -1 ∨ c = 0 ∨ c = 1) as Hc by apply value_cmp_cases.
  by rewrite (proj2 (Z.eqb_neq c (-2))) by lia.
Qed.

Lemma compare_between_spec t d vals low high :
  comparable t d → Forall (comparable t) vals → (2 ≤ length vals)%nat →
  let c i := value_cmp (value_of d) (default VNull ((value_of <$> vals) !! i)) in
  compare_between d (Ptr vals) low high = Some (if low (c 0%nat) && high (c 1%nat) then 1 else 0).
Proof.
  intros Hd Hv Hl c. unfold compare_between.
  pose proof (compare_one_spec t d vals 0 low Hd Hv ltac:(lia)) as E0. pose proof (compare_one_spec t d vals 1 high Hd Hv ltac:(lia)) as E1.
  change (Z.of_nat 0) with 0 in E0. change (Z.of_nat 1) with 1 in E1. rewrite E0. fold (c 0%nat).
  cbn [mbind option_bind]. by destruct (low (c 0%nat)).
Qed.

Lemma compare_in_spec t d pre vals :
  comparable t d → Forall (comparable t) (pre ++ vals) →
  compare_in d (Ptr (pre ++ vals)) (length vals) (zlen pre)
  = Some (if existsb (λ v, value_cmp (value_of d) v =? 0) (value_of <$> vals) then 1 else 0).
Proof.
  intros Hd. revert pre. induction vals as [|v vals IH]; intros pre Hv; [done|]. cbn [length compare_in].
  pose proof (compare_nth_spec t d (pre ++ v :: vals) (length pre) Hd Hv ltac:(rewrite length_app; simpl; lia)) as E.
  fold (zlen pre) in E. rewrite E. cbn [mbind option_bind]. rewrite list_lookup_fmap, list_lookup_middle by done. cbn [fmap option_fmap option_map default option.from_option id].
  set (c := value_cmp _ _). assert (c = -1 ∨ c = 0 ∨ c = 1) as Hc by apply value_cmp_cases.
  rewrite (proj2 (Z.eqb_neq c (-2))) by lia. cbn [fmap list_fmap existsb]. fold c. destruct (c =? 0); [done|].
  cbn [orb]. specialize (IH (pre ++ [v])). rewrite <- app_assoc in IH. cbn [app] in IH. rewrite zlen_app in IH. by apply IH.
Qed.

Lemma CompareValue_spec t d cmp vals n :
  comparable t d → Forall (comparable t) vals → arity cmp = Some n → (n ≤ length vals)%nat →
  CompareValue d cmp (zlen vals) (Ptr vals) = Some (if satisfies cmp (value_of d) (value_of <$> vals) then 1 else 0).
Proof.
  intros Hd Hv Ha Hn.
  assert (∀ i, let c := value_cmp (value_of d) (default VNull ((value_of <$> vals) !! i)) in c = -1 ∨ c = 0 ∨ c = 1) as Hc
    by (intros i; apply value_cmp_cases).
  unfold CompareValue, satisfies.
  destruct cmp; try discriminate Ha; injection Ha as <-;
    try (change (compare_one d (Ptr vals) 0) with (compare_one d (Ptr vals) (Z.of_nat 0)); rewrite (compare_one_spec t d vals 0) by (done || lia));
    try (rewrite (compare_between_spec t) by (done || lia)); cbv zeta;
    try (specialize (Hc 0%nat) as H0; specialize (Hc 1%nat) as H1; cbv zeta in H0, H1;
         destruct H0 as [E0|[E0|E0]], H1 as [E1|[E1|E1]]; rewrite ?E0, ?E1; reflexivity).
  unfold zlen. rewrite Nat2Z.id. by apply (compare_in_spec t d []).
Qed.

(** ** The tree of a well-formed condition *)

Section tree.
Context (get_hash_value : low_data_struct → Z).

Fixpoint tree_of (e : where_expr) : Expression :=
  match e with
  | Test name cmp vals => Leaf (with_hashes get_hash_value (test_cond name cmp vals))
  | Both a b => Node (logic_cond LOGIC_AND) (tree_of b) (tree_of a)
  | Either a b => Node (logic_cond LOGIC_OR) (tree_of b) (tree_of a)
  end.

(** The fields of the clause, in the order in which they first occur; the first
    comparison decides how a field is asked for. *)
Fixpoint noted (e : where_expr) (fs : select_fields_t) : select_fields_t :=
  match e with
  | Test name cmp _ =>
      if bool_decide (name ∈ fields_name fs) then fs
      else Fields (fields_name fs ++ [name]) (fields_type fs ++ [if compares_hashes cmp then SELECT_TYPE_HASH else SELECT_TYPE_ORIGINAL])
  | Both a b | Either a b => noted b (noted a fs)
  end.

Lemma noted_types e : length (fields_name (noted e (Fields [] []))) = length (fields_type (noted e (Fields [] []))).
Proof.
  assert (∀ fs, length (fields_name fs) = length (fields_type fs) → length (fields_name (noted e fs)) = length (fields_type (noted e fs))) as H; [|by apply H].
  induction e as [name cmp vals|a IHa b IHb|a IHa b IHb]; intros fs Hf; cbn [noted]; [|auto..].
  case_bool_decide; [done|]. cbn [fields_name fields_type]. rewrite !length_app. simpl. lia.
Qed.

Fixpoint tests (e : where_expr) : nat := match e with Test _ _ _ => 1 | Both a b | Either a b => tests a + tests b end.

Lemma length_rpn e : (length (rpn e) + 1 = 2 * tests e)%nat.
Proof. induction e as [| |]; cbn [rpn tests]; rewrite ?length_app; simpl in *; lia. Qed.

Lemma noted_length e fs : zlen (fields_name (noted e fs)) ≤ zlen (fields_name fs) + Z.of_nat (tests e).
Proof.
  revert fs. induction e as [name cmp vals|a IHa b IHb|a IHa b IHb]; intros fs; cbn [noted tests].
  - case_bool_decide; [lia|]. cbn [fields_name]. rewrite zlen_app. change (zlen [name]) with 1. lia.
  - specialize (IHa fs). specialize (IHb (noted a fs)). lia.
  - specialize (IHa fs). specialize (IHb (noted a fs)). lia.
Qed.

Lemma list_pop_app {A} (l : list A) x : list_pop (l ++ [x]) = (Some x, l).
Proof. unfold list_pop. rewrite rev_app_distr. cbn [rev app]. by rewrite rev_involutive. Qed.

Lemma gen_loop_rpn room e cs stack fs :
  zlen (fields_name fs) + Z.of_nat (tests e) ≤ room →
  gen_loop get_hash_value room (rpn e ++ cs) stack fs = gen_loop get_hash_value room cs (stack ++ [tree_of e]) (noted e fs).
Proof.
  assert (∀ a b t cs stack fs, (t = LOGIC_AND ∨ t = LOGIC_OR) →
    gen_loop get_hash_value room (logic_cond t :: cs) ((stack ++ [a]) ++ [b]) fs
    = gen_loop get_hash_value room cs (stack ++ [Node (logic_cond t) b a]) fs) as Hop.
  { intros a b t cs' st fs' [-> | ->]; cbn [gen_loop logic_cond cond_type]; by rewrite !list_pop_app. }
  revert cs stack fs. induction e as [name cmp vals|a IHa b IHb|a IHa b IHb]; intros cs stack fs Hr; cbn [rpn tests] in *.
  - cbn [app gen_loop test_cond cond_type]. unfold note_field. cbn [test_cond cond_field comparator noted].
    case_bool_decide; [done|]. rewrite (proj2 (Z.ltb_lt _ _)) by lia. done.
  - pose proof (noted_length a fs). rewrite <- !app_assoc. rewrite IHa, IHb by lia. cbn [app]. rewrite Hop by auto. done.
  - pose proof (noted_length a fs). rewrite <- !app_assoc. rewrite IHa, IHb by lia. cbn [app]. rewrite Hop by auto. done.
Qed.

(** The array of fields never overflows for a well-formed condition. *)
Lemma GenExp_rpn e : GenExp get_hash_value (rpn e) = Some (Ptr (tree_of e, noted e (Fields [] []))).
Proof.
  unfold GenExp. pose proof (length_rpn e) as Hl. rewrite <- (app_nil_r (rpn e)) at 2. rewrite gen_loop_rpn.
  - cbn [gen_loop]. by rewrite list_pop_app.
  - cbn [fields_name]. change (zlen []) with 0. unfold zlen. zdiv.
Qed.

(** ** Execution *)

(** The row has the original values [val] of the fields, which compare with the
    constants of the clause. *)
Fixpoint fits (e : where_expr) (row : select_row_t) (val : list Z → low_data_struct) : Prop :=
  match e with
  | Test name cmp vals =>
      find_cell name (row_data row) (select_type row) = Some (Some (val name, SELECT_TYPE_ORIGINAL)) ∧
      ∃ t n, comparable t (val name) ∧ Forall (comparable t) vals ∧ arity cmp = Some n ∧ (n ≤ length vals)%nat
  | Both a b | Either a b => fits a row val ∧ fits b row val
  end.

Lemma execute_spec e row val : fits e row val → exp_execute (tree_of e) row = Some (if holds e val then 1 else 0).
Proof.
  induction e as [name cmp vals|a IHa b IHb|a IHa b IHb]; cbn [fits tree_of exp_execute holds].
  - intros [Hc (t & n & Hv & Hvs & Ha & Hn)]. unfold execute_leaf. cbn [with_hashes test_cond cond_field comparator cond_values hash_values].
    rewrite Hc. cbn [mbind option_bind]. rewrite (bool_decide_false (SELECT_TYPE_ORIGINAL = SELECT_TYPE_HASH)) by done.
    by apply (CompareValue_spec t _ _ _ n).
  - intros [Ha Hb]. rewrite (IHa Ha), (IHb Hb). cbn [logic_cond cond_type mbind option_bind]. by destruct (holds b val), (holds a val).
  - intros [Ha Hb]. rewrite (IHa Ha), (IHb Hb). cbn [logic_cond cond_type mbind option_bind]. by destruct (holds b val), (holds a val).
Qed.
End tree.
