(* ===== verification/AggrSpec.v ===== *)
(** * What the aggregate functions compute

    A function is applied to one value after the other; the theorems say what it
    has then: the number of values, the largest and the smallest, the number of
    different values that are not null. *)

From Stdlib Require Import ZArith Lia SpecFloat.
From stdpp Require Import base option list numbers sets.
From S2P Require Import Prelude RowidList LowData Hash Compare MileArray MileHashMap Db Row Aggr.

#[local] Open Scope mile_scope.

(** ** One value after the other *)

Fixpoint compute_from (pool : Z) (f : function_type) (vals : list low_data_struct) (cur : row_value) : option row_value :=
  match vals with
  | [] => Some cur
  | d :: vals => '(rc, cur) ← ComputeFunc pool f cur (Some d); if rc =? 0 then compute_from pool f vals cur else None
  end.

Definition compute_all (pool : Z) (f : function_type) (vals : list low_data_struct) : option row_value :=
  compute_from pool f vals (Plain zero_data).

Lemma compute_from_app pool f xs ys cur :
  compute_from pool f (xs ++ ys) cur = (v ← compute_from pool f xs cur; compute_from pool f ys v).
Proof.
  revert cur. induction xs as [|d xs IH]; intros cur; [done|]. cbn [app compute_from].
  destruct (ComputeFunc pool f cur (Some d)) as [[rc v]|]; [|done]. cbn [mbind option_bind]. by destruct (rc =? 0).
Qed.

Lemma compute_all_snoc pool f xs d v w :
  compute_all pool f xs = Some v → ComputeFunc pool f v (Some d) = Some (0, w) → compute_all pool f (xs ++ [d]) = Some w.
Proof. unfold compute_all. intros H1 H2. rewrite compute_from_app, H1. cbn [mbind option_bind compute_from]. by rewrite H2. Qed.

(** A relation that every step keeps holds of the result. *)
Lemma compute_all_ind pool f (ok : low_data_struct → Prop) (R : list low_data_struct → row_value → Prop) N vals :
  R [] (Plain zero_data) →
  (∀ xs d v, Forall ok xs → ok d → R xs v → zlen xs < N → ∃ w, ComputeFunc pool f v (Some d) = Some (0, w) ∧ R (xs ++ [d]) w) →
  Forall ok vals → zlen vals ≤ N → ∃ v, compute_all pool f vals = Some v ∧ R vals v.
Proof.
  intros H0 Hstep. induction vals as [|d vals IH] using rev_ind; intros Hok HN; [by exists (Plain zero_data)|].
  apply Forall_app in Hok as [Hok [Hd _]%Forall_cons]. rewrite zlen_app in HN. change (zlen [d]) with 1 in HN.
  destruct IH as (v & Hv & HR); [done|lia|].
  destruct (Hstep vals d v Hok Hd HR ltac:(lia)) as (w & Hw & HR'). exists w. split; [|done]. by apply (compute_all_snoc _ _ _ _ v).
Qed.

(** ** Count *)

Lemma load_longlong z : load (data (longlong z)) 8 = Some (u64 z).
Proof. rewrite load_all by done. f_equal. apply le_value_bytes. unfold u64. change (8 * Z.of_nat 8) with 64. apply Z.mod_pos_bound. lia. Qed.

Lemma zcopy_all (b src : list Z) : length src = length b → zcopy b 0 src = Some src.
Proof.
  intros H. pose proof (zcopy_mid [] b src) as E. cbn [app] in E. change (zlen []) with 0 in E. rewrite E by (unfold zlen; lia).
  by rewrite drop_ge, app_nil_r by lia.
Qed.

Lemma u64_add x n : u64 (u64 x + n) = u64 (x + n).
Proof. unfold u64. by rewrite Zplus_mod_idemp_l. Qed.

Lemma add_longlong_spec z n : add_longlong (longlong z) n = Some (longlong (z + n)).
Proof. unfold add_longlong. rewrite load_longlong. cbn [mbind option_bind]. rewrite zcopy_all by done. cbn [mbind option_bind]. by rewrite u64_add. Qed.

Definition counted (vals : list low_data_struct) (v : row_value) : Prop :=
  v = Plain (if decide (vals = []) then zero_data else longlong (zlen vals)).

Lemma count_spec pool vals : ∃ v, compute_all pool FUNC_COUNT vals = Some v ∧ counted vals v.
Proof.
  apply (compute_all_ind pool FUNC_COUNT (λ _, True) counted (zlen vals)); [done| |by apply Forall_true|done].
  intros xs d v _ _ -> _. cbn [ComputeFunc]. unfold Count. destruct (decide (xs = [])) as [->|Hne].
  - eexists. split; [done|]. done.
  - change (value_len (Plain (longlong (zlen xs)))) with 8. cbv iota. change (8 =? 0) with false. cbv iota.
    rewrite add_longlong_spec. cbn [mbind option_bind]. eexists. split; [done|]. unfold counted.
    rewrite decide_False by (by intros [_ ?]%app_eq_nil). by rewrite zlen_app.
Qed.

(** ** Largest and smallest *)

Definition fine (t : field_types) (d : low_data_struct) : Prop := comparable t d ∧ whole d ∧ type d ≠ HI_TYPE_NOTCOMP.

Definition non_null (vals : list low_data_struct) : list low_data_struct := filter (λ d, LOW_DATA_IS_NULL d = false) vals.

(** [d] is the extreme of the values that are not null: the largest for [better]
    -1, the smallest for 1; null when there is none. *)
Definition extreme (better : Z) (vals : list low_data_struct) (d : low_data_struct) : Prop :=
  non_null vals = [] ∧ LOW_DATA_IS_NULL d = true ∨
  d ∈ non_null vals ∧ ∀ w, w ∈ non_null vals → better * value_cmp (value_of d) (value_of w) ≤ 0.

Lemma non_null_snoc vals d : non_null (vals ++ [d]) = non_null vals ++ (if LOW_DATA_IS_NULL d then [] else [d]).
Proof. unfold non_null. rewrite list.filter_app, filter_cons, filter_nil. by destruct (LOW_DATA_IS_NULL d). Qed.

Lemma extreme_snoc t better vals d new :
  better = -1 ∨ better = 1 → fine t d → fine t new → extreme better vals d →
  ∃ d', extremum better (Plain d) new = Some (0, Plain d') ∧ fine t d' ∧ extreme better (vals ++ [new]) d'.
Proof.
  intros Hb (Hd & Hwd & Hnd) (Hn & Hwn & Hnn) He. unfold extremum, value_is_null. fold (LOW_DATA_IS_NULL d) (LOW_DATA_IS_NULL new).
  rewrite bool_decide_false by done. unfold extreme. rewrite non_null_snoc, (copy_whole new) by done. cbn [mbind option_bind].
  destruct (LOW_DATA_IS_NULL d) eqn:Nd.
  - assert (non_null vals = []) as ->.
    { destruct He as [[E _]|[Hin _]]; [done|]. apply list_elem_of_filter in Hin as [Hin _]. congruence. }
    exists new. split; [done|]. split; [done|]. destruct (LOW_DATA_IS_NULL new); [by left|]. right. split; [by left|].
    intros w Hw. apply list_elem_of_singleton in Hw as ->. rewrite (proj2 (value_cmp_eq _ _) eq_refl). lia.
  - destruct He as [[_ ?]|[Hin Hall]]; [congruence|]. destruct (LOW_DATA_IS_NULL new) eqn:Nn.
    { exists d. rewrite app_nil_r. split; [done|]. split; [done|]. right. auto. }
    rewrite (compare_ld_values t) by done. cbn [mbind option_bind].
    set (c := value_cmp (value_of d) (value_of new)). assert (c = -1 ∨ c = 0 ∨ c = 1) as Hc by apply value_cmp_cases.
    destruct (Z.eqb_spec c better) as [E|Hne].
    + exists new. split; [done|]. split; [done|]. right. split; [apply elem_of_app; right; by left|].
      intros w [Hw|Hw]%elem_of_app; cycle 1.
      { apply list_elem_of_singleton in Hw as ->. rewrite (proj2 (value_cmp_eq _ _) eq_refl). lia. }
      specialize (Hall w Hw). pose proof (value_cmp_sym (value_of d) (value_of new)) as S1. pose proof (value_cmp_sym (value_of new) (value_of w)) as S2.
      pose proof (value_cmp_sym (value_of d) (value_of w)) as S3. fold c in S1.
      destruct Hb as [-> | ->]; [pose proof (value_cmp_trans (value_of w) (value_of d) (value_of new))
                               |pose proof (value_cmp_trans (value_of new) (value_of d) (value_of w))]; fold c in H; lia.
    + rewrite (proj2 (Z.eqb_neq c (-2))) by lia. exists d. split; [done|]. split; [done|]. right. split; [apply elem_of_app; by left|].
      intros w [Hw|Hw]%elem_of_app; [by apply Hall|]. apply list_elem_of_singleton in Hw as ->. fold c. destruct Hb as [-> | ->]; lia.
Qed.

Lemma zero_fine t : fine t zero_data.
Proof. split; [by left|]. by split. Qed.

Lemma extreme_spec pool f better t vals :
  (f = FUNC_MAX ∧ better = -1 ∨ f = FUNC_MIN ∧ better = 1) → Forall (fine t) vals →
  ∃ d, compute_all pool f vals = Some (Plain d) ∧ fine t d ∧ extreme better vals d.
Proof.
  intros Hf Hok. destruct (compute_all_ind pool f (fine t) (λ xs v, ∃ d, v = Plain d ∧ fine t d ∧ extreme better xs d) (zlen vals) vals)
    as (v & Hv & d & -> & Hd & He); [| |done|done|by exists d].
  - exists zero_data. split; [done|]. split; [apply zero_fine|]. by left.
  - intros xs new v Hxs Hnew (d & -> & Hd & He) _. assert (better = -1 ∨ better = 1) as Hb by tauto.
    destruct (extreme_snoc t better xs d new Hb Hd Hnew He) as (d' & E & Hd' & He'). exists (Plain d'). split; [|by exists d'].
    destruct Hf as [[-> ->]|[-> ->]]; exact E.
Qed.

(** ** Different values *)

Definition different (vals : list low_data_struct) : list low_data_struct := remove_dups (filter (λ d, type d ≠ HI_TYPE_NULL) vals).

Definition distinct_counted (vals : list low_data_struct) (v : row_value) : Prop :=
  v = Plain zero_data ∧ vals = [] ∨
  ∃ s ds, v = SetOf (zlen ds) s ∧ set_rep whole id ld_code s ds ∧ ds ≡ₚ different vals ∧ vals ≠ [].

Lemma different_snoc vals d :
  different (vals ++ [d]) ≡ₚ if decide (type d = HI_TYPE_NULL ∨ d ∈ different vals) then different vals else different vals ++ [d].
Proof.
  apply NoDup_Permutation.
  - apply NoDup_remove_dups.
  - case_decide as H; [apply NoDup_remove_dups|]. apply NoDup_app. split; [apply NoDup_remove_dups|]. split; [|apply NoDup_singleton].
    intros x Hx Hd%list_elem_of_singleton. subst x. apply H. by right.
  - intros x. unfold different at 1. rewrite elem_of_remove_dups, list_elem_of_filter, elem_of_app, list_elem_of_singleton.
    assert (x ∈ different vals ↔ type x ≠ HI_TYPE_NULL ∧ x ∈ vals) as Hx by (unfold different; by rewrite elem_of_remove_dups, list_elem_of_filter).
    assert (d ∈ different vals ↔ type d ≠ HI_TYPE_NULL ∧ d ∈ vals) as Hd by (unfold different; by rewrite elem_of_remove_dups, list_elem_of_filter).
    case_decide as H; [|rewrite elem_of_app, list_elem_of_singleton]; rewrite Hx; [|naive_solver].
    split; [|naive_solver]. intros [Ht [Hin| ->]]; [done|]. destruct H as [?|?]; [done|]. by apply Hd.
Qed.

Lemma distinct_spec pool vals :
  Forall whole vals → zlen vals < 2 ^ 32 → ∃ v, compute_all pool FUNC_COUNT_DISTINCT vals = Some v ∧ distinct_counted vals v.
Proof.
  intros Hok Hn. apply (compute_all_ind pool FUNC_COUNT_DISTINCT whole distinct_counted (2 ^ 32 - 1)); [by left| |done|lia].
  intros xs d v Hxs Hd Hv Hlt. cbn [ComputeFunc]. unfold CountDistinct.
  assert (∃ s ds, start_set v = Some (zlen ds, s) ∧
    set_rep whole id ld_code s ds ∧ ds ≡ₚ different xs) as (s & ds & E & Hs & Hds).
  { destruct Hv as [[-> ->]|(s & ds & -> & Hs & Hds & _)]; [exists buckets_init, []; split; [done|]; split; [apply set_init_rep|done]|by exists s, ds]. }
  rewrite E. cbn [mbind option_bind]. rewrite (set_contains_spec ld_equal ld_coding whole id ld_code s ds d Hs Hd). cbn [mbind option_bind id].
  assert (different (xs ++ [d]) ≡ₚ if decide (type d = HI_TYPE_NULL ∨ d ∈ ds) then ds else ds ++ [d]) as Hsn.
  { rewrite different_snoc. assert (d ∈ ds ↔ d ∈ different xs) as Hi by (by rewrite Hds). do 2 case_decide; rewrite ?Hds; (done || tauto). }
  assert (xs ++ [d] ≠ []) as Hne by (by intros [_ ?]%app_eq_nil). rewrite list_fmap_id. case_bool_decide as Hin.
  { eexists. split; [done|]. right. exists s, ds. split; [done|]. split; [done|]. split; [|done]. symmetry; rewrite Hsn, decide_True; [done|by right]. }
  destruct (decide (type d = HI_TYPE_NULL)) as [Ht|Ht].
  { rewrite (bool_decide_true (type d = HI_TYPE_NULL)) by done. cbn [negb]. eexists. split; [done|]. right. exists s, ds. split; [done|]. split; [done|].
    split; [|done]. symmetry; rewrite Hsn, decide_True; [done|by left]. }
  rewrite (bool_decide_false (type d = HI_TYPE_NULL)) by done. cbn [negb]. rewrite (copy_whole d Hd). cbn [mbind option_bind].
  assert (zlen ds ≤ zlen xs) as Hle.
  { unfold zlen. rewrite Hds. unfold different. assert (length (remove_dups (filter (λ d, type d ≠ HI_TYPE_NULL) xs)) ≤ length xs)%nat; [|lia].
    etransitivity; [|apply (length_filter (λ d, type d ≠ HI_TYPE_NULL))]. apply submseteq_length, NoDup_submseteq; [apply NoDup_remove_dups|].
    intros x. by rewrite elem_of_remove_dups. }
  destruct (set_add_spec ld_equal ld_coding whole id ld_code s ds d Hs Hd ltac:(lia)) as (s' & E' & Hs'). rewrite E'. cbn [mbind option_bind].
  cbn [id] in Hs'. rewrite list_fmap_id, decide_False in Hs' by done. eexists. split; [done|]. right. exists s', (ds ++ [d]).
  rewrite zlen_app. change (zlen [d]) with 1. pose proof (zlen_nonneg ds). rewrite u32_small by lia. split; [done|]. split; [done|].
  split; [|done]. symmetry; rewrite Hsn, decide_False; [done|]. intros [?|?]; done.
Qed.

(** ** The types and the sums of the aggregate functions

    What each function holds after any sequence of numbers of one type: a judgement
    on the collected value, which every step keeps.  The doubles are those that the
    cells hold, after being written in eight bytes. *)

From S2P Require Import Prelude RowidList LowData Hash Compare MileArray MileHashMap Db Row Aggr.

Module AggrTypes.
#[local] Open Scope mile_scope.

(** ** Numbers *)

Definition is_number (t : field_types) : bool := 0 <? get_unit_size t.

(** A value of type [t] with exactly its bytes. *)
Definition full (t : field_types) (d : low_data_struct) : Prop := type d = t ∧ len d = get_unit_size t ∧ whole d.

(** A value of a column of type [t], which may be null. *)
Definition has_type (t : field_types) (d : low_data_struct) : Prop :=
  whole d ∧ type d ≠ HI_TYPE_NOTCOMP ∧ (LOW_DATA_IS_NULL d = true ∨ full t d).

(** The double in a cell that [x] was written to. *)
Definition stored (x : double) : double := of_ieee (decode_ieee 52 11 (u64 (ieee_bits 52 11 x))).

Definition number (d : low_data_struct) : double := default S754_nan (ld_to_double d).

Lemma le_value_le_bytes n z : le_value (le_bytes n z) = z `mod` 2 ^ (8 * Z.of_nat n).
Proof.
  revert z. induction n as [|n IH]; intros z; [by rewrite Z.mod_1_r|]. cbn [le_bytes le_value]. rewrite IH.
  replace (2 ^ (8 * Z.of_nat (S n))) with (256 * 2 ^ (8 * Z.of_nat n)) by (rewrite <- (Z.pow_add_r 2 8) by lia; f_equal; lia).
  rewrite Z.rem_mul_r by lia. done.
Qed.

Lemma load_a_double x : load_double (data (a_double x)) = Some (stored x).
Proof.
  unfold load_double. rewrite load_all by done. cbn [data a_double fmap option_fmap option_map]. unfold compose, stored, u64.
  by rewrite le_value_le_bytes.
Qed.

Lemma store_a_double x y : store_double (a_double x) y = Some (a_double y).
Proof. unfold store_double. rewrite zcopy_all by (cbn [data a_double]; by rewrite !length_le_bytes). done. Qed.

Lemma number_spec t d : is_number t = true → full t d → ld_to_double d = Some (number d).
Proof.
  intros Ht (E & El & Hw). unfold number. unfold whole in Hw. rewrite El in Hw. destruct d as [ty bytes l]. cbn [type data] in *. subst ty.
  unfold ld_to_double, load_float, load_double. cbn [type data].
  destruct t; try discriminate Ht; cbn [get_unit_size] in Hw; rewrite (load_all _ _ Hw); done.
Qed.

(** ** The judgement *)

(** The next sum: a number that is no number replaces the sum, and then the sum stays. *)
Definition next_sum (f : double → double → double) (x : double) (d : low_data_struct) : double :=
  if is_nan (number d) then number d else if is_nan (stored x) then x else f (stored x) (number d).

Definition sum_of (f : double → double → double) (vals : list low_data_struct) : double := foldl (next_sum f) d0 (non_null vals).

(** The squares follow the sum: they stop when it is no number. *)
Definition next_squares (qx : double * double) (d : low_data_struct) : double * double :=
  if is_nan (number d) then (number d, number d)
  else if is_nan (stored qx.2) then qx else (plus_square (stored qx.1) (number d), plus_number (stored qx.2) (number d)).

Definition squares_of (vals : list low_data_struct) : double * double := foldl next_squares (d0, d0) (non_null vals).

(** What a function holds after [vals]. *)
Inductive holds (vals : list low_data_struct) : function_type → row_value → Prop :=
| count_holds v : counted vals v → holds vals FUNC_COUNT v
| extreme_holds f d : f = FUNC_MAX ∨ f = FUNC_MIN → d = zero_data ∨ d ∈ vals → holds vals f (Plain d)
| none_holds f : f = FUNC_SUM ∨ f = FUNC_SQUARE_SUM ∨ f = FUNC_AVG ∨ f = FUNC_VAR ∨ f = FUNC_STD → non_null vals = [] →
    holds vals f (Plain zero_data)
| sum_holds f op : f = FUNC_SUM ∧ op = plus_number ∨ f = FUNC_SQUARE_SUM ∧ op = plus_square → non_null vals ≠ [] →
    holds vals f (Plain (a_double (sum_of op vals)))
| avg_holds a : non_null vals ≠ [] → array_rep a [a_double (sum_of plus_number vals); longlong (zlen (non_null vals))] →
    holds vals FUNC_AVG (ArrayOf 2 a)
| var_holds f a : f = FUNC_VAR ∨ f = FUNC_STD → non_null vals ≠ [] →
    array_rep a [a_double (squares_of vals).1; a_double (squares_of vals).2; longlong (zlen (non_null vals))] →
    holds vals f (ArrayOf 3 a)
| distinct_holds v : distinct_counted vals v → holds vals FUNC_COUNT_DISTINCT v.

(** The types of these values, for a column of type [t]: a count is a [LONGLONG], a
    sum a [DOUBLE], an extremum has the type of the column; the others collect such
    values in an array or a set. *)
Inductive typed (t : field_types) : function_type → row_value → Prop :=
| typed_none f : typed t f (Plain zero_data)
| typed_count d : full HI_TYPE_LONGLONG d → typed t FUNC_COUNT (Plain d)
| typed_extreme f d : f = FUNC_MAX ∨ f = FUNC_MIN → has_type t d → typed t f (Plain d)
| typed_sum f d : f = FUNC_SUM ∨ f = FUNC_SQUARE_SUM → full HI_TYPE_DOUBLE d → typed t f (Plain d)
| typed_avg a sum count : array_items a = Some [sum; count] → full HI_TYPE_DOUBLE sum → full HI_TYPE_LONGLONG count →
    typed t FUNC_AVG (ArrayOf 2 a)
| typed_var f a squares sum count : f = FUNC_VAR ∨ f = FUNC_STD → array_items a = Some [squares; sum; count] →
    full HI_TYPE_DOUBLE squares → full HI_TYPE_DOUBLE sum → full HI_TYPE_LONGLONG count → typed t f (ArrayOf 3 a)
| typed_distinct s ds : set_items s = Some ds → NoDup ds → Forall (has_type t) ds → typed t FUNC_COUNT_DISTINCT (SetOf (zlen ds) s).

Lemma full_longlong z : full HI_TYPE_LONGLONG (longlong z).
Proof. done. Qed.

Lemma full_double x : full HI_TYPE_DOUBLE (a_double x).
Proof. done. Qed.

#[local] Hint Resolve full_longlong full_double : core.
#[local] Hint Constructors typed : core.

Lemma zero_has_type t : has_type t zero_data.
Proof. split; [done|]. split; [done|]. by left. Qed.

Lemma holds_typed t vals f v : Forall (has_type t) vals → holds vals f v → typed t f v.
Proof.
  intros Ht H. destruct H as [v ->|f d Hf Hd|f Hf Hn|f op Hf Hne|a Hne Ha|f a Hf Hne Ha|v Hv]; [case_decide; eauto|..]; eauto.
  - apply typed_extreme; [done|]. destruct Hd as [->|Hd]; [apply zero_has_type|]. rewrite list.Forall_forall in Ht. by apply Ht.
  - apply typed_sum; [|done]. tauto.
  - apply array_items_spec in Ha. eauto.
  - apply array_items_spec in Ha. eauto.
  - destruct Hv as [[-> _]|(s & ds & -> & Hs & Hds & _)]; [eauto|]. destruct (set_items_spec whole id ld_code s ds Hs) as (ys & Hys & Hp).
    replace (zlen ds) with (zlen ys) by (unfold zlen; by rewrite Hp). apply typed_distinct; [done|..]; rewrite Hp, Hds.
    + apply NoDup_remove_dups.
    + apply list.Forall_forall. intros x Hx. unfold different in Hx. rewrite elem_of_remove_dups, list_elem_of_filter in Hx. destruct Hx as [_ Hx].
      rewrite list.Forall_forall in Ht. by apply Ht.
Qed.

(** ** Every step keeps it *)

Lemma type_cases t d : has_type t d → LOW_DATA_IS_NULL d = true ∨ LOW_DATA_IS_NULL d = false ∧ full t d.
Proof. intros (_ & _ & [H|H]); [by left|]. destruct (LOW_DATA_IS_NULL d) eqn:E; [by left|by right]. Qed.

Lemma non_null_null xs d : LOW_DATA_IS_NULL d = true → non_null (xs ++ [d]) = non_null xs.
Proof. intros H. by rewrite non_null_snoc, H, app_nil_r. Qed.

Lemma non_null_full xs d : LOW_DATA_IS_NULL d = false → non_null (xs ++ [d]) = non_null xs ++ [d].
Proof. intros H. by rewrite non_null_snoc, H. Qed.

Lemma add_number_spec t f x d : is_number t = true → full t d → add_number f (a_double x) d = Some (a_double (next_sum f x d)).
Proof.
  intros Ht Hd. unfold add_number. rewrite (number_spec t d Ht Hd), load_a_double. cbn [mbind option_bind]. unfold next_sum.
  destruct (is_nan (number d)); [apply store_a_double|]. destruct (is_nan (stored x)); [done|apply store_a_double].
Qed.

Lemma double_is_value x : value_is_null (a_double x) = false.
Proof. done. Qed.

Lemma sum_step t f op pool xs d v :
  f = FUNC_SUM ∧ op = plus_number ∨ f = FUNC_SQUARE_SUM ∧ op = plus_square → is_number t = true → has_type t d → holds xs f v →
  ∃ w, ComputeFunc pool f v (Some d) = Some (0, w) ∧ holds (xs ++ [d]) f w.
Proof.
  intros Hf Ht Hd Hv.
  assert (ComputeFunc pool f v (Some d) = a_sum op v d) as -> by (destruct Hf as [[-> ->]|[-> ->]]; done).
  assert (v = Plain zero_data ∧ non_null xs = [] ∨ v = Plain (a_double (sum_of op xs)) ∧ non_null xs ≠ []) as Hc.
  { destruct Hv; try (destruct Hf as [[? ?]|[? ?]]; naive_solver). }
  clear Hv. unfold a_sum. change (value_is_null d) with (LOW_DATA_IS_NULL d). destruct (type_cases t d Hd) as [En|[En Hfull]]; rewrite En.
  { exists v. split; [done|]. destruct Hc as [[-> E]|[-> E]]; [apply none_holds; [tauto|by rewrite non_null_null]|].
    replace (sum_of op xs) with (sum_of op (xs ++ [d])) by (unfold sum_of; by rewrite non_null_null). apply sum_holds; [done|]. by rewrite non_null_null. }
  assert (sum_of op (xs ++ [d]) = next_sum op (sum_of op xs) d) as Es.
  { unfold sum_of. by rewrite non_null_full, foldl_app by done. }
  assert (non_null (xs ++ [d]) ≠ []) as Hne by (rewrite non_null_full by done; by destruct (non_null xs)).
  destruct Hc as [[-> E]|[-> E]].
  - change (value_is_null zero_data) with true. cbv iota. rewrite (add_number_spec t) by done. cbn [mbind option_bind]. eexists. split; [done|].
    replace (next_sum op d0 d) with (sum_of op (xs ++ [d])) by (rewrite Es; unfold sum_of; by rewrite E).
    by apply sum_holds.
  - rewrite double_is_value, (add_number_spec t) by done. cbn [mbind option_bind]. rewrite <- Es. eexists. split; [done|].
    by apply sum_holds.
Qed.

(** The array at its first value, and later. *)
Lemma start_array_none pool l : (∃ x y, l = [x; y]) ∨ (∃ x y z, l = [x; y; z]) → 32 ≤ pool → ∃ a, start_array pool (Plain zero_data) l = Some a ∧ array_rep a l.
Proof.
  intros Hl Hp. unfold start_array. cbn [no_data]. rewrite bool_decide_true by done.
  assert (∀ l a xs, array_rep a xs → 16 * (zlen xs + zlen l) ≤ 16 + MileArray.pool a → ∃ a', fill_array a l = Some a' ∧ array_rep a' (xs ++ l)) as H.
  { clear. induction l as [|d l IH]; intros a xs Ha Hp; [exists a; by rewrite app_nil_r|]. rewrite zlen_cons in Hp. pose proof (zlen_nonneg l).
    cbn [fill_array]. destruct (array_add_spec a xs d Ha) as (a' & E & Ha' & Hp'); [unfold PTR_SIZE; lia|]. rewrite E. cbn [mbind option_bind].
    destruct (IH a' (xs ++ [d]) Ha') as (a'' & E' & Hr); [rewrite zlen_app; change (zlen [d]) with 1; lia|]. exists a''. by rewrite <- app_assoc in Hr. }
  destruct (H l (array_init pool) [] (array_init_rep pool)) as (a & E & Ha); [|by exists a].
  change (MileArray.pool (array_init pool)) with pool. destruct Hl as [(x & y & ->)|(x & y & z & ->)]; unfold zlen; cbn [length]; lia.
Qed.

Lemma set_two (a : MileArray low_data_struct) x y x' y' : array_rep a [x; y] →
  ∃ b, (a ← array_set a 0 x'; array_set a 1 y') = Some b ∧ array_rep b [x'; y'].
Proof.
  intros Ha. destruct (array_set_spec a [x; y] 0 x' Ha) as (b & -> & Hb & _); [done|]. cbn [mbind option_bind].
  destruct (array_set_spec b _ 1 y' Hb) as (c & -> & Hc & _); [done|]. by exists c.
Qed.

Lemma set_three (a : MileArray low_data_struct) x y z x' y' z' : array_rep a [x; y; z] →
  ∃ b, (a ← array_set a 0 x'; a ← array_set a 1 y'; array_set a 2 z') = Some b ∧ array_rep b [x'; y'; z'].
Proof.
  intros Ha. destruct (array_set_spec a [x; y; z] 0 x' Ha) as (b & -> & Hb & _); [done|]. cbn [mbind option_bind].
  destruct (array_set_spec b _ 1 y' Hb) as (c & -> & Hc & _); [done|]. cbn [mbind option_bind].
  destruct (array_set_spec c _ 2 z' Hc) as (e & -> & He & _); [done|]. by exists e.
Qed.

Lemma array_value_spec a xs i x : array_rep a xs → 0 ≤ i → xs⟦i⟧ = Some x → array_value a i = Some x.
Proof. intros Ha Hi E. unfold array_value. by rewrite (array_get_spec a xs i Ha Hi), E. Qed.

Lemma avg_step t pool xs d v :
  32 ≤ pool → is_number t = true → has_type t d → holds xs FUNC_AVG v →
  ∃ w, ComputeFunc pool FUNC_AVG v (Some d) = Some (0, w) ∧ holds (xs ++ [d]) FUNC_AVG w.
Proof.
  intros Hp Ht Hd Hv. cbn [ComputeFunc mbind option_bind]. unfold Avg. change (value_is_null d) with (LOW_DATA_IS_NULL d).
  assert (v = Plain zero_data ∧ non_null xs = [] ∨
    ∃ a, v = ArrayOf 2 a ∧ non_null xs ≠ [] ∧ array_rep a [a_double (sum_of plus_number xs); longlong (zlen (non_null xs))]) as Hc.
  { inversion Hv; subst; naive_solver. }
  clear Hv. destruct (type_cases t d Hd) as [En|[En Hfull]]; rewrite En.
  { exists v. split; [done|]. destruct Hc as [[-> E]|(a & -> & E & Ha)]; [apply none_holds|apply avg_holds]; rewrite ?non_null_null by done; try done; [tauto|].
    unfold sum_of. by rewrite non_null_null. }
  assert (∃ a, start_array pool v [a_double d0; longlong 0] = Some a ∧
    array_rep a [a_double (sum_of plus_number xs); longlong (zlen (non_null xs))]) as (a & -> & Ha).
  { destruct Hc as [[-> E]|(a & -> & E & Ha)]; [|by exists a]. destruct (start_array_none pool [a_double d0; longlong 0]) as (a & Es & Ha); [by left; eexists _, _|done|].
    exists a. unfold sum_of. by rewrite E. }
  cbn [mbind option_bind]. rewrite (array_value_spec a _ 0 _ Ha), (array_value_spec a _ 1 _ Ha) by done. cbn [mbind option_bind].
  rewrite add_longlong_spec. cbn [mbind option_bind]. rewrite (add_number_spec t) by done. cbn [mbind option_bind].
  destruct (set_two a _ _ (a_double (next_sum plus_number (sum_of plus_number xs) d)) (longlong (zlen (non_null xs) + 1)) Ha) as (b & E & Hb).
  destruct (array_set a 0 _) as [a'|]; [|done]. cbn [mbind option_bind] in *. rewrite E. cbn [mbind option_bind]. eexists. split; [done|].
  apply avg_holds; [rewrite non_null_full by done; by destruct (non_null xs)|]. unfold sum_of. rewrite non_null_full, foldl_app, zlen_app by done. exact Hb.
Qed.

Lemma var_step t f pool xs d v :
  f = FUNC_VAR ∨ f = FUNC_STD → 32 ≤ pool → is_number t = true → has_type t d → holds xs f v →
  ∃ w, ComputeFunc pool f v (Some d) = Some (0, w) ∧ holds (xs ++ [d]) f w.
Proof.
  intros Hf Hp Ht Hd Hv. assert (ComputeFunc pool f v (Some d) = Var pool v d) as -> by (destruct Hf as [-> | ->]; done).
  unfold Var. change (value_is_null d) with (LOW_DATA_IS_NULL d).
  assert (v = Plain zero_data ∧ non_null xs = [] ∨ ∃ a, v = ArrayOf 3 a ∧ non_null xs ≠ [] ∧
    array_rep a [a_double (squares_of xs).1; a_double (squares_of xs).2; longlong (zlen (non_null xs))]) as Hc.
  { destruct Hf as [-> | ->]; inversion Hv; subst; naive_solver. }
  clear Hv. destruct (type_cases t d Hd) as [En|[En Hfull]]; rewrite En.
  { exists v. split; [done|]. destruct Hc as [[-> E]|(a & -> & E & Ha)]; [apply none_holds|apply var_holds]; rewrite ?non_null_null by done; try done; [tauto|].
    unfold squares_of. by rewrite non_null_null. }
  assert (∃ a, start_array pool v [a_double d0; a_double d0; longlong 0] = Some a ∧
    array_rep a [a_double (squares_of xs).1; a_double (squares_of xs).2; longlong (zlen (non_null xs))]) as (a & -> & Ha).
  { destruct Hc as [[-> E]|(a & -> & E & Ha)]; [|by exists a].
    destruct (start_array_none pool [a_double d0; a_double d0; longlong 0]) as (a & Es & Ha); [by right; eexists _, _, _|done|].
    exists a. unfold squares_of. by rewrite E. }
  cbn [mbind option_bind]. rewrite (array_value_spec a _ 0 _ Ha), (array_value_spec a _ 1 _ Ha), (array_value_spec a _ 2 _ Ha) by done. cbn [mbind option_bind].
  rewrite add_longlong_spec. cbn [mbind option_bind]. rewrite (number_spec t d Ht Hfull), !load_a_double. cbn [mbind option_bind].
  set (next := next_squares (squares_of xs) d).
  assert (squares_of (xs ++ [d]) = next) as En' by (unfold squares_of; by rewrite non_null_full, foldl_app by done).
  assert (∀ k : low_data_struct * low_data_struct → option (Z * row_value),
    k (a_double next.1, a_double next.2) = (qs ← (if is_nan (number d) then square ← store_double (a_double (squares_of xs).1) (number d); sum ← store_double (a_double (squares_of xs).2) (number d); Some (square, sum)
      else if negb (is_nan (stored (squares_of xs).2)) then
        square ← store_double (a_double (squares_of xs).1) (plus_square (stored (squares_of xs).1) (number d));
        sum ← store_double (a_double (squares_of xs).2) (plus_number (stored (squares_of xs).2) (number d)); Some (square, sum)
      else Some (a_double (squares_of xs).1, a_double (squares_of xs).2)); k qs)) as Hk.
  { intros k. unfold next, next_squares. destruct (is_nan (number d)); [by rewrite !store_a_double|].
    destruct (is_nan (stored (squares_of xs).2)); [done|]. cbn [negb]. by rewrite !store_a_double. }
  rewrite <- Hk.
  destruct (set_three a _ _ _ (a_double next.1) (a_double next.2) (longlong (zlen (non_null xs) + 1)) Ha) as (b & E & Hb).
  destruct (array_set a 0 _) as [a'|]; [|done]. cbn [mbind option_bind] in *. destruct (array_set a' 1 _) as [a''|]; [|done]. cbn [mbind option_bind] in *.
  rewrite E. cbn [mbind option_bind]. eexists. split; [done|].
  apply var_holds; [done|rewrite non_null_full by done; by destruct (non_null xs)|]. rewrite En', non_null_full, zlen_app by done. exact Hb.
Qed.

Lemma compare_numbers t d e : is_number t = true → full t d → full t e →
  ∃ c, compare_ld (Ptr d) (Ptr e) = Some c ∧ c ≠ -2.
Proof.
  intros Ht (Ed & Ld & Hd) (Ee & Le & He). unfold whole in *. unfold compare_ld.
  destruct (LOW_DATA_IS_NULL d), (LOW_DATA_IS_NULL e); cbn [andb]; [by eexists..|]. rewrite Ed, Ee, bool_decide_true by done. cbn [negb].
  rewrite Ld in Hd. rewrite Le in He.
  destruct t; try discriminate Ht; cbn [get_unit_size compare_cells] in *; unfold load_float, load_double; rewrite (load_all _ _ Hd), (load_all _ _ He);
    cbn [mbind option_bind fmap option_fmap option_map]; eexists; (split; [reflexivity|]);
    unfold compare_floats, COMP_float, COMP; repeat case_match; lia.
Qed.

Lemma extreme_step t f better xs d v pool :
  f = FUNC_MAX ∧ better = -1 ∨ f = FUNC_MIN ∧ better = 1 → is_number t = true → has_type t d → Forall (has_type t) xs → holds xs f v →
  ∃ w, ComputeFunc pool f v (Some d) = Some (0, w) ∧ holds (xs ++ [d]) f w.
Proof.
  intros Hf Ht Hd Hxs Hv. assert (ComputeFunc pool f v (Some d) = extremum better v d) as -> by (destruct Hf as [[-> ->]|[-> ->]]; done).
  assert (f = FUNC_MAX ∨ f = FUNC_MIN) as Hf' by tauto. assert (∃ c, v = Plain c ∧ (c = zero_data ∨ c ∈ xs)) as (c & -> & Hc).
  { destruct Hv; try (destruct Hf as [[? ?]|[? ?]]; naive_solver). }
  assert (has_type t c) as Htc by (destruct Hc as [->|Hc]; [apply zero_has_type|rewrite list.Forall_forall in Hxs; by apply Hxs]).
  assert (holds (xs ++ [d]) f (Plain c)) as Hold by (apply extreme_holds; [done|]; destruct Hc; [by left|right; apply elem_of_app; by left]).
  assert (holds (xs ++ [d]) f (Plain d)) as Hnew by (apply extreme_holds; [done|]; right; apply elem_of_app; right; by left).
  unfold extremum. rewrite bool_decide_false by apply Htc. change (value_is_null ?x) with (LOW_DATA_IS_NULL x).
  rewrite (copy_whole d) by apply Hd. cbn [mbind option_bind].
  destruct (type_cases t c Htc) as [En|[En Hfc]]; rewrite En; [by eexists|].
  destruct (type_cases t d Hd) as [En'|[En' Hfd]]; rewrite En'; [by eexists|].
  destruct (compare_numbers t c d Ht Hfc Hfd) as (r & -> & Hr). cbn [mbind option_bind].
  destruct (r =? better); [by eexists|]. rewrite (proj2 (Z.eqb_neq r (-2)) Hr). by eexists.
Qed.

(** ** The types of the results *)

Lemma compute_holds pool t f vals :
  32 ≤ pool → is_number t = true → f ≠ FUNC_OTHER → Forall (has_type t) vals → zlen vals < 2 ^ 32 →
  ∃ v, compute_all pool f vals = Some v ∧ holds vals f v.
Proof.
  intros Hp Ht Hf Hvals Hn.
  assert (∀ g, holds [] g (Plain zero_data) →
    (∀ xs d v, has_type t d → Forall (has_type t) xs → holds xs g v → ∃ w, ComputeFunc pool g v (Some d) = Some (0, w) ∧ holds (xs ++ [d]) g w) →
    ∃ v, compute_all pool g vals = Some v ∧ holds vals g v) as Hind.
  { intros g H0 Hstep. apply (compute_all_ind pool g (has_type t) (λ xs v, holds xs g v) (zlen vals)); [done| |done|done].
    intros xs d v Hxs Hd Hv _. by apply Hstep. }
  destruct f; try done.
  - destruct (count_spec pool vals) as (v & E & Hv). exists v. split; [done|by constructor].
  - apply Hind; [apply none_holds; auto|]. intros xs d v Hd _. apply (sum_step t _ plus_number); auto.
  - apply Hind; [apply extreme_holds; auto|]. intros xs d v Hd Hxs. apply (extreme_step t _ (-1)); auto.
  - apply Hind; [apply extreme_holds; auto|]. intros xs d v Hd Hxs. apply (extreme_step t _ 1); auto.
  - destruct (distinct_spec pool vals) as (v & E & Hv); [|done|exists v; split; [done|by constructor]].
    rewrite list.Forall_forall in Hvals |- *. intros x Hx. by apply Hvals.
  - apply Hind; [apply none_holds; auto|]. intros xs d v Hd _. apply (sum_step t _ plus_square); auto.
  - apply Hind; [apply none_holds; auto|]. intros xs d v Hd _. apply (avg_step t); auto.
  - apply Hind; [apply none_holds; auto|]. intros xs d v Hd _. apply (var_step t); auto.
  - apply Hind; [apply none_holds; auto 6|]. intros xs d v Hd _. apply (var_step t); auto.
Qed.

(** C27: the aggregate functions are well typed.  Applied to the numbers and nulls of a
    column of any number type [t], one after the other, every function returns success
    each time, and what it has collected has the type of its result: a count is a
    [LONGLONG], a sum a [DOUBLE], an extremum is a value of the column's type, averages
    and variances are arrays of sums and a count, distinct values a set of such values.
    The sums of an average are those of the values that are not null, and so is
    their count. *)
Theorem aggregate_types pool t f vals :
  32 ≤ pool → is_number t = true → f ≠ FUNC_OTHER → Forall (has_type t) vals → zlen vals < 2 ^ 32 →
  ∃ v, compute_all pool f vals = Some v ∧ typed t f v ∧ holds vals f v.
Proof.
  intros Hp Ht Hf Hvals Hn. destruct (compute_holds pool t f vals) as (v & E & Hv); [done..|].
  exists v. split; [done|]. split; [by apply (holds_typed t vals)|done].
Qed.

(** The shorts 7, null and -3. *)
Definition demo_shorts : list low_data_struct := [a_short 7; LowData HI_TYPE_SHORT [] 0; a_short (-3)].

Lemma aggregate_types_witness :
  ∃ v w a, compute_all 32 FUNC_SUM demo_shorts = Some v ∧ v = Plain (a_double (double_of_int 4)) ∧
    compute_all 32 FUNC_AVG demo_shorts = Some w ∧ w = ArrayOf 2 a ∧ array_items a = Some [a_double (double_of_int 4); longlong 2].
Proof.
  assert (Forall (has_type HI_TYPE_SHORT) demo_shorts) as H.
  { apply Forall_cons_2; [|apply Forall_cons_2; [|apply Forall_cons_2; [|by apply Forall_nil_2]]]; (split; [reflexivity|split; [done|]]);
      [right; by split|by left|right; by split]. }
  destruct (aggregate_types 32 HI_TYPE_SHORT FUNC_SUM demo_shorts) as (v & E & _ & _); [done..|exact H|done|].
  destruct (aggregate_types 32 HI_TYPE_SHORT FUNC_AVG demo_shorts) as (w & E' & _ & _); [done..|exact H|done|].
  exists v, w. vm_compute in E. vm_compute in E'. injection E as <-. injection E' as <-. eexists. split_and!; try (vm_compute; reflexivity).
Defined.
End AggrTypes.
