(* ===== verification/ResultSet.v ===== *)
(** * Result sets ([src/execute/*RS.cpp])

    What a query collects: the rows as they come, without their duplicates, the
    first rows in an order, or one row per group.  [limit] 0 is no limit. *)

From Stdlib Require Import ZArith Lia.
From stdpp Require Import base option list numbers sets.
From S2P Require Import Prelude Suffix RowidList LowData Compare MileArray MileHashMap Db Row Aggr Expression.

#[local] Open Scope mile_scope.

Definition WARN_EXCEED_QUERY_LIMIT : Z := -9999.

(** ** Rows as they come *)

Record CommonRS := Common { common_limit : Z; common_array : MileArray select_row_t }.

Definition common_init (pool limit : Z) : CommonRS := Common limit (array_init pool).

Definition common_add (rs : CommonRS) (row : select_row_t) : option (Z * CommonRS) :=
  if (array_size (common_array rs) =? common_limit rs) && negb (common_limit rs =? 0) then Some (WARN_EXCEED_QUERY_LIMIT, rs)
  else
    c ← row_clone row;
    '(rc, a) ← array_add (common_array rs) c;
    Some (rc, Common (common_limit rs) a).

(** ** Different rows *)

Record DistinctRS := Distinct { distinct_limit : Z; distinct_num : Z; distinct_set : HashSet select_row_t }.

Definition distinct_init (limit : Z) : DistinctRS := Distinct limit 0 buckets_init.

Definition distinct_add (rs : DistinctRS) (row : select_row_t) : option (Z * DistinctRS) :=
  if (distinct_num rs =? distinct_limit rs) && negb (distinct_limit rs =? 0) then Some (WARN_EXCEED_QUERY_LIMIT, rs)
  else
    b ← set_contains row_equal row_coding (distinct_set rs) row;
    if (b : bool) then Some (0, rs)
    else
      c ← row_clone row;
      s ← set_add row_equal row_coding (distinct_set rs) c;
      Some (0, Distinct (distinct_limit rs) (u32 (distinct_num rs + 1)) s).

(** ** The first rows in an order *)

(** The largest of the rows is in front, once the limit is reached. *)
Record OrderedRS := Ordered { ordered_comp : OrderComparator; ordered_limit : Z; ordered_heaped : bool; ordered_array : MileArray select_row_t }.

Definition ordered_init (pool : Z) (comp : OrderComparator) (limit : Z) : OrderedRS := Ordered comp limit false (array_init pool).

(** The array with its heap. *)
Definition heaped_array (comp : OrderComparator) (heaped : bool) (a : MileArray select_row_t) : option (MileArray select_row_t) :=
  if heaped then Some a else build_heap (order_compare comp) a.

(** The comparison with the largest row, which must be there. *)
Definition compare_top (comp : OrderComparator) (a : MileArray select_row_t) (row : select_row_t) : option Z :=
  p ← array_get a 0; match p with Ptr top => order_compare comp row top | NULL => None end.

Definition replace_top (comp : OrderComparator) (a : MileArray select_row_t) (row : select_row_t) : option (MileArray select_row_t) :=
  a ← array_set a 0 row; array_heapify (order_compare comp) a 0.

(** The result of [Add] is not looked at. *)
Definition ordered_add (rs : OrderedRS) (row : select_row_t) : option (Z * OrderedRS) :=
  let '(Ordered comp limit heaped a) := rs in
  if (array_size a =? limit) && negb (limit =? 0) then
    a ← heaped_array comp heaped a;
    cp_res ← compare_top comp a row;
    if cp_res =? -2 then Some (-2, Ordered comp limit true a)
    else if cp_res =? -1 then
      c ← row_clone row;
      a ← replace_top comp a c;
      Some (0, Ordered comp limit true a)
    else Some (0, Ordered comp limit true a)
  else
    c ← row_clone row;
    '(_, a) ← array_add a c;
    Some (0, Ordered comp limit heaped a).

(** ** The first different rows in an order *)

Record DistOrdRS := DistOrd { distord_set : HashSet select_row_t; distord_rows : OrderedRS }.

Definition distord_init (pool : Z) (comp : OrderComparator) (limit : Z) : DistOrdRS :=
  DistOrd buckets_init (ordered_init pool comp limit).

Definition distord_add (rs : DistOrdRS) (row : select_row_t) : option (Z * DistOrdRS) :=
  b ← set_contains row_equal row_coding (distord_set rs) row;
  if (b : bool) then Some (0, rs)
  else
    let '(Ordered comp limit heaped a) := distord_rows rs in
    if (array_size a =? limit) && negb (limit =? 0) then
      a ← heaped_array comp heaped a;
      cp_res ← compare_top comp a row;
      if cp_res =? -2 then Some (-2, DistOrd (distord_set rs) (Ordered comp limit true a))
      else if cp_res =? -1 then
        c ← row_clone row;
        a ← replace_top comp a c;
        s ← set_add row_equal row_coding (distord_set rs) c;
        Some (0, DistOrd s (Ordered comp limit true a))
      else Some (0, DistOrd (distord_set rs) (Ordered comp limit true a))
    else
      c ← row_clone row;
      s ← set_add row_equal row_coding (distord_set rs) c;
      '(_, a) ← array_add a c;
      Some (0, DistOrd s (Ordered comp limit heaped a)).

(** ** One row per group *)

Inductive select_field_type := VALUE_SELECT | FUNCTION_SELECT | STAR_SELECT.

#[export] Instance select_field_type_eq_dec : EqDecision select_field_type.
Proof. solve_decision. Defined.

(** [struct select_field_t]; a star has no name. *)
Record select_field := SelectField {
  field_type : select_field_type;
  field_name : ptr (list Z);
  func_type : function_type;
  select_name : ptr (list Z);
  range_exp : ptr (list filter_condition)
}.

(** An aggregate: its place among the selected fields, the place of its argument
    among the source fields, and the condition on the rows that it counts. *)
Record aggregate := Aggregate {
  agr_func_type : function_type;
  agr_index : Z;
  agr_ref_index : Z;
  agr_range_exp : ptr Expression
}.

(** The map sends the group fields to the result row, which is an object of its
    own: the aggregates change it in place.  [rows] are these objects. *)
Record GroupRS := Group {
  sel_n : Z;
  grp_n : Z;
  grp_index : list Z;
  agrs : list aggregate;
  src_fields : select_fields_t;
  group_map : MileHashMap select_row_t nat;
  rows : list select_row_t
}.

Section group.
Context (get_hash_value : low_data_struct → Z).

(** The first selected field, no function, with the name. *)
Fixpoint find_selected (name : list Z) (sels : list select_field) (j : Z) : option (option Z) :=
  match sels with
  | [] => Some None
  | s :: sels =>
      if bool_decide (field_type s = FUNCTION_SELECT) then find_selected name sels (j + 1)
      else
        match field_name s with
        | NULL => None
        | Ptr n => if bool_decide (n = name) then Some (Some j) else find_selected name sels (j + 1)
        end
  end.

(** The array of source fields has 1000 cells. *)
Definition add_source (fs : select_fields_t) (name : list Z) (t : select_types_t) : option select_fields_t :=
  if zlen (fields_name fs) <? 1000 then Some (Fields (fields_name fs ++ [name]) (fields_type fs ++ [t])) else None.

(** A group field that is not selected keeps the index 0. *)
Fixpoint group_fields (sels : list select_field) (names : list (list Z)) (i : Z) (idx : list Z) (fs : select_fields_t)
    : option (list Z * select_fields_t) :=
  match names with
  | [] => Some (idx, fs)
  | name :: names =>
      fs ← add_source fs name SELECT_TYPE_HASH;
      j ← find_selected name sels 0;
      match j with
      | None => group_fields sels names (i + 1) idx fs
      | Some j => idx ← idx⟦i := j⟧; group_fields sels names (i + 1) idx fs
      end
  end.

(** The place of the argument of an aggregate, which is added when it is new. *)
Definition ref_source (f : function_type) (name : ptr (list Z)) (fs : select_fields_t) : option (Z * select_fields_t) :=
  if bool_decide (f = FUNC_COUNT) then Some (0, fs)
  else
    match name with
    | NULL => None
    | Ptr name =>
        match index_of name (fields_name fs) with
        | Some j => Some (j, fs)
        | None =>
            fs' ← add_source fs name (if bool_decide (f = FUNC_COUNT_DISTINCT) then SELECT_TYPE_HASH else SELECT_TYPE_ORIGINAL);
            Some (zlen (fields_name fs), fs')
        end
    end.

(** The fields of a range expression join the source fields. *)
Fixpoint range_sources (names : list (list Z)) (tys : list select_types_t) (fs : select_fields_t) : option select_fields_t :=
  match names, tys with
  | name :: names, t :: tys =>
      fs ← match index_of name (fields_name fs) with
           | Some k =>
               if bool_decide (t = SELECT_TYPE_ORIGINAL) then
                 ts ← (fields_type fs)⟦k := SELECT_TYPE_ORIGINAL⟧; Some (Fields (fields_name fs) ts)
               else Some fs
           | None => add_source fs name t
           end;
      range_sources names tys fs
  | _, _ => Some fs
  end.

Fixpoint aggregate_fields (sels : list select_field) (i : Z) (fs : select_fields_t) : option (list aggregate * select_fields_t) :=
  match sels with
  | [] => Some ([], fs)
  | s :: sels =>
      if bool_decide (field_type s = FUNCTION_SELECT) then
        '(j, fs) ← ref_source (func_type s) (field_name s) fs;
        '(e, fs) ← match range_exp s with
                   | NULL => Some (NULL, fs)
                   | Ptr cs =>
                       g ← GenExp get_hash_value cs;
                       match g with
                       | NULL => None
                       | Ptr (e, efs) => fs ← range_sources (fields_name efs) (fields_type efs) fs; Some (Ptr e, fs)
                       end
                   end;
        '(l, fs) ← aggregate_fields sels (i + 1) fs;
        Some (Aggregate (func_type s) i j e :: l, fs)
      else aggregate_fields sels (i + 1) fs
  end.

Definition group_init (sels : list select_field) (groups : list (list Z)) : option GroupRS :=
  '(idx, fs) ← group_fields sels groups 0 (replicate (length sels) 0) (Fields [] []);
  '(l, fs) ← aggregate_fields sels 0 fs;
  Some (Group (zlen sels) (zlen groups) idx l fs buckets_init []).
End group.

(** The types are read at the places of the selected fields, maybe behind the row;
    nothing reads them from the key. *)
Fixpoint group_key (src : select_row_t) (n : nat) (i : Z) (idx : list Z) : option (list (row_cell * select_types_t)) :=
  match n with
  | O => Some []
  | S n =>
      g ← idx⟦i⟧;
      c ← (row_data src)⟦i⟧;
      c ← copy_cell c;
      l ← group_key src n (i + 1) idx;
      Some ((c, default SELECT_TYPE_ORIGINAL ((select_type src)⟦g⟧)) :: l)
  end.

Definition key_row (src : select_row_t) (l : list (row_cell * select_types_t)) : select_row_t :=
  SelectRow l.*1 l.*2 (handler src).

(** The group fields of a new result row. *)
Fixpoint fill_group (src : select_row_t) (n : nat) (i : Z) (idx : list Z) (row : select_row_t) : option select_row_t :=
  match n with
  | O => Some row
  | S n =>
      g ← idx⟦i⟧;
      c ← (row_data src)⟦i⟧;
      c ← copy_cell c;
      d ← (row_data row)⟦g := c⟧;
      t ← (select_type src)⟦i⟧;
      ts ← (select_type row)⟦g := t⟧;
      fill_group src n (i + 1) idx (SelectRow d ts (handler row))
  end.

Definition new_group (rs : GroupRS) (src : select_row_t) : option select_row_t :=
  let row := init_select_row_t (sel_n rs) in
  fill_group src (Z.to_nat (grp_n rs)) 0 (grp_index rs) (SelectRow (row_data row) (select_type row) (handler src)).

(** The result row of the group of [src], made when there is none. *)
Definition find_group (rs : GroupRS) (src : select_row_t) : option (nat * GroupRS) :=
  let '(Group n g idx l fs m heap) := rs in
  key ← group_key src (Z.to_nat g) 0 idx;
  p ← map_get row_equal row_coding m (key_row src key);
  match p with
  | Ptr r => Some (r, rs)
  | NULL =>
      row ← new_group rs src;
      m ← map_put row_equal row_coding m (key_row src key) (length heap);
      Some (length heap, Group n g idx l fs m (heap ++ [row]))
  end.

(** The argument of an aggregate; NULL-like when it is behind the row. *)
Definition argument (src : select_row_t) (i : Z) : option low_data_struct :=
  c ← (row_data src)⟦i⟧; match content c with Plain d => Some d | _ => None end.

Section aggregates.
Context (pool : Z).

(** One aggregate on one row; the name that [Max] and [Min] copy is not kept. *)
Definition apply_aggregate (a : aggregate) (src row : select_row_t) : option (Z * select_row_t) :=
  c ← (row_data row)⟦agr_index a⟧;
  '(rc, v) ← ComputeFunc pool (agr_func_type a) (content c) (argument src (agr_ref_index a));
  d ← (row_data row)⟦agr_index a := Cell (cell_name c) v⟧;
  Some (rc, SelectRow d (select_type row) (handler row)).

Fixpoint apply_aggregates (l : list aggregate) (src row : select_row_t) : option (Z * select_row_t) :=
  match l with
  | [] => Some (0, row)
  | a :: l =>
      range ← match agr_range_exp a with NULL => Some 1 | Ptr e => exp_execute e src end;
      if range <? 0 then Some (range, row)
      else if range =? 0 then apply_aggregates l src row
      else
        '(rc, row) ← apply_aggregate a src row;
        if rc <? 0 then Some (rc, row) else apply_aggregates l src row
  end.

Definition group_add (rs : GroupRS) (src : select_row_t) : option (Z * GroupRS) :=
  '(r, rs) ← find_group rs src;
  let '(Group n g idx l fs m heap) := rs in
  row ← heap !! r;
  '(rc, row) ← apply_aggregates l src row;
  Some (rc, Group n g idx l fs m (<[r := row]> heap)).
End aggregates.

(** ** The interface *)

Inductive ResultSet :=
| RS_Common (rs : CommonRS)
| RS_Distinct (rs : DistinctRS)
| RS_Ordered (rs : OrderedRS)
| RS_DistOrd (rs : DistOrdRS)
| RS_Group (rs : GroupRS).

Definition AddResult (pool : Z) (rs : ResultSet) (row : select_row_t) : option (Z * ResultSet) :=
  match rs with
  | RS_Common rs => '(rc, rs) ← common_add rs row; Some (rc, RS_Common rs)
  | RS_Distinct rs => '(rc, rs) ← distinct_add rs row; Some (rc, RS_Distinct rs)
  | RS_Ordered rs => '(rc, rs) ← ordered_add rs row; Some (rc, RS_Ordered rs)
  | RS_DistOrd rs => '(rc, rs) ← distord_add rs row; Some (rc, RS_DistOrd rs)
  | RS_Group rs => '(rc, rs) ← group_add pool rs row; Some (rc, RS_Group rs)
  end.

Definition result_size (rs : ResultSet) : Z :=
  match rs with
  | RS_Common rs => array_size (common_array rs)
  | RS_Distinct rs => set_size (distinct_set rs)
  | RS_Ordered rs => array_size (ordered_array rs)
  | RS_DistOrd rs => array_size (ordered_array (distord_rows rs))
  | RS_Group rs => map_size (group_map rs)
  end.

(** The rows that an iterator visits. *)
Definition result_rows (rs : ResultSet) : option (list select_row_t) :=
  match rs with
  | RS_Common rs => array_items (common_array rs)
  | RS_Distinct rs => set_items (distinct_set rs)
  | RS_Ordered rs => array_items (ordered_array rs)
  | RS_DistOrd rs => array_items (ordered_array (distord_rows rs))
  | RS_Group rs => l ← map_values (group_map rs); mapM (λ r, rows rs !! r) l
  end.
