(* ===== verification/ResultSetSpec.v ===== *)
(** * What the result sets collect

    Rows are added one after the other, as the main step of a query does, and an
    iterator shows: the first rows, the first different rows, the smallest rows, the
    smallest different rows. *)

From Stdlib Require Import ZArith Lia.
From stdpp Require Import base option list numbers sets.
From S2P Require Import Prelude Suffix RowidList LowData Compare MileArray MileHashMap Db Row Aggr Expression ResultSet.

#[local] Open Scope mile_scope.

(** ** Definitions of the specification *)

(** The rows are added up to the first negative code. *)
Fixpoint collect (pool : Z) (rs : ResultSet) (rows : list select_row_t) : option (Z * ResultSet) :=
  match rows with
  | [] => Some (0, rs)
  | r :: rows => '(rc, rs) ← AddResult pool rs r; if rc <? 0 then Some (rc, rs) else collect pool rs rows
  end.

(** Limit 0 is no limit. *)
Definition limited {A} (limit : Z) (l : list A) : list A := if limit =? 0 then l else take (Z.to_nat limit) l.

(** The first rows with their values. *)
Definition add_first (xs : list select_row_t) (r : select_row_t) : list select_row_t :=
  if decide (row_values r ∈ row_values <$> xs) then xs else xs ++ [r].
Definition firsts (rows : list select_row_t) : list select_row_t := foldl add_first [] rows.

(** [kept] are [limit] of the elements [seen], and not above any other. *)
Definition smallest {A} (comp : A → A → option Z) (limit : Z) (kept seen : list A) : Prop :=
  ∃ dropped, kept ++ dropped ≡ₚ seen ∧ (∀ k d, k ∈ kept → d ∈ dropped → below comp k d) ∧
    zlen kept = if limit =? 0 then zlen seen else limit `min` zlen seen.

(** ** Steps *)

Lemma firsts_app xs r : firsts (xs ++ [r]) = add_first (firsts xs) r.
Proof. unfold firsts. by rewrite foldl_app. Qed.

Lemma firsts_prefix xs ys : firsts xs `prefix_of` firsts (xs ++ ys).
Proof.
  induction ys as [|y ys IH] using rev_ind; [by rewrite app_nil_r|]. rewrite app_assoc, firsts_app. etransitivity; [exact IH|].
  unfold add_first. case_decide; [done|]. by eexists.
Qed.

Lemma firsts_length xs : zlen (firsts xs) ≤ zlen xs.
Proof.
  induction xs as [|x xs IH] using rev_ind; [done|]. rewrite firsts_app, zlen_app. change (zlen [x]) with 1.
  unfold add_first. case_decide; [lia|]. rewrite zlen_app. change (zlen [x]) with 1. lia.
Qed.

Lemma firsts_Forall (P : select_row_t → Prop) xs : Forall P xs → Forall P (firsts xs).
Proof.
  induction xs as [|x xs IH] using rev_ind; [by constructor|]. intros [H Hx]%Forall_app. rewrite firsts_app. unfold add_first.
  case_decide; [by apply IH|]. apply Forall_app. auto.
Qed.

Lemma limited_prefix {A} limit (xs ys : list A) : 0 ≤ limit → zlen xs = limit → limit ≠ 0 → xs `prefix_of` ys → limited limit ys = xs.
Proof.
  intros Hl Hx Hne [zs ->]. unfold limited. rewrite (proj2 (Z.eqb_neq _ _)) by done.
  replace (Z.to_nat limit) with (length xs) by (unfold zlen in Hx; lia). apply take_app_length.
Qed.

Lemma limited_length {A} limit (xs : list A) : zlen (limited limit xs) ≤ zlen xs.
Proof. unfold limited. destruct (limit =? 0); [done|]. unfold zlen. rewrite length_take. lia. Qed.

Lemma limited_all {A} limit (xs : list A) : (limit ≠ 0 → zlen xs ≤ limit) → limited limit xs = xs.
Proof. intros H. unfold limited. destruct (Z.eqb_spec limit 0); [done|]. apply take_ge. unfold zlen in H. lia. Qed.

Section collect.
Context (pool : Z) (ok : select_row_t → Prop) (inv : list select_row_t → ResultSet → Prop) (bound : Z).

(** A step succeeds, or the result set is full. *)
Definition step_ok : Prop := ∀ xs rs r, inv xs rs → Forall ok xs → ok r → zlen xs < bound →
  ∃ rc rs', AddResult pool rs r = Some (rc, rs') ∧
    (rc = 0 ∧ inv (xs ++ [r]) rs' ∨ rc = WARN_EXCEED_QUERY_LIMIT ∧ ∀ ys, Forall ok (xs ++ ys) → zlen (xs ++ ys) ≤ bound → inv (xs ++ ys) rs').

Lemma collect_spec rows xs rs :
  step_ok → inv xs rs → Forall ok (xs ++ rows) → zlen (xs ++ rows) ≤ bound →
  ∃ rc rs', collect pool rs rows = Some (rc, rs') ∧ (rc = 0 ∨ rc = WARN_EXCEED_QUERY_LIMIT) ∧ inv (xs ++ rows) rs'.
Proof.
  intros Hstep. revert xs rs. induction rows as [|r rows IH]; intros xs rs Hinv Hok Hb.
  { exists 0, rs. rewrite app_nil_r. auto. }
  pose proof Hok as [Hxs [Hr Hrows]%Forall_cons]%Forall_app.
  assert (zlen xs < bound) as Hlt. { rewrite zlen_app, zlen_cons in Hb. pose proof (zlen_nonneg rows). lia. }
  destruct (Hstep xs rs r Hinv Hxs Hr Hlt) as (rc & rs' & E & H).
  cbn [collect]. rewrite E. cbn [mbind option_bind]. destruct H as [[-> H]|[-> H]].
  - change (0 <? 0) with false. cbv iota.
    destruct (IH (xs ++ [r]) rs' H) as (rc & rs2 & H2); [by rewrite <- app_assoc..|].
    rewrite <- app_assoc in H2. cbn [app] in H2. by exists rc, rs2.
  - change (WARN_EXCEED_QUERY_LIMIT <? 0) with true. cbv iota. eexists _, _. split; [done|]. split; [auto|]. by apply H.
Qed.
End collect.

(** ** The first rows *)

Definition common_inv (pool limit : Z) (xs : list select_row_t) (rs : ResultSet) : Prop :=
  ∃ c, rs = RS_Common c ∧ common_limit c = limit ∧ MileArray.pool (common_array c) = pool ∧ array_rep (common_array c) (limited limit xs).

Lemma common_step pool limit : 0 ≤ limit → step_ok pool plain_row (common_inv pool limit) (pool / (2 * PTR_SIZE)).
Proof.
  intros Hl xs rs r (c & -> & Hc & Hp & Ha) Hxs Hr Hlt. cbn [AddResult]. unfold common_add, array_size.
  rewrite (ar_num _ _ Ha), Hc. pose proof (limited_length limit xs) as Hle.
  destruct ((zlen (limited limit xs) =? limit) && negb (limit =? 0)) eqn:E.
  - apply andb_true_iff in E as [E1%Z.eqb_eq E2%negb_true_iff%Z.eqb_neq]. cbn [mbind option_bind]. eexists _, _. split; [done|].
    right. split; [done|]. intros ys _ _. exists c. split_and!; try done.
    replace (limited limit (xs ++ ys)) with (limited limit xs); [done|]. symmetry. apply limited_prefix; [done..|].
    unfold limited. rewrite (proj2 (Z.eqb_neq _ _)) by done. etransitivity; [|apply prefix_app_r]; [|done]. 
    exists (drop (Z.to_nat limit) xs). by rewrite take_drop.
  - rewrite row_clone_spec by done. cbn [mbind option_bind].
    destruct (array_add_spec (common_array c) (limited limit xs) r Ha) as (a' & -> & Ha' & Hp').
    { rewrite Hp. unfold PTR_SIZE in *. zdiv. }
    cbn [mbind option_bind]. eexists _, _. split; [done|]. left. split; [done|]. eexists. split; [done|]. cbn [common_limit common_array].
    split; [done|]. split; [congruence|].
    assert (limit ≠ 0 → zlen xs < limit) as Hx.
    { intros Hne. rewrite (proj2 (Z.eqb_neq limit 0)) in E by done. rewrite andb_true_r in E. apply Z.eqb_neq in E.
      unfold limited in E. rewrite (proj2 (Z.eqb_neq limit 0)) in E by done. unfold zlen in *. rewrite length_take in E. lia. }
    rewrite (limited_all limit xs) in Ha' by lia. rewrite limited_all; [done|]. rewrite zlen_app. change (zlen [r]) with 1. lia.
Qed.

Lemma common_collect pool limit rows :
  0 ≤ limit → Forall plain_row rows → 2 * PTR_SIZE * zlen rows ≤ pool →
  ∃ rc rs, collect pool (RS_Common (common_init pool limit)) rows = Some (rc, rs) ∧ (rc = 0 ∨ rc = WARN_EXCEED_QUERY_LIMIT) ∧
    result_rows rs = Some (limited limit rows) ∧ result_size rs = zlen (limited limit rows).
Proof.
  intros Hl Hok Hp. destruct (collect_spec pool plain_row (common_inv pool limit) (pool / (2 * PTR_SIZE)) rows [] (RS_Common (common_init pool limit)))
    as (rc & rs & E & Hrc & (c & -> & _ & _ & Ha)); [by apply common_step| |done|unfold PTR_SIZE in *; cbn [app]; zdiv|].
  - eexists. split; [done|]. split; [done|]. split; [done|]. replace (limited limit []) with (@nil select_row_t); [apply array_init_rep|].
    unfold limited. case_match; [done|]. by rewrite take_nil.
  - exists rc, (RS_Common c). split; [done|]. split; [done|]. cbn [result_rows result_size]. split; [by apply array_items_spec|apply (ar_num _ _ Ha)].
Qed.

(** ** The first different rows *)

Definition distinct_inv (limit : Z) (xs : list select_row_t) (rs : ResultSet) : Prop :=
  ∃ c, rs = RS_Distinct c ∧ distinct_limit c = limit ∧ distinct_num c = zlen (limited limit (firsts xs)) ∧
    set_rep plain_row row_values row_code (distinct_set c) (limited limit (firsts xs)).

Lemma distinct_step pool limit : 0 ≤ limit → step_ok pool plain_row (distinct_inv limit) (2 ^ 32 - 1).
Proof.
  intros Hl xs rs r (c & -> & Hc & Hn & Hs) Hxs Hr Hlt. cbn [AddResult]. unfold distinct_add. rewrite Hn, Hc.
  pose proof (firsts_length xs) as Hfl.
  pose proof (limited_length limit (firsts xs)) as Hle.
  destruct ((zlen (limited limit (firsts xs)) =? limit) && negb (limit =? 0)) eqn:E.
  - apply andb_true_iff in E as [E1%Z.eqb_eq E2%negb_true_iff%Z.eqb_neq]. cbn [mbind option_bind]. eexists _, _. split; [done|].
    right. split; [done|]. intros ys _ _. exists c. assert (limited limit (firsts (xs ++ ys)) = limited limit (firsts xs)) as ->.
    { apply limited_prefix; [done..|]. etransitivity; [|apply firsts_prefix].
      unfold limited. rewrite (proj2 (Z.eqb_neq _ _)) by done. exists (drop (Z.to_nat limit) (firsts xs)). by rewrite take_drop. }
    done.
  - assert (limit ≠ 0 → zlen (firsts xs) < limit) as Hx.
    { intros Hne. rewrite (proj2 (Z.eqb_neq limit 0)) in E by done. rewrite andb_true_r in E. apply Z.eqb_neq in E.
      unfold limited in E. rewrite (proj2 (Z.eqb_neq limit 0)) in E by done. unfold zlen in *. rewrite length_take in E. lia. }
    rewrite limited_all in Hn, Hs by lia. rewrite (limited_all limit (firsts xs)) by lia.
    rewrite (set_contains_spec row_equal row_coding plain_row row_values row_code _ _ _ Hs Hr). cbn [mbind option_bind].
    case_bool_decide as Hin.
    + cbn [mbind option_bind]. eexists _, _. split; [done|]. left. split; [done|]. exists c. rewrite firsts_app. unfold add_first.
      rewrite decide_True by done. by rewrite limited_all by lia.
    + rewrite row_clone_spec by done. cbn [mbind option_bind].
      destruct (set_add_spec row_equal row_coding plain_row row_values row_code _ _ r Hs Hr ltac:(lia)) as (s' & -> & Hs').
      cbn [mbind option_bind]. eexists _, _. split; [done|]. left. split; [done|]. eexists. split; [done|].
      rewrite decide_False in Hs' by done. rewrite firsts_app. unfold add_first. rewrite decide_False by done. cbn [distinct_limit distinct_num distinct_set].
      rewrite limited_all by (rewrite zlen_app; change (zlen [r]) with 1; lia).
      split; [done|]. split; [|done]. rewrite zlen_app. change (zlen [r]) with 1. pose proof (zlen_nonneg (firsts xs)). by rewrite u32_small by lia.
Qed.

Lemma distinct_collect pool limit rows :
  0 ≤ limit → Forall plain_row rows → zlen rows < 2 ^ 31 →
  ∃ rc rs shown, collect pool (RS_Distinct (distinct_init limit)) rows = Some (rc, rs) ∧ (rc = 0 ∨ rc = WARN_EXCEED_QUERY_LIMIT) ∧
    result_rows rs = Some shown ∧ result_size rs = zlen shown ∧ shown ≡ₚ limited limit (firsts rows).
Proof.
  intros Hl Hok Hp. destruct (collect_spec pool plain_row (distinct_inv limit) (2 ^ 32 - 1) rows [] (RS_Distinct (distinct_init limit)))
    as (rc & rs & E & Hrc & (c & -> & _ & _ & Hs)); [by apply distinct_step| |done|cbn [app]; lia|].
  - assert (limited limit (firsts []) = []) as Ef by (unfold limited; case_match; [done|]; apply take_nil).
    eexists. split; [done|]. rewrite Ef. split; [done|]. split; [done|]. apply set_init_rep.
  - cbn [app] in Hs. destruct (set_items_spec plain_row row_values row_code _ _ Hs) as (ys & E2 & Hy).
    exists rc, (RS_Distinct c), ys. split_and!; try done. cbn [result_size]. unfold set_size.
    rewrite (proj1 (br_num _ _ _ (sr_buckets _ _ _ _ _ Hs))). unfold zlen at 2. rewrite (Permutation_length Hy). fold (zlen (limited limit (firsts rows))).
    pose proof (firsts_length rows). pose proof (limited_length limit (firsts rows)). pose proof (zlen_nonneg (limited limit (firsts rows))).
    apply s32_small. lia.
Qed.

(** ** The smallest rows *)

Lemma smallest_offer {A} (comp : A → A → option Z) (ok : A → Prop) `{!Ordering comp ok} limit kept seen r top kept' :
  Forall ok seen → ok r → limit ≠ 0 → zlen kept = limit → smallest comp limit kept seen →
  top ∈ kept → (∀ k, k ∈ kept → below comp k top) → below comp r top → top :: kept' ≡ₚ r :: kept →
  smallest comp limit kept' (seen ++ [r]).
Proof.
  intros Hok Hr Hne Hk (dropped & Hp & Hb & Hl) Htop Htb Hrt Hp'. rewrite (proj2 (Z.eqb_neq limit 0)) in Hl by done.
  assert (∀ k, k ∈ kept → ok k) as Hokk.
  { intros k Hin. rewrite List.Forall_forall in Hok. apply Hok, list_elem_of_In. rewrite <- Hp. apply elem_of_app. by left. }
  assert (∀ d, d ∈ dropped → ok d) as Hokd.
  { intros d Hin. rewrite List.Forall_forall in Hok. apply Hok, list_elem_of_In. rewrite <- Hp. apply elem_of_app. by right. }
  exists (top :: dropped). split.
  - transitivity ((top :: kept') ++ dropped); [symmetry; apply Permutation_middle|]. rewrite Hp'. cbn [app]. rewrite Hp. apply Permutation_cons_append.
  - split.
    + assert (∀ k, k ∈ kept' → k = r ∨ k ∈ kept) as Hcases.
      { intros k Hin. assert (k ∈ top :: kept') as H by (by right). rewrite Hp' in H. by apply elem_of_cons in H. }
      intros k d Hin Hd. apply elem_of_cons in Hd as [ -> |Hd].
      * destruct (Hcases k Hin) as [ -> |Hk']; [done|by apply Htb].
      * destruct (Hcases k Hin) as [ -> |Hk']; [|by apply Hb]. apply (below_trans comp ok r top d); auto.
    + rewrite (proj2 (Z.eqb_neq limit 0)) by done. apply Permutation_length in Hp'. cbn [length] in Hp'.
      rewrite zlen_app. change (zlen [r]) with 1. unfold zlen in *. lia.
Qed.

Lemma smallest_skip {A} (comp : A → A → option Z) (ok : A → Prop) `{!Ordering comp ok} limit kept seen r top :
  Forall ok seen → ok r → limit ≠ 0 → zlen kept = limit → smallest comp limit kept seen →
  top ∈ kept → (∀ k, k ∈ kept → below comp k top) → below comp top r → smallest comp limit kept (seen ++ [r]).
Proof.
  intros Hok Hr Hne Hk (dropped & Hp & Hb & Hl) Htop Htb Hrt. rewrite (proj2 (Z.eqb_neq limit 0)) in Hl by done.
  assert (∀ k, k ∈ kept → ok k) as Hokk.
  { intros k Hin. rewrite List.Forall_forall in Hok. apply Hok, list_elem_of_In. rewrite <- Hp. apply elem_of_app. by left. }
  exists (dropped ++ [r]). split; [by rewrite app_assoc, Hp|]. split.
  - intros k d Hin Hd. apply elem_of_app in Hd as [Hd|Hd]; [by apply Hb|]. apply list_elem_of_singleton in Hd as ->.
    apply (below_trans comp ok k top r); auto.
  - rewrite (proj2 (Z.eqb_neq limit 0)) by done. rewrite zlen_app. change (zlen [r]) with 1. lia.
Qed.

Lemma smallest_more {A} (comp : A → A → option Z) limit kept seen r :
  0 ≤ limit → (limit = 0 ∨ zlen kept ≠ limit) → smallest comp limit kept seen → smallest comp limit (kept ++ [r]) (seen ++ [r]).
Proof.
  intros H0 Hl (dropped & Hp & Hb & Hn). assert (zlen kept + zlen dropped = zlen seen) as Hs by (rewrite <- zlen_app; unfold zlen; by rewrite Hp).
  assert (dropped = []) as ->.
  { destruct dropped; [done|]. rewrite zlen_cons in Hs. pose proof (zlen_nonneg dropped). destruct (Z.eqb_spec limit 0); lia. }
  rewrite app_nil_r in Hp. exists []. rewrite app_nil_r. split; [by rewrite Hp|]. split; [by intros k d _ ?%elem_of_nil|].
  rewrite !zlen_app. change (zlen [r]) with 1. change (zlen []) with 0 in Hs. destruct (Z.eqb_spec limit 0); lia.
Qed.

Lemma smallest_perm {A} (comp : A → A → option Z) limit kept kept' seen :
  kept' ≡ₚ kept → smallest comp limit kept seen → smallest comp limit kept' seen.
Proof.
  intros Hk (dropped & Hp & Hb & Hl). exists dropped. split; [by rewrite Hk|]. split; [intros k d Hin; apply Hb; by rewrite <- Hk|].
  rewrite <- Hl. unfold zlen. by rewrite Hk.
Qed.

Lemma smallest_nil {A} (comp : A → A → option Z) limit : 0 ≤ limit → smallest comp limit [] [].
Proof. intros Hl. exists []. split; [done|]. split; [by intros k d ?%elem_of_nil|]. change (zlen []) with 0. case_match; lia. Qed.

Section ordered.
Context (cols : list (Z * order_types * field_types)).
Abbreviation order := (Row.comparator cols).
Abbreviation comp := (order_compare (Row.comparator cols)).
Definition orderable (r : select_row_t) : Prop := plain_row r ∧ sortable cols r.

Lemma sortable_all xs : Forall orderable xs → Forall (sortable cols) xs.
Proof. intros H. eapply Forall_impl; [exact H|]. by intros r [_ Hr]. Qed.

(** The full array before a row is offered: a heap, whose top the row is compared with. *)
Lemma offer_spec a kept r heaped :
  array_rep a kept → Forall (sortable cols) kept → sortable cols r → kept ≠ [] → (heaped = true → heap_from comp kept 0) →
  ∃ a1 kept1 top c, heaped_array order heaped a = Some a1 ∧ array_rep a1 kept1 ∧ kept1 ≡ₚ kept ∧
    heap_from comp kept1 0 ∧ MileArray.pool a1 = MileArray.pool a ∧
    top ∈ kept ∧ (∀ k, k ∈ kept → below comp k top) ∧ compare_top order a1 r = Some c ∧ c ≠ -2 ∧ comp r top = Some c ∧
    if c =? -1 then below comp r top ∧
      ∃ a2 kept2, replace_top order a1 r = Some a2 ∧ array_rep a2 kept2 ∧ top :: kept2 ≡ₚ r :: kept ∧
        heap_from comp kept2 0 ∧ MileArray.pool a2 = MileArray.pool a
    else below comp top r.
Proof.
  intros Ha Hok Hr Hne Hh.
  assert (∃ a1 kept1, heaped_array order heaped a = Some a1 ∧ array_rep a1 kept1 ∧ MileArray.pool a1 = MileArray.pool a ∧
    kept1 ≡ₚ kept ∧ heap_from comp kept1 0) as (a1 & kept1 & E1 & Ha1 & Hp1 & Hk1 & Hh1).
  { unfold heaped_array. destruct heaped; [exists a, kept; by auto 6|]. by apply (build_heap_spec comp (sortable cols)). }
  assert (Forall (sortable cols) kept1) as Hok1 by (by rewrite Hk1).
  destruct kept1 as [|top tail]; [apply Permutation_nil_l in Hk1 as <-; done|].
  assert (∀ k, k ∈ kept → below comp k top) as Htop.
  { intros k Hk. rewrite <- Hk1 in Hk. apply list_elem_of_lookup in Hk as [i Hi].
    apply (heap_top comp (sortable cols) (top :: tail) top (Z.of_nat i)); [done|done|done|]. by rewrite zget_of_nat. }
  assert (sortable cols top) as Hst by (by apply Forall_cons in Hok1 as [? _]).
  destruct (ord_comp (comp := comp) r top Hr Hst) as (c & Hc & Hcr & _).
  pose proof (less_below comp (sortable cols) r top c Hr Hst Hc) as Hless.
  exists a1, (top :: tail), top, c. do 5 (split; [done|]). split; [rewrite <- Hk1; by left|]. split; [done|].
  split. { unfold compare_top. by rewrite (array_get_spec _ _ _ Ha1) by lia. }
  split; [lia|]. split; [done|]. destruct (c =? -1); [|done]. split; [done|].
  destruct (array_set_spec a1 (top :: tail) 0 r Ha1) as (a2 & E2 & Ha2 & Hp2); [rewrite zlen_cons; pose proof (zlen_nonneg tail); lia|].
  change (<[Z.to_nat 0:=r]> (top :: tail)) with (r :: tail) in Ha2.
  destruct (array_heapify_spec comp (sortable cols) a2 (r :: tail) 0) as (a3 & kept3 & E3 & Ha3 & Hp3 & Hk3 & Hh3); [done| |lia| |].
  - apply Forall_cons in Hok1 as [_ Hok1]. by constructor.
  - apply heap_but_root; [lia|]. intros j Hj d x y Hd Hx Hy. apply (Hh1 j ltac:(lia) d x y Hd).
    + assert (d ≠ 0) by (unfold child in Hd; lia). pose proof (zget_Some_range _ _ _ Hx). rewrite zget_lookup in * by lia.
      by replace (Z.to_nat d) with (Datatypes.S (Z.to_nat (d - 1))) in * by lia.
    + pose proof (zget_Some_range _ _ _ Hy). rewrite zget_lookup in * by lia.
      by replace (Z.to_nat j) with (Datatypes.S (Z.to_nat (j - 1))) in * by lia.
  - exists a3, kept3. split. { unfold replace_top. by rewrite E2. }
    split; [done|]. split; [rewrite Hk3, <- Hk1; apply Permutation_swap|]. split; [done|congruence].
Qed.
(** The array holds the smallest of the rows seen, a heap once one was offered. *)
Record ordered_rep (pool limit : Z) (o : OrderedRS) (kept xs : list select_row_t) : Prop := {
  or_comp : ordered_comp o = order;
  or_limit : ordered_limit o = limit ∧ 0 ≤ limit;
  or_pool : MileArray.pool (ordered_array o) = pool;
  or_array : array_rep (ordered_array o) kept;
  or_smallest : smallest comp limit kept xs;
  or_heap : ordered_heaped o = true → heap_from comp kept 0 ∧ zlen kept = limit ∧ limit ≠ 0
}.

Lemma ordered_init_rep pool limit : 0 ≤ limit → ordered_rep pool limit (ordered_init pool order limit) [] [].
Proof. intros Hl. split; try done; [apply array_init_rep|by apply smallest_nil]. Qed.

Lemma smallest_kept kept xs limit : Forall orderable xs → smallest comp limit kept xs → Forall (sortable cols) kept.
Proof.
  intros Hok (dropped & Hp & _). apply sortable_all in Hok. rewrite <- Hp in Hok. by apply Forall_app in Hok as [? _].
Qed.

(** A full array: the row replaces the largest when it is smaller, and else changes
    nothing, also for rows [xs] that have it already. *)
Lemma ordered_full pool limit heaped a kept xs r :
  ordered_rep pool limit (Ordered order limit heaped a) kept xs → limit ≠ 0 → zlen kept = limit → Forall orderable xs → orderable r →
  ∃ a1 top c, heaped_array order heaped a = Some a1 ∧ compare_top order a1 r = Some c ∧ c ≠ -2 ∧ top ∈ kept ∧ comp r top = Some c ∧
    if c =? -1 then ∃ a2 kept2, replace_top order a1 r = Some a2 ∧
      ordered_rep pool limit (Ordered order limit true a2) kept2 (xs ++ [r]) ∧ (∀ k, k ∈ kept2 → k = r ∨ k ∈ kept)
    else ∃ kept2, (∀ k, k ∈ kept2 → k ∈ kept) ∧
      ordered_rep pool limit (Ordered order limit true a1) kept2 (xs ++ [r]) ∧
      ordered_rep pool limit (Ordered order limit true a1) kept2 xs.
Proof.
  intros [_ [_ Hl] Hp Ha Hs Hh] Hne Hk Hok [Hpr Hr]. cbn [ordered_array ordered_heaped] in *.
  pose proof (smallest_kept _ _ _ Hok Hs) as Hokk. pose proof (sortable_all _ Hok) as Hoks.
  destruct (offer_spec a kept r heaped Ha Hokk Hr) as (a1 & kept1 & top & c & E1 & Ha1 & Hk1 & Hh1 & Hp1 & Htop & Htb & Hc & Hc2 & Hcmp & H).
  { intros ->. change (zlen []) with 0 in Hk. lia. }
  { intros E. by apply Hh. }
  exists a1, top, c. do 5 (split; [done|]). destruct (c =? -1).
  - destruct H as (Hrt & a2 & kept2 & E2 & Ha2 & Hk2 & Hh2 & Hp2). exists a2, kept2. split; [done|]. split; cycle 1.
    + intros k Hin. assert (k ∈ top :: kept2) as H by (by right). rewrite Hk2 in H. by apply elem_of_cons in H.
    + split; cbn [ordered_comp ordered_limit ordered_array ordered_heaped]; [done|done|congruence|done|..].
      * by apply (smallest_offer comp (sortable cols) limit kept xs r top).
      * intros _. split; [done|]. split; [|done]. apply Permutation_length in Hk2. cbn [length] in Hk2. unfold zlen in *. lia.
  - exists kept1. split; [intros k; by rewrite Hk1|].
    assert (∀ ys, smallest comp limit kept ys → ordered_rep pool limit (Ordered order limit true a1) kept1 ys) as Hrep.
    { intros ys Hys. split; cbn [ordered_comp ordered_limit ordered_array ordered_heaped]; [done|done|congruence|done|by apply (smallest_perm comp limit kept)|].
      intros _. split; [done|]. split; [|done]. rewrite <- Hk. unfold zlen. by rewrite Hk1. }
    split; apply Hrep; [|done]. by apply (smallest_skip comp (sortable cols) limit kept xs r top).
Qed.

(** The array has room: the row joins. *)
Lemma ordered_room pool limit heaped a kept xs r :
  ordered_rep pool limit (Ordered order limit heaped a) kept xs → (limit = 0 ∨ zlen kept ≠ limit) → 2 * PTR_SIZE * zlen xs ≤ pool →
  ∃ a2, array_add a r = Some (0, a2) ∧ ordered_rep pool limit (Ordered order limit heaped a2) (kept ++ [r]) (xs ++ [r]).
Proof.
  intros [_ [_ Hl] Hp Ha Hs Hh] Hroom Hb. cbn [ordered_array ordered_heaped] in *. assert (zlen kept ≤ zlen xs) as Hle.
  { destruct Hs as (d & Hperm & _). apply Permutation_length in Hperm. rewrite length_app in Hperm. unfold zlen. lia. }
  destruct (array_add_spec a kept r Ha) as (a2 & E & Ha2 & Hp2); [unfold PTR_SIZE in *; lia|].
  exists a2. split; [done|]. split; cbn [ordered_comp ordered_limit ordered_array ordered_heaped]; [done|done|congruence|done|by apply smallest_more|].
  intros E'. destruct (Hh E') as (_ & ? & ?). lia.
Qed.

Lemma ordered_test pool limit heaped a kept xs :
  ordered_rep pool limit (Ordered order limit heaped a) kept xs →
  if (array_size a =? limit) && negb (limit =? 0) then limit ≠ 0 ∧ zlen kept = limit else limit = 0 ∨ zlen kept ≠ limit.
Proof.
  intros [_ _ _ Ha _ _]. unfold array_size. cbn [ordered_array] in Ha. rewrite (ar_num _ _ Ha).
  destruct (Z.eqb_spec (zlen kept) limit), (Z.eqb_spec limit 0); cbn; auto.
Qed.

Definition ordered_inv (pool limit : Z) (xs : list select_row_t) (rs : ResultSet) : Prop :=
  ∃ o kept, rs = RS_Ordered o ∧ ordered_rep pool limit o kept xs.

Lemma ordered_step pool limit : step_ok pool orderable (ordered_inv pool limit) (pool / (2 * PTR_SIZE)).
Proof.
  intros xs rs r (o & kept & -> & Ho) Hxs Hr Hlt. destruct o as [cmp lim heaped a]. pose proof (or_comp _ _ _ _ _ Ho) as E1.
  pose proof (or_limit _ _ _ _ _ Ho) as [E2 _]. cbn in E1, E2. subst cmp lim. cbn [AddResult]. unfold ordered_add.
  assert (row_clone r = Some r) as Hcl by apply row_clone_spec, Hr. pose proof (ordered_test _ _ _ _ _ _ Ho) as Ht.
  destruct ((array_size a =? limit) && negb (limit =? 0)).
  - destruct Ht as [Hne Hk].
    destruct (ordered_full pool limit heaped a kept xs r) as (a1 & top & c & -> & H1 & Hc & _ & _ & H); [done..|]. cbn [mbind option_bind]. rewrite H1.
    cbn [mbind option_bind]. rewrite (proj2 (Z.eqb_neq c (-2))) by done. destruct (c =? -1).
    + destruct H as (a2 & kept2 & H2 & Hrep & _). rewrite Hcl. cbn [mbind option_bind]. rewrite H2. cbn [mbind option_bind].
      eexists _, _. split; [done|]. left. split; [done|]. by eexists _, _.
    + destruct H as (kept2 & _ & Hrep & _). cbn [mbind option_bind]. eexists _, _. split; [done|]. left. split; [done|]. by eexists _, _.
  - destruct (ordered_room pool limit heaped a kept xs r Ho Ht) as (a2 & H2 & Hrep); [unfold PTR_SIZE in *; zdiv|].
    rewrite Hcl. cbn [mbind option_bind]. rewrite H2. cbn [mbind option_bind]. eexists _, _. split; [done|]. left. split; [done|]. by eexists _, _.
Qed.

Lemma ordered_collect pool limit rows :
  0 ≤ limit → Forall orderable rows → 2 * PTR_SIZE * zlen rows ≤ pool →
  ∃ rc rs kept, collect pool (RS_Ordered (ordered_init pool order limit)) rows = Some (rc, rs) ∧ (rc = 0 ∨ rc = WARN_EXCEED_QUERY_LIMIT) ∧
    result_rows rs = Some kept ∧ result_size rs = zlen kept ∧ smallest comp limit kept rows.
Proof.
  intros Hl Hok Hp.
  destruct (collect_spec pool orderable (ordered_inv pool limit) (pool / (2 * PTR_SIZE)) rows [] (RS_Ordered (ordered_init pool order limit)))
    as (rc & rs & E & Hrc & (o & kept & -> & Hrep)); [by apply ordered_step| |done|unfold PTR_SIZE in *; cbn [app]; zdiv|].
  - eexists _, _. split; [done|]. by apply ordered_init_rep.
  - exists rc, (RS_Ordered o), kept. split_and!; try done; [apply array_items_spec|apply (ar_num _ kept)|]; apply Hrep.
Qed.

(** ** The smallest different rows *)

(** Rows of the same values have the same place in the order. *)
Lemma order_values_eq r s : row_values r = row_values s → order_values cols r = order_values cols s.
Proof.
  intros E. unfold order_values. apply list_fmap_ext. intros i p Hp.
  assert (∀ q, (plain_of <$> row_data q)⟦p.1.1⟧ = plain_of <$> (row_data q)⟦p.1.1⟧) as Hf by (intros; apply zget_fmap).
  unfold row_values in E. pose proof (Hf r) as H1. rewrite E, (Hf s) in H1.
  destruct ((row_data r)⟦p.1.1⟧), ((row_data s)⟦p.1.1⟧); simpl in *; congruence.
Qed.

Lemma below_values r s t : row_values r = row_values s → sortable cols r → sortable cols s → sortable cols t → below comp t r → below comp t s.
Proof.
  intros E Hr Hs Ht (c & Hc & Hle). rewrite order_compare_values in Hc by done. exists c.
  rewrite order_compare_values by done. by rewrite <- (order_values_eq r s).
Qed.

(** The set has every row that was ever kept; the others are not below the rows kept. *)
Definition distord_inv (pool limit : Z) (xs : list select_row_t) (rs : ResultSet) : Prop :=
  ∃ s ys o kept, rs = RS_DistOrd (DistOrd s o) ∧ set_rep plain_row row_values row_code s ys ∧ (∀ y, y ∈ ys → y ∈ firsts xs) ∧
    zlen ys ≤ zlen xs ∧ ordered_rep pool limit o kept (firsts xs) ∧ (∀ k, k ∈ kept → k ∈ ys).

Lemma firsts_seen xs r : row_values r ∈ row_values <$> firsts xs → firsts (xs ++ [r]) = firsts xs.
Proof. intros H. rewrite firsts_app. unfold add_first. by rewrite decide_True. Qed.

Lemma firsts_new xs r : row_values r ∉ row_values <$> firsts xs → firsts (xs ++ [r]) = firsts xs ++ [r].
Proof. intros H. rewrite firsts_app. unfold add_first. by rewrite decide_False. Qed.

(** A row seen before but not kept is not below the rows kept. *)
Lemma dropped_above limit kept xs (ys : list select_row_t) r top :
  Forall orderable xs → orderable r → smallest comp limit kept xs → (∀ k, k ∈ kept → k ∈ ys) → top ∈ kept →
  row_values r ∉ row_values <$> ys → row_values r ∈ row_values <$> xs → below comp top r.
Proof.
  intros Hok [_ Hr] (dropped & Hp & Hb & _) Hky Htop Hni (d & E & Hd)%list_elem_of_fmap.
  rewrite List.Forall_forall in Hok. assert (∀ x, x ∈ xs → sortable cols x) as Hs by (intros x Hx; apply Hok, list_elem_of_In, Hx).
  assert (d ∈ dropped) as Hdd.
  { rewrite <- Hp in Hd. apply elem_of_app in Hd as [Hd|Hd]; [|done]. exfalso. apply Hni. rewrite E. apply list_elem_of_fmap_2. by apply Hky. }
  apply (below_values d r top); [by rewrite E|by apply Hs|done|apply Hs; rewrite <- Hp; apply elem_of_app; by left|by apply Hb].
Qed.

Lemma below_not r top c : sortable cols r → sortable cols top → comp r top = Some c → below comp top r → c ≠ -1.
Proof.
  intros Hr Ht Hc (c' & Hc' & Hle) ->. destruct (ord_comp (comp := comp) r top Hr Ht) as (c2 & H2 & _ & H3). rewrite Hc in H2. injection H2 as <-.
  rewrite Hc' in H3. injection H3 as ->. lia.
Qed.

Lemma distord_step pool limit : step_ok pool orderable (distord_inv pool limit) (Z.min (pool / (2 * PTR_SIZE)) (2 ^ 32 - 1)).
Proof.
  intros xs rs r (s & ys & o & kept & -> & Hs & Hyf & Hyn & Ho & Hky) Hxs Hr Hlt. cbn [AddResult]. unfold distord_add. cbn [distord_set distord_rows].
  pose proof Hr as [Hpr Hsr]. rewrite (set_contains_spec row_equal row_coding plain_row row_values row_code s ys r Hs Hpr). cbn [mbind option_bind].
  assert (zlen (xs ++ [r]) = zlen xs + 1) as Hlen by (by rewrite zlen_app).
  case_bool_decide as Hin.
  { cbn [mbind option_bind]. eexists _, _. split; [done|]. left. split; [done|]. exists s, ys, o, kept. rewrite firsts_seen; [split_and!; try done; lia|].
    apply list_elem_of_fmap in Hin as (y & -> & Hy). apply list_elem_of_fmap_2. by apply Hyf. }
  destruct o as [cmp lim heaped a]. pose proof (or_comp _ _ _ _ _ Ho) as E1. pose proof (or_limit _ _ _ _ _ Ho) as [E2 Hl0]. cbn in E1, E2. subst cmp lim.
  assert (row_clone r = Some r) as Hcl by by apply row_clone_spec.
  destruct (set_add_spec row_equal row_coding plain_row row_values row_code s ys r Hs Hpr ltac:(lia)) as (s' & Hs'1 & Hs'2).
  rewrite decide_False in Hs'2 by done.
  assert (∀ y, y ∈ ys ++ [r] → y ∈ firsts xs ++ [r]) as Hyf'.
  { intros y [Hy|Hy]%elem_of_app; apply elem_of_app; [left; by apply Hyf|by right]. }
  assert (zlen (ys ++ [r]) ≤ zlen (xs ++ [r])) as Hyn' by (rewrite Hlen, zlen_app; change (zlen [r]) with 1; lia).
  pose proof (firsts_Forall _ _ Hxs) as Hfx. pose proof (firsts_length xs) as Hfl.
  pose proof (ordered_test _ _ _ _ _ _ Ho) as Ht. destruct ((array_size a =? limit) && negb (limit =? 0)).
  - destruct Ht as [Hne Hk].
    destruct (ordered_full pool limit heaped a kept (firsts xs) r) as (a1 & top & c & -> & H1 & Hc & Htop & Hcmp & H); [done..|].
    cbn [mbind option_bind]. rewrite H1. cbn [mbind option_bind]. rewrite (proj2 (Z.eqb_neq c (-2))) by done.
    assert (row_values r ∈ row_values <$> firsts xs → c ≠ -1) as Hold.
    { intros Hold. apply (below_not r top c Hsr); [|done|].
      - pose proof (smallest_kept _ _ _ Hfx (or_smallest _ _ _ _ _ Ho)) as Hsk. rewrite List.Forall_forall in Hsk. by apply Hsk, list_elem_of_In.
      - apply (dropped_above limit kept (firsts xs) ys); [done..|apply Ho|done|done|done|done]. }
    destruct (Z.eqb_spec c (-1)) as [Ec|Ec].
    + destruct H as (a2 & kept2 & H2 & Hrep & Hk2). rewrite Hcl. cbn [mbind option_bind]. rewrite H2. cbn [mbind option_bind]. rewrite Hs'1.
      cbn [mbind option_bind]. eexists _, _. split; [done|]. left. split; [done|].
      exists s', (ys ++ [r]), (Ordered order limit true a2), kept2. rewrite firsts_new by (by intros ?%Hold).
      split_and!; try done. intros k [ -> |Hin']%Hk2; apply elem_of_app; [right; by left|left; by apply Hky].
    + destruct H as (kept2 & Hk2 & Hrep1 & Hrep2). cbn [mbind option_bind]. eexists _, _. split; [done|]. left. split; [done|].
      exists s, ys, (Ordered order limit true a1), kept2. split; [done|]. split; [done|].
      destruct (decide (row_values r ∈ row_values <$> firsts xs)) as [Hold'|Hnew].
      * rewrite firsts_seen by done. split_and!; try done; [lia|]. intros k Hin'. by apply Hky, Hk2.
      * rewrite firsts_new by done. split; [intros y Hy; apply elem_of_app; left; by apply Hyf|]. split; [lia|]. split; [done|]. intros k Hin'. by apply Hky, Hk2.
  - assert (row_values r ∉ row_values <$> firsts xs) as Hnew.
    { intros (x & E & Hx)%list_elem_of_fmap. apply Hin. rewrite E. apply list_elem_of_fmap_2. apply Hky.
      destruct (or_smallest _ _ _ _ _ Ho) as (dropped & Hp & _ & Hn). assert (zlen kept + zlen dropped = zlen (firsts xs)) as Hsum by (rewrite <- zlen_app; unfold zlen; by rewrite Hp).
      destruct dropped as [|d dropped]; [rewrite app_nil_r in Hp; by rewrite Hp|].
      rewrite zlen_cons in Hsum. pose proof (zlen_nonneg dropped). destruct (Z.eqb_spec limit 0); lia. }
    destruct (ordered_room pool limit heaped a kept (firsts xs) r Ho Ht) as (a2 & H2 & Hrep); [unfold PTR_SIZE in *; zdiv|].
    rewrite Hcl. cbn [mbind option_bind]. rewrite Hs'1. cbn [mbind option_bind]. rewrite H2. cbn [mbind option_bind].
    eexists _, _. split; [done|]. left. split; [done|]. exists s', (ys ++ [r]), (Ordered order limit heaped a2), (kept ++ [r]).
    rewrite firsts_new by done. split_and!; try done. intros k [Hk|Hk]%elem_of_app; apply elem_of_app; [left; by apply Hky|by right].
Qed.

Lemma distord_collect pool limit rows :
  0 ≤ limit → Forall orderable rows → 2 * PTR_SIZE * zlen rows ≤ pool → zlen rows < 2 ^ 32 →
  ∃ rc rs kept, collect pool (RS_DistOrd (distord_init pool order limit)) rows = Some (rc, rs) ∧ (rc = 0 ∨ rc = WARN_EXCEED_QUERY_LIMIT) ∧
    result_rows rs = Some kept ∧ result_size rs = zlen kept ∧ smallest comp limit kept (firsts rows).
Proof.
  intros Hl Hok Hp Hn.
  destruct (collect_spec pool orderable (distord_inv pool limit) (Z.min (pool / (2 * PTR_SIZE)) (2 ^ 32 - 1)) rows [] (RS_DistOrd (distord_init pool order limit)))
    as (rc & rs & E & Hrc & (s & ys & o & kept & -> & _ & _ & _ & Hrep & _)); [by apply distord_step| |done|unfold PTR_SIZE in *; cbn [app]; zdiv|].
  - eexists _, [], _, []. split; [done|]. split; [apply set_init_rep|]. split; [by intros y ?%elem_of_nil|]. split; [done|].
    split; [by apply ordered_init_rep|by intros k ?%elem_of_nil].
  - eexists rc, _, kept. split; [exact E|]. split; [done|]. split; [cbn [result_rows distord_rows]; apply array_items_spec; apply Hrep|].
    split; [apply (ar_num _ kept)|]; apply Hrep.
Qed.
End ordered.
