(* ===== verification/GroupSpec.v ===== *)
(** * Grouping

    The rows with the same group fields make one row, whose aggregates are computed
    from these rows alone, in the order in which they came. *)

From Stdlib Require Import ZArith Lia.
From stdpp Require Import base option list numbers sets.
From S2P Require Import Prelude Suffix RowidList LowData Compare MileArray MileHashMap Db Row Aggr AggrSpec Expression ResultSet ResultSetSpec.

#[local] Open Scope mile_scope.

(** ** One object per group *)

Section grouping.
Context (pool sel_n grp_n : Z) (idx : list Z) (l : list aggregate) (fs : select_fields_t).
Context (ok : select_row_t → Prop) (good : list select_row_t → select_row_t → Prop).
Abbreviation group m heap := (Group sel_n grp_n idx l fs m heap).

Definition group_values (r : select_row_t) : list low_data_struct := plain_of <$> take (Z.to_nat grp_n) (row_data r).
Definition group_of (k : list low_data_struct) (rows : list select_row_t) : list select_row_t := filter (λ r, group_values r = k) rows.

(** A row has its group fields, and the object of a group is made and changed by the
    rows of the group without an error. *)
Class Grouping : Prop := {
  grouping_plain r : ok r → plain_row r ∧ Z.of_nat (Z.to_nat grp_n) ≤ zlen (row_data r);
  grouping_index : Z.of_nat (Z.to_nat grp_n) ≤ zlen idx;
  grouping_new r : ok r → ∃ row row', new_group (group buckets_init []) r = Some row ∧ apply_aggregates pool l r row = Some (0, row') ∧ good [r] row';
  grouping_step rs row r : rs ≠ [] → Forall ok rs → ok r → good rs row → zlen rs < 2 ^ 32 - 1 → ∃ row', apply_aggregates pool l r row = Some (0, row') ∧ good (rs ++ [r]) row'
}.
Context {Hgrp : Grouping}.

Lemma group_key_spec r n i :
  plain_row r → 0 ≤ i → i + Z.of_nat n ≤ zlen (row_data r) → i + Z.of_nat n ≤ zlen idx →
  ∃ key, group_key r n i idx = Some key ∧ key.*1 = take n (drop (Z.to_nat i) (row_data r)).
Proof.
  intros Hr. revert i. induction n as [|n IH]; intros i Hi Hn Hx; [by exists []|]. cbn [group_key].
  destruct (zget_lt idx i) as [g Hg]; [lia|]. destruct (zget_lt (row_data r) i) as [c Hc]; [lia|]. rewrite Hg, Hc. cbn [mbind option_bind].
  rewrite zget_lookup in Hc by lia. destruct (Forall_lookup_1 _ _ _ _ Hr Hc) as (d & E & Hd).
  unfold copy_cell. rewrite E, copy_whole by done. cbn [mbind option_bind].
  destruct (IH (i + 1)) as (key & Hk & Hkey); [lia..|]. rewrite Hk. cbn [mbind option_bind]. eexists. split; [done|]. cbn [fmap list_fmap fst].
  rewrite Hkey, (drop_S _ _ _ Hc). cbn [take]. f_equal; [by destruct c; cbn in *; subst|]. do 2 f_equal. lia.
Qed.

Lemma key_of r : ok r → ∃ key, group_key r (Z.to_nat grp_n) 0 idx = Some key ∧ row_values (key_row r key) = group_values r ∧ plain_row (key_row r key).
Proof.
  intros Hr. destruct (grouping_plain r Hr) as [Hp Hl]. destruct (group_key_spec r (Z.to_nat grp_n) 0) as (key & E & Hk); [done|done|lia| |].
  { pose proof grouping_index. lia. }
  exists key. split; [done|]. unfold row_values, group_values, plain_row, key_row. cbn [row_data]. rewrite Hk. change (Z.to_nat 0) with 0%nat. rewrite drop_0.
  split; [done|]. by apply Forall_take.
Qed.

(** The entries of the map send the groups to their objects. *)
Definition group_inv (xs : list select_row_t) (rs : ResultSet) : Prop :=
  ∃ m es heap, rs = RS_Group (group m heap) ∧ map_rep plain_row row_values row_code m es ∧ zlen es ≤ zlen xs ∧
    es.*2 = seq 0 (length heap) ∧ (∀ r, r ∈ xs → group_values r ∈ (λ e, row_values e.1) <$> es) ∧
    Forall2 (λ e row, good (group_of (row_values e.1) xs) row ∧ group_of (row_values e.1) xs ≠ []) es heap.

Lemma group_of_snoc k xs r : group_of k (xs ++ [r]) = group_of k xs ++ (if decide (group_values r = k) then [r] else []).
Proof. unfold group_of. rewrite list.filter_app, filter_cons, filter_nil. by case_decide. Qed.

Lemma group_of_Forall (P : select_row_t → Prop) k xs : Forall P xs → Forall P (group_of k xs).
Proof.
  rewrite !List.Forall_forall. intros H x Hx. apply list_elem_of_In, list_elem_of_filter in Hx as [_ Hx]. by apply H, list_elem_of_In.
Qed.

Abbreviation keys es := ((λ e : select_row_t * nat, row_values e.1) <$> es).
Abbreviation same_group xs := (λ e row, good (group_of (row_values e.1) xs) row ∧ group_of (row_values e.1) xs ≠ []).

(** A row that comes changes the object of its group only. *)
Lemma group_old xs es heap r i (e : select_row_t * nat) row' :
  Forall2 (same_group xs) es heap → NoDup (keys es) → es !! i = Some e → row_values e.1 = group_values r →
  good (group_of (row_values e.1) xs ++ [r]) row' → Forall2 (same_group (xs ++ [r])) es (<[i := row']> heap).
Proof.
  intros Hes Hnd Hi Hk Hgood. pose proof (Forall2_length _ _ _ Hes) as Hlen. apply Forall2_same_length_lookup. split; [by rewrite length_insert|].
  intros j e2 row2 Hj Hrow2. rewrite group_of_snoc. destruct (decide (i = j)) as [<-|Hne].
  - rewrite list_lookup_insert_eq in Hrow2 by (rewrite <- Hlen; by eapply lookup_lt_Some). injection Hrow2 as <-.
    assert (e2 = e) as -> by congruence. rewrite decide_True by done. split; [done|]. by intros [_ ?]%app_eq_nil.
  - rewrite list_lookup_insert_ne in Hrow2 by done. rewrite decide_False.
    + rewrite app_nil_r. by apply (Forall2_lookup_lr _ _ _ _ _ _ Hes Hj).
    + intros E. apply Hne. apply (NoDup_lookup _ _ _ (group_values r) Hnd); rewrite list_lookup_fmap.
      * rewrite Hi. cbn. by rewrite Hk.
      * rewrite Hj. cbn. by rewrite E.
Qed.

Lemma group_new xs es heap r (e : select_row_t * nat) row' :
  Forall2 (same_group xs) es heap → (∀ s, s ∈ xs → group_values s ∈ keys es) → group_values r ∉ keys es → row_values e.1 = group_values r →
  good [r] row' → Forall2 (same_group (xs ++ [r])) (es ++ [e]) (heap ++ [row']).
Proof.
  intros Hes Hall Hni Hk Hgood. apply Forall2_app.
  - apply Forall2_same_length_lookup. split; [by eapply Forall2_length|]. intros j e2 row2 Hj Hrow2. rewrite group_of_snoc, decide_False.
    + rewrite app_nil_r. by apply (Forall2_lookup_lr _ _ _ _ _ _ Hes Hj).
    + intros E. apply Hni. rewrite E. apply (list_elem_of_fmap_2 (λ e : select_row_t * nat, row_values e.1)). by eapply list_elem_of_lookup_2.
  - constructor; [|constructor]. rewrite group_of_snoc, Hk, decide_True by done.
    assert (group_of (group_values r) xs = []) as ->; [|done]. destruct (group_of (group_values r) xs) as [|s g] eqn:E; [done|].
    assert (s ∈ group_of (group_values r) xs) as Hs by (rewrite E; by left). apply list_elem_of_filter in Hs as [Es Hs]. rewrite <- Es in Hni.
    by apply Hall in Hs.
Qed.

Lemma group_step : step_ok pool ok group_inv (2 ^ 32 - 1).
Proof.
  intros xs rs r (m & es & heap & -> & Hm & Hn & Hseq & Hall & Hes) Hxs Hr Hlt. cbn [AddResult]. unfold group_add, find_group.
  destruct (key_of r Hr) as (key & -> & Hkv & Hkp). cbn [mbind option_bind].
  rewrite (map_get_spec row_equal row_coding plain_row row_values row_code m es _ Hm Hkp), Hkv. cbn [mbind option_bind].
  pose proof (Forall2_length _ _ _ Hes) as Hlen. assert (zlen (xs ++ [r]) = zlen xs + 1) as Hlx by (by rewrite zlen_app).
  assert (∀ k, zlen (group_of k xs) ≤ zlen xs) as Hgn by (intros k; unfold zlen, group_of; pose proof (length_filter (λ r, group_values r = k) xs); lia).
  unfold value_at. destruct (with_key row_values fst (group_values r) es) as [|e] eqn:Ew.
  - assert (group_values r ∉ keys es) as Hni.
    { rewrite with_key_None in Ew. intros (e & E & He)%list_elem_of_fmap. by apply (Ew e He). }
    destruct (grouping_new r Hr) as (row & row' & E1 & E2 & Hgood).
    change (new_group (group m heap) r) with (new_group (group buckets_init []) r). rewrite E1. cbn [mbind option_bind].
    destruct (hash_put_spec row_equal row_coding plain_row row_values row_code m es (key_row r key) (length heap) Hm Hkp ltac:(lia)) as (m' & -> & Hm').
    cbn [mbind option_bind]. rewrite list_lookup_middle by done. cbn [mbind option_bind]. rewrite E2. cbn [mbind option_bind].
    eexists _, _. split; [done|]. left. split; [done|]. unfold with_value in Hm'. rewrite decide_False in Hm' by (by rewrite Hkv).
    eexists m', _, (heap ++ [row']). split; [by rewrite insert_app_r_alt, Nat.sub_diag by done|]. split; [exact Hm'|].
    split; [rewrite zlen_app; change (zlen [(key_row r key, length heap)]) with 1; lia|].
    split; [rewrite fmap_app, Hseq, length_app; cbn [fmap list_fmap snd length]; by rewrite Nat.add_1_r, seq_S|].
    split; [|by apply group_new].
    intros s [Hs|Hs]%elem_of_app; rewrite fmap_app; apply elem_of_app; [left; by apply Hall|right]. apply list_elem_of_singleton in Hs as ->.
    change (group_values r ∈ [row_values (key_row r key)]). rewrite Hkv. by left.
  - apply with_key_Some in Ew as [He Ek]. apply list_elem_of_lookup in He as [i Hi].
    destruct (Forall2_lookup_l _ _ _ _ _ Hes Hi) as (row & Hrow & Hgood & Hne).
    assert (e.2 = i) as ->.
    { assert (es.*2 !! i = Some e.2) as H by (by rewrite list_lookup_fmap, Hi). rewrite Hseq in H. apply lookup_seq in H as [-> _]. lia. }
    cbn [mbind option_bind]. rewrite Hrow. cbn [mbind option_bind].
    assert (Forall ok (group_of (row_values e.1) xs)) as Hgok by (by apply group_of_Forall).
    destruct (grouping_step _ row r Hne Hgok Hr Hgood) as (row' & -> & Hgood'); [specialize (Hgn (row_values e.1)); lia|].
    cbn [mbind option_bind]. eexists _, _. split; [done|]. left. split; [done|]. exists m, es, (<[i := row']> heap). split; [done|]. split; [done|].
    split; [lia|]. split; [by rewrite length_insert|].
    split; [|by apply (group_old xs es heap r i e); [done|apply Hm|..]].
    intros s [Hs|Hs]%elem_of_app; [by apply Hall|]. apply list_elem_of_singleton in Hs as ->. rewrite <- Ek. apply (list_elem_of_fmap_2 (λ e : select_row_t * nat, row_values e.1)).
    by eapply list_elem_of_lookup_2.
Qed.

Lemma lookup_all {A} (heap : list A) (ixs : list nat) :
  ixs ≡ₚ seq 0 (length heap) → ∃ shown, mapM (λ r, heap !! r) ixs = Some shown ∧ shown ≡ₚ heap.
Proof.
  intros His. assert (∀ js : list nat, Forall (λ j, (j < length heap)%nat) js → ∃ shown, mapM (λ r, heap !! r) js = Some shown) as Hex.
  { induction 1 as [|j js [x Hx]%lookup_lt_is_Some_2 _ (shown & IH)]; [by exists []|]. exists (x :: shown). cbn [mapM]. rewrite Hx. cbn [mbind option_bind].
    by rewrite IH. }
  assert (∀ js ks a b, js ≡ₚ ks → mapM (λ r, heap !! r) js = Some a → mapM (λ r, heap !! r) ks = Some b → a ≡ₚ b) as Hperm.
  { intros js ks a b Hp Ha Hb. apply mapM_Some_1 in Ha, Hb.
    assert (a = omap (λ r, heap !! r) js) as -> by (clear -Ha; induction Ha as [|j x js a E _ IH]; cbn; [done|by rewrite E, IH]).
    assert (b = omap (λ r, heap !! r) ks) as -> by (clear -Hb; induction Hb as [|j x ks b E _ IH]; cbn; [done|by rewrite E, IH]).
    by apply omap_Permutation. }
  destruct (Hex ixs) as (shown & Hs). { rewrite His. apply Forall_seq. lia. }
  exists shown. split; [done|]. apply (Hperm ixs (seq 0 (length heap))); [done|done|].
  apply mapM_Some_2. apply Forall2_same_length_lookup. split; [by rewrite length_seq|]. intros i j x Hj Hx. by apply lookup_seq in Hj as [-> _].
Qed.

(** The groups, each with the object that its rows made. *)
Lemma group_collect rows :
  Forall ok rows → zlen rows < 2 ^ 31 →
  ∃ rc rs shown ks heap, collect pool (RS_Group (group buckets_init [])) rows = Some (rc, rs) ∧ (rc = 0 ∨ rc = WARN_EXCEED_QUERY_LIMIT) ∧
    result_rows rs = Some shown ∧ result_size rs = zlen shown ∧ shown ≡ₚ heap ∧ NoDup ks ∧ (∀ k, k ∈ ks ↔ k ∈ group_values <$> rows) ∧
    Forall2 (λ k row, good (group_of k rows) row) ks heap.
Proof.
  intros Hok Hn. destruct (collect_spec pool ok group_inv (2 ^ 32 - 1) rows [] (RS_Group (group buckets_init [])))
    as (rc & rs & E & Hrc & (m & es & heap & -> & Hm & Hesn & Hseq & Hall & Hes)); [by apply group_step| |done|cbn [app]; lia|].
  { exists buckets_init, [], []. split; [done|]. split; [apply map_init_rep|]. split; [done|]. split; [done|]. split; [by intros r ?%elem_of_nil|constructor]. }
  cbn [app] in *. destruct (map_values_spec plain_row row_values row_code m es Hm) as (es' & E2 & Hp).
  destruct (lookup_all heap es'.*2) as (shown & Es & Hshown); [by rewrite Hp, Hseq|].
  exists rc, (RS_Group (group m heap)), shown, (keys es), heap. split; [done|]. split; [done|].
  split. { cbn [result_rows group_map ResultSet.rows]. by rewrite E2. }
  split. { cbn [result_size group_map]. unfold map_size. rewrite (proj1 (br_num _ _ _ (mr_buckets _ _ _ _ _ Hm))).
    pose proof (Forall2_length _ _ _ Hes) as Hl. pose proof (Permutation_length Hshown) as Hl2. pose proof (zlen_nonneg es).
    rewrite s32_small by (unfold zlen in *; lia). unfold zlen. by rewrite Hl2, Hl. }
  split; [done|]. split; [apply Hm|]. split.
  - intros k. split; [|intros (r & -> & Hr)%list_elem_of_fmap; by apply Hall].
    intros (e & -> & He)%list_elem_of_fmap. apply list_elem_of_lookup in He as [i Hi].
    destruct (Forall2_lookup_l _ _ _ _ _ Hes Hi) as (row & _ & _ & Hne). destruct (group_of (row_values e.1) rows) as [|r g] eqn:Eg; [done|].
    assert (r ∈ group_of (row_values e.1) rows) as Hr by (rewrite Eg; by left). apply list_elem_of_filter in Hr as [<- Hr]. by apply list_elem_of_fmap_2.
  - apply Forall2_fmap_l. eapply Forall2_impl; [exact Hes|]. by intros e row [H _].
Qed.
End grouping.

(** ** The rows of a select list *)

Definition in_range (a : aggregate) (r : select_row_t) : bool :=
  match agr_range_exp a with NULL => true | Ptr e => bool_decide (exp_execute e r = Some 1) end.
Definition arg_of (a : aggregate) (r : select_row_t) : low_data_struct := default zero_data (argument r (agr_ref_index a)).

(** The values that an aggregate sees in the rows [g]. *)
Definition args (a : aggregate) (g : list select_row_t) : list low_data_struct := arg_of a <$> filter (λ r, in_range a r = true) g.

Lemma args_snoc a g r : args a (g ++ [r]) = args a g ++ (if in_range a r then [arg_of a r] else []).
Proof. unfold args. rewrite list.filter_app, fmap_app, filter_cons, filter_nil. by destruct (in_range a r). Qed.

Section rows.
Context (pool sel_n grp_n : Z) (idx : list Z) (l : list aggregate) (fs : select_fields_t) (fit : aggregate → low_data_struct → Prop).

(** Every group field has a place of its own, and every aggregate. *)
Record places : Prop := {
  pl_count : 0 ≤ grp_n ≤ zlen idx ∧ 0 ≤ sel_n;
  pl_range i g : 0 ≤ i < grp_n → idx⟦i⟧ = Some g → 0 ≤ g < sel_n;
  pl_inj i j g : 0 ≤ i < grp_n → 0 ≤ j < grp_n → idx⟦i⟧ = Some g → idx⟦j⟧ = Some g → i = j;
  pl_agr a : a ∈ l → 0 ≤ agr_index a < sel_n ∧ ∀ i, 0 ≤ i < grp_n → idx⟦i⟧ ≠ Some (agr_index a);
  pl_nodup : NoDup (agr_index <$> l)
}.

(** A row of the source fields: the aggregates find values that fit. *)
Record source_row (r : select_row_t) : Prop := {
  src_plain : plain_row r;
  src_size : grp_n ≤ zlen (row_data r) ∧ zlen (select_type r) = zlen (row_data r);
  src_range a e : a ∈ l → agr_range_exp a = Ptr e → ∃ b : bool, exp_execute e r = Some (if b then 1 else 0);
  src_arg a : a ∈ l → (agr_func_type a = FUNC_COUNT ∨ is_Some (argument r (agr_ref_index a))) ∧ fit a (arg_of a r)
}.

Definition supported : Prop :=
  ∀ a vals, a ∈ l → Forall (fit a) vals → zlen vals < 2 ^ 32 → is_Some (compute_all pool (agr_func_type a) vals).

(** The result row of the rows [g]: their group fields and their aggregates. *)
Record group_row (g : list select_row_t) (row : select_row_t) : Prop := {
  gr_size : zlen (row_data row) = sel_n;
  gr_fields r i j : head g = Some r → 0 ≤ i < grp_n → idx⟦i⟧ = Some j → (row_data row)⟦j⟧ = (row_data r)⟦i⟧;
  gr_aggregates a : a ∈ l → ∃ c, (row_data row)⟦agr_index a⟧ = Some c ∧ compute_all pool (agr_func_type a) (args a g) = Some (content c)
}.

Context (Hpl : places) (Hsup : supported).

Lemma fill_group_spec r n i row :
  source_row r → 0 ≤ i → i + Z.of_nat n ≤ grp_n → zlen (row_data row) = sel_n → zlen (select_type row) = sel_n →
  ∃ row', fill_group r n i idx row = Some row' ∧ zlen (row_data row') = sel_n ∧
    (∀ k g, i ≤ k < i + Z.of_nat n → idx⟦k⟧ = Some g → (row_data row')⟦g⟧ = (row_data r)⟦k⟧) ∧
    (∀ j, (∀ k, i ≤ k < i + Z.of_nat n → idx⟦k⟧ ≠ Some j) → (row_data row')⟦j⟧ = (row_data row)⟦j⟧).
Proof.
  intros Hr. pose proof (src_size _ Hr) as [Hs1 Hs2]. pose proof (pl_count Hpl) as Hc.
  revert i row. induction n as [|n IH]; intros i row Hi Hn Hd Ht.
  { exists row. split; [done|]. split; [done|]. split; [lia|done]. }
  cbn [fill_group]. destruct (zget_lt idx i) as [g Hg]; [lia|]. destruct (zget_lt (row_data r) i) as [c Hcc]; [lia|].
  destruct (zget_lt (select_type r) i) as [t Htt]; [lia|]. rewrite Hg, Hcc. cbn [mbind option_bind].
  pose proof (pl_range Hpl i g ltac:(lia) Hg) as Hgr.
  assert (copy_cell c = Some c) as ->.
  { rewrite zget_lookup in Hcc by lia. destruct (Forall_lookup_1 _ _ _ _ (src_plain _ Hr) Hcc) as (d & E & Hw).
    unfold copy_cell. rewrite E, copy_whole by done. cbn. destruct c. cbn in *. by subst. }
  cbn [mbind option_bind]. rewrite zset_in by lia. cbn [mbind option_bind]. rewrite Htt. cbn [mbind option_bind]. rewrite zset_in by lia. cbn [mbind option_bind].
  edestruct (IH (i + 1)) as (row' & E & Hz & Hin & Hout); [lia|lia| | |].
  3: { rewrite E. exists row'. split; [done|]. split; [done|]. split.
    - intros k g' Hk Hg'. destruct (decide (k = i)) as [->|Hne]; [|apply Hin; [lia|done]].
      rewrite Hg in Hg'. injection Hg' as <-. rewrite Hout.
      + cbn [row_data]. by rewrite zget_insert_eq by lia.
      + intros k Hk' Hk2. pose proof (pl_inj Hpl i k g ltac:(lia) ltac:(lia) Hg Hk2). lia.
    - intros j Hj. rewrite Hout by (intros k Hk; apply Hj; lia). cbn [row_data].
      assert (j ≠ g) by (intros ->; by apply (Hj i ltac:(lia))). by rewrite zget_insert_ne by lia. }
  - cbn [row_data]. by rewrite zlen_insert.
  - cbn [select_type]. by rewrite zlen_insert.
Qed.

Lemma apply_aggregate_spec a r row c vals :
  a ∈ l → source_row r → zlen (row_data row) = sel_n → (row_data row)⟦agr_index a⟧ = Some c →
  compute_all pool (agr_func_type a) vals = Some (content c) → Forall (fit a) vals → zlen vals + 1 < 2 ^ 32 →
  ∃ v, apply_aggregate pool a r row = Some (0, SelectRow (<[Z.to_nat (agr_index a) := Cell (cell_name c) v]> (row_data row)) (select_type row) (handler row)) ∧
    compute_all pool (agr_func_type a) (vals ++ [arg_of a r]) = Some v.
Proof.
  intros Ha Hr Hz Hc Hv Hf Hn. destruct (src_arg _ Hr a Ha) as [Harg Hfit].
  destruct (Hsup a (vals ++ [arg_of a r]) Ha) as [v Ev]; [by apply Forall_app; split; [|constructor]|rewrite zlen_app; change (zlen [arg_of a r]) with 1; lia|].
  exists v. split; [|done]. unfold compute_all in Ev, Hv. rewrite compute_from_app, Hv in Ev. cbn [mbind option_bind compute_from] in Ev.
  destruct (ComputeFunc pool (agr_func_type a) (content c) (Some (arg_of a r))) as [[rc w]|] eqn:Ec; [|done]. cbn [mbind option_bind] in Ev.
  destruct (Z.eqb_spec rc 0) as [->|]; [|done]. injection Ev as ->.
  unfold apply_aggregate. rewrite Hc. cbn [mbind option_bind].
  assert (ComputeFunc pool (agr_func_type a) (content c) (argument r (agr_ref_index a)) = Some (0, v)) as ->.
  { rewrite <- Ec. destruct Harg as [->|[d Hd]]; [done|]. unfold arg_of. by rewrite Hd. }
  cbn [mbind option_bind]. pose proof (pl_agr Hpl a Ha) as [Hr2 _]. by rewrite zset_in by lia.
Qed.

Lemma args_fit a g : a ∈ l → Forall source_row g → Forall (fit a) (args a g).
Proof.
  intros Ha Hg. unfold args. apply Forall_fmap. rewrite !List.Forall_forall in *. intros r Hr.
  apply list_elem_of_In, list_elem_of_filter in Hr as [_ Hr]. apply (src_arg r); [|done]. by apply Hg, list_elem_of_In.
Qed.

Lemma args_length a g : zlen (args a g) ≤ zlen g.
Proof. unfold args. rewrite zlen_fmap. unfold zlen. pose proof (length_filter (λ r, in_range a r = true) g). lia. Qed.

Lemma apply_aggregates_spec l2 g r row :
  (∀ a, a ∈ l2 → a ∈ l) → NoDup (agr_index <$> l2) → Forall source_row g → source_row r → zlen g + 1 < 2 ^ 32 → zlen (row_data row) = sel_n →
  (∀ a, a ∈ l2 → ∃ c, (row_data row)⟦agr_index a⟧ = Some c ∧ compute_all pool (agr_func_type a) (args a g) = Some (content c)) →
  ∃ row', apply_aggregates pool l2 r row = Some (0, row') ∧ zlen (row_data row') = sel_n ∧
    (∀ a, a ∈ l2 → ∃ c, (row_data row')⟦agr_index a⟧ = Some c ∧ compute_all pool (agr_func_type a) (args a (g ++ [r])) = Some (content c)) ∧
    (∀ j, j ∉ agr_index <$> l2 → (row_data row')⟦j⟧ = (row_data row)⟦j⟧).
Proof.
  intros Hsub Hnd Hg Hr Hn. revert row. induction l2 as [|a l2 IH]; intros row Hz Hall.
  { exists row. split; [done|]. split; [done|]. split; [by intros a ?%elem_of_nil|done]. }
  cbn [fmap list_fmap] in Hnd. apply NoDup_cons in Hnd as [Hni Hnd]. assert (a ∈ l) as Ha by (apply Hsub; by left).
  destruct (Hall a) as (c & Hc & Hv); [by left|].
  assert (∃ row1 c1, apply_aggregates pool (a :: l2) r row = apply_aggregates pool l2 r row1 ∧ zlen (row_data row1) = sel_n ∧
    (row_data row1)⟦agr_index a⟧ = Some c1 ∧ compute_all pool (agr_func_type a) (args a (g ++ [r])) = Some (content c1) ∧
    (∀ j, j ≠ agr_index a → (row_data row1)⟦j⟧ = (row_data row)⟦j⟧)) as (row1 & c1 & -> & Hz1 & Hc1 & Hv1 & Hout1).
  { cbn [apply_aggregates]. rewrite args_snoc.
    assert (∃ b : bool, match agr_range_exp a with NULL => Some 1 | Ptr e => exp_execute e r end = Some (if b then 1 else 0) ∧ in_range a r = b) as (b & -> & ->).
    { unfold in_range. destruct (agr_range_exp a) as [|e] eqn:E; [by exists true|]. destruct (src_range _ Hr a e Ha E) as [b Hb].
      exists b. split; [done|]. rewrite Hb. by destruct b. }
    cbn [mbind option_bind]. destruct b.
    - change (1 <? 0) with false. change (1 =? 0) with false. cbv iota. pose proof (args_length a g).
      destruct (apply_aggregate_spec a r row c (args a g)) as (v & -> & Hv'); [done|done|done|done|done|by apply args_fit|lia|].
      cbn [mbind option_bind]. change (0 <? 0) with false. cbv iota. eexists _, _. split; [done|]. cbn [row_data].
      pose proof (pl_agr Hpl a Ha) as [Hrg _]. rewrite zlen_insert. split; [done|]. split; [by apply zget_insert_eq; lia|]. split; [done|].
      intros j Hj. by rewrite zget_insert_ne by lia.
    - change (0 <? 0) with false. change (0 =? 0) with true. cbv iota. exists row, c. rewrite app_nil_r. done. }
  destruct (IH ltac:(intros b Hb; apply Hsub; by right) Hnd row1 Hz1) as (row' & E & Hz' & Hin & Hout).
  { intros b Hb. rewrite Hout1; [by apply Hall; right|]. intros Eb. apply Hni. rewrite <- Eb. by apply list_elem_of_fmap_2. }
  exists row'. split; [done|]. split; [done|]. split.
  - intros b [->|Hb]%elem_of_cons; [|by apply Hin]. exists c1. by rewrite Hout.
  - intros j Hj. cbn [fmap list_fmap] in Hj. rewrite Hout, Hout1; [done| |]; [intros Ej|intros Ej]; apply Hj; [rewrite Ej; by left|by right].
Qed.

#[export] Instance select_grouping : Grouping pool sel_n grp_n idx l fs source_row group_row.
Proof.
  pose proof (pl_count Hpl) as Hc. split.
  - intros r Hr. split; [apply Hr|]. pose proof (src_size _ Hr). lia.
  - lia.
  - intros r Hr. unfold new_group. cbn [ResultSet.sel_n ResultSet.grp_n ResultSet.grp_index].
    destruct (fill_group_spec r (Z.to_nat grp_n) 0 (SelectRow (row_data (init_select_row_t sel_n)) (select_type (init_select_row_t sel_n)) (handler r)))
      as (row & Hrow & Hz & Hin & Hout); [done|lia|lia|cbn; rewrite zlen_replicate; lia|cbn; rewrite zlen_replicate; lia|].
    rewrite Hrow. exists row.
    destruct (apply_aggregates_spec l [] r row) as (row' & E & Hz' & Hag & Hrest); [done|apply Hpl|done|done|done|done| |].
    { intros a Ha. pose proof (pl_agr Hpl a Ha) as [Hr1 Hr2]. rewrite Hout by (intros k Hk; apply Hr2; lia).
      exists zero_cell. split; [|done]. cbn [row_data init_select_row_t]. by rewrite zget_replicate by lia. }
    exists row'. split; [done|]. split; [done|]. split; [done| |done].
    intros r' i j [= <-] Hi Hj. rewrite Hrest; [apply Hin; [lia|done]|].
    intros (a & -> & Ha)%list_elem_of_fmap. by apply (proj2 (pl_agr Hpl a Ha) i Hi).
  - intros g row r Hne Hg Hr [Hz Hf Ha] Hn. destruct (apply_aggregates_spec l g r row) as (row' & E & Hz' & Hag & Hrest); [done|apply Hpl|done|done|lia|done|done|].
    exists row'. split; [done|]. split; [done| |done]. intros r' i j Hh Hi Hj. rewrite Hrest; [|intros (a & -> & Ha')%list_elem_of_fmap; by apply (proj2 (pl_agr Hpl a Ha') i Hi)].
    destruct g as [|r0 g]; [done|by apply Hf].
Qed.
End rows.

(** ** What the constructor makes of a select list *)

Definition selected (sels : list select_field) (name : list Z) : Prop :=
  ∃ s, s ∈ sels ∧ field_type s ≠ FUNCTION_SELECT ∧ field_name s = Ptr name.

Lemma find_selected_spec name sels j r :
  find_selected name sels j = Some r →
  match r with
  | Some k => ∃ s, sels⟦k - j⟧ = Some s ∧ field_type s ≠ FUNCTION_SELECT ∧ field_name s = Ptr name
  | None => ¬ selected sels name
  end.
Proof.
  revert j. induction sels as [|s sels IH]; intros j; cbn [find_selected].
  { intros [= <-]. by intros (s & ?%elem_of_nil & _). }
  assert (find_selected name sels (j + 1) = Some r → ¬ (field_type s ≠ FUNCTION_SELECT ∧ field_name s = Ptr name) →
    match r with Some k => ∃ s', (s :: sels)⟦k - j⟧ = Some s' ∧ field_type s' ≠ FUNCTION_SELECT ∧ field_name s' = Ptr name | None => ¬ selected (s :: sels) name end) as Hrest.
  { intros H Hs. specialize (IH _ H). destruct r as [k|].
    - destruct IH as (s' & Hk & Hs'). exists s'. split; [|done]. pose proof (zget_Some_range _ _ _ Hk). rewrite zget_lookup in * by lia.
      by replace (Z.to_nat (k - j)) with (S (Z.to_nat (k - (j + 1)))) by lia.
    - intros (s' & [->|Hin]%elem_of_cons & Hs'); [by apply Hs|]. apply IH. by exists s'. }
  case_bool_decide as Hf; [intros H; apply Hrest; [done|]; by intros [? _]|].
  destruct (field_name s) as [|n] eqn:En; [done|]. case_bool_decide as Hn.
  - intros [= <-]. exists s. rewrite Z.sub_diag. subst. auto.
  - intros H. apply Hrest; [done|]. intros [_ ?]. congruence.
Qed.

Lemma add_source_names fs name t fs' : add_source fs name t = Some fs' → fields_name fs' = fields_name fs ++ [name].
Proof. unfold add_source. case_match; [|done]. by intros [= <-]. Qed.

Lemma group_fields_spec sels names i idx fs idx' fs' :
  group_fields sels names i idx fs = Some (idx', fs') → Forall (selected sels) names → 0 ≤ i →
  zlen idx' = zlen idx ∧ fields_name fs' = fields_name fs ++ names ∧ (∀ k, k < i → idx'⟦k⟧ = idx⟦k⟧) ∧
  ∀ k name, names⟦k⟧ = Some name → ∃ j s, idx'⟦i + k⟧ = Some j ∧ sels⟦j⟧ = Some s ∧ field_type s ≠ FUNCTION_SELECT ∧ field_name s = Ptr name.
Proof.
  revert i idx fs. induction names as [|name names IH]; intros i idx fs; cbn [group_fields].
  { intros [= <- <-] _ Hi. rewrite app_nil_r. split_and!; try done. intros k n Hk. by apply zget_Some_range in Hk; unfold zlen in Hk; simpl in Hk; lia. }
  destruct (add_source fs name SELECT_TYPE_HASH) as [fs1|] eqn:Ea; [|done]. cbn [mbind option_bind].
  destruct (find_selected name sels 0) as [r|] eqn:Ef; [|done]. cbn [mbind option_bind]. apply find_selected_spec in Ef.
  intros H [Hs Hall]%Forall_cons Hi. destruct r as [j|]; [|done]. destruct Ef as (s & Hj & Hs1 & Hs2). rewrite Z.sub_0_r in Hj.
  destruct (idx⟦i := j⟧) as [idx1|] eqn:Eset; [|done]. cbn [mbind option_bind] in H.
  destruct (IH (i + 1) idx1 fs1 H Hall ltac:(lia)) as (Hl & Hn & Hlow & Hk). apply zset_inv in Eset as [Hr ->].
  split; [by rewrite Hl, zlen_insert|]. split; [rewrite Hn, (add_source_names _ _ _ _ Ea), <- app_assoc; done|]. split.
  - intros k Hki. rewrite Hlow by lia. by rewrite zget_insert_ne by lia.
  - intros k n Hn'. pose proof (zget_Some_range _ _ _ Hn') as Hkr. destruct (decide (k = 0)) as [->|Hne].
    + rewrite zget_lookup in Hn' by lia. injection Hn' as <-. exists j, s. split; [|done]. rewrite Hlow by lia. by rewrite Z.add_0_r, zget_insert_eq.
    + destruct (Hk (k - 1) n) as (j' & s' & Hj' & Hs'). { rewrite zget_lookup in * by lia. by replace (Z.to_nat k) with (S (Z.to_nat (k - 1))) in Hn' by lia. }
      exists j', s'. by replace (i + 1 + (k - 1)) with (i + k) in Hj' by lia.
Qed.

Lemma index_of_Some name names j : index_of name names = Some j → names⟦j⟧ = Some name.
Proof.
  unfold index_of. destruct (list_find _ names) as [[i x]|] eqn:E; [|done]. cbn. intros [= <-]. apply list_find_Some in E as (E & -> & _).
  by rewrite zget_of_nat.
Qed.

Lemma ref_source_spec f name fs j fs' :
  ref_source f name fs = Some (j, fs') →
  fields_name fs `prefix_of` fields_name fs' ∧ (f ≠ FUNC_COUNT → ∃ n, name = Ptr n ∧ (fields_name fs')⟦j⟧ = Some n).
Proof.
  unfold ref_source. case_bool_decide as Hf; [by intros [= <- <-]|]. destruct name as [|n]; [done|].
  destruct (index_of n (fields_name fs)) as [k|] eqn:E.
  - intros [= <- <-]. split; [done|]. intros _. exists n. split; [done|]. by apply index_of_Some.
  - destruct (add_source fs n _) as [fs1|] eqn:Ea; [|done]. cbn [mbind option_bind]. intros [= <- <-]. apply add_source_names in Ea. rewrite Ea.
    split; [by eexists|]. intros _. exists n. split; [done|]. rewrite zget_lookup by apply zlen_nonneg. unfold zlen. rewrite Nat2Z.id. by apply list_lookup_middle.
Qed.

Lemma range_sources_spec names tys fs fs' : range_sources names tys fs = Some fs' → fields_name fs `prefix_of` fields_name fs'.
Proof.
  revert tys fs. induction names as [|n names IH]; intros [|t tys] fs; cbn [range_sources]; try by intros [= <-].
  destruct (index_of n (fields_name fs)) as [k|].
  - case_bool_decide.
    + destruct ((fields_type fs)⟦k := SELECT_TYPE_ORIGINAL⟧) as [ts|]; [|done]. cbn [mbind option_bind]. intros H'. by apply (IH _ _ H').
    + cbn [mbind option_bind]. apply IH.
  - destruct (add_source fs n t) as [fs1|] eqn:Ea; [|done]. cbn [mbind option_bind]. intros H'. apply IH in H'. apply add_source_names in Ea.
    rewrite Ea in H'. etransitivity; [|exact H']. by eexists.
Qed.

Lemma range_sources_in (names : list (list Z)) tys fs fs' n :
  range_sources names tys fs = Some fs' → length names = length tys → n ∈ names → n ∈ fields_name fs'.
Proof.
  revert tys fs. induction names as [|m names IH]; intros [|t tys] fs H Hl Hn; try done; [by apply elem_of_nil in Hn|].
  cbn [range_sources] in H. apply elem_of_cons in Hn as [->|Hn].
  - destruct (index_of m (fields_name fs)) as [k|] eqn:Ek.
    + apply index_of_Some in Ek. pose proof (zget_Some_range _ _ _ Ek). rewrite zget_lookup in Ek by lia. apply list_elem_of_lookup_2 in Ek.
      assert (∃ fs1, range_sources names tys fs1 = Some fs' ∧ fields_name fs1 = fields_name fs) as (fs1 & H1 & E1).
      { case_bool_decide; [|by exists fs]. destruct ((fields_type fs)⟦k := SELECT_TYPE_ORIGINAL⟧) as [ts|]; [|done]. cbn [mbind option_bind] in H. by eexists. }
      apply range_sources_spec in H1. rewrite E1 in H1. by eapply elem_of_prefix.
    + destruct (add_source fs m t) as [fs1|] eqn:Ea; [|done]. cbn [mbind option_bind] in H. apply add_source_names in Ea. apply range_sources_spec in H.
      eapply elem_of_prefix; [|exact H]. rewrite Ea. apply elem_of_app. right. by left.
  - match type of H with mbind _ ?m = _ => destruct m as [fs1|]; [|done] end. cbn [mbind option_bind] in H. by apply (IH tys fs1 H); [simpl in Hl; lia|].
Qed.

Section init.
Context (gh : low_data_struct → Z).

(** The aggregate of a selected function, with its argument and the fields of its
    condition among the source fields. *)
Record aggregate_for (names : list (list Z)) (s : select_field) (a : aggregate) : Prop := {
  af_func : agr_func_type a = func_type s;
  af_arg : func_type s ≠ FUNC_COUNT → ∃ n, field_name s = Ptr n ∧ names⟦agr_ref_index a⟧ = Some n;
  af_all : range_exp s = NULL → agr_range_exp a = NULL;
  af_range w : range_exp s = Ptr (rpn w) →
    agr_range_exp a = Ptr (tree_of gh w) ∧ ∀ n, n ∈ fields_name (noted w (Fields [] [])) → n ∈ names
}.

Lemma prefix_zget {A} (l l' : list A) i x : l `prefix_of` l' → l⟦i⟧ = Some x → l'⟦i⟧ = Some x.
Proof. intros [k ->] H. pose proof (zget_Some_range _ _ _ H). rewrite !zget_lookup in * by lia. by apply lookup_app_l_Some. Qed.

Lemma aggregate_fields_spec sels i fs l fs' :
  aggregate_fields gh sels i fs = Some (l, fs') →
  fields_name fs `prefix_of` fields_name fs' ∧ NoDup (agr_index <$> l) ∧
  (∀ a, a ∈ l → ∃ s, sels⟦agr_index a - i⟧ = Some s ∧ field_type s = FUNCTION_SELECT ∧ aggregate_for (fields_name fs') s a) ∧
  (∀ k s, sels⟦k⟧ = Some s → field_type s = FUNCTION_SELECT → ∃ a, a ∈ l ∧ agr_index a = i + k).
Proof.
  revert i fs l. induction sels as [|s sels IH]; intros i fs l; cbn [aggregate_fields].
  { intros [= <- <-]. split; [done|]. split; [constructor|]. split; [by intros a ?%elem_of_nil|]. intros k s Hk. apply zget_Some_range in Hk. unfold zlen in Hk. simpl in Hk. lia. }
  assert (∀ k, 0 < k → (s :: sels)⟦k⟧ = sels⟦k - 1⟧) as Hcons.
  { intros k Hk. rewrite !zget_lookup by lia. by replace (Z.to_nat k) with (S (Z.to_nat (k - 1))) by lia. }
  case_bool_decide as Hf.
  - destruct (ref_source (func_type s) (field_name s) fs) as [[j fs1]|] eqn:Er; [|done]. cbn [mbind option_bind]. apply ref_source_spec in Er as [Hp1 Hj].
    match goal with |- context [mbind _ ?m] => destruct m as [[e fs2]|] eqn:Ee; [|done] end. cbn [mbind option_bind].
    assert (fields_name fs1 `prefix_of` fields_name fs2) as Hp2.
    { destruct (range_exp s) as [|cs]; [by injection Ee as <- <-|]. destruct (GenExp gh cs) as [[|[e' efs]]|]; [done| |done]. cbn [mbind option_bind] in Ee.
      destruct (range_sources (fields_name efs) (fields_type efs) fs1) as [fs3|] eqn:E3; [|done]. injection Ee as <- <-. by apply range_sources_spec in E3. }
    destruct (aggregate_fields gh sels (i + 1) fs2) as [[l1 fs3]|] eqn:El; [|done]. cbn [mbind option_bind]. intros [= <- <-].
    destruct (IH _ _ _ El) as (Hp3 & Hnd & Hin & Hall). split; [by etransitivity; [|etransitivity]|].
    assert (∀ a, a ∈ l1 → i < agr_index a) as Hgt. { intros a Ha. destruct (Hin a Ha) as (s' & Hs' & _). apply zget_Some_range in Hs'. lia. }
    split; [cbn [fmap list_fmap agr_index]; apply NoDup_cons; split; [|done]; intros (a & Ea & Ha)%list_elem_of_fmap; specialize (Hgt a Ha); lia|]. split.
    + intros a [->|Ha]%elem_of_cons.
      * exists s. cbn [agr_index]. rewrite Z.sub_diag. split; [done|]. split; [done|]. split; cbn [agr_func_type agr_ref_index agr_range_exp].
        -- done.
        -- intros Hc. destruct (Hj Hc) as (n & -> & Hn). exists n. split; [done|]. eapply prefix_zget; [|exact Hn]. by etransitivity.
        -- intros E. rewrite E in Ee. by injection Ee as <- _.
        -- intros w E. rewrite E, GenExp_rpn in Ee. cbn [mbind option_bind] in Ee. set (nf := noted w (Fields [] [])) in *.
           destruct (range_sources (fields_name nf) (fields_type nf) fs1) as [fs4|] eqn:E4; [|done]. injection Ee as <- <-. split; [done|].
           intros n Hn. eapply elem_of_prefix; [|exact Hp3]. apply (range_sources_in _ _ _ _ _ E4); [|done]. by apply noted_types.
      * destruct (Hin a Ha) as (s' & Hs' & Hrest). exists s'. specialize (Hgt a Ha). rewrite Hcons by lia. by replace (agr_index a - i - 1) with (agr_index a - (i + 1)) by lia.
    + intros k s' Hk Hf'. pose proof (zget_Some_range _ _ _ Hk). destruct (decide (k = 0)) as [->|Hne].
      * eexists. split; [by left|]. cbn. lia.
      * rewrite Hcons in Hk by lia. destruct (Hall (k - 1) s' Hk Hf') as (a & Ha & E). exists a. split; [by right|lia].
  - intros El. destruct (IH _ _ _ El) as (Hp3 & Hnd & Hin & Hall). split; [done|]. split; [done|]. split.
    + intros a Ha. destruct (Hin a Ha) as (s' & Hs' & Hrest). exists s'. pose proof (zget_Some_range _ _ _ Hs'). rewrite Hcons by lia.
      by replace (agr_index a - i - 1) with (agr_index a - (i + 1)) by lia.
    + intros k s' Hk Hf'. pose proof (zget_Some_range _ _ _ Hk). destruct (decide (k = 0)) as [->|Hne].
      * rewrite zget_lookup in Hk by lia. injection Hk as <-. done.
      * rewrite Hcons in Hk by lia. destruct (Hall (k - 1) s' Hk Hf') as (a & Ha & E). exists a. split; [done|lia].
Qed.

(** With every group field selected, all places are different. *)
Lemma group_init_places sels groups rs :
  group_init gh sels groups = Some rs → NoDup groups → Forall (selected sels) groups →
  ∃ idx l fs, rs = Group (zlen sels) (zlen groups) idx l fs buckets_init [] ∧ places (zlen sels) (zlen groups) idx l ∧
    (∀ i s, sels⟦i⟧ = Some s → field_type s = FUNCTION_SELECT → ∃ a, a ∈ l ∧ agr_index a = i ∧ aggregate_for (fields_name fs) s a) ∧
    (∀ a, a ∈ l → ∃ s, s ∈ sels ∧ field_type s = FUNCTION_SELECT ∧ aggregate_for (fields_name fs) s a) ∧
    (∀ i name, groups⟦i⟧ = Some name → (fields_name fs)⟦i⟧ = Some name ∧
       ∃ j s, idx⟦i⟧ = Some j ∧ sels⟦j⟧ = Some s ∧ field_type s ≠ FUNCTION_SELECT ∧ field_name s = Ptr name).
Proof.
  unfold group_init. intros H Hnd Hsel. destruct (group_fields sels groups 0 (replicate (length sels) 0) (Fields [] [])) as [[idx fs1]|] eqn:Eg; [|done].
  cbn [mbind option_bind] in H. destruct (aggregate_fields gh sels 0 fs1) as [[l fs]|] eqn:Ea; [|done]. cbn [mbind option_bind] in H. injection H as <-.
  destruct (group_fields_spec _ _ _ _ _ _ _ Eg Hsel ltac:(lia)) as (Hl & Hn & _ & Hk). destruct (aggregate_fields_spec _ _ _ _ _ Ea) as (Hp & Hnda & Hin & Hall).
  cbn [fields_name app] in Hn. rewrite zlen_replicate in Hl. fold (zlen sels) in Hl. exists idx, l, fs. split; [done|].
  assert (∀ i g, 0 ≤ i < zlen groups → idx⟦i⟧ = Some g → ∃ name s, groups⟦i⟧ = Some name ∧ sels⟦g⟧ = Some s ∧ field_type s ≠ FUNCTION_SELECT ∧ field_name s = Ptr name) as Hplace.
  { intros i g Hi Hg. destruct (zget_lt groups i Hi) as [name Hname]. destruct (Hk i name Hname) as (j & s & Hj & Hs). rewrite Z.add_0_l, Hg in Hj. injection Hj as <-. by exists name, s. }
  assert (∀ a, a ∈ l → ∃ s, sels⟦agr_index a⟧ = Some s ∧ field_type s = FUNCTION_SELECT) as Hagr.
  { intros a Ha. destruct (Hin a Ha) as (s & Hs & Hf & _). rewrite Z.sub_0_r in Hs. by exists s. }
  split; [split|split].
  - split; [|apply zlen_nonneg]. split; [apply zlen_nonneg|]. destruct (decide (groups = [])) as [->|Hne]; [apply zlen_nonneg|].
    assert (0 < zlen groups) by (destruct groups; [done|rewrite zlen_cons; pose proof (zlen_nonneg groups); lia]).
    destruct (zget_lt groups (zlen groups - 1)) as [name Hname]; [lia|]. destruct (Hk _ _ Hname) as (j & s & Hj & _). apply zget_Some_range in Hj. lia.
  - intros i g Hi Hg. destruct (Hplace i g Hi Hg) as (name & s & _ & Hs & _). by apply zget_Some_range in Hs.
  - intros i j g Hi Hj Hgi Hgj. destruct (Hplace i g Hi Hgi) as (n1 & s1 & H1 & Hs1 & _ & Hn1). destruct (Hplace j g Hj Hgj) as (n2 & s2 & H2 & Hs2 & _ & Hn2).
    assert (n1 = n2) as <- by congruence. rewrite zget_lookup in H1, H2 by lia. pose proof (NoDup_lookup _ _ _ _ Hnd H1 H2). lia.
  - intros a Ha. destruct (Hagr a Ha) as (s & Hs & Hf). split; [by apply zget_Some_range in Hs|]. intros i Hi Hg.
    destruct (Hplace i _ Hi Hg) as (name & s' & _ & Hs' & Hf' & _). congruence.
  - done.
  - intros i s Hs Hf. destruct (Hall i s Hs Hf) as (a & Ha & Ei). rewrite Z.add_0_l in Ei. exists a. split; [done|]. split; [done|].
    destruct (Hin a Ha) as (s' & Hs' & _ & Hfor). rewrite Z.sub_0_r, Ei, Hs in Hs'. by injection Hs' as <-.
  - split; [intros a Ha; destruct (Hin a Ha) as (s & Hs & Hrest); exists s; split; [|done]; pose proof (zget_Some_range _ _ _ Hs); rewrite zget_lookup in Hs by lia; by eapply list_elem_of_lookup_2|].
    intros i name Hname. destruct (Hk i name Hname) as (j & s & Hj & Hs). rewrite Z.add_0_l in Hj. split; [|by exists j, s].
    eapply prefix_zget; [exact Hp|]. by rewrite Hn.
Qed.
End init.
