(* ===== verification/DocTable.v ===== *)
(** * Tables for the execution layer ([src/storage/docdb/DocTableMgr.cpp], [DocIterator.cpp])

    The table manager of the document store: rows are read, inserted, updated and
    deleted by their handler, whose document id has the segment in its upper half.
    An iterator goes through the documents of a list of segments, all of them or
    those that an index found, and leaves out the deleted ones. *)

From Stdlib Require Import ZArith Lia.
From stdpp Require Import base option list numbers sets.
From S2P Require Import Prelude RowidList SegRowid Suffix LowData Column MileArray MileHashMap Row RowData IndexField Table Binlog Db Aggr Expression.

#[local] Open Scope mile_scope.

(** [(sid << 32) + docid] *)
Definition full_docid (sid docid : Z) : Z := u64 (Z.shiftl sid 32 + docid).
Definition sid_of (full : Z) : Z := u16 (Z.shiftr full 32).
Definition docid_of (full : Z) : Z := u32 full.

(** [matchscore] *)
Definition MATCHSCORE : list Z := [109; 97; 116; 99; 104; 115; 99; 111; 114; 101].

(** ** The iterator *)

(** The segments: with [all_docid_], their numbers of documents. *)
Inductive segment_list := AllDocs (l : list segment_hint) | FoundDocs (l : list segment_query_rowids).

(** [cur_seg_] is the place of the segment in the list, [None] for NULL; [cur_node_]
    is the place of the node in the chain of the segment. *)
Record DocIterator := DocIter {
  seg_list_ : segment_list;
  cur_seg_ : option nat;
  cur_pos_ : Z;
  cur_node_ : nat
}.

Definition segment_count (l : segment_list) : nat := match l with AllDocs l => length l | FoundDocs l => length l end.

(** How many documents the segment has to visit. *)
Definition segment_docs (l : segment_list) (i : nat) : option Z :=
  match l with
  | AllDocs l => h ← l !! i; Some (max_docid h)
  | FoundDocs l => q ← l !! i; Some (match rowids q with NULL => 0 | Ptr r => rowid_num r end)
  end.

(** The first segment from [i] on that has documents. *)
Fixpoint seek_segment (l : segment_list) (n : nat) (i : nat) : option (option nat) :=
  match n with
  | O => Some None
  | S n => d ← segment_docs l i; if 0 <? d then Some (Some i) else seek_segment l n (S i)
  end.

(** The first node is taken with a new segment. *)
Definition NextSegment (it : DocIterator) : option DocIterator :=
  let l := seg_list_ it in
  let start := match cur_seg_ it with None => 0%nat | Some i => S i end in
  s ← seek_segment l (segment_count l - start) start;
  Some (DocIter l s 0 (match s, l with Some _, FoundDocs _ => 0%nat | _, _ => cur_node_ it end)).

Definition IsDone (it : DocIterator) : bool := match cur_seg_ it with None => true | Some _ => false end.

Definition InternalNext (it : DocIterator) : option DocIterator :=
  match cur_seg_ it with
  | None => Some it
  | Some i =>
      let pos := u32 (cur_pos_ it + 1) in
      n ← segment_docs (seg_list_ it) i;
      if n <=? pos then NextSegment (DocIter (seg_list_ it) (cur_seg_ it) pos (cur_node_ it))
      else
        Some (DocIter (seg_list_ it) (cur_seg_ it) pos
          (match seg_list_ it with
           | FoundDocs _ => if pos `mod` ROWID_ARRAY_SIZE =? 0 then S (cur_node_ it) else cur_node_ it
           | AllDocs _ => cur_node_ it
           end))
  end.

Definition CurrentItem (it : DocIterator) : option DocHandler :=
  i ← cur_seg_ it;
  match seg_list_ it with
  | AllDocs l => h ← l !! i; Some (Handler (full_docid (hint_sid h) (cur_pos_ it)) d0)
  | FoundDocs l =>
      q ← l !! i;
      match rowids q with
      | NULL => None
      | Ptr r =>
          node ← nodes r !! cur_node_ it;
          d ← (rowid_array node)⟦cur_pos_ it `mod` ROWID_ARRAY_SIZE⟧;
          match score_array node with
          | None => Some (Handler (full_docid (sid q) d) d0)
          | Some s => x ← s⟦cur_pos_ it `mod` ROWID_ARRAY_SIZE⟧; Some (Handler (full_docid (sid q) d) x)
          end
      end
  end.

Section table.
Context {S : Type} `{!Column S}.
Context (env : field_env) (get_hash_value : low_data_struct → Z) (log : double → double).
Implicit Types (db : db_manager S) (io : db_io S) (name : list Z).

(** An error code counts as deleted. *)
Definition IsDeleted db name (it : DocIterator) : option bool :=
  h ← CurrentItem it;
  r ← db_is_docid_deleted db name (sid_of (docid h)) (docid_of (docid h));
  Some (negb (r =? 0)).

(** [while (!IsDone() && IsDeleted()) InternalNext();] *)
Fixpoint skip_deleted (fuel : nat) db name (it : DocIterator) : option DocIterator :=
  if IsDone it then Some it
  else
    deleted ← IsDeleted db name it;
    if (deleted : bool) then
      match fuel with
      | O => None
      | Datatypes.S fuel => it ← InternalNext it; skip_deleted fuel db name it
      end
    else Some it.

Definition First (fuel : nat) db name (it : DocIterator) : option DocIterator :=
  it ← NextSegment (DocIter (seg_list_ it) None (cur_pos_ it) (cur_node_ it)); skip_deleted fuel db name it.

Definition Next (fuel : nat) db name (it : DocIterator) : option DocIterator :=
  it ← InternalNext it; skip_deleted fuel db name it.

(** ** Changes *)

(** The table stays unlocked when the lock fails; the handler is 0 then. *)
Definition InsertRow io db name (rdata : row_data) : option (Z * DocHandler * db_manager S) :=
  '(rc, db) ← db_lock_table env io db name;
  if negb (rc =? 0) then Some (-1, Handler 0 d0, db)
  else
    '(rc, sid, docid, db) ← db_insert env get_hash_value io db name 0 0 rdata DOCID_BY_SELF;
    db ← db_unlock_table env io db name;
    Some (rc, Handler (full_docid sid docid) d0, db).

Definition DeleteRow io db name (h : DocHandler) : option (Z * db_manager S) :=
  db_del_docid io db name (sid_of (docid h)) (docid_of (docid h)).

(** The first field of the new data is taken, which must be there. *)
Definition UpdateRow io db name (h : DocHandler) (new_data : row_data) : option (Z * db_manager S) :=
  if field_count new_data <? 1 then None
  else
    new_value ← (datas new_data)⟦0⟧;
    '(rc, _, db) ← db_update get_hash_value io db name (sid_of (docid h)) (docid_of (docid h)) new_value;
    Some (rc, db).

(** ** Queries *)

(** The lookups of the index conditions in these segments. *)
Definition table_lookups db name (hs : list segment_hint) : IndexDb field := {|
  Suffix.db_index_equal_query v := default NULL (Db.db_index_equal_query get_hash_value db name hs v);
  Suffix.db_fulltext_index_equal_query v := default NULL (Db.db_fulltext_index_equal_query get_hash_value db name hs v);
  Suffix.db_fulltext_index_length_query v := default 0 (Db.db_fulltext_index_length_query get_hash_value db name hs v);
  Suffix.db_get_record_num := default 0 (Db.db_get_record_num db name hs);
  Suffix.db_get_delete_num := default 0 (Db.db_get_delete_num db name hs);
  Suffix.log := log
|}.

(** The iterator holds the read lock of the table, which makes a missing table. *)
Definition UseIndex io db name (cond : list (condition_t field)) (hint : option (Z * Z)) : option (ptr DocIterator * db_manager S) :=
  db ← db_readlock_table env io db name;
  seg_list ← db_seghint_query db name hint;
  match seg_list with
  | NULL => db ← db_unreadlock_table env io db name; Some (NULL, db)
  | Ptr hs =>
      match cond with
      | [] => Some (Ptr (DocIter (AllDocs hs) None 0 0), db)
      | _ =>
          r ← query_by_hash_conditions (IndexDb0 := table_lookups db name hs) cond;
          match r with
          | NULL => db ← db_unreadlock_table env io db name; Some (NULL, db)
          | Ptr l => Some (Ptr (DocIter (FoundDocs l) None 0 0), db)
          end
      end
  end.

(** [struct access_way_t]; the number of fields is the length of both lists. *)
Record access_way_t := AccessWay {
  actual_fields_name : list (list Z);
  actual_select_type : list select_types_t;
  access_type : data_access_type_t
}.

(** The values of a row that were read from the filter indexes. *)
Fixpoint filter_cells (names : list (list Z)) (tys : list select_types_t) (actual : list (low_data_struct * select_types_t))
    : option (list (row_cell * select_types_t)) :=
  match names, tys with
  | [], _ => Some []
  | _ :: _, [] => None
  | name :: names, t :: tys =>
      if bool_decide (t = SELECT_TYPE_DELAY ∨ t = SELECT_TYPE_SKIP) then
        l ← filter_cells names tys actual; Some ((Cell (Ptr name) (Plain zero_data), t) :: l)
      else
        match actual with
        | [] => None
        | (d, t) :: actual => l ← filter_cells names tys actual; Some ((Cell (Ptr name) (Plain d), t) :: l)
        end
  end.

(** The pseudo column with the score of the document. *)
Definition set_matchscore (h : DocHandler) (name : list Z) (c : row_cell * select_types_t) : row_cell * select_types_t :=
  if bool_decide (name = MATCHSCORE) then (Cell (Ptr name) (Plain (a_double (match_score h))), SELECT_TYPE_ORIGINAL) else c.

(** The handler of the row is not set here. *)
Definition QueryRow db name (h : DocHandler) (sel : select_fields_t) (way : ptr access_way_t) : option (ptr select_row_t) :=
  match way with
  | NULL => Some NULL
  | Ptr way =>
      r ← db_data_query_multi_col db name (sid_of (docid h)) (docid_of (docid h)) (actual_fields_name way) (access_type way);
      match r with
      | NULL => Some NULL
      | Ptr ds =>
          cells ← match access_type way with
                  | DATA_ACCESS_ORIGINAL =>
                      if zlen ds <? zlen (fields_name sel) then None
                      else Some (zip_with (λ n d, (Cell (Ptr n) (Plain d), SELECT_TYPE_ORIGINAL)) (fields_name sel) ds)
                  | DATA_ACCESS_FILTER => filter_cells (fields_name sel) (fields_type sel) (zip ds (actual_select_type way))
                  end;
          let cells := zip_with (set_matchscore h) (fields_name sel) cells in
          Some (Ptr (SelectRow cells.*1 cells.*2 NULL))
      end
  end.

(** The loop over the fields: the fields that are read, their types, the new
    [select_type]s, and whether the loop was left for the original row. *)
Fixpoint identify db name (names : list (list Z)) (tys : list select_types_t)
    : option (list (list Z) * list select_types_t * list select_types_t * bool) :=
  match names, tys with
  | [], _ => Some ([], [], tys, false)
  | _ :: _, [] => None
  | n :: names, t :: tys =>
      if bool_decide (n = MATCHSCORE) then
        '(ns, ts, tys, b) ← identify db name names tys; Some (ns, ts, SELECT_TYPE_SKIP :: tys, b)
      else if bool_decide (t = SELECT_TYPE_DELAY) then
        '(ns, ts, tys, b) ← identify db name names tys; Some (ns, ts, t :: tys, b)
      else
        fat ← db_get_data_access_type db name n;
        match fat with
        | FIELD_ACCESS_ORIGINAL => Some ([], [], t :: tys, true)
        | FIELD_ACCESS_FILTER_HASHED =>
            if bool_decide (t = SELECT_TYPE_ORIGINAL) then Some ([], [], t :: tys, true)
            else '(ns, ts, tys, b) ← identify db name names tys; Some (n :: ns, SELECT_TYPE_HASH :: ts, t :: tys, b)
        | FIELD_ACCESS_FILTER_ORIGINAL =>
            '(ns, ts, tys, b) ← identify db name names tys; Some (n :: ns, SELECT_TYPE_ORIGINAL :: ts, t :: tys, b)
        end
  end.

(** The fields with their new types, and how they are read. *)
Definition IdentifyQueryWay db name (sel : select_fields_t) : option (select_fields_t * access_way_t) :=
  '(ns, ts, tys, original) ← identify db name (fields_name sel) (fields_type sel);
  let sel := Fields (fields_name sel) tys in
  Some (sel,
    if (original : bool) then AccessWay (fields_name sel) ((λ _, SELECT_TYPE_ORIGINAL) <$> fields_name sel) DATA_ACCESS_ORIGINAL
    else AccessWay ns ts DATA_ACCESS_FILTER).

(** -1 when there are no segments. *)
Definition TotalRowCount db name : option Z :=
  seg_list ← db_seghint_query db name None;
  match seg_list with NULL => Some (-1) | Ptr hs => Db.db_get_record_num db name hs end.

Definition GetRowData db name (h : ptr DocHandler) : option (ptr row_data) :=
  match h with
  | NULL => Some NULL
  | Ptr h => db_data_query_row db name (sid_of (docid h)) (docid_of (docid h))
  end.
End table.
