(* ===== verification/DocScan.v ===== *)
(** * What the iterator over documents visits

    An iterator stands for the handlers that are still to come.  The proofs about
    the steps of an execution use this list in place of the position in the chains
    of nodes. *)

From Stdlib Require Import ZArith Lia.
From stdpp Require Import base option list numbers sets.
From S2P Require Import Prelude RowidList SetOperator SegRowid Suffix LowData Column MileArray MileHashMap Row RowData IndexField Table Binlog Db Aggr Expression DocTable.

#[local] Open Scope mile_scope.

(** ** The documents of the segments *)

Definition hint_items (h : segment_hint) : list DocHandler :=
  (λ d, Handler (full_docid (hint_sid h) d) d0) <$> seqZ 0 (max_docid h).

(** The ids of a list, the scores with them. *)
Definition found_items (q : segment_query_rowids) : list DocHandler :=
  match rowids q with
  | NULL => []
  | Ptr r => (λ e, Handler (full_docid (sid q) e.1) (default d0 e.2)) <$> entries r
  end.

Definition segment_items (l : segment_list) (i : nat) : list DocHandler :=
  match l with
  | AllDocs l => default [] (hint_items <$> l !! i)
  | FoundDocs l => default [] (found_items <$> l !! i)
  end.

(** The segments from [i] on, one after the other. *)
Definition items_from (l : segment_list) (i : nat) : list DocHandler :=
  concat (segment_items l <$> seq i (segment_count l - i)).
Definition items (l : segment_list) : list DocHandler := items_from l 0.

Definition segments_ok (l : segment_list) : Prop :=
  match l with
  | AllDocs l => Forall (λ h, 0 ≤ max_docid h < 2 ^ 32) l
  | FoundDocs l => Forall (λ q, ptr_wf (rowids q)) l
  end.

Lemma items_from_S l i : (i < segment_count l)%nat → items_from l i = segment_items l i ++ items_from l (S i).
Proof.
  intros Hi. unfold items_from. replace (segment_count l - i)%nat with (S (segment_count l - S i)) by lia. done.
Qed.

Lemma items_from_end l i : (segment_count l ≤ i)%nat → items_from l i = [].
Proof. intros Hi. unfold items_from. by replace (segment_count l - i)%nat with 0%nat by lia. Qed.

Lemma concat_lookups {A} (f : A → list DocHandler) (l : list A) :
  concat ((λ i, default [] (f <$> l !! i)) <$> seq 0 (length l)) = concat (f <$> l).
Proof.
  f_equal. apply list_eq. intros i. rewrite !list_lookup_fmap. destruct (l !! i) as [x|] eqn:E.
  - rewrite lookup_seq_lt by (by eapply lookup_lt_Some). cbn. by rewrite E.
  - rewrite lookup_seq_ge by (by apply lookup_ge_None). done.
Qed.

Lemma items_all l : items (AllDocs l) = concat (hint_items <$> l).
Proof. unfold items, items_from. cbn [segment_count]. rewrite Nat.sub_0_r. apply (concat_lookups hint_items). Qed.

Lemma items_found l : items (FoundDocs l) = concat (found_items <$> l).
Proof. unfold items, items_from. cbn [segment_count]. rewrite Nat.sub_0_r. apply (concat_lookups found_items). Qed.

(** ** Positions *)

(** The iterator is at the first of the handlers. *)
Inductive at_item : DocIterator → list DocHandler → Prop :=
| At_end l pos node : at_item (DocIter l None pos node) []
| At_doc l i pos node :
    segments_ok l → (i < segment_count l)%nat → 0 ≤ pos < zlen (segment_items l i) →
    (match l with FoundDocs _ => node = at_block pos | AllDocs _ => True end) →
    at_item (DocIter l (Some i) pos node) (drop (Z.to_nat pos) (segment_items l i) ++ items_from l (S i)).

Lemma segment_docs_spec l i :
  segments_ok l → (i < segment_count l)%nat →
  segment_docs l i = Some (zlen (segment_items l i)) ∧ zlen (segment_items l i) < 2 ^ 32.
Proof.
  destruct l as [l|l]; cbn [segments_ok segment_count segment_docs segment_items]; intros Hok Hi;
    apply lookup_lt_is_Some_2 in Hi as [x E]; pose proof (Forall_lookup_1 _ _ _ _ Hok E) as Hx; rewrite E; cbn [mbind option_bind].
  - cbv beta in Hx. cbn. unfold hint_items. rewrite zlen_fmap. unfold zlen. rewrite length_seqZ. split; [f_equal|]; lia.
  - cbn. unfold found_items. cbn in Hx. destruct (rowids x) as [|r]; [split; [done|]; change (zlen []) with 0; lia|].
    cbn [ptr_wf] in Hx. rewrite zlen_fmap, zlen_entries by done. split; [done|]. apply Hx.
Qed.

Lemma seek_segment_spec l n i :
  segments_ok l → (i + n = segment_count l)%nat →
  ∃ s, seek_segment l n i = Some s ∧
    match s with
    | None => items_from l i = []
    | Some j => (j < segment_count l)%nat ∧ 0 < zlen (segment_items l j) ∧ items_from l i = segment_items l j ++ items_from l (S j)
    end.
Proof.
  intros Hok. revert i. induction n as [|n IH]; intros i Hn; cbn [seek_segment].
  - exists None. split; [done|]. apply items_from_end. lia.
  - destruct (segment_docs_spec l i Hok) as [-> _]; [lia|]. cbn [mbind option_bind]. destruct (Z.ltb_spec 0 (zlen (segment_items l i))) as [H|H].
    + exists (Some i). split; [done|]. split; [lia|]. split; [done|]. apply items_from_S. lia.
    + destruct (IH (S i)) as (s & -> & Hs); [lia|]. exists s. split; [done|].
      assert (segment_items l i = []) as E. { destruct (segment_items l i); [done|]. rewrite zlen_cons in H. pose proof (zlen_nonneg l0). lia. }
      rewrite (items_from_S l i) by lia. by rewrite E.
Qed.

Definition next_place (it : DocIterator) : nat := match cur_seg_ it with None => 0%nat | Some i => S i end.

Lemma NextSegment_spec it :
  segments_ok (seg_list_ it) → (next_place it ≤ segment_count (seg_list_ it))%nat →
  ∃ it', NextSegment it = Some it' ∧ at_item it' (items_from (seg_list_ it) (next_place it)).
Proof.
  intros Hok Hn. unfold NextSegment. fold (next_place it).
  destruct (seek_segment_spec (seg_list_ it) (segment_count (seg_list_ it) - next_place it) (next_place it) Hok) as (s & -> & Hs); [lia|].
  cbn [mbind option_bind]. eexists. split; [done|]. destruct s as [j|].
  - destruct Hs as (Hj & Hz & ->). rewrite <- (drop_0 (segment_items _ j)). apply At_doc; [done..|lia|]. by destruct (seg_list_ it).
  - rewrite Hs. apply At_end.
Qed.

Lemma at_item_done it : at_item it [] → IsDone it = true.
Proof.
  intros H. inversion H as [|l i pos node Hok Hi Hp Hn E1 E2]; [done|]. exfalso. apply app_eq_nil in E2 as [E2 _].
  apply (f_equal length) in E2. rewrite length_drop in E2. unfold zlen in Hp. simpl in E2. lia.
Qed.

Lemma current_found l i pos h :
  segments_ok (FoundDocs l) → segment_items (FoundDocs l) i !! Z.to_nat pos = Some h → 0 ≤ pos →
  CurrentItem (DocIter (FoundDocs l) (Some i) pos (at_block pos)) = Some h.
Proof.
  cbn [segments_ok segment_items]. intros Hok Hh Hp. unfold CurrentItem. cbn [cur_seg_ seg_list_ cur_pos_ cur_node_ mbind option_bind].
  destruct (l !! i) as [q|] eqn:E; cbn in Hh |- *; [|done]. pose proof (Forall_lookup_1 _ _ _ _ Hok E) as Hq. cbn in Hq.
  unfold found_items in Hh. destruct (rowids q) as [|r]; [done|]. cbn [ptr_wf] in Hq.
  rewrite list_lookup_fmap in Hh. destruct (entries r !! Z.to_nat pos) as [[d s]|] eqn:Ee; [|done]. injection Hh as <-.
  assert (0 ≤ pos < rowid_num r) as Hr. { apply lookup_lt_Some in Ee. rewrite <- zlen_entries by done. unfold zlen. lia. }
  pose proof (fetch_entries r pos Hq Hr) as Ef. rewrite (zget_lookup (entries r)), Ee in Ef by lia. unfold fetch in Ef.
  destruct (nodes r !! at_block pos) as [node|]; [|done]. cbn [mbind option_bind] in Ef |- *.
  destruct ((rowid_array node)⟦pos `mod` ROWID_ARRAY_SIZE⟧) as [v|]; [|done]. cbn [mbind option_bind] in Ef |- *.
  destruct (score_array node) as [sc|]; [|by injection Ef as -> <-].
  destruct (sc⟦pos `mod` ROWID_ARRAY_SIZE⟧) as [x|]; [|done]. cbn [mbind option_bind] in Ef |- *. by injection Ef as -> <-.
Qed.

Lemma current_spec it h hs : at_item it (h :: hs) → CurrentItem it = Some h ∧ IsDone it = false.
Proof.
  intros H. inversion H as [|l i pos node Hok Hi Hp Hn E1 E2]. split; [|done].
  assert (segment_items l i !! Z.to_nat pos = Some h) as Hh.
  { rewrite <- (Nat.add_0_r (Z.to_nat pos)), <- lookup_drop. assert (Z.to_nat pos < length (segment_items l i))%nat by (unfold zlen in Hp; lia).
    pose proof (f_equal (lookup 0%nat) E2) as E. rewrite lookup_app_l in E by (rewrite length_drop; lia). done. }
  destruct l as [l|l].
  - unfold CurrentItem. cbn [cur_seg_ seg_list_ cur_pos_ mbind option_bind]. cbn [segment_items] in Hh.
    destruct (l !! i) as [x|]; cbn in Hh |- *; [|done]. unfold hint_items in Hh. rewrite list_lookup_fmap in Hh.
    destruct (seqZ 0 (max_docid x) !! Z.to_nat pos) as [d|] eqn:E; [|done]. injection Hh as <-.
    apply lookup_seqZ in E as [-> _]. by replace (0 + Z.of_nat (Z.to_nat pos)) with pos by lia.
  - rewrite Hn. apply current_found; [done|done|lia].
Qed.

Lemma InternalNext_spec it h hs : at_item it (h :: hs) → ∃ it', InternalNext it = Some it' ∧ at_item it' hs.
Proof.
  intros H. inversion H as [|l i pos node Hok Hi Hp Hn E1 E2]. subst it.
  destruct (segment_docs_spec l i Hok Hi) as [Ed Hz]. unfold InternalNext. cbn [cur_seg_ seg_list_ cur_pos_ cur_node_].
  rewrite Ed. cbn [mbind option_bind]. rewrite u32_small by lia.
  assert (hs = drop (Z.to_nat (pos + 1)) (segment_items l i) ++ items_from l (S i)) as ->.
  { change hs with (drop 1 (h :: hs)). rewrite <- E2, drop_app_le by (rewrite length_drop; unfold zlen in Hp; lia).
    rewrite drop_drop. do 2 f_equal. lia. }
  destruct (Z.leb_spec (zlen (segment_items l i)) (pos + 1)) as [Hl|Hl].
  - rewrite drop_ge by (unfold zlen in Hl; lia). apply (NextSegment_spec (DocIter l (Some i) (pos + 1) node)); [done|]. cbn. lia.
  - eexists. split; [done|]. apply At_doc; [done..|lia|]. destruct l as [l|l]; [done|]. subst node.
    apply (advance_block pos). lia.
Qed.

(** ** Deleted documents *)

(** The handlers without the first ones that are gone. *)
Fixpoint skip (gone : DocHandler → bool) (hs : list DocHandler) : list DocHandler :=
  match hs with [] => [] | h :: hs => if gone h then skip gone hs else h :: hs end.

Lemma skip_suffix gone hs : ∃ pre, hs = pre ++ skip gone hs ∧ Forall (λ h, gone h = true) pre.
Proof.
  induction hs as [|h hs (pre & E & Hp)]; cbn [skip]; [by exists []|]. destruct (gone h) eqn:Eg; [|by exists []].
  exists (h :: pre). split; [cbn; by f_equal|by constructor].
Qed.

Section deleted.
Context {S : Type} `{!Column S} (db : db_manager S) (name : list Z) (gone : DocHandler → bool).

(** The database tells which documents are deleted. *)
Definition knows (h : DocHandler) : Prop :=
  db_is_docid_deleted db name (sid_of (docid h)) (docid_of (docid h)) = Some (if gone h then 1 else 0).

Lemma skip_deleted_spec fuel it hs :
  at_item it hs → Forall knows hs → (length hs ≤ fuel)%nat →
  ∃ it', skip_deleted fuel db name it = Some it' ∧ at_item it' (skip gone hs).
Proof.
  revert it hs. induction fuel as [|fuel IH]; intros it hs Hit Hk Hf; destruct hs as [|h hs];
    try (exists it; cbn [skip_deleted skip]; by rewrite (at_item_done it)).
  { simpl in Hf. lia. }
  destruct (current_spec it h hs Hit) as [Ec Ed]. apply Forall_cons in Hk as [Hh Hk].
  cbn [skip_deleted skip]. rewrite Ed. unfold IsDeleted. rewrite Ec. cbn [mbind option_bind]. rewrite Hh. cbn [mbind option_bind].
  destruct (gone h); simpl negb; cbv iota; [|by exists it].
  destruct (InternalNext_spec it h hs Hit) as (it' & -> & Hit'). cbn [mbind option_bind]. apply IH; [done..|]. simpl in Hf. lia.
Qed.

Lemma First_spec fuel l pos node :
  segments_ok l → Forall knows (items l) → (length (items l) ≤ fuel)%nat →
  ∃ it, First fuel db name (DocIter l None pos node) = Some it ∧ at_item it (skip gone (items l)).
Proof.
  intros Hok Hk Hf. unfold First.
  destruct (NextSegment_spec (DocIter l None pos node)) as (it & E & Hit); [done|cbn; lia|]. cbn in E |- *. rewrite E. cbn [mbind option_bind].
  by apply skip_deleted_spec.
Qed.

Lemma Next_spec fuel it h hs :
  at_item it (h :: hs) → Forall knows hs → (length hs ≤ fuel)%nat →
  ∃ it', Next fuel db name it = Some it' ∧ at_item it' (skip gone hs).
Proof.
  intros Hit Hk Hf. unfold Next. destruct (InternalNext_spec it h hs Hit) as (it1 & -> & Hit1). cbn [mbind option_bind].
  by apply skip_deleted_spec.
Qed.
End deleted.
