(* ===== verification/Execute.v ===== *)
(** * Execution of statements ([src/execute/*Step.cpp], [*Substep.cpp], [ExecutePlan.cpp], [SqlAnalyzer.cpp])

    A statement becomes a plan of steps, which hand their results on.  The index
    step makes an iterator over the documents, the main step applies its substeps
    to one document after the other, and the refill step reads the columns that were
    left out before.

    The state has the database and two counters: how many calls have asked the
    system for something, and how often the clock was read. *)

From Stdlib Require Import ZArith Lia.
From stdpp Require Import base option list numbers sets.
From S2P Require Import Prelude RowidList SegRowid Suffix LowData Column MileArray MileHashMap Row RowData IndexField Table Binlog Db Aggr Expression ResultSet DocTable.

#[local] Open Scope mile_scope.

Definition ERROR_QUERY_BY_ROWID : Z := -3004.
Definition ERROR_INDEX_QUERY : Z := -3100.

Definition ACCESS_TYPE_COMMON : Z := 0.
Definition ACCESS_TYPE_DISTINCT_COUNT : Z := 6.

(** ** Plans *)

(** Fields with the way in which they are read. *)
Definition fields_with_way : Type := select_fields_t * ptr access_way_t.

Inductive ExecuteSubstep :=
| FilterSubstep (e : Expression) (sel_fields : fields_with_way)
| SelectSubstep (sel_fields : fields_with_way)
| DeleteSubstep
| UpdateSubstep (new_data : row_data).

(** [output] of the main step: a result set, or a number. *)
Inductive step_output := Collected (rs : ResultSet) | Counted (n : Z).

Inductive ExecuteStep :=
| IndexStep (cond : list (condition_t field)) (hint : option (Z * Z))
| MainStep (output : step_output) (substeps : list ExecuteSubstep)
| InsertStep (row : row_data)
| RefillStep (fields : list (ptr (list Z)))
| CountAllStep (field_name : ptr (list Z)).

(** What a step returns.  The rows of a result set are those that its iterator
    shows; refilling changes them in place. *)
Inductive step_result :=
| NoResult
| Iterator (it : DocIterator)
| ResultRows (size : Z) (rows : list select_row_t)
| ResultNumber (n : Z)
| HandlerId (id : Z).

Definition result_of (o : step_output) : option step_result :=
  match o with
  | Collected rs => rows ← result_rows rs; Some (ResultRows (result_size rs) rows)
  | Counted n => Some (ResultNumber n)
  end.

Record exec_state (S : Type) := Exec { exec_db : db_manager S; asked : nat; clock_reads : nat }.
Arguments Exec {S}.
Arguments exec_db {S}.
Arguments asked {S}.
Arguments clock_reads {S}.

(** What an execution is given: the answers of the system to its calls, the times
    that it reads, the block size of the memory pool, the setting [cut_threshold],
    and fuel for the loops over documents. *)
Record exec_env (S : Type) := ExecEnv {
  fields_env : field_env;
  hash_value : low_data_struct → Z;
  log_of : double → double;
  io_at : nat → db_io S;
  time_at : nat → Z;
  block_size : Z;
  cut_threshold : Z;
  loop_fuel : nat
}.
Arguments ExecEnv {S}.
Arguments fields_env {S}.
Arguments hash_value {S}.
Arguments log_of {S}.
Arguments io_at {S}.
Arguments time_at {S}.
Arguments block_size {S}.
Arguments cut_threshold {S}.
Arguments loop_fuel {S}.

Section execute.
Context {S : Type} `{!Column S} (env : exec_env S).
Implicit Types (st : exec_state S) (name : list Z) (h : DocHandler) (out : step_output).

(** A call that asks the system. *)
Definition ask {R} st (call : db_io S → db_manager S → option (R * db_manager S)) : option (R * exec_state S) :=
  '(r, db) ← call (io_at env (asked st)) (exec_db st); Some (r, Exec db (Datatypes.S (asked st)) (clock_reads st)).

(** [get_time_msec() > timeout] *)
Definition late st (timeout : Z) : bool * exec_state S :=
  (timeout <? time_at env (clock_reads st), Exec (exec_db st) (asked st) (Datatypes.S (clock_reads st))).

(** ** Substeps *)

Definition query_row st name h (sel : fields_with_way) : option (ptr select_row_t) :=
  QueryRow (exec_db st) name h sel.1 sel.2.

Definition with_handler (row : select_row_t) h : select_row_t := SelectRow (Row.row_data row) (select_type row) (Ptr h).

(** The code, 0 to go on with the next substep, positive to leave out the document,
    negative to stop. *)
Definition execute_substep st name h (s : ExecuteSubstep) out : option (Z * step_output * exec_state S) :=
  match s with
  | FilterSubstep e sel =>
      r ← query_row st name h sel;
      match r with
      | NULL => Some (-1, out, st)
      | Ptr row =>
          result ← exp_execute e row;
          Some (if result =? 0 then 1 else if result =? 1 then 0 else result, out, st)
      end
  | SelectSubstep sel =>
      r ← query_row st name h sel;
      match r with
      | NULL => Some (ERROR_QUERY_BY_ROWID, out, st)
      | Ptr row =>
          match out with
          | Collected rs => '(rc, rs) ← AddResult (block_size env) rs (with_handler row h); Some (rc, Collected rs, st)
          | Counted _ => None
          end
      end
  | DeleteSubstep =>
      match out with
      | Collected _ => None
      | Counted n =>
          '(rc, st) ← ask st (λ io db, DeleteRow io db name h);
          Some (rc, Counted (if rc =? 0 then u32 (n + 1) else n), st)
      end
  | UpdateSubstep new_data =>
      match out with
      | Collected _ => None
      | Counted n =>
          '(rc, st) ← ask st (λ io db, UpdateRow (hash_value env) io db name h new_data);
          Some (rc, Counted (if rc =? 0 then u32 (n + 1) else n), st)
      end
  end.

(** The substeps up to the first code that is not 0; [rc] is the code before. *)
Fixpoint execute_substeps st name h (l : list ExecuteSubstep) (rc : Z) out : option (Z * step_output * exec_state S) :=
  match l with
  | [] => Some (rc, out, st)
  | s :: l =>
      '(rc, out, st) ← execute_substep st name h s out;
      if negb (rc =? 0) then Some (rc, out, st) else execute_substeps st name h l rc out
  end.

(** ** Steps *)

(** The loop of the main step; [i] counts the documents. *)
Fixpoint main_loop (fuel : nat) st name (l : list ExecuteSubstep) (timeout : Z) (it : DocIterator) (i rc : Z) out
    : option (Z * step_output * exec_state S) :=
  if IsDone it then Some (rc, out, st)
  else
    match fuel with
    | O => None
    | Datatypes.S fuel =>
        h ← CurrentItem it;
        '(rc, out, st) ← execute_substeps st name h l rc out;
        if rc <? 0 then Some (rc, out, st)
        else
          let i := u32 (i + 1) in
          let '(stop, st) := if i `mod` 100 =? 0 then late st timeout else (false, st) in
          if (stop : bool) then Some (ERROR_TIMEOUT, out, st)
          else if (0 <? cut_threshold env) && (cut_threshold env <=? i) then Some (rc, out, st)
          else
            it ← Next (loop_fuel env) (exec_db st) name it;
            main_loop fuel st name l timeout it i rc out
    end.

Definition main_step st name out (l : list ExecuteSubstep) (timeout : Z) (input : step_result) (rc : Z)
    : option (step_result * Z * exec_state S) :=
  match input with
  | Iterator it =>
      it ← First (loop_fuel env) (exec_db st) name it;
      '(rc, out, st) ← main_loop (loop_fuel env) st name l timeout it 0 rc out;
      r ← result_of out;
      Some (r, if (rc =? WARN_EXCEED_QUERY_LIMIT) || (0 <=? rc) then 0 else rc, st)
  | _ => None
  end.

Definition index_step st name (cond : list (condition_t field)) (hint : option (Z * Z)) : option (step_result * Z * exec_state S) :=
  '(r, st) ← ask st (λ io db, UseIndex (fields_env env) (hash_value env) (log_of env) io db name cond hint);
  Some (match r with NULL => (NoResult, ERROR_INDEX_QUERY, st) | Ptr it => (Iterator it, 0, st) end).

(** The id is returned also when the insertion failed. *)
Definition insert_step st name (row : row_data) : option (step_result * Z * exec_state S) :=
  '(r, st) ← ask st (λ io db, '(rc, h, db) ← InsertRow (fields_env env) (hash_value env) io db name row; Some ((rc, h), db));
  Some (HandlerId (docid r.2), r.1, st).

(** The columns that the first row lacks: their names and places. *)
Fixpoint refill_columns (fields : list (ptr (list Z))) (tys : list select_types_t) (i : Z) : option (list (list Z * Z)) :=
  match tys with
  | [] => Some []
  | t :: tys =>
      if bool_decide (t = SELECT_TYPE_ORIGINAL) then refill_columns (drop 1 fields) tys (i + 1)
      else
        match fields with
        | Ptr n :: fields => l ← refill_columns fields tys (i + 1); Some ((n, i) :: l)
        | _ => None
        end
  end.

(** [memcpy] of the values that were read into their places. *)
Fixpoint refill_cells (refs : list Z) (read : list row_cell) (row : select_row_t) : option select_row_t :=
  match refs, read with
  | [], _ => Some row
  | _ :: _, [] => None
  | i :: refs, c :: read =>
      d ← (Row.row_data row)⟦i := c⟧;
      t ← (select_type row)⟦i := SELECT_TYPE_ORIGINAL⟧;
      refill_cells refs read (SelectRow d t (handler row))
  end.

(** [None] inside when a row could not be read. *)
Fixpoint refill_rows st name (sel : fields_with_way) (refs : list Z) (rows : list select_row_t) : option (option (list select_row_t)) :=
  match rows with
  | [] => Some (Some [])
  | row :: rows =>
      match handler row with
      | NULL => None
      | Ptr h =>
          r ← query_row st name h sel;
          match r with
          | NULL => Some None
          | Ptr read =>
              row ← refill_cells refs (Row.row_data read) row;
              rest ← refill_rows st name sel refs rows;
              Some (match rest with None => None | Some rest => Some (row :: rest) end)
          end
      end
  end.

Definition identified st name (sel : select_fields_t) : option fields_with_way :=
  '(sel, way) ← IdentifyQueryWay (exec_db st) name sel; Some (sel, Ptr way).

Definition refill_step st name (fields : list (ptr (list Z))) (input : step_result) (rc : Z) : option (step_result * Z * exec_state S) :=
  match input with
  | ResultRows size rows =>
      cols ← match rows with [] => Some [] | row :: _ => refill_columns fields (select_type row) 0 end;
      match cols with
      | [] => Some (input, rc, st)
      | _ =>
          sel ← identified st name (Fields cols.*1 ((λ _, SELECT_TYPE_ORIGINAL) <$> cols));
          r ← refill_rows st name sel cols.*2 rows;
          Some (match r with None => (NoResult, ERROR_QUERY_BY_ROWID, st) | Some rows => (ResultRows size rows, rc, st) end)
      end
  | _ => None
  end.

(** The result of [AddResult] is not looked at. *)
Definition count_all_step st name (field_name : ptr (list Z)) (rc : Z) : option (step_result * Z * exec_state S) :=
  n ← TotalRowCount (exec_db st) name;
  let row := SelectRow [Cell field_name (Plain (longlong n))] [SELECT_TYPE_ORIGINAL] NULL in
  '(_, rs) ← common_add (common_init (block_size env) 1) row;
  r ← result_of (Collected (RS_Common rs));
  Some (r, rc, st).

Definition execute_step st name (s : ExecuteStep) (timeout : Z) (input : step_result) (rc : Z) : option (step_result * Z * exec_state S) :=
  match s with
  | IndexStep cond hint => index_step st name cond hint
  | MainStep out l => main_step st name out l timeout input rc
  | InsertStep row => insert_step st name row
  | RefillStep fields => refill_step st name fields input rc
  | CountAllStep field_name => count_all_step st name field_name rc
  end.

(** The steps one after the other, up to an error or the end of the time. *)
Fixpoint execute_steps st name (l : list ExecuteStep) (timeout : Z) (input : step_result) (rc : Z) : option (step_result * Z * exec_state S) :=
  match l with
  | [] => Some (input, rc, st)
  | s :: l =>
      '(r, rc, st) ← execute_step st name s timeout input rc;
      if rc <? 0 then Some (r, rc, st)
      else
        let '(stop, st) := late st timeout in
        if (stop : bool) then Some (r, ERROR_TIMEOUT, st) else execute_steps st name l timeout r rc
  end.

Definition ExecutePlan_Execute st name (l : list ExecuteStep) (timeout : Z) : option (step_result * Z * exec_state S) :=
  execute_steps st name l timeout NoResult 0.

(** ** Analysis of statements *)

(** The packets, for the table [table_name]; the analysis takes the table as given. *)
Record query_packet := QueryPacket {
  q_access_type : Z;
  q_select_field : list select_field;
  q_hint : option (Z * Z);
  q_index_cond : list (condition_t field);
  q_filter_cond : list filter_condition;
  q_group_array : list (list Z);
  q_order_array : list (list Z * order_types);
  q_limit : Z
}.

Record update_packet := UpdatePacket {
  u_data : field;
  u_hint : option (Z * Z);
  u_index_cond : list (condition_t field);
  u_filter_cond : list filter_condition
}.

Record delete_packet := DeletePacket {
  d_hint : option (Z * Z);
  d_index_cond : list (condition_t field);
  d_filter_cond : list filter_condition
}.

Definition is_query_contain_func (l : list select_field) : bool :=
  existsb (λ s, bool_decide (field_type s = FUNCTION_SELECT)) l.

(** No expression is undefined behaviour. *)
Definition AnalyzeCondition st name (cond : list filter_condition) : option ExecuteSubstep :=
  g ← GenExp (hash_value env) cond;
  match g with
  | NULL => None
  | Ptr (e, fs) => sel ← identified st name fs; Some (FilterSubstep e sel)
  end.

(** The filter, when there is a condition. *)
Definition filter_substeps st name (cond : list filter_condition) : option (list ExecuteSubstep) :=
  match cond with [] => Some [] | _ => s ← AnalyzeCondition st name cond; Some [s] end.

Definition analyze_insert (row : list field) : list ExecuteStep := [InsertStep (RowData.Row row (zlen row))].

Definition analyze_delete st name (p : delete_packet) : option (list ExecuteStep) :=
  f ← filter_substeps st name (d_filter_cond p);
  Some [IndexStep (d_index_cond p) (d_hint p); MainStep (Counted 0) (f ++ [DeleteSubstep])].

Definition analyze_update st name (p : update_packet) : option (list ExecuteStep) :=
  f ← filter_substeps st name (u_filter_cond p);
  Some [IndexStep (u_index_cond p) (u_hint p); MainStep (Counted 0) (f ++ [UpdateSubstep (RowData.Row [u_data p] 1)])].

(** The names, none of which is missing. *)
Definition select_names (l : list select_field) : option (list (list Z)) :=
  mapM (λ s, match field_name s with Ptr n => Some n | NULL => None end) l.

(** Columns that the order does not need may have another type. *)
Definition unless_ordered (order : list (list Z * order_types)) (t : select_types_t) (n : list Z) : select_types_t :=
  if bool_decide (n ∈ order.*1) then SELECT_TYPE_ORIGINAL else t.

(** The result set and the fields that are read. *)
Definition query_result (p : query_packet) : option (ResultSet * select_fields_t) :=
  let sels := q_select_field p in
  if negb (bool_decide (q_group_array p = [])) || is_query_contain_func sels then
    rs ← group_init (hash_value env) sels (q_group_array p); Some (RS_Group rs, src_fields rs)
  else
    names ← select_names sels;
    let common := q_access_type p =? ACCESS_TYPE_COMMON in
    match q_order_array p with
    | [] =>
        Some (if common then (RS_Common (common_init (block_size env) (q_limit p)), Fields names ((λ _, SELECT_TYPE_ORIGINAL) <$> names))
              else (RS_Distinct (distinct_init (q_limit p)), Fields names ((λ _, SELECT_TYPE_HASH) <$> names)))
    | order =>
        let comp := order_comparator names order in
        Some (if common then (RS_Ordered (ordered_init (block_size env) comp (q_limit p)), Fields names (unless_ordered order SELECT_TYPE_DELAY <$> names))
              else (RS_DistOrd (distord_init (block_size env) comp (q_limit p)), Fields names (unless_ordered order SELECT_TYPE_HASH <$> names)))
    end.

(** Only the first selected field is looked at for a count of the whole table. *)
Definition counts_all (p : query_packet) : ptr (ptr (list Z)) :=
  match q_select_field p, q_index_cond p, q_filter_cond p with
  | [s], [], [] => if bool_decide (func_type s = FUNC_COUNT) then Ptr (select_name s) else NULL
  | _, _, _ => NULL
  end.

Definition analyze_query st name (p : query_packet) : option (list ExecuteStep) :=
  match counts_all p with
  | Ptr n => Some [CountAllStep n]
  | NULL =>
      '(rs, fs) ← query_result p;
      f ← filter_substeps st name (q_filter_cond p);
      sel ← identified st name fs;
      Some ([IndexStep (q_index_cond p) (q_hint p); MainStep (Collected rs) (f ++ [SelectSubstep sel])] ++
            (if q_access_type p =? ACCESS_TYPE_DISTINCT_COUNT then [] else [RefillStep (field_name <$> q_select_field p)]))
  end.

(** A statement on a table: its plan, executed. *)
Definition run_query st name (p : query_packet) (timeout : Z) : option (step_result * Z * exec_state S) :=
  l ← analyze_query st name p; ExecutePlan_Execute st name l timeout.
Definition run_delete st name (p : delete_packet) (timeout : Z) : option (step_result * Z * exec_state S) :=
  l ← analyze_delete st name p; ExecutePlan_Execute st name l timeout.
Definition run_update st name (p : update_packet) (timeout : Z) : option (step_result * Z * exec_state S) :=
  l ← analyze_update st name p; ExecutePlan_Execute st name l timeout.
Definition run_insert st name (row : list field) (timeout : Z) : option (step_result * Z * exec_state S) :=
  ExecutePlan_Execute st name (analyze_insert row) timeout.

(** ** Rows by their ids ([DocEngine::GetKvs]) *)

(** The results of [AddResult] are not looked at. *)
Fixpoint get_rows st name (names : list (list Z)) (ids : list Z) (rs : CommonRS) : option (ptr CommonRS) :=
  match ids with
  | [] => Some (Ptr rs)
  | id :: ids =>
      r ← db_data_query_multi_col (exec_db st) name (sid_of id) (docid_of id) names DATA_ACCESS_ORIGINAL;
      match r with
      | NULL => Some NULL
      | Ptr ds =>
          '(_, rs) ← common_add rs (SelectRow ((λ d, Cell NULL (Plain d)) <$> ds) ((λ _, SELECT_TYPE_ORIGINAL) <$> ds) (Ptr (Handler id d0)));
          get_rows st name names ids rs
      end
  end.

Definition GetKvs st name (names : list (list Z)) (ids : list Z) : option (ptr CommonRS) :=
  get_rows st name names ids (common_init (block_size env) (zlen ids)).
End execute.
