(* ===== verification/SelectSpec.v ===== *)
(** * Reading and filtering documents

    What the substeps of a query do with one document of a table whose content is
    known, and what the main step collects from all of them. *)

From Stdlib Require Import ZArith Lia.
From stdpp Require Import base option list numbers sets.
From S2P Require Import Prelude RowidList SegRowid Suffix LowData Column MileArray MileHashMap Row RowData IndexField Table Binlog Db Aggr Expression ResultSet DocTable DocScan Execute.

(** ** The rule of the main step

    The loop of the main step visits the documents that are not gone when their
    turn comes.  A property of the documents to come, the output and the state that
    every visit keeps holds at the end; a visit with a negative code ends the loop. *)

#[local] Open Scope mile_scope.

Section rule.
Context {S : Type} `{!Column S} (env : exec_env S) (name : list Z) (l : list ExecuteSubstep) (timeout : Z).
Implicit Types (st : exec_state S) (hs : list DocHandler) (out : step_output).

(** No statement takes too long, and none is cut. *)
Record unhurried : Prop := {
  uh_time : ∀ n, time_at env n ≤ timeout;
  uh_cut : cut_threshold env ≤ 0
}.

(** The clock was read once more. *)
Definition tick st : exec_state S := Exec (exec_db st) (asked st) (Datatypes.S (clock_reads st)).

Lemma late_unhurried st : unhurried → late env st timeout = (false, tick st).
Proof. intros [Ht _]. unfold late. by rewrite (proj2 (Z.ltb_ge _ _)). Qed.

Context (Hcalm : unhurried).
Context (gone : exec_state S → DocHandler → bool) (I : list DocHandler → step_output → exec_state S → Prop)
  (Stop : Z → step_output → exec_state S → Prop).

Record visits : Prop := {
  vi_tick : ∀ hs out st, I hs out st → I hs out (tick st);
  vi_knows : ∀ hs out st, I hs out st → Forall (knows (exec_db st) name (gone st)) hs;
  vi_skip : ∀ h hs out st, I (h :: hs) out st → gone st h = true → I hs out st;
  vi_step : ∀ h hs out st rc, I (h :: hs) out st → gone st h = false →
    ∃ rc' out' st', execute_substeps env st name h l rc out = Some (rc', out', st') ∧
      if rc' <? 0 then Stop rc' out' st' else I hs out' st'
}.

Lemma visits_skip hs out st : visits → I hs out st → I (skip (gone st) hs) out st.
Proof.
  intros Hv. induction hs as [|h hs IH]; intros H; [done|]. cbn [skip]. destruct (gone st h) eqn:E; [|done].
  apply IH. by apply (vi_skip Hv h).
Qed.

Lemma skip_length gone' hs : (length (skip gone' hs) ≤ length hs)%nat.
Proof. induction hs as [|h hs IH]; [done|]. cbn [skip length]. destruct (gone' h); simpl; lia. Qed.

(** The list starts with a document that is there. *)
Definition starts st hs : Prop := match hs with [] => True | h :: _ => gone st h = false end.

Lemma skip_starts st hs : starts st (skip (gone st) hs).
Proof. induction hs as [|h hs IH]; [done|]. cbn [skip]. by destruct (gone st h) eqn:E. Qed.

Lemma main_loop_rule fuel st it hs i rc out :
  visits → at_item it hs → starts st hs → I hs out st → (length hs ≤ fuel)%nat → (length hs ≤ loop_fuel env)%nat → 0 ≤ rc →
  ∃ rc' out' st', main_loop env fuel st name l timeout it i rc out = Some (rc', out', st') ∧
    (0 ≤ rc' ∧ I [] out' st' ∨ rc' < 0 ∧ Stop rc' out' st').
Proof.
  intros Hv. revert st it hs i rc out. induction fuel as [|fuel IH]; intros st it hs i rc out Hit Hst Hinv Hf Hlf Hrc;
    (destruct hs as [|h hs]; [exists rc, out, st; split; [cbn [main_loop]; by rewrite (at_item_done it)|by left]|]).
  { simpl in Hf. lia. }
  destruct (current_spec it h hs Hit) as [Ec Ed]. destruct (vi_step Hv h hs out st rc Hinv Hst) as (rc1 & out1 & st1 & E & Hnext).
  cbn [main_loop]. rewrite Ed, Ec. cbn [mbind option_bind]. rewrite E. cbn [mbind option_bind].
  destruct (Z.ltb_spec rc1 0) as [H1|H1]; [by exists rc1, out1, st1; auto|]. cbv zeta.
  rewrite late_unhurried by done. set (st2 := if u32 (i + 1) `mod` 100 =? 0 then tick st1 else st1).
  assert (I hs out1 st2) as H2 by (unfold st2; destruct (_ =? 0); [by apply (vi_tick Hv)|done]).
  assert ((if u32 (i + 1) `mod` 100 =? 0 then (false, tick st1) else (false, st1)) = (false, st2)) as ->
    by (unfold st2; by destruct (_ =? 0)).
  rewrite (proj2 (Z.ltb_ge 0 _)) by apply Hcalm. cbn [andb].
  destruct (Next_spec (exec_db st2) name (gone st2) (loop_fuel env) it h hs Hit) as (it' & -> & Hit'); [by apply (vi_knows Hv hs out1)|simpl in Hlf; lia|].
  cbn [mbind option_bind]. pose proof (skip_length (gone st2) hs). simpl in Hf, Hlf.
  apply (IH st2 it' (skip (gone st2) hs)); [done|apply skip_starts|by apply visits_skip|lia..].
Qed.

Lemma main_step_rule st sl pos node out rc :
  visits → segments_ok sl → I (items sl) out st → (length (items sl) ≤ loop_fuel env)%nat → 0 ≤ rc →
  ∃ rc' out' st', (0 ≤ rc' ∧ I [] out' st' ∨ rc' < 0 ∧ Stop rc' out' st') ∧
    main_step env st name out l timeout (Iterator (DocIter sl None pos node)) rc
    = (r ← result_of out'; Some (r, if (rc' =? WARN_EXCEED_QUERY_LIMIT) || (0 <=? rc') then 0 else rc', st')).
Proof.
  intros Hv Hok Hinv Hf Hrc. cbn [main_step].
  destruct (First_spec (exec_db st) name (gone st) (loop_fuel env) sl pos node Hok) as (it & -> & Hit); [by apply (vi_knows Hv _ out)|done|].
  cbn [mbind option_bind]. pose proof (skip_length (gone st) (items sl)).
  destruct (main_loop_rule (loop_fuel env) st it (skip (gone st) (items sl)) 0 rc out) as (rc' & out' & st' & -> & H');
    [done|done|apply skip_starts|by apply visits_skip|lia..|].
  exists rc', out', st'. split; [done|]. done.
Qed.
End rule.

From S2P Require Import Prelude RowidList SegRowid Suffix LowData Compare Column MileArray MileHashMap Row RowData IndexField Table TableSpec Binlog Db Aggr Expression ResultSet ResultSetSpec DocTable DocScan Execute.

(** ** Document ids *)

(** The segment and the number in it are read back from the id. *)
Lemma full_docid_parts s d : 0 ≤ s < 2 ^ 16 → 0 ≤ d < 2 ^ 32 → sid_of (full_docid s d) = s ∧ docid_of (full_docid s d) = d.
Proof.
  intros Hs Hd. unfold full_docid, sid_of, docid_of. rewrite Z.shiftl_mul_pow2 by lia.
  unfold u64. rewrite (Z.mod_small (s * 2 ^ 32 + d)) by lia. split.
  - rewrite Z.shiftr_div_pow2, Z.div_add_l, Z.div_small, Z.add_0_r by lia. unfold u16. by apply Z.mod_small.
  - unfold u32. rewrite Z.add_comm, Z.mod_add by lia. by apply Z.mod_small.
Qed.

Section number.
Context (N : Z) (ts : table_state).

(** The place of the document in the table. *)
Definition doc_number (h : DocHandler) : Z := sid_of (docid h) * N + docid_of (docid h).
Definition here (h : DocHandler) : Prop := docid_of (docid h) < N ∧ doc_number h < zlen (trows ts).
Definition fields_at (h : DocHandler) : list field := default [] ((trows ts)⟦doc_number h⟧).
Definition gone_at (h : DocHandler) : bool := tgone ts (doc_number h).

Lemma here_place h : 0 < N → here h →
  sid_of (docid h) = doc_number h / N ∧ docid_of (docid h) = doc_number h `mod` N ∧ 0 ≤ doc_number h < zlen (trows ts).
Proof.
  intros HN [Hd Hn]. unfold doc_number in *. assert (0 ≤ docid_of (docid h)) by apply u32_bounds.
  assert (0 ≤ sid_of (docid h)) by (apply Z.mod_pos_bound; lia).
  rewrite Z.div_add_l, Z.div_small by lia. rewrite (Z.add_comm (_ * N)), Z.mod_add, Z.mod_small by lia. lia.
Qed.
End number.

(** ** The table behind the database *)

Section view.
Context {S : Type} `{!Column S} (N : Z) (HN : 0 < N) (db : db_manager S) (name : list Z) (ts : table_state).

(** The database shows the rows of the table; no column has a filter index. *)
Record table_view : Prop := {
  tv_deleted n : 0 ≤ n < zlen (trows ts) → db_is_docid_deleted db name (n / N) (n `mod` N) = Some (if tgone ts n then 1 else 0);
  tv_row n fs names : (trows ts)⟦n⟧ = Some fs → zlen names < 2 ^ 16 →
    db_data_query_multi_col db name (n / N) (n `mod` N) names DATA_ACCESS_ORIGINAL = Some (Ptr (column_of_row fs <$> names));
  tv_access col : db_get_data_access_type db name col = Some FIELD_ACCESS_ORIGINAL
}.

Context (Hview : table_view).

Lemma knows_here h : here N ts h → knows db name (gone_at N ts) h.
Proof. intros H. destruct (here_place N ts h HN H) as (Es & Ed & Hr). unfold knows. rewrite Es, Ed. by apply tv_deleted. Qed.

(** *** Rows *)

Definition cell_of (fs : list field) (n : list Z) : row_cell := Cell (Ptr n) (Plain (column_of_row fs n)).
Definition read_row (fs : list field) (names : list (list Z)) (h : ptr DocHandler) : select_row_t :=
  SelectRow (cell_of fs <$> names) ((λ _, SELECT_TYPE_ORIGINAL) <$> names) h.

Definition original_way (names : list (list Z)) : access_way_t :=
  AccessWay names ((λ _, SELECT_TYPE_ORIGINAL) <$> names) DATA_ACCESS_ORIGINAL.

Lemma read_cells fs names h : MATCHSCORE ∉ names →
  zip_with (set_matchscore h) names (zip_with (λ n d, (Cell (Ptr n) (Plain d), SELECT_TYPE_ORIGINAL)) names (column_of_row fs <$> names))
  = (λ n, (cell_of fs n, SELECT_TYPE_ORIGINAL)) <$> names.
Proof.
  intros Hm. induction names as [|n names IH]; [done|]. apply not_elem_of_cons in Hm as [Hn Hm]. cbn [fmap list_fmap zip_with].
  rewrite IH by done. unfold set_matchscore at 1. by rewrite bool_decide_false.
Qed.

Lemma QueryRow_spec h names tys :
  here N ts h → MATCHSCORE ∉ names → zlen names < 2 ^ 16 →
  QueryRow db name h (Fields names tys) (Ptr (original_way names)) = Some (Ptr (read_row (fields_at N ts h) names NULL)).
Proof.
  intros H Hm Hz. destruct (here_place N ts h HN H) as (Es & Ed & Hr). unfold QueryRow. rewrite Es, Ed.
  destruct (zget_lt (trows ts) (doc_number N h) Hr) as [fs Hfs]. cbn [original_way actual_fields_name access_type fields_name].
  rewrite (tv_row Hview _ fs) by done. cbn [mbind option_bind]. rewrite zlen_fmap, Z.ltb_irrefl. cbn [mbind option_bind].
  unfold fields_at. rewrite Hfs. cbn [default option.from_option id]. rewrite read_cells by done.
  unfold read_row. do 2 f_equal. rewrite <- !list_fmap_compose. done.
Qed.

(** A field that is not left for later has the whole row read. *)
Lemma identify_spec names tys :
  MATCHSCORE ∉ names → length names = length tys → Exists (λ t, t ≠ SELECT_TYPE_DELAY) tys →
  ∃ ns ts', identify db name names tys = Some (ns, ts', tys, true).
Proof.
  revert tys. induction names as [|n names IH]; intros tys Hm Hl He; destruct tys as [|t tys]; try done; [by apply Exists_nil in He|].
  apply not_elem_of_cons in Hm as [Hn Hm]. cbn [identify]. rewrite (bool_decide_false (n = MATCHSCORE)) by done.
  case_bool_decide as Ht.
  - apply Exists_cons in He as [He|He]; [done|]. destruct (IH tys Hm ltac:(simpl in Hl; lia) He) as (ns & ts' & ->). by exists ns, ts'.
  - rewrite (tv_access Hview). by exists [], [].
Qed.

Lemma identified_spec (st : exec_state S) names tys :
  exec_db st = db → MATCHSCORE ∉ names → length names = length tys → Exists (λ t, t ≠ SELECT_TYPE_DELAY) tys →
  identified st name (Fields names tys) = Some (Fields names tys, Ptr (original_way names)).
Proof.
  intros Hst Hm Hl He. unfold identified, IdentifyQueryWay. rewrite Hst. cbn [fields_name fields_type].
  destruct (identify_spec names tys Hm Hl He) as (ns & ts' & ->). done.
Qed.
End view.

(** ** Where clauses *)

Section clause.
Context (get_hash_value : low_data_struct → Z).

(** The constants of the clause can be compared with the values [val]. *)
Fixpoint suits (e : where_expr) (val : list Z → low_data_struct) : Prop :=
  match e with
  | Test n cmp vals => ∃ t k, comparable t (val n) ∧ Forall (comparable t) vals ∧ arity cmp = Some k ∧ (k ≤ length vals)%nat
  | Both a b | Either a b => suits a val ∧ suits b val
  end.

(** The columns that are tested. *)
Fixpoint tested (e : where_expr) : list (list Z) :=
  match e with Test n _ _ => [n] | Both a b | Either a b => tested a ++ tested b end.

Lemma tested_some e : ∃ n, n ∈ tested e.
Proof.
  induction e as [n ? ?|a [n Ha] b _|a [n Ha] b _]; exists n; cbn [tested]; [by apply list_elem_of_singleton|apply elem_of_app; by left..].
Qed.

Lemma noted_names e fs n : n ∈ fields_name (noted e fs) ↔ n ∈ fields_name fs ∨ n ∈ tested e.
Proof.
  revert fs. induction e as [m cmp vals|a IHa b IHb|a IHa b IHb]; intros fs; cbn [noted tested].
  - case_bool_decide; [|cbn [fields_name]]; set_solver.
  - rewrite IHb, IHa. set_solver.
  - rewrite IHb, IHa. set_solver.
Qed.

Definition typed_fields (fs : select_fields_t) : Prop :=
  length (fields_name fs) = length (fields_type fs) ∧ Forall (λ t, t ≠ SELECT_TYPE_DELAY) (fields_type fs).

Lemma noted_typed e fs : typed_fields fs → typed_fields (noted e fs).
Proof.
  revert fs. induction e as [m cmp vals|a IHa b IHb|a IHa b IHb]; intros fs Hf; cbn [noted]; [|auto..].
  case_bool_decide; [done|]. destruct Hf as [Hl Ht]. split; cbn [fields_name fields_type]; [rewrite !length_app; simpl; lia|].
  apply Forall_app. split; [done|]. repeat constructor. by destruct (compares_hashes cmp).
Qed.

Lemma find_cell_spec fs names n :
  n ∈ names → find_cell n (cell_of fs <$> names) ((λ _, SELECT_TYPE_ORIGINAL) <$> names) = Some (Some (column_of_row fs n, SELECT_TYPE_ORIGINAL)).
Proof.
  induction names as [|m names IH]; intros Hn; [by apply elem_of_nil in Hn|]. cbn [fmap list_fmap find_cell cell_of cell_name].
  case_bool_decide as E; [by subst|]. apply elem_of_cons in Hn as [Hn|Hn]; [done|]. by apply IH.
Qed.

Lemma suits_fits e fs names h :
  suits e (column_of_row fs) → (∀ n, n ∈ tested e → n ∈ names) → fits e (read_row fs names h) (column_of_row fs).
Proof.
  induction e as [m cmp vals|a IHa b IHb|a IHa b IHb]; cbn [suits tested fits]; intros Hs Hn.
  - split; [|done]. apply find_cell_spec. apply Hn. by apply list_elem_of_singleton.
  - destruct Hs. split; [apply IHa|apply IHb]; try done; intros n Hin; apply Hn; set_solver.
  - destruct Hs. split; [apply IHa|apply IHb]; try done; intros n Hin; apply Hn; set_solver.
Qed.
End clause.

(** No clause is satisfied by every row. *)
Definition cond_of (w : option where_expr) : list filter_condition := match w with None => [] | Some e => rpn e end.
Definition passes (w : option where_expr) (fs : list field) : bool :=
  match w with None => true | Some e => holds e (column_of_row fs) end.
Definition clause_ok (w : option where_expr) (fs : list field) : Prop :=
  match w with None => True | Some e => suits e (column_of_row fs) end.
Definition clause_tests (w : option where_expr) : nat := match w with None => 0 | Some e => tests e end.
Definition clause_names (w : option where_expr) : list (list Z) := match w with None => [] | Some e => tested e end.

Lemma rpn_cons e : ∃ c cs, rpn e = c :: cs.
Proof. destruct (rpn e) as [|c cs] eqn:E; [|by eexists _, _]. pose proof (length_rpn e) as H. rewrite E in H. destruct e; simpl in H; lia. Qed.

(** ** The main step of a query *)

Lemma collect_app pool rs a b :
  collect pool rs (a ++ b) = '(rc, rs) ← collect pool rs a; if rc <? 0 then Some (rc, rs) else collect pool rs b.
Proof.
  revert rs. induction a as [|r a IH]; intros rs; [done|]. cbn [app collect]. destruct (AddResult pool rs r) as [[rc rs1]|]; [|done].
  cbn [mbind option_bind]. destruct (rc <? 0) eqn:E; [cbn [mbind option_bind]; by rewrite E|]. by rewrite IH.
Qed.

Section keep.
Context {S : Type} `{!Column S} (env : exec_env S) (N : Z) (db : db_manager S) (name : list Z) (ts : table_state) (w : option where_expr).

(** The document is there and satisfies the clause. *)
Definition keep (h : DocHandler) : Prop := gone_at N ts h = false ∧ passes w (fields_at N ts h) = true.
#[export] Instance keep_dec h : Decision (keep h).
Proof. unfold keep. apply _. Defined.

(** The substeps of the filter go on exactly when the clause holds. *)
Definition filters (f : list ExecuteSubstep) : Prop :=
  ∀ st h s rest rc out, exec_db st = db → here N ts h → clause_ok w (fields_at N ts h) →
    execute_substeps env st name h (f ++ s :: rest) rc out
    = if passes w (fields_at N ts h) then execute_substeps env st name h (s :: rest) 0 out else Some (1, out, st).
End keep.

Section main.
Context {S : Type} `{!Column S} (env : exec_env S) (N : Z) (HN : 0 < N) (db : db_manager S) (name : list Z) (ts : table_state).
Context (Hview : table_view N db name ts).
Context (w : option where_expr) (timeout : Z).
Context (Hw_names : MATCHSCORE ∉ clause_names w) (Hw_size : Z.of_nat (clause_tests w) < 2 ^ 16).
Implicit Types (st : exec_state S) (h : DocHandler) (hs : list DocHandler).
Abbreviation keep := (keep N ts w).

(** The filter works for every content of the table. *)
Lemma filter_step st : exec_db st = db →
  ∃ f, filter_substeps env st name (cond_of w) = Some f ∧ ∀ db' ts', table_view N db' name ts' → filters env N db' name ts' w f.
Proof.
  intros Hst. unfold filters. destruct w as [e|]; cbn [cond_of clause_names clause_tests] in *; [|exists []; by split].
  destruct (rpn_cons e) as (c & cs & Ec). unfold filter_substeps. rewrite Ec, <- Ec. unfold AnalyzeCondition. rewrite GenExp_rpn.
  cbn [mbind option_bind]. set (fs := noted e (Fields [] [])).
  assert (typed_fields fs) as [Hlen Htys] by (apply noted_typed; by split; [|constructor]).
  assert (∀ n, n ∈ fields_name fs ↔ n ∈ tested e) as Hin by (intros n; unfold fs; rewrite noted_names; cbn [fields_name]; set_solver).
  assert (MATCHSCORE ∉ fields_name fs) as Hms by (by rewrite Hin).
  assert (zlen (fields_name fs) < 2 ^ 16) as Hz.
  { pose proof (noted_length e (Fields [] [])) as Hl. fold fs in Hl. cbn [fields_name] in Hl. change (zlen []) with 0 in Hl. lia. }
  assert (Exists (λ t, t ≠ SELECT_TYPE_DELAY) (fields_type fs)) as Hex.
  { destruct (fields_type fs) as [|t tys] eqn:Et; [|constructor; by apply Forall_cons in Htys as [? _]]. exfalso.
    destruct (tested_some e) as [n Hn]. apply Hin in Hn. destruct (fields_name fs); [by apply elem_of_nil in Hn|done]. }
  pose proof (identified_spec N db name ts Hview st (fields_name fs) (fields_type fs) Hst Hms Hlen Hex) as Hid.
  replace (Fields (fields_name fs) (fields_type fs)) with fs in Hid by (by destruct fs). rewrite Hid. cbn [mbind option_bind].
  eexists. split; [done|]. intros db' ts' Hview' st' h s rest rc out Hst' Hh Hok. cbn [clause_ok] in Hok. cbn [app execute_substeps execute_substep].
  unfold query_row. rewrite Hst'. cbn [fst snd].
  replace fs with (Fields (fields_name fs) (fields_type fs)) by (by destruct fs). cbn [fields_name fields_type].
  rewrite (QueryRow_spec N HN db' name ts' Hview') by done. cbn [mbind option_bind].
  rewrite (execute_spec _ e _ (column_of_row (fields_at N ts' h))) by (apply suits_fits; [done|]; intros n; by rewrite Hin).
  cbn [mbind option_bind passes]. destruct (holds e _); done.
Qed.

(** *** The rows that are selected *)

Context (names : list (list Z)) (tys : list select_types_t) (Hn_names : MATCHSCORE ∉ names) (Hn_size : zlen names < 2 ^ 16).

Definition select_row h : select_row_t := read_row (fields_at N ts h) names (Ptr h).

Lemma select_step st h rc rs : exec_db st = db → here N ts h →
  execute_substeps env st name h [SelectSubstep (Fields names tys, Ptr (original_way names))] rc (Collected rs)
  = '(rc, rs) ← AddResult (block_size env) rs (select_row h); Some (rc, Collected rs, st).
Proof.
  intros Hst Hh. cbn [execute_substeps execute_substep]. unfold query_row. rewrite Hst. cbn [fst snd].
  rewrite (QueryRow_spec N HN db name ts Hview) by done. cbn [mbind option_bind].
  change (with_handler (read_row (fields_at N ts h) names NULL) h) with (select_row h).
  destruct (AddResult _ _ _) as [[rc' rs']|]; [|done]. cbn [mbind option_bind]. by destruct (rc' =? 0).
Qed.

(** The documents [all] are visited; the rows of those that are kept are collected. *)
Context (all : list DocHandler) (rs0 : ResultSet) (a : nat).

Definition collected (hs : list DocHandler) (rc : Z) (rs : ResultSet) : Prop :=
  collect (block_size env) rs0 (select_row <$> filter keep hs) = Some (rc, rs).

Definition select_inv hs (out : step_output) st : Prop :=
  exec_db st = db ∧ asked st = a ∧ ∃ visited rs, all = visited ++ hs ∧ out = Collected rs ∧ collected visited 0 rs.
Definition select_stop (rc : Z) (out : step_output) st : Prop :=
  exec_db st = db ∧ asked st = a ∧ ∃ rs, out = Collected rs ∧ collected all rc rs.

Lemma select_visits f rc rs :
  filters env N db name ts w f → Forall (here N ts) all → Forall (λ h, clause_ok w (fields_at N ts h)) all → collected all rc rs →
  visits env name (f ++ [SelectSubstep (Fields names tys, Ptr (original_way names))]) (λ _, gone_at N ts) select_inv select_stop.
Proof.
  intros Hf Hall Hok Hrs. split.
  - intros hs out st (Hd & Ha & H). by split.
  - intros hs out st (Hd & _ & v & rs1 & E & _). rewrite Hd. rewrite E in Hall. apply Forall_app in Hall as [_ Hhs].
    eapply Forall_impl; [exact Hhs|]. intros h Hh. by apply (knows_here N HN db name ts).
  - intros h hs out st (Hd & Ha & v & rs1 & E & Eo & Hc) Hg. split_and!; [done..|]. exists (v ++ [h]), rs1. rewrite <- app_assoc. split_and!; [done..|].
    unfold collected in *. rewrite filter_app, filter_cons, decide_False, filter_nil, app_nil_r by (unfold keep; rewrite Hg; by intros []). done.
  - intros h hs out st rc1 (Hd & Ha & v & rs1 & E & -> & Hc) Hg. rewrite E in Hall, Hok, Hrs.
    apply Forall_app in Hall as [_ [Hh _]%Forall_cons]. apply Forall_app in Hok as [_ [Hw _]%Forall_cons].
    rewrite Hf by done. unfold collected in Hc, Hrs. destruct (passes w (fields_at N ts h)) eqn:Ep.
    + rewrite select_step by done. assert (keep h) as Hk by done.
      rewrite filter_app, filter_cons, decide_True, fmap_app, collect_app, Hc in Hrs by done. cbn [mbind option_bind fmap list_fmap collect] in Hrs.
      change (0 <? 0) with false in Hrs. cbv iota in Hrs. destruct (AddResult _ _ _) as [[rc2 rs2]|] eqn:Ea; [|done]. cbn [mbind option_bind] in Hrs |- *.
      exists rc2, (Collected rs2), st. split; [done|]. destruct (rc2 <? 0) eqn:Elt.
      * split_and!; [done..|]. exists rs2. split; [done|]. unfold collected. rewrite E, filter_app, filter_cons, decide_True, fmap_app, collect_app, Hc by done.
        cbn [mbind option_bind fmap list_fmap collect]. change (0 <? 0) with false. cbv iota. rewrite Ea. cbn [mbind option_bind]. by rewrite Elt.
      * split_and!; [done..|]. exists (v ++ [h]), rs2. rewrite <- app_assoc. split_and!; [done..|].
        unfold collected. rewrite filter_app, filter_cons, decide_True, filter_nil, fmap_app, collect_app, Hc by done.
        cbn [mbind option_bind fmap list_fmap collect]. change (0 <? 0) with false. cbv iota. rewrite Ea. cbn [mbind option_bind]. by rewrite Elt.
    + exists 1, (Collected rs1), st. split; [done|]. change (1 <? 0) with false. cbv iota. split_and!; [done..|].
      exists (v ++ [h]), rs1. rewrite <- app_assoc. split_and!; [done..|]. unfold collected.
      rewrite filter_app, filter_cons, decide_False, filter_nil, app_nil_r by (unfold keep; rewrite Ep; by intros []). done.
Qed.
End main.
