(* ===== verification/QuerySpec.v ===== *)
(** * Queries from the statement to the rows

    The analysis of a query without functions makes a plan whose result set fits
    the order and the kind of access; with the steps executed, the result is what
    the documents of the iterator ask for. *)

From Stdlib Require Import ZArith Lia.
From stdpp Require Import base option list numbers sets.
From S2P Require Import Prelude RowidList SegRowid Suffix LowData Compare Column MileArray MileHashMap Row RowData IndexField Table TableSpec Binlog Db Aggr Expression ResultSet ResultSetSpec DocTable DocScan Execute SelectSpec.

#[local] Open Scope mile_scope.

(** ** Answers *)

(** What a query shows of the rows that satisfy it: the first rows, the first
    different rows, the smallest rows, the smallest different rows. *)
Definition answer (cols : list (Z * order_types * field_types)) (common : bool) (limit : Z) (rows shown : list select_row_t) : Prop :=
  match cols, common with
  | [], true => shown = limited limit rows
  | [], false => shown ≡ₚ limited limit (firsts rows)
  | _, true => smallest (order_compare (Row.comparator cols)) limit shown rows
  | _, false => smallest (order_compare (Row.comparator cols)) limit shown (firsts rows)
  end.

Lemma limited_elem {A} limit (l : list A) x : x ∈ limited limit l → x ∈ l.
Proof. unfold limited. destruct (limit =? 0); [done|]. intros Hx. eapply elem_of_submseteq; [exact Hx|]. apply sublist_submseteq, sublist_take. Qed.

Lemma firsts_elem (l : list select_row_t) r : r ∈ firsts l → r ∈ l.
Proof.
  induction l as [|x l IH] using rev_ind; [done|]. rewrite firsts_app. unfold add_first. case_decide; set_solver.
Qed.

Lemma smallest_elem {A} (comp : A → A → option Z) limit kept seen x : smallest comp limit kept seen → x ∈ kept → x ∈ seen.
Proof. intros (dropped & Hp & _) Hx. rewrite <- Hp. apply elem_of_app. by left. Qed.

(** Only rows that satisfy the query are shown. *)
Lemma answer_elem cols common limit rows shown r : answer cols common limit rows shown → r ∈ shown → r ∈ rows.
Proof.
  unfold answer. destruct cols, common; intros H Hr.
  - subst. by eapply limited_elem.
  - rewrite H in Hr. by eapply firsts_elem, limited_elem.
  - by eapply smallest_elem.
  - by eapply firsts_elem, smallest_elem.
Qed.

(** ** The result set of a query *)

(** No groups and no functions: the selected columns are [names]. *)
Record plain_query (p : query_packet) (names : list (list Z)) : Prop := {
  pq_group : q_group_array p = [];
  pq_select : Forall2 (λ s n, field_name s = Ptr n ∧ field_type s ≠ FUNCTION_SELECT ∧ func_type s ≠ FUNC_COUNT) (q_select_field p) names;
  pq_limit : 0 ≤ q_limit p
}.

Lemma plain_names p names : plain_query p names → select_names (q_select_field p) = Some names.
Proof.
  intros [_ H _]. unfold select_names. induction H as [|s n sels names (E & _) _ IH]; [done|]. cbn [mapM]. rewrite E.
  cbn [mbind option_bind]. by rewrite IH.
Qed.

Lemma plain_functions p names : plain_query p names → is_query_contain_func (q_select_field p) = false ∧ counts_all p = NULL.
Proof.
  intros [_ H _]. split.
  - unfold is_query_contain_func. induction H as [|s n sels names (_ & E & _) _ IH]; [done|]. cbn [existsb]. by rewrite bool_decide_false.
  - unfold counts_all. destruct H as [|s n sels names (_ & _ & E) H]; [done|]. destruct sels; [|done].
    destruct (q_index_cond p), (q_filter_cond p); try done. by rewrite bool_decide_false.
Qed.

Section result.
Context {S : Type} `{!Column S} (env : exec_env S).

Lemma unless_ordered_some order t (names : list (list Z)) n :
  n ∈ names → n ∈ order.*1 → Exists (λ t, t ≠ SELECT_TYPE_DELAY) (unless_ordered order t <$> names).
Proof.
  intros Hn Ho. apply Exists_exists. exists SELECT_TYPE_ORIGINAL. split; [|done].
  apply list_elem_of_fmap. exists n. split; [|done]. unfold unless_ordered. by rewrite bool_decide_true.
Qed.

Lemma index_of_in (n : list Z) (names : list (list Z)) i : Row.index_of n names = Some i → n ∈ names.
Proof.
  unfold Row.index_of. destruct (list_find (λ x, x = n) names) as [[j x]|] eqn:E; [|done]. intros _.
  apply list_find_Some in E as (E & -> & _). by eapply list_elem_of_lookup_2.
Qed.

(** The result set of a query collects its answer. *)
Lemma plain_result p names cols :
  plain_query p names → names ≠ [] → order_comparator names (q_order_array p) = Row.comparator cols →
  ∃ rs tys, query_result env p = Some (rs, Fields names tys) ∧ length names = length tys ∧ Exists (λ t, t ≠ SELECT_TYPE_DELAY) tys ∧
    ∀ rows, Forall (orderable cols) rows → 2 * PTR_SIZE * zlen rows ≤ block_size env → zlen rows < 2 ^ 31 →
      ∃ rc rs' shown, collect (block_size env) rs rows = Some (rc, rs') ∧ (rc = 0 ∨ rc = WARN_EXCEED_QUERY_LIMIT) ∧
        result_rows rs' = Some shown ∧ result_size rs' = zlen shown ∧
        answer cols (q_access_type p =? ACCESS_TYPE_COMMON) (q_limit p) rows shown.
Proof.
  intros Hp Hne Hcols. unfold query_result. rewrite (pq_group _ _ Hp), (proj1 (plain_functions p names Hp)), (plain_names p names Hp).
  cbn [mbind option_bind]. rewrite (bool_decide_true ([] = [])) by done. cbn [negb orb].
  pose proof (pq_limit _ _ Hp) as Hl.
  destruct (q_order_array p) as [|o order] eqn:Eo.
  - destruct cols as [|c cols]; [|done]. destruct (q_access_type p =? ACCESS_TYPE_COMMON); eexists _, _; (split; [done|]);
      (split; [by rewrite length_fmap|]); (split; [destruct names; [done|by constructor]|]); intros rows Hok Hpool Hn;
      (assert (Forall plain_row rows) as Hpl by (eapply Forall_impl; [exact Hok|]; by intros r [? _])).
    + destruct (common_collect (block_size env) (q_limit p) rows Hl Hpl Hpool) as (rc & rs & ? & ? & ? & ?). by exists rc, rs, (limited (q_limit p) rows).
    + destruct (distinct_collect (block_size env) (q_limit p) rows Hl Hpl Hn) as (rc & rs & shown & ? & ? & ? & ? & ?). by exists rc, rs, shown.
  - destruct cols as [|[[i ot] ft] cols]; [done|].
    assert (o.1 ∈ names) as Ho by (injection Hcols as Hi _ _; by eapply index_of_in).
    destruct (q_access_type p =? ACCESS_TYPE_COMMON); eexists _, _; (split; [done|]);
      (split; [by rewrite length_fmap|]); (split; [apply (unless_ordered_some _ _ _ o.1); [done|by left]|]); intros rows Hok Hpool Hn; rewrite Hcols.
    + destruct (ordered_collect ((i, ot, ft) :: cols) (block_size env) (q_limit p) rows Hl Hok Hpool) as (rc & rs & kept & ? & ? & ? & ? & ?).
      by exists rc, rs, kept.
    + destruct (distord_collect ((i, ot, ft) :: cols) (block_size env) (q_limit p) rows Hl Hok Hpool ltac:(lia)) as (rc & rs & kept & ? & ? & ? & ? & ?).
      by exists rc, rs, kept.
Qed.

(** *** The last steps *)

Lemma refill_columns_original fields tys i : Forall (λ t, t = SELECT_TYPE_ORIGINAL) tys → refill_columns fields tys i = Some [].
Proof.
  intros H. revert fields i. induction H as [|t tys -> _ IH]; intros fields i; [done|]. cbn [refill_columns]. rewrite bool_decide_true by done. apply IH.
Qed.

(** Rows that were read whole stay as they are. *)
Lemma refill_original (st : exec_state S) name fields size rows rc :
  Forall (λ r, Forall (λ t, t = SELECT_TYPE_ORIGINAL) (select_type r)) rows →
  refill_step st name fields (ResultRows size rows) rc = Some (ResultRows size rows, rc, st).
Proof.
  intros H. cbn [refill_step]. destruct H as [|r rows Hr H]; [done|]. by rewrite refill_columns_original.
Qed.
End result.

(** ** The whole query *)

Section run.
Context {S : Type} `{!Column S} (env : exec_env S) (N : Z) (HN : 0 < N) (db : db_manager S) (name : list Z) (ts : table_state).
Context (Hview : table_view N db name ts).
Context (w : option where_expr) (timeout : Z) (Hcalm : unhurried env timeout).
Context (Hw_names : MATCHSCORE ∉ clause_names w) (Hw_size : Z.of_nat (clause_tests w) < 2 ^ 16).
Context (names : list (list Z)) (Hn_names : MATCHSCORE ∉ names) (Hn_size : zlen names < 2 ^ 16).
Implicit Types (st : exec_state S) (sl : segment_list).

Abbreviation keep := (keep N ts w).
Abbreviation select_row := (select_row N ts names).

(** The documents can be visited. *)
Record visitable (sl : segment_list) : Prop := {
  vs_ok : segments_ok sl;
  vs_here : Forall (here N ts) (items sl);
  vs_clause : Forall (λ h, clause_ok w (fields_at N ts h)) (items sl);
  vs_fuel : (length (items sl) ≤ loop_fuel env)%nat;
  vs_pool : 2 * PTR_SIZE * zlen (items sl) ≤ block_size env;
  vs_number : zlen (items sl) < 2 ^ 31
}.

Lemma main_select st f tys rs0 rc rs shown sl pos node :
  exec_db st = db → filters env N db name ts w f → visitable sl →
  collected env N ts w names rs0 (items sl) rc rs → (rc = 0 ∨ rc = WARN_EXCEED_QUERY_LIMIT) → result_rows rs = Some shown →
  ∃ st', main_step env st name (Collected rs0) (f ++ [SelectSubstep (Fields names tys, Ptr (original_way names))]) timeout
      (Iterator (DocIter sl None pos node)) 0 = Some (ResultRows (result_size rs) shown, 0, st') ∧ exec_db st' = db.
Proof.
  intros Hst Hf [] Hc Hrc Hrows.
  destruct (main_step_rule env name (f ++ [SelectSubstep (Fields names tys, Ptr (original_way names))]) timeout Hcalm (λ _, gone_at N ts)
    (select_inv env N db ts w names (items sl) rs0 (asked st)) (select_stop env N db ts w names (items sl) rs0 (asked st)) st sl pos node (Collected rs0) 0)
    as (rc' & out' & st' & H & ->); try done.
  - by eapply select_visits.
  - split_and!; [done..|]. by exists [], rs0.
  - exists st'. destruct H as [[Hrc' (Hd & _ & v & rs1 & E & -> & Hv)]|[Hrc' (Hd & _ & rs1 & -> & Hv)]]; (split; [|done]).
    + rewrite app_nil_r in E. subst v. unfold collected in *. rewrite Hc in Hv. injection Hv as -> ->. cbn [result_of].
      rewrite Hrows. cbn [mbind option_bind]. by rewrite (proj2 (Z.leb_le 0 rc')), orb_true_r by done.
    + unfold collected in *. rewrite Hc in Hv. injection Hv as -> ->. cbn [result_of]. rewrite Hrows. cbn [mbind option_bind].
      destruct Hrc as [-> | ->]; done.
Qed.

Lemma selected_original rows : (∀ r, r ∈ rows → ∃ h, r = select_row h) → Forall (λ r, Forall (λ t, t = SELECT_TYPE_ORIGINAL) (select_type r)) rows.
Proof.
  intros H. apply Forall_forall. intros r Hr. destruct (H r Hr) as [h ->]. cbn [SelectSpec.select_row read_row select_type].
  apply Forall_fmap, Forall_true. done.
Qed.

(** What the result set collects from the documents of the index step is returned. *)
Lemma run_collected st st1 p rs0 tys rc rs shown sl node :
  exec_db st = db → counts_all p = NULL → query_result env p = Some (rs0, Fields names tys) →
  length names = length tys → Exists (λ t, t ≠ SELECT_TYPE_DELAY) tys → q_filter_cond p = cond_of w →
  index_step env st name (q_index_cond p) (q_hint p) = Some (Iterator (DocIter sl None 0 node), 0, st1) → exec_db st1 = db → visitable sl →
  collected env N ts w names rs0 (items sl) rc rs → (rc = 0 ∨ rc = WARN_EXCEED_QUERY_LIMIT) → result_rows rs = Some shown →
  Forall (λ r, Forall (λ t, t = SELECT_TYPE_ORIGINAL) (select_type r)) shown →
  ∃ st', run_query env st name p timeout = Some (ResultRows (result_size rs) shown, 0, st') ∧ exec_db st' = db.
Proof.
  intros Hst Hall Hq Hlen Hex Hw Hix Hst1 Hv Hc Hrc Hrows Hty.
  destruct (filter_step env N HN db name ts Hview w Hw_names Hw_size st Hst) as (f & Hf & Hfs). specialize (Hfs db ts Hview).
  unfold run_query, analyze_query. rewrite Hall, Hq. cbn [mbind option_bind]. rewrite Hw, Hf. cbn [mbind option_bind].
  rewrite (identified_spec N db name ts Hview st names tys Hst Hn_names Hlen Hex). cbn [mbind option_bind].
  unfold ExecutePlan_Execute. cbn [app execute_steps execute_step]. rewrite Hix. cbn [mbind option_bind]. change (0 <? 0) with false. cbv iota.
  rewrite (late_unhurried env timeout) by done.
  destruct (main_select (tick st1) f tys rs0 rc rs shown sl 0 node) as (st2 & -> & Hst2); [done..|]. cbn [mbind option_bind].
  change (0 <? 0) with false. cbv iota. rewrite (late_unhurried env timeout) by done.
  destruct (q_access_type p =? ACCESS_TYPE_DISTINCT_COUNT).
  - cbn [execute_steps]. exists (tick st2). done.
  - cbn [execute_steps execute_step]. rewrite refill_original by done. cbn [mbind option_bind]. change (0 <? 0) with false. cbv iota.
    rewrite (late_unhurried env timeout) by done. exists (tick (tick st2)). done.
Qed.

(** The query returns its answer from the documents that the index step gives. *)
Lemma run_select st st1 p cols sl node :
  names ≠ [] → exec_db st = db → plain_query p names → order_comparator names (q_order_array p) = Row.comparator cols → q_filter_cond p = cond_of w →
  index_step env st name (q_index_cond p) (q_hint p) = Some (Iterator (DocIter sl None 0 node), 0, st1) → exec_db st1 = db →
  visitable sl → Forall (λ h, orderable cols (select_row h)) (items sl) →
  ∃ shown st', run_query env st name p timeout = Some (ResultRows (zlen shown) shown, 0, st') ∧ exec_db st' = db ∧
    answer cols (q_access_type p =? ACCESS_TYPE_COMMON) (q_limit p) (select_row <$> filter keep (items sl)) shown.
Proof.
  intros Hne Hst Hp Hcols Hw Hix Hst1 Hv Hord.
  destruct (plain_result env p names cols Hp Hne Hcols) as (rs0 & tys & Hq & Hlen & Hex & Hcol).
  destruct (Hcol (select_row <$> filter keep (items sl))) as (rc & rs & shown & Hc & Hrc & Hrows & Hsize & Ha).
  { apply Forall_fmap. apply Forall_forall. intros h Hh. apply list_elem_of_filter in Hh as [_ Hh].
    exact (proj1 (Forall_forall _ _) Hord h Hh). }
  { rewrite zlen_fmap. pose proof (vs_pool _ Hv). pose proof (length_filter keep (items sl)). unfold zlen, PTR_SIZE in *. lia. }
  { rewrite zlen_fmap. pose proof (vs_number _ Hv). pose proof (length_filter keep (items sl)). unfold zlen in *. lia. }
  destruct (run_collected st st1 p rs0 tys rc rs shown sl node Hst (proj2 (plain_functions p names Hp)) Hq Hlen Hex Hw Hix Hst1 Hv Hc Hrc Hrows)
    as (st' & Hrun & Hst'); [|exists shown, st'; by rewrite <- Hsize].
  apply selected_original. intros r Hr. apply (answer_elem _ _ _ _ _ _ Ha) in Hr. apply list_elem_of_fmap in Hr as (h & -> & _). by exists h.
Qed.
End run.
