(* ===== verification/ScanSpec.v ===== *)
(** * Which documents a query visits

    Without an index condition these are the documents of the segments, the last
    segment first.  With one these are the documents whose rows satisfy it, the
    first segment first and the last document of a segment first. *)

From Stdlib Require Import ZArith Lia.
From stdpp Require Import base option list numbers gmap sets sorting.
From S2P Require Import Prelude RowidList SetOperator SegRowid LowData Column RowData IndexField Table TableSpec Binlog Db MileHashMap Row DocTable DocScan SelectSpec DbQuery Suffix.

#[local] Open Scope mile_scope.

(** ** Conditions over other values *)

Definition map_cond {V W} (f : V → W) (c : condition_t V) : condition_t W := Condition (type c) (comparator c) (f <$> values c).

Section natural.
Context {V W : Type} (f : V → W) (IV : IndexDb V) (IW : IndexDb W).
Context (Heq : ∀ v, db_index_equal_query (IndexDb := IV) v = db_index_equal_query (IndexDb := IW) (f v)).

Lemma in_values_map vs ret : in_values (IndexDb0 := IW) (f <$> vs) ret = in_values (IndexDb0 := IV) vs ret.
Proof.
  revert ret. induction vs as [|v vs IH]; intros ret; [done|]. cbn [fmap list_fmap in_values]. rewrite Heq.
  destruct (db_index_equal_query (f v)); [done|]. destruct (seg_rowid_union ret (Ptr a)) as [[|r]|]; cbn [mbind option_bind]; [done|apply IH|done].
Qed.

Lemma compare_map c : comparator c ≠ CT_MATCH → hash_compare_value (IndexDb0 := IW) (map_cond f c) = hash_compare_value (IndexDb0 := IV) c.
Proof.
  intros Hc. unfold hash_compare_value. cbn [map_cond comparator values]. destruct (comparator c); try done.
  - rewrite list_lookup_fmap. destruct (values c !! 0%nat); [|done]. cbn [fmap option_fmap option_map mbind option_bind]. by rewrite Heq.
  - destruct (values c) as [|v vs]; [done|]. cbn [fmap list_fmap]. rewrite <- Heq. apply in_values_map.
Qed.

Lemma conditions_map cs : Forall (λ c, comparator c ≠ CT_MATCH) cs →
  query_by_hash_conditions (IndexDb0 := IW) (map_cond f <$> cs) = query_by_hash_conditions (IndexDb0 := IV) cs.
Proof.
  unfold query_by_hash_conditions. intros H. generalize (@nil (ptr seg_list)). induction H as [|c cs Hc _ IH]; intros stack; [done|].
  cbn [fmap list_fmap query_loop]. rewrite compare_map by done. cbn [map_cond type]. destruct (type c).
  - destruct (hash_compare_value c) as [[|r]|]; cbn [mbind option_bind]; [done|apply IH|done].
  - destruct (hash_set_operations stack LOGIC_AND) as [[rc st]|]; [|done]. cbn [mbind option_bind]. destruct (rc <? 0); [done|apply IH].
  - destruct (hash_set_operations stack LOGIC_OR) as [[rc st]|]; [|done]. cbn [mbind option_bind]. destruct (rc <? 0); [done|apply IH].
  - destruct (hash_set_operations stack HC_SET_MINUS) as [[rc st]|]; [|done]. cbn [mbind option_bind]. destruct (rc <? 0); [done|apply IH].
  - done.
Qed.
End natural.

Lemma postfix_lookups {V} (e : expr V) : Forall (λ c, comparator c ≠ CT_MATCH) (postfix e).
Proof. induction e; cbn [postfix]; rewrite ?Forall_app; repeat split; try done; by repeat constructor. Qed.

(** ** The order of the visits *)

Lemma Forall2_concat_all {A B} (R : A → B → Prop) ls ms : Forall2 (Forall2 R) ls ms → Forall2 R (concat ls) (concat ms).
Proof. induction 1; simpl; [constructor|]. by apply Forall2_app. Qed.

Section scan.
Context (N : Z) (HN : 0 < N) (HN32 : N < 2 ^ 32) (ts : table_state) (Hrows : zlen (trows ts) ≤ N * 2 ^ 16).

(** The documents of segment [j]. *)
Definition segment_rows (j : Z) : list Z := seqZ (j * N) (Z.min N (zlen (trows ts) - j * N)).

(** The id of a document by its place in the table. *)
Definition place_docid (n : Z) : Z := full_docid (n / N) (n `mod` N).

(** The handler is that of document [n]. *)
Definition stands (h : DocHandler) (n : Z) : Prop := docid h = place_docid n ∧ doc_number N h = n ∧ here N ts h.

Definition segment (j : Z) : Prop := 0 ≤ j ∧ j * N < zlen (trows ts).

Lemma segment_id j : segment j → 0 ≤ j < 2 ^ 16.
Proof. intros [H0 Hj]. nia. Qed.

Lemma stands_intro j d s : segment j → 0 ≤ d < N → j * N + d < zlen (trows ts) → stands (Handler (full_docid j d) s) (j * N + d).
Proof.
  intros Hj Hd Hr. pose proof (segment_id j Hj) as Hj16. destruct (full_docid_parts j d Hj16 ltac:(lia)) as [Es Ed].
  split_and!.
  - cbn [docid]. unfold place_docid. rewrite Z.div_add_l, Z.div_small, Z.add_0_r by lia. by rewrite Z.add_comm, Z.mod_add, Z.mod_small by lia.
  - unfold doc_number. cbn [docid]. by rewrite Es, Ed.
  - split; unfold doc_number; cbn [docid]; rewrite ?Es, Ed; lia.
Qed.

(** *** All documents *)

Definition scan_all (js : list Z) : list Z := concat (segment_rows <$> reverse js).

Lemma hint_items_spec j : segment j → Forall2 stands (hint_items (SegHint j (Z.min N (zlen (trows ts) - j * N)))) (segment_rows j).
Proof.
  intros Hj. unfold hint_items, segment_rows. cbn [hint_sid max_docid].
  set (k := Z.min N (zlen (trows ts) - j * N)).
  replace (seqZ (j * N) k) with (Z.add (j * N) <$> seqZ 0 k) by (rewrite fmap_add_seqZ; f_equal; lia).
  apply Forall2_fmap, Forall_Forall2_diag, Forall_forall. intros d Hd%elem_of_seqZ. apply stands_intro; [done|lia..].
Qed.

Lemma scan_all_spec js : Forall segment js → Forall2 stands (items (AllDocs (hints_in N ts js))) (scan_all js) ∧ segments_ok (AllDocs (hints_in N ts js)).
Proof.
  intros Hjs. split.
  - rewrite items_all. unfold hints_in, scan_all. rewrite <- fmap_reverse, <- list_fmap_compose. apply Forall2_concat_all, Forall2_fmap, Forall_Forall2_diag.
    apply Forall_reverse. eapply Forall_impl; [exact Hjs|]. intros j Hj. by apply hint_items_spec.
  - cbn [segments_ok]. unfold hints_in. apply Forall_reverse, Forall_fmap. eapply Forall_impl; [exact Hjs|]. intros j [Hj0 Hj]. cbn [compose max_docid]. cbv beta. lia.
Qed.

(** *** The documents that an index found *)

Context (found : Z → bool).

Definition scan_found (js : list Z) : list Z := concat ((λ j, reverse (filter (λ n, found n = true) (segment_rows j))) <$> js).

Lemma seqZ_ascending m n : StronglySorted Z.lt (seqZ m n).
Proof.
  destruct (decide (0 ≤ n)) as [Hn|Hn]; [|rewrite seqZ_nil by lia; constructor]. revert m. pattern n. revert n Hn. apply natlike_ind.
  - intros m. constructor.
  - intros n Hn IH m. rewrite seqZ_cons, Z.pred_succ by lia. constructor; [apply IH|]. apply Forall_forall. intros x Hx%elem_of_seqZ. lia.
Qed.

Lemma sorted_reverse (l : list Z) : StronglySorted Z.lt l → desc (reverse l).
Proof.
  unfold desc. induction 1 as [|x l _ IH Hx]; [constructor|]. rewrite reverse_cons. apply StronglySorted_app_2; [|done|by repeat constructor].
  intros y z Hy Hz. apply list_elem_of_singleton in Hz as ->. rewrite elem_of_reverse in Hy. by apply (proj1 (Forall_forall _ _) Hx).
Qed.

Lemma sorted_filter (P : Z → Prop) `{!∀ x, Decision (P x)} (R : Z → Z → Prop) l : StronglySorted R l → StronglySorted R (filter P l).
Proof.
  induction 1 as [|x l _ IH Hx]; [constructor|]. rewrite filter_cons. case_decide; [|done]. constructor; [done|].
  apply Forall_forall. intros y Hy. apply list_elem_of_filter in Hy as [_ Hy]. by apply (proj1 (Forall_forall _ _) Hx).
Qed.

Lemma desc_distinct (l : list Z) : desc l → NoDup l.
Proof. unfold desc. induction 1 as [|x l _ IH Hx]; constructor; [|done]. intros Hin. pose proof (proj1 (Forall_forall _ _) Hx x Hin) as H. cbv beta in H. lia. Qed.

Lemma desc_unique (a b : list Z) : desc a → desc b → (∀ x, x ∈ a ↔ x ∈ b) → a = b.
Proof.
  intros Ha Hb H. unfold desc in *. assert (AntiSymm (=) (λ x y, y < x)) by (intros x y; lia).
  apply (StronglySorted_unique (λ x y, y < x)); [done..|]. apply NoDup_Permutation; [by apply desc_distinct..|done].
Qed.

Lemma desc_shift k (l : list Z) : desc l → desc ((λ d, k + d) <$> l).
Proof.
  unfold desc. induction 1 as [|x l _ IH Hx]; [constructor|]. cbn [fmap list_fmap]. constructor; [done|]. apply Forall_fmap.
  eapply Forall_impl; [exact Hx|]. intros y Hy. unfold compose. cbv beta in Hy |- *. lia.
Qed.

(** The list of a segment has the documents that were found, the last one first. *)
Record found_in (q : segment_query_rowids) : Prop := {
  fi_segment : segment (sid q);
  fi_rows : rows_ok N (rowids q);
  fi_desc : desc (ids (rowids q));
  fi_ids d : d ∈ ids (rowids q) ↔ 0 ≤ d < N ∧ sid q * N + d < zlen (trows ts) ∧ found (sid q * N + d) = true
}.

Lemma found_numbers q : found_in q →
  (λ d, sid q * N + d) <$> ids (rowids q) = reverse (filter (λ n, found n = true) (segment_rows (sid q))).
Proof.
  intros [Hs _ Hd Hi]. apply desc_unique.
  - by apply desc_shift.
  - apply sorted_reverse, sorted_filter, seqZ_ascending.
  - intros n. rewrite elem_of_reverse, list_elem_of_filter, list_elem_of_fmap. unfold segment_rows. setoid_rewrite elem_of_seqZ. setoid_rewrite Hi. split.
    + intros (d & -> & Hd0 & Hlt & Hf). split; [done|]. lia.
    + intros [Hf Hn]. exists (n - sid q * N). replace (sid q * N + (n - sid q * N)) with n by lia. split; [done|]. split; [lia|]. split; [lia|done].
Qed.

Lemma found_items_spec q : found_in q →
  Forall2 stands (found_items q) (reverse (filter (λ n, found n = true) (segment_rows (sid q)))) ∧ ptr_wf (rowids q).
Proof.
  intros Hq. rewrite <- found_numbers by done. destruct Hq as [Hs Hr _ Hi]. pose proof (ro_wf _ _ Hr) as Hw. split; [|done].
  unfold found_items. destruct (rowids q) as [|r]; [constructor|]. cbn [ptr_wf ids] in *. rewrite <- (fst_entries r) in Hi |- * by done.
  rewrite <- list_fmap_compose. apply Forall2_fmap, Forall_Forall2_diag, Forall_forall. intros [d s] He. cbn [compose fst snd].
  destruct (proj1 (Hi d)) as (H1 & H2 & _); [apply list_elem_of_fmap; by exists (d, s)|]. by apply stands_intro.
Qed.

Lemma scan_found_spec l js :
  sid <$> l = js → Forall found_in l → Forall2 stands (items (FoundDocs l)) (scan_found js) ∧ segments_ok (FoundDocs l).
Proof.
  intros <- Hl. split.
  - rewrite items_found. unfold scan_found. rewrite <- list_fmap_compose. apply Forall2_concat_all, Forall2_fmap, Forall_Forall2_diag.
    eapply Forall_impl; [exact Hl|]. intros q Hq. by apply found_items_spec.
  - cbn [segments_ok]. eapply Forall_impl; [exact Hl|]. intros q Hq. by apply found_items_spec.
Qed.

(** *** How many documents are visited *)

Lemma concat_reverse_length {A B} (f : A → list B) (l : list A) : length (concat (f <$> reverse l)) = length (concat (f <$> l)).
Proof.
  induction l as [|x l IH]; [done|]. rewrite reverse_cons, fmap_app, concat_app, length_app, IH. cbn [fmap list_fmap concat].
  rewrite !length_app. simpl. lia.
Qed.

Lemma concat_sublist_length {A B} (f : A → list B) (l k : list A) : l `sublist_of` k → (length (concat (f <$> l)) ≤ length (concat (f <$> k)))%nat.
Proof. induction 1; cbn [fmap list_fmap concat]; rewrite ?length_app; lia. Qed.

Lemma segment_total k : 0 ≤ k → zlen (concat (segment_rows <$> seqZ 0 k)) ≤ Z.min (k * N) (zlen (trows ts)).
Proof.
  intros Hk0. pose proof (zlen_nonneg (trows ts)). revert k Hk0. apply natlike_ind; [change (zlen (concat (segment_rows <$> seqZ 0 0))) with 0; lia|].
  intros k Hk IH. rewrite <- Z.add_1_r, seqZ_app, fmap_app, concat_app, zlen_app by lia. change (seqZ (0 + k) 1) with [0 + k].
  cbn [fmap list_fmap concat]. rewrite app_nil_r. unfold segment_rows at 2. rewrite Z.add_0_l. unfold zlen at 2. rewrite length_seqZ. lia.
Qed.

Lemma scan_all_length js k : 0 ≤ k → js `sublist_of` seqZ 0 k → zlen (scan_all js) ≤ zlen (trows ts).
Proof.
  intros Hk Hjs. unfold scan_all. unfold zlen at 1. rewrite concat_reverse_length. pose proof (concat_sublist_length segment_rows _ _ Hjs).
  pose proof (segment_total k Hk) as Ht. unfold zlen in *. lia.
Qed.

Lemma scan_found_length js k : 0 ≤ k → js `sublist_of` seqZ 0 k → zlen (scan_found js) ≤ zlen (trows ts).
Proof.
  intros Hk Hjs. pose proof (concat_sublist_length segment_rows _ _ Hjs) as Hc. pose proof (segment_total k Hk) as Ht.
  assert (length (scan_found js) ≤ length (concat (segment_rows <$> js)))%nat; [|unfold zlen in *; lia].
  clear. unfold scan_found. induction js as [|j js IH]; [done|]. cbn [fmap list_fmap concat]. rewrite !length_app, length_reverse.
  pose proof (length_filter (λ n, found n = true) (segment_rows j)). lia.
Qed.

(** *** No document is visited twice *)

Lemma NoDup_concat_by {A B} (f : A → list B) (g : B → A) (l : list A) :
  NoDup l → (∀ x, NoDup (f x)) → (∀ x y, y ∈ f x → g y = x) → NoDup (concat (f <$> l)).
Proof.
  intros Hl Hf Hg. induction Hl as [|x l Hx _ IH]; [constructor|]. cbn [fmap list_fmap concat]. apply NoDup_app.
  split; [apply Hf|]. split; [|done]. intros y Hy Hin. apply Hx.
  assert (∀ k, y ∈ concat (f <$> k) → g y ∈ k) as Hk.
  { clear -Hg. induction k as [|z k IH]; cbn [fmap list_fmap concat]; [by intros ?%elem_of_nil|]. intros [Hz|Hz]%elem_of_app; [rewrite (Hg z y Hz); by left|right; auto]. }
  rewrite <- (Hg x y Hy). by apply Hk.
Qed.

Lemma segment_of j n : n ∈ segment_rows j → n / N = j.
Proof. unfold segment_rows. intros Hn%elem_of_seqZ. symmetry. apply (Z.div_unique n N j (n - j * N)); lia. Qed.

Lemma in_concat_of {A B} (f : A → list B) (l : list A) y : y ∈ concat (f <$> l) → ∃ x, x ∈ l ∧ y ∈ f x.
Proof.
  induction l as [|x l IH]; cbn [fmap list_fmap concat]; [by intros ?%elem_of_nil|].
  intros [H|(z & Hz & Hy)%IH]%elem_of_app; [exists x|exists z]; (split; [|done]); [by left|by right].
Qed.

(** Only documents of the table are visited. *)
Lemma segment_rows_range j n : 0 ≤ j → n ∈ segment_rows j → 0 ≤ n < zlen (trows ts).
Proof. unfold segment_rows. intros Hj Hn%elem_of_seqZ. nia. Qed.

Lemma scan_all_range js n : Forall (λ j, 0 ≤ j) js → n ∈ scan_all js → 0 ≤ n < zlen (trows ts).
Proof.
  intros Hjs (j & Hj & Hn)%in_concat_of. rewrite elem_of_reverse in Hj. apply (segment_rows_range j); [|done]. exact (proj1 (Forall_forall _ _) Hjs j Hj).
Qed.

Lemma scan_found_range js n : Forall (λ j, 0 ≤ j) js → n ∈ scan_found js → 0 ≤ n < zlen (trows ts).
Proof.
  intros Hjs (j & Hj & Hn)%in_concat_of. rewrite elem_of_reverse, list_elem_of_filter in Hn.
  apply (segment_rows_range j); [|by destruct Hn]. exact (proj1 (Forall_forall _ _) Hjs j Hj).
Qed.

Lemma scan_all_NoDup js : NoDup js → NoDup (scan_all js).
Proof.
  intros Hjs. unfold scan_all. apply (NoDup_concat_by segment_rows (λ n, n / N)); [by rewrite reverse_Permutation|intros; apply NoDup_seqZ|apply segment_of].
Qed.

Lemma scan_found_NoDup js : NoDup js → NoDup (scan_found js).
Proof.
  intros Hjs. unfold scan_found. apply (NoDup_concat_by _ (λ n, n / N)); [done|intros j; rewrite reverse_Permutation; apply NoDup_filter, NoDup_seqZ|].
  intros j n Hn. rewrite elem_of_reverse, list_elem_of_filter in Hn. by apply segment_of, Hn.
Qed.
End scan.
