(* ===== verification/DbSelect.v ===== *)
(** * SELECT on a database

    The whole way of a query: a database after any run, the plan of the
    statement, the index, the visited documents, the filter, the result set.  The
    answer is a function of the rows. *)

From Stdlib Require Import ZArith Lia.
From stdpp Require Import base option list numbers gmap sets.
From S2P Require Import Prelude FileOp StringMap RowidList SetOperator SegRowid Suffix LowData Compare HashIndex HashIndexSpec HashMemCompress VStorage Hash Column FilterIndex RowData DataField IndexField IndexFieldSpec Segment SegmentSpec Table TableSpec TableIndexSpec Binlog BinlogSpec BinlogSync Slave SlaveSpec DbRecord DbRecordSpec MileArray MileHashMap Row Aggr Expression ResultSet ResultSetSpec DocTable DocScan Execute SelectSpec QuerySpec ScanSpec Db DbRecover CatalogSpec DbSpec DbReplica DbStartSpec DatabaseSpec DbQuery.

(** ** What is stored *)

Section stored.
Context (get_hash_value : low_data_struct → Z) (N M : Z) (HN : 0 < N) (types : list Z → field_types).

(** Rows are well formed, and they fit into the segments. *)
Definition stored (ts : table_state) : Prop := Forall row_ok (trows ts) ∧ zlen (trows ts) ≤ N * M.

Lemma stored_row ts n fs : stored ts → (trows ts)⟦n⟧ = Some fs → row_ok fs.
Proof.
  intros [H _] Hn. pose proof (zget_Some_range _ _ _ Hn). rewrite zget_lookup in Hn by lia. by apply (Forall_lookup_1 _ _ _ _ H Hn).
Qed.

Lemma stored_insert ts fs : stored ts → row_ok fs → zlen (trows ts) < N * M → stored (table_spec get_hash_value N types ts (TInsert fs)).
Proof.
  intros [H _] Hf Hn. split; cbn [table_spec trows]; [apply Forall_app; auto|]. rewrite zlen_app. change (zlen [fs]) with 1. lia.
Qed.

Lemma stored_update ts n new :
  stored ts → row_ok (set_field (default [] ((trows ts)⟦n⟧)) new) → stored (table_spec get_hash_value N types ts (TUpdate n new)).
Proof.
  intros [H Hn] Hf. split; cbn [table_spec trows]; [|by rewrite zlen_insert]. by apply Forall_insert.
Qed.

Lemma row_whole fs n : row_ok fs → whole (column_of_row fs n).
Proof.
  intros [_ Hf _]. unfold column_of_row. destruct (List.find _ fs) as [f|] eqn:E; [|done]. apply List.find_some in E as [E _].
  apply list_elem_of_In in E. apply (proj1 (Forall_forall _ _) Hf f E).
Qed.
End stored.

(** ** Time conditions *)

(** The segment was changed after the first hint and made before the second. *)
Definition meta_in_time (m : segment_meta_data) (hint : option (Z * Z)) : Prop :=
  match hint with None => True | Some (h0, h1) => h0 < modify_time m ∧ create_time m < h1 end.

(** [js] are the segments of the table that the time condition leaves. *)
Definition in_time_segments {S} (N : Z) (db : db_manager S) (name : list Z) (ts : table_state) (hint : option (Z * Z)) (js : list Z) : Prop :=
  ∃ t, db_get_table_instance db name = Some (Some t) ∧
    ∀ j, j ∈ js ↔ 0 ≤ j < segs N ts ∧ ∃ segment, get_segment t j = Some segment ∧ meta_in_time (meta segment) hint.

Section select.
Context {S : Type} `{!Column S, !ColumnLaws S}.
Context (get_hash_value : low_data_struct → Z) (nh : Z) `{!HashLaws get_hash_value nh}.
Context (shared : bool) (junk : Z) (qsort : (Z → Z → Z) → list Z → list Z) `{!QsortLaws qsort}.
Context (N : Z) (HN : 0 < N) (Hmax : 16 * (N + 1) < 2 ^ 31).
Context (M : Z) (HM : 0 < M) (HM33 : M * 33 < 2 ^ 31) (HM16 : M ≤ 2 ^ 16).
Context (types : list Z → field_types) (fits : Z → Prop) (B0 : Z).
Context (config : table_config) (Hcd : 0 < zlen (config_dirs config)) (Hcs : config_segments config = M)
  (Hcl : config_limit config = N) (Hcr : config_raw config = true).

#[local] Instance select_laws : TableLaws (S := S) (calm shared junk qsort) get_hash_value config types :=
  table_laws get_hash_value nh shared junk qsort N HN Hmax M HM HM33 types fits B0 config Hcd Hcs Hcl Hcr.
Abbreviation env0 := (calm shared junk qsort) (only parsing).
Abbreviation db_rep := (db_rep env0 get_hash_value config types).

Definition all_stored (D : gmap (list Z) table_state) : Prop := ∀ name ts, D !! name = Some ts → stored N M ts.

Lemma stored_at D name : all_stored D → stored N M (table_at D name).
Proof.
  intros H. unfold table_at. destruct (D !! name) as [ts|] eqn:E; [by apply (H name)|]. split; [constructor|]. change (0 ≤ N * M). nia.
Qed.

Lemma stored_step mem D op :
  all_stored D → db_op_ok env0 get_hash_value config types mem D op → all_stored (db_spec get_hash_value (config_limit config) types D op).
Proof.
  intros H [_ Hok].
  assert (∀ name ts, stored N M ts → all_stored (<[name := ts]> D)) as Hins.
  { intros name ts Hts name' ts' Hl. destruct (decide (name = name')) as [<-|Hne].
    - rewrite lookup_insert_eq in Hl. by injection Hl as <-.
    - rewrite lookup_insert_ne in Hl by done. by apply (H name'). }
  destruct op as [name fs|name n new|name n|name col|name|now]; cbn [db_spec]; rewrite ?Hcl; try done.
  - destruct Hok as [_ (Hn & (Hr & _) & _)]. apply Hins, stored_insert; [by apply stored_at|done..].
  - destruct Hok as [_ (Hn & _ & (Hr & _))]. apply Hins, stored_update; [by apply stored_at|done].
  - apply Hins. by destruct (stored_at D name H).
  - apply Hins. by destruct (stored_at D name H).
Qed.

Lemma stored_run mem D (ops : list (db_io S * db_op)) :
  all_stored D → db_ops_ok env0 get_hash_value config types mem D ops → all_stored (db_specs get_hash_value config types D ops).
Proof.
  revert D. induction ops as [|[io op] ops IH]; intros D H; [done|]. intros (_ & Hop & Hops). apply IH; [|done]. by apply (stored_step mem).
Qed.

(** ** The view of a table *)

Lemma rep_view conf b D L db name ts : db_rep conf b D L db → D !! name = Some ts → table_view N db name ts.
Proof.
  intros H E. destruct (there_instance env0 get_hash_value config types conf b D L db name H) as (t & Hg & Ht); [by eexists|].
  unfold table_at in Ht. rewrite E in Ht. cbn [default option.from_option id] in Ht. split.
  - intros n Hn. unfold db_is_docid_deleted, query. rewrite Hg. cbn [mbind option_bind].
    pose proof (law_deleted ts t n Ht Hn) as Hl. by rewrite Hcl in Hl.
  - intros n fs names Hn Hz. unfold db_data_query_multi_col, query. rewrite Hg. cbn [mbind option_bind].
    rewrite (proj2 (Z.leb_gt _ _)) by done. pose proof (law_row ts t n fs Ht Hn) as Hl. rewrite Hcl in Hl. rewrite Hl. cbn [mbind option_bind datas field_count].
    pose proof (zsub_mid [] fs [] 0 (zlen fs) eq_refl eq_refl) as Hz0. rewrite app_nil_r in Hz0. cbn [app] in Hz0. by rewrite Hz0.
  - intros col. unfold db_get_data_access_type, query. rewrite Hg. cbn [mbind option_bind]. by rewrite (law_access ts t col Ht).
Qed.

(** ** The index step *)

Section index.
Context (conf : db_conf) (b : bool) (D : gmap (list Z) table_state) (L : list binlog_record) (db : db_manager S).
Context (Hrep : db_rep conf b D L db) (name : list Z) (ts : table_state) (Hts : D !! name = Some ts).
Context (Hstored : stored N M ts) (Hkeyed : keyed get_hash_value N types ts).
Abbreviation sought := (sought get_hash_value nh (tcols ts)).

(** The condition of the statement; none is no condition. *)
Definition index_cond (e : option (expr sought)) : list (condition_t field) :=
  match e with None => [] | Some e => map_cond sought_field <$> postfix e end.

Definition matches_at (e : expr sought) (n : Z) : bool :=
  match (trows ts)⟦n⟧ with Some fs => matches get_hash_value nh types (tcols ts) e fs | None => false end.

(** The documents that are visited in the segments [js]. *)
Definition scan (e : option (expr sought)) (js : list Z) : list Z :=
  match e with None => scan_all N ts js | Some e => scan_found N ts (matches_at e) js end.

Lemma segs_segment j : 0 ≤ j < segs N ts → segment N ts j.
Proof. unfold segs. intros [H0 Hj]. split; [done|]. pose proof (Z.mul_div_le (zlen (trows ts) + N - 1) N HN). nia. Qed.

Lemma hinted_spec (t : table_manager S) hint j : hinted t hint j = true ↔ ∃ segment, get_segment t j = Some segment ∧ meta_in_time (meta segment) hint.
Proof.
  unfold hinted. destruct (get_segment t j) as [s|]; [|split; [done|by intros (? & ? & _)]].
  transitivity (meta_in_time (meta s) hint); [|split; [by exists s|by intros (s' & [= <-] & ?)]].
  unfold in_time, meta_in_time. destruct hint as [[h0 h1]|]; [|done].
  rewrite negb_true_iff, orb_false_iff, Z.leb_gt, Z.geb_leb, Z.leb_gt. done.
Qed.

(** The segments that a time condition leaves. *)
Lemma hint_segments hint : ∃ js,
  db_seghint_query db name hint = Some (Ptr (hints_in N ts js)) ∧ js `sublist_of` seqZ 0 (segs N ts) ∧ (hint = None → js = seqZ 0 (segs N ts)) ∧
  in_time_segments N db name ts hint js.
Proof.
  destruct (there_instance env0 get_hash_value config types conf b D L db name Hrep) as (t & Hg & Ht); [by eexists|].
  unfold table_at in Ht. rewrite Hts in Ht. cbn [default option.from_option id] in Ht.
  assert (∀ tc, db_seghint_query db name tc = table_seghint_query t tc) as Hq by (intros; unfold db_seghint_query, query; by rewrite Hg).
  destruct hint as [tc|].
  - pose proof (law_hinted ts t (Some tc) Ht) as Hh. rewrite Hcl in Hh. eexists. rewrite Hq. split; [exact Hh|]. split; [apply sublist_filter|]. split; [done|].
    exists t. split; [done|]. intros j. rewrite list_elem_of_filter, elem_of_seqZ, hinted_spec. split; [intros [? ?]|intros [? ?]]; (split; [|done]); lia || done.
  - pose proof (law_hints ts t Ht) as Hh. rewrite Hcl in Hh. exists (seqZ 0 (segs N ts)). rewrite Hq. split; [exact Hh|]. do 2 (split; [done|]).
    pose proof (law_hinted ts t None Ht) as Hi. rewrite Hcl in Hi. rewrite Hh in Hi. injection Hi as Hi.
    exists t. split; [done|]. intros j. rewrite elem_of_seqZ. split; [|intros [? _]; lia]. intros Hj. split; [lia|]. apply hinted_spec.
    assert (seqZ 0 (segs N ts) = filter (λ j, hinted t None j = true) (seqZ 0 (segs N ts))) as E.
    { unfold hints, hints_in in Hi. apply (inj reverse) in Hi. revert Hi. apply list_fmap_eq_inj. by intros j1 j2 [= ?]. }
    assert (j ∈ filter (λ j, hinted t None j = true) (seqZ 0 (segs N ts))) as Hin by (rewrite <- E; apply elem_of_seqZ; lia).
    by apply list_elem_of_filter in Hin as [? _].
Qed.

Lemma query_found (log : double → double) e js : Forall (λ j, 0 ≤ j < segs N ts) js →
  ∃ l, query_by_hash_conditions (IndexDb0 := table_lookups get_hash_value log db name (hints_in N ts js)) (index_cond (Some e)) = Some (Ptr l) ∧
    sid <$> l = js ∧ Forall (found_in N ts (matches_at e)) l.
Proof.
  intros Hjs. destruct (there_instance env0 get_hash_value config types conf b D L db name Hrep) as (t & Hg & Ht); [by eexists|].
  unfold table_at in Ht. rewrite Hts in Ht. cbn [default option.from_option id] in Ht.
  assert (∀ p : sought, ∃ l, Db.db_index_equal_query get_hash_value db name (hints_in N ts js) (sought_field p) = Some (Ptr l) ∧ sid <$> l = js ∧
    Forall (answers get_hash_value N ts (RowData.field_name (sought_field p)) (fdata (sought_field p))) l) as Hl.
  { intros [[col v] Hcol Hkey]. cbn [sought_field RowData.field_name fdata] in *. unfold Db.db_index_equal_query, query. rewrite Hg. cbn [mbind option_bind].
    pose proof (law_equal_in ts t col v js Ht Hcol Hkey) as Hl. rewrite Hcl in Hl. apply Hl. done. }
  destruct (lookups_laws get_hash_value nh N ltac:(lia) ts log db name _ _ Hl) as [HI Hfound].
  destruct (query_postfix (IndexDbLaws0 := HI) N _ e) as (l & El & Hok & Hsid & Hev). exists l. split.
  { cbn [index_cond]. rewrite (conditions_map sought_field (db_lookups get_hash_value nh (tcols ts) log db name (hints_in N ts js))); [exact El|done|apply postfix_lookups]. }
  split; [done|]. apply Forall_forall. intros q Hin. unfold seg_ok in Hok. pose proof (proj1 (Forall_forall _ _) Hok q Hin) as Hr.
  rewrite (eval_rows _ _ Hfound) in Hev. destruct (same_places l js _ q Hsid Hev Hin) as [Hq0 Eq].
  pose proof (proj1 (Forall_forall _ _) Hjs _ Hq0) as Hq1. cbv beta in Hq1. split.
  - by apply segs_segment.
  - done.
  - apply Hr.
  - intros d. rewrite <- elem_of_id_set, Eq, (elem_rows_of get_hash_value nh types N ts Hkeyed) by lia. unfold matches_at. split.
    + intros (Hd & fs & Hf & Hm). rewrite Hf. pose proof (zget_Some_range _ _ _ Hf). auto with lia.
    + intros (Hd & Hlt & Hm). destruct (zget_lt (trows ts) (sid q * N + d) ltac:(nia)) as [fs Hf]. rewrite Hf in Hm. eauto.
Qed.

Lemma index_spec (env : exec_env S) st hint e js :
  fields_env env = env0 → hash_value env = get_hash_value → exec_db st = db →
  db_seghint_query db name hint = Some (Ptr (hints_in N ts js)) → Forall (λ j, 0 ≤ j < segs N ts) js →
  ∃ sl st1, index_step env st name (index_cond e) hint = Some (Iterator (DocIter sl None 0 0), 0, st1) ∧ exec_db st1 = db ∧
    Forall2 (stands N ts) (items sl) (scan e js) ∧ segments_ok sl.
Proof.
  intros He Hh Hst Hq Hjs.
  assert (zlen (trows ts) ≤ N * 2 ^ 16) as Hrows by (destruct Hstored as [_ Hz]; nia).
  assert (Forall (segment N ts) js) as Hseg by (eapply Forall_impl; [exact Hjs|]; apply segs_segment).
  destruct (there_instance env0 get_hash_value config types conf b D L db name Hrep) as (t & Hg & Ht); [by eexists|].
  unfold index_step, ask, UseIndex, db_readlock_table, ensure_table. rewrite He, Hh, Hst, Hg. cbn [mbind option_bind]. rewrite Hq. cbn [mbind option_bind].
  destruct e as [e|].
  - destruct (query_found (log_of env) e js Hjs) as (l & El & Hsid & Hl). assert (index_cond (Some e) ≠ []) as Hne.
    { cbn [index_cond]. destruct e; cbn [postfix]; rewrite ?fmap_app; try done; intros [_ [_ [=]]%app_eq_nil]%app_eq_nil. }
    destruct (index_cond (Some e)) as [|c cs]; [done|]. rewrite El. cbn [mbind option_bind]. eexists _, _. split; [done|]. split; [done|].
    apply scan_found_spec; [done|lia|done..].
  - cbn [index_cond]. cbn [mbind option_bind]. eexists _, _. split; [done|]. split; [done|]. apply scan_all_spec; [done|lia|done..].
Qed.

Lemma scan_NoDup e js : js `sublist_of` seqZ 0 (segs N ts) → NoDup (scan e js).
Proof.
  intros Hjs. assert (NoDup js) as Hnd by (by eapply sublist_NoDup; [apply NoDup_seqZ|]).
  destruct e as [e|]; [by apply (scan_found_NoDup N ts (matches_at e))|by apply (scan_all_NoDup N ts)].
Qed.

Lemma scan_length e js : js `sublist_of` seqZ 0 (segs N ts) → zlen (scan e js) ≤ zlen (trows ts).
Proof.
  intros Hjs. assert (0 ≤ segs N ts) as Hs by (unfold segs; pose proof (zlen_nonneg (trows ts)); apply Z.div_pos; lia).
  destruct e as [e|]; [by apply (scan_found_length N HN ts (matches_at e) js (segs N ts))|by apply (scan_all_length N HN ts js (segs N ts))].
Qed.
End index.

(** ** The theorem *)

(** The statement's conditions on the documents, and the time, memory and fuel for
    the rows of the table. *)
Record runs_on (env : exec_env S) (timeout : Z) ts (filter_cond : list filter_condition) (cond : list (condition_t field))
    (w : option where_expr) (e : option (expr (sought get_hash_value nh (tcols ts)))) : Prop := {
  ro_env : fields_env env = env0;
  ro_hash : hash_value env = get_hash_value;
  ro_time : unhurried env timeout;
  ro_clause : filter_cond = cond_of w ∧ MATCHSCORE ∉ clause_names w ∧ Z.of_nat (clause_tests w) < 2 ^ 16;
  ro_index : cond = index_cond ts e;
  ro_rows : Forall (clause_ok w) (trows ts);
  ro_fuel : (length (trows ts) ≤ loop_fuel env)%nat;
  ro_pool : 2 * PTR_SIZE * zlen (trows ts) ≤ block_size env;
  ro_number : zlen (trows ts) < 2 ^ 31
}.

(** A query on the table: the selected columns, the where clause, the index
    condition and the order. *)
Record query_ok (env : exec_env S) (timeout : Z) ts (p : query_packet) (names : list (list Z)) (w : option where_expr)
    (e : option (expr (sought get_hash_value nh (tcols ts)))) (cols : list (Z * order_types * field_types)) : Prop := {
  qk_runs : runs_on env timeout ts (q_filter_cond p) (q_index_cond p) w e;
  qk_plain : plain_query p names;
  qk_names : names ≠ [] ∧ MATCHSCORE ∉ names ∧ zlen names < 2 ^ 16;
  qk_order : order_comparator names (q_order_array p) = Row.comparator cols;
  qk_rows : Forall (λ fs, sortable cols (read_row fs names NULL)) (trows ts)
}.

(** The document is there and satisfies the clause. *)
Definition wanted ts w (n : Z) : Prop := tgone ts n = false ∧ passes w (default [] ((trows ts)⟦n⟧)) = true.
#[export] Instance wanted_dec ts w n : Decision (wanted ts w n).
Proof. unfold wanted. apply _. Defined.

(** The row that is read from document [n]; the handler also has a score. *)
Definition row_of ts (names : list (list Z)) (n : Z) (r : select_row_t) : Prop :=
  ∃ s, r = read_row (default [] ((trows ts)⟦n⟧)) names (Ptr (Handler (place_docid N n) s)).

(** The documents that the index step makes the iterator visit. *)
Lemma visit_spec conf b D L db name ts (env : exec_env S) st timeout filter_cond cond hint w e :
  db_rep conf b D L db → D !! name = Some ts → stored N M ts → keyed get_hash_value N types ts →
  runs_on env timeout ts filter_cond cond w e → exec_db st = db →
  ∃ js, db_seghint_query db name hint = Some (Ptr (hints_in N ts js)) ∧ js `sublist_of` seqZ 0 (segs N ts) ∧
    (hint = None → js = seqZ 0 (segs N ts)) ∧ in_time_segments N db name ts hint js ∧
    ∃ sl st1, index_step env st name cond hint = Some (Iterator (DocIter sl None 0 0), 0, st1) ∧ exec_db st1 = db ∧
      Forall2 (stands N ts) (items sl) (scan ts e js) ∧ visitable env N ts w sl ∧
      ∀ h, h ∈ items sl → ∃ fs, fields_at N ts h = fs ∧ fs ∈ trows ts ∧ row_ok fs.
Proof.
  intros Hrep Hts Hsto Hkey [He Hh Ht (Hw1 & Hw2 & Hw3) -> Hrows Hf Hpool Hnum] Hst.
  destruct (hint_segments conf b D L db Hrep name ts Hts hint) as (js & Hq & Hjs & Hall & Htime). exists js. do 4 (split; [done|]).
  assert (Forall (λ j, 0 ≤ j < segs N ts) js) as Hjs'.
  { apply Forall_forall. intros j Hj. eapply elem_of_submseteq in Hj; [|by apply sublist_submseteq]. apply elem_of_seqZ in Hj. lia. }
  destruct (index_spec conf b D L db Hrep name ts Hts Hsto Hkey env st hint e js He Hh Hst Hq Hjs') as (sl & st1 & Hix & Hst1 & Hitems & Hok).
  pose proof (scan_length ts e js Hjs) as Hlen. pose proof (Forall2_length _ _ _ Hitems) as Hil.
  assert (∀ h, h ∈ items sl → here N ts h ∧ ∃ fs, fields_at N ts h = fs ∧ fs ∈ trows ts ∧ row_ok fs) as Hdoc.
  { intros h Hh'. apply list_elem_of_lookup in Hh' as [i Hi']. destruct (Forall2_lookup_l _ _ _ _ _ Hitems Hi') as (n & _ & _ & En & Hhere).
    split; [done|]. destruct (here_place N ts h HN Hhere) as (_ & _ & Hr). rewrite En in Hr.
    destruct (zget_lt (trows ts) n Hr) as [fs Hfs]. exists fs. split; [unfold fields_at; by rewrite En, Hfs|].
    split; [|by apply (stored_row N M ts n)]. rewrite zget_lookup in Hfs by lia. by eapply list_elem_of_lookup_2. }
  exists sl, st1. split; [done|]. split; [done|]. split; [done|]. split; [|intros h Hh'; by apply Hdoc].
  split; [done| | | | |].
  - apply Forall_forall. intros h Hh'. by apply Hdoc.
  - apply Forall_forall. intros h Hh'. destruct (Hdoc h Hh') as (_ & fs & -> & Hin & _). exact (proj1 (Forall_forall _ _) Hrows fs Hin).
  - unfold zlen, PTR_SIZE in *. lia.
  - unfold zlen, PTR_SIZE in *. lia.
  - unfold zlen, PTR_SIZE in *. lia.
Qed.

Lemma keep_wanted ts w h n : doc_number N h = n → keep N ts w h ↔ wanted ts w n.
Proof. intros <-. done. Qed.

Lemma select_spec conf b D L db name ts (env : exec_env S) st timeout p names w e cols :
  db_rep conf b D L db → D !! name = Some ts → stored N M ts → keyed get_hash_value N types ts →
  query_ok env timeout ts p names w e cols → exec_db st = db →
  ∃ js, db_seghint_query db name (q_hint p) = Some (Ptr (hints_in N ts js)) ∧ js `sublist_of` seqZ 0 (segs N ts) ∧
    (q_hint p = None → js = seqZ 0 (segs N ts)) ∧ in_time_segments N db name ts (q_hint p) js ∧
    ∃ rows shown st', run_query env st name p timeout = Some (ResultRows (zlen shown) shown, 0, st') ∧ exec_db st' = db ∧
      Forall2 (row_of ts names) (filter (wanted ts w) (scan ts e js)) rows ∧
      answer cols (q_access_type p =? ACCESS_TYPE_COMMON) (q_limit p) rows shown.
Proof.
  intros Hrep Hts Hsto Hkey [Hro Hp (Hn1 & Hn2 & Hn3) Ho Hrows] Hst.
  destruct (visit_spec conf b D L db name ts env st timeout _ _ (q_hint p) w e Hrep Hts Hsto Hkey Hro Hst)
    as (js & Hq & Hjs & Hall & Htime & sl & st1 & Hix & Hst1 & Hitems & Hv & Hdoc).
  exists js. do 4 (split; [done|]). destruct (ro_clause _ _ _ _ _ _ _ Hro) as (Hw1 & Hw2 & Hw3).
  destruct (run_select env N HN db name ts (rep_view conf b D L db name ts Hrep Hts) w timeout (ro_time _ _ _ _ _ _ _ Hro) Hw2 Hw3 names Hn2 Hn3
    st st1 p cols sl 0%nat Hn1 Hst Hp Ho Hw1 Hix Hst1 Hv) as (shown & st' & Hrun & Hst' & Ha).
  - apply Forall_forall. intros h Hh'. destruct (Hdoc h Hh') as (fs & E & Hin & Hr). unfold select_row. rewrite E.
    split; [|exact (proj1 (Forall_forall _ _) Hrows fs Hin)].
    unfold plain_row, read_row. cbn [Row.row_data]. apply Forall_fmap, Forall_forall. intros m _. eexists. split; [done|]. by apply row_whole.
  - exists (select_row N ts names <$> filter (keep N ts w) (items sl)), shown, st'. split; [done|]. split; [done|]. split; [|done].
    clear -Hitems. induction Hitems as [|h n hs ns (Ed & En & _) _ IH]; [constructor|]. rewrite !filter_cons. pose proof (keep_wanted ts w h n En) as Hk.
    destruct (decide (keep N ts w h)) as [H|H].
    + rewrite decide_True by tauto. cbn [fmap list_fmap]. constructor; [|done]. unfold row_of, select_row, fields_at. rewrite En, <- Ed.
      exists (match_score h). by destruct h.
    + rewrite decide_False by tauto. done.
Qed.

(** What every statement may rely on after a run from empty directories. *)
Lemma after_run fuel sio conf mem (ops : list (db_io S * db_op)) :
  calm_start sio → conf_ok M config conf → zlen ops < 2 ^ 29 → db_ops_ok env0 get_hash_value config types mem ∅ ops →
  ∃ db0 db L, db_init env0 get_hash_value (Datatypes.S fuel) sio conf (no_db_files M) = Some (0, db0) ∧
    db_run env0 get_hash_value N types db0 ops = Some db ∧
    db_rep conf (binlog_flag conf) (db_specs get_hash_value config types ∅ ops) L db ∧
    (∀ k, 0 ≤ k → zlen ops + k < 2 ^ 29 → room_of_log L k) ∧
    ∀ name ts, db_specs get_hash_value config types ∅ ops !! name = Some ts → keyed get_hash_value N types ts ∧ stored N M ts.
Proof.
  intros Hs Hc Hn Hops.
  destruct (run_from_start get_hash_value nh shared junk qsort N HN Hmax M HM HM33 types fits B0 config Hcd Hcs Hcl Hcr
    fuel sio conf mem ops Hs Hc Hn Hops) as (db0 & db & L & H0 & Hrun & Hrep & _ & Hroom).
  exists db0, db, L. do 4 (split; [done|]). intros name ts Hts. split.
  - exact (keyed_run get_hash_value nh shared junk qsort N HN Hmax M HM HM33 types fits B0 config Hcd Hcs Hcl Hcr mem ∅ ops
      ltac:(intros ? ? H; by rewrite lookup_empty in H) Hops name ts Hts).
  - exact (stored_run mem ∅ ops ltac:(intros ? ? H; by rewrite lookup_empty in H) Hops name ts Hts).
Qed.

End select.

(** Column [a] of the documents of the table whose indexed value is 3 and whose
    column [n] is "AB": of rows 0, 2 and 3 the first is deleted and the second was
    updated. *)

Definition demo_exec (vs : vstorage_manager) : exec_env vstorage_manager :=
  ExecEnv (calm false 0 merge_qsort) demo_hash (λ x, x) (λ _, demo_db_io vs) (λ _, 0) 1000 0 10.

Definition demo_clause : where_expr := Test [110] CT_EQ [LowData HI_TYPE_STRING [65; 66] 2].

Definition demo_select (cond : list (condition_t field)) : query_packet :=
  QueryPacket 0 [SelectField VALUE_SELECT (Ptr [97]) FUNC_OTHER NULL NULL] None cond (rpn demo_clause) [] [] 0.

Lemma demo_rows_suit vs : Forall (clause_ok (Some demo_clause)) (trows (demo_table vs)).
Proof.
  assert (trows (demo_table vs) = [demo_doc 3; demo_doc 9; [Field [97] (byte_value 3); Field [110] (LowData HI_TYPE_STRING [67] 1)]; demo_doc 3]) as ->
    by (vm_compute; reflexivity).
  repeat constructor; exists HI_TYPE_STRING, 1%nat; (split; [right; vm_compute; repeat constructor; auto; discriminate|]); (split; [|split; [done|done]]);
    (constructor; [right; vm_compute; repeat constructor; auto; discriminate|done]).
Qed.

