(* ===== verification/DbGroup.v ===== *)
(** * GROUP BY on a database

    A query with groups and functions, from the statement to the rows of the
    result. *)

From Stdlib Require Import ZArith Lia.
From stdpp Require Import base option list numbers sets gmap.
From S2P Require Import Prelude RowidList Suffix LowData Compare MileArray MileHashMap RowData Db Row Aggr AggrSpec Expression DocTable Execute SelectSpec ResultSet ResultSetSpec GroupSpec.

(** ** GROUP BY over the rows of a table

    A select list of columns and functions, with the group fields: which source
    fields are read, what a row of the result shows, and that grouping the rows that
    were read makes exactly these rows. *)

#[local] Open Scope mile_scope.

(** ** Select lists *)

Inductive select_item :=
| ItemColumn (name : list Z)
| ItemFunc (f : function_type) (name : list Z) (within : option where_expr).

Definition range_ptr (w : option where_expr) : ptr (list filter_condition) :=
  match w with None => NULL | Some w => Ptr (rpn w) end.

(** The selected field says the item; [COUNT] does not look at its argument. *)
Definition renders (it : select_item) (s : select_field) : Prop :=
  match it with
  | ItemColumn n => field_type s ≠ FUNCTION_SELECT ∧ field_name s = Ptr n ∧ func_type s ≠ FUNC_COUNT
  | ItemFunc f n w => field_type s = FUNCTION_SELECT ∧ func_type s = f ∧ (f ≠ FUNC_COUNT → field_name s = Ptr n) ∧ range_exp s = range_ptr w
  end.

(** Sums and what is made of them, on columns of numbers. *)
Definition summing (f : function_type) : Prop := f ∈ [FUNC_SUM; FUNC_SQUARE_SUM; FUNC_AVG; FUNC_VAR; FUNC_STD].

Definition aggregated (f : function_type) (vals : list low_data_struct) (v : row_value) : Prop :=
  match f with
  | FUNC_COUNT => counted vals v
  | FUNC_MAX => ∃ d, v = Plain d ∧ extreme (-1) vals d
  | FUNC_MIN => ∃ d, v = Plain d ∧ extreme 1 vals d
  | FUNC_COUNT_DISTINCT => distinct_counted vals v
  | FUNC_OTHER => False
  | _ => AggrTypes.holds vals f v
  end.

(** ** Rows of the result *)

(** The row of the group with the values [k], whose members have the fields [docs]. *)
Record shows_group (items : list select_item) (groups : list (list Z)) (k : list low_data_struct) (docs : list (list field)) (row : select_row_t) : Prop := {
  sg_size : zlen (row_data row) = zlen items;
  sg_fields i n v : groups⟦i⟧ = Some n → k⟦i⟧ = Some v →
    ∃ j c, items⟦j⟧ = Some (ItemColumn n) ∧ (row_data row)⟦j⟧ = Some c ∧ content c = Plain v;
  sg_functions j f n w : items⟦j⟧ = Some (ItemFunc f n w) →
    ∃ c, (row_data row)⟦j⟧ = Some c ∧
      aggregated f ((λ fs, column_of_row fs n) <$> filter (λ fs, passes w fs = true) docs) (content c)
}.

(** ** The source fields *)

Definition sources_ok (fs : select_fields_t) : Prop := typed_fields fs ∧ zlen (fields_name fs) ≤ 1000.

Lemma add_source_ok fs n t fs' : add_source fs n t = Some fs' → sources_ok fs → t ≠ SELECT_TYPE_DELAY → sources_ok fs'.
Proof.
  unfold add_source. case_match eqn:E; [|done]. apply Z.ltb_lt in E. intros [= <-] [[Hl Ht] Hz] Hd. split; [split|]; cbn [fields_name fields_type].
  - rewrite !length_app. simpl. lia.
  - apply Forall_app. split; [done|]. by repeat constructor.
  - rewrite zlen_app. change (zlen [n]) with 1. lia.
Qed.

Lemma group_fields_ok sels names i idx fs idx' fs' : group_fields sels names i idx fs = Some (idx', fs') → sources_ok fs → sources_ok fs'.
Proof.
  revert i idx fs. induction names as [|n names IH]; intros i idx fs; cbn [group_fields]; [by intros [= _ <-]|].
  destruct (add_source fs n SELECT_TYPE_HASH) as [fs1|] eqn:Ea; [|done]. cbn [mbind option_bind].
  destruct (find_selected n sels 0) as [[j|]|]; [| |done]; cbn [mbind option_bind]; intros H Hok; apply add_source_ok in Ea; try done.
  - destruct (idx⟦i := j⟧); [|done]. cbn [mbind option_bind] in H. by apply IH in H.
  - by apply IH in H.
Qed.

Lemma ref_source_ok f n fs j fs' : ref_source f n fs = Some (j, fs') → sources_ok fs → sources_ok fs'.
Proof.
  unfold ref_source. case_bool_decide; [by intros [= _ <-]|]. destruct n as [|n]; [done|]. destruct (index_of n (fields_name fs)); [by intros [= _ <-]|].
  destruct (add_source fs n _) as [fs1|] eqn:Ea; [|done]. cbn [mbind option_bind]. intros [= _ <-] Hok. eapply add_source_ok; [exact Ea|done|].
  by case_bool_decide.
Qed.

Lemma range_sources_ok names tys fs fs' :
  range_sources names tys fs = Some fs' → Forall (λ t, t ≠ SELECT_TYPE_DELAY) tys → sources_ok fs → sources_ok fs'.
Proof.
  revert tys fs. induction names as [|n names IH]; intros [|t tys] fs; cbn [range_sources]; try by intros [= <-].
  intros H [Ht Htys]%Forall_cons Hok. destruct (index_of n (fields_name fs)) as [k|].
  - case_bool_decide; [|by apply (IH _ _ H)]. destruct ((fields_type fs)⟦k := SELECT_TYPE_ORIGINAL⟧) as [ts|] eqn:Es; [|done].
    cbn [mbind option_bind] in H. apply (IH _ _ H); [done|]. apply zset_inv in Es as [_ ->]. destruct Hok as [[Hl Hd] Hz].
    split; [split|done]; cbn [fields_name fields_type]; [by rewrite length_insert|]. by apply Forall_insert.
  - destruct (add_source fs n t) as [fs1|] eqn:Ea; [|done]. cbn [mbind option_bind] in H. apply (IH _ _ H); [done|]. by eapply add_source_ok.
Qed.

Section sources.
Context (gh : low_data_struct → Z).

Lemma aggregate_fields_ok items sels i fs l fs' :
  Forall2 renders items sels → aggregate_fields gh sels i fs = Some (l, fs') → sources_ok fs → sources_ok fs'.
Proof.
  intros Hr. revert i fs l. induction Hr as [|it s items sels Hs _ IH]; intros i fs l; cbn [aggregate_fields]; [by intros [= _ <-]|].
  case_bool_decide as Hf; [|by apply IH]. destruct it as [n|f n w]; [by destruct Hs|]. destruct Hs as (_ & _ & _ & Hw).
  destruct (ref_source (func_type s) (field_name s) fs) as [[j fs1]|] eqn:Er; [|done]. cbn [mbind option_bind]. rewrite Hw. intros H Hok.
  apply ref_source_ok in Er; [|done].
  assert (∃ e fs2 l1, sources_ok fs2 ∧ aggregate_fields gh sels (i + 1) fs2 = Some (l1, fs') ∧ l = Aggregate (func_type s) i j e :: l1) as (e & fs2 & l1 & H2 & H3 & _).
  { destruct w as [w|]; cbn [range_ptr] in H.
    - rewrite GenExp_rpn in H. cbn [mbind option_bind] in H. destruct (range_sources _ _ fs1) as [fs2|] eqn:Es; [|done]. cbn [mbind option_bind] in H.
      destruct (aggregate_fields gh sels (i + 1) fs2) as [[l1 fs3]|] eqn:El; [|done]. cbn [mbind option_bind] in H. injection H as <- <-.
      eexists _, fs2, l1. split; [|done]. apply range_sources_ok in Es; [done| |done]. apply (noted_typed w (Fields [] [])). by split; [|constructor].
    - cbn [mbind option_bind] in H. destruct (aggregate_fields gh sels (i + 1) fs1) as [[l1 fs3]|] eqn:El; [|done]. cbn [mbind option_bind] in H. injection H as <- <-.
      by eexists _, fs1, l1. }
  by apply IH in H3.
Qed.

Lemma group_init_ok items sels groups rs : Forall2 renders items sels → group_init gh sels groups = Some rs → sources_ok (src_fields rs).
Proof.
  intros Hr. unfold group_init. destruct (group_fields sels groups 0 _ _) as [[idx fs1]|] eqn:Eg; [|done]. cbn [mbind option_bind].
  destruct (aggregate_fields gh sels 0 fs1) as [[l fs]|] eqn:Ea; [|done]. cbn [mbind option_bind]. intros [= <-]. cbn [src_fields].
  apply (aggregate_fields_ok items) in Ea; [done|done|]. apply group_fields_ok in Eg; [done|]. split; [by split; [|constructor]|done].
Qed.
End sources.

(** ** Nothing is left to be read later *)

Definition all_original (r : select_row_t) : Prop := Forall (λ t, t = SELECT_TYPE_ORIGINAL) (select_type r).

Lemma fill_group_original r n i idx row row' :
  fill_group r n i idx row = Some row' → all_original r → all_original row → all_original row'.
Proof.
  intros H Hr. revert i row H. induction n as [|n IH]; intros i row; cbn [fill_group]; [by intros [= <-]|].
  destruct (idx⟦i⟧) as [g|]; [|done]. cbn [mbind option_bind]. destruct ((row_data r)⟦i⟧) as [c|]; [|done]. cbn [mbind option_bind].
  destruct (copy_cell c) as [c'|]; [|done]. cbn [mbind option_bind]. destruct ((row_data row)⟦g := c'⟧) as [d|]; [|done]. cbn [mbind option_bind].
  destruct ((select_type r)⟦i⟧) as [t|] eqn:Et; [|done]. cbn [mbind option_bind]. destruct ((select_type row)⟦g := t⟧) as [ts|] eqn:Es; [|done].
  cbn [mbind option_bind]. intros H Ho. apply (IH _ _ H). apply zset_inv in Es as [_ ->]. unfold all_original. cbn [select_type]. apply Forall_insert; [done|].
  pose proof (zget_Some_range _ _ _ Et). rewrite zget_lookup in Et by lia. by apply (Forall_lookup_1 _ _ _ _ Hr Et).
Qed.

Lemma apply_aggregates_types pool l src row rc row' :
  apply_aggregates pool l src row = Some (rc, row') → select_type row' = select_type row.
Proof.
  revert row. induction l as [|a l IH]; intros row; cbn [apply_aggregates]; [by intros [= _ <-]|].
  destruct (match agr_range_exp a with NULL => Some 1 | Ptr e => exp_execute e src end) as [v|]; [|done]. cbn [mbind option_bind].
  destruct (v <? 0); [by intros [= _ <-]|]. destruct (v =? 0); [by apply IH|]. unfold apply_aggregate.
  destruct ((row_data row)⟦agr_index a⟧) as [c|]; [|done]. cbn [mbind option_bind].
  destruct (ComputeFunc pool _ _ _) as [[rc1 w]|]; [|done]. cbn [mbind option_bind]. destruct ((row_data row)⟦_ := _⟧) as [d|]; [|done]. cbn [mbind option_bind].
  destruct (rc1 <? 0); [by intros [= _ <-]|]. intros H. by apply IH in H.
Qed.

Definition heap_original (rs : ResultSet) : Prop := match rs with RS_Group g => Forall all_original (rows g) | _ => True end.

Lemma add_original pool g r rc rs : group_add pool g r = Some (rc, rs) → all_original r → Forall all_original (rows g) → Forall all_original (rows rs).
Proof.
  unfold group_add. destruct (find_group g r) as [[i g1]|] eqn:Ef; [|done]. cbn [mbind option_bind]. intros H Hr Hg.
  assert (Forall all_original (rows g1)) as H1.
  { unfold find_group in Ef. destruct g as [n gn idx l fs m heap]. destruct (group_key r _ 0 idx) as [key|]; [|done]. cbn [mbind option_bind] in Ef.
    destruct (map_get _ _ m _) as [[|p]|]; cbn [mbind option_bind] in Ef; [|by injection Ef as _ <-|done].
    unfold new_group in Ef. cbn [ResultSet.sel_n ResultSet.grp_n ResultSet.grp_index] in Ef. destruct (fill_group r _ 0 idx _) as [row|] eqn:El; [|done]. cbn [mbind option_bind] in Ef.
    destruct (map_put _ _ m _ _) as [m'|]; [|done]. cbn [mbind option_bind] in Ef. injection Ef as _ <-. cbn [rows] in *. apply Forall_app. split; [done|].
    constructor; [|done]. apply fill_group_original in El; [done|done|]. apply Forall_replicate. done. }
  destruct g1 as [n gn idx l fs m heap]. cbn [rows] in H1. destruct (heap !! i) as [row|] eqn:Eh; [|done]. cbn [mbind option_bind] in H.
  destruct (apply_aggregates pool l r row) as [[rc1 row']|] eqn:Ea; [|done]. cbn [mbind option_bind] in H. injection H as _ <-. cbn [rows].
  apply Forall_insert; [done|]. unfold all_original. rewrite (apply_aggregates_types _ _ _ _ _ _ Ea). by apply (Forall_lookup_1 _ _ _ _ H1 Eh).
Qed.

Lemma collect_original pool g l rc rs :
  collect pool (RS_Group g) l = Some (rc, rs) → Forall all_original l → Forall all_original (rows g) → ∃ g', rs = RS_Group g' ∧ Forall all_original (rows g').
Proof.
  intros H Hl. revert g H. induction Hl as [|r l Hr _ IH]; intros g; cbn [collect]; [intros [= _ <-]; by exists g|]. cbn [AddResult].
  destruct (group_add pool g r) as [[rc1 g1]|] eqn:Ea; [|done]. cbn [mbind option_bind]. intros H Hg. pose proof (add_original _ _ _ _ _ Ea Hr Hg) as H1.
  destruct (rc1 <? 0); [injection H as _ <-; by exists g1|]. by apply IH in H.
Qed.

Lemma shown_original g shown : Forall all_original (rows g) → result_rows (RS_Group g) = Some shown → Forall all_original shown.
Proof.
  intros Hg. cbn [result_rows]. destruct (map_values (group_map g)) as [ixs|]; [|done]. cbn [mbind option_bind]. intros H. apply mapM_Some_1 in H.
  induction H as [|i r ixs shown Hi _ IH]; [constructor|]. constructor; [|done]. by apply (Forall_lookup_1 _ _ _ _ Hg Hi).
Qed.

(** ** Grouping documents *)

Lemma Forall2_filter {A B} (R : A → B → Prop) (P : A → Prop) (Q : B → Prop) `{!∀ x, Decision (P x)} `{!∀ y, Decision (Q y)} xs ys :
  Forall2 R xs ys → (∀ x y, R x y → P x ↔ Q y) → Forall2 R (filter P xs) (filter Q ys).
Proof.
  intros Hxs HPQ. induction Hxs as [|x y xs ys Hxy _ IH]; [constructor|]. rewrite !filter_cons. specialize (HPQ x y Hxy).
  destruct (decide (P x)) as [Hx|Hx]; [rewrite decide_True by tauto; by constructor|by rewrite decide_False by tauto].
Qed.

Lemma Forall2_same_fmap {A B C} (R : A → B → Prop) (f : A → C) (g : B → C) xs ys :
  Forall2 R xs ys → (∀ x y, x ∈ xs → R x y → f x = g y) → f <$> xs = g <$> ys.
Proof.
  intros H. induction H as [|x y xs ys Hxy _ IH]; intros Hf; [done|]. cbn [fmap list_fmap]. f_equal; [apply Hf; [by left|done]|].
  apply IH. intros a b Ha. apply Hf. by right.
Qed.

(** The values of the group fields, and the documents that have them. *)
Definition doc_key (groups : list (list Z)) (fs : list field) : list low_data_struct := column_of_row fs <$> groups.
Definition members (groups : list (list Z)) (k : list low_data_struct) (docs : list (list field)) : list (list field) :=
  filter (λ fs, doc_key groups fs = k) docs.

Section grouped.
Context (gh : low_data_struct → Z) (pool : Z) (Hpool : 32 ≤ pool) (ct : list Z → field_types).
Context (items : list select_item) (sels : list select_field) (groups : list (list Z)).

(** The select list has every group field, and functions that there are. *)
Record grouped : Prop := {
  gd_renders : Forall2 renders items sels;
  gd_groups : groups ≠ [] ∧ NoDup groups;
  gd_selected g : g ∈ groups → ItemColumn g ∈ items;
  gd_functions f n w : ItemFunc f n w ∈ items → f ≠ FUNC_OTHER
}.

(** The document has values that the functions and their conditions can compare. *)
Record doc_ok (fs : list field) : Prop := {
  dk_whole n : whole (column_of_row fs n);
  dk_extreme f n w : ItemFunc f n w ∈ items → f = FUNC_MAX ∨ f = FUNC_MIN → fine (ct n) (column_of_row fs n);
  dk_number f n w : ItemFunc f n w ∈ items → summing f → AggrTypes.is_number (ct n) = true ∧ AggrTypes.has_type (ct n) (column_of_row fs n);
  dk_range f n w : ItemFunc f n (Some w) ∈ items → suits w (column_of_row fs)
}.

Context (Hgd : grouped) (rs : GroupRS) (Hrs : group_init gh sels groups = Some rs).
Abbreviation names := (fields_name (src_fields rs)).
Definition reads (fs : list field) (r : select_row_t) : Prop := ∃ h, r = read_row fs names h.

Lemma renders_at j s : sels⟦j⟧ = Some s → ∃ it, items⟦j⟧ = Some it ∧ renders it s.
Proof.
  intros Hs. pose proof (zget_Some_range _ _ _ Hs). rewrite zget_lookup in Hs by lia.
  destruct (Forall2_lookup_r _ _ _ _ _ (gd_renders Hgd) Hs) as (it & Hi & Hr). exists it. split; [|done]. by rewrite zget_lookup by lia.
Qed.

Lemma items_at j it : items⟦j⟧ = Some it → ∃ s, sels⟦j⟧ = Some s ∧ renders it s.
Proof.
  intros Hs. pose proof (zget_Some_range _ _ _ Hs). rewrite zget_lookup in Hs by lia.
  destruct (Forall2_lookup_l _ _ _ _ _ (gd_renders Hgd) Hs) as (s & Hi & Hr). exists s. split; [|done]. by rewrite zget_lookup by lia.
Qed.

Lemma groups_selected : Forall (selected sels) groups.
Proof.
  apply Forall_forall. intros g Hg. pose proof (gd_selected Hgd g Hg) as Hi. apply list_elem_of_lookup in Hi as [i Hi].
  destruct (Forall2_lookup_l _ _ _ _ _ (gd_renders Hgd) Hi) as (s & Hs & Hf & Hn & _). exists s. split; [by eapply list_elem_of_lookup_2|]. by split.
Qed.

(** The values that fit an aggregate. *)
Definition fit (a : aggregate) (d : low_data_struct) : Prop :=
  match agr_func_type a with
  | FUNC_COUNT => True
  | FUNC_MAX | FUNC_MIN => ∃ n, names⟦agr_ref_index a⟧ = Some n ∧ fine (ct n) d
  | FUNC_COUNT_DISTINCT => whole d
  | FUNC_OTHER => False
  | _ => ∃ n, names⟦agr_ref_index a⟧ = Some n ∧ AggrTypes.is_number (ct n) = true ∧ AggrTypes.has_type (ct n) d
  end.

Lemma fit_fine a vals : (agr_func_type a = FUNC_MAX ∨ agr_func_type a = FUNC_MIN) → Forall (fit a) vals → ∃ t, Forall (fine t) vals.
Proof.
  intros Hf H. destruct vals as [|d vals]; [by exists HI_TYPE_NULL|].
  assert (∀ d, fit a d → ∃ n, names⟦agr_ref_index a⟧ = Some n ∧ fine (ct n) d) as Hfit by (intros x Hx; unfold fit in Hx; by destruct Hf as [E|E]; rewrite E in Hx).
  pose proof H as [Hd _]%Forall_cons. destruct (Hfit d Hd) as (n & Hn & _). exists (ct n). eapply Forall_impl; [exact H|].
  intros x Hx. destruct (Hfit x Hx) as (m & Hm & Hfx). congruence.
Qed.

Lemma summing_spec f : f = FUNC_COUNT ∨ f = FUNC_MAX ∨ f = FUNC_MIN ∨ f = FUNC_COUNT_DISTINCT ∨ f = FUNC_OTHER ∨ summing f.
Proof. unfold summing. rewrite !elem_of_cons. destruct f; tauto. Qed.

Lemma fit_summing a d : summing (agr_func_type a) → fit a d →
  ∃ n, names⟦agr_ref_index a⟧ = Some n ∧ AggrTypes.is_number (ct n) = true ∧ AggrTypes.has_type (ct n) d.
Proof. unfold fit, summing. rewrite !elem_of_cons, elem_of_nil. intros [->|[->|[->|[->|[->|[]]]]]]; done. Qed.

Lemma fit_number a vals : summing (agr_func_type a) → Forall (fit a) vals →
  ∃ t, AggrTypes.is_number t = true ∧ Forall (AggrTypes.has_type t) vals.
Proof.
  intros Hf H. destruct vals as [|d vals]; [by exists HI_TYPE_TINY|].
  pose proof H as [Hd _]%Forall_cons. destruct (fit_summing a d Hf Hd) as (n & Hn & Ht & _). exists (ct n). split; [done|].
  eapply Forall_impl; [exact H|]. intros x Hx. destruct (fit_summing a x Hf Hx) as (m & Hm & _ & Hx'). congruence.
Qed.

Lemma summed a vals : summing (agr_func_type a) → Forall (fit a) vals → zlen vals < 2 ^ 32 →
  ∃ v, compute_all pool (agr_func_type a) vals = Some v ∧ AggrTypes.holds vals (agr_func_type a) v.
Proof.
  intros Hf H Hn. destruct (fit_number a vals Hf H) as (t & Ht & Hv). apply (AggrTypes.compute_holds pool t); try done.
  intros E. rewrite E in Hf. unfold summing in Hf. by rewrite !elem_of_cons, elem_of_nil in Hf; destruct Hf as [?|[?|[?|[?|[?|[]]]]]].
Qed.

Lemma fit_supported l : supported pool l fit.
Proof.
  intros a vals _ Hv Hn. destruct (summing_spec (agr_func_type a)) as [Ef|[Ef|[Ef|[Ef|[Ef|Hs]]]]].
  - rewrite Ef. destruct (count_spec pool vals) as (v & Hv' & _). by eexists.
  - destruct (fit_fine a vals) as [t Ht]; [by left|done|]. rewrite Ef. destruct (extreme_spec pool FUNC_MAX (-1) t vals) as (d & Hd & _); [by left|done|]. by eexists.
  - destruct (fit_fine a vals) as [t Ht]; [by right|done|]. rewrite Ef. destruct (extreme_spec pool FUNC_MIN 1 t vals) as (d & Hd & _); [by right|done|]. by eexists.
  - rewrite Ef. destruct (distinct_spec pool vals) as (v & Hv' & _); [|done|by eexists]. eapply Forall_impl; [exact Hv|]. intros d Hd. unfold fit in Hd. by rewrite Ef in Hd.
  - rewrite Ef. destruct vals as [|d vals]; [by eexists|]. apply Forall_cons in Hv as [Hd _]. unfold fit in Hd. by rewrite Ef in Hd.
  - destruct (summed a vals Hs Hv Hn) as (v & E & _). by eexists.
Qed.

(** What the aggregate has computed. *)
Lemma aggregated_spec a vals v :
  compute_all pool (agr_func_type a) vals = Some v → agr_func_type a ≠ FUNC_OTHER → Forall (fit a) vals → zlen vals < 2 ^ 32 →
  aggregated (agr_func_type a) vals v.
Proof.
  intros Hv Hd Hf Hn. destruct (summing_spec (agr_func_type a)) as [E|[E|[E|[E|[E|Hs]]]]]; [| | | |done|].
  - destruct (count_spec pool vals) as (v' & Hv' & Hc). rewrite E in Hv |- *. rewrite Hv in Hv'. by injection Hv' as ->.
  - destruct (fit_fine a vals) as [t Ht]; [by left|done|]. destruct (extreme_spec pool FUNC_MAX (-1) t vals) as (d & Hx & _ & He); [by left|done|].
    rewrite E in Hv |- *. rewrite Hv in Hx. injection Hx as ->. by exists d.
  - destruct (fit_fine a vals) as [t Ht]; [by right|done|]. destruct (extreme_spec pool FUNC_MIN 1 t vals) as (d & Hx & _ & He); [by right|done|].
    rewrite E in Hv |- *. rewrite Hv in Hx. injection Hx as ->. by exists d.
  - destruct (distinct_spec pool vals) as (v' & Hv' & Hc); [|done|].
    + eapply Forall_impl; [exact Hf|]. intros d Hx. unfold fit in Hx. by rewrite E in Hx.
    + rewrite E in Hv |- *. rewrite Hv in Hv'. by injection Hv' as ->.
  - destruct (summed a vals Hs Hf Hn) as (v' & Hv' & Hh). rewrite Hv in Hv'. injection Hv' as <-.
    unfold aggregated, summing in *. revert Hs Hh. rewrite !elem_of_cons, elem_of_nil. by intros [->|[->|[->|[->|[->|[]]]]]].
Qed.

(** *** The rows that are read *)

Lemma read_cell (ns : list (list Z)) fs h i n : ns⟦i⟧ = Some n → (row_data (read_row fs ns h))⟦i⟧ = Some (cell_of fs n).
Proof. intros Hn. cbn [read_row row_data]. by rewrite zget_fmap, Hn. Qed.

Lemma read_argument (ns : list (list Z)) fs h i n : ns⟦i⟧ = Some n → argument (read_row fs ns h) i = Some (column_of_row fs n).
Proof. intros Hn. unfold argument. by rewrite (read_cell ns fs h i n Hn). Qed.

Lemma tested_noted w n : n ∈ tested w → n ∈ fields_name (noted w (Fields [] [])).
Proof. intros Hn. apply noted_names. by right. Qed.

Lemma read_range ns fs h s a w :
  aggregate_for gh ns s a → range_exp s = range_ptr w → clause_ok w fs → in_range a (read_row fs ns h) = passes w fs ∧
  (∀ e, agr_range_exp a = Ptr e → ∃ b : bool, exp_execute e (read_row fs ns h) = Some (if b then 1 else 0)).
Proof.
  intros [_ _ Hall Hr] Hw Hok. unfold in_range. destruct w as [w|].
  - destruct (Hr w Hw) as [-> Hin]. cbn [clause_ok passes] in *.
    assert (exp_execute (tree_of gh w) (read_row fs ns h) = Some (if holds w (column_of_row fs) then 1 else 0)) as E.
    { apply execute_spec, suits_fits; [done|]. intros n Hn. by apply Hin, tested_noted. }
    rewrite E. split; [by destruct (holds w _)|]. intros e [= <-]. rewrite E. by eexists.
  - rewrite (Hall Hw). done.
Qed.

Section places.
Context (idx : list Z) (l : list aggregate).
Context (Hpl : places (zlen sels) (zlen groups) idx l).
Context (Hl : ∀ a, a ∈ l → ∃ s, s ∈ sels ∧ field_type s = FUNCTION_SELECT ∧ aggregate_for gh names s a).
Context (Hnames : ∀ i n, groups⟦i⟧ = Some n → names⟦i⟧ = Some n).

Lemma aggregate_item a : a ∈ l → ∃ f n w s, ItemFunc f n w ∈ items ∧ agr_func_type a = f ∧ range_exp s = range_ptr w ∧ aggregate_for gh names s a ∧
  (f ≠ FUNC_COUNT → names⟦agr_ref_index a⟧ = Some n).
Proof.
  intros Ha. destruct (Hl a Ha) as (s & Hs & Hf & Haf). apply list_elem_of_lookup in Hs as [i Hi].
  destruct (Forall2_lookup_r _ _ _ _ _ (gd_renders Hgd) Hi) as (it & Hit & Hr). apply list_elem_of_lookup_2 in Hit.
  destruct it as [n|f n w]; [by destruct Hr|]. destruct Hr as (_ & Ef & Hn & Hw). exists f, n, w, s. split; [done|].
  split; [by rewrite (af_func _ _ _ _ Haf)|]. split; [done|]. split; [done|]. intros Hc. rewrite <- Ef in Hc. destruct (af_arg _ _ _ _ Haf Hc) as (m & Hm & Hz).
  rewrite Hn in Hm by congruence. by injection Hm as ->.
Qed.

Lemma groups_take fs : take (length groups) (cell_of fs <$> names) = cell_of fs <$> groups.
Proof.
  rewrite <- fmap_take. f_equal. apply list_eq. intros i. destruct (decide (i < length groups)%nat) as [Hi|Hi].
  - rewrite lookup_take_lt by done. apply lookup_lt_is_Some_2 in Hi as [n Hn]. pose proof (Hnames (Z.of_nat i) n) as H. rewrite !zget_of_nat in H.
    by rewrite Hn, H.
  - rewrite lookup_take_ge by lia. symmetry. apply lookup_ge_None. lia.
Qed.

Lemma names_long : zlen groups ≤ zlen names.
Proof.
  destruct (decide (0 < zlen groups)) as [H|H]; [|pose proof (zlen_nonneg names); lia].
  destruct (zget_lt groups (zlen groups - 1)) as [n Hn]; [lia|]. apply Hnames, zget_Some_range in Hn. lia.
Qed.

Lemma read_key fs r : reads fs r → group_values (zlen groups) r = doc_key groups fs.
Proof.
  intros [h ->]. unfold group_values, read_row. cbn [row_data]. unfold zlen. rewrite Nat2Z.id, groups_take. by rewrite <- list_fmap_compose.
Qed.

Lemma read_source fs r : doc_ok fs → reads fs r → source_row (zlen groups) l fit r.
Proof.
  intros [Hw He Hnum Hr] [h ->]. split.
  - unfold plain_row. cbn [read_row row_data]. apply Forall_fmap, Forall_forall. intros n _. by eexists.
  - cbn [read_row row_data select_type]. rewrite !zlen_fmap. split; [apply names_long|done].
  - intros a e Ha Hae. destruct (aggregate_item a Ha) as (f & n & w & s & Hin & _ & Hws & Haf & _).
    apply (read_range names fs h s a w Haf Hws); [|done]. destruct w as [w|]; [|done]. by apply (Hr f n).
  - intros a Ha. destruct (aggregate_item a Ha) as (f & n & w & s & Hin & Ef & Hws & Haf & Harg). unfold fit, arg_of. rewrite Ef.
    pose proof (gd_functions Hgd f n w Hin) as Hd.
    destruct (decide (f = FUNC_COUNT)) as [->|Hne]; [by split; [left|]|]. specialize (Harg Hne). rewrite (read_argument names fs h _ n Harg). cbn [default option.from_option id].
    split; [by right|]. destruct (summing_spec f) as [->|[->|[->|[->|[->|Hs]]]]]; [done|exists n; split; [done|]; by apply (He _ n w Hin); auto..|apply Hw|done|].
    pose proof (Hnum f n w Hin Hs) as Hx. unfold summing in Hs. revert Hs Hx. rewrite !elem_of_cons, elem_of_nil.
    by intros [->|[->|[->|[->|[->|[]]]]]] ?; exists n.
Qed.

(** The row of a group shows the group. *)
Lemma group_row_shows k docs g row :
  (∀ i n, groups⟦i⟧ = Some n → ∃ j s, idx⟦i⟧ = Some j ∧ sels⟦j⟧ = Some s ∧ field_type s ≠ FUNCTION_SELECT ∧ field_name s = Ptr n) →
  (∀ i s, sels⟦i⟧ = Some s → field_type s = FUNCTION_SELECT → ∃ a, a ∈ l ∧ agr_index a = i ∧ aggregate_for gh names s a) →
  Forall2 reads docs g → Forall doc_ok docs → Forall (λ fs, doc_key groups fs = k) docs → docs ≠ [] → zlen docs < 2 ^ 32 →
  group_row pool (zlen sels) (zlen groups) idx l g row → shows_group items groups k docs row.
Proof.
  intros Hg Ha Hdocs Hok Hk Hne Hn [Hz Hf Hagr]. split.
  - rewrite Hz. unfold zlen. by rewrite (Forall2_length _ _ _ (gd_renders Hgd)).
  - intros i n v Hi Hv. destruct (Hg i n Hi) as (j & s & Hj & Hs & Hft & Hfn). destruct (renders_at j s Hs) as (it & Hit & Hr).
    destruct Hdocs as [|fs r docs g [h ->] Hdocs]; [done|]. apply Forall_cons in Hk as [Hk _]. pose proof (zget_Some_range _ _ _ Hi) as Hir.
    exists j, (cell_of fs n). split.
    { destruct it as [m|f m w]; [destruct Hr as (_ & Hm & _); congruence|by destruct Hr]. }
    split; [rewrite (Hf (read_row fs names h) i j) by done; apply read_cell; by apply Hnames|].
    rewrite <- Hk in Hv. unfold doc_key in Hv. rewrite zget_fmap, Hi in Hv. injection Hv as <-. done.
  - intros j f n w Hit. destruct (items_at j _ Hit) as (s & Hs & Hft & <- & Hfn & Hws). destruct (Ha j s Hs Hft) as (a & Hal & Ej & Haf).
    destruct (Hagr a Hal) as (c & Hc & Hcomp). rewrite Ej in Hc. exists c. split; [done|].
    assert (Forall2 (λ fs r, reads fs r ∧ doc_ok fs) docs g) as H2.
    { apply Forall2_same_length_lookup. split; [by eapply Forall2_length|]. intros i fs r Hi Hr. split; [by apply (Forall2_lookup_lr _ _ _ _ _ _ Hdocs Hi Hr)|].
      by apply (Forall_lookup_1 _ _ _ _ Hok Hi). }
    apply (Forall2_filter _ (λ fs, passes w fs = true) (λ r, in_range a r = true)) in H2.
    2: { intros fs r [[h ->] [_ _ _ Hr]]. pose proof (list_elem_of_lookup_2 items (Z.to_nat j) (ItemFunc (func_type s) n w)) as Hin.
      destruct (read_range names fs h s a w Haf Hws) as [-> _]; [|done]. destruct w as [w|]; [|done]. apply (Hr (func_type s) n w), Hin.
      pose proof (zget_Some_range _ _ _ Hit). by rewrite zget_lookup in Hit by lia. }
    pose proof (args_length a g) as Hal2. assert (zlen g = zlen docs) as Hgl by (unfold zlen; by rewrite (Forall2_length _ _ _ Hdocs)).
    assert (Forall (fit a) (args a g)) as Hfit.
    { apply (args_fit (zlen groups) l fit); [done|]. apply Forall_forall. intros r Hr. apply list_elem_of_lookup in Hr as [i Hi].
      destruct (Forall2_lookup_r _ _ _ _ _ Hdocs Hi) as (fs & Hfs & Hrd). apply (read_source fs); [by apply (Forall_lookup_1 _ _ _ _ Hok Hfs)|done]. }
    pose proof (zget_Some_range _ _ _ Hit) as Hjr. rewrite zget_lookup in Hit by lia. apply list_elem_of_lookup_2 in Hit.
    assert (agr_func_type a ≠ FUNC_OTHER) as Hd by (rewrite (af_func _ _ _ _ Haf); by apply (gd_functions Hgd _ n w)).
    pose proof (aggregated_spec a _ _ Hcomp Hd Hfit ltac:(lia)) as Hagg. rewrite (af_func _ _ _ _ Haf) in Hagg.
    destruct (decide (func_type s = FUNC_COUNT)) as [Ec|Ec].
    + rewrite Ec in Hagg |- *. cbn [aggregated] in *. unfold counted in *. rewrite Hagg.
      assert (zlen (args a g) = zlen ((λ fs, column_of_row fs n) <$> filter (λ fs, passes w fs = true) docs)) as El
        by (unfold args; rewrite !zlen_fmap; unfold zlen; by rewrite (Forall2_length _ _ _ H2)).
      assert (args a g = [] ↔ (λ fs, column_of_row fs n) <$> filter (λ fs, passes w fs = true) docs = []) as Enil
        by (rewrite <- !length_zero_iff_nil; unfold zlen in El; lia).
      rewrite El. do 2 case_decide; (done || tauto).
    + replace ((λ fs, column_of_row fs n) <$> filter (λ fs, passes w fs = true) docs) with (args a g); [done|].
      symmetry. unfold args. apply (Forall2_same_fmap _ _ _ _ _ H2). intros fs r _ [[h ->] _]. unfold arg_of.
      destruct (af_arg _ _ _ _ Haf Ec) as (m & Hm & Hz'). rewrite Hfn in Hm by done. injection Hm as <-. by rewrite (read_argument names fs h _ n Hz').
Qed.
End places.

(** *** All groups *)

Lemma members_group k docs rows :
  (∀ fs r, reads fs r → group_values (zlen groups) r = doc_key groups fs) →
  Forall2 reads docs rows → Forall2 reads (members groups k docs) (group_of (zlen groups) k rows).
Proof. intros Hk H. apply Forall2_filter; [done|]. intros fs r Hr. by rewrite (Hk fs r Hr). Qed.

(** The rows that were read are collected to one row per group, which shows it. *)
Lemma groups_collected docs rows :
  Forall2 reads docs rows → Forall doc_ok docs → zlen docs < 2 ^ 31 →
  ∃ rc rs' shown ks heap, collect pool (RS_Group rs) rows = Some (rc, rs') ∧ (rc = 0 ∨ rc = WARN_EXCEED_QUERY_LIMIT) ∧
    result_rows rs' = Some shown ∧ result_size rs' = zlen shown ∧ Forall all_original shown ∧ shown ≡ₚ heap ∧
    NoDup ks ∧ (∀ k, k ∈ ks ↔ k ∈ doc_key groups <$> docs) ∧
    Forall2 (λ k row, shows_group items groups k (members groups k docs) row) ks heap.
Proof.
  intros Hrd Hok Hn. destruct (gd_groups Hgd) as [_ Hnd].
  destruct (group_init_places gh sels groups rs Hrs Hnd groups_selected) as (idx & l & fs & E & Hpl & Hfun & Hagr & Hgrp).
  assert (names = fields_name fs) as En by (by rewrite E). rewrite <- En in Hfun, Hagr. setoid_rewrite <- En in Hgrp.
  assert (∀ i n, groups⟦i⟧ = Some n → names⟦i⟧ = Some n) as Hnames by (intros i n Hi; apply (Hgrp i n Hi)).
  assert (zlen rows = zlen docs) as Hlen by (unfold zlen; by rewrite (Forall2_length _ _ _ Hrd)).
  assert (Forall (source_row (zlen groups) l fit) rows) as Hsrc.
  { apply Forall_forall. intros r Hr. apply list_elem_of_lookup in Hr as [i Hi]. destruct (Forall2_lookup_r _ _ _ _ _ Hrd Hi) as (d & Hd & Hread).
    apply (read_source l Hagr Hnames d); [by apply (Forall_lookup_1 _ _ _ _ Hok Hd)|done]. }
  destruct (group_collect pool (zlen sels) (zlen groups) idx l fs (source_row (zlen groups) l fit) (group_row pool (zlen sels) (zlen groups) idx l)
    (Hgrp := select_grouping pool (zlen sels) (zlen groups) idx l fs fit Hpl (fit_supported l)) rows Hsrc ltac:(lia))
    as (rc & rs' & shown & ks & heap & Hc & Hrc & Hrows & Hsize & Hshown & Hks & Hin & Hgood).
  rewrite <- E in Hc. exists rc, rs', shown, ks, heap. do 4 (split; [done|]). split.
  { destruct (collect_original pool rs rows rc rs' Hc) as (g' & -> & Hg'); [|by rewrite E|by apply (shown_original g')].
    apply Forall_forall. intros r Hr. apply list_elem_of_lookup in Hr as [i Hi]. destruct (Forall2_lookup_r _ _ _ _ _ Hrd Hi) as (d & _ & h & ->).
    unfold all_original. cbn [read_row select_type]. by apply Forall_fmap, Forall_true. }
  split; [done|]. split; [done|].
  assert (∀ d r, reads d r → group_values (zlen groups) r = doc_key groups d) as Hkey by (intros d r; by apply (read_key Hnames)).
  assert (group_values (zlen groups) <$> rows = doc_key groups <$> docs) as Ekeys by (symmetry; apply (Forall2_same_fmap reads); [done|]; intros d r _ Hd; by rewrite (Hkey d r Hd)).
  split; [intros k; by rewrite Hin, Ekeys|].
  apply Forall2_same_length_lookup. split; [by eapply Forall2_length|]. intros i k row Hk Hrow. pose proof (Forall2_lookup_lr _ _ _ _ _ _ Hgood Hk Hrow) as Hgr.
  apply (group_row_shows idx l Hagr Hnames k (members groups k docs) (group_of (zlen groups) k rows) row); try done.
  - intros j n Hj. apply (Hgrp j n Hj).
  - by apply members_group.
  - apply Forall_forall. intros d Hd. apply list_elem_of_filter in Hd as [_ Hd]. by apply (proj1 (Forall_forall _ _) Hok).
  - apply Forall_forall. intros d Hd. by apply list_elem_of_filter in Hd as [? _].
  - apply list_elem_of_lookup_2 in Hk. apply Hin in Hk. rewrite Ekeys in Hk. apply list_elem_of_fmap in Hk as (d & -> & Hd).
    intros Em. assert (d ∈ members groups (doc_key groups d) docs) as Hm by (by apply list_elem_of_filter). rewrite Em in Hm. by apply elem_of_nil in Hm.
  - unfold members, zlen. pose proof (length_filter (λ fs, doc_key groups fs = k) docs). unfold zlen in Hn. lia.
Qed.
End grouped.

From S2P Require Import Prelude FileOp StringMap RowidList SetOperator SegRowid Suffix LowData Compare HashIndex HashIndexSpec HashMemCompress VStorage Hash Column FilterIndex RowData DataField IndexField IndexFieldSpec Segment SegmentSpec Table TableSpec TableIndexSpec Binlog BinlogSpec BinlogSync Slave SlaveSpec DbRecord DbRecordSpec MileArray MileHashMap Row Aggr AggrSpec Expression ResultSet ResultSetSpec GroupSpec DocTable DocScan Execute SelectSpec QuerySpec ScanSpec Db DbRecover CatalogSpec DbSpec DbReplica DbStartSpec DatabaseSpec DbQuery DbSelect.

Section group.
Context {S : Type} `{!Column S, !ColumnLaws S}.
Context (get_hash_value : low_data_struct → Z) (nh : Z) `{!HashLaws get_hash_value nh}.
Context (shared : bool) (junk : Z) (qsort : (Z → Z → Z) → list Z → list Z) `{!QsortLaws qsort}.
Context (N : Z) (HN : 0 < N) (Hmax : 16 * (N + 1) < 2 ^ 31).
Context (M : Z) (HM : 0 < M) (HM33 : M * 33 < 2 ^ 31) (HM16 : M ≤ 2 ^ 16).
Context (types : list Z → field_types) (fits : Z → Prop) (B0 : Z).
Context (config : table_config) (Hcd : 0 < zlen (config_dirs config)) (Hcs : config_segments config = M)
  (Hcl : config_limit config = N) (Hcr : config_raw config = true).

#[local] Instance group_laws : TableLaws (S := S) (calm shared junk qsort) get_hash_value config types :=
  table_laws get_hash_value nh shared junk qsort N HN Hmax M HM HM33 types fits B0 config Hcd Hcs Hcl Hcr.
Abbreviation env0 := (calm shared junk qsort) (only parsing).
Abbreviation scan := (scan get_hash_value nh N types).

(** A query on the table with the select list [its] and the group fields
    [groups]; [ct] are the types of the columns whose extremes are asked for. *)
Record group_query_ok (env : exec_env S) (timeout : Z) ts (p : query_packet) (its : list select_item) (groups : list (list Z))
    (ct : list Z → field_types) (w : option where_expr) (e : option (expr (sought get_hash_value nh (tcols ts)))) : Prop := {
  gq_runs : runs_on get_hash_value nh shared junk qsort env timeout ts (q_filter_cond p) (q_index_cond p) w e;
  gq_array : q_group_array p = groups;
  gq_grouped : grouped its (q_select_field p) groups;
  gq_init : ∃ rs, group_init get_hash_value (q_select_field p) groups = Some rs ∧ MATCHSCORE ∉ fields_name (src_fields rs);
  gq_rows : Forall (doc_ok ct its) (trows ts);
  gq_pool : 32 ≤ block_size env          (* for the arrays of the averages *)
}.

(** The fields of the documents that a query keeps, in the order of the visits. *)
Definition kept ts w (e : option (expr (sought get_hash_value nh (tcols ts)))) (js : list Z) : list (list field) :=
  (λ n, default [] ((trows ts)⟦n⟧)) <$> filter (wanted ts w) (scan ts e js).

Lemma grouped_counts_all its p groups : grouped its (q_select_field p) groups → counts_all p = NULL.
Proof.
  intros [Hr [Hne _] Hsel _]. unfold counts_all. destruct groups as [|g groups]; [done|]. specialize (Hsel g ltac:(by left)).
  destruct Hr as [|it s its sels Hs Hr]; [by apply elem_of_nil in Hsel|]. destruct Hr as [|? ? ? ? _ _]; [|done].
  apply list_elem_of_singleton in Hsel as <-. destruct Hs as (_ & _ & Hf). destruct (q_index_cond p), (q_filter_cond p); try done.
  by rewrite bool_decide_false.
Qed.

Lemma group_spec conf b D L db name ts (env : exec_env S) st timeout p its groups ct w e :
  db_rep env0 get_hash_value config types conf b D L db → D !! name = Some ts → stored N M ts → keyed get_hash_value N types ts →
  group_query_ok env timeout ts p its groups ct w e → exec_db st = db →
  ∃ js, db_seghint_query db name (q_hint p) = Some (Ptr (hints_in N ts js)) ∧ js `sublist_of` seqZ 0 (segs N ts) ∧
    (q_hint p = None → js = seqZ 0 (segs N ts)) ∧ in_time_segments N db name ts (q_hint p) js ∧
    ∃ shown st', run_query env st name p timeout = Some (ResultRows (zlen shown) shown, 0, st') ∧ exec_db st' = db ∧
      ∃ ks rows, shown ≡ₚ rows ∧ NoDup ks ∧ (∀ k, k ∈ ks ↔ k ∈ doc_key groups <$> kept ts w e js) ∧
        Forall2 (λ k row, shows_group its groups k (members groups k (kept ts w e js)) row) ks rows.
Proof.
  intros Hrep Hts Hsto Hkey [Hro Hga Hgd (rs & Hrs & Hms) Hrows Hpool] Hst.
  destruct (visit_spec get_hash_value nh shared junk qsort N HN Hmax M HM HM33 HM16 types fits B0 config Hcd Hcs Hcl Hcr
    conf b D L db name ts env st timeout _ _ (q_hint p) w e Hrep Hts Hsto Hkey Hro Hst)
    as (js & Hq & Hjs & Hall & Htime & sl & st1 & Hix & Hst1 & Hitems & Hv & Hdoc).
  exists js. do 4 (split; [done|]). destruct (ro_clause _ _ _ _ _ _ _ _ _ _ _ _ Hro) as (Hw1 & Hw2 & Hw3).
  set (names := fields_name (src_fields rs)) in *. set (tys := fields_type (src_fields rs)).
  destruct (group_init_ok get_hash_value its _ _ _ (gd_renders _ _ _ Hgd) Hrs) as [[Hlen Htys] Hz]. fold names tys in Hlen, Htys, Hz.
  assert (names ≠ []) as Hne.
  { destruct (gd_groups _ _ _ Hgd) as [Hg0 Hnd]. destruct (group_init_places get_hash_value _ _ _ Hrs Hnd (groups_selected its _ _ Hgd)) as (idx & l & fs & E & _ & _ & _ & Hgrp).
    destruct groups as [|g groups]; [done|]. destruct (Hgrp 0 g eq_refl) as [Hn _]. unfold names. rewrite E. cbn [src_fields]. by destruct (fields_name fs). }
  assert (Exists (λ t, t ≠ SELECT_TYPE_DELAY) tys) as Hex.
  { destruct tys as [|t tys']; [by destruct names|]. constructor. by apply Forall_cons in Htys as [? _]. }
  set (hs := filter (keep N ts w) (items sl)). set (fields h := fields_at N ts h).
  assert (Forall2 (reads rs) (fields <$> hs) (select_row N ts names <$> hs)) as Hreads.
  { apply Forall2_fmap, Forall_Forall2_diag, Forall_forall. intros h _. by exists (Ptr h). }
  assert (fields <$> hs = kept ts w e js) as Ekept.
  { unfold kept, hs. clear -Hitems. induction Hitems as [|h n l ns (_ & En & _) _ IH]; [done|]. rewrite !filter_cons. pose proof (keep_wanted N ts w h n En) as Hk.
    destruct (decide (keep N ts w h)) as [H|H]; [rewrite decide_True by tauto|by rewrite decide_False by tauto].
    cbn [fmap list_fmap]. rewrite <- IH. f_equal. unfold fields, fields_at. by rewrite En. }
  destruct (groups_collected get_hash_value (block_size env) Hpool ct its _ groups Hgd rs Hrs (fields <$> hs) _ Hreads) as
    (rc & rs' & shown & ks & heap & Hc & Hrc & Hrows' & Hsize & Horig & Hshown & Hnd & Hin & Hgood).
  { apply Forall_fmap, Forall_forall. intros h Hh. apply list_elem_of_filter in Hh as [_ Hh]. destruct (Hdoc h Hh) as (fs & E & Hfs & _).
    unfold compose, fields. rewrite E. exact (proj1 (Forall_forall _ _) Hrows fs Hfs). }
  { rewrite zlen_fmap. pose proof (vs_number _ _ _ _ _ Hv). pose proof (length_filter (keep N ts w) (items sl)). unfold hs, zlen in *. lia. }
  destruct (run_collected env N HN db name ts
    (rep_view get_hash_value nh shared junk qsort N HN Hmax M HM HM33 types fits B0 config Hcd Hcs Hcl Hcr conf b D L db name ts Hrep Hts)
    w timeout (ro_time _ _ _ _ _ _ _ _ _ _ _ _ Hro) Hw2 Hw3 names Hms ltac:(lia) st st1 p (RS_Group rs) tys rc rs' shown sl 0%nat Hst
    (grouped_counts_all its p groups Hgd)) as (st' & Hrun & Hst'); try done.
  - unfold query_result. rewrite (ro_hash _ _ _ _ _ _ _ _ _ _ _ _ Hro), Hga, Hrs. destruct (gd_groups _ _ _ Hgd) as [Hg0 _]. rewrite (bool_decide_false (groups = [])) by done. cbn [negb orb mbind option_bind].
    do 2 f_equal. unfold names, tys. by destruct (src_fields rs).
  - exists shown, st'. rewrite <- Hsize. split; [done|]. split; [done|]. exists ks, heap. rewrite <- Ekept. done.
Qed.

End group.

(** The documents by column [n], with their number, the largest [a] and the sum of [a]: row 0 is
    deleted, the two others with "AB" make one row of the result, row 2 the other. *)

Definition demo_items : list select_item := [ItemColumn [110]; ItemFunc FUNC_COUNT [] None; ItemFunc FUNC_MAX [97] None;
  ItemFunc FUNC_SUM [97] None].

Definition demo_group : query_packet :=
  QueryPacket 0 [SelectField VALUE_SELECT (Ptr [110]) FUNC_OTHER NULL NULL; SelectField FUNCTION_SELECT NULL FUNC_COUNT NULL NULL;
    SelectField FUNCTION_SELECT (Ptr [97]) FUNC_MAX NULL NULL; SelectField FUNCTION_SELECT (Ptr [97]) FUNC_SUM NULL NULL] None [] [] [[110]] [] 0.

Lemma demo_grouped : grouped demo_items (q_select_field demo_group) [[110]].
Proof.
  split.
  - by repeat constructor.
  - split; [done|]. apply NoDup_singleton.
  - intros g ->%list_elem_of_singleton. by left.
  - intros f n w. unfold demo_items. rewrite !elem_of_cons, elem_of_nil. by intros [[=]|[[= -> _ _]|[[= -> _ _]|[[= -> _ _]|[]]]]].
Qed.

Lemma demo_group_docs_ok vs : Forall (doc_ok demo_types demo_items) (trows (demo_table vs)).
Proof.
  assert (trows (demo_table vs) = [demo_doc 3; demo_doc 9; [Field [97] (byte_value 3); Field [110] (LowData HI_TYPE_STRING [67] 1)]; demo_doc 3]) as ->
    by (vm_compute; reflexivity).
  assert (∀ fs, row_ok fs → fine HI_TYPE_TINY (column_of_row fs [97]) → AggrTypes.has_type HI_TYPE_TINY (column_of_row fs [97]) →
    doc_ok demo_types demo_items fs) as H.
  { intros fs Hr Hf Ht. split; [intros n; by apply row_whole| | |].
    - intros f n w. unfold demo_items. rewrite !elem_of_cons, elem_of_nil. intros [[=]|[[= -> _ _]|[[= -> -> _]|[[= -> _ _]|[]]]]] [E|E]; done.
    - intros f n w. unfold demo_items. rewrite !elem_of_cons, elem_of_nil. unfold summing. rewrite !elem_of_cons, elem_of_nil.
      intros [[=]|[[= -> _ _]|[[= -> _ _]|[[= -> -> _]|[]]]]]; intros [?|[?|[?|[?|[?|[]]]]]]; done.
    - intros f n w. unfold demo_items. rewrite !elem_of_cons, elem_of_nil. by intros [[=]|[[=]|[[=]|[[=]|[]]]]]. }
  assert (∀ x, 0 ≤ x < 256 → fine HI_TYPE_TINY (byte_value x)) as Hb.
  { intros x Hx. split; [|by split]. right. split; [done|]. split; [done|]. split; [by apply Forall_singleton|right; by eexists]. }
  assert (∀ x, AggrTypes.has_type HI_TYPE_TINY (byte_value x)) as Ht by (intros x; split; [done|]; split; [done|]; by right).
  repeat first [apply Forall_nil_2 | apply Forall_cons_2; [apply H; [split; [done|by repeat constructor|done]|apply Hb; lia|apply Ht]|]].
Qed.

Lemma sum_held vals v :
  AggrTypes.holds vals FUNC_SUM v → non_null vals ≠ [] → v = Plain (a_double (AggrTypes.sum_of plus_number vals)).
Proof. intros H Hne. inversion H as [| |? ? E|? op [[_ ->]|[? _]]| | |]; subst; try done; naive_solver. Qed.

