(* ===== verification/DbModify.v ===== *)
(** * DELETE, UPDATE and INSERT on a database

    The main step changes the documents while its iterator goes on: a document is
    visited once, and the changes of others do not touch it.  The changes are those of
    the same operations on the documents, one after the other. *)

From Stdlib Require Import ZArith Lia.
From stdpp Require Import base option list numbers gmap sets.
From S2P Require Import Prelude FileOp StringMap RowidList SetOperator SegRowid Suffix LowData Compare HashIndex HashIndexSpec HashMemCompress VStorage Hash Column FilterIndex RowData DataField IndexField IndexFieldSpec Segment SegmentSpec Table TableSpec TableIndexSpec Binlog BinlogSpec BinlogSync Slave SlaveSpec DbRecord DbRecordSpec MileArray MileHashMap Row Aggr Expression ResultSet DocTable DocScan Execute SelectSpec QuerySpec ScanSpec Db DbRecover CatalogSpec DbSpec DbReplica DbStartSpec DatabaseSpec DbQuery DbSelect.

Section modify.
Context {S : Type} `{!Column S, !ColumnLaws S}.
Context (get_hash_value : low_data_struct → Z) (nh : Z) `{!HashLaws get_hash_value nh}.
Context (shared : bool) (junk : Z) (qsort : (Z → Z → Z) → list Z → list Z) `{!QsortLaws qsort}.
Context (N : Z) (HN : 0 < N) (Hmax : 16 * (N + 1) < 2 ^ 31).
Context (M : Z) (HM : 0 < M) (HM33 : M * 33 < 2 ^ 31) (HM16 : M ≤ 2 ^ 16).
Context (types : list Z → field_types) (fits : Z → Prop) (B0 : Z).
Context (config : table_config) (Hcd : 0 < zlen (config_dirs config)) (Hcs : config_segments config = M)
  (Hcl : config_limit config = N) (Hcr : config_raw config = true).

#[local] Instance modify_laws : TableLaws (S := S) (calm shared junk qsort) get_hash_value config types :=
  table_laws get_hash_value nh shared junk qsort N HN Hmax M HM HM33 types fits B0 config Hcd Hcs Hcl Hcr.
Abbreviation env0 := (calm shared junk qsort) (only parsing).
Abbreviation db_rep := (db_rep env0 get_hash_value config types).
Abbreviation op_ok := (db_op_ok env0 get_hash_value config types).
Abbreviation view := (rep_view get_hash_value nh shared junk qsort N HN Hmax M HM HM33 types fits B0 config Hcd Hcs Hcl Hcr).
Abbreviation spec := (db_spec get_hash_value N types).
Implicit Types (D : gmap (list Z) table_state) (ns : list Z).

(** ** Changes of documents one after the other *)

Section changes.
Context (mem : list Z) (name : list Z) (op : Z → db_op).

Definition state_after D ns : gmap (list Z) table_state := foldl (λ D n, spec D (op n)) D ns.

Fixpoint allowed_all D ns : Prop :=
  match ns with [] => True | n :: ns => op_ok mem D (op n) ∧ allowed_all (spec D (op n)) ns end.

(** Outside of the documents [ns] the tables agree. *)
Record agree ts ts' ns : Prop := {
  ag_size : zlen (trows ts') = zlen (trows ts);
  ag_rows m : m ∉ ns → (trows ts')⟦m⟧ = (trows ts)⟦m⟧;
  ag_gone m : m ∉ ns → tgone ts' m = tgone ts m
}.

(** The operation changes one document of the table. *)
Definition changes_one : Prop := ∀ D ts n, 0 ≤ n → D !! name = Some ts → ∃ ts', spec D (op n) !! name = Some ts' ∧ agree ts ts' [n].

Lemma state_after_snoc D ns n : state_after D (ns ++ [n]) = spec (state_after D ns) (op n).
Proof. unfold state_after. by rewrite foldl_app. Qed.

Lemma allowed_prefix D ns n ms : allowed_all D (ns ++ n :: ms) → op_ok mem (state_after D ns) (op n).
Proof. revert D. induction ns as [|m ns IH]; intros D [H1 H2]; [done|]. by apply IH. Qed.

Lemma state_agrees D ts ns : changes_one → Forall (λ n, 0 ≤ n) ns → D !! name = Some ts →
  ∃ ts', state_after D ns !! name = Some ts' ∧ agree ts ts' ns.
Proof.
  intros Hone Hns HD. induction ns as [|n ns IH] using rev_ind; [by exists ts|]. apply Forall_app in Hns as [Hns [Hn _]%Forall_cons].
  destruct (IH Hns) as (ts1 & H1 & [Hz Hr Hg]). destruct (Hone (state_after D ns) ts1 n Hn H1) as (ts2 & H2 & [Hz2 Hr2 Hg2]).
  exists ts2. rewrite state_after_snoc. split; [done|].
  split; [congruence| |]; intros m [Hm Hmn]%not_elem_of_app; [rewrite Hr2, Hr by done|rewrite Hg2, Hg by done]; done.
Qed.

Lemma agree_doc ts ts' ns h : agree ts ts' ns → doc_number N h ∉ ns →
  (here N ts h → here N ts' h) ∧ gone_at N ts' h = gone_at N ts h ∧ fields_at N ts' h = fields_at N ts h.
Proof.
  intros [Hz Hr Hg] Hh. unfold here, gone_at, fields_at. rewrite Hz, Hr, Hg by done. done.
Qed.

(** ** The main step *)

Section loop.
Context (env : exec_env S) (timeout : Z) (Hcalm : unhurried env timeout) (conf : db_conf) (b : bool) (sub : ExecuteSubstep).
Context (D : gmap (list Z) table_state) (ts : table_state) (HD : D !! name = Some ts) (Hone : changes_one).
Context (w : option where_expr) (f : list ExecuteSubstep).
Context (Hf : ∀ db' ts', table_view N db' name ts' → filters env N db' name ts' w f).
Implicit Types (hs : list DocHandler) (st : exec_state S).

(** The substep does the operation on the document, with success, and counts it. *)
Definition does_one : Prop := ∀ D' L st h ts' c,
  db_rep conf b D' L (exec_db st) → D' !! name = Some ts' → here N ts' h → op_ok mem D' (op (doc_number N h)) → log_room L →
  ∃ st' L', execute_substep env st name h sub (Counted c) = Some (0, Counted (u32 (c + 1)), st') ∧
    db_rep conf b (spec D' (op (doc_number N h))) L' (exec_db st') ∧ ∀ k, 0 ≤ k → room_of_log L (k + 1) → room_of_log L' k.
Context (Hdo : does_one).

Context (all : list DocHandler) (Hhere : Forall (here N ts) all) (Hclause : Forall (λ h, clause_ok w (fields_at N ts h)) all)
  (Hnd : NoDup (doc_number N <$> all)) (Hlen : zlen all < 2 ^ 31).

(** The documents that are changed when these are visited. *)
Definition changed hs : list Z := doc_number N <$> filter (keep N ts w) hs.
Context (Hok : allowed_all D (changed all)).

Definition modify_inv hs (out : step_output) st : Prop :=
  ∃ visited L, all = visited ++ hs ∧ out = Counted (zlen (changed visited)) ∧
    db_rep conf b (state_after D (changed visited)) L (exec_db st) ∧ room_of_log L (zlen hs).

Lemma changed_app xs ys : changed (xs ++ ys) = changed xs ++ changed ys.
Proof. unfold changed. by rewrite filter_app, fmap_app. Qed.

Lemma changed_keep h : keep N ts w h → changed [h] = [doc_number N h].
Proof. intros Hk. unfold changed. by rewrite filter_cons, filter_nil, decide_True. Qed.

Lemma changed_drop h : ¬ keep N ts w h → changed [h] = [].
Proof. intros Hk. unfold changed. by rewrite filter_cons, filter_nil, decide_False. Qed.

Lemma changed_in xs n : n ∈ changed xs → n ∈ doc_number N <$> xs.
Proof. intros (h & -> & Hh)%list_elem_of_fmap. apply list_elem_of_filter in Hh as [_ Hh]. by apply list_elem_of_fmap_2. Qed.

Lemma number_nonneg h : 0 ≤ doc_number N h.
Proof. unfold doc_number. pose proof (Z.mod_pos_bound (Z.shiftr (docid h) 32) (2 ^ 16) ltac:(lia)). pose proof (u32_bounds (docid h)). unfold sid_of, docid_of, u16. nia. Qed.

Lemma changed_nonneg xs : Forall (λ n, 0 ≤ n) (changed xs).
Proof. unfold changed. apply Forall_fmap, Forall_forall. intros h _. apply number_nonneg. Qed.

(** The documents to come are as they were. *)
Lemma modify_state visited hs L db :
  all = visited ++ hs → db_rep conf b (state_after D (changed visited)) L db →
  ∃ ts', state_after D (changed visited) !! name = Some ts' ∧ table_view N db name ts' ∧
    ∀ h, h ∈ hs → here N ts' h ∧ gone_at N ts' h = gone_at N ts h ∧ fields_at N ts' h = fields_at N ts h.
Proof.
  intros E Hrep. destruct (state_agrees D ts (changed visited) Hone (changed_nonneg visited) HD) as (ts' & Hts' & Ha).
  exists ts'. split; [done|]. split; [exact (view conf b (state_after D (changed visited)) L db name ts' Hrep Hts')|]. intros h Hh.
  assert (doc_number N h ∉ changed visited) as Hni.
  { intros Hin%changed_in. rewrite E, fmap_app in Hnd. apply NoDup_app in Hnd as (_ & Hdis & _). apply (Hdis _ Hin). by apply list_elem_of_fmap_2. }
  destruct (agree_doc ts ts' (changed visited) h Ha Hni) as (H1 & H2 & H3). split; [|done]. apply H1. rewrite E in Hhere.
  apply Forall_app in Hhere as [_ Hhs]. exact (proj1 (Forall_forall _ _) Hhs h Hh).
Qed.

Lemma room_less L n m : n ≤ m → room_of_log L m → room_of_log L n.
Proof. intros Hle [H1 H2]. split; lia. Qed.

Lemma modify_visits : visits env name (f ++ [sub]) (λ _, gone_at N ts) modify_inv (λ _ _ _, False).
Proof.
  split.
  - intros hs out st (v & L & H). by exists v, L.
  - intros hs out st (v & L & E & _ & Hrep & _). destruct (modify_state v hs L _ E Hrep) as (ts' & _ & Hview & Hdocs).
    apply Forall_forall. intros h Hh. destruct (Hdocs h Hh) as (H1 & H2 & _). pose proof (knows_here N HN _ name ts' Hview h H1) as Hk.
    unfold knows in *. by rewrite <- H2.
  - intros h hs out st (v & L & E & Eo & Hrep & Hroom) Hg. exists (v ++ [h]), L. rewrite changed_app, (changed_drop h) by (unfold keep; rewrite Hg; by intros []).
    rewrite app_nil_r, <- app_assoc. split_and!; try done. rewrite zlen_cons in Hroom. apply (room_less L _ (1 + zlen hs)); [lia|done].
  - intros h hs out st rc (v & L & E & -> & Hrep & Hroom) Hg. destruct (modify_state v (h :: hs) L _ E Hrep) as (ts' & Hts' & Hview & Hdocs).
    destruct (Hdocs h ltac:(by left)) as (H1 & H2 & H3).
    assert (clause_ok w (fields_at N ts h)) as Hc by (rewrite E in Hclause; by apply Forall_app in Hclause as [_ [? _]%Forall_cons]).
    pose proof (Hf (exec_db st) ts' Hview st h sub [] rc (Counted (zlen (changed v))) eq_refl H1) as Efil. rewrite H3 in Efil. rewrite Efil by done.
    rewrite zlen_cons in Hroom. destruct (passes w (fields_at N ts h)) eqn:Ep.
    + assert (keep N ts w h) as Hk by done.
      assert (op_ok mem (state_after D (changed v)) (op (doc_number N h))) as Hop.
      { rewrite E, changed_app in Hok. unfold changed at 2 in Hok. rewrite filter_cons, decide_True in Hok by done. by apply allowed_prefix in Hok. }
      destruct (Hdo (state_after D (changed v)) L st h ts' (zlen (changed v)) Hrep Hts' H1 Hop) as (st' & L' & Es & Hrep' & Hroom').
      { destruct Hroom. pose proof (zlen_nonneg hs). split; lia. }
      cbn [execute_substeps]. rewrite Es. cbn [mbind option_bind]. eexists _, _, st'. split; [done|]. change (0 <? 0) with false. cbv iota.
      exists (v ++ [h]), L'. rewrite changed_app, (changed_keep h Hk), state_after_snoc. rewrite <- app_assoc. split; [done|].
      split; [|split; [done|apply Hroom'; [apply zlen_nonneg|by rewrite Z.add_comm]]]. rewrite zlen_app. change (zlen [doc_number N h]) with 1.
      assert (zlen (changed v) < 2 ^ 31) as Hz.
      { rewrite E, zlen_app in Hlen. unfold changed. rewrite zlen_fmap. pose proof (length_filter (keep N ts w) v). pose proof (zlen_nonneg (h :: hs)). unfold zlen in *. lia. }
      pose proof (zlen_nonneg (changed v)). by rewrite u32_small by lia.
    + eexists 1, _, st. split; [done|]. change (1 <? 0) with false. cbv iota. exists (v ++ [h]), L.
      rewrite changed_app, (changed_drop h) by (unfold keep; rewrite Ep; by intros []). rewrite app_nil_r, <- app_assoc. split_and!; try done.
      apply (room_less L _ (1 + zlen hs)); [lia|done].
Qed.
End loop.

(** ** The whole statement *)

(** The numbers of the documents that a statement means. *)
Definition targets ts w (e : option (expr (sought get_hash_value nh (tcols ts)))) (js : list Z) : list Z :=
  filter (wanted ts w) (scan get_hash_value nh N types ts e js).

Lemma modify_spec conf b D L db ts (env : exec_env S) st timeout filter_cond cond hint sub w e :
  db_rep conf b D L db → D !! name = Some ts → stored N M ts → keyed get_hash_value N types ts →
  runs_on get_hash_value nh shared junk qsort env timeout ts filter_cond cond w e → exec_db st = db →
  changes_one → does_one env conf b sub → room_of_log L (zlen (trows ts)) →
  ∃ js, db_seghint_query db name hint = Some (Ptr (hints_in N ts js)) ∧ js `sublist_of` seqZ 0 (segs N ts) ∧
    (hint = None → js = seqZ 0 (segs N ts)) ∧ in_time_segments N db name ts hint js ∧
    (allowed_all D (targets ts w e js) →
     ∃ l st' L', filter_substeps env st name filter_cond = Some l ∧
      ExecutePlan_Execute env st name [IndexStep cond hint; MainStep (Counted 0) (l ++ [sub])] timeout
        = Some (ResultNumber (zlen (targets ts w e js)), 0, st') ∧
      db_rep conf b (state_after D (targets ts w e js)) L' (exec_db st')).
Proof.
  intros Hrep Hts Hsto Hkey Hro Hst Hone Hdo Hroom.
  destruct (visit_spec get_hash_value nh shared junk qsort N HN Hmax M HM HM33 HM16 types fits B0 config Hcd Hcs Hcl Hcr
    conf b D L db name ts env st timeout _ _ hint w e Hrep Hts Hsto Hkey Hro Hst)
    as (js & Hq & Hjs & Hall & Htime & sl & st1 & Hix & Hst1 & Hitems & Hv & Hdoc).
  exists js. do 4 (split; [done|]). intros Hok. destruct (ro_clause _ _ _ _ _ _ _ _ _ _ _ _ Hro) as (-> & Hw2 & Hw3).
  destruct (filter_step env N HN db name ts (view conf b D L db name ts Hrep Hts) w Hw2 Hw3 st Hst) as (f & Hf & Hfs).
  assert (doc_number N <$> items sl = scan get_hash_value nh N types ts e js) as Enum.
  { clear -Hitems. induction Hitems as [|h n hs ns (_ & En & _) _ IH]; [done|]. cbn [fmap list_fmap]. by rewrite IH, En. }
  assert (changed ts w (items sl) = targets ts w e js) as Ech.
  { unfold changed, targets. rewrite <- Enum. clear. induction (items sl) as [|h hs IH]; [done|]. cbn [fmap list_fmap]. rewrite !filter_cons.
    pose proof (keep_wanted N ts w h _ eq_refl) as Hk. destruct (decide (keep N ts w h)) as [H|H].
    - rewrite decide_True by tauto. cbn [fmap list_fmap]. by rewrite IH.
    - by rewrite decide_False by tauto. }
  assert (NoDup (doc_number N <$> items sl)) as Hnd by (rewrite Enum; by apply scan_NoDup).
  destruct (main_step_rule env name (f ++ [sub]) timeout (ro_time _ _ _ _ _ _ _ _ _ _ _ _ Hro) (λ _, gone_at N ts)
    (modify_inv conf b D ts w (items sl)) (λ _ _ _, False) (tick st1) sl 0 0%nat (Counted 0) 0)
    as (rc & out & st2 & H & Em).
  - apply (modify_visits env conf b sub D ts Hts Hone w f Hfs Hdo (items sl)); try apply Hv; [done|]. by rewrite Ech.
  - apply Hv.
  - exists [], L. split; [done|]. split; [done|]. cbn [exec_db tick]. rewrite Hst1. split; [done|].
    apply (room_less L _ (zlen (trows ts))); [|done]. pose proof (scan_length get_hash_value nh N HN types ts e js Hjs) as Hl. rewrite <- Enum in Hl.
    by rewrite zlen_fmap in Hl.
  - apply Hv.
  - done.
  - destruct H as [[Hrc (v & L' & E & -> & Hrep' & _)]|[_ []]]. rewrite app_nil_r in E. subst v. rewrite Ech in *.
    exists f, (tick st2), L'. split; [done|]. split; [|done]. unfold ExecutePlan_Execute. cbn [execute_steps execute_step]. rewrite Hix.
    cbn [mbind option_bind]. change (0 <? 0) with false. cbv iota. rewrite (late_unhurried env timeout) by apply Hro. rewrite Em. cbn [result_of mbind option_bind].
    rewrite (proj2 (Z.leb_le 0 rc)), orb_true_r by done. change (0 <? 0) with false. cbv iota. by rewrite (late_unhurried env timeout) by apply Hro.
Qed.
End changes.

(** ** Deletions and updates *)

Lemma log_entry b c (L L' : list binlog_record) mem :
  change_ok mem c → entry b c L L' → ∀ k, 0 ≤ k → room_of_log L (k + 1) → room_of_log L' k.
Proof.
  intros Hc He k Hk Hroom. destruct b; cbn [entry] in He; [by apply (entry_rooms mem c L L')|]. subst. destruct Hroom. split; lia.
Qed.

Lemma deletes_one name : changes_one name (DDelete name).
Proof.
  intros D ts n Hn HD. eexists. cbn [db_spec]. rewrite lookup_insert_eq. split; [done|]. unfold table_at. rewrite HD. cbn [default option.from_option id].
  split; cbn [table_spec trows tgone]; [done..|]. intros m Hm. rewrite bool_decide_false; [done|]. intros ->. apply Hm. by left.
Qed.

Lemma updates_one name new : changes_one name (λ n, DUpdate name n new).
Proof.
  intros D ts n Hn HD. eexists. cbn [db_spec]. rewrite lookup_insert_eq. split; [done|]. unfold table_at. rewrite HD. cbn [default option.from_option id].
  split; cbn [table_spec trows tgone]; [by rewrite zlen_insert| |done]. intros m Hm. rewrite zget_insert_ne; [done|done|]. intros ->. apply Hm. by left.
Qed.

Section do.
Context (env : exec_env S) (Hhash : hash_value env = get_hash_value).
Context (conf : db_conf) (b : bool) (mem : list Z).
Context (Hio : ∀ i, calm_db env0 get_hash_value config types mem (io_at env i)).

Lemma delete_does name : does_one mem name (DDelete name) env conf b DeleteSubstep.
Proof.
  intros D L st h ts c Hrep HD Hh Hop Hroom. destruct (here_place N ts h HN Hh) as (Es & Ed & _).
  destruct (delete_holds env0 get_hash_value config types conf mem b D L (exec_db st) (io_at env (asked st)) name (doc_number N h) Hrep (Hio _) Hop Hroom)
    as (db' & L' & E & Hrep' & He). rewrite Hcl in E, Hrep', He.
  cbn [execute_substep]. unfold ask, DeleteRow. rewrite Es, Ed, E. cbn [mbind option_bind]. eexists _, L'. split; [done|]. split; [done|].
  apply (log_entry b (CDelete name (doc_number N h / N) (doc_number N h `mod` N)) L L' mem); [|done]. destruct Hop as [Hc _]. apply Hc. cbn [change_of]. by rewrite Hcl.
Qed.

Lemma update_does name new : does_one mem name (λ n, DUpdate name n new) env conf b (UpdateSubstep (RowData.Row [new] 1)).
Proof.
  intros D L st h ts c Hrep HD Hh Hop Hroom. destruct (here_place N ts h HN Hh) as (Es & Ed & _).
  destruct (update_holds env0 get_hash_value config types conf mem b D L (exec_db st) (io_at env (asked st)) name (doc_number N h) new Hrep (Hio _) Hop Hroom)
    as (old & db' & L' & E & Hrep' & He). rewrite Hcl in E, Hrep', He.
  cbn [execute_substep]. unfold ask, UpdateRow. cbn [field_count datas]. change (1 <? 1) with false. cbv iota. change ([new]⟦0⟧) with (Some new). cbn [mbind option_bind].
  rewrite Hhash, Es, Ed, E. cbn [mbind option_bind]. eexists _, L'. split; [done|]. split; [done|].
  apply (log_entry b (CUpdate name (doc_number N h / N) (doc_number N h `mod` N) new) L L' mem); [|done]. destruct Hop as [Hc _]. apply Hc. cbn [change_of]. by rewrite Hcl.
Qed.
End do.

(** What the deletions of [ns] make of a table, and the updates. *)
Record after_deletes ts ns ts' : Prop := {
  ad_cols : tcols ts' = tcols ts;
  ad_rows : trows ts' = trows ts;
  ad_gone m : tgone ts' m = bool_decide (m ∈ ns) || tgone ts m
}.

Record after_updates ts (new : field) ns ts' : Prop := {
  au_cols : tcols ts' = tcols ts;
  au_size : zlen (trows ts') = zlen (trows ts);
  au_new m : m ∈ ns → (trows ts')⟦m⟧ = (λ fs, set_field fs new) <$> (trows ts)⟦m⟧;
  au_same m : m ∉ ns → (trows ts')⟦m⟧ = (trows ts)⟦m⟧;
  au_gone m : tgone ts' m = tgone ts m
}.

Lemma state_deletes D name ts ns : D !! name = Some ts →
  ∃ ts', state_after (DDelete name) D ns = <[name := ts']> D ∧ after_deletes ts ns ts'.
Proof.
  intros HD. induction ns as [|n ns (ts1 & E1 & [Hc Hr Hg])] using rev_ind.
  { exists ts. split; [by rewrite insert_id|]. by split. }
  eexists. rewrite state_after_snoc, E1. cbn [db_spec]. split; [unfold table_at; rewrite lookup_insert_eq; by rewrite insert_insert_eq|].
  cbn [default option.from_option id table_spec]. split; cbn [tcols trows tgone]; [done..|]. intros m. rewrite Hg, orb_assoc. f_equal.
  apply Bool.eq_true_iff_eq. rewrite orb_true_iff, !bool_decide_eq_true, elem_of_app, list_elem_of_singleton. tauto.
Qed.

Lemma state_updates D name ts new ns : NoDup ns → Forall (λ n, 0 ≤ n < zlen (trows ts)) ns → D !! name = Some ts →
  ∃ ts', state_after (λ n, DUpdate name n new) D ns = <[name := ts']> D ∧ after_updates ts new ns ts'.
Proof.
  intros Hnd Hns HD. induction ns as [|n ns IH] using rev_ind.
  { exists ts. split; [by rewrite insert_id|]. split; try done. by intros m ?%elem_of_nil. }
  apply NoDup_app in Hnd as (Hnd & Hdis & _). apply Forall_app in Hns as [Hns [Hn _]%Forall_cons].
  assert (n ∉ ns) as Hni by (intros Hin; apply (Hdis n Hin); by left).
  destruct (IH Hnd Hns) as (ts1 & E1 & [Hc Hz Hw Hr Hg]).
  eexists. rewrite state_after_snoc, E1. cbn [db_spec]. split; [unfold table_at; rewrite lookup_insert_eq; by rewrite insert_insert_eq|].
  cbn [default option.from_option id table_spec]. split; cbn [tcols trows tgone]; [done|by rewrite zlen_insert| | |done].
  - intros m [Hm| ->%list_elem_of_singleton]%elem_of_app.
    + assert (m ≠ n) as Hne by (intros ->; done). pose proof (proj1 (Forall_forall _ _) Hns m Hm) as Hm0. cbv beta in Hm0. rewrite zget_insert_ne by lia. by apply Hw.
    + rewrite zget_insert_eq by lia. rewrite Hr by done. by destruct (zget_lt (trows ts) n Hn) as [fs ->].
  - intros m [Hm Hne]%not_elem_of_app. rewrite zget_insert_ne; [by apply Hr|lia|]. intros ->. apply Hne. by left.
Qed.

Lemma deletes_allowed mem name D ts ns :
  name_ok name → D !! name = Some ts → zlen (trows ts) ≤ N * M → Forall (λ n, 0 ≤ n < zlen (trows ts)) ns →
  allowed_all mem (DDelete name) D ns.
Proof.
  intros Hname HD Hrows Hns. revert D ts HD Hrows Hns. induction ns as [|n ns IH]; intros D ts HD Hrows; [done|]. intros [Hn Hns]%Forall_cons. split.
  - split; [|split; [by eexists|]].
    + intros c [= <-]. cbn [change_ok]. rewrite Hcl. split; [done|]. pose proof (Z.mod_pos_bound n N HN).
      pose proof (Z.div_pos n N ltac:(lia) HN). pose proof (Z.div_lt_upper_bound n N M HN ltac:(lia)). split; lia.
    + unfold table_at. by rewrite HD.
  - eapply (IH _ (table_spec get_hash_value N types ts (TDelete n))); [|done..].
    cbn [db_spec]. unfold table_at. rewrite HD. by rewrite lookup_insert_eq.
Qed.

(** The table takes the new field in each of the documents [ns]. *)
Definition total_bytes (rows : list (list field)) : Z := foldr (λ fs a, zlen (encode_row fs) + a) 0 rows.

Definition renewed ts (new : field) (n : Z) : list field := set_field (default [] ((trows ts)⟦n⟧)) new.

Record takes (mem : list Z) ts (new : field) ns : Prop := {
  tk_field : name_ok (RowData.field_name new) ∧ RowData.field_name new ∉ tcols ts;
  tk_data : zlen (data (fdata new)) = len (fdata new) ∧ len (fdata new) < 2 ^ 30;
  tk_memory : 8 ≤ zlen mem;
  tk_rows : Forall (λ n, row_ok (renewed ts new n) ∧ zlen (encode_row (renewed ts new n)) ≤ zlen mem ∧ fits (zlen (encode_row (renewed ts new n)))) ns;
  tk_room : B0 + tbytes ts + total_bytes (renewed ts new <$> ns) < 2 ^ 64
}.

Lemma total_nonneg rows : 0 ≤ total_bytes rows.
Proof. induction rows as [|fs rows IH]; cbn [total_bytes foldr]; [lia|]. fold (total_bytes rows). pose proof (zlen_nonneg (encode_row fs)). lia. Qed.

Lemma updates_allowed mem name new D ts ns :
  name_ok name → D !! name = Some ts → zlen (trows ts) ≤ N * M → Forall (λ n, 0 ≤ n < zlen (trows ts)) ns → NoDup ns → takes mem ts new ns →
  allowed_all mem (λ n, DUpdate name n new) D ns.
Proof.
  intros Hname HD Hrows Hns Hnd Hts. revert D ts HD Hrows Hns Hts. induction Hnd as [|n ns Hni Hnd IH]; intros D ts HD Hrows; [done|].
  intros [Hn Hns]%Forall_cons [[Hf1 Hf2] [Hd1 Hd2] H8 [(Hok & Hz & Hfit) Hall]%Forall_cons Hroom]. cbn [fmap list_fmap total_bytes foldr] in Hroom.
  fold (total_bytes (renewed ts new <$> ns)) in Hroom. split.
  - split; [|split; [by eexists|]].
    + intros c [= <-]. cbn [change_ok]. rewrite Hcl. pose proof (Z.mod_pos_bound n N HN).
      pose proof (Z.div_pos n N ltac:(lia) HN). pose proof (Z.div_lt_upper_bound n N M HN ltac:(lia)). unfold place_ok. split_and!; (done || lia).
    + unfold table_at. rewrite HD. cbn [default option.from_option id]. pose proof (total_nonneg (renewed ts new <$> ns)). unfold renewed in *.
      split; [done|]. split; [done|]. split_and!; (done || lia).
  - assert (∀ m, m ∈ ns → renewed (table_spec get_hash_value N types ts (TUpdate n new)) new m = renewed ts new m) as Hsame.
    { intros m Hm. unfold renewed. cbn [table_spec trows]. rewrite zget_insert_ne; [done|lia|]. by intros ->. }
    eapply (IH _ (table_spec get_hash_value N types ts (TUpdate n new))).
    + cbn [db_spec]. unfold table_at. rewrite HD. by rewrite lookup_insert_eq.
    + cbn [table_spec trows]. by rewrite zlen_insert.
    + cbn [table_spec trows]. by rewrite zlen_insert.
    + split; try done.
      * apply Forall_forall. intros m Hm. rewrite Hsame by done. exact (proj1 (Forall_forall _ _) Hall m Hm).
      * rewrite (list_fmap_ext _ (renewed ts new) ns) by (intros i m Hm; apply Hsame; by eapply list_elem_of_lookup_2).
        cbn [table_spec tbytes]. unfold renewed in Hroom. unfold renewed. lia.
Qed.

Lemma targets_range ts w e js : js `sublist_of` seqZ 0 (segs N ts) → Forall (λ n, 0 ≤ n < zlen (trows ts)) (targets ts w e js).
Proof.
  intros Hjs. apply Forall_forall. intros n [_ Hn]%list_elem_of_filter.
  assert (Forall (λ j, 0 ≤ j) js) as Hseg.
  { apply Forall_forall. intros j Hj. eapply elem_of_submseteq in Hj; [|by apply sublist_submseteq]. apply elem_of_seqZ in Hj. lia. }
  destruct e as [e|]; [by apply (scan_found_range N HN ts (matches_at get_hash_value nh types ts e) js)|by apply (scan_all_range N HN ts js)].
Qed.

Lemma targets_NoDup ts w e js : js `sublist_of` seqZ 0 (segs N ts) → NoDup (targets ts w e js).
Proof. intros Hjs. by apply NoDup_filter, scan_NoDup. Qed.

(** ** The theorems *)


(** The id of the table's [n]-th row: its segment, then its number there. *)
Definition row_id (n : Z) : Z := full_docid (n / N) (n `mod` N).

(** C7: an INSERT, on a database after any run from empty directories.  The
    statement returns the id of the document: the table's next place, as segment
    and number in it.  Afterwards the table, made now if it was not there, has the row
    at its end, and nothing else has changed. *)
Theorem insert_correct fuel sio conf mem (ops : list (db_io S * db_op)) :
  calm_start sio → conf_ok M config conf → db_ops_ok env0 get_hash_value config types mem ∅ ops → zlen ops + 1 < 2 ^ 29 →
  let D := db_specs get_hash_value config types ∅ ops in
  ∃ db0 db, db_init env0 get_hash_value (Datatypes.S fuel) sio conf (no_db_files M) = Some (0, db0) ∧
    db_run env0 get_hash_value N types db0 ops = Some db ∧
    ∀ name fs env timeout asked reads, op_ok mem D (DInsert name fs) →
      fields_env env = env0 → hash_value env = get_hash_value → unhurried env timeout →
      (∀ i, calm_db env0 get_hash_value config types mem (io_at env i) ∧ lock_ok (call_io (io_at env i)) = true) →
      let n := zlen (trows (table_at D name)) in
      ∃ st', run_insert env (Exec db asked reads) name fs timeout = Some (HandlerId (row_id n), 0, st') ∧
        shows get_hash_value N (λ v, key_of get_hash_value v ≠ Some nh) (spec D (DInsert name fs)) (exec_db st').
Proof.
  intros Hs Hc Hops Hn D.
  destruct (after_run get_hash_value nh shared junk qsort N HN Hmax M HM HM33 types fits B0 config Hcd Hcs Hcl Hcr
    fuel sio conf mem ops Hs Hc ltac:(lia) Hops) as (db0 & db & L & H0 & Hrun & Hrep & Hroom & _).
  exists db0, db. split; [done|]. split; [done|]. intros name fs env timeout a r Hop He Hh Ht Hio n.
  destruct (Hio a) as [Hio' Hlock]. clear Hio. rename Hio' into Hio. assert (may_have D name) as Hhave by apply Hop. destruct Hc as [Hcf Hseg _ _]. rewrite <- Hcs in Hseg.
  destruct (ensure_db env0 get_hash_value config types conf Hcf Hseg (binlog_flag conf) D L db (io_at env a) name Hrep Hhave ltac:(apply Hio)) as (db1 & E1 & Hrep1).
  pose proof (insert_holds env0 get_hash_value config types conf Hcf Hseg mem (binlog_flag conf) (ensured D name) L db1 (io_at env a) name fs 0 0 DOCID_BY_SELF
    Hrep1 Hio (insert_ok_ensured env0 get_hash_value config types mem D name fs Hop)) as Hi.
  rewrite ensured_at in Hi. fold n in Hi. destruct Hi as (db2 & L2 & E2 & Hrep2 & _); [|done|].
  { specialize (Hroom 0 ltac:(lia)). destruct Hroom; [lia|]. split; lia. }
  assert (db_spec get_hash_value (config_limit config) types (ensured D name) (DInsert name fs) = spec D (DInsert name fs)) as Espec.
  { rewrite Hcl. cbn [db_spec]. rewrite ensured_at. apply insert_insert_eq. }
  rewrite Espec in Hrep2. rewrite Hcl in E2.
  assert (ensure_table env0 (io_at env a) db2 name = Some db2) as E3.
  { apply (ensure_same env0 get_hash_value config types conf (binlog_flag conf) (spec D (DInsert name fs)) L2); [done|]. cbn [db_spec]. rewrite lookup_insert_eq. by eexists. }
  eexists. split.
  - unfold run_insert, analyze_insert, ExecutePlan_Execute. cbn [execute_steps execute_step]. unfold insert_step, ask, InsertRow, db_lock_table, db_unlock_table.
    cbn [exec_db asked]. rewrite He, Hh, E1. cbn [mbind option_bind]. unfold table_lock. rewrite Hlock. simpl (negb _). cbv iota. rewrite E2. cbn [mbind option_bind].
    rewrite E3. cbn [mbind option_bind fst snd docid]. change (0 <? 0) with false. cbv iota. by rewrite (late_unhurried env timeout).
  - cbn [exec_db tick]. 
    assert (shows get_hash_value (config_limit config) (λ v, key_of get_hash_value v ≠ Some nh) (spec D (DInsert name fs)) db2) as Hsh
      by exact (rep_shows env0 get_hash_value config types conf (binlog_flag conf) _ L2 _ Hrep2).
    rewrite Hcl in Hsh. exact Hsh.
Qed.
End modify.

(** Of rows 0 to 3 the first is deleted before; 1 and 3 have "AB" in column [n].  One
    statement deletes these two, the other gives them another value, which the
    where clause would not accept. *)

Definition demo_delete : delete_packet := DeletePacket None [] (rpn demo_clause).

Definition demo_new : field := Field [110] (LowData HI_TYPE_STRING [68] 1).

Definition demo_update : update_packet := UpdatePacket demo_new None [] (rpn demo_clause).

Lemma demo_runs vs : runs_on (S := vstorage_manager) demo_hash 77 false 0 merge_qsort (demo_exec vs) 0 (demo_table vs) (rpn demo_clause) [] (Some demo_clause) None.
Proof.
  split; try done; [split; [done|]; split; [intros H%list_elem_of_singleton; discriminate H|done]|apply demo_rows_suit|vm_compute; lia].
Qed.

Lemma demo_targets vs : targets demo_hash 77 2 demo_types (demo_table vs) (Some demo_clause) None (seqZ 0 (segs 2 (demo_table vs))) = [3; 1].
Proof. vm_compute. reflexivity. Qed.

Lemma demo_takes vs : takes demo_fits 0 demo_pool (demo_table vs) demo_new [3; 1].
Proof.
  split; [|split; vm_compute; done|vm_compute; done| |vm_compute; reflexivity].
  - split; [split; [vm_compute; reflexivity|by apply Forall_singleton]|]. intros H. vm_compute in H. set_unfold in H. destruct H as [H|[]]; discriminate H.
  - apply Forall_cons_2; [|apply Forall_singleton]; (split; [demo_fields|]); split; vm_compute; discriminate.
Qed.



Lemma demo_insert_ok vs : db_op_ok (Laws := demo_laws) (calm false 0 merge_qsort) demo_hash demo_config demo_types demo_pool
  (db_specs demo_hash demo_config demo_types ∅ (demo_db_run vs)) (DInsert [118] (demo_doc 7)).
Proof. demo_db_op. Qed.

Lemma insert_correct_witness :
  ∃ vs db0 db st', vstorage_init true false 0 [] [] 2 = Ptr vs ∧
    db_init (calm false 0 merge_qsort) demo_hash 1 (demo_start vs) (demo_conf false) (no_db_files 3) = Some (0, db0) ∧
    db_run (calm false 0 merge_qsort) demo_hash 2 demo_types db0 (demo_db_run vs) = Some db ∧
    run_insert (demo_exec vs) (Exec db 0 0) [118] (demo_doc 7) 0 = Some (HandlerId 0, 0, st') ∧
    db_data_query_row (exec_db st') [118] 0 0 = Some (Ptr (RowData.Row (demo_doc 7) 2)) ∧
    db_is_docid_deleted (exec_db st') [118] 0 0 = Some 0.
Proof.
  destruct demo_table_store as (vs & Hvs & Hst & Hsz).
  destruct (insert_correct demo_hash 77 (HashLaws0 := demo_hash_laws) false 0 merge_qsort (QsortLaws0 := merge_qsort_laws)
    2 eq_refl eq_refl 3 eq_refl eq_refl demo_types demo_fits 0 demo_config eq_refl eq_refl eq_refl eq_refl
    0 (demo_start vs) (demo_conf false) demo_pool (demo_db_run vs)) as (db0 & db & H0 & Hrun & Hq);
    [apply demo_starts|apply demo_conf_ok|by apply demo_db_ok|vm_compute; reflexivity|].
  destruct (Hq [118] (demo_doc 7) (demo_exec vs) 0 0%nat 0%nat) as (st' & Hr & Hshow); [exact (demo_insert_ok vs)|reflexivity|reflexivity|by split|intros i; split; [by apply demo_db_calm|reflexivity]|].
  exists vs, db0, db, st'. do 3 (split; [assumption|]). split; [exact Hr|].
  specialize (Hshow [118]). cbn [db_spec] in Hshow. rewrite lookup_insert_eq in Hshow. destruct Hshow as (Hrow & Hd & _).
  split; [apply (Hrow 0); vm_compute; reflexivity|apply (Hd 0); vm_compute; done].
Defined.
