(* ===== verification/Packet.v ===== *)
(** * Packets of statements ([src/protocol/packet.cpp], [packet.h], [docdb_packet.c])

    The body of a received message is read into the structures of [packet.h].  The
    numbers of the enumerations stay numbers here, as the reader looks at few of
    them; [Server] gives them their meaning.  A read behind the end gives zeros and
    is noticed once, at the end of the packet. *)

From Stdlib Require Import ZArith Lia.
From stdpp Require Import base option list numbers.
From S2P Require Import Prelude LowData MileArray DataBuffer.

#[local] Open Scope mile_scope.

(** ** Reading *)

Definition reads (A : Type) : Type := data_buffer → option (A * data_buffer).

Definition give {A} (a : A) : reads A := λ b, Some (a, b).

Definition read_bind {A B} (p : reads A) (q : A → reads B) : reads B := λ b, '(a, b) ← p b; q a b.

Notation "x ⇠ p ; q" := (read_bind p (λ x, q)) (at level 20, p at level 100, q at level 200, only parsing) : mile_scope.
Notation "' x ⇠ p ; q" := (read_bind p (λ x, q)) (at level 20, x pattern, p at level 100, q at level 200, only parsing) : mile_scope.

Definition ERROR_PACKET_FORMAT : Z := -1002.

(** A value on the wire: the number of its type, its bytes in memory, their number. *)
Record dyn_value := Dyn { dyn_type : Z; dyn_data : list Z; dyn_len : Z }.
Definition zero_dyn : dyn_value := Dyn 0 [] 0.

Record wire_condition := WCond {
  wc_type : Z;
  wc_field_name : ptr (list Z);
  wc_comparator : Z;
  wc_values : list dyn_value
}.
Definition zero_condition : wire_condition := WCond 0 NULL 0 [].

Record wire_select := WSelect {
  ws_type : Z;
  ws_field_name : ptr (list Z);
  ws_alise_name : ptr (list Z);
  ws_func_type : Z;
  ws_select_name : ptr (list Z);
  ws_range_exp : ptr (list wire_condition)
}.
Definition zero_select : wire_select := WSelect 0 NULL NULL 0 NULL NULL.

Record wire_insert := WInsert { wi_table_name : ptr (list Z); wi_datas : list (ptr (list Z) * dyn_value) }.

(** [hi_array.hints], NULL when the number of hints was not 4. *)
Record wire_delete := WDelete {
  wd_table_name : ptr (list Z);
  wd_hints : ptr (list Z);
  wd_index_cond : list wire_condition;
  wd_filter_cond : list wire_condition
}.

Record wire_update := WUpdate {
  wu_table_name : ptr (list Z);
  wu_field_name : ptr (list Z);
  wu_data : dyn_value;
  wu_hints : ptr (list Z);
  wu_index_cond : list wire_condition;
  wu_filter_cond : list wire_condition
}.

Record wire_export := WExport {
  we_table_name : ptr (list Z);
  we_save_path : ptr (list Z);
  we_hints : ptr (list Z);
  we_index_cond : list wire_condition;
  we_filter_cond : list wire_condition;
  we_limit : Z
}.

Record wire_query := WQuery {
  wq_access_type : Z;
  wq_table_name : ptr (list Z);
  wq_hints : ptr (list Z);
  wq_select_field : list wire_select;
  wq_index_cond : list wire_condition;
  wq_filter_cond : list wire_condition;
  wq_group_array : list (ptr (list Z));
  wq_group_order_array : list (ptr (list Z) * Z);
  wq_group_limit : Z;
  wq_order_array : list (ptr (list Z) * Z);
  wq_limit : Z
}.

Record wire_get_kvs := WGetKvs {
  wg_table_name : ptr (list Z);
  wg_select_field : list wire_select;
  wg_docids : list Z
}.

Section packets.
Context (pool : Z).   (* the block size of the memory pool *)

(** Memory that is cleared or written at once: a request that is larger than a block
    of the pool gives NULL. *)
Definition alloc (n : Z) : reads unit := λ b, if pool <? n then None else Some (tt, b).

(** [read_cstring] with the pool. *)
Definition read_name : reads (ptr (list Z)) := λ b,
  '(s, b) ← read_cstring b;
  match s with
  | NULL => Some (NULL, b)
  | Ptr s => if pool <? zlen s + 1 then None else Some (Ptr (c_string s), b)
  end.

(** [n] items; a bad one ends the loop, and the rest keeps what [memset] put there. *)
Fixpoint read_items {A} (zero : A) (item : reads (bool * A)) (n : nat) : reads (bool * list A) :=
  match n with
  | O => give (true, [])
  | S n =>
      '(ok, a) ⇠ item;
      if (ok : bool) then '(ok, l) ⇠ read_items zero item n; give (ok, a :: l)
      else give (false, a :: replicate n zero)
  end.

(** An item that is never bad. *)
Definition always {A} (p : reads A) : reads (bool * A) := a ⇠ p; give (true, a).

(** A number of [k] bytes, of which the first [len] are copied from a local variable. *)
Definition copy_number (k t len : Z) : reads (Z * dyn_value) :=
  v ⇠ read_number k; λ b, d ← zsub (le_bytes (Z.to_nat k) v) 0 len; Some ((0, Dyn t d len), b).

(** The value of another type keeps the memory as it was given. *)
Definition read_dyn_value : reads (Z * dyn_value) :=
  t ⇠ read_int8;
  if t =? 0 then give (0, zero_dyn)
  else
    len ⇠ read_int32; λ b,
    if u32 (data_len b - rpos b) <? len then Some ((ERROR_PACKET_FORMAT, Dyn t [] 0), b)
    else if pool <? len then Some ((ERROR_NOT_ENOUGH_MEMORY, Dyn t [] 0), b)
    else if len =? 0 then Some ((0, Dyn t [] 0), b)
    else
      match type_of_code t with
      | Some (HI_TYPE_TINY) => copy_number 1 t len b
      | Some (HI_TYPE_SHORT | HI_TYPE_UNSIGNED_SHORT) => copy_number 2 t len b
      | Some (HI_TYPE_LONG | HI_TYPE_UNSIGNED_LONG | HI_TYPE_FLOAT) => copy_number 4 t len b
      | Some (HI_TYPE_LONGLONG | HI_TYPE_UNSIGNED_LONGLONG | HI_TYPE_DOUBLE) => copy_number 8 t len b
      | Some (HI_TYPE_VARCHAR | HI_TYPE_STRING) => '(x, b) ← read_bytes b len; Some ((0, Dyn t x len), b)
      | _ => Some ((ERROR_PACKET_FORMAT, Dyn t [] len), b)
      end.

Definition read_value : reads (bool * dyn_value) := '(rc, v) ⇠ read_dyn_value; give (negb (rc <? 0), v).

(** ** Parts of packets *)

(** The bodies of the loops are separate definitions. *)
Definition parse_condition_item : reads (bool * wire_condition) :=
  t ⇠ read_int8;
  if t =? 1 then
    name ⇠ read_name;
    comparator ⇠ read_int8;
    n ⇠ read_int32;
    _ ⇠ alloc (n * 32);
    '(ok, vs) ⇠ read_items zero_dyn read_value (Z.to_nat n);
    give (ok, WCond t name comparator vs)
  else if (t =? 2) || (t =? 3) then give (true, WCond t NULL 0 [])
  else give (false, WCond t NULL 0 []).

Definition parse_condition : reads (bool * list wire_condition) :=
  n ⇠ read_int32;
  if n =? 0 then give (true, [])
  else _ ⇠ alloc (n * 40); read_items zero_condition parse_condition_item (Z.to_nat n).

Definition parse_hint_array : reads (ptr (list Z)) :=
  n ⇠ read_int32;
  if negb (n =? 4) then give NULL
  else
    _ ⇠ alloc (n * 8);
    '(_, l) ⇠ read_items 0 (always read_int64) (Z.to_nat n); give (Ptr l).

(** The result of [parse_condition] for a range is not looked at. *)
Definition parse_select_item : reads (bool * wire_select) :=
  t ⇠ read_int8;
  if t =? 0 then
    name ⇠ read_name;
    alise ⇠ read_name;
    give (true, WSelect t name alise 0 NULL NULL)
  else if t =? 1 then
    code ⇠ read_int8;
    select ⇠ read_name;
    alise ⇠ read_name;
    name ⇠ read_name;
    if 128 <=? code then
      '(_, range) ⇠ parse_condition;
      give (true, WSelect t name alise (code - 128) select (Ptr range))
    else give (true, WSelect t name alise code select NULL)
  else if t =? 2 then give (true, WSelect t NULL NULL 0 NULL NULL)
  else give (false, WSelect t NULL NULL 0 NULL NULL).

Definition parse_select_field_array : reads (bool * list wire_select) :=
  n ⇠ read_int32;
  _ ⇠ alloc (n * 56);
  read_items zero_select parse_select_item (Z.to_nat n).

Definition parse_group_field : reads (list (ptr (list Z))) :=
  n ⇠ read_int32;
  if n =? 0 then give []
  else _ ⇠ alloc (n * 16); '(_, l) ⇠ read_items NULL (always read_name) (Z.to_nat n); give l.

Definition parse_order_item : reads (ptr (list Z) * Z) := name ⇠ read_name; t ⇠ read_int8; give (name, t).

Definition parse_order_field : reads (list (ptr (list Z) * Z)) :=
  n ⇠ read_int32;
  if n =? 0 then give []
  else _ ⇠ alloc (n * 16); '(_, l) ⇠ read_items (NULL, 0) (always parse_order_item) (Z.to_nat n); give l.

(** ** Packets *)

(** The last test: nothing was read behind the end. *)
Definition complete {A} (p : A) : reads (ptr A) := λ b, Some (if array_border b =? 0 then Ptr p else NULL, b).

Definition parse_insert_item : reads (bool * (ptr (list Z) * dyn_value)) :=
  name ⇠ read_name; '(ok, v) ⇠ read_value; give (ok, (name, v)).

Definition parse_insert_packet : reads (ptr wire_insert) :=
  table_name ⇠ read_name;
  column_num ⇠ read_int32;
  if 1024 <? column_num then give NULL
  else
    _ ⇠ alloc (column_num * 32);
    '(ok, datas) ⇠ read_items (NULL, zero_dyn) parse_insert_item (Z.to_nat column_num);
    if (ok : bool) then complete (WInsert table_name datas) else give NULL.

(** The result of [parse_hint_array] is not looked at, here and for an update. *)
Definition parse_delete_packet : reads (ptr wire_delete) :=
  table_name ⇠ read_name;
  hints ⇠ parse_hint_array;
  '(ok, index_cond) ⇠ parse_condition;
  if negb ok then give NULL else
  '(ok, filter_cond) ⇠ parse_condition;
  if negb ok then give NULL else
  complete (WDelete table_name hints index_cond filter_cond).

Definition parse_export_packet : reads (ptr wire_export) :=
  table_name ⇠ read_name;
  save_path ⇠ read_name;
  hints ⇠ parse_hint_array;
  '(ok, index_cond) ⇠ parse_condition;
  if negb ok then give NULL else
  '(ok, filter_cond) ⇠ parse_condition;
  if negb ok then give NULL else
  limit ⇠ read_int64;
  complete (WExport table_name save_path hints index_cond filter_cond limit).

Definition parse_update_packet : reads (ptr wire_update) :=
  table_name ⇠ read_name;
  field_name ⇠ read_name;
  '(ok, data) ⇠ read_value;
  if negb ok then give NULL else
  hints ⇠ parse_hint_array;
  '(ok, index_cond) ⇠ parse_condition;
  if negb ok then give NULL else
  '(ok, filter_cond) ⇠ parse_condition;
  if negb ok then give NULL else
  complete (WUpdate table_name field_name data hints index_cond filter_cond).

Definition parse_query_packet : reads (ptr wire_query) :=
  access_type ⇠ read_int16;
  table_name ⇠ read_name;
  hints ⇠ parse_hint_array;
  match hints with
  | NULL => give NULL
  | Ptr _ =>
      '(ok, select_field) ⇠ parse_select_field_array;
      if negb ok then give NULL else
      '(ok, index_cond) ⇠ parse_condition;
      if negb ok then give NULL else
      '(ok, filter_cond) ⇠ parse_condition;
      if negb ok then give NULL else
      group_array ⇠ parse_group_field;
      group_order_array ⇠ parse_order_field;
      group_limit ⇠ read_int32;
      order_array ⇠ parse_order_field;
      limit ⇠ read_int32;
      complete (WQuery access_type table_name hints select_field index_cond filter_cond group_array group_order_array group_limit
        order_array limit)
  end.

Definition parse_get_kvs_packet : reads (ptr wire_get_kvs) :=
  table_name ⇠ read_name;
  '(ok, select_field) ⇠ parse_select_field_array;
  if negb ok then give NULL else
  docid_num ⇠ read_int32;
  _ ⇠ alloc (docid_num * 8);
  '(_, docids) ⇠ read_items 0 (always read_int64) (Z.to_nat docid_num);
  complete (WGetKvs table_name select_field docids).
End packets.
