(* ===== verification/PacketSpec.v ===== *)
(** * Packets are read as they are written

    What each part of a packet is on the wire, as a list of values, and that the
    reader gives the part back.  [parses p bytes a] says that [p] takes exactly
    [bytes], wherever they are in a received buffer of which nothing was read behind the
    end, and gives [a]. *)

From Stdlib Require Import ZArith Lia.
From stdpp Require Import base option list numbers.
From S2P Require Import Prelude LowData DataBuffer Packet.

#[local] Open Scope mile_scope.

(** ** Parsers *)

Definition parses {A} (p : reads A) (bytes : list Z) (a : A) : Prop :=
  ∀ b pre post, received b (pre ++ bytes ++ post) → rpos b = zlen pre → array_border b = 0 →
    p b = Some (a, set_rpos b (zlen pre + zlen bytes)).

Lemma parses_give {A} (a : A) : parses (give a) [] a.
Proof. intros b pre post _ Hr _. change (zlen (@nil Z)) with 0. rewrite Z.add_0_r, <- Hr. by destruct b. Qed.

Lemma parses_bind {A B} (p : reads A) (q : A → reads B) x y a c : parses p x a → parses (q a) y c → parses (read_bind p q) (x ++ y) c.
Proof.
  intros Hp Hq b pre post Hb Hr Hbd. unfold read_bind. rewrite <- app_assoc in Hb. rewrite (Hp b pre (y ++ post) Hb Hr Hbd). cbn [mbind option_bind].
  rewrite (Hq _ (pre ++ x) post); [|by rewrite <- app_assoc|by rewrite zlen_app|done]. unfold set_rpos. cbn. by rewrite !zlen_app, Z.add_assoc.
Qed.

(** The last read of a packet. *)
Lemma parses_last {A B} (p : reads A) (q : A → reads B) x a c : parses p x a → parses (q a) [] c → parses (read_bind p q) x c.
Proof. intros Hp Hq. rewrite <- (app_nil_r x). by apply (parses_bind p q x [] a c). Qed.

Lemma parses_ext {A} (p : reads A) x y a : parses p x a → x = y → parses p y a.
Proof. by intros H <-. Qed.

Lemma parses_number k n : 0 ≤ n < 2 ^ (8 * Z.of_nat k) → parses (read_number (Z.of_nat k)) (be_bytes k n) n.
Proof.
  intros Hn b pre post Hb Hr _. rewrite (read_number_at b pre (be_bytes k n) post (Z.of_nat k) Hb Hr) by apply zlen_be_bytes.
  by rewrite be_value_bytes, zlen_be_bytes by done.
Qed.

Lemma parses_int8 n : 0 ≤ n < 2 ^ 8 → parses read_int8 (value_bytes (Int8 n)) n.
Proof. apply (parses_number 1). Qed.
Lemma parses_int16 n : 0 ≤ n < 2 ^ 16 → parses read_int16 (value_bytes (Int16 n)) n.
Proof. apply (parses_number 2). Qed.
Lemma parses_int32 n : 0 ≤ n < 2 ^ 32 → parses read_int32 (value_bytes (Int32 n)) n.
Proof. apply (parses_number 4). Qed.
Lemma parses_int64 n : 0 ≤ n < 2 ^ 64 → parses read_int64 (value_bytes (Int64 n)) n.
Proof. apply (parses_number 8). Qed.

Lemma parses_alloc pool n : n ≤ pool → parses (alloc pool n) [] tt.
Proof.
  intros Hn b pre post _ Hr _. unfold alloc. rewrite (proj2 (Z.ltb_ge _ _)) by lia. change (zlen (@nil Z)) with 0. rewrite Z.add_0_r, <- Hr. by destruct b.
Qed.

(** ** Names *)

(** A string of C that fits into a block of the pool. *)
Definition name_ok (pool : Z) (s : list Z) : Prop := Forall (λ c, c ≠ 0) s ∧ zlen s < pool.

Lemma parses_name pool s : name_ok pool s → parses (read_name pool) (value_bytes (Cstring s)) (Ptr s).
Proof.
  intros [H0 Hs] b pre post Hb Hr _. cbn [value_bytes] in *. unfold read_name. rewrite (read_cstring_at b pre s post Hb Hr). cbn [mbind option_bind].
  by rewrite (proj2 (Z.ltb_ge _ _)), c_string_id by (done || lia).
Qed.

(** ** Lists *)

Lemma message_bytes_app vs ws : message_bytes (vs ++ ws) = message_bytes vs ++ message_bytes ws.
Proof. unfold message_bytes. by rewrite fmap_app, concat_app. Qed.

Lemma message_bytes_cons v vs : message_bytes (v :: vs) = value_bytes v ++ message_bytes vs.
Proof. done. Qed.

Lemma message_bytes_one v : message_bytes [v] = value_bytes v.
Proof. apply app_nil_r. Qed.

Lemma parses_items {A} (zero : A) (item : reads (bool * A)) (enc : A → list field_value) l :
  Forall (λ a, parses item (message_bytes (enc a)) (true, a)) l →
  parses (read_items zero item (length l)) (message_bytes (concat (enc <$> l))) (true, l).
Proof.
  induction 1 as [|a l Ha _ IH]; [apply parses_give|]. cbn [length read_items fmap list_fmap concat]. rewrite message_bytes_app.
  eapply parses_bind; [exact Ha|]. cbv beta iota. eapply parses_last; [exact IH|]. apply parses_give.
Qed.

Lemma parses_always {A} (p : reads A) x a : parses p x a → parses (always p) x (true, a).
Proof. intros H. eapply parses_last; [exact H|]. apply parses_give. Qed.

(** A number of items and the items. *)
Definition list_fields {A} (enc : A → list field_value) (l : list A) : list field_value := Int32 (zlen l) :: concat (enc <$> l).

(** ** Values *)

Definition number_fields (k n : Z) : field_value :=
  if k =? 1 then Int8 n else if k =? 2 then Int16 n else if k =? 4 then Int32 n else Int64 n.

Definition dyn_unit (v : dyn_value) : Z := match type_of_code (dyn_type v) with Some t => get_unit_size t | None => 0 end.

Definition dyn_fields (v : dyn_value) : list field_value :=
  if dyn_type v =? 0 then [Int8 0]
  else
    [Int8 (dyn_type v); Int32 (dyn_len v)] ++
    (if dyn_len v =? 0 then [] else if 0 <? dyn_unit v then [number_fields (dyn_unit v) (le_value (dyn_data v))] else [Raw (dyn_data v)]).

(** A null, an empty value of any type, a number of its width or a text. *)
Definition dyn_ok (pool : Z) (v : dyn_value) : Prop :=
  v = zero_dyn ∨
  0 < dyn_type v < 2 ^ 8 ∧ zlen (dyn_data v) = dyn_len v ∧ dyn_len v < 2 ^ 31 ∧ dyn_len v ≤ pool ∧
  (dyn_len v = 0 ∨ 0 < dyn_unit v ∧ dyn_len v = dyn_unit v ∧ Forall (λ c, 0 ≤ c < 256) (dyn_data v) ∨
   type_of_code (dyn_type v) = Some HI_TYPE_VARCHAR ∨ type_of_code (dyn_type v) = Some HI_TYPE_STRING).

Lemma le_bytes_value l : Forall (λ c, 0 ≤ c < 256) l → le_bytes (length l) (le_value l) = l.
Proof.
  induction 1 as [|c l Hc _ IH]; [done|]. cbn [length le_bytes le_value]. replace ((c + 256 * le_value l) / 256) with (le_value l) by zdiv.
  rewrite IH. f_equal. zdiv.
Qed.

Lemma parses_number_field k n : k = 1 ∨ k = 2 ∨ k = 4 ∨ k = 8 → 0 ≤ n < 2 ^ (8 * k) → parses (read_number k) (value_bytes (number_fields k n)) n.
Proof. intros [->|[->|[->| ->]]] Hn; [by apply (parses_number 1)|by apply (parses_number 2)|by apply (parses_number 4)|by apply (parses_number 8)]. Qed.

Lemma parses_copy k t d : k = 1 ∨ k = 2 ∨ k = 4 ∨ k = 8 → zlen d = k → Forall (λ c, 0 ≤ c < 256) d →
  parses (copy_number k t k) (value_bytes (number_fields k (le_value d))) (0, Dyn t d k).
Proof.
  intros Hk Hd Hc. unfold copy_number. eapply parses_last; [apply parses_number_field; [done|by apply le_value_bound]|].
  intros b pre post _ Hr _. replace (Z.to_nat k) with (length d) by (unfold zlen in Hd; lia). rewrite le_bytes_value by done.
  pose proof (zsub_mid [] d [] 0 k eq_refl (eq_sym Hd)) as E. rewrite app_nil_r in E. cbn [app] in E. rewrite E. cbn [mbind option_bind].
  change (zlen (@nil Z)) with 0. rewrite Z.add_0_r, <- Hr. by destruct b.
Qed.

Lemma parses_dyn pool v : dyn_ok pool v → parses (read_dyn_value pool) (message_bytes (dyn_fields v)) (0, v).
Proof.
  intros [->|(Ht & Hd & Hl31 & Hl & Hv)].
  { unfold dyn_fields. cbn [dyn_type zero_dyn]. change (0 =? 0) with true. cbv iota. rewrite message_bytes_one.
    eapply parses_last; [by apply parses_int8|]. apply parses_give. }
  pose proof (zlen_nonneg (dyn_data v)) as H0. unfold dyn_fields. rewrite (proj2 (Z.eqb_neq (dyn_type v) 0)) by lia.
  cbn [app]. rewrite !message_bytes_cons. eapply parses_bind; [apply parses_int8; lia|]. rewrite (proj2 (Z.eqb_neq (dyn_type v) 0)) by lia.
  eapply parses_bind; [apply parses_int32; lia|]. intros b pre post Hb Hr Hbd.
  set (rest := message_bytes _) in *. assert (zlen rest = dyn_len v) as Hrest.
  { unfold rest. destruct (Z.eqb_spec (dyn_len v) 0) as [E|E]; [by rewrite E|].
    destruct (Z.ltb_spec 0 (dyn_unit v)) as [Hu|Hu]; rewrite message_bytes_one; [|done].
    assert (dyn_len v = dyn_unit v) as -> by (destruct Hv as [?|[(_ & ? & _)|[Ex|Ex]]]; [done|done|unfold dyn_unit in Hu; rewrite Ex in Hu; done..]).
    unfold dyn_unit. destruct (type_of_code (dyn_type v)) as [t|] eqn:Et; [|unfold dyn_unit in Hu; rewrite Et in Hu; done].
    unfold dyn_unit in Hu. rewrite Et in Hu. destruct t; try done; apply (zlen_be_bytes _ _). }
  pose proof Hb as (Hbl & Hb31 & _). rewrite !zlen_app, Hrest in Hbl, Hb31. pose proof (zlen_nonneg pre). pose proof (zlen_nonneg post).
  rewrite u32_small by lia. rewrite (proj2 (Z.ltb_ge _ _)) by lia. rewrite (proj2 (Z.ltb_ge pool _)) by lia.
  destruct (Z.eqb_spec (dyn_len v) 0) as [E|E].
  { assert (dyn_data v = []) as Ed by (apply length_zero_iff_nil; unfold zlen in Hd; lia). rewrite Hrest, E, Z.add_0_r, <- Hr.
    destruct v as [t d l]. cbn [dyn_type dyn_data dyn_len] in *. subst. by destruct b. }
  destruct v as [t d l]. cbn [dyn_type dyn_data dyn_len] in *. unfold dyn_unit in *. cbn [dyn_type] in *. destruct Hv as [?|[(Hu & El & Hc)|Hs]]; [done| |].
  - unfold rest in *. rewrite (proj2 (Z.ltb_lt _ _)) in Hb, Hrest |- * by done. rewrite message_bytes_one in Hb, Hrest |- *.
    destruct (type_of_code t) as [ty|]; [|done]. subst l.
    destruct ty; try discriminate Hu; cbn [get_unit_size] in *; (rewrite El; refine (parses_copy _ t d _ _ _ b pre post Hb Hr Hbd); [auto|done|done]).
  - assert (rest = d) as Erest by (unfold rest; destruct Hs as [-> | ->]; cbn [get_unit_size]; apply message_bytes_one). rewrite Erest in *.
    assert (read_bytes b l = Some (d, set_rpos b (zlen pre + zlen d))) as Er by (rewrite <- Hd; by apply (read_bytes_at b pre d post)).
    destruct Hs as [-> | ->]; by rewrite Er.
Qed.

Lemma parses_value pool v : dyn_ok pool v → parses (read_value pool) (message_bytes (dyn_fields v)) (true, v).
Proof. intros Hv. eapply parses_last; [by apply parses_dyn|]. apply parses_give. Qed.

(** ** Parts of packets *)

Definition name_field (p : ptr (list Z)) : field_value := Cstring (match p with Ptr s => s | NULL => [] end).

Definition ptr_ok (pool : Z) (p : ptr (list Z)) : Prop := match p with Ptr s => name_ok pool s | NULL => False end.

Lemma parses_ptr pool p : ptr_ok pool p → parses (read_name pool) (value_bytes (name_field p)) p.
Proof. destruct p as [|s]; [done|]. apply parses_name. Qed.

Section parts.
Context (pool : Z) (Hpool : 0 ≤ pool < 2 ^ 31).

(** Counted items in memory of [size] bytes per item. *)
Lemma parses_rest {A B} size (zero : A) (item : reads (bool * A)) (enc : A → list field_value) l (q : bool * list A → reads B) c :
  zlen l * size ≤ pool → Forall (λ a, parses item (message_bytes (enc a)) (true, a)) l → parses (q (true, l)) [] c →
  parses (_ ⇠ alloc pool (zlen l * size); r ⇠ read_items zero item (Z.to_nat (zlen l)); q r) (message_bytes (concat (enc <$> l))) c.
Proof.
  intros Hl Hitems Hq. apply (parses_bind _ _ [] _ tt); [by apply parses_alloc|].
  replace (Z.to_nat (zlen l)) with (length l) by (unfold zlen; lia). eapply parses_last; [by apply parses_items|done].
Qed.

Lemma count_range {A} (l : list A) size : 0 < size → zlen l * size ≤ pool → 0 ≤ zlen l < 2 ^ 32.
Proof. intros. pose proof (zlen_nonneg l). nia. Qed.

Lemma parses_list {A B} size (zero : A) (item : reads (bool * A)) (enc : A → list field_value) l (q : bool * list A → reads B) c :
  0 < size → zlen l * size ≤ pool → Forall (λ a, parses item (message_bytes (enc a)) (true, a)) l → parses (q (true, l)) [] c →
  parses (n ⇠ read_int32; _ ⇠ alloc pool (n * size); r ⇠ read_items zero item (Z.to_nat n); q r) (message_bytes (list_fields enc l)) c.
Proof. intros Hs Hl Hitems Hq. eapply parses_bind; [apply parses_int32; by apply (count_range l size)|]. by apply parses_rest. Qed.

(** The same where no memory is taken for no items. *)
Lemma parses_list_or_none {A B} size (zero : A) (item : reads (bool * A)) (enc : A → list field_value) l (q : bool * list A → reads B) none c :
  0 < size → zlen l * size ≤ pool → Forall (λ a, parses item (message_bytes (enc a)) (true, a)) l → parses (q (true, l)) [] c → (l = [] → none = give c) →
  parses (n ⇠ read_int32; if n =? 0 then none else _ ⇠ alloc pool (n * size); r ⇠ read_items zero item (Z.to_nat n); q r)
    (message_bytes (list_fields enc l)) c.
Proof.
  intros Hs Hl Hitems Hq Hnone. eapply parses_bind; [apply parses_int32; by apply (count_range l size)|]. cbv beta.
  destruct (Z.eqb_spec (zlen l) 0) as [E|E]; [|by apply parses_rest].
  assert (l = []) as -> by (apply length_zero_iff_nil; unfold zlen in E; lia). rewrite Hnone by done. apply parses_give.
Qed.

Definition cond_fields (c : wire_condition) : list field_value :=
  if wc_type c =? 1 then [Int8 1; name_field (wc_field_name c); Int8 (wc_comparator c)] ++ list_fields dyn_fields (wc_values c)
  else [Int8 (wc_type c)].

Definition cond_ok (c : wire_condition) : Prop :=
  wc_type c = 1 ∧ ptr_ok pool (wc_field_name c) ∧ 0 ≤ wc_comparator c < 2 ^ 8 ∧ Forall (dyn_ok pool) (wc_values c) ∧ zlen (wc_values c) * 32 ≤ pool ∨
  c = WCond 2 NULL 0 [] ∨ c = WCond 3 NULL 0 [].

Lemma parses_cond c : cond_ok c → parses (parse_condition_item pool) (message_bytes (cond_fields c)) (true, c).
Proof.
  intros [(Ht & Hn & Hc & Hv & Hl)|[-> | ->]]; cycle 1.
  { by apply (parses_last read_int8 _ _ 2); [apply parses_int8|apply parses_give]. }
  { by apply (parses_last read_int8 _ _ 3); [apply parses_int8|apply parses_give]. }
  destruct c as [t name cmp vs]. cbn [wc_type wc_field_name wc_comparator wc_values] in *. subst t. unfold cond_fields.
  cbn [wc_type wc_field_name wc_comparator wc_values]. change (1 =? 1) with true. cbv iota. cbn [app]. rewrite !message_bytes_cons.
  eapply parses_bind; [by apply parses_int8|]. cbv iota. eapply parses_bind; [by apply parses_ptr|]. eapply parses_bind; [by apply parses_int8|].
  apply (parses_list 32); [done|done| |apply parses_give]. eapply Forall_impl; [|exact Hv]. intros v. apply parses_value.
Qed.

Definition conds_ok (l : list wire_condition) : Prop := Forall cond_ok l ∧ zlen l * 40 ≤ pool.

Lemma parses_conds l : conds_ok l → parses (parse_condition pool) (message_bytes (list_fields cond_fields l)) (true, l).
Proof.
  intros [H Hl]. refine (parses_ext _ _ _ _ _ eq_refl).
  assert (∀ r : bool * list wire_condition, (let '(ok, l) := r in give (ok, l)) = give r) as E by by intros [].
  pose proof (parses_list_or_none 40 zero_condition (parse_condition_item pool) cond_fields l give (give (true, [])) (true, l)) as Hp.
  intros b pre post Hb Hr Hbd. rewrite <- (Hp ltac:(done) Hl ltac:(eapply Forall_impl; [|exact H]; apply parses_cond) (parses_give _) ltac:(by intros ->) b pre post Hb Hr Hbd).
  unfold parse_condition, read_bind. destruct (read_int32 b) as [[n b1]|]; [|done]. cbn [mbind option_bind]. destruct (n =? 0); [done|].
  destruct (alloc pool (n * 40) b1) as [[[] b2]|]; [|done]. cbn [mbind option_bind]. by destruct (read_items _ _ _ b2) as [[]|].
Qed.

Definition hints_ok (p : ptr (list Z)) : Prop :=
  match p with Ptr l => zlen l = 4 ∧ Forall (λ h, 0 ≤ h < 2 ^ 64) l ∧ 32 ≤ pool | NULL => False end.

Definition hint_fields (p : ptr (list Z)) : list field_value := match p with Ptr l => list_fields (λ h, [Int64 h]) l | NULL => [] end.

Lemma parses_hints p : hints_ok p → parses (parse_hint_array pool) (message_bytes (hint_fields p)) p.
Proof.
  destruct p as [|l]; [done|]. intros (Hl & Hh & Hp). unfold parse_hint_array. cbn [hint_fields]. unfold list_fields. rewrite message_bytes_cons.
  eapply parses_bind; [apply parses_int32; lia|]. cbv beta. rewrite Hl. change (negb (4 =? 4)) with false. cbv iota.
  pose proof (parses_rest 8 0 (always read_int64) (λ h, [Int64 h]) l (λ '(_, l), give (Ptr l)) (Ptr l)) as Hr. rewrite Hl in Hr.
  refine (Hr _ _ (parses_give _)); [lia|]. eapply Forall_impl; [|exact Hh]. intros h Hh0. rewrite message_bytes_one. by apply parses_always, parses_int64.
Qed.

(** A field, a star, or a function, maybe with the condition of its range. *)
Definition select_fields (s : wire_select) : list field_value :=
  if ws_type s =? 0 then [Int8 0; name_field (ws_field_name s); name_field (ws_alise_name s)]
  else if ws_type s =? 1 then
    [Int8 1; Int8 (match ws_range_exp s with NULL => ws_func_type s | Ptr _ => ws_func_type s + 128 end);
     name_field (ws_select_name s); name_field (ws_alise_name s); name_field (ws_field_name s)] ++
    (match ws_range_exp s with NULL => [] | Ptr l => list_fields cond_fields l end)
  else [Int8 2].

Definition select_ok (s : wire_select) : Prop :=
  match s with
  | WSelect t name alise f select range =>
      t = 0 ∧ ptr_ok pool name ∧ ptr_ok pool alise ∧ f = 0 ∧ select = NULL ∧ range = NULL ∨
      t = 1 ∧ ptr_ok pool name ∧ ptr_ok pool alise ∧ ptr_ok pool select ∧ 0 ≤ f < 128 ∧ match range with NULL => True | Ptr l => conds_ok l end ∨
      s = WSelect 2 NULL NULL 0 NULL NULL
  end.

Lemma parses_select s : select_ok s → parses (parse_select_item pool) (message_bytes (select_fields s)) (true, s).
Proof.
  destruct s as [t name alise f select range]. cbn [select_ok].
  intros [(-> & Hn & Ha & -> & -> & ->)|[(-> & Hn & Ha & Hs & Hf & Hr)|E]].
  - unfold select_fields. cbn [ws_type ws_field_name ws_alise_name]. change (0 =? 0) with true. cbv iota. rewrite !message_bytes_cons.
    eapply parses_bind; [by apply parses_int8|]. cbv iota. eapply parses_bind; [by apply parses_ptr|]. eapply parses_bind; [by apply parses_ptr|]. apply parses_give.
  - unfold select_fields. cbn [ws_type ws_field_name ws_alise_name ws_func_type ws_select_name ws_range_exp app]. change (1 =? 0) with false. change (1 =? 1) with true.
    cbv iota. rewrite !message_bytes_cons. eapply parses_bind; [by apply parses_int8|]. cbv iota.
    eapply parses_bind; [apply parses_int8; destruct range; lia|]. do 3 (eapply parses_bind; [by apply parses_ptr|]).
    destruct range as [|l].
    + rewrite (proj2 (Z.leb_gt _ _)) by lia. apply parses_give.
    + rewrite (proj2 (Z.leb_le _ _)) by lia. eapply parses_last; [by apply parses_conds|]. replace (f + 128 - 128) with f by lia. apply parses_give.
  - injection E as -> -> -> -> -> ->. by apply (parses_last read_int8 _ _ 2); [apply parses_int8|apply parses_give].
Qed.

Definition selects_ok (l : list wire_select) : Prop := Forall select_ok l ∧ zlen l * 56 ≤ pool.

Lemma parses_selects l : selects_ok l → parses (parse_select_field_array pool) (message_bytes (list_fields select_fields l)) (true, l).
Proof.
  intros [H Hl]. unfold parse_select_field_array, list_fields. rewrite message_bytes_cons.
  eapply parses_bind; [apply parses_int32; by apply (count_range l 56)|]. apply (parses_bind _ _ [] _ tt); [by apply parses_alloc|].
  replace (Z.to_nat (zlen l)) with (length l) by (unfold zlen; lia). apply parses_items. eapply Forall_impl; [|exact H]. apply parses_select.
Qed.

Definition names_ok (l : list (ptr (list Z))) : Prop := Forall (ptr_ok pool) l ∧ zlen l * 16 ≤ pool.

Lemma parses_groups l : names_ok l → parses (parse_group_field pool) (message_bytes (list_fields (λ p, [name_field p]) l)) l.
Proof.
  intros [H Hl]. refine (parses_list_or_none 16 NULL _ _ l (λ '(_, l), give l) _ _ _ Hl _ (parses_give _) _); [done| |by intros ->].
  eapply Forall_impl; [|exact H]. intros p Hp. rewrite message_bytes_one. by apply parses_always, parses_ptr.
Qed.

Definition order_fields (o : ptr (list Z) * Z) : list field_value := [name_field o.1; Int8 o.2].
Definition orders_ok (l : list (ptr (list Z) * Z)) : Prop := Forall (λ o, ptr_ok pool o.1 ∧ 0 ≤ o.2 < 2 ^ 8) l ∧ zlen l * 16 ≤ pool.

Lemma parses_orders l : orders_ok l → parses (parse_order_field pool) (message_bytes (list_fields order_fields l)) l.
Proof.
  intros [H Hl]. refine (parses_list_or_none 16 (NULL, 0) _ _ l (λ '(_, l), give l) _ _ _ Hl _ (parses_give _) _); [done| |by intros ->].
  eapply Forall_impl; [|exact H]. intros [p t] [Hp Ht]. cbn [fst snd] in *. apply parses_always. unfold order_fields. rewrite !message_bytes_cons.
  eapply parses_bind; [by apply parses_ptr|]. eapply parses_bind; [by apply parses_int8|]. apply parses_give.
Qed.

(** ** Packets *)

Lemma parses_complete {A} (p : A) : parses (complete p) [] (Ptr p).
Proof.
  intros b pre post _ Hr Hbd. unfold complete. rewrite Hbd. change (0 =? 0) with true. cbv iota. change (zlen (@nil Z)) with 0.
  rewrite Z.add_0_r, <- Hr. by destruct b.
Qed.

Definition insert_fields (p : wire_insert) : list field_value :=
  name_field (wi_table_name p) :: list_fields (λ d : ptr (list Z) * dyn_value, name_field d.1 :: dyn_fields d.2) (wi_datas p).

Definition insert_ok (p : wire_insert) : Prop :=
  ptr_ok pool (wi_table_name p) ∧ Forall (λ d : ptr (list Z) * dyn_value, ptr_ok pool d.1 ∧ dyn_ok pool d.2) (wi_datas p) ∧
  zlen (wi_datas p) ≤ 1024 ∧ zlen (wi_datas p) * 32 ≤ pool.

Lemma parses_insert p : insert_ok p → parses (parse_insert_packet pool) (message_bytes (insert_fields p)) (Ptr p).
Proof.
  destruct p as [name l]. intros (Hn & Hd & H10 & Hl). cbn [wi_table_name wi_datas] in *. unfold insert_fields. cbn [wi_table_name wi_datas].
  rewrite message_bytes_cons. eapply parses_bind; [by apply parses_ptr|]. unfold list_fields. rewrite message_bytes_cons.
  eapply parses_bind; [apply parses_int32; by apply (count_range l 32)|]. cbv beta. rewrite (proj2 (Z.ltb_ge _ _)) by lia.
  refine (parses_rest 32 (NULL, zero_dyn) _ _ l (λ '(ok, datas), if (ok : bool) then complete (WInsert name datas) else give NULL) _ Hl _ (parses_complete _)).
  eapply Forall_impl; [|exact Hd]. intros [n v] [Hp Hv]. cbn [fst snd] in *. rewrite message_bytes_cons. eapply parses_bind; [by apply parses_ptr|].
  eapply parses_last; [by apply parses_value|]. apply parses_give.
Qed.

(** The end of a packet after its conditions. *)
Definition delete_fields (p : wire_delete) : list field_value :=
  name_field (wd_table_name p) :: hint_fields (wd_hints p) ++ list_fields cond_fields (wd_index_cond p) ++ list_fields cond_fields (wd_filter_cond p).

Definition delete_ok (p : wire_delete) : Prop :=
  ptr_ok pool (wd_table_name p) ∧ hints_ok (wd_hints p) ∧ conds_ok (wd_index_cond p) ∧ conds_ok (wd_filter_cond p).

(** Takes the next part of a packet. *)
Ltac part H := eapply parses_bind; [apply H; done|]; cbv beta iota zeta; cbn [negb].
Ltac last_part H := eapply parses_last; [apply H; done|]; cbv beta iota zeta; cbn [negb]; apply parses_complete.

Lemma parses_delete p : delete_ok p → parses (parse_delete_packet pool) (message_bytes (delete_fields p)) (Ptr p).
Proof.
  destruct p as [name hints ic fc]. intros (Hn & Hh & Hi & Hf). cbn [wd_table_name wd_hints wd_index_cond wd_filter_cond] in *.
  unfold delete_fields. cbn [wd_table_name wd_hints wd_index_cond wd_filter_cond]. rewrite message_bytes_cons, !message_bytes_app.
  part parses_ptr. part parses_hints. part parses_conds. last_part parses_conds.
Qed.

Definition export_fields (p : wire_export) : list field_value :=
  name_field (we_table_name p) :: name_field (we_save_path p) ::
  hint_fields (we_hints p) ++ list_fields cond_fields (we_index_cond p) ++ list_fields cond_fields (we_filter_cond p) ++ [Int64 (we_limit p)].

Definition export_ok (p : wire_export) : Prop :=
  ptr_ok pool (we_table_name p) ∧ ptr_ok pool (we_save_path p) ∧ hints_ok (we_hints p) ∧ conds_ok (we_index_cond p) ∧
  conds_ok (we_filter_cond p) ∧ 0 ≤ we_limit p < 2 ^ 64.

Lemma parses_export p : export_ok p → parses (parse_export_packet pool) (message_bytes (export_fields p)) (Ptr p).
Proof.
  destruct p as [name path hints ic fc limit]. unfold export_ok, export_fields.
  cbn [we_table_name we_save_path we_hints we_index_cond we_filter_cond we_limit]. intros (Hn & Hp & Hh & Hi & Hf & Hl).
  rewrite !message_bytes_cons, !message_bytes_app, message_bytes_one.
  part parses_ptr. part parses_ptr. part parses_hints. part parses_conds. part parses_conds. last_part parses_int64.
Qed.

Definition update_fields (p : wire_update) : list field_value :=
  name_field (wu_table_name p) :: name_field (wu_field_name p) :: dyn_fields (wu_data p) ++
  hint_fields (wu_hints p) ++ list_fields cond_fields (wu_index_cond p) ++ list_fields cond_fields (wu_filter_cond p).

Definition update_ok (p : wire_update) : Prop :=
  ptr_ok pool (wu_table_name p) ∧ ptr_ok pool (wu_field_name p) ∧ dyn_ok pool (wu_data p) ∧ hints_ok (wu_hints p) ∧
  conds_ok (wu_index_cond p) ∧ conds_ok (wu_filter_cond p).

Lemma parses_update p : update_ok p → parses (parse_update_packet pool) (message_bytes (update_fields p)) (Ptr p).
Proof.
  destruct p as [name field v hints ic fc]. unfold update_ok, update_fields.
  cbn [wu_table_name wu_field_name wu_data wu_hints wu_index_cond wu_filter_cond]. intros (Hn & Hp & Hv & Hh & Hi & Hf).
  rewrite !message_bytes_cons, !message_bytes_app.
  part parses_ptr. part parses_ptr. part parses_value. part parses_hints. part parses_conds. last_part parses_conds.
Qed.

Definition query_fields (p : wire_query) : list field_value :=
  Int16 (wq_access_type p) :: name_field (wq_table_name p) :: hint_fields (wq_hints p) ++ list_fields select_fields (wq_select_field p) ++
  list_fields cond_fields (wq_index_cond p) ++ list_fields cond_fields (wq_filter_cond p) ++
  list_fields (λ n, [name_field n]) (wq_group_array p) ++ list_fields order_fields (wq_group_order_array p) ++ [Int32 (wq_group_limit p)] ++
  list_fields order_fields (wq_order_array p) ++ [Int32 (wq_limit p)].

Definition query_ok (p : wire_query) : Prop :=
  0 ≤ wq_access_type p < 2 ^ 16 ∧ ptr_ok pool (wq_table_name p) ∧ hints_ok (wq_hints p) ∧ selects_ok (wq_select_field p) ∧
  conds_ok (wq_index_cond p) ∧ conds_ok (wq_filter_cond p) ∧ names_ok (wq_group_array p) ∧ orders_ok (wq_group_order_array p) ∧
  0 ≤ wq_group_limit p < 2 ^ 32 ∧ orders_ok (wq_order_array p) ∧ 0 ≤ wq_limit p < 2 ^ 32.

Lemma parses_query p : query_ok p → parses (parse_query_packet pool) (message_bytes (query_fields p)) (Ptr p).
Proof.
  destruct p as [access name hints sel ic fc groups gorders glimit orders limit]. unfold query_ok, query_fields.
  cbn [wq_access_type wq_table_name wq_hints wq_select_field wq_index_cond wq_filter_cond wq_group_array wq_group_order_array wq_group_limit wq_order_array wq_limit].
  intros (Ha & Hn & Hh & Hs & Hi & Hf & Hg & Hgo & Hgl & Ho & Hl). rewrite !message_bytes_cons, !message_bytes_app, !message_bytes_one.
  part parses_int16. part parses_ptr. part parses_hints. destruct hints as [|h]; [done|].
  part parses_selects. part parses_conds. part parses_conds. part parses_groups. part parses_orders. part parses_int32. part parses_orders.
  last_part parses_int32.
Qed.

Definition get_kvs_fields (p : wire_get_kvs) : list field_value :=
  name_field (wg_table_name p) :: list_fields select_fields (wg_select_field p) ++ list_fields (λ h, [Int64 h]) (wg_docids p).

Definition get_kvs_ok (p : wire_get_kvs) : Prop :=
  ptr_ok pool (wg_table_name p) ∧ selects_ok (wg_select_field p) ∧ Forall (λ h, 0 ≤ h < 2 ^ 64) (wg_docids p) ∧ zlen (wg_docids p) * 8 ≤ pool.

Lemma parses_get_kvs p : get_kvs_ok p → parses (parse_get_kvs_packet pool) (message_bytes (get_kvs_fields p)) (Ptr p).
Proof.
  destruct p as [name sel ids]. unfold get_kvs_ok, get_kvs_fields. cbn [wg_table_name wg_select_field wg_docids]. intros (Hn & Hs & Hd & Hl).
  rewrite !message_bytes_cons, !message_bytes_app. part parses_ptr. part parses_selects.
  refine (parses_list 8 0 _ _ ids (λ '(_, docids), complete (WGetKvs name sel docids)) _ _ Hl _ (parses_complete _)); [done|].
  eapply Forall_impl; [|exact Hd]. intros h Hh. rewrite message_bytes_one. by apply parses_always, parses_int64.
Qed.
End parts.

(** ** The packets of the statements *)

Inductive wire_statement :=
| Insert (p : wire_insert) | Delete (p : wire_delete) | Update (p : wire_update) | Export (p : wire_export) | Query (p : wire_query)
| Kvs (p : wire_get_kvs).

Definition statement_fields (s : wire_statement) : list field_value :=
  match s with
  | Insert p => insert_fields p | Delete p => delete_fields p | Update p => update_fields p | Export p => export_fields p
  | Query p => query_fields p | Kvs p => get_kvs_fields p
  end.

Definition statement_ok (pool : Z) (s : wire_statement) : Prop :=
  match s with
  | Insert p => insert_ok pool p | Delete p => delete_ok pool p | Update p => update_ok pool p | Export p => export_ok pool p
  | Query p => query_ok pool p | Kvs p => get_kvs_ok pool p
  end.

Definition ptr_map {A B} (f : A → B) (p : ptr A) : ptr B := match p with NULL => NULL | Ptr a => Ptr (f a) end.

(** The reader of a kind of packet, that of [s]. *)
Definition parse_like (pool : Z) (s : wire_statement) : reads (ptr wire_statement) :=
  match s with
  | Insert _ => p ⇠ parse_insert_packet pool; give (ptr_map Insert p)
  | Delete _ => p ⇠ parse_delete_packet pool; give (ptr_map Delete p)
  | Update _ => p ⇠ parse_update_packet pool; give (ptr_map Update p)
  | Export _ => p ⇠ parse_export_packet pool; give (ptr_map Export p)
  | Query _ => p ⇠ parse_query_packet pool; give (ptr_map Query p)
  | Kvs _ => p ⇠ parse_get_kvs_packet pool; give (ptr_map Kvs p)
  end.

Lemma parses_statement pool s : 0 ≤ pool < 2 ^ 31 → statement_ok pool s → parses (parse_like pool s) (message_bytes (statement_fields s)) (Ptr s).
Proof.
  intros Hp Hs. destruct s as [p|p|p|p|p|p]; cbn [statement_ok statement_fields parse_like] in *.
  - by eapply parses_last; [apply parses_insert|apply parses_give].
  - by eapply parses_last; [apply parses_delete|apply parses_give].
  - by eapply parses_last; [apply parses_update|apply parses_give].
  - by eapply parses_last; [apply parses_export|apply parses_give].
  - by eapply parses_last; [apply parses_query|apply parses_give].
  - by eapply parses_last; [apply parses_get_kvs|apply parses_give].
Qed.

(** C26: a statement is read as it was sent.  The packet of any statement of the six
    kinds, with conditions in reverse Polish form, ranges of functions, values of
    all types, names and limits, is written to a fresh buffer value by value; the
    reader of its kind gives the same statement, at the end of the packet. *)
Theorem statement_roundtrip junk pool s :
  (∀ n, 0 ≤ n → zlen (junk n) = n) → 0 ≤ pool < 2 ^ 31 → statement_ok pool s → zlen (message_bytes (statement_fields s)) < 2 ^ 29 →
  ∃ b b', write_values junk (statement_fields s) init_data_buffer = Some b ∧ parse_like pool s b = Some (Ptr s, b') ∧
    rpos b' = data_len b' ∧ array_border b' = 0.
Proof.
  intros Hj Hp Hs Hlen. destruct (write_values_holds junk Hj (statement_fields s) _ _ holds_init Hlen) as (b & E & Hb). cbn [app] in Hb.
  destruct Hb as [Hl Hw Hr _ _ Hd Hbd]. eexists b, _. split; [done|].
  assert (received b ([] ++ message_bytes (statement_fields s) ++ [])) as Hrec.
  { cbn [app]. rewrite app_nil_r. split; [done|]. split; [lia|done]. }
  split; [by apply (parses_statement pool s Hp Hs b [] [] Hrec)|]. cbn [rpos set_rpos data_len array_border]. change (zlen (@nil Z)) with 0. by rewrite Hl.
Qed.

(** [SELECT n, COUNT(n) FROM t WHERE n = 7 OR n IN (1, NULL) GROUP BY n ORDER BY n DESC LIMIT 10] *)
Definition demo_wire_query : wire_query :=
  let n := Ptr [110] in
  let long (z : Z) := Dyn 4 (le_bytes 4 z) 4 in
  WQuery 0 (Ptr [116]) (Ptr [0; 2 ^ 64 - 1; 0; 0])
    [WSelect 0 n n 0 NULL NULL; WSelect 1 n (Ptr [99]) 50 (Ptr [67]) (Ptr [WCond 1 n 8 [Dyn 254 [97; 98] 2]])]
    [] [WCond 1 n 7 [long 7]; WCond 1 n 13 [long 1; zero_dyn]; WCond 3 NULL 0 []] [n] [] 0 [(n, 102)] 10.

Lemma demo_name_ok c pool : 1 < pool → c ≠ 0 → ptr_ok pool (Ptr [c]).
Proof. intros Hp Hc. split; [by apply Forall_cons_2; [|apply Forall_nil_2]|done]. Qed.

Lemma demo_long_ok z pool : 4 ≤ pool → dyn_ok pool (Dyn 4 (le_bytes 4 z) 4).
Proof.
  intros Hp. right. do 3 (split; [done|]). split; [done|]. right. left. split; [done|]. split; [done|].
  cbn [dyn_data le_bytes]. repeat (apply Forall_cons_2; [cbv beta; apply Z.mod_pos_bound; lia|]). apply Forall_nil_2.
Qed.

Lemma demo_query_ok : query_ok 1048576 demo_wire_query.
Proof.
  assert (∀ c, c ≠ 0 → ptr_ok 1048576 (Ptr [c])) as Hn by (intros; by apply demo_name_ok).
  assert (∀ z, dyn_ok 1048576 (Dyn 4 (le_bytes 4 z) 4)) as Hd by (intros; by apply demo_long_ok).
  unfold demo_wire_query, query_ok. cbv zeta.
  cbn [wq_access_type wq_table_name wq_hints wq_select_field wq_index_cond wq_filter_cond wq_group_array wq_group_order_array wq_group_limit wq_order_array wq_limit].
  split; [done|]. split; [by apply Hn|]. split; [split; [done|]; split; [|done]; repeat (apply Forall_cons_2; [lia|]); apply Forall_nil_2|].
  split.
  { split; [|done]. apply Forall_cons_2; [|apply Forall_cons_2; [|apply Forall_nil_2]].
    - left. split; [done|]. split; [by apply Hn|]. split; [by apply Hn|]. done.
    - right. left. split; [done|]. do 3 (split; [by apply Hn|]). split; [done|]. split; [|done].
      apply Forall_cons_2; [|apply Forall_nil_2]. left. split; [done|]. split; [by apply Hn|]. split; [done|]. split; [|done].
      apply Forall_cons_2; [|apply Forall_nil_2]. right. do 4 (split; [done|]). right. by right; right. }
  split; [split; [apply Forall_nil_2|done]|].
  split.
  { split; [|done]. apply Forall_cons_2; [|apply Forall_cons_2; [|apply Forall_cons_2; [|apply Forall_nil_2]]].
    - left. split; [done|]. split; [by apply Hn|]. split; [done|]. split; [|done]. by apply Forall_cons_2; [|apply Forall_nil_2].
    - left. split; [done|]. split; [by apply Hn|]. split; [done|]. split; [|done]. apply Forall_cons_2; [done|]. apply Forall_cons_2; [by left|apply Forall_nil_2].
    - by right; right. }
  split; [split; [by apply Forall_cons_2; [apply Hn|apply Forall_nil_2]|done]|].
  split; [split; [apply Forall_nil_2|done]|]. split; [done|]. split; [|done]. split; [|done].
  apply Forall_cons_2; [split; [by apply Hn|done]|apply Forall_nil_2].
Qed.

Lemma statement_roundtrip_witness :
  ∃ b b', write_values fresh_170 (statement_fields (Query demo_wire_query)) init_data_buffer = Some b ∧
    parse_like 1048576 (Query demo_wire_query) b = Some (Ptr (Query demo_wire_query), b') ∧ rpos b' = data_len b' ∧ array_border b' = 0.
Proof.
  apply (statement_roundtrip fresh_170 1048576 (Query demo_wire_query)); [exact fresh_170_len|done|exact demo_query_ok|vm_compute; reflexivity].
Defined.

(** The count of conditions is believed: 2^16 of them need more memory than a block
    of the pool has, and NULL is cleared. *)
Lemma huge_count_crashes b rest :
  data_len b = zlen rest + 4 → zlen rest < 2 ^ 30 → block b = be_bytes 4 (2 ^ 16) ++ rest → rpos b = 0 → parse_condition 1048576 b = None.
Proof.
  intros Hl Hs Hd Hr. unfold parse_condition, read_bind, read_int32. pose proof (zlen_nonneg rest).
  assert (received b ([] ++ be_bytes 4 (2 ^ 16) ++ rest)) as Hb.
  { cbn [app]. unfold received. rewrite zlen_app, Hl. change (zlen (be_bytes 4 (2 ^ 16))) with 4. split; [lia|]. split; [lia|]. exists []. by rewrite app_nil_r. }
  rewrite (read_number_at b [] (be_bytes 4 (2 ^ 16)) rest 4 Hb Hr eq_refl). cbn [mbind option_bind]. rewrite be_value_bytes by (cbn; lia).
  change (2 ^ 16 =? 0) with false. cbv iota. unfold alloc. by change (1048576 <? 2 ^ 16 * 40) with true.
Qed.
