(* ===== verification/Server.v ===== *)
(** * Statements in messages ([process_mergeserver_message] of [src/protocol/protocol.cpp], the [gen] functions of [packet.cpp], [SpecialSql])

    A packet is analysed, executed and answered.  Here the numbers of a packet become
    the constants that they name; a number that names none has no typed form ([None]).

    The result of a statement is written to the buffer for the answer; an error is
    answered with its code and its text. *)

From Stdlib Require Import ZArith Lia SpecFloat Ascii String.
From stdpp Require Import base option list numbers.
From S2P Require Import Prelude RowidList Suffix LowData Column Compare MileArray MileHashMap Row RowData Db Aggr Expression ResultSet DocTable Execute DataBuffer Packet.

#[local] Open Scope mile_scope.

(** ** Kinds of messages *)

Definition MT_VG_MD : Z := 0x2100.
Definition MT_MD_EXE_INSERT : Z := Z.lor MT_VG_MD 0x01.
Definition MT_MD_EXE_DELETE : Z := Z.lor MT_VG_MD 0x02.
Definition MT_MD_EXE_UPDATE : Z := Z.lor MT_VG_MD 0x03.
Definition MT_MD_EXE_QUERY : Z := Z.lor MT_VG_MD 0x04.
Definition MT_MD_EXE_EXPORT : Z := Z.lor MT_VG_MD 0x06.
Definition MT_MD_EXE_GET_KVS : Z := Z.lor MT_VG_MD 0x21.
Definition MT_MD_GET_STATE : Z := Z.lor MT_VG_MD 0x22.
Definition MT_VG_DM : Z := 0x2200.
Definition MT_DM_RS : Z := Z.lor MT_VG_DM 0x01.
Definition MT_DM_SQL_EXC_ERROR : Z := Z.lor MT_VG_DM 0x02.

Definition MB_SIZE : Z := 1048576.
Definition ERROR_OS_OVERLOADING : Z := -991.

Record mile_message_header := Head { version_major : Z; version_minor : Z; message_type : Z; message_id : Z }.

(** ** The numbers of the enumerations *)

Definition compare_type_of (c : Z) : option compare_type :=
  snd <$> List.find (λ p, p.1 =? c)
    [(7, CT_EQ); (8, CT_GT); (9, CT_GE); (10, CT_LT); (11, CT_LE); (13, EXP_COMPARE_IN); (15, EXP_COMPARE_BETWEEN_LG);
     (16, EXP_COMPARE_BETWEEN_LGE); (17, EXP_COMPARE_BETWEEN_LEG); (18, EXP_COMPARE_BETWEEN_LEGE); (20, CT_NE); (21, CT_MATCH)].

(** The functions treat all numbers that name none alike. *)
Definition function_type_of (c : Z) : function_type :=
  default FUNC_OTHER (snd <$> List.find (λ p, p.1 =? c)
    [(50, FUNC_COUNT); (51, FUNC_SUM); (52, FUNC_MAX); (53, FUNC_MIN); (54, FUNC_COUNT_DISTINCT); (55, FUNC_SQUARE_SUM); (56, FUNC_AVG);
     (57, FUNC_VAR); (58, FUNC_STD)]).

Definition order_type_of (c : Z) : option order_types :=
  if c =? 101 then Some ORDER_TYPE_ASC else if c =? 102 then Some ORDER_TYPE_DESC else None.

Definition name_of (p : ptr (list Z)) : option (list Z) := match p with Ptr s => Some s | NULL => None end.

Definition low_data_of (v : dyn_value) : option low_data_struct := t ← type_of_code (dyn_type v); Some (LowData t (dyn_data v) (dyn_len v)).

(** A logical operator has no comparator; [CT_EQ] stands for the 0 there. *)
Definition index_condition_of (c : wire_condition) : option (condition_t field) :=
  if wc_type c =? 1 then
    name ← name_of (wc_field_name c);
    cmp ← compare_type_of (wc_comparator c);
    vs ← mapM low_data_of (wc_values c);
    Some (Condition CONDITION_EXP cmp (Field name <$> vs))
  else if wc_type c =? 2 then Some (op_cond LOGIC_AND)
  else if wc_type c =? 3 then Some (op_cond LOGIC_OR)
  else None.

Definition filter_condition_of (c : wire_condition) : option filter_condition :=
  if wc_type c =? 1 then
    name ← name_of (wc_field_name c);
    cmp ← compare_type_of (wc_comparator c);
    vs ← mapM low_data_of (wc_values c);
    Some (test_cond name cmp vs)
  else if wc_type c =? 2 then Some (logic_cond LOGIC_AND)
  else if wc_type c =? 3 then Some (logic_cond LOGIC_OR)
  else None.

(** The conditions of the segments look at two of the hints.  NULL is read as soon as
    there is a segment. *)
Definition hint_of (p : ptr (list Z)) : option (option (Z * Z)) :=
  match p with Ptr (h0 :: h1 :: _) => Some (Some (h0, h1)) | _ => None end.

Definition select_of (s : wire_select) : option select_field :=
  range ← match ws_range_exp s with NULL => Some NULL | Ptr l => Ptr <$> mapM filter_condition_of l end;
  let t := if ws_type s =? 0 then VALUE_SELECT else if ws_type s =? 1 then FUNCTION_SELECT else STAR_SELECT in
  Some (SelectField t (ws_field_name s) (function_type_of (ws_func_type s)) (ws_select_name s) range).

Definition order_of (o : ptr (list Z) * Z) : option (list Z * order_types) := name ← name_of o.1; t ← order_type_of o.2; Some (name, t).

Definition row_of (p : wire_insert) : option (list field) :=
  mapM (λ d : ptr (list Z) * dyn_value, name ← name_of d.1; v ← low_data_of d.2; Some (Field name v)) (wi_datas p).

Definition delete_of (p : wire_delete) : option delete_packet :=
  hint ← hint_of (wd_hints p);
  index ← mapM index_condition_of (wd_index_cond p);
  filter ← mapM filter_condition_of (wd_filter_cond p);
  Some (DeletePacket hint index filter).

Definition update_of (p : wire_update) : option update_packet :=
  name ← name_of (wu_field_name p);
  v ← low_data_of (wu_data p);
  hint ← hint_of (wu_hints p);
  index ← mapM index_condition_of (wu_index_cond p);
  filter ← mapM filter_condition_of (wu_filter_cond p);
  Some (UpdatePacket (Field name v) hint index filter).

Definition query_of (p : wire_query) : option query_packet :=
  hint ← hint_of (wq_hints p);
  sels ← mapM select_of (wq_select_field p);
  index ← mapM index_condition_of (wq_index_cond p);
  filter ← mapM filter_condition_of (wq_filter_cond p);
  groups ← mapM name_of (wq_group_array p);
  orders ← mapM order_of (wq_order_array p);
  Some (QueryPacket (wq_access_type p) sels hint index filter groups orders (wq_limit p)).

(** ** Texts of errors *)

Definition bytes_of (s : string) : list Z := (λ c, Z.of_N (N_of_ascii c)) <$> list_ascii_of_string s.

Definition error_texts : list (Z * string) :=
  [(-9999, "exceed query limit"); (-3997, "field init failed"); (-3996, "segment init failed"); (-3995, "table init failed");
   (-3994, "db init failed"); (-3993, "segment is taken"); (-3992, "hash filter failed"); (-3991, "segment not init");
   (-3990, "file op failed"); (-3989, "lock failed"); (-3988, "binlog failed"); (-3987, "sync failed"); (-4000, "insert failed");
   (-4001, "pk conflict"); (-4002, "insert repeat"); (-4003, "hash conflict"); (-4004, "map fail"); (-3899, "exceed limit");
   (-3897, "exceed field limit"); (-3896, "exceed segment num limit"); (-3895, "exceed table num limit"); (-3798, "field has been deleted");
   (-3797, "table has been deleted"); (-3796, "row has been deleted"); (-3699, "unsupported index"); (-3695, "only filter support");
   (-3694, "only hash support"); (-3693, "not support null"); (-3692, "not support delete"); (-3691, "field not work");
   (-3690, "error update on union hash"); (-3599, "dir create failed"); (-4099, "set operation fail"); (-4100, "unsupported sort column");
   (-3000, "unsupported sql type"); (-3001, "unsupported data type"); (-3002, "error in hash condition processing");
   (-3003, "error in filter condition processing"); (-3004, "error query by rowid"); (-3005, "not enough memory in mempool");
   (-3006, "unsupported agrfunc type"); (-3007, "error when get docserver state"); (-1000, "error when sending data");
   (-1001, "erro when receiving data"); (-1002, "error packet format"); (-999, "timeout error"); (-991, "os overloading");
   (-3100, "error in using index query")]%string.

Definition error_msg (result_code : Z) : list Z :=
  bytes_of (default "unknown error"%string (snd <$> List.find (λ p, p.1 =? result_code) error_texts)).

(** ** The load of the system *)

(** The static variables of [loadavg_check]. *)
Record load_check := LoadCheck { last_load : double; last_check_time : Z }.

(** [10e-7] *)
Definition load_epsilon : double := S754_finite false 4722366482869645 (-72).

(** [measured] is what [getloadavg] gives at the time [now]; the code and the new state. *)
Definition loadavg_check (threshold : double) (now : Z) (measured : option double) (c : load_check) : Z * load_check :=
  let judge (load : double) := if SFltb load threshold then 0 else ERROR_OS_OVERLOADING in
  if SFltb threshold load_epsilon && SFltb (SFopp load_epsilon) threshold then (0, c)
  else if (0 <? last_check_time c) && (now <? last_check_time c + 30) && SFltb (last_load c) threshold then (judge (last_load c), c)
  else match measured with None => (0, c) | Some load => (judge load, LoadCheck load now) end.

(** ** Answers *)

Section answers.
(** [junk] is the content of fresh memory; [behind] are the bytes in memory behind the
    cell of a value, of which eight are read also when it has four. *)
Context (junk : Z → list Z) (behind : list Z).
Implicit Types (h : mile_message_header) (b : data_buffer).

Definition write_number (k n : Z) b : option data_buffer :=
  b ← write_int32 junk k b;
  if k =? 1 then write_int8 junk n b else if k =? 2 then write_int16 junk n b else if k =? 4 then write_int32 junk n b else write_int64 junk n b.

(** [write_dyn_value] of a value that is no set and no array. *)
Definition write_plain (d : low_data_struct) b : option (Z * data_buffer) :=
  if bool_decide (type d = HI_TYPE_NULL) || (len d =? 0) && negb (bool_decide (type d = HI_TYPE_STRING)) then
    b ← write_int8 junk 0 b; Some (0, b)
  else if bool_decide (type d = HI_TYPE_NOTCOMP) then b ← write_int8 junk 52 b; Some (0, b)
  else
    b ← write_int8 junk (type_code (type d)) b;
    if len d =? 0 then b ← write_int32 junk 0 b; Some (0, b)
    else
      match type d with
      | HI_TYPE_TINY => n ← load (data d) 1; b ← write_number 1 n b; Some (0, b)
      | HI_TYPE_SHORT | HI_TYPE_UNSIGNED_SHORT => n ← load (data d) 2; b ← write_number 2 n b; Some (0, b)
      | HI_TYPE_LONG | HI_TYPE_UNSIGNED_LONG | HI_TYPE_FLOAT => n ← load (data d ++ behind) 8; b ← write_number 4 (u32 n) b; Some (0, b)
      | HI_TYPE_LONGLONG | HI_TYPE_UNSIGNED_LONGLONG | HI_TYPE_DOUBLE => n ← load (data d) 8; b ← write_number 8 n b; Some (0, b)
      | HI_TYPE_VARCHAR | HI_TYPE_STRING => b ← write_int32 junk (len d) b; b ← write_bytes junk (data d) (len d) b; Some (0, b)
      | HI_TYPE_SET | HI_TYPE_ARRAY => None
      | _ => Some (ERROR_PACKET_FORMAT, b)
      end.

(** The elements up to the first that cannot be written. *)
Fixpoint write_elements (l : list low_data_struct) b : option (Z * data_buffer) :=
  match l with
  | [] => Some (0, b)
  | d :: l => '(rc, b) ← write_plain d b; if rc <? 0 then Some (rc, b) else write_elements l b
  end.

Definition write_elements_of (t : field_types) (n : Z) (items : option (list low_data_struct)) b : option (Z * data_buffer) :=
  if n =? 0 then b ← write_int8 junk 0 b; Some (0, b)
  else
    b ← write_int8 junk (type_code t) b;
    b ← write_int32 junk n b;
    l ← items;
    write_elements l b.

Definition write_dyn_value (v : row_value) b : option (Z * data_buffer) :=
  match v with
  | Plain d => write_plain d b
  | SetOf n s => write_elements_of HI_TYPE_SET n (set_items s) b
  | ArrayOf n a => write_elements_of HI_TYPE_ARRAY n (array_items a) b
  end.

(** The beginning of every answer, with 0 for the length. *)
Definition write_head (t : Z) h b : option data_buffer :=
  b ← write_int32 junk 0 (clear_data_buffer b);
  b ← write_int8 junk (version_major h) b;
  b ← write_int8 junk (version_minor h) b;
  b ← write_int16 junk t b;
  write_int32 junk (message_id h) b.

(** The codes of [write_dyn_value] are not looked at. *)
Fixpoint write_cells (l : list row_cell) b : option data_buffer :=
  match l with [] => Some b | c :: l => '(_, b) ← write_dyn_value (content c) b; write_cells l b end.

Fixpoint write_rows (rows : list select_row_t) b : option data_buffer :=
  match rows with
  | [] => Some b
  | row :: rows =>
      b ← write_int64 junk (match handler row with NULL => 0 | Ptr h => docid h end) b;
      b ← write_cells (Row.row_data row) b;
      write_rows rows b
  end.

Definition gen_query_result_packet (size : Z) (rows : list select_row_t) h b : option data_buffer :=
  b ← write_head MT_DM_RS h b;
  b ← write_int32 junk size b;
  b ← write_int32 junk 0 b;
  let data_pos := wpos b in
  b ← write_int32 junk 0 b;
  b ← write_rows rows b;
  b ← fill_int32 (data_len b) b 0;
  fill_int32 (u32 (data_len b - data_pos - 4)) b data_pos.

(** The answers with one number, of [k] bytes. *)
Definition gen_number_packet (k n : Z) h b : option data_buffer :=
  b ← write_head MT_DM_RS h b;
  b ← write_int32 junk 1 b;
  b ← write_int32 junk 0 b;
  b ← write_number k n b;
  fill_int32 (data_len b) b 0.

Definition gen_insert_result_packet (docid : Z) := gen_number_packet 8 docid.
Definition gen_update_result_packet (update_num : Z) := gen_number_packet 4 update_num.
Definition gen_delete_result_packet (delete_num : Z) := gen_number_packet 4 delete_num.
Definition gen_export_result_packet (export_num : Z) := gen_number_packet 8 export_num.

Definition gen_error_packet (result_code : Z) h b : option data_buffer :=
  let err_desc := error_msg result_code in
  b ← write_head MT_DM_SQL_EXC_ERROR h b;
  b ← write_int16 junk (u16 result_code) b;
  b ← write_int32 junk 0 b;
  b ← write_int32 junk (zlen err_desc) b;
  b ← write_bytes junk err_desc (zlen err_desc) b;
  fill_int32 (data_len b) b 0.

(** ** Statements *)

Context {S : Type} `{!Column S} (env : exec_env S).
Implicit Types (st : exec_state S).

(** A parsed packet, analysed and executed; NULL has no plan. *)
Definition executed {A} (p : ptr A) (run : A → option (step_result * Z * exec_state S)) st : option (step_result * Z * exec_state S) :=
  match p with NULL => Some (NoResult, -1, st) | Ptr p => run p end.

Definition execute_insert st (deadline : Z) (p : wire_insert) : option (step_result * Z * exec_state S) :=
  name ← name_of (wi_table_name p); row ← row_of p; run_insert env st name row deadline.
Definition execute_delete st (deadline : Z) (p : wire_delete) : option (step_result * Z * exec_state S) :=
  name ← name_of (wd_table_name p); p ← delete_of p; run_delete env st name p deadline.
Definition execute_update st (deadline : Z) (p : wire_update) : option (step_result * Z * exec_state S) :=
  name ← name_of (wu_table_name p); p ← update_of p; run_update env st name p deadline.
Definition execute_query st (deadline : Z) (p : wire_query) : option (step_result * Z * exec_state S) :=
  name ← name_of (wq_table_name p); p ← query_of p; run_query env st name p deadline.

(** The rows with the ids of the packet; the parsed packet is not tested for NULL. *)
Definition execute_get_kvs st (p : ptr wire_get_kvs) : option (step_result * Z * exec_state S) :=
  match p with
  | NULL => None
  | Ptr p =>
      name ← name_of (wg_table_name p);
      names ← mapM (λ s, name_of (ws_field_name s)) (wg_select_field p);
      r ← GetKvs env st name names (wg_docids p);
      match r with
      | NULL => Some (NoResult, ERROR_QUERY_BY_ROWID, st)
      | Ptr rs => rows ← result_rows (RS_Common rs); Some (ResultRows (result_size (RS_Common rs)) rows, 0, st)
      end
  end.

(** The result as a packet; another kind of result would be read as something that it is not. *)
Definition gen_result_packet (t : Z) (r : step_result) h b : option data_buffer :=
  match r with
  | HandlerId id => if t =? MT_MD_EXE_INSERT then gen_insert_result_packet id h b else None
  | ResultNumber n =>
      if t =? MT_MD_EXE_DELETE then gen_delete_result_packet n h b
      else if t =? MT_MD_EXE_UPDATE then gen_update_result_packet n h b else None
  | ResultRows size rows => if (t =? MT_MD_EXE_QUERY) || (t =? MT_MD_EXE_GET_KVS) then gen_query_result_packet size rows h b else None
  | _ => None
  end.

Definition answered (t : Z) (x : step_result * Z * exec_state S) h b : option (Z * data_buffer * exec_state S) :=
  let '(r, rc, st) := x in
  b ← (if rc =? 0 then gen_result_packet t r h b else if rc <? 0 then gen_error_packet rc h b else Some b);
  Some (rc, b, st).

(** [refused] is [exceed_cpu_used], [load] the code of [loadavg_check].  NULL for an
    export and for a question for the state. *)
Definition process_mergeserver_message st h (rbuf sbuf : data_buffer) (refused : bool) (load deadline : Z)
    : option (ptr (Z * data_buffer * exec_state S)) :=
  let t := message_type h in
  if t =? MT_MD_EXE_INSERT then
    '(p, _) ← parse_insert_packet MB_SIZE rbuf;
    x ← executed p (execute_insert st deadline) st;
    Ptr <$> answered t x h sbuf
  else if t =? MT_MD_EXE_DELETE then
    if refused then Some (Ptr (0, sbuf, st))
    else
      '(p, _) ← parse_delete_packet MB_SIZE rbuf;
      x ← executed p (execute_delete st deadline) st;
      Ptr <$> answered t x h sbuf
  else if t =? MT_MD_EXE_UPDATE then
    if refused then Some (Ptr (0, sbuf, st))
    else
      '(p, _) ← parse_update_packet MB_SIZE rbuf;
      x ← executed p (execute_update st deadline) st;
      Ptr <$> answered t x h sbuf
  else if t =? MT_MD_EXE_QUERY then
    if refused then Some (Ptr (0, sbuf, st))
    else if negb (load =? 0) then Ptr <$> answered t (NoResult, load, st) h sbuf
    else
      '(p, _) ← parse_query_packet MB_SIZE rbuf;
      x ← executed p (execute_query st deadline) st;
      Ptr <$> answered t x h sbuf
  else if (t =? MT_MD_EXE_EXPORT) || (t =? MT_MD_GET_STATE) then Some NULL
  else if t =? MT_MD_EXE_GET_KVS then
    '(p, _) ← parse_get_kvs_packet MB_SIZE rbuf;
    x ← execute_get_kvs st p;
    Ptr <$> answered t x h sbuf
  else Ptr <$> answered t (NoResult, ERROR_UNSUPPORTED_SQL_TYPE, st) h sbuf.
End answers.
