(* ===== verification/Command.v ===== *)
(** * Messages and commands ([src/protocol/protocol.cpp], [DocEngine::Command], [docdb_packet.c])

    A message is cut out of what a connection has received and its head is read.  The
    group of its type says who handles it: statements come from the merge server,
    commands change indexes and segments and ask for their state, two messages read
    and set the threshold of the load, and one is for tests.  The messages of slaves
    are those of [BinlogSync] and [Slave]. *)

From Stdlib Require Import ZArith Lia SpecFloat.
From stdpp Require Import base option list numbers.
From S2P Require Import Prelude Suffix RowidList LowData Column Hash Compare Row RowData IndexField Segment Table Db DbRecover ResultSet Execute DataBuffer Packet Server.

#[local] Open Scope mile_scope.

Definition MT_VG_MT_S : Z := 0x4100.
Definition MT_VG_SM : Z := 0x5100.
Definition MT_VG_CD : Z := 0x7000.
Definition MT_VG_SC : Z := 0x7100.
Definition MT_VG_DC : Z := 0x7200.
Definition MT_CD_EXE_LOAD : Z := Z.lor MT_VG_SC 0x01.
Definition MT_CD_EXE_UNLOAD : Z := Z.lor MT_VG_SC 0x02.
Definition MT_CD_EXE_INDEX : Z := Z.lor MT_VG_SC 0x03.
Definition MT_CD_EXE_UNINDEX : Z := Z.lor MT_VG_SC 0x04.
Definition MT_CD_EXE_COMPRESS : Z := Z.lor MT_VG_SC 0x05.
Definition MT_CD_STAT : Z := Z.lor MT_VG_SC 0x06.
Definition MT_CD_EXE_CP : Z := Z.lor MT_VG_SC 0x07.
Definition MT_CD_EXE_REPLACE : Z := Z.lor MT_VG_SC 0x08.
Definition MT_CD_EXE_GET_LOAD_THRESHOLD : Z := Z.lor MT_VG_CD 0x09.
Definition MT_CD_EXE_SET_LOAD_THRESHOLD : Z := Z.lor MT_VG_CD 0x0a.
Definition MT_VG_TEST_REQ : Z := 0x9800.
Definition MT_TEST_RES_ECHO : Z := 0x9900.
Definition MT_DC_EXE_RS : Z := Z.lor MT_VG_DC 0x01.
Definition MT_DC_STAT_RS : Z := Z.lor MT_VG_DC 0x02.
Definition MT_DC_ERROR : Z := Z.lor MT_VG_DC 0x03.

Definition KB_SIZE : Z := 1024.

(** ** Packets of commands *)

(** Nothing tests these packets for their end; a name may be NULL. *)
Record load_segment_packet := LoadSegment { ls_table_name : ptr (list Z); ls_sid : Z; ls_segment_dir : ptr (list Z) }.
Record replace_segment_packet := ReplaceSegment { rs_table_name : ptr (list Z); rs_segment_dir : ptr (list Z) }.
Record unload_segment_packet := UnloadSegment { un_table_name : ptr (list Z); un_sid : Z }.
Record ensure_index_packet := EnsureIndex { ei_table_name : ptr (list Z); ei_field_name : ptr (list Z); ei_index_type : Z; ei_data_type : Z }.
Record del_index_packet := DelIndex { di_table_name : ptr (list Z); di_field_name : ptr (list Z); di_index_type : Z }.
Record doc_stat_packet := DocStat { ds_table_name : ptr (list Z); ds_type : Z }.

Section parsing.
Context (pool : Z).

Definition parse_load_segment_packet : reads load_segment_packet :=
  table_name ⇠ read_name pool; sid ⇠ read_int16; segment_dir ⇠ read_name pool; give (LoadSegment table_name sid segment_dir).
Definition parse_replace_segment_packet : reads replace_segment_packet :=
  table_name ⇠ read_name pool; segment_dir ⇠ read_name pool; give (ReplaceSegment table_name segment_dir).
Definition parse_unload_segment_packet : reads unload_segment_packet :=
  table_name ⇠ read_name pool; sid ⇠ read_int16; give (UnloadSegment table_name sid).
Definition parse_ensure_index_packet : reads ensure_index_packet :=
  table_name ⇠ read_name pool; field_name ⇠ read_name pool; index_type ⇠ read_int8; data_type ⇠ read_int8;
  give (EnsureIndex table_name field_name index_type data_type).
Definition parse_del_index_packet : reads del_index_packet :=
  table_name ⇠ read_name pool; field_name ⇠ read_name pool; index_type ⇠ read_int8; give (DelIndex table_name field_name index_type).
Definition parse_compress_packet : reads (ptr (list Z)) := read_name pool.
Definition parse_doc_stat_packet : reads doc_stat_packet := table_name ⇠ read_name pool; t ⇠ read_int8; give (DocStat table_name t).
End parsing.

Section messages.
Context (junk : Z → list Z) (behind : list Z).
Implicit Types (h : mile_message_header) (b : data_buffer).

(** ** Answers to commands *)

(** The head without clearing the buffer. *)
Definition append_head (t : Z) h b : option data_buffer :=
  b ← write_int32 junk 0 b;
  b ← write_int8 junk (version_major h) b;
  b ← write_int8 junk (version_minor h) b;
  b ← write_int16 junk t b;
  write_int32 junk (message_id h) b.

Definition gen_dc_response_packet (result_code : Z) h b : option data_buffer :=
  b ← append_head MT_DC_EXE_RS h b;
  b ← write_int32 junk (u32 result_code) b;
  fill_int32 (data_len b) b 0.

Definition segment_is_init (m : segment_meta_data) : bool := negb (Z.land (seg_flag m) SEGMENT_INIT =? 0).

(** The segments from number [i] on. *)
Fixpoint write_segment_stats (metas : list segment_meta_data) (i : Z) b : option data_buffer :=
  match metas with
  | [] => Some b
  | m :: metas =>
      b ← (if segment_is_init m then
             b ← write_int16 junk i b;
             b ← write_int64 junk (create_time m) b;
             b ← write_int64 junk (modify_time m) b;
             b ← write_int64 junk (checkpoint_time m) b;
             b ← write_int8 junk (seg_flag m) b;
             b ← write_int32 junk (row_count m) b;
             write_int32 junk (del_count m) b
           else Some b);
      write_segment_stats metas (i + 1) b
  end.

(** [metas] has as many cells as the table has segments; none for a missing table. *)
Definition gen_dc_segment_stat_packet (metas : list segment_meta_data) h b : option data_buffer :=
  b ← append_head MT_DC_STAT_RS h b;
  b ← write_int16 junk (u16 (zlen (filter (λ m, segment_is_init m = true) metas))) b;
  b ← write_segment_stats metas 0 b;
  fill_int32 (data_len b) b 0.

Fixpoint write_index_stats (l : list index_field_stat) b : option data_buffer :=
  match l with
  | [] => Some b
  | x :: l =>
      b ← write_int8 junk (alg_code (ix_type x)) b;
      b ← write_int8 junk (type_code (ix_data x)) b;
      b ← write_int8 junk (ix_flag x) b;
      write_index_stats l b
  end.

Fixpoint write_field_stats (l : list index_field_meta) b : option data_buffer :=
  match l with
  | [] => Some b
  | m :: l =>
      b ← write_int32 junk (zlen (meta_name m)) b;
      b ← write_bytes junk (meta_name m) (zlen (meta_name m)) b;
      b ← write_int8 junk (u8 (zlen (indexs m))) b;
      b ← write_index_stats (indexs m) b;
      write_field_stats l b
  end.

Definition gen_dc_index_stat_packet (l : list index_field_meta) h b : option data_buffer :=
  b ← append_head MT_DC_STAT_RS h b;
  b ← write_int16 junk (u16 (zlen l)) b;
  b ← write_field_stats l b;
  fill_int32 (data_len b) b 0.

Definition gen_docserver_client_error_packet (rc : Z) h b : option data_buffer :=
  b ← append_head MT_DC_ERROR h (clear_data_buffer b);
  b ← write_int32 junk (u32 rc) b;
  fill_int32 (data_len b) b 0.

(** The block has the size of the packet, but so has [data_len] before the writes that
    add to it. *)
Definition gen_dc_get_load_threshold_packet (load : double) h b : option data_buffer :=
  let size := 12 + 8 in
  let b := Buffer size (Ptr (replicate (Z.to_nat size) 0)) 0 0 (DataBuffer.size b) 0 in
  b ← write_int32 junk size b;
  b ← write_int8 junk (version_major h) b;
  b ← write_int8 junk (version_minor h) b;
  b ← write_int16 junk MT_DC_EXE_RS b;
  b ← write_int32 junk (message_id h) b;
  write_bytes junk (le_bytes 8 (ieee_bits 52 11 load)) 8 b.

Definition gen_dc_set_load_threshold_packet := gen_dc_get_load_threshold_packet.

(** ** Commands *)

Context {S : Type} `{!Column S} (env : exec_env S).
(** The directories of segments in a directory; an uninitialised result; the time. *)
Context (segments_in : list Z → option (list (segment_dir S))) (uninit now : Z).
Implicit Types (st : exec_state S).

(** A call on the database and the packet with its code. *)
Definition commanded st (call : db_io S → db_manager S → option (Z * db_manager S)) h b : option (Z * data_buffer * exec_state S) :=
  '(rc, st) ← ask env st call;
  b ← gen_dc_response_packet rc h b;
  Some (rc, b, st).

(** A query for the state of a missing table counts nothing. *)
Definition answer_stat st (p : doc_stat_packet) h b : option data_buffer :=
  if ds_type p =? 1 then
    name ← name_of (ds_table_name p);
    r ← db_query_segment_stat (exec_db st) name;
    gen_dc_segment_stat_packet (match r with NULL => [] | Ptr (metas, n) => take (Z.to_nat n) metas end) h b
  else if ds_type p =? 2 then
    name ← name_of (ds_table_name p);
    r ← db_query_index_stat (exec_db st) name;
    gen_dc_index_stat_packet (match r with NULL => [] | Ptr l => l end) h b
  else Some b.

Definition Command st h (rbuf sbuf : data_buffer) : option (Z * data_buffer * exec_state S) :=
  let t := message_type h in
  let fe := fields_env env in
  if t =? MT_MD_EXE_GET_KVS then
    '(p, _) ← parse_get_kvs_packet MB_SIZE rbuf;
    '(r, rc, st) ← execute_get_kvs env st p;
    b ← (if rc =? 0 then gen_result_packet junk behind t r h sbuf else Some sbuf);
    Some (rc, b, st)
  else if t =? MT_CD_EXE_COMPRESS then
    '(p, _) ← parse_compress_packet KB_SIZE rbuf;
    name ← name_of p;
    commanded st (λ io db, db_compress fe io db name) h sbuf
  else if t =? MT_CD_EXE_INDEX then
    '(p, _) ← parse_ensure_index_packet KB_SIZE rbuf;
    name ← name_of (ei_table_name p);
    field ← name_of (ei_field_name p);
    commanded st (λ io db, db_ensure_index fe (hash_value env) io db name field (ei_index_type p) (ei_data_type p)) h sbuf
  else if t =? MT_CD_EXE_UNINDEX then
    '(p, _) ← parse_del_index_packet KB_SIZE rbuf;
    name ← name_of (di_table_name p);
    field ← name_of (di_field_name p);
    commanded st (λ io db, db_del_index fe io db name field (di_index_type p)) h sbuf
  else if t =? MT_CD_EXE_LOAD then
    '(p, _) ← parse_load_segment_packet KB_SIZE rbuf;
    name ← name_of (ls_table_name p);
    dir ← name_of (ls_segment_dir p);
    commanded st (λ io db, db_load_segment fe (hash_value env) io db name (ls_sid p) dir) h sbuf
  else if t =? MT_CD_EXE_REPLACE then
    '(p, _) ← parse_replace_segment_packet KB_SIZE rbuf;
    name ← name_of (rs_table_name p);
    dir ← name_of (rs_segment_dir p);
    commanded st (λ io db,
      '(rc, _, db) ← db_replace_all_segments fe (hash_value env) io db uninit name (segments_in dir); Some (rc, db)) h sbuf
  else if t =? MT_CD_EXE_UNLOAD then
    '(p, _) ← parse_unload_segment_packet KB_SIZE rbuf;
    name ← name_of (un_table_name p);
    commanded st (λ io db, '(rc, _, db) ← db_unload_segment fe io db name (un_sid p); Some (rc, db)) h sbuf
  else if t =? MT_CD_EXE_CP then
    commanded st (λ _ db, db ← db_checkpoint fe now db; Some (0, db)) h sbuf
  else if t =? MT_CD_STAT then
    '(p, _) ← parse_doc_stat_packet MB_SIZE rbuf;
    b ← answer_stat st p h sbuf;
    Some (0, b, st)
  else Some (ERROR_UNSUPPORTED_SQL_TYPE, sbuf, st).

(** ** Messages of clients *)

(** Eight bytes as a double; less are not read, and the number stays 0. *)
Definition parse_set_load_threshold_packet : reads double := λ b,
  '(x, b) ← read_bytes b 8; Some (match x with [] => S754_zero false | _ => default S754_nan (load_double x) end, b).

(** Also the threshold. *)
Definition process_client_message (threshold : double) h (rbuf sbuf : data_buffer) : option (Z * data_buffer * double) :=
  if message_type h =? MT_CD_EXE_GET_LOAD_THRESHOLD then
    b ← gen_dc_get_load_threshold_packet threshold h sbuf; Some (0, b, threshold)
  else if message_type h =? MT_CD_EXE_SET_LOAD_THRESHOLD then
    '(value, _) ← parse_set_load_threshold_packet rbuf;
    b ← gen_dc_set_load_threshold_packet threshold h sbuf;
    Some (0, b, value)
  else Some (-1, sbuf, threshold).

(** The length of NULL is asked for. *)
Definition process_test_message h (rbuf sbuf : data_buffer) : option (Z * data_buffer) :=
  if message_type h =? MT_VG_TEST_REQ then
    '(s, _) ← read_name MB_SIZE rbuf;
    s ← name_of s;
    b ← append_head MT_TEST_RES_ECHO h sbuf;
    b ← write_int32 junk (zlen s) b;
    b ← write_bytes junk s (zlen s) b;
    b ← fill_int32 (data_len b) b 0;
    Some (0, b)
  else Some (-1, sbuf).

(** ** Messages *)

(** The head of a message, with the timeout. *)
Definition read_message_head : reads (mile_message_header * Z) :=
  major ⇠ read_int8;
  minor ⇠ read_int8;
  t ⇠ read_int16;
  id ⇠ read_int32;
  timeout ⇠ read_int32;
  give (Head major minor t id, timeout).

(** [launch_time] is in microseconds, [now] in milliseconds; [refused] and [load] are
    those of [process_mergeserver_message].  NULL for the messages of slaves, for an
    export and for a question for the state. *)
Definition parse_mile_message st (threshold : double) (rbuf sbuf : data_buffer) (launch_time : Z) (refused : bool) (load : Z)
    : option (ptr (Z * data_buffer * exec_state S * double)) :=
  '(h, timeout, rbuf) ← read_message_head rbuf;
  if negb (timeout =? 0) && (timeout <? u64 (now - launch_time / 1000)) then Some (Ptr (ERROR_TIMEOUT, sbuf, st, threshold))
  else
    let group := Z.land (message_type h) 0xFF00 in
    if group =? MT_VG_MD then
      r ← process_mergeserver_message junk behind env st h rbuf sbuf refused load (u64 (now + timeout));
      Some (match r with NULL => NULL | Ptr (rc, b, st) => Ptr (rc, b, st, threshold) end)
    else if group =? MT_VG_SC then
      '(rc, b, st) ← Command st h rbuf sbuf;
      b ← (if rc =? 0 then Some b else gen_docserver_client_error_packet rc h b);
      Some (Ptr (rc, b, st, threshold))
    else if group =? MT_VG_CD then
      '(rc, b, threshold) ← process_client_message threshold h rbuf sbuf; Some (Ptr (rc, b, st, threshold))
    else if group =? MT_VG_SM then Some NULL
    else if group =? MT_VG_TEST_REQ then '(rc, b) ← process_test_message h rbuf sbuf; Some (Ptr (rc, b, st, threshold))
    else Some (Ptr (-1, sbuf, st, threshold)).
End messages.

(** ** Packets on a connection *)

(** The buffer with the message behind its length, the type of the message, and how
    many bytes it took; NULL when it has not arrived as a whole. *)
Definition pre_parse_packet (buf : list Z) : option (ptr (data_buffer * Z * Z)) :=
  if zlen buf <? 4 then Some NULL
  else
    n ← load buf 4;
    let packet_len := convert_int32 n in
    if zlen buf <? packet_len then Some NULL
    else
      body ← zsub buf 4 (u32 (packet_len - 4));
      '(t, b) ← read_pos_int16 (Buffer (u32 (packet_len - 4)) (Ptr body) 0 0 0 0) 2;
      Some (Ptr (b, t, packet_len)).

(** The answer with the threshold has 20 bytes, and 20 more are sent behind it. *)
Lemma load_threshold_packet_long h : ∃ b,
  gen_dc_get_load_threshold_packet fresh_170 (S754_zero false) h init_data_buffer = Some b ∧ wpos b = 20 ∧ data_len b = 40.
Proof. eexists. split; [vm_compute; reflexivity|]. done. Qed.
