(* ===== verification/ServerSpec.v ===== *)
(** * What the server answers

    A statement that arrives as a message is executed as the statement it encodes, and
    the answer is the encoding of its result, or of its error. *)

From Stdlib Require Import ZArith Lia SpecFloat.
From stdpp Require Import base option list numbers gmap sets.
From S2P Require Import Prelude FileOp StringMap RowidList SetOperator SegRowid Suffix LowData Compare HashIndex HashIndexSpec HashMemCompress VStorage Hash Column FilterIndex RowData DataField IndexField IndexFieldSpec Segment SegmentSpec Table TableSpec TableIndexSpec Binlog BinlogSpec BinlogSync Slave SlaveSpec DbRecord DbRecordSpec MileArray MileHashMap Row Aggr Expression ResultSet DocTable DocScan Execute SelectSpec QuerySpec ScanSpec Db DbRecover CatalogSpec DbSpec DbReplica DbStartSpec DatabaseSpec DbQuery DbSelect DbModify DataBuffer Packet PacketSpec Server Command.

#[local] Open Scope mile_scope.

(** ** Writers *)

Section writers.
Context (junk : Z → list Z) (junk_len : ∀ n, 0 ≤ n → zlen (junk n) = n) (behind : list Z).

(** [w] writes [fs] behind what the buffer has. *)
Definition writes (w : data_buffer → option data_buffer) (fs : list field_value) : Prop :=
  ∀ b m, DataBuffer.holds b m → zlen m + zlen (message_bytes fs) < 2 ^ 29 →
    ∃ b', w b = Some b' ∧ DataBuffer.holds b' (m ++ message_bytes fs).

Lemma writes_none : writes Some [].
Proof. intros b m Hb _. exists b. by rewrite app_nil_r. Qed.

Lemma writes_value v : writes (write_value junk v) [v].
Proof. intros b m Hb Hl. rewrite message_bytes_one in Hl |- *. by apply write_value_holds. Qed.

Lemma writes_seq w1 w2 f1 f2 : writes w1 f1 → writes w2 f2 → writes (λ b, b ← w1 b; w2 b) (f1 ++ f2).
Proof.
  intros H1 H2 b m Hb Hl. rewrite message_bytes_app, zlen_app in Hl. pose proof (zlen_nonneg (message_bytes f2)).
  destruct (H1 b m Hb) as (b1 & -> & Hb1); [lia|]. cbn [mbind option_bind].
  destruct (H2 b1 _ Hb1) as (b2 & -> & Hb2); [rewrite zlen_app; lia|]. exists b2. by rewrite message_bytes_app, app_assoc.
Qed.

Lemma writes_cons v w2 f2 : writes w2 f2 → writes (λ b, b ← write_value junk v b; w2 b) (v :: f2).
Proof. intros H2. apply (writes_seq _ _ [v]); [apply writes_value|done]. Qed.

(** ** Values *)

(** The fields of a number with its width in front. *)
Definition number_value (k n : Z) : list field_value := [Int32 k; number_fields k n].

Lemma writes_number k n : k = 1 ∨ k = 2 ∨ k = 4 ∨ k = 8 → writes (Server.write_number junk k n) (number_value k n).
Proof.
  intros Hk. refine (writes_cons (Int32 k) (λ b, if k =? 1 then write_int8 junk n b else if k =? 2 then write_int16 junk n b else if k =? 4 then write_int32 junk n b else write_int64 junk n b) [number_fields k n] _).
  destruct Hk as [->|[->|[->| ->]]]; [apply (writes_value (Int8 n))|apply (writes_value (Int16 n))|apply (writes_value (Int32 n))|apply (writes_value (Int64 n))].
Qed.

Definition plain_fields (d : low_data_struct) : list field_value :=
  if bool_decide (type d = HI_TYPE_NULL) || (len d =? 0) && negb (bool_decide (type d = HI_TYPE_STRING)) then [Int8 0]
  else
    Int8 (type_code (type d)) ::
    (if len d =? 0 then [Int32 0]
     else if 0 <? get_unit_size (type d) then number_value (get_unit_size (type d)) (le_value (data d))
     else [Int32 (len d); Raw (data d)]).

(** A null, a number of the width of its type or a text, with exactly its bytes. *)
Definition plain_ok (d : low_data_struct) : Prop :=
  whole d ∧ Forall (λ c, 0 ≤ c < 256) (data d) ∧
  (type d = HI_TYPE_NULL ∨ len d = 0 ∨ 0 < get_unit_size (type d) ∧ len d = get_unit_size (type d) ∨ type d = HI_TYPE_VARCHAR ∨ type d = HI_TYPE_STRING).

(** The low half of eight bytes. *)
Lemma load_behind d : zlen d = 4 → Forall (λ c, 0 ≤ c < 256) d → 4 ≤ zlen behind → ∃ n, load (d ++ behind) 8 = Some n ∧ u32 n = le_value d.
Proof.
  intros Hd Hc Hb. assert (∃ e, zsub (d ++ behind) 0 8 = Some (d ++ e)) as (e & He).
  { exists (take 4 behind). unfold zsub. rewrite zlen_app, decide_True by lia. f_equal. change (Z.to_nat 0) with 0%nat. rewrite drop_0.
    change (Z.to_nat 8) with 8%nat. rewrite take_app. unfold zlen in Hd. rewrite take_ge by lia. f_equal. f_equal. lia. }
  unfold load. rewrite He. eexists. split; [reflexivity|]. pose proof (le_value_bound d 4 Hc Hd) as Hr.
  assert (∀ l : list Z, le_value (l ++ e) = le_value l + 256 ^ zlen l * le_value e) as Happ.
  { induction l as [|c l IH]; [cbn [app le_value]; change (zlen (@nil Z)) with 0; rewrite Z.pow_0_r; lia|].
    cbn [app le_value]. rewrite IH, zlen_cons. pose proof (zlen_nonneg l). rewrite Z.pow_add_r by lia. lia. }
  rewrite Happ, Hd. unfold u32. change (256 ^ 4) with (2 ^ 32). rewrite Z.mul_comm, Z.mod_add by done. apply Z.mod_small. exact Hr.
Qed.

Definition writes_coded (w : data_buffer → option (Z * data_buffer)) (fs : list field_value) : Prop :=
  ∀ b m, DataBuffer.holds b m → zlen m + zlen (message_bytes fs) < 2 ^ 29 →
    ∃ b', w b = Some (0, b') ∧ DataBuffer.holds b' (m ++ message_bytes fs).

Lemma writes_with_code w fs : writes w fs → writes_coded (λ b, b ← w b; Some (0, b)) fs.
Proof. intros H b m Hb Hl. destruct (H b m Hb Hl) as (b' & -> & Hb'). by exists b'. Qed.

Lemma writes_then w1 w2 f1 f2 : writes w1 f1 → writes_coded w2 f2 → writes_coded (λ b, b ← w1 b; w2 b) (f1 ++ f2).
Proof.
  intros H1 H2 b m Hb Hl. rewrite message_bytes_app, zlen_app in Hl. pose proof (zlen_nonneg (message_bytes f2)).
  destruct (H1 b m Hb) as (b1 & -> & Hb1); [lia|]. cbn [mbind option_bind].
  destruct (H2 b1 _ Hb1) as (b2 & -> & Hb2); [rewrite zlen_app; lia|]. exists b2. by rewrite message_bytes_app, app_assoc.
Qed.

Lemma writes_plain d : 4 ≤ zlen behind → plain_ok d → writes_coded (write_plain junk behind d) (plain_fields d).
Proof.
  intros Hb (Hw & Hc & Hd). unfold plain_fields, write_plain.
  destruct (bool_decide (type d = HI_TYPE_NULL)) eqn:En; cbn [orb].
  { apply writes_with_code, (writes_value (Int8 0)). }
  destruct ((len d =? 0) && negb (bool_decide (type d = HI_TYPE_STRING))) eqn:El.
  { apply writes_with_code, (writes_value (Int8 0)). }
  apply bool_decide_eq_false in En. rewrite bool_decide_false.
  2:{ intros E. rewrite E in Hd, El. destruct Hd as [?|[E0|[[H _]|[?|?]]]]; try done. by rewrite E0 in El. }
  apply (writes_then (write_value junk (Int8 (type_code (type d)))) _ [_]); [apply writes_value|].
  destruct (Z.eqb_spec (len d) 0) as [E0|E0]; [apply writes_with_code, (writes_value (Int32 0))|].
  destruct Hd as [?|[?|[[Hu Hl]|Hs]]]; [done|done| |].
  - rewrite (proj2 (Z.ltb_lt _ _)) by done. unfold whole in Hw. rewrite Hl in Hw.
    assert (∀ k, zlen (data d) = k → load (data d) k = Some (le_value (data d))) as Hload by (intros k; apply load_all).
    destruct (type d); try done; cbn [get_unit_size] in *;
      try (rewrite (Hload _ Hw); cbn [mbind option_bind]; apply writes_with_code, writes_number; auto);
      (destruct (load_behind (data d) Hw Hc Hb) as (n & -> & <-); cbn [mbind option_bind]; apply writes_with_code, writes_number; auto).
  - assert (zsub (data d) 0 (len d) = Some (data d)) as Hz by (by apply whole_bytes).
    destruct Hs as [-> | ->]; cbn [get_unit_size];
      (apply (writes_then (write_value junk (Int32 (len d))) _ [_] [_]); [apply writes_value|];
       apply writes_with_code; intros b m Hh Hlen; unfold write_bytes; rewrite message_bytes_one in Hlen |- *;
       destruct (write_value_holds junk junk_len b m (Raw (data d)) Hh Hlen) as (b' & E & Hb'); exists b'; split; [|done];
       cbn [write_value] in E; unfold write_bytes in E; unfold whole in Hw; rewrite Hw in E; exact E).
Qed.

(** A set or an array of values. *)
Definition elements_fields (t : field_types) (n : Z) (l : list low_data_struct) : list field_value :=
  if n =? 0 then [Int8 0] else [Int8 (type_code t); Int32 n] ++ concat (plain_fields <$> l).

Definition value_fields (v : row_value) : list field_value :=
  match v with
  | Plain d => plain_fields d
  | SetOf n s => elements_fields HI_TYPE_SET n (default [] (set_items s))
  | ArrayOf n a => elements_fields HI_TYPE_ARRAY n (default [] (array_items a))
  end.

Definition elements_ok (items : option (list low_data_struct)) : Prop := ∃ l, items = Some l ∧ Forall plain_ok l.

Definition value_ok (v : row_value) : Prop :=
  match v with Plain d => plain_ok d | SetOf _ s => elements_ok (set_items s) | ArrayOf _ a => elements_ok (array_items a) end.

Hypothesis behind_len : 4 ≤ zlen behind.

Lemma writes_elements l : Forall plain_ok l → writes_coded (write_elements junk behind l) (concat (plain_fields <$> l)).
Proof.
  induction 1 as [|d l Hd _ IH]; [apply (writes_with_code Some []), writes_none|].
  intros b m Hb Hl. cbn [fmap list_fmap concat] in *. rewrite message_bytes_app, zlen_app in Hl. pose proof (zlen_nonneg (message_bytes (concat (plain_fields <$> l)))).
  cbn [write_elements]. destruct (writes_plain d behind_len Hd b m Hb) as (b1 & -> & Hb1); [lia|]. cbn [mbind option_bind]. change (0 <? 0) with false. cbv iota.
  destruct (IH b1 _ Hb1) as (b2 & -> & Hb2); [rewrite zlen_app; lia|]. exists b2. by rewrite message_bytes_app, app_assoc.
Qed.

Lemma writes_elements_of t n items : elements_ok items →
  writes_coded (write_elements_of junk behind t n items) (elements_fields t n (default [] items)).
Proof.
  intros (l & -> & Hl). unfold write_elements_of, elements_fields. cbn [default option.from_option id].
  destruct (n =? 0); [apply writes_with_code, (writes_value (Int8 0))|]. cbn [mbind option_bind app].
  apply (writes_then (write_value junk (Int8 (type_code t))) _ [_]); [apply writes_value|].
  apply (writes_then (write_value junk (Int32 n)) _ [_]); [apply writes_value|]. by apply writes_elements.
Qed.

Lemma writes_dyn_value v : value_ok v → writes_coded (write_dyn_value junk behind v) (value_fields v).
Proof. destruct v as [d|n s|n a]; cbn [value_ok]; intros Hv; [by apply writes_plain|by apply writes_elements_of..]. Qed.

(** ** Rows *)

Definition row_fields (row : select_row_t) : list field_value :=
  Int64 (match handler row with NULL => 0 | Ptr h => docid h end) :: concat ((value_fields ∘ content) <$> Row.row_data row).

Definition answer_row_ok (row : select_row_t) : Prop := Forall (value_ok ∘ content) (Row.row_data row).

Lemma writes_cells l : Forall (value_ok ∘ content) l → writes (write_cells junk behind l) (concat ((value_fields ∘ content) <$> l)).
Proof.
  induction 1 as [|c l Hc _ IH]; [apply writes_none|]. intros b m Hb Hl. cbn [fmap list_fmap concat] in *. rewrite message_bytes_app, zlen_app in Hl.
  pose proof (zlen_nonneg (message_bytes (concat ((value_fields ∘ content) <$> l)))). cbn [write_cells].
  destruct (writes_dyn_value (content c) Hc b m Hb) as (b1 & -> & Hb1); [unfold compose in *; lia|]. cbn [mbind option_bind].
  destruct (IH b1 _ Hb1) as (b2 & -> & Hb2); [rewrite zlen_app; unfold compose in *; lia|]. exists b2. by rewrite message_bytes_app, app_assoc.
Qed.

Lemma writes_rows rows : Forall answer_row_ok rows → writes (write_rows junk behind rows) (concat (row_fields <$> rows)).
Proof.
  induction 1 as [|row rows Hr _ IH]; [apply writes_none|]. cbn [write_rows fmap list_fmap concat]. unfold row_fields at 1. cbn [app].
  apply (writes_cons (Int64 _) (λ b, b ← write_cells junk behind (Row.row_data row) b; write_rows junk behind rows b)).
  apply writes_seq; [by apply writes_cells|done].
Qed.

(** ** Packets *)

Lemma fill_holds b pre x post n : DataBuffer.holds b (pre ++ x ++ post) → zlen x = 4 →
  ∃ b', fill_int32 n b (zlen pre) = Some b' ∧ DataBuffer.holds b' (pre ++ be_bytes 4 n ++ post).
Proof.
  clear behind_len behind junk_len junk. intros [Hl Hw Hr Hs Hm (rest & Hd) Hbd] Hx. unfold fill_int32, fill_number. change (Z.of_nat 4) with 4.
  assert (zlen (be_bytes 4 n) = 4) as H4 by apply zlen_be_bytes.
  pose proof (zlen_nonneg pre). pose proof (zlen_nonneg post). pose proof (zlen_nonneg rest).
  rewrite Hd, !zlen_app in Hs. rewrite Hl, !zlen_app, u32_small by lia. rewrite Z.gtb_ltb, (proj2 (Z.ltb_ge _ _)) by lia.
  rewrite Hd, <- !app_assoc, zcopy_mid by (rewrite !zlen_app; lia). cbn [mbind option_bind].
  assert (drop (length (be_bytes 4 n)) (x ++ post ++ rest) = post ++ rest) as ->.
  { replace (length (be_bytes 4 n)) with (length x) by (unfold zlen in *; lia). by rewrite drop_app_length. }
  eexists. split; [done|]. split; cbn [set_data data_len wpos rpos block buf_data size array_border].
  - rewrite Hl, !zlen_app. lia.
  - rewrite Hw, !zlen_app. lia.
  - done.
  - rewrite !zlen_app. lia.
  - done.
  - exists rest. by rewrite <- !app_assoc.
  - done.
Qed.

Definition head_fields (t : Z) (h : mile_message_header) : list field_value :=
  [Int8 (version_major h); Int8 (version_minor h); Int16 t; Int32 (message_id h)].

(** A packet with its length, which counts itself. *)
Definition packet_fields (t : Z) (h : mile_message_header) (body : list field_value) : list field_value :=
  Int32 (12 + zlen (message_bytes body)) :: head_fields t h ++ body.

Lemma zlen_value n : zlen (value_bytes (Int32 n)) = 4.
Proof. apply (zlen_be_bytes 4). Qed.

Lemma zlen_head t h : zlen (message_bytes (head_fields t h)) = 8.
Proof. unfold head_fields. rewrite !message_bytes_cons, !zlen_app. cbn [value_bytes]. by rewrite !zlen_be_bytes. Qed.

Lemma write_head_holds t h b : ∃ b', write_head junk t h b = Some b' ∧ DataBuffer.holds b' (message_bytes (Int32 0 :: head_fields t h)).
Proof.
  assert (writes (λ b, b ← write_value junk (Int32 0) b; b ← write_value junk (Int8 (version_major h)) b; b ← write_value junk (Int8 (version_minor h)) b;
    b ← write_value junk (Int16 t) b; write_value junk (Int32 (message_id h)) b) (Int32 0 :: head_fields t h)) as Hw by (do 4 apply writes_cons; apply writes_value).
  destruct (Hw (clear_data_buffer b) []) as (b' & E & Hb'); [apply holds_init|rewrite message_bytes_cons, !zlen_app, zlen_head, zlen_value; change (zlen (@nil Z)) with 0; lia|].
  by exists b'.
Qed.

(** A packet: the head, the body, and the length filled in. *)
Lemma gen_packet t h body (w : data_buffer → option data_buffer) b : writes w body → zlen (message_bytes body) < 2 ^ 28 →
  ∃ b1 b2 b3, write_head junk t h b = Some b1 ∧ w b1 = Some b2 ∧ fill_int32 (data_len b2) b2 0 = Some b3 ∧
    DataBuffer.holds b1 (message_bytes (Int32 0 :: head_fields t h)) ∧ DataBuffer.holds b3 (message_bytes (packet_fields t h body)).
Proof.
  intros Hw Hlen. destruct (write_head_holds t h b) as (b1 & E1 & Hb1).
  destruct (Hw b1 _ Hb1) as (b2 & E2 & Hb2); [rewrite message_bytes_cons, zlen_app, zlen_head, zlen_value; lia|].
  assert (data_len b2 = 12 + zlen (message_bytes body)) as El by (destruct Hb2 as [-> _ _ _ _ _ _]; rewrite zlen_app, message_bytes_cons, zlen_app, zlen_head, zlen_value; lia).
  rewrite message_bytes_cons, <- app_assoc in Hb2.
  destruct (fill_holds b2 [] (value_bytes (Int32 0)) _ (data_len b2) Hb2 (zlen_value 0)) as (b3 & E3 & Hb3).
  exists b1, b2, b3. split_and!; [done..|]. unfold packet_fields. rewrite message_bytes_cons, message_bytes_app, <- El. exact Hb3.
Qed.

Definition number_body (k n : Z) : list field_value := [Int32 1; Int32 0] ++ number_value k n.

Lemma gen_number_holds k n h b : k = 1 ∨ k = 2 ∨ k = 4 ∨ k = 8 →
  ∃ b', gen_number_packet junk k n h b = Some b' ∧ DataBuffer.holds b' (message_bytes (packet_fields MT_DM_RS h (number_body k n))).
Proof.
  intros Hk.
  assert (writes (λ b, b ← write_value junk (Int32 1) b; b ← write_value junk (Int32 0) b; Server.write_number junk k n b) (number_body k n)) as Hw
    by (do 2 apply writes_cons; by apply writes_number).
  destruct (gen_packet MT_DM_RS h _ _ b Hw) as (b1 & b2 & b3 & E1 & E2 & E3 & _ & Hb3).
  { unfold number_body, number_value. cbn [app]. rewrite !message_bytes_cons, !zlen_app, !zlen_value. change (zlen (message_bytes [])) with 0.
    destruct Hk as [->|[->|[->| ->]]]; cbn [number_fields Z.eqb Pos.eqb value_bytes]; rewrite zlen_be_bytes; lia. }
  exists b3. split; [|done]. unfold gen_number_packet. rewrite E1. cbn [mbind option_bind].
  cbn [write_value] in E2. destruct (write_int32 junk 1 b1) as [c1|]; [|done]. cbn [mbind option_bind] in *.
  destruct (write_int32 junk 0 c1) as [c2|]; [|done]. cbn [mbind option_bind] in *. rewrite E2. exact E3.
Qed.

Definition error_body (rc : Z) : list field_value := [Int16 (u16 rc); Int32 0; Cstring (error_msg rc)].

Lemma error_msg_short rc : zlen (error_msg rc) < 100.
Proof.
  unfold error_msg. destruct (List.find _ _) as [[c s]|] eqn:E; [|vm_compute; reflexivity]. apply List.find_some in E as [E _].
  assert (∀ p, List.In p error_texts → zlen (bytes_of p.2) < 100) as H; [|by apply (H (c, s))].
  refine (proj1 (List.Forall_forall (λ p, zlen (bytes_of p.2) < 100) error_texts) _). clear. unfold error_texts. repeat (apply Forall_cons_2; [vm_compute; reflexivity|]). apply Forall_nil_2.
Qed.

Lemma gen_error_holds rc h b :
  ∃ b', gen_error_packet junk rc h b = Some b' ∧ DataBuffer.holds b' (message_bytes (packet_fields MT_DM_SQL_EXC_ERROR h (error_body rc))).
Proof.
  assert (writes (λ b, b ← write_value junk (Int16 (u16 rc)) b; b ← write_value junk (Int32 0) b; write_value junk (Cstring (error_msg rc)) b) (error_body rc)) as Hw
    by (do 2 apply writes_cons; apply writes_value).
  destruct (gen_packet MT_DM_SQL_EXC_ERROR h _ _ b Hw) as (b1 & b2 & b3 & E1 & E2 & E3 & _ & Hb3).
  { unfold error_body. rewrite !message_bytes_cons, !zlen_app. cbn [value_bytes]. rewrite zlen_app, !zlen_be_bytes. change (zlen (message_bytes [])) with 0.
    pose proof (error_msg_short rc). lia. }
  exists b3. split; [|done]. unfold gen_error_packet. rewrite E1. cbn [mbind option_bind].
  cbn [write_value] in E2. destruct (write_int16 junk (u16 rc) b1) as [c1|]; [|done]. cbn [mbind option_bind] in *.
  destruct (write_int32 junk 0 c1) as [c2|]; [|done]. cbn [mbind option_bind] in *. destruct (write_int32 junk (zlen (error_msg rc)) c2) as [c3|]; [|done].
  cbn [mbind option_bind] in *. rewrite E2. exact E3.
Qed.

Definition rows_body (size : Z) (rows : list select_row_t) : list field_value :=
  let fs := concat (row_fields <$> rows) in [Int32 size; Int32 0; Int32 (zlen (message_bytes fs))] ++ fs.

Lemma gen_query_holds size rows h b : Forall answer_row_ok rows → zlen (message_bytes (rows_body size rows)) < 2 ^ 28 →
  ∃ b', gen_query_result_packet junk behind size rows h b = Some b' ∧ DataBuffer.holds b' (message_bytes (packet_fields MT_DM_RS h (rows_body size rows))).
Proof.
  intros Hrows Hlen. set (fs := concat (row_fields <$> rows)).
  assert (writes (λ b, b ← write_value junk (Int32 size) b; b ← write_value junk (Int32 0) b; b ← write_value junk (Int32 0) b; write_rows junk behind rows b)
    ([Int32 size; Int32 0; Int32 0] ++ fs)) as Hw by (do 3 apply writes_cons; by apply writes_rows).
  assert (∀ n, zlen (message_bytes ([Int32 size; Int32 0; Int32 n] ++ fs)) = 12 + zlen (message_bytes fs)) as Hl.
  { intros n. cbn [app]. rewrite !message_bytes_cons, !zlen_app, !zlen_value. lia. }
  unfold rows_body in *. fold fs in Hlen |- *. rewrite Hl in Hlen.
  destruct (gen_packet MT_DM_RS h _ _ b Hw) as (b1 & b2 & b3 & E1 & E2 & E3 & Hb1 & Hb3); [rewrite Hl; lia|].
  unfold packet_fields in *. rewrite Hl in *. unfold gen_query_result_packet. rewrite E1. cbn [mbind option_bind].
  destruct (write_value_holds junk junk_len b1 _ (Int32 size) Hb1) as (c1 & F1 & Hc1); [rewrite message_bytes_cons, zlen_app, zlen_head, !zlen_value; lia|].
  destruct (write_value_holds junk junk_len c1 _ (Int32 0) Hc1) as (c2 & F2 & Hc2); [rewrite message_bytes_cons, !zlen_app, zlen_head, !zlen_value; lia|].
  cbn beta in E2. rewrite F1 in E2. cbn [mbind option_bind] in E2. rewrite F2 in E2. cbn [mbind option_bind] in E2. cbn [write_value] in E2, F1, F2.
  rewrite F1. cbn [mbind option_bind]. rewrite F2. cbn [mbind option_bind]. destruct (write_int32 junk 0 c2) as [c3|]; [|done]. cbn [mbind option_bind] in *.
  rewrite E2. cbn [mbind option_bind]. rewrite E3. cbn [mbind option_bind].
  assert (wpos c2 = 20) as -> by (destruct Hc2 as [_ -> _ _ _ _ _]; rewrite message_bytes_cons, !zlen_app, zlen_head, !zlen_value; lia).
  assert (data_len b3 = 24 + zlen (message_bytes fs)) as ->.
  { destruct Hb3 as [-> _ _ _ _ _ _]. rewrite message_bytes_cons, message_bytes_app, !zlen_app, zlen_head, zlen_value, Hl. lia. }
  pose proof (zlen_nonneg (message_bytes fs)). replace (24 + zlen (message_bytes fs) - 20 - 4) with (zlen (message_bytes fs)) by lia. rewrite u32_small by lia.
  set (pre := message_bytes (Int32 (12 + (12 + zlen (message_bytes fs))) :: head_fields MT_DM_RS h ++ [Int32 size; Int32 0])).
  assert (∀ n, message_bytes (Int32 (12 + (12 + zlen (message_bytes fs))) :: head_fields MT_DM_RS h ++ [Int32 size; Int32 0; Int32 n] ++ fs) =
    pre ++ value_bytes (Int32 n) ++ message_bytes fs) as Hsplit.
  { intros n. unfold pre. rewrite !message_bytes_cons, !message_bytes_app, <- app_assoc. f_equal. }
  assert (zlen pre = 20) as Hpre by (unfold pre; by rewrite message_bytes_cons, message_bytes_app, !zlen_app, zlen_head, zlen_value, !message_bytes_cons, !zlen_app, !zlen_value).
  rewrite Hsplit in Hb3 |- *. destruct (fill_holds b3 pre (value_bytes (Int32 0)) _ (zlen (message_bytes fs)) Hb3 (zlen_value 0)) as (b4 & E4 & Hb4).
  rewrite Hpre in E4. rewrite E4. by exists b4.
Qed.
End writers.

(** ** Messages *)

(** A message with its length, which counts itself. *)
Definition message_fields (h : mile_message_header) (timeout : Z) (body : list field_value) : list field_value :=
  Int32 (16 + zlen (message_bytes body)) :: head_fields (message_type h) h ++ Int32 timeout :: body.

Definition head_ok (h : mile_message_header) (timeout : Z) : Prop :=
  0 ≤ version_major h < 2 ^ 8 ∧ 0 ≤ version_minor h < 2 ^ 8 ∧ 0 ≤ message_type h < 2 ^ 16 ∧ 0 ≤ message_id h < 2 ^ 32 ∧ 0 ≤ timeout < 2 ^ 32.

Lemma convert_be n : 0 ≤ n < 2 ^ 32 → convert_int32 (le_value (be_bytes 4 n)) = n.
Proof.
  intros Hn. unfold convert_int32, be_bytes at 1.
  assert (Forall (λ c, 0 ≤ c < 256) (be_bytes 4 n)) as Hc.
  { unfold be_bytes. apply Forall_reverse. cbn [le_bytes]. repeat (apply Forall_cons_2; [apply Z.mod_pos_bound; lia|]). apply Forall_nil_2. }
  pose proof (le_bytes_value _ Hc) as E. assert (length (be_bytes 4 n) = 4%nat) as E4 by (unfold be_bytes; by rewrite length_reverse, length_le_bytes).
  rewrite E4 in E. rewrite E. unfold be_bytes. rewrite reverse_involutive. by apply le_value_bytes.
Qed.

Lemma zlen_message h timeout body : zlen (message_bytes (message_fields h timeout body)) = 16 + zlen (message_bytes body).
Proof. unfold message_fields. rewrite message_bytes_cons, message_bytes_app, message_bytes_cons, !zlen_app, zlen_head, !zlen_value. lia. Qed.

(** The connection has a whole message, and maybe more. *)
Lemma pre_parse_message h timeout body rest : head_ok h timeout → zlen (message_bytes body) < 2 ^ 29 →
  ∃ b, pre_parse_packet (message_bytes (message_fields h timeout body) ++ rest) = Some (Ptr (b, message_type h, zlen (message_bytes (message_fields h timeout body)))) ∧
    received b (message_bytes (head_fields (message_type h) h ++ Int32 timeout :: body)) ∧ rpos b = 0 ∧ array_border b = 0.
Proof.
  intros (_ & _ & Ht & _ & _) Hl. set (n := 16 + zlen (message_bytes body)). set (tail := message_bytes (head_fields (message_type h) h ++ Int32 timeout :: body)).
  pose proof (zlen_nonneg (message_bytes body)). pose proof (zlen_nonneg rest). rewrite zlen_message. fold n.
  assert (message_bytes (message_fields h timeout body) ++ rest = be_bytes 4 n ++ tail ++ rest) as ->.
  { unfold message_fields. rewrite message_bytes_cons, <- app_assoc. done. }
  assert (zlen tail = n - 4) as Htail. { unfold tail. rewrite message_bytes_app, message_bytes_cons, !zlen_app, zlen_head, zlen_value. lia. }
  assert (zlen (be_bytes 4 n) = 4) as H4 by apply zlen_be_bytes.
  unfold pre_parse_packet. rewrite !zlen_app, H4, Htail. rewrite (proj2 (Z.ltb_ge _ _)) by lia.
  assert (load (be_bytes 4 n ++ tail ++ rest) 4 = Some (le_value (be_bytes 4 n))) as ->.
  { unfold load. pose proof (zsub_mid [] (be_bytes 4 n) (tail ++ rest) 0 4 eq_refl (eq_sym H4)) as E. cbn [app] in E. by rewrite E. }
  cbn [mbind option_bind]. rewrite convert_be by lia. rewrite (proj2 (Z.ltb_ge _ _)) by lia. rewrite u32_small by lia.
  rewrite (zsub_mid (be_bytes 4 n) tail rest 4 (n - 4)) by (by rewrite ?H4). cbn [mbind option_bind].
  set (b := Buffer (n - 4) (Ptr tail) 0 0 0 0).
  assert (read_pos_int16 b 2 = Some (message_type h, b)) as ->.
  { unfold read_pos_int16, read_pos_number. rewrite u32_small by lia. cbn [data_len b]. rewrite Z.gtb_ltb, (proj2 (Z.ltb_ge _ _)) by lia.
    assert (∃ x y, tail = (value_bytes (Int8 (version_major h)) ++ value_bytes (Int8 (version_minor h))) ++ be_bytes 2 (message_type h) ++ y ∧ x = y) as (x & y & E & _).
    { eexists _, _. split; [|reflexivity]. unfold tail, head_fields. cbn [app]. rewrite !message_bytes_cons, <- !app_assoc. reflexivity. }
    change (block b) with tail. rewrite E. rewrite zsub_mid; [|rewrite zlen_app; cbn [value_bytes]; by rewrite !zlen_be_bytes|by rewrite zlen_be_bytes].
    cbn [mbind option_bind]. by rewrite be_value_bytes by (cbn; lia). }
  cbn [mbind option_bind]. exists b. split; [done|]. split; [|done]. split; [done|]. split; [lia|]. exists []. by rewrite app_nil_r.
Qed.

(** What is not there as a whole is left alone. *)
Lemma pre_parse_part h timeout body k : zlen (message_bytes body) < 2 ^ 29 → 0 ≤ k < zlen (message_bytes (message_fields h timeout body)) →
  pre_parse_packet (take (Z.to_nat k) (message_bytes (message_fields h timeout body))) = Some NULL.
Proof.
  intros Hl Hk. pose proof (zlen_nonneg (message_bytes body)). rewrite zlen_message in Hk. set (m := message_bytes (message_fields h timeout body)).
  assert (zlen (take (Z.to_nat k) m) = k) as Ek.
  { assert (zlen m = 16 + zlen (message_bytes body)) as Em by apply zlen_message. unfold zlen in *. rewrite length_take. lia. }
  unfold pre_parse_packet. rewrite Ek. destruct (Z.ltb_spec k 4) as [|Hk4]; [done|].
  assert (∃ y, m = be_bytes 4 (16 + zlen (message_bytes body)) ++ y) as (y & Em) by (eexists; unfold m, message_fields; by rewrite message_bytes_cons).
  assert (load (take (Z.to_nat k) m) 4 = Some (le_value (be_bytes 4 (16 + zlen (message_bytes body))))) as ->.
  { unfold load, zsub. rewrite Ek, decide_True by lia. cbn [fmap option_fmap option_map]. f_equal. f_equal. change (Z.to_nat 0) with 0%nat. change (Z.to_nat 4) with 4%nat.
    rewrite drop_0, take_take, Nat.min_l by lia. by rewrite Em, take_app_le, take_ge by (unfold be_bytes; rewrite length_reverse, length_le_bytes; lia). }
  cbn [mbind option_bind]. rewrite convert_be by lia. by rewrite (proj2 (Z.ltb_lt _ _)) by lia.
Qed.

Lemma parses_head h timeout : head_ok h timeout → parses read_message_head (message_bytes (head_fields (message_type h) h ++ [Int32 timeout])) (h, timeout).
Proof.
  destruct h as [major minor t id]. intros (H1 & H2 & H3 & H4 & H5). cbn [version_major version_minor message_type message_id] in *.
  unfold head_fields. cbn [version_major version_minor message_type message_id app]. rewrite !message_bytes_cons.
  eapply parses_bind; [by apply parses_int8|]. eapply parses_bind; [by apply parses_int8|]. eapply parses_bind; [by apply parses_int16|].
  eapply parses_bind; [by apply parses_int32|]. eapply parses_bind; [by apply parses_int32|]. apply parses_give.
Qed.

(** ** Statements *)

Definition statement_type (s : wire_statement) : Z :=
  match s with
  | Insert _ => MT_MD_EXE_INSERT | Delete _ => MT_MD_EXE_DELETE | Update _ => MT_MD_EXE_UPDATE | Export _ => MT_MD_EXE_EXPORT
  | Query _ => MT_MD_EXE_QUERY | Kvs _ => MT_MD_EXE_GET_KVS
  end.

(** Only a delete, an update and a query are refused when the processor is busy, and
    only a query when the load is high. *)
Definition accepted (s : wire_statement) (refused : bool) (load : Z) : Prop :=
  match s with Delete _ | Update _ => refused = false | Query _ => refused = false ∧ load = 0 | _ => True end.

(** The answer with a result, or with an error. *)
Definition answer_fields (h : mile_message_header) (r : step_result) (rc : Z) : list field_value :=
  if rc =? 0 then
    packet_fields MT_DM_RS h
      (match r with HandlerId id => number_body 8 id | ResultNumber n => number_body 4 n | ResultRows size rows => rows_body size rows | _ => [] end)
  else packet_fields MT_DM_SQL_EXC_ERROR h (error_body rc).

(** The kind of result of the statement; rows that can be written, and not too many. *)
Definition result_ok (s : wire_statement) (r : step_result) : Prop :=
  match s, r with
  | Insert _, HandlerId _ => True
  | (Delete _ | Update _), ResultNumber _ => True
  | (Query _ | Kvs _), ResultRows size rows => Forall answer_row_ok rows ∧ zlen (message_bytes (rows_body size rows)) < 2 ^ 28
  | _, _ => False
  end.

Section answered.
Context (junk : Z → list Z) (junk_len : ∀ n, 0 ≤ n → zlen (junk n) = n) (behind : list Z) (behind_len : 4 ≤ zlen behind).
Context {S : Type} `{!Column S} (env : exec_env S).

Definition execute_statement (st : exec_state S) (deadline : Z) (s : wire_statement) : option (step_result * Z * exec_state S) :=
  match s with
  | Insert p => execute_insert env st deadline p
  | Delete p => execute_delete env st deadline p
  | Update p => execute_update env st deadline p
  | Query p => execute_query env st deadline p
  | Kvs p => execute_get_kvs env st (Ptr p)
  | Export _ => None
  end.

Lemma answered_holds s h b r rc (st : exec_state S) : rc < 0 ∨ rc = 0 ∧ result_ok s r →
  ∃ out, answered junk behind (statement_type s) (r, rc, st) h b = Some (rc, out, st) ∧ DataBuffer.holds out (message_bytes (answer_fields h r rc)).
Proof.
  intros Hr. unfold answered, answer_fields. destruct Hr as [Hrc|[-> Hr]].
  - rewrite (proj2 (Z.eqb_neq rc 0)), (proj2 (Z.ltb_lt rc 0)) by lia. destruct (gen_error_holds junk junk_len rc h b) as (out & -> & Hout). by exists out.
  - change (0 =? 0) with true. cbv iota.
    assert (∃ out, gen_result_packet junk behind (statement_type s) r h b = Some out ∧ DataBuffer.holds out (message_bytes (packet_fields MT_DM_RS h
      (match r with HandlerId id => number_body 8 id | ResultNumber n => number_body 4 n | ResultRows size rows => rows_body size rows | _ => [] end))))
      as (out & -> & Hout); [|by exists out].
    destruct s, r as [|it|size rows|n|id]; cbn [result_ok] in Hr; try done.
    + apply (gen_number_holds junk junk_len 8 id h b). auto.
    + apply (gen_number_holds junk junk_len 4 n h b). auto.
    + apply (gen_number_holds junk junk_len 4 n h b). auto.
    + by apply (gen_query_holds junk junk_len behind behind_len); destruct Hr.
    + by apply (gen_query_holds junk junk_len behind behind_len); destruct Hr.
Qed.

(** The statement of a received message. *)
Lemma process_statement s h rbuf pre sbuf refused load deadline (st st' : exec_state S) r rc :
  statement_ok MB_SIZE s → message_type h = statement_type s → accepted s refused load →
  received rbuf (pre ++ message_bytes (statement_fields s)) → rpos rbuf = zlen pre → array_border rbuf = 0 →
  execute_statement st deadline s = Some (r, rc, st') →
  process_mergeserver_message junk behind env st h rbuf sbuf refused load deadline = Ptr <$> answered junk behind (statement_type s) (r, rc, st') h sbuf.
Proof.
  intros Hs Ht Ha Hrec Hr Hbd Hx. assert (0 ≤ MB_SIZE < 2 ^ 31) as Hp by done.
  assert (received rbuf (pre ++ message_bytes (statement_fields s) ++ [])) as Hrec' by by rewrite app_nil_r.
  unfold process_mergeserver_message. rewrite Ht. destruct s as [p|p|p|p|p|p]; cbn [statement_ok statement_fields statement_type accepted execute_statement] in *.
  - change (MT_MD_EXE_INSERT =? MT_MD_EXE_INSERT) with true. cbv iota.
    rewrite (parses_insert MB_SIZE Hp p Hs rbuf pre [] Hrec' Hr Hbd). cbn [mbind option_bind executed]. by rewrite Hx.
  - change (MT_MD_EXE_DELETE =? MT_MD_EXE_INSERT) with false. change (MT_MD_EXE_DELETE =? MT_MD_EXE_DELETE) with true. cbv iota. rewrite Ha. cbv iota.
    rewrite (parses_delete MB_SIZE Hp p Hs rbuf pre [] Hrec' Hr Hbd). cbn [mbind option_bind executed]. by rewrite Hx.
  - change (MT_MD_EXE_UPDATE =? MT_MD_EXE_INSERT) with false. change (MT_MD_EXE_UPDATE =? MT_MD_EXE_DELETE) with false.
    change (MT_MD_EXE_UPDATE =? MT_MD_EXE_UPDATE) with true. cbv iota. rewrite Ha. cbv iota.
    rewrite (parses_update MB_SIZE Hp p Hs rbuf pre [] Hrec' Hr Hbd). cbn [mbind option_bind executed]. by rewrite Hx.
  - done.
  - change (MT_MD_EXE_QUERY =? MT_MD_EXE_INSERT) with false. change (MT_MD_EXE_QUERY =? MT_MD_EXE_DELETE) with false.
    change (MT_MD_EXE_QUERY =? MT_MD_EXE_UPDATE) with false. change (MT_MD_EXE_QUERY =? MT_MD_EXE_QUERY) with true. cbv iota. destruct Ha as [-> ->].
    change (negb (0 =? 0)) with false. cbv iota.
    rewrite (parses_query MB_SIZE Hp p Hs rbuf pre [] Hrec' Hr Hbd). cbn [mbind option_bind executed]. by rewrite Hx.
  - change (MT_MD_EXE_GET_KVS =? MT_MD_EXE_INSERT) with false. change (MT_MD_EXE_GET_KVS =? MT_MD_EXE_DELETE) with false.
    change (MT_MD_EXE_GET_KVS =? MT_MD_EXE_UPDATE) with false. change (MT_MD_EXE_GET_KVS =? MT_MD_EXE_QUERY) with false.
    change ((MT_MD_EXE_GET_KVS =? MT_MD_EXE_EXPORT) || (MT_MD_EXE_GET_KVS =? MT_MD_GET_STATE)) with false.
    change (MT_MD_EXE_GET_KVS =? MT_MD_EXE_GET_KVS) with true. cbv iota.
    rewrite (parses_get_kvs MB_SIZE Hp p Hs rbuf pre [] Hrec' Hr Hbd). cbn [mbind option_bind]. by rewrite Hx.
Qed.

Lemma statement_group s : Z.land (statement_type s) 0xFF00 = MT_VG_MD.
Proof. by destruct s. Qed.

(** C8: from the bytes of a message to the bytes of its answer.  A connection has
    received the message of an INSERT, DELETE, UPDATE, SELECT or a query of rows by
    their ids, and maybe more.  The message is cut out as a whole, not before its last
    byte.  If its time is not over and the server accepts it, the statement that it
    encodes is executed, with the deadline that it asks for, and the answer is the
    encoding of the result, or of the error code and its text.  A server does not
    accept a DELETE, UPDATE or SELECT while the processor is busy, for which it sends
    no answer, nor a SELECT under a high load. *)
Theorem statement_answered segments_in uninit threshold st st' s h timeout launch_time now refused load rest sbuf r rc :
  statement_ok MB_SIZE s → head_ok h timeout → message_type h = statement_type s → zlen (message_bytes (statement_fields s)) < 2 ^ 29 →
  timeout = 0 ∨ u64 (now - launch_time / 1000) ≤ timeout → accepted s refused load →
  execute_statement st (u64 (now + timeout)) s = Some (r, rc, st') → rc < 0 ∨ rc = 0 ∧ result_ok s r →
  let m := message_bytes (message_fields h timeout (statement_fields s)) in
  (∀ k, 0 ≤ k < zlen m → pre_parse_packet (take (Z.to_nat k) m) = Some NULL) ∧
  ∃ rbuf out, pre_parse_packet (m ++ rest) = Some (Ptr (rbuf, message_type h, zlen m)) ∧
    parse_mile_message junk behind env segments_in uninit now st threshold rbuf sbuf launch_time refused load = Some (Ptr (rc, out, st', threshold)) ∧
    DataBuffer.holds out (message_bytes (answer_fields h r rc)).
Proof.
  intros Hs Hh Ht Hl Htime Ha Hx Hr m. split; [intros k Hk; by apply pre_parse_part|].
  destruct (pre_parse_message h timeout (statement_fields s) rest Hh Hl) as (b & E & Hrec & Hrp & Hbd).
  destruct (answered_holds s h sbuf r rc st' Hr) as (out & Eout & Hout).
  exists b, out. split; [exact E|]. split; [|done].
  set (front := message_bytes (head_fields (message_type h) h ++ [Int32 timeout])).
  assert (received b (front ++ message_bytes (statement_fields s))) as Hrec'.
  { unfold front. rewrite <- message_bytes_app, <- app_assoc. exact Hrec. }
  unfold parse_mile_message. rewrite (parses_head h timeout Hh b [] (message_bytes (statement_fields s)) Hrec' Hrp Hbd). fold front. cbn [mbind option_bind].
  assert (negb (timeout =? 0) && (timeout <? u64 (now - launch_time / 1000)) = false) as ->.
  { destruct Htime as [->|Htime]; [done|]. rewrite (proj2 (Z.ltb_ge _ _)) by lia. apply andb_false_r. }
  rewrite Ht, statement_group. change (MT_VG_MD =? MT_VG_MD) with true. cbv iota.
  rewrite (process_statement s h (set_rpos b (zlen [] + zlen front)) front sbuf refused load (u64 (now + timeout)) st st' r rc); [by rewrite Eout|done..].
Qed.
End answered.

(** ** A SELECT on the wire *)

(** The server on the database of [demo_db_run]. *)
Definition demo_server (vs : vstorage_manager) : option (exec_state vstorage_manager) :=
  '(rc, db0) ← db_init (calm false 0 merge_qsort) demo_hash 1 (demo_start vs) (demo_conf false) (no_db_files 3);
  db ← db_run (calm false 0 merge_qsort) demo_hash 2 demo_types db0 (demo_db_run vs);
  Some (Exec db 0 0).

(** [SELECT a FROM t WHERE n = "AB"], sent with a timeout of 100 milliseconds. *)
Definition demo_select_packet : wire_statement :=
  Query (WQuery 0 (Ptr [116]) (Ptr [0; 2 ^ 64 - 1; 0; 0]) [WSelect 0 (Ptr [97]) (Ptr [97]) 0 NULL NULL] []
    [WCond 1 (Ptr [110]) 7 [Dyn 254 [65; 66] 2]] [] [] 0 [] 0).
Definition demo_head : mile_message_header := Head 1 0 MT_MD_EXE_QUERY 7.

Definition demo_answer_row (x id : Z) : select_row_t :=
  SelectRow [Cell (Ptr [97]) (Plain (LowData HI_TYPE_TINY [x] 1))] [SELECT_TYPE_ORIGINAL] (Ptr (Handler id d0)).

(** Documents 1 in segments 1 and 0. *)
Definition demo_answer_rows : list select_row_t := [demo_answer_row 3 (2 ^ 32 + 1); demo_answer_row 9 1].

Lemma demo_head_ok : head_ok demo_head 100.
Proof.
  assert (∀ x y : Z, (0 <=? x) && (x <? y) = true → 0 ≤ x < y) as H by (intros x y; rewrite andb_true_iff, Z.leb_le, Z.ltb_lt; done).
  split; [by apply H|]. split; [by apply H|]. split; [by apply H|]. split; by apply H.
Qed.

Lemma demo_select_packet_ok : statement_ok MB_SIZE demo_select_packet.
Proof.
  assert (∀ c, c ≠ 0 → ptr_ok MB_SIZE (Ptr [c])) as Hn by (intros; by apply demo_name_ok).
  cbn [statement_ok demo_select_packet]. unfold query_ok.
  cbn [wq_access_type wq_table_name wq_hints wq_select_field wq_index_cond wq_filter_cond wq_group_array wq_group_order_array wq_group_limit wq_order_array wq_limit].
  split; [done|]. split; [by apply Hn|]. split; [split; [done|]; split; [|done]; repeat (apply Forall_cons_2; [lia|]); apply Forall_nil_2|].
  split; [split; [|done]; apply Forall_cons_2; [left; split; [done|]; split; [by apply Hn|]; split; [by apply Hn|]; done|apply Forall_nil_2]|].
  split; [split; [apply Forall_nil_2|done]|]. split.
  { split; [|done]. apply Forall_cons_2; [|apply Forall_nil_2]. left. split; [done|]. split; [by apply Hn|]. split; [done|]. split; [|done].
    apply Forall_cons_2; [|apply Forall_nil_2]. right. do 4 (split; [done|]). right. by right; right. }
  split; [split; [apply Forall_nil_2|done]|]. split; [split; [apply Forall_nil_2|done]|]. split; [done|]. split; [|done]. split; [apply Forall_nil_2|done].
Qed.

Lemma demo_rows_ok : Forall answer_row_ok demo_answer_rows.
Proof.
  assert (∀ x id, 0 ≤ x < 256 → answer_row_ok (demo_answer_row x id)) as H.
  { intros x id Hx. apply Forall_cons_2; [|apply Forall_nil_2]. split; [done|]. split; [by apply Forall_cons_2; [|apply Forall_nil_2]|]. by right; right; left. }
  apply Forall_cons_2; [by apply H|]. apply Forall_cons_2; [by apply H|apply Forall_nil_2].
Qed.

Lemma statement_answered_witness :
  ∃ vs st st' rbuf out, vstorage_init true false 0 [] [] 2 = Ptr vs ∧ demo_server vs = Some st ∧
    pre_parse_packet (message_bytes (message_fields demo_head 100 (statement_fields demo_select_packet)) ++ [0; 0]) = Some (Ptr (rbuf, MT_MD_EXE_QUERY, 120)) ∧
    parse_mile_message fresh_170 (fresh_170 4) (demo_exec vs) (λ _, None) 0 20 st (S754_zero false) rbuf init_data_buffer 4000 false 0 = Some (Ptr (0, out, st', S754_zero false)) ∧
    DataBuffer.holds out (message_bytes (packet_fields MT_DM_RS demo_head (rows_body 2 demo_answer_rows))).
Proof.
  eassert (∃ vs st st', vstorage_init true false 0 [] [] 2 = Ptr vs ∧ demo_server vs = Some st ∧
    execute_statement (demo_exec vs) st (u64 (20 + 100)) demo_select_packet = Some (ResultRows 2 demo_answer_rows, 0, st')) as (vs & st & st' & Hvs & Hst & Hx).
  { eexists _, _, _. split; [vm_compute; reflexivity|]. split; [vm_compute; reflexivity|]. vm_compute; reflexivity. }
  assert (head_ok demo_head 100) as Hh by exact demo_head_ok.
  assert (zlen (message_bytes (statement_fields demo_select_packet)) < 2 ^ 29) as Hl by (vm_compute; reflexivity).
  assert (100 = 0 ∨ u64 (20 - 4000 / 1000) ≤ 100) as Ht by (right; vm_compute; discriminate).
  assert (zlen (message_bytes (rows_body 2 demo_answer_rows)) < 2 ^ 28) as Hr by (vm_compute; reflexivity).
  pose proof (statement_answered fresh_170 fresh_170_len (fresh_170 4) ltac:(done) (demo_exec vs) (λ _, None) 0 (S754_zero false) st st' demo_select_packet demo_head 100 4000 20 false 0 [0; 0]
    init_data_buffer (ResultRows 2 demo_answer_rows) 0 demo_select_packet_ok Hh eq_refl Hl Ht (conj eq_refl eq_refl) Hx
    (or_intror (conj eq_refl (conj demo_rows_ok Hr)))) as (_ & rbuf & out & E & Eout & Hout).
  exists vs, st, st', rbuf, out. split; [exact Hvs|]. split; [exact Hst|]. split; [exact E|]. split; [exact Eout|exact Hout].
Defined.
